(* ===== verification/_CoqProject ===== *)
-Q . S2P
Prelude.v
Crates.v
Types.v
WalFormat.v
WalReader.v
Files.v
WalWriter.v
SegmentFormat.v
Segment.v
SegmentFacts.v
Metadata.v
MetadataFacts.v
TenantStore.v
Persistent.v
Runs.v
TenantInv.v
TenantFacts.v
Recovery.v
PersistentFacts.v
AddFacts.v
Rewrite.v
RewriteFacts.v
StoreSpec.v
Concrete.v
WalProps.v
SegmentProps.v
MetadataProps.v
Sweep.v
SupersessionProps.v
StoreProps.v
RewriteProps.v
OmfTime.v
Ranking.v
Fusion.v
FloatFacts.v
Packer.v
Str.v
Sentence.v
Chunking.v
Tokenizer.v
Bm25.v
Reranker.v
Admission.v
Bm25Props.v
EmbeddingCache.v
DenseIndex.v
DenseFacts.v
DenseProps.v
DenseSearcher.v
SemanticCache.v
Tiered.v
TieredProps.v
Hybrid.v
HybridProps.v
Compaction.v
CompactionProps.v
Journal.v
JournalFacts.v
Promotion.v
JournalProps.v
Consolidate.v
Overlay.v
ConsolidateFacts.v
ConsolidateProps.v
Lifecycle.v
LifecycleFacts.v
LifecycleProps.v
Outcome.v
Episodes.v
EpisodeStore.v
EpisodesFacts.v
MemoryStore.v
Dedup.v
MemoryAdd.v
MemoryFacts.v
EpisodeProps.v
MemoryProps.v
MemoryAddProps.v
MemoryOps.v
Search.v
