(* ===== verification/Prelude.v ===== *)
(** * memd: a verification library

    memd is a local-first memory service.  Its crate src/crates/memd keeps,
    for every tenant, a write-ahead log, append-only segments of payloads
    with tombstones, and one SQLite table of chunk metadata.  Text enters
    through chunkers, is embedded and put into a dense and a sparse index,
    and comes back through a hybrid search whose candidates are fused,
    reranked and packed into a context; caches sit in front of it.  This
    library models the storage core, crashes included, the text processing,
    the dense index bookkeeping, the hybrid search with its caches, the
    ranking arithmetic, the admission of writes, the operations that add,
    read, delete and search memories, and the time stamps of the exchange
    format, and proves that they keep their promises.

    ** Parts of the program and where they are modelled

    Shared:
    - Prelude.v: Rust's results and errors, machine integers with their
      wrap-around, byte slices, generic lemmas, the hint database [memd].
    - Crates.v: one class per third-party crate the core calls (byteorder,
      crc32fast, bincode, serde_json, roaring, uuid, sha2, BufWriter's
      capacity, the Unicode tables), and a class of laws that state the
      documented behaviour.  Concrete.v instantiates all of them, with the
      laws proved: little-endian bytes and the IEEE CRC-32 are the real
      algorithms, the codecs are injective encodings.
    - Types.v (types.rs): identifiers, enums with their text, chunks, the
      lifecycle overlay with [LifecycleMetadata::apply], the visibility policy.

    The storage core:
    - Files.v: files as current and durable bytes, handles in append and in
      plain mode, what a crash may leave.
    - WalFormat.v, WalReader.v, WalWriter.v (store/wal/): the record codec
      byte by byte, the read loop, the cut at the last checkpoint, replay over
      the handler class, the writer with its cursor.
    - SegmentFormat.v, Segment.v (store/segment/, store/tombstone.rs): index
      records, the writer with its buffer, the reader, tombstones.  A writer
      operation returns the list of its effects on the directory, whose
      prefixes are its crash points.
    - Metadata.v (store/metadata/sqlite/): the [chunks] table as a finite map
      with the statements that read and write it, the row codec, the
      lifecycle statements; canonical text (store/supersession.rs).
    - Journal.v (consolidate/journal.rs, sqlite/consolidation.rs): the
      consolidation runs, their entries and the lineage edges as tables
      beside [chunks], every statement and transaction on them.
    - Consolidate.v (consolidate/service.rs): the service above the journal:
      validation, promotion, recovery, review, waiting for another task's
      run.  Its state [Svc] puts the journal tables beside the store.
    - Lifecycle.v (store/persistent/write.rs, lifecycle.rs): the writes that
      carry a document or a lifecycle, consolidation candidates, and the
      whole supersession of a chunk, compensation included.
    - Sweep.v (compaction/): the expiry sweep and the history promotion;
      Compaction.v (compaction/): thresholds and metrics, and the whole cycle
      over the table, the dense index, the sparse index and the query cache.
    - TenantStore.v (store/persistent/recovery.rs): the per-tenant store and
      its whole recovery, in a state and error monad that records every world
      it passes through.  Rewrite.v (the same file): the rewriting of
      finalized segments, directories removed included.
    - Persistent.v (store/persistent/write.rs, read.rs, retrieval.rs,
      lifecycle.rs): adding a batch, deleting, reading, the cycle check and
      the checks before a supersession.

    What retrieval learns:
    - Outcome.v (store/outcome.rs, store/feedback.rs): retrieval episodes,
      outcomes and priors with their validation and floating point; relevance
      feedback and the adjusted scores.
    - EpisodeStore.v: the abstract state of episodes and outcomes, and the
      interface that a store of them promises ([EpisodeStore],
      [EpisodeStoreLaws]), after the trait [Store] (store/mod.rs).
    - Episodes.v (store/metadata/sqlite/episodes.rs): the three SQLite tables
      behind it, the implementation of the persistent store.
    - MemoryStore.v (store/memory.rs): the in-memory store, which implements
      both this interface and the trait's calls on chunks.

    Text:
    - Str.v: Rust's [str] as its UTF-8 bytes with the methods the chunkers
      use; Sentence.v (text/sentence.rs): sentence splitting; Chunking.v
      (chunking.rs, store/shared_add.rs): the chunker and what the write path
      does with it; Tokenizer.v (text/tokenizer.rs): the tokens of the sparse
      index.
    - Admission.v (write_admission.rs, auto_priority.rs, write_service.rs):
      what a text is worth before it is stored: the decision, the priority
      tags and the retention defaults of a write.

    Operations:
    - Dedup.v (dedup.rs, ops/error.rs, the trigrams of store/supersession.rs):
      which stored chunks a new one should supersede; the errors of operations.
    - MemoryAdd.v (ops/add.rs and its helpers in ops/mod.rs): memory.add and
      memory.add_batch from the request to the answer, over the persistent or
      the in-memory store, in a monad whose state also holds the usage ledger.
      What the handlers read around them (environment, clock, new ids) is a
      record of surroundings.
    - MemoryOps.v (ops/lifecycle.rs): memory.get with the visibility it
      applies, memory.delete, memory.set_expiry and memory.supersede.
    - Search.v (ops/search.rs, its helpers in ops/mod.rs, the scores of
      store/mod.rs): memory.search from the request to the chunks it serves
      and the retrieval episode it records.  What the searchers, the listing,
      the task memory and the outcome priors answer is a record of lanes.

    Search:
    - DenseIndex.v, DenseSearcher.v (index/, store/dense.rs): the
      mapping between chunk ids and internal ids, its persistence, tombstones
      and rebuilds, around a third-party graph that is a class with laws
      ([Hnsw]).  EmbeddingCache.v: the on-disk embedding cache.
    - Bm25.v (index/sparse.rs, index/bm25.rs): the trait [SparseIndex], which
      Consolidate.v uses, and its implementation around Tantivy, a class with
      laws about what is staged, committed and visible.
    - Ranking.v, Fusion.v, Packer.v (retrieval/): score comparison,
      reciprocal rank fusion, the packing of results into a budget.
      Reranker.v (retrieval/reranker.rs, onnx_cross_encoder.rs): the feature
      reranker and the cross encoder with its fallbacks, from the tokens of a
      pair to the scores of the logits, in the binary floating point whose
      lemmas are in FloatFacts.v.
    - SemanticCache.v, Tiered.v (tiered/): the cache of queries and the hot
      tier with its promotions.
    - Hybrid.v (store/hybrid.rs): the searcher that composes all of these:
      it indexes into the dense and the sparse index, searches both or the
      tiers of the tenant, fuses, and keeps a memory version per tenant that
      the cached answers carry.
    - OmfTime.v (omf/): RFC 3339 time stamps and civil dates.

    The state of a tenant is [TenantStore] (memory) and [World] (disk: log,
    segment directories, metadata table, task tables); the fields carry the
    names of the Rust fields.  SQLite transactions are atomic effects on the
    table.  A crash ([crash_world]) keeps the committed table and loses what
    files had not synced: a killed process, or a power loss after which the
    database kept its commits.  The database runs with synchronous=NORMAL, so a
    power loss may also take commits back; [recovery_outruns_table] shows what
    that costs.

    ** What the theorems show

    - StoreProps.v: the store refines a map from ids to chunks.  Every
      admissible add, delete, read and segment rewrite returns, answers what
      the map answers and leaves the map after the command
      ([store_refines_map]); a crash between commands keeps the map
      ([crash_between_commands]); a crash at any effect inside a command
      leaves every chunk as before or as after it ([crash_inside_command]);
      whole histories with crashes answer like the map
      ([history_refines_map]); recovery itself is characterised
      ([open_recovers]), and so are the first open, shutdown and retrieval.
      [torn_tail_hides_appends] and [recovery_outruns_table] are the cases
      recovery misses: a torn record directly behind the last checkpoint, and
      commits that a power loss takes back.
      The proofs rest on Runs.v (a Hoare-style predicate with an invariant for
      every intermediate world), TenantInv.v (the invariant of a recoverable
      disk), TenantFacts.v, Recovery.v, PersistentFacts.v, AddFacts.v,
      RewriteFacts.v and StoreSpec.v (the abstract store and the simulation).
    - RewriteProps.v: a rewrite keeps every live chunk, drops the deleted
      rows and leaves only full segments ([rewrite_compacts]); with the ids
      it takes from the surviving rows it can meet a directory that still
      exists ([rewrite_reuses_segment_ids]).
    - WalProps.v: the record round trip, refusal of every cut, termination of
      the read loop, crash safety of a batch append, recovery from the last
      checkpoint, idempotence of replay, truncation.
    - SegmentProps.v, SegmentFacts.v: payloads survive append, finalize and
      reopen; every crash point of finalize is safe; deletes are persistent
      and exact; reads are checked; counts do not underflow.
    - MetadataProps.v, MetadataFacts.v: the table invariant through every
      writing statement, the SQL against [LifecycleMetadata::apply] and
      against the visibility policy, supersession edges, purge, row codec.
    - JournalProps.v, JournalFacts.v, Promotion.v: the journal invariant and
      the state machine of a run under every interleaving of the statements
      with each other and with other writers; candidates of a run become
      visible together; when exactly a promotion commits.
    - ConsolidateProps.v, ConsolidateFacts.v: recoveries and reviews take
      only steps of that protocol and change nothing of the stored chunks but
      statuses ([service_refines_protocol]); a run without drift is committed
      by one recovery pass from any state a crash leaves it in
      ([recovery_commits]); a review decides ([review_decides]).  They rest on
      Overlay.v: a store that implements a map still does after any write to
      the lifecycle columns.
    - LifecycleProps.v, LifecycleFacts.v: a supersession stores the new chunk,
      links both and changes nothing else ([supersede_exact]); a crash at any
      point of it loses no content, and the old chunk reads differently only
      when the whole replacement is readable ([supersede_crash_safe]); one that fails because another writer came
      first deletes the chunk it had added ([supersede_all_or_nothing]).
    - EpisodeProps.v: any sequence of calls on the SQLite tables answers as the
      abstract episodes do ([sqlite_refines_episodes]); the in-memory store
      answers the same ([episode_stores_agree]); what is stored stays valid
      ([stored_episodes_valid]); a prior counts every episode once
      ([outcome_priors_exact]); a rendered order is written exactly or not at
      all ([rendered_order_exact]).  Both stores discharge the laws of the
      interface, in EpisodesFacts.v and MemoryFacts.v; Outcome.v states
      the validations as propositions, EpisodeStore.v proves what follows
      from the interface alone.
    - MemoryProps.v: adds, deletes and reads of chunks answer alike on the
      in-memory and the persistent store ([chunk_stores_agree]), but for
      candidates and failed chunks, which the first does not show.
    - MemoryAddProps.v: what memory.add does on each branch, what it writes to
      the store and to the usage ledger ([handle_add_exact]); a memory that is
      added twice is stored once ([memory_add_idempotent]); a batch stores
      each new content once and answers every position
      ([memory_add_batch_exact]).
    - MemoryOps.v: reads, deletions and expiries refine a map from ids to
      chunks with their lifecycle ([memory_ops_refine]); what the reason for
      hiding a chunk says, and when it misleads ([hidden_reason_exact]).
    - Search.v: a search ends, serves stored chunks that the policy shows, for
      candidates that pass the filters, each once and at most [k]
      ([memory_search_exact]); the store accepts the episode it records
      ([search_episode_valid]).
    - SupersessionProps.v: the cycle check terminates and is exact for chains
      of any length, the checks before a supersession are exact, chains stay
      finite.
    - Sweep.v, Types.v: exactness and idempotence of the background jobs,
      path safety of tenant ids, visibility, enum parsing.
    - Sentence.v, Chunking.v, Tokenizer.v: sentences and chunks are slices of
      the text, in order, that lose nothing but blanks; loops terminate.
    - DenseProps.v (with DenseFacts.v): the index refines a finite map of
      chunk ids to vectors, also through save and load.
    - Bm25Props.v: any sequence of calls on the sparse index answers as a
      collection of documents does, a search with the best chunks by the
      engine's scores, once each ([bm25_index_exact]).
    - CompactionProps.v: a cycle hides exactly what is not visible and loses
      nothing else ([compaction_hides]).
    - EmbeddingCache.v, SemanticCache.v, TieredProps.v: capacity, expiry,
      coherence of the caches with what they cache.  A law of every answer a
      cache may give is proved once over its operations ([cache_all]).  The
      hot tier is bounded, and every entry of it was promoted by a call that
      found the chunk's embedding and a high enough score
      ([hot_tier_bounded]).
    - HybridProps.v: an answer from the query cache was computed by a search
      since the last change of the tenant's memory ([hybrid_cache_fresh]); a
      search, through the tiers or not, returns the best of the fused
      candidates of both indexes, in order ([hybrid_search_exact]); a deleted
      chunk can come back only through the dense list, whose index keeps it
      ([hybrid_delete_hides]).
    - Reranker.v: every chunk comes back once, with the score its mode
      computes for it, sorted; the cross encoder runs just when it is
      configured and its model loads, and where the model gives no scores
      the words a chunk shares with the query do ([rerank_exact]).
    - Admission.v: no write gets a high priority it has not earned
      ([priority_gate]); which writes are short-lived; what the defaults added
      can be taken away again and nothing of the caller's is lost
      ([retention_exact]).
    - Ranking.v, Fusion.v, Packer.v: orders are total, fusion does not
      depend on the order of its sources, packing respects its budget.
    - OmfTime.v: the civil-date conversion is a bijection.

    ** Parameters

    Code outside src/ is an argument: the crates of Crates.v, the graph of
    hnsw_rs ([Hnsw] with laws), the C library's floating point functions
    ([Libm], [Powf], [Exp]), the embedding model ([Embedder]), the
    tokenizer and the session of the cross encoder with the loading of their
    files ([OnnxRuntime]), the iteration order of a
    HashMap ([HashIter]), word segmentation and stemming, the removal of a
    directory tree ([Removal]), JSON values ([JsonCodec], [JsonText]), the order in which SQLite scans a table ([TableScan]), the engine of the
    sparse index ([Tantivy]), Unicode's alphanumeric characters
    ([AlphaNumeric]), the display text of errors ([ErrorText]), the standard library's unspecified
    hasher ([DefaultHasher]), ISO dates and the JSON text of two scores
    ([IsoDatetime], [LaneScores]).  Every theorem that assumes laws of such a
    class has a witness with a concrete instance.

    ** Fuel and bounds

    Loops that are not structural carry fuel.  [WalReader.read_loop] gets one
    unit more than the log has bytes; every decoded record consumes at least a
    header, so it never runs out ([wal_read_total]).
    [Persistent.detect_cycle_loop] gets two units more than the table has
    rows; every step visits a new row ([supersession_cycle_check_exact]).
    The loops of the chunkers get the number of bytes or sentences, and each
    round consumes at least one.  A scan of the pages of a project gets one unit
    more than the rows it may scan, and each page scans a row
    ([scan_pages_ok]).  Lengths and ordinals are cast to 32 bits as in the
    code; the theorems that need it assume payloads and encoded records below
    2^32 bytes and at most 2^32 - 1 chunks per segment.  Segment ids,
    timestamps of the store and the memory version that a compaction passes
    on are unbounded integers here.

    ** Not modelled

    - The model runtimes, the Tantivy engine, the SQL engine, tree-sitter:
      third-party code; what the modelled code relies on is a parameter with
      laws.
    - Locks and threads: each operation is one sequential run; interleavings
      appear as sequences of operations.
    - The command line, the warm server, metrics, logging, configuration:
      process, socket and environment glue.  The operations (ops/) other than
      those of MemoryAdd.v, MemoryOps.v and Search.v, which parse requests and
      print responses over the store; of memory.search, tier debugging and the
      shaping of the answer (siblings, artifacts, token budget, scope status); the JSON text of the answers; what a store
      does with a usage event.
    - The structural index (structural/) walks syntax trees that a
      third-party parser returns; its queries are SQL joins.
    - Task memory, experience notes, import and export: text rendering and
      JSON over the store's calls that are modelled here.
    - Inside modelled files: the dense index next to the lifecycle paths, the
      execution of a fresh consolidation, read-only opening, the task
      artifacts (those of the in-memory store too). *)

From stdpp Require Export base tactics gmap strings list list_numbers numbers.
From stdpp Require Export fin_maps.
From Stdlib Require Export ZArith Lia.
From coqutil Require Export Byte.

(* ------------------------------------------------------------------ *)
(** ** Results: Rust's [Result<T, E>] with its [?] operator *)

Declare Scope memd_scope.
Delimit Scope memd_scope with memd.
Open Scope memd_scope.

(** Rust's [Result<T, E>]. *)
Inductive Result (E A : Type) : Type :=
| Ok (a : A)
| Err (e : E).
Arguments Ok {_ _} _.
Arguments Err {_ _} _.

(** The [?] operator: stop at the first error. *)
#[export] Instance result_bind {E} : MBind (Result E) :=
  λ A B f m, match m with Ok a => f a | Err e => Err e end.
#[export] Instance result_ret {E} : MRet (Result E) := λ A a, Ok a.
#[export] Instance result_fmap {E} : FMap (Result E) :=
  λ A B f m, match m with Ok a => Ok (f a) | Err e => Err e end.

(** [.map_err(f)] *)
Definition map_err {E F A} (f : E → F) (m : Result E A) : Result F A :=
  match m with Ok a => Ok a | Err e => Err (f e) end.

(** [Option::ok_or] *)
Definition ok_or {E A} (o : option A) (e : E) : Result E A :=
  match o with Some a => Ok a | None => Err e end.

(** [Result::ok] *)
Definition res_ok {E A} (m : Result E A) : option A :=
  match m with Ok a => Some a | Err _ => None end.

(** [Result::is_ok] *)
Definition is_ok {E A} (m : Result E A) : bool :=
  match m with Ok _ => true | Err _ => false end.

(** A [for] loop whose body returns a [Result] and threads a state. *)
Fixpoint try_fold {E A B} (f : B → A → Result E B) (l : list A) (b : B) : Result E B :=
  match l with
  | [] => Ok b
  | a :: l => b' ← f b a; try_fold f l b'
  end.

(* ------------------------------------------------------------------ *)
(** ** Errors *)

(** [std::io::ErrorKind], the kinds the storage code produces itself.
    Messages keep the literal text of the source's format string; the
    interpolated values are not kept. *)
Inductive ErrorKind : Type :=
| NotFound
| AlreadyExists
| InvalidInput
| InvalidData
| UnexpectedEof
| Other.

Record IoErr : Type := io_err { io_kind : ErrorKind; io_msg : string }.

(** The variants of [MemdError] the modelled code can return. *)
Inductive MemdError : Type :=
| ValidationError (msg : string)
| StorageError (msg : string)
| ReadOnlyStore (op : string)
| IoError (e : IoErr)
| DatabaseError (msg : string)
| EmbeddingError (msg : string)
| IndexBusy (reason : string)
| DenseIndexModelMismatch (store_dim model_dim : nat).

#[export] Instance ErrorKind_eq_dec : EqDecision ErrorKind.
Proof. solve_decision. Defined.
#[export] Instance IoErr_eq_dec : EqDecision IoErr.
Proof. solve_decision. Defined.
#[export] Instance MemdError_eq_dec : EqDecision MemdError.
Proof. solve_decision. Defined.

(** [to_string] of an error; the model shortens the texts of errors, so the
    text that is kept or shown is a parameter. *)
Class ErrorText : Type := { error_to_string : MemdError → string }.

(** [io::Result<T>] and [crate::error::Result<T>]. *)
Abbreviation io_result := (Result IoErr).
Abbreviation memd_result := (Result MemdError).

(** The [From<io::Error>] conversion the [?] operator applies. *)
Definition lift_io {A} (m : io_result A) : memd_result A := map_err IoError m.

(* ------------------------------------------------------------------ *)
(** ** Machine integers *)

(** Wrap-around at a given width: the value of an unsigned [as] cast. *)
Definition wrapu (w : Z) (z : Z) : Z := (z mod 2 ^ w)%Z.
Definition as_u8 (z : Z) : Z := wrapu 8 z.
Definition as_u32 (z : Z) : Z := wrapu 32 z.
Definition as_u64 (z : Z) : Z := wrapu 64 z.

(** Signed [as] casts: two's complement. *)
Definition wraps (w : Z) (z : Z) : Z := ((z + 2 ^ (w - 1)) mod 2 ^ w - 2 ^ (w - 1))%Z.
Definition as_i32 (z : Z) : Z := wraps 32 z.
Definition as_i64 (z : Z) : Z := wraps 64 z.

Definition u32_max : Z := 4294967295%Z.
Definition u64_max : Z := 18446744073709551615%Z.

(** The range predicates of the unsigned types. *)
Definition in_u32 (z : Z) : Prop := (0 ≤ z < 2 ^ 32)%Z.
Definition in_u64 (z : Z) : Prop := (0 ≤ z < 2 ^ 64)%Z.

(** The length of a vector as an integer, and slicing by integers. *)
Definition zlen {A} (l : list A) : Z := Z.of_nat (length l).
Definition zslice {A} (a b : Z) (l : list A) : list A :=
  take (Z.to_nat (b - a)) (drop (Z.to_nat a) l).

(** [saturating_sub] and [saturating_add] on [u64]. *)
Definition sat_sub_u64 (a b : Z) : Z := Z.max 0 (a - b).
Definition sat_add_u64 (a b : Z) : Z := Z.min u64_max (a + b).
(** [saturating_sub] on [i64]. *)
Definition sat_sub_i64 (a b : Z) : Z := Z.max (- 2 ^ 63) (Z.min (2 ^ 63 - 1) (a - b)).

Create HintDb memd.
Create Rewrite HintDb memd.

#[export] Instance byte_eq_dec : EqDecision byte := Byte.byte_eq_dec.
#[export] Instance byte_countable : Countable byte.
Proof.
  apply (inj_countable Byte.to_N Byte.of_N). intros b. apply Byte.of_to_N.
Defined.

(* ------------------------------------------------------------------ *)
(** ** Generic lemmas *)

(** Case analysis on every [Result] bind in a hypothesis. *)
Ltac res_inv :=
  repeat match goal with
  | H : Ok _ = Ok _ |- _ => injection H as H; simplify_eq
  | H : Err _ = Err _ |- _ => injection H as H; simplify_eq
  | H : Ok _ = Err _ |- _ => discriminate H
  | H : Err _ = Ok _ |- _ => discriminate H
  | H : mbind _ ?m = Ok _ |- _ =>
      let E := fresh "E" in destruct m eqn:E; cbn [mbind result_bind] in H
  end.

Lemma as_u32_small z : in_u32 z → as_u32 z = z.
Proof. intros ?. apply Z.mod_small. done. Qed.

Lemma as_u64_small z : in_u64 z → as_u64 z = z.
Proof. intros ?. apply Z.mod_small. done. Qed.

(** Casting to the signed type of the same width and back is the identity. *)
Lemma as_u32_as_i32 z : in_u32 z → as_u32 (as_i32 z) = z.
Proof.
  unfold in_u32, as_u32, as_i32, wrapu, wraps. change (2 ^ (32 - 1))%Z with 2147483648%Z.
  change (2 ^ 32)%Z with 4294967296%Z. intros ?.
  Z.to_euclidean_division_equations. lia.
Qed.

Lemma as_u64_as_i64 z : in_u64 z → as_u64 (as_i64 z) = z.
Proof.
  unfold in_u64, as_u64, as_i64, wrapu, wraps. change (2 ^ (64 - 1))%Z with 9223372036854775808%Z.
  change (2 ^ 64)%Z with 18446744073709551616%Z. intros ?.
  Z.to_euclidean_division_equations. lia.
Qed.

Lemma as_u32_range z : in_u32 (as_u32 z).
Proof. apply Z.mod_pos_bound. lia. Qed.

Lemma zlen_app {A} (l k : list A) : zlen (l ++ k) = (zlen l + zlen k)%Z.
Proof. unfold zlen. rewrite length_app. lia. Qed.

Lemma zlen_nonneg {A} (l : list A) : (0 ≤ zlen l)%Z.
Proof. unfold zlen. lia. Qed.

Lemma zlen_nil {A} : zlen (@nil A) = 0%Z.
Proof. done. Qed.

Lemma zlen_cons {A} (x : A) l : zlen (x :: l) = (1 + zlen l)%Z.
Proof. unfold zlen. cbn [length]. lia. Qed.

(** Reading the middle block of a three-part buffer. *)
Lemma zslice_app_mid {A} (l m r : list A) a b :
  a = zlen l → b = (zlen l + zlen m)%Z → zslice a b (l ++ m ++ r) = m.
Proof.
  intros -> ->. unfold zslice, zlen.
  replace (Z.to_nat (Z.of_nat (length l) + Z.of_nat (length m) - Z.of_nat (length l)))
    with (length m) by lia.
  rewrite Nat2Z.id, drop_app_length. apply take_app_length.
Qed.

Lemma zslice_prefix {A} (m r : list A) b : b = zlen m → zslice 0 b (m ++ r) = m.
Proof. intros ->. by apply (zslice_app_mid [] m r). Qed.

(** A slice that lies inside the first part ignores the rest. *)
Lemma zslice_app_l {A} (l r : list A) a b :
  (0 ≤ a ≤ b)%Z → (b ≤ zlen l)%Z → zslice a b (l ++ r) = zslice a b l.
Proof.
  unfold zslice, zlen. intros [??] ?.
  rewrite drop_app_le by lia. rewrite take_app_le; [done|].
  rewrite length_drop. lia.
Qed.

Lemma try_fold_app {E A B} (f : B → A → Result E B) l k b :
  try_fold f (l ++ k) b = (b' ← try_fold f l b; try_fold f k b').
Proof.
  revert b. induction l as [|a l IH]; intros b; [done|].
  cbn. destruct (f b a); cbn; [apply IH | done].
Qed.

(** An invariant of the state is an invariant of the loop. *)
Lemma try_fold_inv {E A B} (f : B → A → Result E B) (P : B → Prop) l b b' :
  (∀ s a s', a ∈ l → P s → f s a = Ok s' → P s') →
  P b → try_fold f l b = Ok b' → P b'.
Proof.
  revert b. induction l as [|a l IH]; intros b Hstep Hb H; cbn in H.
  - by simplify_eq.
  - destruct (f b a) as [s|e] eqn:E1; cbn in H; [|done].
    apply (IH s); [|by eapply Hstep; [left|..] |done].
    intros s0 a0 s1 Ha. apply Hstep. by right.
Qed.

(** Injectivity that leaves the components as they are. *)
Lemma Ok_pair_inj {E A B} (a a' : A) (b b' : B) :
  (Ok (a, b) : Result E (A * B)) = Ok (a', b') → a = a' ∧ b = b'.
Proof. by intros [= -> ->]. Qed.

(** Filtering keeps images distinct. *)
Lemma NoDup_map_filter {A B} (f : A → B) (P : A → bool) (l : list A) :
  NoDup (map f l) → NoDup (map f (List.filter P l)).
Proof.
  induction l as [|x l IH]; cbn; [done|]. intros [Hx Hnd]%NoDup_cons. destruct (P x); [|auto].
  cbn. apply NoDup_cons. split; [|auto]. contradict Hx.
  apply list_elem_of_fmap in Hx as (y & -> & Hy). apply list_elem_of_fmap. exists y. split; [done|].
  apply list_elem_of_In, filter_In in Hy as [Hy _]. by apply list_elem_of_In.
Qed.

(** Distinct numbers below [n]: at most [n], and all of them if [n]. *)
Lemma distinct_below (l : list nat) n :
  NoDup l → (∀ x, x ∈ l → x < n)%nat →
  (length l ≤ n)%nat ∧ (length l = n → ∀ k, (k < n)%nat → k ∈ l).
Proof.
  intros Hnd Hlt. assert (Hsub : l ⊆+ seq 0 n).
  { apply NoDup_submseteq; [done|]. intros x Hx. apply elem_of_seq. specialize (Hlt x Hx). lia. }
  pose proof (submseteq_length _ _ Hsub) as Hle. rewrite length_seq in Hle. split; [done|].
  intros Heq k Hk. assert (Hp : l ≡ₚ seq 0 n).
  { apply submseteq_length_Permutation; [done|]. rewrite length_seq. lia. }
  rewrite Hp. apply elem_of_seq. lia.
Qed.

(** Distinct images have one preimage in the list. *)
Lemma NoDup_map_inj {A B} (f : A → B) (l : list A) x y :
  NoDup (map f l) → x ∈ l → y ∈ l → f x = f y → x = y.
Proof.
  intros Hnd [i Hi]%list_elem_of_lookup [j Hj]%list_elem_of_lookup E.
  assert (i = j) as ->; [|congruence]. eapply (NoDup_lookup (map f l)); [done| |].
  - exact (list_lookup_fmap_Some_2 f l i x Hi).
  - rewrite E. exact (list_lookup_fmap_Some_2 f l j y Hj).
Qed.

(** Filtering depends on the members only. *)
Lemma list_filter_ext_in {A} (P Q : A → Prop) `{!∀ x, Decision (P x), !∀ x, Decision (Q x)} (l : list A) :
  (∀ x, x ∈ l → P x ↔ Q x) → filter P l = filter Q l.
Proof.
  induction l as [|a l IH]; intros HPQ; [done|]. rewrite !filter_cons, IH.
  - destruct (decide (P a)) as [HP|HP], (decide (Q a)) as [HQ|HQ]; try done;
      destruct HP || destruct HQ; apply (HPQ a); [left|done|left|done].
  - intros x Hx. apply HPQ. by right.
Qed.

#[export] Hint Rewrite @zlen_app @zlen_nil @zlen_cons : memd.
#[export] Hint Resolve as_u32_range zlen_nonneg : memd.
