(* ===== verification/Crates.v ===== *)
(** * The third-party crates the storage core calls

    Each crate is a class of operations with the documented behaviour the
    code relies on as a separate class of laws.  Nothing here is a model of
    a crate's code: the components are written against the operations and
    proved against the laws.  [Concrete.v] instantiates every class. *)

From S2P Require Import Prelude.

Open Scope Z_scope.

(* ------------------------------------------------------------------ *)
(** ** byteorder: [WriteBytesExt] / [ReadBytesExt] at [LittleEndian] *)

(** A read from a byte slice returns the value and the advanced slice, or
    fails with [UnexpectedEof] ([None]) when it is too short. *)
Class ByteOrder : Type := {
  write_u32 : Z → list byte;
  write_u64 : Z → list byte;
  read_u32 : list byte → option (Z * list byte);
  read_u64 : list byte → option (Z * list byte);
}.

Class ByteOrderLaws `{ByteOrder} : Prop := {
  length_write_u32 x : length (write_u32 x) = 4%nat;
  length_write_u64 x : length (write_u64 x) = 8%nat;
  read_write_u32 x rest : in_u32 x → read_u32 (write_u32 x ++ rest) = Some (x, rest);
  read_write_u64 x rest : in_u64 x → read_u64 (write_u64 x ++ rest) = Some (x, rest);
  read_u32_enough bs : (4 ≤ length bs)%nat →
    ∃ x, read_u32 bs = Some (x, drop 4 bs) ∧ in_u32 x;
  read_u64_enough bs : (8 ≤ length bs)%nat →
    ∃ x, read_u64 bs = Some (x, drop 8 bs) ∧ in_u64 x;
}.

(* ------------------------------------------------------------------ *)
(** ** crc32fast: [hash] *)

Class Crc32 : Type := { crc32 : list byte → Z }.
Class Crc32Laws `{Crc32} : Prop := { crc32_range bs : in_u32 (crc32 bs) }.

(* ------------------------------------------------------------------ *)
(** ** bincode (standard configuration) and serde_json *)

(** [encode_to_vec] / [decode_from_slice] for one type; [None] is any
    decoding error. *)
Class Bincode (R : Type) : Type := {
  bincode_encode : R → list byte;
  bincode_decode : list byte → option R;
}.
Class BincodeLaws (R : Type) `{Bincode R} : Prop := {
  bincode_roundtrip r : bincode_decode (bincode_encode r) = Some r;
}.

(** [serde_json::to_vec] / [from_slice] for one type. *)
Class Json (R : Type) : Type := {
  json_to_vec : R → list byte;
  json_from_slice : list byte → option R;
}.
Class JsonLaws (R : Type) `{Json R} : Prop := {
  json_roundtrip r : json_from_slice (json_to_vec r) = Some r;
}.

(* ------------------------------------------------------------------ *)
(** ** roaring: [RoaringBitmap], a set of [u32] *)

Class Roaring (B : Type) : Type := {
  rb_new : B;
  rb_insert : Z → B → B;
  rb_iter : B → list Z;
  rb_contains : Z → B → bool;
  rb_len : B → Z;
  rb_serialize : B → list byte;
  rb_deserialize : list byte → option B;
}.

(** The bitmap is the set of the values its iterator yields, without
    duplicates; deserialising what was serialised gives an equal set. *)
Class RoaringLaws (B : Type) `{Roaring B} : Prop := {
  rb_iter_nodup b : NoDup (rb_iter b);
  rb_contains_iter x b : rb_contains x b = true ↔ x ∈ rb_iter b;
  rb_iter_new : rb_iter rb_new = [];
  rb_iter_insert x y b : y ∈ rb_iter (rb_insert x b) ↔ y = x ∨ y ∈ rb_iter b;
  rb_len_iter b : rb_len b = zlen (rb_iter b);
  rb_serialize_roundtrip b :
    ∃ b', rb_deserialize (rb_serialize b) = Some b' ∧ ∀ x, x ∈ rb_iter b' ↔ x ∈ rb_iter b;
}.

Lemma rb_contains_new `{RoaringLaws B} x : rb_contains x (rb_new : B) = false.
Proof.
  destruct (rb_contains x rb_new) eqn:E; [|done].
  apply rb_contains_iter in E. rewrite rb_iter_new in E. by apply not_elem_of_nil in E.
Qed.

Lemma rb_contains_insert `{RoaringLaws B} x y (b : B) :
  rb_contains y (rb_insert x b) = bool_decide (y = x) || rb_contains y b.
Proof.
  apply eq_true_iff_eq.
  rewrite rb_contains_iter, rb_iter_insert, orb_true_iff, bool_decide_eq_true, rb_contains_iter.
  done.
Qed.

(** Two bitmaps with the same members answer every query alike. *)
Lemma rb_contains_ext `{RoaringLaws B} (b b' : B) :
  (∀ x, x ∈ rb_iter b' ↔ x ∈ rb_iter b) → ∀ x, rb_contains x b' = rb_contains x b.
Proof. intros Hext x. apply eq_true_iff_eq. rewrite !rb_contains_iter. apply Hext. Qed.

(* ------------------------------------------------------------------ *)
(** ** uuid and sha2 *)

(** [Uuid::parse_str] and [Display] for the identifiers. *)
Class Uuid (U : Type) : Type := {
  uuid_to_string : U → string;
  uuid_parse : string → option U;
}.
Class UuidLaws (U : Type) `{Uuid U} : Prop := {
  uuid_roundtrip u : uuid_parse (uuid_to_string u) = Some u;
}.

Lemma uuid_to_string_inj `{UuidLaws U} (u v : U) :
  uuid_to_string u = uuid_to_string v → u = v.
Proof.
  intros E. apply (f_equal uuid_parse) in E. rewrite !uuid_roundtrip in E. congruence.
Qed.

(** [format!("{:x}", Sha256::digest(text))]. *)
Class Sha256 : Type := { sha256_hex : string → string }.

(* ------------------------------------------------------------------ *)
(** ** The Unicode tables behind [str::to_lowercase] and
    [str::split_whitespace] *)

Class Unicode : Type := {
  str_to_lowercase : string → string;
  str_split_whitespace : string → list string;
}.
