(* ===== verification/Types.v ===== *)
(** * Core domain types (src/crates/memd/src/types.rs)

    Identifiers and their validation, the closed enums with their textual
    forms, [MemoryChunk], and the lifecycle overlay: [LifecycleMetadata],
    [LifecycleDelta], [VisibilityPolicy]. *)

From S2P Require Import Prelude.
From Stdlib Require Import Ascii.

Open Scope Z_scope.

(* ------------------------------------------------------------------ *)
(** ** Identifiers *)

(** [ChunkId(Uuid)]: a 128-bit value. *)
Record ChunkId : Type := mkChunkId { chunk_uuid : N }.

#[export] Instance ChunkId_eq_dec : EqDecision ChunkId.
Proof. solve_decision. Defined.
#[export] Instance ChunkId_countable : Countable ChunkId.
Proof. apply (inj_countable' chunk_uuid mkChunkId). by intros []. Defined.

(** [char::is_ascii_alphanumeric]; a byte of a multi-byte character is at
    least 128 and is refused like the character is. *)
Definition is_ascii_alphanumeric (c : ascii) : bool :=
  let n := Z.of_N (N_of_ascii c) in
  ((48 <=? n) && (n <=? 57)) || ((65 <=? n) && (n <=? 90)) || ((97 <=? n) && (n <=? 122)).

(** [s.chars().all(p)] *)
Fixpoint string_all (p : ascii → bool) (s : string) : bool :=
  match s with
  | EmptyString => true
  | String c s => p c && string_all p s
  end.

(** [s.contains(pat)] *)
Fixpoint string_contains (pat s : string) : bool :=
  String.prefix pat s ||
  match s with
  | EmptyString => false
  | String _ s => string_contains pat s
  end.

Module TenantId.

Definition validate (id : string) : memd_result () :=
  if bool_decide (id = ""%string)
  then Err (ValidationError "tenant_id cannot be empty")
  else if negb (string_all (λ c, is_ascii_alphanumeric c || bool_decide (c = "_"%char)) id)
  then Err (ValidationError "tenant_id contains invalid characters")
  else Ok ().

(** The validated wrapper holds the string itself. *)
Record t : Type := mk { as_str : string }.

Definition new (id : string) : memd_result t :=
  _ ← validate id;
  mret (mk id).

End TenantId.

Abbreviation TenantId := TenantId.t.

#[export] Instance TenantId_eq_dec : EqDecision TenantId.
Proof. solve_decision. Defined.
#[export] Instance TenantId_countable : Countable TenantId.
Proof. apply (inj_countable' TenantId.as_str TenantId.mk). by intros []. Defined.

Module ProjectId.

Definition validate (id : string) : memd_result () :=
  if bool_decide (id = ""%string) then Ok ()
  else if string_contains ".." id
  then Err (ValidationError "project_id must not contain '..'")
  else if negb (string_all (λ c, is_ascii_alphanumeric c
                  || bool_decide (c ∈ ["_"%char; "-"%char; "."%char])) id)
  then Err (ValidationError "project_id contains invalid characters")
  else Ok ().

Definition validate_opt (id : option string) : memd_result () :=
  match id with
  | Some id => validate id
  | None => Ok ()
  end.

End ProjectId.

(* ------------------------------------------------------------------ *)
(** ** Closed enums *)

Inductive ChunkType : Type :=
| Code | Doc | Trace | Decision | Plan | Research | Message | Summary | OtherType.

Inductive ChunkStatus : Type :=
| Draft | Candidate | Final | ErrorStatus | Deleted | Superseded | Expired.

Inductive PromotionState : Type := Raw | Summarized | Canonical | Verified.

Inductive IngestionMode : Type := Conversation | Document.

Inductive MemoryTier : Type := Working | LongTerm | History.

#[export] Instance ChunkType_eq_dec : EqDecision ChunkType.
Proof. solve_decision. Defined.
#[export] Instance ChunkStatus_eq_dec : EqDecision ChunkStatus.
Proof. solve_decision. Defined.
#[export] Instance PromotionState_eq_dec : EqDecision PromotionState.
Proof. solve_decision. Defined.
#[export] Instance IngestionMode_eq_dec : EqDecision IngestionMode.
Proof. solve_decision. Defined.
#[export] Instance MemoryTier_eq_dec : EqDecision MemoryTier.
Proof. solve_decision. Defined.

(** [ChunkType::all] *)
Definition ChunkType_all : list ChunkType :=
  [Code; Doc; Trace; Decision; Plan; Research; Message; Summary; OtherType].

Definition ChunkType_to_string (t : ChunkType) : string :=
  match t with
  | Code => "code" | Doc => "doc" | Trace => "trace" | Decision => "decision"
  | Plan => "plan" | Research => "research" | Message => "message"
  | Summary => "summary" | OtherType => "other"
  end.

Definition ChunkType_from_str (s : string) : memd_result ChunkType :=
  if bool_decide (s = "code"%string) then Ok Code
  else if bool_decide (s = "doc"%string) then Ok Doc
  else if bool_decide (s = "trace"%string) then Ok Trace
  else if bool_decide (s = "decision"%string) then Ok Decision
  else if bool_decide (s = "plan"%string) then Ok Plan
  else if bool_decide (s = "research"%string) then Ok Research
  else if bool_decide (s = "message"%string) then Ok Message
  else if bool_decide (s = "summary"%string) then Ok Summary
  else if bool_decide (s = "other"%string) then Ok OtherType
  else Err (ValidationError "unknown chunk_type").

Definition ChunkStatus_to_string (t : ChunkStatus) : string :=
  match t with
  | Draft => "draft" | Candidate => "candidate" | Final => "final"
  | ErrorStatus => "error" | Deleted => "deleted" | Superseded => "superseded"
  | Expired => "expired"
  end.

Definition ChunkStatus_from_str (s : string) : memd_result ChunkStatus :=
  if bool_decide (s = "draft"%string) then Ok Draft
  else if bool_decide (s = "candidate"%string) then Ok Candidate
  else if bool_decide (s = "final"%string) then Ok Final
  else if bool_decide (s = "error"%string) then Ok ErrorStatus
  else if bool_decide (s = "deleted"%string) then Ok Deleted
  else if bool_decide (s = "superseded"%string) then Ok Superseded
  else if bool_decide (s = "expired"%string) then Ok Expired
  else Err (ValidationError "unknown status").

Definition IngestionMode_to_string (t : IngestionMode) : string :=
  match t with Conversation => "conversation" | Document => "document" end.

Definition IngestionMode_from_str (s : string) : memd_result IngestionMode :=
  if bool_decide (s = "conversation"%string) then Ok Conversation
  else if bool_decide (s = "document"%string) then Ok Document
  else Err (ValidationError "unknown ingestion mode").

Definition MemoryTier_to_string (t : MemoryTier) : string :=
  match t with
  | Working => "working" | LongTerm => "long_term" | History => "history"
  end.

Definition MemoryTier_from_str (s : string) : memd_result MemoryTier :=
  if bool_decide (s = "working"%string) then Ok Working
  else if bool_decide (s = "long_term"%string) then Ok LongTerm
  else if bool_decide (s = "history"%string) then Ok History
  else Err (ValidationError "unknown tier").

(* ------------------------------------------------------------------ *)
(** ** Chunks *)

Record Source : Type := mkSource {
  src_uri : option string;
  src_repo : option string;
  src_commit : option string;
  src_path : option string;
  src_tool_name : option string;
  src_tool_call_id : option string;
}.

#[export] Instance Source_eq_dec : EqDecision Source.
Proof. solve_decision. Defined.

Record MemoryChunk : Type := mkChunk {
  mc_chunk_id : ChunkId;
  mc_tenant_id : TenantId;
  mc_project_id : option string;
  mc_agent_id : option string;
  mc_timestamp_created : Z;
  mc_timestamp_observed : option Z;
  mc_chunk_type : ChunkType;
  mc_status : ChunkStatus;
  mc_promotion_state : PromotionState;
  mc_source : Source;
  mc_text : string;
  mc_tags : list string;
  mc_hash : string;
  mc_ingestion_mode : IngestionMode;
}.

(** The field assignments [chunk.f = v] the code performs on a chunk. *)
Definition set_chunk_id (i : ChunkId) (c : MemoryChunk) : MemoryChunk :=
  mkChunk i (mc_tenant_id c) (mc_project_id c) (mc_agent_id c) (mc_timestamp_created c)
    (mc_timestamp_observed c) (mc_chunk_type c) (mc_status c) (mc_promotion_state c)
    (mc_source c) (mc_text c) (mc_tags c) (mc_hash c) (mc_ingestion_mode c).
Definition set_hash (h : string) (c : MemoryChunk) : MemoryChunk :=
  mkChunk (mc_chunk_id c) (mc_tenant_id c) (mc_project_id c) (mc_agent_id c)
    (mc_timestamp_created c) (mc_timestamp_observed c) (mc_chunk_type c) (mc_status c)
    (mc_promotion_state c) (mc_source c) (mc_text c) (mc_tags c) h (mc_ingestion_mode c).
Definition set_status (s : ChunkStatus) (c : MemoryChunk) : MemoryChunk :=
  mkChunk (mc_chunk_id c) (mc_tenant_id c) (mc_project_id c) (mc_agent_id c)
    (mc_timestamp_created c) (mc_timestamp_observed c) (mc_chunk_type c) s
    (mc_promotion_state c) (mc_source c) (mc_text c) (mc_tags c) (mc_hash c)
    (mc_ingestion_mode c).

(* ------------------------------------------------------------------ *)
(** ** The lifecycle overlay *)

Record LifecycleMetadata : Type := mkLifecycle {
  lc_tier : MemoryTier;
  lc_supersedes : option ChunkId;
  lc_superseded_by : option ChunkId;
  lc_expires_at_ms : option Z;
  lc_review_after_ms : option Z;
  lc_updated_at_ms : Z;
}.

#[export] Instance LifecycleMetadata_eq_dec : EqDecision LifecycleMetadata.
Proof. solve_decision. Defined.

Definition LifecycleMetadata_default : LifecycleMetadata :=
  mkLifecycle LongTerm None None None None 0.

(** [None]: leave unchanged; [Some None] on the nested options: clear. *)
Record LifecycleDelta : Type := mkDelta {
  ld_status : option ChunkStatus;
  ld_tier : option MemoryTier;
  ld_supersedes : option ChunkId;
  ld_superseded_by : option ChunkId;
  ld_expires_at_ms : option (option Z);
  ld_review_after_ms : option (option Z);
  ld_updated_at_ms : option Z;
}.

Definition LifecycleDelta_default : LifecycleDelta :=
  mkDelta None None None None None None None.

Definition is_none {A} (o : option A) : bool :=
  match o with None => true | Some _ => false end.

Definition delta_is_empty (d : LifecycleDelta) : bool :=
  is_none (ld_status d) && is_none (ld_tier d) && is_none (ld_supersedes d)
  && is_none (ld_superseded_by d) && is_none (ld_expires_at_ms d)
  && is_none (ld_review_after_ms d) && is_none (ld_updated_at_ms d).

(** [LifecycleMetadata::apply] *)
Definition lifecycle_apply (m : LifecycleMetadata) (d : LifecycleDelta) : LifecycleMetadata :=
  mkLifecycle
    (match ld_tier d with Some t => t | None => lc_tier m end)
    (match ld_supersedes d with Some s => Some s | None => lc_supersedes m end)
    (match ld_superseded_by d with Some s => Some s | None => lc_superseded_by m end)
    (match ld_expires_at_ms d with Some e => e | None => lc_expires_at_ms m end)
    (match ld_review_after_ms d with Some r => r | None => lc_review_after_ms m end)
    (match ld_updated_at_ms d with Some t => t | None => lc_updated_at_ms m end).

Record VisibilityPolicy : Type := mkPolicy {
  include_superseded : bool;
  include_expired : bool;
  include_history : bool;
}.

Definition VisibilityPolicy_default : VisibilityPolicy := mkPolicy false false false.

Definition is_visible (p : VisibilityPolicy) (status : ChunkStatus) (tier : MemoryTier) : bool :=
  match status with
  | Candidate | Deleted | ErrorStatus => false
  | Superseded =>
      if negb (include_superseded p) then false
      else negb (bool_decide (tier = History) && negb (include_history p))
  | Expired =>
      if negb (include_expired p) then false
      else negb (bool_decide (tier = History) && negb (include_history p))
  | _ => negb (bool_decide (tier = History) && negb (include_history p))
  end.

Definition is_visible_at (p : VisibilityPolicy) (status : ChunkStatus)
    (lifecycle : LifecycleMetadata) (now_ms : Z) : bool :=
  if negb (is_visible p status (lc_tier lifecycle)) then false
  else if negb (include_expired p) then
    match lc_expires_at_ms lifecycle with
    | Some exp => if exp <=? now_ms then false else true
    | None => true
    end
  else true.

(* ------------------------------------------------------------------ *)
(** ** Properties *)

(** The textual form of a closed enum: parsing accepts exactly what
    [Display] prints. *)
Ltac enum_roundtrip :=
  split; [intros ?; repeat case_bool_decide; simplify_eq; done
         | intros ->; match goal with t : _ |- _ => by destruct t end].

Lemma ChunkType_from_to t s : ChunkType_from_str s = Ok t ↔ s = ChunkType_to_string t.
Proof. unfold ChunkType_from_str. enum_roundtrip. Qed.

Lemma ChunkStatus_from_to t s : ChunkStatus_from_str s = Ok t ↔ s = ChunkStatus_to_string t.
Proof. unfold ChunkStatus_from_str. enum_roundtrip. Qed.

Lemma IngestionMode_from_to t s :
  IngestionMode_from_str s = Ok t ↔ s = IngestionMode_to_string t.
Proof. unfold IngestionMode_from_str. enum_roundtrip. Qed.

Lemma MemoryTier_from_to t s : MemoryTier_from_str s = Ok t ↔ s = MemoryTier_to_string t.
Proof. unfold MemoryTier_from_str. enum_roundtrip. Qed.

(** The parsers of the metadata columns fail closed: every stored enum
    reads back as itself and no other text is accepted. *)
Lemma enums_fail_closed s :
  (∀ t, ChunkType_from_str s = Ok t ↔ s = ChunkType_to_string t) ∧
  (∀ t, ChunkStatus_from_str s = Ok t ↔ s = ChunkStatus_to_string t) ∧
  (∀ t, MemoryTier_from_str s = Ok t ↔ s = MemoryTier_to_string t) ∧
  (∀ t, IngestionMode_from_str s = Ok t ↔ s = IngestionMode_to_string t).
Proof.
  split_and!; intros t;
    [apply ChunkType_from_to | apply ChunkStatus_from_to
    | apply MemoryTier_from_to | apply IngestionMode_from_to].
Qed.

(** The characters of a string. *)
Fixpoint chars (s : string) : list ascii :=
  match s with EmptyString => [] | String c s => c :: chars s end.

Lemma string_all_chars p s : string_all p s = true ↔ ∀ c, c ∈ chars s → p c = true.
Proof.
  induction s as [|c s IH]; cbn.
  - split; [|done]. intros _ c Hc. by apply not_elem_of_nil in Hc.
  - rewrite andb_true_iff, IH. setoid_rewrite elem_of_cons. naive_solver.
Qed.

Lemma TenantId_validate_iff id :
  TenantId.validate id = Ok () ↔
  id ≠ ""%string ∧
  ∀ c, c ∈ chars id → is_ascii_alphanumeric c = true ∨ c = "_"%char.
Proof.
  unfold TenantId.validate. case_bool_decide as Hempty; [naive_solver|].
  destruct (string_all _ id) eqn:E; cbn.
  - split; [|done]. intros _. split; [done|]. intros c Hc.
    apply string_all_chars with (c := c) in E; [|done].
    apply orb_true_iff in E as [?|?%bool_decide_eq_true]; auto.
  - split; [done|]. intros [_ Hall]. rewrite <- not_true_iff_false in E.
    contradict E. apply string_all_chars. intros c Hc.
    apply orb_true_iff. rewrite bool_decide_eq_true. auto.
Qed.

(** A tenant id that passes validation is a single, plain path component:
    it is neither empty nor a dot component and holds no separator, NUL or
    non-ASCII byte, so [data_dir/tenants/<id>] stays inside [tenants]. *)
Lemma tenant_id_path_safe id t :
  TenantId.new id = Ok t →
  TenantId.as_str t = id ∧ id ≠ ""%string ∧ id ≠ "."%string ∧ id ≠ ".."%string ∧
  (∀ c, c ∈ chars id → c ≠ "/"%char ∧ c ≠ "\"%char ∧ c ≠ "000"%char ∧
                       Z.of_N (N_of_ascii c) < 128).
Proof.
  unfold TenantId.new. destruct (TenantId.validate id) as [[]|e] eqn:E; [|done].
  cbn. intros [= <-]. apply TenantId_validate_iff in E as [Hne Hall]. cbn.
  assert (Hc : ∀ c, c ∈ chars id → c ≠ "/"%char ∧ c ≠ "\"%char ∧ c ≠ "000"%char ∧
                     c ≠ "."%char ∧ Z.of_N (N_of_ascii c) < 128).
  { intros c Hc. apply Hall in Hc as [Hc| ->]; [|by vm_compute].
    unfold is_ascii_alphanumeric in Hc. split_and!; [intros ->; by vm_compute in Hc..|].
    lia. }
  split_and!; [done|done| | |naive_solver].
  - intros ->. specialize (Hc "."%char). cbn in Hc. set_solver.
  - intros ->. specialize (Hc "."%char). cbn in Hc. set_solver.
Qed.

(** The order on policies: [q] admits whatever [p] admits. *)
Definition policy_le (p q : VisibilityPolicy) : Prop :=
  (include_superseded p = true → include_superseded q = true) ∧
  (include_expired p = true → include_expired q = true) ∧
  (include_history p = true → include_history q = true).

(** Widening a policy never hides a chunk, and no policy shows a
    [Candidate], [Deleted] or [Error] chunk. *)
Lemma visibility_monotone p q status lc now :
  policy_le p q →
  (is_visible_at p status lc now = true → is_visible_at q status lc now = true) ∧
  (status ∈ [Candidate; Deleted; ErrorStatus] → is_visible_at q status lc now = false).
Proof.
  intros (H1 & H2 & H3). destruct p as [p1 p2 p3], q as [q1 q2 q3]. cbn in *.
  split.
  - unfold is_visible_at, is_visible. cbn. intros H.
    destruct status, (bool_decide (lc_tier lc = History)), p1, p2, p3, q1, q2, q3;
      cbn in *; try done; try naive_solver;
      destruct (lc_expires_at_ms lc); try done; try naive_solver.
  - rewrite !elem_of_cons, elem_of_nil. intros [->|[->|[->|[]]]]; done.
Qed.

(** Under the default policy a chunk is visible exactly when its status is
    [Draft] or [Final], it is not in the history tier and it has not
    expired; the boundary instant counts as expired. *)
Lemma default_visibility status lc now :
  is_visible_at VisibilityPolicy_default status lc now = true ↔
  (status = Draft ∨ status = Final) ∧ lc_tier lc ≠ History ∧
  (∀ e, lc_expires_at_ms lc = Some e → now < e).
Proof.
  unfold is_visible_at, is_visible; cbn.
  destruct status; cbn; try (naive_solver; fail);
    (case_bool_decide as Ht; cbn; [naive_solver|]);
    destruct (lc_expires_at_ms lc) as [e|]; try naive_solver;
    destruct (Z.leb_spec e now); naive_solver lia.
Qed.

(** Applying two deltas in sequence is applying their right-biased merge. *)
Definition delta_then (d1 d2 : LifecycleDelta) : LifecycleDelta :=
  let pick {A} (a b : option A) := match b with Some _ => b | None => a end in
  mkDelta (pick (ld_status d1) (ld_status d2)) (pick (ld_tier d1) (ld_tier d2))
    (pick (ld_supersedes d1) (ld_supersedes d2))
    (pick (ld_superseded_by d1) (ld_superseded_by d2))
    (pick (ld_expires_at_ms d1) (ld_expires_at_ms d2))
    (pick (ld_review_after_ms d1) (ld_review_after_ms d2))
    (pick (ld_updated_at_ms d1) (ld_updated_at_ms d2)).

Lemma lifecycle_apply_then m d1 d2 :
  lifecycle_apply (lifecycle_apply m d1) d2 = lifecycle_apply m (delta_then d1 d2).
Proof. by destruct d1 as [[] [] [] [] [] [] []], d2 as [[] [] [] [] [] [] []]. Qed.

Lemma lifecycle_apply_empty m d : delta_is_empty d = true → lifecycle_apply m d = m.
Proof. destruct d as [[] [] [] [] [] [] []]; try done. by destruct m. Qed.

Lemma tenant_id_path_safe_witness :
  TenantId.as_str (TenantId.mk "team_1") = "team_1"%string ∧ "team_1"%string ≠ ""%string ∧
  "team_1"%string ≠ "."%string ∧ "team_1"%string ≠ ".."%string ∧
  (∀ c, c ∈ chars "team_1" → c ≠ "/"%char ∧ c ≠ "\"%char ∧ c ≠ "000"%char ∧
                       Z.of_N (N_of_ascii c) < 128).
Proof. apply (tenant_id_path_safe "team_1" (TenantId.mk "team_1")). reflexivity. Defined.

Lemma visibility_monotone_witness :
  is_visible_at (mkPolicy false true false) Final LifecycleMetadata_default 0 = true ∧
  is_visible_at (mkPolicy false true false) Candidate LifecycleMetadata_default 0 = false.
Proof.
  split.
  - apply (visibility_monotone VisibilityPolicy_default (mkPolicy false true false));
      [by repeat split|reflexivity].
  - apply (visibility_monotone VisibilityPolicy_default (mkPolicy false true false));
      [by repeat split|set_solver].
Defined.
