(* ===== verification/WalFormat.v ===== *)
(** * WAL records (src/crates/memd/src/store/wal/format.rs)

    The binary record: [Magic(4) | Type(1) | Length(4) | CRC32(4) | Payload].
    [encode_to_bytes] and [decode_from_bytes] are translated with every
    check and error path; the integers of the header keep their width, so
    the [as u32] cast of the payload length is visible in the theorems. *)

From S2P Require Import Prelude Crates.
From Stdlib Require Import Init.Byte.

Open Scope Z_scope.

(* ------------------------------------------------------------------ *)
(** ** Constants and types *)

(** b"MWAL" *)
Definition WAL_MAGIC : list byte := [x4d; x57; x41; x4c].
Definition WAL_HEADER_SIZE : Z := 13.

Inductive WalRecordType : Type := WalAdd | WalDelete | WalCheckpoint | WalTaskArtifact.

#[export] Instance WalRecordType_eq_dec : EqDecision WalRecordType.
Proof. solve_decision. Defined.

(** [record_type as u8] *)
Definition WalRecordType_as_u8 (t : WalRecordType) : byte :=
  match t with
  | WalAdd => x01 | WalDelete => x02 | WalCheckpoint => x03 | WalTaskArtifact => x04
  end.

(** [WalRecordType::from_u8] *)
Definition WalRecordType_from_u8 (v : byte) : option WalRecordType :=
  match v with
  | x01 => Some WalAdd
  | x02 => Some WalDelete
  | x03 => Some WalCheckpoint
  | x04 => Some WalTaskArtifact
  | _ => None
  end.

Record WalRecord : Type := mkWalRecord {
  record_type : WalRecordType;
  wr_tenant_id : string;
  wr_chunk_id : string;
  wr_timestamp : Z;
  wr_payload : list byte;
}.

#[export] Instance WalRecord_eq_dec : EqDecision WalRecord.
Proof. solve_decision. Defined.

(** The constructors [WalRecord::add], [delete], [checkpoint],
    [task_artifact]. *)
Definition wal_add (tenant_id chunk_id : string) (timestamp : Z) (payload : list byte) :=
  mkWalRecord WalAdd tenant_id chunk_id timestamp payload.
Definition wal_delete (tenant_id chunk_id : string) (timestamp : Z) :=
  mkWalRecord WalDelete tenant_id chunk_id timestamp [].
Definition wal_checkpoint (tenant_id : string) (timestamp : Z) :=
  mkWalRecord WalCheckpoint tenant_id "" timestamp [].
Definition wal_task_artifact (tenant_id artifact_id : string) (timestamp : Z)
    (payload : list byte) :=
  mkWalRecord WalTaskArtifact tenant_id artifact_id timestamp payload.

Section codec.
Context `{BO : ByteOrder} `{CRC : Crc32} `{BC : Bincode WalRecord}.

(** [WalRecord::encode_to_bytes] *)
Definition encode_to_bytes (r : WalRecord) : list byte :=
  let payload_bytes := bincode_encode r in
  let crc := crc32 payload_bytes in
  WAL_MAGIC ++ [WalRecordType_as_u8 (record_type r)]
    ++ write_u32 (as_u32 (zlen payload_bytes))
    ++ write_u32 crc
    ++ payload_bytes.

Definition eof_err (msg : string) : IoErr := io_err UnexpectedEof msg.
Definition data_err (msg : string) : IoErr := io_err InvalidData msg.

(** [WalRecord::decode_from_bytes]: the record and the bytes consumed. *)
Definition decode_from_bytes (bytes : list byte) : io_result (WalRecord * Z) :=
  if zlen bytes <? WAL_HEADER_SIZE
  then Err (eof_err "not enough bytes for WAL header")
  else if negb (bool_decide (zslice 0 4 bytes = WAL_MAGIC))
  then Err (data_err "invalid WAL magic")
  else
    record_type_hdr ← ok_or (type_byte ← bytes !! 4%nat; WalRecordType_from_u8 type_byte)
                         (data_err "invalid WAL record type");
    let cursor := zslice 5 WAL_HEADER_SIZE bytes in
    '(len, cursor) ← ok_or (read_u32 cursor) (eof_err "failed to fill whole buffer");
    '(expected_crc, _) ← ok_or (read_u32 cursor) (eof_err "failed to fill whole buffer");
    let total_size := WAL_HEADER_SIZE + len in
    if zlen bytes <? total_size
    then Err (eof_err "truncated WAL record")
    else
      let payload_bytes := zslice WAL_HEADER_SIZE total_size bytes in
      let computed_crc := crc32 payload_bytes in
      if negb (computed_crc =? expected_crc)
      then Err (data_err "WAL CRC mismatch")
      else
        record ← ok_or (bincode_decode payload_bytes)
                   (data_err "failed to deserialize WAL record");
        if negb (bool_decide (record_type record = record_type_hdr))
        then Err (data_err "WAL record type mismatch between header and payload")
        else Ok (record, total_size).

(** [reader.read_exact(&mut buf)] on an in-memory reader: the bytes read
    and the rest, or [UnexpectedEof]. *)
Definition read_exact (n : Z) (reader : list byte) : io_result (list byte * list byte) :=
  if zlen reader <? n
  then Err (eof_err "failed to fill whole buffer")
  else Ok (take (Z.to_nat n) reader, drop (Z.to_nat n) reader).

(** [WalRecord::read_from] on an in-memory reader. *)
Definition read_from (reader : list byte) : io_result (WalRecord * list byte) :=
  '(header, reader) ← read_exact WAL_HEADER_SIZE reader;
  if negb (bool_decide (zslice 0 4 header = WAL_MAGIC))
  then Err (data_err "invalid WAL magic")
  else
    '(len, _) ← ok_or (read_u32 (zslice 5 9 header)) (eof_err "failed to fill whole buffer");
    '(body, reader) ← read_exact len reader;
    '(record, _) ← decode_from_bytes (header ++ body);
    Ok (record, reader).

End codec.

(** The payload fits the 4-byte length field. *)
Definition wal_fits `{Bincode WalRecord} (r : WalRecord) : Prop :=
  zlen (bincode_encode r) < 2 ^ 32.

(* ------------------------------------------------------------------ *)
(** ** Properties *)

Lemma WalRecordType_roundtrip t : WalRecordType_from_u8 (WalRecordType_as_u8 t) = Some t.
Proof. by destruct t. Qed.

Section codec_facts.
Context `{ByteOrderLaws} `{Crc32Laws} `{BincodeLaws WalRecord}.

Lemma zlen_write_u32 x : zlen (write_u32 x) = 4.
Proof. unfold zlen. by rewrite length_write_u32. Qed.

Lemma encode_length r : zlen (encode_to_bytes r) = WAL_HEADER_SIZE + zlen (bincode_encode r).
Proof.
  unfold encode_to_bytes, WAL_HEADER_SIZE. rewrite !zlen_app, !zlen_write_u32.
  cbn -[Z.add]. unfold zlen at 1 2; cbn. lia.
Qed.

(** The 13-byte header of an encoded record. *)
Definition wal_header (r : WalRecord) : list byte :=
  WAL_MAGIC ++ [WalRecordType_as_u8 (record_type r)]
    ++ write_u32 (as_u32 (zlen (bincode_encode r))) ++ write_u32 (crc32 (bincode_encode r)).

Lemma encode_header r : encode_to_bytes r = wal_header r ++ bincode_encode r.
Proof. unfold encode_to_bytes, wal_header. by rewrite <-!app_assoc. Qed.

Lemma zlen_wal_header r : zlen (wal_header r) = WAL_HEADER_SIZE.
Proof. unfold wal_header. rewrite !zlen_app, !zlen_write_u32. done. Qed.

(** What the decoder sees once it has a whole header. *)
Lemma decode_header r tail :
  wal_fits r →
  decode_from_bytes (wal_header r ++ tail) =
    if zlen tail <? zlen (bincode_encode r)
    then Err (eof_err "truncated WAL record")
    else
      let p := take (length (bincode_encode r)) tail in
      if negb (crc32 p =? crc32 (bincode_encode r))
      then Err (data_err "WAL CRC mismatch")
      else
        record ← ok_or (bincode_decode p) (data_err "failed to deserialize WAL record");
        if negb (bool_decide (record_type record = record_type r))
        then Err (data_err "WAL record type mismatch between header and payload")
        else Ok (record, WAL_HEADER_SIZE + zlen (bincode_encode r)).
Proof.
  intros Hfit. unfold decode_from_bytes.
  pose proof (zlen_wal_header r) as Hh. pose proof (zlen_nonneg tail).
  rewrite zlen_app, Hh. replace (WAL_HEADER_SIZE + zlen tail <? WAL_HEADER_SIZE) with false by lia.
  replace (zslice 0 4 (wal_header r ++ tail)) with WAL_MAGIC by done.
  rewrite bool_decide_true by done. cbn [negb].
  change ((wal_header r ++ tail) !! 4%nat) with (Some (WalRecordType_as_u8 (record_type r))).
  cbn [mbind option_bind]. rewrite WalRecordType_roundtrip. cbn [ok_or mbind result_bind].
  rewrite zslice_app_l by (unfold WAL_HEADER_SIZE in *; lia).
  replace (zslice 5 WAL_HEADER_SIZE (wal_header r))
    with (write_u32 (as_u32 (zlen (bincode_encode r))) ++ write_u32 (crc32 (bincode_encode r))).
  2: { symmetry. rewrite <-(app_nil_r (wal_header r)). unfold wal_header.
       rewrite (app_assoc WAL_MAGIC), <-(app_assoc (WAL_MAGIC ++ _)).
       apply zslice_app_mid; [done|]. rewrite !zlen_app, !zlen_write_u32. done. }
  rewrite read_write_u32 by apply as_u32_range. cbn [ok_or mbind result_bind].
  rewrite <-(app_nil_r (write_u32 (crc32 _))), read_write_u32 by apply crc32_range.
  cbn [ok_or mbind result_bind].
  rewrite as_u32_small by (split; [apply zlen_nonneg | exact Hfit]).
  replace (WAL_HEADER_SIZE + zlen tail <? WAL_HEADER_SIZE + zlen (bincode_encode r))
    with (zlen tail <? zlen (bincode_encode r)) by lia.
  destruct (Z.ltb_spec (zlen tail) (zlen (bincode_encode r))) as [|Hge]; [done|].
  replace (zslice WAL_HEADER_SIZE (WAL_HEADER_SIZE + zlen (bincode_encode r)) (wal_header r ++ tail))
    with (take (length (bincode_encode r)) tail); [done|].
  symmetry. rewrite <-(take_drop (length (bincode_encode r)) tail) at 1.
  apply zslice_app_mid; [done|]. rewrite Hh. f_equal. unfold zlen in *.
  rewrite length_take. lia.
Qed.

(** Too few bytes for a header. *)
Lemma decode_short bytes :
  zlen bytes < WAL_HEADER_SIZE →
  decode_from_bytes bytes = Err (eof_err "not enough bytes for WAL header").
Proof. intros ?. unfold decode_from_bytes. by replace (_ <? _) with true by lia. Qed.

Lemma wal_decode_encode r rest :
  wal_fits r →
  decode_from_bytes (encode_to_bytes r ++ rest) = Ok (r, zlen (encode_to_bytes r)).
Proof.
  intros Hfit. rewrite encode_header, <-app_assoc, decode_header by done.
  rewrite zlen_app. pose proof (zlen_nonneg rest).
  replace (_ <? _) with false by lia. cbn zeta.
  rewrite take_app_length, Z.eqb_refl. cbn [negb].
  rewrite bincode_roundtrip. cbn [ok_or mbind result_bind].
  rewrite bool_decide_true by done. cbn [negb]. by rewrite zlen_app, zlen_wal_header.
Qed.

(** A proper prefix of an encoded record never decodes: it is reported as
    truncated, whatever the payload is. *)
Lemma wal_decode_torn r k :
  wal_fits r → (k < length (encode_to_bytes r))%nat →
  ∃ msg, decode_from_bytes (take k (encode_to_bytes r)) = Err (eof_err msg).
Proof.
  intros Hfit Hk. rewrite encode_header in *.
  pose proof (zlen_wal_header r) as Hh. unfold zlen in Hh.
  destruct (decide (k < length (wal_header r))%nat) as [Hlt|Hge].
  - eexists. apply decode_short. rewrite take_app_le by lia.
    unfold zlen. rewrite length_take. lia.
  - eexists. rewrite take_app_ge by lia. rewrite decode_header by done.
    rewrite length_app in Hk.
    replace (_ <? _) with true; [done|]. symmetry. apply Z.ltb_lt.
    unfold zlen. rewrite length_take. lia.
Qed.

(** Every decoded record occupies a whole header, lies inside the buffer,
    starts with the magic and carries the checksum of its payload. *)
Lemma decode_bounds bytes r n :
  decode_from_bytes bytes = Ok (r, n) →
  WAL_HEADER_SIZE ≤ n ≤ zlen bytes ∧ zslice 0 4 bytes = WAL_MAGIC.
Proof.
  unfold decode_from_bytes. intros Hd.
  destruct (Z.ltb_spec (zlen bytes) WAL_HEADER_SIZE) as [|Hlen]; [done|].
  case_bool_decide as Hmagic; [cbn [negb] in Hd|done].
  destruct (bytes !! 4%nat) as [tb|]; [|done]. cbn [mbind option_bind] in Hd.
  destruct (WalRecordType_from_u8 tb) as [ty|]; [cbn [ok_or mbind result_bind] in Hd|done].
  set (cursor := zslice 5 WAL_HEADER_SIZE bytes) in *.
  assert (Hc : length cursor = 8%nat).
  { unfold cursor, zslice, WAL_HEADER_SIZE, zlen in *. rewrite length_take, length_drop. lia. }
  destruct (read_u32_enough cursor) as (len & Hr & Hlen32); [lia|].
  rewrite Hr in Hd. cbn [ok_or mbind result_bind] in Hd.
  destruct (read_u32 (drop 4 cursor)) as [[crc rest]|]; [|done].
  cbn [ok_or mbind result_bind] in Hd.
  destruct (Z.ltb_spec (zlen bytes) (WAL_HEADER_SIZE + len)) as [|Htot]; [done|].
  destruct (negb _); [done|].
  destruct (bincode_decode _) as [rec|]; [|done]. cbn [ok_or mbind result_bind] in Hd.
  destruct (negb _); [done|]. simplify_eq.
  unfold in_u32 in Hlen32. split; [lia|done].
Qed.

End codec_facts.
