(* ===== verification/WalReader.v ===== *)
(** * WAL reader and replay (src/crates/memd/src/store/wal/reader.rs)

    [read_all_records] is the offset loop of the source, with fuel; the fuel
    used by the definition is shown to be enough.  [records_for_recovery]
    cuts at the last checkpoint and [replay] drives a [RecoveryHandler]. *)

From S2P Require Import Prelude Crates WalFormat.

Open Scope Z_scope.

(* ------------------------------------------------------------------ *)
(** ** The reader *)

(** [WalReader { data }] *)
Record WalReader : Type := mkWalReader { wal_data : list byte }.

(** [WalReader::open]: an absent file is an empty log. *)
Definition wal_reader_open (file : option (list byte)) : WalReader :=
  mkWalReader (match file with None => [] | Some data => data end).

Definition wal_is_empty (r : WalReader) : bool := bool_decide (wal_data r = []).

(** [WalReader::len] *)
Definition wal_len (r : WalReader) : Z := zlen (wal_data r).

(** [iter().rposition(p)]: the index of the last element satisfying [p]. *)
Fixpoint rposition {A} (p : A → bool) (l : list A) : option nat :=
  match l with
  | [] => None
  | x :: l =>
      match rposition p l with
      | Some i => Some (S i)
      | None => if p x then Some O else None
      end
  end.

(** [matches!(r.record_type, WalRecordType::Checkpoint)] *)
Definition is_checkpoint (r : WalRecord) : bool :=
  bool_decide (record_type r = WalCheckpoint).

Section reader.
Context `{BO : ByteOrder} `{CRC : Crc32} `{BC : Bincode WalRecord}.

(** The [while] loop of [read_all_records]; [None] when the fuel runs out. *)
Fixpoint read_loop (fuel : nat) (data : list byte) (records : list WalRecord) (offset : Z)
    : option (list WalRecord * Z) :=
  match fuel with
  | O => None
  | S fuel =>
      if offset + WAL_HEADER_SIZE <=? zlen data then
        match decode_from_bytes (drop (Z.to_nat offset) data) with
        | Ok (record, consumed) => read_loop fuel data (records ++ [record]) (offset + consumed)
        | Err _ => Some (records, offset)
        end
      else Some (records, offset)
  end.

Definition read_all_records (r : WalReader) : option (list WalRecord * Z) :=
  read_loop (S (length (wal_data r))) (wal_data r) [] 0.

(** [read_all_records] never runs out of fuel ([read_all_total] below), so
    its callers take the value. *)
Definition read_all (r : WalReader) : list WalRecord * Z :=
  default ([], 0) (read_all_records r).

Definition find_last_checkpoint (r : WalReader) : option nat :=
  rposition is_checkpoint (read_all r).1.

Definition records_for_recovery (r : WalReader) : list WalRecord :=
  let records := (read_all r).1 in
  let checkpoint_idx := match rposition is_checkpoint records with
                        | Some i => S i
                        | None => O
                        end in
  drop checkpoint_idx records.

End reader.

(* ------------------------------------------------------------------ *)
(** ** Replay *)

(** The [RecoveryHandler] trait, over a handler state [H]. *)
Class RecoveryHandler (H : Type) : Type := {
  on_add : WalRecord → H → io_result H;
  on_delete : WalRecord → H → io_result H;
  on_task_artifact : WalRecord → H → io_result H;
  chunk_exists : string → H → io_result bool;
}.

Record RecoveryStats : Type := mkStats {
  rs_adds : nat;
  rs_deletes : nat;
  rs_task_artifacts : nat;
  rs_skipped : nat;
  rs_checkpoints : nat;
}.

Definition RecoveryStats_default : RecoveryStats := mkStats 0 0 0 0 0.

(** One iteration of the loop in [replay]. *)
Definition replay_step `{RecoveryHandler HS} (s : HS * RecoveryStats) (r : WalRecord)
    : io_result (HS * RecoveryStats) :=
  let '(h, st) := s in
  match record_type r with
  | WalAdd =>
      ex ← chunk_exists (wr_chunk_id r) h;
      if (ex : bool)
      then Ok (h, mkStats (rs_adds st) (rs_deletes st) (rs_task_artifacts st)
                    (S (rs_skipped st)) (rs_checkpoints st))
      else
        h ← on_add r h;
        Ok (h, mkStats (S (rs_adds st)) (rs_deletes st) (rs_task_artifacts st)
                 (rs_skipped st) (rs_checkpoints st))
  | WalDelete =>
      h ← on_delete r h;
      Ok (h, mkStats (rs_adds st) (S (rs_deletes st)) (rs_task_artifacts st)
               (rs_skipped st) (rs_checkpoints st))
  | WalTaskArtifact =>
      h ← on_task_artifact r h;
      Ok (h, mkStats (rs_adds st) (rs_deletes st) (S (rs_task_artifacts st))
               (rs_skipped st) (rs_checkpoints st))
  | WalCheckpoint =>
      Ok (h, mkStats (rs_adds st) (rs_deletes st) (rs_task_artifacts st)
               (rs_skipped st) (S (rs_checkpoints st)))
  end.

Definition replay `{ByteOrder} `{Crc32} `{Bincode WalRecord} `{RecoveryHandler HS}
    (reader : WalReader) (handler : HS) : io_result (HS * RecoveryStats) :=
  try_fold replay_step (records_for_recovery reader) (handler, RecoveryStats_default).

(* ------------------------------------------------------------------ *)
(** ** [rposition] *)

Lemma rposition_None {A} (p : A → bool) l :
  rposition p l = None ↔ Forall (λ x, p x = false) l.
Proof.
  induction l as [|x l IH]; cbn; [split; [constructor|done]|].
  rewrite Forall_cons, <-IH. destruct (rposition p l), (p x); naive_solver.
Qed.

(** The last match splits the list: nothing after it matches. *)
Lemma rposition_split {A} (p : A → bool) l i :
  rposition p l = Some i →
  ∃ x, l = take i l ++ x :: drop (S i) l ∧ p x = true ∧ Forall (λ y, p y = false) (drop (S i) l).
Proof.
  revert i. induction l as [|x l IH]; intros i; cbn; [done|].
  destruct (rposition p l) as [k|] eqn:E.
  - intros [= <-]. destruct (IH k eq_refl) as (y & Hl & Hp & Hf). exists y. cbn.
    split_and!; [by f_equal|done..].
  - destruct (p x) eqn:Hx; [|done]. intros [= <-]. exists x. cbn. rewrite drop_0.
    split_and!; [done..|]. by apply rposition_None.
Qed.

Lemma rposition_app_none {A} (p : A → bool) l k :
  Forall (λ x, p x = false) k → rposition p (l ++ k) = rposition p l.
Proof.
  intros Hk. induction l as [|x l IH]; cbn; [by apply rposition_None|]. by rewrite IH.
Qed.

Lemma rposition_app_some {A} (p : A → bool) l x k :
  p x = true → Forall (λ x, p x = false) k → rposition p (l ++ x :: k) = Some (length l).
Proof.
  intros Hx Hk. induction l as [|y l IH]; cbn.
  - apply rposition_None in Hk. by rewrite Hk, Hx.
  - by rewrite IH.
Qed.

(* ------------------------------------------------------------------ *)
(** ** The read loop *)

Section reader_facts.
Context `{ByteOrderLaws} `{Crc32Laws} `{BincodeLaws WalRecord}.

(** Each iteration consumes at least a header, so fuel above the bytes
    left is enough; the offset never leaves the buffer. *)
Lemma read_loop_total fuel data rs off :
  0 ≤ off ≤ zlen data → zlen data - off < Z.of_nat fuel →
  ∃ rs' off', read_loop fuel data rs off = Some (rs', off') ∧ off ≤ off' ≤ zlen data.
Proof.
  revert rs off. induction fuel as [|fuel IH]; intros rs off Hoff Hfuel; [lia|].
  cbn. destruct (Z.leb_spec (off + WAL_HEADER_SIZE) (zlen data)) as [Hle|]; [|naive_solver].
  destruct (decode_from_bytes _) as [[r n]|e] eqn:Ed; [|naive_solver].
  apply decode_bounds in Ed as [Hn _].
  assert (zlen (drop (Z.to_nat off) data) = zlen data - off) as Hlen.
  { unfold zlen in *. rewrite length_drop. lia. }
  unfold WAL_HEADER_SIZE in *. rewrite Hlen in Hn.
  destruct (IH (rs ++ [r]) (off + n)) as (rs' & off' & -> & ?); [lia..|].
  eexists _, _. split; [done|lia].
Qed.

Lemma read_all_some r :
  read_all_records r = Some (read_all r) ∧ 0 ≤ (read_all r).2 ≤ wal_len r.
Proof.
  unfold read_all, read_all_records, wal_len.
  destruct (read_loop_total (S (length (wal_data r))) (wal_data r) [] 0) as (rs & off & -> & ?);
    [unfold zlen; lia..|]. cbn. done.
Qed.

(** More fuel does not change the answer. *)
Lemma read_loop_mono fuel fuel' data rs off v :
  (fuel ≤ fuel')%nat → read_loop fuel data rs off = Some v → read_loop fuel' data rs off = Some v.
Proof.
  revert fuel' rs off. induction fuel as [|fuel IH]; intros [|fuel'] rs off Hle Hv; cbn in *;
    [done..|lia|].
  destruct (_ <=? _); [|done]. destruct (decode_from_bytes _) as [[??]|]; [|done].
  apply IH; [lia|done].
Qed.

(** The bytes of a log holding [rs]. *)
Definition wal_bytes (rs : list WalRecord) : list byte := rs ≫= encode_to_bytes.

Lemma wal_bytes_app rs rs' : wal_bytes (rs ++ rs') = wal_bytes rs ++ wal_bytes rs'.
Proof. apply bind_app. Qed.

Lemma wal_bytes_snoc rs r : wal_bytes (rs ++ [r]) = wal_bytes rs ++ encode_to_bytes r.
Proof. rewrite wal_bytes_app. cbn. by rewrite app_nil_r. Qed.

(** A tail the decoder refuses: the loop stops in front of it. *)
Definition wal_junk (tail : list byte) : Prop :=
  zlen tail < WAL_HEADER_SIZE ∨ is_ok (decode_from_bytes tail) = false.

Lemma read_loop_junk fuel pre tail rs :
  wal_junk tail → read_loop (S fuel) (pre ++ tail) rs (zlen pre) = Some (rs, zlen pre).
Proof.
  intros Hj. cbn. rewrite zlen_app.
  replace (Z.to_nat (zlen pre)) with (length pre) by (unfold zlen; lia).
  rewrite drop_app_length. pose proof (zlen_nonneg pre).
  destruct (Z.leb_spec (zlen pre + WAL_HEADER_SIZE) (zlen pre + zlen tail)); [|done].
  destruct Hj as [?|Hj]; [lia|]. by destruct (decode_from_bytes tail).
Qed.

Lemma read_loop_records pre rs tail acc fuel :
  Forall wal_fits rs → wal_junk tail → (length rs < fuel)%nat →
  read_loop fuel (pre ++ wal_bytes rs ++ tail) acc (zlen pre) =
    Some (acc ++ rs, zlen pre + zlen (wal_bytes rs)).
Proof.
  intros Hfit Hjunk. revert pre acc fuel.
  induction Hfit as [|r rs Hr Hrs IH]; intros pre acc fuel Hfuel;
    (destruct fuel as [|fuel]; [cbn in Hfuel; lia|]).
  - cbn [wal_bytes mbind list_bind app]. rewrite read_loop_junk, app_nil_r by done.
    by rewrite zlen_nil, Z.add_0_r.
  - change (wal_bytes (r :: rs)) with (encode_to_bytes r ++ wal_bytes rs).
    cbn [read_loop]. rewrite !zlen_app, encode_length.
    pose proof (zlen_nonneg pre). pose proof (zlen_nonneg (wal_bytes rs)).
    pose proof (zlen_nonneg tail). pose proof (zlen_nonneg (bincode_encode r)).
    replace (_ <=? _) with true by (unfold WAL_HEADER_SIZE in *; lia).
    replace (Z.to_nat (zlen pre)) with (length pre) by (unfold zlen; lia).
    rewrite drop_app_length, <-app_assoc, wal_decode_encode by done.
    rewrite (app_assoc pre), <-zlen_app.
    rewrite IH by (cbn in Hfuel; lia).
    rewrite <-(app_assoc acc), zlen_app, encode_length. f_equal. f_equal. lia.
Qed.

Lemma wal_bytes_length rs : (length rs ≤ length (wal_bytes rs))%nat.
Proof.
  induction rs as [|r rs IH]; cbn; [lia|]. rewrite length_app.
  pose proof (encode_length r) as Hl. pose proof (zlen_nonneg (bincode_encode r)).
  unfold zlen, WAL_HEADER_SIZE in *. fold (wal_bytes rs). lia.
Qed.

Lemma read_all_log rs tail :
  Forall wal_fits rs → wal_junk tail →
  read_all (mkWalReader (wal_bytes rs ++ tail)) = (rs, zlen (wal_bytes rs)).
Proof.
  intros Hfit Hjunk. unfold read_all, read_all_records. cbn [wal_data].
  pose proof (wal_bytes_length rs).
  rewrite (read_loop_records [] rs tail []); [done..|].
  rewrite length_app. lia.
Qed.

Lemma wal_junk_nil : wal_junk [].
Proof. left. done. Qed.

Lemma wal_junk_torn r k :
  wal_fits r → (k < length (encode_to_bytes r))%nat → wal_junk (take k (encode_to_bytes r)).
Proof.
  intros Hfit Hk. right. destruct (wal_decode_torn r k Hfit Hk) as [msg ->]. done.
Qed.

(** Cutting a log of records anywhere leaves whole records and junk. *)
Lemma wal_bytes_prefix rs k :
  Forall wal_fits rs →
  ∃ n tail, take k (wal_bytes rs) = wal_bytes (take n rs) ++ tail ∧ wal_junk tail ∧
            (n ≤ length rs)%nat ∧
            (length (wal_bytes rs) ≤ k → n = length rs ∧ tail = [])%nat.
Proof.
  intros Hfit. revert k. induction Hfit as [|r rs Hr Hrs IH]; intros k.
  - exists O, []. cbn. rewrite take_nil. split_and!; [done|apply wal_junk_nil|lia|done].
  - change (wal_bytes (r :: rs)) with (encode_to_bytes r ++ wal_bytes rs).
    destruct (decide (k < length (encode_to_bytes r))%nat) as [Hlt|Hge].
    + exists O, (take k (encode_to_bytes r)). rewrite take_app_le by lia.
      split_and!; [done|by apply wal_junk_torn|lia|rewrite length_app; lia].
    + destruct (IH (k - length (encode_to_bytes r))%nat) as (n & tail & Ht & Hj & Hn & Hfull).
      exists (S n), tail. rewrite take_app_ge, Ht by lia. cbn [take].
      change (wal_bytes (r :: take n rs)) with (encode_to_bytes r ++ wal_bytes (take n rs)).
      rewrite <-app_assoc. split_and!; [done..|cbn; lia|].
      rewrite length_app. intros Hk. destruct Hfull as [-> ->]; [lia|done].
Qed.

(** ** Records for recovery *)

Lemma recovery_no_checkpoint r : Forall (λ x, is_checkpoint x = false) (records_for_recovery r).
Proof.
  unfold records_for_recovery. destruct (rposition _ _) as [i|] eqn:E.
  - by apply rposition_split in E as (x & _ & _ & ?).
  - rewrite drop_0. by apply rposition_None.
Qed.

(** The suffix after the last checkpoint of a list of records. *)
Definition after_checkpoint (rs : list WalRecord) : list WalRecord :=
  match rposition is_checkpoint rs with Some i => drop (S i) rs | None => rs end.

Lemma records_for_recovery_log rs tail :
  Forall wal_fits rs → wal_junk tail →
  records_for_recovery (mkWalReader (wal_bytes rs ++ tail)) = after_checkpoint rs.
Proof.
  intros. unfold records_for_recovery, after_checkpoint. rewrite read_all_log by done. cbn.
  by destruct (rposition _ _).
Qed.

End reader_facts.

Lemma after_checkpoint_app rs rs' :
  Forall (λ x, is_checkpoint x = false) rs' →
  after_checkpoint (rs ++ rs') = after_checkpoint rs ++ rs'.
Proof.
  intros Hno. unfold after_checkpoint. rewrite rposition_app_none by done.
  destruct (rposition is_checkpoint rs) as [i|] eqn:E; [|done].
  apply rposition_split in E as (x & Hrs & _). apply drop_app_le.
  apply (f_equal length) in Hrs. rewrite length_app in Hrs. cbn in Hrs.
  rewrite length_take, length_drop in Hrs. lia.
Qed.

Lemma after_checkpoint_checkpoint rs r :
  is_checkpoint r = true → after_checkpoint (rs ++ [r]) = [].
Proof.
  intros Hr. unfold after_checkpoint. rewrite (rposition_app_some _ rs r []) by done.
  apply drop_ge. rewrite length_app. cbn. lia.
Qed.

(* ------------------------------------------------------------------ *)
(** ** Replay *)

(** What a handler promises: an applied [Add] makes its chunk exist, and
    no callback makes a chunk disappear (deletes are soft). *)
Class RecoveryHandlerLaws (HS : Type) `{RecoveryHandler HS} : Prop := {
  on_add_exists r h h' : on_add r h = Ok h' → chunk_exists (wr_chunk_id r) h' = Ok true;
  on_add_keeps r h h' c :
    on_add r h = Ok h' → chunk_exists c h = Ok true → chunk_exists c h' = Ok true;
  on_delete_keeps r h h' c :
    on_delete r h = Ok h' → chunk_exists c h = Ok true → chunk_exists c h' = Ok true;
  on_task_artifact_keeps r h h' c :
    on_task_artifact r h = Ok h' → chunk_exists c h = Ok true → chunk_exists c h' = Ok true;
}.

(** How many records of a kind a list holds. *)
Definition count_type (t : WalRecordType) (rs : list WalRecord) : nat :=
  length (filter (λ r, record_type r = t) rs).

(** The four kinds partition the records. *)
Lemma count_type_total rs :
  (count_type WalAdd rs + count_type WalDelete rs + count_type WalTaskArtifact rs
     + count_type WalCheckpoint rs = length rs)%nat.
Proof.
  unfold count_type. induction rs as [|r rs IH]; [done|]. rewrite !filter_cons.
  destruct (record_type r); repeat case_decide; try done; cbn [length]; lia.
Qed.

Lemma count_type_checkpoint rs :
  Forall (λ x, is_checkpoint x = false) rs → count_type WalCheckpoint rs = O.
Proof.
  unfold count_type. induction 1 as [|r rs Hr Hrs IH]; [done|]. rewrite filter_cons.
  case_decide as Ht; [|done]. unfold is_checkpoint in Hr. by rewrite bool_decide_true in Hr.
Qed.

Section replay_facts.
Context `{RecoveryHandlerLaws HS}.

Ltac replay_step_inv H :=
  unfold replay_step in H;
  repeat match type of H with
  | context [match record_type ?r with _ => _ end] => destruct (record_type r) eqn:?
  | context [mbind _ ?m] => destruct m eqn:?; cbn [mbind result_bind] in H
  | context [if ?b then _ else _] => destruct b eqn:?
  end; simplify_eq.

Lemma replay_step_exists h st r h' st' c :
  replay_step (h, st) r = Ok (h', st') →
  chunk_exists c h = Ok true ∨ (record_type r = WalAdd ∧ c = wr_chunk_id r) →
  chunk_exists c h' = Ok true.
Proof.
  intros Hs Hc. replay_step_inv Hs; destruct Hc as [Hc|[? ->]]; try congruence;
    eauto using on_add_exists, on_add_keeps, on_delete_keeps, on_task_artifact_keeps.
Qed.

(** After a replay every added chunk exists, and the counters add up. *)
Lemma replay_fold rs h st h' st' :
  try_fold replay_step rs (h, st) = Ok (h', st') →
  (∀ c, chunk_exists c h = Ok true ∨
        (∃ r, r ∈ rs ∧ record_type r = WalAdd ∧ c = wr_chunk_id r) →
        chunk_exists c h' = Ok true) ∧
  (rs_adds st' + rs_skipped st' = rs_adds st + rs_skipped st + count_type WalAdd rs)%nat ∧
  (rs_deletes st' = rs_deletes st + count_type WalDelete rs)%nat ∧
  (rs_task_artifacts st' = rs_task_artifacts st + count_type WalTaskArtifact rs)%nat ∧
  (rs_checkpoints st' = rs_checkpoints st + count_type WalCheckpoint rs)%nat.
Proof.
  revert h st. induction rs as [|r rs IH]; intros h st Hf; cbn [try_fold] in Hf.
  - simplify_eq. split; [|unfold count_type; cbn; lia].
    intros c [?|(r & Hr & _)]; [done|]. by apply not_elem_of_nil in Hr.
  - destruct (replay_step (h, st) r) as [[h1 st1]|] eqn:Es; [|done].
    cbn in Hf. destruct (IH _ _ Hf) as (Hex & Hcnt). split.
    + intros c Hc. apply Hex. destruct Hc as [Hc|(r' & Hr' & Ht & ->)].
      { left. eapply replay_step_exists; eauto. }
      apply elem_of_cons in Hr' as [->|Hr']; [|eauto].
      left. eapply replay_step_exists; eauto.
    + unfold count_type in *. rewrite !filter_cons.
      replay_step_inv Es; cbn [rs_adds rs_skipped rs_deletes rs_task_artifacts rs_checkpoints] in *;
        repeat case_decide; try congruence; cbn [length] in *; lia.
Qed.

(** Over chunks that all exist, replay adds nothing. *)
Lemma replay_fold_existing rs h st h' st' :
  (∀ r, r ∈ rs → record_type r = WalAdd → chunk_exists (wr_chunk_id r) h = Ok true) →
  try_fold replay_step rs (h, st) = Ok (h', st') → rs_adds st' = rs_adds st.
Proof.
  revert h st. induction rs as [|r rs IH]; intros h st Hall Hf; cbn [try_fold] in Hf; [by simplify_eq|].
  destruct (replay_step (h, st) r) as [[h1 st1]|] eqn:Es; [|done]. cbn in Hf.
  transitivity (rs_adds st1).
  - eapply IH; [|exact Hf]. intros r' Hr' Ht.
    eapply replay_step_exists; [exact Es|]. left. apply Hall; [by right|done].
  - assert (Hr := Hall r ltac:(by left)). clear IH Hf Hall.
    replay_step_inv Es; try done. specialize (Hr eq_refl). congruence.
Qed.

End replay_facts.
