(* ===== verification/Files.v ===== *)
(** * Files, handles and power loss

    The part of [std::fs] the storage core uses.  A file keeps its current
    content and the content last made durable by [sync_all]/[sync_data];
    a crash keeps the durable part and possibly some of what was written
    after it.  A handle is opened either for append (every write goes to
    the end) or for plain writing (writes go to the handle's cursor and a
    write past the end leaves a zero-filled hole). *)

From S2P Require Import Prelude.
From Stdlib Require Import Init.Byte.

Open Scope Z_scope.

Record File : Type := mkFile { f_cur : list byte; f_durable : list byte }.

(** A freshly created (or truncated-on-open) file. *)
Definition file_new : File := mkFile [] [].

(** A file as found at start-up: what is there is durable. *)
Definition file_of (bs : list byte) : File := mkFile bs bs.

(** [write_all] in append mode. *)
Definition file_append (bs : list byte) (f : File) : File :=
  mkFile (f_cur f ++ bs) (f_durable f).

(** [write_all] at a cursor position: overwrite, extending with zeros. *)
Definition file_write_at (pos : nat) (bs : list byte) (f : File) : File :=
  let cur := f_cur f in
  let padded := cur ++ replicate (pos - length cur) x00 in
  mkFile (take pos padded ++ bs ++ drop (pos + length bs) padded) (f_durable f).

(** [set_len(0)] *)
Definition file_set_len0 (f : File) : File := mkFile [] (f_durable f).

(** [sync_all] / [sync_data] *)
Definition file_sync (f : File) : File := file_of (f_cur f).

(** What may be on disk after a crash: the durable content, the current
    content, or the durable content followed by part of what was appended
    since. *)
Definition crash_content (f : File) (c : list byte) : Prop :=
  c = f_durable f ∨ c = f_cur f ∨
  (f_durable f `prefix_of` c ∧ c `prefix_of` f_cur f).

(** A file handle. *)
Record Handle : Type := mkHandle { h_append : bool; h_pos : nat }.

Definition handle_write (bs : list byte) (h : Handle) (f : File) : Handle * File :=
  if h_append h
  then (mkHandle true (length (f_cur f) + length bs), file_append bs f)
  else (mkHandle false (h_pos h + length bs), file_write_at (h_pos h) bs f).

(* ------------------------------------------------------------------ *)
(** ** Facts *)

Lemma file_write_at_end bs f :
  f_cur (file_write_at (length (f_cur f)) bs f) = f_cur f ++ bs.
Proof.
  unfold file_write_at. cbn [f_cur]. rewrite Nat.sub_diag. cbn [replicate].
  rewrite app_nil_r, take_ge, drop_ge by lia. by rewrite app_nil_r.
Qed.

Lemma file_write_at_hole pos bs :
  f_cur (file_write_at pos bs (mkFile [] [])) = replicate pos x00 ++ bs.
Proof.
  unfold file_write_at. cbn -[replicate take drop]. rewrite Nat.sub_0_r.
  rewrite take_ge, drop_ge by (rewrite length_replicate; lia). by rewrite app_nil_r.
Qed.

(** After a sync a crash loses nothing. *)
Lemma crash_content_synced f c : crash_content (file_sync f) c → c = f_cur f.
Proof.
  intros [->|[->|[H1 H2]]]; [done..|]. cbn in *.
  apply (anti_symm prefix); [exact H2|exact H1].
Qed.

Lemma crash_content_file_of bs c : crash_content (file_of bs) c → c = bs.
Proof. apply (crash_content_synced (mkFile bs [])). Qed.

(** Appending to a durable file: a crash leaves the old content followed by
    a prefix of the new bytes. *)
Lemma crash_content_append pre bs c :
  crash_content (mkFile (pre ++ bs) pre) c → ∃ k, c = pre ++ take k bs.
Proof.
  intros [->|[->|[[u Hu] [v Hv]]]]; cbn in *.
  - exists O. by rewrite take_0, app_nil_r.
  - exists (length bs). by rewrite firstn_all.
  - subst c. rewrite <-app_assoc in Hv. apply app_inv_head in Hv. subst bs.
    exists (length u). by rewrite take_app_length.
Qed.
