(* ===== verification/WalWriter.v ===== *)
(** * WAL writer (src/crates/memd/src/store/wal/writer.rs)

    The writer owns a handle on the log file.  [create] opens the file for
    plain writing and [open] for append, as the source does; the operations
    act on the file and the handle. *)

From S2P Require Import Prelude Crates WalFormat WalReader Files.
From Stdlib Require Import Init.Byte.

Open Scope Z_scope.

Record WalWriter : Type := mkWalWriter {
  ww_handle : Handle;
  ww_records_written : Z;
}.

(** [OpenOptions::new().create_new(true).write(true)]: refuses an existing
    file; the handle is not in append mode. *)
Definition wal_create (file : option File) : io_result (WalWriter * File) :=
  match file with
  | Some _ => Err (io_err AlreadyExists "file exists")
  | None => Ok (mkWalWriter (mkHandle false 0) 0, file_new)
  end.

(** [OpenOptions::new().append(true)] *)
Definition wal_open (file : option File) : io_result (WalWriter * File) :=
  match file with
  | None => Err (io_err NotFound "no such file")
  | Some f => Ok (mkWalWriter (mkHandle true (length (f_cur f))) 0, f)
  end.

Definition wal_open_or_create (file : option File) : io_result (WalWriter * File) :=
  match file with
  | Some _ => wal_open file
  | None => wal_create file
  end.

Section writer.
Context `{BO : ByteOrder} `{CRC : Crc32} `{BC : Bincode WalRecord}.

(** [append]: write, sync, count. *)
Definition wal_append (r : WalRecord) (w : WalWriter) (f : File) : WalWriter * File :=
  let '(h, f) := handle_write (encode_to_bytes r) (ww_handle w) f in
  let f := file_sync f in
  (mkWalWriter h (ww_records_written w + 1), f).

(** The write loop of [append_batch]. *)
Fixpoint wal_write_batch (rs : list WalRecord) (h : Handle) (f : File) : Handle * File :=
  match rs with
  | [] => (h, f)
  | r :: rs =>
      let '(h, f) := handle_write (encode_to_bytes r) h f in
      wal_write_batch rs h f
  end.

(** [append_batch]: one sync at the end. *)
Definition wal_append_batch (rs : list WalRecord) (w : WalWriter) (f : File)
    : WalWriter * File :=
  match rs with
  | [] => (w, f)
  | _ =>
      let '(h, f) := wal_write_batch rs (ww_handle w) f in
      (mkWalWriter h (ww_records_written w + zlen rs), file_sync f)
  end.

(** The convenience methods. *)
Definition wal_append_add (tenant_id chunk_id : string) (ts : Z) (payload : list byte) :=
  wal_append (wal_add tenant_id chunk_id ts payload).
Definition wal_append_add_batch (tenant_id : string) (rows : list (string * Z * list byte)) :=
  wal_append_batch (map (λ '(chunk_id, ts, payload), wal_add tenant_id chunk_id ts payload) rows).
Definition wal_append_delete (tenant_id chunk_id : string) (ts : Z) :=
  wal_append (wal_delete tenant_id chunk_id ts).
Definition wal_append_checkpoint (tenant_id : string) (ts : Z) :=
  wal_append (wal_checkpoint tenant_id ts).
Definition wal_append_task_artifact (tenant_id artifact_id : string) (ts : Z)
    (payload : list byte) :=
  wal_append (wal_task_artifact tenant_id artifact_id ts payload).

End writer.

(** [truncate]: [set_len(0)], sync, reset the counter; the handle's cursor
    is left where it was. *)
Definition wal_truncate (w : WalWriter) (f : File) : WalWriter * File :=
  let f := file_sync (file_set_len0 f) in
  (mkWalWriter (ww_handle w) 0, f).

(* ------------------------------------------------------------------ *)
(** ** Facts *)

(** The handle writes at the end of the file: it is in append mode, or its
    cursor is there. *)
Definition at_end (h : Handle) (f : File) : Prop :=
  h_append h = true ∨ h_pos h = length (f_cur f).

Lemma handle_write_at_end bs h f :
  at_end h f →
  ∃ h', handle_write bs h f = (h', mkFile (f_cur f ++ bs) (f_durable f)) ∧
        at_end h' (mkFile (f_cur f ++ bs) (f_durable f)) ∧ h_append h' = h_append h.
Proof.
  unfold handle_write. intros [E|E].
  - rewrite E. eexists. split; [done|]. split; [by left|done].
  - destruct (h_append h) eqn:Ea; eexists.
    + split; [done|]. split; [by left|done].
    + split; [f_equal; rewrite E; unfold file_write_at; f_equal; apply (file_write_at_end bs f)|].
      split; [right; cbn; rewrite length_app; lia|done].
Qed.

Section writer_facts.
Context `{BO : ByteOrder} `{CRC : Crc32} `{BC : Bincode WalRecord}.

Lemma wal_write_batch_at_end rs h f :
  at_end h f →
  ∃ h', wal_write_batch rs h f = (h', mkFile (f_cur f ++ wal_bytes rs) (f_durable f)) ∧
        at_end h' (mkFile (f_cur f ++ wal_bytes rs) (f_durable f)) ∧ h_append h' = h_append h.
Proof.
  revert h f. induction rs as [|r rs IH]; intros h f He.
  - exists h. cbn. rewrite app_nil_r. by destruct f.
  - cbn [wal_write_batch].
    destruct (handle_write_at_end (encode_to_bytes r) h f He) as (h1 & -> & He1 & Ha1).
    destruct (IH _ _ He1) as (h2 & -> & He2 & Ha2). exists h2. cbn [f_cur f_durable] in *.
    change (wal_bytes (r :: rs)) with (encode_to_bytes r ++ wal_bytes rs).
    rewrite (app_assoc (f_cur f)). split; [done|]. split; [done|congruence].
Qed.

Lemma wal_append_batch_at_end rs w f :
  rs ≠ [] → at_end (ww_handle w) f →
  ∃ h', wal_append_batch rs w f =
          (mkWalWriter h' (ww_records_written w + zlen rs), file_of (f_cur f ++ wal_bytes rs)) ∧
        at_end h' (file_of (f_cur f ++ wal_bytes rs)) ∧ h_append h' = h_append (ww_handle w).
Proof.
  intros Hne He. destruct rs as [|r rs]; [done|]. unfold wal_append_batch.
  destruct (wal_write_batch_at_end (r :: rs) (ww_handle w) f He) as (h' & -> & He' & Ha').
  exists h'. split; [done|]. split; [|done].
  destruct He' as [?|E]; [by left|right]. cbn in *. done.
Qed.

Lemma wal_append_at_end r w f :
  at_end (ww_handle w) f →
  ∃ h', wal_append r w f =
          (mkWalWriter h' (ww_records_written w + 1), file_of (f_cur f ++ encode_to_bytes r)) ∧
        at_end h' (file_of (f_cur f ++ encode_to_bytes r)) ∧ h_append h' = h_append (ww_handle w).
Proof.
  intros He. unfold wal_append.
  destruct (handle_write_at_end (encode_to_bytes r) _ f He) as (h' & -> & He' & Ha').
  exists h'. split; [done|]. split; [|done].
  destruct He' as [?|E]; [by left|right]. cbn in *. done.
Qed.

End writer_facts.
