(* ===== verification/SegmentFormat.v ===== *)
(** * Segment files: format and directory
    (src/crates/memd/src/store/segment/format.rs)

    [PayloadIndexRecord] with its 16-byte codec and [parse_all], and
    [SegmentMeta].  The second half is the segment directory as the writer
    and the reader see it: three files plus the tombstone file, and the
    primitive operations on them. *)

From S2P Require Import Prelude Crates Files.
From Stdlib Require Import Init.Byte.

Open Scope Z_scope.

(** b"MSEG" *)
Definition SEGMENT_MAGIC : list byte := [x4d; x53; x45; x47].

Record PayloadIndexRecord : Type := mkIndex {
  pi_offset : Z;
  pi_length : Z;
  pi_crc32 : Z;
}.

#[export] Instance PayloadIndexRecord_eq_dec : EqDecision PayloadIndexRecord.
Proof. solve_decision. Defined.

(** [PayloadIndexRecord::SIZE] *)
Definition INDEX_SIZE : Z := 16.

Record SegmentMeta : Type := mkSegmentMeta {
  sm_id : Z;
  sm_chunk_count : Z;
  sm_created_ts : Z;
  sm_finalized : bool;
}.

(** [SegmentMeta::new], with the clock reading as an argument. *)
Definition segment_meta_new (now_ms id : Z) : SegmentMeta := mkSegmentMeta id 0 now_ms false.

Section index_codec.
Context `{BO : ByteOrder}.

(** [to_bytes] *)
Definition index_to_bytes (r : PayloadIndexRecord) : list byte :=
  write_u64 (pi_offset r) ++ write_u32 (pi_length r) ++ write_u32 (pi_crc32 r).

(** [from_bytes] *)
Definition index_from_bytes (bytes : list byte) : io_result PayloadIndexRecord :=
  if zlen bytes <? INDEX_SIZE
  then Err (io_err UnexpectedEof "not enough bytes for PayloadIndexRecord")
  else
    let cursor := zslice 0 INDEX_SIZE bytes in
    let eof := io_err UnexpectedEof "failed to fill whole buffer" in
    '(offset, cursor) ← ok_or (read_u64 cursor) eof;
    '(len, cursor) ← ok_or (read_u32 cursor) eof;
    '(crc, _) ← ok_or (read_u32 cursor) eof;
    Ok (mkIndex offset len crc).

(** The [for i in 0..count] loop of [parse_all]. *)
Fixpoint parse_loop (count : nat) (offset : Z) (bytes : list byte)
    : io_result (list PayloadIndexRecord) :=
  match count with
  | O => Ok []
  | S count =>
      r ← index_from_bytes (zslice offset (offset + INDEX_SIZE) bytes);
      rest ← parse_loop count (offset + INDEX_SIZE) bytes;
      Ok (r :: rest)
  end.

(** [parse_all] *)
Definition parse_all (bytes : list byte) : io_result (list PayloadIndexRecord) :=
  if negb (zlen bytes mod INDEX_SIZE =? 0)
  then Err (io_err InvalidData "invalid index size: not a multiple of record size")
  else parse_loop (Z.to_nat (zlen bytes / INDEX_SIZE)) 0 bytes.

(** [SegmentReader::load_index] on the file content. *)
Definition load_index (bytes : list byte) : io_result (list PayloadIndexRecord) :=
  if zlen bytes <? zlen SEGMENT_MAGIC
  then Err (io_err InvalidData "index file too small")
  else if negb (bool_decide (zslice 0 (zlen SEGMENT_MAGIC) bytes = SEGMENT_MAGIC))
  then Err (io_err InvalidData "invalid index magic")
  else parse_all (drop (length SEGMENT_MAGIC) bytes).

End index_codec.

(** [SegmentMeta::load] on the file content. *)
Definition segment_meta_load `{Bincode SegmentMeta} (bytes : list byte) : io_result SegmentMeta :=
  ok_or (bincode_decode bytes) (io_err InvalidData "failed to decode segment meta").

(** The fields fit their widths. *)
Definition index_wf (r : PayloadIndexRecord) : Prop :=
  in_u64 (pi_offset r) ∧ in_u32 (pi_length r) ∧ in_u32 (pi_crc32 r).

(* ------------------------------------------------------------------ *)
(** ** The segment directory *)

Inductive SegFile : Type := PayloadBin | PayloadIdx | MetaFile.

#[export] Instance SegFile_eq_dec : EqDecision SegFile.
Proof. solve_decision. Defined.

(** [payload.bin], [payload.idx], [meta] and [tombstone.bin]; the last is
    only ever replaced by temp file + rename. *)
Record SegDir : Type := mkSegDir {
  sd_payload : option File;
  sd_idx : option File;
  sd_meta : option File;
  sd_tomb : option (list byte);
}.

Definition segdir_empty : SegDir := mkSegDir None None None None.

Definition sd_get (k : SegFile) (d : SegDir) : option File :=
  match k with PayloadBin => sd_payload d | PayloadIdx => sd_idx d | MetaFile => sd_meta d end.

Definition sd_set (k : SegFile) (f : File) (d : SegDir) : SegDir :=
  match k with
  | PayloadBin => mkSegDir (Some f) (sd_idx d) (sd_meta d) (sd_tomb d)
  | PayloadIdx => mkSegDir (sd_payload d) (Some f) (sd_meta d) (sd_tomb d)
  | MetaFile => mkSegDir (sd_payload d) (sd_idx d) (Some f) (sd_tomb d)
  end.

(** The primitive effects on a segment directory. *)
Inductive SegOp : Type :=
| SCreate (k : SegFile)
| SWrite (k : SegFile) (bs : list byte)
| SSync (k : SegFile)
| STomb (bs : list byte).

Definition apply_segop (o : SegOp) (d : SegDir) : SegDir :=
  match o with
  | SCreate k => sd_set k file_new d
  | SWrite k bs =>
      match sd_get k d with Some f => sd_set k (file_append bs f) d | None => d end
  | SSync k =>
      match sd_get k d with Some f => sd_set k (file_sync f) d | None => d end
  | STomb bs => mkSegDir (sd_payload d) (sd_idx d) (sd_meta d) (Some bs)
  end.

Definition apply_segops (os : list SegOp) (d : SegDir) : SegDir :=
  foldl (λ d o, apply_segop o d) d os.

(** A directory after a crash. *)
Definition crash_file_opt (f f' : option File) : Prop :=
  match f, f' with
  | None, None => True
  | Some f, Some f' => ∃ c, crash_content f c ∧ f' = file_of c
  | _, _ => False
  end.

Definition crash_segdir (d d' : SegDir) : Prop :=
  crash_file_opt (sd_payload d) (sd_payload d') ∧
  crash_file_opt (sd_idx d) (sd_idx d') ∧
  crash_file_opt (sd_meta d) (sd_meta d') ∧
  sd_tomb d' = sd_tomb d.

(* ------------------------------------------------------------------ *)
(** ** Facts *)

Lemma apply_segops_app os os' d :
  apply_segops (os ++ os') d = apply_segops os' (apply_segops os d).
Proof. apply foldl_app. Qed.

Section index_facts.
Context `{ByteOrderLaws}.

Lemma length_index_to_bytes r : length (index_to_bytes r) = 16%nat.
Proof.
  unfold index_to_bytes. by rewrite !length_app, length_write_u64, !length_write_u32.
Qed.

Lemma zlen_index_to_bytes r : zlen (index_to_bytes r) = INDEX_SIZE.
Proof. unfold zlen. by rewrite length_index_to_bytes. Qed.

Lemma index_roundtrip r rest :
  index_wf r → index_from_bytes (index_to_bytes r ++ rest) = Ok r.
Proof.
  intros (Ho & Hl & Hc). unfold index_from_bytes.
  rewrite zlen_app, zlen_index_to_bytes. pose proof (zlen_nonneg rest).
  replace (_ <? _) with false by (unfold INDEX_SIZE; lia).
  rewrite zslice_prefix by (by rewrite zlen_index_to_bytes).
  unfold index_to_bytes. rewrite read_write_u64 by done. cbn [ok_or mbind result_bind].
  rewrite read_write_u32 by done. cbn [ok_or mbind result_bind].
  rewrite <-(app_nil_r (write_u32 (pi_crc32 r))), read_write_u32 by done. by destruct r.
Qed.

Lemma parse_loop_records pre rs post :
  Forall index_wf rs →
  parse_loop (length rs) (zlen pre) (pre ++ (rs ≫= index_to_bytes) ++ post) = Ok rs.
Proof.
  intros Hwf. revert pre. induction Hwf as [|r rs Hr Hrs IH]; intros pre; [done|].
  cbn [length parse_loop]. change ((r :: rs) ≫= index_to_bytes)
    with (index_to_bytes r ++ (rs ≫= index_to_bytes)).
  rewrite <-app_assoc, zslice_app_mid by (rewrite ?zlen_index_to_bytes; done).
  rewrite <-(app_nil_r (index_to_bytes r)) at 1.
  rewrite index_roundtrip by done. cbn [mbind result_bind].
  rewrite <-(zlen_index_to_bytes r), <-zlen_app, (app_assoc pre), IH. done.
Qed.

Lemma zlen_index_bytes rs : zlen (rs ≫= index_to_bytes) = INDEX_SIZE * zlen rs.
Proof.
  induction rs as [|r rs IH]; [done|].
  change ((r :: rs) ≫= index_to_bytes) with (index_to_bytes r ++ (rs ≫= index_to_bytes)).
  rewrite zlen_app, IH, zlen_index_to_bytes, zlen_cons. lia.
Qed.

Lemma load_index_roundtrip rs :
  Forall index_wf rs → load_index (SEGMENT_MAGIC ++ (rs ≫= index_to_bytes)) = Ok rs.
Proof.
  intros Hwf. unfold load_index. rewrite zlen_app. pose proof (zlen_nonneg (rs ≫= index_to_bytes)).
  replace (_ <? _) with false by lia.
  rewrite zslice_prefix by done. rewrite bool_decide_true by done. cbn [negb].
  rewrite drop_app_length. unfold parse_all. rewrite zlen_index_bytes.
  rewrite Z.mul_comm, Z.mod_mul by done. cbn [Z.eqb negb].
  rewrite Z.div_mul by done. unfold zlen. rewrite Nat2Z.id.
  rewrite <-(app_nil_r (rs ≫= index_to_bytes)). by apply (parse_loop_records []).
Qed.

(** A file cut anywhere but at a record boundary is refused. *)
Lemma parse_all_ragged bytes :
  zlen bytes mod INDEX_SIZE ≠ 0 →
  parse_all bytes = Err (io_err InvalidData "invalid index size: not a multiple of record size").
Proof. intros Hr. unfold parse_all. by apply Z.eqb_neq in Hr as ->. Qed.

End index_facts.
