(* ===== verification/Segment.v ===== *)
(** * Segments: tombstones, writer and reader
    (src/crates/memd/src/store/tombstone.rs,
     src/crates/memd/src/store/segment/{writer,reader}.rs)

    Every operation that touches the disk returns the primitive effects on
    the segment directory in the order the source performs them; applying
    the list gives the directory afterwards, and its prefixes are the
    states a crash can interrupt. *)

From S2P Require Import Prelude Crates Files SegmentFormat.

Open Scope Z_scope.

(* ------------------------------------------------------------------ *)
(** ** Tombstones *)

Record TombstoneSet (B : Type) : Type := mkTomb { tb_bitmap : B; tb_dirty : bool }.
Arguments mkTomb {B}.
Arguments tb_bitmap {B}.
Arguments tb_dirty {B}.

Section tombstone.
Context `{RB : Roaring B}.

(** [TombstoneSet::load_or_create] on the file content. *)
Definition tomb_load_or_create (file : option (list byte)) : memd_result (TombstoneSet B) :=
  match file with
  | Some bytes =>
      b ← ok_or (rb_deserialize bytes) (StorageError "tombstone deserialize");
      Ok (mkTomb b false)
  | None => Ok (mkTomb rb_new false)
  end.

Definition tomb_mark_deleted (ordinal : Z) (t : TombstoneSet B) : TombstoneSet B :=
  mkTomb (rb_insert ordinal (tb_bitmap t)) true.

Definition tomb_is_deleted (ordinal : Z) (t : TombstoneSet B) : bool :=
  rb_contains ordinal (tb_bitmap t).

Definition tomb_deleted_count (t : TombstoneSet B) : Z := rb_len (tb_bitmap t).

Definition tomb_is_empty (t : TombstoneSet B) : bool := rb_len (tb_bitmap t) =? 0.

(** [persist]: nothing when clean; otherwise temp file + rename. *)
Definition tomb_persist (t : TombstoneSet B) : TombstoneSet B * list SegOp :=
  if negb (tb_dirty t) then (t, [])
  else (mkTomb (tb_bitmap t) false, [STomb (rb_serialize (tb_bitmap t))]).

End tombstone.

(* ------------------------------------------------------------------ *)
(** ** Writer *)

(** The capacity of [BufWriter::new], left open. *)
Class BufCap : Type := buf_cap : nat.

Record SegmentWriter : Type := mkWriter {
  sw_id : Z;
  sw_buf : list byte;
  sw_payload_len : Z;
  sw_index : list PayloadIndexRecord;
  sw_meta : SegmentMeta;
}.

(** [SegmentWriter::create] after [create_dir_all]: [payload.bin] is
    created or truncated. *)
Definition writer_create (now_ms segment_id : Z) : SegmentWriter * list SegOp :=
  (mkWriter segment_id [] 0 [] (segment_meta_new now_ms segment_id), [SCreate PayloadBin]).

(** [BufWriter::flush] without the file sync. *)
Definition buf_flush (w : SegmentWriter) : SegmentWriter * list SegOp :=
  (mkWriter (sw_id w) [] (sw_payload_len w) (sw_index w) (sw_meta w),
   match sw_buf w with [] => [] | bs => [SWrite PayloadBin bs] end).

(** [BufWriter::write_all]. *)
Definition buf_write `{BufCap} (data : list byte) (w : SegmentWriter)
    : SegmentWriter * list SegOp :=
  let push w := mkWriter (sw_id w) (sw_buf w ++ data) (sw_payload_len w) (sw_index w) (sw_meta w) in
  if bool_decide (length data < buf_cap - length (sw_buf w))%nat then (push w, [])
  else
    let '(w, ops) :=
      if bool_decide (buf_cap - length (sw_buf w) < length data)%nat
      then buf_flush w else (w, []) in
    if bool_decide (buf_cap ≤ length data)%nat
    then (w, ops ++ [SWrite PayloadBin data])
    else (push w, ops).

(** [append_chunk]: the ordinal of the written chunk. *)
Definition append_chunk `{BufCap} `{Crc32} (data : list byte) (w : SegmentWriter)
    : SegmentWriter * Z * list SegOp :=
  let offset := sw_payload_len w in
  let len := as_u32 (zlen data) in
  let crc := crc32 data in
  let '(w, ops) := buf_write data w in
  let w := mkWriter (sw_id w) (sw_buf w) (sw_payload_len w + len)
             (sw_index w ++ [mkIndex offset len crc]) (sw_meta w) in
  (w, as_u32 (zlen (sw_index w) - 1), ops).

(** [flush_payload]: flush, then [sync_data]. *)
Definition flush_payload (w : SegmentWriter) : SegmentWriter * list SegOp :=
  let '(w, ops) := buf_flush w in (w, ops ++ [SSync PayloadBin]).

(** [write_index_file] *)
Definition write_index_file `{ByteOrder} (w : SegmentWriter) : list SegOp :=
  [SCreate PayloadIdx; SWrite PayloadIdx SEGMENT_MAGIC]
    ++ map (λ r, SWrite PayloadIdx (index_to_bytes r)) (sw_index w)
    ++ [SSync PayloadIdx].

(** [write_meta_file] *)
Definition write_meta_file `{Bincode SegmentMeta} (m : SegmentMeta) : list SegOp :=
  [SCreate MetaFile; SWrite MetaFile (bincode_encode m); SSync MetaFile].

(** [finalize]: payload, then index, then metadata. *)
Definition finalize `{ByteOrder} `{Bincode SegmentMeta} (w : SegmentWriter)
    : SegmentMeta * list SegOp :=
  let '(w, flush_ops) := buf_flush w in
  let idx_ops := write_index_file w in
  let meta := mkSegmentMeta (sm_id (sw_meta w)) (as_u32 (zlen (sw_index w)))
                (sm_created_ts (sw_meta w)) true in
  let meta_ops := write_meta_file meta in
  (meta, flush_ops ++ [SSync PayloadBin] ++ idx_ops ++ meta_ops).

Definition writer_chunk_count (w : SegmentWriter) : Z := zlen (sw_index w).

(** [SegmentWriter::read_chunk] on the directory of the active segment. *)
Definition writer_read_chunk `{Crc32} (ordinal : Z) (w : SegmentWriter) (d : SegDir)
    : memd_result (option (list byte)) * SegmentWriter * list SegOp :=
  if zlen (sw_index w) <=? ordinal then (Ok None, w, [])
  else
    let '(w, ops) := buf_flush w in
    match sw_index w !! Z.to_nat ordinal, sd_payload (apply_segops ops d) with
    | Some record, Some file =>
        let payload_data := f_cur file in
        let start := pi_offset record in
        let end_ := start + pi_length record in
        if zlen payload_data <? end_
        then (Err (StorageError "chunk offset out of bounds"), w, ops)
        else
          let data := zslice start end_ payload_data in
          if negb (crc32 data =? pi_crc32 record)
          then (Err (StorageError "chunk CRC mismatch"), w, ops)
          else (Ok (Some data), w, ops)
    | _, _ => (Err (StorageError "read payload for chunk"), w, ops)
    end.

(* ------------------------------------------------------------------ *)
(** ** Reader *)

Record SegmentReader (B : Type) : Type := mkReader {
  sr_id : Z;
  sr_mmap : list byte;
  sr_index : list PayloadIndexRecord;
  sr_tombstones : TombstoneSet B;
}.
Arguments mkReader {B}.
Arguments sr_id {B}.
Arguments sr_mmap {B}.
Arguments sr_index {B}.
Arguments sr_tombstones {B}.

Section reader.
Context `{BO : ByteOrder} `{CRC : Crc32} `{RB : Roaring B}.

(** [SegmentReader::open] for the directory of segment [id]: map the
    payload, load the index, load the tombstones. *)
Definition reader_open (id : Z) (d : SegDir) : io_result (SegmentReader B) :=
  payload ← ok_or (sd_payload d) (io_err NotFound "payload.bin");
  idx_file ← ok_or (sd_idx d) (io_err NotFound "payload.idx");
  index ← load_index (f_cur idx_file);
  tombstones ← map_err (λ _, io_err Other "tombstone") (tomb_load_or_create (sd_tomb d));
  Ok (mkReader id (f_cur payload) index tombstones).

Definition reader_chunk_count (r : SegmentReader B) : Z := as_u32 (zlen (sr_index r)).

(** [chunk_count() - deleted_count() as u32]; [None] is the overflow the
    subtraction panics on in a debug build. *)
Definition reader_active_count (r : SegmentReader B) : option Z :=
  let deleted := as_u32 (tomb_deleted_count (sr_tombstones r)) in
  if reader_chunk_count r <? deleted then None else Some (reader_chunk_count r - deleted).

(** [SegmentReader::read_chunk]; the last [match] is the indexing
    [self.index[ordinal]], in range after the bounds check. *)
Definition reader_read_chunk (ordinal : Z) (r : SegmentReader B)
    : io_result (option (list byte)) :=
  if zlen (sr_index r) <=? ordinal then Ok None
  else if tomb_is_deleted ordinal (sr_tombstones r) then Ok None
  else
    match sr_index r !! Z.to_nat ordinal with
    | None => Err (io_err Other "index out of range")
    | Some record =>
        let start := pi_offset record in
        let end_ := start + pi_length record in
        if zlen (sr_mmap r) <? end_
        then Err (io_err InvalidData "segment offset out of bounds")
        else
          let data := zslice start end_ (sr_mmap r) in
          if negb (crc32 data =? pi_crc32 record)
          then Err (io_err InvalidData "segment CRC mismatch")
          else Ok (Some data)
    end.

(** [SegmentReader::mark_deleted] *)
Definition reader_mark_deleted (ordinal : Z) (r : SegmentReader B)
    : SegmentReader B * list SegOp :=
  let '(t, ops) := tomb_persist (tomb_mark_deleted ordinal (sr_tombstones r)) in
  (mkReader (sr_id r) (sr_mmap r) (sr_index r) t, ops).

End reader.

(* ------------------------------------------------------------------ *)
(** ** The content of a segment *)

(** The index of the payloads [ds] laid out from [off]. *)
Fixpoint index_of `{Crc32} (off : Z) (ds : list (list byte)) : list PayloadIndexRecord :=
  match ds with
  | [] => []
  | d :: ds => mkIndex off (zlen d) (crc32 d) :: index_of (off + zlen d) ds
  end.

(** The payloads fit the index: each length is a [u32], all offsets are
    [u64], ordinals are [u32]. *)
Definition payloads_fit (ds : list (list byte)) : Prop :=
  Forall (λ d, zlen d < 2 ^ 32) ds ∧ zlen (concat ds) < 2 ^ 64 ∧ zlen ds < 2 ^ 32.

Section content_facts.
Context `{CRC : Crc32}.

Lemma zlen_index_of off ds : zlen (index_of off ds) = zlen ds.
Proof.
  revert off. induction ds as [|d ds IH]; intros off; [done|]. cbn [index_of].
  by rewrite !zlen_cons, IH.
Qed.

Lemma index_of_app off ds d :
  index_of off (ds ++ [d]) = index_of off ds ++ [mkIndex (off + zlen (concat ds)) (zlen d) (crc32 d)].
Proof.
  revert off. induction ds as [|e ds IH]; intros off; cbn.
  - by rewrite Z.add_0_r.
  - rewrite IH, zlen_app. do 3 f_equal. f_equal. lia.
Qed.

(** The [i]-th record points at the [i]-th payload. *)
Lemma index_of_lookup off ds i d :
  ds !! i = Some d →
  index_of off ds !! i = Some (mkIndex (off + zlen (concat (take i ds))) (zlen d) (crc32 d)).
Proof.
  revert off i. induction ds as [|e ds IH]; intros off [|i] Hi; cbn in *; [done..| |].
  - simplify_eq. by rewrite Z.add_0_r.
  - rewrite (IH _ _ Hi), zlen_app. do 2 f_equal. lia.
Qed.

Lemma index_of_lookup_none off ds i :
  ds !! i = None → index_of off ds !! i = None.
Proof.
  intros Hi. apply lookup_ge_None in Hi. apply lookup_ge_None.
  pose proof (zlen_index_of off ds). unfold zlen in *. lia.
Qed.

(** Slicing the payload file at the [i]-th record gives the payload. *)
Lemma zslice_concat (ds : list (list byte)) i d rest :
  ds !! i = Some d →
  let off := zlen (concat (take i ds)) in
  zslice off (off + zlen d) (concat ds ++ rest) = d ∧ off + zlen d ≤ zlen (concat ds).
Proof.
  intros Hi off. pose proof (take_drop_middle ds i d Hi) as Hs.
  rewrite <-Hs, concat_app. cbn [concat]. split.
  - rewrite <-!app_assoc. by apply zslice_app_mid.
  - rewrite !zlen_app. pose proof (zlen_nonneg (concat (drop (S i) ds))). subst off. lia.
Qed.

Lemma payloads_fit_nil : payloads_fit [].
Proof. split_and!; [constructor|done|done]. Qed.

Lemma payloads_fit_app_l ds ds' : payloads_fit (ds ++ ds') → payloads_fit ds.
Proof.
  intros (Ha & Ht & Hc). rewrite concat_app, zlen_app in Ht. rewrite zlen_app in Hc.
  apply Forall_app in Ha as [Ha _].
  pose proof (zlen_nonneg (concat ds')). pose proof (zlen_nonneg ds').
  split_and!; [done|lia|lia].
Qed.

Lemma zlen_concat_take (ds : list (list byte)) i : zlen (concat (take i ds)) ≤ zlen (concat ds).
Proof.
  rewrite <-(take_drop i ds) at 2. rewrite concat_app, zlen_app.
  pose proof (zlen_nonneg (concat (drop i ds))). lia.
Qed.

Lemma index_of_wf `{!Crc32Laws} off ds :
  0 ≤ off → Forall (λ d, zlen d < 2 ^ 32) ds → off + zlen (concat ds) < 2 ^ 64 →
  Forall index_wf (index_of off ds).
Proof.
  revert off. induction ds as [|d ds IH]; intros off Hoff Hall Hlen; cbn [index_of]; [constructor|].
  apply Forall_cons in Hall as [Hd Hall]. cbn [concat] in Hlen. rewrite zlen_app in Hlen.
  pose proof (zlen_nonneg d). pose proof (zlen_nonneg (concat ds)).
  constructor.
  - split_and!; cbn; [unfold in_u64; lia|unfold in_u32; lia|apply crc32_range].
  - apply IH; [lia|done|lia].
Qed.

End content_facts.
