(* ===== verification/SegmentFacts.v ===== *)
(** * Segments: correctness of the writer and the reader

    [writer_inv] ties an active writer and its directory to the list of
    payloads appended so far; [seg_complete] is the content of a finalized
    directory.  Appending and flushing keep the former, finalizing turns it
    into the latter, and a directory that has a [meta] file is complete at
    every crash point. *)

From S2P Require Import Prelude Crates Files SegmentFormat Segment.

Open Scope Z_scope.

(** The active writer [w] over directory [d] holds the payloads [ds]. *)
Record writer_inv `{Crc32} (w : SegmentWriter) (d : SegDir) (ds : list (list byte)) : Prop := {
  wi_payload : ∃ f, sd_payload d = Some f ∧ f_cur f ++ sw_buf w = concat ds ∧
                    f_durable f `prefix_of` f_cur f;
  wi_len : sw_payload_len w = zlen (concat ds);
  wi_index : sw_index w = index_of 0 ds;
  wi_fit : payloads_fit ds;
  wi_idx : sd_idx d = None;
  wi_meta : sd_meta d = None;
  wi_tomb : sd_tomb d = None;
}.

(** The bytes of the index file of [ds]. *)
Definition index_file `{ByteOrder} `{Crc32} (ds : list (list byte)) : list byte :=
  SEGMENT_MAGIC ++ (index_of 0 ds ≫= index_to_bytes).

(** A finalized directory with payloads [ds]: payload and index are whole
    and durable. *)
Record seg_complete `{ByteOrder} `{Crc32} (d : SegDir) (ds : list (list byte)) : Prop := {
  sc_payload : sd_payload d = Some (file_of (concat ds));
  sc_idx : sd_idx d = Some (file_of (index_file ds));
  sc_fit : payloads_fit ds;
  sc_meta : is_Some (sd_meta d);
}.

(** A directory without [meta]: never loaded. *)
Definition seg_unfinished (d : SegDir) : Prop := sd_meta d = None.

(** A directory that lacks a file the reader needs: under construction or
    partly removed. *)
Definition seg_unloadable (d : SegDir) : Prop :=
  sd_meta d = None ∨ sd_payload d = None ∨ sd_idx d = None.

Lemma unfinished_unloadable d : seg_unfinished d → seg_unloadable d.
Proof. by left. Qed.
#[export] Hint Resolve unfinished_unloadable : memd.

(** So is the directory of a writer. *)
Lemma writer_unloadable `{Crc32} w d ds : writer_inv w d ds → seg_unloadable d.
Proof. intros Hw. left. apply Hw. Qed.

Lemma unloadable_not_complete `{ByteOrder} `{Crc32} d ds : seg_unloadable d → ¬ seg_complete d ds.
Proof. intros Hu [Hp Hi _ [m Hm]]. destruct Hu as [?|[?|?]]; congruence. Qed.

(* ------------------------------------------------------------------ *)
(** ** Effects on one file *)

Lemma apply_write_idx rs d f :
  sd_idx d = Some f →
  apply_segops (map (λ bs, SWrite PayloadIdx bs) rs) d =
    mkSegDir (sd_payload d) (Some (mkFile (f_cur f ++ concat rs) (f_durable f)))
      (sd_meta d) (sd_tomb d).
Proof.
  revert d f. induction rs as [|bs rs IH]; intros d f Hf; cbn.
  - rewrite app_nil_r. destruct d, f; cbn in *; by simplify_eq.
  - unfold apply_segops in IH. rewrite Hf.
    erewrite IH by done. cbn. by rewrite <-app_assoc.
Qed.

Lemma buf_flush_payload w d f :
  sd_payload d = Some f →
  apply_segops (buf_flush w).2 d =
    mkSegDir (Some (mkFile (f_cur f ++ sw_buf w) (f_durable f))) (sd_idx d) (sd_meta d) (sd_tomb d).
Proof.
  intros Hf. unfold buf_flush. cbn [snd]. destruct (sw_buf w) as [|b bs] eqn:E; cbn.
  - rewrite app_nil_r. destruct d, f; cbn in *; by simplify_eq.
  - by rewrite Hf.
Qed.

Section writer_facts.
Context `{CAP : BufCap} `{CRC : Crc32} `{!Crc32Laws}.

Lemma writer_create_inv now id :
  let '(w, ops) := writer_create now id in
  writer_inv w (apply_segops ops segdir_empty) [] ∧ sw_id w = id ∧ sw_meta w = segment_meta_new now id.
Proof.
  split_and!; [|done..]. constructor; cbn; try done. by exists file_new.
Qed.

Lemma buf_write_inv data w d f :
  sd_payload d = Some f → f_durable f `prefix_of` f_cur f →
  let '(w', ops) := buf_write data w in
  sw_id w' = sw_id w ∧ sw_payload_len w' = sw_payload_len w ∧ sw_index w' = sw_index w ∧
  sw_meta w' = sw_meta w ∧
  ∃ f', apply_segops ops d = mkSegDir (Some f') (sd_idx d) (sd_meta d) (sd_tomb d) ∧
        f_cur f' ++ sw_buf w' = f_cur f ++ sw_buf w ++ data ∧
        f_durable f' = f_durable f ∧ f_cur f `prefix_of` f_cur f'.
Proof.
  intros Hf Hpre. unfold buf_write. case_bool_decide as H1.
  { split_and!; [done..|]. exists f. cbn. split_and!; [destruct d; cbn in *; congruence| |done|done].
    done. }
  case_bool_decide as H2.
  - pose proof (buf_flush_payload w d f Hf) as Hfl. destruct (buf_flush w) as [w1 ops1] eqn:E1.
    cbn [snd] in Hfl. unfold buf_flush in E1. injection E1 as <- E1.
    case_bool_decide as H3; cbn [sw_id sw_payload_len sw_index sw_meta sw_buf]; (split_and!; [done..|]).
    + exists (mkFile ((f_cur f ++ sw_buf w) ++ data) (f_durable f)).
      rewrite apply_segops_app, Hfl. cbn. split_and!; [done| |done|].
      * by rewrite app_nil_r, <-app_assoc.
      * rewrite <-app_assoc. by apply prefix_app_r.
    + exists (mkFile (f_cur f ++ sw_buf w) (f_durable f)). rewrite Hfl. cbn.
      split_and!; [done|by rewrite <-app_assoc|done|by apply prefix_app_r].
  - case_bool_decide as H3; cbn [sw_id sw_payload_len sw_index sw_meta sw_buf]; (split_and!; [done..|]).
    + assert (sw_buf w = [] ∨ data = []) as Hb.
      { destruct (sw_buf w) as [|b bs] eqn:Eb; [by left|right].
        apply nil_length_inv. cbn in *. lia. }
      exists (mkFile (f_cur f ++ data) (f_durable f)). cbn. rewrite Hf.
      split_and!; [done| |done|by apply prefix_app_r].
      destruct Hb as [-> | ->]; by rewrite ?app_nil_r.
    + exists f. cbn. split_and!; [destruct d; cbn in *; congruence|done..].
Qed.

(** [append_chunk] records the payload and returns its position. *)
Lemma append_chunk_inv data w d ds :
  writer_inv w d ds → payloads_fit (ds ++ [data]) →
  let '(w', ordinal, ops) := append_chunk data w in
  writer_inv w' (apply_segops ops d) (ds ++ [data]) ∧ ordinal = zlen ds ∧ sw_id w' = sw_id w ∧
  sw_meta w' = sw_meta w.
Proof.
  intros [(f & Hf & Hcat & Hpre) Hlen Hidx Hfit0 Hi Hm Ht] Hfit. unfold append_chunk.
  pose proof (buf_write_inv data w d f Hf Hpre) as Hb.
  destruct (buf_write data w) as [w1 ops]. destruct Hb as (Eid & El & Ei & Em & f' & -> & Hc & Hd & Hp).
  pose proof Hfit as (Hall & Htot & Hcnt).
  assert (Hdata : in_u32 (zlen data)).
  { split; [apply zlen_nonneg|]. apply Forall_app in Hall as [_ Hall].
    exact (Forall_inv Hall). }
  rewrite as_u32_small by done.
  split_and!; cbn [sw_id sw_meta]; [|..].
  - constructor; cbn [sd_payload sd_idx sd_meta sd_tomb sw_buf sw_payload_len sw_index]; try done.
    + exists f'. rewrite concat_app. cbn [concat]. rewrite app_nil_r.
      split_and!; [done| |].
      * by rewrite Hc, app_assoc, Hcat.
      * rewrite Hd. by transitivity (f_cur f).
    + rewrite El, Hlen, concat_app. cbn [concat]. by rewrite app_nil_r, zlen_app.
    + by rewrite Ei, Hidx, Hlen, index_of_app.
  - cbn [sw_index]. rewrite Ei, Hidx, zlen_app, zlen_index_of.
    rewrite zlen_app in Hcnt. unfold zlen in Hcnt |- * at 2; cbn [length] in *.
    rewrite as_u32_small; [lia|]. pose proof (zlen_nonneg ds). unfold in_u32, zlen in *. lia.
  - done.
  - congruence.
Qed.

(** [flush_payload] makes every appended byte durable. *)
Lemma flush_payload_inv w d ds :
  writer_inv w d ds →
  let '(w', ops) := flush_payload w in
  writer_inv w' (apply_segops ops d) ds ∧ sw_id w' = sw_id w ∧ sw_meta w' = sw_meta w ∧
  sw_buf w' = [] ∧ sd_payload (apply_segops ops d) = Some (file_of (concat ds)).
Proof.
  intros [(f & Hf & Hcat & Hpre) Hlen Hidx Hfit Hi Hm Ht]. unfold flush_payload.
  pose proof (buf_flush_payload w d f Hf) as Hfl.
  destruct (buf_flush w) as [w' ops] eqn:E. injection E as <- E. cbn [snd] in Hfl.
  rewrite apply_segops_app, Hfl, Hcat. cbn.
  split_and!; [|done..]. constructor; cbn; try done.
  exists (file_of (concat ds)). cbn. rewrite app_nil_r. done.
Qed.

End writer_facts.

(* ------------------------------------------------------------------ *)
(** ** Finalizing *)

(** An effect on the [meta] file. *)
Definition is_meta_op (o : SegOp) : bool :=
  match o with
  | SCreate MetaFile | SWrite MetaFile _ | SSync MetaFile => true
  | _ => false
  end.

Lemma apply_no_meta os d :
  Forall (λ o, is_meta_op o = false) os → sd_meta (apply_segops os d) = sd_meta d.
Proof.
  revert d. induction os as [|o os IH]; intros d Hos; [done|].
  apply Forall_cons in Hos as [Ho Hos]. cbn. unfold apply_segops in IH. rewrite IH by done.
  destruct o as [[]|[]|[]|]; try done; cbn;
    repeat (match goal with |- context [match ?x with _ => _ end] => destruct x end); done.
Qed.

Lemma apply_only_meta os d :
  Forall (λ o, is_meta_op o = true) os →
  sd_payload (apply_segops os d) = sd_payload d ∧ sd_idx (apply_segops os d) = sd_idx d ∧
  sd_tomb (apply_segops os d) = sd_tomb d.
Proof.
  revert d. induction os as [|o os IH]; intros d Hos; [done|].
  apply Forall_cons in Hos as [Ho Hos]. cbn. unfold apply_segops in IH.
  destruct (IH (apply_segop o d) Hos) as (-> & -> & ->).
  destruct o as [[]|[]|[]|]; try done; cbn;
    repeat (match goal with |- context [match ?x with _ => _ end] => destruct x end); done.
Qed.

Section finalize_facts.
Context `{BO : ByteOrder} `{CAP : BufCap} `{CRC : Crc32} `{BC : Bincode SegmentMeta}.

(** The effects of [finalize] before it touches [meta]. *)
Definition finalize_pre (w : SegmentWriter) : list SegOp :=
  (buf_flush w).2 ++ [SSync PayloadBin] ++ write_index_file (buf_flush w).1.

Definition finalize_meta (w : SegmentWriter) : SegmentMeta :=
  mkSegmentMeta (sm_id (sw_meta w)) (as_u32 (zlen (sw_index w))) (sm_created_ts (sw_meta w)) true.

Lemma finalize_split w :
  finalize w = (finalize_meta w, finalize_pre w ++ write_meta_file (finalize_meta w)).
Proof.
  unfold finalize, finalize_pre. cbn [buf_flush fst snd]. f_equal. by rewrite <-!app_assoc.
Qed.

Lemma finalize_pre_no_meta w : Forall (λ o, is_meta_op o = false) (finalize_pre w).
Proof.
  unfold finalize_pre, write_index_file. rewrite !Forall_app. split_and!.
  - unfold buf_flush. cbn. destruct (sw_buf w); repeat constructor.
  - repeat constructor.
  - repeat constructor.
  - apply Forall_forall. intros o (r & -> & _)%list_elem_of_fmap. done.
  - repeat constructor.
Qed.

Lemma finalize_pre_result w d ds :
  writer_inv w d ds →
  apply_segops (finalize_pre w) d =
    mkSegDir (Some (file_of (concat ds))) (Some (file_of (index_file ds))) None None.
Proof.
  intros [(f & Hf & Hcat & Hpre) Hlen Hidx Hfit Hi Hm Ht]. unfold finalize_pre.
  rewrite !apply_segops_app, (buf_flush_payload w d f Hf), Hcat, Hi, Hm, Ht.
  unfold write_index_file. cbn [buf_flush fst sw_index]. rewrite Hidx, !apply_segops_app.
  replace (map (λ r, SWrite PayloadIdx (index_to_bytes r)) (index_of 0 ds))
    with (map (λ bs, SWrite PayloadIdx bs) (map index_to_bytes (index_of 0 ds)))
    by apply map_map.
  erewrite apply_write_idx by done. cbn -[concat]. unfold file_sync, index_file. cbn -[concat].
  by rewrite <-flat_map_concat_map.
Qed.

(** Finalizing leaves a complete directory. *)
Lemma finalize_complete w d ds :
  writer_inv w d ds →
  seg_complete (apply_segops (finalize w).2 d) ds ∧ sd_tomb (apply_segops (finalize w).2 d) = None.
Proof.
  intros Hw. rewrite finalize_split. cbn [snd]. rewrite apply_segops_app.
  rewrite (finalize_pre_result w d ds Hw). cbn. split; [|done].
  constructor; cbn; [done..|by destruct Hw|by eexists].
Qed.

(** At every point of [finalize] the directory either has no [meta] file
    yet or its payload and index are already complete and durable. *)
Lemma finalize_prefix w d ds k :
  writer_inv w d ds →
  let d' := apply_segops (take k (finalize w).2) d in
  seg_unfinished d' ∨ (seg_complete d' ds ∧ sd_tomb d' = None).
Proof.
  intros Hw. rewrite finalize_split. cbn [snd].
  destruct (decide (k ≤ length (finalize_pre w))%nat) as [Hk|Hk].
  - left. rewrite take_app_le by done. unfold seg_unfinished.
    rewrite apply_no_meta; [by destruct Hw|]. apply Forall_take, finalize_pre_no_meta.
  - rewrite take_app_ge, apply_segops_app, (finalize_pre_result w d ds Hw) by lia.
    set (d2 := mkSegDir _ _ _ _).
    set (ops := take (k - length (finalize_pre w)) (write_meta_file (finalize_meta w))).
    assert (Hm : Forall (λ o, is_meta_op o = true) ops)
      by (apply Forall_take; repeat constructor).
    destruct (apply_only_meta ops d2 Hm) as (Hp & Hi & Ht).
    destruct (sd_meta (apply_segops ops d2)) as [mf|] eqn:Emf; [|by left].
    right. split; [|by rewrite Ht]. constructor; [by rewrite Hp|by rewrite Hi|by destruct Hw|].
    rewrite Emf. by eexists.
Qed.

End finalize_facts.

(** A directory is complete for one list of payloads only. *)
Lemma index_of_inj `{CRC : Crc32} off ds ds' :
  index_of off ds = index_of off ds' → concat ds = concat ds' → ds = ds'.
Proof.
  revert off ds'. induction ds as [|d ds IH]; intros off [|d' ds'] Hi Hc; try done.
  cbn in Hi, Hc. injection Hi as Hlen _ Hi.
  assert (length d = length d') as Hl by (unfold zlen in Hlen; lia).
  apply app_inj_1 in Hc as [-> Hc]; [|done]. f_equal. by eapply IH.
Qed.

Lemma seg_complete_inj `{ByteOrderLaws} `{Crc32Laws} d ds ds' :
  seg_complete d ds → seg_complete d ds' → ds = ds'.
Proof.
  intros [Hp Hi (Hall & Htot & Hcnt) _] [Hp' Hi' (Hall' & Htot' & Hcnt') _].
  rewrite Hp in Hp'. rewrite Hi in Hi'.
  assert (Hcat : f_cur (file_of (concat ds)) = f_cur (file_of (concat ds'))) by congruence.
  assert (Hidx : f_cur (file_of (index_file ds)) = f_cur (file_of (index_file ds'))) by congruence.
  cbn [f_cur file_of] in Hcat, Hidx.
  assert (Hl : load_index (index_file ds) = load_index (index_file ds')) by (by rewrite Hidx).
  unfold index_file in Hl. rewrite !load_index_roundtrip in Hl.
  - injection Hl as Hl. by eapply index_of_inj.
  - apply index_of_wf; [lia|done|lia].
  - apply index_of_wf; [lia|done|lia].
Qed.

(** A complete directory survives a crash as it is. *)
Lemma crash_complete `{BO : ByteOrder} `{CRC : Crc32} d d' ds :
  seg_complete d ds → crash_segdir d d' → seg_complete d' ds ∧ sd_tomb d' = sd_tomb d.
Proof.
  intros [Hp Hi Hfit Hm] (Cp & Ci & Cm & Ct). split; [|done].
  rewrite Hp in Cp. rewrite Hi in Ci.
  destruct (sd_payload d') as [fp|] eqn:Ep; [|done]. destruct Cp as (c & Hc & ->).
  destruct (sd_idx d') as [fi|] eqn:Ei; [|done]. destruct Ci as (c' & Hc' & ->).
  apply crash_content_file_of in Hc, Hc'. subst.
  constructor; [done..|]. destruct Hm as [m Hm]. rewrite Hm in Cm.
  destruct (sd_meta d'); [by eexists|done].
Qed.

Lemma crash_unfinished d d' : seg_unfinished d → crash_segdir d d' → seg_unfinished d'.
Proof.
  unfold seg_unfinished. intros Hm (_ & _ & Cm & _). rewrite Hm in Cm. by destruct (sd_meta d').
Qed.

Lemma crash_unloadable d d' : seg_unloadable d → crash_segdir d d' → seg_unloadable d'.
Proof.
  intros Hu (Cp & Ci & Cm & _). destruct Hu as [E|[E|E]]; [left|right; left|right; right].
  - rewrite E in Cm. by destruct (sd_meta d').
  - rewrite E in Cp. by destruct (sd_payload d').
  - rewrite E in Ci. by destruct (sd_idx d').
Qed.

(* ------------------------------------------------------------------ *)
(** ** Reading *)

Section reader_facts.
Context `{BOL : ByteOrderLaws} `{CRL : Crc32Laws} `{RBL : RoaringLaws B}.

(** The tombstone file of a directory decodes to the set [dead]. *)
Definition tomb_is (d : SegDir) (dead : list Z) : Prop :=
  ∃ t : TombstoneSet B, tomb_load_or_create (sd_tomb d) = Ok t ∧
    ∀ x, x ∈ rb_iter (tb_bitmap t) ↔ x ∈ dead.

Lemma tomb_is_none d : sd_tomb d = None → tomb_is d [].
Proof.
  intros Hnone. exists (mkTomb rb_new false). rewrite Hnone. cbn. split; [done|].
  intros x. by rewrite rb_iter_new.
Qed.

(** The reader of a complete directory. *)
Definition reader_of (r : SegmentReader B) (id : Z) (ds : list (list byte)) (dead : list Z) : Prop :=
  sr_id r = id ∧ sr_mmap r = concat ds ∧ sr_index r = index_of 0 ds ∧
  ∀ x, x ∈ rb_iter (tb_bitmap (sr_tombstones r)) ↔ x ∈ dead.

Lemma reader_open_complete id d ds dead :
  seg_complete d ds → tomb_is d dead →
  ∃ r, reader_open id d = Ok r ∧ reader_of r id ds dead.
Proof.
  intros [Hp Hi (Hall & Htot & Hcnt) Hm] (t & Ht & Hdead).
  unfold reader_open. rewrite Hp, Hi. cbn [ok_or mbind result_bind f_cur file_of].
  unfold index_file. rewrite load_index_roundtrip.
  2: { apply index_of_wf; [lia|done|lia]. }
  cbn [mbind result_bind]. rewrite Ht. cbn [map_err mbind result_bind].
  eexists. split; [done|]. by repeat split; cbn; try apply Hdead.
Qed.

(** What [read_chunk] answers: the payload at the ordinal unless it is
    tombstoned, nothing out of range, and never an error. *)
Lemma reader_read_complete r id ds dead o :
  reader_of r id ds dead → 0 ≤ o →
  reader_read_chunk o r =
    Ok (if decide (o ∈ dead) then None else ds !! Z.to_nat o).
Proof.
  intros (_ & Hmm & Hidx & Hdead) Ho. unfold reader_read_chunk. rewrite Hidx, zlen_index_of.
  destruct (Z.leb_spec (zlen ds) o) as [Hge|Hlt].
  { rewrite lookup_ge_None_2 by (unfold zlen in *; lia). by case_decide. }
  unfold tomb_is_deleted. destruct (rb_contains o _) eqn:Ec.
  - apply rb_contains_iter, Hdead in Ec. by rewrite decide_True.
  - rewrite decide_False.
    2: { intros Hin. apply Hdead, rb_contains_iter in Hin. congruence. }
    destruct (lookup_lt_is_Some_2 ds (Z.to_nat o)) as [p Hp]; [unfold zlen in *; lia|].
    rewrite (index_of_lookup 0 ds _ p Hp). cbn [pi_offset pi_length pi_crc32].
    destruct (zslice_concat ds _ p [] Hp) as [Hs Hle]. rewrite app_nil_r in Hs. cbn zeta in *.
    rewrite Z.add_0_l, Hmm. replace (_ <? _) with false by lia.
    rewrite Hs, Z.eqb_refl, Hp. done.
Qed.

(** Deleting an ordinal: it alone stops being readable, and the directory
    then decodes to the extended set. *)
Lemma reader_mark_deleted_spec r id d ds dead o :
  reader_of r id ds dead →
  let '(r', ops) := reader_mark_deleted o r in
  reader_of r' id ds (o :: dead) ∧ tomb_is (apply_segops ops d) (o :: dead) ∧
  sd_payload (apply_segops ops d) = sd_payload d ∧ sd_idx (apply_segops ops d) = sd_idx d ∧
  sd_meta (apply_segops ops d) = sd_meta d.
Proof.
  intros (Hid & Hmm & Hidx & Hdead). unfold reader_mark_deleted, tomb_mark_deleted. cbn.
  assert (Hnew : ∀ x, x ∈ rb_iter (rb_insert o (tb_bitmap (sr_tombstones r))) ↔ x ∈ o :: dead).
  { intros x. by rewrite rb_iter_insert, elem_of_cons, Hdead. }
  split_and!; [by repeat split; cbn; try apply Hnew| |done..].
  destruct (rb_serialize_roundtrip (rb_insert o (tb_bitmap (sr_tombstones r)))) as (b & Hb & Hext).
  exists (mkTomb b false). cbn. rewrite Hb. cbn. split; [done|].
  intros x. by rewrite Hext, Hnew.
Qed.

(** The active counter cannot underflow when every tombstone is in range. *)
Lemma reader_active_count_ok r id ds dead :
  reader_of r id ds dead → payloads_fit ds → (∀ o, o ∈ dead → 0 ≤ o < zlen ds) → NoDup dead →
  reader_active_count r = Some (zlen ds - zlen dead).
Proof.
  intros (_ & _ & Hidx & Hdead) (_ & _ & Hcnt) Hrange Hnd.
  unfold reader_active_count, reader_chunk_count, tomb_deleted_count.
  rewrite Hidx, zlen_index_of, rb_len_iter.
  assert (Hperm : Permutation (rb_iter (tb_bitmap (sr_tombstones r))) dead).
  { apply NoDup_Permutation; [apply rb_iter_nodup|done|done]. }
  assert (zlen (rb_iter (tb_bitmap (sr_tombstones r))) = zlen dead) as ->.
  { unfold zlen. by rewrite Hperm. }
  assert (Hle : (length dead ≤ length ds)%nat).
  { rewrite <-(length_fmap Z.to_nat dead).
    replace (length ds) with (length (seq 0 (length ds))) by apply length_seq.
    apply NoDup_incl_length.
    - apply NoDup_ListNoDup, NoDup_fmap_2_strong; [|done].
      intros x y Hx%Hrange Hy%Hrange. lia.
    - intros n Hn. apply list_elem_of_In, list_elem_of_fmap in Hn as (o & -> & Ho%Hrange).
      apply in_seq. unfold zlen in *. lia. }
  pose proof (zlen_nonneg ds). pose proof (zlen_nonneg dead). unfold in_u32, zlen in *.
  rewrite !as_u32_small by (unfold in_u32; lia). by replace (_ <? _) with false by lia.
Qed.

End reader_facts.

(** The writer reads back what was appended. *)
Lemma writer_read_chunk_spec `{CRC : Crc32} w d ds o :
  writer_inv w d ds → 0 ≤ o →
  let '(res, w', ops) := writer_read_chunk o w d in
  res = Ok (ds !! Z.to_nat o) ∧ writer_inv w' (apply_segops ops d) ds ∧
  sw_id w' = sw_id w ∧ sw_meta w' = sw_meta w.
Proof.
  intros Hw Ho. pose proof Hw as [(f & Hf & Hcat & Hpre) Hlen Hidx Hfit Hi Hm Ht].
  unfold writer_read_chunk. rewrite Hidx, zlen_index_of.
  destruct (Z.leb_spec (zlen ds) o) as [Hge|Hlt].
  { rewrite lookup_ge_None_2 by (unfold zlen in *; lia). done. }
  pose proof (buf_flush_payload w d f Hf) as Hfl.
  destruct (buf_flush w) as [w' ops] eqn:E. injection E as <- E. cbn [snd] in Hfl.
  cbn [sw_index]. rewrite Hidx, Hfl. cbn [sd_payload]. rewrite Hcat. cbn [f_cur].
  destruct (lookup_lt_is_Some_2 ds (Z.to_nat o)) as [p Hp]; [unfold zlen in *; lia|].
  rewrite (index_of_lookup 0 ds _ p Hp). cbn [pi_offset pi_length pi_crc32].
  destruct (zslice_concat ds (Z.to_nat o) p [] Hp) as [Hs Hb]. rewrite app_nil_r in Hs.
  rewrite !Z.add_0_l. replace (_ <? _) with false by lia. rewrite Hs, Z.eqb_refl. cbn [negb].
  split_and!; [by rewrite Hp| |done|done]. constructor; cbn; rewrite ?Hfl, ?Hcat; try done.
  exists (mkFile (concat ds) (f_durable f)). cbn. rewrite app_nil_r.
  split; [done|]. split; [done|]. rewrite <-Hcat. by apply prefix_app_r.
Qed.

(** The effects of appending, flushing and reading never touch [meta]. *)
Lemma buf_flush_no_meta w : Forall (λ o, is_meta_op o = false) (buf_flush w).2.
Proof. unfold buf_flush. cbn. destruct (sw_buf w); repeat constructor. Qed.

Lemma writer_read_no_meta `{CRC : Crc32} o w d :
  Forall (λ o, is_meta_op o = false) (writer_read_chunk o w d).2.
Proof.
  unfold writer_read_chunk. destruct (_ <=? _); [constructor|].
  pose proof (buf_flush_no_meta w) as Hf. destruct (buf_flush w) as [w' ops]. cbn [snd] in Hf.
  destruct (sw_index w' !! _) as [rec|], (sd_payload (apply_segops ops d)) as [f|]; try done.
  destruct (_ <? _); [done|]. by destruct (negb _).
Qed.

Lemma append_chunk_no_meta `{CAP : BufCap} `{CRC : Crc32} data w :
  Forall (λ o, is_meta_op o = false) (append_chunk data w).2.
Proof.
  unfold append_chunk, buf_write. repeat case_bool_decide; cbn -[buf_flush];
    repeat constructor; rewrite ?app_nil_l.
  - pose proof (buf_flush_no_meta w) as Hf. destruct (buf_flush w) as [w' ops]. cbn in *.
    apply Forall_app. split; [done|]. repeat constructor.
  - apply buf_flush_no_meta.
Qed.

Lemma flush_payload_no_meta w : Forall (λ o, is_meta_op o = false) (flush_payload w).2.
Proof.
  unfold flush_payload. pose proof (buf_flush_no_meta w). destruct (buf_flush w).
  cbn in *. apply Forall_app. split; [done|]. repeat constructor.
Qed.

Lemma apply_no_meta_take os d k :
  Forall (λ o, is_meta_op o = false) os → seg_unfinished d →
  seg_unfinished (apply_segops (take k os) d).
Proof.
  intros Hos Hu. unfold seg_unfinished. rewrite apply_no_meta; [done|]. by apply Forall_take.
Qed.
