(* ===== verification/Metadata.v ===== *)
(** * The metadata table
    (src/crates/memd/src/store/metadata/mod.rs and
     store/metadata/sqlite/{chunks,lifecycle}.rs)

    The [chunks] table of SQLite with its primary key [chunk_id] and the
    constraint UNIQUE(tenant_id, segment_id, ordinal), and the statements the
    store runs on it.  SQLite itself is not modelled: each statement is the
    table transformation its SQL text says.  A query without an ORDER BY, or
    with ties, may return its rows in any order; the model takes the order of
    the finite map and the theorems speak of membership only. *)

From S2P Require Import Prelude Crates Types.
From stdpp Require Import sorting.

Open Scope Z_scope.

(* ------------------------------------------------------------------ *)
(** ** Rows *)

Record ChunkMetadata : Type := mkMeta {
  cm_chunk_id : ChunkId;
  cm_tenant_id : TenantId;
  cm_project_id : option string;
  cm_segment_id : Z;
  cm_ordinal : Z;
  cm_chunk_type : ChunkType;
  cm_status : ChunkStatus;
  cm_timestamp_created : Z;
  cm_hash : string;
  cm_source_uri : option string;
  cm_lifecycle : LifecycleMetadata;
  cm_canonical_text : option string;
  cm_ingestion_mode : IngestionMode;
}.

#[export] Instance ChunkMetadata_eq_dec : EqDecision ChunkMetadata.
Proof. solve_decision. Defined.

(** The columns as SQLite stores them, in the order of [CHUNK_COLUMNS]. *)
Record ChunkRow : Type := mkChunkRow {
  cr_chunk_id : string;
  cr_tenant_id : string;
  cr_project_id : option string;
  cr_segment_id : Z;
  cr_ordinal : Z;
  cr_chunk_type : string;
  cr_status : string;
  cr_timestamp_created : Z;
  cr_hash : string;
  cr_source_uri : option string;
  cr_tier : string;
  cr_supersedes : option string;
  cr_superseded_by : option string;
  cr_expires_at_ms : option Z;
  cr_review_after_ms : option Z;
  cr_lifecycle_updated_at_ms : Z;
  cr_canonical_text : option string;
  cr_ingestion_mode : string;
}.

Section row_codec.
Context `{U : Uuid ChunkId}.

(** The parameters [insert_many] binds for one row. *)
Definition metadata_params (row : ChunkMetadata) : ChunkRow :=
  let lc := cm_lifecycle row in
  mkChunkRow (uuid_to_string (cm_chunk_id row)) (TenantId.as_str (cm_tenant_id row))
    (cm_project_id row) (as_i64 (cm_segment_id row)) (as_i32 (cm_ordinal row))
    (ChunkType_to_string (cm_chunk_type row)) (ChunkStatus_to_string (cm_status row))
    (cm_timestamp_created row) (cm_hash row) (cm_source_uri row)
    (MemoryTier_to_string (lc_tier lc))
    (uuid_to_string <$> lc_supersedes lc) (uuid_to_string <$> lc_superseded_by lc)
    (lc_expires_at_ms lc) (lc_review_after_ms lc) (lc_updated_at_ms lc)
    (cm_canonical_text row) (IngestionMode_to_string (cm_ingestion_mode row)).

(** [FromSqlConversionFailure(column, ..)] as the [?] operator converts it. *)
Definition conversion_failure {A} (_ : MemdError) : memd_result A :=
  Err (DatabaseError "conversion error").
Definition convert {A} (m : memd_result A) : memd_result A :=
  match m with Ok a => Ok a | Err e => conversion_failure e end.

(** [ChunkId::parse] *)
Definition chunk_id_parse (s : string) : memd_result ChunkId :=
  ok_or (uuid_parse s) (ValidationError "invalid chunk_id").

(** [opt.map(|s| ChunkId::parse(&s)).transpose()] *)
Definition parse_opt (s : option string) : memd_result (option ChunkId) :=
  match s with
  | None => Ok None
  | Some s => c ← chunk_id_parse s; Ok (Some c)
  end.

(** [row_to_metadata] *)
Definition row_to_metadata (row : ChunkRow) : memd_result ChunkMetadata :=
  chunk_id ← convert (chunk_id_parse (cr_chunk_id row));
  tenant_id ← convert (TenantId.new (cr_tenant_id row));
  chunk_type ← convert (ChunkType_from_str (cr_chunk_type row));
  status ← convert (ChunkStatus_from_str (cr_status row));
  tier ← convert (MemoryTier_from_str (cr_tier row));
  supersedes ← convert (parse_opt (cr_supersedes row));
  superseded_by ← convert (parse_opt (cr_superseded_by row));
  let lifecycle := mkLifecycle tier supersedes superseded_by (cr_expires_at_ms row)
                     (cr_review_after_ms row) (cr_lifecycle_updated_at_ms row) in
  ingestion_mode ← convert (IngestionMode_from_str (cr_ingestion_mode row));
  Ok (mkMeta chunk_id tenant_id (cr_project_id row) (as_u64 (cr_segment_id row))
        (as_u32 (cr_ordinal row)) chunk_type status (cr_timestamp_created row)
        (cr_hash row) (cr_source_uri row) lifecycle (cr_canonical_text row) ingestion_mode).

End row_codec.

Inductive IndexState : Type := Pending | Indexed | Failed.
#[export] Instance IndexState_eq_dec : EqDecision IndexState.
Proof. solve_decision. Defined.

(** The index columns with their defaults. *)
Record IndexCols : Type := mkIndexCols {
  ix_state : IndexState;
  ix_attempts : Z;
  ix_last_error : option string;
  ix_indexed_at_ms : option Z;
  ix_updated_at_ms : Z;
}.
Definition index_cols_default : IndexCols := mkIndexCols Indexed 0 None None 0.

Record Row : Type := mkRow { r_meta : ChunkMetadata; r_index : IndexCols }.

(** The table, by its primary key.  Rows hold the parsed columns; the codec
    above is the identity on them ([metadata_row_roundtrip]). *)
Abbreviation ChunkTable := (gmap ChunkId Row).

(** Field updates of a row. *)
Definition set_meta_status (s : ChunkStatus) (m : ChunkMetadata) : ChunkMetadata :=
  mkMeta (cm_chunk_id m) (cm_tenant_id m) (cm_project_id m) (cm_segment_id m) (cm_ordinal m)
    (cm_chunk_type m) s (cm_timestamp_created m) (cm_hash m) (cm_source_uri m)
    (cm_lifecycle m) (cm_canonical_text m) (cm_ingestion_mode m).
Definition set_meta_lifecycle (l : LifecycleMetadata) (m : ChunkMetadata) : ChunkMetadata :=
  mkMeta (cm_chunk_id m) (cm_tenant_id m) (cm_project_id m) (cm_segment_id m) (cm_ordinal m)
    (cm_chunk_type m) (cm_status m) (cm_timestamp_created m) (cm_hash m) (cm_source_uri m)
    l (cm_canonical_text m) (cm_ingestion_mode m).
Definition set_meta_location (seg ord : Z) (m : ChunkMetadata) : ChunkMetadata :=
  mkMeta (cm_chunk_id m) (cm_tenant_id m) (cm_project_id m) seg ord
    (cm_chunk_type m) (cm_status m) (cm_timestamp_created m) (cm_hash m) (cm_source_uri m)
    (cm_lifecycle m) (cm_canonical_text m) (cm_ingestion_mode m).
Definition set_meta_canonical (t : option string) (m : ChunkMetadata) : ChunkMetadata :=
  mkMeta (cm_chunk_id m) (cm_tenant_id m) (cm_project_id m) (cm_segment_id m) (cm_ordinal m)
    (cm_chunk_type m) (cm_status m) (cm_timestamp_created m) (cm_hash m) (cm_source_uri m)
    (cm_lifecycle m) t (cm_ingestion_mode m).
Definition set_row_meta (m : ChunkMetadata) (r : Row) : Row := mkRow m (r_index r).

(** The columns of the UNIQUE constraint. *)
Definition location (m : ChunkMetadata) : TenantId * Z * Z :=
  (cm_tenant_id m, cm_segment_id m, cm_ordinal m).

Definition r_status (r : Row) : ChunkStatus := cm_status (r_meta r).
Definition r_tenant (r : Row) : TenantId := cm_tenant_id (r_meta r).
Definition r_lc (r : Row) : LifecycleMetadata := cm_lifecycle (r_meta r).

(* ------------------------------------------------------------------ *)
(** ** Statements *)

(** [UPDATE chunks SET .. WHERE tenant_id = t AND chunk_id = c AND ..]: the
    number of rows changed and the table.  The primary key makes it at most
    one row. *)
Definition update_where (t : TenantId) (c : ChunkId) (cond : Row → bool) (f : Row → Row)
    (db : ChunkTable) : Z * ChunkTable :=
  match db !! c with
  | Some r =>
      if bool_decide (r_tenant r = t) && cond r then (1, <[c := f r]> db) else (0, db)
  | None => (0, db)
  end.

(** [SELECT .. FROM chunks WHERE tenant_id = t AND ..] *)
Definition select_where (t : TenantId) (cond : Row → bool) (db : ChunkTable)
    : list ChunkMetadata :=
  map (λ kr, r_meta kr.2)
    (filter (λ kr, bool_decide (r_tenant kr.2 = t) && cond kr.2 = true) (map_to_list db)).

Definition status_in (l : list ChunkStatus) (r : Row) : bool := bool_decide (r_status r ∈ l).

(** [LIMIT l OFFSET o] *)
Definition limit_offset {A} (limit offset : Z) (l : list A) : list A :=
  take (Z.to_nat limit) (drop (Z.to_nat offset) l).

(** [INSERT OR REPLACE]: rows that conflict on a unique column set go, the
    new row comes with default index columns. *)
Definition insert_row (row : ChunkMetadata) (db : ChunkTable) : ChunkTable :=
  <[cm_chunk_id row := mkRow row index_cols_default]>
    (filter (λ kr, location (r_meta kr.2) ≠ location row) db).

(** [insert_many]: one transaction. *)
Definition insert_many (rows : list ChunkMetadata) (db : ChunkTable) : ChunkTable :=
  foldl (λ db row, insert_row row db) db rows.

(** [get] *)
Definition get (t : TenantId) (c : ChunkId) (db : ChunkTable) : option ChunkMetadata :=
  match db !! c with
  | Some r =>
      if bool_decide (r_tenant r = t) && negb (status_in [Deleted] r)
      then Some (r_meta r) else None
  | None => None
  end.

(** ORDER BY timestamp_created DESC. *)
Definition newest_first (a b : ChunkMetadata) : Prop :=
  cm_timestamp_created b ≤ cm_timestamp_created a.
#[export] Instance newest_first_dec : RelDecision newest_first.
Proof. intros a b. unfold newest_first. apply _. Defined.
(** ORDER BY timestamp_created DESC, chunk_id ASC. *)
Definition newest_first_id (a b : ChunkMetadata) : Prop :=
  cm_timestamp_created b < cm_timestamp_created a ∨
  (cm_timestamp_created b = cm_timestamp_created a ∧
   (chunk_uuid (cm_chunk_id a) ≤ chunk_uuid (cm_chunk_id b))%N).
#[export] Instance newest_first_id_dec : RelDecision newest_first_id.
Proof. intros a b. unfold newest_first_id. apply _. Defined.
(** ORDER BY ordinal ASC, on the stored [i32]. *)
Definition by_ordinal (a b : ChunkMetadata) : Prop :=
  as_i32 (cm_ordinal a) ≤ as_i32 (cm_ordinal b).
#[export] Instance by_ordinal_dec : RelDecision by_ordinal.
Proof. intros a b. unfold by_ordinal. apply _. Defined.

Definition list_chunks (t : TenantId) (limit offset : Z) (db : ChunkTable) : list ChunkMetadata :=
  limit_offset limit offset
    (merge_sort newest_first (select_where t (λ r, negb (status_in [Candidate; Deleted] r)) db)).

(** [(:project IS NULL OR project_id = :project)] *)
Definition project_matches (project_id : option string) (r : Row) : bool :=
  match project_id with
  | None => true
  | Some p => bool_decide (cm_project_id (r_meta r) = Some p)
  end.

Definition list_for_project (t : TenantId) (project_id : option string) (limit offset : Z)
    (db : ChunkTable) : list ChunkMetadata :=
  if limit =? 0 then []
  else limit_offset limit offset
    (merge_sort newest_first_id
       (select_where t (λ r, negb (status_in [Candidate; Deleted] r)
                             && project_matches project_id r) db)).

Definition mark_deleted (t : TenantId) (c : ChunkId) (db : ChunkTable) : bool * ChunkTable :=
  let '(rows_affected, db) :=
    update_where t c (λ r, negb (status_in [Deleted] r))
      (λ r, set_row_meta (set_meta_status Deleted (r_meta r)) r) db in
  (0 <? rows_affected, db).

Definition get_by_segment (t : TenantId) (segment_id : Z) (db : ChunkTable)
    : list ChunkMetadata :=
  merge_sort by_ordinal
    (select_where t (λ r, bool_decide (cm_segment_id (r_meta r) = segment_id)) db).

(** [count_by_status]: active, deleted, candidates. *)
Definition count_by_status (t : TenantId) (db : ChunkTable) : Z * Z * Z :=
  (zlen (select_where t (λ r, negb (status_in [Candidate; Deleted] r)) db),
   zlen (select_where t (status_in [Deleted]) db),
   zlen (select_where t (status_in [Candidate]) db)).

Definition get_deleted_chunk_ids (t : TenantId) (db : ChunkTable) : list ChunkId :=
  map cm_chunk_id (select_where t (status_in [Deleted]) db).

(** The index columns. *)
Definition set_index (f : IndexCols → IndexCols) (r : Row) : Row :=
  mkRow (r_meta r) (f (r_index r)).

Definition mark_index_pending (t : TenantId) (ids : list ChunkId) (now_ms : Z)
    (db : ChunkTable) : ChunkTable :=
  foldl (λ db c, (update_where t c (λ _, true)
    (set_index (λ _, mkIndexCols Pending 0 None None now_ms)) db).2) db ids.

Definition mark_indexed (t : TenantId) (ids : list ChunkId) (now_ms : Z)
    (db : ChunkTable) : ChunkTable :=
  foldl (λ db c, (update_where t c (λ _, true)
    (set_index (λ i, mkIndexCols Indexed (ix_attempts i) None (Some now_ms) now_ms)) db).2) db ids.

Definition mark_index_failed (t : TenantId) (c : ChunkId) (error : string) (now_ms : Z)
    (db : ChunkTable) : ChunkTable :=
  (update_where t c (λ _, true)
    (set_index (λ i, mkIndexCols Failed (ix_attempts i + 1) (Some error)
                       (ix_indexed_at_ms i) now_ms)) db).2.

(** ORDER BY timestamp_created ASC. *)
Definition oldest_first (a b : ChunkMetadata) : Prop :=
  cm_timestamp_created a ≤ cm_timestamp_created b.
#[export] Instance oldest_first_dec : RelDecision oldest_first.
Proof. intros a b. unfold oldest_first. apply _. Defined.

Definition list_pending_index_chunk_ids (t : TenantId) (limit : Z) (db : ChunkTable)
    : list ChunkId :=
  if limit =? 0 then []
  else map cm_chunk_id (take (Z.to_nat limit)
    (merge_sort oldest_first
      (select_where t (λ r, negb (status_in [Candidate; Deleted; ErrorStatus] r)
                            && bool_decide (ix_state (r_index r) = Pending)) db))).

(** [count_by_index_state]: pending, indexed, failed. *)
Definition count_by_index_state (t : TenantId) (db : ChunkTable) : Z * Z * Z :=
  let count s := zlen (select_where t
    (λ r, negb (status_in [Candidate; Deleted; ErrorStatus] r)
          && bool_decide (ix_state (r_index r) = s)) db) in
  (count Pending, count Indexed, count Failed).

Definition set_canonical_text (t : TenantId) (c : ChunkId) (canonical : string)
    (db : ChunkTable) : ChunkTable :=
  (update_where t c (λ _, true)
    (λ r, set_row_meta (set_meta_canonical (Some canonical) (r_meta r)) r) db).2.

Definition list_by_canonical_text (t : TenantId) (project_id : option string)
    (canonical : string) (db : ChunkTable) : list ChunkMetadata :=
  select_where t (λ r, project_matches project_id r
                       && bool_decide (cm_canonical_text (r_meta r) = Some canonical)) db.

Definition list_live_by_content_hash (t : TenantId) (project_id : option string)
    (chunk_type : ChunkType) (hash : string) (limit : Z) (db : ChunkTable)
    : list ChunkMetadata :=
  if limit =? 0 then []
  else take (Z.to_nat limit) (merge_sort newest_first
    (select_where t (λ r,
       bool_decide (cm_project_id (r_meta r) = project_id)
       && bool_decide (cm_chunk_type (r_meta r) = chunk_type)
       && bool_decide (cm_hash (r_meta r) = hash)
       && status_in [Final] r
       && negb (bool_decide (lc_tier (r_lc r) = History))
       && bool_decide (lc_superseded_by (r_lc r) = None)) db)).

Definition list_recent_for_project (t : TenantId) (project_id : option string) (limit : Z)
    (db : ChunkTable) : list ChunkMetadata :=
  if limit =? 0 then []
  else take (Z.to_nat limit) (merge_sort newest_first (select_where t (project_matches project_id) db)).

Definition list_recent_with_null_project (t : TenantId) (limit : Z) (db : ChunkTable)
    : list ChunkMetadata :=
  if limit =? 0 then []
  else take (Z.to_nat limit) (merge_sort newest_first
    (select_where t (λ r, bool_decide (cm_project_id (r_meta r) = None)) db)).

Definition list_for_export (t : TenantId) (project_id : option string) (include_history : bool)
    (db : ChunkTable) : list ChunkMetadata :=
  merge_sort oldest_first
    (select_where t (λ r, project_matches project_id r
       && (include_history || negb (bool_decide (lc_tier (r_lc r) = History)))
       && negb (status_in [Candidate; Deleted; ErrorStatus] r)) db).

(** [COALESCE(NULLIF(lifecycle_updated_at_ms, 0), timestamp_created)] *)
Definition purge_clock (m : ChunkMetadata) : Z :=
  if lc_updated_at_ms (cm_lifecycle m) =? 0
  then cm_timestamp_created m else lc_updated_at_ms (cm_lifecycle m).
Definition by_purge_clock (a b : ChunkMetadata) : Prop := purge_clock a ≤ purge_clock b.
#[export] Instance by_purge_clock_dec : RelDecision by_purge_clock.
Proof. intros a b. unfold by_purge_clock. apply _. Defined.

(** [expires_at_ms IS NOT NULL AND expires_at_ms <= t] *)
Definition expired_by (now : Z) (r : Row) : bool :=
  match lc_expires_at_ms (r_lc r) with Some e => e <=? now | None => false end.

Definition list_hard_purge_candidates (t : TenantId) (project_id : option string)
    (cutoff_ms limit : Z) (db : ChunkTable) : list ChunkMetadata :=
  if limit =? 0 then []
  else take (Z.to_nat limit) (merge_sort by_purge_clock
    (select_where t (λ r, project_matches project_id r
       && ((status_in [Deleted; Superseded; Expired; ErrorStatus] r
            && (purge_clock (r_meta r) <=? cutoff_ms))
           || (bool_decide (lc_tier (r_lc r) = History) && expired_by cutoff_ms r))) db)).

(** The [chunks] part of [hard_delete_chunks]: only rows already
    soft-deleted go. *)
Definition hard_delete_step (t : TenantId) (s : Z * ChunkTable) (c : ChunkId)
    : Z * ChunkTable :=
  let '(deleted, db) := s in
  match db !! c with
  | Some r =>
      if bool_decide (r_tenant r = t) && status_in [Deleted] r
      then (deleted + 1, delete c db) else (deleted, db)
  | None => (deleted, db)
  end.
Definition hard_delete_chunks (t : TenantId) (ids : list ChunkId) (db : ChunkTable)
    : Z * ChunkTable :=
  foldl (hard_delete_step t) (0, db) ids.

(** One statement of [update_chunk_locations]; moving a row onto the
    location of another one violates the UNIQUE constraint. *)
Definition relocate_step (t : TenantId) (s : Z * ChunkTable) (rel : ChunkId * Z * Z)
    : memd_result (Z * ChunkTable) :=
  let '(updated, db) := s in
  let '(c, seg, ord) := rel in
  match db !! c with
  | Some r =>
      if bool_decide (r_tenant r = t) && negb (status_in [Deleted] r)
      then
        if bool_decide (Forall (λ kr, kr.1 = c ∨ location (r_meta kr.2) ≠ (t, seg, ord))
                          (map_to_list db))
        then Ok (updated + 1,
                 <[c := set_row_meta (set_meta_location seg ord (r_meta r)) r]> db)
        else Err (DatabaseError "UNIQUE constraint failed")
      else Ok (updated, db)
  | None => Ok (updated, db)
  end.

Definition update_chunk_locations (t : TenantId) (relocations : list (ChunkId * Z * Z))
    (db : ChunkTable) : memd_result (Z * ChunkTable) :=
  match relocations with
  | [] => Ok (0, db)
  | _ =>
      '(updated, db') ← try_fold (relocate_step t) relocations (0, db);
      if negb (updated =? zlen relocations)
      then Err (StorageError "segment rewrite location update")
      else Ok (updated, db')
  end.

(* ------------------------------------------------------------------ *)
(** ** Lifecycle statements *)

(** [COALESCE(:p, column)] *)
Definition coalesce {A} (p : option A) (column : A) : A :=
  match p with Some v => v | None => column end.
Definition coalesce_opt {A} (p column : option A) : option A :=
  match p with Some v => Some v | None => column end.
(** [CASE WHEN :set = 1 THEN :v ELSE column END] *)
Definition case_when {A} (set : bool) (v column : A) : A := if set then v else column.
(** [Option::flatten] *)
Definition flatten {A} (o : option (option A)) : option A :=
  match o with Some v => v | None => None end.

Definition update_lifecycle_counted (t : TenantId) (c : ChunkId) (delta : LifecycleDelta)
    (db : ChunkTable) : Z * ChunkTable :=
  update_where t c (λ r, negb (status_in [Deleted] r))
    (λ r,
       let l := r_lc r in
       set_row_meta
         (set_meta_lifecycle
            (mkLifecycle (coalesce (ld_tier delta) (lc_tier l))
               (coalesce_opt (ld_supersedes delta) (lc_supersedes l))
               (coalesce_opt (ld_superseded_by delta) (lc_superseded_by l))
               (case_when (negb (is_none (ld_expires_at_ms delta)))
                  (flatten (ld_expires_at_ms delta)) (lc_expires_at_ms l))
               (case_when (negb (is_none (ld_review_after_ms delta)))
                  (flatten (ld_review_after_ms delta)) (lc_review_after_ms l))
               (coalesce (ld_updated_at_ms delta) (lc_updated_at_ms l)))
            (set_meta_status (coalesce (ld_status delta) (r_status r)) (r_meta r))) r) db.

Definition update_lifecycle (t : TenantId) (c : ChunkId) (delta : LifecycleDelta)
    (db : ChunkTable) : ChunkTable :=
  (update_lifecycle_counted t c delta db).2.

(** [atomic_supersede_lifecycle]: an error drops the transaction, so the
    table is the one before. *)
Definition atomic_supersede (t : TenantId) (old_id new_id : ChunkId) (now_ms : Z)
    (db : ChunkTable) : memd_result ChunkTable :=
  let '(old_rows, db1) :=
    update_where t old_id (λ r, bool_decide (lc_superseded_by (r_lc r) = None))
      (λ r, let l := r_lc r in
            set_row_meta (set_meta_lifecycle
              (mkLifecycle (lc_tier l) (lc_supersedes l) (Some new_id)
                 (lc_expires_at_ms l) (lc_review_after_ms l) now_ms)
              (set_meta_status Superseded (r_meta r))) r) db in
  if negb (old_rows =? 1)
  then Err (ValidationError "atomic_supersede: old chunk is not current head or missing")
  else
    let '(new_rows, db2) :=
      update_where t new_id (λ _, true)
        (λ r, let l := r_lc r in
              set_row_meta (set_meta_lifecycle
                (mkLifecycle (lc_tier l) (Some old_id) (lc_superseded_by l)
                   (lc_expires_at_ms l) (lc_review_after_ms l) now_ms) (r_meta r)) r) db1 in
    if negb (new_rows =? 1)
    then Err (StorageError "atomic_supersede: new chunk not found")
    else Ok db2.

Definition list_expired_before (t : TenantId) (now_ms : Z) (db : ChunkTable) : list ChunkId :=
  map cm_chunk_id (select_where t (λ r, expired_by now_ms r
    && negb (status_in [Candidate; Deleted; Expired; Superseded; ErrorStatus] r)) db).

Definition mark_expired_if_final (t : TenantId) (c : ChunkId) (now_ms : Z) (db : ChunkTable)
    : bool * ChunkTable :=
  let '(rows, db) :=
    update_where t c (λ r, status_in [Final] r && expired_by now_ms r)
      (λ r, let l := r_lc r in
            set_row_meta (set_meta_lifecycle
              (mkLifecycle (lc_tier l) (lc_supersedes l) (lc_superseded_by l)
                 (lc_expires_at_ms l) (lc_review_after_ms l) now_ms)
              (set_meta_status Expired (r_meta r))) r) db in
  (rows =? 1, db).

(** The staleness test shared by the SELECT and the guarded UPDATE. *)
Definition is_stale (older_than_ms : Z) (r : Row) : bool :=
  status_in [Superseded; Expired] r
  && negb (bool_decide (lc_tier (r_lc r) = History))
  && (lc_updated_at_ms (r_lc r) <? older_than_ms).

Definition promote_to_history_if_stale (t : TenantId) (c : ChunkId) (older_than_ms now_ms : Z)
    (db : ChunkTable) : bool * ChunkTable :=
  let '(rows, db) :=
    update_where t c (is_stale older_than_ms)
      (λ r, let l := r_lc r in
            set_row_meta (set_meta_lifecycle
              (mkLifecycle History (lc_supersedes l) (lc_superseded_by l)
                 (lc_expires_at_ms l) (lc_review_after_ms l) now_ms) (r_meta r)) r) db in
  (rows =? 1, db).

Definition list_stale_superseded (t : TenantId) (older_than_ms : Z) (db : ChunkTable)
    : list ChunkId :=
  map cm_chunk_id (select_where t (is_stale older_than_ms) db).

Definition list_lifecycle_hidden (t : TenantId) (db : ChunkTable) : list ChunkId :=
  map cm_chunk_id (select_where t
    (λ r, status_in [Candidate; Superseded; Expired; ErrorStatus] r
          || bool_decide (lc_tier (r_lc r) = History)) db).

(* ------------------------------------------------------------------ *)
(** ** Canonical text (src/crates/memd/src/store/supersession.rs) *)

(** [.collect::<Vec<_>>().join(" ")] *)
Fixpoint join_space (ws : list string) : string :=
  match ws with
  | [] => ""
  | [w] => w
  | w :: ws => w +:+ " " +:+ join_space ws
  end.

Section canonicalize.
Context `{Unicode}.

Definition canonicalize_text (s : string) : string :=
  join_space (str_split_whitespace (str_to_lowercase s)).

Definition canonicalize_for_type (text : string) (kind : ChunkType) : string :=
  match kind with
  | Code => join_space (str_split_whitespace text)
  | _ => canonicalize_text text
  end.

End canonicalize.
