(* ===== verification/MetadataFacts.v ===== *)
(** * Facts about the metadata table

    What the statements do row by row, and the table invariant: every row is
    stored under its own [chunk_id] and no two rows share a
    [(tenant, segment, ordinal)] location. *)

From S2P Require Import Prelude Crates Types Metadata.
From stdpp Require Import sorting.

Open Scope Z_scope.

(* ------------------------------------------------------------------ *)
(** ** Row access *)

(** The row of tenant [t] a guarded statement applies to. *)
Definition matches (t : TenantId) (cond : Row → bool) (r : Row) : bool :=
  bool_decide (r_tenant r = t) && cond r.

Lemma matches_true t cond r : matches t cond r = true ↔ r_tenant r = t ∧ cond r = true.
Proof. unfold matches. by rewrite andb_true_iff, bool_decide_eq_true. Qed.

Lemma elem_of_select_where t cond db m :
  m ∈ select_where t cond db ↔
  ∃ c r, db !! c = Some r ∧ matches t cond r = true ∧ m = r_meta r.
Proof.
  unfold select_where. rewrite list_elem_of_fmap. split.
  - intros ([c r] & -> & Hin). apply list_elem_of_filter in Hin as [Hc Hin].
    apply elem_of_map_to_list in Hin. by exists c, r.
  - intros (c & r & Hl & Hc & ->). exists (c, r). split; [done|].
    apply list_elem_of_filter. split; [done|]. by apply elem_of_map_to_list.
Qed.

Lemma update_where_spec t c cond f db :
  update_where t c cond f db =
    match db !! c with
    | Some r => if matches t cond r then (1, <[c := f r]> db) else (0, db)
    | None => (0, db)
    end.
Proof. done. Qed.

(** A guarded update, row by row. *)
Lemma update_where_lookup t c cond f db k :
  (update_where t c cond f db).2 !! k =
    (λ r, if bool_decide (k = c) && matches t cond r then f r else r) <$> db !! k.
Proof.
  rewrite update_where_spec. destruct (db !! c) as [r|] eqn:E.
  - destruct (matches t cond r) eqn:Em; cbn [snd].
    + destruct (decide (k = c)) as [->|Hne].
      * rewrite lookup_insert_eq, E. cbn. by rewrite bool_decide_true, Em.
      * rewrite lookup_insert_ne by done. rewrite bool_decide_false by done. cbn.
        by destruct (db !! k).
    + destruct (decide (k = c)) as [->|Hne].
      * rewrite E. cbn. by rewrite Em, andb_false_r.
      * rewrite bool_decide_false by done. by destruct (db !! k).
  - cbn [snd]. destruct (decide (k = c)) as [->|Hne]; [by rewrite E|].
    rewrite bool_decide_false by done. by destruct (db !! k).
Qed.

(** The number of rows it reports. *)
Lemma update_where_count t c cond f db :
  (update_where t c cond f db).1 =
    match db !! c with Some r => if matches t cond r then 1 else 0 | None => 0 end.
Proof. rewrite update_where_spec. by destruct (db !! c) as [r|]; [destruct (matches t cond r)|]. Qed.

Lemma get_spec t c db m :
  get t c db = Some m ↔
  ∃ r, db !! c = Some r ∧ r_tenant r = t ∧ r_status r ≠ Deleted ∧ m = r_meta r.
Proof.
  unfold get. destruct (db !! c) as [r|]; [|naive_solver].
  case_bool_decide as Ht; cbn; [|naive_solver].
  unfold status_in. case_bool_decide as Hs; cbn.
  - apply list_elem_of_singleton in Hs. naive_solver.
  - rewrite list_elem_of_singleton in Hs. naive_solver.
Qed.

(* ------------------------------------------------------------------ *)
(** ** The table invariant *)

Record table_wf (db : ChunkTable) : Prop := {
  wf_key c r : db !! c = Some r → cm_chunk_id (r_meta r) = c;
  wf_loc c1 c2 r1 r2 :
    db !! c1 = Some r1 → db !! c2 = Some r2 →
    location (r_meta r1) = location (r_meta r2) → c1 = c2;
}.

Lemma table_wf_empty : table_wf ∅.
Proof. split; intros *; by rewrite lookup_empty. Qed.

Lemma insert_row_lookup m db k :
  insert_row m db !! k =
    if decide (k = cm_chunk_id m) then Some (mkRow m index_cols_default)
    else r ← db !! k; if decide (location (r_meta r) = location m) then None else Some r.
Proof.
  unfold insert_row. case_decide as Hk.
  - subst. by rewrite lookup_insert_eq.
  - rewrite lookup_insert_ne by done. rewrite map_lookup_filter.
    destruct (db !! k) as [r|]; cbn; [|done].
    case_decide as E; case_guard as E'; cbn in *; naive_solver.
Qed.

Lemma insert_row_wf m db : table_wf db → table_wf (insert_row m db).
Proof.
  intros [Hk Hl]. split.
  - intros c r. rewrite insert_row_lookup. case_decide as Hc; [naive_solver|].
    destruct (db !! c) as [r'|] eqn:E; cbn [mbind option_bind]; [|naive_solver]. case_decide; naive_solver.
  - intros c1 c2 r1 r2. rewrite !insert_row_lookup.
    case_decide as H1; case_decide as H2; [naive_solver|..].
    + destruct (db !! c2) as [r'|] eqn:E; cbn [mbind option_bind]; [|naive_solver]. case_decide; naive_solver.
    + destruct (db !! c1) as [r'|] eqn:E; cbn [mbind option_bind]; [|naive_solver]. case_decide; naive_solver.
    + destruct (db !! c1) as [r'|] eqn:E; cbn [mbind option_bind]; [|naive_solver].
      destruct (db !! c2) as [r''|] eqn:E'; cbn [mbind option_bind]; [|by intros _ [=]].
      case_decide; [done|]. case_decide; [by intros _ [=]|].
      intros [= <-] [= <-] Heq. eauto.
Qed.

Lemma insert_many_wf rows db : table_wf db → table_wf (insert_many rows db).
Proof.
  unfold insert_many. revert db. induction rows as [|m rows IH]; intros db Hwf; [done|].
  cbn. apply IH. by apply insert_row_wf.
Qed.

(** Row-wise changes that keep key and location keep the invariant. *)
Lemma rowwise_wf (g : ChunkId → Row → Row) db db' :
  (∀ c, db' !! c = g c <$> db !! c) →
  (∀ c r, cm_chunk_id (r_meta (g c r)) = cm_chunk_id (r_meta r) ∧
          location (r_meta (g c r)) = location (r_meta r)) →
  table_wf db → table_wf db'.
Proof.
  intros Hg Hkeep [Hk Hl]. split.
  - intros c r. rewrite Hg. intros (r0 & Hr & ->)%fmap_Some. rewrite (proj1 (Hkeep c r0)). eauto.
  - intros c1 c2 r1 r2. rewrite !Hg. intros (s1 & E1 & ->)%fmap_Some (s2 & E2 & ->)%fmap_Some.
    rewrite (proj2 (Hkeep c1 s1)), (proj2 (Hkeep c2 s2)). eauto.
Qed.

Lemma update_where_wf t c cond f db :
  (∀ r, cm_chunk_id (r_meta (f r)) = cm_chunk_id (r_meta r) ∧
        location (r_meta (f r)) = location (r_meta r)) →
  table_wf db → table_wf (update_where t c cond f db).2.
Proof.
  intros Hf. apply (rowwise_wf (λ k r, if bool_decide (k = c) && matches t cond r then f r else r)).
  - intros k. apply update_where_lookup.
  - intros k r. destruct (_ && _); [apply Hf|done].
Qed.

Lemma foldl_wf {A B} (f : B → A → B) (g : B → ChunkTable) l b :
  (∀ b a, table_wf (g b) → table_wf (g (f b a))) → table_wf (g b) → table_wf (g (foldl f b l)).
Proof. intros Hf. revert b. induction l as [|a l IH]; intros b Hb; cbn; eauto. Qed.

Lemma delete_wf c db : table_wf db → table_wf (delete c db).
Proof.
  intros [Hk Hl]. split.
  - intros k r [_ ?]%lookup_delete_Some. eauto.
  - intros c1 c2 r1 r2 [_ ?]%lookup_delete_Some [_ ?]%lookup_delete_Some. eauto.
Qed.

Lemma hard_delete_chunks_wf t ids db :
  table_wf db → table_wf (hard_delete_chunks t ids db).2.
Proof.
  intros Hwf. unfold hard_delete_chunks.
  apply (foldl_wf (hard_delete_step t) snd); [|done].
  intros [n d] c Hd. unfold hard_delete_step. cbn in *.
  destruct (d !! c) as [r|]; [|done]. destruct (_ && _); [by apply delete_wf|done].
Qed.

(** A relocation that passes the constraint keeps the invariant. *)
Lemma relocate_step_wf t s rel s' :
  relocate_step t s rel = Ok s' → table_wf s.2 → table_wf s'.2.
Proof.
  destruct s as [n db], rel as [[c seg] ord]. unfold relocate_step. cbn.
  destruct (db !! c) as [r|] eqn:E; [|by intros [= <-]].
  destruct (bool_decide (r_tenant r = t) && _) eqn:Em; [|by intros [= <-]].
  apply andb_true_iff in Em as [Et%bool_decide_eq_true _].
  case_bool_decide as Hu; [|done]. intros [= <-] [Hk Hl]. cbn.
  rewrite Forall_forall in Hu.
  assert (Hu' : ∀ k s, db !! k = Some s → location (r_meta s) = (t, seg, ord) → k = c).
  { intros k s Hs Hloc. apply elem_of_map_to_list in Hs.
    destruct (Hu (k, s) Hs) as [?|?]; [done|]. done. }
  set (r' := set_row_meta _ r).
  assert (Hr' : location (r_meta r') = (t, seg, ord)) by (by rewrite <-Et).
  split.
  - intros k s. destruct (decide (k = c)) as [->|Hne].
    + rewrite lookup_insert_eq. intros [= <-]. cbn. eauto.
    + rewrite lookup_insert_ne by done. eauto.
  - intros c1 c2 r1 r2. destruct (decide (c1 = c)) as [->|H1], (decide (c2 = c)) as [->|H2];
      rewrite ?lookup_insert_eq, ?lookup_insert_ne by done; [done|..].
    + intros [= <-] Hs Heq. symmetry. eapply Hu'; [exact Hs|congruence].
    + intros Hs [= <-] Heq. eapply Hu'; [exact Hs|congruence].
    + eauto.
Qed.

Lemma update_chunk_locations_wf t rels db n db' :
  update_chunk_locations t rels db = Ok (n, db') → table_wf db → table_wf db'.
Proof.
  unfold update_chunk_locations. destruct rels as [|rel rels]; [by intros [= _ <-]|].
  intros H Hwf. destruct (try_fold _ _ _) as [[k d]|] eqn:E; cbn [mbind result_bind] in H; [|done].
  destruct (negb _); [done|]. injection H as _ <-.
  change (table_wf (k, d).2).
  eapply (try_fold_inv (relocate_step t) (λ s, table_wf s.2) _ (0, db)); [|exact Hwf|exact E].
  intros s a s' _ Hs Hstep. eapply relocate_step_wf; eauto.
Qed.

(* ------------------------------------------------------------------ *)
(** ** Selected identifiers *)

Definition select_ids (t : TenantId) (cond : Row → bool) (db : ChunkTable) : list ChunkId :=
  map cm_chunk_id (select_where t cond db).

Lemma elem_of_select_ids t cond db c :
  table_wf db →
  c ∈ select_ids t cond db ↔ ∃ r, db !! c = Some r ∧ matches t cond r = true.
Proof.
  intros [Hk _]. unfold select_ids. rewrite list_elem_of_fmap. split.
  - intros (m & -> & (k & r & Hr & Hm & ->)%elem_of_select_where).
    exists r. by rewrite (Hk _ _ Hr).
  - intros (r & Hr & Hm). exists (r_meta r). split; [by rewrite (Hk _ _ Hr)|].
    apply elem_of_select_where. by exists c, r.
Qed.

Lemma NoDup_select_ids t cond db : table_wf db → NoDup (select_ids t cond db).
Proof.
  intros [Hk _]. unfold select_ids, select_where. rewrite map_map.
  assert (Hl : ∀ l : list (ChunkId * Row), (∀ kr, kr ∈ l → db !! kr.1 = Some kr.2) →
    map (λ kr, cm_chunk_id (r_meta kr.2)) l = map fst l).
  { intros l Hl. apply list_fmap_ext. intros i [c r] Hi. cbn. apply Hk.
    by apply (Hl (c, r)), (list_elem_of_lookup_2 l i). }
  rewrite Hl.
  - apply NoDup_fmap_fst; [|apply NoDup_filter, NoDup_map_to_list].
    intros c r1 r2 H1 H2. apply list_elem_of_filter in H1 as [_ H1], H2 as [_ H2].
    apply elem_of_map_to_list in H1, H2. congruence.
  - intros [c r] Hin. apply list_elem_of_filter in Hin as [_ Hin].
    by apply elem_of_map_to_list in Hin.
Qed.

(** Whether a statement hits the row of [c]. *)
Definition hit (t : TenantId) (cond : Row → bool) (db : ChunkTable) (c : ChunkId) : bool :=
  match db !! c with Some r => matches t cond r | None => false end.

(** Running a guarded update over a list of identifiers and counting. *)
Definition mark_loop (mark : ChunkId → ChunkTable → bool * ChunkTable) (ids : list ChunkId)
    (s : Z * ChunkTable) : Z * ChunkTable :=
  foldl (λ s c, let '(b, db) := mark c s.2 in (if (b : bool) then s.1 + 1 else s.1, db)) s ids.

Lemma mark_loop_spec t cond f ids n db :
  NoDup ids →
  let '(n', db') := mark_loop (λ c db, let '(k, db) := update_where t c cond f db in (k =? 1, db))
                      ids (n, db) in
  (∀ k, db' !! k = (λ r, if bool_decide (k ∈ ids) && matches t cond r then f r else r) <$> db !! k) ∧
  n' = n + zlen (filter (λ c, hit t cond db c = true) ids).
Proof.
  intros Hnd. revert n db. induction Hnd as [|c ids Hc Hnd IH]; intros n db.
  { cbn [mark_loop foldl]. rewrite filter_nil, zlen_nil. split; [|lia]. intros k. by destruct (db !! k). }
  cbn [mark_loop foldl]. cbn [snd fst].
  pose proof (update_where_lookup t c cond f db) as Hl.
  pose proof (update_where_count t c cond f db) as Hcount.
  destruct (update_where t c cond f db) as [k1 db1]. cbn [fst snd] in Hl, Hcount.
  specialize (IH (if k1 =? 1 then n + 1 else n) db1). unfold mark_loop in IH.
  destruct (foldl _ _ ids) as [n' db']. destruct IH as [Hl' Hn']. split.
  - intros k. rewrite Hl', Hl, <-option_fmap_compose. apply option_fmap_ext. intros r. cbn.
    destruct (decide (k = c)) as [->|Hne].
    + rewrite (bool_decide_true (c = c)), (bool_decide_false (c ∈ ids)) by done.
      rewrite (bool_decide_true (c ∈ c :: ids)) by (by left). done.
    + rewrite (bool_decide_false (k = c)) by done. cbn [andb].
      rewrite (bool_decide_ext (k ∈ c :: ids) (k ∈ ids)); [done|]. rewrite elem_of_cons. naive_solver.
  - rewrite Hn', filter_cons.
    assert (Hf : filter (λ c0, hit t cond db1 c0 = true) ids
               = filter (λ c0, hit t cond db c0 = true) ids).
    { apply list_filter_ext_in. intros x Hx. unfold hit. rewrite Hl.
      destruct (db !! x) as [r|]; cbn; [|done].
      rewrite bool_decide_false by (by intros ->). done. }
    rewrite Hf. assert (Hh : hit t cond db c = (k1 =? 1)).
    { unfold hit. rewrite Hcount. destruct (db !! c) as [r|]; [by destruct (matches t cond r)|done]. }
    rewrite Hh. destruct (k1 =? 1); cbn [decide].
    + rewrite decide_True by done. rewrite zlen_cons. lia.
    + rewrite decide_False by done. lia.
Qed.

(** The hits among the identifiers of a wider selection are the selection. *)
Lemma count_hits t cond cond0 db :
  table_wf db → (∀ r, cond r = true → cond0 r = true) →
  zlen (filter (λ c, hit t cond db c = true) (select_ids t cond0 db))
  = zlen (select_where t cond db).
Proof.
  intros Hwf Hsub. unfold zlen. f_equal.
  transitivity (length (select_ids t cond db)); [|by unfold select_ids; rewrite length_map].
  apply Permutation_length, NoDup_Permutation;
    [by apply NoDup_filter, NoDup_select_ids|by apply NoDup_select_ids|].
  intros c. rewrite list_elem_of_filter, !elem_of_select_ids by done. unfold hit. split.
  - intros [Hh (r & Hr & _)]. rewrite Hr in Hh. eauto.
  - intros (r & Hr & Hm). rewrite Hr. split; [done|]. exists r. split; [done|].
    apply matches_true in Hm as [? ?]. apply matches_true. eauto.
Qed.

(* ------------------------------------------------------------------ *)
(** ** Supersession *)

Definition superseded_row (new : ChunkId) (now : Z) (r : Row) : Row :=
  set_row_meta (set_meta_lifecycle
    (mkLifecycle (lc_tier (r_lc r)) (lc_supersedes (r_lc r)) (Some new)
       (lc_expires_at_ms (r_lc r)) (lc_review_after_ms (r_lc r)) now)
    (set_meta_status Superseded (r_meta r))) r.
Definition superseding_row (old : ChunkId) (now : Z) (r : Row) : Row :=
  set_row_meta (set_meta_lifecycle
    (mkLifecycle (lc_tier (r_lc r)) (Some old) (lc_superseded_by (r_lc r))
       (lc_expires_at_ms (r_lc r)) (lc_review_after_ms (r_lc r)) now) (r_meta r)) r.

Lemma atomic_supersede_rows t old new now db db' :
  old ≠ new → atomic_supersede t old new now db = Ok db' →
  ∃ ro rn, db !! old = Some ro ∧ r_tenant ro = t ∧ lc_superseded_by (r_lc ro) = None ∧
    db !! new = Some rn ∧ r_tenant rn = t ∧
    db' !! old = Some (superseded_row new now ro) ∧
    db' !! new = Some (superseding_row old now rn) ∧
    ∀ k, k ≠ old → k ≠ new → db' !! k = db !! k.
Proof.
  intros Hne. unfold atomic_supersede. rewrite update_where_spec.
  destruct (db !! old) as [ro|] eqn:Eo; [|done].
  destruct (matches t _ ro) eqn:Em; [|done].
  apply matches_true in Em as [Ht Hs%bool_decide_eq_true]. cbn [Z.eqb Pos.eqb negb].
  rewrite update_where_spec, lookup_insert_ne by done.
  destruct (db !! new) as [rn|] eqn:En; [|done].
  unfold matches. case_bool_decide as Htn; cbn [andb negb Z.eqb Pos.eqb]; [|done].
  intros [= <-]. exists ro, rn. split_and!; try done.
  - by rewrite lookup_insert_ne, lookup_insert_eq.
  - by rewrite lookup_insert_eq.
  - intros k H1 H2. by rewrite !lookup_insert_ne.
Qed.

(* ------------------------------------------------------------------ *)
(** ** Optional identifiers in a column *)

Lemma parse_opt_roundtrip `{U : Uuid ChunkId} `{UL : !UuidLaws ChunkId} (o : option ChunkId) :
  parse_opt (uuid_to_string <$> o) = Ok o.
Proof. destruct o as [c|]; [|done]. cbn. unfold chunk_id_parse. by rewrite uuid_roundtrip. Qed.
