(* ===== verification/TenantStore.v ===== *)
(** * The per-tenant store
    (src/crates/memd/src/store/persistent/recovery.rs, and the structs of
     store/persistent.rs)

    [World] is everything that survives a crash: the log, the segment
    directories, the metadata table and the task tables.  The operations run
    in a state and error monad over the in-memory store and the world; every
    primitive effect on the world is recorded in a trace, so that the crash
    points of an operation are the worlds of its trace. *)

From S2P Require Import Prelude Crates Types WalFormat WalReader Files WalWriter.
From S2P Require Import SegmentFormat Segment Metadata.

Open Scope Z_scope.

(* ------------------------------------------------------------------ *)
(** ** State *)

(** The task tables ([store/metadata/sqlite/tasks.rs]) as the store uses
    them: a WAL payload decodes to a bundle, which is inserted. *)
Class TaskTables (TK : Type) : Type := {
  insert_task_artifact_payload : list byte → TK → memd_result TK;
}.

Record ActiveSegment : Type := mkActive { as_writer : SegmentWriter; as_chunk_count : Z }.

Record TenantStore (B : Type) : Type := mkTenantStore {
  ts_tenant_id : string;
  ts_read_only : bool;
  ts_active_segment : option ActiveSegment;
  ts_segments : gmap Z (SegmentReader B);
  ts_wal : option WalWriter;
  ts_wal_overlay : gmap ChunkId (list byte);
  ts_writes_since_checkpoint : Z;
  ts_segment_max_chunks : Z;
  ts_min_finalize_chunks : Z;
  ts_wal_checkpoint_interval : Z;
}.
Arguments mkTenantStore {B}.
Arguments ts_tenant_id {B}.
Arguments ts_read_only {B}.
Arguments ts_active_segment {B}.
Arguments ts_segments {B}.
Arguments ts_wal {B}.
Arguments ts_wal_overlay {B}.
Arguments ts_writes_since_checkpoint {B}.
Arguments ts_segment_max_chunks {B}.
Arguments ts_min_finalize_chunks {B}.
Arguments ts_wal_checkpoint_interval {B}.

(** What is on disk. *)
Record World (TK : Type) : Type := mkWorld {
  w_wal : option File;
  w_segs : gmap Z SegDir;
  w_db : ChunkTable;
  w_tasks : TK;
}.
Arguments mkWorld {TK}.
Arguments w_wal {TK}.
Arguments w_segs {TK}.
Arguments w_db {TK}.
Arguments w_tasks {TK}.

Section store.
Context {B TK : Type}.

Definition set_active (a : option ActiveSegment) (t : TenantStore B) : TenantStore B :=
  mkTenantStore (ts_tenant_id t) (ts_read_only t) a (ts_segments t) (ts_wal t)
    (ts_wal_overlay t) (ts_writes_since_checkpoint t) (ts_segment_max_chunks t)
    (ts_min_finalize_chunks t) (ts_wal_checkpoint_interval t).
Definition set_segments (m : gmap Z (SegmentReader B)) (t : TenantStore B) : TenantStore B :=
  mkTenantStore (ts_tenant_id t) (ts_read_only t) (ts_active_segment t) m (ts_wal t)
    (ts_wal_overlay t) (ts_writes_since_checkpoint t) (ts_segment_max_chunks t)
    (ts_min_finalize_chunks t) (ts_wal_checkpoint_interval t).
Definition set_wal (w : WalWriter) (t : TenantStore B) : TenantStore B :=
  mkTenantStore (ts_tenant_id t) (ts_read_only t) (ts_active_segment t) (ts_segments t) (Some w)
    (ts_wal_overlay t) (ts_writes_since_checkpoint t) (ts_segment_max_chunks t)
    (ts_min_finalize_chunks t) (ts_wal_checkpoint_interval t).
Definition set_writes (n : Z) (t : TenantStore B) : TenantStore B :=
  mkTenantStore (ts_tenant_id t) (ts_read_only t) (ts_active_segment t) (ts_segments t) (ts_wal t)
    (ts_wal_overlay t) n (ts_segment_max_chunks t)
    (ts_min_finalize_chunks t) (ts_wal_checkpoint_interval t).

Definition with_wal (f : option File) (w : World TK) : World TK :=
  mkWorld f (w_segs w) (w_db w) (w_tasks w).
Definition with_segs (m : gmap Z SegDir) (w : World TK) : World TK :=
  mkWorld (w_wal w) m (w_db w) (w_tasks w).
Definition with_db (db : ChunkTable) (w : World TK) : World TK :=
  mkWorld (w_wal w) (w_segs w) db (w_tasks w).
Definition with_tasks (k : TK) (w : World TK) : World TK :=
  mkWorld (w_wal w) (w_segs w) (w_db w) k.

(** The state of a running operation: the store, the world, and the worlds
    passed through since the operation started. *)
Record St : Type := mkSt {
  s_store : TenantStore B;
  s_world : World TK;
  s_trace : list (World TK);
}.

(** Computations that may fail; effects made before an error stay. *)
Definition M (A : Type) : Type := St → memd_result A * St.

Definition m_ret {A} (a : A) : M A := λ s, (Ok a, s).
Definition m_bind {A C} (m : M A) (k : A → M C) : M C :=
  λ s, match m s with
       | (Ok a, s) => k a s
       | (Err e, s) => (Err e, s)
       end.
Definition m_err {A} (e : MemdError) : M A := λ s, (Err e, s).
Definition m_lift {A} (r : memd_result A) : M A := λ s, (r, s).
Definition m_store : M (TenantStore B) := λ s, (Ok (s_store s), s).
Definition m_world : M (World TK) := λ s, (Ok (s_world s), s).
Definition m_set_store (f : TenantStore B → TenantStore B) : M () :=
  λ s, (Ok (), mkSt (f (s_store s)) (s_world s) (s_trace s)).
(** A primitive effect on the world. *)
Definition m_effect (f : World TK → World TK) : M () :=
  λ s, let w := f (s_world s) in (Ok (), mkSt (s_store s) w (s_trace s ++ [w])).

(** [for x in l { body }] *)
Fixpoint m_for {A} (l : list A) (body : A → M ()) : M () :=
  match l with
  | [] => m_ret ()
  | x :: l => m_bind (body x) (λ _, m_for l body)
  end.

End store.
Arguments St : clear implicits.
Arguments M : clear implicits.

Declare Scope mstore_scope.
Delimit Scope mstore_scope with mstore.
Notation "x <- m ;; k" := (m_bind m (λ x, k))
  (at level 100, m at next level, right associativity) : mstore_scope.
Notation "m ;;; k" := (m_bind m (λ _, k)) (at level 100, right associativity) : mstore_scope.
Open Scope mstore_scope.

(* ------------------------------------------------------------------ *)
(** ** Effects on one segment directory *)

Section ops.
Context `{BO : ByteOrder} `{CRC : Crc32} `{RB : Roaring B} `{CAP : BufCap}.
Context `{BW : Bincode WalRecord} `{BM : Bincode SegmentMeta} `{JC : Json MemoryChunk}.
Context `{UU : Uuid ChunkId} `{UC : Unicode} `{TT : TaskTables TK}.

Definition seg_dir (id : Z) (w : World TK) : SegDir := default segdir_empty (w_segs w !! id).
Definition set_seg (id : Z) (d : SegDir) (w : World TK) : World TK :=
  with_segs (<[id := d]> (w_segs w)) w.

(** The effects of a segment operation, one by one. *)
Definition m_segops (id : Z) (ops : list SegOp) : M B TK () :=
  m_for ops (λ o, m_effect (λ w, set_seg id (apply_segop o (seg_dir id w)) w)).

(** [create_dir_all] of a segment directory. *)
Definition m_mkdir (id : Z) : M B TK () := m_effect (λ w, set_seg id (seg_dir id w) w).

(** [SegmentReader::open] of a directory on disk. *)
Definition m_reader_open (id : Z) : M B TK (SegmentReader B) :=
  w <- m_world ;;
  match w_segs w !! id with
  | None => m_err (IoError (io_err NotFound "segment directory"))
  | Some d => m_lift (lift_io (reader_open id d))
  end.

(* ------------------------------------------------------------------ *)
(** ** The log *)

(** The writer, or [ReadOnlyStore]. *)
Definition m_wal_writer (op : string) : M B TK WalWriter :=
  t <- m_store ;;
  match ts_wal t with None => m_err (ReadOnlyStore op) | Some w => m_ret w end.

Definition wal_file (w : World TK) : File := default file_new (w_wal w).

(** [append_batch] with its two crash points: written and synced. *)
Definition m_wal_append_batch (records : list WalRecord) (wal : WalWriter) : M B TK () :=
  match records with
  | [] => m_ret ()
  | _ =>
      w <- m_world ;;
      m_effect (with_wal (Some (wal_write_batch records (ww_handle wal) (wal_file w)).2)) ;;;
      let '(wal', f) := wal_append_batch records wal (wal_file w) in
      m_effect (with_wal (Some f)) ;;;
      m_set_store (set_wal wal')
  end.

Definition append_wal_records (records : list WalRecord) (op : string) : M B TK () :=
  wal <- m_wal_writer op ;;
  m_wal_append_batch records wal.

Definition append_wal_add_batch (tenant_id : string) (rows : list (string * Z * list byte))
    (op : string) : M B TK () :=
  wal <- m_wal_writer op ;;
  m_wal_append_batch
    (map (λ '(chunk_id, ts, payload), wal_add tenant_id chunk_id ts payload) rows) wal.

(** [append_delete] and [append_checkpoint] are single appends. *)
Definition append_wal_delete (tenant_id chunk_id : string) (timestamp : Z) (op : string)
    : M B TK () :=
  wal <- m_wal_writer op ;;
  m_wal_append_batch [wal_delete tenant_id chunk_id timestamp] wal.

Definition append_wal_checkpoint (tenant_id : string) (timestamp : Z) : M B TK () :=
  wal <- m_wal_writer "append_wal_checkpoint" ;;
  m_wal_append_batch [wal_checkpoint tenant_id timestamp] wal.

(** [truncate]: [set_len(0)], then sync. *)
Definition truncate_wal : M B TK () :=
  wal <- m_wal_writer "truncate_wal" ;;
  w <- m_world ;;
  m_effect (with_wal (Some (file_set_len0 (wal_file w)))) ;;;
  let '(wal', f) := wal_truncate wal (wal_file w) in
  m_effect (with_wal (Some f)) ;;;
  m_set_store (set_wal wal').

(* ------------------------------------------------------------------ *)
(** ** Segments *)

(** The largest of a list of ids. *)
Definition max_id (l : list Z) : option Z :=
  foldr (λ id acc, Some (match acc with None => id | Some m => Z.max id m end)) None l.

(** [next_segment_id]: one past every loaded segment and every [seg_*]
    directory on disk. *)
Definition next_segment_id (t : TenantStore B) (w : World TK) : Z :=
  match max_id (map fst (map_to_list (ts_segments t)) ++ map fst (map_to_list (w_segs w))) with
  | Some id => id + 1
  | None => 1
  end.

(** [SegmentWriter::create] on disk. *)
Definition m_writer_create (now_ms segment_id : Z) : M B TK SegmentWriter :=
  m_mkdir segment_id ;;;
  let '(writer, ops) := writer_create now_ms segment_id in
  m_segops segment_id ops ;;;
  m_ret writer.

(** [writer.finalize()], then [SegmentReader::open] and the insertion into
    the map of loaded segments. *)
Definition m_finalize_writer (writer : SegmentWriter) : M B TK () :=
  let '(meta, ops) := finalize writer in
  m_segops (sw_id writer) ops ;;;
  reader <- m_reader_open (sm_id meta) ;;
  m_set_store (λ t, set_segments (<[sm_id meta := reader]> (ts_segments t)) t).

Definition get_or_create_active_segment (now_ms max_chunks : Z) : M B TK () :=
  t <- m_store ;;
  if ts_read_only t then m_err (ReadOnlyStore "get_or_create_active_segment")
  else
    let create :=
      t <- m_store ;;
      w <- m_world ;;
      writer <- m_writer_create now_ms (next_segment_id t w) ;;
      m_set_store (set_active (Some (mkActive writer 0))) in
    match ts_active_segment t with
    | Some seg =>
        if as_chunk_count seg <? max_chunks then m_ret ()
        else
          m_set_store (set_active None) ;;;
          m_finalize_writer (as_writer seg) ;;;
          create
    | None => create
    end.

(** [seg.writer.append_chunk(payload)?; seg.chunk_count += 1]: the
    coordinates of the chunk. *)
Definition m_append_active (err : string) (payload : list byte) : M B TK (Z * Z) :=
  t <- m_store ;;
  match ts_active_segment t with
  | None => m_err (StorageError err)
  | Some seg =>
      let '(writer, ordinal, ops) := append_chunk payload (as_writer seg) in
      m_segops (sw_id writer) ops ;;;
      m_set_store (set_active (Some (mkActive writer (as_chunk_count seg + 1)))) ;;;
      m_ret (sw_id writer, ordinal)
  end.

Definition flush_active_segment_payload : M B TK () :=
  t <- m_store ;;
  if ts_read_only t then m_err (ReadOnlyStore "flush_active_segment_payload")
  else
    match ts_active_segment t with
    | None => m_ret ()
    | Some seg =>
        let '(writer, ops) := flush_payload (as_writer seg) in
        m_segops (sw_id writer) ops ;;;
        m_set_store (set_active (Some (mkActive writer (as_chunk_count seg))))
    end.

Definition finalize_active_segment : M B TK () :=
  t <- m_store ;;
  if ts_read_only t then m_ret ()
  else
    match ts_active_segment t with
    | None => m_ret ()
    | Some seg =>
        m_set_store (set_active None) ;;;
        if 0 <? as_chunk_count seg then m_finalize_writer (as_writer seg) else m_ret ()
    end.

Definition finalize_active_segment_if_above_threshold : M B TK () :=
  t <- m_store ;;
  if ts_read_only t then m_ret ()
  else if 0 <? ts_wal_checkpoint_interval t then finalize_active_segment
  else
    let active_chunks := match ts_active_segment t with Some s => as_chunk_count s | None => 0 end in
    if active_chunks <? ts_min_finalize_chunks t then m_ret ()
    else finalize_active_segment.

(** [Drop for TenantStore]: the same, an error is only logged. *)
Definition drop_store : M B TK () :=
  λ s, let '(_, s) := finalize_active_segment_if_above_threshold s in (Ok (), s).

(* ------------------------------------------------------------------ *)
(** ** Reading *)

Definition read_from_active_segment (segment_id ordinal : Z) : M B TK (option (list byte)) :=
  t <- m_store ;;
  match ts_active_segment t with
  | Some seg =>
      if sw_id (as_writer seg) =? segment_id then
        w <- m_world ;;
        let '(res, writer, ops) :=
          writer_read_chunk ordinal (as_writer seg) (seg_dir segment_id w) in
        m_segops segment_id ops ;;;
        m_set_store (set_active (Some (mkActive writer (as_chunk_count seg)))) ;;;
        m_lift res
      else m_ret None
  | None => m_ret None
  end.

Definition read_payload_fallback (chunk_id : ChunkId) (segment_id ordinal : Z)
    : M B TK (option (list byte)) :=
  bytes <- read_from_active_segment segment_id ordinal ;;
  match bytes with
  | Some bytes => m_ret (Some bytes)
  | None =>
      t <- m_store ;;
      match ts_segments t !! segment_id with
      | Some reader => m_lift (lift_io (reader_read_chunk ordinal reader))
      | None =>
          if ts_read_only t then m_ret (ts_wal_overlay t !! chunk_id) else m_ret None
      end
  end.

(* ------------------------------------------------------------------ *)
(** ** Recovery *)

(** [load_segments]: every directory with a [meta] file that opens. *)
Definition load_segments (segs : gmap Z SegDir) : gmap Z (SegmentReader B) :=
  map_imap (λ id d, match sd_meta d with
                    | Some _ => res_ok (reader_open id d)
                    | None => None
                    end) segs.

(** The metadata of a replayed [Add] without a row. *)
Definition recovered_metadata (chunk : MemoryChunk) (segment_id ordinal : Z) : ChunkMetadata :=
  mkMeta (mc_chunk_id chunk) (mc_tenant_id chunk) (mc_project_id chunk) segment_id ordinal
    (mc_chunk_type chunk) (mc_status chunk) (mc_timestamp_created chunk) (mc_hash chunk)
    (src_uri (mc_source chunk)) LifecycleMetadata_default
    (Some (canonicalize_for_type (mc_text chunk) (mc_chunk_type chunk))) (mc_ingestion_mode chunk).

Definition wal_tenant (r : WalRecord) : memd_result TenantId :=
  map_err (λ _, StorageError "invalid tenant_id in WAL") (TenantId.new (wr_tenant_id r)).
Definition wal_chunk (r : WalRecord) : memd_result ChunkId :=
  map_err (λ _, StorageError "invalid chunk_id in WAL") (chunk_id_parse (wr_chunk_id r)).

(** [reader.read_chunk(ordinal).ok().flatten().is_some()] over the loaded
    segments. *)
Definition segment_readable (segments : gmap Z (SegmentReader B)) (m : ChunkMetadata) : bool :=
  match segments !! cm_segment_id m with
  | Some reader =>
      match reader_read_chunk (cm_ordinal m) reader with Ok (Some _) => true | _ => false end
  | None => false
  end.

(** The [Add] arm of [recover_from_wal]; [true] when the chunk was added. *)
Definition recover_add (now_ms : Z) (record : WalRecord) : M B TK bool :=
  tenant_id <- m_lift (wal_tenant record) ;;
  chunk_id <- m_lift (wal_chunk record) ;;
  w <- m_world ;;
  t <- m_store ;;
  let existing_metadata := get tenant_id chunk_id (w_db w) in
  if match existing_metadata with
     | Some m => segment_readable (ts_segments t) m
     | None => false
     end
  then m_ret false
  else
    chunk <- m_lift (ok_or (json_from_slice (wr_payload record))
                      (StorageError "deserialize WAL chunk")) ;;
    get_or_create_active_segment now_ms (ts_segment_max_chunks t) ;;;
    loc <- m_append_active "no active segment during recovery" (wr_payload record) ;;
    let chunk_meta :=
      match existing_metadata with
      | Some current => set_meta_location loc.1 loc.2 current
      | None => recovered_metadata chunk loc.1 loc.2
      end in
    m_effect (λ w, with_db (insert_row chunk_meta (w_db w)) w) ;;;
    m_ret true.

(** [metadata.mark_deleted], then the tombstone of the loaded segment. *)
Definition m_delete_row (tenant_id : TenantId) (chunk_id : ChunkId) (meta : ChunkMetadata)
    : M B TK () :=
  m_effect (λ w, with_db (mark_deleted tenant_id chunk_id (w_db w)).2 w) ;;;
  t <- m_store ;;
  match ts_segments t !! cm_segment_id meta with
  | Some reader =>
      let '(reader, ops) := reader_mark_deleted (cm_ordinal meta) reader in
      m_segops (cm_segment_id meta) ops ;;;
      m_set_store (λ t, set_segments (<[cm_segment_id meta := reader]> (ts_segments t)) t)
  | None => m_ret ()
  end.

(** The [Delete] arm. *)
Definition recover_delete (record : WalRecord) : M B TK () :=
  tenant_id <- m_lift (wal_tenant record) ;;
  chunk_id <- m_lift (wal_chunk record) ;;
  w <- m_world ;;
  match get tenant_id chunk_id (w_db w) with
  | Some meta =>
      if negb (bool_decide (cm_status meta = Deleted))
      then m_delete_row tenant_id chunk_id meta
      else m_ret ()
  | None => m_ret ()
  end.

(** The [TaskArtifact] arm. *)
Definition recover_task_artifact (record : WalRecord) : M B TK () :=
  w <- m_world ;;
  tasks <- m_lift (insert_task_artifact_payload (wr_payload record) (w_tasks w)) ;;
  m_effect (with_tasks tasks).

(** The replay loop; the number of adds. *)
Fixpoint recover_records (now_ms : Z) (records : list WalRecord) (adds : Z) : M B TK Z :=
  match records with
  | [] => m_ret adds
  | record :: records =>
      match record_type record with
      | WalAdd =>
          added <- recover_add now_ms record ;;
          recover_records now_ms records (if (added : bool) then adds + 1 else adds)
      | WalDelete => recover_delete record ;;; recover_records now_ms records adds
      | WalTaskArtifact =>
          recover_task_artifact record ;;; recover_records now_ms records adds
      | WalCheckpoint => recover_records now_ms records adds
      end
  end.

Definition recover_from_wal (now_ms : Z) (wal_reader : WalReader) : M B TK () :=
  if wal_is_empty wal_reader then m_ret ()
  else
    match records_for_recovery wal_reader with
    | [] => m_ret ()
    | records =>
        adds <- recover_records now_ms records 0 ;;
        (if 0 <? adds then finalize_active_segment else m_ret ()) ;;;
        truncate_wal
    end.

(** [build_wal_overlay] *)
Definition overlay_step (tenant_id : string) (overlay : gmap ChunkId (list byte))
    (record : WalRecord) : memd_result (gmap ChunkId (list byte)) :=
  if negb (bool_decide (record_type record = WalAdd))
     || negb (bool_decide (wr_tenant_id record = tenant_id))
  then Ok overlay
  else
    chunk_id ← map_err (λ _, StorageError "invalid chunk_id in WAL overlay")
                 (chunk_id_parse (wr_chunk_id record));
    Ok (<[chunk_id := wr_payload record]> overlay).

Definition build_wal_overlay (wal_reader : WalReader) (tenant_id : string)
    : memd_result (gmap ChunkId (list byte)) :=
  if wal_is_empty wal_reader then Ok ∅
  else try_fold (overlay_step tenant_id) (records_for_recovery wal_reader) ∅.

(** [TenantStore::open]: the result, the world and the worlds on the way. *)
Definition open (now_ms : Z) (tenant_id : string) (segment_max_chunks min_finalize_chunks
    wal_checkpoint_interval : Z) (read_only : bool) (w : World TK)
    : memd_result (TenantStore B) * World TK * list (World TK) :=
  let wal_reader := wal_reader_open (f_cur <$> w_wal w) in
  if read_only then
    match build_wal_overlay wal_reader tenant_id with
    | Err e => (Err e, w, [])
    | Ok overlay =>
        (Ok (mkTenantStore tenant_id true None (load_segments (w_segs w)) None overlay 0
               segment_max_chunks min_finalize_chunks wal_checkpoint_interval), w, [])
    end
  else
    match wal_open_or_create (w_wal w) with
    | Err e => (Err (IoError e), w, [])
    | Ok (writer, f) =>
        let w1 := with_wal (Some f) w in
        let store := mkTenantStore tenant_id false None (load_segments (w_segs w)) (Some writer) ∅ 0
                       segment_max_chunks min_finalize_chunks wal_checkpoint_interval in
        let '(res, s) := recover_from_wal now_ms wal_reader (mkSt store w1 [w1]) in
        (match res with Ok _ => Ok (s_store s) | Err e => Err e end, s_world s, s_trace s)
    end.

End ops.
