(* ===== verification/Persistent.v ===== *)
(** * Adding, deleting and reading chunks
    (src/crates/memd/src/store/persistent/{write,read,retrieval,lifecycle}.rs)

    The operations of [PersistentStore] on one open tenant, in the monad of
    [TenantStore].  The searchers are outside: what the index lane answered
    is an argument, and its calls are left out of [delete_chunk]. *)

From S2P Require Import Prelude Crates Types WalFormat WalReader Files WalWriter.
From S2P Require Import SegmentFormat Segment Metadata TenantStore.

Open Scope Z_scope.

Record PendingChunkAdd : Type := mkPending {
  pa_chunk : MemoryChunk;
  pa_chunk_id : ChunkId;
  pa_payload : list byte;
}.

(** The outcome of the index lane of an add: the batch was indexed (by this
    call or by the worker it waits for), it failed or could not be enqueued,
    or the worker went away before it recorded anything. *)
Inductive IndexLane : Type :=
| LaneIndexed
| LaneFailed (error : string)
| LaneQueued.

Section ops.
Context `{BO : ByteOrder} `{CRC : Crc32} `{RB : Roaring B} `{CAP : BufCap}.
Context `{BW : Bincode WalRecord} `{BM : Bincode SegmentMeta} `{JC : Json MemoryChunk}.
Context `{UU : Uuid ChunkId} `{UC : Unicode} `{TT : TaskTables TK} `{SHA : Sha256}.

(** [ensure_writable] *)
Definition ensure_writable (op : string) : M B TK () :=
  t <- m_store ;;
  if ts_read_only t then m_err (ReadOnlyStore op) else m_ret ().

(** One chunk of [prepare_pending_chunks]; [fresh] is the value of
    [ChunkId::new()]. *)
Definition prepare_pending_chunk (preserve_chunk_ids : bool) (db : ChunkTable)
    (chunk : MemoryChunk) (fresh : ChunkId) : memd_result PendingChunkAdd :=
  chunk_id ←
    (if preserve_chunk_ids then
       match get (mc_tenant_id chunk) (mc_chunk_id chunk) db with
       | Some _ => Err (ValidationError "preallocated chunk id already exists")
       | None => Ok (mc_chunk_id chunk)
       end
     else Ok fresh);
  let chunk := set_hash (sha256_hex (mc_text chunk)) (set_chunk_id chunk_id chunk) in
  Ok (mkPending chunk chunk_id (json_to_vec chunk)).

(** [prepare_pending_chunks] *)
Fixpoint prepare_pending_chunks (preserve_chunk_ids : bool) (db : ChunkTable)
    (chunks : list MemoryChunk) (fresh : list ChunkId) : memd_result (list PendingChunkAdd) :=
  match chunks, fresh with
  | chunk :: chunks, id :: fresh =>
      row ← prepare_pending_chunk preserve_chunk_ids db chunk id;
      rows ← prepare_pending_chunks preserve_chunk_ids db chunks fresh;
      Ok (row :: rows)
  | _, _ => Ok []
  end.

(** The row of an added chunk. *)
Definition added_metadata (row : PendingChunkAdd) (segment_id ordinal : Z) : ChunkMetadata :=
  let chunk := pa_chunk row in
  mkMeta (pa_chunk_id row) (mc_tenant_id chunk) (mc_project_id chunk) segment_id ordinal
    (mc_chunk_type chunk) (mc_status chunk) (mc_timestamp_created chunk) (mc_hash chunk)
    (src_uri (mc_source chunk)) LifecycleMetadata_default
    (Some (canonicalize_for_type (mc_text chunk) (mc_chunk_type chunk))) (mc_ingestion_mode chunk).

(** The [for idx in &indices] loop: payloads into the active segment, rows
    collected. *)
Fixpoint append_rows (now_ms : Z) (rows : list PendingChunkAdd) (acc : list ChunkMetadata)
    : M B TK (list ChunkMetadata) :=
  match rows with
  | [] => m_ret acc
  | row :: rows =>
      t <- m_store ;;
      get_or_create_active_segment now_ms (ts_segment_max_chunks t) ;;;
      loc <- m_append_active "no active segment" (pa_payload row) ;;
      append_rows now_ms rows (acc ++ [added_metadata row loc.1 loc.2])
  end.

(** [for _ in 0..n { body }] *)
Fixpoint m_times (n : nat) (body : M B TK ()) : M B TK () :=
  match n with O => m_ret () | S n => body ;;; m_times n body end.

(** [checkpoint_after_batch] *)
Definition checkpoint_after_batch (now_ms : Z) (tenant_id : string) (writes : Z) : M B TK () :=
  t <- m_store ;;
  let interval := ts_wal_checkpoint_interval t in
  if (interval =? 0) || (writes =? 0) then m_ret ()
  else
    let count := as_u32 (ts_writes_since_checkpoint t + writes) in
    m_set_store (set_writes (count mod interval)) ;;;
    let checkpoints := count / interval in
    if checkpoints =? 0 then m_ret ()
    else
      finalize_active_segment ;;;
      m_times (Z.to_nat checkpoints) (append_wal_checkpoint tenant_id now_ms).

(** [mark_index_failed_many] *)
Definition mark_index_failed_many (t : TenantId) (ids : list ChunkId) (error : string)
    (now_ms : Z) : M B TK () :=
  m_for ids (λ c, m_effect (λ w, with_db (mark_index_failed t c error now_ms (w_db w)) w)).

(** The body of the tenant loop of [add_chunks_internal_with_details_and_hook]
    for the rows of one tenant. *)
Definition add_tenant_group (now_ms : Z) (tenant_id : TenantId) (rows : list PendingChunkAdd)
    (lane : IndexLane) : M B TK () :=
  let tenant_id_str := TenantId.as_str tenant_id in
  append_wal_add_batch tenant_id_str
    (map (λ row, (uuid_to_string (pa_chunk_id row), mc_timestamp_created (pa_chunk row),
                  pa_payload row)) rows) "add_batch" ;;;
  metadata_rows <- append_rows now_ms rows [] ;;
  flush_active_segment_payload ;;;
  m_effect (λ w, with_db (insert_many metadata_rows (w_db w)) w) ;;;
  let chunk_ids := map cm_chunk_id metadata_rows in
  m_effect (λ w, with_db (mark_index_pending tenant_id chunk_ids now_ms (w_db w)) w) ;;;
  match lane with
  | LaneIndexed => m_effect (λ w, with_db (mark_indexed tenant_id chunk_ids now_ms (w_db w)) w)
  | LaneFailed error => mark_index_failed_many tenant_id chunk_ids error now_ms
  | LaneQueued => m_ret ()
  end ;;;
  checkpoint_after_batch now_ms tenant_id_str (as_u32 (zlen rows)).

(** [add_chunks_internal_with_details_and_hook] for chunks of one tenant,
    after [split_for_add]: the ids of the stored chunks. *)
Definition add_chunks_internal (now_ms : Z) (preserve_chunk_ids : bool) (chunks : list MemoryChunk)
    (fresh : list ChunkId) (lane : IndexLane) : M B TK (list ChunkId) :=
  ensure_writable "add_chunks_internal" ;;;
  w <- m_world ;;
  pending <- m_lift (prepare_pending_chunks preserve_chunk_ids (w_db w) chunks fresh) ;;
  match pending with
  | [] => m_ret []
  | row :: _ =>
      add_tenant_group now_ms (mc_tenant_id (pa_chunk row)) pending lane ;;;
      m_ret (map pa_chunk_id pending)
  end.

(** [delete_chunk], up to the searchers. *)
Definition delete_chunk (now_ms : Z) (tenant_id : TenantId) (chunk_id : ChunkId) : M B TK bool :=
  ensure_writable "delete_chunk" ;;;
  w <- m_world ;;
  match get tenant_id chunk_id (w_db w) with
  | None => m_ret false
  | Some meta =>
      if bool_decide (cm_status meta = Deleted) then m_ret false
      else
        append_wal_delete (TenantId.as_str tenant_id) (uuid_to_string chunk_id) now_ms "delete" ;;;
        m_delete_row tenant_id chunk_id meta ;;;
        m_ret true
  end.

(** [serde_json::from_slice] of a payload, with the status of the row. *)
Definition decode_chunk (meta : ChunkMetadata) (bytes : list byte) : memd_result MemoryChunk :=
  chunk ← ok_or (json_from_slice bytes) (StorageError "deserialize chunk");
  Ok (set_status (cm_status meta) chunk).

(** [get_chunk], with the on-demand open of a segment that is not loaded. *)
Definition get_chunk (tenant_id : TenantId) (chunk_id : ChunkId) : M B TK (option MemoryChunk) :=
  w <- m_world ;;
  match get tenant_id chunk_id (w_db w) with
  | None => m_ret None
  | Some meta =>
      if bool_decide (cm_status meta = Deleted) then m_ret None
      else
        bytes <- read_payload_fallback chunk_id (cm_segment_id meta) (cm_ordinal meta) ;;
        match bytes with
        | Some bytes =>
            chunk <- m_lift (decode_chunk meta bytes) ;;
            m_ret (Some chunk)
        | None =>
            w <- m_world ;;
            reader <- m_lift (map_err (λ _, StorageError "segment missing from cache")
                        (d ← ok_or (w_segs w !! cm_segment_id meta)
                               (io_err NotFound "segment directory");
                         reader_open (cm_segment_id meta) d)) ;;
            payload <- m_lift (lift_io (reader_read_chunk (cm_ordinal meta) reader)) ;;
            m_set_store (λ t,
              match ts_segments t !! cm_segment_id meta with
              | Some _ => t
              | None => set_segments (<[cm_segment_id meta := reader]> (ts_segments t)) t
              end) ;;;
            match payload with
            | Some bytes =>
                chunk <- m_lift (decode_chunk meta bytes) ;;
                m_ret (Some chunk)
            | None => m_ret None
            end
        end
  end.

(** [get_chunk_for_retrieval]: storage and I/O errors read as absent. *)
Definition get_chunk_for_retrieval (tenant_id : TenantId) (chunk_id : ChunkId)
    : M B TK (option MemoryChunk) :=
  w <- m_world ;;
  match get tenant_id chunk_id (w_db w) with
  | None => m_ret None
  | Some meta =>
      if bool_decide (cm_status meta ∈ [Candidate; Deleted; ErrorStatus]) then m_ret None
      else
        λ s, match get_chunk tenant_id chunk_id s with
             | (Err (StorageError _), s) => (Ok None, s)
             | (Err (IoError _), s) => (Ok None, s)
             | other => other
             end
  end.

End ops.

(* ------------------------------------------------------------------ *)
(** ** Supersession chains *)

(** [detect_supersession_cycle]: the walk along [superseded_by], with a
    visited set; [None] when the fuel runs out. *)
Fixpoint detect_cycle_loop (fuel : nat) (t : TenantId) (db : ChunkTable)
    (visited : gset ChunkId) (current : ChunkId) : option (memd_result ()) :=
  match fuel with
  | O => None
  | S fuel =>
      match m ← get t current db; lc_superseded_by (cm_lifecycle m) with
      | None => Some (Ok ())
      | Some next =>
          if bool_decide (next ∈ visited)
          then Some (Err (ValidationError "supersession cycle detected"))
          else detect_cycle_loop fuel t db ({[next]} ∪ visited) next
      end
  end.

Definition detect_supersession_cycle (t : TenantId) (start : ChunkId) (db : ChunkTable)
    : option (memd_result ()) :=
  detect_cycle_loop (S (S (size db))) t db {[start]} start.

(** The checks of [supersede_chunk_with_lifecycle_and_stored_ids] before the
    new chunk is written (steps 0 to 2a). *)
Definition supersede_preflight (t : TenantId) (old_id : ChunkId) (new_tenant : TenantId)
    (db : ChunkTable) : option (memd_result ()) :=
  if negb (bool_decide (new_tenant = t))
  then Some (Err (ValidationError "supersede_chunk: new_chunk.tenant_id does not match tenant_id"))
  else
    match get t old_id db with
    | None => Some (Err (ValidationError "supersede_chunk: old chunk not found"))
    | Some m =>
        if bool_decide (cm_status m = Deleted)
        then Some (Err (ValidationError "supersede_chunk: old chunk is deleted"))
        else
          match detect_supersession_cycle t old_id db with
          | Some (Ok _) =>
              match lc_superseded_by (cm_lifecycle m) with
              | Some _ => Some (Err (ValidationError "supersede_chunk: old chunk is not current head"))
              | None => Some (Ok ())
              end
          | other => other
          end
    end.
