(* ===== verification/Runs.v ===== *)
(** * Reasoning about store computations

    [runs m s I Q]: from state [s] the computation returns a value, every
    world it passes through satisfies [I], and the value and the final state
    satisfy [Q].  [I] is where crash safety lives. *)

From S2P Require Import Prelude Crates Types Files SegmentFormat Segment Metadata TenantStore.

Open Scope Z_scope.

Section runs.
Context {B TK : Type}.
Implicit Types (s : St B TK) (I : World TK → Prop).

Definition runs {A} (m : M B TK A) s I (Q : A → St B TK → Prop) : Prop :=
  ∃ a s' tr, m s = (Ok a, s') ∧ s_trace s' = s_trace s ++ tr ∧ Forall I tr ∧ Q a s'.

Lemma runs_ret {A} (a : A) s I Q : Q a s → runs (m_ret a) s I Q.
Proof. intros HQ. exists a, s, []. rewrite app_nil_r. by split_and!. Qed.

Lemma runs_bind {A C} (m : M B TK A) (k : A → M B TK C) s I Q :
  runs m s I (λ a s', runs (k a) s' I Q) → runs (m_bind m k) s I Q.
Proof.
  intros (a & s1 & tr1 & E1 & Ht1 & HI1 & (c & s2 & tr2 & E2 & Ht2 & HI2 & HQ)).
  exists c, s2, (tr1 ++ tr2). unfold m_bind. rewrite E1. split_and!; [done| | |done].
  - by rewrite Ht2, Ht1, app_assoc.
  - by apply Forall_app.
Qed.

Lemma runs_assoc {C} (m1 m2 : M B TK ()) (k : M B TK C) s I (Q : C → St B TK → Prop) :
  runs (m_bind m1 (λ _, m2)) s I (λ _ s', runs k s' I Q) →
  runs (m_bind m1 (λ _, m_bind m2 (λ _, k))) s I Q.
Proof.
  intros (u & s1 & tr1 & E1 & Ht1 & HI1 & (v & s2 & tr2 & E2 & Ht2 & HI2 & HQ)).
  exists v, s2, (tr1 ++ tr2). unfold m_bind in *.
  destruct (m1 s) as [[]]; [|done]. rewrite E1. split_and!; [done| | |done].
  - by rewrite Ht2, Ht1, app_assoc.
  - by apply Forall_app.
Qed.

Lemma runs_mono {A} (m : M B TK A) s I (Q Q' : A → St B TK → Prop) :
  runs m s I Q → (∀ a s', Q a s' → Q' a s') → runs m s I Q'.
Proof. intros (a & s' & tr & ? & ? & ? & ?) HQ. exists a, s', tr. split_and!; auto. Qed.

Lemma runs_store s I Q : Q (s_store s) s → runs m_store s I Q.
Proof. intros HQ. exists (s_store s), s, []. rewrite app_nil_r. by split_and!. Qed.

Lemma runs_world s I Q : Q (s_world s) s → runs m_world s I Q.
Proof. intros HQ. exists (s_world s), s, []. rewrite app_nil_r. by split_and!. Qed.

Lemma runs_lift {A} (r : memd_result A) a s I Q : r = Ok a → Q a s → runs (m_lift r) s I Q.
Proof. intros -> HQ. exists a, s, []. rewrite app_nil_r. by split_and!. Qed.

Lemma runs_set_store f s I (Q : () → St B TK → Prop) :
  Q () (mkSt (f (s_store s)) (s_world s) (s_trace s)) → runs (m_set_store f) s I Q.
Proof. intros HQ. exists (), (mkSt (f (s_store s)) (s_world s) (s_trace s)), []. cbn.
  rewrite app_nil_r. by split_and!.
Qed.

Lemma runs_effect f s I (Q : () → St B TK → Prop) :
  I (f (s_world s)) →
  Q () (mkSt (s_store s) (f (s_world s)) (s_trace s ++ [f (s_world s)])) →
  runs (m_effect f) s I Q.
Proof.
  intros HI HQ. eexists _, _, [f (s_world s)]. split; [done|]. split_and!; [done| |done].
  by constructor.
Qed.

(** The worlds of a segment operation differ from the start in one
    directory, which is a prefix of the operation's effects. *)
Lemma runs_segops id ops d s I (Q : () → St B TK → Prop) :
  w_segs (s_world s) !! id = Some d →
  (∀ k, I (set_seg id (apply_segops (take k ops) d) (s_world s))) →
  (∀ tr, Q () (mkSt (s_store s) (set_seg id (apply_segops ops d) (s_world s)) tr)) →
  runs (m_segops id ops) s I Q.
Proof.
  revert d s. induction ops as [|o ops IH]; intros d s Hd HI HQ.
  - apply runs_ret. specialize (HQ (s_trace s)). cbn in HQ. unfold set_seg in HQ.
    rewrite insert_id in HQ by done. by destruct s as [? [] ?].
  - apply runs_bind, runs_effect.
    + unfold seg_dir. rewrite Hd. exact (HI 1%nat).
    + unfold seg_dir. rewrite Hd. cbn [default].
      apply (IH (apply_segop o d)).
      * cbn. by rewrite lookup_insert_eq.
      * intros k. specialize (HI (S k)). cbn in *. unfold set_seg, with_segs in *. cbn in *.
        by rewrite insert_insert_eq.
      * intros tr. specialize (HQ tr). cbn in *. unfold set_seg, with_segs in *. cbn in *.
        by rewrite insert_insert_eq.
Qed.

End runs.
