(* ===== verification/TenantInv.v ===== *)
(** * The recovery invariant

    [rec_state]: what the disk of a tenant must satisfy so that replaying
    the log suffix brings every live chunk back and no deleted one.  [G]
    gives the payload of every chunk ever added, [K] what
    was promised about chunks: that they are there, that they are not, or
    that an operation in flight may decide. *)

From S2P Require Import Prelude Crates Types WalFormat WalReader Files WalWriter.
From S2P Require Import SegmentFormat Segment SegmentFacts Metadata MetadataFacts TenantStore.

Open Scope Z_scope.

(** What a crash and recovery must leave of a chunk: alive with the metadata
    [m] (up to the location of the payload), dead, or one of the two. *)
Inductive Fate : Type :=
| Alive (m : ChunkMetadata)
| Dead
| Maybe (m : ChunkMetadata).

Section inv.
Context `{BOL : ByteOrderLaws} `{CRL : Crc32Laws} `{RBL : RoaringLaws B}.
Context `{BWL : BincodeLaws WalRecord} `{JC : Json MemoryChunk}.
Context `{UUL : UuidLaws ChunkId} `{TT : TaskTables TK} `{UC : Unicode}.

Variable t : TenantId.
Variable G : gmap ChunkId (list byte).
Variable K : gmap ChunkId Fate.

(** A payload of [G] decodes to a live chunk of the tenant and fits the
    index. *)
Definition payload_ok (c : ChunkId) (p : list byte) : Prop :=
  zlen p < 2 ^ 32 ∧
  ∃ chunk, json_from_slice p = Some chunk ∧ mc_chunk_id chunk = c ∧ mc_tenant_id chunk = t ∧
           mc_status chunk ≠ Deleted.

(* ------------------------------------------------------------------ *)
(** ** Records *)

Definition add_of (c : ChunkId) (r : WalRecord) : Prop :=
  record_type r = WalAdd ∧ wr_chunk_id r = uuid_to_string c.
Definition delete_of (c : ChunkId) (r : WalRecord) : Prop :=
  record_type r = WalDelete ∧ wr_chunk_id r = uuid_to_string c.

Definition rec_wf (r : WalRecord) : Prop :=
  wr_tenant_id r = TenantId.as_str t ∧
  match record_type r with
  | WalAdd => ∃ c, wr_chunk_id r = uuid_to_string c ∧ G !! c = Some (wr_payload r)
  | WalDelete => ∃ c, wr_chunk_id r = uuid_to_string c
  | WalTaskArtifact => ∀ k : TK, ∃ k', insert_task_artifact_payload (wr_payload r) k = Ok k'
  | WalCheckpoint => True
  end.

(** Whether [c] is alive after the records, from [b]: the abstract effect of
    a replay. *)
Definition alive_step (c : ChunkId) (b : bool) (r : WalRecord) : bool :=
  if bool_decide (wr_chunk_id r = uuid_to_string c)
  then match record_type r with WalAdd => true | WalDelete => false | _ => b end
  else b.
Definition alive_after (c : ChunkId) (b : bool) (rs : list WalRecord) : bool :=
  foldl (alive_step c) b rs.

Lemma alive_step_add c r b : add_of c r → alive_step c b r = true.
Proof. intros [Ht Hc]. unfold alive_step. by rewrite bool_decide_true, Ht. Qed.

Lemma alive_step_delete c r b : delete_of c r → alive_step c b r = false.
Proof. intros [Ht Hc]. unfold alive_step. by rewrite bool_decide_true, Ht. Qed.

Lemma alive_step_other c r b : ¬ add_of c r → ¬ delete_of c r → alive_step c b r = b.
Proof.
  unfold alive_step, add_of, delete_of. intros Ha Hd. case_bool_decide; [|done].
  destruct (record_type r); naive_solver.
Qed.

(** Once the records mention [c], its fate does not depend on the start. *)
Lemma alive_after_mention c rs b b' :
  (∃ r, r ∈ rs ∧ (add_of c r ∨ delete_of c r)) → alive_after c b rs = alive_after c b' rs.
Proof.
  unfold alive_after. revert b b'. induction rs as [|r rs IH]; intros b b' (r0 & Hin & Hr0).
  { by apply not_elem_of_nil in Hin. }
  cbn. apply elem_of_cons in Hin as [->|Hin]; [|apply IH; eauto].
  destruct Hr0 as [Ha|Hd]; [by rewrite !alive_step_add|by rewrite !alive_step_delete].
Qed.

Lemma alive_after_none c rs b :
  ¬ (∃ r, r ∈ rs ∧ (add_of c r ∨ delete_of c r)) → alive_after c b rs = b.
Proof.
  unfold alive_after. revert b. induction rs as [|r rs IH]; intros b Hno; [done|].
  cbn. rewrite alive_step_other.
  - apply IH. intros (r0 & ? & ?). apply Hno. exists r0. split; [by right|done].
  - intros Ha. apply Hno. exists r. split; [by left|by left].
  - intros Ha. apply Hno. exists r. split; [by left|by right].
Qed.

(** Replaying twice changes nothing. *)
Lemma alive_after_idem c rs b : alive_after c (alive_after c b rs) rs = alive_after c b rs.
Proof.
  destruct (decide (Exists (λ r, wr_chunk_id r = uuid_to_string c ∧
    (record_type r = WalAdd ∨ record_type r = WalDelete)) rs)) as [He|Hn].
  - apply alive_after_mention. apply Exists_exists in He as (r & Hin & Hc & Hr).
    exists r. split; [done|]. unfold add_of, delete_of. naive_solver.
  - apply alive_after_none. intros (r & Hin & Hr). apply Hn, Exists_exists. exists r.
    split; [done|]. unfold add_of, delete_of in Hr. naive_solver.
Qed.

(* ------------------------------------------------------------------ *)
(** ** Rows and payloads *)

Definition live (db : ChunkTable) (c : ChunkId) (r : Row) : Prop :=
  db !! c = Some r ∧ r_tenant r = t ∧ r_status r ≠ Deleted.
Definition liveb (db : ChunkTable) (c : ChunkId) : bool :=
  match get t c db with Some _ => true | None => false end.

Lemma liveb_true db c : liveb db c = true ↔ ∃ r, live db c r.
Proof.
  unfold liveb. destruct (get t c db) as [m|] eqn:E.
  - split; [|done]. intros _. apply get_spec in E as (r & ? & ? & ? & ?). by exists r.
  - split; [done|]. intros (r & Hr & Ht & Hs). exfalso.
    assert (get t c db = Some (r_meta r)); [|congruence]. apply get_spec. eauto.
Qed.

Lemma live_liveb db c r : live db c r → liveb db c = true.
Proof. intros. apply liveb_true. eauto. Qed.

Lemma get_live db c m : get t c db = Some m ↔ ∃ r, live db c r ∧ m = r_meta r.
Proof. rewrite get_spec. unfold live. naive_solver. Qed.

(** A payload readable in a finalized segment. *)
Definition stored_at (segs : gmap Z SegDir) (seg ord : Z) (p : list byte) : Prop :=
  ∃ d ds dead, segs !! seg = Some d ∧ seg_complete d ds ∧ tomb_is (B := B) d dead ∧
    ds !! Z.to_nat ord = Some p ∧ ord ∉ dead.

Definition seg_ok (d : SegDir) : Prop :=
  seg_unloadable d ∨ ∃ ds dead, seg_complete d ds ∧ tomb_is (B := B) d dead.

Definition m_seg (r : Row) : Z := cm_segment_id (r_meta r).
Definition m_ord (r : Row) : Z := cm_ordinal (r_meta r).

(** Metadata without the coordinates of the payload, which recovery may
    change. *)
Definition unplaced (m : ChunkMetadata) : ChunkMetadata := set_meta_location 0 0 m.

(** When the log leaves the chunk alive, its row, or the row a replay makes,
    has the metadata [m]. *)
Definition fate_meta (suffix : list WalRecord) (db : ChunkTable) (c : ChunkId)
    (m : ChunkMetadata) : Prop :=
  (∀ rec, rec ∈ suffix → ¬ delete_of c rec) ∧
  (∀ r, live db c r → unplaced (r_meta r) = m) ∧
  (liveb db c = false → ∀ rec chunk, rec ∈ suffix → add_of c rec →
     json_from_slice (wr_payload rec) = Some chunk →
     unplaced (recovered_metadata chunk 0 0) = m).

Definition fate_ok (suffix : list WalRecord) (db : ChunkTable) (c : ChunkId) (f : Fate) : Prop :=
  match f with
  | Alive m => liveb db c = true ∧ fate_meta suffix db c m
  | Dead => alive_after c (liveb db c) suffix = false
  | Maybe m => alive_after c (liveb db c) suffix = true → fate_meta suffix db c m
  end.

(** The metadata a fate fixes for a new row. *)
Definition fate_row (suffix : list WalRecord) (db : ChunkTable) (c : ChunkId) (f : Fate)
    (m : ChunkMetadata) : Prop :=
  match f with
  | Alive m0 => unplaced m = m0
  | Dead => True
  | Maybe m0 => alive_after c (liveb db c) suffix = true → unplaced m = m0
  end.

Record rec_state (suffix : list WalRecord) (segs : gmap Z SegDir) (db : ChunkTable) : Prop := {
  rs_suffix : Forall rec_wf suffix;
  rs_segs id d : segs !! id = Some d → seg_ok d;
  rs_table : table_wf db;
  rs_owner c r : db !! c = Some r → is_Some (G !! c) → r_tenant r = t;
  rs_live c r : live db c r →
    ∃ p, G !! c = Some p ∧ 0 ≤ m_ord r ∧ is_Some (segs !! m_seg r) ∧
         (stored_at segs (m_seg r) (m_ord r) p ∨ ∃ rec, rec ∈ suffix ∧ add_of c rec);
  rs_right c r p : live db c r → stored_at segs (m_seg r) (m_ord r) p → G !! c = Some p;
  rs_fate c f : K !! c = Some f → fate_ok suffix db c f;
}.

(* ------------------------------------------------------------------ *)
(** ** Segment changes *)

Lemma stored_at_insert_ne segs id d seg ord p :
  seg ≠ id → stored_at segs seg ord p ↔ stored_at (<[id := d]> segs) seg ord p.
Proof. intros Hne. unfold stored_at. by rewrite lookup_insert_ne. Qed.

Lemma unloadable_not_stored segs id d ord p :
  segs !! id = Some d → seg_unloadable d → ¬ stored_at segs id ord p.
Proof.
  intros Hd Hu (d' & ds & dead & Hd' & Hsc & _). rewrite Hd in Hd'. simplify_eq.
  by eapply unloadable_not_complete.
Qed.

(** An unfinished or new directory may change as long as it stays
    loadable-or-unfinished. *)
Lemma rec_state_set_seg suffix segs db id d' :
  rec_state suffix segs db →
  (∀ d, segs !! id = Some d → seg_unloadable d) → seg_ok d' →
  seg_unloadable d' ∨
  (∀ c r p, live db c r → m_seg r = id →
     stored_at (<[id := d']> segs) id (m_ord r) p → G !! c = Some p) →
  rec_state suffix (<[id := d']> segs) db.
Proof.
  intros [Hsuf Hsegs Htab Hown Hlive Hright Hdead] Hu Hok Hrow. constructor; try done.
  - intros i d. destruct (decide (i = id)) as [->|Hne].
    + rewrite lookup_insert_eq. by intros [= <-].
    + rewrite lookup_insert_ne by done. apply Hsegs.
  - intros c r Hl. destruct (Hlive c r Hl) as (p & HG & Ho & Hdir & Hst).
    exists p. split_and!; [done|done| |].
    + destruct (decide (m_seg r = id)) as [->|Hne]; [rewrite lookup_insert_eq; eauto|].
      by rewrite lookup_insert_ne.
    + destruct Hst as [Hst|?]; [|by right].
      destruct (decide (m_seg r = id)) as [E|Hne].
      * destruct Hdir as [d Hd]. rewrite E in Hst, Hd. exfalso.
        by eapply unloadable_not_stored; [exact Hd|apply (Hu d Hd)|].
      * left. by apply stored_at_insert_ne.
  - intros c r p Hl Hst. destruct (decide (m_seg r = id)) as [E|Hne].
    + rewrite E in Hst. destruct Hrow as [Hun|Hrow]; [|by eapply Hrow].
      exfalso. eapply unloadable_not_stored; [apply lookup_insert_eq|exact Hun|exact Hst].
    + eapply Hright; [done|]. by apply stored_at_insert_ne in Hst.
Qed.

(** A tombstone removes one ordinal from what a segment stores. *)
Lemma stored_at_tombstone segs id d d' o ds dead seg ord p :
  segs !! id = Some d → seg_complete d ds → tomb_is (B := B) d dead →
  seg_complete d' ds → tomb_is (B := B) d' (o :: dead) →
  stored_at (<[id := d']> segs) seg ord p ↔ stored_at segs seg ord p ∧ (seg ≠ id ∨ ord ≠ o).
Proof.
  intros Hd Hsc Htb Hsc' Htb'. destruct (decide (seg = id)) as [->|Hne].
  - split.
    + intros (d2 & ds2 & dead2 & Hd2 & Hsc2 & (tb2 & E2 & Hi2) & Hp & Hnd).
      rewrite lookup_insert_eq in Hd2. injection Hd2 as <-.
      rewrite (seg_complete_inj _ _ _ Hsc2 Hsc') in Hp.
      destruct Htb' as (tb' & E' & Hi'). rewrite E' in E2. injection E2 as ->.
      assert (Hnd' : ord ∉ o :: dead) by (by rewrite <-Hi', Hi2).
      apply not_elem_of_cons in Hnd' as [? ?]. split; [|by right].
      exists d, ds, dead. by split_and!.
    + intros [(d2 & ds2 & dead2 & Hd2 & Hsc2 & (tb2 & E2 & Hi2) & Hp & Hnd) [?|Hno]]; [done|].
      rewrite Hd in Hd2. injection Hd2 as <-.
      rewrite (seg_complete_inj _ _ _ Hsc2 Hsc) in Hp.
      destruct Htb as (tb & E & Hi). rewrite E in E2. injection E2 as ->.
      exists d', ds, (o :: dead). rewrite lookup_insert_eq. split_and!; try done.
      apply not_elem_of_cons. split; [done|]. by rewrite <-Hi, Hi2.
  - rewrite <-stored_at_insert_ne by done. naive_solver.
Qed.

(** A tombstone at a location no live row has. *)
Lemma rec_state_tombstone suffix segs db id d d' o ds dead :
  rec_state suffix segs db → segs !! id = Some d →
  seg_complete d ds → tomb_is (B := B) d dead →
  seg_complete d' ds → tomb_is (B := B) d' (o :: dead) →
  (∀ c r, live db c r → m_seg r = id → m_ord r ≠ o) →
  rec_state suffix (<[id := d']> segs) db.
Proof.
  intros [Hsuf Hsegs Htab Hown Hlive Hright Hdead] Hd Hsc Htb Hsc' Htb' Hno.
  pose proof (λ seg ord p, stored_at_tombstone segs id d d' o ds dead seg ord p Hd Hsc Htb Hsc' Htb')
    as Hst. constructor; try done.
  - intros i di. destruct (decide (i = id)) as [->|Hne].
    + rewrite lookup_insert_eq. intros [= <-]. right. eauto.
    + rewrite lookup_insert_ne by done. apply Hsegs.
  - intros c r Hl. destruct (Hlive c r Hl) as (p & HG & Ho & Hdir & Hs).
    exists p. split_and!; [done|done| |].
    + destruct (decide (m_seg r = id)) as [->|Hne]; [rewrite lookup_insert_eq; eauto|].
      by rewrite lookup_insert_ne.
    + destruct Hs as [Hs|?]; [left|by right]. apply Hst. split; [done|].
      destruct (decide (m_seg r = id)) as [E|]; [right; by apply (Hno c r)|by left].
  - intros c r p Hl [Hs _]%Hst. eauto.
Qed.

(* ------------------------------------------------------------------ *)
(** ** Table changes *)

Lemma liveb_ext db db' c : (∀ r, live db c r ↔ live db' c r) → liveb db c = liveb db' c.
Proof.
  intros Hext. apply eq_true_iff_eq. rewrite !liveb_true. by setoid_rewrite Hext.
Qed.

(** Who is live after a row is inserted at a location no other live row
    has: the new row, and everybody who was. *)
Lemma live_insert_row m db k r :
  cm_tenant_id m = t → cm_status m ≠ Deleted →
  (∀ c r, live db c r → c ≠ cm_chunk_id m → location (r_meta r) ≠ location m) →
  live (insert_row m db) k r ↔
  (k = cm_chunk_id m ∧ r = mkRow m index_cols_default) ∨ (k ≠ cm_chunk_id m ∧ live db k r).
Proof.
  intros Ht Hs Hloc. unfold live. rewrite insert_row_lookup. case_decide as Hk.
  - subst k. split.
    + intros ([= <-] & _ & _). by left.
    + intros [[_ ->]|[? _]]; [|done]. done.
  - split.
    + intros (Hr & Hrt & Hrs). right. split; [done|].
      destruct (db !! k) as [r'|]; cbn [mbind option_bind] in Hr; [|done].
      case_decide; by simplify_eq.
    + intros [[? _]|(_ & Hr & Hrt & Hrs)]; [done|]. rewrite Hr. cbn [mbind option_bind].
      rewrite decide_False; [done|]. by eapply Hloc.
Qed.

(** ** Fates under changes of the table *)

Lemma fate_ok_ext suffix db db' c f :
  (∀ r, live db c r ↔ live db' c r) → fate_ok suffix db c f → fate_ok suffix db' c f.
Proof.
  intros Hext. pose proof (liveb_ext db db' c Hext) as E.
  assert (Hm : ∀ m, fate_meta suffix db c m → fate_meta suffix db' c m).
  { intros m (Hno & Hr & Hn). split_and!; [done| |by rewrite <-E]. intros r Hl. by apply Hr, Hext. }
  destruct f as [m| |m]; cbn [fate_ok]; rewrite <-E; naive_solver.
Qed.

(** The row of the chunk itself is (re)written. *)
Lemma fate_ok_insert_same suffix db db' c f m :
  fate_row suffix db c f m → fate_ok suffix db c f →
  (∃ rec, rec ∈ suffix ∧ add_of c rec) →
  (∀ r, live db' c r → r_meta r = m) → liveb db' c = true → fate_ok suffix db' c f.
Proof.
  intros Hrow Hf (rec & Hin & Hadd) Hl Hlb.
  assert (Hmen : alive_after c (liveb db' c) suffix = alive_after c (liveb db c) suffix).
  { apply alive_after_mention. eauto. }
  assert (Hmeta : ∀ m0, (∀ x, x ∈ suffix → ¬ delete_of c x) → unplaced m = m0 → fate_meta suffix db' c m0).
  { intros m0 Hno Hu. split_and!; [done| |congruence]. intros r Hr. by rewrite (Hl r Hr). }
  destruct f as [m0| |m0]; cbn [fate_ok fate_row] in *; rewrite ?Hmen.
  - destruct Hf as (_ & Hno & _). split; [done|auto].
  - done.
  - intros Ha. destruct (Hf Ha) as (Hno & _). auto.
Qed.

(** The row of a chunk the log deletes is marked deleted. *)
Lemma fate_ok_deleted suffix db db' c f :
  (∃ rec, rec ∈ suffix ∧ delete_of c rec) → fate_ok suffix db c f → fate_ok suffix db' c f.
Proof.
  intros (rec & Hin & Hdel).
  assert (Hmen : alive_after c (liveb db' c) suffix = alive_after c (liveb db c) suffix).
  { apply alive_after_mention. eauto. }
  destruct f as [m| |m]; cbn [fate_ok]; rewrite ?Hmen.
  - intros (_ & Hno & _). exfalso. by eapply Hno.
  - done.
  - intros Hf Ha. destruct (Hf Ha) as (Hno & _). exfalso. by eapply Hno.
Qed.

Lemma rec_state_insert suffix segs db m p :
  rec_state suffix segs db →
  cm_tenant_id m = t → cm_status m ≠ Deleted → G !! cm_chunk_id m = Some p →
  0 ≤ cm_ordinal m → is_Some (segs !! cm_segment_id m) →
  (∃ rec, rec ∈ suffix ∧ add_of (cm_chunk_id m) rec) →
  (∀ c r, live db c r → c ≠ cm_chunk_id m → location (r_meta r) ≠ location m) →
  (∀ p', stored_at segs (cm_segment_id m) (cm_ordinal m) p' → p' = p) →
  (∀ f, K !! cm_chunk_id m = Some f → fate_row suffix db (cm_chunk_id m) f m) →
  rec_state suffix segs (insert_row m db).
Proof.
  intros [Hsuf Hsegs Htab Hown Hlive Hright Hdead] Ht Hs HG Ho Hdir Hadd Hloc Hnst Hun.
  pose proof (λ k r, live_insert_row m db k r Ht Hs Hloc) as Hli. constructor; try done.
  - by apply insert_row_wf.
  - intros c r. rewrite insert_row_lookup. case_decide as Hc; [by intros [= <-]|].
    destruct (db !! c) as [r'|] eqn:E; cbn [mbind option_bind]; [|done].
    case_decide; [done|]. intros [= <-]. eauto.
  - intros c r [[-> ->]|[Hne Hl]]%Hli; [|eauto]. exists p. split_and!; [done|done|done|by right].
  - intros c r p' [[-> ->]|[Hne Hl]]%Hli Hst; [|eauto].
    by rewrite (Hnst _ Hst).
  - intros c f Hc. destruct (decide (c = cm_chunk_id m)) as [->|Hne].
    + apply (fate_ok_insert_same suffix db _ _ f m); auto.
      * intros r Hr. apply Hli in Hr as [[_ ->]|[? _]]; [done|done].
      * apply liveb_true. eexists. apply Hli. by left.
    + eapply fate_ok_ext; [|by apply Hdead]. intros r. rewrite Hli. naive_solver.
Qed.

(** Who is live after a soft delete. *)
Lemma live_mark_deleted db c k r :
  live (mark_deleted t c db).2 k r ↔ k ≠ c ∧ live db k r.
Proof.
  unfold mark_deleted. rewrite (surjective_pairing (update_where _ _ _ _ _)). cbn [snd].
  unfold live. rewrite update_where_lookup. destruct (db !! k) as [r0|]; cbn; [|naive_solver].
  destruct (decide (k = c)) as [->|Hne].
  - rewrite bool_decide_true by done. cbn. unfold matches, status_in.
    split; [|naive_solver]. intros (Hr & Hrt & Hrs). exfalso.
    destruct (bool_decide (r_tenant r0 = t) && _) eqn:E; simplify_eq.
    rewrite bool_decide_true in E by done. cbn in E.
    apply negb_false_iff, bool_decide_eq_true, list_elem_of_singleton in E. done.
  - rewrite bool_decide_false by done. cbn. naive_solver.
Qed.

Lemma rec_state_mark_deleted suffix segs db c :
  rec_state suffix segs db → (∃ rec, rec ∈ suffix ∧ delete_of c rec) →
  rec_state suffix segs (mark_deleted t c db).2.
Proof.
  intros [Hsuf Hsegs Htab Hown Hlive Hright Hdead] (rec & Hin & Hdel). constructor; try done.
  - unfold mark_deleted. rewrite (surjective_pairing (update_where _ _ _ _ _)). by apply update_where_wf.
  - intros k r. unfold mark_deleted. rewrite (surjective_pairing (update_where _ _ _ _ _)). cbn [snd].
    rewrite update_where_lookup. intros (r0 & Hr0 & ->)%fmap_Some HG.
    specialize (Hown _ _ Hr0 HG). by destruct (_ && _).
  - intros k r [Hne Hl]%live_mark_deleted. eauto.
  - intros k r p [Hne Hl]%live_mark_deleted. eauto.
  - intros k f Hk. destruct (decide (k = c)) as [->|Hne].
    + eapply fate_ok_deleted; [by eauto|by apply Hdead].
    + eapply fate_ok_ext; [|by apply Hdead]. intros r. rewrite live_mark_deleted. naive_solver.
Qed.

(* ------------------------------------------------------------------ *)
(** ** Crashes *)

Definition crash_segs (segs segs' : gmap Z SegDir) : Prop :=
  ∀ id, match segs !! id, segs' !! id with
        | Some d, Some d' => crash_segdir d d'
        | None, None => True
        | _, _ => False
        end.

(** A process crash, or a power loss that keeps the commits of the metadata
    database: files lose what was not synced, transactions are atomic. *)
Definition crash_world (w w' : World TK) : Prop :=
  crash_file_opt (w_wal w) (w_wal w') ∧ crash_segs (w_segs w) (w_segs w') ∧
  w_db w' = w_db w ∧ w_tasks w' = w_tasks w.

Lemma crash_seg_ok d d' : seg_ok d → crash_segdir d d' → seg_ok d'.
Proof.
  intros [Hu|(ds & dead & Hsc & Htb)] Hc; [left; by eapply crash_unloadable|].
  right. destruct (crash_complete d d' ds Hsc Hc) as [Hsc' Ht']. exists ds, dead.
  split; [done|]. unfold tomb_is in *. by rewrite Ht'.
Qed.

Lemma crash_stored_at segs segs' seg ord p :
  crash_segs segs segs' → stored_at segs seg ord p → stored_at segs' seg ord p.
Proof.
  intros Hc (d & ds & dead & Hd & Hsc & Htb & Hp & Hnd). specialize (Hc seg).
  rewrite Hd in Hc. destruct (segs' !! seg) as [d'|] eqn:E; [|done].
  destruct (crash_complete d d' ds Hsc Hc) as [Hsc' Ht']. exists d', ds, dead.
  split_and!; [done|done| |done|done]. unfold tomb_is in *. by rewrite Ht'.
Qed.

Lemma crash_rec_state suffix segs segs' db :
  rec_state suffix segs db → crash_segs segs segs' → rec_state suffix segs' db.
Proof.
  intros [Hsuf Hsegs Htab Hown Hlive Hright Hdead] Hc. constructor; try done.
  - intros id d' Hd'. pose proof (Hc id) as Hi. rewrite Hd' in Hi.
    destruct (segs !! id) as [d|] eqn:E; [|done]. by eapply crash_seg_ok; [apply (Hsegs id)|].
  - intros c r Hl. destruct (Hlive c r Hl) as (p & HG & Ho & [d Hdir] & Hst).
    exists p. split_and!; [done|done| |].
    + pose proof (Hc (m_seg r)) as Hi. rewrite Hdir in Hi. destruct (segs' !! m_seg r); [eauto|done].
    + destruct Hst as [Hst|?]; [left; by eapply crash_stored_at|by right].
  - intros c r p Hl Hst. eapply Hright; [done|].
    destruct Hst as (d' & ds' & dead' & Hd' & Hsc' & Htb' & Hp & Hnd).
    pose proof (Hc (m_seg r)) as Hi. rewrite Hd' in Hi.
    destruct (segs !! m_seg r) as [d|] eqn:E; [|done].
    destruct (Hsegs _ _ E) as [Hu|(ds & dead & Hsc & Htb)].
    + pose proof (crash_unloadable _ _ Hu Hi) as Hu'. by eapply unloadable_not_complete in Hu'.
    + destruct (crash_complete d d' ds Hsc Hi) as [Hsc2 Ht2]. exists d, ds', dead'.
      split_and!; [done| |by unfold tomb_is in *; rewrite <-Ht2|done|done].
      destruct Hsc as [Hp1 Hi1 Hf1 Hm1], Hsc2 as [Hp2 Hi2 Hf2 Hm2], Hsc' as [Hp3 Hi3 Hf3 Hm3].
      constructor; congruence.
Qed.

(** A disk from which the store can be opened. *)
Definition recoverable (w : World TK) : Prop :=
  ∃ rs tail,
    match w_wal w with
    | None => rs = [] ∧ tail = []
    | Some f => f = file_of (wal_bytes rs ++ tail)
    end ∧ wal_junk tail ∧ Forall wal_fits rs ∧
    rec_state (after_checkpoint rs) (w_segs w) (w_db w).

(** Whatever a crash leaves of this world is recoverable. *)
Definition crash_ok (w : World TK) : Prop := ∀ w', crash_world w w' → recoverable w'.

Lemma crash_ok_synced w rs tail :
  w_wal w = Some (file_of (wal_bytes rs ++ tail)) → wal_junk tail → Forall wal_fits rs →
  rec_state (after_checkpoint rs) (w_segs w) (w_db w) → crash_ok w.
Proof.
  intros Hf Hj Hfit Hrec w' (Hwal & Hsegs & Hdb & _). rewrite Hf in Hwal.
  exists rs, tail. destruct (w_wal w') as [f'|]; [|done]. destruct Hwal as (c & Hc & ->).
  apply crash_content_file_of in Hc as ->. split_and!; [done..|]. rewrite Hdb.
  by eapply crash_rec_state.
Qed.

Lemma crash_ok_appending w rs rs' :
  w_wal w = Some (mkFile (wal_bytes rs ++ wal_bytes rs') (wal_bytes rs)) →
  Forall wal_fits rs → Forall wal_fits rs' →
  (∀ n, rec_state (after_checkpoint (rs ++ take n rs')) (w_segs w) (w_db w)) → crash_ok w.
Proof.
  intros Hf Hfit Hfit' Hrec w' (Hwal & Hsegs & Hdb & _). rewrite Hf in Hwal.
  destruct (w_wal w') as [f'|] eqn:Ef; [|done]. destruct Hwal as (c & Hc & ->).
  apply crash_content_append in Hc as [k ->].
  destruct (wal_bytes_prefix rs' k Hfit') as (n & tail & Hn & Hj & _).
  rewrite Hn in Ef. exists (rs ++ take n rs'), tail. rewrite Ef. split_and!.
  - by rewrite wal_bytes_app, app_assoc.
  - done.
  - apply Forall_app. split; [done|by apply Forall_take].
  - rewrite Hdb. by eapply crash_rec_state.
Qed.

Lemma crash_ok_truncating w rs tail :
  w_wal w = Some (file_set_len0 (file_of (wal_bytes rs ++ tail))) →
  wal_junk tail → Forall wal_fits rs →
  rec_state (after_checkpoint rs) (w_segs w) (w_db w) →
  rec_state [] (w_segs w) (w_db w) → crash_ok w.
Proof.
  intros Hf Hj Hfit Hrec Hrec0 w' (Hwal & Hsegs & Hdb & _). rewrite Hf in Hwal.
  destruct (w_wal w') as [f'|] eqn:Ef; [|done]. destruct Hwal as (c & Hc & ->).
  unfold recoverable. rewrite Ef, Hdb.
  assert (Hcase : c = wal_bytes rs ++ tail ∨ c = []).
  { destruct Hc as [->|[->|[_ Hp]]]; [by left|by right|]. right. cbn in Hp. by apply prefix_nil_inv in Hp. }
  destruct Hcase as [->| ->].
  - exists rs, tail. split_and!; [done..|]. by eapply crash_rec_state.
  - exists [], []. split_and!; [done|apply wal_junk_nil|done|]. by eapply crash_rec_state.
Qed.

(* ------------------------------------------------------------------ *)
(** ** Growing the log and the ghost state *)

(** Records about other chunks change no fate. *)
Lemma fate_ok_other suffix extra db c f :
  ¬ (∃ rec, rec ∈ extra ∧ (add_of c rec ∨ delete_of c rec)) →
  fate_ok suffix db c f → fate_ok (suffix ++ extra) db c f.
Proof.
  intros Hno.
  assert (Ha : alive_after c (liveb db c) (suffix ++ extra) = alive_after c (liveb db c) suffix).
  { unfold alive_after. rewrite foldl_app. by apply alive_after_none. }
  assert (Hm : ∀ m, fate_meta suffix db c m → fate_meta (suffix ++ extra) db c m).
  { intros m (Hnd & Hr & Hn). split_and!; [|done|].
    - intros rec [Hin|Hin]%elem_of_app; [by apply Hnd|]. intros Hd. apply Hno. eauto.
    - intros Hz rec chunk [Hin|Hin]%elem_of_app Hadd Hj; [by eapply Hn|]. exfalso. apply Hno. eauto. }
  destruct f as [m| |m]; cbn [fate_ok]; rewrite ?Ha; naive_solver.
Qed.

(** A deletion of the chunk decides an open fate. *)
Lemma fate_ok_delete suffix db c m rec :
  delete_of c rec → fate_ok (suffix ++ [rec]) db c (Maybe m).
Proof.
  intros Hd. cbn [fate_ok]. unfold alive_after. rewrite foldl_app. cbn.
  by rewrite alive_step_delete.
Qed.

(** New records extend the suffix, as long as they contradict no fate. *)
Lemma rec_state_suffix_app suffix extra segs db :
  rec_state suffix segs db → Forall rec_wf extra →
  (∀ c f, K !! c = Some f → fate_ok suffix db c f → fate_ok (suffix ++ extra) db c f) →
  rec_state (suffix ++ extra) segs db.
Proof.
  intros [Hsuf Hsegs Htab Hown Hlive Hright Hdead] Hwf Hno. constructor; try done.
  - by apply Forall_app.
  - intros c r Hl. destruct (Hlive c r Hl) as (p & HG & Ho & Hdir & [Hs|(rec & Hin & Ha)]);
      exists p; split_and!; try done; [by left|right].
    exists rec. split; [apply elem_of_app; by left|done].
  - intros c f Hc. apply Hno; auto.
Qed.

(** Rows that differ in their index columns only. *)
Lemma rec_state_index suffix segs db db' :
  (∀ c, r_meta <$> db' !! c = r_meta <$> db !! c) →
  rec_state suffix segs db → rec_state suffix segs db'.
Proof.
  intros Hm [Hsuf Hsegs Htab Hown Hlive Hright Hdead].
  assert (Hrow : ∀ c r', db' !! c = Some r' → ∃ r, db !! c = Some r ∧ r_meta r' = r_meta r).
  { intros c r' Hr'. specialize (Hm c). rewrite Hr' in Hm. cbn in Hm.
    destruct (db !! c) as [r|]; [|done]. exists r. split; [done|by injection Hm]. }
  assert (Hrow' : ∀ c r, db !! c = Some r → ∃ r', db' !! c = Some r' ∧ r_meta r' = r_meta r).
  { intros c r Hr. specialize (Hm c). rewrite Hr in Hm. cbn in Hm.
    destruct (db' !! c) as [r'|]; [|done]. exists r'. split; [done|by injection Hm]. }
  assert (Hl : ∀ c r', live db' c r' → ∃ r, live db c r ∧ r_meta r' = r_meta r).
  { intros c r' (Hr' & Ht & Hs). destruct (Hrow c r' Hr') as (r & Hr & E). exists r.
    unfold live, r_tenant, r_status in *. rewrite <-E. done. }
  constructor; try done.
  - destruct Htab as [Hk Hloc]. split.
    + intros c r' Hr'. destruct (Hrow c r' Hr') as (r & Hr & ->). eauto.
    + intros c1 c2 r1' r2' H1' H2'. destruct (Hrow _ _ H1') as (r1 & Hr1 & ->).
      destruct (Hrow _ _ H2') as (r2 & Hr2 & ->). eauto.
  - intros c r' Hr' HG. destruct (Hrow c r' Hr') as (r & Hr & E). unfold r_tenant. rewrite E.
    by eapply Hown.
  - intros c r' Hr'. destruct (Hl c r' Hr') as (r & Hr & E). unfold m_seg, m_ord. rewrite E.
    by apply Hlive.
  - intros c r' p Hr'. destruct (Hl c r' Hr') as (r & Hr & E). unfold m_seg, m_ord. rewrite E.
    by apply Hright.
  - assert (Hl' : ∀ c r, live db c r → ∃ r', live db' c r' ∧ r_meta r' = r_meta r).
    { intros c r (Hr & Ht & Hs). destruct (Hrow' c r Hr) as (r' & Hr' & E). exists r'.
      unfold live, r_tenant, r_status in *. rewrite E. done. }
    assert (Elb : ∀ c, liveb db' c = liveb db c).
    { intros c. apply eq_true_iff_eq. rewrite !liveb_true. split.
      - intros (r' & Hr'). destruct (Hl c r' Hr') as (r & ? & _). eauto.
      - intros (r & Hr). destruct (Hl' c r Hr) as (r' & ? & _). eauto. }
    assert (Hfm : ∀ c m, fate_meta suffix db c m → fate_meta suffix db' c m).
    { intros c m (Hnd & Hr & Hn). split_and!; [done| |by rewrite Elb].
      intros r' Hr'. destruct (Hl c r' Hr') as (r & Hlr & ->). by apply Hr. }
    intros c f Hc. pose proof (Hdead c f Hc) as Hf.
    destruct f as [m| |m]; cbn [fate_ok] in *; rewrite ?Elb; naive_solver.
Qed.

End inv.

(** More payloads and fewer obligations: [G] grows by chunks without a row,
    [K] by what the log makes true. *)
Lemma rec_state_grow `{BOL : ByteOrderLaws} `{CRL : Crc32Laws} `{RBL : RoaringLaws B}
    `{JC : Json MemoryChunk} `{UUL : UuidLaws ChunkId} `{TT : TaskTables TK} `{UC : Unicode}
    t G G' K K' suffix segs db :
  rec_state (B := B) (TK := TK) t G K suffix segs db →
  G ⊆ G' → (∀ c, is_Some (G' !! c) → G !! c = None → db !! c = None) →
  (∀ c f, K' !! c = Some f → K !! c = Some f ∨ fate_ok t suffix db c f) →
  rec_state (B := B) (TK := TK) t G' K' suffix segs db.
Proof.
  intros [Hsuf Hsegs Htab Hown Hlive Hright Hdead] Hsub Hnew HD. constructor; try done.
  - eapply Forall_impl; [exact Hsuf|]. intros r [Ht Hr]. split; [done|].
    destruct (record_type r); try done. destruct Hr as (c & Hc & HG). exists c.
    split; [done|]. by eapply lookup_weaken.
  - intros c r Hr HG'. destruct (G !! c) as [p|] eqn:E; [by eapply Hown; eauto|].
    rewrite (Hnew c HG' E) in Hr. done.
  - intros c r Hl. destruct (Hlive c r Hl) as (p & HG & ?). exists p.
    split; [by eapply lookup_weaken|done].
  - intros c r p Hl Hs. eapply lookup_weaken; [by eapply Hright|done].
  - intros c b Hc. destruct (HD c b Hc) as [?|?]; [auto|done].
Qed.
