(* ===== verification/TenantFacts.v ===== *)
(** * Store operations keep the recovery invariant

    For every operation on segments: it returns, every world it passes
    through is recoverable after a crash, and the payloads that were held
    before are held after. *)

From S2P Require Import Prelude Crates Types WalFormat WalReader Files WalWriter.
From S2P Require Import SegmentFormat Segment SegmentFacts Metadata MetadataFacts TenantStore.
From S2P Require Import Runs TenantInv.

Open Scope Z_scope.

Section facts.
Context `{BOL : ByteOrderLaws} `{CRL : Crc32Laws} `{RBL : RoaringLaws B}.
Context `{BWL : BincodeLaws WalRecord} `{JC : Json MemoryChunk}.
Context `{UUL : UuidLaws ChunkId} `{TT : TaskTables TK}.
Context `{CAP : BufCap} `{BM : Bincode SegmentMeta} `{UC : Unicode}.

Variable t : TenantId.
Variable G : gmap ChunkId (list byte).
Variable K : gmap ChunkId Fate.

Abbreviation stored_at := (stored_at (B := B)).
Abbreviation rec_state := (rec_state (B := B) (TK := TK) t G K).
Abbreviation crash_ok := (crash_ok (B := B) (TK := TK) t G K).

(* ------------------------------------------------------------------ *)
(** ** The in-memory store against the disk *)

(** The active segment holds the payloads [ads]. *)
Definition active_ok (max : Z) (segs : gmap Z SegDir) (a : option ActiveSegment)
    (ads : list (list byte)) : Prop :=
  match a with
  | None => True
  | Some a =>
      ∃ d, segs !! sw_id (as_writer a) = Some d ∧ writer_inv (as_writer a) d ads ∧
           as_chunk_count a = zlen ads ∧ zlen ads ≤ max ∧
           sm_id (sw_meta (as_writer a)) = sw_id (as_writer a)
  end.

Record store_ok (ts : TenantStore B) (segs : gmap Z SegDir) (ads : list (list byte)) : Prop := {
  so_rw : ts_read_only ts = false;
  so_max : 0 < ts_segment_max_chunks ts < 2 ^ 32;
  so_loaded id r : ts_segments ts !! id = Some r →
    ∃ d ds dead, segs !! id = Some d ∧ seg_complete d ds ∧ tomb_is d dead ∧ reader_of r id ds dead;
  so_all id d : segs !! id = Some d → seg_unloadable d ∨ is_Some (ts_segments ts !! id);
  so_active : active_ok (ts_segment_max_chunks ts) segs (ts_active_segment ts) ads;
}.

(** Where a payload can be read: a finalized segment, or the active one. *)
Definition held (ts : TenantStore B) (segs : gmap Z SegDir) (ads : list (list byte))
    (seg ord : Z) (p : list byte) : Prop :=
  stored_at segs seg ord p ∨
  ∃ a, ts_active_segment ts = Some a ∧ sw_id (as_writer a) = seg ∧ ads !! Z.to_nat ord = Some p.

(** The live rows of the active segment point at their payloads. *)
Definition active_rows (ts : TenantStore B) (db : ChunkTable) (ads : list (list byte)) : Prop :=
  ∀ c r a, live t db c r → ts_active_segment ts = Some a → m_seg r = sw_id (as_writer a) →
           ∃ p, G !! c = Some p ∧ ads !! Z.to_nat (m_ord r) = Some p.

(** Parts no segment operation touches. *)
Definition same_rest (s s' : St B TK) : Prop :=
  w_wal (s_world s') = w_wal (s_world s) ∧ w_db (s_world s') = w_db (s_world s) ∧
  w_tasks (s_world s') = w_tasks (s_world s) ∧
  ts_wal (s_store s') = ts_wal (s_store s) ∧
  ts_tenant_id (s_store s') = ts_tenant_id (s_store s) ∧
  ts_segment_max_chunks (s_store s') = ts_segment_max_chunks (s_store s) ∧
  ts_min_finalize_chunks (s_store s') = ts_min_finalize_chunks (s_store s) ∧
  ts_wal_checkpoint_interval (s_store s') = ts_wal_checkpoint_interval (s_store s) ∧
  ts_writes_since_checkpoint (s_store s') = ts_writes_since_checkpoint (s_store s).

Lemma same_rest_refl s : same_rest s s.
Proof. by repeat split. Qed.
Lemma same_rest_trans s1 s2 s3 : same_rest s1 s2 → same_rest s2 s3 → same_rest s1 s3.
Proof. unfold same_rest. intros. destruct_and!. split_and!; congruence. Qed.

(** The log makes [suffix] the records to replay, whatever the segments and
    the table are. *)
Definition log_ok (suffix : list WalRecord) (f : option File) : Prop :=
  ∀ segs db (k : TK), rec_state suffix segs db → crash_ok (mkWorld f segs db k).

(** ** Fresh segment ids *)

Lemma max_id_le l x : x ∈ l → ∃ m, max_id l = Some m ∧ x ≤ m.
Proof.
  induction l as [|y l IH]; intros Hx; [by apply not_elem_of_nil in Hx|].
  cbn. apply elem_of_cons in Hx as [->|Hx].
  - destruct (foldr _ None l); eexists; split; try done; lia.
  - destruct (IH Hx) as (m & Hm & Hle). unfold max_id in Hm. rewrite Hm.
    eexists. split; [done|]. lia.
Qed.

Lemma next_segment_id_fresh (ts : TenantStore B) (w : World TK) :
  w_segs w !! next_segment_id ts w = None ∧ ts_segments ts !! next_segment_id ts w = None.
Proof.
  unfold next_segment_id. set (l := map fst _ ++ map fst _).
  assert (Hno : ∀ i, i ∈ l → i < match max_id l with Some id => id + 1 | None => 1 end).
  { intros i Hi. destruct (max_id_le l i Hi) as (m & -> & ?). lia. }
  set (n := match max_id l with Some id => id + 1 | None => 1 end) in *.
  split; apply eq_None_not_Some; intros [v Hv]; apply elem_of_map_to_list in Hv;
    (assert (n < n); [apply Hno|lia]); unfold l; apply elem_of_app;
    [right|left]; apply list_elem_of_fmap; by exists (n, v).
Qed.

(** ** Payload sizes *)

Lemma payloads_fit_small ds :
  Forall (λ d, zlen d < 2 ^ 32) ds → zlen ds < 2 ^ 32 → payloads_fit ds.
Proof.
  intros Hall Hcnt. split_and!; [done| |done].
  assert (Hb : zlen (concat ds) ≤ zlen ds * (2 ^ 32 - 1)).
  { clear Hcnt. induction Hall as [|d ds Hd Hall IH]; [done|].
    cbn [concat]. rewrite zlen_app, zlen_cons. lia. }
  pose proof (zlen_nonneg ds). nia.
Qed.

(* ------------------------------------------------------------------ *)
(** ** Finalizing *)

(** Turning the writer of an unfinished directory into a loaded segment. *)
Lemma runs_finalize_writer suffix s writer ads d :
  log_ok suffix (w_wal (s_world s)) →
  store_ok (s_store s) (w_segs (s_world s)) [] → ts_active_segment (s_store s) = None →
  rec_state suffix (w_segs (s_world s)) (w_db (s_world s)) →
  w_segs (s_world s) !! sw_id writer = Some d → writer_inv writer d ads →
  sm_id (sw_meta writer) = sw_id writer →
  (∀ c r, live t (w_db (s_world s)) c r → m_seg r = sw_id writer →
     ∃ p, G !! c = Some p ∧ ads !! Z.to_nat (m_ord r) = Some p) →
  runs (m_finalize_writer writer) s crash_ok (λ _ s',
    same_rest s s' ∧ store_ok (s_store s') (w_segs (s_world s')) [] ∧
    ts_active_segment (s_store s') = None ∧
    rec_state suffix (w_segs (s_world s')) (w_db (s_world s')) ∧
    (∀ seg ord p, stored_at (w_segs (s_world s)) seg ord p →
                  stored_at (w_segs (s_world s')) seg ord p) ∧
    (∀ ord p, 0 ≤ ord → ads !! Z.to_nat ord = Some p →
              stored_at (w_segs (s_world s')) (sw_id writer) ord p) ∧
    (∀ id, is_Some (w_segs (s_world s) !! id) → is_Some (w_segs (s_world s') !! id))).
Proof.
  intros Hlog [Hrw Hmax Hld Hall Hact] Hnone Hrec Hd Hw Hid Hrows.
  assert (Hu : ∀ d0, w_segs (s_world s) !! sw_id writer = Some d0 → seg_unloadable d0).
  { intros d0 Hd0. rewrite Hd in Hd0. simplify_eq. by eapply writer_unloadable. }
  assert (Hok : ∀ k, seg_ok (B := B) (apply_segops (take k (finalize writer).2) d)).
  { intros k. destruct (finalize_prefix writer d ads k Hw) as [?|[Hsc Ht]]; [by left; left|].
    right. exists ads, []. split; [done|]. by apply tomb_is_none. }
  assert (Hset : ∀ k, rec_state suffix
    (<[sw_id writer := apply_segops (take k (finalize writer).2) d]> (w_segs (s_world s)))
    (w_db (s_world s))).
  { intros k. apply rec_state_set_seg; [done|done|apply Hok|].
    destruct (finalize_prefix writer d ads k Hw) as [?|[Hsc _]]; [by left; left|right].
    intros c r p Hl Hseg (d2 & ds2 & dead2 & Hd2 & Hsc2 & _ & Hp & _).
    rewrite lookup_insert_eq in Hd2. injection Hd2 as <-.
    destruct (Hrows c r Hl Hseg) as (p' & HG & Hp').
    by rewrite (seg_complete_inj _ _ _ Hsc2 Hsc), Hp' in Hp; simplify_eq. }
  pose proof (Hset (length (finalize writer).2)) as Hset1. rewrite firstn_all in Hset1.
  unfold m_finalize_writer. destruct (finalize writer) as [meta ops] eqn:Ef.
  assert (Emeta : sm_id meta = sw_id writer).
  { rewrite finalize_split in Ef. injection Ef as <- _. exact Hid. }
  cbn [snd] in Hok. apply runs_bind. apply (runs_segops (sw_id writer) ops d); [done| |].
  { intros k. unfold set_seg, with_segs. apply Hlog. apply Hset. }
  intros tr. apply runs_bind. unfold m_reader_open. apply runs_bind, runs_world.
  cbn [s_world]. unfold set_seg, with_segs. cbn [w_segs]. rewrite Emeta, lookup_insert_eq.
  destruct (finalize_complete writer d ads Hw) as [Hsc Ht]. rewrite Ef in Hsc, Ht. cbn [snd] in *.
  set (d' := apply_segops ops d) in *.
  destruct (reader_open_complete (sw_id writer) d' ads [] Hsc (tomb_is_none d' Ht)) as (r & Hr & Hro).
  eapply runs_lift; [by rewrite Hr|]. apply runs_set_store. cbn [s_store s_world].
  assert (Hst : ∀ ord p, 0 ≤ ord → ads !! Z.to_nat ord = Some p →
    stored_at (<[sw_id writer := d']> (w_segs (s_world s))) (sw_id writer) ord p).
  { intros ord p Ho Hp. exists d', ads, []. rewrite lookup_insert_eq.
    split_and!; [done|done|by apply tomb_is_none|done|apply not_elem_of_nil]. }
  split_and!.
  - by repeat split.
  - constructor; cbn; try done.
    + intros id r0. destruct (decide (id = sw_id writer)) as [->|Hne].
      * rewrite !lookup_insert_eq. intros [= <-]. exists d', ads, []. split_and!; try done.
        by apply tomb_is_none.
      * rewrite !lookup_insert_ne by done. apply Hld.
    + intros id d0. destruct (decide (id = sw_id writer)) as [->|Hne].
      * rewrite !lookup_insert_eq. intros _. right. eauto.
      * rewrite !lookup_insert_ne by done. apply Hall.
    + by rewrite Hnone.
  - exact Hnone.
  - exact Hset1.
  - cbn. intros seg ord p Hs. destruct (decide (seg = sw_id writer)) as [->|Hne].
    + exfalso. by eapply unloadable_not_stored; [exact Hd|apply (Hu d Hd)|].
    + by apply stored_at_insert_ne.
  - exact Hst.
  - cbn. intros id Hs. destruct (decide (id = sw_id writer)) as [->|Hne].
    + rewrite lookup_insert_eq. eauto.
    + by rewrite lookup_insert_ne.
Qed.

(* ------------------------------------------------------------------ *)
(** ** What a segment operation keeps *)

Record keeps (suffix : list WalRecord) (s : St B TK) (ads : list (list byte))
    (s' : St B TK) (ads' : list (list byte)) : Prop := {
  k_same : same_rest s s';
  k_store : store_ok (s_store s') (w_segs (s_world s')) ads';
  k_rec : rec_state suffix (w_segs (s_world s')) (w_db (s_world s'));
  k_held seg ord p : 0 ≤ ord →
    held (s_store s) (w_segs (s_world s)) ads seg ord p →
    held (s_store s') (w_segs (s_world s')) ads' seg ord p;
  k_dirs id : is_Some (w_segs (s_world s) !! id) → is_Some (w_segs (s_world s') !! id);
  k_rows : active_rows (s_store s') (w_db (s_world s')) ads';
}.

(** What it needs. *)
Record ready (suffix : list WalRecord) (s : St B TK) (ads : list (list byte)) : Prop := {
  rd_log : log_ok suffix (w_wal (s_world s));
  rd_store : store_ok (s_store s) (w_segs (s_world s)) ads;
  rd_rec : rec_state suffix (w_segs (s_world s)) (w_db (s_world s));
  rd_rows : active_rows (s_store s) (w_db (s_world s)) ads;
}.

Lemma keeps_ready suffix s ads s' ads' :
  ready suffix s ads → keeps suffix s ads s' ads' → ready suffix s' ads'.
Proof.
  intros [Hl _ _ _] [Hs ? ? _ _ ?]. constructor; try done.
  destruct Hs as (-> & _). done.
Qed.

Lemma keeps_trans suffix s1 a1 s2 a2 s3 a3 :
  keeps suffix s1 a1 s2 a2 → keeps suffix s2 a2 s3 a3 → keeps suffix s1 a1 s3 a3.
Proof.
  intros [] []. constructor; eauto. by eapply same_rest_trans.
Qed.

Lemma keeps_refl suffix s ads : ready suffix s ads → keeps suffix s ads s ads.
Proof. intros []. constructor; eauto. apply same_rest_refl. Qed.

(** Dropping the active segment of a store that is about to finalize it. *)
Lemma store_ok_no_active ts segs ads :
  store_ok ts segs ads → store_ok (set_active None ts) segs [].
Proof. intros []. by constructor. Qed.

Lemma runs_finalize_take suffix s ads a :
  ready suffix s ads → ts_active_segment (s_store s) = Some a →
  runs (m_set_store (set_active None) ;;; m_finalize_writer (as_writer a)) s crash_ok (λ _ s',
    keeps suffix s ads s' [] ∧ ts_active_segment (s_store s') = None ∧
    ∀ seg ord p, 0 ≤ ord → held (s_store s) (w_segs (s_world s)) ads seg ord p →
      stored_at (w_segs (s_world s')) seg ord p).
Proof.
  intros [Hlog Hst Hrec Hrows] Ha. pose proof (so_active _ _ _ Hst) as Hact. rewrite Ha in Hact.
  destruct Hact as (d & Hd & Hw & Hcnt & Hle & Hid).
  apply runs_bind, runs_set_store. eapply runs_mono.
  { apply (runs_finalize_writer suffix _ (as_writer a) ads d); cbn; try done.
    - by eapply store_ok_no_active.
    - intros c r Hl Hseg. by eapply Hrows. }
  cbn. intros _ s' (Hsame & Hst' & Hnone & Hrec' & Hk1 & Hk2 & Hdirs).
  assert (Hheld : ∀ seg ord p, 0 ≤ ord → held (s_store s) (w_segs (s_world s)) ads seg ord p →
      stored_at (w_segs (s_world s')) seg ord p).
  { intros seg ord p Ho [Hh|(a' & Ha' & <- & Hp)]; [by apply Hk1|].
    rewrite Ha in Ha'. simplify_eq. by apply Hk2. }
  split_and!; [|done|done]. constructor; try done.
  - intros seg ord p Ho Hh. left. by apply Hheld.
  - intros c r a' _. by rewrite Hnone.
Qed.

(* ------------------------------------------------------------------ *)
(** ** The active segment *)

(** A new directory with its writer. *)
Lemma runs_writer_create suffix (s : St B TK) now id :
  log_ok suffix (w_wal (s_world s)) → rec_state suffix (w_segs (s_world s)) (w_db (s_world s)) →
  w_segs (s_world s) !! id = None →
  runs (m_writer_create now id) s crash_ok (λ writer s', ∃ d,
    s_store s' = s_store s ∧ s_world s' = set_seg id d (s_world s) ∧
    writer_inv writer d [] ∧ sw_id writer = id ∧ sm_id (sw_meta writer) = id).
Proof.
  intros Hlog Hrec Hfresh.
  assert (Hany : ∀ d', seg_unloadable d' → ∀ k,
    crash_ok (mkWorld (w_wal (s_world s)) (<[id := d']> (w_segs (s_world s))) (w_db (s_world s)) k)).
  { intros d' Hok k. apply Hlog. apply rec_state_set_seg; [done|congruence|by left|by left]. }
  unfold m_writer_create. apply runs_bind, runs_effect.
  { unfold set_seg, seg_dir, with_segs. rewrite Hfresh. cbn [default]. apply Hany. by left. }
  unfold set_seg, seg_dir, with_segs. rewrite Hfresh. cbn [default s_world w_segs w_wal w_db w_tasks].
  pose proof (writer_create_inv now id) as Hc. destruct (writer_create now id) as [writer ops] eqn:E.
  destruct Hc as (Hw & Hid & Hmeta). injection E as _ <-.
  apply runs_bind. apply (runs_segops id _ segdir_empty); [cbn; by rewrite lookup_insert_eq| |].
  { intros k. unfold set_seg, with_segs. cbn [s_world w_segs w_wal w_db w_tasks].
    rewrite insert_insert_eq. apply Hany. left. by destruct k as [|[|[]]]. }
  intros tr. apply runs_ret. cbn [s_store s_world].
  unfold set_seg, with_segs. cbn [s_world w_segs w_wal w_db w_tasks]. rewrite insert_insert_eq.
  eexists. split; [done|]. split; [reflexivity|]. split_and!; [exact Hw|exact Hid|]. by rewrite Hmeta.
Qed.

Lemma runs_create suffix s now :
  ready suffix s [] → ts_active_segment (s_store s) = None →
  runs (t <- m_store ;; w <- m_world ;;
        writer <- m_writer_create now (next_segment_id t w) ;;
        m_set_store (set_active (Some (mkActive writer 0)))) s crash_ok (λ _ s',
    keeps suffix s [] s' [] ∧
    ∃ a, ts_active_segment (s_store s') = Some a ∧ as_chunk_count a = 0).
Proof.
  intros [Hlog [Hrw Hmax Hld Hall Hact] Hrec Hrows] Hnone.
  apply runs_bind, runs_store, runs_bind, runs_world.
  destruct (next_segment_id_fresh (s_store s) (s_world s)) as [Hf1 Hf2].
  set (id := next_segment_id (s_store s) (s_world s)) in *.
  apply runs_bind. eapply runs_mono; [by apply (runs_writer_create suffix s now id)|].
  cbn beta. intros writer [st w tr] (d' & Est & Ew & Hw & Hid & Hmeta). cbn in Est, Ew. subst st w.
  apply runs_set_store.
  pose proof (writer_unloadable _ _ _ Hw) as Hu. cbn [s_store s_world]. split.
  - constructor; cbn.
    + by repeat split.
    + constructor; cbn; try done.
      * intros i r Hr. destruct (Hld i r Hr) as (d & ds & dead & Hd & ?).
        exists d, ds, dead. rewrite lookup_insert_ne; [done|]. intros <-. congruence.
      * intros i d. destruct (decide (i = id)) as [->|Hne].
        -- rewrite lookup_insert_eq. intros [= <-]. by left.
        -- rewrite lookup_insert_ne by done. apply Hall.
      * exists d'. rewrite Hid, lookup_insert_eq.
        split_and!; try done. change (zlen (@nil (list byte))) with 0. lia.
    + apply rec_state_set_seg; [done|congruence|by left|by left].
    + intros seg ord p Ho [Hh|(a & Ha & _)]; [left|congruence].
      apply stored_at_insert_ne; [|done]. intros ->. destruct Hh as (d & ? & ? & Hd & _). congruence.
    + intros i Hi. destruct (decide (i = id)) as [->|Hne]; [rewrite lookup_insert_eq; eauto|].
      by rewrite lookup_insert_ne.
    + intros c r a Hl [= <-] Hseg. cbn in Hseg. rewrite Hid in Hseg. exfalso.
      destruct (rs_live _ _ _ _ _ _ Hrec c r Hl) as (p & _ & _ & [d Hd] & _). congruence.
  - eexists. split; [done|]. done.
Qed.

Lemma runs_get_or_create suffix s ads now :
  ready suffix s ads →
  runs (get_or_create_active_segment now (ts_segment_max_chunks (s_store s))) s crash_ok (λ _ s',
    ∃ ads' a, keeps suffix s ads s' ads' ∧ ts_active_segment (s_store s') = Some a ∧
      as_chunk_count a < ts_segment_max_chunks (s_store s')).
Proof.
  intros Hrd. pose proof Hrd as [Hlog Hst Hrec Hrows]. pose proof Hst as [Hrw Hmax Hld Hall Hact].
  unfold get_or_create_active_segment. apply runs_bind, runs_store. rewrite Hrw.
  destruct (ts_active_segment (s_store s)) as [a|] eqn:Ea.
  - destruct (Z.ltb_spec (as_chunk_count a) (ts_segment_max_chunks (s_store s))) as [Hlt|Hge].
    + apply runs_ret. exists ads, a. split_and!; [by apply keeps_refl|done|done].
    + apply runs_assoc. eapply runs_mono; [by apply (runs_finalize_take suffix s ads a)|].
      cbn beta. intros _ s1 (Hk & Hn & _).
      eapply runs_mono; [apply (runs_create suffix s1 now); [by eapply keeps_ready|done]|].
      cbn beta. intros _ s2 (Hk2 & a2 & Ha2 & Hc2). exists [], a2.
      split_and!; [by eapply keeps_trans|done|].
      rewrite Hc2. pose proof (so_max _ _ _ (k_store _ _ _ _ _ Hk2)). lia.
  - assert (Hrd0 : ready suffix s []).
    { constructor; try done.
      - constructor; try done. by rewrite Ea.
      - intros c r a _. by rewrite Ea. }
    eapply runs_mono; [by apply (runs_create suffix s now)|].
    cbn beta. intros _ s2 (Hk2 & a2 & Ha2 & Hc2). exists [], a2.
    split_and!; [|done|].
    + destruct Hk2. constructor; try done. intros seg ord p Ho [Hh|(a & Ha & _)]; [|congruence].
      apply k_held0; [done|by left].
    + rewrite Hc2. pose proof (so_max _ _ _ (k_store _ _ _ _ _ Hk2)). lia.
Qed.

(** Effects that leave the active directory unfinished. *)
Lemma runs_active_segops suffix s ads a d ops (Q : () → St B TK → Prop) :
  ready suffix s ads → ts_active_segment (s_store s) = Some a →
  w_segs (s_world s) !! sw_id (as_writer a) = Some d → writer_inv (as_writer a) d ads →
  Forall (λ o, is_meta_op o = false) ops →
  (∀ tr, Q () (mkSt (s_store s) (set_seg (sw_id (as_writer a)) (apply_segops ops d) (s_world s)) tr)) →
  runs (m_segops (sw_id (as_writer a)) ops) s crash_ok Q.
Proof.
  intros [Hlog _ Hrec _] Ha Hd Hw Hno HQ. apply (runs_segops _ ops d); [done| |done].
  intros k. unfold set_seg, with_segs. apply Hlog.
  assert (Hu : seg_unloadable (apply_segops (take k ops) d)).
  { left. apply apply_no_meta_take; [done|]. apply Hw. }
  apply rec_state_set_seg; [done| |by left|by left].
  intros d0 Hd0. rewrite Hd in Hd0. simplify_eq. by eapply writer_unloadable.
Qed.

(** Replacing the writer and its directory in the state. *)
Lemma keeps_active suffix s ads a d' writer cnt ads' tr :
  ready suffix s ads → ts_active_segment (s_store s) = Some a →
  sw_id writer = sw_id (as_writer a) → sm_id (sw_meta writer) = sw_id writer →
  writer_inv writer d' ads' → cnt = zlen ads' →
  zlen ads' ≤ ts_segment_max_chunks (s_store s) → ads `prefix_of` ads' →
  keeps suffix s ads
    (mkSt (set_active (Some (mkActive writer cnt)) (s_store s))
       (set_seg (sw_id (as_writer a)) d' (s_world s)) tr) ads'.
Proof.
  intros [Hlog Hst Hrec Hrows] Ha Hid Hmeta Hw Hcnt Hle Hpre.
  pose proof Hst as [Hrw Hmax Hld Hall Hact]. rewrite Ha in Hact.
  destruct Hact as (d & Hd & Hw0 & _).
  assert (Hu : ∀ d0, w_segs (s_world s) !! sw_id (as_writer a) = Some d0 → seg_unloadable d0).
  { intros d0 Hd0. rewrite Hd in Hd0. simplify_eq. by eapply writer_unloadable. }
  assert (Hu' : seg_unloadable d') by (by eapply writer_unloadable).
  constructor; cbn.
  - by repeat split.
  - constructor; cbn; try done.
    + intros i r Hr. destruct (Hld i r Hr) as (d0 & ds & dead & Hd0 & Hsc & ?).
      exists d0, ds, dead. rewrite lookup_insert_ne; [done|]. intros <-.
      by eapply unloadable_not_complete, Hsc; apply Hu.
    + intros i d0. destruct (decide (i = sw_id (as_writer a))) as [->|Hne].
      * rewrite lookup_insert_eq. intros [= <-]. by left.
      * rewrite lookup_insert_ne by done. apply Hall.
    + exists d'. rewrite Hid, lookup_insert_eq. split_and!; try done. congruence.
  - apply rec_state_set_seg; [done|done|by left|by left].
  - intros seg ord p Ho [Hh|(a0 & Ha0 & <- & Hp)].
    + left. destruct (decide (seg = sw_id (as_writer a))) as [->|Hne].
      * exfalso. by eapply unloadable_not_stored; [exact Hd|apply (Hu d Hd)|].
      * by apply stored_at_insert_ne.
    + right. rewrite Ha in Ha0. simplify_eq. eexists. split; [done|]. split; [done|].
      by eapply prefix_lookup_Some.
  - intros i Hi. destruct (decide (i = sw_id (as_writer a))) as [->|Hne].
    + rewrite lookup_insert_eq. eauto.
    + by rewrite lookup_insert_ne.
  - intros c r a' Hl [= <-] Hseg. cbn in Hseg. rewrite Hid in Hseg.
    destruct (Hrows c r a Hl Ha Hseg) as (p & HG & Hp). exists p. split; [done|].
    by eapply prefix_lookup_Some.
Qed.

Lemma runs_append_active suffix s ads a err p :
  ready suffix s ads → ts_active_segment (s_store s) = Some a →
  as_chunk_count a < ts_segment_max_chunks (s_store s) → zlen p < 2 ^ 32 →
  runs (m_append_active err p) s crash_ok (λ loc s',
    keeps suffix s ads s' (ads ++ [p]) ∧ loc = (sw_id (as_writer a), zlen ads) ∧
    ∃ a', ts_active_segment (s_store s') = Some a' ∧ sw_id (as_writer a') = sw_id (as_writer a) ∧
      as_chunk_count a' = zlen (ads ++ [p])).
Proof.
  intros Hrd Ha Hlt Hp. pose proof Hrd as [Hlog Hst Hrec Hrows].
  pose proof (so_active _ _ _ Hst) as Hact. rewrite Ha in Hact.
  destruct Hact as (d & Hd & Hw & Hcnt & Hle & Hid).
  unfold m_append_active. apply runs_bind, runs_store. rewrite Ha.
  pose proof (append_chunk_no_meta p (as_writer a)) as Hno.
  pose proof (so_max _ _ _ Hst) as Hmax.
  assert (Hfit : payloads_fit (ads ++ [p])).
  { apply payloads_fit_small.
    - apply Forall_app. split; [apply Hw|by constructor].
    - rewrite zlen_app. change (zlen [p]) with 1. lia. }
  pose proof (append_chunk_inv p (as_writer a) d ads Hw Hfit) as Hinv.
  destruct (append_chunk p (as_writer a)) as [[writer ord] ops].
  destruct Hinv as (Hw' & Ho & Hid' & Hm'). cbn [snd] in Hno.
  apply runs_bind. rewrite Hid'. apply (runs_active_segops suffix s ads a d); try done.
  intros tr. apply runs_bind, runs_set_store, runs_ret. cbn [s_store s_world].
  split_and!.
  - apply keeps_active; try done.
    + by rewrite Hm', Hid', Hid.
    + rewrite zlen_app. change (zlen [p]) with 1. lia.
    + rewrite zlen_app. change (zlen [p]) with 1. lia.
    + by apply prefix_app_r.
  - by rewrite Ho.
  - eexists. split; [done|]. split; [done|]. cbn. rewrite zlen_app. change (zlen [p]) with 1. lia.
Qed.

Lemma runs_flush suffix s ads :
  ready suffix s ads →
  runs flush_active_segment_payload s crash_ok (λ _ s', keeps suffix s ads s' ads ∧
    (ts_active_segment (s_store s) = None → ts_active_segment (s_store s') = None) ∧
    ∀ a, ts_active_segment (s_store s) = Some a →
      ∃ a', ts_active_segment (s_store s') = Some a' ∧
            sw_id (as_writer a') = sw_id (as_writer a) ∧ as_chunk_count a' = as_chunk_count a).
Proof.
  intros Hrd. pose proof Hrd as [Hlog Hst Hrec Hrows].
  unfold flush_active_segment_payload. apply runs_bind, runs_store.
  rewrite (so_rw _ _ _ Hst). pose proof (so_active _ _ _ Hst) as Hact.
  destruct (ts_active_segment (s_store s)) as [a|] eqn:Ha.
  - destruct Hact as (d & Hd & Hw & Hcnt & Hle & Hid).
    pose proof (flush_payload_no_meta (as_writer a)) as Hno.
    pose proof (flush_payload_inv (as_writer a) d ads Hw) as Hinv.
    destruct (flush_payload (as_writer a)) as [writer ops].
    destruct Hinv as (Hw' & Hid' & Hm' & _). cbn [snd] in Hno.
    apply runs_bind. rewrite Hid'. apply (runs_active_segops suffix s ads a d); try done.
    intros tr. apply runs_set_store. cbn [s_store s_world]. split_and!.
    + apply keeps_active; try done. by rewrite Hm', Hid', Hid.
    + done.
    + intros a0 [= <-]. by eexists.
  - apply runs_ret. split_and!; [by apply keeps_refl|done|done].
Qed.

Lemma runs_finalize_active suffix s ads :
  ready suffix s ads →
  runs finalize_active_segment s crash_ok (λ _ s', ∃ ads', keeps suffix s ads s' ads' ∧
    ts_active_segment (s_store s') = None ∧
    ∀ seg ord p, 0 ≤ ord → held (s_store s) (w_segs (s_world s)) ads seg ord p →
      stored_at (w_segs (s_world s')) seg ord p).
Proof.
  intros Hrd. pose proof Hrd as [Hlog Hst Hrec Hrows].
  unfold finalize_active_segment. apply runs_bind, runs_store.
  rewrite (so_rw _ _ _ Hst). destruct (ts_active_segment (s_store s)) as [a|] eqn:Ha.
  - destruct (Z.ltb_spec 0 (as_chunk_count a)) as [Hpos|Hz].
    + eapply runs_mono; [by apply (runs_finalize_take suffix s ads a)|].
      cbn beta. intros _ s' (? & ? & ?). by exists [].
    + apply runs_bind, runs_set_store, runs_ret. exists []. cbn.
      pose proof (so_active _ _ _ Hst) as Hact. rewrite Ha in Hact.
      destruct Hact as (d & Hd & Hw & Hcnt & _).
      assert (ads = []) as ->.
      { destruct ads; [done|]. rewrite zlen_cons in Hcnt. pose proof (zlen_nonneg ads). lia. }
      assert (Hh : ∀ seg ord p, held (s_store s) (w_segs (s_world s)) [] seg ord p →
        stored_at (w_segs (s_world s)) seg ord p).
      { intros seg ord p [?|(? & _ & _ & Hp)]; [done|]. by rewrite lookup_nil in Hp. }
      split_and!; [|done|].
      * constructor; cbn; try done.
        -- by eapply store_ok_no_active.
        -- intros seg ord p _ Hp. left. by apply Hh.
      * intros seg ord p _ Hp. by apply Hh.
  - apply runs_ret. exists ads. split_and!; [by apply keeps_refl|done|].
    intros seg ord p Ho [?|(a & Ha' & _)]; [done|congruence].
Qed.

End facts.
