(* ===== verification/Recovery.v ===== *)
(** * Recovery restores the store

    The replay loop over the log suffix: it returns, every world on the way
    can crash and be recovered again, the live chunks at the end are those
    the log says, and all of them are held. *)

From S2P Require Import Prelude Crates Types WalFormat WalReader Files WalWriter.
From S2P Require Import SegmentFormat Segment SegmentFacts Metadata MetadataFacts TenantStore.
From S2P Require Import Runs TenantInv TenantFacts.

Open Scope Z_scope.

Section recovery.
Context `{BOL : ByteOrderLaws} `{CRL : Crc32Laws} `{RBL : RoaringLaws B}.
Context `{BWL : BincodeLaws WalRecord} `{JC : Json MemoryChunk}.
Context `{UUL : UuidLaws ChunkId} `{TT : TaskTables TK}.
Context `{CAP : BufCap} `{BM : Bincode SegmentMeta} `{UC : Unicode}.

Variable t : TenantId.
Variable G : gmap ChunkId (list byte).
Variable K : gmap ChunkId Fate.
Hypothesis tenant_valid : TenantId.validate (TenantId.as_str t) = Ok ().
Hypothesis payloads_ok : ∀ c p, G !! c = Some p → payload_ok t c p.

Abbreviation stored_at := (stored_at (B := B)).
Abbreviation rec_state := (rec_state (B := B) (TK := TK) t G K).
Abbreviation crash_ok := (crash_ok (B := B) (TK := TK) t G K).
Abbreviation ready := (ready (B := B) (TK := TK) t G K).
Abbreviation keeps := (keeps (B := B) (TK := TK) t G K).
Abbreviation live := (live t).
Abbreviation liveb := (liveb t).

Definition db_of (s : St B TK) : ChunkTable := w_db (s_world s).
Definition held_in (s : St B TK) (ads : list (list byte)) (r : Row) (p : list byte) : Prop :=
  held (s_store s) (w_segs (s_world s)) ads (m_seg r) (m_ord r) p.

(** The loop invariant, with [rest] still to replay; [db0] is the table the
    recovery started from. *)
Record linv (suffix : list WalRecord) (db0 : ChunkTable) (rest : list WalRecord)
    (s : St B TK) (ads : list (list byte)) : Prop := {
  li_ready : ready suffix s ads;
  li_sub rec : rec ∈ rest → rec ∈ suffix;
  li_live c r : live (db_of s) c r →
    ∃ p, G !! c = Some p ∧ (held_in s ads r p ∨ ∃ rec, rec ∈ rest ∧ add_of c rec);
  li_target c : alive_after c (liveb (db_of s) c) rest = alive_after c (liveb db0 c) suffix;
  li_meta c r0 : live db0 c r0 → (∀ rec, rec ∈ suffix → ¬ delete_of c rec) →
    ∃ r seg ord, live (db_of s) c r ∧ r_meta r = set_meta_location seg ord (r_meta r0);
}.

(** The log and the configuration are untouched. *)
Definition same_log (s s' : St B TK) : Prop :=
  w_wal (s_world s') = w_wal (s_world s) ∧ ts_wal (s_store s') = ts_wal (s_store s) ∧
  ts_tenant_id (s_store s') = ts_tenant_id (s_store s) ∧
  ts_segment_max_chunks (s_store s') = ts_segment_max_chunks (s_store s) ∧
  ts_min_finalize_chunks (s_store s') = ts_min_finalize_chunks (s_store s) ∧
  ts_wal_checkpoint_interval (s_store s') = ts_wal_checkpoint_interval (s_store s) ∧
  ts_writes_since_checkpoint (s_store s') = ts_writes_since_checkpoint (s_store s).

Lemma same_rest_log s s' : same_rest s s' → same_log s s'.
Proof. unfold same_rest, same_log. intros. destruct_and!. by split_and!. Qed.
Lemma same_log_refl s : same_log s s.
Proof. by repeat split. Qed.
Lemma same_log_trans s1 s2 s3 : same_log s1 s2 → same_log s2 s3 → same_log s1 s3.
Proof. unfold same_log. intros. destruct_and!. split_and!; congruence. Qed.

(** The parsing of a well-formed record. *)
Lemma wal_tenant_wf r : rec_wf t G (TK := TK) r → wal_tenant r = Ok t.
Proof.
  intros [Ht _]. unfold wal_tenant, TenantId.new. rewrite Ht, tenant_valid. cbn. by destruct t.
Qed.

Lemma wal_chunk_wf r c : wr_chunk_id r = uuid_to_string c → wal_chunk r = Ok c.
Proof. intros Hc. unfold wal_chunk, chunk_id_parse. by rewrite Hc, uuid_roundtrip. Qed.

Lemma add_of_unique c c' r : add_of c r → add_of c' r → c = c'.
Proof. intros [_ Ec] [_ Ec']. apply uuid_to_string_inj. congruence. Qed.

(** A row that reads back from a loaded segment is stored. *)
Lemma segment_readable_stored ts segs ads m :
  store_ok ts segs ads → 0 ≤ cm_ordinal m →
  segment_readable (ts_segments ts) m = true →
  ∃ p, stored_at segs (cm_segment_id m) (cm_ordinal m) p.
Proof.
  intros Hst Ho. unfold segment_readable.
  destruct (ts_segments ts !! cm_segment_id m) as [reader|] eqn:E; [|done].
  destruct (so_loaded _ _ _ Hst _ _ E) as (d & ds & dead & Hd & Hsc & Htb & Hro).
  rewrite (reader_read_complete reader _ ds dead _ Hro Ho).
  case_decide as Hdead; [done|]. destruct (ds !! _) as [p|] eqn:Ep; [|done].
  intros _. exists p, d, ds, dead. by split_and!.
Qed.

(** An unfinished active segment stores nothing. *)
Lemma active_not_stored ts segs ads a ord p :
  store_ok ts segs ads → ts_active_segment ts = Some a →
  ¬ stored_at segs (sw_id (as_writer a)) ord p.
Proof.
  intros Hst Ha. pose proof (so_active _ _ _ Hst) as Hact. rewrite Ha in Hact.
  destruct Hact as (d & Hd & Hw & _). eapply unloadable_not_stored; [exact Hd|by eapply writer_unloadable].
Qed.

(* ------------------------------------------------------------------ *)
(** ** Writing one chunk: payload, then row *)

(** The row a replayed or new chunk gets. *)
Definition row_for (c : ChunkId) (m : ChunkMetadata) : Prop :=
  cm_chunk_id m = c ∧ cm_tenant_id m = t ∧ cm_status m ≠ Deleted.

(** Inserting the row of a payload that was just appended. *)
Lemma insert_appended suffix s1 ads s2 a c p m w2 tr :
  ready suffix s1 ads → keeps suffix s1 ads s2 (ads ++ [p]) →
  ts_active_segment (s_store s1) = Some a →
  (∃ a', ts_active_segment (s_store s2) = Some a' ∧ sw_id (as_writer a') = sw_id (as_writer a)) →
  row_for c m → G !! c = Some p → (∃ rec, rec ∈ suffix ∧ add_of c rec) →
  cm_segment_id m = sw_id (as_writer a) → cm_ordinal m = zlen ads →
  (∀ f, K !! c = Some f → fate_row t suffix (db_of s1) c f m) →
  w2 = with_db (insert_row m (db_of s2)) (s_world s2) →
  let s3 := mkSt (s_store s2) w2 tr in
  ready suffix s3 (ads ++ [p]) ∧ crash_ok w2 ∧
  (∀ k r, live (db_of s3) k r ↔
     (k = c ∧ r = mkRow m index_cols_default) ∨ (k ≠ c ∧ live (db_of s1) k r)) ∧
  held_in s3 (ads ++ [p]) (mkRow m index_cols_default) p.
Proof.
  intros Hrd1 Hk Ha (a' & Ha' & Hid) (Hc & Ht & Hs) HG Hadd Hseg Hord Hun -> s3.
  pose proof (keeps_ready _ _ _ _ _ _ _ _ Hrd1 Hk) as [Hlog Hst Hrec Hrows].
  assert (Hdb : db_of s2 = db_of s1) by (destruct (k_same _ _ _ _ _ _ _ _ Hk) as (_ & ? & _); done).
  pose proof (so_active _ _ _ Hst) as Hact. rewrite Ha' in Hact.
  destruct Hact as (d & Hd & Hw & _).
  assert (Hloc : ∀ k r, live (db_of s2) k r → k ≠ cm_chunk_id m → location (r_meta r) ≠ location m).
  { intros k r Hl _ Heq. injection Heq as _ Eseg Eord. rewrite Hdb in Hl.
    destruct (rd_rows _ _ _ _ _ _ Hrd1 k r a Hl Ha) as (p' & _ & Hp'); [unfold m_seg; congruence|].
    apply lookup_lt_Some in Hp'. unfold m_ord in Hp'. rewrite Eord, Hord in Hp'. unfold zlen in Hp'. lia. }
  assert (Hli : ∀ k r, live (db_of s3) k r ↔
     (k = c ∧ r = mkRow m index_cols_default) ∨ (k ≠ c ∧ live (db_of s1) k r)).
  { intros k r. unfold s3, db_of at 1. cbn. rewrite <-Hdb, <-Hc. by apply live_insert_row. }
  assert (Hrec3 : rec_state suffix (w_segs (s_world s2)) (insert_row m (db_of s2))).
  { eapply rec_state_insert with (p := p); try done.
    - by rewrite Hc.
    - rewrite Hord. apply zlen_nonneg.
    - rewrite Hseg, <-Hid. eauto.
    - by rewrite Hc.
    - intros p' Hp'. rewrite Hseg, <-Hid in Hp'. exfalso. by eapply active_not_stored in Hp'.
    - rewrite Hc, Hdb. done. }
  assert (Hnth : (ads ++ [p]) !! Z.to_nat (zlen ads) = Some p).
  { unfold zlen. rewrite Nat2Z.id. by rewrite list_lookup_middle. }
  split_and!.
  - constructor; [exact Hlog|exact Hst|exact Hrec3|].
    intros k r a0 Hl Ha0 Hsk. apply Hli in Hl as [[-> ->]|[Hne Hl]].
    + exists p. split; [done|]. unfold m_ord. cbn. by rewrite Hord.
    + eapply Hrows; [|exact Ha0|done]. unfold db_of in Hdb. by rewrite Hdb.
  - by apply Hlog.
  - exact Hli.
  - right. exists a'. unfold m_seg, m_ord. cbn. rewrite Hord, Hid. by split_and!.
Qed.

Lemma liveb_from_iff db c b : (b = true ↔ ∃ r, live db c r) → liveb db c = b.
Proof. intros Hb. apply eq_true_iff_eq. by rewrite liveb_true, Hb. Qed.

(** The row recovery writes has the metadata of the fate. *)
Lemma fate_row_replayed suffix db c f rec chunk seg ord :
  fate_ok t suffix db c f → rec ∈ suffix → add_of c rec →
  json_from_slice (wr_payload rec) = Some chunk →
  fate_row t suffix db c f
    (match get t c db with
     | Some current => set_meta_location seg ord current
     | None => recovered_metadata chunk seg ord
     end).
Proof.
  intros Hf Hin Hadd Hj.
  assert (Hm : ∀ m, fate_meta t suffix db c m →
    unplaced (match get t c db with
              | Some current => set_meta_location seg ord current
              | None => recovered_metadata chunk seg ord
              end) = m).
  { intros m (_ & Hr & Hn). destruct (get t c db) as [cur|] eqn:Eg.
    - apply get_live in Eg as (r & Hl & ->). by apply (Hr r).
    - apply (Hn ltac:(unfold TenantInv.liveb; by rewrite Eg) rec chunk Hin Hadd Hj). }
  destruct f as [m| |m]; cbn [fate_ok fate_row] in *; [|done|]; naive_solver.
Qed.

(** The [Add] arm. *)
Lemma runs_recover_add suffix db0 rec rest s ads now :
  linv suffix db0 (rec :: rest) s ads → record_type rec = WalAdd →
  runs (recover_add now rec) s crash_ok (λ added s', ∃ ads',
    linv suffix db0 rest s' ads' ∧ same_log s s' ∧
    (added = false → ts_active_segment (s_store s') = ts_active_segment (s_store s))).
Proof.
  intros [Hrd Hsub Hlive Htarget Hmeta] Htype.
  pose proof Hrd as [Hlog Hst Hrec Hrows].
  assert (Hwf : rec_wf t G (TK := TK) rec).
  { eapply Forall_forall; [apply (rs_suffix _ _ _ _ _ _ Hrec)|]. apply Hsub. by left. }
  pose proof Hwf as [_ Hc]. rewrite Htype in Hc. destruct Hc as (c & Hc & HG).
  assert (Hadd : add_of c rec) by done.
  assert (Hsuf : ∃ r0, r0 ∈ suffix ∧ add_of c r0) by (exists rec; split; [apply Hsub; by left|done]).
  destruct (payloads_ok c _ HG) as (Hlen & chunk & Hjson & Hcid & Hct & Hcs).
  unfold recover_add. apply runs_bind. eapply runs_lift; [by apply wal_tenant_wf|].
  apply runs_bind. eapply runs_lift; [by apply wal_chunk_wf|].
  apply runs_bind, runs_world, runs_bind, runs_store.
  fold (db_of s). destruct (match get t c (db_of s) with Some m => _ | None => false end) eqn:Eread.
  - (* readable: skipped *)
    apply runs_ret. exists ads. split_and!; [|apply same_log_refl|done].
    destruct (get t c (db_of s)) as [m|] eqn:Eg; [|done].
    apply get_live in Eg as (r & Hl & ->).
    destruct (rs_live _ _ _ _ _ _ Hrec c r Hl) as (p & HGp & Ho & _).
    destruct (segment_readable_stored _ _ _ _ Hst Ho Eread) as (p' & Hp').
    assert (p' = p) as ->.
    { pose proof (rs_right _ _ _ _ _ _ Hrec c r p' Hl Hp'). congruence. }
    constructor; try done.
    + intros x Hx. apply Hsub. by right.
    + intros k r' Hl'. destruct (Hlive k r' Hl') as (q & Hq & [Hh|(x & Hx & Hax)]); [by eauto|].
      exists q. split; [done|]. apply elem_of_cons in Hx as [->|Hx]; [|by eauto].
      left. assert (k = c) as -> by (by eapply add_of_unique).
      destruct Hl as (Hr & _), Hl' as (Hr' & _). rewrite Hr in Hr'. simplify_eq.
      left. exact Hp'.
    + intros k. rewrite <-Htarget. unfold alive_after. cbn. f_equal.
      destruct (decide (k = c)) as [->|Hne].
      * rewrite alive_step_add by done. by eapply live_liveb.
      * rewrite alive_step_other; [done| |].
        -- intros Hk. apply Hne. by eapply add_of_unique.
        -- intros [Hk _]. congruence.
  - (* rewritten into the active segment *)
    apply runs_bind. eapply runs_lift; [by rewrite Hjson|].
    apply runs_bind. eapply runs_mono; [by apply (runs_get_or_create t G K suffix s ads now)|].
    cbn beta. intros _ s1 (ads1 & a & Hk1 & Ha & Hlt).
    pose proof (keeps_ready _ _ _ _ _ _ _ _ Hrd Hk1) as Hrd1.
    apply runs_bind. eapply runs_mono;
      [by apply (runs_append_active t G K suffix s1 ads1 a "no active segment during recovery" (wr_payload rec))|].
    cbn beta. intros loc s2 (Hk2 & -> & a' & Ha' & Hid' & Hcnt'). cbn [fst snd].
    pose proof (keeps_trans _ _ _ _ _ _ _ _ _ _ Hk1 Hk2) as Hk12.
    assert (Hdb1 : db_of s1 = db_of s) by (destruct (k_same _ _ _ _ _ _ _ _ Hk1) as (_ & ? & _); done).
    assert (Hlogs : same_log s s2) by (apply same_rest_log, (k_same _ _ _ _ _ _ _ _ Hk12)).
    set (m := match get t c (db_of s) with Some current => _ | None => _ end).
    assert (Hrow : row_for c m ∧ cm_segment_id m = sw_id (as_writer a) ∧ cm_ordinal m = zlen ads1).
    { unfold m, row_for. destruct (get t c (db_of s)) as [cur|] eqn:Eg; cbn; [|done].
      apply get_live in Eg as (r & (Hr & Hrt & Hrs) & ->).
      split_and!; try done. by apply (wf_key _ (rs_table _ _ _ _ _ _ Hrec)). }
    destruct Hrow as (Hrow & Hseg & Hord).
    assert (Hun : ∀ f, K !! c = Some f → fate_row t suffix (db_of s1) c f m).
    { rewrite Hdb1. intros f Hf. eapply (fate_row_replayed suffix (db_of s) c f rec chunk); try done.
      - by apply (rs_fate _ _ _ _ _ _ Hrec).
      - apply Hsub. by left. }
    destruct (insert_appended suffix s1 ads1 s2 a c (wr_payload rec) m
      (with_db (insert_row m (db_of s2)) (s_world s2))
      (s_trace s2 ++ [with_db (insert_row m (db_of s2)) (s_world s2)]) Hrd1 Hk2 Ha
      ltac:(eauto) Hrow HG Hsuf Hseg Hord Hun eq_refl) as (Hrd3 & Hcr3 & Hli & Hheld3).
    set (s3 := mkSt _ _ _) in *. rewrite Hdb1 in Hli.
    apply runs_bind, runs_effect; [exact Hcr3|]. fold (db_of s2). fold s3.
    apply runs_ret. exists (ads1 ++ [wr_payload rec]). split_and!; [|exact Hlogs|done].
    constructor; [exact Hrd3| | | |].
    + intros x Hx. apply Hsub. by right.
    + intros k r [[-> ->]|[Hne Hl]]%Hli; [by eauto|].
      destruct (Hlive k r Hl) as (q & Hq & [Hh|(x & Hx & Hax)]); exists q; (split; [done|]).
      * left. unfold held_in. apply (k_held _ _ _ _ _ _ _ _ Hk12); [|exact Hh].
        by destruct (rs_live _ _ _ _ _ _ Hrec k r Hl) as (? & _ & ? & _).
      * right. apply elem_of_cons in Hx as [->|Hx]; [|by eauto].
        exfalso. apply Hne. by eapply add_of_unique.
    + intros k. rewrite <-Htarget. unfold alive_after. cbn. f_equal.
      destruct (decide (k = c)) as [->|Hne].
      * rewrite alive_step_add by done. apply liveb_true. eexists. apply Hli. by left.
      * rewrite alive_step_other.
        -- apply liveb_ext. intros r. destruct (Hli k r) as [HA HB]. split.
           ++ intros Hx. by destruct (HA Hx) as [[? _]|[_ ?]].
           ++ intros Hx. apply HB. by right.
        -- intros Hk. apply Hne. by eapply add_of_unique.
        -- intros [Hk _]. congruence.
    + intros k r0 Hl0 Hnodel. destruct (Hmeta k r0 Hl0 Hnodel) as (r & seg & ord & Hl & Er).
      destruct (decide (k = c)) as [->|Hne].
      * exists (mkRow m index_cols_default), (sw_id (as_writer a)), (zlen ads1).
        split; [apply Hli; by left|]. cbn. unfold m.
        assert (Eg : get t c (db_of s) = Some (r_meta r)) by (apply get_live; eauto).
        rewrite Eg, Er. done.
      * exists r, seg, ord. split; [apply Hli; by right|done].
Qed.

(* ------------------------------------------------------------------ *)
(** ** Deleting one chunk: row, then tombstone *)

Lemma runs_delete_row suffix s ads c r :
  ready suffix s ads → live (db_of s) c r → (∃ rec, rec ∈ suffix ∧ delete_of c rec) →
  runs (m_delete_row t c (r_meta r)) s crash_ok (λ _ s',
    ready suffix s' ads ∧ same_log s s' ∧
    ts_active_segment (s_store s') = ts_active_segment (s_store s) ∧
    db_of s' = (mark_deleted t c (db_of s)).2 ∧
    (∀ k r' p, k ≠ c → live (db_of s) k r' → held_in s ads r' p → held_in s' ads r' p)).
Proof.
  intros [Hlog Hst Hrec Hrows] Hl Hdel.
  pose proof (rec_state_mark_deleted t G K _ _ _ c Hrec Hdel) as Hrec1.
  set (db1 := (mark_deleted t c (db_of s)).2) in *.
  assert (Hl1 : ∀ k r', live db1 k r' ↔ k ≠ c ∧ live (db_of s) k r') by (intros; apply live_mark_deleted).
  unfold m_delete_row. apply runs_bind, runs_effect; [by apply Hlog|].
  fold (db_of s). fold db1. apply runs_bind, runs_store. cbn [s_store].
  assert (Hrows1 : active_rows t G (s_store s) db1 ads).
  { intros k r' a [_ Hk]%Hl1. by apply Hrows. }
  destruct (ts_segments (s_store s) !! cm_segment_id (r_meta r)) as [reader|] eqn:Es.
  2: { apply runs_ret. split_and!; [by constructor|by repeat split|done|done|done]. }
  destruct (so_loaded _ _ _ Hst _ _ Es) as (d & ds & dead & Hd & Hsc & Htb & Hro).
  fold (m_seg r) in *. fold (m_ord r).
  pose proof (reader_mark_deleted_spec reader (m_seg r) d ds dead (m_ord r) Hro) as Hmd.
  destruct (reader_mark_deleted (m_ord r) reader) as [reader' ops] eqn:Em.
  destruct Hmd as (Hro' & Htb' & Hp' & Hi' & Hm').
  set (d' := apply_segops ops d) in *.
  assert (Hsc' : seg_complete d' ds) by (destruct Hsc; constructor; congruence).
  assert (Hops : ∃ bs, ops = [STomb bs]).
  { unfold reader_mark_deleted, tomb_persist, tomb_mark_deleted in Em. cbn in Em.
    injection Em as _ <-. by eexists. }
  assert (Hno : ∀ k r', live db1 k r' → m_seg r' = m_seg r → m_ord r' ≠ m_ord r).
  { intros k r' [Hne (Hr' & Ht' & _)]%Hl1 Eseg Eord. apply Hne. destruct Hl as (Hr & Ht & _).
    eapply (wf_loc _ (rs_table _ _ _ _ _ _ Hrec)); [exact Hr'|exact Hr|].
    unfold location. unfold m_seg, m_ord, r_tenant in *. congruence. }
  assert (Hrec2 : rec_state suffix (<[m_seg r := d']> (w_segs (s_world s))) db1)
    by (by eapply rec_state_tombstone).
  apply runs_bind. apply (runs_segops _ ops d); [done| |].
  { intros k. unfold set_seg, with_segs. cbn [s_world w_segs w_wal w_db w_tasks with_db].
    apply Hlog. destruct Hops as [bs ->]. destruct k as [|k].
    - cbn. by rewrite insert_id.
    - cbn [take]. rewrite take_nil. exact Hrec2. }
  intros tr. apply runs_set_store. cbn [s_store s_world]. split_and!.
  - constructor; cbn.
    + exact Hlog.
    + destruct Hst as [Hrw Hmax Hld Hall Hact]. constructor; cbn; try done.
      * intros i r0. destruct (decide (i = m_seg r)) as [->|Hne].
        -- rewrite !lookup_insert_eq. intros [= <-]. exists d', ds, (m_ord r :: dead). by split_and!.
        -- rewrite !lookup_insert_ne by done. apply Hld.
      * intros i d0. destruct (decide (i = m_seg r)) as [->|Hne].
        -- rewrite !lookup_insert_eq. right. eauto.
        -- rewrite !lookup_insert_ne by done. apply Hall.
      * destruct (ts_active_segment (s_store s)) as [a|] eqn:Ea; [|done].
        destruct Hact as (da & Hda & Hw & Hrest). exists da.
        rewrite lookup_insert_ne; [done|]. intros E. rewrite E in Hd. rewrite Hd in Hda.
        simplify_eq. destruct (sc_meta _ _ Hsc) as [mf Hmf]. pose proof (wi_meta _ _ _ Hw). congruence.
    + exact Hrec2.
    + exact Hrows1.
  - by repeat split.
  - done.
  - done.
  - intros k r' p Hne Hlk [Hs|(a & Ha & Hid & Hp)]; [left|right; by exists a]. cbn.
    eapply (stored_at_tombstone _ _ d d' (m_ord r)); try done. split; [done|].
    destruct (decide (m_seg r' = m_seg r)) as [E|]; [right|by left].
    apply (Hno k r'); [by apply Hl1|done].
Qed.

(** The [Delete] arm. *)
Lemma runs_recover_delete suffix db0 rec rest s ads :
  linv suffix db0 (rec :: rest) s ads → record_type rec = WalDelete →
  runs (recover_delete rec) s crash_ok (λ _ s',
    linv suffix db0 rest s' ads ∧ same_log s s' ∧
    ts_active_segment (s_store s') = ts_active_segment (s_store s)).
Proof.
  intros [Hrd Hsub Hlive Htarget Hmeta] Htype.
  pose proof Hrd as [Hlog Hst Hrec Hrows].
  assert (Hin : rec ∈ suffix) by (apply Hsub; by left).
  assert (Hwf : rec_wf t G (TK := TK) rec).
  { eapply Forall_forall; [apply (rs_suffix _ _ _ _ _ _ Hrec)|done]. }
  pose proof Hwf as [_ Hc]. rewrite Htype in Hc. destruct Hc as (c & Hc).
  assert (Hdel : delete_of c rec) by done.
  assert (Hdrop : ∀ k x, x ∈ rec :: rest → add_of k x → x ∈ rest).
  { intros k x Hx [Hax _]. apply elem_of_cons in Hx as [->|Hx]; [congruence|done]. }
  assert (Hstep : ∀ k b, alive_step k b rec = if decide (k = c) then false else b).
  { intros k b. case_decide as Hk; [subst; by apply alive_step_delete|].
    apply alive_step_other; [intros [Ha _]; congruence|].
    intros [_ Hk']. apply Hk. apply uuid_to_string_inj. congruence. }
  unfold recover_delete. apply runs_bind. eapply runs_lift; [by apply wal_tenant_wf|].
  apply runs_bind. eapply runs_lift; [by apply wal_chunk_wf|].
  apply runs_bind, runs_world. fold (db_of s).
  destruct (get t c (db_of s)) as [m|] eqn:Eg.
  - apply get_live in Eg as (r & Hl & ->).
    assert (Hns : cm_status (r_meta r) ≠ Deleted) by apply Hl.
    rewrite bool_decide_false by done. cbn [negb].
    eapply runs_mono; [by eapply (runs_delete_row suffix s ads c r); eauto|].
    cbn beta. intros _ s' (Hrd' & Hlog' & Ha' & Hdb' & Hheld).
    assert (Hl' : ∀ k r', live (db_of s') k r' ↔ k ≠ c ∧ live (db_of s) k r').
    { intros k r'. rewrite Hdb'. apply live_mark_deleted. }
    split_and!; [|done|done]. constructor; [done| | | |].
    + intros x Hx. apply Hsub. by right.
    + intros k r' [Hne Hk]%Hl'. destruct (Hlive k r' Hk) as (p & HG & [Hh|(x & Hx & Hax)]);
        exists p; (split; [done|]); [left; by eapply Hheld|right; eauto].
    + intros k. rewrite <-Htarget. unfold alive_after. cbn. f_equal. rewrite Hstep.
      case_decide as Hk; [subst k|].
      * apply liveb_from_iff. split; [done|]. intros (r' & [? _]%Hl'). done.
      * apply liveb_ext. intros r'. rewrite Hl'. naive_solver.
    + intros k r0 Hl0 Hnodel. destruct (Hmeta k r0 Hl0 Hnodel) as (r1 & seg & ord & Hl1 & Er).
      exists r1, seg, ord. split; [|done]. apply Hl'. split; [|done].
      intros ->. by eapply Hnodel.
  - apply runs_ret. split_and!; [|apply same_log_refl|done]. constructor; try done.
    + intros x Hx. apply Hsub. by right.
    + intros k r' Hk. destruct (Hlive k r' Hk) as (p & HG & [Hh|(x & Hx & Hax)]);
        exists p; (split; [done|]); [by left|right; eauto].
    + intros k. rewrite <-Htarget. unfold alive_after. cbn. f_equal. rewrite Hstep.
      case_decide as Hk; [subst k|done]. unfold TenantInv.liveb. by rewrite Eg.
Qed.

(* ------------------------------------------------------------------ *)
(** ** The loop *)

(** A record that concerns no chunk. *)
Lemma linv_skip suffix db0 rec rest s s' ads :
  linv suffix db0 (rec :: rest) s ads → record_type rec ≠ WalAdd → record_type rec ≠ WalDelete →
  ready suffix s' ads → s_store s' = s_store s → w_segs (s_world s') = w_segs (s_world s) →
  db_of s' = db_of s → linv suffix db0 rest s' ads.
Proof.
  intros [Hrd Hsub Hlive Htarget Hmeta] Hna Hnd Hrd' Es Eg Ed. constructor; [done| | | |].
  - intros x Hx. apply Hsub. by right.
  - intros c r. rewrite Ed. intros Hl. destruct (Hlive c r Hl) as (p & HG & [Hh|(x & Hx & Hax)]);
      exists p; (split; [done|]).
    + left. unfold held_in. by rewrite Es, Eg.
    + right. apply elem_of_cons in Hx as [->|Hx]; [by destruct Hax|eauto].
  - intros c. rewrite Ed, <-Htarget. unfold alive_after. cbn. f_equal. symmetry.
    apply alive_step_other; by intros [? _].
  - intros c r0 Hl0 Hno. destruct (Hmeta c r0 Hl0 Hno) as (r & seg & ord & ? & ?).
    exists r, seg, ord. by rewrite Ed.
Qed.

Lemma runs_recover_task suffix db0 rec rest s ads :
  linv suffix db0 (rec :: rest) s ads → record_type rec = WalTaskArtifact →
  runs (recover_task_artifact rec) s crash_ok (λ _ s',
    linv suffix db0 rest s' ads ∧ same_log s s' ∧
    ts_active_segment (s_store s') = ts_active_segment (s_store s)).
Proof.
  intros Hli Htype. pose proof Hli as [Hrd Hsub _ _ _]. pose proof Hrd as [Hlog Hst Hrec Hrows].
  assert (Hwf : rec_wf t G (TK := TK) rec).
  { eapply Forall_forall; [apply (rs_suffix _ _ _ _ _ _ Hrec)|]. apply Hsub. by left. }
  destruct Hwf as [_ Hk]. rewrite Htype in Hk.
  unfold recover_task_artifact. apply runs_bind, runs_world, runs_bind.
  destruct (Hk (w_tasks (s_world s))) as [k' Ek]. eapply runs_lift; [exact Ek|].
  apply runs_effect; [by apply Hlog|]. split_and!; [|by repeat split|done].
  eapply linv_skip; [exact Hli|congruence|congruence| |done..]. by constructor.
Qed.

Lemma runs_recover_records suffix db0 rest s ads now adds :
  linv suffix db0 rest s ads → 0 ≤ adds →
  (adds = 0 → ts_active_segment (s_store s) = None) →
  runs (recover_records now rest adds) s crash_ok (λ n s', ∃ ads',
    linv suffix db0 [] s' ads' ∧ same_log s s' ∧ 0 ≤ n ∧
    (n = 0 → ts_active_segment (s_store s') = None)).
Proof.
  revert s ads adds. induction rest as [|rec rest IH]; intros s ads adds Hli Hadds Hact;
    cbn [recover_records].
  { apply runs_ret. exists ads. split_and!; [done|apply same_log_refl|done|done]. }
  destruct (record_type rec) eqn:Et.
  - apply runs_bind. eapply runs_mono; [by apply (runs_recover_add suffix db0 rec rest s ads now)|].
    cbn beta. intros added s1 (ads1 & Hli1 & Hl1 & Hac1).
    eapply runs_mono; [apply (IH s1 ads1); [done|by destruct added; lia|]|].
    { destruct added; [lia|]. intros E. rewrite Hac1 by done. auto. }
    cbn beta. intros n s2 (ads2 & ? & ? & ? & ?). exists ads2. split_and!; try done.
    by eapply same_log_trans.
  - apply runs_bind. eapply runs_mono; [by apply (runs_recover_delete suffix db0 rec rest s ads)|].
    cbn beta. intros _ s1 (Hli1 & Hl1 & Hac1).
    eapply runs_mono; [apply (IH s1 ads); [done|done|by rewrite Hac1]|].
    cbn beta. intros n s2 (ads2 & ? & ? & ? & ?). exists ads2. split_and!; try done.
    by eapply same_log_trans.
  - eapply runs_mono; [apply (IH s ads); [|done|done]|done].
    eapply linv_skip; [exact Hli|congruence|congruence|by apply Hli|done..].
  - apply runs_bind. eapply runs_mono; [by apply (runs_recover_task suffix db0 rec rest s ads)|].
    cbn beta. intros _ s1 (Hli1 & Hl1 & Hac1).
    eapply runs_mono; [apply (IH s1 ads); [done|done|by rewrite Hac1]|].
    cbn beta. intros n s2 (ads2 & ? & ? & ? & ?). exists ads2. split_and!; try done.
    by eapply same_log_trans.
Qed.

(* ------------------------------------------------------------------ *)
(** ** Truncating once everything is stored *)

(** Every live row is stored. *)
Definition all_stored (segs : gmap Z SegDir) (db : ChunkTable) : Prop :=
  ∀ c r, live db c r → ∃ p, G !! c = Some p ∧ stored_at segs (m_seg r) (m_ord r) p.

Lemma rec_state_nil suffix segs db :
  rec_state suffix segs db → all_stored segs db → (∀ c, alive_after c (liveb db c) suffix = liveb db c) →
  rec_state [] segs db.
Proof.
  intros [Hsuf Hsegs Htab Hown Hlive Hright Hdead] Hall Hno. constructor; try done.
  - intros c r Hl. destruct (Hlive c r Hl) as (p & HG & Ho & Hdir & _).
    exists p. split_and!; [done..|]. left. destruct (Hall c r Hl) as (p' & HG' & ?). congruence.
  - assert (Hm : ∀ c m, fate_meta t suffix db c m → fate_meta t [] db c m).
    { intros c m (_ & Hr & _). split_and!; [|done|]; by intros; exfalso; eapply not_elem_of_nil. }
    intros c f Hc. pose proof (Hdead c f Hc) as Hf. specialize (Hno c).
    destruct f as [m| |m]; cbn [fate_ok] in *; rewrite ?Hno in Hf; naive_solver.
Qed.

Lemma runs_truncate suffix rs tail wal s ads :
  store_ok (s_store s) (w_segs (s_world s)) ads →
  w_wal (s_world s) = Some (file_of (wal_bytes rs ++ tail)) → ts_wal (s_store s) = Some wal →
  wal_junk tail → Forall wal_fits rs → suffix = after_checkpoint rs →
  rec_state suffix (w_segs (s_world s)) (db_of s) → rec_state [] (w_segs (s_world s)) (db_of s) →
  runs truncate_wal s crash_ok (λ _ s',
    w_wal (s_world s') = Some (file_of []) ∧ w_segs (s_world s') = w_segs (s_world s) ∧
    db_of s' = db_of s ∧ ts_wal (s_store s') = Some (mkWalWriter (ww_handle wal) 0) ∧
    store_ok (s_store s') (w_segs (s_world s')) ads ∧
    ts_active_segment (s_store s') = ts_active_segment (s_store s) ∧
    ts_tenant_id (s_store s') = ts_tenant_id (s_store s) ∧
    ts_segment_max_chunks (s_store s') = ts_segment_max_chunks (s_store s)).
Proof.
  intros Hst Hwal Hw Hj Hfit -> Hrec Hrec0. unfold truncate_wal, m_wal_writer.
  apply runs_bind, runs_bind, runs_store. rewrite Hw. apply runs_ret.
  apply runs_bind, runs_world. unfold wal_file. rewrite Hwal. cbn [default].
  apply runs_bind, runs_effect.
  { by apply (crash_ok_truncating t G K _ rs tail). }
  unfold wal_truncate. apply runs_bind, runs_effect.
  { apply (crash_ok_synced t G K _ [] []); [done|apply wal_junk_nil|done|done]. }
  apply runs_set_store. cbn. split_and!; try done. destruct Hst. by constructor.
Qed.

(* ------------------------------------------------------------------ *)
(** ** [recover_from_wal] *)

(** What recovery leaves behind: everything stored, liveness as the log
    says, the rest of each surviving row as it was. *)
Record recovered (suffix : list WalRecord) (db0 : ChunkTable) (s' : St B TK) : Prop := {
  rc_store : store_ok (s_store s') (w_segs (s_world s')) [];
  rc_inactive : ts_active_segment (s_store s') = None;
  rc_rec : rec_state [] (w_segs (s_world s')) (db_of s');
  rc_stored : all_stored (w_segs (s_world s')) (db_of s');
  rc_alive c : liveb (db_of s') c = alive_after c (liveb db0 c) suffix;
  rc_meta c r0 : live db0 c r0 → (∀ rec, rec ∈ suffix → ¬ delete_of c rec) →
    ∃ r seg ord, live (db_of s') c r ∧ r_meta r = set_meta_location seg ord (r_meta r0);
}.

Lemma store_ok_ads ts segs ads ads' :
  store_ok ts segs ads → ts_active_segment ts = None → store_ok ts segs ads'.
Proof. intros [] Hn. constructor; try done. by rewrite Hn. Qed.

Lemma linv_start suffix s :
  store_ok (s_store s) (w_segs (s_world s)) [] → ts_active_segment (s_store s) = None →
  log_ok t G K suffix (w_wal (s_world s)) →
  rec_state suffix (w_segs (s_world s)) (db_of s) → linv suffix (db_of s) suffix s [].
Proof.
  intros Hst Hn Hlog Hrec. constructor; try done.
  - constructor; try done. intros c r a _. by rewrite Hn.
  - intros c r Hl. destruct (rs_live _ _ _ _ _ _ Hrec c r Hl) as (p & HG & _ & _ & [Hs|Ha]);
      exists p; (split; [done|]); [by left; left|by right].
  - intros c r0 Hl0 _. exists r0, (m_seg r0), (m_ord r0). split; [done|].
    unfold m_seg, m_ord, set_meta_location. by destruct (r_meta r0).
Qed.

(** The end of the loop, once nothing is active. *)
Lemma linv_end suffix db0 s ads s' :
  linv suffix db0 [] s ads → db_of s' = db_of s →
  store_ok (s_store s') (w_segs (s_world s')) [] → ts_active_segment (s_store s') = None →
  rec_state suffix (w_segs (s_world s')) (db_of s') →
  (∀ seg ord p, 0 ≤ ord → held (s_store s) (w_segs (s_world s)) ads seg ord p →
     stored_at (w_segs (s_world s')) seg ord p) →
  recovered suffix db0 s'.
Proof.
  intros Hli Ed Hst Hn Hrec Hheld.
  assert (Hall : all_stored (w_segs (s_world s')) (db_of s')).
  { intros c r Hl. pose proof Hl as Hl0. rewrite Ed in Hl.
    destruct (li_live _ _ _ _ _ Hli c r Hl) as (p & HG & [Hh|(x & Hx & _)]);
      [|by apply not_elem_of_nil in Hx].
    exists p. split; [done|]. apply Hheld; [|exact Hh].
    by destruct (rs_live _ _ _ _ _ _ Hrec c r Hl0) as (? & _ & ? & _). }
  assert (Hal : ∀ c, liveb (db_of s') c = alive_after c (liveb db0 c) suffix).
  { intros c. rewrite Ed. exact (li_target _ _ _ _ _ Hli c). }
  constructor; try done.
  - eapply rec_state_nil; [done|done|]. intros c. by rewrite Hal, alive_after_idem.
  - intros c r0 Hl0 Hno. destruct (li_meta _ _ _ _ _ Hli c r0 Hl0 Hno) as (r & seg & ord & ? & ?).
    exists r, seg, ord. by rewrite Ed.
Qed.

Lemma runs_recover_from_wal rs tail wal s now :
  let suffix := after_checkpoint rs in
  w_wal (s_world s) = Some (file_of (wal_bytes rs ++ tail)) → ts_wal (s_store s) = Some wal →
  wal_junk tail → Forall wal_fits rs →
  store_ok (s_store s) (w_segs (s_world s)) [] → ts_active_segment (s_store s) = None →
  rec_state suffix (w_segs (s_world s)) (db_of s) →
  runs (recover_from_wal now (mkWalReader (wal_bytes rs ++ tail))) s crash_ok (λ _ s',
    recovered suffix (db_of s) s' ∧
    (suffix = [] → s' = s) ∧
    (suffix ≠ [] → w_wal (s_world s') = Some (file_of []) ∧
                   ts_wal (s_store s') = Some (mkWalWriter (ww_handle wal) 0)) ∧
    ts_tenant_id (s_store s') = ts_tenant_id (s_store s)).
Proof.
  intros suffix Hwal Hw Hj Hfit Hst Hn Hrec.
  assert (Hlog : log_ok t G K suffix (w_wal (s_world s))).
  { intros segs db k Hr. rewrite Hwal. by apply (crash_ok_synced t G K _ rs tail). }
  pose proof (linv_start suffix s Hst Hn Hlog Hrec) as Hli.
  assert (Hnil : suffix = [] → recovered suffix (db_of s) s).
  { intros E. eapply (linv_end suffix (db_of s) s []); try done.
    - rewrite E in *. exact Hli.
    - intros seg ord p _ [?|(a & Ha & _)]; [done|congruence]. }
  unfold recover_from_wal.
  assert (Hrecs : records_for_recovery (mkWalReader (wal_bytes rs ++ tail)) = suffix)
    by (by apply records_for_recovery_log).
  rewrite Hrecs. destruct (wal_is_empty _) eqn:Eemp.
  { assert (suffix = []) as E.
    { unfold wal_is_empty in Eemp. apply bool_decide_eq_true in Eemp. cbn in Eemp.
      rewrite <-Hrecs, Eemp. done. }
    apply runs_ret. split_and!; [by apply Hnil|done|done|done]. }
  destruct suffix as [|rec recs] eqn:Esuf.
  { apply runs_ret. split_and!; [by apply Hnil|done|done|done]. }
  rewrite <-Esuf in *. apply runs_bind.
  eapply runs_mono; [apply (runs_recover_records suffix (db_of s) suffix s [] now 0); [done|lia|done]|].
  cbn beta. intros n s1 (ads1 & Hli1 & Hl1 & Hn0 & Hact1). apply runs_bind.
  pose proof (li_ready _ _ _ _ _ Hli1) as Hrd1.
  eapply (runs_mono _ _ _ (λ _ s2, recovered suffix (db_of s) s2 ∧ same_log s s2 ∧
    rec_state suffix (w_segs (s_world s2)) (db_of s2))).
  { destruct (Z.ltb_spec 0 n) as [Hpos|Hz].
    - eapply runs_mono; [by apply (runs_finalize_active t G K suffix s1 ads1)|].
      cbn beta. intros _ s2 (ads2 & Hk & Hn2 & Hheld).
      pose proof (k_same _ _ _ _ _ _ _ _ Hk) as Hsame. split_and!.
      + eapply (linv_end suffix (db_of s) s1 ads1); try done.
        * unfold db_of. destruct Hsame as (_ & ? & _). done.
        * eapply store_ok_ads; [apply (k_store _ _ _ _ _ _ _ _ Hk)|done].
        * apply (k_rec _ _ _ _ _ _ _ _ Hk).
      + eapply same_log_trans; [exact Hl1|by apply same_rest_log].
      + apply (k_rec _ _ _ _ _ _ _ _ Hk).
    - apply runs_ret. assert (n = 0) as -> by lia. split_and!; [|done|by apply Hrd1].
      eapply (linv_end suffix (db_of s) s1 ads1); try done.
      + eapply store_ok_ads; [apply Hrd1|by apply Hact1].
      + by apply Hact1.
      + by apply Hrd1.
      + intros seg ord p _ [?|(a & Ha & _)]; [done|]. rewrite Hact1 in Ha by done. done. }
  cbn beta. intros _ s2 ([Hst2 Hin2 Hrec2 Hall2 Hal2 Hme2] & Hl2 & Hrs2).
  pose proof Hl2 as (Hw2 & Htw2 & Htid2 & _).
  eapply runs_mono; [apply (runs_truncate suffix rs tail wal s2 [] Hst2); try done; congruence|].
  cbn beta. intros _ s3 (Ew & Eg & Ed & Et & Hst3 & Ea & Eti & _).
  split_and!; [|congruence|done|congruence].
  constructor; [exact Hst3|congruence| | | |]; rewrite ?Eg, ?Ed; done.
Qed.

(* ------------------------------------------------------------------ *)
(** ** [open] *)

Lemma load_segments_ok segs id :
  (∀ d, segs !! id = Some d → seg_ok (B := B) d) →
  (∀ r : SegmentReader B, load_segments segs !! id = Some r →
     ∃ d ds dead, segs !! id = Some d ∧ seg_complete d ds ∧ tomb_is d dead ∧ reader_of r id ds dead) ∧
  (∀ d, segs !! id = Some d → seg_unloadable d ∨ is_Some (load_segments (B := B) segs !! id)).
Proof.
  intros Hok. unfold load_segments. rewrite map_lookup_imap.
  destruct (segs !! id) as [d|] eqn:E; cbn [mbind option_bind]; [|naive_solver].
  destruct (Hok d eq_refl) as [Hu|(ds & dead & Hsc & Htb)].
  - assert (match sd_meta d with Some _ => res_ok (reader_open (B := B) id d) | None => None end = None) as ->.
    { unfold reader_open. destruct Hu as [->|[->| ->]]; [done|by destruct (sd_meta d)|].
      destruct (sd_meta d), (sd_payload d); done. }
    split; [done|]. intros d' [= <-]. by left.
  - destruct (sc_meta _ _ Hsc) as [mf ->].
    destruct (reader_open_complete id d ds dead Hsc Htb) as (r & Hr & Hro). rewrite Hr. cbn. split.
    + intros r0 [= <-]. exists d, ds, dead. by split_and!.
    + intros d' _. right. eauto.
Qed.

Lemma open_spec now maxc minf interval (w : World TK) :
  recoverable (B := B) t G K w → 0 < maxc < 2 ^ 32 →
  ∃ ts w' tr,
    let suffix := records_for_recovery (wal_reader_open (f_cur <$> w_wal w)) in
    open now (TenantId.as_str t) maxc minf interval false w = (Ok ts, w', tr) ∧
    Forall crash_ok tr ∧ recovered suffix (w_db w) (mkSt ts w' tr) ∧
    ts_tenant_id ts = TenantId.as_str t ∧
    (∃ wal f, ts_wal ts = Some wal ∧ w_wal w' = Some f ∧ at_end (ww_handle wal) f) ∧
    (suffix ≠ [] → w_wal w' = Some (file_of [])) ∧
    (suffix = [] → w_segs w' = w_segs w ∧ w_db w' = w_db w ∧
       w_wal w' = Some (file_of (default [] (f_cur <$> w_wal w)))).
Proof.
  intros (rs & tail & Hwal & Hj & Hfit & Hrec) Hmax. cbv zeta.
  assert (Hcur : default [] (f_cur <$> w_wal w) = wal_bytes rs ++ tail).
  { destruct (w_wal w) as [f|]; [by subst f|by destruct Hwal as [-> ->]]. }
  assert (Hreader : wal_reader_open (f_cur <$> w_wal w) = mkWalReader (wal_bytes rs ++ tail)).
  { unfold wal_reader_open. rewrite <-Hcur. by destruct (f_cur <$> w_wal w). }
  rewrite Hreader, records_for_recovery_log by done.
  assert (Hopen : ∃ writer, wal_open_or_create (w_wal w) = Ok (writer, file_of (wal_bytes rs ++ tail)) ∧
    (h_append (ww_handle writer) = true ∨ rs = [] ∧ tail = [] ∧ h_pos (ww_handle writer) = 0%nat)).
  { destruct (w_wal w) as [f|]; cbn; [subst f; eexists; split; [done|by left]|].
    destruct Hwal as [-> ->]. eexists. split; [done|by right]. }
  destruct Hopen as (writer & Hopen & Hend). unfold open. rewrite Hreader, Hopen.
  set (ts0 := mkTenantStore _ _ _ _ _ _ _ _ _ _). set (w1 := with_wal _ w).
  assert (Hst0 : store_ok ts0 (w_segs w1) []).
  { constructor; cbn; try done.
    - intros id r. eapply load_segments_ok. apply (rs_segs _ _ _ _ _ _ Hrec).
    - intros id. eapply load_segments_ok. apply (rs_segs _ _ _ _ _ _ Hrec). }
  destruct (runs_recover_from_wal rs tail writer (mkSt ts0 w1 [w1]) now) as
    (u & s' & tr & E & Htr & HI & (Hrc & Hsame & Hempty & Htid)); try done.
  rewrite E. exists (s_store s'), (s_world s'), (s_trace s'). split_and!; [done| | |by rewrite Htid| | |].
  - rewrite Htr. cbn. constructor; [|done].
    by apply (crash_ok_synced t G K _ rs tail).
  - by destruct s'.
  - destruct (decide (after_checkpoint rs = [])) as [Hz|Hne].
    + rewrite (Hsame Hz). exists writer, (file_of (wal_bytes rs ++ tail)). split_and!; [done..|].
      destruct Hend as [?|(-> & -> & ?)]; [by left|by right].
    + destruct (Hempty Hne) as [Ew Et]. eexists _, _. split_and!; [exact Et|exact Ew|].
      destruct Hend as [?|(-> & _)]; [by left|done].
  - intros Hne. by apply Hempty.
  - intros He. rewrite (Hsame He). cbn. by rewrite Hcur.
Qed.

End recovery.
