(* ===== verification/PersistentFacts.v ===== *)
(** * The running store keeps its promises

    [running]: the invariant of an open tenant between operations.  Adds and
    deletes keep it, every world they pass through is recoverable after a
    crash, and reads return the payload of every live chunk. *)

From S2P Require Import Prelude Crates Types WalFormat WalReader Files WalWriter.
From S2P Require Import SegmentFormat Segment SegmentFacts Metadata MetadataFacts.
From S2P Require Import TenantStore Persistent Runs TenantInv TenantFacts Recovery.

Open Scope Z_scope.

Section running.
Context `{BOL : ByteOrderLaws} `{CRL : Crc32Laws} `{RBL : RoaringLaws B}.
Context `{BWL : BincodeLaws WalRecord} `{JC : Json MemoryChunk}.
Context `{UUL : UuidLaws ChunkId} `{TT : TaskTables TK}.
Context `{CAP : BufCap} `{BM : Bincode SegmentMeta} `{UC : Unicode}.

Variable t : TenantId.
Variable G : gmap ChunkId (list byte).
Variable K : gmap ChunkId Fate.

Abbreviation stored_at := (stored_at (B := B)).
Abbreviation rec_state := (rec_state (B := B) (TK := TK) t G K).
Abbreviation crash_ok := (crash_ok (B := B) (TK := TK) t G K).
Abbreviation ready := (ready (B := B) (TK := TK) t G K).
Abbreviation keeps := (keeps (B := B) (TK := TK) t G K).
Abbreviation live := (live t).
Abbreviation liveb := (liveb t).
Implicit Types (s : St B TK) (ads : list (list byte)) (rs : list WalRecord) (db : ChunkTable).

(** Between operations: the log is a whole number of synced records, the
    writer is at its end, every live chunk can be read, and the table and
    the log suffix agree on who is alive. *)
Record running (rs : list WalRecord) (s : St B TK) (ads : list (list byte)) : Prop := {
  rn_wal : w_wal (s_world s) = Some (file_of (wal_bytes rs));
  rn_fits : Forall wal_fits rs;
  rn_writer : ∃ wal, ts_wal (s_store s) = Some wal ∧ at_end (ww_handle wal) (file_of (wal_bytes rs));
  rn_ready : ready (after_checkpoint rs) s ads;
  rn_held c r : live (db_of s) c r → ∃ p, G !! c = Some p ∧ held_in s ads r p;
  rn_agree c : alive_after c (liveb (db_of s) c) (after_checkpoint rs) = liveb (db_of s) c;
  rn_nodel c r : live (db_of s) c r → ∀ rec, rec ∈ after_checkpoint rs → ¬ delete_of c rec;
}.

Lemma log_ok_synced rs f :
  f = Some (file_of (wal_bytes rs)) → Forall wal_fits rs →
  log_ok t G K (B := B) (TK := TK) (after_checkpoint rs) f.
Proof.
  intros -> Hfit segs db k Hr. apply (crash_ok_synced t G K _ rs []); cbn; try done.
  - by rewrite app_nil_r.
  - apply wal_junk_nil.
Qed.

(* ------------------------------------------------------------------ *)
(** ** Appending to the log *)

Lemma runs_wal_append rs rs' s wal op :
  w_wal (s_world s) = Some (file_of (wal_bytes rs)) → Forall wal_fits rs → Forall wal_fits rs' →
  ts_wal (s_store s) = Some wal → at_end (ww_handle wal) (file_of (wal_bytes rs)) →
  (∀ n, rec_state (after_checkpoint (rs ++ take n rs')) (w_segs (s_world s)) (db_of s)) →
  runs (wal <- m_wal_writer op ;; m_wal_append_batch rs' wal) s crash_ok (λ _ s',
    ∃ wal' tr, s' = mkSt (set_wal wal' (s_store s))
      (with_wal (Some (file_of (wal_bytes (rs ++ rs')))) (s_world s)) tr ∧
    at_end (ww_handle wal') (file_of (wal_bytes (rs ++ rs')))).
Proof.
  intros Hw Hfit Hfit' Hwal Hend Hrec. unfold m_wal_writer.
  apply runs_bind, runs_bind, runs_store. rewrite Hwal. apply runs_ret.
  destruct (decide (rs' = [])) as [->|Hne].
  { apply runs_ret. exists wal, (s_trace s). rewrite app_nil_r. split; [|done].
    unfold set_wal, with_wal. rewrite <-Hw, <-Hwal. by destruct s as [[] [] ?]. }
  destruct (wal_write_batch_at_end rs' _ _ Hend) as (h1 & E1 & _).
  destruct (wal_append_batch_at_end rs' wal _ Hne Hend) as (h2 & E2 & Hend2 & _).
  unfold m_wal_append_batch. destruct rs' as [|r rs']; [done|].
  apply runs_bind, runs_world. unfold wal_file. rewrite Hw. cbn [default id].
  rewrite E1, E2. cbn [snd f_cur f_durable file_of]. apply runs_bind, runs_effect.
  { by apply (crash_ok_appending t G K _ rs (r :: rs')). }
  apply runs_bind, runs_effect.
  { apply (crash_ok_synced t G K _ (rs ++ r :: rs') []); cbn.
    - by rewrite app_nil_r, wal_bytes_app.
    - apply wal_junk_nil.
    - by apply Forall_app.
    - specialize (Hrec (length (r :: rs'))). by rewrite firstn_all in Hrec. }
  apply runs_set_store. cbn. rewrite wal_bytes_app. eexists _, _. split; [done|].
  by rewrite <-wal_bytes_app, wal_bytes_app.
Qed.

(** The state after an append, as far as segments are concerned. *)
Lemma ready_logged rs rs' s ads wal' tr s' :
  ready (after_checkpoint rs) s ads → Forall wal_fits (rs ++ rs') →
  rec_state (after_checkpoint (rs ++ rs')) (w_segs (s_world s)) (db_of s) →
  s' = mkSt (set_wal wal' (s_store s))
         (with_wal (Some (file_of (wal_bytes (rs ++ rs')))) (s_world s)) tr →
  ready (after_checkpoint (rs ++ rs')) s' ads ∧
  (∀ r p, held_in s ads r p → held_in s' ads r p) ∧ db_of s' = db_of s.
Proof.
  intros [Hlog Hst Hrec Hrows] Hfit Hrec' ->. split_and!; [|done|done].
  constructor; cbn; [by apply log_ok_synced| |done|done].
  destruct Hst. by constructor.
Qed.

(* ------------------------------------------------------------------ *)
(** ** Writing the payloads of a batch *)

Definition place (m : ChunkMetadata) : Z * Z := (cm_segment_id m, cm_ordinal m).

(** The row [m] of a payload that was written, before it is inserted. *)
Record placed s ads (row : PendingChunkAdd) (m : ChunkMetadata) : Prop := {
  pl_meta : m = added_metadata row (cm_segment_id m) (cm_ordinal m);
  pl_held : held (s_store s) (w_segs (s_world s)) ads (cm_segment_id m) (cm_ordinal m)
              (pa_payload row);
  pl_ord : 0 ≤ cm_ordinal m;
  pl_dir : is_Some (w_segs (s_world s) !! cm_segment_id m);
  pl_free k r : live (db_of s) k r → (m_seg r, m_ord r) ≠ place m;
}.

Lemma placed_keeps suffix s ads s' ads' row m :
  keeps suffix s ads s' ads' → placed s ads row m → placed s' ads' row m.
Proof.
  intros Hk [Hm Hh Ho Hd Hf]. constructor; try done.
  - by apply (k_held _ _ _ _ _ _ _ _ Hk).
  - by apply (k_dirs _ _ _ _ _ _ _ _ Hk).
  - unfold db_of in *. destruct (k_same _ _ _ _ _ _ _ _ Hk) as (_ & -> & _). done.
Qed.

(** The next free slot of the active segment is not taken. *)
Lemma placed_slot s ads row m a :
  store_ok (s_store s) (w_segs (s_world s)) ads → ts_active_segment (s_store s) = Some a →
  placed s ads row m → place m ≠ (sw_id (as_writer a), zlen ads).
Proof.
  intros Hst Ha [_ Hh Ho _ _] E. unfold place in E. injection E as Es Eo.
  destruct Hh as [Hs|(a' & _ & _ & Hp)].
  - rewrite Es in Hs. by eapply active_not_stored.
  - apply lookup_lt_Some in Hp. rewrite Eo in Hp. unfold zlen in Hp. lia.
Qed.

Lemma runs_append_rows suffix now rows s ads done_ acc :
  ready suffix s ads → Forall (λ row, zlen (pa_payload row) < 2 ^ 32) rows →
  Forall2 (placed s ads) done_ acc → NoDup (map place acc) →
  runs (append_rows now rows acc) s crash_ok (λ ms s', ∃ ads',
    keeps suffix s ads s' ads' ∧ Forall2 (placed s' ads') (done_ ++ rows) ms ∧
    NoDup (map place ms)).
Proof.
  revert s ads done_ acc. induction rows as [|row rows IH]; intros s ads done_ acc Hrd Hlen Hpl Hnd.
  { apply runs_ret. exists ads. rewrite app_nil_r. split_and!; [by apply keeps_refl|done|done]. }
  apply Forall_cons in Hlen as [Hrow Hlen]. cbn [append_rows].
  apply runs_bind, runs_store, runs_bind.
  eapply runs_mono; [by apply (runs_get_or_create t G K suffix s ads now)|].
  cbn beta. intros _ s1 (ads1 & a & Hk1 & Ha & Hlt).
  pose proof (keeps_ready _ _ _ _ _ _ _ _ Hrd Hk1) as Hrd1. apply runs_bind.
  eapply runs_mono; [by apply (runs_append_active t G K suffix s1 ads1 a _ (pa_payload row))|].
  cbn beta. intros loc s2 (Hk2 & -> & a' & Ha' & Hid' & _). cbn [fst snd].
  pose proof (keeps_ready _ _ _ _ _ _ _ _ Hrd1 Hk2) as Hrd2.
  pose proof (keeps_trans _ _ _ _ _ _ _ _ _ _ Hk1 Hk2) as Hk12.
  set (m := added_metadata row _ _).
  assert (Hm : placed s2 (ads1 ++ [pa_payload row]) row m).
  { constructor; cbn; [done| |apply zlen_nonneg| |].
    - right. exists a'. split_and!; [done|done|]. unfold zlen. by rewrite Nat2Z.id, list_lookup_middle.
    - apply (k_dirs _ _ _ _ _ _ _ _ Hk2). pose proof (so_active _ _ _ (rd_store _ _ _ _ _ _ Hrd1)) as Hact.
      rewrite Ha in Hact. destruct Hact as (d & Hd & _). eauto.
    - intros k r Hl E. unfold place in E. cbn in E. injection E as Es Eo. unfold db_of in Hl.
      destruct (k_same _ _ _ _ _ _ _ _ Hk2) as (_ & Edb & _). rewrite Edb in Hl.
      destruct (rd_rows _ _ _ _ _ _ Hrd1 k r a Hl Ha Es) as (p & _ & Hp).
      apply lookup_lt_Some in Hp. rewrite Eo in Hp. unfold zlen in Hp. lia. }
  eapply runs_mono.
  { apply (IH s2 (ads1 ++ [pa_payload row]) (done_ ++ [row]) (acc ++ [m])); [done|done| |].
    - apply Forall2_app; [|by constructor]. eapply Forall2_impl; [exact Hpl|].
      intros ? ?. by apply (placed_keeps suffix).
    - rewrite map_app. apply NoDup_app. split_and!; [done| |apply NoDup_singleton].
      intros x Hx Hx'. apply list_elem_of_singleton in Hx'. subst x.
      apply list_elem_of_fmap in Hx as (m' & E & Hm').
      apply list_elem_of_lookup in Hm' as [i Hi].
      destruct (Forall2_lookup_r _ _ _ _ _ Hpl Hi) as (row' & _ & Hp').
      apply (placed_keeps suffix _ _ _ _ _ _ Hk1) in Hp'.
      eapply (placed_slot s1 ads1 row' m' a); [by apply Hrd1|done|done|by rewrite <-E]. }
  cbn beta. intros ms s3 (ads3 & Hk3 & Hpl3 & Hnd3). exists ads3.
  split_and!; [by eapply keeps_trans| |done]. by rewrite <-app_assoc in Hpl3.
Qed.

(* ------------------------------------------------------------------ *)
(** ** Inserting the rows of a batch *)

Lemma held_unique ts segs ads seg ord p p' :
  store_ok ts segs ads → held ts segs ads seg ord p → stored_at segs seg ord p' → p' = p.
Proof.
  intros Hst [(d & ds & dead & Hd & Hsc & _ & Hp & _)|(a & Ha & <- & _)] Hs'.
  - destruct Hs' as (d' & ds' & dead' & Hd' & Hsc' & _ & Hp' & _). rewrite Hd in Hd'. simplify_eq.
    rewrite (seg_complete_inj _ _ _ Hsc' Hsc) in Hp'. congruence.
  - exfalso. by eapply active_not_stored.
Qed.

(** A row that may be inserted. *)
Definition insertable (suffix : list WalRecord) (segs : gmap Z SegDir) (m : ChunkMetadata) : Prop :=
  cm_tenant_id m = t ∧ cm_status m ≠ Deleted ∧ 0 ≤ cm_ordinal m ∧
  is_Some (segs !! cm_segment_id m) ∧
  (∀ f, K !! cm_chunk_id m = Some f → f = Maybe (unplaced m)) ∧
  (∃ rec, rec ∈ suffix ∧ add_of (cm_chunk_id m) rec) ∧
  ∃ p, G !! cm_chunk_id m = Some p ∧
       ∀ p', stored_at segs (cm_segment_id m) (cm_ordinal m) p' → p' = p.

Lemma rec_state_insert_many suffix segs ms db :
  rec_state suffix segs db → Forall (insertable suffix segs) ms →
  NoDup (map cm_chunk_id ms) → NoDup (map place ms) →
  (∀ m k r, m ∈ ms → live db k r → (m_seg r, m_ord r) ≠ place m) →
  rec_state suffix segs (insert_many ms db) ∧
  ∀ k r, live (insert_many ms db) k r ↔
    (∃ m, m ∈ ms ∧ k = cm_chunk_id m ∧ r = mkRow m index_cols_default) ∨
    ((k ∉ map cm_chunk_id ms) ∧ live db k r).
Proof.
  revert db. induction ms as [|m ms IH]; intros db Hrec Hins Hids Hpl Hfree.
  { split; [done|]. intros k r. cbn. split; [intros; right; split; [apply not_elem_of_nil|done]|].
    intros [(m & Hm & _)|[_ ?]]; [by apply not_elem_of_nil in Hm|done]. }
  apply Forall_cons in Hins as [(Ht & Hs & Ho & Hdir & Hfate & Hadd & p & HG & Hun) Hins].
  cbn [map] in Hids, Hpl. apply NoDup_cons in Hids as [Hni Hids]. apply NoDup_cons in Hpl as [Hnp Hpl].
  assert (Hloc : ∀ c r, live db c r → c ≠ cm_chunk_id m → location (r_meta r) ≠ location m).
  { intros c r Hl _ E. eapply (Hfree m c r); [by left|done|]. unfold place, m_seg, m_ord.
    unfold location in E. congruence. }
  pose proof (λ k r, live_insert_row t m db k r Ht Hs Hloc) as Hli.
  destruct (IH (insert_row m db)) as [Hrec' Hlive]; try done.
  - eapply rec_state_insert; try done. intros f Hf. by rewrite (Hfate f Hf).
  - intros m' k r Hm' [[-> ->]|[_ Hl]]%Hli.
    + intros E. apply Hnp. apply list_elem_of_fmap. exists m'. split; [|done].
      by rewrite <-E.
    + eapply Hfree; [by right|done].
  - split; [exact Hrec'|]. intros k r. rewrite (Hlive k r), (Hli k r). cbn [map].
    rewrite not_elem_of_cons. split.
    + intros [(m' & ? & ? & ?)|[Hk [[-> ->]|[Hne ?]]]]; [|left|by right].
      * left. exists m'. split_and!; [by right|done|done].
      * exists m. split_and!; [by left|done|done].
    + intros [(m' & Hm' & -> & ->)|[[Hne Hk] ?]]; [|by auto].
      apply elem_of_cons in Hm' as [->|Hm']; [right; by auto|left; eauto].
Qed.

(* ------------------------------------------------------------------ *)
(** ** Index columns *)

Definition same_meta db db' : Prop := ∀ c, r_meta <$> db' !! c = r_meta <$> db !! c.

Lemma same_meta_trans db1 db2 db3 : same_meta db1 db2 → same_meta db2 db3 → same_meta db1 db3.
Proof. intros H12 H23 c. by rewrite H23, H12. Qed.

Lemma update_where_meta c cond f db :
  (∀ r, r_meta (f r) = r_meta r) → same_meta db (update_where t c cond f db).2.
Proof.
  intros Hf k. rewrite update_where_lookup, <-option_fmap_compose.
  apply option_fmap_ext. intros r. cbn. by destruct (_ && _).
Qed.

Lemma foldl_meta {A} (f : ChunkTable → A → ChunkTable) l db :
  (∀ db a, same_meta db (f db a)) → same_meta db (foldl f db l).
Proof.
  intros Hf. revert db. induction l as [|a l IH]; intros db; [done|]. cbn.
  by eapply same_meta_trans.
Qed.

Lemma mark_index_pending_meta ids now db : same_meta db (mark_index_pending t ids now db).
Proof. apply foldl_meta. intros ? ?. by apply update_where_meta. Qed.
Lemma mark_indexed_meta ids now db : same_meta db (mark_indexed t ids now db).
Proof. apply foldl_meta. intros ? ?. by apply update_where_meta. Qed.
Lemma mark_index_failed_meta c err now db : same_meta db (mark_index_failed t c err now db).
Proof. by apply update_where_meta. Qed.

Lemma get_meta c db db' : same_meta db db' → get t c db' = get t c db.
Proof.
  intros Hm. specialize (Hm c). unfold get, status_in, r_tenant, r_status.
  destruct (db !! c) as [r|], (db' !! c) as [r'|]; try done. cbn in Hm. injection Hm as ->. done.
Qed.

Lemma live_meta c db db' r' :
  same_meta db db' → live db' c r' → ∃ r, live db c r ∧ r_meta r = r_meta r'.
Proof.
  intros Hm (Hr & Ht & Hs). specialize (Hm c). rewrite Hr in Hm.
  destruct (db !! c) as [r|] eqn:E; [|done]. cbn in Hm. injection Hm as Hm. exists r.
  unfold TenantInv.live, r_tenant, r_status in *. by rewrite <-Hm.
Qed.

Lemma liveb_meta c db db' : same_meta db db' → liveb db' c = liveb db c.
Proof. intros Hm. unfold TenantInv.liveb. by rewrite (get_meta c db db'). Qed.

Lemma running_index rs s ads f tr :
  running rs s ads → (∀ db, same_meta db (f db)) →
  let s' := mkSt (s_store s) (with_db (f (db_of s)) (s_world s)) tr in
  running rs s' ads ∧ crash_ok (s_world s').
Proof.
  intros [Hw Hfit Hwr [Hlog Hst Hrec Hrows] Hheld Hag Hnd] Hf s'. specialize (Hf (db_of s)).
  assert (Hrec' : rec_state (after_checkpoint rs) (w_segs (s_world s)) (f (db_of s)))
    by (by eapply rec_state_index).
  split; [|by apply Hlog]. constructor; try done.
  - constructor; try done. intros c r a Hl Ha. destruct (live_meta _ _ _ _ Hf Hl) as (r0 & Hl0 & E).
    unfold m_seg, m_ord. rewrite <-E. by apply Hrows.
  - intros c r Hl. destruct (live_meta _ _ _ _ Hf Hl) as (r0 & Hl0 & E).
    unfold held_in, m_seg, m_ord. rewrite <-E. by apply Hheld.
  - intros c. unfold db_of at 1 2. cbn. by rewrite (liveb_meta c _ _ Hf).
  - intros c r Hl. destruct (live_meta _ _ _ _ Hf Hl) as (r0 & Hl0 & E). by eapply Hnd.
Qed.

(** What an index update, or nothing, leaves as it was. *)
Definition index_step s s' : Prop :=
  s_store s' = s_store s ∧ ∀ c, get t c (db_of s') = get t c (db_of s).

Lemma runs_index rs s ads f :
  running rs s ads → (∀ db, same_meta db (f db)) →
  runs (m_effect (λ w, with_db (f (w_db w)) w)) s crash_ok (λ _ s',
    running rs s' ads ∧ index_step s s').
Proof.
  intros Hr Hf. apply runs_effect.
  - by apply (running_index rs s ads f []).
  - split; [by apply running_index|]. split; [done|]. intros c. by apply get_meta.
Qed.

Lemma runs_index_failed_many rs s ads ids err now :
  running rs s ads →
  runs (mark_index_failed_many t ids err now) s crash_ok (λ _ s',
    running rs s' ads ∧ index_step s s').
Proof.
  revert s. induction ids as [|c ids IH]; intros s Hr; [by apply runs_ret|].
  apply runs_bind. eapply runs_mono.
  { apply (runs_index rs s ads (mark_index_failed t c err now)); [done|].
    intros db. apply mark_index_failed_meta. }
  cbn beta. intros _ s1 [Hr1 [Hs1 Hg1]]. eapply runs_mono; [by apply IH|].
  cbn beta. intros _ s2 [Hr2 [Hs2 Hg2]]. split; [done|]. split; [congruence|].
  intros k. by rewrite Hg2.
Qed.

(* ------------------------------------------------------------------ *)
(** ** Checkpoints *)

(** Segment operations keep the running state. *)
Lemma running_keeps rs s ads s' ads' :
  running rs s ads → keeps (after_checkpoint rs) s ads s' ads' → running rs s' ads'.
Proof.
  intros [Hw Hfit (wal & Hwal & Hend) Hrd Hheld Hag Hnd] Hk.
  pose proof (keeps_ready _ _ _ _ _ _ _ _ Hrd Hk) as Hrd'.
  pose proof (k_same _ _ _ _ _ _ _ _ Hk) as (Ew & Edb & _ & Et & _).
  unfold db_of in *. constructor; unfold db_of; rewrite ?Edb; try done.
  - congruence.
  - exists wal. split; [congruence|done].
  - intros c r Hl. destruct (Hheld c r Hl) as (p & HG & Hh). exists p. split; [done|].
    apply (k_held _ _ _ _ _ _ _ _ Hk); [|exact Hh].
    by destruct (rs_live _ _ _ _ _ _ (rd_rec _ _ _ _ _ _ Hrd) c r Hl) as (? & _ & ? & _).
Qed.

Lemma runs_checkpoint rs s ads now :
  running rs s ads → all_stored (B := B) t G (w_segs (s_world s)) (db_of s) →
  wal_fits (wal_checkpoint (TenantId.as_str t) now) →
  runs (append_wal_checkpoint (TenantId.as_str t) now) s crash_ok (λ _ s',
    running (rs ++ [wal_checkpoint (TenantId.as_str t) now]) s' ads ∧
    all_stored (B := B) t G (w_segs (s_world s')) (db_of s') ∧ db_of s' = db_of s).
Proof.
  intros Hr Hall Hck. pose proof Hr as [Hw Hfit (wal & Hwal & Hend) Hrd Hheld Hag Hnd].
  set (ck := wal_checkpoint _ _) in *.
  assert (Hnil : after_checkpoint (rs ++ [ck]) = []) by (by apply after_checkpoint_checkpoint).
  assert (Hrec0 : rec_state [] (w_segs (s_world s)) (db_of s)).
  { eapply rec_state_nil; [apply Hrd|done|exact Hag]. }
  eapply runs_mono; [apply (runs_wal_append rs [ck] s wal _ Hw Hfit)|]; try done.
  - by constructor.
  - intros [|n]; cbn; [rewrite app_nil_r; apply Hrd|]. by rewrite take_nil, Hnil.
  - cbn beta. intros _ s' (wal' & tr & Es & Hend').
    assert (Hfit' : Forall wal_fits (rs ++ [ck])) by (apply Forall_app; split; [done|by constructor]).
    destruct (ready_logged rs [ck] s ads wal' tr s' Hrd Hfit') as (Hrd' & Hh' & Edb);
      [by rewrite Hnil|done|]. rewrite Hnil in Hrd'.
    split_and!; [|by subst s'|done]. constructor; rewrite ?Edb, ?Hnil; try done; try (by subst s').
    + exists wal'. split; [by subst s'|done].
    + intros c r _ rec Hin. by apply not_elem_of_nil in Hin.
Qed.

Lemma runs_checkpoints rs s ads now n :
  running rs s ads → all_stored (B := B) t G (w_segs (s_world s)) (db_of s) →
  wal_fits (wal_checkpoint (TenantId.as_str t) now) →
  runs (m_times n (append_wal_checkpoint (TenantId.as_str t) now)) s crash_ok (λ _ s',
    (∃ rs', running rs' s' ads) ∧ db_of s' = db_of s).
Proof.
  intros Hr Hall Hck. revert rs s Hr Hall. induction n as [|n IH]; intros rs s Hr Hall.
  { apply runs_ret. eauto. }
  apply runs_bind. eapply runs_mono; [by apply (runs_checkpoint rs s ads now)|].
  cbn beta. intros _ s1 (Hr1 & Hall1 & Edb1). eapply runs_mono; [by eapply IH|].
  cbn beta. intros _ s2 (? & ?). split; [done|congruence].
Qed.

Lemma runs_checkpoint_after_batch rs s ads now writes :
  running rs s ads → wal_fits (wal_checkpoint (TenantId.as_str t) now) →
  runs (checkpoint_after_batch now (TenantId.as_str t) writes) s crash_ok (λ _ s',
    (∃ rs' ads', running rs' s' ads') ∧ db_of s' = db_of s).
Proof.
  intros Hr Hck. unfold checkpoint_after_batch. apply runs_bind, runs_store.
  destruct (_ || _); [apply runs_ret; eauto|]. apply runs_bind, runs_set_store.
  set (s1 := mkSt _ _ _).
  assert (Hr1 : running rs s1 ads).
  { destruct Hr as [? ? ? [? [] ? ?] ? ? ?]. do 2 (constructor; try done). }
  destruct (_ =? 0); [apply runs_ret; split; [eauto|done]|]. apply runs_bind.
  eapply runs_mono; [apply (runs_finalize_active t G K (after_checkpoint rs) s1 ads), Hr1|].
  cbn beta. intros _ s2 (ads2 & Hk & Hn & Hheld).
  pose proof (running_keeps _ _ _ _ _ Hr1 Hk) as Hr2.
  pose proof (k_same _ _ _ _ _ _ _ _ Hk) as (_ & Edb & _).
  assert (Hall : all_stored (B := B) t G (w_segs (s_world s2)) (db_of s2)).
  { intros c r Hl. unfold db_of in Hl. rewrite Edb in Hl.
    destruct (rn_held _ _ _ Hr1 c r Hl) as (p & HG & Hh). exists p. split; [done|].
    apply Hheld; [|exact Hh].
    by destruct (rs_live _ _ _ _ _ _ (rd_rec _ _ _ _ _ _ (rn_ready _ _ _ Hr1)) c r Hl)
      as (? & _ & ? & _). }
  eapply runs_mono; [by eapply (runs_checkpoints rs s2 ads2)|].
  cbn beta. intros _ s3 ([rs' Hr3] & E3). split; [eauto|]. rewrite E3. exact Edb.
Qed.

(* ------------------------------------------------------------------ *)
(** ** Deleting *)

(** The log grows by records that are not checkpoints and contradict no
    fate. *)
Lemma rec_state_grows rs rs' segs db n :
  rec_state (after_checkpoint rs) segs db →
  Forall (λ x, is_checkpoint x = false) rs' → Forall (rec_wf t G (TK := TK)) rs' →
  (∀ c f n, K !! c = Some f → fate_ok t (after_checkpoint rs) db c f →
     fate_ok t (after_checkpoint rs ++ take n rs') db c f) →
  rec_state (after_checkpoint (rs ++ take n rs')) segs db.
Proof.
  intros Hrec Hck Hwf Hno. rewrite after_checkpoint_app by (by apply Forall_take).
  apply rec_state_suffix_app; [done|by apply Forall_take|eauto].
Qed.

Lemma runs_delete_live rs s ads c r now op :
  running rs s ads → live (db_of s) c r → (∀ f, K !! c = Some f → ∃ m, f = Maybe m) →
  wal_fits (wal_delete (TenantId.as_str t) (uuid_to_string c) now) →
  runs (append_wal_delete (TenantId.as_str t) (uuid_to_string c) now op ;;;
        m_delete_row t c (r_meta r)) s crash_ok (λ _ s',
    (∃ rs', running rs' s' ads) ∧ db_of s' = (mark_deleted t c (db_of s)).2).
Proof.
  intros Hr Hl HK Hfd. pose proof Hr as [Hw Hfit (wal & Hwal & Hend) Hrd Hheld Hag Hnd].
  set (del := wal_delete _ _ _) in *.
  assert (Hdel : delete_of c del) by done.
  assert (Hsuf : after_checkpoint (rs ++ [del]) = after_checkpoint rs ++ [del])
    by (apply after_checkpoint_app; by constructor).
  assert (Hgr : ∀ n, rec_state (after_checkpoint (rs ++ take n [del])) (w_segs (s_world s)) (db_of s)).
  { intros n. apply rec_state_grows; [apply Hrd|by constructor| |].
    - constructor; [|done]. split; [done|]. by exists c.
    - intros k f [|n'] Hk Hf; cbn; [by rewrite app_nil_r|]. rewrite take_nil.
      destruct (decide (k = c)) as [->|Hne].
      + destruct (HK f Hk) as [m ->]. by apply fate_ok_delete.
      + apply fate_ok_other; [|done].
        intros (rec & ->%list_elem_of_singleton & [[? _]|[_ E]]); [done|].
        apply Hne. by apply uuid_to_string_inj. }
  assert (Hfit' : Forall wal_fits (rs ++ [del])) by (apply Forall_app; split; [done|by constructor]).
  apply runs_bind. eapply runs_mono; [apply (runs_wal_append rs [del] s wal _ Hw Hfit)|]; try done.
  { by constructor. }
  cbn beta. intros _ s1 (wal' & tr & Es1 & Hend1).
  destruct (ready_logged rs [del] s ads wal' tr s1 Hrd Hfit' (Hgr 1%nat) Es1) as (Hrd1 & Hh1 & Edb1).
  eapply runs_mono.
  { apply (runs_delete_row t G K (after_checkpoint (rs ++ [del])) s1 ads c r); [done|by rewrite Edb1|].
    exists del. rewrite Hsuf. split; [apply elem_of_app; right; by left|done]. }
  cbn beta. rewrite Edb1. intros _ s2 (Hrd2 & (Ew2 & Et2 & _) & _ & Edb2 & Hh2).
  assert (Hl2 : ∀ k r', live (db_of s2) k r' ↔ k ≠ c ∧ live (db_of s) k r').
  { intros. rewrite Edb2. apply live_mark_deleted. }
  split; [|done]. exists (rs ++ [del]). constructor; try done.
  - rewrite Ew2. by subst s1.
  - exists wal'. rewrite Et2. by subst s1.
  - intros k r' [Hne Hk]%Hl2. destruct (Hheld k r' Hk) as (p & HG & Hh). exists p. split; [done|].
    apply (Hh2 k); eauto.
  - intros k. rewrite Hsuf. unfold alive_after. rewrite foldl_app. cbn. fold (alive_after k
      (liveb (db_of s2) k) (after_checkpoint rs)).
    destruct (decide (k = c)) as [->|Hne].
    + rewrite alive_step_delete by done. symmetry. apply liveb_from_iff. split; [done|].
      by intros (r' & [? _]%Hl2).
    + assert (Elb : liveb (db_of s2) k = liveb (db_of s) k).
      { apply liveb_ext. intros r'. rewrite Hl2. naive_solver. }
      rewrite Elb, Hag. apply alive_step_other; [by intros [? _]|].
      intros [_ Ek]. apply Hne. by apply uuid_to_string_inj.
  - intros k r' [Hne Hk]%Hl2 rec Hin. rewrite Hsuf in Hin.
    apply elem_of_app in Hin as [Hin| ->%list_elem_of_singleton]; [by eapply Hnd|].
    intros [_ Ek]. apply Hne. by apply uuid_to_string_inj.
Qed.

(* ------------------------------------------------------------------ *)
(** ** Reading *)

Lemma runs_read_active suffix s ads seg ord p :
  ready suffix s ads → 0 ≤ ord → held (s_store s) (w_segs (s_world s)) ads seg ord p →
  runs (read_from_active_segment seg ord) s crash_ok (λ res s', keeps suffix s ads s' ads ∧
    (res = Some p ∨ res = None ∧ s' = s ∧ stored_at (w_segs (s_world s)) seg ord p)).
Proof.
  intros Hrd Ho Hh. pose proof Hrd as [Hlog Hst Hrec Hrows].
  unfold read_from_active_segment. apply runs_bind, runs_store.
  destruct (ts_active_segment (s_store s)) as [a|] eqn:Ha.
  2: { apply runs_ret. split; [by apply keeps_refl|right]. split_and!; [done|done|].
       destruct Hh as [?|(a & Ha' & _)]; [done|congruence]. }
  destruct (Z.eqb_spec (sw_id (as_writer a)) seg) as [<-|Hne].
  2: { apply runs_ret. split; [by apply keeps_refl|right]. split_and!; [done|done|].
       destruct Hh as [?|(a' & Ha' & E & _)]; [done|congruence]. }
  destruct Hh as [Hs|(a' & Ha' & _ & Hp)]; [exfalso; by eapply active_not_stored|].
  pose proof (so_active _ _ _ Hst) as Hact. rewrite Ha in Hact, Ha'. injection Ha' as <-.
  destruct Hact as (d & Hd & Hw & Hcnt & Hle & Hid). apply runs_bind, runs_world.
  unfold seg_dir. rewrite Hd. cbn [default id].
  pose proof (writer_read_no_meta ord (as_writer a) d) as Hno.
  pose proof (writer_read_chunk_spec (as_writer a) d ads ord Hw Ho) as Hsp.
  destruct (writer_read_chunk ord (as_writer a) d) as [[res writer] ops]. cbn [snd] in Hno.
  destruct Hsp as (-> & Hw' & Hid' & Hm'). apply runs_bind.
  apply (runs_active_segops t G K suffix s ads a d); try done.
  intros tr. apply runs_bind, runs_set_store. eapply runs_lift; [done|]. cbn [s_store s_world].
  split; [|left; exact Hp]. apply keeps_active; try done. congruence.
Qed.

Lemma runs_read_payload suffix s ads c seg ord p :
  ready suffix s ads → 0 ≤ ord → held (s_store s) (w_segs (s_world s)) ads seg ord p →
  runs (read_payload_fallback c seg ord) s crash_ok (λ res s',
    res = Some p ∧ keeps suffix s ads s' ads).
Proof.
  intros Hrd Ho Hh. unfold read_payload_fallback. apply runs_bind.
  eapply runs_mono; [by apply (runs_read_active suffix s ads seg ord p)|].
  cbn beta. intros res s' (Hk & [->|(-> & -> & Hs)]); [by apply runs_ret|].
  apply runs_bind, runs_store. destruct Hs as (d & ds & dead & Hd & Hsc & Htb & Hp & Hnd).
  pose proof (rd_store _ _ _ _ _ _ Hrd) as Hst.
  destruct (so_all _ _ _ Hst seg d Hd) as [Hu|[reader Hld]].
  { by eapply unloadable_not_complete in Hu. }
  rewrite Hld. destruct (so_loaded _ _ _ Hst seg reader Hld) as (d' & ds' & dead' & Hd' & Hsc' & Htb' & Hro).
  rewrite Hd in Hd'. simplify_eq. rewrite (seg_complete_inj _ _ _ Hsc Hsc') in Hp.
  eapply runs_lift; [|split; [reflexivity|exact Hk]].
  rewrite (reader_read_complete reader seg ds' dead' ord Hro Ho), decide_False; [cbn; by rewrite Hp|].
  destruct Htb as (tb & E & Hi), Htb' as (tb' & E' & Hi'). rewrite E in E'. simplify_eq.
  by rewrite <-Hi', Hi.
Qed.

Lemma runs_get_chunk_live suffix s ads c r p chunk :
  ready suffix s ads → live (db_of s) c r → held_in s ads r p → json_from_slice p = Some chunk →
  runs (get_chunk t c) s crash_ok (λ res s',
    res = Some (set_status (r_status r) chunk) ∧ keeps suffix s ads s' ads).
Proof.
  intros Hrd Hl Hh Hj. unfold get_chunk. apply runs_bind, runs_world. fold (db_of s).
  assert (Eg : get t c (db_of s) = Some (r_meta r)) by (apply get_live; eauto). rewrite Eg.
  rewrite bool_decide_false by apply Hl. apply runs_bind.
  assert (Ho : 0 ≤ cm_ordinal (r_meta r)).
  { by destruct (rs_live _ _ _ _ _ _ (rd_rec _ _ _ _ _ _ Hrd) c r Hl) as (? & _ & ? & _). }
  eapply runs_mono; [by apply (runs_read_payload suffix s ads c _ _ p Hrd Ho)|].
  cbn beta. intros res s' (-> & Hk). apply runs_bind.
  eapply runs_lift; [unfold decode_chunk; rewrite Hj; reflexivity|]. by apply runs_ret.
Qed.

Lemma runs_get_chunk_dead s c :
  liveb (db_of s) c = false →
  runs (get_chunk t c) s crash_ok (λ res s', res = None ∧ s' = s).
Proof.
  intros Hd. unfold get_chunk. apply runs_bind, runs_world. fold (db_of s).
  unfold TenantInv.liveb in Hd. destruct (get t c (db_of s)); [done|]. by apply runs_ret.
Qed.

End running.
