(* ===== verification/AddFacts.v ===== *)
(** * Adding a batch of chunks

    The whole body of the add path for one tenant: log records, payloads,
    rows, index state, checkpoint.  The ghost map of payloads grows by the
    batch before the first effect. *)

From S2P Require Import Prelude Crates Types WalFormat WalReader Files WalWriter.
From S2P Require Import SegmentFormat Segment SegmentFacts Metadata MetadataFacts.
From S2P Require Import TenantStore Persistent Runs TenantInv TenantFacts Recovery PersistentFacts.

Open Scope Z_scope.

Section grow.
Context `{BOL : ByteOrderLaws} `{CRL : Crc32Laws} `{RBL : RoaringLaws B}.
Context `{BWL : BincodeLaws WalRecord} `{JC : Json MemoryChunk}.
Context `{UUL : UuidLaws ChunkId} `{TT : TaskTables TK}.
Context `{CAP : BufCap} `{BM : Bincode SegmentMeta} `{UC : Unicode}.
Implicit Types (s : St B TK) (ads : list (list byte)) (rs : list WalRecord) (db : ChunkTable).

(** New payloads for chunks without a row, and new fates. *)
Lemma running_grow t G G' K K' rs s ads :
  running t G K rs s ads → G ⊆ G' →
  (∀ c, is_Some (G' !! c) → G !! c = None → db_of s !! c = None) →
  (∀ c f, K' !! c = Some f → K !! c = Some f ∨ fate_ok t (after_checkpoint rs) (db_of s) c f) →
  running t G' K' rs s ads.
Proof.
  intros [Hw Hfit Hwr [Hlog Hst Hrec Hrows] Hheld Hag Hnd] Hsub Hnew HD. constructor; try done.
  - constructor; [by apply log_ok_synced|done| |].
    + by apply (rec_state_grow t G G' K K').
    + intros c r a Hl Ha Hseg. destruct (Hrows c r a Hl Ha Hseg) as (p & HG & Hp).
      exists p. split; [by eapply lookup_weaken|done].
  - intros c r Hl. destruct (Hheld c r Hl) as (p & HG & Hh). exists p.
    split; [by eapply lookup_weaken|done].
Qed.

(** Payloads of chunks the store does not know can be forgotten. *)
Lemma running_drop t G K rs s ads (ids : list ChunkId) :
  running t G K rs s ads →
  (∀ c, c ∈ ids → db_of s !! c = None ∧
     ∀ rec, rec ∈ after_checkpoint rs → wr_chunk_id rec ≠ uuid_to_string c) →
  running t (filter (λ kp, kp.1 ∉ ids) G) K rs s ads.
Proof.
  intros [Hw Hfit Hwr [Hlog Hst Hrec Hrows] Hheld Hag Hnd] Hids.
  set (G' := filter _ G).
  assert (Hkeep : ∀ c p, G !! c = Some p → c ∉ ids → G' !! c = Some p).
  { intros c p Hp Hni. by apply map_lookup_filter_Some. }
  assert (Hlv : ∀ c r, live t (db_of s) c r → c ∉ ids).
  { intros c r (E & _) Hin. destruct (Hids c Hin). congruence. }
  assert (Hrec' : rec_state (B := B) (TK := TK) t G' K (after_checkpoint rs) (w_segs (s_world s)) (db_of s)).
  { destruct Hrec as [Hsuf Hsegs Htab Hown Hlive Hright Hdead]. constructor; try done.
    - rewrite Forall_forall in Hsuf |- *. intros rec Hin. destruct (Hsuf rec Hin) as [Ht Hr]. split; [done|].
      destruct (record_type rec); try done. destruct Hr as (c & Hc & Hp). exists c. split; [done|].
      apply Hkeep; [done|]. intros Hc'. by apply (proj2 (Hids c Hc') rec).
    - intros c r Hr [p Hp]. apply map_lookup_filter_Some in Hp as [Hp _]. by eapply Hown.
    - intros c r Hl. destruct (Hlive c r Hl) as (p & Hp & ?). exists p. eauto.
    - intros c r p Hl Hs. eauto. }
  constructor; try done.
  - constructor; [by apply log_ok_synced|done|exact Hrec'|].
    intros c r a Hl Ha Hseg. destruct (Hrows c r a Hl Ha Hseg) as (p & Hp & ?). exists p. eauto.
  - intros c r Hl. destruct (Hheld c r Hl) as (p & Hp & ?). exists p. eauto.
Qed.

(** The fate of a chunk right now, and while an operation on it is under
    way. *)
Definition fate_now (t : TenantId) (db : ChunkTable) (c : ChunkId) : Fate :=
  match get t c db with Some m => Alive (unplaced m) | None => Dead end.
Definition fate_open (t : TenantId) (db : ChunkTable) (c : ChunkId) : Fate :=
  match get t c db with Some m => Maybe (unplaced m) | None => Dead end.

Lemma running_fates t G K rs s ads c :
  running t G K rs s ads →
  fate_ok t (after_checkpoint rs) (db_of s) c (fate_now t (db_of s) c) ∧
  fate_ok t (after_checkpoint rs) (db_of s) c (fate_open t (db_of s) c).
Proof.
  intros Hr. unfold fate_now, fate_open. destruct (get t c (db_of s)) as [m|] eqn:Eg.
  - apply get_live in Eg as (r & Hl & ->). pose proof (live_liveb _ _ _ _ Hl) as Hlb.
    assert (Hm : fate_meta t (after_checkpoint rs) (db_of s) c (unplaced (r_meta r))).
    { split_and!; [by apply (rn_nodel _ _ _ _ _ _ Hr c r)| |congruence].
      intros r' Hl'. destruct Hl as (E & _), Hl' as (E' & _). congruence. }
    split; [by split|by intros _].
  - cbn [fate_ok]. rewrite (rn_agree _ _ _ _ _ _ Hr). unfold liveb. by rewrite Eg.
Qed.

Lemma running_set_fate t G K rs s ads c f :
  running t G K rs s ads → fate_ok t (after_checkpoint rs) (db_of s) c f →
  running t G (<[c := f]> K) rs s ads.
Proof.
  intros Hr Hf. eapply running_grow; [done|done|intros ? [? ?]; congruence|].
  intros k f' [[<- <-]|[Hne Hk]]%lookup_insert_Some; [by right|by left].
Qed.

(** [delete_chunk]: while it runs the chunk may be alive or dead after a
    crash; when it returns it is gone from the table and must stay dead. *)
Lemma runs_delete_chunk t G K rs s ads now c :
  running t G K rs s ads →
  wal_fits (wal_delete (TenantId.as_str t) (uuid_to_string c) now) →
  runs (delete_chunk now t c) s (crash_ok (B := B) t G (<[c := fate_open t (db_of s) c]> K)) (λ res s', ∃ rs',
    res = liveb t (db_of s) c ∧ running t G (<[c := Dead]> K) rs' s' ads ∧
    get t c (db_of s') = None ∧ ∀ k, k ≠ c → get t k (db_of s') = get t k (db_of s)).
Proof.
  intros Hr0 Hfit. unfold delete_chunk, ensure_writable.
  destruct (running_fates _ _ _ _ _ _ c Hr0) as [_ Hopen].
  pose proof (running_set_fate _ _ _ _ _ _ _ _ Hr0 Hopen) as Hr. clear Hr0 Hopen.
  apply runs_bind, runs_bind, runs_store.
  rewrite (so_rw _ _ _ (rd_store _ _ _ _ _ _ (rn_ready _ _ _ _ _ _ Hr))). apply runs_ret.
  apply runs_bind, runs_world. fold (db_of s).
  assert (Hgrow : ∀ f rs' s', running t G (<[c := f]> K) rs' s' ads → get t c (db_of s') = None →
    running t G (<[c := Dead]> K) rs' s' ads).
  { intros f rs' s' Hr' Hz. rewrite <-(insert_insert_eq K c Dead f). apply running_set_fate; [done|].
    destruct (running_fates _ _ _ _ _ _ c Hr') as [Hf _]. unfold fate_now in Hf. by rewrite Hz in Hf. }
  unfold liveb at 1. destruct (get t c (db_of s)) as [m|] eqn:Eg.
  - unfold fate_open in *. rewrite Eg in *.
    apply get_live in Eg as (r & Hl & ->). rewrite bool_decide_false by apply Hl.
    eapply runs_mono with (Q := λ a s', a = true ∧ (∃ rs', running t G (<[c := Maybe (unplaced (r_meta r))]> K) rs' s' ads) ∧
      db_of s' = (mark_deleted t c (db_of s)).2).
    + assert (HK : ∀ f, <[c := Maybe (unplaced (r_meta r))]> K !! c = Some f → ∃ m, f = Maybe m).
      { intros f. rewrite lookup_insert_eq. intros [= <-]. eauto. }
      pose proof (runs_delete_live t G _ rs s ads c r now "delete" Hr Hl HK Hfit)
        as (u & s' & tr & E & Htr & HI & HQ).
      exists true, s', tr. split_and!; try done; [|apply HQ..].
      unfold m_bind in *. destruct (append_wal_delete _ _ _ _ s) as [[] ?]; [|done].
      by rewrite E.
    + cbn beta. intros a s' (-> & (rs' & Hr') & Edb). exists rs'.
      assert (Hg : ∀ k, get t k (db_of s') = if decide (k = c) then None else get t k (db_of s)).
      { intros k. apply option_eq. intros m. rewrite get_live, Edb.
        setoid_rewrite live_mark_deleted. case_decide; [naive_solver|]. rewrite get_live. naive_solver. }
      assert (Hz : get t c (db_of s') = None) by (by rewrite Hg, decide_True).
      split_and!; [done|by eapply Hgrow|done|]. intros k Hk. by rewrite Hg, decide_False.
  - apply runs_ret. exists rs. split_and!; [done|by eapply Hgrow|done|done].
Qed.

End grow.

(* ------------------------------------------------------------------ *)
(** ** The add path *)

Section add.
Context `{BOL : ByteOrderLaws} `{CRL : Crc32Laws} `{RBL : RoaringLaws B}.
Context `{BWL : BincodeLaws WalRecord} `{JCL : JsonLaws MemoryChunk}.
Context `{UUL : UuidLaws ChunkId} `{TT : TaskTables TK}.
Context `{CAP : BufCap} `{BM : Bincode SegmentMeta} `{UC : Unicode}.
Implicit Types (s : St B TK) (ads : list (list byte)) (rs : list WalRecord) (db : ChunkTable).

Variable t : TenantId.
Variable G : gmap ChunkId (list byte).
Variable K : gmap ChunkId Fate.

Definition row_record (row : PendingChunkAdd) : WalRecord :=
  wal_add (TenantId.as_str t) (uuid_to_string (pa_chunk_id row))
    (mc_timestamp_created (pa_chunk row)) (pa_payload row).

(** What [prepare_pending_chunks] hands over: chunks of the tenant with
    their serialization, ids that are distinct and new. *)
Record batch_ok (suffix : list WalRecord) (db : ChunkTable) (rows : list PendingChunkAdd) : Prop := {
  bo_nodup : NoDup (map pa_chunk_id rows);
  bo_row row : row ∈ rows →
    mc_chunk_id (pa_chunk row) = pa_chunk_id row ∧ mc_tenant_id (pa_chunk row) = t ∧
    mc_status (pa_chunk row) ≠ Deleted ∧ pa_payload row = json_to_vec (pa_chunk row) ∧
    zlen (pa_payload row) < 2 ^ 32 ∧ wal_fits (row_record row);
  bo_new row : row ∈ rows →
    db !! pa_chunk_id row = None ∧ G !! pa_chunk_id row = None ∧
    (∀ f, K !! pa_chunk_id row = Some f → f = Maybe (unplaced (added_metadata row 0 0))) ∧
    ∀ rec, rec ∈ suffix → wr_chunk_id rec ≠ uuid_to_string (pa_chunk_id row);
}.

(** The payloads of a batch, on top of [G]. *)
Definition batch_payloads (rows : list PendingChunkAdd) : gmap ChunkId (list byte) :=
  list_to_map (map (λ row, (pa_chunk_id row, pa_payload row)) rows) ∪ G.

Lemma batch_payloads_new rows row :
  NoDup (map pa_chunk_id rows) → row ∈ rows →
  batch_payloads rows !! pa_chunk_id row = Some (pa_payload row).
Proof.
  intros Hnd Hin. unfold batch_payloads. apply lookup_union_Some_l.
  apply elem_of_list_to_map_1.
  - rewrite <-list_fmap_compose. exact Hnd.
  - apply list_elem_of_fmap. by exists row.
Qed.

Lemma batch_payloads_old rows c :
  c ∉ map pa_chunk_id rows → batch_payloads rows !! c = G !! c.
Proof.
  intros Hni. unfold batch_payloads. apply lookup_union_r. apply not_elem_of_list_to_map_1.
  by rewrite <-list_fmap_compose.
Qed.

Lemma elem_of_ids rows c :
  c ∈ map pa_chunk_id rows ↔ ∃ row, row ∈ rows ∧ c = pa_chunk_id row.
Proof. rewrite (list_elem_of_fmap pa_chunk_id rows c). naive_solver. Qed.

Lemma batch_payloads_sub rs db rows : batch_ok rs db rows → G ⊆ batch_payloads rows.
Proof.
  intros [_ _ Hnew]. apply map_subseteq_spec. intros c p HG.
  destruct (decide (c ∈ map pa_chunk_id rows)) as [(row & Hin & ->)%elem_of_ids|Hni].
  - destruct (Hnew row Hin) as (_ & ? & _). congruence.
  - by rewrite batch_payloads_old.
Qed.

Lemma batch_payloads_ok rs db rows :
  batch_ok rs db rows → (∀ c p, G !! c = Some p → payload_ok t c p) →
  ∀ c p, batch_payloads rows !! c = Some p → payload_ok t c p.
Proof.
  intros [Hnd Hrow _] HG c p Hc.
  destruct (decide (c ∈ map pa_chunk_id rows)) as [(row & Hin & ->)%elem_of_ids|Hni].
  - rewrite batch_payloads_new in Hc by done. injection Hc as <-.
    destruct (Hrow row Hin) as (? & ? & ? & Ep & ? & _). split; [done|]. exists (pa_chunk row).
    split_and!; try done. rewrite Ep. apply json_roundtrip.
  - rewrite batch_payloads_old in Hc by done. by apply HG.
Qed.

(** ** The records of a batch *)

Lemma alive_after_adds c b rs :
  Forall (λ r, record_type r = WalAdd) rs →
  (b = true ∨ ∃ r, r ∈ rs ∧ add_of c r) → alive_after c b rs = true.
Proof.
  unfold alive_after. intros Hall. revert b.
  induction Hall as [|r rs Hr Hall IH]; intros b Hb; cbn.
  { destruct Hb as [?|(r & Hr & _)]; [done|by apply not_elem_of_nil in Hr]. }
  apply IH. destruct Hb as [->|(r' & [->|Hin]%elem_of_cons & Ha)]; [| |by eauto].
  - left. unfold alive_step. case_bool_decide; [|done]. by rewrite Hr.
  - left. by apply alive_step_add.
Qed.

(** Who is alive once the records of a batch were appended. *)
Lemma alive_batch rows k b suffix :
  (k ∈ map pa_chunk_id rows → b = true) →
  (k ∉ map pa_chunk_id rows → alive_after k b suffix = b) →
  alive_after k b (suffix ++ map row_record rows) = b.
Proof.
  intros Hin Hni. unfold alive_after. rewrite foldl_app. fold (alive_after k b suffix).
  destruct (decide (k ∈ map pa_chunk_id rows)) as [Hk|Hk].
  - rewrite (Hin Hk). apply alive_after_adds; [by apply Forall_forall; intros ? (? & -> & _)%list_elem_of_fmap|].
    right. apply elem_of_ids in Hk as (row & Hrow & ->). exists (row_record row).
    split; [apply list_elem_of_fmap; by exists row|done].
  - rewrite (Hni Hk). apply alive_after_none.
    intros (rec & (row & -> & Hrow)%list_elem_of_fmap & [[_ E]|[? _]]); [|done].
    cbn in E. apply Hk. apply uuid_to_string_inj in E as <-. apply elem_of_ids. eauto.
Qed.

Lemma row_records_wf suffix db rows :
  batch_ok suffix db rows →
  Forall (rec_wf t (batch_payloads rows) (TK := TK)) (map row_record rows) ∧
  Forall (λ x, is_checkpoint x = false) (map row_record rows) ∧
  Forall wal_fits (map row_record rows) ∧
  ∀ c f n, K !! c = Some f → fate_ok t suffix db c f →
    fate_ok t (suffix ++ take n (map row_record rows)) db c f.
Proof.
  intros [Hnd Hrow Hnew]. split_and!.
  - apply Forall_forall. intros rec (row & -> & Hin)%list_elem_of_fmap. split; [done|]. cbn.
    exists (pa_chunk_id row). split; [done|]. by apply batch_payloads_new.
  - apply Forall_forall. by intros rec (row & -> & Hin)%list_elem_of_fmap.
  - apply Forall_forall. intros rec (row & -> & Hin)%list_elem_of_fmap. by apply Hrow.
  - intros c f n HK Hf.
    destruct (decide (c ∈ map pa_chunk_id rows)) as [(row & Hin & ->)%elem_of_ids|Hni].
    + destruct (Hnew row Hin) as (Hdb & _ & Hk & Hlog). rewrite (Hk f HK).
      intros _. split_and!.
      * intros rec [Hr|Hr]%elem_of_app [Ht E]; [by eapply Hlog|].
        apply elem_of_take in Hr as (i & Hi & _). apply list_elem_of_lookup_2 in Hi.
        apply list_elem_of_fmap in Hi as (row' & -> & _). done.
      * intros r (E & _). congruence.
      * intros _ rec chunk [Hr|Hr]%elem_of_app [Ht E] Hj; [exfalso; by eapply Hlog|].
        apply elem_of_take in Hr as (i & Hi & _). apply list_elem_of_lookup_2 in Hi.
        apply list_elem_of_fmap in Hi as (row' & -> & Hin'). cbn in E, Hj.
        apply uuid_to_string_inj in E. assert (row' = row) as -> by (by eapply NoDup_map_inj).
        destruct (Hrow row Hin) as (Hc & _ & _ & Ep & _). rewrite Ep, json_roundtrip in Hj.
        injection Hj as <-. unfold unplaced, recovered_metadata, added_metadata. cbn. by rewrite Hc.
    + apply fate_ok_other; [|done]. intros (rec & Hr & Hx). apply Hni.
      apply elem_of_take in Hr as (i & Hi & _). apply list_elem_of_lookup_2 in Hi.
      apply list_elem_of_fmap in Hi as (row' & -> & Hin').
      destruct Hx as [[_ E]|[? _]]; [|done]. cbn in E. apply uuid_to_string_inj in E as <-.
      apply elem_of_ids. eauto.
Qed.

(** ** From the written payloads to the rows *)

Lemma placed_ids s ads rows ms :
  Forall2 (placed t s ads) rows ms → map cm_chunk_id ms = map pa_chunk_id rows.
Proof. induction 1 as [|row m rows ms Hp _ IH]; [done|]. cbn. rewrite IH, (pl_meta _ _ _ _ _ Hp). done. Qed.

Lemma placed_row s ads rows ms m :
  Forall2 (placed t s ads) rows ms → m ∈ ms → ∃ row, row ∈ rows ∧ placed t s ads row m.
Proof.
  intros Hpl [i Hi]%list_elem_of_lookup. destruct (Forall2_lookup_r _ _ _ _ _ Hpl Hi) as (row & Hr & ?).
  exists row. split; [by eapply list_elem_of_lookup_2|done].
Qed.

Lemma placed_meta s ads rows ms row :
  Forall2 (placed t s ads) rows ms → row ∈ rows → ∃ m, m ∈ ms ∧ placed t s ads row m.
Proof.
  intros Hpl [i Hi]%list_elem_of_lookup. destruct (Forall2_lookup_l _ _ _ _ _ Hpl Hi) as (m & Hm & ?).
  exists m. split; [by eapply list_elem_of_lookup_2|done].
Qed.

(** The table after the insertion, seen from the state [s] before the batch. *)
Lemma running_inserted rs s ads rows s3 ads3 ms tr :
  let G' := batch_payloads rows in
  let suffix := after_checkpoint rs ++ map row_record rows in
  running t G' K rs s ads → batch_ok (after_checkpoint rs) (db_of s) rows →
  ready t G' K suffix s3 ads3 → db_of s3 = db_of s →
  (∀ r p, 0 ≤ m_ord r → held_in s ads r p → held_in s3 ads3 r p) →
  w_wal (s_world s3) = Some (file_of (wal_bytes (rs ++ map row_record rows))) →
  (∃ wal, ts_wal (s_store s3) = Some wal ∧
     at_end (ww_handle wal) (file_of (wal_bytes (rs ++ map row_record rows)))) →
  Forall2 (placed t s3 ads3) rows ms → NoDup (map place ms) →
  let s4 := mkSt (s_store s3) (with_db (insert_many ms (db_of s3)) (s_world s3)) tr in
  running t G' K (rs ++ map row_record rows) s4 ads3 ∧ crash_ok (B := B) t G' K (s_world s4) ∧
  (∀ k r, live t (db_of s4) k r ↔
     (∃ m, m ∈ ms ∧ k = cm_chunk_id m ∧ r = mkRow m index_cols_default) ∨
     ((k ∉ map pa_chunk_id rows) ∧ live t (db_of s) k r)).
Proof.
  intros G' suffix Hr Hbo [Hlog Hst Hrec Hrows] Edb Hkh Hw3 Hwr3 Hpl Hnp s4.
  pose proof Hr as [_ Hfit _ Hrd Hheld Hag Hnd].
  destruct (row_records_wf _ _ _ Hbo) as (_ & Hck & Hfit' & _).
  pose proof (placed_ids _ _ _ _ Hpl) as Eids.
  assert (Esuf : after_checkpoint (rs ++ map row_record rows) = suffix)
    by (by apply after_checkpoint_app).
  assert (Hins : Forall (insertable t G' K suffix (w_segs (s_world s3)) (B := B)) ms).
  { apply Forall_forall. intros m Hm. destruct (placed_row _ _ _ _ _ Hpl Hm) as (row & Hin & [Em Hh Ho Hd Hf]).
    destruct (bo_row _ _ _ Hbo row Hin) as (_ & Htn & Hsn & _).
    assert (Ec : cm_chunk_id m = pa_chunk_id row) by (by rewrite Em).
    split_and!; [by rewrite Em|by rewrite Em|done|done| | |].
    { intros f. rewrite Ec. destruct (bo_new _ _ _ Hbo row Hin) as (_ & _ & HK & _).
      intros HKf. by rewrite (HK f HKf), Em. }
    - exists (row_record row). split; [|by rewrite Ec]. apply elem_of_app. right.
      apply list_elem_of_fmap. by exists row.
    - exists (pa_payload row). rewrite Ec. split; [apply batch_payloads_new; [apply Hbo|done]|].
      intros p'. by eapply held_unique. }
  destruct (rec_state_insert_many t G' K suffix (w_segs (s_world s3)) ms (db_of s3) Hrec Hins)
    as [Hrec4 Hlive]; [rewrite Eids; apply Hbo|done| |].
  { intros m k r Hm Hl. destruct (placed_row _ _ _ _ _ Hpl Hm) as (row & _ & Hp).
    by apply (pl_free _ _ _ _ _ Hp k). }
  rewrite Eids, Edb in Hlive.
  assert (Hold : ∀ k r, live t (db_of s) k r → ∃ p, G' !! k = Some p ∧ held_in s3 ads3 r p).
  { intros k r Hl. destruct (Hheld k r Hl) as (p & HG & Hh). exists p. split; [done|].
    apply Hkh; [|done].
    by destruct (rs_live _ _ _ _ _ _ (rd_rec _ _ _ _ _ _ Hrd) k r Hl) as (? & _ & ? & _). }
  assert (Hnewp : ∀ m, m ∈ ms → ∃ row, row ∈ rows ∧ cm_chunk_id m = pa_chunk_id row ∧
    placed t s3 ads3 row m ∧ G' !! cm_chunk_id m = Some (pa_payload row)).
  { intros m Hm. destruct (placed_row _ _ _ _ _ Hpl Hm) as (row & Hin & Hp). exists row.
    assert (Ec : cm_chunk_id m = pa_chunk_id row) by (by rewrite (pl_meta _ _ _ _ _ Hp)).
    split_and!; try done. rewrite Ec. apply batch_payloads_new; [apply Hbo|done]. }
  assert (Hl4 : ∀ k r, live t (db_of s4) k r ↔
     (∃ m, m ∈ ms ∧ k = cm_chunk_id m ∧ r = mkRow m index_cols_default) ∨
     ((k ∉ map pa_chunk_id rows) ∧ live t (db_of s) k r)).
  { intros k r. rewrite <-(Hlive k r), <-Edb. done. }
  assert (Hlog4 : log_ok t G' K (B := B) (TK := TK) suffix (w_wal (s_world s4))) by exact Hlog.
  split_and!; [|by apply Hlog|exact Hl4]. constructor; rewrite ?Esuf; try done.
  - by apply Forall_app.
  - constructor; [done|done|exact Hrec4|].
    intros k r a [(m & Hm & -> & ->)|[_ Hl]]%Hl4 Ha Hseg.
    + destruct (Hnewp m Hm) as (row & _ & _ & Hp & HG). exists (pa_payload row). split; [done|].
      destruct (pl_held _ _ _ _ _ Hp) as [Hs|(a' & Ha' & _ & Hads)].
      * exfalso. unfold m_seg in Hseg. cbn in Hseg. rewrite Hseg in Hs. by eapply active_not_stored.
      * exact Hads.
    + apply (Hrows k r a); [by fold (db_of s3); rewrite Edb|done|done].
  - intros k r [(m & Hm & -> & ->)|[_ Hl]]%Hl4; [|by apply (Hold k)].
    destruct (Hnewp m Hm) as (row & _ & _ & Hp & HG). exists (pa_payload row). split; [done|].
    exact (pl_held _ _ _ _ _ Hp).
  - intros k. apply alive_batch.
    + intros (row & Hin & ->)%elem_of_ids. destruct (placed_meta _ _ _ _ _ Hpl Hin) as (m & Hm & Hp).
      apply liveb_true. exists (mkRow m index_cols_default). apply Hl4. left. exists m.
      split_and!; [done| |done]. by rewrite (pl_meta _ _ _ _ _ Hp).
    + intros Hni. rewrite (liveb_ext t (db_of s4) (db_of s) k); [apply Hag|].
      intros r. rewrite Hl4. split; [|by right].
      intros [(m & Hm & -> & _)|[_ ?]]; [|done]. exfalso. apply Hni. rewrite <-Eids.
      apply list_elem_of_fmap. by exists m.
  - intros k r Hl rec [Hin|(row & -> & Hin)%list_elem_of_fmap]%elem_of_app [Hdt Hdc]; [|done].
    apply Hl4 in Hl as [(m & Hm & -> & ->)|[_ Hl]]; [|by eapply (Hnd k r Hl rec)].
    destruct (Hnewp m Hm) as (row & Hrow & Ec & _). rewrite Ec in Hdc.
    destruct (bo_new _ _ _ Hbo row Hrow) as (_ & _ & _ & Hno). by apply (Hno rec).
Qed.

(** ** The whole body *)

(** Log records, payloads and rows: the part that makes the batch durable. *)
Lemma runs_add_rows rs s ads rows now (k : list ChunkMetadata → M B TK ()) Q :
  let G' := batch_payloads rows in
  running t G K rs s ads → batch_ok (after_checkpoint rs) (db_of s) rows →
  (∀ ms s4 rs4 ads4, running t G' K rs4 s4 ads4 →
     (∀ row, row ∈ rows → ∃ seg ord,
        get t (pa_chunk_id row) (db_of s4) = Some (added_metadata row seg ord)) →
     (∀ c, c ∉ map pa_chunk_id rows → get t c (db_of s4) = get t c (db_of s)) →
     runs (k ms) s4 (crash_ok (B := B) t G' K) Q) →
  runs (append_wal_add_batch (TenantId.as_str t)
          (map (λ row, (uuid_to_string (pa_chunk_id row), mc_timestamp_created (pa_chunk row),
                        pa_payload row)) rows) "add_batch" ;;;
        ms <- append_rows now rows [] ;;
        flush_active_segment_payload ;;;
        m_effect (λ w, with_db (insert_many ms (w_db w)) w) ;;;
        k ms) s (crash_ok (B := B) t G' K) Q.
Proof.
  intros G' Hr0 Hbo HQ.
  assert (Hr : running t G' K rs s ads).
  { eapply running_grow; [exact Hr0|by eapply batch_payloads_sub| |by left].
    intros c [p Hp] HG. destruct (decide (c ∈ map pa_chunk_id rows)) as [(row & Hin & ->)%elem_of_ids|Hni].
    - by apply (bo_new _ _ _ Hbo row Hin).
    - unfold G' in Hp. rewrite batch_payloads_old in Hp by done. congruence. }
  clear Hr0. pose proof Hr as [Hw Hfit (wal & Hwal & Hend) Hrd Hheld Hag Hnd].
  destruct (row_records_wf _ _ _ Hbo) as (Hwf & Hck & Hfit' & Hno).
  set (recs := map row_record rows) in *.
  assert (Hgr : ∀ n, rec_state t G' K (after_checkpoint (rs ++ take n recs)) (w_segs (s_world s)) (db_of s) (B := B) (TK := TK)).
  { intros n. apply rec_state_grows; [apply Hrd|done|done|done]. }
  unfold append_wal_add_batch. rewrite map_map. fold (row_record). apply runs_bind.
  eapply runs_mono; [apply (runs_wal_append t G' K rs recs s wal _ Hw Hfit Hfit' Hwal Hend Hgr)|].
  cbn beta. intros _ s1 (wal' & tr & Es1 & Hend1).
  assert (Hfits : Forall wal_fits (rs ++ recs)) by (by apply Forall_app).
  destruct (ready_logged t G' K rs recs s ads wal' tr s1 Hrd Hfits) as (Hrd1 & Hh1 & Edb1); [|done|].
  { specialize (Hgr (length recs)). by rewrite firstn_all in Hgr. }
  assert (Esuf : after_checkpoint (rs ++ recs) = after_checkpoint rs ++ recs)
    by (by apply after_checkpoint_app).
  rewrite Esuf in Hrd1. apply runs_bind. eapply runs_mono.
  { apply (runs_append_rows t G' K _ now rows s1 ads [] [] Hrd1); [|constructor|constructor].
    apply Forall_forall. intros row Hin. by apply (bo_row _ _ _ Hbo row Hin). }
  cbn beta. intros ms s2 (ads2 & Hk2 & Hpl2 & Hnp). cbn [app] in Hpl2.
  apply runs_bind. eapply runs_mono; [by eapply (runs_flush t G' K _ s2 ads2), keeps_ready|].
  cbn beta. intros _ s3 (Hk3 & _ & _).
  pose proof (keeps_trans _ _ _ _ _ _ _ _ _ _ Hk2 Hk3) as Hk.
  pose proof (k_same _ _ _ _ _ _ _ _ Hk) as (Ew3 & Edb3 & _ & Et3 & _).
  destruct (running_inserted rs s ads rows s3 ads2 ms
    (s_trace s3 ++ [with_db (insert_many ms (db_of s3)) (s_world s3)]) Hr Hbo) as (Hr4 & Hc4 & Hl4).
  - by eapply keeps_ready.
  - unfold db_of in *. congruence.
  - intros r p Ho Hh. apply (k_held _ _ _ _ _ _ _ _ Hk); [done|]. by apply Hh1.
  - rewrite Ew3. by subst s1.
  - exists wal'. rewrite Et3. by subst s1.
  - eapply Forall2_impl; [exact Hpl2|]. intros row m. by eapply placed_keeps.
  - done.
  - apply runs_bind, runs_effect; [exact Hc4|]. eapply HQ; [exact Hr4| |].
    + intros row Hin. destruct (placed_meta _ _ _ _ _ Hpl2 Hin) as (m & Hm & Hp).
      exists (cm_segment_id m), (cm_ordinal m). rewrite <-(pl_meta _ _ _ _ _ Hp). apply get_live.
      exists (mkRow m index_cols_default). split; [|done]. apply Hl4. left. exists m.
      split_and!; [done| |done]. by rewrite (pl_meta _ _ _ _ _ Hp).
    + intros c Hni. apply option_eq. intros m. rewrite !get_live. setoid_rewrite Hl4.
      pose proof (placed_ids _ _ _ _ Hpl2) as Eids. split; [|naive_solver].
      intros (r & [(m' & Hm' & -> & _)|[_ ?]] & ->); [|eauto]. exfalso. apply Hni.
      rewrite <-Eids. apply list_elem_of_fmap. by exists m'.
Qed.

Lemma runs_add_tenant_group rs s ads rows now lane :
  let G' := batch_payloads rows in
  running t G K rs s ads → batch_ok (after_checkpoint rs) (db_of s) rows →
  wal_fits (wal_checkpoint (TenantId.as_str t) now) →
  runs (add_tenant_group now t rows lane) s (crash_ok (B := B) t G' K) (λ _ s',
    (∃ rs' ads', running t G' K rs' s' ads') ∧
    (∀ row, row ∈ rows → ∃ seg ord,
       get t (pa_chunk_id row) (db_of s') = Some (added_metadata row seg ord)) ∧
    (∀ c, c ∉ map pa_chunk_id rows → get t c (db_of s') = get t c (db_of s))).
Proof.
  intros G' Hr Hbo Hck. unfold add_tenant_group. apply (runs_add_rows rs s ads rows now); [done|done|].
  intros ms s4 rs4 ads4 Hr4 Hnew Hold. apply runs_bind. eapply runs_mono.
  { apply (runs_index t G' K rs4 s4 ads4 (mark_index_pending t (map cm_chunk_id ms) now)); [done|].
    intros db. apply mark_index_pending_meta. }
  cbn beta. intros _ s5 (Hr5 & _ & Hg5). apply runs_bind.
  eapply (runs_mono _ _ _ (λ _ s6, running t G' K rs4 s6 ads4 ∧ index_step t s5 s6)).
  { destruct lane as [|error|].
    - apply (runs_index t G' K rs4 s5 ads4 (mark_indexed t (map cm_chunk_id ms) now)); [done|].
      intros db. apply mark_indexed_meta.
    - by apply runs_index_failed_many.
    - by apply runs_ret. }
  cbn beta. intros _ s6 (Hr6 & _ & Hg6).
  eapply runs_mono; [by apply (runs_checkpoint_after_batch t G' K rs4 s6 ads4 now)|].
  cbn beta. intros _ s7 (Hr7 & Edb7). split_and!; [done| |].
  - intros row Hin. rewrite Edb7, Hg6, Hg5. auto.
  - intros c Hc. rewrite Edb7, Hg6, Hg5. auto.
Qed.

End add.
