(* ===== verification/Rewrite.v ===== *)
(** * Rewriting finalized segments
    (src/crates/memd/src/store/persistent/recovery.rs,
     [rewrite_finalized_segments], and the result type of
     store/persistent.rs)

    Compaction on disk: every loaded segment with dead payloads is replaced by
    a new segment that holds only the live ones, or removed when nothing in it
    is live.  How the file system unlinks a directory, and whether it
    succeeds, is an argument. *)

From S2P Require Import Prelude Crates Types WalFormat Files.
From S2P Require Import SegmentFormat Segment Metadata TenantStore.
From stdpp Require Import sorting.

Open Scope Z_scope.

(* ------------------------------------------------------------------ *)
(** ** Removing a directory *)

(** The entries of a segment directory. *)
Inductive DirEntry : Type := EntryFile (k : SegFile) | EntryTomb.

Definition unlink (e : DirEntry) (d : SegDir) : SegDir :=
  match e with
  | EntryFile PayloadBin => mkSegDir None (sd_idx d) (sd_meta d) (sd_tomb d)
  | EntryFile PayloadIdx => mkSegDir (sd_payload d) None (sd_meta d) (sd_tomb d)
  | EntryFile MetaFile => mkSegDir (sd_payload d) (sd_idx d) None (sd_tomb d)
  | EntryTomb => mkSegDir (sd_payload d) (sd_idx d) (sd_meta d) None
  end.

(** What [remove_dir_all] does to one directory: the entries it unlinks, in
    the order of the file system, and whether it reaches the end, where the
    directory itself goes. *)
Record Removal : Type := mkRemoval { rv_unlinked : list DirEntry; rv_ok : bool }.

(* ------------------------------------------------------------------ *)
(** ** The result *)

(** The two [warnings]: an obsolete or a rewritten segment directory that
    could not be removed. *)
Inductive RewriteWarning : Type :=
| ObsoleteNotRemoved (segment_id : Z)
| RewrittenNotRemoved (segment_id : Z).

Record SegmentRewriteResult : Type := mkRewriteResult {
  rw_segments_rewritten : Z;
  rw_segments_removed : Z;
  rw_chunks_moved : Z;
  rw_bytes_before : Z;
  rw_bytes_after : Z;
  rw_bytes_reclaimed : Z;
  rw_warnings : list RewriteWarning;
}.

Definition SegmentRewriteResult_default : SegmentRewriteResult := mkRewriteResult 0 0 0 0 0 0 [].

(** [path_size] of a segment directory: the bytes of its files, saturating. *)
Definition path_size (d : SegDir) : Z :=
  foldl sat_add_u64 0
    (map (λ f, match f with Some f => zlen (f_cur f) | None => 0 end)
       [sd_payload d; sd_idx d; sd_meta d] ++
     [match sd_tomb d with Some bs => zlen bs | None => 0 end]).

(** The updates of the result in one turn of the loop. *)
Definition add_bytes_before (old_size : Z) (r : SegmentRewriteResult) : SegmentRewriteResult :=
  mkRewriteResult (rw_segments_rewritten r) (rw_segments_removed r) (rw_chunks_moved r)
    (sat_add_u64 (rw_bytes_before r) old_size) (rw_bytes_after r) (rw_bytes_reclaimed r)
    (rw_warnings r).
Definition count_removed (old_size : Z) (r : SegmentRewriteResult) : SegmentRewriteResult :=
  mkRewriteResult (rw_segments_rewritten r + 1) (rw_segments_removed r + 1) (rw_chunks_moved r)
    (rw_bytes_before r) (rw_bytes_after r) (sat_add_u64 (rw_bytes_reclaimed r) old_size)
    (rw_warnings r).
Definition warn (w : RewriteWarning) (r : SegmentRewriteResult) : SegmentRewriteResult :=
  mkRewriteResult (rw_segments_rewritten r) (rw_segments_removed r) (rw_chunks_moved r)
    (rw_bytes_before r) (rw_bytes_after r) (rw_bytes_reclaimed r) (rw_warnings r ++ [w]).
Definition count_moved (moved old_size new_size : Z) (r : SegmentRewriteResult) : SegmentRewriteResult :=
  mkRewriteResult (rw_segments_rewritten r + 1) (rw_segments_removed r) (rw_chunks_moved r + moved)
    (rw_bytes_before r) (sat_add_u64 (rw_bytes_after r) new_size)
    (sat_add_u64 (rw_bytes_reclaimed r) (sat_sub_u64 old_size new_size))
    (rw_warnings r).

(* ------------------------------------------------------------------ *)
(** ** The rewrite *)

Section ops.
Context `{BO : ByteOrder} `{CRC : Crc32} `{RB : Roaring B} `{CAP : BufCap}.
Context `{BM : Bincode SegmentMeta} {TK : Type}.

(** [remove_dir_all] per directory. *)
Variable remove : Z → Removal.

Definition m_remove_dir_all (id : Z) : M B TK bool :=
  m_for (rv_unlinked (remove id)) (λ e, m_effect (λ w, set_seg id (unlink e (seg_dir id w)) w)) ;;;
  if rv_ok (remove id)
  then m_effect (λ w, with_segs (delete id (w_segs w)) w) ;;; m_ret true
  else m_ret false.

(** The payloads of the live rows, from the loaded segment. *)
Fixpoint read_live_rows (reader : SegmentReader B) (live_rows : list ChunkMetadata)
    : memd_result (list (ChunkId * list byte)) :=
  match live_rows with
  | [] => Ok []
  | row :: live_rows =>
      found ← lift_io (reader_read_chunk (cm_ordinal row) reader);
      payload ← ok_or found (StorageError "live metadata row points at missing/tombstoned segment");
      payloads ← read_live_rows reader live_rows;
      Ok ((cm_chunk_id row, payload) :: payloads)
  end.

(** [writer.append_chunk(payload)?] for each payload, with the relocations. *)
Fixpoint m_append_payloads (new_segment_id : Z) (payloads : list (ChunkId * list byte))
    (writer : SegmentWriter) : M B TK (SegmentWriter * list (ChunkId * Z * Z)) :=
  match payloads with
  | [] => m_ret (writer, [])
  | (chunk_id, payload) :: payloads =>
      let '(writer, new_ordinal, ops) := append_chunk payload writer in
      m_segops new_segment_id ops ;;;
      rest <- m_append_payloads new_segment_id payloads writer ;;
      m_ret (rest.1, (chunk_id, new_segment_id, new_ordinal) :: rest.2)
  end.

(** [SegmentWriter::create], the payloads, [finalize], [SegmentReader::open]. *)
Definition m_write_segment (now_ms new_segment_id : Z) (payloads : list (ChunkId * list byte))
    : M B TK (list (ChunkId * Z * Z) * SegmentReader B) :=
  writer <- m_writer_create now_ms new_segment_id ;;
  written <- m_append_payloads new_segment_id payloads writer ;;
  m_segops new_segment_id (finalize written.1).2 ;;;
  new_reader <- m_reader_open new_segment_id ;;
  m_ret (written.2, new_reader).

Definition is_live_meta (row : ChunkMetadata) : bool := negb (bool_decide (cm_status row = Deleted)).

(** [metadata.update_chunk_locations], one transaction. *)
Definition m_update_locations (tenant_id : TenantId) (new_segment_id : Z)
    (relocations : list (ChunkId * Z * Z)) : M B TK () :=
  w <- m_world ;;
  match update_chunk_locations tenant_id relocations (w_db w) with
  | Err e => m_remove_dir_all new_segment_id ;;; m_err e
  | Ok (_, db) => m_effect (λ w, with_db db w)
  end.

(** One turn of the loop over the loaded segments. *)
Definition rewrite_segment (now_ms : Z) (tenant_id : TenantId) (old_segment_id : Z)
    (acc : Z * SegmentRewriteResult) : M B TK (Z * SegmentRewriteResult) :=
  let '(next_segment_id, result) := acc in
  w <- m_world ;;
  t <- m_store ;;
  let live_rows := List.filter is_live_meta (get_by_segment tenant_id old_segment_id (w_db w)) in
  match ts_segments t !! old_segment_id with
  | None => m_ret acc
  | Some reader =>
      let chunk_count := reader_chunk_count reader in
      let active_count :=
        default (as_u32 (chunk_count - as_u32 (tomb_deleted_count (sr_tombstones reader))))
          (reader_active_count reader) in
      if (zlen live_rows =? chunk_count) && (active_count =? chunk_count) then m_ret acc
      else
        let old_size := path_size (seg_dir old_segment_id w) in
        let result := add_bytes_before old_size result in
        match live_rows with
        | [] =>
            m_set_store (λ t, set_segments (delete old_segment_id (ts_segments t)) t) ;;;
            removed <- m_remove_dir_all old_segment_id ;;
            m_ret (next_segment_id,
                   if (removed : bool) then count_removed old_size result
                   else warn (ObsoleteNotRemoved old_segment_id) result)
        | _ =>
            payloads <- m_lift (read_live_rows reader live_rows) ;;
            written <- m_write_segment now_ms next_segment_id payloads ;;
            w <- m_world ;;
            let new_size := path_size (seg_dir next_segment_id w) in
            m_update_locations tenant_id next_segment_id written.1 ;;;
            m_set_store (λ t, set_segments
              (<[next_segment_id := written.2]> (delete old_segment_id (ts_segments t))) t) ;;;
            removed <- m_remove_dir_all old_segment_id ;;
            m_ret (next_segment_id + 1,
                   count_moved (zlen written.1) old_size new_size
                     (if (removed : bool) then result
                      else warn (RewrittenNotRemoved old_segment_id) result))
        end
  end.

Fixpoint rewrite_loop (now_ms : Z) (tenant_id : TenantId) (segment_ids : list Z)
    (acc : Z * SegmentRewriteResult) : M B TK (Z * SegmentRewriteResult) :=
  match segment_ids with
  | [] => m_ret acc
  | old_segment_id :: segment_ids =>
      acc <- rewrite_segment now_ms tenant_id old_segment_id acc ;;
      rewrite_loop now_ms tenant_id segment_ids acc
  end.

(** [segments.keys()], sorted. *)
Definition loaded_ids (t : TenantStore B) : list Z :=
  merge_sort Z.le (map fst (map_to_list (ts_segments t))).

Definition rewrite_finalized_segments (now_ms : Z) (tenant_id : TenantId)
    : M B TK SegmentRewriteResult :=
  t <- m_store ;;
  if ts_read_only t then m_err (ReadOnlyStore "rewrite_finalized_segments")
  else
    finalize_active_segment ;;;
    t <- m_store ;;
    w <- m_world ;;
    acc <- rewrite_loop now_ms tenant_id (loaded_ids t)
             (next_segment_id t w, SegmentRewriteResult_default) ;;
    m_ret acc.2.

End ops.
