(* ===== verification/RewriteFacts.v ===== *)
(** * Rewriting segments keeps the recovery invariant

    Removing a directory without live rows, writing a new segment and
    relocating rows, each with every intermediate world recoverable; one turn
    of the rewrite loop and the whole loop. *)

From S2P Require Import Prelude Crates Types WalFormat WalReader Files WalWriter.
From S2P Require Import SegmentFormat Segment SegmentFacts Metadata MetadataFacts TenantStore.
From S2P Require Import Runs TenantInv TenantFacts Recovery Persistent PersistentFacts Rewrite.
From stdpp Require Import sorting.

Open Scope Z_scope.

(* ------------------------------------------------------------------ *)
(** ** Relocating rows in the table *)

(** What [m_append_payloads] makes of the payloads: ordinals from [n] on. *)
Definition relocations_from (id n : Z) (ps : list (ChunkId * list byte)) : list (ChunkId * Z * Z) :=
  imap (λ i cp, (cp.1, id, n + Z.of_nat i)) ps.

Lemma relocations_cons id n c p ps :
  relocations_from id n ((c, p) :: ps) = (c, id, n) :: relocations_from id (n + 1) ps.
Proof.
  unfold relocations_from. cbn [imap fst]. f_equal; [f_equal; lia|]. apply imap_ext.
  intros i [c' p'] _. cbn. f_equal. lia.
Qed.

Lemma zlen_relocations id n ps : zlen (relocations_from id n ps) = zlen ps.
Proof. unfold zlen, relocations_from. by rewrite length_imap. Qed.

Definition relocate_row (seg ord : Z) (r : Row) : Row :=
  set_row_meta (set_meta_location seg ord (r_meta r)) r.

(** [db'] is [db] with the rows of [ps] moved to segment [id]. *)
Definition relocated (id n : Z) (ps : list (ChunkId * list byte)) (db db' : ChunkTable) : Prop :=
  (∀ i c p, ps !! i = Some (c, p) → db' !! c = relocate_row id (n + Z.of_nat i) <$> db !! c) ∧
  (∀ c, c ∉ map fst ps → db' !! c = db !! c).

Lemma relocate_fold t id n ps db u :
  NoDup (map fst ps) →
  (∀ c, c ∈ map fst ps → ∃ r, db !! c = Some r ∧ r_tenant r = t ∧ r_status r ≠ Deleted) →
  (∀ c r, db !! c = Some r → r_tenant r = t → cm_segment_id (r_meta r) = id → cm_ordinal (r_meta r) < n) →
  ∃ db', try_fold (relocate_step t) (relocations_from id n ps) (u, db) = Ok (u + zlen ps, db') ∧
    relocated id n ps db db'.
Proof.
  revert n db u. induction ps as [|[c p] ps IH]; intros n db u Hnd Hlive Hfree.
  { exists db. cbn. rewrite Z.add_0_r. split; [done|]. by split. }
  rewrite relocations_cons. cbn [map fst] in Hnd, Hlive. apply NoDup_cons in Hnd as [Hc Hnd].
  destruct (Hlive c (list_elem_of_here _ _)) as (r & Hr & Ht & Hs).
  cbn [try_fold relocate_step]. rewrite Hr.
  rewrite bool_decide_true by done. unfold status_in at 1.
  rewrite bool_decide_false by (by rewrite list_elem_of_singleton). cbn [andb negb].
  rewrite bool_decide_true.
  2: { apply Forall_forall. intros [k rk] Hk%elem_of_map_to_list. cbn. right. intros [= Et Eid Eo].
       assert (cm_ordinal (r_meta rk) < n); [by eapply Hfree|lia]. }
  set (db1 := <[c := _]> db). cbn [mbind result_bind].
  destruct (IH (n + 1) db1 (u + 1) Hnd) as (db' & Hf & Hin & Hout).
  - intros k Hk. unfold db1. rewrite lookup_insert_ne by (by intros <-). apply Hlive. by right.
  - intros k rk. unfold db1. destruct (decide (k = c)) as [->|Hne].
    + rewrite lookup_insert_eq. intros [= <-] _ _. cbn. lia.
    + rewrite lookup_insert_ne by done. intros Hk Hkt Hks. specialize (Hfree k rk Hk Hkt Hks). lia.
  - exists db'. rewrite Hf. split; [f_equal; f_equal; rewrite zlen_cons; lia|]. split.
    + intros [|i] k q Hk.
      * cbn in Hk. injection Hk as <- <-. rewrite Hout by done. unfold db1.
        rewrite lookup_insert_eq, Hr. cbn. by rewrite Z.add_0_r.
      * cbn in Hk. rewrite (Hin i k q Hk). unfold db1.
        rewrite lookup_insert_ne. { f_equal. f_equal. lia. }
        intros <-. apply Hc, list_elem_of_fmap. exists (c, q). split; [done|].
        by eapply list_elem_of_lookup_2.
    + intros k Hk. cbn in Hk. apply not_elem_of_cons in Hk as [Hne Hk].
      rewrite Hout by done. unfold db1. by rewrite lookup_insert_ne.
Qed.

Lemma relocations_update t id ps db :
  ps ≠ [] → NoDup (map fst ps) →
  (∀ c, c ∈ map fst ps → ∃ r, db !! c = Some r ∧ r_tenant r = t ∧ r_status r ≠ Deleted) →
  (∀ c r, db !! c = Some r → r_tenant r = t → cm_segment_id (r_meta r) ≠ id) →
  ∃ db', update_chunk_locations t (relocations_from id 0 ps) db = Ok (zlen ps, db') ∧
    relocated id 0 ps db db'.
Proof.
  intros Hne Hnd Hlive Hfree.
  destruct (relocate_fold t id 0 ps db 0 Hnd Hlive) as (db' & Hf & Hr).
  { intros c r Hc Ht Hs. by destruct (Hfree c r Hc Ht). }
  exists db'. split; [|done]. unfold update_chunk_locations.
  pose proof (zlen_relocations id 0 ps) as El.
  destruct (relocations_from id 0 ps) as [|rel rels]; [by destruct ps|].
  rewrite Hf. cbn [mbind result_bind]. by rewrite El, Z.add_0_l, Z.eqb_refl.
Qed.

Section facts.
Context `{BOL : ByteOrderLaws} `{CRL : Crc32Laws} `{RBL : RoaringLaws B}.
Context `{BWL : BincodeLaws WalRecord} `{JC : Json MemoryChunk}.
Context `{UUL : UuidLaws ChunkId} `{TT : TaskTables TK}.
Context `{CAP : BufCap} `{BM : Bincode SegmentMeta} `{UC : Unicode}.

Variable t : TenantId.
Variable G : gmap ChunkId (list byte).
Variable K : gmap ChunkId Fate.
Variable remove : Z → Removal.

Abbreviation stored_at := (stored_at (B := B)).
Abbreviation seg_ok := (seg_ok (B := B)).
Abbreviation rec_state := (rec_state (B := B) (TK := TK) t G K).
Abbreviation crash_ok := (crash_ok (B := B) (TK := TK) t G K).
Abbreviation log_ok := (log_ok (B := B) (TK := TK) t G K).

(* ------------------------------------------------------------------ *)
(** ** A directory no live row points into *)

Lemma rec_state_dead suffix segs segs' db id :
  rec_state suffix segs db → (∀ c r, live t db c r → m_seg r ≠ id) →
  (∀ i, i ≠ id → segs' !! i = segs !! i) → (∀ d, segs' !! id = Some d → seg_ok d) →
  rec_state suffix segs' db.
Proof.
  intros [Hsuf Hsegs Htab Hown Hlive Hright Hdead] Hno Hsame Hok.
  assert (Hst : ∀ seg ord p, seg ≠ id → stored_at segs' seg ord p ↔ stored_at segs seg ord p).
  { intros seg ord p Hne. unfold TenantInv.stored_at. by rewrite Hsame. }
  constructor; try done.
  - intros i d. destruct (decide (i = id)) as [->|Hne]; [apply Hok|rewrite Hsame by done; apply Hsegs].
  - intros c r Hl. pose proof (Hno c r Hl) as Hne.
    destruct (Hlive c r Hl) as (p & HG & Ho & Hdir & Hs). exists p.
    rewrite Hsame by done. split_and!; [done..|]. destruct Hs as [Hs|?]; [left; by apply Hst|by right].
  - intros c r p Hl Hs%Hst; [eauto|by eapply Hno].
Qed.

Lemma unlink_ok e d : seg_ok d → seg_ok (unlink e d).
Proof.
  intros [Hu|(ds & dead & Hsc & Htb)].
  - left. destruct e as [[]|]; cbn; unfold seg_unloadable in *; cbn; naive_solver.
  - destruct e as [[]|].
    1-3: left; unfold seg_unloadable; cbn; auto.
    right. exists ds, []. split; [by destruct Hsc; constructor|by apply tomb_is_none].
Qed.

Lemma runs_unlink suffix id es (s : St B TK) :
  log_ok suffix (w_wal (s_world s)) → rec_state suffix (w_segs (s_world s)) (w_db (s_world s)) →
  (∀ c r, live t (w_db (s_world s)) c r → m_seg r ≠ id) →
  runs (m_for es (λ e, m_effect (λ w, set_seg id (unlink e (seg_dir id w)) w))) s crash_ok (λ _ s',
    s_store s' = s_store s ∧ w_wal (s_world s') = w_wal (s_world s) ∧
    w_db (s_world s') = w_db (s_world s) ∧ w_tasks (s_world s') = w_tasks (s_world s) ∧
    delete id (w_segs (s_world s')) = delete id (w_segs (s_world s)) ∧
    rec_state suffix (w_segs (s_world s')) (w_db (s_world s'))).
Proof.
  revert s. induction es as [|e es IH]; intros s Hlog Hrec Hno; [by apply runs_ret|].
  assert (Hrec' : rec_state suffix (<[id := unlink e (seg_dir id (s_world s))]> (w_segs (s_world s)))
    (w_db (s_world s))).
  { eapply rec_state_dead; [exact Hrec|exact Hno| |].
    - intros i Hi. by rewrite lookup_insert_ne.
    - intros d. rewrite lookup_insert_eq. intros [= <-]. apply unlink_ok. unfold seg_dir.
      destruct (w_segs (s_world s) !! id) as [d|] eqn:E; [by eapply rs_segs|by left; left]. }
  apply runs_bind, runs_effect; [by apply Hlog|]. eapply runs_mono; [by apply IH|].
  cbn beta. cbn [s_store s_world set_seg with_segs w_wal w_segs w_db w_tasks].
  intros _ s' (? & ? & ? & ? & Hd & ?). split_and!; try done. rewrite Hd. apply delete_insert_eq.
Qed.

Lemma runs_remove_dir suffix id (s : St B TK) :
  log_ok suffix (w_wal (s_world s)) → rec_state suffix (w_segs (s_world s)) (w_db (s_world s)) →
  (∀ c r, live t (w_db (s_world s)) c r → m_seg r ≠ id) → rv_ok (remove id) = true →
  runs (m_remove_dir_all remove id) s crash_ok (λ b s', b = true ∧ s_store s' = s_store s ∧
    s_world s' = with_segs (delete id (w_segs (s_world s))) (s_world s)).
Proof.
  intros Hlog Hrec Hno Hok. unfold m_remove_dir_all. apply runs_bind.
  eapply runs_mono; [by apply (runs_unlink suffix)|].
  cbn beta. intros _ s' (Est & Ew & Edb & Ek & Ed & Hrec'). rewrite Hok.
  assert (Hgone : rec_state suffix (delete id (w_segs (s_world s'))) (w_db (s_world s'))).
  { eapply rec_state_dead; [exact Hrec'|by rewrite Edb| |].
    - intros i Hi. by rewrite lookup_delete_ne.
    - intros d. by rewrite lookup_delete_eq. }
  apply runs_bind, runs_effect.
  - rewrite <-Ew in Hlog. by apply Hlog.
  - apply runs_ret. split_and!; [done|done|]. cbn. unfold with_segs. rewrite Ed. congruence.
Qed.

(* ------------------------------------------------------------------ *)
(** ** Writing the replacement *)

Lemma runs_append_payloads suffix id ps ds (s : St B TK) d writer :
  log_ok suffix (w_wal (s_world s)) →
  (∀ d', seg_unloadable d' → rec_state suffix (<[id := d']> (w_segs (s_world s))) (w_db (s_world s))) →
  w_segs (s_world s) !! id = Some d → writer_inv writer d ds → payloads_fit (ds ++ map snd ps) →
  runs (m_append_payloads id ps writer) s crash_ok (λ res s', ∃ d',
    s_store s' = s_store s ∧ s_world s' = set_seg id d' (s_world s) ∧
    writer_inv res.1 d' (ds ++ map snd ps) ∧ sw_id res.1 = sw_id writer ∧
    res.2 = relocations_from id (zlen ds) ps).
Proof.
  intros Hlog. revert ds s d writer Hlog. induction ps as [|[c p] ps IH]; intros ds s d writer Hlog Hany Hd Hw Hfit.
  { apply runs_ret. exists d. cbn. rewrite app_nil_r. split_and!; try done.
    unfold set_seg, with_segs. rewrite insert_id by done. by destruct (s_world s). }
  cbn [map snd m_append_payloads] in *.
  assert (Hfit1 : payloads_fit (ds ++ [p])).
  { apply (payloads_fit_app_l (ds ++ [p]) (map snd ps)). by rewrite <-app_assoc. }
  pose proof (append_chunk_inv p writer d ds Hw Hfit1) as Hinv.
  pose proof (append_chunk_no_meta p writer) as Hnm.
  destruct (append_chunk p writer) as [[writer' ord] ops]. destruct Hinv as (Hw' & -> & Hid & _).
  cbn [snd] in Hnm. apply runs_bind, (runs_segops id ops d); [done| |].
  { intros k. apply Hlog, Hany. left. apply apply_no_meta_take; [done|]. apply Hw. }
  intros tr. apply runs_bind. eapply runs_mono.
  { apply (IH (ds ++ [p]) _ (apply_segops ops d) writer'); cbn.
    - exact Hlog.
    - intros d' Hu. rewrite insert_insert_eq. by apply Hany.
    - by rewrite lookup_insert_eq.
    - exact Hw'.
    - by rewrite <-app_assoc. }
  cbn beta. cbn [s_store s_world]. intros [w2 rels] s' (d' & Est & Ew & Hw2 & Hid2 & Hrel).
  apply runs_ret. exists d'. cbn [fst snd] in *. rewrite <-app_assoc in Hw2.
  split_and!; [done| |exact Hw2|congruence|].
  - rewrite Ew. unfold set_seg, with_segs. cbn. by rewrite insert_insert_eq.
  - rewrite Hrel, relocations_cons, zlen_app. done.
Qed.

(** Writing a segment whose id is new: the directory is complete, and
    whatever the crash point, nothing else has changed. *)
Lemma runs_write_segment suffix now id ps (s : St B TK) :
  log_ok suffix (w_wal (s_world s)) → rec_state suffix (w_segs (s_world s)) (w_db (s_world s)) →
  w_segs (s_world s) !! id = None → payloads_fit (map snd ps) →
  runs (m_write_segment now id ps) s crash_ok (λ res s', ∃ d,
    s_store s' = s_store s ∧ s_world s' = set_seg id d (s_world s) ∧
    seg_complete d (map snd ps) ∧ tomb_is (B := B) d [] ∧
    res.1 = relocations_from id 0 ps ∧ reader_of res.2 id (map snd ps) []).
Proof.
  intros Hlog Hrec Hfresh Hfit.
  assert (Hset : ∀ d', seg_ok d' →
    rec_state suffix (<[id := d']> (w_segs (s_world s))) (w_db (s_world s))).
  { intros d' Hok. eapply (rec_state_dead _ _ _ _ id); [exact Hrec| | |].
    - intros c r Hl <-. destruct (rs_live _ _ _ _ _ _ Hrec c r Hl) as (p & _ & _ & [d Hd] & _). congruence.
    - intros i Hi. by rewrite lookup_insert_ne.
    - intros d. rewrite lookup_insert_eq. by intros [= <-]. }
  unfold m_write_segment. apply runs_bind. eapply runs_mono; [by apply (runs_writer_create t G K suffix s now id)|].
  cbn beta. intros writer [st w tr] (d0 & Est & Ew & Hw & Hid & _). cbn in Est, Ew. subst st w.
  apply runs_bind. eapply runs_mono.
  { apply (runs_append_payloads suffix id ps [] _ d0 writer); cbn; [exact Hlog| |by rewrite lookup_insert_eq|exact Hw|exact Hfit].
    intros d' Hu. rewrite insert_insert_eq. apply Hset. by left. }
  cbn beta. cbn [s_store s_world]. intros [writer' rels] [st w tr'] (d1 & Est & Ew & Hw1 & Hid1 & ->).
  cbn in Est, Ew, Hw1, Hid1. subst st w. cbn [fst snd].
  assert (Ew1 : set_seg id d1 (set_seg id d0 (s_world s)) = set_seg id d1 (s_world s)).
  { unfold set_seg, with_segs. cbn. by rewrite insert_insert_eq. }
  rewrite Ew1. apply runs_bind, (runs_segops id _ d1); [cbn; by rewrite lookup_insert_eq| |].
  { intros k. unfold set_seg, with_segs. cbn. rewrite insert_insert_eq. apply Hlog, Hset.
    destruct (finalize_prefix writer' d1 (map snd ps) k Hw1) as [?|[Hsc Ht]]; [by left; left|right].
    exists (map snd ps), []. split; [done|]. by apply tomb_is_none. }
  intros tr2. destruct (finalize_complete writer' d1 (map snd ps) Hw1) as [Hsc Ht].
  set (d2 := apply_segops (finalize writer').2 d1) in *.
  destruct (reader_open_complete id d2 (map snd ps) [] Hsc (tomb_is_none d2 Ht)) as (reader & Hr & Hro).
  apply runs_bind. unfold m_reader_open. apply runs_bind, runs_world.
  cbn [s_world]. unfold set_seg, with_segs. cbn [w_segs]. rewrite lookup_insert_eq.
  eapply runs_lift; [by rewrite Hr|]. apply runs_ret. exists d2. cbn.
  split_and!; [done|by rewrite insert_insert_eq|exact Hsc|by apply tomb_is_none|done|exact Hro].
Qed.

(* ------------------------------------------------------------------ *)
(** ** Moving the rows *)

Lemma live_relocated id ps db db' c r :
  relocated id 0 ps db db' →
  (live t db' c r ↔
   (∃ i p r0, ps !! i = Some (c, p) ∧ live t db c r0 ∧ r = relocate_row id (Z.of_nat i) r0) ∨
   ((c ∉ map fst ps) ∧ live t db c r)).
Proof.
  intros [Hin Hout]. destruct (decide (c ∈ map fst ps)) as [Hc|Hc].
  - pose proof Hc as ([c' p] & -> & (i & Hi)%list_elem_of_lookup)%list_elem_of_fmap. cbn [fst] in *.
    unfold live. rewrite (Hin i c' p Hi), Z.add_0_l. split.
    + intros ((r0 & Hr0 & ->)%fmap_Some & Ht & Hs). left. exists i, p, r0.
      split_and!; [done|done|exact Ht|exact Hs|done].
    + intros [(j & q & r0 & Hj & (Hr0 & Ht & Hs) & ->)|[? _]]; [|done].
      assert (Heq : relocate_row id (Z.of_nat i) <$> db !! c' = relocate_row id (0 + Z.of_nat j) <$> db !! c').
      { by rewrite <-(Hin j c' q Hj), (Hin i c' p Hi), Z.add_0_l. }
      rewrite Heq, Hr0. cbn. by split_and!.
  - unfold live. rewrite Hout by done. split; [by right|]. intros [(i & p & r0 & Hi & _)|[_ ?]]; [|done].
    exfalso. apply Hc, list_elem_of_fmap. exists (c, p). split; [done|]. by eapply list_elem_of_lookup_2.
Qed.

Lemma unplaced_relocate id o r : unplaced (r_meta (relocate_row id o r)) = unplaced (r_meta r).
Proof. done. Qed.

Lemma liveb_relocated id ps db db' c :
  relocated id 0 ps db db' → liveb t db' c = liveb t db c.
Proof.
  intros Hrel. apply eq_true_iff_eq. rewrite !liveb_true. split.
  - intros (r & [(i & p & r0 & _ & ? & _)|[_ ?]]%(live_relocated id ps db)); eauto.
  - intros (r & Hl). destruct (decide (c ∈ map fst ps)) as [Hc|Hc].
    + apply list_elem_of_fmap in Hc as ([c' p] & -> & (i & Hi)%list_elem_of_lookup). cbn [fst] in *.
      exists (relocate_row id (Z.of_nat i) r). apply (live_relocated id ps db); [done|]. left. by exists i, p, r.
    + exists r. apply (live_relocated id ps db); [done|]. by right.
Qed.

(** Fates do not look at locations. *)
Lemma fate_ok_relocated id ps suffix db db' c f :
  relocated id 0 ps db db' → fate_ok t suffix db c f → fate_ok t suffix db' c f.
Proof.
  intros Hrel. pose proof (liveb_relocated id ps db db' c Hrel) as E.
  assert (Hm : ∀ m, fate_meta t suffix db c m → fate_meta t suffix db' c m).
  { intros m (Hno & Hr & Hn). split_and!; [done| |by rewrite E].
    intros r [(i & p & r0 & _ & Hl & ->)|[_ Hl]]%(live_relocated id ps db); [|by apply Hr|done].
    rewrite unplaced_relocate. by apply Hr. }
  destruct f as [m| |m]; cbn [fate_ok]; rewrite E; naive_solver.
Qed.

Lemma stored_at_inj segs seg ord p p' : stored_at segs seg ord p → stored_at segs seg ord p' → p = p'.
Proof.
  intros (d & ds & dead & Hd & Hsc & _ & Hp & _) (d' & ds' & dead' & Hd' & Hsc' & _ & Hp' & _).
  rewrite Hd in Hd'. injection Hd' as <-. rewrite (seg_complete_inj _ _ _ Hsc Hsc') in Hp. congruence.
Qed.

Lemma rec_state_relocated suffix segs id ps db db' :
  rec_state suffix segs db → relocated id 0 ps db db' → table_wf db' → is_Some (segs !! id) →
  (∀ i c p, ps !! i = Some (c, p) → G !! c = Some p ∧ stored_at segs id (Z.of_nat i) p) →
  rec_state suffix segs db'.
Proof.
  intros [Hsuf Hsegs Htab Hown Hlive Hright Hdead] Hrel Hwf Hdir Hps. constructor; try done.
  - intros c r Hr HG. destruct (decide (c ∈ map fst ps)) as [Hc|Hc].
    + apply list_elem_of_fmap in Hc as ([c' p] & -> & (i & Hi)%list_elem_of_lookup). cbn [fst] in *.
      rewrite (proj1 Hrel i c' p Hi) in Hr. apply fmap_Some in Hr as (r0 & Hr0 & ->).
      by apply (Hown c' r0).
    + rewrite (proj2 Hrel c Hc) in Hr. by apply (Hown c).
  - intros c r [(i & p & r0 & Hi & Hl & ->)|[_ Hl]]%(live_relocated id ps db); [|eauto|done].
    destruct (Hps i c p Hi) as [HG Hst]. exists p. split_and!; [done|cbn; lia|done|by left].
  - intros c r p [(i & q & r0 & Hi & Hl & ->)|[_ Hl]]%(live_relocated id ps db) Hst; [|eauto|done].
    destruct (Hps i c q Hi) as [HG Hst']. by rewrite (stored_at_inj _ _ _ _ _ Hst Hst').
  - intros c f Hc. eapply fate_ok_relocated; [done|eauto].
Qed.

(* ------------------------------------------------------------------ *)
(** ** The live rows of a segment *)

Definition live_rows_of (db : ChunkTable) (id : Z) : list ChunkMetadata :=
  List.filter is_live_meta (get_by_segment t id db).

Lemma elem_of_live_rows db id m :
  m ∈ live_rows_of db id ↔ ∃ c r, live t db c r ∧ m_seg r = id ∧ m = r_meta r.
Proof.
  unfold live_rows_of, get_by_segment. rewrite list_elem_of_In, filter_In, <-list_elem_of_In.
  rewrite merge_sort_Permutation, elem_of_select_where. unfold matches, is_live_meta, live, m_seg.
  split.
  - intros [(c & r & Hr & [Ht Hs]%andb_true_iff & ->) Hlive]. exists c, r.
    apply bool_decide_eq_true in Ht, Hs. apply negb_true_iff, bool_decide_eq_false in Hlive.
    by split_and!.
  - intros (c & r & (Hr & Ht & Hl) & Hs & ->). split.
    + exists c, r. rewrite !bool_decide_true by done. done.
    + apply negb_true_iff. by rewrite bool_decide_false.
Qed.

Lemma NoDup_live_ids db id : table_wf db → NoDup (map cm_chunk_id (live_rows_of db id)).
Proof.
  intros Hwf. apply NoDup_map_filter. unfold get_by_segment. rewrite merge_sort_Permutation.
  by apply NoDup_select_ids.
Qed.

(** Distinct live rows of one segment have distinct ordinals. *)
Lemma NoDup_live_ordinals suffix segs db id :
  rec_state suffix segs db → NoDup (map (λ m, Z.to_nat (cm_ordinal m)) (live_rows_of db id)).
Proof.
  intros Hrec. apply NoDup_fmap_2_strong.
  - intros m m' (c & r & Hl & Hs & ->)%elem_of_live_rows (c' & r' & Hl' & Hs' & ->)%elem_of_live_rows Ho.
    destruct (rs_live _ _ _ _ _ _ Hrec c r Hl) as (_ & _ & Hp & _).
    destruct (rs_live _ _ _ _ _ _ Hrec c' r' Hl') as (_ & _ & Hp' & _).
    destruct Hl as (Hr & Ht & _), Hl' as (Hr' & Ht' & _).
    assert (c = c') as Ec; [|by rewrite Ec, Hr' in Hr; injection Hr as ->].
    eapply (wf_loc _ (rs_table _ _ _ _ _ _ Hrec)); [exact Hr|exact Hr'|].
    unfold location, m_seg, m_ord, r_tenant in *.
    assert (cm_ordinal (r_meta r) = cm_ordinal (r_meta r')) as -> by lia. congruence.
  - eapply NoDup_fmap_1. by apply NoDup_live_ids, (rs_table _ _ _ _ _ _ Hrec).
Qed.

(** Every payload of the directory belongs to a live chunk. *)
Definition all_live (segs : gmap Z SegDir) (db : ChunkTable) (id : Z) : Prop :=
  ∀ d ds ord, segs !! id = Some d → seg_complete d ds → (ord < length ds)%nat →
    ∃ c r, live t db c r ∧ m_seg r = id ∧ m_ord r = Z.of_nat ord.

(** Where the live rows of a loaded segment point. *)
Lemma live_rows_stored segs db id d ds dead c r :
  all_stored (B := B) t G segs db → segs !! id = Some d → seg_complete d ds → tomb_is d dead →
  live t db c r → m_seg r = id →
  ∃ p, G !! c = Some p ∧ ds !! Z.to_nat (m_ord r) = Some p ∧ m_ord r ∉ dead.
Proof.
  intros Hall Hd Hsc Htb Hl <-.
  destruct (Hall c r Hl) as (p & HG & (d' & ds' & dead' & Hd' & Hsc' & Htb' & Hp & Hnd)).
  rewrite Hd in Hd'. injection Hd' as <-. exists p.
  rewrite <-(seg_complete_inj _ _ _ Hsc Hsc') in Hp. split_and!; [done|done|].
  destruct Htb as (tb & E & Hi), Htb' as (tb' & E' & Hi'). rewrite E in E'. injection E' as <-.
  by rewrite <-Hi, Hi'.
Qed.

(** A segment has at least as many payloads as live rows, and no dead one
    when the numbers agree. *)
Lemma live_rows_bound suffix segs db id d ds dead :
  rec_state suffix segs db → all_stored (B := B) t G segs db →
  segs !! id = Some d → seg_complete d ds → tomb_is d dead →
  zlen (live_rows_of db id) ≤ zlen ds ∧
  (zlen (live_rows_of db id) = zlen ds → all_live segs db id).
Proof.
  intros Hrec Hall Hd Hsc Htb. set (ords := map (λ m, Z.to_nat (cm_ordinal m)) (live_rows_of db id)).
  assert (Hin : ∀ o, o ∈ ords ↔ ∃ c r, live t db c r ∧ m_seg r = id ∧ o = Z.to_nat (m_ord r)).
  { intros o. unfold ords. rewrite list_elem_of_fmap. setoid_rewrite elem_of_live_rows. unfold m_ord. naive_solver. }
  assert (Hlt : ∀ o, o ∈ ords → (o < length ds)%nat).
  { intros o (c & r & Hl & Hs & ->)%Hin.
    destruct (live_rows_stored _ _ _ _ _ _ _ _ Hall Hd Hsc Htb Hl Hs) as (p & _ & Hp & _).
    by apply lookup_lt_Some in Hp. }
  destruct (distinct_below ords (length ds) (NoDup_live_ordinals _ _ _ id Hrec) Hlt) as [Hle Hcov].
  assert (El : zlen (live_rows_of db id) = Z.of_nat (length ords)) by (unfold zlen, ords; by rewrite length_map).
  rewrite El. split; [unfold zlen; lia|]. intros Heq d' ds' o Hd' Hsc' Ho.
  rewrite Hd in Hd'. injection Hd' as <-. rewrite <-(seg_complete_inj _ _ _ Hsc Hsc') in Ho.
  destruct (proj1 (Hin o)) as (c & r & Hl & Hs & E); [apply Hcov; [unfold zlen in Heq; lia|done]|].
  exists c, r. split_and!; [done|done|].
  destruct (rs_live _ _ _ _ _ _ Hrec c r Hl) as (_ & _ & Hp & _). lia.
Qed.

(** Reading them. *)
Lemma read_live_rows_ok reader id ds dead rows :
  reader_of (B := B) reader id ds dead →
  Forall (λ m, 0 ≤ cm_ordinal m ∧ (cm_ordinal m ∉ dead) ∧ is_Some (ds !! Z.to_nat (cm_ordinal m))) rows →
  ∃ ps, read_live_rows reader rows = Ok ps ∧
    Forall2 (λ m cp, cp.1 = cm_chunk_id m ∧ ds !! Z.to_nat (cm_ordinal m) = Some cp.2) rows ps.
Proof.
  intros Hro Hall. induction Hall as [|m rows (Ho & Hnd & [p Hp]) _ (ps & Hps & Hf)]; [by exists []|].
  exists ((cm_chunk_id m, p) :: ps). split; [|by constructor].
  cbn [read_live_rows]. rewrite (reader_read_complete reader id ds dead _ Hro Ho), decide_False by done.
  rewrite Hp. cbn. by rewrite Hps.
Qed.

(* ------------------------------------------------------------------ *)
(** ** One turn of the loop *)

Hypothesis remove_ok : ∀ id, rv_ok (remove id) = true.
Hypothesis payload_sizes : ∀ c p, G !! c = Some p → zlen p < 2 ^ 32.

Abbreviation store_ok := (store_ok (B := B)).

(** The state between two turns; segment ids from [next] on are unused. *)
Record rewriting (suffix : list WalRecord) (next : Z) (s : St B TK) : Prop := {
  ri_log : log_ok suffix (w_wal (s_world s));
  ri_store : store_ok (s_store s) (w_segs (s_world s)) [];
  ri_none : ts_active_segment (s_store s) = None;
  ri_rec : rec_state suffix (w_segs (s_world s)) (w_db (s_world s));
  ri_stored : all_stored (B := B) t G (w_segs (s_world s)) (w_db (s_world s));
  ri_dirs id : next ≤ id → w_segs (s_world s) !! id = None;
  ri_rows id c r : next ≤ id → w_db (s_world s) !! c = Some r → r_tenant r = t → m_seg r ≠ id;
}.

(** What a turn leaves alone: everything but directories and locations. *)
Record relocates (s s' : St B TK) : Prop := {
  rl_log : same_log s s';
  rl_tasks : w_tasks (s_world s') = w_tasks (s_world s);
  rl_meta c : unplaced <$> get t c (w_db (s_world s')) = unplaced <$> get t c (w_db (s_world s));
}.

Lemma relocates_refl s : relocates s s.
Proof. constructor; [apply same_log_refl|done|done]. Qed.
Lemma relocates_trans s1 s2 s3 : relocates s1 s2 → relocates s2 s3 → relocates s1 s3.
Proof. intros [] []. constructor; [by eapply same_log_trans|congruence|intros c; congruence]. Qed.

Lemma store_ok_forget ts segs id :
  store_ok ts segs [] → ts_active_segment ts = None →
  store_ok (set_segments (delete id (ts_segments ts)) ts) (delete id segs) [].
Proof.
  intros [Hrw Hmax Hld Hall Hact] Hn. constructor; cbn; [done|done| | |by rewrite Hn].
  - intros i r. destruct (decide (i = id)) as [->|Hne]; [by rewrite lookup_delete_eq|].
    rewrite !lookup_delete_ne by done. apply Hld.
  - intros i d. destruct (decide (i = id)) as [->|Hne]; [by rewrite lookup_delete_eq|].
    rewrite !lookup_delete_ne by done. apply Hall.
Qed.

Lemma store_ok_load ts segs id d ds r :
  store_ok ts segs [] → ts_active_segment ts = None →
  seg_complete d ds → tomb_is (B := B) d [] → reader_of r id ds [] →
  store_ok (set_segments (<[id := r]> (ts_segments ts)) ts) (<[id := d]> segs) [].
Proof.
  intros [Hrw Hmax Hld Hall Hact] Hn Hsc Htb Hro. constructor; cbn; [done|done| | |by rewrite Hn].
  - intros i r0. destruct (decide (i = id)) as [->|Hne].
    + rewrite !lookup_insert_eq. intros [= <-]. by exists d, ds, [].
    + rewrite !lookup_insert_ne by done. apply Hld.
  - intros i d0. destruct (decide (i = id)) as [->|Hne]; [rewrite !lookup_insert_eq; eauto|].
    rewrite !lookup_insert_ne by done. apply Hall.
Qed.

(** [set_store] after [set_store]. *)
Lemma set_segments_twice (m m' : gmap Z (SegmentReader B)) ts :
  set_segments m' (set_segments m ts) = set_segments m' ts.
Proof. done. Qed.

(** What a turn for segment [old] establishes. *)
Definition turned (suffix : list WalRecord) (old : Z) (s : St B TK)
    (res : Z * SegmentRewriteResult) (s' : St B TK) : Prop :=
  rewriting suffix res.1 s' ∧ relocates s s' ∧
  ∀ id, id = old ∨ all_live (w_segs (s_world s)) (w_db (s_world s)) id →
        all_live (w_segs (s_world s')) (w_db (s_world s')) id.

(** A segment without live rows goes. *)
Lemma turn_remove suffix next old s (f : bool → SegmentRewriteResult) :
  rewriting suffix next s → live_rows_of (w_db (s_world s)) old = [] →
  runs (m_set_store (λ ts, set_segments (delete old (ts_segments ts)) ts) ;;;
        removed <- m_remove_dir_all remove old ;; m_ret (next, f removed)) s crash_ok
    (turned suffix old s).
Proof.
  intros [Hlog Hst Hn Hrec Hall Hdirs Hrows] Hempty.
  assert (Hno : ∀ c r, live t (w_db (s_world s)) c r → m_seg r ≠ old).
  { intros c r Hl Hs. apply (not_elem_of_nil (r_meta r)). rewrite <-Hempty.
    apply elem_of_live_rows. by exists c, r. }
  apply runs_bind, runs_set_store, runs_bind. eapply runs_mono.
  { by apply (runs_remove_dir suffix old). }
  cbn beta. cbn [s_store s_world]. intros b s' (-> & Est & Ew). apply runs_ret.
  assert (Hrec' : rec_state suffix (delete old (w_segs (s_world s))) (w_db (s_world s))).
  { eapply (rec_state_dead _ _ _ _ old); [exact Hrec|exact Hno| |].
    - intros i Hi. by rewrite lookup_delete_ne.
    - intros d. by rewrite lookup_delete_eq. }
  split_and!.
  - constructor; rewrite ?Est, ?Ew; cbn; [exact Hlog|by apply store_ok_forget|done|exact Hrec'| | |done].
    + intros c r Hl. destruct (Hall c r Hl) as (p & HG & Hs). exists p. split; [done|].
      pose proof (Hno c r Hl) as Hne. unfold TenantInv.stored_at. by rewrite lookup_delete_ne.
    + intros id Hid. apply lookup_delete_None. right. by apply Hdirs.
  - constructor; rewrite ?Ew; [|done|done]. unfold same_log. rewrite Est, Ew. by repeat split.
  - intros id Hid d ds o. rewrite Ew. cbn. destruct (decide (id = old)) as [->|Hne]; [by rewrite lookup_delete_eq|].
    rewrite lookup_delete_ne by done. destruct Hid as [?|Hid]; [done|]. apply Hid.
Qed.

(** The payloads of the live rows, read from the segment. *)
Lemma read_live_payloads suffix next s old reader :
  rewriting suffix next s → ts_segments (s_store s) !! old = Some reader →
  ∃ ps, read_live_rows reader (live_rows_of (w_db (s_world s)) old) = Ok ps ∧
    map fst ps = map cm_chunk_id (live_rows_of (w_db (s_world s)) old) ∧
    payloads_fit (map snd ps) ∧
    ∀ i c p, ps !! i = Some (c, p) →
      G !! c = Some p ∧ ∃ r, live t (w_db (s_world s)) c r ∧ m_seg r = old.
Proof.
  intros [Hlog Hst Hn Hrec Hall Hdirs Hrows] Hld.
  destruct (so_loaded _ _ _ Hst old reader Hld) as (d & ds & dead & Hd & Hsc & Htb & Hro).
  set (rows := live_rows_of (w_db (s_world s)) old).
  assert (Hrow : ∀ m, m ∈ rows → ∃ c r p, live t (w_db (s_world s)) c r ∧ m_seg r = old ∧ m = r_meta r ∧
    cm_chunk_id m = c ∧ 0 ≤ cm_ordinal m ∧ (cm_ordinal m ∉ dead) ∧
    G !! c = Some p ∧ ds !! Z.to_nat (cm_ordinal m) = Some p).
  { intros m (c & r & Hl & Hs & ->)%elem_of_live_rows.
    destruct (live_rows_stored _ _ _ _ _ _ _ _ Hall Hd Hsc Htb Hl Hs) as (p & HG & Hp & Hnd).
    destruct (rs_live _ _ _ _ _ _ Hrec c r Hl) as (_ & _ & Ho & _).
    exists c, r, p. split_and!; try done. by apply (wf_key _ (rs_table _ _ _ _ _ _ Hrec)), Hl. }
  destruct (read_live_rows_ok reader old ds dead rows Hro) as (ps & Hps & Hf).
  { apply Forall_forall. intros m (c & r & p & _ & _ & _ & _ & Ho & Hnd & _ & Hp)%Hrow. eauto. }
  assert (Hget : ∀ i c p, ps !! i = Some (c, p) →
    G !! c = Some p ∧ ∃ r, live t (w_db (s_world s)) c r ∧ m_seg r = old).
  { intros i c p Hi. destruct (Forall2_lookup_r _ _ _ _ _ Hf Hi) as (m & Hm & Ec & Ep). cbn in Ec, Ep.
    apply list_elem_of_lookup_2, Hrow in Hm as (c' & r & p' & Hl & Hs & _ & Ec' & _ & _ & HG & Hp').
    rewrite <-Ec in Ec'. subst c'. rewrite Hp' in Ep. injection Ep as ->. eauto. }
  exists ps. split_and!; [done| | |done].
  - clear -Hf. induction Hf as [|m cp rows ps [? _] _ IH]; [done|]. cbn. congruence.
  - apply payloads_fit_small.
    + apply Forall_forall. intros p Hp.
      apply list_elem_of_fmap in Hp as ([c p'] & -> & (i & Hi)%list_elem_of_lookup).
      by eapply payload_sizes, Hget.
    + destruct (live_rows_bound _ _ _ old d ds dead Hrec Hall Hd Hsc Htb) as [Hle _]. fold rows in Hle.
      destruct (sc_fit _ _ Hsc) as (_ & _ & Hcnt). pose proof (Forall2_length _ _ _ Hf) as El.
      unfold zlen in *. rewrite length_map. lia.
Qed.

(** Relocation keeps what [get] returns, up to the location. *)
Lemma get_relocated id ps db db' c :
  relocated id 0 ps db db' → unplaced <$> get t c db' = unplaced <$> get t c db.
Proof.
  intros Hrel. pose proof (liveb_relocated id ps db db' c Hrel) as Hb. unfold liveb in Hb.
  destruct (get t c db') as [m'|] eqn:E', (get t c db) as [m|] eqn:E; try done. cbn. f_equal.
  apply get_live in E as (r & Hl & ->), E' as (r' & Hl' & ->).
  apply (live_relocated id ps db) in Hl'; [|done].
  destruct Hl' as [(i & p & r0 & _ & Hl0 & ->)|[_ Hl0]]; destruct Hl as (Hr & _), Hl0 as (Hr0 & _);
    rewrite Hr in Hr0; by injection Hr0 as <-.
Qed.

(** The state after a move: [ps] relocated to the complete directory [d1] of
    segment [next], the old segment gone. *)
Lemma moved_rewriting suffix next old s ps d1 reader' db' s2 :
  rewriting suffix next s → old < next →
  seg_complete d1 (map snd ps) → tomb_is d1 [] → reader_of reader' next (map snd ps) [] →
  relocated next 0 ps (w_db (s_world s)) db' →
  (∀ i c p, ps !! i = Some (c, p) → G !! c = Some p) →
  (∀ c r, live t db' c r → m_seg r ≠ old) →
  rec_state suffix (<[next := d1]> (w_segs (s_world s))) db' →
  s_store s2 = set_segments (<[next := reader']> (delete old (ts_segments (s_store s)))) (s_store s) →
  s_world s2 = mkWorld (w_wal (s_world s)) (delete old (<[next := d1]> (w_segs (s_world s)))) db'
    (w_tasks (s_world s)) →
  rewriting suffix (next + 1) s2.
Proof.
  intros [Hlog Hst Hn Hrec Hall Hdirs Hrows] Hlt Hsc1 Htb1 Hro1 Hrel HG Hno Hrec1 Est Ew.
  constructor; rewrite ?Est, ?Ew; cbn; [exact Hlog| |done| | | |].
  - rewrite delete_insert_ne by lia.
    by apply (store_ok_load _ _ next d1 (map snd ps) reader' (store_ok_forget _ _ old Hst Hn)).
  - eapply (rec_state_dead _ _ _ _ old); [exact Hrec1|exact Hno| |].
    + intros i Hi. by rewrite lookup_delete_ne.
    + intros d. by rewrite lookup_delete_eq.
  - intros c r Hl. pose proof (Hno c r Hl) as Hne. unfold TenantInv.stored_at. rewrite lookup_delete_ne by done.
    apply (live_relocated next ps (w_db (s_world s))) in Hl; [|done].
    destruct Hl as [(i & p & r0 & Hi & _ & ->)|[_ Hl]].
    + exists p. split; [by eapply HG|]. exists d1, (map snd ps), []. cbn. rewrite lookup_insert_eq, Nat2Z.id.
      split_and!; [done|done|done|by rewrite list_lookup_fmap, Hi|apply not_elem_of_nil].
    + destruct (Hall c r Hl) as (p & Hp & Hs). exists p. split; [done|].
      rewrite lookup_insert_ne; [exact Hs|]. intros E. destruct Hl as (Hr & Ht & _).
      by apply (Hrows next c r); [lia|..].
  - intros id Hid. apply lookup_delete_None. right. rewrite lookup_insert_ne by lia. apply Hdirs. lia.
  - intros id c r Hid Hr Ht. destruct (decide (c ∈ map fst ps)) as [Hc|Hc].
    + apply list_elem_of_fmap in Hc as ([c' p] & -> & (i & Hi)%list_elem_of_lookup). cbn [fst] in *.
      rewrite (proj1 Hrel i c' p Hi) in Hr. apply fmap_Some in Hr as (r0 & _ & ->). cbn. lia.
    + rewrite (proj2 Hrel c Hc) in Hr. by apply (Hrows id c r); [lia|..].
Qed.

(** The new segment holds live payloads only, the others are as before. *)
Lemma moved_all_live segs db next old ps d1 db' id :
  relocated next 0 ps db db' → seg_complete d1 (map snd ps) →
  (∀ i c p, ps !! i = Some (c, p) → ∃ r, live t db c r ∧ m_seg r = old) →
  id = old ∨ all_live segs db id → all_live (delete old (<[next := d1]> segs)) db' id.
Proof.
  intros Hrel Hsc1 Hget Hid d ds o. destruct (decide (id = old)) as [->|Hne]; [by rewrite lookup_delete_eq|].
  rewrite lookup_delete_ne by done. destruct Hid as [?|Hid]; [done|].
  destruct (decide (id = next)) as [->|Hn].
  - rewrite lookup_insert_eq. intros [= <-] Hsc Ho. rewrite (seg_complete_inj _ _ _ Hsc Hsc1) in Ho.
    rewrite length_map in Ho. destruct (lookup_lt_is_Some_2 ps o Ho) as [[c p] Hi].
    destruct (Hget o c p Hi) as (r & Hl & _). exists c, (relocate_row next (Z.of_nat o) r).
    split_and!; [|done|done]. apply (live_relocated next ps db); [done|]. left. by exists o, p, r.
  - rewrite lookup_insert_ne by done. intros Hd Hsc Ho. destruct (Hid d ds o Hd Hsc Ho) as (c & r & Hl & Hs & Eo).
    exists c, r. split_and!; [|done|done]. apply (live_relocated next ps db); [done|]. right. split; [|done].
    intros ([c' p] & -> & (i & Hi)%list_elem_of_lookup)%list_elem_of_fmap. cbn [fst] in *.
    destruct (Hget i c' p Hi) as (r' & Hl' & Hs'). destruct Hl as (Hr & _), Hl' as (Hr' & _). congruence.
Qed.

(** Everything that is live moves to the new segment. *)
Lemma turn_move suffix now next old s reader f :
  rewriting suffix next s → ts_segments (s_store s) !! old = Some reader →
  live_rows_of (w_db (s_world s)) old ≠ [] →
  runs (payloads <- m_lift (read_live_rows reader (live_rows_of (w_db (s_world s)) old)) ;;
        written <- m_write_segment now next payloads ;;
        w <- m_world ;;
        m_update_locations remove t next written.1 ;;;
        m_set_store (λ ts, set_segments (<[next := written.2]> (delete old (ts_segments ts))) ts) ;;;
        removed <- m_remove_dir_all remove old ;;
        m_ret (next + 1, f written w removed)) s crash_ok (turned suffix old s).
Proof.
  intros Hrw Hld Hne. pose proof Hrw as [Hlog Hst Hn Hrec Hall Hdirs Hrows].
  destruct (read_live_payloads suffix next s old reader Hrw Hld) as (ps & Hps & Hfst & Hfit & Hget).
  assert (Hnd : NoDup (map fst ps)) by (rewrite Hfst; apply NoDup_live_ids, (rs_table _ _ _ _ _ _ Hrec)).
  destruct (so_loaded _ _ _ Hst old reader Hld) as (d & ds & dead & Hd & _ & _ & _).
  assert (Hlt : old < next).
  { destruct (Z.lt_ge_cases old next); [done|]. rewrite (Hdirs old) in Hd; [done|lia]. }
  pose proof (Hdirs next ltac:(lia)) as Hnext.
  apply runs_bind. eapply runs_lift; [exact Hps|]. apply runs_bind.
  eapply runs_mono; [by apply (runs_write_segment suffix now next ps)|].
  cbn beta. intros [rels reader'] s1 (d1 & Est & Ew & Hsc1 & Htb1 & Erel & Hro1). cbn [fst snd] in *. subst rels.
  apply runs_bind, runs_world. unfold m_update_locations.
  destruct (relocations_update t next ps (w_db (s_world s))) as (db' & Hup & Hrel).
  { intros ->. cbn in Hfst. destruct (live_rows_of _ old); done. }
  { done. }
  { intros c Hc. apply list_elem_of_fmap in Hc as ([c' p] & -> & (i & Hi)%list_elem_of_lookup).
    destruct (Hget i c' p Hi) as (_ & r & (Hr & Ht & Hs) & _). by exists r. }
  { intros c r Hr Ht. apply (Hrows next c r); [lia|done|done]. }
  pose proof (update_chunk_locations_wf _ _ _ _ _ Hup (rs_table _ _ _ _ _ _ Hrec)) as Hwf'.
  assert (Hst1 : ∀ i c p, ps !! i = Some (c, p) →
    stored_at (<[next := d1]> (w_segs (s_world s))) next (Z.of_nat i) p).
  { intros i c p Hi. exists d1, (map snd ps), []. rewrite lookup_insert_eq, Nat2Z.id. split_and!; try done.
    - by rewrite list_lookup_fmap, Hi.
    - apply not_elem_of_nil. }
  assert (Hrec1 : rec_state suffix (<[next := d1]> (w_segs (s_world s))) db').
  { eapply (rec_state_relocated _ _ next ps); [|exact Hrel|done|rewrite lookup_insert_eq; eauto|].
    - eapply (rec_state_dead _ _ _ _ next); [exact Hrec| | |].
      + intros c r Hl. by apply (Hrows next c r); [lia|apply Hl|apply Hl].
      + intros i Hi. by rewrite lookup_insert_ne.
      + intros d0. rewrite lookup_insert_eq. intros [= <-]. right. by exists (map snd ps), [].
    - intros i c p Hi. split; [by eapply Hget|by eapply Hst1]. }
  assert (Hno : ∀ c r, live t db' c r → m_seg r ≠ old).
  { intros c r [(i & p & r0 & _ & _ & ->)|[Hc Hl]]%(live_relocated next ps _ _ c r Hrel); [cbn; lia|].
    intros Hs. apply Hc. rewrite Hfst. apply list_elem_of_fmap. exists (r_meta r). split.
    - symmetry. by apply (wf_key _ (rs_table _ _ _ _ _ _ Hrec)), Hl.
    - apply elem_of_live_rows. by exists c, r. }
  apply runs_bind, runs_bind, runs_world. rewrite Ew. cbn [set_seg with_segs w_db]. rewrite Hup.
  apply runs_effect; rewrite Ew; cbn [set_seg with_segs with_db w_wal w_segs w_db w_tasks].
  { by apply Hlog. }
  apply runs_bind, runs_set_store, runs_bind. cbn [s_store s_world s_trace].
  eapply runs_mono; [by apply (runs_remove_dir suffix old)|].
  cbn beta. cbn [s_store s_world]. intros b s2 (-> & Est2 & Ew2). apply runs_ret.
  cbn [w_wal w_segs w_db w_tasks with_segs] in Ew2.
  assert (HG : ∀ i c p, ps !! i = Some (c, p) → G !! c = Some p) by (intros i c p Hi; by eapply Hget).
  rewrite Est in Est2. split_and!.
  - by eapply (moved_rewriting suffix next old s ps d1 reader' db').
  - constructor; rewrite ?Ew2; cbn; [|done|intros c; by eapply get_relocated].
    unfold same_log. rewrite Est2, Ew2. by repeat split.
  - intros id. rewrite Ew2. cbn. apply (moved_all_live _ _ next old ps d1); [done|done|].
    intros i c p Hi. by eapply Hget.
Qed.

(** One turn, whichever branch it takes. *)
Lemma runs_rewrite_segment suffix now next old result s :
  rewriting suffix next s →
  runs (rewrite_segment remove now t old (next, result)) s crash_ok (turned suffix old s).
Proof.
  intros Hrw. pose proof Hrw as [Hlog Hst Hn Hrec Hall Hdirs Hrows].
  unfold rewrite_segment. apply runs_bind, runs_world, runs_bind, runs_store.
  fold (live_rows_of (w_db (s_world s)) old).
  assert (Hkeep : all_live (w_segs (s_world s)) (w_db (s_world s)) old → turned suffix old s (next, result) s).
  { intros Hal. split_and!; [exact Hrw|apply relocates_refl|]. by intros id [->|?]. }
  destruct (ts_segments (s_store s) !! old) as [reader|] eqn:Hld.
  2: { apply runs_ret, Hkeep. intros d ds o Hd Hsc. exfalso.
       destruct (so_all _ _ _ Hst old d Hd) as [Hu|[r Hr]]; [|congruence].
       by eapply unloadable_not_complete. }
  destruct (so_loaded _ _ _ Hst old reader Hld) as (d & ds & dead & Hd & Hsc & Htb & Hro).
  destruct ((_ =? _) && _) eqn:Eskip.
  - apply runs_ret, Hkeep. apply andb_true_iff in Eskip as [Eq%Z.eqb_eq _].
    eapply live_rows_bound; [done..|]. rewrite Eq. unfold reader_chunk_count.
    destruct Hro as (_ & _ & -> & _). rewrite zlen_index_of.
    destruct (sc_fit _ _ Hsc) as (_ & _ & Hcnt). apply as_u32_small.
    pose proof (zlen_nonneg ds). by split.
  - destruct (live_rows_of (w_db (s_world s)) old) as [|m rows] eqn:Erows.
    + by apply (turn_remove suffix next old s (λ b, if b then _ else _)).
    + pose proof (turn_move suffix now next old s reader) as Hm. rewrite Erows in Hm.
      by apply (Hm (λ written w b, count_moved _ _ _ (if b then _ else _))).
Qed.

Lemma runs_rewrite_loop suffix now ids next result s :
  rewriting suffix next s →
  (∀ id, id ∈ ids ∨ all_live (w_segs (s_world s)) (w_db (s_world s)) id) →
  runs (rewrite_loop remove now t ids (next, result)) s crash_ok (λ res s',
    rewriting suffix res.1 s' ∧ relocates s s' ∧
    ∀ id, all_live (w_segs (s_world s')) (w_db (s_world s')) id).
Proof.
  revert next result s. induction ids as [|old ids IH]; intros next result s Hrw Hids.
  - apply runs_ret. split_and!; [exact Hrw|apply relocates_refl|].
    intros id. by destruct (Hids id) as [?%not_elem_of_nil|?].
  - apply runs_bind. eapply runs_mono; [by apply runs_rewrite_segment|].
    cbn beta. intros [next' result'] s1 (Hrw1 & Hrel1 & Hal1). eapply runs_mono.
    { apply IH; [exact Hrw1|]. intros id. destruct (Hids id) as [[->|?]%elem_of_cons|?]; auto. }
    cbn beta. intros res s2 (Hrw2 & Hrel2 & Hal2). split_and!; [done| |done].
    by eapply relocates_trans.
Qed.

(** The ids the loop runs over cover every complete directory. *)
Lemma loaded_ids_cover suffix next s id :
  rewriting suffix next s →
  id ∈ loaded_ids (s_store s) ∨ all_live (w_segs (s_world s)) (w_db (s_world s)) id.
Proof.
  intros [_ Hst _ _ _ _ _]. destruct (ts_segments (s_store s) !! id) as [r|] eqn:E.
  - left. unfold loaded_ids. rewrite merge_sort_Permutation. apply list_elem_of_fmap.
    exists (id, r). split; [done|]. by apply elem_of_map_to_list.
  - right. intros d ds o Hd Hsc. exfalso. destruct (so_all _ _ _ Hst id d Hd) as [Hu|[? ?]]; [|congruence].
    by eapply unloadable_not_complete.
Qed.

(* ------------------------------------------------------------------ *)
(** ** The whole rewrite *)

(** Every row of the tenant, deleted ones included, names a segment id at or
    below that of some directory on disk, so that a new id is free in the
    table, too. *)
Definition ids_fresh (s : St B TK) : Prop :=
  ∀ c r, db_of s !! c = Some r → r_tenant r = t →
    ∃ id, m_seg r ≤ id ∧ is_Some (w_segs (s_world s) !! id).

Lemma next_segment_id_above (ts : TenantStore B) (w : World TK) id :
  is_Some (w_segs w !! id) → id < next_segment_id ts w.
Proof.
  intros [d Hd]. unfold next_segment_id. set (l := map fst _ ++ map fst _).
  destruct (max_id_le l id) as (m & -> & ?); [|lia].
  apply elem_of_app. right. apply list_elem_of_fmap. exists (id, d). split; [done|]. by apply elem_of_map_to_list.
Qed.

(** The live rows after relocations are those before, up to the location. *)
Lemma relocated_live s s' c r' :
  relocates s s' → live t (db_of s') c r' →
  ∃ r, live t (db_of s) c r ∧ unplaced (r_meta r') = unplaced (r_meta r).
Proof.
  intros [_ _ Hm] Hl. specialize (Hm c).
  assert (Eg : get t c (db_of s') = Some (r_meta r')) by (apply get_live; eauto).
  unfold db_of in *. rewrite Eg in Hm. cbn in Hm.
  destruct (get t c (w_db (s_world s))) as [m|] eqn:E; [|done]. apply get_live in E as (r & Hr & ->).
  exists r. split; [done|]. by apply (inj Some) in Hm.
Qed.

Lemma relocated_alive s s' c : relocates s s' → liveb t (db_of s') c = liveb t (db_of s) c.
Proof.
  intros [_ _ Hm]. specialize (Hm c). unfold liveb, db_of in *.
  by destruct (get t c (w_db (s_world s'))), (get t c (w_db (s_world s))).
Qed.

Lemma running_relocated rs next s s' ads :
  running t G K rs s ads → rewriting (after_checkpoint rs) next s' → relocates s s' →
  running t G K rs s' [].
Proof.
  intros [Hw Hfit (wal & Hwal & Hend) _ _ Hag Hnd] [Hlog Hst Hn Hrec Hall _ _] Hrel.
  destruct (rl_log _ _ Hrel) as (Ew & Ewal & _). constructor.
  - congruence.
  - done.
  - exists wal. split; [congruence|done].
  - constructor; [done..|]. intros c r a _ Ha. congruence.
  - intros c r Hl. destruct (Hall c r Hl) as (p & ? & ?). exists p. split; [done|by left].
  - intros c. by rewrite (relocated_alive s s' c Hrel).
  - intros c r' Hl. destruct (relocated_live s s' c r' Hrel Hl) as (r & Hl0 & _). by eapply Hnd.
Qed.

Lemma runs_rewrite rs now s ads :
  running t G K rs s ads → ids_fresh s →
  runs (rewrite_finalized_segments remove now t) s crash_ok (λ _ s',
    running t G K rs s' [] ∧ relocates s s' ∧
    ∀ id, all_live (w_segs (s_world s')) (db_of s') id).
Proof.
  intros Hr Hids. pose proof Hr as [_ _ _ Hrd Hheld _ _]. pose proof Hrd as [Hlog Hst _ _].
  unfold rewrite_finalized_segments. apply runs_bind, runs_store. rewrite (so_rw _ _ _ Hst).
  apply runs_bind. eapply runs_mono; [by apply (runs_finalize_active t G K (after_checkpoint rs) s ads)|].
  cbn beta. intros _ s1 (ads1 & Hk & Hn & Hfin).
  pose proof (k_same _ _ _ _ _ _ _ _ Hk) as Hsame. pose proof Hsame as (Ew & Edb & Et & _).
  set (next := next_segment_id (s_store s1) (s_world s1)).
  assert (Habove : ∀ id, is_Some (w_segs (s_world s1) !! id) → id < next)
    by (intros id; apply next_segment_id_above).
  assert (Hrw : rewriting (after_checkpoint rs) next s1).
  { constructor.
    - by rewrite Ew.
    - by eapply store_ok_ads; [apply (k_store _ _ _ _ _ _ _ _ Hk)|].
    - done.
    - apply (k_rec _ _ _ _ _ _ _ _ Hk).
    - intros c r. rewrite Edb. intros Hl. destruct (Hheld c r Hl) as (p & HG & Hh). exists p. split; [done|].
      apply Hfin; [|exact Hh]. by destruct (rs_live _ _ _ _ _ _ (rd_rec _ _ _ _ _ _ Hrd) c r Hl) as (_ & _ & ? & _).
    - intros id Hid. apply eq_None_not_Some. intros ?%Habove. lia.
    - intros id c r Hid. rewrite Edb. intros Hc Ht.
      destruct (Hids c r Hc Ht) as (id' & Hle & Hd%(k_dirs _ _ _ _ _ _ _ _ Hk)%Habove). lia. }
  assert (Hrel1 : relocates s s1).
  { constructor; [by apply same_rest_log|done|]. intros c. by rewrite Edb. }
  apply runs_bind, runs_store, runs_bind, runs_world, runs_bind. fold next. eapply runs_mono.
  { apply (runs_rewrite_loop (after_checkpoint rs) now _ next _ s1 Hrw).
    intros id. by eapply loaded_ids_cover. }
  cbn beta. intros res s2 (Hrw2 & Hrel2 & Hal). apply runs_ret.
  pose proof (relocates_trans _ _ _ Hrel1 Hrel2) as Hrel. split_and!; [|done|done].
  eapply running_relocated; [exact Hr|exact Hrw2|done].
Qed.

End facts.
