(* ===== verification/StoreSpec.v ===== *)
(** * The store refines a map

    The abstract store of a tenant is a finite map from chunk ids to chunks.
    [implements] relates it to a running store; adds, deletes, reads and
    segment rewrites simulate the map, a crash between operations keeps it, and a crash inside
    an operation leaves every chunk as before or as after it. *)

From S2P Require Import Prelude Crates Types WalFormat WalReader Files WalWriter.
From S2P Require Import SegmentFormat Segment SegmentFacts Metadata MetadataFacts.
From S2P Require Import TenantStore Persistent Runs TenantInv TenantFacts Recovery PersistentFacts AddFacts.
From S2P Require Import Rewrite RewriteFacts.

Open Scope Z_scope.

(* ------------------------------------------------------------------ *)
(** ** Commands *)

Inductive Cmd : Type :=
| CmdAdd (now_ms : Z) (preserve_chunk_ids : bool) (chunks : list MemoryChunk)
    (fresh : list ChunkId) (lane : IndexLane)
| CmdDelete (now_ms : Z) (chunk_id : ChunkId)
| CmdGet (chunk_id : ChunkId)
| CmdRewrite (remove : Z → Removal) (now_ms : Z).

Inductive Out : Type :=
| OutIds (ids : list ChunkId)
| OutDeleted (deleted : bool)
| OutChunk (chunk : option MemoryChunk)
| OutRewritten.

Section spec.
Context `{BOL : ByteOrderLaws} `{CRL : Crc32Laws} `{RBL : RoaringLaws B}.
Context `{BWL : BincodeLaws WalRecord} `{JCL : JsonLaws MemoryChunk}.
Context `{UUL : UuidLaws ChunkId} `{TT : TaskTables TK}.
Context `{CAP : BufCap} `{BM : Bincode SegmentMeta} `{UC : Unicode} `{SHA : Sha256}.

Variable t : TenantId.

Definition exec (cmd : Cmd) : M B TK Out :=
  match cmd with
  | CmdAdd now preserve chunks fresh lane =>
      ids <- add_chunks_internal now preserve chunks fresh lane ;; m_ret (OutIds ids)
  | CmdDelete now c => b <- delete_chunk now t c ;; m_ret (OutDeleted b)
  | CmdGet c => o <- get_chunk t c ;; m_ret (OutChunk o)
  | CmdRewrite remove now => rewrite_finalized_segments remove now t ;;; m_ret OutRewritten
  end.

(** The chunk as stored: its id and the hash of its text are filled in. *)
Definition stored_chunk (c : ChunkId) (chunk : MemoryChunk) : MemoryChunk :=
  set_hash (sha256_hex (mc_text chunk)) (set_chunk_id c chunk).

Definition added_ids (preserve : bool) (chunks : list MemoryChunk) (fresh : list ChunkId) : list ChunkId :=
  if preserve then map mc_chunk_id chunks else fresh.
Definition added_chunks (preserve : bool) (chunks : list MemoryChunk) (fresh : list ChunkId)
    : list (ChunkId * MemoryChunk) :=
  zip_with (λ c chunk, (c, stored_chunk c chunk)) (added_ids preserve chunks fresh) chunks.

(** The abstract store. *)
Definition spec (cmd : Cmd) (A : gmap ChunkId MemoryChunk) : Out * gmap ChunkId MemoryChunk :=
  match cmd with
  | CmdAdd _ preserve chunks fresh _ =>
      (OutIds (added_ids preserve chunks fresh),
       list_to_map (added_chunks preserve chunks fresh) ∪ A)
  | CmdDelete _ c => (OutDeleted (bool_decide (is_Some (A !! c))), delete c A)
  | CmdGet c => (OutChunk (A !! c), A)
  | CmdRewrite _ _ => (OutRewritten, A)
  end.

(** What a caller must provide: chunks of the tenant that are not already
    marked deleted, ids that nothing in the store mentions, and records that
    fit the length fields of the formats; for a rewrite, a file system that
    removes directories and no row that names a segment beyond those on
    disk. *)
Definition admissible (s : St B TK) (cmd : Cmd) : Prop :=
  match cmd with
  | CmdAdd now preserve chunks fresh _ =>
      length fresh = length chunks ∧ NoDup (added_ids preserve chunks fresh) ∧
      wal_fits (wal_checkpoint (TenantId.as_str t) now) ∧
      Forall (λ chunk, mc_tenant_id chunk = t ∧ mc_status chunk ≠ Deleted) chunks ∧
      Forall (λ c, db_of s !! c = None ∧
        Forall (λ rec, wr_chunk_id rec ≠ uuid_to_string c)
          (records_for_recovery (wal_reader_open (f_cur <$> w_wal (s_world s)))))
        (added_ids preserve chunks fresh) ∧
      Forall (λ '(c, chunk), zlen (json_to_vec chunk) < 2 ^ 32 ∧
        wal_fits (wal_add (TenantId.as_str t) (uuid_to_string c) (mc_timestamp_created chunk)
                    (json_to_vec chunk))) (added_chunks preserve chunks fresh)
  | CmdDelete now c => wal_fits (wal_delete (TenantId.as_str t) (uuid_to_string c) now)
  | CmdGet _ => True
  | CmdRewrite remove _ => (∀ id, rv_ok (remove id) = true) ∧ ids_fresh t s
  end.

(** ** The relation *)

Definition chunk_view (G : gmap ChunkId (list byte)) (db : ChunkTable) (c : ChunkId)
    : option MemoryChunk :=
  m ← get t c db; p ← G !! c; chunk ← json_from_slice p; Some (set_status (cm_status m) chunk).

Definition payloads (G : gmap ChunkId (list byte)) : Prop :=
  ∀ c p, G !! c = Some p → payload_ok t c p.

Definition implements (s : St B TK) (A : gmap ChunkId MemoryChunk) : Prop :=
  ∃ G rs ads, running t G ∅ rs s ads ∧ payloads G ∧ ∀ c, A !! c = chunk_view G (db_of s) c.

(** ** Reading *)

Lemma view_live G K suffix s ads c r p :
  ready t G K suffix s ads → payloads G → live t (db_of s) c r → G !! c = Some p →
  ∃ chunk, json_from_slice p = Some chunk ∧
           chunk_view G (db_of s) c = Some (set_status (r_status r) chunk).
Proof.
  intros _ HG Hl Hp. destruct (HG c p Hp) as (_ & chunk & Hj & _). exists chunk. split; [done|].
  unfold chunk_view. assert (Eg : get t c (db_of s) = Some (r_meta r)) by (apply get_live; eauto).
  rewrite Eg. cbn. rewrite Hp. cbn. by rewrite Hj.
Qed.

(** A store whose live chunks are held answers reads with the view. *)
Lemma runs_get_view G K suffix s ads c :
  ready t G K suffix s ads → payloads G →
  (∀ r, live t (db_of s) c r → ∃ p, G !! c = Some p ∧ held_in s ads r p) →
  runs (get_chunk t c) s (crash_ok (B := B) t G K) (λ o s',
    o = chunk_view G (db_of s) c ∧ keeps t G K suffix s ads s' ads).
Proof.
  intros Hrd HG Hheld. destruct (liveb t (db_of s) c) eqn:Elb.
  - apply liveb_true in Elb as [r Hl]. destruct (Hheld r Hl) as (p & Hp & Hh).
    destruct (view_live _ _ _ _ _ _ _ _ Hrd HG Hl Hp) as (chunk & Hj & ->).
    by apply (runs_get_chunk_live t G K suffix s ads c r p).
  - eapply runs_mono; [by apply runs_get_chunk_dead|]. cbn beta. intros o s' (-> & ->).
    split; [|by apply keeps_refl]. unfold chunk_view, liveb in *. by destruct (get t c (db_of s)).
Qed.

(* ------------------------------------------------------------------ *)
(** ** What a crash may leave *)

Definition fate_view (G : gmap ChunkId (list byte)) (c : ChunkId) (m : ChunkMetadata)
    : option MemoryChunk :=
  p ← G !! c; chunk ← json_from_slice p; Some (set_status (cm_status m) chunk).

(** [o] is the answer before or after the command. *)
Definition either (A A' : gmap ChunkId MemoryChunk) (c : ChunkId) (o : option MemoryChunk) : Prop :=
  o = A !! c ∨ o = A' !! c.

(** The fates allow only such answers. *)
Definition covered (G : gmap ChunkId (list byte)) (K : gmap ChunkId Fate)
    (A A' : gmap ChunkId MemoryChunk) (c : ChunkId) : Prop :=
  match K !! c with
  | Some (Alive m) => either A A' c (fate_view G c m)
  | Some Dead => either A A' c None
  | Some (Maybe m) => either A A' c (fate_view G c m) ∧ either A A' c None
  | None => G !! c = None ∧ either A A' c None
  end.

Definition fates (G : gmap ChunkId (list byte)) (db : ChunkTable) : gmap ChunkId Fate :=
  map_imap (λ c _, Some (fate_now t db c)) G.

Lemma fates_lookup G db c : fates G db !! c = (λ _, fate_now t db c) <$> G !! c.
Proof. unfold fates. rewrite map_lookup_imap. by destruct (G !! c). Qed.

Lemma running_all_fates G rs s ads :
  running t G ∅ rs s ads → running t G (fates G (db_of s)) rs s ads.
Proof.
  intros Hr. eapply running_grow; [done|done|intros ? [? ?]; congruence|].
  intros c f. rewrite fates_lookup. destruct (G !! c); [|done]. intros [= <-]. right.
  by eapply running_fates.
Qed.

Lemma running_no_fates G K rs s ads : running t G K rs s ads → running t G ∅ rs s ads.
Proof. intros Hr. eapply running_grow; [done|done|intros ? [? ?]; congruence|done]. Qed.

Lemma covered_now G db A A' c :
  A !! c = chunk_view G db c → covered G (fates G db) A A' c.
Proof.
  intros HA. unfold covered. rewrite fates_lookup. unfold chunk_view in HA.
  destruct (G !! c) as [p|] eqn:EG; cbn [fmap option_fmap option_map].
  - unfold fate_now. destruct (get t c db) as [m|] eqn:Eg.
    + left. rewrite HA. unfold fate_view. by rewrite EG.
    + left. by rewrite HA.
  - split; [done|]. left. rewrite HA. by destruct (get t c db).
Qed.

(** What running the command gives: the abstract step, and fates for its
    crash points. *)
Definition simulates (s : St B TK) (A : gmap ChunkId MemoryChunk) (cmd : Cmd) : Prop :=
  ∃ G K, payloads G ∧ (∀ c, covered G K A (spec cmd A).2 c) ∧
    runs (exec cmd) s (crash_ok (B := B) t G K) (λ out s',
      out = (spec cmd A).1 ∧ implements s' (spec cmd A).2).

Lemma exec_get s A c : implements s A → simulates s A (CmdGet c).
Proof.
  intros (G & rs & ads & Hr & HG & HA). exists G, (fates G (db_of s)).
  pose proof (running_all_fates _ _ _ _ Hr) as Hrf.
  split_and!; [done|intros k; by apply covered_now|]. cbn [exec spec fst snd].
  apply runs_bind. eapply runs_mono.
  { eapply runs_get_view; [apply Hrf|done|]. intros r Hl. by apply (rn_held _ _ _ _ _ _ Hrf). }
  cbn beta. intros o s' (-> & Hk). apply runs_ret. rewrite HA. split; [done|].
  exists G, rs, ads. split_and!; [by eapply running_no_fates, running_keeps|done|].
  intros k. rewrite HA. unfold db_of. by destruct (k_same _ _ _ _ _ _ _ _ Hk) as (_ & -> & _).
Qed.

Lemma view_is_some G K rs s ads c :
  running t G K rs s ads → payloads G →
  bool_decide (is_Some (chunk_view G (db_of s) c)) = liveb t (db_of s) c.
Proof.
  intros Hr HG. destruct (liveb t (db_of s) c) eqn:E.
  - apply bool_decide_eq_true. apply liveb_true in E as [r Hl].
    destruct (rn_held _ _ _ _ _ _ Hr c r Hl) as (p & Hp & _).
    destruct (view_live G K _ s ads c r p (rn_ready _ _ _ _ _ _ Hr) HG Hl Hp) as (chunk & _ & ->). eauto.
  - apply bool_decide_eq_false. unfold chunk_view, liveb in *. destruct (get t c (db_of s)); [done|].
    by intros [? ?].
Qed.

Lemma exec_delete s A now c :
  implements s A → admissible s (CmdDelete now c) → simulates s A (CmdDelete now c).
Proof.
  intros (G & rs & ads & Hr & HG & HA) Hfit. set (K := fates G (db_of s)).
  exists G, (<[c := fate_open t (db_of s) c]> K). split_and!; [done| |].
  - intros k. destruct (decide (k = c)) as [->|Hne].
    + unfold covered. rewrite lookup_insert_eq. unfold fate_open, either. cbn [spec snd].
      rewrite lookup_delete_eq, HA. unfold chunk_view, fate_view.
      destruct (get t c (db_of s)) as [m|]; [|by left]. split; [by left|by right].
    + unfold covered. rewrite lookup_insert_ne by done.
      apply (covered_now G (db_of s) A (spec (CmdDelete now c) A).2 k), HA.
  - cbn [exec spec fst snd]. apply runs_bind. eapply runs_mono.
    { apply (runs_delete_chunk t G K rs s ads now c); [by apply running_all_fates|exact Hfit]. }
    cbn beta. intros b s' (rs' & -> & Hr' & Hz & Hold). apply runs_ret. split.
    + f_equal. rewrite HA. symmetry. by eapply view_is_some.
    + exists G, rs', ads. split_and!; [by eapply running_no_fates|done|]. intros k.
      unfold chunk_view. destruct (decide (k = c)) as [->|Hne].
      * by rewrite lookup_delete_eq, Hz.
      * by rewrite lookup_delete_ne, HA, Hold by done.
Qed.

(** Rewriting the segments keeps what every read returns. *)
Lemma exec_rewrite s A remove now :
  implements s A → admissible s (CmdRewrite remove now) → simulates s A (CmdRewrite remove now).
Proof.
  intros (G & rs & ads & Hr & HG & HA) [Hrm Hids]. set (K := fates G (db_of s)).
  pose proof (running_all_fates _ _ _ _ Hr) as Hrf.
  exists G, K. split_and!; [done|intros k; by apply covered_now|]. cbn [exec spec fst snd].
  apply runs_bind. eapply runs_mono.
  { eapply (runs_rewrite t G K remove Hrm); [|exact Hrf|exact Hids]. intros c p Hp. by apply (HG c p). }
  cbn beta. intros _ s' (Hr' & [_ _ Hm] & _). apply runs_ret. split; [done|].
  exists G, rs, []. split_and!; [by eapply running_no_fates|done|]. intros c. rewrite HA.
  specialize (Hm c). unfold chunk_view, db_of in *.
  destruct (get t c (w_db (s_world s'))) as [m'|], (get t c (w_db (s_world s))) as [m|]; try done.
  cbn in Hm |- *. by injection Hm as _ _ _ _ -> _ _ _ _ _ _.
Qed.

(* ------------------------------------------------------------------ *)
(** ** Adding *)

Definition pending_of (l : list (ChunkId * MemoryChunk)) : list PendingChunkAdd :=
  map (λ cm, mkPending cm.2 cm.1 (json_to_vec cm.2)) l.

Lemma prepare_pending_ok preserve db chunks fresh :
  length fresh = length chunks → Forall (λ c, db !! c = None) (added_ids preserve chunks fresh) →
  prepare_pending_chunks preserve db chunks fresh
  = Ok (pending_of (added_chunks preserve chunks fresh)).
Proof.
  unfold added_chunks, added_ids. revert fresh.
  induction chunks as [|chunk chunks IH]; intros [|id fresh] Hlen Hdb; try done; [by destruct preserve|].
  cbn in Hlen. injection Hlen as Hlen. cbn [prepare_pending_chunks]. unfold prepare_pending_chunk.
  destruct preserve; cbn [map] in Hdb; apply Forall_cons in Hdb as [Hd Hdb].
  - unfold get. rewrite Hd. cbn [mbind result_bind]. by rewrite (IH fresh Hlen Hdb).
  - cbn [mbind result_bind]. by rewrite (IH fresh Hlen Hdb).
Qed.

Lemma added_fst preserve chunks fresh :
  length fresh = length chunks →
  map fst (added_chunks preserve chunks fresh) = added_ids preserve chunks fresh.
Proof.
  intros Hlen. unfold added_chunks. apply fmap_zip_with_l; [done|].
  unfold added_ids. destruct preserve; [by rewrite length_map|lia].
Qed.

Lemma pending_ids l : map pa_chunk_id (pending_of l) = map fst l.
Proof. unfold pending_of. by rewrite map_map. Qed.

Lemma elem_of_pending l row :
  row ∈ pending_of l ↔ (pa_chunk_id row, pa_chunk row) ∈ l ∧ pa_payload row = json_to_vec (pa_chunk row).
Proof.
  unfold pending_of. rewrite list_elem_of_fmap. split.
  - intros ([c m] & -> & Hin). done.
  - intros [Hin Ep]. exists (pa_chunk_id row, pa_chunk row). split; [|done].
    destruct row; cbn in *. by rewrite Ep.
Qed.

Lemma running_suffix G K rs s ads :
  running t G K rs s ads →
  records_for_recovery (wal_reader_open (f_cur <$> w_wal (s_world s))) = after_checkpoint rs.
Proof.
  intros [Hw Hfit _ _ _ _ _]. rewrite Hw. cbn.
  rewrite <-(app_nil_r (wal_bytes rs)). apply records_for_recovery_log; [done|apply wal_junk_nil].
Qed.

(** The fates of a batch in flight. *)
Definition batch_fates (G : gmap ChunkId (list byte)) (db : ChunkTable)
    (rows : list PendingChunkAdd) : gmap ChunkId Fate :=
  list_to_map (map (λ row, (pa_chunk_id row, Maybe (unplaced (added_metadata row 0 0)))) rows)
  ∪ fates G db.

Lemma batch_fates_lookup G db rows c f :
  NoDup (map pa_chunk_id rows) → batch_fates G db rows !! c = Some f →
  (∃ row, row ∈ rows ∧ c = pa_chunk_id row ∧ f = Maybe (unplaced (added_metadata row 0 0))) ∨
  ((c ∉ map pa_chunk_id rows) ∧ fates G db !! c = Some f).
Proof.
  intros Hnd [Hl|[Hn Hf]]%lookup_union_Some_raw.
  - left. apply elem_of_list_to_map_2, list_elem_of_fmap in Hl as (row & [= -> ->] & Hin). eauto.
  - right. split; [|done]. apply not_elem_of_list_to_map in Hn.
    by rewrite <-list_fmap_compose in Hn.
Qed.

Lemma batch_fates_row G db rows row :
  NoDup (map pa_chunk_id rows) → row ∈ rows →
  batch_fates G db rows !! pa_chunk_id row = Some (Maybe (unplaced (added_metadata row 0 0))).
Proof.
  intros Hnd Hin. apply lookup_union_Some_l, elem_of_list_to_map_1.
  - rewrite <-list_fmap_compose. exact Hnd.
  - apply list_elem_of_fmap. by exists row.
Qed.

Lemma batch_fates_other G db rows c :
  c ∉ map pa_chunk_id rows → batch_fates G db rows !! c = fates G db !! c.
Proof.
  intros Hni. apply lookup_union_r, not_elem_of_list_to_map_1. by rewrite <-list_fmap_compose.
Qed.

(** The hypotheses of the add path, from what the caller provides. *)
Lemma admissible_batch G rs s ads now preserve chunks fresh lane :
  let rows := pending_of (added_chunks preserve chunks fresh) in
  let G1 := filter (λ kp, kp.1 ∉ map pa_chunk_id rows) G in
  running t G ∅ rs s ads → admissible s (CmdAdd now preserve chunks fresh lane) →
  running t G1 (batch_fates G1 (db_of s) rows) rs s ads ∧
  batch_ok t G1 (batch_fates G1 (db_of s) rows) (after_checkpoint rs) (db_of s) rows ∧
  prepare_pending_chunks preserve (db_of s) chunks fresh = Ok rows ∧
  map pa_chunk_id rows = added_ids preserve chunks fresh.
Proof.
  intros rows G1 Hr (Hlen & Hnd & _ & Hch & Hnew & Hsz).
  rewrite (running_suffix _ _ _ _ _ Hr) in Hnew.
  pose proof (proj1 (Forall_forall _ _) Hch) as Hch'.
  pose proof (proj1 (Forall_forall _ _) Hnew) as Hnew'.
  pose proof (proj1 (Forall_forall _ _) Hsz) as Hsz'. cbn beta in *. clear Hch Hnew Hsz.
  assert (Eids : map pa_chunk_id rows = added_ids preserve chunks fresh).
  { unfold rows. rewrite pending_ids. by apply added_fst. }
  assert (Hfresh : ∀ c, c ∈ map pa_chunk_id rows → db_of s !! c = None ∧
     ∀ rec, rec ∈ after_checkpoint rs → wr_chunk_id rec ≠ uuid_to_string c).
  { intros c Hc. rewrite Eids in Hc. destruct (Hnew' c Hc) as [? Hno]. split; [done|].
    exact (proj1 (Forall_forall _ _) Hno). }
  assert (HG1 : ∀ c, c ∈ map pa_chunk_id rows → G1 !! c = None).
  { intros c Hc. apply map_lookup_filter_None. right. intros p _ Hni. by apply Hni. }
  assert (Hids : ∀ row, row ∈ rows → pa_chunk_id row ∈ map pa_chunk_id rows).
  { intros row Hin. apply list_elem_of_fmap. by exists row. }
  assert (Hnd' : NoDup (map pa_chunk_id rows)) by (by rewrite Eids).
  split_and!; [| | |done].
  - assert (Hr1 : running t G1 ∅ rs s ads) by (by apply running_drop).
    eapply running_grow; [exact Hr1|done|intros ? [? ?]; congruence|].
    intros c f [(row & Hin & -> & ->)|[Hni Hf]]%batch_fates_lookup; [| |done]; right.
    + destruct (Hfresh _ (Hids row Hin)) as [Hdb Hlog]. intros Ha. exfalso.
      rewrite alive_after_none in Ha.
      * apply liveb_true in Ha as (r & E & _). congruence.
      * intros (rec & Hrec & [[_ E]|[_ E]]); by apply (Hlog rec).
    + rewrite fates_lookup in Hf. destruct (G1 !! c); [|done]. injection Hf as <-.
      by eapply running_fates.
  - constructor; [done| |].
    + intros row Hin. pose proof Hin as [Hl Ep]%elem_of_pending.
      pose proof (Hsz' _ Hl) as [Hz Hw]. rewrite <-Ep in Hz, Hw.
      apply elem_of_zip_with in Hl as (c & chunk & [= Ec Em] & _ & Hchunk).
      destruct (Hch' chunk Hchunk) as [Ht Hs]. rewrite Em. split_and!; try done; by rewrite <-?Em, ?Ec.
    + intros row Hin. destruct (Hfresh _ (Hids row Hin)) as [Hdb Hlog].
      split_and!; [done|by apply HG1, Hids| |done].
      intros f. rewrite batch_fates_row by done. by intros [= <-].
  - unfold rows. apply prepare_pending_ok; [done|]. apply Forall_forall. intros c Hc.
    by apply Hnew'.
Qed.

Lemma set_status_same chunk : set_status (mc_status chunk) chunk = chunk.
Proof. by destruct chunk. Qed.

(** The view of a chunk of the batch, and of any other. *)
Lemma view_added G1 db rows row seg ord :
  NoDup (map pa_chunk_id rows) → row ∈ rows → pa_payload row = json_to_vec (pa_chunk row) →
  get t (pa_chunk_id row) db = Some (added_metadata row seg ord) →
  chunk_view (batch_payloads G1 rows) db (pa_chunk_id row) = Some (pa_chunk row).
Proof.
  intros Hnd Hin Ep Eg. unfold chunk_view. rewrite Eg. cbn.
  rewrite batch_payloads_new by done. cbn. rewrite Ep, json_roundtrip. cbn. by rewrite set_status_same.
Qed.

Lemma added_lookup l A c :
  NoDup (map fst l) →
  (∃ chunk, (c, chunk) ∈ l ∧ (list_to_map l ∪ A : gmap ChunkId MemoryChunk) !! c = Some chunk) ∨
  ((c ∉ map fst l) ∧ (list_to_map l ∪ A : gmap ChunkId MemoryChunk) !! c = A !! c).
Proof.
  intros Hnd. destruct (decide (c ∈ map fst l)) as [Hin|Hni].
  - left. apply list_elem_of_fmap in Hin as ([c' chunk] & -> & Hin). exists chunk. split; [done|].
    by apply lookup_union_Some_l, elem_of_list_to_map_1.
  - right. split; [done|]. by apply lookup_union_r, not_elem_of_list_to_map_1.
Qed.

Lemma elem_of_added l c chunk :
  (c, chunk) ∈ l → ∃ row, row ∈ pending_of l ∧ pa_chunk_id row = c ∧ pa_chunk row = chunk.
Proof.
  intros Hin. exists (mkPending chunk c (json_to_vec chunk)). split; [|done]. by apply elem_of_pending.
Qed.

Lemma covered_added l G1 suffix db A c :
  let rows := pending_of l in
  batch_ok t G1 (batch_fates G1 db rows) suffix db rows → A !! c = chunk_view G1 db c →
  covered (batch_payloads G1 rows) (batch_fates G1 db rows) A (list_to_map l ∪ A) c.
Proof.
  intros rows Hbo HA. pose proof (bo_nodup _ _ _ _ _ _ Hbo) as Hnd.
  assert (Hfst : map pa_chunk_id rows = map fst l) by apply pending_ids.
  unfold covered. destruct (added_lookup l A c) as [(chunk & Hin & EA)|[Hni EA]]; [by rewrite <-Hfst| |].
  - destruct (elem_of_added l c chunk Hin) as (row & Hr' & <- & <-).
    rewrite batch_fates_row by done. unfold either. rewrite EA. split.
    + right. unfold fate_view. rewrite batch_payloads_new by done. cbn.
      destruct (bo_row _ _ _ _ _ _ Hbo row Hr') as (_ & _ & _ & -> & _).
      rewrite json_roundtrip. cbn. by rewrite set_status_same.
    + left. rewrite HA. unfold chunk_view, get.
      destruct (bo_new _ _ _ _ _ _ Hbo row Hr') as (-> & _). done.
  - rewrite <-Hfst in Hni. rewrite batch_fates_other by done.
    pose proof (covered_now G1 db A (list_to_map l ∪ A) c HA) as Hc.
    unfold covered, fate_view in Hc |- *. by rewrite batch_payloads_old.
Qed.

(** The abstract effect of the rows. *)
Lemma view_batch l G1 K suffix db db' A c :
  let rows := pending_of l in
  batch_ok t G1 K suffix db rows → A !! c = chunk_view G1 db c →
  (∀ row, row ∈ rows → ∃ seg ord, get t (pa_chunk_id row) db' = Some (added_metadata row seg ord)) →
  (∀ k, k ∉ map pa_chunk_id rows → get t k db' = get t k db) →
  (list_to_map l ∪ A : gmap ChunkId MemoryChunk) !! c = chunk_view (batch_payloads G1 rows) db' c.
Proof.
  intros rows Hbo HA Hnew Hold. pose proof (bo_nodup _ _ _ _ _ _ Hbo) as Hnd.
  assert (Hfst : map pa_chunk_id rows = map fst l) by apply pending_ids.
  destruct (added_lookup l A c) as [(chunk & Hin & ->)|[Hni ->]]; [by rewrite <-Hfst| |].
  - destruct (elem_of_added l c chunk Hin) as (row & Hin' & <- & <-).
    destruct (Hnew row Hin') as (seg & ord & Eg). symmetry. eapply view_added; [done|done| |exact Eg].
    by destruct (bo_row _ _ _ _ _ _ Hbo row Hin') as (_ & _ & _ & ? & _).
  - rewrite <-Hfst in Hni. rewrite HA. unfold chunk_view. by rewrite Hold, batch_payloads_old.
Qed.

(** The add, with what it leaves in the table. *)
Lemma add_runs s A now preserve chunks fresh lane :
  implements s A → admissible s (CmdAdd now preserve chunks fresh lane) →
  let l := added_chunks preserve chunks fresh in
  ∃ G K, payloads G ∧ (∀ c, covered G K A (list_to_map l ∪ A) c) ∧
    runs (add_chunks_internal now preserve chunks fresh lane) s (crash_ok (B := B) t G K) (λ ids s',
      ids = added_ids preserve chunks fresh ∧ implements s' (list_to_map l ∪ A) ∧
      (∀ c chunk, (c, chunk) ∈ l → ∃ seg ord,
         get t c (db_of s') = Some (added_metadata (mkPending chunk c (json_to_vec chunk)) seg ord)) ∧
      (∀ c, c ∉ map fst l → get t c (db_of s') = get t c (db_of s))).
Proof.
  intros (G & rs & ads & Hr & HG & HA) Hadm l. set (rows := pending_of l).
  destruct (admissible_batch G rs s ads now preserve chunks fresh lane Hr Hadm) as (Hr1 & Hbo & Hprep & Eids).
  fold l rows in Hr1, Hbo, Hprep, Eids. set (G1 := filter _ G) in *. set (K := batch_fates _ _ _) in *.
  assert (HA1 : ∀ c, A !! c = chunk_view G1 (db_of s) c).
  { intros c. rewrite HA. unfold chunk_view. destruct (get t c (db_of s)) as [m|] eqn:Eg; [|done]. cbn.
    f_equal. destruct (G !! c) as [p|] eqn:E; symmetry.
    - apply map_lookup_filter_Some. split; [done|]. cbn. intros (row & Hin & ->)%elem_of_ids.
      destruct (bo_new _ _ _ _ _ _ Hbo row Hin) as (Hz & _). unfold get in Eg. by rewrite Hz in Eg.
    - apply map_lookup_filter_None. by left. }
  assert (HpG : payloads (batch_payloads G1 rows)).
  { exact (batch_payloads_ok t G1 K _ _ rows Hbo (λ c p Hp,
      HG c p (proj1 (proj1 (map_lookup_filter_Some _ G c p) Hp)))). }
  exists (batch_payloads G1 rows), K. split_and!; [exact HpG| |].
  { intros c. by apply (covered_added l G1 (after_checkpoint rs) (db_of s) A c). }
  unfold add_chunks_internal, ensure_writable. apply runs_bind, runs_bind, runs_store.
  rewrite (so_rw _ _ _ (rd_store _ _ _ _ _ _ (rn_ready _ _ _ _ _ _ Hr))). apply runs_ret.
  apply runs_bind, runs_world, runs_bind. eapply runs_lift; [exact Hprep|].
  assert (Hfst : map pa_chunk_id rows = map fst l) by apply pending_ids.
  destruct rows as [|row0 rows0] eqn:Erows.
  { apply runs_ret. rewrite <-Eids. assert (l = []) as El by (by destruct l).
    split_and!; [done| |by rewrite El; intros ?? ?%not_elem_of_nil|done].
    exists G, rs, ads. split_and!; [done|done|]. intros c. rewrite El. cbn. by rewrite map_empty_union. }
  rewrite <-Erows in *.
  assert (Ht0 : mc_tenant_id (pa_chunk row0) = t).
  { apply (bo_row _ _ _ _ _ _ Hbo row0). rewrite Erows. by left. }
  rewrite Ht0. apply runs_bind. eapply runs_mono.
  { apply (runs_add_tenant_group t G1 K rs s ads rows now lane); [done|done|by apply Hadm]. }
  cbn beta. intros _ s' ((rs' & ads' & Hr') & Hnew & Hold). apply runs_ret.
  split_and!; [done| | |by rewrite <-Hfst].
  - exists (batch_payloads G1 rows), rs', ads'. split_and!; [by eapply running_no_fates|done|].
    intros c. by apply (view_batch l G1 K (after_checkpoint rs) (db_of s)).
  - intros c chunk Hin. apply (Hnew (mkPending chunk c (json_to_vec chunk))). by apply elem_of_pending.
Qed.

Lemma exec_add s A now preserve chunks fresh lane :
  implements s A → admissible s (CmdAdd now preserve chunks fresh lane) →
  simulates s A (CmdAdd now preserve chunks fresh lane).
Proof.
  intros Hi Hadm. destruct (add_runs s A now preserve chunks fresh lane Hi Hadm) as (G & K & HG & Hcov & Hr).
  exists G, K. split_and!; [done|done|]. cbn [exec spec fst snd]. apply runs_bind. eapply runs_mono; [exact Hr|].
  intros ids s' (-> & Hi' & _). by apply runs_ret.
Qed.

Lemma exec_simulates s A cmd : implements s A → admissible s cmd → simulates s A cmd.
Proof.
  destruct cmd as [now pr chunks fresh lane|now c|c|remove now]; intros Hi Hadm;
    [by apply exec_add|by apply exec_delete|by apply exec_get|by apply exec_rewrite].
Qed.

(* ------------------------------------------------------------------ *)
(** ** Opening again *)

Hypothesis tenant_valid : TenantId.validate (TenantId.as_str t) = Ok ().

(** After a recovery the fates have been decided. *)
Lemma view_decided G db c f :
  fate_ok t [] db c f →
  match f with
  | Alive m => chunk_view G db c = fate_view G c m
  | Dead => chunk_view G db c = None
  | Maybe m => chunk_view G db c = fate_view G c m ∨ chunk_view G db c = None
  end.
Proof.
  assert (Hm : ∀ m, liveb t db c = true → fate_meta t [] db c m → chunk_view G db c = fate_view G c m).
  { intros m (r & Hl)%liveb_true (_ & Hr & _). specialize (Hr r Hl).
    unfold chunk_view, fate_view. assert (Eg : get t c db = Some (r_meta r)) by (apply get_live; eauto).
    rewrite Eg. cbn. rewrite <-Hr. done. }
  assert (Hn : liveb t db c = false → chunk_view G db c = None).
  { unfold liveb, chunk_view. by destruct (get t c db). }
  destruct f as [m| |m]; cbn [fate_ok alive_after foldl]; [naive_solver|done|].
  intros Hf. destruct (liveb t db c); auto.
Qed.

Lemma open_ready G K now maxc minf interval (w : World TK) :
  recoverable (B := B) t G K w → payloads G → 0 < maxc < 2 ^ 32 →
  ∃ ts w' tr, open now (TenantId.as_str t) maxc minf interval false w = (Ok ts, w', tr) ∧
    ready t G K [] (mkSt ts w' tr) [] ∧ all_stored (B := B) t G (w_segs w') (w_db w').
Proof.
  intros Hrcv HG Hmax. pose proof Hrcv as (rs & tail & Hwal & Hj & Hfit & Hrec).
  destruct (open_spec t G K tenant_valid HG now maxc minf interval w Hrcv Hmax)
    as (ts & w' & tr & Hopen & _ & [Hst Hin Hrec0 Hall _ _] & _ & _ & Hne & Hnil).
  exists ts, w', tr. split_and!; [done| |exact Hall].
  assert (Hcur : wal_reader_open (f_cur <$> w_wal w) = mkWalReader (wal_bytes rs ++ tail)).
  { destruct (w_wal w) as [f|]; [by subst f|by destruct Hwal as [-> ->]]. }
  rewrite Hcur, records_for_recovery_log in Hne, Hnil by done.
  constructor; [|exact Hst|exact Hrec0|intros c r a _ Ha; cbn in Hin, Ha; congruence].
  cbn. destruct (decide (after_checkpoint rs = [])) as [Hz|Hz].
  - destruct (Hnil Hz) as (_ & _ & ->). intros segs db k Hr0.
    apply (crash_ok_synced t G K _ rs tail); [|done|done|by rewrite Hz].
    destruct (w_wal w) as [f|]; [by subst f|by destruct Hwal as [-> ->]].
  - rewrite (Hne Hz). by apply (log_ok_synced t G K []).
Qed.

(** Whatever a crash left: the store opens, and every read is answered as
    the fates say. *)
Lemma open_answers G K now maxc minf interval (w : World TK) A A' :
  recoverable (B := B) t G K w → payloads G → 0 < maxc < 2 ^ 32 →
  (∀ c, covered G K A A' c) →
  ∃ ts w' tr, open now (TenantId.as_str t) maxc minf interval false w = (Ok ts, w', tr) ∧
    ∀ c, ∃ o s2, get_chunk t c (mkSt ts w' tr) = (Ok o, s2) ∧ either A A' c o.
Proof.
  intros Hrcv HG Hmax Hcov.
  destruct (open_ready G K now maxc minf interval w Hrcv HG Hmax) as (ts & w' & tr & Hopen & Hrd & Hall).
  exists ts, w', tr. split; [done|]. intros c.
  destruct (runs_get_view G K [] (mkSt ts w' tr) [] c Hrd HG) as (o & s2 & tr2 & E & _ & _ & -> & _).
  { intros r Hl. destruct (Hall c r Hl) as (p & ? & ?). exists p. split; [done|by left]. }
  eexists _, s2. split; [exact E|]. specialize (Hcov c). unfold covered in Hcov.
  destruct (K !! c) as [f|] eqn:EK.
  - pose proof (view_decided G (w_db w') c f (rs_fate _ _ _ _ _ _ (rd_rec _ _ _ _ _ _ Hrd) c f EK)) as Hv.
    unfold db_of. cbn. destruct f as [m| |m]; [by rewrite Hv|by rewrite Hv|].
    destruct Hcov as [? ?]. by destruct Hv as [-> | ->].
  - destruct Hcov as [HGc ?]. unfold chunk_view. rewrite HGc. by destruct (get t c _).
Qed.

(** A crash between operations. *)
Lemma crash_running G K rs s ads w' :
  running t G K rs s ads → crash_world (s_world s) w' →
  w_wal w' = Some (file_of (wal_bytes rs)) ∧
  rec_state (B := B) (TK := TK) t G K (after_checkpoint rs) (w_segs w') (w_db w').
Proof.
  intros [Hw Hfit _ [_ _ Hrec _] _ _ _] (Hwal & Hsegs & Hdb & _). rewrite Hw in Hwal.
  destruct (w_wal w') as [f'|]; [|done]. destruct Hwal as (c & Hc & ->).
  apply crash_content_file_of in Hc as ->. split; [done|]. rewrite Hdb. by eapply crash_rec_state.
Qed.

Lemma open_running G K now maxc minf interval (w : World TK) rs :
  (w_wal w = Some (file_of (wal_bytes rs)) ∨ w_wal w = None ∧ rs = []) → Forall wal_fits rs →
  rec_state (B := B) (TK := TK) t G K (after_checkpoint rs) (w_segs w) (w_db w) →
  payloads G → 0 < maxc < 2 ^ 32 →
  ∃ ts w' tr rs', open now (TenantId.as_str t) maxc minf interval false w = (Ok ts, w', tr) ∧
    running t G K rs' (mkSt ts w' tr) [] ∧ after_checkpoint rs' = [].
Proof.
  intros Hw Hfit Hrec HG Hmax.
  assert (Hrcv : recoverable (B := B) t G K w).
  { exists rs, []. rewrite app_nil_r. split_and!; [|apply wal_junk_nil|done|done].
    by destruct Hw as [-> |[-> ->]]. }
  assert (Hcur : default [] (f_cur <$> w_wal w) = wal_bytes rs) by (by destruct Hw as [-> |[-> ->]]).
  destruct (open_spec t G K tenant_valid HG now maxc minf interval w Hrcv Hmax)
    as (ts & w' & tr & Hopen & _ & [Hst Hin Hrec0 Hall _ _] & _ & (wal & f & Ewal & Ef & Hend) & Hne & Hnil).
  assert (Hsuf : records_for_recovery (wal_reader_open (f_cur <$> w_wal w)) = after_checkpoint rs).
  { replace (wal_reader_open _) with (mkWalReader (wal_bytes rs ++ [])).
    - apply records_for_recovery_log; [done|apply wal_junk_nil].
    - rewrite <-Hcur, app_nil_r. unfold wal_reader_open. by destruct (w_wal w). }
  rewrite Hsuf in Hne, Hnil.
  assert (Hlog : ∃ rs', Forall wal_fits rs' ∧ f = file_of (wal_bytes rs') ∧ after_checkpoint rs' = []).
  { destruct (decide (after_checkpoint rs = [])) as [Hz|Hz].
    - exists rs. destruct (Hnil Hz) as (_ & _ & E). split_and!; [done|congruence|done].
    - exists []. specialize (Hne Hz). rewrite Ef in Hne. split_and!; [done|by injection Hne|done]. }
  destruct Hlog as (rs' & Hfit' & -> & Hz). exists ts, w', tr, rs'. split_and!; [done| |done].
  constructor; rewrite ?Hz; try done.
  - exists wal. done.
  - constructor; [|exact Hst|exact Hrec0|intros c r a _ Ha; cbn in Hin, Ha; congruence].
    rewrite <-Hz. apply log_ok_synced; [exact Ef|done].
  - intros c r Hl. destruct (Hall c r Hl) as (p & ? & ?). exists p. split; [done|by left].
  - intros c r _ rec Hi. by apply not_elem_of_nil in Hi.
Qed.

Lemma reopen_implements s A now maxc minf interval w :
  implements s A → crash_world (s_world s) w → 0 < maxc < 2 ^ 32 →
  ∃ ts w' tr, open now (TenantId.as_str t) maxc minf interval false w = (Ok ts, w', tr) ∧
    implements (mkSt ts w' tr) A.
Proof.
  intros (G & rs & ads & Hr & HG & HA) Hc Hmax.
  pose proof (running_all_fates _ _ _ _ Hr) as Hrf.
  destruct (crash_running _ _ _ _ _ _ Hrf Hc) as [Hw Hrec].
  destruct (open_running G _ now maxc minf interval w rs (or_introl Hw) (rn_fits _ _ _ _ _ _ Hr) Hrec HG Hmax)
    as (ts & w' & tr & rs' & Hopen & Hr' & Hz).
  exists ts, w', tr. split; [done|]. exists G, rs', [].
  split_and!; [by eapply running_no_fates|done|]. intros c. rewrite HA.
  destruct (G !! c) as [p|] eqn:EG.
  2: { unfold chunk_view. rewrite EG. by destruct (get t c _), (get t c _). }
  assert (HK : fates G (db_of s) !! c = Some (fate_now t (db_of s) c)) by (by rewrite fates_lookup, EG).
  pose proof (rs_fate _ _ _ _ _ _ (rd_rec _ _ _ _ _ _ (rn_ready _ _ _ _ _ _ Hr')) c _ HK) as Hf.
  rewrite Hz in Hf. apply (view_decided G) in Hf. unfold fate_now in Hf. unfold chunk_view at 1.
  destruct (get t c (db_of s)) as [m|]; exact (eq_sym Hf).
Qed.

Lemma open_empty now maxc minf interval (k : TK) :
  0 < maxc < 2 ^ 32 →
  ∃ ts w' tr, open now (TenantId.as_str t) maxc minf interval false (mkWorld None ∅ ∅ k) = (Ok ts, w', tr) ∧
    implements (mkSt ts w' tr) ∅.
Proof.
  intros Hmax.
  destruct (open_running ∅ ∅ now maxc minf interval (mkWorld None ∅ ∅ k) []) as (ts & w' & tr & rs' & E & Hr & _).
  - by right.
  - done.
  - assert (Hno : ∀ c r, ¬ live t ∅ c r) by (intros c r (E & _); by rewrite lookup_empty in E).
    constructor; cbn; [done|done|apply table_wf_empty|done| | |done]; intros c r; naive_solver.
  - done.
  - done.
  - exists ts, w', tr. split; [done|]. exists ∅, rs', []. split_and!; [done|done|]. intros c.
    unfold chunk_view. rewrite !lookup_empty. by destruct (get t c _).
Qed.

(* ------------------------------------------------------------------ *)
(** ** Histories *)

(** Commands and crashes, with the answers. *)
Inductive history (maxc minf interval : Z) : St B TK → list (Cmd * memd_result Out) → St B TK → Prop :=
| history_nil s : history maxc minf interval s [] s
| history_cmd s cmd res s1 h s2 :
    admissible s cmd → exec cmd s = (res, s1) → history maxc minf interval s1 h s2 →
    history maxc minf interval s ((cmd, res) :: h) s2
| history_crash s now w ts w' tr h s2 :
    crash_world (s_world s) w →
    open now (TenantId.as_str t) maxc minf interval false w = (Ok ts, w', tr) →
    history maxc minf interval (mkSt ts w' tr) h s2 →
    history maxc minf interval s h s2.

(** The answers of the abstract store. *)
Fixpoint spec_answers (cmds : list Cmd) (A : gmap ChunkId MemoryChunk) : list (Cmd * memd_result Out) :=
  match cmds with
  | [] => []
  | cmd :: cmds => (cmd, Ok (spec cmd A).1) :: spec_answers cmds (spec cmd A).2
  end.

Lemma history_spec maxc minf interval s h s' A :
  0 < maxc < 2 ^ 32 → history maxc minf interval s h s' → implements s A →
  h = spec_answers (map fst h) A ∧ implements s' (foldl (λ A cmd, (spec cmd A).2) A (map fst h)).
Proof.
  intros Hmax Hh. revert A.
  induction Hh as [s|s cmd res s1 h s2 Hadm He Hh IH|s now w ts w' tr h s2 Hc Ho Hh IH]; intros A Hi.
  - done.
  - destruct (exec_simulates s A cmd Hi Hadm) as (G & K & _ & _ & (out & s1' & tr & E & _ & _ & -> & Hi1)).
    rewrite He in E. injection E as -> ->. destruct (IH _ Hi1) as [Eh Hi2]. cbn. split; [|done].
    f_equal. exact Eh.
  - destruct (reopen_implements s A now maxc minf interval w Hi Hc Hmax) as (ts1 & w1 & tr1 & E & Hi1).
    rewrite Ho in E. injection E as -> -> ->. by apply IH.
Qed.

End spec.
