(* ===== verification/Concrete.v ===== *)
(** * Concrete instances of the crate interfaces

    One instance per class of [Crates.v], with its laws proved, so that the
    hypotheses of the theorems can be discharged and the definitions run.
    The byte order and the checksum are the real algorithms; the codecs are
    injective encodings through stdpp's [Countable] and the bitmap is a
    finite set: they satisfy the same laws as the crates, not the same
    bytes. *)

From S2P Require Import Prelude Crates Types WalFormat Files SegmentFormat Segment TenantStore.
From coqutil Require Import Word.LittleEndianList.
From Stdlib Require Import Init.Byte Ascii.

Open Scope Z_scope.

(* ------------------------------------------------------------------ *)
(** ** Little-endian integers *)

Definition read_le (n : nat) (bs : list byte) : option (Z * list byte) :=
  if bool_decide (n ≤ length bs)%nat
  then Some (LittleEndianList.le_combine (take n bs), drop n bs)
  else None.

#[export] Instance le_byteorder : ByteOrder := {
  write_u32 := LittleEndianList.le_split 4;
  write_u64 := LittleEndianList.le_split 8;
  read_u32 := read_le 4;
  read_u64 := read_le 8;
}.

Lemma read_le_split n x rest :
  0 ≤ x < 2 ^ (Z.of_nat n * 8) →
  read_le n (LittleEndianList.le_split n x ++ rest) = Some (x, rest).
Proof.
  intros Hx. unfold read_le.
  assert (Hl : length (LittleEndianList.le_split n x) = n) by apply length_le_split.
  rewrite bool_decide_true by (rewrite length_app; lia).
  rewrite take_app_length', drop_app_length' by done.
  by rewrite le_combine_split, Z.mod_small.
Qed.

Lemma read_le_enough n bs :
  (n ≤ length bs)%nat →
  ∃ x, read_le n bs = Some (x, drop n bs) ∧ 0 ≤ x < 2 ^ (8 * Z.of_nat n).
Proof.
  intros Hn. exists (LittleEndianList.le_combine (take n bs)). unfold read_le.
  rewrite bool_decide_true by done. split; [done|].
  pose proof (le_combine_bound (take n bs)) as Hb.
  by rewrite length_take, Nat.min_l in Hb by lia.
Qed.

#[export] Instance le_byteorder_laws : ByteOrderLaws.
Proof.
  split.
  - intros x. apply length_le_split.
  - intros x. apply length_le_split.
  - intros x rest Hx. by apply read_le_split.
  - intros x rest Hx. by apply read_le_split.
  - intros bs. apply read_le_enough.
  - intros bs. apply read_le_enough.
Qed.

(* ------------------------------------------------------------------ *)
(** ** CRC-32 (IEEE 802.3, reflected) *)

Definition crc_bit (c : Z) : Z :=
  if Z.odd c then Z.lxor (Z.shiftr c 1) 3988292384 else Z.shiftr c 1.
Definition crc_byte (c : Z) (b : byte) : Z :=
  Nat.iter 8 crc_bit (Z.lxor c (byte.unsigned b)).
Definition crc32_ieee (bs : list byte) : Z :=
  Z.land (Z.lxor (foldl crc_byte 4294967295 bs) 4294967295) 4294967295.

#[export] Instance crc32_ieee_inst : Crc32 := { crc32 := crc32_ieee }.
#[export] Instance crc32_ieee_laws : Crc32Laws.
Proof.
  split. intros bs. cbn. unfold crc32_ieee, in_u32.
  change (Z.land ?x 4294967295) with (Z.land x (Z.ones 32)).
  rewrite Z.land_ones by lia. apply Z.mod_pos_bound. lia.
Qed.

(** The check value of the standard: CRC-32 of b"123456789". *)
Example crc32_check :
  crc32_ieee [x31; x32; x33; x34; x35; x36; x37; x38; x39] = 3421780262.
Proof. vm_compute. reflexivity. Qed.

(* ------------------------------------------------------------------ *)
(** ** Codecs through [Countable] *)

Fixpoint pos_bits (p : positive) : list bool :=
  match p with
  | xH => []
  | xO p => false :: pos_bits p
  | xI p => true :: pos_bits p
  end.
Fixpoint bits_pos (l : list bool) : positive :=
  match l with
  | [] => xH
  | false :: l => xO (bits_pos l)
  | true :: l => xI (bits_pos l)
  end.

Lemma bits_pos_bits p : bits_pos (pos_bits p) = p.
Proof. induction p; cbn; congruence. Qed.

Definition bit_byte (b : bool) : byte := if b then x01 else x00.
Definition byte_bit (b : byte) : bool := bool_decide (b = x01).
Definition bit_ascii (b : bool) : ascii := if b then "1"%char else "0"%char.
Definition ascii_bit (c : ascii) : bool := bool_decide (c = "1"%char).

Definition to_bytes {A} `{Countable A} (a : A) : list byte := map bit_byte (pos_bits (encode a)).
Definition of_bytes {A} `{Countable A} (bs : list byte) : option A :=
  decode (bits_pos (map byte_bit bs)).

Lemma of_to_bytes {A} `{Countable A} (a : A) : of_bytes (to_bytes a) = Some a.
Proof.
  unfold of_bytes, to_bytes. rewrite map_map.
  rewrite (map_ext _ id) by (by intros []). rewrite map_id, bits_pos_bits.
  apply decode_encode.
Qed.

Fixpoint string_of (l : list ascii) : string :=
  match l with [] => EmptyString | c :: l => String c (string_of l) end.

Lemma chars_string_of l : chars (string_of l) = l.
Proof. induction l; cbn; congruence. Qed.

(** Countability of the enums (through their textual forms) and records. *)
#[export] Instance ChunkType_countable : Countable ChunkType.
Proof.
  apply (inj_countable ChunkType_to_string (λ s, res_ok (ChunkType_from_str s))).
  by intros [].
Defined.
#[export] Instance ChunkStatus_countable : Countable ChunkStatus.
Proof.
  apply (inj_countable ChunkStatus_to_string (λ s, res_ok (ChunkStatus_from_str s))).
  by intros [].
Defined.
#[export] Instance IngestionMode_countable : Countable IngestionMode.
Proof.
  apply (inj_countable IngestionMode_to_string (λ s, res_ok (IngestionMode_from_str s))).
  by intros [].
Defined.
#[export] Instance PromotionState_countable : Countable PromotionState.
Proof.
  apply (inj_countable (λ p, match p with Raw => 0 | Summarized => 1 | Canonical => 2 | Verified => 3 end)
    (λ z, if z =? 0 then Some Raw else if z =? 1 then Some Summarized
          else if z =? 2 then Some Canonical else Some Verified)).
  by intros [].
Defined.
#[export] Instance WalRecordType_countable : Countable WalRecordType.
Proof. apply (inj_countable WalRecordType_as_u8 WalRecordType_from_u8). by intros []. Defined.

#[export] Instance WalRecord_countable : Countable WalRecord.
Proof.
  apply (inj_countable'
    (λ r, (record_type r, wr_tenant_id r, wr_chunk_id r, wr_timestamp r, wr_payload r))
    (λ '(a, b, c, d, e), mkWalRecord a b c d e)).
  by intros [].
Defined.
#[export] Instance SegmentMeta_eq_dec : EqDecision SegmentMeta.
Proof. solve_decision. Defined.
#[export] Instance SegmentMeta_countable : Countable SegmentMeta.
Proof.
  apply (inj_countable'
    (λ r, (sm_id r, sm_chunk_count r, sm_created_ts r, sm_finalized r))
    (λ '(a, b, c, d), mkSegmentMeta a b c d)).
  by intros [].
Defined.
#[export] Instance Source_countable : Countable Source.
Proof.
  apply (inj_countable'
    (λ r, (src_uri r, src_repo r, src_commit r, src_path r, src_tool_name r, src_tool_call_id r))
    (λ '(a, b, c, d, e, f), mkSource a b c d e f)).
  by intros [].
Defined.
#[export] Instance MemoryChunk_eq_dec : EqDecision MemoryChunk.
Proof. solve_decision. Defined.
#[export] Instance MemoryChunk_countable : Countable MemoryChunk.
Proof.
  apply (inj_countable'
    (λ c, (mc_chunk_id c, mc_tenant_id c, mc_project_id c, mc_agent_id c,
           (mc_timestamp_created c, mc_timestamp_observed c, mc_chunk_type c, mc_status c,
            (mc_promotion_state c, mc_source c, mc_text c, mc_tags c, mc_hash c,
             mc_ingestion_mode c))))
    (λ '(a, b, c, d, (e, f, g, h, (i, j, k, l, m, n))), mkChunk a b c d e f g h i j k l m n)).
  by intros [].
Defined.

#[export] Instance bincode_wal : Bincode WalRecord :=
  { bincode_encode := to_bytes; bincode_decode := of_bytes }.
#[export] Instance bincode_wal_laws : BincodeLaws WalRecord.
Proof. split. intros r. apply of_to_bytes. Qed.
#[export] Instance bincode_meta : Bincode SegmentMeta :=
  { bincode_encode := to_bytes; bincode_decode := of_bytes }.
#[export] Instance bincode_meta_laws : BincodeLaws SegmentMeta.
Proof. split. intros r. apply of_to_bytes. Qed.
#[export] Instance json_chunk : Json MemoryChunk :=
  { json_to_vec := to_bytes; json_from_slice := of_bytes }.
#[export] Instance json_chunk_laws : JsonLaws MemoryChunk.
Proof. split. intros r. apply of_to_bytes. Qed.

(* ------------------------------------------------------------------ *)
(** ** Bitmaps, identifiers, digest *)

#[export] Instance roaring_gset : Roaring (gset Z) := {
  rb_new := ∅;
  rb_insert x b := {[x]} ∪ b;
  rb_iter b := elements b;
  rb_contains x b := bool_decide (x ∈ b);
  rb_len b := Z.of_nat (size b);
  rb_serialize b := to_bytes (elements b);
  rb_deserialize bs := list_to_set <$> of_bytes (A := list Z) bs;
}.
#[export] Instance roaring_gset_laws : RoaringLaws (gset Z).
Proof.
  split; cbn.
  - intros b. apply NoDup_elements.
  - intros x b. by rewrite bool_decide_eq_true, elem_of_elements.
  - done.
  - intros x y b. rewrite !elem_of_elements. set_solver.
  - done.
  - intros b. rewrite of_to_bytes. cbn. eexists. split; [done|].
    intros x. rewrite !elem_of_elements, elem_of_list_to_set. by rewrite elem_of_elements.
Qed.

#[export] Instance uuid_chunk : Uuid ChunkId := {
  uuid_to_string u := string_of (map bit_ascii (pos_bits (encode u)));
  uuid_parse s := decode (bits_pos (map ascii_bit (chars s)));
}.
#[export] Instance uuid_chunk_laws : UuidLaws ChunkId.
Proof.
  split. intros u. cbn. rewrite chars_string_of, map_map.
  rewrite (map_ext _ id) by (by intros []). rewrite map_id, bits_pos_bits. apply decode_encode.
Qed.

#[export] Instance sha256_stub : Sha256 := { sha256_hex s := s }.
#[export] Instance buf_cap_8k : BufCap := Z.to_nat 8192.

(* ------------------------------------------------------------------ *)
(** ** Text and task tables *)

(** ASCII case and white space, where the Unicode tables agree with them. *)
Definition ascii_lower (c : ascii) : ascii :=
  let n := Ascii.nat_of_ascii c in
  if (bool_decide (65 ≤ n) && bool_decide (n ≤ 90))%nat then Ascii.ascii_of_nat (n + 32) else c.
Definition ascii_space (c : ascii) : bool := bool_decide (c ∈ [" "; "009"; "010"; "011"; "012"; "013"]%char).

Fixpoint ascii_words (cur : list ascii) (l : list ascii) : list string :=
  let word := match cur with [] => [] | _ => [string_of (reverse cur)] end in
  match l with
  | [] => word
  | c :: l => if ascii_space c then word ++ ascii_words [] l else ascii_words (c :: cur) l
  end.

#[export] Instance ascii_unicode : Unicode := {
  str_to_lowercase s := string_of (map ascii_lower (chars s));
  str_split_whitespace s := ascii_words [] (chars s);
}.

(** Task tables that keep the payloads. *)
#[export] Instance payload_task_tables : TaskTables (list (list byte)) := {
  insert_task_artifact_payload p k := Ok (k ++ [p]);
}.
