(* ===== verification/WalProps.v ===== *)
(** * Properties of the write-ahead log

    The claims about the record codec, the writer, the reader and the replay,
    each with an evaluation on concrete data. *)

From S2P Require Import Prelude Crates Types WalFormat WalReader Files WalWriter Concrete.
From Stdlib Require Import Init.Byte.

Open Scope Z_scope.

(** Concrete records for the evaluations. *)
Definition ex_add : WalRecord := wal_add "t" "c" 1 [x0a; x0b].
Definition ex_del : WalRecord := wal_delete "t" "c" 2.
Definition ex_ckp : WalRecord := wal_checkpoint "t" 3.

Lemma ex_fits : Forall wal_fits [ex_add; ex_del; ex_ckp].
Proof. repeat constructor; vm_compute; reflexivity. Qed.

Section props.
Context `{ByteOrderLaws} `{Crc32Laws} `{BincodeLaws WalRecord}.

(** C11: decoding the bytes of an encoded record gives the record back and
    consumes exactly its bytes, whatever follows it; cutting the encoding
    anywhere makes the decoder report a truncated record, never a record. *)
Theorem wal_record_roundtrip r rest k :
  wal_fits r →
  decode_from_bytes (encode_to_bytes r ++ rest) = Ok (r, zlen (encode_to_bytes r)) ∧
  ((k < length (encode_to_bytes r))%nat →
   ∃ msg, decode_from_bytes (take k (encode_to_bytes r)) = Err (io_err UnexpectedEof msg)).
Proof.
  intros Hfit. split; [by apply wal_decode_encode|]. intros Hk. by apply wal_decode_torn.
Qed.

(** the in-place decoder and the streaming decoder [read_from] agree on
    an encoded record, and the stream is left just behind it. *)
Theorem wal_read_from_roundtrip r rest :
  wal_fits r → read_from (encode_to_bytes r ++ rest) = Ok (r, rest).
Proof.
  intros Hfit. unfold read_from, read_exact.
  pose proof (zlen_wal_header r) as Hh. pose proof (zlen_nonneg (bincode_encode r)).
  pose proof (zlen_nonneg rest).
  rewrite encode_header, <-app_assoc, !zlen_app, Hh.
  replace (_ <? _) with false by lia.
  replace (Z.to_nat WAL_HEADER_SIZE) with (length (wal_header r)) by (unfold zlen in Hh; lia).
  cbn [mbind result_bind]. rewrite take_app_length, drop_app_length.
  replace (zslice 0 4 (wal_header r)) with WAL_MAGIC by done.
  rewrite bool_decide_true by done. cbn [negb].
  replace (zslice 5 9 (wal_header r)) with (write_u32 (as_u32 (zlen (bincode_encode r)))).
  2: { symmetry. unfold wal_header. rewrite (app_assoc WAL_MAGIC).
       apply zslice_app_mid; [done|]. rewrite zlen_write_u32. done. }
  rewrite <-(app_nil_r (write_u32 _)), read_write_u32 by apply as_u32_range.
  cbn [ok_or mbind result_bind].
  rewrite as_u32_small by (split; [apply zlen_nonneg | exact Hfit]).
  rewrite zlen_app. replace (_ <? _) with false by lia.
  replace (Z.to_nat (zlen (bincode_encode r))) with (length (bincode_encode r)) by (unfold zlen; lia).
  cbn [mbind result_bind]. rewrite take_app_length, drop_app_length, <-encode_header.
  rewrite <-(app_nil_r (encode_to_bytes r)), wal_decode_encode by done. done.
Qed.

(** [read_all_records] terminates on every byte string, and what it
    consumed lies inside the file. *)
Theorem wal_read_total (data : list byte) :
  ∃ rs n, read_all_records (mkWalReader data) = Some (rs, n) ∧ 0 ≤ n ≤ zlen data.
Proof.
  destruct (read_all_some (mkWalReader data)) as [E Hn].
  destruct (read_all (mkWalReader data)) as [rs n]. by exists rs, n.
Qed.

(** C6: crash safety of a batch append.  The log holds the synced records
    [rs]; while the batch [rs'] is being written a crash may cut the file
    anywhere, and the reader then returns [rs] and a prefix of the batch.
    Once [append_batch] has returned, a crash loses nothing. *)
Theorem wal_append_batch_crash rs rs' w c :
  Forall wal_fits rs → Forall wal_fits rs' → rs' ≠ [] →
  at_end (ww_handle w) (file_of (wal_bytes rs)) →
  (crash_content (wal_write_batch rs' (ww_handle w) (file_of (wal_bytes rs))).2 c →
   ∃ n, read_all (mkWalReader c) = (rs ++ take n rs', zlen (wal_bytes (rs ++ take n rs')))) ∧
  (crash_content (wal_append_batch rs' w (file_of (wal_bytes rs))).2 c →
   read_all (mkWalReader c) = (rs ++ rs', zlen c)).
Proof.
  intros Hrs Hrs' Hne He. split; intros Hc.
  - destruct (wal_write_batch_at_end rs' _ _ He) as (h & E & _). rewrite E in Hc.
    cbn [snd f_cur f_durable file_of] in Hc.
    apply crash_content_append in Hc as [k ->].
    destruct (wal_bytes_prefix rs' k Hrs') as (n & tail & -> & Hj & _).
    exists n. rewrite app_assoc, <-wal_bytes_app.
    apply read_all_log; [|done]. apply Forall_app. split; [done|by apply Forall_take].
  - destruct (wal_append_batch_at_end rs' w _ Hne He) as (h & E & _). rewrite E in Hc.
    apply crash_content_file_of in Hc as ->. cbn [f_cur file_of].
    rewrite <-wal_bytes_app, <-(app_nil_r (wal_bytes (rs ++ rs'))).
    rewrite read_all_log by (try apply wal_junk_nil; by apply Forall_app).
    by rewrite app_nil_r.
Qed.

(** C10: recovery starts right after the last checkpoint: of a log
    [rs, checkpoint, rs'] with a torn tail, exactly [rs'] is replayed. *)
Theorem wal_recovery_after_checkpoint rs ck rs' r k :
  Forall wal_fits (rs ++ ck :: rs') → wal_fits r → (k < length (encode_to_bytes r))%nat →
  is_checkpoint ck = true → Forall (λ x, is_checkpoint x = false) rs' →
  records_for_recovery
    (mkWalReader (wal_bytes (rs ++ ck :: rs') ++ take k (encode_to_bytes r))) = rs'.
Proof.
  intros Hfit Hr Hk Hck Hno.
  rewrite records_for_recovery_log by (try apply wal_junk_torn; done).
  rewrite cons_middle, app_assoc, after_checkpoint_app by done.
  by rewrite after_checkpoint_checkpoint.
Qed.

(** replay is idempotent.  After a replay every added chunk exists and
    every record is counted once; a second replay of the same log over the
    result, if the handler does not fail, adds no chunk. *)
Theorem wal_replay_idempotent {HS} `{!RecoveryHandler HS} `{!RecoveryHandlerLaws HS}
    reader (h h1 : HS) st1 :
  replay reader h = Ok (h1, st1) →
  (∀ r, r ∈ records_for_recovery reader → record_type r = WalAdd →
        chunk_exists (wr_chunk_id r) h1 = Ok true) ∧
  (rs_adds st1 + rs_skipped st1 + rs_deletes st1 + rs_task_artifacts st1
     = length (records_for_recovery reader))%nat ∧
  (∀ h2 st2, replay reader h1 = Ok (h2, st2) →
     rs_adds st2 = O ∧ rs_skipped st2 = (rs_adds st1 + rs_skipped st1)%nat).
Proof.
  unfold replay. intros Hr. pose proof (replay_fold _ _ _ _ _ Hr) as (Hex & Ha & Hd & Ht & Hc).
  cbn [rs_adds rs_skipped rs_deletes rs_task_artifacts rs_checkpoints RecoveryStats_default] in *.
  assert (Hall : ∀ r, r ∈ records_for_recovery reader → record_type r = WalAdd →
        chunk_exists (wr_chunk_id r) h1 = Ok true) by (intros r ? ?; apply Hex; eauto).
  split_and!; [done| |].
  - pose proof (recovery_no_checkpoint reader) as Hno.
    apply count_type_checkpoint in Hno.
    pose proof (count_type_total (records_for_recovery reader)). lia.
  - intros h2 st2 Hr2. pose proof (replay_fold _ _ _ _ _ Hr2) as (_ & Ha2 & _).
    pose proof (replay_fold_existing _ _ _ _ _ Hall Hr2) as Hz. cbn in *. lia.
Qed.

(** [truncate] on a writer that came from [open] empties the log and
    the records appended afterwards are read back. *)
Theorem wal_truncate_then_append f w f0 r :
  wal_fits r → wal_open (Some f) = Ok (w, f0) →
  let '(w1, f1) := wal_truncate w f0 in
  let '(_, f2) := wal_append r w1 f1 in
  read_all (mkWalReader (f_cur f1)) = ([], 0) ∧ ww_records_written w1 = 0 ∧
  ∀ c, crash_content f2 c → read_all (mkWalReader c) = ([r], zlen c).
Proof.
  intros Hr [= <- <-]. unfold wal_truncate. cbn [ww_handle].
  destruct (wal_append_at_end r (mkWalWriter (mkHandle true (length (f_cur f))) 0)
              (file_sync (file_set_len0 f))) as (h & E & _); [by left|].
  rewrite E. split_and!; [done..|]. intros c ->%crash_content_file_of.
  cbn [f_cur file_sync file_set_len0 file_of app].
  replace (encode_to_bytes r) with (wal_bytes [r] ++ []) by (cbn; by rewrite !app_nil_r).
  rewrite read_all_log by (auto using wal_junk_nil). by rewrite app_nil_r.
Qed.

(** [truncate] on a writer that came from [create] does not rewind the
    handle, which is not in append mode: the next append leaves a hole of
    zeros in front of the record and the reader finds nothing. *)
Theorem wal_truncate_after_create r r' :
  ∀ w f, wal_create None = Ok (w, f) →
  let '(w1, f1) := wal_append r w f in
  let '(w2, f2) := wal_truncate w1 f1 in
  let '(_, f3) := wal_append r' w2 f2 in
  read_all (mkWalReader (f_cur f3)) = ([], 0) ∧
  f_cur f3 = replicate (length (encode_to_bytes r)) x00 ++ encode_to_bytes r'.
Proof.
  intros w f [= <- <-].
  destruct (wal_append_at_end r (mkWalWriter (mkHandle false 0) 0) file_new)
    as (h & E & He & Ha); [by right|].
  rewrite E. unfold wal_truncate, wal_append. cbn [ww_handle h_append] in Ha.
  destruct He as [He|He]; [congruence|]. unfold handle_write. cbn [ww_handle]. rewrite Ha.
  cbn [f_cur file_of app] in He. rewrite He.
  match goal with |- _ ∧ ?l = ?r => assert (Ef : l = r) end.
  { rewrite <-file_write_at_hole. done. }
  rewrite Ef. split; [|done].
  assert (wal_junk (replicate (length (encode_to_bytes r)) x00 ++ encode_to_bytes r')) as Hj.
  { destruct (length (encode_to_bytes r)) as [|n] eqn:El.
    { pose proof (encode_length r) as Hz. pose proof (zlen_nonneg (bincode_encode r)).
      unfold zlen at 1, WAL_HEADER_SIZE in Hz. lia. }
    right. unfold decode_from_bytes. destruct (_ <? _); [done|].
    rewrite bool_decide_false; [done|]. cbn [replicate app]. unfold zslice. cbn. by intros [=]. }
  apply (read_all_log [] _ (Forall_nil_2 _) Hj).
Qed.

End props.

(* ------------------------------------------------------------------ *)
(** ** Evaluations *)

(** A handler that keeps the set of known chunks. *)
#[local] Instance ex_handler : RecoveryHandler (gset string) := {
  on_add r h := Ok ({[wr_chunk_id r]} ∪ h);
  on_delete r h := Ok h;
  on_task_artifact r h := Ok h;
  chunk_exists c h := Ok (bool_decide (c ∈ h));
}.
#[local] Instance ex_handler_laws : RecoveryHandlerLaws (gset string).
Proof.
  split; cbn; intros; simplify_eq; f_equal; rewrite bool_decide_eq_true in *;
    repeat match goal with H : Ok _ = Ok _ |- _ => injection H as H; apply bool_decide_eq_true in H end;
    set_solver.
Qed.

Lemma wal_record_roundtrip_witness :
  decode_from_bytes (encode_to_bytes ex_add ++ [x07]) = Ok (ex_add, zlen (encode_to_bytes ex_add)) ∧
  ∃ msg, decode_from_bytes (take 20 (encode_to_bytes ex_add)) = Err (io_err UnexpectedEof msg).
Proof.
  destruct (wal_record_roundtrip ex_add [x07] 20) as [H1 H2]; [vm_compute; reflexivity|].
  split; [exact H1|]. apply H2. apply Nat.ltb_lt. vm_compute. reflexivity.
Defined.

Lemma wal_read_from_roundtrip_witness :
  read_from (encode_to_bytes ex_del ++ [x01; x02]) = Ok (ex_del, [x01; x02]).
Proof. apply (wal_read_from_roundtrip ex_del). vm_compute. reflexivity. Defined.

Lemma wal_read_total_witness :
  ∃ rs n, read_all_records (mkWalReader [x4d; x57]) = Some (rs, n) ∧ 0 ≤ n ≤ 2.
Proof. exact (wal_read_total [x4d; x57]). Defined.

Lemma wal_append_batch_crash_witness :
  ∃ n, read_all (mkWalReader (wal_bytes [ex_add] ++ take 30 (wal_bytes [ex_del; ex_ckp])))
    = ([ex_add] ++ take n [ex_del; ex_ckp], zlen (wal_bytes ([ex_add] ++ take n [ex_del; ex_ckp]))).
Proof.
  pose proof ex_fits as Hf. apply Forall_cons in Hf as [Ha Hf].
  destruct (wal_append_batch_crash [ex_add] [ex_del; ex_ckp]
    (mkWalWriter (mkHandle true 0) 0)
    (wal_bytes [ex_add] ++ take 30 (wal_bytes [ex_del; ex_ckp]))) as [Hc _].
  - by constructor.
  - exact Hf.
  - done.
  - by left.
  - apply Hc. right. right. split; cbn [wal_write_batch handle_write h_append ww_handle snd
      file_append f_durable f_cur file_of].
    + by eexists.
    + rewrite <-app_assoc. apply prefix_app. cbn [wal_bytes mbind list_bind]. rewrite app_nil_r. apply prefix_take.
Defined.

Lemma wal_recovery_after_checkpoint_witness :
  records_for_recovery
    (mkWalReader (wal_bytes ([ex_add] ++ ex_ckp :: [ex_del]) ++ take 5 (encode_to_bytes ex_add)))
  = [ex_del].
Proof.
  apply (wal_recovery_after_checkpoint [ex_add] ex_ckp [ex_del] ex_add 5).
  - repeat constructor; vm_compute; reflexivity.
  - vm_compute; reflexivity.
  - apply Nat.ltb_lt. vm_compute. reflexivity.
  - reflexivity.
  - repeat constructor.
Defined.

Lemma wal_replay_idempotent_witness :
  replay (mkWalReader (wal_bytes [ex_add; ex_del])) (∅ : gset string)
    = Ok ({["c"]}, mkStats 1 1 0 0 0) ∧
  length (records_for_recovery (mkWalReader (wal_bytes [ex_add; ex_del]))) = 2%nat ∧
  ∀ h2 st2,
    replay (mkWalReader (wal_bytes [ex_add; ex_del])) ({["c"]} : gset string) = Ok (h2, st2) →
    rs_adds st2 = O ∧ rs_skipped st2 = 1%nat.
Proof.
  assert (Hr : replay (mkWalReader (wal_bytes [ex_add; ex_del])) (∅ : gset string)
    = Ok ({["c"]}, mkStats 1 1 0 0 0)) by (vm_compute; reflexivity).
  destruct (wal_replay_idempotent (mkWalReader (wal_bytes [ex_add; ex_del])) (∅ : gset string)
           {["c"]} (mkStats 1 1 0 0 0) Hr) as (_ & Hlen & Hagain).
  split; [exact Hr|]. split; [symmetry; exact Hlen|exact Hagain].
Defined.

Lemma wal_truncate_then_append_witness :
  read_all (mkWalReader (encode_to_bytes ex_add)) = ([ex_add], zlen (encode_to_bytes ex_add)).
Proof.
  destruct (wal_truncate_then_append (file_of [x01; x02]) (mkWalWriter (mkHandle true 2) 0)
    (file_of [x01; x02]) ex_add) as (_ & _ & Hc); [vm_compute; reflexivity..|].
  apply Hc. left. reflexivity.
Defined.

Lemma wal_truncate_after_create_witness :
  read_all (mkWalReader (replicate (length (encode_to_bytes ex_add)) x00 ++ encode_to_bytes ex_del))
    = ([], 0).
Proof.
  destruct (wal_truncate_after_create ex_add ex_del (mkWalWriter (mkHandle false 0) 0) file_new
              eq_refl) as [Hr Hf].
  rewrite <-Hf. exact Hr.
Defined.
