(* ===== verification/SegmentProps.v ===== *)
(** * Properties of segments

    The claims about the segment writer, reader and tombstones, each with an
    evaluation on concrete data. *)

From S2P Require Import Prelude Crates Types Files SegmentFormat Segment SegmentFacts Concrete.
From Stdlib Require Import Init.Byte.

Open Scope Z_scope.

Section props.
Context `{BOL : ByteOrderLaws} `{CRL : Crc32Laws} `{RBL : RoaringLaws B}.
Context `{CAP : BufCap} `{BM : Bincode SegmentMeta}.

(** Append the payloads one after the other, applying the effects. *)
Fixpoint append_all (ds : list (list byte)) (w : SegmentWriter) (d : SegDir)
    : SegmentWriter * SegDir * list Z :=
  match ds with
  | [] => (w, d, [])
  | p :: ds =>
      let '(w, o, ops) := append_chunk p w in
      let '(w, d, os) := append_all ds w (apply_segops ops d) in
      (w, d, o :: os)
  end.

Lemma append_all_inv ds w d pre :
  writer_inv w d pre → payloads_fit (pre ++ ds) →
  let '(w', d', os) := append_all ds w d in
  writer_inv w' d' (pre ++ ds) ∧ sw_id w' = sw_id w ∧
  os = map (λ i, zlen pre + Z.of_nat i) (seq 0 (length ds)).
Proof.
  revert w d pre. induction ds as [|p ds IH]; intros w d pre Hw Hfit; cbn [append_all].
  - rewrite app_nil_r. done.
  - rewrite cons_middle, app_assoc in Hfit.
    pose proof (append_chunk_inv p w d pre Hw (payloads_fit_app_l _ _ Hfit)) as Ha.
    destruct (append_chunk p w) as [[w1 o] ops]. destruct Ha as (Hw1 & Ho & Hid & _).
    specialize (IH w1 (apply_segops ops d) (pre ++ [p]) Hw1 Hfit).
    destruct (append_all ds w1 _) as [[w2 d2] os]. destruct IH as (Hw2 & Hid2 & Hos).
    rewrite cons_middle, app_assoc. split_and!; [done|congruence|].
    cbn [length seq map]. f_equal; [subst o; lia|].
    rewrite Hos, <-seq_shift, map_map. apply map_ext. intros i.
    rewrite zlen_app. change (zlen [p]) with 1. lia.
Qed.

(** C8: write, finalize, open, read.  Every payload appended to a fresh
    segment gets its position as ordinal and is read back unchanged from
    the finalized directory; an ordinal past the end reads as absent. *)
Theorem segment_roundtrip now id ds :
  payloads_fit ds →
  let '(w0, ops0) := writer_create now id in
  let '(w, d, os) := append_all ds w0 (apply_segops ops0 segdir_empty) in
  os = map Z.of_nat (seq 0 (length ds)) ∧
  ∃ r : SegmentReader B,
    reader_open id (apply_segops (finalize w).2 d) = Ok r ∧
    reader_chunk_count r = zlen ds ∧
    ∀ o, 0 ≤ o → reader_read_chunk o r = Ok (ds !! Z.to_nat o).
Proof.
  intros Hfit. pose proof (writer_create_inv now id) as Hc.
  destruct (writer_create now id) as [w0 ops0]. destruct Hc as (Hw0 & _ & _).
  pose proof (append_all_inv ds w0 _ [] Hw0 Hfit) as Ha.
  destruct (append_all ds w0 _) as [[w d] os]. destruct Ha as (Hw & _ & Hos). split.
  { rewrite Hos. apply map_ext. intros i. rewrite zlen_nil. lia. }
  destruct (finalize_complete w d ds Hw) as [Hsc Ht].
  destruct (reader_open_complete id _ ds [] Hsc (tomb_is_none _ Ht)) as (r & Hr & Hro).
  exists r. split_and!; [done| |].
  - destruct Hro as (_ & _ & Hi & _). unfold reader_chunk_count. rewrite Hi, zlen_index_of.
    apply as_u32_small. destruct Hfit as (_ & _ & ?). split; [apply zlen_nonneg|done].
  - intros o Ho. rewrite (reader_read_complete r id ds [] o Hro Ho).
    by rewrite decide_False by apply not_elem_of_nil.
Qed.

(** C7: crash safety of [finalize].  Whatever prefix of its effects has
    happened when the power fails, the directory found afterwards either has
    no [meta] file, so it is not loaded, or opens with every payload intact:
    no segment is ever half visible. *)
Theorem finalize_crash_safe w d ds k d' :
  writer_inv w d ds →
  crash_segdir (apply_segops (take k (finalize w).2) d) d' →
  sd_meta d' = None ∨
  ∃ r : SegmentReader B, reader_open (sw_id w) d' = Ok r ∧
    ∀ o, 0 ≤ o → reader_read_chunk o r = Ok (ds !! Z.to_nat o).
Proof.
  intros Hw Hcr. destruct (finalize_prefix w d ds k Hw) as [Hu|[Hsc Ht]].
  - left. by eapply crash_unfinished.
  - right. destruct (crash_complete _ _ _ Hsc Hcr) as [Hsc' Ht'].
    destruct (reader_open_complete (sw_id w) d' ds [] Hsc') as (r & Hr & Hro).
    { apply tomb_is_none. by rewrite Ht', Ht. }
    exists r. split; [done|]. intros o Ho. rewrite (reader_read_complete r _ ds [] o Hro Ho).
    by rewrite decide_False by apply not_elem_of_nil.
Qed.

(** C9: a delete is persistent and touches one chunk only: after
    [mark_deleted] the open reader and a reader opened later both answer
    [None] at the ordinal and what they answered before elsewhere. *)
Theorem mark_deleted_persistent id d ds dead o (r : SegmentReader B) :
  seg_complete d ds → reader_of r id ds dead →
  let '(r', ops) := reader_mark_deleted o r in
  ∃ r2 : SegmentReader B, reader_open id (apply_segops ops d) = Ok r2 ∧
  ∀ x, 0 ≤ x → reader_read_chunk x r' = reader_read_chunk x r2 ∧
    reader_read_chunk x r2 = if decide (x = o) then Ok None else reader_read_chunk x r.
Proof.
  intros Hsc Hr. pose proof (reader_mark_deleted_spec r id d ds dead o Hr) as Hm.
  destruct (reader_mark_deleted o r) as [r' ops]. destruct Hm as (Hr' & Ht & Hp & Hi & Hmeta).
  assert (Hsc' : seg_complete (apply_segops ops d) ds).
  { destruct Hsc. constructor; congruence. }
  destruct (reader_open_complete id _ ds (o :: dead) Hsc' Ht) as (r2 & Ho & Hr2).
  exists r2. split; [done|]. intros x Hx.
  rewrite (reader_read_complete r' _ _ _ x Hr' Hx), (reader_read_complete r2 _ _ _ x Hr2 Hx),
    (reader_read_complete r _ _ _ x Hr Hx). split; [done|].
  case_decide as Hin; case_decide as Heq; try done.
  - apply elem_of_cons in Hin as [?|Hin]; [done|]. by rewrite decide_True.
  - subst. destruct Hin. by left.
  - rewrite decide_False; [done|]. intros Hd. apply Hin. by right.
Qed.

(** the reader never returns unchecked data: whatever bytes, index and
    tombstones it holds, a returned payload is not deleted, lies inside the
    mapped file and has the length and the checksum its index record says. *)
Theorem read_chunk_checked (r : SegmentReader B) o data :
  reader_read_chunk o r = Ok (Some data) →
  tomb_is_deleted o (sr_tombstones r) = false ∧
  ∃ rec, sr_index r !! Z.to_nat o = Some rec ∧ crc32 data = pi_crc32 rec ∧
    pi_offset rec + pi_length rec ≤ zlen (sr_mmap r) ∧
    data = zslice (pi_offset rec) (pi_offset rec + pi_length rec) (sr_mmap r).
Proof.
  unfold reader_read_chunk. intros Hr. destruct (_ <=? _); [done|].
  destruct (tomb_is_deleted _ _); [done|]. split; [done|].
  destruct (sr_index r !! _) as [rec|]; [|done].
  destruct (Z.ltb_spec (zlen (sr_mmap r)) (pi_offset rec + pi_length rec)); [done|].
  destruct (Z.eqb_spec (crc32 (zslice (pi_offset rec) (pi_offset rec + pi_length rec) (sr_mmap r)))
              (pi_crc32 rec)) as [E|]; [|done].
  cbn [negb] in Hr. injection Hr as Hr. exists rec. by subst data.
Qed.

(** the [u32] subtraction in [active_count] does not underflow on a
    segment whose tombstones are ordinals of the segment, and it counts the
    chunks that are still readable. *)
Theorem active_count_exact (r : SegmentReader B) id ds dead :
  reader_of r id ds dead → payloads_fit ds → NoDup dead → (∀ o, o ∈ dead → 0 ≤ o < zlen ds) →
  reader_active_count r = Some (zlen ds - zlen dead).
Proof. intros. by eapply reader_active_count_ok. Qed.

(** the active segment can be read before it is finalized: every
    appended payload is returned by the writer's own [read_chunk]. *)
Theorem writer_read_back w d ds o :
  writer_inv w d ds → 0 ≤ o →
  let '(res, w', ops) := writer_read_chunk o w d in
  res = Ok (ds !! Z.to_nat o) ∧ writer_inv w' (apply_segops ops d) ds.
Proof.
  intros Hw Ho. pose proof (writer_read_chunk_spec w d ds o Hw Ho) as Hs.
  destruct (writer_read_chunk o w d) as [[res w'] ops]. naive_solver.
Qed.

End props.

(* ------------------------------------------------------------------ *)
(** ** Evaluations *)

Definition ex_payloads : list (list byte) := [[x61; x62]; []; [x63]].

Lemma ex_payloads_fit : payloads_fit ex_payloads.
Proof. split_and!; [repeat constructor|done..]. Qed.

(** A writer holding [ex_payloads], its directory, and the reader of the
    finalized directory. *)
Definition ex_written : SegmentWriter * SegDir :=
  let '(w0, ops0) := writer_create 5 1 in
  let '(w, d, _) := append_all ex_payloads w0 (apply_segops ops0 segdir_empty) in (w, d).

Lemma ex_written_inv : writer_inv ex_written.1 ex_written.2 ex_payloads.
Proof.
  constructor; try exact ex_payloads_fit; try (vm_compute; reflexivity).
  exists (mkFile [] []). split_and!; [vm_compute; reflexivity..|done].
Qed.

Definition ex_reader : SegmentReader (gset Z) :=
  mkReader 1 (concat ex_payloads) (index_of 0 ex_payloads) (mkTomb rb_new false).

Lemma ex_reader_of : reader_of ex_reader 1 ex_payloads [].
Proof. split_and!; done. Qed.

Lemma segment_roundtrip_witness :
  ∃ r : SegmentReader (gset Z),
    reader_open 1 (apply_segops (finalize ex_written.1).2 ex_written.2) = Ok r ∧
    reader_chunk_count r = 3 ∧
    ∀ o, 0 ≤ o → reader_read_chunk o r = Ok (ex_payloads !! Z.to_nat o).
Proof. exact (proj2 (segment_roundtrip 5 1 ex_payloads ex_payloads_fit)). Defined.

Lemma finalize_crash_safe_witness :
  sd_meta (apply_segops (take 3 (finalize ex_written.1).2) ex_written.2) = None ∨
  ∃ r : SegmentReader (gset Z),
    reader_open 1 (apply_segops (take 3 (finalize ex_written.1).2) ex_written.2) = Ok r ∧
    ∀ o, 0 ≤ o → reader_read_chunk o r = Ok (ex_payloads !! Z.to_nat o).
Proof.
  apply (finalize_crash_safe ex_written.1 ex_written.2 ex_payloads 3 _ ex_written_inv).
  repeat split; vm_compute; try done.
  - eexists; split; [|reflexivity]. by left.
  - eexists; split; [|reflexivity]. by left.
Defined.

Lemma mark_deleted_persistent_witness :
  ∃ r2 : SegmentReader (gset Z),
    reader_open 1 (apply_segops (reader_mark_deleted 2 ex_reader).2
                     (apply_segops (finalize ex_written.1).2 ex_written.2)) = Ok r2 ∧
    reader_read_chunk 2 r2 = Ok None.
Proof.
  destruct (mark_deleted_persistent 1 (apply_segops (finalize ex_written.1).2 ex_written.2)
    ex_payloads [] 2 ex_reader) as (r2 & Ho & Hr).
  - apply finalize_complete, ex_written_inv.
  - exact ex_reader_of.
  - exists r2. split; [exact Ho|]. destruct (Hr 2) as [_ E]; [lia|]. exact E.
Defined.

Lemma read_chunk_checked_witness :
  tomb_is_deleted 2 (sr_tombstones ex_reader) = false ∧
  ∃ rec, sr_index ex_reader !! 2%nat = Some rec ∧ crc32 [x63] = pi_crc32 rec ∧
    pi_offset rec + pi_length rec ≤ 3 ∧
    [x63] = zslice (pi_offset rec) (pi_offset rec + pi_length rec) (sr_mmap ex_reader).
Proof. apply (read_chunk_checked ex_reader 2 [x63]). vm_compute. reflexivity. Defined.

Lemma active_count_exact_witness : reader_active_count ex_reader = Some 3.
Proof.
  apply (active_count_exact ex_reader 1 ex_payloads []).
  - exact ex_reader_of.
  - exact ex_payloads_fit.
  - constructor.
  - intros o Ho. by apply not_elem_of_nil in Ho.
Defined.

Lemma writer_read_back_witness :
  (writer_read_chunk 0 ex_written.1 ex_written.2).1.1 = Ok (Some [x61; x62]).
Proof.
  pose proof (writer_read_back ex_written.1 ex_written.2 ex_payloads 0 ex_written_inv) as Hs.
  destruct (writer_read_chunk 0 ex_written.1 ex_written.2) as [[res w'] ops].
  apply Hs. lia.
Defined.
