(* ===== verification/MetadataProps.v ===== *)
(** * Properties of the metadata table

    The claims about the row codec, the lifecycle statements and the table
    invariant, each with an evaluation on concrete data. *)

From S2P Require Import Prelude Crates Types Metadata MetadataFacts Concrete.
From stdpp Require Import sorting.

Open Scope Z_scope.

(* ------------------------------------------------------------------ *)
(** ** The row codec *)

(** What makes a metadata record storable: a valid tenant and integers in
    the range of their Rust types. *)
Definition meta_storable (m : ChunkMetadata) : Prop :=
  TenantId.validate (TenantId.as_str (cm_tenant_id m)) = Ok () ∧
  in_u64 (cm_segment_id m) ∧ in_u32 (cm_ordinal m).

Section codec.
Context `{U : Uuid ChunkId} `{UL : !UuidLaws ChunkId}.

(** a row written by [insert_many] reads back as the same metadata:
    the [u64]/[u32] coordinates survive their signed columns and every enum
    its text; and a row whose status, tier, type or mode column holds any
    other text is refused rather than defaulted. *)
Theorem metadata_row_roundtrip m (row : ChunkRow) :
  (meta_storable m → row_to_metadata (metadata_params m) = Ok m) ∧
  (∀ m', row_to_metadata row = Ok m' →
     cr_status row = ChunkStatus_to_string (cm_status m') ∧
     cr_tier row = MemoryTier_to_string (lc_tier (cm_lifecycle m')) ∧
     cr_chunk_type row = ChunkType_to_string (cm_chunk_type m') ∧
     cr_ingestion_mode row = IngestionMode_to_string (cm_ingestion_mode m') ∧
     cr_tenant_id row = TenantId.as_str (cm_tenant_id m')).
Proof.
  split.
  - intros (Ht & Hs & Ho). unfold row_to_metadata, metadata_params. cbn -[as_u32 as_u64 as_i32 as_i64].
    unfold chunk_id_parse at 1. rewrite uuid_roundtrip. cbn [ok_or convert mbind result_bind].
    unfold TenantId.new. rewrite Ht. cbn [convert mbind result_bind mret result_ret].
    rewrite (proj2 (ChunkType_from_to _ _) eq_refl). cbn [convert mbind result_bind].
    rewrite (proj2 (ChunkStatus_from_to _ _) eq_refl). cbn [convert mbind result_bind].
    rewrite (proj2 (MemoryTier_from_to _ _) eq_refl). cbn [convert mbind result_bind].
    rewrite !parse_opt_roundtrip. cbn [convert mbind result_bind].
    rewrite (proj2 (IngestionMode_from_to _ _) eq_refl). cbn [convert mbind result_bind].
    rewrite as_u64_as_i64, as_u32_as_i32 by done. destruct m as [? [] ? ? ? ? ? ? ? ? []]. done.
  - intros m' H. unfold row_to_metadata in H.
    destruct (chunk_id_parse (cr_chunk_id row)); cbn in H; [|done].
    destruct (TenantId.new (cr_tenant_id row)) eqn:E1; cbn in H; [|done].
    destruct (ChunkType_from_str (cr_chunk_type row)) eqn:E2; cbn in H; [|done].
    destruct (ChunkStatus_from_str (cr_status row)) eqn:E3; cbn in H; [|done].
    destruct (MemoryTier_from_str (cr_tier row)) eqn:E4; cbn in H; [|done].
    destruct (parse_opt (cr_supersedes row)); cbn in H; [|done].
    destruct (parse_opt (cr_superseded_by row)); cbn in H; [|done].
    destruct (IngestionMode_from_str (cr_ingestion_mode row)) eqn:E5; cbn in H; [|done].
    injection H as <-. cbn.
    apply ChunkType_from_to in E2. apply ChunkStatus_from_to in E3.
    apply MemoryTier_from_to in E4. apply IngestionMode_from_to in E5.
    split_and!; [done..|]. unfold TenantId.new in E1.
    destruct (TenantId.validate _); cbn in E1; [|done]. by injection E1 as <-.
Qed.

End codec.

(* ------------------------------------------------------------------ *)
(** ** Lifecycle statements *)

(** the SQL of [update_lifecycle_counted], with its COALESCE and CASE
    columns, is [LifecycleMetadata::apply] plus the status, on the one row
    of that tenant that is not deleted; the row count says whether there was
    such a row, and every other row keeps its value. *)
Theorem update_lifecycle_refines_apply t c delta db :
  let '(n, db') := update_lifecycle_counted t c delta db in
  (n = match get t c db with Some _ => 1 | None => 0 end) ∧
  (∀ k, k ≠ c → db' !! k = db !! k) ∧
  (get t c db = None → db' = db) ∧
  (∀ m, get t c db = Some m →
     ∃ r r', db !! c = Some r ∧ db' !! c = Some r' ∧ r_index r' = r_index r ∧
       r_lc r' = lifecycle_apply (r_lc r) delta ∧
       r_status r' = coalesce (ld_status delta) (r_status r) ∧
       location (r_meta r') = location (r_meta r) ∧ cm_hash (r_meta r') = cm_hash (r_meta r)).
Proof.
  unfold update_lifecycle_counted. rewrite update_where_spec. unfold get, matches.
  destruct (db !! c) as [r|] eqn:E; [|done].
  destruct (bool_decide (r_tenant r = t) && negb (status_in [Deleted] r)); [|done].
  split_and!; [done| |done|].
  - intros k Hk. by rewrite lookup_insert_ne.
  - intros m Hm. exists r. eexists. split; [done|]. split; [by rewrite lookup_insert_eq|].
    split_and!; try done. unfold r_lc at 1. cbn.
    unfold lifecycle_apply. destruct delta as [? [] [] [] [] [] []]; done.
Qed.

(** [atomic_supersede] succeeds exactly when the old chunk is a head of
    the tenant (no successor yet) and the new chunk belongs to the tenant.
    Then, for distinct chunks, the two rows point at each other, the old one
    is [Superseded], and every other row is untouched: supersession never
    forks. *)
Theorem atomic_supersede_edges t old new now db :
  old ≠ new →
  (is_ok (atomic_supersede t old new now db) = true ↔
     (∃ r, db !! old = Some r ∧ r_tenant r = t ∧ lc_superseded_by (r_lc r) = None) ∧
     (∃ r, db !! new = Some r ∧ r_tenant r = t)) ∧
  (∀ db', atomic_supersede t old new now db = Ok db' →
     (∃ r, db' !! old = Some r ∧ r_status r = Superseded ∧ lc_superseded_by (r_lc r) = Some new) ∧
     (∃ r, db' !! new = Some r ∧ lc_supersedes (r_lc r) = Some old) ∧
     (∀ k, k ≠ old → k ≠ new → db' !! k = db !! k)).
Proof.
  intros Hne. unfold atomic_supersede. rewrite update_where_spec.
  destruct (db !! old) as [r|] eqn:E; [|cbn; naive_solver].
  destruct (matches t _ r) eqn:Em; [|].
  2: { cbn. split; [|done]. split; [done|]. intros [(r' & [= <-] & Ht & Hs) _].
       assert (matches t (λ r, bool_decide (lc_superseded_by (r_lc r) = None)) r = true); [|congruence].
       apply matches_true. split; [done|]. by apply bool_decide_eq_true. }
  apply matches_true in Em as [Ht Hs%bool_decide_eq_true]. cbn [Z.eqb Pos.eqb negb].
  rewrite update_where_spec, lookup_insert_ne by done.
  destruct (db !! new) as [r2|] eqn:E2; [|cbn; naive_solver].
  unfold matches. case_bool_decide as Ht2; cbn [andb negb Z.eqb Pos.eqb is_ok].
  - split; [naive_solver|]. intros db' [= <-]. split_and!.
    + eexists. rewrite lookup_insert_ne, lookup_insert_eq by done. by split_and!.
    + eexists. rewrite lookup_insert_eq. by split_and!.
    + intros k H1 H2. by rewrite !lookup_insert_ne.
  - split; [|done]. naive_solver.
Qed.

(** the excluded set of an index rebuild mirrors retrieval: a tenant's
    chunk is in [list_lifecycle_hidden] or [get_deleted_chunk_ids] exactly
    when the default policy hides its status and tier. *)
Theorem hidden_set_mirrors_visibility t db c r :
  table_wf db → db !! c = Some r → r_tenant r = t →
  (c ∈ list_lifecycle_hidden t db ∨ c ∈ get_deleted_chunk_ids t db) ↔
  is_visible VisibilityPolicy_default (r_status r) (lc_tier (r_lc r)) = false.
Proof.
  intros Hwf Hr Ht.
  assert (Hin : ∀ cond, c ∈ select_ids t cond db ↔ cond r = true).
  { intros cond. rewrite elem_of_select_ids by done. rewrite Hr. setoid_rewrite matches_true.
    naive_solver. }
  unfold list_lifecycle_hidden, get_deleted_chunk_ids.
  fold (select_ids t (status_in [Deleted]) db).
  match goal with |- c ∈ map _ (select_where t ?f db) ∨ _ ↔ _ => fold (select_ids t f db) end.
  rewrite !Hin.
  unfold status_in. destruct (r_status r), (lc_tier (r_lc r)); vm_compute; naive_solver.
Qed.

(** the table invariant (rows under their own key, no two rows at one
    location) holds initially and is preserved by every statement that
    writes the table. *)
Theorem table_invariant db :
  table_wf ∅ ∧
  (table_wf db →
   (∀ rows, table_wf (insert_many rows db)) ∧
   (∀ t c, table_wf (mark_deleted t c db).2) ∧
   (∀ t ids, table_wf (hard_delete_chunks t ids db).2) ∧
   (∀ t rels n db', update_chunk_locations t rels db = Ok (n, db') → table_wf db') ∧
   (∀ t c d, table_wf (update_lifecycle t c d db)) ∧
   (∀ t a b now db', atomic_supersede t a b now db = Ok db' → table_wf db') ∧
   (∀ t c now, table_wf (mark_expired_if_final t c now db).2) ∧
   (∀ t c cut now, table_wf (promote_to_history_if_stale t c cut now db).2) ∧
   (∀ t ids now, table_wf (mark_index_pending t ids now db)) ∧
   (∀ t ids now, table_wf (mark_indexed t ids now db)) ∧
   (∀ t c e now, table_wf (mark_index_failed t c e now db)) ∧
   (∀ t c s, table_wf (set_canonical_text t c s db))).
Proof.
  split; [apply table_wf_empty|]. intros Hwf.
  assert (Hu : ∀ t c cond f,
    (∀ r, cm_chunk_id (r_meta (f r)) = cm_chunk_id (r_meta r) ∧
          location (r_meta (f r)) = location (r_meta r)) →
    ∀ db, table_wf db → table_wf (update_where t c cond f db).2)
    by (intros; by apply update_where_wf).
  split_and!; intros.
  - by apply insert_many_wf.
  - unfold mark_deleted. rewrite (surjective_pairing (update_where _ _ _ _ _)). by apply Hu.
  - by apply hard_delete_chunks_wf.
  - by eapply update_chunk_locations_wf.
  - by apply Hu.
  - unfold atomic_supersede in *.
    match goal with H : context [update_where t a ?c ?f db] |- _ =>
      pose proof (Hu t a c f (λ r, conj eq_refl eq_refl) db Hwf) as Hwf1;
      destruct (update_where t a c f db) as [n1 db1] end.
    cbn [snd] in Hwf1. destruct (negb _); [done|].
    match goal with H : context [update_where t b ?c ?f db1] |- _ =>
      pose proof (Hu t b c f (λ r, conj eq_refl eq_refl) db1 Hwf1) as Hwf2;
      destruct (update_where t b c f db1) as [n2 db2] end.
    cbn [snd] in Hwf2. destruct (negb _); [done|]. by simplify_eq.
  - unfold mark_expired_if_final. rewrite (surjective_pairing (update_where _ _ _ _ _)). by apply Hu.
  - unfold promote_to_history_if_stale. rewrite (surjective_pairing (update_where _ _ _ _ _)). by apply Hu.
  - apply (foldl_wf _ id); [|done]. intros b a. by apply Hu.
  - apply (foldl_wf _ id); [|done]. intros b a. by apply Hu.
  - by apply Hu.
  - by apply Hu.
Qed.

Lemma elem_of_take_sort {R : ChunkMetadata → ChunkMetadata → Prop} `{!RelDecision R} n l m :
  m ∈ take n (merge_sort R l) → m ∈ l.
Proof. intros Hin. apply elem_of_take in Hin as (i & Hi & _).
  apply list_elem_of_lookup_2 in Hi. by rewrite merge_sort_Permutation in Hi.
Qed.

Lemma hard_delete_chunks_keeps t ids n db c r :
  db !! c = Some r → r_status r ≠ Deleted ∨ r_tenant r ≠ t →
  (foldl (hard_delete_step t) (n, db) ids).2 !! c = Some r.
Proof.
  intros Hr Hk. revert n db Hr. induction ids as [|k ids IH]; intros n db Hr; [done|].
  cbn [foldl]. unfold hard_delete_step at 2. destruct (db !! k) as [rk|] eqn:E; [|by apply IH].
  case_bool_decide as Ht; cbn [andb]; [|by apply IH].
  unfold status_in. case_bool_decide as Hs; [|by apply IH].
  apply IH. rewrite lookup_delete_ne; [done|]. intros ->.
  apply list_elem_of_singleton in Hs. naive_solver.
Qed.

(** purging is safe.  Every hard-purge candidate is a row the default
    policy hides, and [hard_delete_chunks] never removes a row that is not
    soft-deleted or that belongs to another tenant. *)
Theorem purge_only_hidden t project cutoff limit ids db :
  (∀ m, m ∈ list_hard_purge_candidates t project cutoff limit db →
     cm_tenant_id m = t ∧
     is_visible VisibilityPolicy_default (cm_status m) (lc_tier (cm_lifecycle m)) = false) ∧
  (∀ c r, db !! c = Some r → r_status r ≠ Deleted ∨ r_tenant r ≠ t →
     (hard_delete_chunks t ids db).2 !! c = Some r).
Proof.
  split.
  - intros m. unfold list_hard_purge_candidates. destruct (limit =? 0); [by intros ?%not_elem_of_nil|].
    intros Hin%elem_of_take_sort. apply elem_of_select_where in Hin as (c & r & _ & Hm & ->).
    apply matches_true in Hm as [Ht Hc]. split; [done|].
    apply andb_true_iff in Hc as [_ Hc]. apply orb_true_iff in Hc as [Hc|Hc];
      apply andb_true_iff in Hc as [Hc _].
    + unfold status_in in Hc. apply bool_decide_eq_true in Hc. unfold r_status in Hc.
      repeat (apply elem_of_cons in Hc as [->|Hc]; [done|]). by apply not_elem_of_nil in Hc.
    + apply bool_decide_eq_true in Hc. unfold r_lc in Hc. rewrite Hc. by destruct (cm_status (r_meta r)).
  - intros c r Hr Hk. by apply hard_delete_chunks_keeps.
Qed.

(* ------------------------------------------------------------------ *)
(** ** Evaluations *)

Definition ex_tenant : TenantId := TenantId.mk "team".
Definition ex_id (n : N) : ChunkId := mkChunkId n.
Definition ex_meta (n : N) (ord : Z) (st : ChunkStatus) (exp : option Z) : ChunkMetadata :=
  mkMeta (ex_id n) ex_tenant None 1 ord Doc st 10 "h" None
    (mkLifecycle LongTerm None None exp None 5) None Document.
Definition ex_db : ChunkTable :=
  insert_many [ex_meta 1 0 Final (Some 50); ex_meta 2 1 Final None;
               ex_meta 3 2 Draft (Some 50); ex_meta 4 3 Deleted None] ∅.

Lemma ex_db_wf : table_wf ex_db.
Proof. apply insert_many_wf, table_wf_empty. Qed.

Lemma metadata_row_roundtrip_witness :
  row_to_metadata (metadata_params (ex_meta 1 4294967295 Final (Some 50)))
  = Ok (ex_meta 1 4294967295 Final (Some 50)).
Proof.
  apply (metadata_row_roundtrip _ (metadata_params (ex_meta 1 0 Final None))).
  repeat split; cbn; lia.
Defined.

Lemma atomic_supersede_edges_witness :
  is_ok (atomic_supersede ex_tenant (ex_id 1) (ex_id 2) 60 ex_db) = true.
Proof.
  apply (atomic_supersede_edges ex_tenant (ex_id 1) (ex_id 2) 60 ex_db); [done|].
  split; eexists; split; vm_compute; eauto.
Defined.

Lemma hidden_set_mirrors_visibility_witness :
  ex_id 4 ∈ list_lifecycle_hidden ex_tenant ex_db ∨ ex_id 4 ∈ get_deleted_chunk_ids ex_tenant ex_db.
Proof.
  apply (hidden_set_mirrors_visibility ex_tenant ex_db (ex_id 4)
           (mkRow (ex_meta 4 3 Deleted None) index_cols_default) ex_db_wf);
    vm_compute; reflexivity.
Defined.

Lemma table_invariant_witness : table_wf (mark_deleted ex_tenant (ex_id 1) ex_db).2.
Proof. apply (proj2 (table_invariant ex_db) ex_db_wf). Defined.

Lemma purge_only_hidden_witness :
  (hard_delete_chunks ex_tenant [ex_id 1; ex_id 4] ex_db).2 !! ex_id 1
  = Some (mkRow (ex_meta 1 0 Final (Some 50)) index_cols_default).
Proof.
  apply (purge_only_hidden ex_tenant None 0 10 [ex_id 1; ex_id 4] ex_db);
    [vm_compute; reflexivity|by left].
Defined.

Lemma update_lifecycle_refines_apply_witness :
  (update_lifecycle_counted ex_tenant (ex_id 2)
     (mkDelta (Some Superseded) None None None (Some None) None (Some 9)) ex_db).1 = 1.
Proof.
  pose proof (update_lifecycle_refines_apply ex_tenant (ex_id 2)
    (mkDelta (Some Superseded) None None None (Some None) None (Some 9)) ex_db) as Hu.
  destruct (update_lifecycle_counted ex_tenant (ex_id 2) _ ex_db) as [n db'].
  destruct Hu as [-> _]. vm_compute. reflexivity.
Defined.
