(* ===== verification/Sweep.v ===== *)
(** * Compaction's lifecycle jobs
    (src/crates/memd/src/compaction/{expiry_sweep,history_promotion}.rs)

    [ExpirySweep::run] and [HistoryPromotion::run] over the metadata table.
    The clock reading is an argument; the third component of a result says
    whether the tenant's memory version is bumped. *)

From S2P Require Import Prelude Crates Types Metadata MetadataFacts Concrete MetadataProps.

Open Scope Z_scope.

(** [ExpirySweep::run]; [hybrid] is [hybrid.is_some()]. *)
Definition expiry_sweep (hybrid : bool) (t : TenantId) (now : Z) (db : ChunkTable)
    : Z * bool * ChunkTable :=
  let ids := list_expired_before t now db in
  match ids with
  | [] => (0, false, db)
  | _ =>
      let '(promoted, db) := mark_loop (λ id db, mark_expired_if_final t id now db) ids (0, db) in
      (promoted, (0 <? promoted) && hybrid, db)
  end.

(** [HistoryPromotion::run] *)
Definition history_promotion (age_threshold_ms : Z) (hybrid : bool) (t : TenantId) (now : Z)
    (db : ChunkTable) : Z * bool * ChunkTable :=
  let cutoff := sat_sub_i64 now age_threshold_ms in
  let ids := list_stale_superseded t cutoff db in
  match ids with
  | [] => (0, false, db)
  | _ =>
      let '(promoted, db) :=
        mark_loop (λ id db, promote_to_history_if_stale t id cutoff now db) ids (0, db) in
      (promoted, (0 <? promoted) && hybrid, db)
  end.

(* ------------------------------------------------------------------ *)
(** ** What the jobs do to a row *)

(** The rows a sweep at [now] marks, and what becomes of them. *)
Definition due (now : Z) (r : Row) : bool := status_in [Final] r && expired_by now r.
Definition expire_row (now : Z) (r : Row) : Row :=
  let l := r_lc r in
  set_row_meta (set_meta_lifecycle
    (mkLifecycle (lc_tier l) (lc_supersedes l) (lc_superseded_by l)
       (lc_expires_at_ms l) (lc_review_after_ms l) now)
    (set_meta_status Expired (r_meta r))) r.
Definition demote_row (now : Z) (r : Row) : Row :=
  let l := r_lc r in
  set_row_meta (set_meta_lifecycle
    (mkLifecycle History (lc_supersedes l) (lc_superseded_by l)
       (lc_expires_at_ms l) (lc_review_after_ms l) now) (r_meta r)) r.

Lemma due_listed now r :
  due now r = true →
  expired_by now r
    && negb (status_in [Candidate; Deleted; Expired; Superseded; ErrorStatus] r) = true.
Proof.
  unfold due, status_in. rewrite !andb_true_iff, bool_decide_eq_true, negb_true_iff,
    bool_decide_eq_false. intros [Hs ->]. apply list_elem_of_singleton in Hs. rewrite Hs.
  split; [done|]. by rewrite !elem_of_cons, elem_of_nil; intros [?|[?|[?|[?|[?|?]]]]].
Qed.

(** Running a guarded update over a selection that contains every row the
    guard accepts updates exactly those rows. *)
Lemma mark_selection t cond cond0 f db :
  table_wf db → (∀ r, cond r = true → cond0 r = true) →
  let '(n, db') :=
    mark_loop (λ c db, let '(k, db) := update_where t c cond f db in (k =? 1, db))
      (select_ids t cond0 db) (0, db) in
  (∀ k, db' !! k = (λ r, if matches t cond r then f r else r) <$> db !! k) ∧
  n = zlen (select_where t cond db).
Proof.
  intros Hwf Hsub. pose proof (mark_loop_spec t cond f (select_ids t cond0 db) 0 db
    (NoDup_select_ids t cond0 db Hwf)) as Hm.
  destruct (mark_loop _ _ _) as [n db']. destruct Hm as [Hl Hn]. split.
  - intros k. rewrite Hl. destruct (db !! k) as [r|] eqn:E; [|done]. cbn. f_equal.
    destruct (matches t cond r) eqn:Em; [|by rewrite andb_false_r].
    rewrite bool_decide_true; [done|]. apply elem_of_select_ids; [done|]. exists r. split; [done|].
    apply matches_true in Em as [? ?]. apply matches_true. auto.
  - rewrite Hn, count_hits by done. lia.
Qed.

(** An empty selection: no row is accepted. *)
Lemma selection_nil t cond cond0 f db :
  table_wf db → (∀ r, cond r = true → cond0 r = true) → select_ids t cond0 db = [] →
  (∀ k, db !! k = (λ r, if matches t cond r then f r else r) <$> db !! k) ∧
  0 = zlen (select_where t cond db).
Proof.
  intros Hwf Hsub Hnil. pose proof (mark_selection t cond cond0 f db Hwf Hsub) as Hm.
  rewrite Hnil in Hm. exact Hm.
Qed.

Lemma expiry_sweep_spec hybrid t now db :
  table_wf db →
  let '(n, bump, db') := expiry_sweep hybrid t now db in
  (∀ c, db' !! c = (λ r, if matches t (due now) r then expire_row now r else r) <$> db !! c) ∧
  n = zlen (select_where t (due now) db) ∧ bump = (0 <? n) && hybrid.
Proof.
  intros Hwf. unfold expiry_sweep, list_expired_before.
  set (cond0 := λ r, expired_by now r && negb (status_in _ r)).
  change (map cm_chunk_id (select_where t cond0 db)) with (select_ids t cond0 db).
  destruct (select_ids t cond0 db) as [|id ids] eqn:Ei.
  - destruct (selection_nil t (due now) cond0 (expire_row now) db Hwf (due_listed now) Ei)
      as [Hl Hn]. by split_and!.
  - rewrite <-Ei.
    pose proof (mark_selection t (due now) cond0 (expire_row now) db Hwf (due_listed now)) as Hm.
    change (λ (id0 : ChunkId) (db0 : ChunkTable), mark_expired_if_final t id0 now db0)
      with (λ (c : ChunkId) (db0 : ChunkTable),
        let '(k, db1) := update_where t c (due now) (expire_row now) db0 in (k =? 1, db1)).
    destruct (mark_loop _ _ _) as [n db']. destruct Hm as [Hl Hn]. by split_and!.
Qed.

Lemma history_promotion_spec age hybrid t now db :
  table_wf db →
  let stale := is_stale (sat_sub_i64 now age) in
  let '(n, bump, db') := history_promotion age hybrid t now db in
  (∀ c, db' !! c = (λ r, if matches t stale r then demote_row now r else r) <$> db !! c) ∧
  n = zlen (select_where t stale db) ∧ bump = (0 <? n) && hybrid.
Proof.
  intros Hwf stale. unfold history_promotion, list_stale_superseded. fold stale.
  change (map cm_chunk_id (select_where t stale db)) with (select_ids t stale db).
  destruct (select_ids t stale db) as [|id ids] eqn:Ei.
  - destruct (selection_nil t stale stale (demote_row now) db Hwf (λ r H, H) Ei) as [Hl Hn].
    by split_and!.
  - rewrite <-Ei.
    pose proof (mark_selection t stale stale (demote_row now) db Hwf (λ r H, H)) as Hm.
    change (λ (id0 : ChunkId) (db0 : ChunkTable),
              promote_to_history_if_stale t id0 (sat_sub_i64 now age) now db0)
      with (λ (c : ChunkId) (db0 : ChunkTable),
        let '(k, db1) := update_where t c stale (demote_row now) db0 in (k =? 1, db1)).
    destruct (mark_loop _ _ _) as [n db']. destruct Hm as [Hl Hn]. by split_and!.
Qed.

Lemma select_where_none t cond db :
  (∀ c r, db !! c = Some r → matches t cond r = false) → select_where t cond db = [].
Proof.
  intros Hno. destruct (select_where t cond db) as [|m l] eqn:E; [done|].
  assert (Hm : m ∈ select_where t cond db) by (rewrite E; by left).
  apply elem_of_select_where in Hm as (c & r & Hr & Hm & _). by rewrite (Hno _ _ Hr) in Hm.
Qed.

Lemma map_eq_rowwise (g : Row → Row) (db db' : ChunkTable) :
  (∀ c, db' !! c = g <$> db !! c) → (∀ c r, db !! c = Some r → g r = r) → db' = db.
Proof.
  intros Hg Hid. apply map_eq. intros c. rewrite Hg. destruct (db !! c) as [r|] eqn:E; [|done].
  cbn. by rewrite (Hid _ _ E).
Qed.

(** the expiry sweep marks exactly the tenant's [Final] rows whose
    expiry has passed, stamps them, counts them, touches nothing else, and
    does not change what the default policy shows at that instant; a second
    sweep at the same instant changes nothing. *)
Theorem expiry_sweep_exact hybrid t now db :
  table_wf db →
  let '(n, bump, db') := expiry_sweep hybrid t now db in
  (∀ c, db' !! c = (λ r, if matches t (due now) r then expire_row now r else r) <$> db !! c) ∧
  n = zlen (select_where t (due now) db) ∧ bump = (0 <? n) && hybrid ∧
  (∀ c r r', db !! c = Some r → db' !! c = Some r' →
     is_visible_at VisibilityPolicy_default (r_status r') (r_lc r') now
     = is_visible_at VisibilityPolicy_default (r_status r) (r_lc r) now) ∧
  (expiry_sweep hybrid t now db').1.1 = 0 ∧ (expiry_sweep hybrid t now db').2 = db'.
Proof.
  intros Hwf. pose proof (expiry_sweep_spec hybrid t now db Hwf) as Hs.
  destruct (expiry_sweep hybrid t now db) as [[n bump] db']. destruct Hs as (Hl & Hn & Hb).
  assert (Hwf' : table_wf db').
  { apply (rowwise_wf (λ _ r, if matches t (due now) r then expire_row now r else r) db); [done| |done].
    intros c r. by destruct (matches t (due now) r). }
  assert (Hno : ∀ c r, db' !! c = Some r → matches t (due now) r = false).
  { intros c r. rewrite Hl. intros (r0 & _ & ->)%fmap_Some.
    destruct (matches t (due now) r0) eqn:E; [|done].
    unfold matches, due, status_in. rewrite (bool_decide_false (_ ∈ [Final])); [|cbn; set_solver].
    by rewrite andb_false_r. }
  split_and!; [done..| | |].
  - intros c r r' Hr. rewrite Hl, Hr. intros [= <-]. destruct (matches t (due now) r) eqn:E; [|done].
    apply matches_true in E as [_ E]. unfold due, expired_by in E.
    apply andb_true_iff in E as [Hst He]. unfold status_in in Hst.
    apply bool_decide_eq_true, list_elem_of_singleton in Hst.
    unfold is_visible_at. rewrite Hst. cbn.
    destruct (negb _); cbn; [done|]. destruct (lc_expires_at_ms (r_lc r)); [by rewrite He|done].
  - pose proof (expiry_sweep_spec hybrid t now db' Hwf') as Hs'.
    destruct (expiry_sweep hybrid t now db') as [[n' b'] db'']. destruct Hs' as (_ & -> & _).
    cbn. by rewrite select_where_none.
  - pose proof (expiry_sweep_spec hybrid t now db' Hwf') as Hs'.
    destruct (expiry_sweep hybrid t now db') as [[n' b'] db'']. destruct Hs' as (Hl' & _ & _).
    cbn. apply (map_eq_rowwise _ _ _ Hl'). intros c r Hr. by rewrite (Hno _ _ Hr).
Qed.

(** a [Draft] row past its expiry is listed by every sweep and marked
    by none: it stays [Draft]. *)
Theorem expired_draft_never_marked hybrid t now db c r :
  table_wf db → db !! c = Some r → r_tenant r = t → r_status r = Draft →
  expired_by now r = true →
  let '(_, _, db') := expiry_sweep hybrid t now db in
  db' !! c = Some r ∧ c ∈ list_expired_before t now db ∧ c ∈ list_expired_before t now db'.
Proof.
  intros Hwf Hr Ht Hst He. pose proof (expiry_sweep_spec hybrid t now db Hwf) as Hs.
  destruct (expiry_sweep hybrid t now db) as [[n bump] db']. destruct Hs as (Hl & _ & _).
  assert (Hwf' : table_wf db').
  { apply (rowwise_wf (λ _ r, if matches t (due now) r then expire_row now r else r) db); [done| |done].
    intros k s. by destruct (matches t (due now) s). }
  assert (Hr' : db' !! c = Some r).
  { rewrite Hl, Hr. cbn. unfold matches, due, status_in. rewrite Hst.
    rewrite (bool_decide_false (Draft ∈ [Final])) by set_solver. by rewrite andb_false_r. }
  assert (Hm : matches t (λ r, expired_by now r
    && negb (status_in [Candidate; Deleted; Expired; Superseded; ErrorStatus] r)) r = true).
  { apply matches_true. split; [done|]. rewrite He. unfold status_in. rewrite Hst.
    rewrite bool_decide_false by set_solver. done. }
  split_and!; [done|..]; unfold list_expired_before; apply elem_of_select_ids; eauto.
Qed.

(** history promotion demotes exactly the tenant's settled superseded
    or expired rows, which the default policy hides anyway; a
    second run at the same instant demotes none. *)
Theorem history_promotion_exact age hybrid t now db :
  table_wf db →
  let stale := is_stale (sat_sub_i64 now age) in
  let '(n, bump, db') := history_promotion age hybrid t now db in
  (∀ c, db' !! c = (λ r, if matches t stale r then demote_row now r else r) <$> db !! c) ∧
  n = zlen (select_where t stale db) ∧ bump = (0 <? n) && hybrid ∧
  (∀ c r r', db !! c = Some r → db' !! c = Some r' →
     is_visible VisibilityPolicy_default (r_status r') (lc_tier (r_lc r'))
     = is_visible VisibilityPolicy_default (r_status r) (lc_tier (r_lc r))) ∧
  (history_promotion age hybrid t now db').1.1 = 0 ∧
  (history_promotion age hybrid t now db').2 = db'.
Proof.
  intros Hwf stale. pose proof (history_promotion_spec age hybrid t now db Hwf) as Hs.
  fold stale in Hs.
  destruct (history_promotion age hybrid t now db) as [[n bump] db']. destruct Hs as (Hl & Hn & Hb).
  assert (Hwf' : table_wf db').
  { apply (rowwise_wf (λ _ r, if matches t stale r then demote_row now r else r) db); [done| |done].
    intros c r. by destruct (matches t stale r). }
  assert (Hno : ∀ c r, db' !! c = Some r → matches t stale r = false).
  { intros c r. rewrite Hl. intros (r0 & _ & ->)%fmap_Some.
    destruct (matches t stale r0) eqn:E; [|done].
    unfold matches, stale, is_stale. cbn. by rewrite !andb_false_r. }
  split_and!; [done..| | |].
  - intros c r r' Hr. rewrite Hl, Hr. intros [= <-]. destruct (matches t stale r) eqn:E; [|done].
    apply matches_true in E as [_ E]. unfold stale, is_stale, status_in in E.
    rewrite !andb_true_iff, bool_decide_eq_true in E. destruct E as [[E _] _].
    unfold r_status in *. cbn. apply elem_of_cons in E as [E|E%list_elem_of_singleton];
      by rewrite E.
  - pose proof (history_promotion_spec age hybrid t now db' Hwf') as Hs'.
    destruct (history_promotion age hybrid t now db') as [[n' b'] db'']. destruct Hs' as (_ & -> & _).
    cbn. by rewrite select_where_none.
  - pose proof (history_promotion_spec age hybrid t now db' Hwf') as Hs'.
    destruct (history_promotion age hybrid t now db') as [[n' b'] db'']. destruct Hs' as (Hl' & _ & _).
    cbn. apply (map_eq_rowwise _ _ _ Hl'). intros c r Hr. fold stale. by rewrite (Hno _ _ Hr).
Qed.

(* ------------------------------------------------------------------ *)
(** ** Evaluations *)

Lemma expiry_sweep_exact_witness :
  (expiry_sweep true ex_tenant 60 ex_db).1 = (1, true) ∧
  (expiry_sweep true ex_tenant 60 (expiry_sweep true ex_tenant 60 ex_db).2).1.1 = 0.
Proof.
  split; [vm_compute; reflexivity|].
  pose proof (expiry_sweep_exact true ex_tenant 60 ex_db ex_db_wf) as Hs.
  destruct (expiry_sweep true ex_tenant 60 ex_db) as [[n b] db'] eqn:E.
  apply Hs.
Defined.

Lemma expired_draft_never_marked_witness :
  (expiry_sweep true ex_tenant 60 ex_db).2 !! ex_id 3
  = Some (mkRow (ex_meta 3 2 Draft (Some 50)) index_cols_default).
Proof.
  pose proof (expired_draft_never_marked true ex_tenant 60 ex_db (ex_id 3)
    (mkRow (ex_meta 3 2 Draft (Some 50)) index_cols_default) ex_db_wf) as Hs.
  destruct (expiry_sweep true ex_tenant 60 ex_db) as [[n b] db'].
  apply Hs; vm_compute; reflexivity.
Defined.

(** The expired row of the first sweep is demoted an hour later. *)
Lemma history_promotion_exact_witness :
  let db1 := (expiry_sweep true ex_tenant 60 ex_db).2 in
  (history_promotion 100 false ex_tenant 3600060 db1).1 = (1, false) ∧
  (history_promotion 100 false ex_tenant 3600060
     (history_promotion 100 false ex_tenant 3600060 db1).2).1.1 = 0.
Proof.
  cbv zeta. split; [vm_compute; reflexivity|].
  pose proof (history_promotion_exact 100 false ex_tenant 3600060
    (expiry_sweep true ex_tenant 60 ex_db).2) as Hs.
  destruct (history_promotion 100 false ex_tenant 3600060 _) as [[n b] db'].
  apply Hs. pose proof (expiry_sweep_spec true ex_tenant 60 ex_db ex_db_wf) as Hsp.
  destruct (expiry_sweep true ex_tenant 60 ex_db) as [[n1 b1] db1]. destruct Hsp as [Hl _].
  apply (rowwise_wf (λ _ r, if matches ex_tenant (due 60) r then expire_row 60 r else r) ex_db);
    [exact Hl| |exact ex_db_wf].
  intros c r. by destruct (matches ex_tenant (due 60) r).
Defined.
