(* ===== verification/SupersessionProps.v ===== *)
(** * Supersession chains

    The walk along [superseded_by] terminates, finds exactly the cycles, and
    superseding a head keeps every chain finite. *)

From S2P Require Import Prelude Crates Types Files SegmentFormat Segment Metadata MetadataFacts.
From S2P Require Import TenantStore Persistent MetadataProps Concrete.

Open Scope Z_scope.

(** The successor the walk follows. *)
Definition successor (t : TenantId) (db : ChunkTable) (c : ChunkId) : option ChunkId :=
  m ← get t c db; lc_superseded_by (cm_lifecycle m).

(** The chain from [c] reaches a head. *)
Inductive ends (t : TenantId) (db : ChunkTable) : ChunkId → Prop :=
| ends_head c : successor t db c = None → ends t db c
| ends_step c c' : successor t db c = Some c' → ends t db c' → ends t db c.

Section chains.
Variable t : TenantId.
Variable db : ChunkTable.

(** The path walked so far: from the start to [c], in reverse. *)
Inductive path : list ChunkId → Prop :=
| path_start c : path [c]
| path_step c c' l : path (c :: l) → successor t db c = Some c' → path (c' :: c :: l).

(** The ends of a path end together. *)
Lemma ends_path l c start :
  path (c :: l) → last (c :: l) = Some start → ends t db c ↔ ends t db start.
Proof.
  revert c. induction l as [|c0 l IH]; intros c Hp Hl.
  { cbn in Hl. by simplify_eq. }
  inversion Hp as [|? ? ? Hp' Hs]; subst. rewrite last_cons_cons in Hl.
  rewrite <-(IH c0 Hp' Hl). split; [by eapply ends_step|].
  intros He. inversion He as [? Hn|? c2 Hs2 He2]; subst; [congruence|].
  rewrite Hs in Hs2. by simplify_eq.
Qed.

(** Every chunk of a path has a successor, on the path or next on it. *)
Lemma path_successor l c c' x :
  path (c :: l) → successor t db c = Some c' → x ∈ c :: l →
  ∃ y, successor t db x = Some y ∧ y ∈ c' :: c :: l.
Proof.
  revert c c'. induction l as [|c1 l IH]; intros c c' Hp Hs Hx.
  - apply list_elem_of_singleton in Hx as ->. exists c'. split; [done|by left].
  - apply elem_of_cons in Hx as [->|Hx]; [exists c'; split; [done|by left]|].
    inversion Hp as [|? ? ? Hp' Hs']; subst. destruct (IH c1 c Hp' Hs' Hx) as (y & ? & ?).
    exists y. split; [done|by right].
Qed.

(** A chain that comes back to a chunk of its path never ends. *)
Lemma cycle_no_end l c c' x :
  path (c :: l) → successor t db c = Some c' → c' ∈ c :: l → x ∈ c :: l → ¬ ends t db x.
Proof.
  intros Hp Hs Hin Hx He. revert Hx. induction He as [x Hx|x y Hxy Hy IH]; intros Hxin.
  - destruct (path_successor l c c' x Hp Hs Hxin) as (y & ? & _). congruence.
  - apply IH. destruct (path_successor l c c' x Hp Hs Hxin) as (y' & E & Hy').
    rewrite Hxy in E. injection E as <-. by apply elem_of_cons in Hy' as [->|?].
Qed.

(** The loop, on a path with its set of visited chunks. *)
Lemma detect_cycle_loop_spec fuel l c start :
  path (c :: l) → last (c :: l) = Some start → NoDup (c :: l) →
  (∀ x, x ∈ l → is_Some (db !! x)) → (fuel + length l = size db + 2)%nat →
  ∃ res, detect_cycle_loop fuel t db (list_to_set (c :: l)) c = Some res ∧
         (res = Ok () ↔ ends t db start) ∧ (∀ e, res = Err e → ∃ msg, e = ValidationError msg).
Proof.
  revert l c. induction fuel as [|fuel IH]; intros l c Hp Hl Hnd Hdom Hf.
  { exfalso. assert (length l ≤ size db)%nat; [|lia].
    apply NoDup_cons in Hnd as [_ Hnd].
    rewrite <-(size_list_to_set (C := gset ChunkId) l), <-size_dom by done.
    apply subseteq_size. intros x Hx%elem_of_list_to_set. apply elem_of_dom. auto. }
  cbn [detect_cycle_loop]. fold (successor t db c). destruct (successor t db c) as [next|] eqn:E.
  - case_bool_decide as Hin.
    + eexists. split; [done|]. split; [|naive_solver]. split; [done|]. intros He. exfalso.
      apply (elem_of_list_to_set (C := gset ChunkId)) in Hin.
      eapply (cycle_no_end l c next c); try done; [by left|]. by eapply ends_path.
    + assert (Hni : next ∉ c :: l) by (by rewrite <-(elem_of_list_to_set (C := gset ChunkId))).
      destruct (IH (c :: l) next) as (res & Hr & Hres).
      * by constructor.
      * by rewrite last_cons_cons.
      * by constructor.
      * intros x [->|Hx]%elem_of_cons; [|auto]. unfold successor, get in E.
        destruct (db !! c) as [r|]; [eauto|done].
      * cbn. lia.
      * exists res. split; [|done]. exact Hr.
  - eexists. split; [done|]. split; [|naive_solver]. split; [|done]. intros _. by apply (ends_path l c start), ends_head.
Qed.

Lemma detect_cycle_exact start :
  ∃ res, detect_supersession_cycle t start db = Some res ∧
         (res = Ok () ↔ ends t db start) ∧ (∀ e, res = Err e → ∃ msg, e = ValidationError msg).
Proof.
  unfold detect_supersession_cycle.
  replace ({[start]} : gset ChunkId) with (list_to_set [start] : gset ChunkId) by (cbn; set_solver).
  apply (detect_cycle_loop_spec _ [] start start).
  - constructor.
  - done.
  - apply NoDup_singleton.
  - intros x Hx. by apply not_elem_of_nil in Hx.
  - cbn. lia.
Qed.

End chains.

(** C12: the cycle check of a supersession terminates on every table, and it
    accepts the start chunk exactly when the chain of successors from it
    reaches a head, however long the chain is; otherwise it reports a
    validation error.  The comment on supersede_chunk
    (store/persistent/lifecycle.rs, step 2) says that the chain is walked for
    up to 64 hops; the code, and the comment on the walk itself, have no such
    bound ([ex_long_chain]). *)
Theorem supersession_cycle_check_exact t start db :
  ∃ res, detect_supersession_cycle t start db = Some res ∧ (res = Ok () ↔ ends t db start) ∧
    (∀ e, res = Err e → ∃ msg, e = ValidationError msg).
Proof. exact (detect_cycle_exact t db start). Qed.

(** the checks before a supersession pass exactly when the new chunk is
    of the tenant and the old one is a live head of it; otherwise they
    report a validation error, and they always return. *)
Theorem supersede_preflight_exact t old new_tenant db :
  ∃ res, supersede_preflight t old new_tenant db = Some res ∧
    (res = Ok () ↔ new_tenant = t ∧ is_Some (get t old db) ∧ successor t db old = None) ∧
    (∀ e, res = Err e → ∃ msg, e = ValidationError msg).
Proof.
  unfold supersede_preflight, successor.
  case_bool_decide as Ht; cbn [negb]; [|eexists; split; [done|]; naive_solver].
  destruct (get t old db) as [m|] eqn:Eg; [|eexists; split; [done|]; split; [|naive_solver];
    split; [done|]; intros (_ & [? ?] & _); done].
  apply get_spec in Eg as (r & Hr & Hrt & Hrs & ->). unfold r_status in Hrs.
  rewrite bool_decide_false by done. cbn [mbind option_bind].
  destruct (detect_cycle_exact t db old) as (res & -> & Hres & Herr).
  destruct res as [[]|e]; cycle 1.
  { eexists. split; [done|]. split; [|auto]. split; [done|]. intros (_ & _ & Hn).
    assert (Ok () = Err e :> memd_result ()); [|done]. symmetry. apply Hres, ends_head.
    unfold successor. assert (Eg : get t old db = Some (r_meta r)) by (apply get_spec; eauto).
    by rewrite Eg. }
  destruct (lc_superseded_by (cm_lifecycle (r_meta r))) as [next|]; (eexists; split; [done|]).
  - split; [|naive_solver]. split; [done|]. by intros (_ & _ & ?).
  - split; [|done]. split; [|done]. intros _. split_and!; eauto.
Qed.

(** superseding keeps every chain finite: when all chains of the tenant
    end and the new chunk has no successor yet, they still end after
    [atomic_supersede]. *)
Theorem supersede_keeps_chains_finite t old new now db db' :
  old ≠ new → (∀ c, ends t db c) → successor t db new = None →
  atomic_supersede t old new now db = Ok db' → ∀ c, ends t db' c.
Proof.
  intros Hne Hall Hnew Hok.
  destruct (atomic_supersede_rows t old new now db db' Hne Hok)
    as (ro & rn & Ho & Hto & Hso & Hn & Htn & Ho' & Hn' & Hrest).
  assert (Hs_old : successor t db old = None).
  { unfold successor, get. rewrite Ho. destruct (_ && _); [cbn; exact Hso|done]. }
  assert (Hs_new' : successor t db' new = None).
  { revert Hnew. unfold successor, get. rewrite Hn, Hn'.
    unfold r_tenant, r_status, status_in. cbn. by destruct (_ && _). }
  assert (Hs_old' : successor t db' old = None ∨ successor t db' old = Some new).
  { unfold successor, get. rewrite Ho'. destruct (_ && _); [by right|by left]. }
  assert (Hs_rest : ∀ c, c ≠ old → c ≠ new → successor t db' c = successor t db c).
  { intros c H1 H2. unfold successor, get. by rewrite Hrest. }
  assert (He_new : ends t db' new) by (by apply ends_head).
  assert (He_old : ends t db' old).
  { destruct Hs_old' as [?|?]; [by apply ends_head|by eapply ends_step]. }
  intros c. induction (Hall c) as [c Hc|c c' Hc _ IH].
  - destruct (decide (c = old)) as [->|]; [done|]. destruct (decide (c = new)) as [->|]; [done|].
    apply ends_head. by rewrite Hs_rest.
  - apply ends_step with c'; [|done]. rewrite Hs_rest; congruence.
Qed.

(* ------------------------------------------------------------------ *)
(** ** Evaluations *)

(** The example table, and chunk 2 superseded by chunk 3 on top of it. *)
Definition ex_superseded : ChunkTable :=
  match atomic_supersede ex_tenant (ex_id 2) (ex_id 3) 70 ex_db with Ok db => db | Err _ => ∅ end.

Lemma ex_heads c : successor ex_tenant ex_db c = None.
Proof.
  unfold successor, get. destruct (ex_db !! c) as [r|] eqn:E; [|done].
  assert (Hall : map_Forall (λ _ r, lc_superseded_by (r_lc r) = None) ex_db)
    by (apply (bool_decide_unpack _); vm_compute; exact I).
  destruct (_ && _); [|done]. exact (Hall c r E).
Qed.

Example ex_cycle_free :
  detect_supersession_cycle ex_tenant (ex_id 2) ex_superseded = Some (Ok ()).
Proof. vm_compute. reflexivity. Qed.

(** Chunks 1 to [n], each superseded by the next, the last by chunk [z] if
    there is one. *)
Definition superseded_by (next : option ChunkId) (m : ChunkMetadata) : ChunkMetadata :=
  let l := cm_lifecycle m in
  set_meta_lifecycle (mkLifecycle (lc_tier l) (lc_supersedes l) next (lc_expires_at_ms l) (lc_review_after_ms l)
                        (lc_updated_at_ms l)) m.
Definition ex_chain (n : nat) (z : option ChunkId) : ChunkTable :=
  insert_many (map (λ i, superseded_by (if (i <? n)%nat then Some (ex_id (N.of_nat (S i))) else z)
                           (ex_meta (N.of_nat i) (Z.of_nat i) Final None)) (seq 1 n)) ∅.

(** A chain of a hundred chunks is accepted, and refused when it is closed. *)
Example ex_long_chain :
  (detect_supersession_cycle ex_tenant (ex_id 1) (ex_chain 100 None),
   is_ok <$> detect_supersession_cycle ex_tenant (ex_id 1) (ex_chain 100 (Some (ex_id 50)))) =
  (Some (Ok ()), Some false).
Proof. vm_compute. reflexivity. Qed.

Example ex_not_head :
  supersede_preflight ex_tenant (ex_id 2) ex_tenant ex_superseded
  = Some (Err (ValidationError "supersede_chunk: old chunk is not current head")).
Proof. vm_compute. reflexivity. Qed.

Lemma supersede_keeps_chains_finite_witness : ends ex_tenant ex_superseded (ex_id 2).
Proof.
  apply (supersede_keeps_chains_finite ex_tenant (ex_id 2) (ex_id 3) 70 ex_db).
  - by vm_compute.
  - intros c. apply ends_head, ex_heads.
  - apply ex_heads.
  - vm_compute. reflexivity.
Defined.
