(* ===== verification/StoreProps.v ===== *)
(** * Properties of the tenant store

    The claims about the store as a whole: it behaves like a map of chunks,
    keeps it across crashes, and recovers from every intermediate state; and
    the one torn log it does not repair. *)

From S2P Require Import Prelude Crates Types WalFormat WalReader Files WalWriter.
From S2P Require Import SegmentFormat Segment SegmentFacts Metadata MetadataFacts.
From S2P Require Import TenantStore Persistent Runs TenantInv TenantFacts Recovery.
From S2P Require Import PersistentFacts AddFacts StoreSpec Concrete MetadataProps WalProps.
From Stdlib Require Import Init.Byte.

Open Scope Z_scope.

Section props.
Context `{BOL : ByteOrderLaws} `{CRL : Crc32Laws} `{RBL : RoaringLaws B}.
Context `{BWL : BincodeLaws WalRecord} `{JCL : JsonLaws MemoryChunk}.
Context `{UUL : UuidLaws ChunkId} `{TT : TaskTables TK}.
Context `{CAP : BufCap} `{BM : Bincode SegmentMeta} `{UC : Unicode} `{SHA : Sha256}.
Implicit Types (s : St B TK) (A : gmap ChunkId MemoryChunk) (w : World TK).

(** C1: functional refinement.  On a store that implements the map [A],
    every admissible command returns without an error, answers what the map
    answers, and leaves a store that implements the map after the command.
    Adding inserts the chunks with their id and hash, deleting removes one
    chunk and tells whether it was there, reading looks one up, and rewriting
    the segments changes nothing. *)
Theorem store_refines_map t s A cmd :
  implements t s A → admissible t s cmd →
  ∃ s', exec t cmd s = (Ok (spec cmd A).1, s') ∧ implements t s' (spec cmd A).2.
Proof.
  intros Hi Hadm.
  destruct (exec_simulates t s A cmd Hi Hadm) as (G & K & _ & _ & (out & s' & tr & E & _ & _ & -> & Hi')).
  by exists s'.
Qed.

(** C3: durability.  When the process dies between two operations and the
    disk keeps what was synced and any part of what was not, opening the
    tenant again succeeds and gives a store that implements the same map:
    no acknowledged chunk is lost and no deleted chunk comes back. *)
Theorem crash_between_commands t s A now maxc minf interval w :
  TenantId.validate (TenantId.as_str t) = Ok () → 0 < maxc < 2 ^ 32 →
  implements t s A → crash_world (s_world s) w →
  ∃ ts w' tr, open now (TenantId.as_str t) maxc minf interval false w = (Ok ts, w', tr) ∧
    implements t (mkSt ts w' tr) A.
Proof. intros Hv Hmax Hi Hc. by apply (reopen_implements t Hv s). Qed.

(** C2: atomicity under crashes.  When the process dies in the middle of a
    command, at any of its effects on the disk, opening the tenant again
    succeeds, and every chunk then reads as before the command or as after
    it, never as anything else. *)
Theorem crash_inside_command t s A cmd now maxc minf interval :
  TenantId.validate (TenantId.as_str t) = Ok () → 0 < maxc < 2 ^ 32 →
  implements t s A → admissible t s cmd →
  ∃ out s' worlds, exec t cmd s = (Ok out, s') ∧ s_trace s' = s_trace s ++ worlds ∧
    ∀ w w', w ∈ worlds → crash_world w w' →
      ∃ ts w2 tr, open now (TenantId.as_str t) maxc minf interval false w' = (Ok ts, w2, tr) ∧
        ∀ c, ∃ o s2, get_chunk t c (mkSt ts w2 tr) = (Ok o, s2) ∧
                     (o = A !! c ∨ o = (spec cmd A).2 !! c).
Proof.
  intros Hv Hmax Hi Hadm.
  destruct (exec_simulates t s A cmd Hi Hadm) as (G & K & HG & Hcov & (out & s' & tr & E & Htr & HI & _)).
  exists out, s', tr. split_and!; [done|done|]. intros w w' Hin Hc.
  apply (open_answers t Hv G K now maxc minf interval w' A (spec cmd A).2); try done.
  by apply (proj1 (Forall_forall _ _) HI w).
Qed.

(** C5: histories.  Starting from a store that implements [A], the answers of
    any sequence of admissible commands, with crashes and reopenings anywhere
    between them, are exactly those of the map, and so is the final state. *)
Theorem history_refines_map t maxc minf interval s h s' A :
  TenantId.validate (TenantId.as_str t) = Ok () → 0 < maxc < 2 ^ 32 →
  implements t s A → history t maxc minf interval s h s' →
  h = spec_answers (map fst h) A ∧ implements t s' (foldl (λ A cmd, (spec cmd A).2) A (map fst h)).
Proof. intros Hv Hmax Hi Hh. by eapply (history_spec t Hv). Qed.

(** opening a tenant with no files gives a store that implements the
    empty map. *)
Theorem open_empty_store t now maxc minf interval (k : TK) :
  TenantId.validate (TenantId.as_str t) = Ok () → 0 < maxc < 2 ^ 32 →
  ∃ ts w' tr,
    open now (TenantId.as_str t) maxc minf interval false (mkWorld None ∅ ∅ k) = (Ok ts, w', tr) ∧
    implements t (mkSt ts w' tr) ∅.
Proof. intros Hv Hmax. by apply open_empty. Qed.

(** C4: recovery.  From any recoverable disk, [open] returns a store; a crash
    at any effect of the recovery leaves a recoverable disk again; afterwards
    every live chunk is in a finalized segment with its payload, a chunk is
    live exactly when replaying the records after the last checkpoint over
    the table says so, a chunk the log does not delete keeps its metadata but
    for the location, and the log is empty when there was anything to
    replay. *)
Theorem open_recovers t G K now maxc minf interval w :
  TenantId.validate (TenantId.as_str t) = Ok () → (∀ c p, G !! c = Some p → payload_ok t c p) →
  0 < maxc < 2 ^ 32 → recoverable (B := B) t G K w →
  let suffix := records_for_recovery (wal_reader_open (f_cur <$> w_wal w)) in
  ∃ (ts : TenantStore B) w' tr,
    open now (TenantId.as_str t) maxc minf interval false w = (Ok ts, w', tr) ∧
    Forall (λ w1, ∀ w2, crash_world w1 w2 → recoverable (B := B) t G K w2) tr ∧
    (∀ c r, live t (w_db w') c r →
       ∃ p, G !! c = Some p ∧ stored_at (B := B) (w_segs w') (m_seg r) (m_ord r) p) ∧
    (∀ c, liveb t (w_db w') c = alive_after c (liveb t (w_db w) c) suffix) ∧
    (∀ c r0, live t (w_db w) c r0 → (∀ rec, rec ∈ suffix → ¬ delete_of c rec) →
       ∃ r seg ord, live t (w_db w') c r ∧ r_meta r = set_meta_location seg ord (r_meta r0)) ∧
    (suffix ≠ [] → w_wal w' = Some (file_of [])).
Proof.
  intros Hv HG Hmax Hr suffix.
  destruct (open_spec t G K Hv HG now maxc minf interval w Hr Hmax)
    as (ts & w' & tr & E & Hcr & [_ _ _ Hall Hal Hme] & _ & _ & Hne & _).
  exists ts, w', tr. by split_and!.
Qed.

(** retrieval shows a chunk exactly when it is live and neither a
    candidate nor failed; it never returns an error on a running store. *)
Theorem retrieval_hides_unready t s A c :
  implements t s A →
  ∃ s', get_chunk_for_retrieval t c s =
    (Ok (match A !! c with
         | Some chunk => if bool_decide (mc_status chunk ∈ [Candidate; Deleted; ErrorStatus])
                         then None else Some chunk
         | None => None
         end), s').
Proof.
  intros Hi. pose proof Hi as (G & rs & ads & Hr & HG & HA).
  destruct (exec_simulates t s A (CmdGet c) Hi I) as (G' & K & _ & _ & (out & s' & tr & E & _ & _ & -> & _)).
  cbn in E. unfold m_bind, m_ret in E. destruct (get_chunk t c s) as [[o|e] s1] eqn:Eg; [|done].
  injection E as -> ->. unfold get_chunk_for_retrieval, m_bind, m_world. fold (db_of s).
  pose proof (view_is_some t G ∅ rs s ads c Hr HG) as Hsome. unfold liveb in Hsome.
  pose proof (HA c) as HAc. rewrite <-HAc in Hsome. unfold chunk_view in HAc.
  destruct (get t c (db_of s)) as [m|] eqn:Em; cbn in HAc; [|rewrite HAc; eauto].
  apply bool_decide_eq_true in Hsome as [chunk0 E0]. rewrite E0 in *.
  destruct (G !! c) as [p|]; cbn in HAc; [|done].
  destruct (json_from_slice p) as [chunk|]; cbn in HAc; [|done]. injection HAc as ->.
  cbn [mc_status set_status]. case_bool_decide; [eauto|]. rewrite Eg. eauto.
Qed.

(** C14: the limit of that durability.  The metadata database runs with
    [synchronous=NORMAL], so a power loss may take back commits that a process
    crash would keep.  After a recovery has emptied the log, a power loss that
    brings the table back to its state before the recovery loses every chunk
    that was only in the log: it was live after the recovery, and the next
    open reads it as absent. *)
Theorem recovery_outruns_table t G K now now2 maxc minf interval w :
  TenantId.validate (TenantId.as_str t) = Ok () → (∀ c p, G !! c = Some p → payload_ok t c p) →
  0 < maxc < 2 ^ 32 → recoverable (B := B) t G K w →
  let suffix := records_for_recovery (wal_reader_open (f_cur <$> w_wal w)) in
  suffix ≠ [] →
  ∃ (ts : TenantStore B) w' tr,
    open now (TenantId.as_str t) maxc minf interval false w = (Ok ts, w', tr) ∧
    ∃ ts2 w2 tr2,
      open now2 (TenantId.as_str t) maxc minf interval false (with_db (w_db w) w') = (Ok ts2, w2, tr2) ∧
      ∀ c, get t c (w_db w) = None → alive_after c false suffix = true →
        liveb t (w_db w') c = true ∧ ∃ s2, get_chunk t c (mkSt (B := B) ts2 w2 tr2) = (Ok None, s2).
Proof.
  intros Hv HG Hmax Hr suffix Hne.
  destruct (open_spec t G K Hv HG now maxc minf interval w Hr Hmax)
    as (ts & w' & tr & E & _ & [_ _ _ _ Hal _] & _ & _ & Hempty & _).
  exists ts, w', tr. split; [done|]. specialize (Hempty Hne).
  unfold open, with_db. cbn [w_wal w_segs w_db w_tasks]. rewrite Hempty. cbn.
  eexists _, _, _. split; [reflexivity|]. intros c Hz Ha. split.
  - unfold db_of in Hal. cbn in Hal. rewrite Hal. unfold liveb. rewrite Hz. exact Ha.
  - unfold get_chunk, m_bind, m_world. cbn. rewrite Hz. eauto.
Qed.

(** shutdown.  Sealing the active segment, or leaving it because it is
    below the threshold, returns without an error and keeps the map. *)
Theorem shutdown_keeps_map t s A :
  implements t s A →
  ∃ s', finalize_active_segment_if_above_threshold s = (Ok (), s') ∧ implements t s' A.
Proof.
  intros (G & rs & ads & Hr & HG & HA).
  assert (Hfin : ∃ s', finalize_active_segment s = (Ok (), s') ∧ implements t s' A).
  { destruct (runs_finalize_active t G ∅ (after_checkpoint rs) s ads (rn_ready _ _ _ _ _ _ Hr))
      as ([] & s' & tr & E & _ & _ & (ads' & Hk & _)).
    exists s'. split; [done|]. exists G, rs, ads'. split_and!; [by eapply running_keeps|done|].
    intros c. rewrite HA. unfold db_of. by destruct (k_same _ _ _ _ _ _ _ _ Hk) as (_ & -> & _). }
  assert (Hsame : ∃ s', (Ok () : memd_result (), s) = (Ok (), s') ∧ implements t s' A).
  { exists s. split; [done|]. by exists G, rs, ads. }
  unfold finalize_active_segment_if_above_threshold, m_bind, m_store.
  destruct (ts_read_only (s_store s)); [exact Hsame|].
  destruct (0 <? ts_wal_checkpoint_interval (s_store s)); [exact Hfin|].
  destruct (_ <? ts_min_finalize_chunks (s_store s)); [exact Hsame|exact Hfin].
Qed.

(** A torn record of one to four bytes in front of other records. *)
Lemma torn_prefix_blocks r k rs' :
  (1 ≤ k ≤ 4)%nat → wal_junk (take k (encode_to_bytes r) ++ wal_bytes rs').
Proof.
  intros Hk. destruct rs' as [|r' rs'].
  { left. rewrite app_nil_r. unfold zlen. rewrite length_take. unfold WAL_HEADER_SIZE. lia. }
  right. change (wal_bytes (r' :: rs')) with (encode_to_bytes r' ++ wal_bytes rs').
  unfold decode_from_bytes. destruct (Z.ltb _ WAL_HEADER_SIZE); [done|].
  assert (Hc : (k = 1 ∨ k = 2 ∨ k = 3 ∨ k = 4)%nat) by lia.
  by destruct Hc as [-> |[-> |[-> | ->]]].
Qed.

(** C13: the torn log recovery does not repair.  When nothing follows the last
    checkpoint but the first bytes of a torn record, recovery returns without
    truncating the log; a batch appended and synced afterwards lands behind
    the torn bytes, where no later recovery finds it. *)
Theorem torn_tail_hides_appends rs r k rs' wal now s :
  Forall wal_fits rs → after_checkpoint rs = [] → (1 ≤ k ≤ 4)%nat → rs' ≠ [] →
  h_append (ww_handle wal) = true →
  let torn := wal_bytes rs ++ take k (encode_to_bytes r) in
  let f := (wal_append_batch rs' wal (file_of torn)).2 in
  recover_from_wal now (mkWalReader torn) s = (Ok (), s) ∧
  f = file_of (torn ++ wal_bytes rs') ∧ records_for_recovery (mkWalReader (f_cur f)) = [].
Proof.
  intros Hfit Hz Hk Hne Ha torn f.
  assert (Hj : ∀ l, wal_junk (take k (encode_to_bytes r) ++ wal_bytes l)) by (intros; by apply torn_prefix_blocks).
  assert (Ef : f = file_of (torn ++ wal_bytes rs')).
  { destruct (wal_append_batch_at_end rs' wal (file_of torn) Hne) as (h & E & _); [by left|].
    unfold f. by rewrite E. }
  assert (Hrec : ∀ l, records_for_recovery (mkWalReader (torn ++ wal_bytes l)) = []).
  { intros l. unfold torn. rewrite <-app_assoc, records_for_recovery_log by done. done. }
  split_and!; [|done|rewrite Ef; exact (Hrec rs')].
  unfold recover_from_wal. specialize (Hrec []). cbn in Hrec. rewrite app_nil_r in Hrec.
  destruct (wal_is_empty _); [done|]. by rewrite Hrec.
Qed.

End props.

(* ------------------------------------------------------------------ *)
(** ** Evaluations *)

Definition ex_chunk : MemoryChunk :=
  mkChunk (ex_id 0) ex_tenant None None 5 None Doc Final Raw (mkSource None None None None None None)
    "hi" [] "" Document.

Abbreviation ex_St := (St (gset Z) (list (list byte))).

(** The store a first open gives. *)
Definition ex_world : World (list (list byte)) := mkWorld None ∅ ∅ [].
Definition ex_s0 : ex_St :=
  match open 1 "team" 2 1 1 false ex_world with
  | (Ok ts, w, tr) => mkSt ts w tr
  | (Err _, w, tr) => mkSt (mkTenantStore "" true None ∅ None ∅ 0 0 0 0) w tr
  end.

Lemma ex_s0_implements : implements ex_tenant ex_s0 ∅.
Proof.
  destruct (open_empty ex_tenant eq_refl 1 2 1 1 ([] : list (list byte))) as (ts & w & tr & E & Hi); [lia|].
  unfold ex_s0, ex_world. change "team" with (TenantId.as_str ex_tenant). by rewrite E.
Qed.

Definition ex_cmd : Cmd := CmdAdd 9 false [ex_chunk] [ex_id 7] LaneIndexed.

Lemma ex_cmd_admissible : admissible ex_tenant ex_s0 ex_cmd.
Proof.
  cbn [admissible ex_cmd]. split_and!.
  - reflexivity.
  - apply NoDup_singleton.
  - vm_compute. reflexivity.
  - by repeat constructor.
  - apply Forall_singleton. split; [vm_compute; reflexivity|]. vm_compute. constructor.
  - apply Forall_singleton. split; vm_compute; reflexivity.
Qed.

(** One chunk added, read back, deleted, and gone. *)
Definition ex_s1 : ex_St := (exec ex_tenant ex_cmd ex_s0).2.

Example ex_add_answer : (exec ex_tenant ex_cmd ex_s0).1 = Ok (OutIds [ex_id 7]).
Proof. vm_compute. reflexivity. Qed.
Example ex_get_answer :
  (exec ex_tenant (CmdGet (ex_id 7)) ex_s1).1 = Ok (OutChunk (Some (stored_chunk (ex_id 7) ex_chunk))).
Proof. vm_compute. reflexivity. Qed.

Lemma store_refines_map_witness :
  ∃ s', exec ex_tenant ex_cmd ex_s0 = (Ok (OutIds [ex_id 7]), s') ∧
        implements ex_tenant s' (spec ex_cmd ∅).2.
Proof. exact (store_refines_map ex_tenant ex_s0 ∅ ex_cmd ex_s0_implements ex_cmd_admissible). Defined.

Lemma ex_s0_crash : crash_world (s_world ex_s0) (s_world ex_s0).
Proof.
  split; [|split; [|done]].
  - vm_compute. exists []. split; [by left|done].
  - intros id. change (w_segs (s_world ex_s0)) with (∅ : gmap Z SegDir). by rewrite lookup_empty.
Qed.

Lemma crash_between_commands_witness :
  ∃ ts w' tr, open 3 "team" 2 1 1 false (s_world ex_s0) = (Ok ts, w', tr) ∧
    implements ex_tenant (mkSt ts w' tr) ∅.
Proof.
  apply (crash_between_commands ex_tenant ex_s0 ∅ 3 2 1 1 (s_world ex_s0));
    [reflexivity|lia|exact ex_s0_implements|exact ex_s0_crash].
Defined.

Lemma crash_inside_command_witness :
  ∃ out s' worlds, exec ex_tenant ex_cmd ex_s0 = (Ok out, s') ∧
    s_trace s' = s_trace ex_s0 ++ worlds ∧
    ∀ w w', w ∈ worlds → crash_world w w' →
      ∃ ts w2 tr, open 3 "team" 2 1 1 false w' = (Ok ts, w2, tr) ∧
        ∀ c, ∃ o s2, get_chunk ex_tenant c (mkSt ts w2 tr) = (Ok o, s2) ∧
                     (o = (∅ : gmap ChunkId MemoryChunk) !! c ∨ o = (spec ex_cmd ∅).2 !! c).
Proof.
  apply (crash_inside_command ex_tenant ex_s0 ∅ ex_cmd 3 2 1 1);
    [reflexivity|lia|exact ex_s0_implements|exact ex_cmd_admissible].
Defined.

Definition ex_history : list (Cmd * memd_result Out) :=
  [(ex_cmd, Ok (OutIds [ex_id 7]));
   (CmdGet (ex_id 7), Ok (OutChunk (Some (stored_chunk (ex_id 7) ex_chunk))))].

Lemma history_refines_map_witness :
  ex_history = spec_answers [ex_cmd; CmdGet (ex_id 7)] ∅ ∧
  implements ex_tenant (exec ex_tenant (CmdGet (ex_id 7)) ex_s1).2 (spec ex_cmd ∅).2.
Proof.
  apply (history_refines_map ex_tenant 2 1 1 ex_s0 ex_history
           (exec ex_tenant (CmdGet (ex_id 7)) ex_s1).2 ∅);
    [reflexivity|lia|exact ex_s0_implements|].
  eapply (history_cmd _ _ _ _ _ _ _ ex_s1); [exact ex_cmd_admissible| |].
  - pose proof ex_add_answer as E. unfold ex_s1. destruct (exec ex_tenant ex_cmd ex_s0). by rewrite <-E.
  - eapply history_cmd; [exact I| |apply history_nil].
    pose proof ex_get_answer as E. destruct (exec ex_tenant (CmdGet (ex_id 7)) ex_s1). by rewrite <-E.
Defined.

Lemma open_empty_store_witness :
  ∃ ts w' tr, open 1 "team" 2 1 1 false ex_world = (Ok ts, w', tr) ∧
    implements ex_tenant (mkSt ts w' tr) ∅.
Proof. apply (open_empty_store ex_tenant 1 2 1 1 []); [reflexivity|lia]. Defined.

Lemma retrieval_hides_unready_witness :
  ∃ s', get_chunk_for_retrieval ex_tenant (ex_id 7) ex_s0 = (Ok None, s').
Proof. exact (retrieval_hides_unready ex_tenant ex_s0 ∅ (ex_id 7) ex_s0_implements). Defined.

Lemma shutdown_keeps_map_witness :
  ∃ s', finalize_active_segment_if_above_threshold ex_s0 = (Ok (), s') ∧ implements ex_tenant s' ∅.
Proof. exact (shutdown_keeps_map ex_tenant ex_s0 ∅ ex_s0_implements). Defined.

Lemma torn_tail_hides_appends_witness :
  records_for_recovery (mkWalReader
    (f_cur (wal_append_batch [ex_add] (mkWalWriter (mkHandle true 0) 0)
       (file_of (wal_bytes [ex_ckp] ++ take 4 (encode_to_bytes ex_add)))).2)) = [].
Proof.
  apply (torn_tail_hides_appends [ex_ckp] ex_add 4 [ex_add] (mkWalWriter (mkHandle true 0) 0) 1 ex_s0);
    [|reflexivity|lia|done|reflexivity].
  constructor; [vm_compute; reflexivity|constructor].
Defined.

(** A disk on which only the log record of an add survived. *)
Definition ex_payload : list byte := json_to_vec (stored_chunk (ex_id 7) ex_chunk).
Definition ex_record : WalRecord := wal_add "team" (uuid_to_string (ex_id 7)) 5 ex_payload.
Definition ex_crashed : World (list (list byte)) :=
  mkWorld (Some (file_of (encode_to_bytes ex_record))) ∅ ∅ [].

Lemma ex_payloads c p : ({[ex_id 7 := ex_payload]} : gmap ChunkId (list byte)) !! c = Some p → payload_ok ex_tenant c p.
Proof.
  intros [<- <-]%lookup_singleton_Some. split; [vm_compute; reflexivity|].
  exists (stored_chunk (ex_id 7) ex_chunk). split; [apply json_roundtrip|done].
Qed.

Lemma ex_crashed_recoverable : recoverable (B := gset Z) ex_tenant {[ex_id 7 := ex_payload]} ∅ ex_crashed.
Proof.
  exists [ex_record], []. split_and!.
  - cbn. by rewrite !app_nil_r.
  - apply wal_junk_nil.
  - constructor; [vm_compute; reflexivity|constructor].
  - assert (Hno : ∀ c r, ¬ live ex_tenant ∅ c r) by (intros c r (E & _); by rewrite lookup_empty in E).
    change (after_checkpoint [ex_record]) with [ex_record].
    constructor; cbn; [|done|apply table_wf_empty|done| | |done]; try (intros c r; naive_solver).
    constructor; [|constructor]. split; [done|]. exists (ex_id 7). split; [done|]. vm_compute. reflexivity.
Qed.

Lemma open_recovers_witness :
  ∃ (ts : TenantStore (gset Z)) w' tr, open 3 "team" 2 1 1 false ex_crashed = (Ok ts, w', tr) ∧
    liveb ex_tenant (w_db w') (ex_id 7) = true.
Proof.
  destruct (open_recovers ex_tenant {[ex_id 7 := ex_payload]} ∅ 3 2 1 1 ex_crashed eq_refl ex_payloads
    ltac:(lia) ex_crashed_recoverable) as (ts & w' & tr & E & _ & _ & Hal & _).
  exists ts, w', tr. split; [exact E|]. rewrite Hal. vm_compute. reflexivity.
Defined.

Lemma recovery_outruns_table_witness :
  ∃ (ts : TenantStore (gset Z)) w' tr, open 3 "team" 2 1 1 false ex_crashed = (Ok ts, w', tr) ∧
    ∃ ts2 w2 tr2 s2, open 4 "team" 2 1 1 false (with_db ∅ w') = (Ok ts2, w2, tr2) ∧
      get_chunk (B := gset Z) ex_tenant (ex_id 7) (mkSt ts2 w2 tr2) = (Ok None, s2).
Proof.
  destruct (recovery_outruns_table ex_tenant {[ex_id 7 := ex_payload]} ∅ 3 4 2 1 1 ex_crashed eq_refl
    ex_payloads ltac:(lia) ex_crashed_recoverable) as (ts & w' & tr & E & ts2 & w2 & tr2 & E2 & Hlost).
  { intros Hn. assert (Hl : length (records_for_recovery (wal_reader_open (f_cur <$> w_wal ex_crashed))) = 1%nat)
      by (vm_compute; reflexivity). by rewrite Hn in Hl. }
  exists ts, w', tr. split; [exact E|].
  destruct (Hlost (ex_id 7)) as (_ & s2 & Hs2); [reflexivity|vm_compute; reflexivity|].
  exists ts2, w2, tr2, s2. split; [exact E2|exact Hs2].
Defined.
