(* ===== verification/RewriteProps.v ===== *)
(** * Properties of segment rewriting

    The claims about [rewrite_finalized_segments]: it compacts completely and
    changes no answer, and the reuse of segment ids can make it fail. *)

From S2P Require Import Prelude Crates Types WalFormat WalReader Files WalWriter.
From S2P Require Import SegmentFormat Segment SegmentFacts Metadata MetadataFacts.
From S2P Require Import TenantStore Persistent Runs TenantInv TenantFacts Recovery.
From S2P Require Import PersistentFacts AddFacts Rewrite RewriteFacts StoreSpec Concrete.
From S2P Require Import MetadataProps WalProps StoreProps.

Open Scope Z_scope.

Section props.
Context `{BOL : ByteOrderLaws} `{CRL : Crc32Laws} `{RBL : RoaringLaws B}.
Context `{BWL : BincodeLaws WalRecord} `{JCL : JsonLaws MemoryChunk}.
Context `{UUL : UuidLaws ChunkId} `{TT : TaskTables TK}.
Context `{CAP : BufCap} `{BM : Bincode SegmentMeta} `{UC : Unicode} `{SHA : Sha256}.
Implicit Types (s : St B TK) (A : gmap ChunkId MemoryChunk).

(** C17: compaction.  On a store that implements the map [A], when the file
    system removes directories and no row names a segment id beyond those on
    disk, the rewrite returns without an error, the store still implements
    [A], and every payload left in a finalized segment belongs to a live
    chunk of [A]: nothing dead survives on disk. *)
Theorem rewrite_compacts t s A remove now :
  implements t s A → admissible t s (CmdRewrite remove now) →
  ∃ result s', rewrite_finalized_segments remove now t s = (Ok result, s') ∧ implements t s' A ∧
    ∀ id d ds ord, w_segs (s_world s') !! id = Some d → seg_complete d ds → (ord < length ds)%nat →
      ∃ c r, live t (db_of s') c r ∧ m_seg r = id ∧ m_ord r = Z.of_nat ord ∧ is_Some (A !! c).
Proof.
  intros Hi Hadm.
  destruct (exec_simulates t s A (CmdRewrite remove now) Hi Hadm)
    as (_ & _ & _ & _ & (out & s1 & _ & E & _ & _ & _ & Hi1)).
  destruct Hi as (G & rs & ads & Hr & HG & _). destruct Hadm as [Hrm Hids].
  destruct (runs_rewrite t G ∅ remove Hrm (λ c p Hp, proj1 (HG c p Hp)) rs now s ads Hr Hids)
    as (result & s' & tr & E' & _ & _ & _ & _ & Hal).
  cbn [exec] in E. unfold m_bind in E. rewrite E' in E. injection E as _ <-.
  exists result, s'. split_and!; [done|exact Hi1|]. intros id d ds o Hd Hsc Ho.
  destruct (Hal id d ds o Hd Hsc Ho) as (c & r & Hl & Hs & Eo). exists c, r. split_and!; [done..|].
  destruct Hi1 as (G1 & rs1 & ads1 & Hr1 & HG1 & HA1). cbn [spec snd] in HA1. rewrite HA1.
  pose proof (view_is_some t G1 ∅ rs1 s' ads1 c Hr1 HG1) as Hv. rewrite (live_liveb _ _ _ _ Hl) in Hv.
  by apply bool_decide_eq_true in Hv.
Qed.

(** A command on a running store, as an equation. *)
Lemma exec_implements t s A cmd res s' :
  implements t s A → admissible t s cmd → exec t cmd s = (res, s') → implements t s' (spec cmd A).2.
Proof.
  intros Hi Hadm E. destruct (exec_simulates t s A cmd Hi Hadm) as (_ & _ & _ & _ & (out & s1 & _ & E1 & _ & _ & _ & Hi1)).
  rewrite E in E1. by injection E1 as _ ->.
Qed.

(** [ids_fresh] by evaluation. *)
Definition ids_freshb (s : St B TK) : bool :=
  forallb (λ kr, existsb (λ id, m_seg kr.2 <=? id) (map fst (map_to_list (w_segs (s_world s)))))
    (map_to_list (db_of s)).

Lemma ids_freshb_ok t s : ids_freshb s = true → ids_fresh t s.
Proof.
  intros Hb c r Hr _. unfold ids_freshb in Hb. rewrite forallb_forall in Hb.
  specialize (Hb (c, r)). rewrite <-list_elem_of_In, elem_of_map_to_list in Hb. specialize (Hb Hr).
  apply existsb_exists in Hb as (id & Hid & Hle%Z.leb_le). apply list_elem_of_In, list_elem_of_fmap in Hid
    as ([id' d] & -> & Hd%elem_of_map_to_list). exists id'. split; [exact Hle|]. by exists d.
Qed.

End props.

(* ------------------------------------------------------------------ *)
(** ** A run in which a segment id comes back *)

Definition ex_remove (id : Z) : Removal :=
  mkRemoval [EntryTomb; EntryFile MetaFile; EntryFile PayloadBin] true.

(** Two chunks in segment 1, one in segment 2; the one in segment 2 is
    deleted and its segment removed, its row stays. *)
Definition ex_setup : list Cmd :=
  [CmdAdd 9 false [ex_chunk; ex_chunk] [ex_id 7; ex_id 8] LaneIndexed;
   CmdAdd 10 false [ex_chunk] [ex_id 9] LaneIndexed;
   CmdDelete 11 (ex_id 9); CmdRewrite ex_remove 12; CmdDelete 13 (ex_id 8)].

Definition ex_run (cmds : list Cmd) : ex_St := foldl (λ s cmd, (exec ex_tenant cmd s).2) ex_s0 cmds.
Definition ex_map (cmds : list Cmd) : gmap ChunkId MemoryChunk := foldl (λ A cmd, (spec cmd A).2) ∅ cmds.

Lemma ex_run_step cmds cmd :
  implements ex_tenant (ex_run cmds) (ex_map cmds) → admissible ex_tenant (ex_run cmds) cmd →
  implements ex_tenant (ex_run (cmds ++ [cmd])) (ex_map (cmds ++ [cmd])).
Proof.
  intros Hi Hadm. unfold ex_run, ex_map. rewrite !foldl_app. cbn [foldl]. fold (ex_run cmds) (ex_map cmds).
  eapply exec_implements; [exact Hi|exact Hadm|]. apply surjective_pairing.
Qed.

Ltac admissible_add :=
  cbn [admissible]; split_and!;
  [reflexivity|apply (bool_decide_unpack _); vm_compute; exact I|vm_compute; reflexivity|by repeat constructor| |];
  repeat (apply Forall_cons; split); try apply Forall_nil_2;
  try (split; vm_compute; first [reflexivity|repeat constructor; discriminate]).

Lemma ex_deleted_implements :
  implements ex_tenant (ex_run (take 3 ex_setup)) (ex_map (take 3 ex_setup)).
Proof.
  assert (H0 : implements ex_tenant (ex_run []) (ex_map [])) by apply ex_s0_implements.
  assert (H1 : implements ex_tenant (ex_run (take 1 ex_setup)) (ex_map (take 1 ex_setup)))
    by (apply (ex_run_step []); [exact H0|]; admissible_add).
  assert (H2 : implements ex_tenant (ex_run (take 2 ex_setup)) (ex_map (take 2 ex_setup)))
    by (apply (ex_run_step (take 1 ex_setup)); [exact H1|]; admissible_add).
  apply (ex_run_step (take 2 ex_setup)); [exact H2|]. cbn [admissible]. vm_compute. reflexivity.
Qed.

Lemma ex_deleted_fresh : ids_fresh ex_tenant (ex_run (take 3 ex_setup)).
Proof. apply ids_freshb_ok. vm_compute. reflexivity. Qed.

Lemma ex_setup_implements : implements ex_tenant (ex_run ex_setup) (ex_map ex_setup).
Proof.
  assert (H4 : implements ex_tenant (ex_run (take 4 ex_setup)) (ex_map (take 4 ex_setup))).
  { apply (ex_run_step (take 3 ex_setup)); [exact ex_deleted_implements|].
    split; [done|exact ex_deleted_fresh]. }
  apply (ex_run_step (take 4 ex_setup)); [exact H4|]. cbn [admissible]. vm_compute. reflexivity.
Qed.

(** segment ids come back.  The next id is one past the segments on disk,
    so once the segment with the highest id has been removed its id is used
    again, while the rows of its deleted chunks still occupy the locations:
    on this store, which works in every other respect and holds one live
    chunk, the rewrite fails on the uniqueness constraint, and so does every
    retry. *)
Theorem rewrite_reuses_segment_ids :
  implements ex_tenant (ex_run ex_setup) (ex_map ex_setup) ∧
  ex_map ex_setup = {[ex_id 7 := stored_chunk (ex_id 7) ex_chunk]} ∧
  let first := rewrite_finalized_segments ex_remove 14 ex_tenant (ex_run ex_setup) in
  first.1 = Err (DatabaseError "UNIQUE constraint failed") ∧
  (rewrite_finalized_segments ex_remove 15 ex_tenant first.2).1 = Err (DatabaseError "UNIQUE constraint failed").
Proof.
  split; [exact ex_setup_implements|]. split; [vm_compute; reflexivity|].
  split; vm_compute; reflexivity.
Qed.

(** Rewriting the store whose segment 2 holds a deleted chunk only. *)
Lemma rewrite_compacts_witness :
  ∃ result s', rewrite_finalized_segments ex_remove 14 ex_tenant (ex_run (take 3 ex_setup)) = (Ok result, s') ∧
    implements ex_tenant s' (ex_map (take 3 ex_setup)).
Proof.
  destruct (rewrite_compacts ex_tenant (ex_run (take 3 ex_setup)) (ex_map (take 3 ex_setup)) ex_remove 14
    ex_deleted_implements) as (result & s' & E & Hi & _).
  - split; [done|exact ex_deleted_fresh].
  - exists result, s'. split; [exact E|exact Hi].
Defined.

Example rewrite_result :
  match (rewrite_finalized_segments ex_remove 14 ex_tenant (ex_run (take 3 ex_setup))).1 with
  | Ok r => (rw_segments_removed r, rw_chunks_moved r, rw_warnings r) = (1, 0, [])
  | Err _ => False
  end.
Proof. vm_compute. reflexivity. Qed.
