(* ===== verification/OmfTime.v ===== *)
(** * UTC time stamps for the memory exchange format (src/crates/memd/src/omf/time.rs)

    [civil_from_days] (Hinnant's algorithm) against the proleptic Gregorian
    calendar written out with leap years and month lengths, and the RFC-3339
    formatter against a reader of the same format.  The divisions by positive
    constants are floor divisions, which is what [div_euclid] and
    [rem_euclid] compute. *)

From S2P Require Import Prelude.
From Stdlib Require Import Ascii.

Open Scope Z_scope.

(* ------------------------------------------------------------------ *)
(** ** The code *)

Definition in_i32 (z : Z) : Prop := - 2 ^ 31 ≤ z < 2 ^ 31.

(** [i32::try_from(y).ok()] *)
Definition i32_try_from (y : Z) : option Z :=
  if (-2147483648 <=? y) && (y <=? 2147483647) then Some y else None.

Definition yoe_of (doe : Z) : Z := (doe - doe / 1460 + doe / 36524 - doe / 146096) / 365.
Definition doy_of (doe yoe : Z) : Z := doe - (365 * yoe + yoe / 4 - yoe / 100).

(** The 64-bit date, before the year is narrowed. *)
Definition civil_date (days : Z) : Z * Z * Z :=
  let z := days + 719468 in
  let era := z / 146097 in
  let doe := z mod 146097 in
  let yoe := yoe_of doe in
  let y := yoe + era * 400 in
  let doy := doy_of doe yoe in
  let mp := (5 * doy + 2) / 153 in
  let d := doy - (153 * mp + 2) / 5 + 1 in
  let m := if mp <? 10 then mp + 3 else mp - 9 in
  (y + (if m <=? 2 then 1 else 0), m, d).

Definition civil_from_days (days : Z) : option (Z * Z * Z) :=
  let '(y, m, d) := civil_date days in
  year ← i32_try_from y;
  Some (year, m, d).

Definition is_rfc3339_year (year : Z) : bool := (1 <=? year) && (year <=? 9999).

(** [{n:0w}] of an unsigned number: decimal digits, padded with zeros. *)
Definition digit (d : Z) : ascii := ascii_of_N (Z.to_N (48 + d)).

Fixpoint dec_digits (fuel : nat) (n : Z) (acc : string) : string :=
  match fuel with
  | O => acc
  | S fuel =>
      if n <? 10 then String (digit n) acc
      else dec_digits fuel (n / 10) (String (digit (n mod 10)) acc)
  end.

Fixpoint zeros (n : nat) : string :=
  match n with O => ""%string | S n => String "0" (zeros n) end.

Definition fmt0 (w : nat) (n : Z) : string :=
  let s := dec_digits 20 n "" in
  zeros (w - String.length s) +:+ s.

Definition fmt_date (year month day : Z) : string :=
  fmt0 4 year +:+ "-" +:+ fmt0 2 month +:+ "-" +:+ fmt0 2 day.

Definition fmt_time (hour min sec : Z) : string :=
  fmt0 2 hour +:+ ":" +:+ fmt0 2 min +:+ ":" +:+ fmt0 2 sec.

Definition format_rfc3339_ms (ms : Z) : option string :=
  let seconds := ms / 1000 in
  let days := seconds / 86400 in
  let tod := seconds mod 86400 in
  let hour := tod / 3600 in
  let min := (tod mod 3600) / 60 in
  let sec := tod mod 60 in
  '(year, month, day) ← civil_from_days days;
  if negb (is_rfc3339_year year) then None
  else Some (fmt_date year month day +:+ "T" +:+ fmt_time hour min sec +:+ "Z").

Definition format_date_ms (ms : Z) : option string :=
  let days := ms / 86400000 in
  '(year, month, day) ← civil_from_days days;
  if negb (is_rfc3339_year year) then None
  else Some (fmt_date year month day).

(** [now_utc_rfc3339], with the clock reading as an argument. *)
Definition now_utc_rfc3339 (now_utc_ms : Z) : string :=
  default "1970-01-01T00:00:00Z"%string (format_rfc3339_ms now_utc_ms).

(* ------------------------------------------------------------------ *)
(** ** The calendar *)

Definition is_leap (y : Z) : bool :=
  (y mod 4 =? 0) && (negb (y mod 100 =? 0) || (y mod 400 =? 0)).

Definition days_in_month (y m : Z) : Z :=
  if m =? 2 then (if is_leap y then 29 else 28)
  else if (m =? 4) || (m =? 6) || (m =? 9) || (m =? 11) then 30 else 31.

Definition valid_date (y m d : Z) : Prop := 1 ≤ m ≤ 12 ∧ 1 ≤ d ≤ days_in_month y m.

(** The day after. *)
Definition next_date (y m d : Z) : Z * Z * Z :=
  if d <? days_in_month y m then (y, m, d + 1)
  else if m <? 12 then (y, m + 1, 1)
  else (y + 1, 1, 1).

(** Days from 0000-03-01, with years counted from March. *)
Definition march_days (y m d : Z) : Z :=
  let y' := if m <=? 2 then y - 1 else y in
  let mp := if m <=? 2 then m + 9 else m - 3 in
  365 * y' + y' / 4 - y' / 100 + y' / 400 + (153 * mp + 2) / 5 + (d - 1).

Definition days_from_civil (y m d : Z) : Z := march_days y m d - 719468.

(* ------------------------------------------------------------------ *)
(** ** The algorithm computes the calendar *)

(** The year of a day inside a 400-year era, counted from March. *)
Lemma yoe_bounds doe :
  0 ≤ doe < 146097 →
  let yoe := yoe_of doe in
  0 ≤ yoe ≤ 399 ∧
  365 * yoe + yoe / 4 - yoe / 100 ≤ doe ∧
  doe < 365 * (yoe + 1) + (yoe + 1) / 4 - (yoe + 1) / 100 + (yoe + 1) / 400.
Proof. cbn. unfold yoe_of. intros ?. Z.to_euclidean_division_equations. lia. Qed.

(** The month and the day inside a year that starts in March. *)
Lemma month_of_doy doy :
  0 ≤ doy ≤ 365 →
  let mp := (5 * doy + 2) / 153 in
  let d := doy - (153 * mp + 2) / 5 + 1 in
  0 ≤ mp ≤ 11 ∧ 1 ≤ d ∧ (153 * mp + 2) / 5 + (d - 1) = doy ∧
  (mp < 11 → d ≤ (153 * (mp + 1) + 2) / 5 - (153 * mp + 2) / 5) ∧
  (mp = 11 → doy = 336 + d).
Proof. cbn. intros ?. Z.to_euclidean_division_equations. lia. Qed.

(** A year has a 29 February exactly when its March-based year has 366 days. *)
Lemma leap_length y :
  365 * y + y / 4 - y / 100 + y / 400 =
  365 * (y - 1) + (y - 1) / 4 - (y - 1) / 100 + (y - 1) / 400 + 365 + (if is_leap y then 1 else 0).
Proof.
  unfold is_leap.
  destruct (Z.eqb_spec (y mod 4) 0), (Z.eqb_spec (y mod 100) 0), (Z.eqb_spec (y mod 400) 0);
    cbn; Z.to_euclidean_division_equations; lia.
Qed.

Lemma march_month_length y mp :
  0 ≤ mp < 11 →
  (153 * (mp + 1) + 2) / 5 - (153 * mp + 2) / 5 =
  days_in_month y (if mp <? 10 then mp + 3 else mp - 9).
Proof.
  intros ?. assert (mp ∈ [0;1;2;3;4;5;6;7;8;9;10]) as Hin by (cbn; set_unfold; lia).
  set_unfold in Hin. by repeat destruct Hin as [->|Hin].
Qed.

Lemma i32_try_from_Some y year :
  i32_try_from y = Some year ↔ year = y ∧ in_i32 y.
Proof.
  unfold i32_try_from, in_i32. change (2 ^ 31) with 2147483648.
  destruct (_ && _) eqn:E; [naive_solver lia|]. split; [done|]. lia.
Qed.

(** The day of an era and its year recombine. *)
Lemma era_split z :
  let yoe := yoe_of (z mod 146097) in
  let y := yoe + z / 146097 * 400 in
  0 ≤ yoe ≤ 399 ∧
  doy_of (z mod 146097) yoe + (365 * y + y / 4 - y / 100 + y / 400) = z ∧
  0 ≤ doy_of (z mod 146097) yoe ∧
  z < 365 * (y + 1) + (y + 1) / 4 - (y + 1) / 100 + (y + 1) / 400.
Proof.
  cbn. pose proof (Z.mod_pos_bound z 146097 ltac:(lia)) as Hb.
  destruct (yoe_bounds (z mod 146097) Hb) as (H1 & H2 & H3).
  pose proof (Z.div_mod z 146097 ltac:(lia)) as Hz. unfold doy_of.
  set (yoe := yoe_of (z mod 146097)) in *.
  assert (Hd : ∀ a, (a + z / 146097 * 400) / 4 = a / 4 + z / 146097 * 100 ∧
                    (a + z / 146097 * 400) / 100 = a / 100 + z / 146097 * 4 ∧
                    (a + z / 146097 * 400) / 400 = a / 400 + z / 146097).
  { intros a. generalize (z / 146097) as e. intros e. split_and!.
    - replace (e * 400) with (e * 100 * 4) by lia. by apply Z.div_add.
    - replace (e * 400) with (e * 4 * 100) by lia. by apply Z.div_add.
    - by apply Z.div_add. }
  destruct (Hd yoe) as (E1 & E2 & E3).
  replace (yoe + z / 146097 * 400 + 1) with (yoe + 1 + z / 146097 * 400) by lia.
  destruct (Hd (yoe + 1)) as (F1 & F2 & F3). rewrite E1, E2, E3, F1, F2, F3.
  rewrite (Z.div_small yoe 400) by lia. lia.
Qed.

(** The date is a date of the calendar, and it lies [days] days after
    1970-01-01. *)
Lemma civil_date_sound days y m d :
  civil_date days = (y, m, d) → valid_date y m d ∧ days_from_civil y m d = days.
Proof.
  unfold civil_date. cbn. intros [= Hy Hm Hd]. symmetry in Hy.
  pose proof (era_split (days + 719468)) as He. cbn in He.
  set (z := days + 719468) in *. set (yoe := yoe_of (z mod 146097)) in *.
  set (doy := doy_of (z mod 146097) yoe) in *. set (y0 := yoe + z / 146097 * 400) in *.
  destruct He as (_ & Hz & Hdoy & Hlt).
  pose proof (leap_length (y0 + 1)) as Hl. replace (y0 + 1 - 1) with y0 in Hl by lia.
  assert (doy ≤ 364 + (if is_leap (y0 + 1) then 1 else 0)) as Hup by lia.
  destruct (month_of_doy doy) as (Hmp & Hd1 & Hsum & Hlen & Hlast);
    [destruct (is_leap _); lia|].
  set (mp := (5 * doy + 2) / 153) in *. unfold valid_date, days_from_civil, march_days.
  destruct (Z.ltb_spec mp 10) as [Hlt10|Hge10]; subst m d.
  - replace (mp + 3 <=? 2) with false in * by lia.
    rewrite Z.add_0_r in Hy. subst y. replace (mp + 3 - 3) with mp by lia.
    split_and!; try done; try lia.
    rewrite (march_month_length y0 mp) in Hlen by lia.
    replace (mp <? 10) with true in Hlen by lia. lia.
  - replace (mp - 9 <=? 2) with true in * by lia.
    replace (y - 1) with y0 by lia. replace (mp - 9 + 9) with mp by lia.
    split_and!; try done; try lia.
    destruct (decide (mp = 10)) as [E10|].
    + rewrite (march_month_length y mp) in Hlen by lia.
      replace (mp <? 10) with false in Hlen by lia. lia.
    + assert (mp = 11) as E11 by lia. replace (mp - 9) with 2 by lia.
      unfold days_in_month. cbn. replace y with (y0 + 1) by lia.
      specialize (Hlast E11). destruct (is_leap (y0 + 1)); lia.
Qed.

(** Two dates of the calendar on the same day are the same date. *)
Lemma march_days_inj_aux y m d :
  valid_date y m d →
  let y' := if m <=? 2 then y - 1 else y in
  365 * y' + y' / 4 - y' / 100 + y' / 400 ≤ march_days y m d <
  365 * (y' + 1) + (y' + 1) / 4 - (y' + 1) / 100 + (y' + 1) / 400.
Proof.
  intros [Hm Hd]. unfold march_days. cbn.
  pose proof (leap_length ((if m <=? 2 then y - 1 else y) + 1)) as Hl.
  rewrite Z.add_simpl_r in Hl.
  assert (m ∈ [1;2;3;4;5;6;7;8;9;10;11;12]) as Hin by (cbn; set_unfold; lia).
  set_unfold in Hin. repeat destruct Hin as [->|Hin]; try done;
    unfold days_in_month in Hd; cbn -[Z.div Z.mul is_leap] in *;
    try (replace (y - 1 + 1) with y in * by lia);
    change (153 * 0 + 2) with 2 in *;
    destruct (is_leap _); Z.to_euclidean_division_equations; lia.
Qed.

Lemma march_year_mono a b :
  a < b → 365 * (a + 1) + (a + 1) / 4 - (a + 1) / 100 + (a + 1) / 400 ≤
          365 * b + b / 4 - b / 100 + b / 400.
Proof. intros ?. Z.to_euclidean_division_equations. lia. Qed.

(** Within one March-based year the day determines the month. *)
Lemma month_inj mp d mp' d' y :
  0 ≤ mp ≤ 11 → 0 ≤ mp' ≤ 11 →
  1 ≤ d ≤ days_in_month y (if mp <? 10 then mp + 3 else mp - 9) →
  1 ≤ d' ≤ days_in_month y (if mp' <? 10 then mp' + 3 else mp' - 9) →
  (153 * mp + 2) / 5 + (d - 1) = (153 * mp' + 2) / 5 + (d' - 1) →
  mp = mp' ∧ d = d'.
Proof.
  intros Hmp Hmp' Hd Hd' E.
  assert (Hlt : ∀ a b x z, 0 ≤ a ≤ 11 → 0 ≤ b ≤ 11 → a < b →
            1 ≤ x ≤ days_in_month y (if a <? 10 then a + 3 else a - 9) → 1 ≤ z →
            (153 * a + 2) / 5 + (x - 1) < (153 * b + 2) / 5 + (z - 1)).
  { intros a b x z ? ? ? Hx ?. rewrite <- march_month_length in Hx by lia.
    assert ((153 * (a + 1) + 2) / 5 ≤ (153 * b + 2) / 5) by (apply Z.div_le_mono; lia). lia. }
  destruct (Z.lt_trichotomy mp mp') as [?|[?|?]].
  - specialize (Hlt mp mp' d d'). lia.
  - subst. lia.
  - specialize (Hlt mp' mp d' d). lia.
Qed.

(** The month of a March-based month number, and back. *)
Lemma march_month_back m :
  1 ≤ m ≤ 12 →
  let mp := if m <=? 2 then m + 9 else m - 3 in
  0 ≤ mp ≤ 11 ∧ m = (if mp <? 10 then mp + 3 else mp - 9).
Proof.
  intros ?. cbn. destruct (Z.leb_spec m 2).
  - replace (m + 9 <? 10) with false by lia. lia.
  - replace (m - 3 <? 10) with true by lia. lia.
Qed.

Lemma days_in_month_year y y' m : m ≠ 2 → days_in_month y m = days_in_month y' m.
Proof. intros ?. unfold days_in_month. by replace (m =? 2) with false by lia. Qed.

Lemma days_from_civil_inj y m d y2 m2 d2 :
  valid_date y m d → valid_date y2 m2 d2 →
  days_from_civil y m d = days_from_civil y2 m2 d2 → (y, m, d) = (y2, m2, d2).
Proof.
  intros V V2 E. assert (march_days y m d = march_days y2 m2 d2) as E' by (unfold days_from_civil in E; lia).
  pose proof (march_days_inj_aux _ _ _ V) as B. pose proof (march_days_inj_aux _ _ _ V2) as B2.
  cbn in B, B2. destruct V as [Hm Hd], V2 as [Hm2 Hd2].
  destruct (march_month_back m Hm) as [Hmp Em], (march_month_back m2 Hm2) as [Hmp2 Em2].
  unfold march_days in E', B, B2. cbn in *.
  set (y' := if m <=? 2 then y - 1 else y) in *. set (y2' := if m2 <=? 2 then y2 - 1 else y2) in *.
  set (mp := if m <=? 2 then m + 9 else m - 3) in *. set (mp2 := if m2 <=? 2 then m2 + 9 else m2 - 3) in *.
  assert (y' = y2') as Ey.
  { destruct (Z.lt_trichotomy y' y2') as [Hlt|[?|Hlt]]; [|done|];
      apply march_year_mono in Hlt; lia. }
  rewrite <- Ey in *.
  assert (Hdim : ∀ yy mm, yy = y' + 1 ∨ mm ≠ 2 → days_in_month yy mm = days_in_month (y' + 1) mm).
  { intros yy mm [->|?]; [done|]. by apply days_in_month_year. }
  rewrite (Hdim y m) in Hd by (subst y'; destruct (Z.leb_spec m 2); lia).
  rewrite (Hdim y2 m2) in Hd2 by (subst y' y2'; destruct (Z.leb_spec m2 2); lia).
  rewrite Em in Hd. rewrite Em2 in Hd2.
  destruct (month_inj mp d mp2 d2 (y' + 1)) as [F1 F2]; try done; [lia|].
  assert (m = m2) as -> by (rewrite Em, Em2, F1; done). subst d2 y' y2'.
  destruct (m2 <=? 2); f_equal; f_equal; lia.
Qed.

(** The calendar's successor is one day later. *)
Lemma next_date_days y m d days y2 m2 d2 :
  valid_date y m d → days_from_civil y m d = days → next_date y m d = (y2, m2, d2) →
  valid_date y2 m2 d2 ∧ days_from_civil y2 m2 d2 = days + 1.
Proof.
  intros [Hm Hd] <-. unfold next_date.
  destruct (Z.ltb_spec d (days_in_month y m)).
  { intros [= <- <- <-]. unfold valid_date, days_from_civil, march_days. lia. }
  assert (d = days_in_month y m) as -> by lia.
  pose proof (leap_length y) as Hl.
  assert (m ∈ [1;2;3;4;5;6;7;8;9;10;11;12]) as Hin by (cbn; set_unfold; lia).
  set_unfold in Hin. repeat destruct Hin as [->|Hin]; try done;
    intros [= <- <- <-]; unfold valid_date, days_from_civil, march_days, days_in_month;
    repeat match goal with
    | |- context [Z.add (Zpos ?a) 1] =>
        let c := eval vm_compute in (Z.add (Zpos a) 1) in change (Z.add (Zpos a) 1) with c
    end;
    cbn -[Z.div Z.mul is_leap]; rewrite ?Z.add_simpl_r;
    destruct (is_leap y) in *; (split; [lia|]);
    Z.to_euclidean_division_equations; lia.
Qed.

(** [civil_from_days] computes the proleptic Gregorian calendar.  Day 0 is
    1970-01-01, the date of the next day is the day after (with the leap-year
    rule and the month lengths written out), and the conversion is total up
    to years that do not fit 32 bits: each date is the answer for exactly one
    day, the one [days_from_civil] counts. *)
Lemma civil_from_days_calendar :
  civil_from_days 0 = Some (1970, 1, 1) ∧
  (∀ days, civil_date (days + 1) =
     let '(y, m, d) := civil_date days in next_date y m d) ∧
  (∀ days y m d,
     civil_from_days days = Some (y, m, d) ↔
     in_i32 y ∧ valid_date y m d ∧ days_from_civil y m d = days).
Proof.
  assert (Hex : ∀ days y m d, civil_date days = (y, m, d) ↔
                  valid_date y m d ∧ days_from_civil y m d = days).
  { intros days y m d. split; [apply civil_date_sound|]. intros [V <-].
    destruct (civil_date _) as [[y2 m2] d2] eqn:E. apply civil_date_sound in E as [V2 E2].
    symmetry. by apply days_from_civil_inj. }
  split_and!; [done| |].
  - intros days. destruct (civil_date days) as [[y m] d] eqn:E.
    apply civil_date_sound in E as [V Hd]. destruct (next_date y m d) as [[y2 m2] d2] eqn:En.
    apply Hex. by apply (next_date_days y m d).
  - intros days y m d. unfold civil_from_days.
    destruct (civil_date days) as [[y0 m0] d0] eqn:E.
    destruct (i32_try_from y0) as [yr|] eqn:Ei; cbn.
    + apply i32_try_from_Some in Ei as [-> Hi]. split.
      * intros [= -> -> ->]. split; [done|]. by apply Hex.
      * intros (_ & V & Hd). assert (civil_date days = (y, m, d)) as Ey by by apply Hex. congruence.
    + split; [done|]. intros (Hi & V & Hd).
      assert (civil_date days = (y, m, d)) as Ey by by apply Hex.
      rewrite Ey in E. injection E as -> -> ->.
      assert (i32_try_from y0 = Some y0) by by apply i32_try_from_Some. congruence.
Qed.

(* ------------------------------------------------------------------ *)
(** ** Reading the formatted text back *)

Definition digit_value (c : ascii) : Z := Z.of_N (N_of_ascii c) - 48.

(** The value of a run of digits, after [a]. *)
Fixpoint digits_from (a : Z) (s : string) : Z :=
  match s with
  | EmptyString => a
  | String c s => digits_from (10 * a + digit_value c) s
  end.
Definition read_field (i n : nat) (s : string) : Z := digits_from 0 (String.substring i n s).

(** Seconds since the epoch of [YYYY-MM-DDTHH:MM:SSZ]. *)
Definition read_rfc3339 (s : string) : Z :=
  86400 * days_from_civil (read_field 0 4 s) (read_field 5 2 s) (read_field 8 2 s)
  + 3600 * read_field 11 2 s + 60 * read_field 14 2 s + read_field 17 2 s.

Lemma digit_value_digit d : 0 ≤ d < 10 → digit_value (digit d) = d.
Proof.
  intros ?. unfold digit_value, digit. rewrite N_ascii_embedding; lia.
Qed.

Lemma read_from_app a s t : digits_from a (s +:+ t) = digits_from (digits_from a s) t.
Proof. revert a. induction s as [|c s IH]; intros a; [done|]. cbn. apply IH. Qed.

Lemma string_length_app s t : String.length (s +:+ t) = (String.length s + String.length t)%nat.
Proof. induction s as [|c s IH]; [done|]. exact (f_equal S IH). Qed.

Lemma dec_digits_spec fuel n acc (w : nat) :
  (w ≤ fuel)%nat → 0 ≤ n < 10 ^ Z.of_nat w → (0 < w)%nat →
  ∃ s, dec_digits fuel n acc = s +:+ acc ∧ (0 < String.length s ≤ w)%nat ∧
       digits_from 0 s = n.
Proof.
  revert n acc w. induction fuel as [|fuel IH]; intros n acc w Hw Hn Hpos; [lia|].
  cbn [dec_digits]. destruct (Z.ltb_spec n 10).
  - exists (String (digit n) ""). cbn -[Z.mul]. rewrite digit_value_digit by lia.
    split_and!; [done|lia|lia|lia].
  - destruct w as [|[|w]]; [lia|change (10 ^ Z.of_nat 1) with 10 in Hn; lia|].
    destruct (IH (n / 10) (String (digit (n mod 10)) acc) (S w)) as (s & E & Hl & Hr); [lia| |lia|].
    { rewrite Nat2Z.inj_succ, Z.pow_succ_r in Hn by lia.
      split; [apply Z.div_pos; lia|apply Z.div_lt_upper_bound; lia]. }
    exists (s +:+ String (digit (n mod 10)) ""). rewrite E. split_and!.
    + clear. induction s as [|c s IH]; [done|]. exact (f_equal (String c) IH).
    + rewrite string_length_app. lia.
    + rewrite string_length_app. cbn. lia.
    + rewrite read_from_app, Hr. cbn -[Z.mul].
      rewrite digit_value_digit by (apply Z.mod_pos_bound; lia).
      symmetry. apply Z.div_mod. lia.
Qed.

Lemma zeros_spec n : String.length (zeros n) = n ∧ digits_from 0 (zeros n) = 0.
Proof. induction n as [|n [IH1 IH2]]; [done|]. split; [exact (f_equal S IH1)|exact IH2]. Qed.

(** A number that fits the width is printed with exactly that width. *)
Lemma fmt0_spec w n :
  (0 < w ≤ 20)%nat → 0 ≤ n < 10 ^ Z.of_nat w →
  String.length (fmt0 w n) = w ∧ digits_from 0 (fmt0 w n) = n.
Proof.
  intros Hw Hn. unfold fmt0.
  destruct (dec_digits_spec 20 n "" w) as (s & E & Hl & Hr); [lia|done|lia|].
  assert (s +:+ "" = s) as Es by (clear; induction s as [|c s IH]; [done|exact (f_equal (String c) IH)]).
  rewrite E, Es. destruct (zeros_spec (w - String.length s)) as [Z1 Z2].
  rewrite string_length_app, read_from_app, Z1, Z2. split; [lia|done].
Qed.

(** The block of a concatenation at its own position. *)
Lemma substring_app_mid a b c i n :
  i = String.length a → n = String.length b → String.substring i n (a +:+ (b +:+ c)) = b.
Proof.
  intros -> ->. induction a as [|x a IH]; [|done].
  cbn. induction b as [|y b IH]; [by destruct c|]. exact (f_equal (String y) IH).
Qed.

(** A year runs from its 1 January to its 31 December. *)
Lemma march_days_year y m d :
  valid_date y m d →
  march_days y 1 1 ≤ march_days y m d ≤ march_days y 12 31 ∧
  march_days (y + 1) 1 1 = march_days y 12 31 + 1.
Proof.
  intros [Hm Hd]. unfold march_days.
  assert (m ∈ [1;2;3;4;5;6;7;8;9;10;11;12]) as Hin by (cbn; set_unfold; lia).
  set_unfold in Hin. repeat destruct Hin as [->|Hin]; try done;
    unfold days_in_month in Hd; cbn -[Z.div Z.mul is_leap] in *;
    rewrite ?Z.add_simpl_r; pose proof (leap_length y) as Hl;
    destruct (is_leap _); Z.to_euclidean_division_equations; lia.
Qed.

Lemma march_days_jan_mono a b : a ≤ b → march_days a 1 1 ≤ march_days b 1 1.
Proof. intros ?. unfold march_days. cbn -[Z.div Z.mul]. Z.to_euclidean_division_equations. lia. Qed.

Lemma civil_year_range days y m d :
  civil_date days = (y, m, d) → 1 ≤ y ≤ 9999 ↔ -719162 ≤ days < 2932897.
Proof.
  intros [V E]%civil_date_sound. apply march_days_year in V as [B N]. unfold days_from_civil in E.
  split; intros H.
  - pose proof (march_days_jan_mono 1 y ltac:(lia)) as H1.
    pose proof (march_days_jan_mono (y + 1) 10000 ltac:(lia)) as H2.
    change (march_days 1 1 1) with 306 in H1. change (march_days 10000 1 1) with 3652365 in H2. lia.
  - destruct (decide (1 ≤ y ≤ 9999)) as [|Hn]; [done|]. exfalso.
    destruct (decide (y < 1)).
    + pose proof (march_days_jan_mono (y + 1) 1 ltac:(lia)) as H2.
      change (march_days 1 1 1) with 306 in H2. lia.
    + pose proof (march_days_jan_mono 10000 y ltac:(lia)) as H2.
      change (march_days 10000 1 1) with 3652365 in H2. lia.
Qed.

Lemma civil_from_days_in_range days :
  -719162 ≤ days < 2932897 →
  ∃ y m d, civil_from_days days = Some (y, m, d) ∧ 1 ≤ y ≤ 9999 ∧ valid_date y m d ∧
    days_from_civil y m d = days.
Proof.
  intros H. unfold civil_from_days. destruct (civil_date days) as [[y m] d] eqn:E.
  exists y, m, d. pose proof (civil_year_range _ _ _ _ E) as Hy. apply Hy in H.
  apply civil_date_sound in E as [V Ed].
  assert (i32_try_from y = Some y) as ->; [|done].
  apply i32_try_from_Some. split; [done|]. unfold in_i32. change (2 ^ 31) with 2147483648. lia.
Qed.

Lemma is_rfc3339_year_iff y : is_rfc3339_year y = true ↔ 1 ≤ y ≤ 9999.
Proof. unfold is_rfc3339_year. lia. Qed.

Lemma civil_from_days_out_of_range days :
  ¬ (-719162 ≤ days < 2932897) →
  (x ← civil_from_days days; if negb (is_rfc3339_year x.1.1) then None else Some x) = None.
Proof.
  intros H. unfold civil_from_days. destruct (civil_date days) as [[y m] d] eqn:E.
  rewrite <- (civil_year_range _ _ _ _ E) in H.
  destruct (i32_try_from y) as [y'|] eqn:Ei; [|done]. apply i32_try_from_Some in Ei as [-> _].
  cbn. destruct (is_rfc3339_year y) eqn:Ey; [|done]. by apply is_rfc3339_year_iff in Ey.
Qed.

Lemma string_length_2 s : String.length s = 2%nat → ∃ a b, s = String a (String b "").
Proof. destruct s as [|a [|b [|]]]; cbn; try done. eauto. Qed.

Lemma string_length_4 s :
  String.length s = 4%nat → ∃ a b c d, s = String a (String b (String c (String d ""))).
Proof. destruct s as [|a [|b [|c [|d [|]]]]]; cbn; try done. eauto 10. Qed.

(** The fields of a formatted text are read back at their positions. *)
Lemma read_fmt y mo d h mi s :
  0 ≤ y < 10000 → 0 ≤ mo < 100 → 0 ≤ d < 100 → 0 ≤ h < 100 → 0 ≤ mi < 100 → 0 ≤ s < 100 →
  let t := fmt_date y mo d +:+ "T" +:+ fmt_time h mi s +:+ "Z" in
  String.length t = 20%nat ∧ String.substring 0 10 t = fmt_date y mo d ∧
  read_rfc3339 t = 86400 * days_from_civil y mo d + 3600 * h + 60 * mi + s.
Proof.
  intros Hy Hmo Hd Hh Hmi Hs.
  assert (F2 : ∀ n, 0 ≤ n < 100 → ∃ a b, fmt0 2 n = String a (String b "") ∧
                      digits_from 0 (String a (String b "")) = n).
  { intros n Hn. destruct (fmt0_spec 2 n) as [Hl Hr]; [lia|done|].
    destruct (string_length_2 _ Hl) as (a & b & E). exists a, b. by rewrite <- E. }
  destruct (fmt0_spec 4 y) as [Hl Hr]; [lia|done|].
  destruct (string_length_4 _ Hl) as (y1 & y2 & y3 & y4 & Ey). rewrite Ey in Hr.
  destruct (F2 mo Hmo) as (mo1 & mo2 & Emo & Rmo), (F2 d Hd) as (d1 & d2 & Ed & Rd),
    (F2 h Hh) as (h1 & h2 & Eh & Rh), (F2 mi Hmi) as (mi1 & mi2 & Emi & Rmi),
    (F2 s Hs) as (s1 & s2 & Es & Rs).
  unfold fmt_date, fmt_time. rewrite Ey, Emo, Ed, Eh, Emi, Es. split_and!; [done..|].
  unfold read_rfc3339, read_field.
  repeat match goal with
  | |- context [String.substring ?i ?n ?t] =>
      let r := eval cbv in (String.substring i n t) in change (String.substring i n t) with r
  end.
  by rewrite Hr, Rmo, Rd, Rh, Rmi, Rs.
Qed.

(** The formatter and its inverse.  A time stamp is formatted exactly when
    it falls into the years 0001 to 9999; the text then has 20 characters,
    reading its fields back gives the time stamp floored to seconds (also
    before 1970), and the date-only format is its first ten characters. *)
Lemma rfc3339_roundtrip ms :
  (is_Some (format_rfc3339_ms ms) ↔ -62135596800000 ≤ ms < 253402300800000) ∧
  (∀ s, format_rfc3339_ms ms = Some s →
     String.length s = 20%nat ∧ read_rfc3339 s = ms / 1000 ∧
     format_date_ms ms = Some (String.substring 0 10 s)) ∧
  (is_Some (format_date_ms ms) ↔ is_Some (format_rfc3339_ms ms)).
Proof.
  unfold format_rfc3339_ms, format_date_ms. rewrite Z.div_div by lia.
  change (1000 * 86400) with 86400000.
  assert (Hdom : -719162 ≤ ms / 86400000 < 2932897 ↔ -62135596800000 ≤ ms < 253402300800000).
  { Z.to_euclidean_division_equations. lia. }
  destruct (decide (-719162 ≤ ms / 86400000 < 2932897)) as [Hin|Hout].
  - destruct (civil_from_days_in_range _ Hin) as (y & m & d & E & Hy & [Hm Hd] & Edays).
    rewrite E. cbn -[Z.div Z.modulo]. rewrite (proj2 (is_rfc3339_year_iff y) Hy).
    assert (d < 100) by (unfold days_in_month in Hd; repeat case_match; lia).
    pose proof (Z.mod_pos_bound (ms / 1000) 86400 ltac:(lia)) as Htod.
    set (tod := (ms / 1000) mod 86400) in *.
    split_and!; [split; [intros _; by apply Hdom|by eexists]| |split; intros _; by eexists].
    intros s [= <-].
    destruct (read_fmt y m d (tod / 3600) ((tod mod 3600) / 60) (tod mod 60)) as (L & P & R);
      [lia|lia|lia|Z.to_euclidean_division_equations; lia..|].
    cbn -[Z.div Z.modulo fmt_date fmt_time String.append String.length] in *.
    split_and!; [done| |by rewrite P].
    rewrite R, Edays. subst tod. Z.to_euclidean_division_equations. lia.
  - pose proof (civil_from_days_out_of_range _ Hout) as Hn.
    destruct (civil_from_days _) as [[[y m] d]|]; cbn in *;
      [destruct (is_rfc3339_year y); [done|]; cbn|]; (split_and!; [|done|done]);
      (split; [by intros []|tauto]).
Qed.

Lemma rfc3339_roundtrip_witness :
  format_rfc3339_ms 1700000000123 = Some "2023-11-14T22:13:20Z"%string ∧
  read_rfc3339 "2023-11-14T22:13:20Z" = 1700000000.
Proof.
  destruct (rfc3339_roundtrip 1700000000123) as (_ & Hs & _).
  assert (format_rfc3339_ms 1700000000123 = Some "2023-11-14T22:13:20Z"%string) as Hf by reflexivity.
  split; [exact Hf|]. by destruct (Hs _ Hf) as (_ & -> & _).
Defined.
