(* ===== verification/Ranking.v ===== *)
(** * Floats and sorting for the ranking code

    [f32] is IEEE 754 single precision as the standard library specifies it
    ([SpecFloat] at 24 bits and exponent 128, round to nearest even), so that
    scores are computed, not assumed.  [sort_by] is Rust's stable slice sort;
    for comparators that are not a total preorder on the elements (NaN
    scores) Rust leaves the order open, so the lemmas ask for a preorder. *)

From S2P Require Import Prelude.
From Stdlib Require Import Floats.SpecFloat Sorting.Sorted Sorting.Permutation.

Open Scope Z_scope.

(* ------------------------------------------------------------------ *)
(** ** Single-precision floats *)

Abbreviation f32 := spec_float.

Definition f32_add : f32 → f32 → f32 := SFadd 24 128.
Definition f32_sub : f32 → f32 → f32 := SFsub 24 128.
Definition f32_mul : f32 → f32 → f32 := SFmul 24 128.
Definition f32_div : f32 → f32 → f32 := SFdiv 24 128.
Definition f32_sqrt : f32 → f32 := SFsqrt 24 128.
Definition f32_abs : f32 → f32 := SFabs.

(** [n as f32] *)
Definition f32_of_Z (n : Z) : f32 := binary_normalize 24 128 n 0 false.

(** The literal [n/d]: the division of two exact floats rounds once. *)
Definition f32_lit (n d : Z) : f32 := f32_div (f32_of_Z n) (f32_of_Z d).

Definition f32_zero : f32 := S754_zero false.
Definition f32_one : f32 := f32_of_Z 1.
Definition f32_INFINITY : f32 := S754_infinity false.
Definition f32_NEG_INFINITY : f32 := S754_infinity true.
(** [f32::EPSILON], 2^-23. *)
Definition f32_EPSILON : f32 := f32_lit 1 8388608.

Definition is_nan (x : f32) : bool := match x with S754_nan => true | _ => false end.
(** [f32::is_finite] *)
Definition is_finite (x : f32) : bool :=
  match x with S754_zero _ | S754_finite _ _ _ => true | _ => false end.

(** [<], [<=], [>], [>=] and [==]; false on NaN. *)
Definition f32_lt (x y : f32) : bool := SFltb x y.
Definition f32_le (x y : f32) : bool := SFleb x y.
Definition f32_gt (x y : f32) : bool := f32_lt y x.
Definition f32_ge (x y : f32) : bool := f32_le y x.
Definition f32_eq (x y : f32) : bool := SFeqb x y.

(** [f32::clamp]; NaN stays NaN. *)
Definition f32_clamp (lo hi x : f32) : f32 :=
  let x := if f32_lt x lo then lo else x in
  if f32_gt x hi then hi else x.

(** [f32::max] and [f32::min] ignore a NaN operand. *)
Definition f32_max (x y : f32) : f32 :=
  if is_nan x then y else if is_nan y then x else if f32_lt x y then y else x.
Definition f32_min (x y : f32) : f32 :=
  if is_nan x then y else if is_nan y then x else if f32_lt y x then y else x.

(** [x as usize]: truncation towards zero, saturating, NaN to 0. *)
Definition f32_as_usize (x : f32) : Z :=
  match x with
  | S754_zero _ | S754_nan | S754_infinity true | S754_finite true _ _ => 0
  | S754_infinity false => u64_max
  | S754_finite false m e => Z.min u64_max (Z.shiftl (Zpos m) e)
  end.

(** [.iter().sum::<f32>()] starts from -0.0. *)
Definition f32_sum (l : list f32) : f32 := foldl f32_add (S754_zero true) l.

(** [a.partial_cmp(b).unwrap_or(Ordering::Equal)] *)
Definition partial_cmp_or_equal (a b : f32) : comparison := default Eq (SFcompare a b).

(** [Ordering::then_with] *)
Definition then_with (c d : comparison) : comparison :=
  match c with Eq => d | _ => c end.

(* ------------------------------------------------------------------ *)
(** ** Double-precision floats *)

(** [f64] at 53 bits and exponent 1024. *)
Abbreviation f64 := spec_float.
Definition f64_of_Z (n : Z) : f64 := binary_normalize 53 1024 n 0 false.
Definition f64_add : f64 → f64 → f64 := SFadd 53 1024.
Definition f64_mul : f64 → f64 → f64 := SFmul 53 1024.
Definition f64_div : f64 → f64 → f64 := SFdiv 53 1024.
Definition f64_one : f64 := f64_of_Z 1.
(** [f64::consts::LN_2] *)
Definition LN_2 : f64 := S754_finite false 6243314768165359 (-53).
(** [f64::EPSILON], 2^-52. *)
Definition f64_EPSILON : f64 := S754_finite false 4503599627370496 (-104).
(** [x as f32] *)
Definition f64_as_f32 (x : f64) : f32 :=
  match x with
  | S754_finite s m e => binary_normalize 24 128 (if s then Zneg m else Zpos m) e s
  | _ => x
  end.
(** [x as f64]: exact, normalised. *)
Definition f32_as_f64 (x : f32) : f64 :=
  match x with
  | S754_finite s m e => binary_normalize 53 1024 (if s then Zneg m else Zpos m) e s
  | _ => x
  end.
(** [f64::max] *)
Definition f64_max (x y : f64) : f64 :=
  if is_nan x then y else if is_nan y then x else if SFltb x y then y else x.
(** [f64::exp] of the C library. *)
Class Exp : Type := { f64_exp : f64 → f64 }.
(** [f32::log2] and [f32::exp] *)
Class Libm : Type := { f32_log2 : f32 → f32; f32_exp : f32 → f32 }.

(** *** Comparison is a total preorder away from NaN *)

(** A finite float is ordered by sign, exponent and mantissa. *)
Definition f32_key (x : f32) : Z * Z * Z :=
  match x with
  | S754_zero _ | S754_nan => (0, 0, 0)
  | S754_infinity s => (if s then -2 else 2, 0, 0)
  | S754_finite s m e => if s then (-1, - e, - Zpos m) else (1, e, Zpos m)
  end.

Definition key_compare (a b : Z * Z * Z) : comparison :=
  let '(a1, a2, a3) := a in let '(b1, b2, b3) := b in
  then_with (a1 ?= b1) (then_with (a2 ?= b2) (a3 ?= b3)).

Lemma SFcompare_key x y :
  is_nan x = false → is_nan y = false →
  SFcompare x y = Some (key_compare (f32_key x) (f32_key y)).
Proof.
  intros Hx Hy.
  assert (Hopp : ∀ a b, (- a ?= - b) = CompOpp (a ?= b)).
  { intros a b. rewrite Z.compare_opp. apply Z.compare_antisym. }
  destruct x as [?|[]| |[] m e], y as [?|[]| |[] m' e']; try done;
    unfold key_compare, f32_key, SFcompare; rewrite ?Hopp; f_equal; try done;
    change (Zpos m ?= Zpos m') with (Pos.compare_cont Eq m m');
    destruct (e ?= e'); done.
Qed.

Lemma key_compare_refl a : key_compare a a = Eq.
Proof. destruct a as [[a1 a2] a3]. unfold key_compare. by rewrite !Z.compare_refl. Qed.

Lemma key_compare_antisym a b : key_compare b a = CompOpp (key_compare a b).
Proof.
  destruct a as [[a1 a2] a3], b as [[b1 b2] b3]. unfold key_compare.
  rewrite (Z.compare_antisym a1 b1), (Z.compare_antisym a2 b2), (Z.compare_antisym a3 b3).
  by destruct (a1 ?= b1), (a2 ?= b2), (a3 ?= b3).
Qed.

Lemma key_compare_Eq a b : key_compare a b = Eq ↔ a = b.
Proof.
  destruct a as [[a1 a2] a3], b as [[b1 b2] b3]. unfold key_compare.
  destruct (Z.compare_spec a1 b1), (Z.compare_spec a2 b2), (Z.compare_spec a3 b3); cbn;
    split; intros; simplify_eq; try done; lia.
Qed.

Lemma key_compare_le a1 a2 a3 b1 b2 b3 :
  key_compare (a1, a2, a3) (b1, b2, b3) ≠ Gt ↔
  a1 < b1 ∨ a1 = b1 ∧ (a2 < b2 ∨ a2 = b2 ∧ a3 ≤ b3).
Proof.
  unfold key_compare.
  destruct (Z.compare_spec a1 b1), (Z.compare_spec a2 b2), (Z.compare_spec a3 b3); cbn;
    split; try done; lia.
Qed.

Lemma key_compare_trans a b c :
  key_compare a b ≠ Gt → key_compare b c ≠ Gt → key_compare a c ≠ Gt.
Proof.
  destruct a as [[a1 a2] a3], b as [[b1 b2] b3], c as [[c1 c2] c3].
  rewrite !key_compare_le. lia.
Qed.

(* ------------------------------------------------------------------ *)
(** ** Stable sorting *)

Section sort.
Context {A : Type} (cmp : A → A → comparison).

Fixpoint insert_by (x : A) (l : list A) : list A :=
  match l with
  | [] => [x]
  | y :: l' => match cmp x y with Gt => y :: insert_by x l' | _ => x :: l end
  end.

(** [slice::sort_by]: stable, ascending by [cmp]. *)
Fixpoint sort_by (l : list A) : list A :=
  match l with
  | [] => []
  | x :: l => insert_by x (sort_by l)
  end.

Lemma insert_by_Permutation x l : insert_by x l ≡ₚ x :: l.
Proof.
  induction l as [|y l IH]; cbn; [done|].
  destruct (cmp x y); [done|done|]. rewrite IH. apply Permutation_swap.
Qed.

Lemma sort_by_Permutation l : sort_by l ≡ₚ l.
Proof.
  induction l as [|x l IH]; cbn; [done|]. by rewrite insert_by_Permutation, IH.
Qed.

(** The comparator is a total preorder on the elements that satisfy [P]. *)
Class PreorderOn (P : A → Prop) : Prop := {
  cmp_total x y : P x → P y → cmp x y = Gt → cmp y x ≠ Gt;
  cmp_trans x y z : P x → P y → P z → cmp x y ≠ Gt → cmp y z ≠ Gt → cmp x z ≠ Gt;
}.

Definition cmp_le (x y : A) : Prop := cmp x y ≠ Gt.

Lemma PreorderOn_sub (P Q : A → Prop) : (∀ x, Q x → P x) → PreorderOn P → PreorderOn Q.
Proof. intros HQ [H1 H2]. split; eauto. Qed.

Lemma insert_by_sorted P `{!PreorderOn P} x l :
  P x → Forall P l → StronglySorted cmp_le l → StronglySorted cmp_le (insert_by x l).
Proof.
  intros Hx Hl Hs. induction Hs as [|y l Hs IH Hy]; cbn; [by repeat constructor|].
  inversion Hl as [|?? Py Pl]; subst.
  assert (Hle : cmp x y ≠ Gt → StronglySorted cmp_le (x :: y :: l)).
  { intros Hc. constructor; [by constructor|]. constructor; [done|].
    eapply Forall_impl; [apply Forall_and; split; [exact Pl|exact Hy]|].
    intros z [??]. by apply (cmp_trans x y z). }
  destruct (cmp x y) eqn:E; [by apply Hle|by apply Hle|].
  constructor; [by apply IH|]. rewrite insert_by_Permutation.
  constructor; [|done]. by apply cmp_total.
Qed.

Lemma sort_by_sorted P `{!PreorderOn P} l :
  Forall P l → StronglySorted cmp_le (sort_by l).
Proof.
  induction l as [|x l IH]; intros H; cbn; [constructor|]. inversion H; subst.
  apply (insert_by_sorted P); [done| |by apply IH].
  by rewrite sort_by_Permutation.
Qed.

(** Lists with the same elements sort alike when ties are broken. *)
Lemma sorted_unique (P : A → Prop) l k :
  (∀ x y, P x → P y → cmp_le x y → cmp_le y x → x = y) →
  Forall P l → l ≡ₚ k → StronglySorted cmp_le l → StronglySorted cmp_le k → l = k.
Proof.
  intros Hanti. revert k. induction l as [|x l IH]; intros k Hl Hp Sl Sk.
  - by apply Permutation_nil_l in Hp as ->.
  - destruct k as [|y k]; [by apply Permutation_nil_r in Hp|].
    inversion Sl as [|?? Sl' Fl]; subst. inversion Sk as [|?? Sk' Fk]; subst.
    assert (Forall P (y :: k)) as Hk by by rewrite <- Hp.
    assert (x = y) as ->.
    { assert (x ∈ y :: k) as Hx by (rewrite <- Hp; left).
      assert (y ∈ x :: l) as Hy by (rewrite Hp; left).
      apply elem_of_cons in Hx as [?|Hx]; [done|]. apply elem_of_cons in Hy as [?|Hy]; [done|].
      inversion Hl; inversion Hk; subst.
      apply Hanti; [done..|by eapply Forall_forall in Fl|by eapply Forall_forall in Fk]. }
    f_equal. apply IH; [by inversion Hl|by apply Permutation_cons_inv in Hp|done..].
Qed.

Lemma sort_by_Permutation_eq P `{!PreorderOn P} l k :
  (∀ x y, P x → P y → cmp_le x y → cmp_le y x → x = y) →
  Forall P l → l ≡ₚ k → sort_by l = sort_by k.
Proof.
  intros Hanti Hl Hp. assert (Forall P k) by by rewrite <- Hp.
  apply (sorted_unique P); [done|by rewrite sort_by_Permutation| |by apply (sort_by_sorted P)..].
  by rewrite !sort_by_Permutation.
Qed.

(** Sorting a sorted list does nothing. *)
Lemma sort_by_id l : StronglySorted cmp_le l → sort_by l = l.
Proof.
  induction 1 as [|x l Hs IH Hx]; cbn; [done|]. rewrite IH.
  destruct l as [|y l]; cbn; [done|]. inversion Hx as [|?? Hc]; subst. unfold cmp_le in Hc.
  by destruct (cmp x y).
Qed.

Lemma elem_of_sort_by x l : x ∈ sort_by l ↔ x ∈ l.
Proof. by rewrite sort_by_Permutation. Qed.
Lemma length_sort_by l : length (sort_by l) = length l.
Proof. by rewrite sort_by_Permutation. Qed.
End sort.

#[export] Hint Rewrite @length_sort_by @elem_of_sort_by : memd.

(* ------------------------------------------------------------------ *)
(** ** Orders by score *)

Definition not_nan (x : f32) : Prop := is_nan x = false.

Lemma partial_cmp_key x y :
  not_nan x → not_nan y → partial_cmp_or_equal x y = key_compare (f32_key x) (f32_key y).
Proof. intros Hx Hy. unfold partial_cmp_or_equal. by rewrite SFcompare_key. Qed.

Section by_score.
Context {A : Type} (score : A → f32) (tie : A → A → comparison).

(** [b.score.partial_cmp(&a.score).unwrap_or(Equal).then_with(tie)] *)
Definition score_desc (a b : A) : comparison :=
  then_with (partial_cmp_or_equal (score b) (score a)) (tie a b).

Definition scored (a : A) : Prop := not_nan (score a).

Class TotalOrderTie : Prop := {
  tie_antisym a b : tie b a = CompOpp (tie a b);
  tie_trans a b c : tie a b ≠ Gt → tie b c ≠ Gt → tie a c ≠ Gt;
}.

#[export] Instance score_desc_preorder `{!TotalOrderTie} : PreorderOn score_desc scored.
Proof.
  split; unfold score_desc, scored.
  - intros x y Hx Hy. rewrite !partial_cmp_key by done.
    rewrite (key_compare_antisym (f32_key (score x))), (tie_antisym x y).
    destruct (key_compare _ _); cbn; try done. by destruct (tie x y).
  - intros x y z Hx Hy Hz. rewrite !partial_cmp_key by done.
    set (kx := f32_key (score x)). set (ky := f32_key (score y)). set (kz := f32_key (score z)).
    intros H1 H2. assert (key_compare kz kx ≠ Gt) as H3.
    { apply (key_compare_trans _ ky); [by destruct (key_compare kz ky)|by destruct (key_compare ky kx)]. }
    destruct (key_compare kz kx) eqn:E3; cbn; [|done|done].
    apply key_compare_Eq in E3. rewrite E3 in H2. rewrite (key_compare_antisym ky kx) in H2.
    destruct (key_compare ky kx); cbn in *; try done. by eapply tie_trans.
Qed.
End by_score.
Arguments TotalOrderTie {A} tie.
