(* ===== verification/Fusion.v ===== *)
(** * Reciprocal rank fusion (src/crates/memd/src/retrieval/fusion.rs)

    Candidates of the dense and the sparse search are merged into one ranking.
    The accumulator is a [HashMap], whose iteration order the language leaves
    open: [HashIter] is any such order, and the result is proved not to depend
    on it. *)

From S2P Require Import Prelude Types Ranking.
From Stdlib Require Import Floats.SpecFloat Sorting.Sorted.

Open Scope Z_scope.

(** [HashMap::into_iter]: the entries, in some order. *)
Class HashIter (K : Type) `{Countable K} : Type := {
  hash_iter : ∀ {V : Type}, gmap K V → list (K * V);
  hash_iter_perm : ∀ {V} (m : gmap K V), hash_iter m ≡ₚ map_to_list m;
}.

(** [ChunkId: Ord]: the UUIDs as 128-bit numbers. *)
Definition chunk_id_cmp (a b : ChunkId) : comparison := N.compare (chunk_uuid a) (chunk_uuid b).

#[export] Instance chunk_id_cmp_total {A} (f : A → ChunkId) :
  TotalOrderTie (λ a b, chunk_id_cmp (f a) (f b)).
Proof.
  split; unfold chunk_id_cmp.
  - intros a b. apply N.compare_antisym.
  - intros a b c. destruct (N.compare_spec (chunk_uuid (f a)) (chunk_uuid (f b))),
      (N.compare_spec (chunk_uuid (f b)) (chunk_uuid (f c))),
      (N.compare_spec (chunk_uuid (f a)) (chunk_uuid (f c))); try done; lia.
Qed.

Inductive FusionSource : Type := DenseSource | SparseSource.

Record FusionCandidate : Type := mkCandidate {
  fc_chunk_id : ChunkId;
  fc_source : FusionSource;
  fc_rank : Z;
  fc_source_score : f32;
}.

Record RrfConfig : Type := mkRrf { rrf_k : f32; dense_weight : f32; sparse_weight : f32 }.
Definition RrfConfig_default : RrfConfig := mkRrf (f32_of_Z 60) f32_one f32_one.

Record FusedResult : Type := mkFused {
  fr_chunk_id : ChunkId;
  fr_rrf_score : f32;
  fr_dense_rank : option Z;
  fr_sparse_rank : option Z;
}.

Record FusionAccumulator : Type := mkAcc {
  fa_rrf_score : f32;
  fa_dense_rank : option Z;
  fa_sparse_rank : option Z;
}.

Section fuse.
Context (config : RrfConfig).

Definition source_weight (s : FusionSource) : f32 :=
  match s with DenseSource => dense_weight config | SparseSource => sparse_weight config end.

Definition contribution (c : FusionCandidate) : f32 :=
  f32_div (source_weight (fc_source c)) (f32_add (rrf_k config) (f32_of_Z (fc_rank c))).

(** The body of the accumulation loop on one entry. *)
Definition accumulate_entry (acc : FusionAccumulator) (c : FusionCandidate) : FusionAccumulator :=
  let acc := mkAcc (f32_add (fa_rrf_score acc) (contribution c)) (fa_dense_rank acc) (fa_sparse_rank acc) in
  match fc_source c with
  | DenseSource => mkAcc (fa_rrf_score acc) (Some (fc_rank c)) (fa_sparse_rank acc)
  | SparseSource => mkAcc (fa_rrf_score acc) (fa_dense_rank acc) (Some (fc_rank c))
  end.

Definition acc_new : FusionAccumulator := mkAcc f32_zero None None.

Definition accumulate (m : gmap ChunkId FusionAccumulator) (c : FusionCandidate) :
    gmap ChunkId FusionAccumulator :=
  <[fc_chunk_id c := accumulate_entry (default acc_new (m !! fc_chunk_id c)) c]> m.

Definition to_fused (e : ChunkId * FusionAccumulator) : FusedResult :=
  mkFused e.1 (fa_rrf_score e.2) (fa_dense_rank e.2) (fa_sparse_rank e.2).

Definition fused_cmp : FusedResult → FusedResult → comparison :=
  score_desc fr_rrf_score (λ a b, chunk_id_cmp (fr_chunk_id a) (fr_chunk_id b)).

Definition fuse `{h : !HashIter ChunkId} (candidates : list FusionCandidate) : list FusedResult :=
  sort_by fused_cmp (map to_fused (hash_iter (foldl accumulate ∅ candidates))).
End fuse.

(* ------------------------------------------------------------------ *)
(** ** Scores are never NaN *)

(** The sign bit is clear and the value is not NaN. *)
Definition f32_nonneg (x : f32) : Prop :=
  match x with S754_zero false | S754_infinity false | S754_finite false _ _ => True | _ => False end.
Definition f32_pos_finite (x : f32) : Prop :=
  match x with S754_finite false _ _ => True | _ => False end.

Lemma f32_nonneg_not_nan x : f32_nonneg x → not_nan x.
Proof. by destruct x as [[]|[]| |[] ? ?]. Qed.

Lemma shr_1_nonneg r : 0 ≤ shr_m r → 0 ≤ shr_m (shr_1 r).
Proof. destruct r as [[|[]|[]] ? ?]; cbn; lia. Qed.

Lemma iter_pos_inv {A} (P : A → Prop) (f : A → A) p x :
  (∀ x, P x → P (f x)) → P x → P (iter_pos f p x).
Proof. intros Hf. revert x. induction p; cbn; eauto. Qed.

Lemma shr_fexp_nonneg m e l : 0 ≤ m → 0 ≤ shr_m (shr_fexp 24 128 m e l).1.
Proof.
  intros Hm. unfold shr_fexp, shr.
  assert (0 ≤ shr_m (shr_record_of_loc m l)) by by destruct l as [|[]].
  case_match; cbn; [done| |done].
  by apply (iter_pos_inv (λ r, 0 ≤ shr_m r)); [apply shr_1_nonneg|].
Qed.

Lemma binary_round_aux_nonneg m e l :
  0 ≤ m → f32_nonneg (binary_round_aux 24 128 false m e l).
Proof.
  intros Hm. unfold binary_round_aux.
  pose proof (shr_fexp_nonneg m e l Hm) as H1. destruct (shr_fexp 24 128 m e l) as [r1 e1]. cbn in H1.
  assert (0 ≤ round_nearest_even (shr_m r1) (loc_of_shr_record r1)) as H2.
  { unfold round_nearest_even. repeat case_match; lia. }
  apply (shr_fexp_nonneg _ e1 loc_Exact) in H2. destruct (shr_fexp 24 128 _ e1 _) as [r2 e2]. cbn in H2.
  destruct (shr_m r2); [done| |lia]. by destruct (_ <=? _).
Qed.

Lemma binary_round_nonneg m e : f32_nonneg (binary_round 24 128 false m e).
Proof. unfold binary_round. destruct (shl_align _ _ _). by apply binary_round_aux_nonneg. Qed.

Lemma f32_of_Z_nonneg n : 0 ≤ n → f32_nonneg (f32_of_Z n).
Proof. intros Hn. destruct n; [done|apply binary_round_nonneg|lia]. Qed.

Lemma f32_add_nonneg x y : f32_nonneg x → f32_nonneg y → f32_nonneg (f32_add x y).
Proof.
  destruct x as [[]|[]| |[] m e], y as [[]|[]| |[] m' e']; try done.
  intros _ _. unfold f32_add, SFadd, binary_normalize. cbn [cond_Zopp].
  destruct (Z.add _ _) eqn:E; [done|apply binary_round_nonneg|].
  exfalso. revert E. destruct (shl_align m e _), (shl_align m' e' _). cbn. lia.
Qed.

Lemma f32_div_nonneg x y : f32_pos_finite x → f32_nonneg y → f32_nonneg (f32_div x y).
Proof.
  destruct x as [?|[]| |[] m e], y as [[]|[]| |[] m' e']; try done; intros _ _.
  unfold f32_div, SFdiv, SFdiv_core_binary. set (s := Z.sub (Z.sub e e') _).
  set (q0 := match s with Z0 => _ | Zpos _ => _ | Zneg _ => _ end).
  assert (0 ≤ q0) as Hq.
  { subst q0. destruct s; [lia|apply Z.shiftl_nonneg; lia|lia]. }
  pose proof (Z_div_mod q0 (Zpos m') ltac:(lia)) as Hd.
  destruct (Z.div_eucl q0 (Zpos m')) as [q r]. apply binary_round_aux_nonneg. nia.
Qed.

(* ------------------------------------------------------------------ *)
(** ** The ranking *)

(** The entry of one id: its contributions summed in the order they came. *)
Definition candidates_of (id : ChunkId) (cs : list FusionCandidate) : list FusionCandidate :=
  filter (λ c, fc_chunk_id c = id) cs.

Definition fused_of (config : RrfConfig) (cs : list FusionCandidate) (id : ChunkId) : FusedResult :=
  to_fused (id, foldl (accumulate_entry config) acc_new (candidates_of id cs)).

Section facts.
Context (config : RrfConfig).
Implicit Types (cs : list FusionCandidate) (id : ChunkId).

Lemma accumulate_lookup cs m id :
  foldl (accumulate config) m cs !! id =
  match candidates_of id cs with
  | [] => m !! id
  | l => Some (foldl (accumulate_entry config) (default acc_new (m !! id)) l)
  end.
Proof.
  revert m. induction cs as [|c cs IH]; intros m; [done|]. cbn [foldl].
  rewrite IH. unfold candidates_of, accumulate. rewrite filter_cons.
  destruct (decide (fc_chunk_id c = id)) as [->|Hne].
  - rewrite lookup_insert_eq. by destruct (filter _ cs).
  - by rewrite lookup_insert_ne.
Qed.

Lemma accumulated id cs acc :
  foldl (accumulate config) ∅ cs !! id = Some acc ↔
  id ∈ map fc_chunk_id cs ∧ acc = foldl (accumulate_entry config) acc_new (candidates_of id cs).
Proof.
  rewrite accumulate_lookup, lookup_empty. cbn.
  assert (Hm : candidates_of id cs ≠ [] ↔ id ∈ map fc_chunk_id cs).
  { rewrite list_elem_of_fmap. unfold candidates_of. split.
    - intros Hne. destruct (filter _ cs) as [|c l] eqn:E; [done|]. exists c.
      assert (c ∈ filter (λ c, fc_chunk_id c = id) cs) as Hc by (rewrite E; left).
      apply list_elem_of_filter in Hc as [??]. done.
    - intros (c & -> & Hc) E.
      assert (c ∈ filter (λ c', fc_chunk_id c' = fc_chunk_id c) cs) as Hin
        by by apply list_elem_of_filter.
      rewrite E in Hin. by apply not_elem_of_nil in Hin. }
  rewrite <- Hm. destruct (candidates_of id cs); naive_solver.
Qed.

(** The sources weigh something and ranks are non-negative. *)
Definition config_ok : Prop :=
  f32_nonneg (rrf_k config) ∧ f32_pos_finite (dense_weight config) ∧
  f32_pos_finite (sparse_weight config).

Lemma contribution_nonneg c : config_ok → 0 ≤ fc_rank c → f32_nonneg (contribution config c).
Proof.
  intros (Hk & Hd & Hs) Hr. apply f32_div_nonneg; [by destruct (fc_source c)|].
  apply f32_add_nonneg; [done|by apply f32_of_Z_nonneg].
Qed.

Lemma accumulate_entry_score acc c :
  fa_rrf_score (accumulate_entry config acc c) = f32_add (fa_rrf_score acc) (contribution config c).
Proof. unfold accumulate_entry. by destruct (fc_source c). Qed.

Lemma accumulated_score_nonneg l acc :
  config_ok → Forall (λ c, 0 ≤ fc_rank c) l → f32_nonneg (fa_rrf_score acc) →
  f32_nonneg (fa_rrf_score (foldl (accumulate_entry config) acc l)).
Proof.
  intros Hc Hl. revert acc. induction Hl as [|c l Hr Hl IH]; intros acc Ha; [done|].
  apply IH. rewrite accumulate_entry_score. apply f32_add_nonneg; [done|by apply contribution_nonneg].
Qed.

Context `{!HashIter ChunkId}.

Lemma elem_of_hash_iter {V} (m : gmap ChunkId V) id v : (id, v) ∈ hash_iter m ↔ m !! id = Some v.
Proof. by rewrite hash_iter_perm, elem_of_map_to_list. Qed.

Lemma elem_of_fuse cs r :
  r ∈ fuse config cs ↔ ∃ id, id ∈ map fc_chunk_id cs ∧ r = fused_of config cs id.
Proof.
  unfold fuse, fused_of. rewrite elem_of_sort_by, list_elem_of_fmap. split.
  - intros ([id acc] & -> & He). apply elem_of_hash_iter, accumulated in He as [? ->]. eauto.
  - intros (id & Hid & ->). eexists (id, _). split; [done|].
    apply elem_of_hash_iter, accumulated. done.
Qed.

Lemma fuse_scored cs :
  config_ok → Forall (λ c, 0 ≤ fc_rank c) cs →
  Forall (scored fr_rrf_score) (map to_fused (hash_iter (foldl (accumulate config) ∅ cs))).
Proof.
  intros Hc Hcs. apply Forall_forall. intros r Hr. apply list_elem_of_fmap in Hr as ([id acc] & -> & He).
  apply elem_of_hash_iter, accumulated in He as [_ ->]. apply f32_nonneg_not_nan.
  apply accumulated_score_nonneg; [done| |done].
  apply Forall_forall. intros c [_ Hin]%list_elem_of_filter. by eapply Forall_forall in Hcs.
Qed.
End facts.

Lemma fused_cmp_antisym x y :
  scored fr_rrf_score x → scored fr_rrf_score y → cmp_le fused_cmp x y → cmp_le fused_cmp y x →
  fr_chunk_id x = fr_chunk_id y.
Proof.
  unfold scored, cmp_le, fused_cmp, score_desc. intros Hx Hy.
  rewrite !partial_cmp_key by done.
  rewrite (key_compare_antisym (f32_key (fr_rrf_score x))).
  unfold chunk_id_cmp. rewrite (N.compare_antisym (chunk_uuid (fr_chunk_id y))).
  destruct (key_compare _ _); cbn; [|done|done].
  destruct (N.compare_spec (chunk_uuid (fr_chunk_id y)) (chunk_uuid (fr_chunk_id x))) as [E| |]; try done.
  intros _ _. destruct (fr_chunk_id x), (fr_chunk_id y). cbn in E. by subst.
Qed.

(** Fusion is exact and deterministic.  With positive weights, every
    chunk that any source returned appears exactly once, with the sum of its
    weighted reciprocal ranks in the order they were fed and the last rank of
    each source; no score is NaN; the list is sorted by score, ties by chunk
    id; and the order in which the hash map happens to be iterated does not
    change the result. *)
Lemma fuse_exact (config : RrfConfig) `{h1 : !HashIter ChunkId, h2 : !HashIter ChunkId}
    (cs : list FusionCandidate) :
  config_ok config → Forall (λ c, 0 ≤ fc_rank c) cs →
  let result := fuse (h := h1) config cs in
  (∀ r, r ∈ result ↔ ∃ id, id ∈ map fc_chunk_id cs ∧ r = fused_of config cs id) ∧
  NoDup (map fr_chunk_id result) ∧
  StronglySorted (cmp_le fused_cmp) result ∧
  Forall (scored fr_rrf_score) result ∧
  fuse (h := h2) config cs = result.
Proof.
  intros Hc Hcs. pose proof (@fuse_scored config h1 cs Hc Hcs) as S1.
  pose proof (@fuse_scored config h2 cs Hc Hcs) as S2. cbn.
  assert (Hids : NoDup (map fr_chunk_id (fuse (h := h1) config cs))).
  { unfold fuse. rewrite sort_by_Permutation, map_map, hash_iter_perm.
    apply NoDup_fst_map_to_list. }
  split_and!; [apply elem_of_fuse|exact Hids| | |].
  - by apply (sort_by_sorted _ (scored fr_rrf_score)), S1.
  - unfold fuse. by rewrite sort_by_Permutation.
  - symmetry. unfold fuse in *. rewrite (sort_by_Permutation fused_cmp) in Hids.
    set (l := map to_fused (@hash_iter _ _ _ h1 _ _)) in *.
    set (P := λ x, scored fr_rrf_score x ∧ x ∈ l).
    assert (PreorderOn fused_cmp P).
    { apply (PreorderOn_sub _ (scored fr_rrf_score)); [by intros x []|apply _]. }
    apply (sort_by_Permutation_eq _ P).
    + intros x y [Hx Ix] [Hy Iy] L1 L2. apply (NoDup_map_inj fr_chunk_id l); [done..|].
      by apply fused_cmp_antisym.
    + apply Forall_forall. intros x Hx. split; [|done]. by eapply Forall_forall in S1.
    + subst l. apply fmap_Permutation. by rewrite !hash_iter_perm.
Qed.

(** Two iteration orders. *)
Definition forward_iter : HashIter ChunkId :=
  {| hash_iter := λ V m, map_to_list m; hash_iter_perm := λ V m, reflexivity _ |}.

Lemma rev_map_to_list_perm V (m : gmap ChunkId V) : reverse (map_to_list m) ≡ₚ map_to_list m.
Proof. apply reverse_Permutation. Qed.
Definition backward_iter : HashIter ChunkId :=
  {| hash_iter := λ V m, reverse (map_to_list m); hash_iter_perm := rev_map_to_list_perm |}.

Definition sample_candidates : list FusionCandidate :=
  [mkCandidate (mkChunkId 1) DenseSource 1 f32_one; mkCandidate (mkChunkId 2) DenseSource 2 f32_one;
   mkCandidate (mkChunkId 2) SparseSource 1 f32_one; mkCandidate (mkChunkId 3) SparseSource 2 f32_one].

(** The chunk both sources found is first. *)
Example fuse_sample :
  map (λ r, (chunk_uuid (fr_chunk_id r), fr_dense_rank r, fr_sparse_rank r))
    (fuse (h := forward_iter) RrfConfig_default sample_candidates) =
  [(2%N, Some 2, Some 1); (1%N, Some 1, None); (3%N, None, Some 2)].
Proof. vm_compute. reflexivity. Qed.

Lemma fuse_exact_witness :
  fuse (h := backward_iter) RrfConfig_default sample_candidates =
  fuse (h := forward_iter) RrfConfig_default sample_candidates.
Proof.
  refine (proj2 (proj2 (proj2 (proj2
    (fuse_exact RrfConfig_default (h1 := forward_iter) (h2 := backward_iter) sample_candidates _ _))))).
  - vm_compute. auto.
  - unfold sample_candidates. repeat constructor; discriminate.
Defined.
