(* ===== verification/FloatFacts.v ===== *)
(** * Rounding stays in range

    The facts about [SpecFloat] that keep scores numbers: a result whose
    exponent is below the largest one rounds to a finite float, and to a
    positive one when it is not subnormal.  Stated for any precision, used at
    single and double precision. *)

From S2P Require Import Prelude Ranking Fusion.
From Stdlib Require Import Floats.SpecFloat.

Open Scope Z_scope.

(* ------------------------------------------------------------------ *)
(** ** Digits and shifts *)

Lemma digits2_pos_bounds p : 2 ^ (Zpos (digits2_pos p) - 1) ≤ Zpos p < 2 ^ Zpos (digits2_pos p).
Proof.
  induction p as [p IH|p IH|]; cbn [digits2_pos]; [| |cbn; lia];
    rewrite Pos2Z.inj_succ; replace (Z.succ (Zpos (digits2_pos p)) - 1) with (Zpos (digits2_pos p) - 1 + 1) by lia;
    rewrite Z.pow_succ_r, Z.pow_add_r by lia; lia.
Qed.

Lemma digits2_le p d : 0 ≤ d → Zpos p < 2 ^ d → Zpos (digits2_pos p) ≤ d.
Proof.
  intros Hd Hp. pose proof (digits2_pos_bounds p) as [Hl _].
  assert (2 ^ (Zpos (digits2_pos p) - 1) < 2 ^ d) as Hlt by lia. apply Z.pow_lt_mono_r_iff in Hlt; lia.
Qed.

Lemma digits2_ge p d : 2 ^ d ≤ Zpos p → d < Zpos (digits2_pos p).
Proof.
  intros Hp. pose proof (digits2_pos_bounds p) as [_ Hu].
  assert (2 ^ d < 2 ^ Zpos (digits2_pos p)) as Hlt by lia. apply Z.pow_lt_mono_r_iff in Hlt; lia.
Qed.

Lemma Zdigits2_bounds m :
  0 ≤ m → 0 ≤ Zdigits2 m ∧ m < 2 ^ Zdigits2 m ∧ (0 < m → 1 ≤ Zdigits2 m ∧ 2 ^ (Zdigits2 m - 1) ≤ m).
Proof.
  intros Hm. destruct m as [|p|p]; [by cbn| |lia]. pose proof (digits2_pos_bounds p). cbn [Zdigits2]. lia.
Qed.

Lemma Zdigits2_le m d : 0 ≤ m → 0 ≤ d → m < 2 ^ d → Zdigits2 m ≤ d.
Proof. intros Hm Hd Hp. destruct m as [|p|p]; cbn; [lia| |lia]. by apply digits2_le. Qed.

Lemma shr_m_shr_1 r : 0 ≤ shr_m r → shr_m (shr_1 r) = shr_m r / 2.
Proof.
  destruct r as [[|[p|p|]|p] b c]; cbn; try done; try lia; intros _.
  - change (Zpos p~1) with (2 * Zpos p + 1). rewrite Z.mul_comm, Z.div_add_l by lia. by rewrite Z.add_0_r.
  - change (Zpos p~0) with (2 * Zpos p). by rewrite Z.mul_comm, Z.div_mul by lia.
Qed.

Lemma iter_pos_iter {A} (f : A → A) p x : iter_pos f p x = Nat.iter (Pos.to_nat p) f x.
Proof.
  revert x. induction p as [p IH|p IH|]; intros x; cbn [iter_pos]; [| |done]; rewrite !IH.
  - rewrite Pos2Nat.inj_xI. replace (S (2 * Pos.to_nat p)) with (Pos.to_nat p + (Pos.to_nat p + 1))%nat by lia.
    by rewrite !Nat.iter_add.
  - rewrite Pos2Nat.inj_xO. replace (2 * Pos.to_nat p)%nat with (Pos.to_nat p + Pos.to_nat p)%nat by lia.
    by rewrite Nat.iter_add.
Qed.

Lemma shr_m_iter n r : 0 ≤ shr_m r → shr_m (Nat.iter n shr_1 r) = shr_m r / 2 ^ Z.of_nat n ∧ 0 ≤ shr_m (Nat.iter n shr_1 r).
Proof.
  intros Hr. induction n as [|n [IH Hn]]; [cbn; by rewrite Z.div_1_r|].
  change (Nat.iter (S n) shr_1 r) with (shr_1 (Nat.iter n shr_1 r)).
  rewrite shr_m_shr_1, IH by done. rewrite Nat2Z.inj_succ, Z.pow_succ_r by lia.
  rewrite Z.div_div, (Z.mul_comm 2) by lia. split; [done|]. apply Z.div_pos; [done|]. apply Z.mul_pos_pos; lia.
Qed.

Lemma shr_m_of_loc m l : shr_m (shr_record_of_loc m l) = m.
Proof. by destruct l as [|[]]. Qed.

(* ------------------------------------------------------------------ *)
(** ** Rounding *)

Section round.
Context (prec emax : Z).

Lemma shr_fexp_spec m e l :
  0 ≤ m → let k := Z.max 0 (fexp prec emax (Zdigits2 m + e) - e) in
  shr_m (shr_fexp prec emax m e l).1 = m / 2 ^ k ∧ (shr_fexp prec emax m e l).2 = e + k.
Proof.
  intros Hm k. subst k. unfold shr_fexp, shr. destruct (fexp prec emax (Zdigits2 m + e) - e) as [|p|p]; cbn [fst snd].
  - rewrite shr_m_of_loc, Z.div_1_r. split; [done|lia].
  - rewrite iter_pos_iter.
    destruct (shr_m_iter (Pos.to_nat p) (shr_record_of_loc m l)) as [-> _]; [by rewrite shr_m_of_loc|].
    rewrite shr_m_of_loc, positive_nat_Z. replace (Z.max 0 (Zpos p)) with (Zpos p) by lia. done.
  - rewrite shr_m_of_loc, Z.div_1_r. split; [done|lia].
Qed.

Lemma round_nearest_even_bounds m l : m ≤ round_nearest_even m l ≤ m + 1.
Proof. unfold round_nearest_even. repeat case_match; lia. Qed.

Context (Hprec : 1 < prec) (Hemax : prec < emax).

(** The magnitude [digits m + e] decides what a result rounds to: below the
    largest exponent it is finite, of almost the same magnitude, and it is
    not zero unless it is subnormal. *)
Lemma round_aux_cases s m e l :
  0 ≤ m → fexp prec emax (Zdigits2 m + e) < emax - prec → e < emax - prec →
  ∃ m' e', binary_round_aux prec emax s m e l =
    match m' with Zpos p => S754_finite s p e' | _ => S754_zero s end ∧
  0 ≤ m' ∧ Zdigits2 m' + e' ≤ Z.max (Zdigits2 m + e) (3 - emax) + 1 ∧
  (0 < m → 3 - emax ≤ Zdigits2 m + e → 0 < m').
Proof using Hprec Hemax.
  intros Hm Hf He. unfold binary_round_aux. pose proof (shr_fexp_spec m e l ltac:(lia)) as [H1 E1].
  destruct (shr_fexp prec emax m e l) as [r1 e1]. cbn [fst snd] in H1, E1.
  set (k := Z.max 0 _) in *. set (m1 := m / 2 ^ k) in *.
  assert (Hm1 : 0 ≤ m1) by (apply Z.div_pos; [lia|apply Z.pow_pos_nonneg; lia]).
  pose proof (round_nearest_even_bounds (shr_m r1) (loc_of_shr_record r1)) as Hb. rewrite H1 in Hb.
  rewrite H1. set (m2 := round_nearest_even m1 _) in *.
  pose proof (shr_fexp_spec m2 e1 loc_Exact ltac:(lia)) as [H2 E2].
  destruct (shr_fexp prec emax m2 e1 loc_Exact) as [r2 e2]. cbn [fst snd] in H2, E2. rewrite H2. clear H1 H2.
  destruct (Zdigits2_bounds m Hm) as (Hd0 & Du & Dl). set (d := Zdigits2 m) in *. clearbody d m2.
  assert (Hk : fexp prec emax (d + e) ≤ e1 ∧ 0 ≤ k ∧ e1 = e + k ∧ emin prec emax ≤ e1 ∧ d + e - prec ≤ e1)
    by (unfold fexp in *; lia).
  assert (Hku : k = 0 ∨ e1 = d + e - prec ∨ e1 = emin prec emax) by (unfold fexp in *; lia). clearbody k.
  (* the shifted mantissa has at most [d - k] digits, and fits in [prec] *)
  assert (Hm1u : ∀ j, 0 ≤ j → d - k ≤ j → m1 < 2 ^ j).
  { intros j Hj Hdj. apply Z.div_lt_upper_bound; [apply Z.pow_pos_nonneg; lia|]. rewrite <- Z.pow_add_r by lia.
    eapply Z.lt_le_trans; [exact Du|]. apply Z.pow_le_mono_r; lia. }
  assert (Hd2 : Zdigits2 m2 ≤ Z.max 0 (d - k) + 1).
  { specialize (Hm1u (Z.max 0 (d - k))). destruct m2 as [|p2|p2]; cbn; [lia| |lia]. apply digits2_le; [lia|].
    rewrite Z.pow_add_r by lia. lia. }
  set (k2 := Z.max 0 (fexp prec emax (Zdigits2 m2 + e1) - e1)) in *.
  assert (Hk2 : k2 = 0 ∨ k2 = 1 ∧ prec < Zdigits2 m2) by (unfold fexp in *; lia). clearbody k2.
  assert (He2 : (e2 <=? emax - prec) = true) by (apply Z.leb_le; unfold fexp in *; lia).
  assert (Hm2p : 0 < m → 3 - emax ≤ d + e → 0 < m2).
  { intros Hpos Hn. destruct (Dl Hpos) as [Hd1 Dl']. assert (1 ≤ m1); [|lia]. apply Z.div_le_lower_bound; [apply Z.pow_pos_nonneg; lia|].
    rewrite Z.mul_1_r. etrans; [|exact Dl']. apply Z.pow_le_mono_r; [lia|]. unfold emin in *. lia. }
  exists (m2 / 2 ^ k2), e2. destruct Hk2 as [Ek|[Ek Hp2]]; rewrite Ek.
  - rewrite Z.div_1_r. split_and!; [|lia|unfold emin in *; lia|done].
    destruct m2; [done| |lia]. by rewrite He2.
  - change (2 ^ 1) with 2. destruct m2 as [|[p2|p2|]|]; cbn in Hp2, Hd2; try lia.
    + replace (Zpos p2~1 / 2) with (Zpos p2) by (apply (Z.div_unique _ 2 _ 1); lia).
      rewrite He2. cbn. split_and!; [done|lia|unfold emin in *; lia|lia].
    + replace (Zpos p2~0 / 2) with (Zpos p2) by (apply (Z.div_unique _ 2 _ 0); lia).
      rewrite He2. cbn. split_and!; [done|lia|unfold emin in *; lia|lia].
Qed.
End round.

(* ------------------------------------------------------------------ *)
(** ** Integers, quotients and casts *)

Lemma digits2_iter_xO p k : Zpos (digits2_pos (Pos.iter xO p k)) = Zpos (digits2_pos p) + Zpos k.
Proof.
  induction k as [|k IH] using Pos.peano_ind; [cbn; lia|]. rewrite Pos.iter_succ. cbn [digits2_pos]. lia.
Qed.

Lemma shl_align_digits m e e' :
  let '(m', e'') := shl_align m e e' in
  Zpos (digits2_pos m') + e'' = Zpos (digits2_pos m) + e ∧ e'' ≤ e.
Proof. unfold shl_align. destruct (e' - e) as [|d|d] eqn:E; [lia|lia|]. rewrite digits2_iter_xO. lia. Qed.

Section cases.
Context (prec emax : Z) (Hprec : 1 < prec) (Hemax : prec < emax).

Lemma binary_round_cases s m e :
  fexp prec emax (Zpos (digits2_pos m) + e) < emax - prec → e < emax - prec →
  ∃ m' e', binary_round prec emax s m e =
    match m' with Zpos p => S754_finite s p e' | _ => S754_zero s end ∧
  0 ≤ m' ∧ Zdigits2 m' + e' ≤ Z.max (Zpos (digits2_pos m) + e) (3 - emax) + 1 ∧
  (3 - emax ≤ Zpos (digits2_pos m) + e → 0 < m').
Proof using Hprec Hemax.
  intros Hf He. unfold binary_round.
  pose proof (shl_align_digits m e (fexp prec emax (Zpos (digits2_pos m) + e))) as Hs.
  destruct (shl_align m e _) as [mz ez]. destruct Hs as [Hd Hle]. rewrite <- Hd in *.
  destruct (round_aux_cases prec emax Hprec Hemax s (Zpos mz) ez loc_Exact) as (m' & e' & E & Hm' & Hd' & Hp);
    [lia|exact Hf|lia|]. exists m', e'. split_and!; [exact E|done|exact Hd'|]. apply Hp. lia.
Qed.
End cases.

Lemma f32_of_Z_pos n : 0 < n < 2 ^ 100 → f32_pos_finite (f32_of_Z n).
Proof.
  intros Hn. destruct n as [|p|p]; [lia| |lia]. unfold f32_of_Z, binary_normalize.
  assert (Zpos (digits2_pos p) ≤ 100) by (apply digits2_le; lia).
  destruct (binary_round_cases 24 128 ltac:(lia) ltac:(lia) false p 0) as (m & e & -> & _ & _ & Hm);
    [unfold fexp, emin; lia|lia|]. by destruct m as [|m|m]; [lia| |lia].
Qed.

Lemma f32_div_pos_nonneg x b : f32_nonneg x → 0 < b < 2 ^ 100 → f32_nonneg (f32_div x (f32_of_Z b)).
Proof.
  intros Hx Hb. pose proof (f32_of_Z_pos b Hb) as Hp.
  destruct (f32_of_Z b) as [|[]| |[] mb eb] eqn:Eb; try done.
  destruct x as [[]|[]| |[] ma ea]; try done. by apply (f32_div_nonneg (S754_finite false ma ea)).
Qed.

(** A quotient of counts is a number that is not negative. *)
Lemma f32_ratio_nonneg a b : 0 ≤ a → 0 < b < 2 ^ 100 → f32_nonneg (f32_div (f32_of_Z a) (f32_of_Z b)).
Proof. intros Ha. apply f32_div_pos_nonneg, f32_of_Z_nonneg, Ha. Qed.

Lemma f32_mul_nonneg x y : f32_pos_finite x → f32_nonneg y → f32_nonneg (f32_mul x y).
Proof.
  destruct x as [?|[]| |[] m e], y as [[]|[]| |[] m' e']; try done; intros _ _.
  apply binary_round_aux_nonneg. lia.
Qed.

Lemma f32_min_nonneg x y : f32_nonneg x → f32_nonneg y → f32_nonneg (f32_min x y).
Proof. unfold f32_min. intros Hx Hy. by repeat case_match. Qed.

(** Zero, or positive and of magnitude at most [b]. *)
Definition f64_below (b : Z) (x : f64) : Prop :=
  match x with
  | S754_zero false => True
  | S754_finite false m e => Zpos (digits2_pos m) + e ≤ b
  | _ => False
  end.

Lemma f64_of_Z_below n : 0 ≤ n < 2 ^ 64 → f64_below 65 (f64_of_Z n).
Proof.
  intros Hn. unfold f64_of_Z, binary_normalize. destruct n as [|p|p]; [done| |lia].
  assert (Zpos (digits2_pos p) ≤ 64) by (apply digits2_le; lia).
  destruct (binary_round_cases 53 1024 ltac:(lia) ltac:(lia) false p 0) as (m & e & -> & _ & Hd & _);
    [unfold fexp, emin; lia|lia|]. destruct m as [|m|m]; [done| |done]. cbn in *. lia.
Qed.

Lemma f64_div_below b x m e :
  f64_below b x → b - e ≤ 900 → f64_below (Z.max (b - e) (-1021) + 1) (f64_div x (S754_finite false m e)).
Proof.
  destruct x as [[]|?| |[] m1 e1]; try done. intros Hb Hbe. cbn in Hb.
  unfold f64_div, SFdiv, SFdiv_core_binary, xorb. cbn [Zdigits2].
  set (d1 := Zpos (digits2_pos m1)) in *. set (d2 := Zpos (digits2_pos m)).
  set (e' := Z.min _ _). set (s := e1 - e - e').
  set (q0 := match s with Z0 => _ | Zpos _ => _ | Zneg _ => _ end).
  assert (Hs : 0 ≤ s) by lia.
  assert (Hq0 : q0 = Zpos m1 * 2 ^ s).
  { subst q0. destruct s; [lia|by rewrite Z.shiftl_mul_pow2 by lia|lia]. } clearbody q0.
  pose proof (Z_div_mod q0 (Zpos m) ltac:(lia)) as Hd. destruct (Z.div_eucl q0 (Zpos m)) as [q r].
  pose proof (digits2_pos_bounds m1) as [_ Hu]. fold d1 in Hu.
  assert (Hq0b : 0 ≤ q0 < 2 ^ (d1 + s)).
  { rewrite Hq0, Z.pow_add_r by lia. assert (0 < 2 ^ s) by (apply Z.pow_pos_nonneg; lia). nia. }
  assert (Hq : 0 ≤ q ≤ q0) by nia.
  assert (Hdq : Zdigits2 q ≤ d1 + s) by (apply Zdigits2_le; lia).
  destruct (round_aux_cases 53 1024 ltac:(lia) ltac:(lia) false q e' (new_location (Zpos m) r))
    as (m' & x' & -> & Hm' & Hd' & _); [lia|unfold fexp, emin; lia|lia|].
  destruct m' as [|m'|m']; [done| |done]. cbn in *. lia.
Qed.

Lemma f64_below_not_nan b x : f64_below b x → is_nan x = false.
Proof. by destruct x as [[]|?| |[] ? ?]. Qed.

(** The product of a finite number that is not positive and one that is not
    negative is never positive and never NaN. *)
Definition f64_nonpos (x : f64) : Prop :=
  match x with S754_zero _ | S754_infinity true | S754_finite true _ _ => True | _ => False end.

Lemma f64_mul_nonpos b c x y : f64_below b x → f64_below c y → f64_nonpos (f64_mul (SFopp x) y).
Proof.
  destruct x as [[]|?| |[] m e], y as [[]|?| |[] m' e']; try done; intros _ _.
  unfold f64_mul, SFmul. cbn [SFopp negb xorb]. unfold binary_round_aux.
  destruct (shr_fexp 53 1024 _ _ loc_Exact) as [r1 e1] eqn:E1.
  pose proof (shr_fexp_spec 53 1024 (Zpos (m * m')) (e + e') loc_Exact ltac:(lia)) as [H1 _].
  rewrite E1 in H1. cbn [fst] in H1.
  assert (Hm1 : 0 ≤ shr_m r1) by (rewrite H1; apply Z.div_pos; [lia|apply Z.pow_pos_nonneg; lia]).
  pose proof (round_nearest_even_bounds (shr_m r1) (loc_of_shr_record r1)) as Hb.
  set (m2 := round_nearest_even _ _) in *.
  pose proof (shr_fexp_spec 53 1024 m2 e1 loc_Exact ltac:(lia)) as [H2 _].
  destruct (shr_fexp 53 1024 m2 e1 loc_Exact) as [r2 e2]. cbn [fst] in H2.
  assert (0 ≤ shr_m r2) by (rewrite H2; apply Z.div_pos; [lia|apply Z.pow_pos_nonneg; lia]).
  destruct (shr_m r2); [done| |lia]. by case_match.
Qed.

(** The cast to single precision keeps the sign. *)
Lemma f64_as_f32_nonneg x : f32_nonneg x → f32_nonneg (f64_as_f32 x).
Proof.
  destruct x as [[]|[]| |[] m e]; try done. intros _. cbn. apply binary_round_nonneg.
Qed.

(* ------------------------------------------------------------------ *)
(** ** Differences *)

(** A finite float of the format: its mantissa is normalised unless it is
    subnormal. *)
Definition f32_real (x : f32) : Prop := is_finite x = true ∧ valid_binary 24 128 x = true.
Definition f32_nonpos (x : f32) : Prop :=
  match x with S754_zero _ | S754_infinity true | S754_finite true _ _ => True | _ => False end.

Lemma f32_real_not_nan x : f32_real x → is_nan x = false.
Proof. by destruct x as [?|?| |? ? ?]; intros []. Qed.

Lemma binary_round_neg m e : f32_nonpos (binary_round 24 128 true m e).
Proof.
  assert (H : binary_round 24 128 true m e = SFopp (binary_round 24 128 false m e)).
  { unfold binary_round, binary_round_aux. destruct (shl_align _ _ _). destruct (shr_fexp _ _ _ _ _).
    destruct (shr_fexp _ _ (round_nearest_even _ _) _ _) as [r ?]. destruct (shr_m r); [done| |done]. by destruct (_ <=? _). }
  rewrite H. generalize (binary_round_nonneg m e). by destruct (binary_round _ _ false _ _) as [[]|[]| |[] ? ?].
Qed.

(** The value of a finite float in units of [2 ^ ez]. *)
Definition scaled (ez : Z) (s : bool) (m : positive) (e : Z) : Z := cond_Zopp s (Zpos m * 2 ^ (e - ez)).

Lemma shl_align_scaled m e ez : ez ≤ e → Zpos (shl_align m e ez).1 = Zpos m * 2 ^ (e - ez).
Proof.
  intros Hle. unfold shl_align. destruct (ez - e) as [|d|d] eqn:E; [|lia|].
  - replace (e - ez) with 0 by lia. cbn. lia.
  - replace (e - ez) with (Zpos d) by lia. cbn [fst]. clear E. induction d as [|d IH] using Pos.peano_ind; [cbn; lia|].
    rewrite Pos.iter_succ, Pos2Z.inj_succ, Z.pow_succ_r by lia. lia.
Qed.

Lemma f32_sub_finite s1 m1 e1 s2 m2 e2 :
  let ez := Z.min e1 e2 in
  f32_sub (S754_finite s1 m1 e1) (S754_finite s2 m2 e2) =
  binary_normalize 24 128 (scaled ez s1 m1 e1 - scaled ez s2 m2 e2) ez false.
Proof.
  cbn. unfold f32_sub, SFsub, scaled. rewrite <- !shl_align_scaled by lia.
  done.
Qed.

Lemma valid_mantissa m e :
  valid_binary 24 128 (S754_finite false m e) = true → Zpos m < 2 ^ 24 ∧ (-149 < e → 2 ^ 23 ≤ Zpos m).
Proof.
  cbn [valid_binary]. unfold bounded, canonical_mantissa. intros [Hc _]%andb_true_iff.
  apply Z.eqb_eq in Hc. unfold fexp, emin in Hc. pose proof (digits2_pos_bounds m) as [Hl Hu].
  assert (Zpos (digits2_pos m) ≤ 24) by lia. split.
  - eapply Z.lt_le_trans; [exact Hu|]. apply Z.pow_le_mono_r; lia.
  - intros He. assert (Zpos (digits2_pos m) = 24) as E by lia. by rewrite E in Hl.
Qed.

Lemma scaled_le e1 e2 m1 m2 :
  valid_binary 24 128 (S754_finite false m1 e1) = true → valid_binary 24 128 (S754_finite false m2 e2) = true →
  e1 < e2 ∨ e1 = e2 ∧ Zpos m1 ≤ Zpos m2 → Zpos m1 * 2 ^ (e1 - Z.min e1 e2) ≤ Zpos m2 * 2 ^ (e2 - Z.min e1 e2).
Proof.
  intros V1 V2 [Hlt|[-> Hm]]; [|apply Z.mul_le_mono_nonneg_r; [apply Z.pow_nonneg; lia|done]].
  destruct (valid_mantissa _ _ V1) as [H1 _], (valid_mantissa _ _ V2) as [_ H2].
  assert (-149 ≤ e1).
  { cbn [valid_binary] in V1. unfold bounded, canonical_mantissa in V1. apply andb_true_iff in V1 as [Hc _].
    apply Z.eqb_eq in Hc. unfold fexp, emin in Hc. lia. }
  replace (Z.min e1 e2) with e1 by lia. rewrite Z.sub_diag, Z.mul_1_r.
  specialize (H2 ltac:(lia)). assert (2 ^ 1 ≤ 2 ^ (e2 - e1)) by (apply Z.pow_le_mono_r; lia). nia.
Qed.

(** The difference of a float and one that is not below it is not positive,
    and that of a float and itself is zero. *)
Lemma f32_sub_nonpos x y : f32_real x → f32_real y → f32_lt y x = false → f32_nonpos (f32_sub x y).
Proof.
  intros [Fx Vx] [Fy Vy] Hlt.
  assert (Hle : key_compare (f32_key x) (f32_key y) ≠ Gt).
  { unfold f32_lt, SFltb in Hlt. rewrite SFcompare_key in Hlt by (by apply f32_real_not_nan).
    rewrite key_compare_antisym. by destruct (key_compare (f32_key y) (f32_key x)). }
  destruct x as [sx|?| |sx m1 e1], y as [sy|?| |sy m2 e2]; try done.
  - by destruct sx, sy.
  - destruct sy; [by apply key_compare_le in Hle as [?|[? [?|?]]]; lia|done].
  - destruct sx; [done|by apply key_compare_le in Hle as [?|[? [?|?]]]; lia].
  - rewrite f32_sub_finite. set (ez := Z.min e1 e2).
    assert (Hs : scaled ez sx m1 e1 ≤ scaled ez sy m2 e2).
    { assert (∀ m e, 0 ≤ Zpos m * 2 ^ (e - ez)) by (intros; apply Z.mul_nonneg_nonneg; [lia|by apply Z.pow_nonneg]).
      pose proof (scaled_le e1 e2 m1 m2 Vx Vy) as H12. pose proof (scaled_le e2 e1 m2 m1 Vy Vx) as H21.
      rewrite (Z.min_comm e2 e1) in H21. fold ez in H12, H21.
      destruct sx, sy; cbv [f32_key] in Hle; apply key_compare_le in Hle; unfold scaled; cbn [cond_Zopp];
        pose proof (H m1 e1); pose proof (H m2 e2); lia. }
    unfold binary_normalize. destruct (scaled _ _ _ _ - scaled _ _ _ _) eqn:E; [done|lia|apply binary_round_neg].
Qed.

Lemma f32_sub_diag x : is_finite x = true → ∃ s, f32_sub x x = S754_zero s.
Proof.
  destruct x as [[]|?| |s m e]; try done; [by eexists..|]. intros _. rewrite f32_sub_finite, Z.sub_diag. by eexists.
Qed.
