(* ===== verification/Packer.v ===== *)
(** * Context packing (src/crates/memd/src/retrieval/packer.rs)

    Deduplication by hash and by embedding, selection by maximal marginal
    relevance, and the token budget.  [None] is a panic: [div_ceil] by a zero
    [chars_per_token]. *)

From S2P Require Import Prelude Types Ranking.
From Stdlib Require Import Floats.SpecFloat Sorting.Sorted.

Open Scope Z_scope.

Record PackerConfig : Type := mkPackerConfig {
  pk_max_tokens : Z;
  pk_chars_per_token : Z;
  pk_mmr_lambda : f32;
  pk_dedup_threshold : f32;
  pk_min_per_type : Z;
}.
Definition PackerConfig_default : PackerConfig :=
  mkPackerConfig 4000 4 (f32_lit 7 10) (f32_lit 9 10) 1.

Record PackerInput : Type := mkPackerInput {
  pi_chunk_id : ChunkId;
  pi_text : string;
  pi_chunk_type : ChunkType;
  pi_score : f32;
  pi_hash : string;
  pi_embedding : option (list f32);
  pi_source_uri : option string;
}.

Record PackedChunk : Type := mkPacked {
  pc_chunk_id : ChunkId;
  pc_text : string;
  pc_chunk_type : ChunkType;
  pc_score : f32;
  pc_source_uri : option string;
  pc_token_count : Z;
}.

Record PackedContext : Type := mkContext {
  px_chunks : list PackedChunk;
  px_total_tokens : Z;
  px_duplicates_removed : Z;
  px_diversity_adjustments : Z;
}.

(** [text.len()], in bytes. *)
Definition str_len (s : string) : Z := Z.of_nat (String.length s).

(** [usize::div_ceil]; dividing by zero panics. *)
Definition div_ceil (a b : Z) : option Z :=
  if b =? 0 then None else Some ((a + b - 1) / b).

Definition cosine_similarity (a b : list f32) : f32 :=
  if negb (length a =? length b)%nat then f32_zero
  else
    let dot := f32_sum (zip_with f32_mul a b) in
    let norm_a := f32_sqrt (f32_sum (map (λ x, f32_mul x x) a)) in
    let norm_b := f32_sqrt (f32_sum (map (λ x, f32_mul x x) b)) in
    if f32_eq norm_a f32_zero || f32_eq norm_b f32_zero then f32_zero
    else f32_div dot (f32_mul norm_a norm_b).

Section packer.
Context (config : PackerConfig).

(** One step of the loop: [seen_hashes.insert(...)] is true on a new hash. *)
Definition hash_step (st : list PackerInput * gset string * Z) (chunk : PackerInput) :
    list PackerInput * gset string * Z :=
  let '(result, seen, removed) := st in
  if bool_decide (pi_hash chunk ∈ seen) then (result, seen, removed + 1)
  else (result ++ [chunk], {[pi_hash chunk]} ∪ seen, removed).

Definition deduplicate_by_hash (chunks : list PackerInput) : list PackerInput * Z :=
  let '(result, _, removed) := foldl hash_step ([], ∅, 0) chunks in (result, removed).

Definition too_similar (chunk selected : PackerInput) : bool :=
  match pi_embedding chunk, pi_embedding selected with
  | Some emb, Some sel_emb => f32_gt (cosine_similarity emb sel_emb) (pk_dedup_threshold config)
  | _, _ => false
  end.

Definition similarity_step (result : list PackerInput) (chunk : PackerInput) : list PackerInput :=
  if existsb (too_similar chunk) result then result else result ++ [chunk].

Definition deduplicate_by_similarity (chunks : list PackerInput) : list PackerInput :=
  foldl similarity_step [] chunks.

Definition compute_diversity (candidate : PackerInput) (selected : list PackerInput) : f32 :=
  match selected with
  | [] => f32_one
  | _ =>
      match pi_embedding candidate with
      | Some emb =>
          let sims := omap (λ s, cosine_similarity emb <$> pi_embedding s) selected in
          f32_sub f32_one (foldl f32_max f32_zero sims)
      | None =>
          let same_type_count :=
            zlen (filter (λ s, pi_chunk_type s = pi_chunk_type candidate) selected) in
          if same_type_count =? 0 then f32_one
          else f32_div (f32_lit 1 2) (f32_of_Z same_type_count)
      end
  end.

(** The scan over [remaining.iter().enumerate()]: best index, best value and
    whether the order changed. *)
Fixpoint mmr_scan (min_score score_range : f32) (selected : list PackerInput)
    (idx : nat) (cands : list PackerInput) (best : nat * f32 * bool) : nat * f32 * bool :=
  match cands with
  | [] => best
  | candidate :: cands =>
      let '(best_idx, best_mmr, would_change_top) := best in
      let lambda := pk_mmr_lambda config in
      let relevance := f32_div (f32_sub (pi_score candidate) min_score) score_range in
      let diversity := compute_diversity candidate selected in
      let mmr := f32_add (f32_mul lambda relevance)
                   (f32_mul (f32_sub f32_one lambda) diversity) in
      let best :=
        if f32_gt mmr best_mmr then (idx, mmr, would_change_top || negb (idx =? 0)%nat)
        else best in
      mmr_scan min_score score_range selected (S idx) cands best
  end.

(** The [while] loop; [fuel] counts the remaining chunks. *)
Fixpoint mmr_loop (fuel : nat) (min_score score_range : f32)
    (selected remaining : list PackerInput) (adjustments : Z) : list PackerInput * Z :=
  match fuel with
  | O => (selected, adjustments)
  | S fuel =>
      match remaining with
      | [] => (selected, adjustments)
      | _ =>
          let '(best_idx, _, would_change_top) :=
            mmr_scan min_score score_range selected 0 remaining (O, f32_NEG_INFINITY, false) in
          let adjustments :=
            if would_change_top && negb (best_idx =? 0)%nat then adjustments + 1 else adjustments in
          match remaining !! best_idx with
          | Some c =>
              mmr_loop fuel min_score score_range (selected ++ [c])
                (take best_idx remaining ++ drop (S best_idx) remaining) adjustments
          | None => (selected, adjustments)
          end
      end
  end.

Definition mmr_select (chunks : list PackerInput) : list PackerInput * Z :=
  match chunks with
  | [] => ([], 0)
  | _ =>
      let max_score := foldl f32_max f32_NEG_INFINITY (map pi_score chunks) in
      let min_score := foldl f32_min f32_INFINITY (map pi_score chunks) in
      let score_range :=
        if f32_lt (f32_abs (f32_sub max_score min_score)) f32_EPSILON then f32_one
        else f32_sub max_score min_score in
      mmr_loop (length chunks) min_score score_range [] chunks 0
  end.

Definition type_count (chunks : list PackerInput) (t : ChunkType) : Z :=
  zlen (filter (λ c, pi_chunk_type c = t) chunks).

(** The loop over the missing types only reads its counters. *)
Definition enforce_type_diversity (chunks : list PackerInput) : list PackerInput :=
  if (pk_min_per_type config =? 0) || (zlen chunks <? 2) then chunks
  else
    let all_types := remove_dups (map pi_chunk_type chunks) in
    let missing_types := filter (λ t, type_count chunks t < pk_min_per_type config) all_types in
    foldl (λ chunks0 missing_type,
      if pk_min_per_type config <=? type_count chunks missing_type then chunks0 else chunks0)
      chunks missing_types.

Definition to_packed (chunk : PackerInput) (chunk_tokens : Z) : PackedChunk :=
  mkPacked (pi_chunk_id chunk) (pi_text chunk) (pi_chunk_type chunk) (pi_score chunk)
    (pi_source_uri chunk) chunk_tokens.

(** The budget loop; it stops at the first chunk that does not fit. *)
Fixpoint budget_loop (max_chars : Z) (chunks : list PackerInput) (result : list PackedChunk)
    (total_chars : Z) : option (list PackedChunk * Z) :=
  match chunks with
  | [] => Some (result, total_chars)
  | chunk :: chunks =>
      let chunk_chars := str_len (pi_text chunk) in
      chunk_tokens ← div_ceil chunk_chars (pk_chars_per_token config);
      if max_chars <? total_chars + chunk_chars then Some (result, total_chars)
      else budget_loop max_chars chunks (result ++ [to_packed chunk chunk_tokens])
             (total_chars + chunk_chars)
  end.

Definition build_output (chunks : list PackerInput) (duplicates_removed diversity_adjustments : Z) :
    option PackedContext :=
  let max_chars := as_u64 (pk_max_tokens config * pk_chars_per_token config) in
  '(result, total_chars) ← budget_loop max_chars chunks [] 0;
  total_tokens ← div_ceil total_chars (pk_chars_per_token config);
  Some (mkContext result total_tokens duplicates_removed diversity_adjustments).

Definition input_cmp : PackerInput → PackerInput → comparison :=
  score_desc pi_score (λ _ _, Eq).

Definition pack (chunks : list PackerInput) : option PackedContext :=
  match chunks with
  | [] => Some (mkContext [] 0 0 0)
  | _ =>
      let chunks := sort_by input_cmp chunks in
      let '(deduped, duplicates_removed) := deduplicate_by_hash chunks in
      let deduped := deduplicate_by_similarity deduped in
      let '(selected, diversity_adjustments) := mmr_select deduped in
      let selected := enforce_type_diversity selected in
      build_output selected duplicates_removed diversity_adjustments
  end.
End packer.

(* ------------------------------------------------------------------ *)
(** ** Deduplication *)

Lemma f32_mul_comm x y : f32_mul x y = f32_mul y x.
Proof.
  destruct x as [s|s| |s m e], y as [s'|s'| |s' m' e']; try done; unfold f32_mul, SFmul;
    rewrite (xorb_comm s s'); try done.
  by rewrite (Pos.mul_comm m), (Z.add_comm e).
Qed.

Lemma cosine_similarity_sym a b : cosine_similarity a b = cosine_similarity b a.
Proof.
  unfold cosine_similarity. rewrite (Nat.eqb_sym (length b)), orb_comm, f32_mul_comm.
  replace (zip_with f32_mul b a) with (zip_with f32_mul a b); [done|].
  revert b. induction a as [|x a IH]; intros [|y b]; cbn; try done. by rewrite f32_mul_comm, IH.
Qed.

Lemma too_similar_sym config x y : too_similar config x y = too_similar config y x.
Proof.
  unfold too_similar. destruct (pi_embedding x), (pi_embedding y); try done.
  by rewrite cosine_similarity_sym.
Qed.

#[export] Instance too_similar_symmetric config :
  Symmetric (λ x y, too_similar config x y = false).
Proof. intros x y H. by rewrite too_similar_sym. Qed.

(** What the hash loop has established after the chunks [l]. *)
Definition hash_inv (l : list PackerInput) (st : list PackerInput * gset string * Z) : Prop :=
  let '(r, seen, n) := st in
  r `sublist_of` l ∧ NoDup (map pi_hash r) ∧ (∀ h, h ∈ seen ↔ h ∈ map pi_hash r) ∧
  zlen r + n = zlen l ∧
  ∀ R, StronglySorted R l → ∀ c, c ∈ l → ∃ c', c' ∈ r ∧ pi_hash c' = pi_hash c ∧ (c' = c ∨ R c' c).

Lemma StronglySorted_app_inv {A} (R : A → A → Prop) (l k : list A) :
  StronglySorted R (l ++ k) →
  StronglySorted R l ∧ StronglySorted R k ∧ ∀ x y, x ∈ l → y ∈ k → R x y.
Proof.
  induction l as [|a l IH]; cbn; intros H.
  - split_and!; [constructor|done|]. intros x y Hx. by apply not_elem_of_nil in Hx.
  - inversion H as [|?? Hs Hf]; subst. apply IH in Hs as (S1 & S2 & S3).
    apply Forall_app in Hf as [F1 F2]. split_and!; [by constructor|done|].
    intros x y [->|Hx]%elem_of_cons Hy; [by eapply Forall_forall in F2|by apply S3].
Qed.

Lemma hash_step_inv l st c : hash_inv l st → hash_inv (l ++ [c]) (hash_step st c).
Proof.
  destruct st as [[r seen] n]. intros (Hsub & Hnd & Hseen & Hlen & Hrep). unfold hash_step.
  assert (Hold : ∀ R r', StronglySorted R (l ++ [c]) → r ⊆ r' → ∀ x, x ∈ l →
            ∃ c', c' ∈ r' ∧ pi_hash c' = pi_hash x ∧ (c' = x ∨ R c' x)).
  { intros R r' [Hs _]%StronglySorted_app_inv Hr x Hx.
    destruct (Hrep R Hs x Hx) as (c' & ? & ? & ?). exists c'. auto. }
  case_bool_decide as Hc; cbn; autorewrite with memd.
  - split_and!; [by apply sublist_inserts_r|done|done|lia|].
    intros R HR x [Hx| ->%list_elem_of_singleton]%elem_of_app; [by apply (Hold R r)|].
    apply Hseen, list_elem_of_fmap in Hc as (c' & E & Hc'). exists c'. split_and!; [done|done|right].
    apply StronglySorted_app_inv in HR as (_ & _ & HR). apply HR; [|by left].
    by apply (sublist_subseteq _ _ Hsub).
  - split_and!; [by apply sublist_app| | |lia|].
    + rewrite map_app. apply NoDup_app. split_and!; [done| |by apply NoDup_singleton].
      intros h Hh ->%list_elem_of_singleton. by apply Hc, Hseen.
    + intros h. rewrite elem_of_union, elem_of_singleton, map_app, elem_of_app, Hseen.
      cbn [map]. rewrite list_elem_of_singleton. tauto.
    + intros R HR x [Hx| ->%list_elem_of_singleton]%elem_of_app.
      * apply (Hold R (r ++ [c])); [done| |done]. intros y Hy. apply elem_of_app. by left.
      * exists c. split_and!; [apply elem_of_app; right; by left|done|by left].
Qed.

Lemma hash_loop_inv l : hash_inv l (foldl hash_step ([], ∅, 0) l).
Proof.
  induction l as [|c l IH] using rev_ind.
  - split_and!; try done; [constructor|set_solver|]. intros R _ c Hc. by apply not_elem_of_nil in Hc.
  - rewrite foldl_app. by apply hash_step_inv.
Qed.

(** No two chunks are too similar, in whatever order they are listed. *)
Definition dissimilar (config : PackerConfig) : list PackerInput → Prop :=
  ForallOrdPairs (λ x y, too_similar config x y = false).

Lemma ForallOrdPairs_app_1 {A} (R : A → A → Prop) l x :
  ForallOrdPairs R l → Forall (λ y, R y x) l → ForallOrdPairs R (l ++ [x]).
Proof.
  induction 1 as [|a l Ha Hl IH]; intros Hx; cbn; [repeat constructor|].
  inversion Hx; subst. constructor; [|by apply IH]. apply Forall_app. auto.
Qed.

Lemma ForallOrdPairs_Permutation {A} (R : A → A → Prop) `{!Symmetric R} l k :
  l ≡ₚ k → ForallOrdPairs R l → ForallOrdPairs R k.
Proof.
  induction 1 as [|x l k Hp IH|x y l|l m k H1 IH1 H2 IH2]; intros H; [done| | |auto].
  - inversion H; subst. constructor; [by rewrite <- Hp|auto].
  - inversion H as [|?? Hy Hl]; subst. inversion Hy as [|?? Hyx Hyl]; subst.
    inversion Hl as [|?? Hx Hl']; subst. repeat constructor; auto.
Qed.

Lemma dedup_similarity_spec config l :
  deduplicate_by_similarity config l `sublist_of` l ∧
  dissimilar config (deduplicate_by_similarity config l) ∧
  ∀ c, c ∈ l → c ∈ deduplicate_by_similarity config l ∨
               ∃ s, s ∈ deduplicate_by_similarity config l ∧ too_similar config c s = true.
Proof.
  unfold deduplicate_by_similarity.
  induction l as [|c l (IH1 & IH2 & IH3)] using rev_ind; cbn.
  - split_and!; [done|constructor|]. intros c Hc. by apply not_elem_of_nil in Hc.
  - rewrite foldl_app. cbn. set (r := foldl (similarity_step config) [] l) in *.
    unfold similarity_step. destruct (existsb (too_similar config c) r) eqn:E.
    + split_and!; [by apply sublist_inserts_r|done|].
      intros x [Hx| ->%list_elem_of_singleton]%elem_of_app; [by apply IH3|right].
      apply existsb_exists in E as (s & Hs & ?). exists s. by rewrite list_elem_of_In.
    + split_and!; [by apply sublist_app| |].
      * apply ForallOrdPairs_app_1; [done|]. apply Forall_forall. intros y Hy.
        rewrite too_similar_sym. destruct (too_similar config c y) eqn:Ey; [|done].
        rewrite <- E. symmetry. apply existsb_exists. exists y. by rewrite <- list_elem_of_In.
      * intros x [Hx| ->%list_elem_of_singleton]%elem_of_app.
        -- destruct (IH3 x Hx) as [?|(s & ? & ?)]; [left|right; exists s];
             rewrite ?elem_of_app; auto.
        -- left. apply elem_of_app. right. by left.
Qed.

(* ------------------------------------------------------------------ *)
(** ** Selection and budget *)

Section facts.
Context (config : PackerConfig).

Lemma mmr_scan_range mn sr sel idx cands best :
  let '(i, _, _) := mmr_scan config mn sr sel idx cands best in
  i = best.1.1 ∨ (idx ≤ i < idx + length cands)%nat.
Proof.
  revert idx best. induction cands as [|c cands IH]; intros idx [[bi bm] bw]; cbn; [by left|].
  match goal with |- context [mmr_scan _ _ _ _ _ _ ?b] => specialize (IH (S idx) b) end.
  destruct (mmr_scan _ _ _ _ _ _ _) as [[i m] w].
  destruct (f32_gt _ _); cbn in IH; lia.
Qed.

(** The loop only reorders, and its fuel is enough. *)
Lemma mmr_loop_perm fuel mn sr sel rem adj :
  length rem = fuel → (mmr_loop config fuel mn sr sel rem adj).1 ≡ₚ sel ++ rem.
Proof.
  revert sel rem adj. induction fuel as [|fuel IH]; intros sel rem adj Hl; cbn [mmr_loop].
  - apply length_zero_iff_nil in Hl as ->. by rewrite app_nil_r.
  - destruct rem as [|c0 rem0] eqn:Er; [done|]. rewrite <- Er in *.
    pose proof (mmr_scan_range mn sr sel 0 rem (O, f32_NEG_INFINITY, false)) as Hr.
    destruct (mmr_scan _ _ _ _ _ _ _) as [[i m] w]. cbn in Hr.
    destruct (lookup_lt_is_Some_2 rem i) as [c Hc]; [lia|]. rewrite Hc.
    rewrite IH by (rewrite length_app, length_take, length_drop; lia).
    rewrite <- (take_drop_middle rem i c Hc) at 3. solve_Permutation.
Qed.

Lemma mmr_select_perm chunks : (mmr_select config chunks).1 ≡ₚ chunks.
Proof. destruct chunks as [|c l]; [done|]. unfold mmr_select. by rewrite mmr_loop_perm. Qed.

Lemma enforce_type_diversity_id chunks : enforce_type_diversity config chunks = chunks.
Proof.
  unfold enforce_type_diversity. destruct (_ || _); [done|].
  generalize (filter (λ t, type_count chunks t < pk_min_per_type config)
    (remove_dups (map pi_chunk_type chunks))).
  intros l. induction l as [|t l IH]; cbn; [done|]. by case_match.
Qed.

Definition total_len (l : list PackerInput) : Z := foldr (λ c n, str_len (pi_text c) + n) 0 l.

Definition packed (c : PackerInput) : PackedChunk :=
  to_packed c ((str_len (pi_text c) + pk_chars_per_token config - 1) / pk_chars_per_token config).

Lemma budget_loop_spec max chunks res tot :
  0 < pk_chars_per_token config → tot ≤ max →
  ∃ kept rest, chunks = kept ++ rest ∧
    budget_loop config max chunks res tot = Some (res ++ map packed kept, tot + total_len kept) ∧
    tot + total_len kept ≤ max ∧
    ∀ c rest', rest = c :: rest' → max < tot + total_len kept + str_len (pi_text c).
Proof.
  intros Hc. revert res tot. induction chunks as [|c chunks IH]; intros res tot Ht.
  { exists [], []. cbn. rewrite app_nil_r, Z.add_0_r. done. }
  cbn [budget_loop]. unfold div_ceil. replace (pk_chars_per_token config =? 0) with false by lia.
  cbn [mbind option_bind]. destruct (Z.ltb_spec max (tot + str_len (pi_text c))).
  - exists [], (c :: chunks). cbn. rewrite app_nil_r, Z.add_0_r. split_and!; [done..|].
    by intros ?? [= <- <-].
  - edestruct (IH (res ++ [packed c]) (tot + str_len (pi_text c))) as (kept & rest & -> & E & Hle & Hn); [lia|].
    exists (c :: kept), rest. unfold packed in E at 1. rewrite E.
    change (total_len (c :: kept)) with (str_len (pi_text c) + total_len kept).
    split_and!; [done| |lia|].
    + rewrite <- app_assoc, Z.add_assoc. done.
    + intros c' rest' Hr. specialize (Hn c' rest' Hr). lia.
Qed.

Lemma total_len_nonneg l : 0 ≤ total_len l.
Proof.
  induction l as [|c l IH]; [done|].
  change (total_len (c :: l)) with (str_len (pi_text c) + total_len l). unfold str_len. lia.
Qed.
End facts.

(** What [pack] drops: [c] is represented in [l] by a chunk with the same
    text hash that scores at least as much, or one that is too similar to
    that chunk. *)
Definition represented (config : PackerConfig) (l : list PackerInput) (c : PackerInput) : Prop :=
  ∃ c1, pi_hash c1 = pi_hash c ∧ (c1 = c ∨ f32_le (pi_score c) (pi_score c1) = true) ∧
    (c1 ∈ l ∨ ∃ s, s ∈ l ∧ too_similar config c1 s = true).

#[export] Instance no_tie_total {A} : TotalOrderTie (λ _ _ : A, Eq).
Proof. by split. Qed.

Lemma input_cmp_score a b :
  scored pi_score a → scored pi_score b → cmp_le input_cmp a b →
  f32_le (pi_score b) (pi_score a) = true.
Proof.
  unfold scored, cmp_le, input_cmp, score_desc, f32_le, SFleb. intros Ha Hb.
  rewrite partial_cmp_key by done. rewrite SFcompare_key by done.
  by destruct (key_compare _ _).
Qed.

(** Packing is sound and maximal.  With a positive character estimate,
    [pack] returns; the chunks it deduplicates to ([kept ++ rest]) come from
    the input, no two share a hash or are too similar, and every input chunk
    is represented among them; the output is [kept], whose text fits the
    character budget and whose token estimate fits [max_tokens]; the first
    chunk left out would not have fitted; and [duplicates_removed] counts the
    chunks whose hash had been seen. *)
Lemma pack_sound (config : PackerConfig) (chunks : list PackerInput) :
  0 < pk_chars_per_token config → 0 ≤ pk_max_tokens config →
  in_u64 (pk_max_tokens config * pk_chars_per_token config) →
  Forall (scored pi_score) chunks →
  let budget := pk_max_tokens config * pk_chars_per_token config in
  ∃ ctx kept rest,
    pack config chunks = Some ctx ∧ px_chunks ctx = map (packed config) kept ∧
    (kept ++ rest ⊆+ chunks) ∧ NoDup (map pi_hash (kept ++ rest)) ∧
    dissimilar config (kept ++ rest) ∧
    (∀ c, c ∈ chunks → represented config (kept ++ rest) c) ∧
    total_len kept ≤ budget ∧ px_total_tokens ctx ≤ pk_max_tokens config ∧
    (∀ c rest', rest = c :: rest' → budget < total_len kept + str_len (pi_text c)) ∧
    px_duplicates_removed ctx =
      zlen chunks - Z.of_nat (size (list_to_set (map pi_hash chunks) : gset string)).
Proof.
  intros Hcpt Hmt Hu64 Hsc. cbn.
  destruct chunks as [|c0 l0] eqn:Ech.
  { exists (mkContext [] 0 0 0), [], []. cbn. split_and!; try done; try constructor; try lia.
    intros c Hc. by apply not_elem_of_nil in Hc. }
  rewrite <- Ech in *. replace (pack config chunks) with
    (let '(deduped, dr) := deduplicate_by_hash (sort_by input_cmp chunks) in
     let '(selected, da) := mmr_select config (deduplicate_by_similarity config deduped) in
     build_output config (enforce_type_diversity config selected) dr da) by (by rewrite Ech).
  set (sorted := sort_by input_cmp chunks).
  assert (Hp : sorted ≡ₚ chunks) by apply sort_by_Permutation.
  assert (HS : StronglySorted (cmp_le input_cmp) sorted).
  { by apply (sort_by_sorted _ (scored pi_score)). }
  pose proof (hash_loop_inv sorted) as Hh. unfold deduplicate_by_hash.
  destruct (foldl hash_step ([], ∅, 0) sorted) as [[r seen] n].
  destruct Hh as (Hsub & Hnd & Hseen & Hlen & Hrep).
  destruct (dedup_similarity_spec config r) as (Ssub & Sdis & Srep).
  set (d := deduplicate_by_similarity config r) in *.
  pose proof (mmr_select_perm config d) as Hm.
  destruct (mmr_select config d) as [sel da]. cbn in Hm. rewrite enforce_type_diversity_id.
  unfold build_output. rewrite as_u64_small by done.
  set (budget := pk_max_tokens config * pk_chars_per_token config) in *.
  destruct (budget_loop_spec config budget sel [] 0) as (kept & rest & -> & E & Hle & Hnext); [lia..|].
  rewrite E. cbn [mbind option_bind]. unfold div_ceil.
  replace (pk_chars_per_token config =? 0) with false by lia. cbn [mbind option_bind].
  eexists _, kept, rest. split_and!; [done|done| | | | |lia| | |]; cbn.
  - rewrite Hm, <- Hp. apply sublist_submseteq. by etrans.
  - rewrite Hm. eapply sublist_NoDup; [exact Hnd|]. by apply (fmap_sublist pi_hash).
  - by apply (ForallOrdPairs_Permutation _ d).
  - intros c Hc. assert (c ∈ sorted) as Hcs by by rewrite Hp.
    destruct (Hrep _ HS c Hcs) as (c1 & Hc1 & Eh & Hor). exists c1. split_and!; [done| |].
    + destruct Hor as [->|Hle']; [by left|right]. apply input_cmp_score; [| |done].
      * eapply Forall_forall; [exact Hsc|]. rewrite <- Hp. by apply (sublist_subseteq _ _ Hsub).
      * by eapply Forall_forall in Hsc.
    + rewrite Hm. setoid_rewrite Hm. by apply Srep.
  - apply Z.lt_succ_r, Z.div_lt_upper_bound; [lia|]. unfold budget in Hle. nia.
  - intros c rest' Hr. specialize (Hnext c rest' Hr). lia.
  - assert (list_to_set (map pi_hash chunks) =@{gset string} list_to_set (map pi_hash r)) as ->.
    { apply set_eq. intros h. rewrite !elem_of_list_to_set, <- Hp, !list_elem_of_fmap. split.
      - intros (c & -> & Hc). destruct (Hrep _ HS c Hc) as (c' & ? & ? & _). eauto.
      - intros (c & -> & Hc). exists c. split; [done|]. by apply (sublist_subseteq _ _ Hsub). }
    rewrite size_list_to_set, length_map by done. unfold zlen in *. rewrite <- Hp. lia.
Qed.

Definition sample_inputs : list PackerInput :=
  [mkPackerInput (mkChunkId 1) "alpha" Doc (f32_lit 1 2) "h1" None None;
   mkPackerInput (mkChunkId 2) "alpha" Doc (f32_lit 3 4) "h1" None None;
   mkPackerInput (mkChunkId 3) "beta gamma" Code (f32_lit 1 4) "h2" None None].

(** The duplicate goes, the better copy stays, and the budget of 2 tokens
    leaves room for one chunk. *)
Example pack_sample :
  (λ c, (map pc_chunk_id (px_chunks c), px_total_tokens c, px_duplicates_removed c)) <$>
    pack (mkPackerConfig 2 4 (f32_lit 7 10) (f32_lit 9 10) 1) sample_inputs =
  Some ([mkChunkId 2], 2, 1).
Proof. vm_compute. reflexivity. Qed.

Lemma pack_sound_witness :
  ∃ ctx kept rest,
    pack PackerConfig_default sample_inputs = Some ctx ∧ px_chunks ctx = map (packed PackerConfig_default) kept ∧
    (kept ++ rest ⊆+ sample_inputs) ∧ NoDup (map pi_hash (kept ++ rest)) ∧
    dissimilar PackerConfig_default (kept ++ rest) ∧
    (∀ c, c ∈ sample_inputs → represented PackerConfig_default (kept ++ rest) c) ∧
    total_len kept ≤ 4000 * 4 ∧ px_total_tokens ctx ≤ 4000 ∧
    (∀ c rest', rest = c :: rest' → 4000 * 4 < total_len kept + str_len (pi_text c)) ∧
    px_duplicates_removed ctx =
      zlen sample_inputs - Z.of_nat (size (list_to_set (map pi_hash sample_inputs) : gset string)).
Proof.
  apply (pack_sound PackerConfig_default sample_inputs).
  - reflexivity.
  - discriminate.
  - split; [discriminate|reflexivity].
  - unfold sample_inputs. repeat constructor.
Defined.
