(* ===== verification/Str.v ===== *)
(** * Rust strings as their UTF-8 bytes

    A [str] is the sequence of its bytes.  A character is the maximal run of
    a leading byte and the continuation bytes after it, which on valid UTF-8
    are exactly the characters; every byte string is the concatenation of its
    characters, so no validity hypothesis is needed.  [None] is a panic of
    the slicing operator. *)

From S2P Require Import Prelude Types.
From Stdlib Require Import Ascii.

Open Scope nat_scope.

(** [0x80..=0xBF]: [(b as i8) < -0x40] *)
Definition is_continuation (c : ascii) : bool :=
  let n := N_of_ascii c in ((128 <=? n) && (n <=? 191))%N.

(** [str::is_char_boundary] *)
Definition is_char_boundary (s : string) (i : nat) : bool :=
  match i with
  | O => true
  | _ => match String.get i s with
         | None => i =? String.length s
         | Some c => negb (is_continuation c)
         end
  end.

(** [&s[a..b]] *)
Definition str_slice (a b : nat) (s : string) : option string :=
  if (a <=? b) && is_char_boundary s a && is_char_boundary s b && (b <=? String.length s)
  then Some (String.substring a (b - a) s)
  else None.

(** [s.chars()]: each character as its bytes. *)
Fixpoint str_chars (s : string) : list string :=
  match s with
  | EmptyString => []
  | String c s =>
      match str_chars s with
      | [] => [String c ""]
      | String d d' :: cs =>
          if is_continuation d then String c (String d d') :: cs
          else String c "" :: String d d' :: cs
      | EmptyString :: cs => String c "" :: cs
      end
  end.

Fixpoint str_concat (l : list string) : string :=
  match l with [] => ""%string | s :: l => s +:+ str_concat l end.

(** [.join(sep)] *)
Fixpoint str_join (sep : string) (l : list string) : string :=
  match l with
  | [] => ""%string
  | [s] => s
  | s :: l => s +:+ sep +:+ str_join sep l
  end.

(** [s.chars().next().map(char::len_utf8).unwrap_or(1)] *)
Definition first_char_len (s : string) : nat :=
  match str_chars s with [] => 1 | c :: _ => String.length c end.

(** [s.find(pat)] *)
Definition str_find (pat s : string) : option nat := String.index 0 pat s.

(** The UTF-8 bytes of a character given as numbers. *)
Definition utf8 (l : list N) : string := foldr (λ n s, String (ascii_of_N n) s) ""%string l.

(** [char::is_whitespace]: the Unicode property [White_Space]. *)
Definition char_is_whitespace (c : string) : bool :=
  match c with
  | String a "" => let n := N_of_ascii a in (((9 <=? n) && (n <=? 13)) || (n =? 32))%N
  | _ =>
      bool_decide (c ∈
        [utf8 [194; 133]%N; utf8 [194; 160]%N; utf8 [225; 154; 128]%N;
         utf8 [226; 128; 128]%N; utf8 [226; 128; 129]%N; utf8 [226; 128; 130]%N;
         utf8 [226; 128; 131]%N; utf8 [226; 128; 132]%N; utf8 [226; 128; 133]%N;
         utf8 [226; 128; 134]%N; utf8 [226; 128; 135]%N; utf8 [226; 128; 136]%N;
         utf8 [226; 128; 137]%N; utf8 [226; 128; 138]%N; utf8 [226; 128; 168]%N;
         utf8 [226; 128; 169]%N; utf8 [226; 128; 175]%N; utf8 [226; 129; 159]%N;
         utf8 [227; 128; 128]%N])
  end.

Fixpoint drop_while (p : string → bool) (l : list string) : list string :=
  match l with
  | [] => []
  | c :: l' => if p c then drop_while p l' else l
  end.

(** [str::trim_start], [str::trim_end], [str::trim] *)
Definition str_trim_start (s : string) : string :=
  str_concat (drop_while char_is_whitespace (str_chars s)).
Definition str_trim_end (s : string) : string :=
  str_concat (reverse (drop_while char_is_whitespace (reverse (str_chars s)))).
Definition str_trim (s : string) : string := str_trim_end (str_trim_start s).

(** [s.ends_with(c)] for an ASCII character. *)
Definition ends_with (c : ascii) (s : string) : bool :=
  match last (chars s) with Some d => bool_decide (d = c) | None => false end.

(** [str::to_ascii_lowercase]: other bytes stay. *)
Definition ascii_lower (c : ascii) : ascii :=
  let n := N_of_ascii c in if ((65 <=? n) && (n <=? 90))%N then ascii_of_N (n + 32) else c.
Fixpoint to_ascii_lowercase (s : string) : string :=
  match s with EmptyString => ""%string | String c s => String (ascii_lower c) (to_ascii_lowercase s) end.

(** [s.split(p)] for a predicate on characters: the pieces between the
    characters it accepts, empty ones included. *)
Fixpoint split_chars (p : string → bool) (piece : string) (cs : list string) : list string :=
  match cs with
  | [] => [piece]
  | c :: cs => if p c then piece :: split_chars p "" cs else split_chars p (piece +:+ c) cs
  end.
Definition str_split (p : string → bool) (s : string) : list string := split_chars p "" (str_chars s).

(** A predicate on ASCII characters, on a character of any length. *)
Definition on_ascii (p : ascii → bool) (c : string) : bool :=
  match c with String a "" => p a | _ => false end.
Definition is_ascii_digit (c : ascii) : bool := let n := N_of_ascii c in ((48 <=? n) && (n <=? 57))%N.
Definition is_ascii_alphabetic (c : ascii) : bool :=
  let n := N_of_ascii c in (((65 <=? n) && (n <=? 90)) || ((97 <=? n) && (n <=? 122)))%N.

(* ------------------------------------------------------------------ *)
(** ** Facts *)

Abbreviation slen := String.length.

Lemma str_app_nil s : s +:+ "" = s.
Proof. induction s as [|c s IH]; [done|exact (f_equal (String c) IH)]. Qed.
Lemma str_app_assoc s t u : (s +:+ t) +:+ u = s +:+ (t +:+ u).
Proof. induction s as [|c s IH]; [done|exact (f_equal (String c) IH)]. Qed.
Lemma slen_app s t : slen (s +:+ t) = slen s + slen t.
Proof. induction s as [|c s IH]; [done|exact (f_equal S IH)]. Qed.
Lemma slen_0 s : slen s = 0 ↔ s = ""%string.
Proof. by destruct s. Qed.

Lemma str_concat_app l k : str_concat (l ++ k) = str_concat l +:+ str_concat k.
Proof. induction l as [|s l IH]; [done|]. cbn [str_concat app]. by rewrite IH, str_app_assoc. Qed.

(** A block of a concatenation, at its position. *)
Lemma substring_mid a b c i n :
  i = slen a → n = slen b → String.substring i n (a +:+ (b +:+ c)) = b.
Proof.
  intros -> ->. induction a as [|x a IH]; [|done]. cbn.
  induction b as [|y b IH]; [by destruct c|exact (f_equal (String y) IH)].
Qed.

Lemma substring_suffix a b i n :
  i = slen a → n = slen b → String.substring i n (a +:+ b) = b.
Proof.
  intros Hi Hn. pose proof (substring_mid a b "" i n Hi Hn) as E. by rewrite str_app_nil in E.
Qed.

Lemma substring_split i n s :
  i + n ≤ slen s →
  ∃ a c, s = a +:+ (String.substring i n s +:+ c) ∧ slen a = i ∧ slen (String.substring i n s) = n.
Proof.
  revert i n. induction s as [|x s IH]; intros i n H; cbn in H.
  - destruct i, n; try lia. by exists ""%string, ""%string.
  - destruct i as [|i].
    + destruct n as [|n]; [by exists ""%string, (String x s)|].
      destruct (IH 0 n ltac:(lia)) as (a & c & E & Ha & Hn). apply slen_0 in Ha as ->.
      exists ""%string, c. cbn in *. split_and!; [exact (f_equal (String x) E)|done|lia].
    + destruct (IH i n ltac:(lia)) as (a & c & E & Ha & Hn).
      exists (String x a), c. cbn in *. split_and!; [exact (f_equal (String x) E)|lia|done].
Qed.

Lemma slen_substring i n s : i + n ≤ slen s → slen (String.substring i n s) = n.
Proof. intros H. by destruct (substring_split i n s H) as (? & ? & _ & _ & ?). Qed.

(** Consecutive slices concatenate. *)
Lemma substring_app_next i n m s :
  i + n + m ≤ slen s →
  String.substring i n s +:+ String.substring (i + n) m s = String.substring i (n + m) s.
Proof.
  intros H. destruct (substring_split i n s ltac:(lia)) as (a & c & E & Ha & Hn).
  assert (slen s = i + n + slen c) as Hs by (rewrite E, !slen_app; lia).
  destruct (substring_split 0 m c ltac:(lia)) as (a' & c' & E' & Ha' & Hm).
  apply slen_0 in Ha' as ->. set (x := String.substring i n s) in *.
  set (y := String.substring 0 m c) in *. change (c = y +:+ c') in E'. rewrite E' in E.
  transitivity (x +:+ y).
  - f_equal. rewrite E. rewrite <- (str_app_assoc a). apply substring_mid; rewrite ?slen_app; lia.
  - symmetry. rewrite E, <- (str_app_assoc x). apply substring_mid; rewrite ?slen_app; lia.
Qed.

Lemma substring_all s : String.substring 0 (slen s) s = s.
Proof. induction s as [|c s IH]; [done|exact (f_equal (String c) IH)]. Qed.

Lemma str_chars_nonempty s : Forall (λ c, c ≠ ""%string) (str_chars s).
Proof.
  induction s as [|c s IH]; [constructor|]. cbn.
  destruct (str_chars s) as [|[|d d'] cs]; [by constructor| |].
  - inversion IH; subst. by constructor.
  - inversion IH; subst. destruct (is_continuation d); by repeat constructor.
Qed.

Lemma str_chars_concat s : str_concat (str_chars s) = s.
Proof.
  induction s as [|c s IH]; [done|]. cbn [str_chars].
  destruct (str_chars s) as [|[|d d'] cs]; cbn [str_concat] in IH.
  - by rewrite <- IH.
  - by rewrite <- IH.
  - rewrite <- IH. by destruct (is_continuation d).
Qed.

Definition leads (c : string) : Prop :=
  match c with "" => True | String d _ => is_continuation d = false end.

Lemma str_chars_leads s : Forall leads (tail (str_chars s)).
Proof.
  induction s as [|c s IH]; [constructor|]. cbn.
  destruct (str_chars s) as [|[|d d'] cs]; cbn in *; [done|done|].
  destruct (is_continuation d) eqn:E; cbn; [done|]. by constructor.
Qed.

(** After the first character comes the end or a leading byte. *)
Lemma str_chars_first s c cs :
  str_chars s = c :: cs → s = c +:+ str_concat cs ∧ 0 < slen c ∧ leads (str_concat cs).
Proof.
  intros E. pose proof (str_chars_nonempty s) as Hne. pose proof (str_chars_leads s) as Hl.
  rewrite E in Hne, Hl. inversion Hne as [|?? Hc Hcs]; subst. split_and!.
  - by rewrite <- (str_chars_concat s), E.
  - by destruct c; [|cbn; lia].
  - destruct cs as [|[|d d'] cs]; [done|by inversion Hcs|]. by inversion Hl.
Qed.

Lemma get_app_r a b i : String.get (slen a + i) (a +:+ b) = String.get i b.
Proof. induction a as [|x a IH]; [done|exact IH]. Qed.

Lemma get_0 s : String.get 0 s = match s with "" => None | String c _ => Some c end.
Proof. by destruct s. Qed.

(** The boundary test behind a prefix. *)
Lemma is_char_boundary_app a b :
  is_char_boundary (a +:+ b) (slen a) = true ↔
  a = ""%string ∨ leads b.
Proof.
  unfold is_char_boundary. destruct (slen a) as [|n] eqn:E.
  - apply slen_0 in E. naive_solver.
  - assert (a ≠ ""%string) by (intros ->; done).
    rewrite <- E. replace (slen a) with (slen a + 0) at 1 by lia. rewrite get_app_r, get_0, slen_app.
    destruct b as [|c b]; [cbn; rewrite Nat.add_0_r, Nat.eqb_refl; naive_solver|].
    rewrite negb_true_iff. unfold leads. naive_solver.
Qed.

Lemma boundary_next s off :
  off < slen s → is_char_boundary s off = true →
  let rest := String.substring off (slen s - off) s in
  off < off + first_char_len rest ≤ slen s ∧
  is_char_boundary s (off + first_char_len rest) = true.
Proof.
  intros Hlt Hb rest. destruct (substring_split off (slen s - off) s ltac:(lia)) as (a & z & E & Ha & Hn).
  fold rest in E, Hn. assert (z = ""%string) as ->.
  { apply slen_0. assert (slen s = off + (slen s - off) + slen z) by (rewrite E at 1; rewrite !slen_app; lia). lia. }
  rewrite str_app_nil in E. unfold first_char_len.
  destruct (str_chars rest) as [|c cs] eqn:Ec.
  { rewrite <- (str_chars_concat rest), Ec in Hn. cbn in Hn. lia. }
  apply str_chars_first in Ec as (Er & Hc & Hd). rewrite Er in Hn. rewrite slen_app in Hn.
  split; [lia|]. rewrite E, Er, <- str_app_assoc.
  replace (off + slen c) with (slen (a +:+ c)) by (rewrite slen_app; lia).
  apply is_char_boundary_app. by right.
Qed.

Lemma is_char_boundary_end s : is_char_boundary s (slen s) = true.
Proof. rewrite <- (str_app_nil s) at 1. apply is_char_boundary_app. by right. Qed.

Lemma str_slice_ok a b s :
  a ≤ b ≤ slen s → is_char_boundary s a = true → is_char_boundary s b = true →
  str_slice a b s = Some (String.substring a (b - a) s).
Proof.
  intros H Ha Hb. unfold str_slice. rewrite Ha, Hb.
  by rewrite (proj2 (Nat.leb_le a b)), (proj2 (Nat.leb_le b (slen s))) by lia.
Qed.

(** *** Trimming takes a substring *)

Lemma drop_while_suffix p l : ∃ pre, l = pre ++ drop_while p l ∧ Forall (λ c, p c = true) pre.
Proof.
  induction l as [|c l (pre & E & F)]; [by exists []|]. cbn.
  destruct (p c) eqn:Ec; [|by exists []]. exists (c :: pre). split; [by rewrite <- app_comm_cons, <- E|by constructor].
Qed.

Lemma str_trim_start_suffix s : ∃ a, s = a +:+ str_trim_start s.
Proof.
  destruct (drop_while_suffix char_is_whitespace (str_chars s)) as (pre & E & _).
  exists (str_concat pre). unfold str_trim_start.
  rewrite <- str_concat_app, <- E. symmetry. apply str_chars_concat.
Qed.

Lemma str_trim_end_prefix s : ∃ b, s = str_trim_end s +:+ b.
Proof.
  destruct (drop_while_suffix char_is_whitespace (reverse (str_chars s))) as (pre & E & _).
  exists (str_concat (reverse pre)). unfold str_trim_end.
  rewrite <- str_concat_app, <- reverse_app, <- E, reverse_involutive.
  symmetry. apply str_chars_concat.
Qed.

(** The trimmed text, with the length of the white space before it. *)
Lemma str_trim_spec s :
  ∃ a b, s = a +:+ (str_trim s +:+ b) ∧ slen a = slen s - slen (str_trim_start s).
Proof.
  destruct (str_trim_start_suffix s) as [a Ea], (str_trim_end_prefix (str_trim_start s)) as [b Eb].
  exists a, b. fold (str_trim s) in Eb. split; [by rewrite <- Eb|].
  assert (slen s = slen a + slen (str_trim_start s)) by (rewrite Ea at 1; apply slen_app). lia.
Qed.

(* ------------------------------------------------------------------ *)
(** ** Valid UTF-8 *)

(** The number of bytes a leading byte announces. *)
Definition char_width (d : ascii) : nat :=
  let n := N_of_ascii d in
  if (n <? 128)%N then 1 else if (n <? 192)%N then 0 else if (n <? 224)%N then 2
  else if (n <? 240)%N then 3 else if (n <? 248)%N then 4 else 0.

Definition valid_char (c : string) : bool :=
  match c with
  | EmptyString => false
  | String d _ => negb (is_continuation d) && (slen c =? char_width d)
  end.

(** Every character has the length its leading byte announces; a Rust [str]
    always satisfies this. *)
Definition valid_utf8 (s : string) : bool := forallb valid_char (str_chars s).

Lemma str_chars_leads_cons d s :
  is_continuation d = false → ∃ d' cs, str_chars (String d s) = String d d' :: cs.
Proof.
  intros E. cbn. destruct (str_chars s) as [|[|x x'] cs]; eauto. destruct (is_continuation x); eauto.
Qed.

Lemma str_chars_app a b : leads b → str_chars (a +:+ b) = str_chars a ++ str_chars b.
Proof.
  intros Hb. induction a as [|c a IH]; [done|].
  change (str_chars (String c a +:+ b)) with (str_chars (String c (a +:+ b))).
  cbn [str_chars]. rewrite IH. destruct (str_chars a) as [|[|d d'] cs] eqn:Ea; cbn.
  - destruct b as [|d b]; [done|]. destruct (str_chars_leads_cons d b Hb) as (d' & cs & ->).
    cbn in Hb. by rewrite Hb.
  - done.
  - by destruct (is_continuation d).
Qed.

Lemma valid_utf8_app a b :
  leads b → valid_utf8 (a +:+ b) = true ↔ valid_utf8 a = true ∧ valid_utf8 b = true.
Proof.
  intros Hb. unfold valid_utf8. rewrite str_chars_app, forallb_app, andb_true_iff by done. done.
Qed.

Lemma valid_utf8_leads s : valid_utf8 s = true → leads s.
Proof.
  unfold valid_utf8. intros H. destruct s as [|d s]; [done|]. cbn.
  destruct (is_continuation d) eqn:E; [|done]. exfalso. revert H. cbn.
  destruct (str_chars s) as [|[|x x'] cs]; cbn; rewrite ?E; try done.
  destruct (is_continuation x); cbn; by rewrite E.
Qed.

Lemma str_app_inj_len a b c d : a +:+ b = c +:+ d → slen a = slen c → a = c ∧ b = d.
Proof.
  revert c. induction a as [|x a IH]; intros [|y c] E Hl; try done.
  injection E as -> E. injection Hl as Hl. destruct (IH c E Hl) as [-> ->]. done.
Qed.

(** UTF-8 is self-synchronising: where a valid text occurs inside a valid
    text, it ends between characters. *)
Lemma valid_match_end p r :
  p ≠ ""%string → valid_utf8 p = true → valid_utf8 (p +:+ r) = true → leads r.
Proof.
  remember (str_chars p) as cs eqn:Ecs. revert p Ecs.
  induction cs as [|c cs IH]; intros p Ecs Hne Hp Hpr.
  { pose proof (str_chars_concat p) as E. rewrite <- Ecs in E. by cbn in E. }
  symmetry in Ecs. pose proof (str_chars_first p c cs Ecs) as (Ep & Hc & Hl).
  pose proof Hp as Hp'. unfold valid_utf8 in Hp'. rewrite Ecs in Hp'. cbn in Hp'.
  apply andb_true_iff in Hp' as [Vc Vcs].
  destruct (decide (str_concat cs = ""%string)) as [E|E].
  - rewrite E, str_app_nil in Ep. subst c.
    destruct (str_chars (p +:+ r)) as [|x xs] eqn:Ex.
    { pose proof (str_chars_concat (p +:+ r)) as Epr. rewrite Ex in Epr. by destruct p. }
    pose proof (str_chars_first _ _ _ Ex) as (Epr & Hx & Hxs).
    unfold valid_utf8 in Hpr. rewrite Ex in Hpr. cbn in Hpr. apply andb_true_iff in Hpr as [Vx _].
    destruct p as [|d p]; [done|]. destruct x as [|d2 x]; [done|].
    injection Epr as <- Epr. unfold valid_char in Vc, Vx.
    apply andb_true_iff in Vc as [_ Vc%Nat.eqb_eq]. apply andb_true_iff in Vx as [_ Vx%Nat.eqb_eq].
    destruct (str_app_inj_len p r x (str_concat xs)) as [_ ->]; [done|cbn in Vc, Vx; lia|done].
  - assert (leads (str_concat cs +:+ r)) as Hl2 by by destruct (str_concat cs).
    assert (Hcs : str_chars (str_concat cs) = cs).
    { rewrite Ep, str_chars_app in Ecs by done.
      destruct (str_chars c) as [|c1 [|c2 cc]] eqn:Ec.
      - pose proof (str_chars_concat c) as Hcc. rewrite Ec in Hcc. cbn in Hcc. subst c. cbn in Hc. lia.
      - cbn in Ecs. by injection Ecs.
      - exfalso. cbn in Ecs. injection Ecs as -> Hcs. pose proof (str_chars_concat c) as Hcc.
        rewrite Ec in Hcc. cbn in Hcc. pose proof (str_chars_nonempty c) as Hn. rewrite Ec in Hn.
        inversion Hn as [|?? _ Hn2]; subst. inversion Hn2 as [|?? Hc2 _]; subst.
        apply (f_equal slen) in Hcc. rewrite !slen_app in Hcc. destruct c2; [done|cbn in Hcc; lia]. }
    apply (IH (str_concat cs)); [done|done| |].
    + unfold valid_utf8. by rewrite Hcs.
    + rewrite Ep, str_app_assoc in Hpr. by apply valid_utf8_app in Hpr as [_ ?].
Qed.

(** Two ways to cut a string. *)
Lemma str_app_cut a b c d :
  a +:+ b = c +:+ d → slen c ≤ slen a → ∃ m, a = c +:+ m ∧ d = m +:+ b.
Proof.
  revert c. induction a as [|x a IH]; intros [|y c] E Hl; cbn in Hl; try lia.
  - by exists ""%string.
  - by exists (String x a).
  - injection E as -> E. destruct (IH c E ltac:(lia)) as (m & -> & ->). by exists m.
Qed.

(** [find] returns the first occurrence, and there is one if there is one. *)
Lemma str_find_occurs p g r :
  ∃ n a b, str_find p (g +:+ (p +:+ r)) = Some n ∧ n ≤ slen g ∧
    g +:+ (p +:+ r) = a +:+ (p +:+ b) ∧ slen a = n.
Proof.
  unfold str_find. set (s := g +:+ (p +:+ r)).
  assert (Hocc : String.substring (slen g) (slen p) s = p) by by apply substring_mid.
  destruct (String.index 0 p s) as [n|] eqn:E.
  - pose proof (String.index_correct1 0 n p s E) as H1.
    assert (n ≤ slen g) as Hn.
    { destruct (decide (n ≤ slen g)) as [|H]; [done|]. exfalso.
      by apply (String.index_correct2 0 n p s E (slen g)); [lia|lia|]. }
    destruct (substring_split n (slen p) s) as (a & b & Es & Ha & _).
    { unfold s. rewrite !slen_app. lia. }
    rewrite H1 in Es. by exists n, a, b.
  - exfalso. destruct (decide (p = ""%string)) as [->|Hp].
    + by destruct s.
    + by apply (String.index_correct3 0 (slen g) p s E Hp); [lia|].
Qed.

(** Characters of a piece of a valid text have at most four bytes. *)
Definition chars_le4 (s : string) : Prop := Forall (λ c, slen c ≤ 4) (str_chars s).

Lemma chars_le4_valid s : valid_utf8 s = true → chars_le4 s.
Proof.
  unfold valid_utf8, chars_le4. rewrite forallb_forall. intros V. apply Forall_forall.
  intros c Hc%list_elem_of_In%V. destruct c as [|d c]; [cbn; lia|]. unfold valid_char in Hc.
  apply andb_true_iff in Hc as [_ Hc%Nat.eqb_eq]. rewrite Hc. unfold char_width.
  repeat case_match; lia.
Qed.

Lemma chars_le4_drop a t : chars_le4 (a +:+ t) → chars_le4 t.
Proof.
  induction a as [|c a IH]; [done|]. intros H. apply IH. revert H. unfold chars_le4.
  change (String c a +:+ t) with (String c (a +:+ t)). cbn [str_chars].
  pose proof (str_chars_nonempty (a +:+ t)) as Hn.
  destruct (str_chars (a +:+ t)) as [|[|d d'] cs]; intros H; [constructor|by inversion Hn|].
  destruct (is_continuation d); inversion H as [|?? H1 H2]; subst; [|exact H2].
  constructor; [cbn in *; lia|exact H2].
Qed.

(** Cutting off an end shortens at most the last character. *)
Lemma str_chars_app_head t b c cs :
  str_chars t = c :: cs →
  ∃ c' cs', str_chars (t +:+ b) = (c +:+ c') :: cs' ∧ (chars_le4 (t +:+ b) → Forall (λ c, slen c ≤ 4) cs).
Proof.
  revert c cs. induction t as [|x t IH]; intros c cs E; [done|].
  change (String x t +:+ b) with (String x (t +:+ b)). unfold chars_le4. cbn [str_chars] in *.
  destruct (str_chars t) as [|d ds] eqn:Et.
  - assert (t = ""%string) as -> by (rewrite <- (str_chars_concat t), Et; done).
    injection E as <- <-. change ("" +:+ b) with b. destruct (str_chars b) as [|[|y y'] ys].
    + by exists ""%string, [].
    + by exists ""%string, ys.
    + destruct (is_continuation y); [by exists (String y y'), ys|by exists ""%string, (String y y' :: ys)].
  - pose proof (str_chars_nonempty t) as Hn. rewrite Et in Hn. destruct d as [|y y']; [by inversion Hn|].
    destruct (IH _ _ eq_refl) as (c2 & cs2 & E2 & Hle). unfold chars_le4 in Hle. rewrite E2 in Hle |- *.
    change (String y y' +:+ c2) with (String y (y' +:+ c2)) in *. cbv beta iota.
    destruct (is_continuation y) eqn:Ey; injection E as <- <-.
    + exists c2, cs2. split; [done|]. intros H. inversion H as [|?? H1 H2]; subst. apply Hle.
      constructor; [cbn in *; lia|done].
    + exists ""%string, (String y (y' +:+ c2) :: cs2). split; [done|]. intros H.
      inversion H as [|?? H1 H2]; subst. constructor; [|by apply Hle].
      inversion H2 as [|?? H3 _]; subst. cbn in *. rewrite slen_app in H3. lia.
Qed.

Lemma chars_le4_take t b : chars_le4 (t +:+ b) → chars_le4 t.
Proof.
  intros H. unfold chars_le4. destruct (str_chars t) as [|c cs] eqn:E; [constructor|].
  destruct (str_chars_app_head t b c cs E) as (c' & cs' & E' & Hle).
  constructor; [|by apply Hle]. unfold chars_le4 in H. rewrite E' in H.
  inversion H as [|?? H1 _]; subst. rewrite slen_app in H1. lia.
Qed.

Lemma chars_le4_substring i n s : i + n ≤ slen s → chars_le4 s → chars_le4 (String.substring i n s).
Proof.
  intros H Hs. destruct (substring_split i n s H) as (a & c & E & _).
  rewrite E in Hs. by eapply chars_le4_take, chars_le4_drop.
Qed.

Lemma first_char_len_le4 s : chars_le4 s → first_char_len s ≤ 4.
Proof. unfold chars_le4, first_char_len. intros H. destruct H; lia. Qed.
