(* ===== verification/Sentence.v ===== *)
(** * Sentence splitting (src/crates/memd/src/text/sentence.rs)

    Lines with their byte offsets, the code-line heuristic, grouping of code
    blocks, and prose split by the unicode-segmentation crate.  [None] is a
    panic of a slice. *)

From S2P Require Import Prelude Types Str.
From Stdlib Require Import Ascii.

Open Scope nat_scope.

(** unicode-segmentation: [UnicodeSegmentation::unicode_sentences] yields, in
    order, disjoint substrings of its argument. *)
Class UnicodeSegmentation : Type := { unicode_sentences : string → list string }.

Inductive in_order : list string → string → Prop :=
| in_order_nil s : in_order [] s
| in_order_cons g p ps r : leads p → leads r → in_order ps r → in_order (p :: ps) (g +:+ (p +:+ r)).

Class UnicodeSegmentationLaws `{UnicodeSegmentation} : Prop := {
  unicode_sentences_in_order line :
    valid_utf8 line = true → in_order (unicode_sentences line) line;
}.

Record Sentence : Type := mkSentence {
  sent_text : string;
  sent_offset : nat;
  sent_is_code : bool;
}.

Record LineSlice : Type := mkLine { ls_text : string; ls_start : nat }.

Definition newline : ascii := ascii_of_nat 10.

(** The loop over [char_indices]; a line feed is a byte of its own. *)
Fixpoint split_lines_from (text rest : string) (idx line_start : nat) : list LineSlice :=
  match rest with
  | EmptyString =>
      if line_start <? slen text
      then [mkLine (String.substring line_start (slen text - line_start) text) line_start]
      else []
  | String ch rest =>
      if bool_decide (ch = newline)
      then mkLine (String.substring line_start (idx - line_start) text) line_start
           :: split_lines_from text rest (S idx) (S idx)
      else split_lines_from text rest (S idx) line_start
  end.

Definition split_lines_with_offsets (text : string) : list LineSlice :=
  match text with
  | EmptyString => []
  | _ => split_lines_from text text 0 0
  end.

Definition code_patterns : list string :=
  ["{"; "}"; "["; "]"; ";"; "fn "; "func "; "def "; "async fn"; "pub fn"; "pub(crate)";
   "let "; "const "; "var "; "mut "; "=>"; "->"; "::"; ".unwrap()"; ".await";
   "use "; "import "; "from "; "require("; "if ("; "for ("; "while ("; "match "; "switch (";
   "//"; "/*"; "*/"; "#["; ": &"; ": Vec<"; ": String"; ": i32"; ": u32";
   "-> Result"; "-> Option"]%string.

Definition tab : string := String (ascii_of_nat 9) "".

Definition is_code_line (line : string) : bool :=
  let trimmed := str_trim line in
  if bool_decide (trimmed = ""%string) then false
  else if existsb (λ pattern, string_contains pattern trimmed) code_patterns then true
  else if String.prefix "function " trimmed || String.prefix "async function " trimmed then true
  else if (String.prefix "    " line || String.prefix tab line)
          && (string_contains "=" trimmed || string_contains "(" trimmed || string_contains "." trimmed)
  then true
  else if (ends_with "{" trimmed || ends_with "}" trimmed || ends_with ";" trimmed
           || ends_with ")" trimmed || ends_with "," trimmed)
          && (negb (string_contains " " trimmed)
              || string_contains "(" trimmed && string_contains ")" trimmed)
  then true
  else false.

Definition is_blank (line : string) : bool := bool_decide (str_trim line = ""%string).

(** The inner [while]: the lines that continue a code block. *)
Fixpoint take_block (lines : list LineSlice) : list string * list LineSlice :=
  match lines with
  | [] => ([], [])
  | next_line :: rest =>
      if is_code_line (ls_text next_line) || is_blank (ls_text next_line)
      then let '(block, rest) := take_block rest in (ls_text next_line :: block, rest)
      else ([], lines)
  end.

(** Popping trailing blank lines. *)
Fixpoint pop_blank (l : list string) : list string :=
  match l with
  | [] => []
  | x :: l => match pop_blank l with
              | [] => if is_blank x then [] else [x]
              | l' => x :: l'
              end
  end.

(** The loop over the prose sentences of one line. *)
Fixpoint prose_loop (line : LineSlice) (pieces : list string) (cursor : nat) :
    option (list Sentence) :=
  match pieces with
  | [] => Some []
  | sent :: pieces =>
      let sent_trimmed := str_trim sent in
      tail ← str_slice cursor (slen (ls_text line)) (ls_text line);
      let relative_start :=
        match str_find sent tail with Some pos => cursor + pos | None => cursor end in
      let cursor := relative_start + slen sent in
      rest ← prose_loop line pieces cursor;
      if bool_decide (sent_trimmed = ""%string) then Some rest
      else
        let leading_ws := slen sent - slen (str_trim_start sent) in
        Some (mkSentence sent_trimmed (ls_start line + relative_start + leading_ws) false :: rest)
  end.

Section split.
Context `{UnicodeSegmentation}.

(** The loop over the lines; every turn consumes at least one. *)
Fixpoint split_loop (fuel : nat) (lines : list LineSlice) : option (list Sentence) :=
  match fuel, lines with
  | _, [] => Some []
  | O, _ => Some []
  | S fuel, line :: lines =>
      if is_code_line (ls_text line) then
        let '(block, rest) := take_block lines in
        let code_lines := pop_blank (ls_text line :: block) in
        sentences ← split_loop fuel rest;
        match code_lines with
        | [] => Some sentences
        | _ => Some (mkSentence (str_join (String newline "") code_lines) (ls_start line) true :: sentences)
        end
      else
        prose ← prose_loop line (unicode_sentences (ls_text line)) 0;
        sentences ← split_loop fuel lines;
        Some (prose ++ sentences)
  end.

Definition split (text : string) : option (list Sentence) :=
  let lines := split_lines_with_offsets text in
  split_loop (length lines) lines.
End split.

(* ------------------------------------------------------------------ *)
(** ** Where sentences lie *)

(** [ss] are non-empty pieces of [text], in order, disjoint, at or after
    [lo], each found at its offset and cut between characters. *)
Fixpoint placed (text : string) (lo : nat) (ss : list Sentence) : Prop :=
  match ss with
  | [] => True
  | s :: ss =>
      lo ≤ sent_offset s ∧ 0 < slen (sent_text s) ∧
      (∃ a b, text = a +:+ (sent_text s +:+ b) ∧ slen a = sent_offset s) ∧
      placed text (sent_offset s + slen (sent_text s)) ss
  end.

Lemma placed_weaken text lo lo' ss : lo' ≤ lo → placed text lo ss → placed text lo' ss.
Proof. destruct ss as [|s ss]; [done|]. cbn. intros ? (? & ? & ? & ?). split_and!; [lia|done..]. Qed.

(** The end of the last sentence. *)
Fixpoint ends_at (lo : nat) (ss : list Sentence) : nat :=
  match ss with [] => lo | s :: ss => ends_at (sent_offset s + slen (sent_text s)) ss end.

Lemma placed_app text lo ss ss' :
  placed text lo ss → placed text (ends_at lo ss) ss' → placed text lo (ss ++ ss').
Proof.
  revert lo. induction ss as [|s ss IH]; intros lo; cbn; [done|].
  intros (? & ? & ? & H) H'. split_and!; [done..|]. by apply IH.
Qed.

(** The lines of [rest], which starts at offset [off]. *)
Inductive lines_at : nat → list LineSlice → string → Prop :=
| lines_nil off : lines_at off [] ""
| lines_last off t : t ≠ ""%string → lines_at off [mkLine t off] t
| lines_cons off t L r :
    lines_at (off + slen t + 1) L r → lines_at off (mkLine t off :: L) (t +:+ String newline r).

Lemma split_lines_from_spec text pre t rest :
  text = pre +:+ (t +:+ rest) →
  lines_at (slen pre) (split_lines_from text rest (slen pre + slen t) (slen pre)) (t +:+ rest).
Proof.
  revert pre t. induction rest as [|c rest IH]; intros pre t E; cbn [split_lines_from].
  - rewrite str_app_nil in *. assert (slen text = slen pre + slen t) as Hl by (rewrite E, slen_app; lia).
    destruct (Nat.ltb_spec (slen pre) (slen text)).
    + assert (String.substring (slen pre) (slen text - slen pre) text = t) as ->.
      { rewrite E. apply substring_suffix; [done|rewrite slen_app; lia]. }
      constructor. intros ->. cbn in Hl. lia.
    + assert (t = ""%string) as -> by (apply slen_0; lia). constructor.
  - case_bool_decide as Hc.
    + subst c. assert (String.substring (slen pre) (slen pre + slen t - slen pre) text = t) as ->.
      { rewrite E. apply substring_mid; lia. }
      constructor.
      specialize (IH (pre +:+ (t +:+ String newline "")) "").
      rewrite !slen_app in IH. cbn [slen] in IH.
      replace (slen pre + (slen t + 1) + 0) with (S (slen pre + slen t)) in IH by lia.
      replace (slen pre + (slen t + 1)) with (slen pre + slen t + 1) in IH by lia.
      replace (slen pre + slen t + 1) with (S (slen pre + slen t)) in * by lia.
      apply IH. rewrite E, !str_app_assoc. done.
    + specialize (IH pre (t +:+ String c "")). rewrite str_app_assoc in IH.
      change (String c "" +:+ rest) with (String c rest) in IH.
      rewrite slen_app in IH. cbn [slen] in IH.
      replace (slen pre + (slen t + 1)) with (S (slen pre + slen t)) in IH by lia. by apply IH.
Qed.

Lemma split_lines_spec text : lines_at 0 (split_lines_with_offsets text) text.
Proof.
  unfold split_lines_with_offsets. destruct text as [|c text]; [constructor|].
  apply (split_lines_from_spec (String c text) "" "" (String c text)). done.
Qed.

Lemma prose_loop_spec text pre L post start pieces y x u :
  text = pre +:+ (L +:+ post) → slen pre = start →
  L = y +:+ (x +:+ u) → valid_utf8 (x +:+ u) = true → valid_utf8 u = true → in_order pieces u →
  ∃ ss, prose_loop (mkLine L start) pieces (slen y) = Some ss ∧
    placed text (start + slen y) ss ∧ ends_at (start + slen y) ss ≤ start + slen L.
Proof.
  intros Et Hs EL Vxu Vu Ho. revert y x EL Vxu Vu. induction Ho as [u|g p ps r Hp Hr Ho IH];
    intros y x EL Vxu Vu.
  { exists []. split_and!; [done..|]. cbn. rewrite EL, slen_app. lia. }
  assert (Hpr : leads (p +:+ r)) by by destruct p.
  apply valid_utf8_app in Vu as [Vg [Vp Vr]%valid_utf8_app]; [|done..].
  destruct (str_find_occurs p (x +:+ g) r) as (n & a & b & Ef & Hn & Eab & Ha).
  rewrite str_app_assoc in Ef, Eab.
  destruct (str_app_cut (x +:+ (g +:+ p)) r (a +:+ p) b) as (x' & Ecut & ->).
  { rewrite !str_app_assoc. by rewrite <- Eab. }
  { rewrite !slen_app in *. lia. }
  assert (Vb : valid_utf8 (x' +:+ r) = true).
  { rewrite Eab in Vxu. destruct (decide (p = ""%string)) as [->|Hne].
    - assert (∀ s, str_find "" s = Some 0) as F0 by by intros [].
      rewrite F0 in Ef. injection Ef as <-. apply slen_0 in Ha as ->. done.
    - apply valid_utf8_app in Vxu as [_ V]; [|by destruct p].
      pose proof (valid_match_end p (x' +:+ r) Hne Vp V) as Hl. by apply valid_utf8_app in V as [_ ?]. }
  destruct (IH (y +:+ (a +:+ p)) x') as (ss & E & Hpl & He); [|done|done|].
  { rewrite EL, Eab, !str_app_assoc. done. }
  cbn [prose_loop ls_text ls_start]. rewrite (str_slice_ok (slen y) (slen L) L).
  2:{ rewrite EL, slen_app. lia. }
  2:{ rewrite EL. apply is_char_boundary_app. right. by apply valid_utf8_leads. }
  2:{ apply is_char_boundary_end. }
  assert (String.substring (slen y) (slen L - slen y) L = x +:+ (g +:+ (p +:+ r))) as ->.
  { rewrite EL. apply substring_suffix; [done|rewrite slen_app; lia]. }
  cbn [mbind option_bind]. rewrite Ef.
  rewrite !slen_app, Ha in E, Hpl, He. replace (slen y + n + slen p) with (slen y + (n + slen p)) by lia.
  rewrite E. cbn [mbind option_bind].
  case_bool_decide as Htr.
  - exists ss. split_and!; [done|eapply placed_weaken; [|exact Hpl]; lia|].
    destruct ss; cbn in *; lia.
  - destruct (str_trim_spec p) as (a1 & b1 & Ep & Ha1). eexists. split_and!; [done| |].
    + cbn. split_and!; [lia| | |].
      * destruct (str_trim p); [done|cbn; lia].
      * exists (pre +:+ (y +:+ (a +:+ a1))), (b1 +:+ ((x' +:+ r) +:+ post)). split.
        -- rewrite Et, EL, Eab. rewrite Ep at 1. by rewrite !str_app_assoc.
        -- rewrite !slen_app. lia.
      * eapply placed_weaken; [|exact Hpl]. apply (f_equal slen) in Ep. rewrite !slen_app in Ep. lia.
    + cbn. apply (f_equal slen) in Ep. rewrite !slen_app in Ep.
      destruct ss as [|s ss]; cbn in *; [|done].
      rewrite EL, Eab, !slen_app. lia.
Qed.

Abbreviation nl := (String newline "").

Lemma str_join_cons s l : l ≠ [] → str_join nl (s :: l) = s +:+ String newline (str_join nl l).
Proof. by destruct l. Qed.

Lemma str_join_prefix l k : l ≠ [] → ∃ z, str_join nl (l ++ k) = str_join nl l +:+ z.
Proof.
  induction l as [|s l IH]; intros Hl; [done|]. destruct l as [|s' l].
  - destruct k as [|x k]; [by exists ""%string; cbn; rewrite str_app_nil|].
    exists (String newline (str_join nl (x :: k))). done.
  - destruct (IH ltac:(done)) as [z Ez]. exists z.
    rewrite <- app_comm_cons, !str_join_cons by done. rewrite Ez.
    change (String newline ?u +:+ ?v) with (String newline (u +:+ v)).
    by rewrite str_app_assoc.
Qed.

Lemma pop_blank_prefix l : ∃ k, l = pop_blank l ++ k.
Proof.
  induction l as [|x l [k E]]; [by exists []|]. cbn. destruct (pop_blank l) as [|y l'] eqn:Ep.
  - destruct (is_blank x); [by exists (x :: l)|]. by exists l.
  - exists k. cbn. f_equal. done.
Qed.

Lemma pop_blank_nonblank x l : is_blank x = false → ∃ l', pop_blank (x :: l) = x :: l'.
Proof. intros E. cbn. rewrite E. destruct (pop_blank l); eauto. Qed.

(** The lines of a block, joined, are the text they came from, and the lines
    after it start behind it. *)
Lemma take_block_spec off t L r block rest :
  lines_at off (mkLine t off :: L) r → take_block L = (block, rest) →
  ∃ q r', r = q +:+ r' ∧ lines_at (off + slen q) rest r' ∧
    (∃ z, q = str_join nl (t :: block) +:+ z) ∧
    (valid_utf8 r = true → valid_utf8 r' = true).
Proof.
  revert off t r block. induction L as [|l L IH]; intros off t r block Hl Hb.
  - injection Hb as <- <-. exists r, ""%string. rewrite str_app_nil. split_and!; [done|constructor| |done].
    inversion Hl; subst; [by exists ""%string; cbn; rewrite str_app_nil|].
    by eexists (String newline _).
  - inversion Hl as [|? ? Hne|? ? ? r1 H1]; subst.
    assert (Hv : valid_utf8 (t +:+ String newline r1) = true → valid_utf8 r1 = true).
    { intros [_ V]%valid_utf8_app; [|done].
      pose proof (valid_match_end nl r1 ltac:(done) ltac:(done) V) as Hr1.
      by apply (valid_utf8_app nl r1) in V as [_ ?]. }
    cbn in Hb. destruct (is_code_line (ls_text l) || is_blank (ls_text l)) eqn:Ec.
    + destruct (take_block L) as [block' rest'] eqn:Et. injection Hb as <- <-.
      assert (l = mkLine (ls_text l) (off + slen t + 1)) as El by (inversion H1; subst; done).
      rewrite El in H1. destruct (IH _ _ _ _ H1 eq_refl) as (q & r' & -> & Hr & [z ->] & Hvr).
      exists (t +:+ String newline (str_join nl (ls_text l :: block') +:+ z)), r'. split_and!.
      * by rewrite (str_app_assoc t).
      * rewrite slen_app in *. cbn [slen]. rewrite slen_app in *.
        replace (off + (slen t + S (slen (str_join nl (ls_text l :: block')) + slen z))) with
          (off + slen t + 1 + (slen (str_join nl (ls_text l :: block')) + slen z)) by lia. done.
      * exists z. rewrite (str_join_cons t) by done.
        change (String newline ?u +:+ ?v) with (String newline (u +:+ v)). by rewrite str_app_assoc.
      * intros V. by apply Hvr, Hv.
    + injection Hb as <- <-. exists (t +:+ nl), r1. split_and!.
      * by rewrite str_app_assoc.
      * rewrite slen_app. cbn [slen]. by rewrite Nat.add_assoc.
      * by exists nl.
      * done.
Qed.

Lemma code_line_not_blank t : is_code_line t = true → is_blank t = false.
Proof. unfold is_code_line, is_blank. case_bool_decide; [done|]. done. Qed.

Section facts.
Context `{UnicodeSegmentationLaws}.

Lemma split_loop_spec fuel L text pre off r :
  length L ≤ fuel → text = pre +:+ r → slen pre = off → lines_at off L r → valid_utf8 r = true →
  ∃ ss, split_loop fuel L = Some ss ∧ placed text off ss.
Proof.
  revert L pre off r. induction fuel as [|fuel IH]; intros L pre off r Hf Et Ho Hl Hv.
  { destruct L; [|cbn in Hf; lia]. by exists []. }
  destruct L as [|l L]; [by exists []|]. cbn [split_loop length] in *.
  destruct l as [t o]. assert (o = off) as -> by (inversion Hl; done). cbn [ls_text ls_start].
  destruct (is_code_line t) eqn:Ec.
  - destruct (take_block L) as [block rest] eqn:Eb.
    destruct (take_block_spec _ _ _ _ _ _ Hl Eb) as (q & r' & -> & Hr & [z Eq] & Hvr).
    destruct (IH rest (pre +:+ q) (off + slen q) r') as (ss & -> & Hp).
    { assert (length rest ≤ length L); [|lia]. clear -Eb. revert block Eb.
      induction L as [|l L IH]; intros block Eb; cbn in Eb; [by simplify_eq|].
      destruct (_ || _); [|by simplify_eq]. destruct (take_block L) as [b' r'] eqn:E.
      simplify_eq. cbn. specialize (IH _ eq_refl). lia. }
    { by rewrite str_app_assoc. } { rewrite slen_app. lia. } { done. } { by apply Hvr. }
    cbn [mbind option_bind].
    destruct (pop_blank_nonblank t block (code_line_not_blank t Ec)) as [l' El'].
    destruct (pop_blank_prefix (t :: block)) as [k Ek]. rewrite El' in *.
    eexists. split; [done|]. cbn [placed sent_offset sent_text].
    destruct (str_join_prefix (t :: l') k) as [z' Ez]; [done|]. rewrite <- Ek in Ez. rewrite Ez in Eq.
    split_and!; [done| | |].
    + assert (t ≠ ""%string) by (intros ->; by vm_compute in Ec).
      destruct l'; [by destruct t; cbn; [|lia]|]. rewrite str_join_cons, slen_app by done. cbn. lia.
    + exists pre, ((z' +:+ z) +:+ r'). split; [|done]. rewrite Et, Eq, !str_app_assoc. done.
    + eapply placed_weaken; [|exact Hp]. apply (f_equal slen) in Eq. rewrite !slen_app in Eq. lia.
  - assert (∃ post r', r = t +:+ post ∧ lines_at (off + slen t + slen post - slen r') L r' ∧
              (∃ m, post = m +:+ r') ∧ valid_utf8 t = true ∧ valid_utf8 r' = true) as
      (post & r' & -> & HL & [m Em] & Vt & Vr).
    { inversion Hl as [|? ? Hne|? ? ? r1 H1]; subst.
      - exists ""%string, ""%string. rewrite str_app_nil. split_and!; [done|constructor|by exists ""%string|done|done].
      - exists (String newline r1), r1. split_and!; [done| |by exists nl|by apply valid_utf8_app in Hv as [? _]|].
        + cbn [slen]. replace (slen pre + slen t + S (slen r1) - slen r1) with (slen pre + slen t + 1) by lia. done.
        + apply valid_utf8_app in Hv as [_ V]; [|done].
          pose proof (valid_match_end nl r1 ltac:(done) ltac:(done) V) as Hr1.
          by apply (valid_utf8_app nl r1) in V as [_ ?]. }
    destruct (prose_loop_spec text pre t post off (unicode_sentences t) "" "" t) as (ps & Ep & Hp & He);
      [done..|by apply unicode_sentences_in_order|].
    cbn [slen] in Ep. rewrite Ep. cbn [mbind option_bind].
    rewrite Nat.add_0_r in Hp, He. subst post.
    destruct (IH L (pre +:+ (t +:+ m)) (off + slen t + slen m) r') as (ss & -> & Hs).
    { lia. } { by rewrite Et, !str_app_assoc. } { rewrite !slen_app. lia. }
    { rewrite slen_app in HL. by replace (off + slen t + (slen m + slen r') - slen r') with (off + slen t + slen m) in HL by lia. }
    { done. }
    cbn [mbind option_bind]. eexists. split; [done|]. apply placed_app; [done|].
    eapply placed_weaken; [|exact Hs]. lia.
Qed.

(** Splitting valid UTF-8 text never panics, and every sentence is a
    non-empty piece of the text that starts at its recorded byte offset;
    sentences come in text order and do not overlap.  The unicode
    segmentation is only assumed to yield disjoint pieces in order. *)
Lemma split_sound (text : string) :
  valid_utf8 text = true → ∃ ss, split text = Some ss ∧ placed text 0 ss.
Proof.
  intros V. apply (split_loop_spec _ _ text "" 0 text); [done..| |done]. apply split_lines_spec.
Qed.
End facts.

(* ------------------------------------------------------------------ *)
(** ** An instance: sentences end with a full stop and a space *)

(** Groups of characters, each closed after [". "]. *)
Fixpoint dot_groups (cur : list string) (cs : list string) : list (list string) :=
  match cs with
  | [] => match cur with [] => [] | _ => [cur] end
  | c :: cs =>
      if bool_decide (c = " "%string) && bool_decide (last cur = Some "."%string)
      then (cur ++ [c]) :: dot_groups [] cs
      else dot_groups (cur ++ [c]) cs
  end.

Definition dot_segmentation : UnicodeSegmentation :=
  {| unicode_sentences := λ line, map str_concat (dot_groups [] (str_chars line)) |}.

Lemma dot_groups_concat cur cs : concat (dot_groups cur cs) = cur ++ cs.
Proof.
  revert cur. induction cs as [|c cs IH]; intros cur; cbn.
  - destruct cur; cbn; by rewrite ?app_nil_r.
  - destruct (_ && _); cbn; rewrite IH, <- app_assoc; done.
Qed.

Lemma valid_chars_leads cs : Forall (λ c, valid_char c = true) cs → leads (str_concat cs).
Proof.
  intros H. destruct H as [|c cs Hc Hcs]; [done|]. destruct c as [|d c]; [done|]. cbn in *.
  apply andb_true_iff in Hc as [Hd _]. by apply negb_true_iff.
Qed.

Lemma groups_in_order gs :
  Forall (λ c, valid_char c = true) (concat gs) → in_order (map str_concat gs) (str_concat (concat gs)).
Proof.
  induction gs as [|g gs IH]; cbn; intros H; [constructor|].
  apply Forall_app in H as [Hg Hgs]. rewrite str_concat_app.
  apply (in_order_cons ""); [by apply valid_chars_leads..|by apply IH].
Qed.

#[export] Instance dot_segmentation_laws : @UnicodeSegmentationLaws dot_segmentation.
Proof.
  split. intros line V. cbn. rewrite <- (str_chars_concat line) at 2.
  pose proof (dot_groups_concat [] (str_chars line)) as E. cbn in E. rewrite <- E at 2.
  apply groups_in_order. rewrite E. apply Forall_forall. intros c Hc.
  unfold valid_utf8 in V. rewrite forallb_forall in V. apply V. by apply list_elem_of_In.
Qed.

Definition sample_prose : string :=
  "Alpha beta. Gamma delta." +:+ nl +:+ "let x = 1;" +:+ nl +:+ "  y.z();" +:+ nl +:+ nl +:+ "Done here.".

Example split_sample :
  split (H := dot_segmentation) sample_prose =
  Some [mkSentence "Alpha beta." 0 false; mkSentence "Gamma delta." 12 false;
        mkSentence ("let x = 1;" +:+ nl +:+ "  y.z();") 25 true; mkSentence "Done here." 46 false].
Proof. vm_compute. reflexivity. Qed.

Lemma split_sound_witness :
  ∃ ss, split (H := dot_segmentation) sample_prose = Some ss ∧ placed sample_prose 0 ss.
Proof. apply (split_sound (H := dot_segmentation)). vm_compute. reflexivity. Defined.
