(* ===== verification/Chunking.v ===== *)
(** * Chunking of long documents (src/crates/memd/src/chunking.rs,
      src/crates/memd/src/store/shared_add.rs)

    Sentences are grouped into chunks of about [chunk_size] bytes with an
    overlap of whole sentences; a sentence longer than a chunk is cut at
    character boundaries.  [None] is a panic of a slice. *)

From stdpp Require Import pretty.
From Stdlib Require Import Ascii.
From S2P Require Import Prelude Types Str Sentence.

Open Scope nat_scope.

Record ChunkingConfig : Type := mkChunking {
  chunk_size : nat;
  overlap : nat;
  min_chunk_size : nat;
}.
Definition ChunkingConfig_default : ChunkingConfig := mkChunking 1200 200 400.

(** [Chunk] *)
Record TextChunk : Type := mkTextChunk {
  tc_text : string;
  tc_start_char : nat;
  tc_end_char : nat;
  tc_chunk_index : nat;
}.

(** The locals of the loop. *)
Record ChunkState : Type := mkState {
  cs_chunks : list TextChunk;
  cs_current : list Sentence;
  cs_length : nat;
  cs_start : nat;
  cs_index : nat;
}.

(** [.iter().map(|s| s.text.as_str()).collect::<Vec<_>>().join("")] *)
Definition sentences_text (l : list Sentence) : string := str_concat (map sent_text l).

Section chunking.
Context (config : ChunkingConfig).

(** Walking back to a character boundary. *)
Fixpoint back_to_boundary (text : string) (sent_offset chunk_end : nat) : nat :=
  match chunk_end with
  | O => O
  | S e => if (sent_offset <? S e) && negb (is_char_boundary text (S e))
           then back_to_boundary text sent_offset e else S e
  end.

(** The [while] loop over an oversized sentence; every turn advances, so one
    unit of fuel per byte is enough. *)
Fixpoint force_split (fuel : nat) (s : Sentence) (offset : nat) (chunks : list TextChunk)
    (chunk_index : nat) : option (list TextChunk * nat) :=
  match fuel with
  | O => Some (chunks, chunk_index)
  | S fuel =>
      let text := sent_text s in
      if offset <? slen text then
        let remaining := slen text - offset in
        let target_len := Nat.min remaining (chunk_size config) in
        let chunk_end := back_to_boundary text offset (offset + target_len) in
        chunk_end ←
          (if chunk_end =? offset then
             rest ← str_slice offset (slen text) text;
             Some (offset + first_char_len rest)
           else Some chunk_end);
        chunk_text ← str_slice offset chunk_end text;
        force_split fuel s chunk_end
          (chunks ++ [mkTextChunk chunk_text (sent_offset s + offset) (sent_offset s + chunk_end) chunk_index])
          (S chunk_index)
      else Some (chunks, chunk_index)
  end.

(** Pushing the accumulated sentences as a chunk. *)
Definition finish_current (st : ChunkState) : list TextChunk :=
  cs_chunks st ++
    [mkTextChunk (sentences_text (cs_current st)) (cs_start st) (cs_start st + cs_length st) (cs_index st)].

(** The loop [for sent in current.iter().rev()]; the argument is reversed and
    the result is in the original order. *)
Fixpoint overlap_loop (rev_sentences : list Sentence) (len : nat) (acc : list Sentence) :
    list Sentence * nat :=
  match rev_sentences with
  | [] => (acc, len)
  | s :: rest =>
      if len + slen (sent_text s) <=? overlap config
      then overlap_loop rest (len + slen (sent_text s)) (s :: acc)
      else (acc, len)
  end.

Definition add_sentence (st : ChunkState) (s : Sentence) : ChunkState :=
  mkState (cs_chunks st) (cs_current st ++ [s]) (cs_length st + slen (sent_text s))
    (cs_start st) (cs_index st).

(** The body of the loop over the sentences. *)
Definition chunk_step (st : ChunkState) (s : Sentence) : option ChunkState :=
  let sentence_len := slen (sent_text s) in
  if chunk_size config <? sentence_len then
    let st :=
      if 0 <? cs_length st
      then mkState (finish_current st) [] 0 (cs_start st) (S (cs_index st))
      else st in
    '(chunks, index) ← force_split (slen (sent_text s)) s 0 (cs_chunks st) (cs_index st);
    Some (mkState chunks (cs_current st) (cs_length st) (sent_offset s + slen (sent_text s)) index)
  else
    let st :=
      if (0 <? cs_length st) && (chunk_size config <? cs_length st + sentence_len) then
        let '(kept, len) := overlap_loop (reverse (cs_current st)) 0 [] in
        mkState (finish_current st) kept len
          (match kept with k :: _ => sent_offset k | [] => sent_offset s end) (S (cs_index st))
      else st in
    Some (add_sentence st s).

Fixpoint chunk_loop (st : ChunkState) (sentences : list Sentence) : option ChunkState :=
  match sentences with
  | [] => Some st
  | s :: sentences => st ← chunk_step st s; chunk_loop st sentences
  end.

(** Merging a small rest into the last chunk. *)
Definition merge_rest (current : list Sentence) (last_chunk : TextChunk) : TextChunk :=
  let new_sentences := filter (λ s, tc_end_char last_chunk ≤ sent_offset s) current in
  let new_end :=
    match last new_sentences with
    | Some s => sent_offset s + slen (sent_text s)
    | None => tc_end_char last_chunk
    end in
  mkTextChunk (tc_text last_chunk +:+ sentences_text new_sentences) (tc_start_char last_chunk)
    (Nat.max (tc_end_char last_chunk) new_end) (tc_chunk_index last_chunk).

Fixpoint map_last {A} (f : A → A) (l : list A) : list A :=
  match l with
  | [] => []
  | [x] => [f x]
  | x :: l => x :: map_last f l
  end.

Definition chunk_finish (st : ChunkState) : list TextChunk :=
  if (0 <? cs_length st)
     && ((min_chunk_size config <=? cs_length st) || bool_decide (cs_chunks st = [])) then
    let end_char :=
      match last (cs_current st) with
      | Some s => sent_offset s + slen (sent_text s)
      | None => cs_start st + cs_length st
      end in
    cs_chunks st ++ [mkTextChunk (sentences_text (cs_current st)) (cs_start st) end_char (cs_index st)]
  else map_last (merge_rest (cs_current st)) (cs_chunks st).

Definition whole_chunk (text : string) : list TextChunk := [mkTextChunk text 0 (slen text) 0].

Definition chunk_sentences (sentences : list Sentence) : option (list TextChunk) :=
  st ← chunk_loop (mkState [] [] 0 0 0) sentences;
  Some (chunk_finish st).

Definition chunk_text `{UnicodeSegmentation} (text : string) : option (list TextChunk) :=
  if slen text <=? chunk_size config then Some (whole_chunk text)
  else
    sentences ← split text;
    match sentences with
    | [] => Some (whole_chunk text)
    | _ => chunk_sentences sentences
    end.
End chunking.

(* ------------------------------------------------------------------ *)
(** ** Cutting one sentence *)

Section facts.
Context (config : ChunkingConfig).

Lemma back_to_boundary_spec text off e :
  off ≤ e →
  let r := back_to_boundary text off e in
  off ≤ r ≤ e ∧ (r = off ∨ is_char_boundary text r = true).
Proof.
  induction e as [|e IH]; intros He; cbn [back_to_boundary]; [split; [lia|left; lia]|].
  destruct (Nat.ltb_spec off (S e)); cbn [andb]; [|split; [lia|left; lia]].
  destruct (is_char_boundary text (S e)) eqn:E; cbn [negb]; [auto|].
  destruct (IH ltac:(lia)). split; [lia|done].
Qed.

Definition piece_bound : nat := Nat.max (chunk_size config) 4.

(** One turn cuts a non-empty piece between two boundaries. *)
Lemma force_split_turn text off :
  off < slen text → is_char_boundary text off = true → chars_le4 text →
  let e := back_to_boundary text off (off + Nat.min (slen text - off) (chunk_size config)) in
  ∃ e', (if e =? off then rest ← str_slice off (slen text) text; Some (off + first_char_len rest)
         else Some e) = Some e' ∧
    off < e' ≤ slen text ∧ is_char_boundary text e' = true ∧ e' - off ≤ piece_bound.
Proof.
  intros Hlt Hb H4 e. unfold piece_bound.
  destruct (back_to_boundary_spec text off (off + Nat.min (slen text - off) (chunk_size config)))
    as [Hr Hor]; [lia|]. fold e in Hr, Hor. destruct (Nat.eqb_spec e off) as [Ee|Ee].
  - rewrite str_slice_ok by (auto using is_char_boundary_end; lia). cbn [mbind option_bind].
    eexists. split; [done|]. destruct (boundary_next text off Hlt Hb) as [H1 H2].
    split_and!; [lia|lia|done|].
    assert (chars_le4 (String.substring off (slen text - off) text)) as H by (apply chars_le4_substring; [lia|done]).
    apply first_char_len_le4 in H. lia.
  - exists e. split_and!; [done|lia|lia| |lia]. by destruct Hor.
Qed.

Lemma force_split_spec fuel s off chunks idx :
  off ≤ slen (sent_text s) → is_char_boundary (sent_text s) off = true →
  slen (sent_text s) - off ≤ fuel → chars_le4 (sent_text s) →
  ∃ cs, force_split config fuel s off chunks idx = Some (chunks ++ cs, idx + length cs) ∧
    str_concat (map tc_text cs) = String.substring off (slen (sent_text s) - off) (sent_text s) ∧
    map tc_chunk_index cs = seq idx (length cs) ∧
    Forall (λ c, 0 < slen (tc_text c) ≤ piece_bound) cs ∧
    (∀ c, last cs = Some c → tc_end_char c = sent_offset s + slen (sent_text s)).
Proof.
  revert off chunks idx. induction fuel as [|fuel IH]; intros off chunks idx Hoff Hb Hf H4;
    cbn [force_split].
  { exists []. rewrite app_nil_r, Nat.add_0_r. assert (slen (sent_text s) - off = 0) as -> by lia.
    split_and!; [done| |done|constructor|done]. clear. cbn.
    generalize off. induction (sent_text s); intros [|n]; cbn; try done. }
  destruct (Nat.ltb_spec off (slen (sent_text s))) as [Hlt|Hge].
  2:{ exists []. rewrite app_nil_r, Nat.add_0_r. assert (slen (sent_text s) - off = 0) as -> by lia.
    split_and!; [done| |done|constructor|done]. clear. cbn.
    generalize off. induction (sent_text s); intros [|n]; cbn; try done. }
  destruct (force_split_turn (sent_text s) off Hlt Hb H4) as (e' & -> & He & Hbe & Hsz).
  cbn [mbind option_bind]. rewrite str_slice_ok by (done || lia). cbn [mbind option_bind].
  destruct (IH e' (chunks ++ [mkTextChunk (String.substring off (e' - off) (sent_text s))
    (sent_offset s + off) (sent_offset s + e') idx]) (S idx)) as (cs & -> & Hc & Hi & Hsize & Hl);
    [lia|done|lia|done|].
  eexists (mkTextChunk (String.substring off (e' - off) (sent_text s)) (sent_offset s + off)
    (sent_offset s + e') idx :: cs). split_and!.
  - rewrite <- app_assoc. cbn. by rewrite Nat.add_succ_r.
  - cbn. rewrite Hc. replace e' with (off + (e' - off)) at 2 3 by lia.
    rewrite substring_app_next by lia. f_equal. lia.
  - cbn. by rewrite Hi.
  - constructor; [|done]. cbn. rewrite slen_substring by lia. lia.
  - intros c Hcl. destruct cs as [|c' cs]; [|by apply Hl].
    cbn in Hcl. injection Hcl as <-. cbn. cbn in Hc.
    assert (slen (sent_text s) - e' = 0); [|lia].
    apply (f_equal slen) in Hc. rewrite slen_substring in Hc by lia. cbn in Hc. lia.
Qed.
End facts.

(* ------------------------------------------------------------------ *)
(** ** What the chunks are made of *)

(** A chunk is a sequence of pieces; a piece is fresh, or repeats a sentence
    of the chunk before. *)
Abbreviation segment := (bool * string)%type.
Definition seg_text (sg : list segment) : string := str_concat (map snd sg).
Definition seg_fresh (sg : list segment) : string :=
  str_concat (map snd (filter (λ x, x.1 = true) sg)).
Definition seg_repeat (sg : list segment) : nat :=
  slen (str_concat (map snd (filter (λ x, x.1 = false) sg))).

Definition repeated (l : list Sentence) : list segment := map (λ s, (false, sent_text s)) l.
Definition fresh (l : list Sentence) : list segment := map (λ s, (true, sent_text s)) l.

Lemma seg_text_app a b : seg_text (a ++ b) = seg_text a +:+ seg_text b.
Proof. unfold seg_text. by rewrite map_app, str_concat_app. Qed.
Lemma seg_fresh_app a b : seg_fresh (a ++ b) = seg_fresh a +:+ seg_fresh b.
Proof. unfold seg_fresh. by rewrite filter_app, map_app, str_concat_app. Qed.
Lemma seg_repeat_app a b : seg_repeat (a ++ b) = seg_repeat a + seg_repeat b.
Proof. unfold seg_repeat. by rewrite filter_app, map_app, str_concat_app, slen_app. Qed.

Lemma seg_repeated l :
  seg_text (repeated l) = sentences_text l ∧ seg_fresh (repeated l) = ""%string ∧
  seg_repeat (repeated l) = slen (sentences_text l).
Proof.
  unfold seg_text, seg_fresh, seg_repeat, repeated, sentences_text. rewrite map_map. split; [done|].
  induction l as [|s l [IH1 IH2]]; [done|]. split; [exact IH1|].
  cbn [map]. rewrite filter_cons_True by done. cbn [map str_concat snd].
  rewrite !slen_app. by rewrite IH2.
Qed.

Lemma seg_fresh_spec l :
  seg_text (fresh l) = sentences_text l ∧ seg_fresh (fresh l) = sentences_text l ∧
  seg_repeat (fresh l) = 0.
Proof.
  unfold seg_text, seg_fresh, seg_repeat, fresh, sentences_text. rewrite map_map. split; [done|].
  induction l as [|s l [IH1 IH2]]; [done|]. split; [|exact IH2].
  cbn [map]. rewrite filter_cons_True by done. cbn [map str_concat snd]. by rewrite IH1.
Qed.

Lemma sentences_text_app l k : sentences_text (l ++ k) = sentences_text l +:+ sentences_text k.
Proof. unfold sentences_text. by rewrite map_app, str_concat_app. Qed.
Lemma sentences_text_1 s : sentences_text [s] = sent_text s.
Proof. unfold sentences_text. cbn. apply str_app_nil. Qed.

(** *** Placement *)

Lemma placed_next text lo done s rest :
  placed text lo (done ++ s :: rest) → ends_at lo done ≤ sent_offset s ∧ 0 < slen (sent_text s).
Proof.
  revert lo. induction done as [|d done IH]; intros lo; cbn; [naive_solver|].
  intros (_ & _ & _ & H). by apply IH.
Qed.

Lemma ends_at_app lo l k : ends_at lo (l ++ k) = ends_at (ends_at lo l) k.
Proof. revert lo. induction l as [|s l IH]; intros lo; [done|]. apply IH. Qed.

(** Disjoint sentences span at least their total length. *)
Lemma placed_span text lo l : placed text lo l → lo + slen (sentences_text l) ≤ ends_at lo l.
Proof.
  revert lo. induction l as [|s l IH]; intros lo; cbn [placed ends_at]; [cbn; lia|].
  intros (H1 & _ & _ & H). apply IH in H. unfold sentences_text in *. cbn. rewrite slen_app. lia.
Qed.

Lemma placed_app_r text lo l k : placed text lo (l ++ k) → placed text (ends_at lo l) k.
Proof. revert lo. induction l as [|s l IH]; intros lo; cbn; [done|]. intros (_ & _ & _ & H). by apply IH. Qed.

Lemma placed_app_l text lo l k : placed text lo (l ++ k) → placed text lo l.
Proof.
  revert lo. induction l as [|s l IH]; intros lo; cbn; [done|].
  intros (? & ? & ? & H). split_and!; [done..|by apply IH].
Qed.

Lemma placed_suffix_span text pre k ks :
  placed text 0 (pre ++ k :: ks) →
  sent_offset k + slen (sentences_text (k :: ks)) ≤ ends_at 0 (pre ++ k :: ks).
Proof.
  intros H%placed_app_r. rewrite ends_at_app. cbn in H. destruct H as (_ & _ & _ & H).
  apply placed_span in H. unfold sentences_text in *. cbn [map str_concat ends_at] in *.
  rewrite slen_app. lia.
Qed.

Lemma overlap_loop_spec config rl len acc :
  ∃ k r, rl = k ++ r ∧
    overlap_loop config rl len acc = (reverse k ++ acc, len + slen (sentences_text (reverse k))) ∧
    (len ≤ overlap config → len + slen (sentences_text (reverse k)) ≤ overlap config).
Proof.
  revert len acc. induction rl as [|s rl IH]; intros len acc; cbn [overlap_loop].
  { exists [], []. cbn. rewrite Nat.add_0_r. done. }
  destruct (Nat.leb_spec (len + slen (sent_text s)) (overlap config)).
  - destruct (IH (len + slen (sent_text s)) (s :: acc)) as (k & r & -> & -> & Hle).
    exists (s :: k), r. rewrite reverse_cons, sentences_text_app, slen_app, sentences_text_1, <- app_assoc.
    split_and!; [done|f_equal; lia|]. intros _. specialize (Hle ltac:(lia)). lia.
  - exists [], (s :: rl). cbn. rewrite Nat.add_0_r. done.
Qed.

(* ------------------------------------------------------------------ *)
(** ** The loop invariant *)

Section loop.
Context (config : ChunkingConfig) (text : string).
Implicit Types (st : ChunkState) (s : Sentence) (dn ov new : list Sentence).

Definition chunk_bound : nat := piece_bound config + overlap config.

(** A chunk and the pieces it is made of. *)
Definition chunk_of (c : TextChunk) (sg : list segment) : Prop :=
  tc_text c = seg_text sg ∧ seg_repeat sg ≤ overlap config ∧ slen (tc_text c) ≤ chunk_bound.

(** What a chunk repeats is the text of sentences. *)
Definition repeats_of (dn : list Sentence) (sg : list segment) : Prop :=
  ∀ t, (false, t) ∈ sg → t ∈ map sent_text dn.

Lemma repeats_of_mono dn dn' sg : dn ⊆ dn' → repeats_of dn sg → repeats_of dn' sg.
Proof. intros Hd H t Ht%H. apply list_elem_of_fmap in Ht as (s & -> & Hs). apply list_elem_of_fmap. eauto. Qed.

Lemma repeats_of_parts dn ov new : ov ⊆ dn → repeats_of dn (repeated ov ++ fresh new).
Proof.
  intros Hd t Ht. apply elem_of_app in Ht as [Ht|Ht]; apply list_elem_of_fmap in Ht as (s & E & Hs); [|done].
  injection E as ->. apply list_elem_of_fmap. eauto.
Qed.

(** After the sentences [dn]: [segs] describes the finished chunks, [ov] and
    [new] the sentences collected for the next one. *)
Record loop_inv (dn : list Sentence) (segs : list (list segment)) (ov new : list Sentence)
    (st : ChunkState) : Prop := {
  li_chunks : Forall2 chunk_of (cs_chunks st) segs;
  li_index : map tc_chunk_index (cs_chunks st) = seq 0 (length (cs_chunks st));
  li_next : cs_index st = length (cs_chunks st);
  li_current : cs_current st = ov ++ new;
  li_length : cs_length st = slen (sentences_text (cs_current st));
  li_overlap : slen (sentences_text ov) ≤ overlap config;
  li_bound : cs_length st ≤ chunk_size config + overlap config;
  li_text : str_concat (map seg_fresh segs) +:+ sentences_text new = sentences_text dn;
  li_suffix : ∃ pre, dn = pre ++ cs_current st;
  li_start : cs_start st + cs_length st ≤ ends_at 0 dn;
  li_last : ∀ c, last (cs_chunks st) = Some c →
    tc_end_char c ≤ ends_at 0 dn ∧ Forall (λ s, tc_end_char c ≤ sent_offset s) new;
  li_reps : Forall (repeats_of dn) segs;
}.

Lemma loop_inv_init : loop_inv [] [] [] [] (mkState [] [] 0 0 0).
Proof. split; try done; try (cbn; lia). by exists []. Qed.

(** Finishing the collected sentences as a chunk. *)
Lemma finish_current_inv dn segs ov new st :
  loop_inv dn segs ov new st →
  let segs' := segs ++ [repeated ov ++ fresh new] in
  Forall2 chunk_of (finish_current st) segs' ∧
  map tc_chunk_index (finish_current st) = seq 0 (S (length (cs_chunks st))) ∧
  length (finish_current st) = S (length (cs_chunks st)) ∧
  str_concat (map seg_fresh segs') = sentences_text dn ∧
  Forall (repeats_of dn) segs' ∧
  ∀ c, last (finish_current st) = Some c → tc_end_char c ≤ ends_at 0 dn.
Proof.
  intros I. destruct (seg_repeated ov) as (R1 & R2 & R3), (seg_fresh_spec new) as (F1 & F2 & F3).
  pose proof (li_bound _ _ _ _ _ I) as Hb. rewrite (li_length _ _ _ _ _ I) in Hb.
  cbv zeta. unfold finish_current. split_and!.
  - apply Forall2_app; [apply (li_chunks _ _ _ _ _ I)|]. repeat constructor; cbn.
    + rewrite seg_text_app, R1, F1, (li_current _ _ _ _ _ I). apply sentences_text_app.
    + rewrite seg_repeat_app, R3, F3. pose proof (li_overlap _ _ _ _ _ I). lia.
    + unfold chunk_bound, piece_bound. lia.
  - rewrite map_app, (li_index _ _ _ _ _ I), seq_S, (li_next _ _ _ _ _ I). done.
  - rewrite length_app. cbn. lia.
  - rewrite map_app, str_concat_app. cbn. rewrite str_app_nil, seg_fresh_app, R2, F2.
    apply (li_text _ _ _ _ _ I).
  - apply Forall_app. split; [apply (li_reps _ _ _ _ _ I)|]. repeat constructor.
    apply repeats_of_parts. destruct (li_suffix _ _ _ _ _ I) as [pre ->].
    rewrite (li_current _ _ _ _ _ I). intros x Hx. rewrite !elem_of_app. auto.
  - intros c. rewrite last_snoc. intros [= <-]. cbn. apply (li_start _ _ _ _ _ I).
Qed.

(** Adding the next sentence to what is collected. *)
Lemma add_sentence_inv dn segs ov new st s rest :
  loop_inv dn segs ov new st → placed text 0 (dn ++ s :: rest) →
  cs_length st + slen (sent_text s) ≤ chunk_size config + overlap config →
  loop_inv (dn ++ [s]) segs ov (new ++ [s]) (add_sentence st s).
Proof.
  intros I P Hb. destruct (placed_next _ _ _ _ _ P) as [Ho Hpos].
  split; cbn [add_sentence cs_chunks cs_current cs_length cs_start cs_index].
  - apply (li_chunks _ _ _ _ _ I).
  - apply (li_index _ _ _ _ _ I).
  - apply (li_next _ _ _ _ _ I).
  - by rewrite (li_current _ _ _ _ _ I), app_assoc.
  - rewrite sentences_text_app, slen_app, sentences_text_1, (li_length _ _ _ _ _ I). done.
  - apply (li_overlap _ _ _ _ _ I).
  - done.
  - by rewrite !sentences_text_app, <- str_app_assoc, (li_text _ _ _ _ _ I).
  - destruct (li_suffix _ _ _ _ _ I) as [pre E]. exists pre. by rewrite E at 1; rewrite <- app_assoc.
  - pose proof (li_start _ _ _ _ _ I). rewrite ends_at_app. cbn. lia.
  - intros c Hc. destruct (li_last _ _ _ _ _ I c Hc) as [H1 H2]. rewrite ends_at_app. cbn.
    split; [lia|]. apply Forall_app. split; [done|]. repeat constructor. lia.
  - eapply Forall_impl; [apply (li_reps _ _ _ _ _ I)|]. intros sg. apply repeats_of_mono.
    intros x Hx. apply elem_of_app. by left.
Qed.

(** Starting a new chunk with the overlap. *)
Lemma overlap_inv dn segs ov new st s :
  loop_inv dn segs ov new st → placed text 0 dn → ends_at 0 dn ≤ sent_offset s →
  let '(kept, len) := overlap_loop config (reverse (cs_current st)) 0 [] in
  len ≤ overlap config ∧
  loop_inv dn (segs ++ [repeated ov ++ fresh new]) kept []
    (mkState (finish_current st) kept len
       (match kept with k :: _ => sent_offset k | [] => ends_at 0 dn end) (S (cs_index st))).
Proof.
  intros I P Ho. destruct (overlap_loop_spec config (reverse (cs_current st)) 0 []) as (k & r & E & -> & Hle).
  rewrite app_nil_r. cbn [Nat.add] in *. split; [lia|].
  destruct (finish_current_inv _ _ _ _ _ I) as (F1 & F2 & F3 & F4 & F6 & F5).
  assert (Ec : cs_current st = reverse r ++ reverse k).
  { by rewrite <- reverse_app, <- E, reverse_involutive. }
  destruct (li_suffix _ _ _ _ _ I) as [pre Epre].
  split; cbn [cs_chunks cs_current cs_length cs_start cs_index]; try done.
  - by rewrite F3.
  - by rewrite F3, (li_next _ _ _ _ _ I).
  - by rewrite app_nil_r.
  - lia.
  - lia.
  - cbn. by rewrite str_app_nil.
  - exists (pre ++ reverse r). by rewrite Epre at 1; rewrite Ec, app_assoc.
  - destruct (reverse k) as [|k0 ks] eqn:Ek; [cbn; lia|].
    pose proof (placed_suffix_span text (pre ++ reverse r) k0 ks) as Hs.
    rewrite <- app_assoc, <- Ec, <- Epre in Hs. by apply Hs.
  - intros c Hc. split; [by apply F5|constructor].
Qed.

Lemma loop_inv_start dn segs ov new st b :
  loop_inv dn segs ov new st → b + cs_length st ≤ ends_at 0 dn →
  loop_inv dn segs ov new (mkState (cs_chunks st) (cs_current st) (cs_length st) b (cs_index st)).
Proof. intros [] ?. by split. Qed.

(** With nothing collected the sentences are gone too. *)
Lemma empty_current dn segs ov new st :
  loop_inv dn segs ov new st → placed text 0 dn → cs_length st = 0 → ov = [] ∧ new = [].
Proof.
  intros I P Hl. destruct (li_suffix _ _ _ _ _ I) as [pre E]. rewrite E in P. apply placed_app_r in P.
  pose proof (li_length _ _ _ _ _ I) as H. rewrite Hl in H.
  destruct (cs_current st) as [|s l] eqn:Ec.
  - pose proof (li_current _ _ _ _ _ I) as Eo. rewrite Ec in Eo. symmetry in Eo. by apply app_eq_nil in Eo.
  - exfalso. cbn in P. destruct P as (_ & Hp & _). unfold sentences_text in H. cbn in H.
    rewrite slen_app in H. lia.
Qed.

(** The chunks cut from one sentence, as segments. *)
Definition cut_segs (cs : list TextChunk) : list (list segment) := map (λ c, [(true, tc_text c)]) cs.

Lemma cut_segs_fresh cs : str_concat (map seg_fresh (cut_segs cs)) = str_concat (map tc_text cs).
Proof.
  unfold cut_segs. rewrite map_map. f_equal. apply map_ext. intros c. unfold seg_fresh. cbn.
  apply str_app_nil.
Qed.

Lemma cut_segs_ok cs :
  Forall (λ c, 0 < slen (tc_text c) ≤ piece_bound config) cs → Forall2 chunk_of cs (cut_segs cs).
Proof.
  induction 1 as [|c cs Hc Hcs IH]; constructor; [|done]. split_and!.
  - unfold seg_text. cbn. by rewrite str_app_nil.
  - unfold seg_repeat. rewrite filter_cons_False by done. cbn. apply Nat.le_0_l.
  - unfold chunk_bound. lia.
Qed.

(** An oversized sentence, with nothing collected before it. *)
Lemma force_split_inv dn segs st s rest :
  loop_inv dn segs [] [] st → placed text 0 (dn ++ s :: rest) → chars_le4 (sent_text s) →
  ∃ cs, force_split config (slen (sent_text s)) s 0 (cs_chunks st) (cs_index st) =
          Some (cs_chunks st ++ cs, cs_index st + length cs) ∧
    loop_inv (dn ++ [s]) (segs ++ cut_segs cs) [] []
      (mkState (cs_chunks st ++ cs) [] 0 (sent_offset s + slen (sent_text s)) (cs_index st + length cs)).
Proof.
  intros I P H4. destruct (placed_next _ _ _ _ _ P) as [Ho Hpos].
  destruct (force_split_spec config (slen (sent_text s)) s 0 (cs_chunks st) (cs_index st))
    as (cs & E & Hc & Hi & Hsz & Hl); [lia|done|lia|done|].
  exists cs. split; [done|]. rewrite Nat.sub_0_r, substring_all in Hc.
  split; cbn [cs_chunks cs_current cs_length cs_start cs_index]; try done.
  - apply Forall2_app; [apply (li_chunks _ _ _ _ _ I)|by apply cut_segs_ok].
  - rewrite map_app, (li_index _ _ _ _ _ I), Hi, length_app, seq_app, (li_next _ _ _ _ _ I). done.
  - rewrite length_app, (li_next _ _ _ _ _ I). done.
  - cbn. lia.
  - lia.
  - rewrite map_app, str_concat_app, cut_segs_fresh, Hc, sentences_text_app, sentences_text_1.
    pose proof (li_text _ _ _ _ _ I) as Ht. cbn in Ht. rewrite str_app_nil in Ht. rewrite Ht.
    cbn. apply str_app_nil.
  - exists (dn ++ [s]). by rewrite app_nil_r.
  - rewrite ends_at_app. cbn. lia.
  - intros c Hcl. split; [|constructor]. rewrite ends_at_app. cbn.
    destruct (last cs) as [c'|] eqn:Ecs.
    + rewrite last_app, Ecs in Hcl. injection Hcl as <-. rewrite (Hl c') by done. lia.
    + apply last_None in Ecs as ->. rewrite app_nil_r in Hcl.
      destruct (li_last _ _ _ _ _ I c Hcl). lia.
  - apply Forall_app. split.
    + eapply Forall_impl; [apply (li_reps _ _ _ _ _ I)|]. intros sg. apply repeats_of_mono.
      intros x Hx. apply elem_of_app. by left.
    + apply Forall_forall. intros sg Hsg t Ht. apply list_elem_of_fmap in Hsg as (c & -> & _).
      by apply list_elem_of_singleton in Ht.
Qed.

Lemma chunk_step_inv dn segs ov new st s rest :
  loop_inv dn segs ov new st → placed text 0 (dn ++ s :: rest) → chars_le4 (sent_text s) →
  ∃ st' segs' ov' new', chunk_step config st s = Some st' ∧ loop_inv (dn ++ [s]) segs' ov' new' st'.
Proof.
  intros I P H4. destruct (placed_next _ _ _ _ _ P) as [Ho Hpos].
  assert (Pd : placed text 0 dn) by (by apply placed_app_l in P).
  unfold chunk_step. destruct (Nat.ltb_spec (chunk_size config) (slen (sent_text s))) as [Hbig|Hsmall].
  - destruct (Nat.ltb_spec 0 (cs_length st)) as [Hl|Hl].
    + destruct (finish_current_inv _ _ _ _ _ I) as (F1 & F2 & F3 & F4 & F6 & F5).
      set (st1 := mkState (finish_current st) [] 0 (cs_start st) (S (cs_index st))).
      assert (I1 : loop_inv dn (segs ++ [repeated ov ++ fresh new]) [] [] st1).
      { split; cbn [cs_chunks cs_current cs_length cs_start cs_index st1]; try done; try (cbn; lia).
        - by rewrite F3.
        - by rewrite F3, (li_next _ _ _ _ _ I).
        - cbn. by rewrite str_app_nil.
        - exists dn. by rewrite app_nil_r.
        - pose proof (li_start _ _ _ _ _ I). lia.
        - intros c Hc. split; [by apply F5|constructor]. }
      destruct (force_split_inv _ _ _ _ _ I1 P H4) as (cs & -> & I2).
      cbn [mbind option_bind]. eauto 10.
    + destruct (empty_current _ _ _ _ _ I Pd) as [-> ->]; [lia|].
      destruct (force_split_inv _ _ _ _ _ I P H4) as (cs & -> & I2). cbn [mbind option_bind].
      rewrite (li_current _ _ _ _ _ I). replace (cs_length st) with 0 by lia. cbn [app]. eauto 10.
  - destruct (Nat.ltb_spec 0 (cs_length st)) as [Hl|Hl]; cbn [andb].
    + destruct (Nat.ltb_spec (chunk_size config) (cs_length st + slen (sent_text s))) as [Hover|Hfit].
      * pose proof (overlap_inv _ _ _ _ _ s I Pd Ho) as Hov.
        destruct (overlap_loop config (reverse (cs_current st)) 0 []) as [kept len]. destruct Hov as [Hlen I1].
        apply (add_sentence_inv _ _ _ _ _ s rest) in I1; [|done|cbn; lia].
        assert (Hst : match kept with k :: _ => sent_offset k | [] => sent_offset s end
                      + (len + slen (sent_text s)) ≤ ends_at 0 (dn ++ [s])).
        { destruct kept as [|k0 ks].
          - pose proof (li_length _ _ _ _ _ I1) as E.
            change (len + slen (sent_text s) = slen (sentences_text [s])) in E.
            rewrite sentences_text_1 in E. rewrite ends_at_app. cbn. lia.
          - apply (li_start _ _ _ _ _ I1). }
        apply (loop_inv_start _ _ _ _ _ _ I1) in Hst. eauto 10.
      * eexists _, _, _, _. split; [done|]. eapply add_sentence_inv; [done|done|lia].
    + eexists _, _, _, _. split; [done|]. eapply add_sentence_inv; [done|done|lia].
Qed.

Lemma chunk_loop_inv dn segs ov new st ss :
  loop_inv dn segs ov new st → placed text 0 (dn ++ ss) → chars_le4 text →
  ∃ st' segs' ov' new', chunk_loop config st ss = Some st' ∧ loop_inv (dn ++ ss) segs' ov' new' st'.
Proof.
  revert dn segs ov new st. induction ss as [|s ss IH]; intros dn segs ov new st I P H4.
  - rewrite app_nil_r. by exists st, segs, ov, new.
  - destruct (chunk_step_inv _ _ _ _ _ _ _ I P) as (st1 & segs1 & ov1 & new1 & E1 & I1).
    { apply placed_app_r in P. cbn in P. destruct P as (_ & _ & (a & b & E & _) & _).
      rewrite E in H4. by eapply chars_le4_take, chars_le4_drop. }
    cbn [chunk_loop]. rewrite E1. cbn [mbind option_bind].
    replace (dn ++ s :: ss) with ((dn ++ [s]) ++ ss) in * by by rewrite <- app_assoc.
    by apply (IH _ segs1 ov1 new1).
Qed.
End loop.

(* ------------------------------------------------------------------ *)
(** ** The result *)

Lemma map_last_snoc {A} (f : A → A) l x : map_last f (l ++ [x]) = l ++ [f x].
Proof. induction l as [|y l IH]; [done|]. cbn. rewrite IH. by destruct l. Qed.

(** The chunks of the sentences [ss], as pieces. *)
Record chunked (config : ChunkingConfig) (ss : list Sentence) (chunks : list TextChunk)
    (segs : list (list segment)) : Prop := {
  ck_pieces : Forall2 (λ c sg, tc_text c = seg_text sg) chunks segs;
  ck_fresh : str_concat (map seg_fresh segs) = sentences_text ss;
  ck_reps : Forall (repeats_of ss) segs;
  ck_overlap : Forall (λ sg, seg_repeat sg ≤ 2 * overlap config) segs;
  ck_size : Forall (λ c, slen (tc_text c) ≤ chunk_bound config + min_chunk_size config) chunks;
  ck_index : map tc_chunk_index chunks = seq 0 (length chunks);
}.

Section finish.
Context (config : ChunkingConfig) (text : string).

Lemma chunk_of_chunked chunks segs ss :
  Forall2 (chunk_of config) chunks segs → str_concat (map seg_fresh segs) = sentences_text ss →
  Forall (repeats_of ss) segs → map tc_chunk_index chunks = seq 0 (length chunks) →
  chunked config ss chunks segs.
Proof.
  intros H Hf Hr Hi. split; [|done|done| | |done].
  - eapply Forall2_impl; [exact H|]. by intros c sg (? & _).
  - eapply Forall2_Forall_r; [exact H|]. apply Forall_forall. intros c _ sg (_ & ? & _). lia.
  - eapply Forall2_Forall_l; [exact H|]. apply Forall_forall. intros sg _ c (_ & _ & ?). lia.
Qed.

(** A rest that is large enough becomes the last chunk. *)
Lemma chunk_push_ok ss segs ov new st e :
  loop_inv config ss segs ov new st →
  chunked config ss
    (cs_chunks st ++ [mkTextChunk (sentences_text (cs_current st)) (cs_start st) e (cs_index st)])
    (segs ++ [repeated ov ++ fresh new]).
Proof.
  intros I. destruct (finish_current_inv _ _ _ _ _ _ I) as (F1 & F2 & F3 & F4 & F5 & _).
  apply chunk_of_chunked; [|done|done|].
  - unfold finish_current in F1. apply Forall2_app_inv_l in F1 as (s1 & s2 & H1 & H2 & E).
    rewrite E. apply Forall2_app; [done|]. inversion H2 as [|?? ? ? Hc Hn]; subst. inversion Hn; subst.
    constructor; [exact Hc|constructor].
  - rewrite length_app, Nat.add_1_r. unfold finish_current in F2. by rewrite <- F2, !map_app.
Qed.

(** A small rest is merged: every fresh sentence is appended. *)
Lemma merge_rest_ok ss segs c sg ov new st cs :
  loop_inv config ss (segs ++ [sg]) ov new st → cs_chunks st = cs ++ [c] → length segs = length cs →
  cs_length st ≤ min_chunk_size config →
  chunked config ss (cs ++ [merge_rest (cs_current st) c])
    (segs ++ [sg ++ repeated (filter (λ s, tc_end_char c ≤ sent_offset s) ov) ++ fresh new]).
Proof.
  intros I Ec Hlen Hmin. set (rep := filter (λ s, tc_end_char c ≤ sent_offset s) ov).
  pose proof (li_chunks _ _ _ _ _ _ I) as HC. rewrite Ec in HC.
  apply Forall2_app_inv in HC as [HC1 HC2]; [|done]. inversion HC2 as [|?? ? ? (T1 & T2 & T3) _]; subst.
  assert (Hnew : Forall (λ s, tc_end_char c ≤ sent_offset s) new).
  { eapply (li_last _ _ _ _ _ _ I). by rewrite Ec, last_snoc. }
  assert (Ecur : filter (λ s, tc_end_char c ≤ sent_offset s) (cs_current st) = rep ++ new).
  { rewrite (li_current _ _ _ _ _ _ I), filter_app. f_equal.
    clear -Hnew. induction Hnew as [|s l Hs Hl IH]; [done|]. by rewrite filter_cons_True, IH. }
  assert (Hrep : slen (sentences_text rep) ≤ overlap config).
  { etrans; [|apply (li_overlap _ _ _ _ _ _ I)]. subst rep. clear. induction ov as [|s l IH]; [done|].
    rewrite filter_cons. unfold sentences_text in *. case_decide; cbn; rewrite ?slen_app; lia. }
  assert (Hcur : slen (sentences_text (rep ++ new)) ≤ cs_length st).
  { rewrite (li_length _ _ _ _ _ _ I), (li_current _ _ _ _ _ _ I), !sentences_text_app, !slen_app.
    enough (slen (sentences_text rep) ≤ slen (sentences_text ov)) by lia. subst rep. clear.
    induction ov as [|s l IH]; [done|]. rewrite filter_cons. unfold sentences_text in *.
    case_decide; cbn; rewrite ?slen_app; lia. }
  destruct (seg_repeated rep) as (R1 & R2 & R3), (seg_fresh_spec new) as (F1 & F2 & F3).
  pose proof (li_reps _ _ _ _ _ _ I) as HR. apply Forall_app in HR as [HR1 HR2]. inversion HR2; subst.
  split.
  - apply Forall2_app.
    + eapply Forall2_impl; [exact HC1|]. by intros ? ? (? & _).
    + repeat constructor. cbn. rewrite Ecur, !seg_text_app, R1, F1, T1, sentences_text_app. done.
  - pose proof (li_text _ _ _ _ _ _ I) as Ht. rewrite map_app, str_concat_app in Ht |- *. cbn in Ht |- *.
    rewrite str_app_nil in Ht |- *. rewrite !seg_fresh_app, R2, F2.
    change ("" +:+ sentences_text new) with (sentences_text new). by rewrite <- Ht, str_app_assoc.
  - apply Forall_app. split; [done|]. repeat constructor. intros t Ht.
    apply elem_of_app in Ht as [Ht|Ht]; [auto|]. eapply (repeats_of_parts ss rep new); [|done].
    intros x [_ Hx]%list_elem_of_filter. destruct (li_suffix _ _ _ _ _ _ I) as [pre ->].
    rewrite (li_current _ _ _ _ _ _ I). rewrite !elem_of_app. auto.
  - apply Forall_app. split.
    + eapply Forall2_Forall_r; [exact HC1|]. apply Forall_forall. intros ? _ ? (_ & ? & _). lia.
    + repeat constructor. rewrite !seg_repeat_app, R3, F3. lia.
  - apply Forall_app. split.
    + eapply Forall2_Forall_l; [exact HC1|]. apply Forall_forall. intros ? _ ? (_ & _ & ?). lia.
    + repeat constructor. cbn. rewrite Ecur, slen_app. lia.
  - pose proof (li_index _ _ _ _ _ _ I) as Hi. rewrite Ec in Hi. rewrite length_app in *.
    by rewrite map_app in *.
Qed.
End finish.

Lemma chunk_sentences_ok config text ss :
  ss ≠ [] → placed text 0 ss → chars_le4 text →
  ∃ chunks segs, chunk_sentences config ss = Some chunks ∧ chunks ≠ [] ∧ chunked config ss chunks segs.
Proof.
  intros Hne P H4.
  destruct (chunk_loop_inv config text [] [] [] [] _ ss (loop_inv_init config) P H4)
    as (st & segs & ov & new & E & I). cbn [app] in I.
  unfold chunk_sentences. rewrite E. cbn [mbind option_bind]. unfold chunk_finish.
  destruct (Nat.ltb_spec 0 (cs_length st)) as [Hl|Hl]; cbn [andb];
    [destruct (_ || _) eqn:Eor|].
  - eexists _, _. split_and!; [done| |by apply chunk_push_ok]. by destruct (cs_chunks st).
  - apply orb_false_iff in Eor as [Hm%Nat.leb_gt Hc%bool_decide_eq_false].
    destruct (exists_last Hc) as (cs & c & Ec). rewrite Ec, map_last_snoc.
    pose proof (li_chunks _ _ _ _ _ _ I) as HC. rewrite Ec in HC.
    apply Forall2_app_inv_l in HC as (s1 & s2 & HC1 & HC2 & ->).
    inversion HC2 as [|? sg ? ? _ Hn]; subst. inversion Hn; subst.
    eexists _, _. split_and!; [done|by destruct cs|].
    eapply merge_rest_ok; [done|done|symmetry; by eapply Forall2_length|lia].
  - destruct (empty_current config text _ _ _ _ _ I P) as [-> ->]; [lia|].
    assert (Hc : cs_chunks st ≠ []).
    { intros Ec. pose proof (li_chunks _ _ _ _ _ _ I) as HC. rewrite Ec in HC. inversion HC; subst.
      pose proof (li_text _ _ _ _ _ _ I) as Ht. destruct ss as [|s ss]; [done|].
      cbn in P. destruct P as (_ & Hs & _). apply (f_equal slen) in Ht. unfold sentences_text in Ht.
      cbn [map str_concat] in Ht. rewrite !slen_app in Ht. cbn in Ht. lia. }
    destruct (exists_last Hc) as (cs & c & Ec). rewrite Ec, map_last_snoc.
    pose proof (li_chunks _ _ _ _ _ _ I) as HC. rewrite Ec in HC.
    apply Forall2_app_inv_l in HC as (s1 & s2 & HC1 & HC2 & ->).
    inversion HC2 as [|? sg ? ? _ Hn]; subst. inversion Hn; subst.
    eexists _, _. split_and!; [done|by destruct cs|].
    eapply merge_rest_ok; [done|done|symmetry; by eapply Forall2_length|lia].
Qed.

(** Chunking never panics and loses nothing.  A text of at most
    [chunk_size] bytes, or one without sentences, is one chunk.  Otherwise
    the chunks are numbered from 0, each is at most [max(chunk_size, 4) +
    overlap + min_chunk_size] bytes long, and they are made of pieces: the
    fresh pieces of all chunks, in order, are exactly the sentences of the
    text, and the other pieces repeat sentences of the text, at most twice
    the overlap per chunk. *)
Lemma chunk_text_lossless (config : ChunkingConfig) `{UnicodeSegmentationLaws} (text : string) :
  valid_utf8 text = true →
  ∃ chunks, chunk_text config text = Some chunks ∧ chunks ≠ [] ∧
    ((slen text ≤ chunk_size config ∨ split text = Some []) ∧ chunks = whole_chunk text ∨
     ∃ ss segs, split text = Some ss ∧ chunked config ss chunks segs).
Proof.
  intros V. unfold chunk_text. destruct (Nat.leb_spec (slen text) (chunk_size config)) as [Hs|Hs].
  { exists (whole_chunk text). naive_solver. }
  destruct (split_sound text V) as (ss & E & P). rewrite E. cbn [mbind option_bind].
  destruct ss as [|s ss'] eqn:Ess; [exists (whole_chunk text); naive_solver|]. rewrite <- Ess in *.
  destruct (chunk_sentences_ok config text ss) as (chunks & segs & Ec & Hne & Hk);
    [by rewrite Ess|done|by apply chars_le4_valid|].
  exists chunks. split_and!; [by rewrite Ess in Ec |- *|done|right]. eauto.
Qed.

Definition small_chunking : ChunkingConfig := mkChunking 24 12 10.

Definition sample_text : string := "One two. Three. Four five six. Seven eight nine ten.".

Lemma chunk_text_lossless_witness :
  ∃ chunks, chunk_text small_chunking (H := dot_segmentation) sample_text = Some chunks ∧ chunks ≠ [] ∧
    ((slen sample_text ≤ chunk_size small_chunking ∨ split (H := dot_segmentation) sample_text = Some []) ∧
       chunks = whole_chunk sample_text ∨
     ∃ ss segs, split (H := dot_segmentation) sample_text = Some ss ∧
       chunked small_chunking ss chunks segs).
Proof. apply (chunk_text_lossless small_chunking (H := dot_segmentation)). vm_compute. reflexivity. Defined.

(** Numbered sentences of nine bytes, each followed by a space. *)
Definition numbered (n : nat) : string :=
  str_concat (map (λ i, "Item " +:+ pretty (N.of_nat i) +:+ ". ") (seq 100 n)).


(** The two chunks and the sentences of a text that gives two chunks. *)
Definition two_chunks (config : ChunkingConfig) `{UnicodeSegmentation} (text : string) :
    option (TextChunk * TextChunk * list Sentence) :=
  chunks ← chunk_text config text;
  ss ← split text;
  match chunks with [c1; c2] => Some (c1, c2, ss) | _ => None end.

Definition repeats_231 (x : TextChunk * TextChunk * list Sentence) : bool :=
  let '(c1, c2, ss) := x in
  String.eqb (tc_text c1) (sentences_text (take 133 ss))
  && String.eqb (tc_text c2)
       (sentences_text (take 133 (drop 111 ss)) +:+ sentences_text (drop 231 ss))
  && negb (String.eqb (tc_text c2) (sentences_text (drop 111 ss))).

(** The merge of a small rest repeats sentences.  The recorded end of a
    chunk is its start plus the length of its text, which leaves out the
    white space between sentences, so overlap sentences can lie behind it and
    are taken for new ones: with the default configuration, 260 numbered
    sentences give two chunks, and the second ends with the sentences from
    number 231 on although it already holds those up to number 243. *)
Lemma merge_repeats_overlap :
  ∃ c1 c2 ss,
    split (H := dot_segmentation) (numbered 260) = Some ss ∧
    chunk_text ChunkingConfig_default (H := dot_segmentation) (numbered 260) = Some [c1; c2] ∧
    tc_text c1 = sentences_text (take 133 ss) ∧
    tc_text c2 = sentences_text (take 133 (drop 111 ss)) +:+ sentences_text (drop 231 ss) ∧
    tc_text c2 ≠ sentences_text (drop 111 ss).
Proof.
  assert (H : (repeats_231 <$> two_chunks ChunkingConfig_default (H := dot_segmentation) (numbered 260))
              = Some true) by (vm_compute; reflexivity).
  unfold two_chunks in H.
  destruct (chunk_text _ _) as [chunks|]; [|done]. destruct (split _) as [ss|]; [|done].
  destruct chunks as [|c1 [|c2 [|]]]; try done. cbn [mbind option_bind fmap option_fmap option_map repeats_231] in H.
  injection H as H. rewrite !andb_true_iff, negb_true_iff, !String.eqb_eq, String.eqb_neq in H.
  destruct H as [[H1 H2] H3]. by exists c1, c2, ss.
Qed.

(* ------------------------------------------------------------------ *)
(** ** Splitting on add (store/shared_add.rs) *)

Definition ADD_CHUNK_THRESHOLD : nat := 1000.

Definition set_text_tags (text : string) (tags : list string) (c : MemoryChunk) : MemoryChunk :=
  mkChunk (mc_chunk_id c) (mc_tenant_id c) (mc_project_id c) (mc_agent_id c)
    (mc_timestamp_created c) (mc_timestamp_observed c) (mc_chunk_type c) (mc_status c)
    (mc_promotion_state c) (mc_source c) text tags (mc_hash c) (mc_ingestion_mode c).

Definition tag (name : string) (n : nat) : string := name +:+ pretty (N.of_nat n).

Definition sub_chunk (chunk : MemoryChunk) (total : nat) (idx : nat) (tc : TextChunk) : MemoryChunk :=
  set_text_tags (tc_text tc)
    (mc_tags chunk ++ [tag "chunk_index:" idx; tag "total_chunks:" total;
                       tag "char_start:" (tc_start_char tc); tag "char_end:" (tc_end_char tc)])
    chunk.

Definition split_for_add `{UnicodeSegmentation} (chunk : MemoryChunk) : option (list MemoryChunk) :=
  if slen (mc_text chunk) <=? ADD_CHUNK_THRESHOLD then Some [chunk]
  else
    text_chunks ← chunk_text ChunkingConfig_default (mc_text chunk);
    if length text_chunks <=? 1 then Some [chunk]
    else Some (imap (sub_chunk chunk (length text_chunks)) text_chunks).

(** C40: Adding a long document never panics and stores it whole or in parts:
    either the chunk itself, unchanged, or one sub-chunk per text chunk, in
    order, differing from the document in text and tags only. *)
Lemma split_for_add_sound `{UnicodeSegmentationLaws} (chunk : MemoryChunk) :
  valid_utf8 (mc_text chunk) = true →
  ∃ subs, split_for_add chunk = Some subs ∧
    (subs = [chunk] ∨
     ADD_CHUNK_THRESHOLD < slen (mc_text chunk) ∧
     ∃ tcs ss segs,
       chunk_text ChunkingConfig_default (mc_text chunk) = Some tcs ∧
       split (mc_text chunk) = Some ss ∧ chunked ChunkingConfig_default ss tcs segs ∧
       map mc_text subs = map tc_text tcs ∧ 2 ≤ length subs ∧
       Forall (λ c, set_text_tags (mc_text chunk) (mc_tags chunk) c = chunk) subs).
Proof.
  intros V. unfold split_for_add. destruct (Nat.leb_spec (slen (mc_text chunk)) ADD_CHUNK_THRESHOLD); [eauto|].
  destruct (chunk_text_lossless ChunkingConfig_default (mc_text chunk) V) as (tcs & E & Hne & Hor).
  rewrite E. cbn [mbind option_bind]. destruct (Nat.leb_spec (length tcs) 1); [eauto|].
  eexists. split; [done|right]. split; [done|].
  destruct Hor as [[_ ->]|(ss & segs & Es & Hk)]; [cbn in *; lia|].
  exists tcs, ss, segs. split_and!; [done..| | |].
  - apply list_eq. intros i. rewrite !list_lookup_fmap, list_lookup_imap. by destruct (tcs !! i).
  - rewrite length_imap. lia.
  - apply Forall_lookup. intros i c. rewrite list_lookup_imap.
    destruct (tcs !! i); cbn; [|done]. intros [= <-]. by destruct chunk.
Qed.

Definition sample_document : MemoryChunk :=
  mkChunk (mkChunkId 7) (TenantId.mk "t") None None 0 None Doc Final Raw
    (mkSource None None None None None None) (numbered 260) ["note"%string] "" Document.

Lemma split_for_add_sound_witness :
  ∃ subs, split_for_add (H := dot_segmentation) sample_document = Some subs ∧
    (subs = [sample_document] ∨
     ADD_CHUNK_THRESHOLD < slen (mc_text sample_document) ∧
     ∃ tcs ss segs,
       chunk_text ChunkingConfig_default (H := dot_segmentation) (mc_text sample_document) = Some tcs ∧
       split (H := dot_segmentation) (mc_text sample_document) = Some ss ∧
       chunked ChunkingConfig_default ss tcs segs ∧
       map mc_text subs = map tc_text tcs ∧ 2 ≤ length subs ∧
       Forall (λ c, set_text_tags (mc_text sample_document) (mc_tags sample_document) c = sample_document) subs).
Proof. apply (split_for_add_sound (H := dot_segmentation)). vm_compute. reflexivity. Defined.
