(* ===== verification/Tokenizer.v ===== *)
(** * Code-aware tokenization (src/crates/memd/src/text/tokenizer.rs,
      src/crates/memd/src/text/mod.rs)

    Words between delimiters, split on camel-case boundaries and normalised.
    The Unicode letter tables, lowercasing and the stemmer are parameters.
    [None] is a panic of a slice. *)

From stdpp Require Import pretty.
From Stdlib Require Import Ascii.
From S2P Require Import Prelude Crates Types Str Sentence.

Open Scope nat_scope.

(** [char::is_uppercase], [char::is_lowercase], [char::is_alphabetic] and
    the English stemmer of rust_stemmers. *)
Class CharTables : Type := {
  char_is_uppercase : string → bool;
  char_is_lowercase : string → bool;
  char_is_alphabetic : string → bool;
}.
Class Stemmer : Type := { stem : string → string }.

Inductive TokenType : Type := CodeToken | ProseToken | MixedToken.

Record TypedToken : Type := mkToken {
  tk_text : string;
  tk_type : TokenType;
  tk_from : nat;
  tk_to : nat;
}.

(** [is_separator]; 34 and 39 are the quotes. *)
Definition separators : list string :=
  ["."; ","; ";"; ":"; "("; ")"; "["; "]"; "{"; "}"; "<"; ">"; utf8 [34%N]; utf8 [39%N];
   "&"; "|"; "+"; "-"; "*"; "/"; "%"; "="; "!"; "?"]%string.
Definition is_separator (c : string) : bool := bool_decide (c ∈ separators).

Definition is_delimiter (c : string) : bool :=
  char_is_whitespace c || bool_decide (c = "_"%string) || is_separator c.

Section tokenizer.
Context `{Unicode, CharTables, Stemmer}.

(** [split_camel_case]: the loop over [chars] with the character before;
    [current] is not empty after the first character. *)
Fixpoint camel_loop (prev : option string) (current : list string) (cs : list string) :
    list (list string) :=
  match cs with
  | [] => match current with [] => [] | _ => [current] end
  | c :: rest =>
      match current with
      | [] => camel_loop (Some c) [c] rest
      | _ =>
          let prev_upper := match prev with Some p => char_is_uppercase p | None => false end in
          let curr_upper := char_is_uppercase c in
          let next_lower := match rest with n :: _ => char_is_lowercase n | [] => false end in
          let should_split :=
            if negb prev_upper && curr_upper then true
            else if prev_upper && curr_upper && next_lower then true else false in
          if should_split then current :: camel_loop (Some c) [c] rest
          else camel_loop (Some c) (current ++ [c]) rest
      end
  end.

Definition split_camel_case (word : string) : list string :=
  map str_concat (camel_loop None [] (str_chars word)).

Definition is_acronym (s : string) : bool :=
  let cs := str_chars s in (2 <=? length cs) && forallb char_is_uppercase cs.

Definition detect_token_type (token : string) : TokenType :=
  let cs := str_chars token in
  let has_upper := existsb char_is_uppercase cs in
  let has_lower := existsb char_is_lowercase cs in
  let all_alpha := forallb char_is_alphabetic cs in
  if negb all_alpha then CodeToken
  else if is_acronym token then CodeToken
  else if has_upper && has_lower then CodeToken
  else if has_lower && negb has_upper then ProseToken
  else MixedToken.

Definition normalize (subtoken : string) : string :=
  match detect_token_type subtoken with
  | CodeToken => if is_acronym subtoken then subtoken else str_to_lowercase subtoken
  | ProseToken => stem (str_to_lowercase subtoken)
  | MixedToken => str_to_lowercase subtoken
  end.

Fixpoint subtoken_loop (subtokens : list string) (pos : nat) : list TypedToken :=
  match subtokens with
  | [] => []
  | subtoken :: rest =>
      if bool_decide (subtoken = ""%string) then subtoken_loop rest pos
      else
        let subtoken_end := pos + slen subtoken in
        mkToken (normalize subtoken) (detect_token_type subtoken) pos subtoken_end
        :: subtoken_loop rest subtoken_end
  end.

Definition push_word_tokens (word : string) (word_start : nat) : list TypedToken :=
  subtoken_loop (split_camel_case word) word_start.

(** The loop over [char_indices]. *)
Fixpoint word_loop (text : string) (cs : list string) (idx : nat) (word_start : option nat) :
    option (list TypedToken) :=
  match cs with
  | [] =>
      match word_start with
      | Some start =>
          word ← str_slice start (slen text) text;
          Some (push_word_tokens word start)
      | None => Some []
      end
  | ch :: cs =>
      let next := idx + slen ch in
      if is_delimiter ch then
        match word_start with
        | Some start =>
            word ← str_slice start idx text;
            rest ← word_loop text cs next None;
            Some (push_word_tokens word start ++ rest)
        | None => word_loop text cs next None
        end
      else
        word_loop text cs next (match word_start with None => Some idx | _ => word_start end)
  end.

Definition tokenize_typed (text : string) : option (list TypedToken) :=
  word_loop text (str_chars text) 0 None.

Definition tokenize (text : string) : option (list string) :=
  map tk_text <$> tokenize_typed text.

(** [TextProcessor::process_chunk] *)
Record ProcessedSentence : Type := mkProcessed {
  ps_text : string;
  ps_tokens : list string;
  ps_is_code : bool;
  ps_offset : nat;
}.

Definition process_sentence (s : Sentence) : option ProcessedSentence :=
  tokens ← tokenize (sent_text s);
  Some (mkProcessed (sent_text s) tokens (sent_is_code s) (sent_offset s)).

Definition process_chunk `{UnicodeSegmentation} (text : string) : option (list ProcessedSentence) :=
  sentences ← split text;
  mapM process_sentence sentences.
End tokenizer.

(** *** The tantivy token stream *)

Record Token : Type := mkTok {
  t_text : string; t_from : nat; t_to : nat; t_position : nat; t_position_length : nat;
}.
Record CodeTokenStream : Type := mkStream {
  ts_tokens : list TypedToken; ts_index : nat; ts_token : Token;
}.
(** [token0] is tantivy's [Token::default()]. *)
Definition stream_new (token0 : Token) (tokens : list TypedToken) : CodeTokenStream :=
  mkStream tokens 0 token0.

(** [advance]: false at the end, otherwise the next token is current. *)
Definition advance (ts : CodeTokenStream) : bool * CodeTokenStream :=
  match ts_tokens ts !! ts_index ts with
  | None => (false, ts)
  | Some typed =>
      (true, mkStream (ts_tokens ts) (S (ts_index ts))
               (mkTok (tk_text typed) (tk_from typed) (tk_to typed) (ts_index ts) 1))
  end.

(** [while stream.advance() { collect(stream.token()) }] *)
Fixpoint drain (fuel : nat) (ts : CodeTokenStream) : list Token :=
  match fuel with
  | O => []
  | S fuel => let '(more, ts') := advance ts in
              if more then ts_token ts' :: drain fuel ts' else []
  end.

(* ------------------------------------------------------------------ *)
(** ** Facts *)

Section facts.
Context `{Unicode, CharTables, Stemmer}.

(** Splitting on camel case only cuts. *)
Lemma camel_loop_concat prev current cs :
  concat (camel_loop prev current cs) = current ++ cs ∧
  (Forall (λ g, g ≠ []) (camel_loop prev current cs)).
Proof.
  revert prev current. induction cs as [|c cs IH]; intros prev current; cbn [camel_loop].
  - destruct current; cbn; rewrite ?app_nil_r; by repeat constructor.
  - destruct current as [|d current].
    + destruct (IH (Some c) [c]) as [-> ?]. done.
    + match goal with |- context [if ?b then (d :: current) :: _ else _] => destruct b end.
      * destruct (IH (Some c) [c]) as [IH1 IH2]. cbn [concat]. rewrite IH1. by repeat constructor.
      * destruct (IH (Some c) ((d :: current) ++ [c])) as [-> ?]. by rewrite <- app_assoc.
Qed.

Lemma str_concat_concat l : str_concat (map str_concat l) = str_concat (concat l).
Proof. induction l as [|x l IH]; [done|]. cbn [map str_concat concat]. by rewrite IH, str_concat_app. Qed.

Lemma split_camel_case_concat word :
  str_concat (split_camel_case word) = word ∧ Forall (λ s, s ≠ ""%string) (split_camel_case word).
Proof.
  unfold split_camel_case. destruct (camel_loop_concat None [] (str_chars word)) as [E Hne]. split.
  - rewrite str_concat_concat, E. apply str_chars_concat.
  - apply Forall_forall. intros s Hs. apply list_elem_of_fmap in Hs as (g & -> & Hg).
    eapply Forall_forall in Hne; [|exact Hg]. destruct g as [|c g]; [done|].
    assert (c ∈ str_chars word) as Hc.
    { change (c ∈ [] ++ str_chars word). rewrite <- E. apply list_elem_of_In, in_concat.
      exists (c :: g). split; [by apply list_elem_of_In|by left]. }
    pose proof (str_chars_nonempty word) as Hn. eapply Forall_forall in Hn; [|exact Hc]. by destruct c.
Qed.

(** Tokens in order, disjoint, from [lo] on, and inside the text; each holds
    the normal form of the text between its offsets. *)
Fixpoint spans (text : string) (lo : nat) (toks : list TypedToken) : Prop :=
  match toks with
  | [] => lo ≤ slen text
  | t :: toks =>
      lo ≤ tk_from t < tk_to t ∧
      tk_text t = normalize (String.substring (tk_from t) (tk_to t - tk_from t) text) ∧
      spans text (tk_to t) toks
  end.

Definition slices (text : string) (toks : list TypedToken) : string :=
  str_concat (map (λ t, String.substring (tk_from t) (tk_to t - tk_from t) text) toks).

Lemma spans_weaken text lo lo' toks : lo' ≤ lo → spans text lo toks → spans text lo' toks.
Proof. destruct toks; cbn; [lia|]. intros ? ([? ?] & ? & ?). split_and!; [lia|lia|done|done]. Qed.

Lemma slices_app text a b : slices text (a ++ b) = slices text a +:+ slices text b.
Proof. unfold slices. by rewrite map_app, str_concat_app. Qed.

(** The tokens of one word lie side by side and cover it. *)
Lemma subtoken_loop_spec text pre post subs toks :
  text = pre +:+ (str_concat subs +:+ post) → Forall (λ s, s ≠ ""%string) subs →
  spans text (slen pre + slen (str_concat subs)) toks →
  spans text (slen pre) (subtoken_loop subs (slen pre) ++ toks) ∧
  slices text (subtoken_loop subs (slen pre)) = str_concat subs.
Proof.
  revert pre. induction subs as [|s subs IH]; intros pre Et Hne Hs; cbn [subtoken_loop].
  { cbn in Hs. rewrite Nat.add_0_r in Hs. done. }
  inversion Hne as [|?? Hsne Hne']; subst x l. rewrite bool_decide_false by done.
  cbn [str_concat] in *. rewrite str_app_assoc in Et. rewrite slen_app in Hs.
  destruct (IH (pre +:+ s)) as [I1 I2]; [by rewrite str_app_assoc|done| |].
  { rewrite slen_app. by replace (slen pre + slen s + slen (str_concat subs)) with
      (slen pre + (slen s + slen (str_concat subs))) by lia. }
  rewrite slen_app in I1, I2.
  assert (Esub : String.substring (slen pre) (slen pre + slen s - slen pre) text = s).
  { rewrite Et. apply substring_mid; lia. }
  split.
  - cbn. rewrite Esub. split_and!; [lia| |done|done]. destruct s; [done|cbn; lia].
  - unfold slices in *. cbn. rewrite Esub, I2. done.
Qed.

Lemma push_word_spec text pre word post toks :
  text = pre +:+ (word +:+ post) → spans text (slen pre + slen word) toks →
  spans text (slen pre) (push_word_tokens word (slen pre) ++ toks) ∧
  slices text (push_word_tokens word (slen pre)) = word.
Proof.
  intros Et Hs. unfold push_word_tokens. destruct (split_camel_case_concat word) as [E Hne].
  rewrite <- E in Et, Hs. destruct (subtoken_loop_spec text pre post _ toks Et Hne Hs). by rewrite E in *.
Qed.

(** The characters that are kept. *)
Definition kept (cs : list string) : string :=
  str_concat (filter (λ c, is_delimiter c = false) cs).

Lemma kept_app a b : kept (a ++ b) = kept a +:+ kept b.
Proof. unfold kept. by rewrite filter_app, str_concat_app. Qed.

(** Positions between the characters of a text are boundaries. *)
Lemma chars_boundary text a b :
  str_chars text = a ++ b → is_char_boundary text (slen (str_concat a)) = true ∧
  text = str_concat a +:+ str_concat b.
Proof.
  intros E. assert (text = str_concat a +:+ str_concat b) as Et.
  { by rewrite <- (str_chars_concat text), E, str_concat_app. }
  split; [|done]. rewrite Et at 1. apply is_char_boundary_app.
  destruct a as [|x a]; [by left|right]. pose proof (str_chars_leads text) as Hl.
  pose proof (str_chars_nonempty text) as Hn. rewrite E in Hl, Hn. cbn in Hl, Hn.
  apply Forall_app in Hl as [_ Hl]. inversion Hn as [|?? _ Hn']; subst. apply Forall_app in Hn' as [_ Hn'].
  destruct b as [|[|d d'] b]; [done|by inversion Hn'|by inversion Hl].
Qed.

(** The word loop at any point: [a] is done, [w] is the word being read. *)
Lemma word_loop_spec text cs a w :
  str_chars text = a ++ w ++ cs → Forall (λ c, is_delimiter c = false) w →
  ∃ toks, word_loop text cs (slen (str_concat (a ++ w)))
            (match w with [] => None | _ => Some (slen (str_concat a)) end) = Some toks ∧
    spans text (slen (str_concat a)) toks ∧ slices text toks = str_concat w +:+ kept cs.
Proof.
  revert a w. induction cs as [|c cs IH]; intros a w E Hw; cbn [word_loop].
  - rewrite app_nil_r in E. destruct (chars_boundary text a w E) as [Hb Et].
    assert (slen text = slen (str_concat a) + slen (str_concat w)) as Hl by (rewrite Et at 1; apply slen_app).
    destruct w as [|w0 w'] eqn:Ew.
    { exists []. cbn. split_and!; [done|cbn in Hl; lia|done]. }
    rewrite <- Ew in *. rewrite str_slice_ok; [|lia|done|apply is_char_boundary_end].
    cbn [mbind option_bind].
    assert (String.substring (slen (str_concat a)) (slen text - slen (str_concat a)) text = str_concat w) as ->.
    { rewrite Et at 2. apply substring_suffix; lia. }
    destruct (push_word_spec text (str_concat a) (str_concat w) "" []) as [S1 S2].
    { by rewrite str_app_nil. } { cbn. lia. }
    rewrite app_nil_r in S1. eexists. split_and!; [done|done|]. rewrite S2. by rewrite str_app_nil.
  - unfold kept. rewrite filter_cons. destruct (is_delimiter c) eqn:Ec.
    + rewrite decide_False by done.
      assert (E2 : str_chars text = (a ++ w ++ [c]) ++ [] ++ cs) by (by rewrite E, <- !app_assoc).
      destruct (IH (a ++ w ++ [c]) [] E2 ltac:(constructor)) as (toks & Eq & Sp & Sl).
      rewrite app_nil_r in Eq. rewrite app_assoc, str_concat_app, slen_app in Eq.
      assert (slen (str_concat [c]) = slen c) as Hc by (cbn; by rewrite str_app_nil).
      rewrite Hc in Eq. destruct w as [|w0 w'] eqn:Ew.
      * exists toks. rewrite app_nil_r in *. rewrite Eq. split_and!; [done| |done].
        eapply spans_weaken; [|exact Sp]. rewrite str_concat_app, slen_app. lia.
      * rewrite <- Ew in *.
        destruct (chars_boundary text a (w ++ c :: cs)) as [Hb Et]; [by rewrite E|].
        destruct (chars_boundary text (a ++ w) (c :: cs)) as [Hb2 Et2]; [by rewrite E, <- app_assoc|].
        rewrite str_concat_app in Et. assert (slen (str_concat (a ++ w)) ≤ slen text).
        { apply (f_equal slen) in Et2. rewrite slen_app in Et2. lia. }
        rewrite str_slice_ok; [|rewrite str_concat_app, slen_app in *; lia|done|done].
        cbn [mbind option_bind].
        assert (String.substring (slen (str_concat a)) (slen (str_concat (a ++ w)) - slen (str_concat a)) text
                = str_concat w) as ->.
        { rewrite Et. apply substring_mid; [done|]. rewrite str_concat_app, slen_app. lia. }
        rewrite Eq. cbn [mbind option_bind].
        destruct (push_word_spec text (str_concat a) (str_concat w) (str_concat (c :: cs)) toks) as [S1 S2];
          [done| |].
        { eapply spans_weaken; [|exact Sp]. rewrite !str_concat_app, !slen_app. lia. }
        eexists. split_and!; [done|done|]. rewrite slices_app, S2, Sl. done.
    + rewrite decide_True by done.
      assert (E2 : str_chars text = a ++ (w ++ [c]) ++ cs) by (by rewrite E, <- !app_assoc).
      destruct (IH a (w ++ [c]) E2) as (toks & Eq & Sp & Sl).
      { apply Forall_app. split; [done|by repeat constructor]. }
      rewrite app_assoc, str_concat_app, slen_app in Eq.
      assert (slen (str_concat [c]) = slen c) as Hc by (cbn; by rewrite str_app_nil). rewrite Hc in Eq.
      exists toks. split_and!; [|done|].
      * destruct w as [|w0 w']; [|done]. by rewrite app_nil_r in *.
      * rewrite Sl, str_concat_app. cbn. by rewrite str_app_nil, str_app_assoc.
Qed.

Lemma tokenize_typed_spec text :
  ∃ toks, tokenize_typed text = Some toks ∧ spans text 0 toks ∧
    slices text toks = kept (str_chars text).
Proof.
  destruct (word_loop_spec text (str_chars text) [] []) as (toks & E & Sp & Sl); [done|constructor|].
  by exists toks.
Qed.

Lemma drain_spec toks i tok fuel :
  length toks - i < fuel →
  drain fuel (mkStream toks i tok) =
  imap (λ j t, mkTok (tk_text t) (tk_from t) (tk_to t) (i + j) 1) (drop i toks).
Proof.
  revert i tok. induction fuel as [|fuel IH]; intros i tok Hf; [lia|]. cbn [drain].
  unfold advance. cbn [ts_tokens ts_index]. destruct (toks !! i) as [t|] eqn:Ei.
  - pose proof (lookup_lt_Some _ _ _ Ei). rewrite (drop_S toks t i Ei). cbn [imap].
    rewrite IH by lia. rewrite Nat.add_0_r. f_equal. apply imap_ext. intros j t' _. cbn.
    by rewrite Nat.add_succ_r.
  - apply lookup_ge_None in Ei. by rewrite drop_ge by done.
Qed.

(** Tokenizing any text never panics and is exact.  The tokens lie in
    text order, do not overlap and stay inside the text; each is the
    normalised form of the text between its offsets; put together, the slices
    are the text without white space, underscores and separators, so no
    character of a word is lost or repeated.  The tantivy stream yields these
    tokens once each, numbered by position. *)
Lemma tokenize_exact (text : string) (token0 : Token) :
  ∃ toks, tokenize_typed text = Some toks ∧ spans text 0 toks ∧
    slices text toks = kept (str_chars text) ∧
    tokenize text = Some (map tk_text toks) ∧
    drain (S (length toks)) (stream_new token0 toks) =
      imap (λ i t, mkTok (tk_text t) (tk_from t) (tk_to t) i 1) toks.
Proof.
  destruct (tokenize_typed_spec text) as (toks & E & Sp & Sl). exists toks. split_and!; [done..| |].
  - unfold tokenize. by rewrite E.
  - unfold stream_new. rewrite drain_spec by lia. by rewrite drop_0.
Qed.
End facts.

(** An ASCII instance of the tables. *)
Definition ascii_between (lo hi : N) (c : string) : bool :=
  match c with
  | String a "" => let n := N_of_ascii a in ((lo <=? n) && (n <=? hi))%N
  | _ => false
  end.
Definition ascii_tables : CharTables :=
  {| char_is_uppercase := ascii_between 65 90; char_is_lowercase := ascii_between 97 122;
     char_is_alphabetic := λ c, ascii_between 65 90 c || ascii_between 97 122 c |}.
Definition ascii_lower (a : ascii) : ascii :=
  let n := N_of_ascii a in if ((65 <=? n) && (n <=? 90))%N then ascii_of_N (n + 32) else a.
Fixpoint string_lower (s : string) : string :=
  match s with "" => "" | String a s => String (ascii_lower a) (string_lower s) end%string.
Definition lower_unicode : Unicode :=
  {| str_to_lowercase := string_lower; str_split_whitespace := λ s, [s] |}.
Definition no_stemmer : Stemmer := {| stem := id |}.

(** The examples of the source's documentation. *)
Example camel_samples :
  map (split_camel_case (H0 := ascii_tables)) ["getUserById"; "HTTPResponse"; "parseJSONData"]%string =
  [["get"; "User"; "By"; "Id"]; ["HTTP"; "Response"]; ["parse"; "JSON"; "Data"]]%string.
Proof. vm_compute. reflexivity. Qed.

Example tokenize_sample :
  tokenize (H := lower_unicode) (H0 := ascii_tables) (H1 := no_stemmer) "my_fn(HTTPGet, x2)" =
  Some ["my"; "fn"; "HTTP"; "get"; "x2"]%string.
Proof. vm_compute. reflexivity. Qed.
