(* ===== verification/Bm25.v ===== *)
(** * The sparse index (src/crates/memd/src/index/{sparse,bm25}.rs)

    The trait [SparseIndex] as a class, and [Bm25Index], its implementation
    over Tantivy.  The engine is third-party: a class [Tantivy] with the calls
    the code makes, and laws about three views of its documents, staged by
    the writer, committed, and visible to the reader.  Every sentence of a
    chunk is a document of its own.  Opening the index is not modelled; the
    mutex around the writer is taken for whole methods. *)

From S2P Require Import Prelude Crates Types Metadata Str Ranking.

Open Scope Z_scope.

Record SparseSearchResult : Type := mkSparse {
  sp_chunk_id : ChunkId;
  sp_score : f32;
  sp_sentence_idx : Z;
}.

(** A chunk's sentences, as [insert_batch] takes them. *)
Definition SparseItem : Type := TenantId * ChunkId * list string.

Class SparseIndex (X : Type) : Type := {
  sparse_insert_batch : list SparseItem → X → memd_result () * X;
  sparse_search : TenantId → string → Z → X → memd_result (list SparseSearchResult) * X;
  sparse_delete : TenantId → ChunkId → X → memd_result bool * X;
  sparse_doc_count : TenantId → X → memd_result Z * X;
}.

(* ------------------------------------------------------------------ *)
(** ** Tantivy *)

(** The fields of a document that is added. *)
Record SparseDoc : Type := mkDoc {
  sd_tenant_id : string;
  sd_chunk_id : string;
  sd_sentence_idx : Z;
  sd_text : string;
}.
(** What is read back of a document: [get_first(field).and_then(as_..)]. *)
Record StoredDoc : Type := mkStoredDoc { st_chunk_id : option string; st_sentence_idx : option Z }.
Definition stored_of (d : SparseDoc) : StoredDoc := mkStoredDoc (Some (sd_chunk_id d)) (Some (sd_sentence_idx d)).

Class Tantivy (T Q : Type) : Type := {
  (** the writer *)
  tv_add_document : SparseDoc → T → Result string () * T;
  tv_delete_query : string → string → T → Result string () * T;
  tv_commit : T → Result string () * T;
  (** [merge(..)] and [wait()] *)
  tv_merge : list Z → T → Result string () * T;
  tv_searchable_segment_ids : T → Result string (list Z);
  (** the reader *)
  tv_reload : T → Result string () * T;
  tv_num_docs : T → Z;
  tv_segment_readers : T → Z;
  (** score and address of the best documents of a tenant *)
  tv_search : string → Q → Z → T → Result string (list (f32 * Z));
  tv_count : string → option string → T → Result string Z;
  tv_doc : Z → T → Result string StoredDoc;
  (** the parser of queries over the text field; the lenient one also says
      whether it met no error *)
  tv_parse_query : string → Result string Q;
  tv_parse_query_lenient : string → Q * bool;
  (** what the laws speak about *)
  tv_staged : T → list SparseDoc;
  tv_committed : T → list SparseDoc;
  tv_visible : T → list SparseDoc;
  tv_matches : Q → SparseDoc → bool;
  tv_score : Q → SparseDoc → T → f32;
  (** the disk and the threads of the writer do not fail *)
  tv_healthy : T → Prop;
}.

(** [tenant_field == t AND chunk_field == c]. *)
Definition doc_of (t c : string) (d : SparseDoc) : Prop := sd_tenant_id d = t ∧ sd_chunk_id d = c.
#[export] Instance doc_of_dec t c d : base.Decision (doc_of t c d).
Proof. unfold doc_of. apply _. Defined.

Definition of_tenant (t : string) (d : SparseDoc) : Prop := sd_tenant_id d = t.
#[export] Instance of_tenant_dec t d : base.Decision (of_tenant t d).
Proof. unfold of_tenant. apply _. Defined.

(** The documents a search of a tenant matches. *)
Definition hits (matches : SparseDoc → bool) (t : string) (docs : list SparseDoc) : list SparseDoc :=
  filter (λ d, of_tenant t d ∧ matches d = true) docs.

(** Documents do not get lost: the views change as documented, and the calls
    of a healthy engine succeed.  A search returns the best documents, all of
    them when they are fewer than the limit, best first. *)
Class TantivyLaws (T Q : Type) `{TV : Tantivy T Q} : Prop := {
  tv_add_law d x : tv_healthy x → ∃ x', tv_add_document d x = (Ok (), x') ∧ tv_healthy x' ∧
    tv_staged x' ≡ₚ d :: tv_staged x ∧ tv_committed x' = tv_committed x;
  tv_delete_law t c x : tv_healthy x → ∃ x', tv_delete_query t c x = (Ok (), x') ∧ tv_healthy x' ∧
    tv_staged x' ≡ₚ filter (λ d, ¬ doc_of t c d) (tv_staged x) ∧ tv_committed x' = tv_committed x;
  tv_commit_law x : tv_healthy x → ∃ x', tv_commit x = (Ok (), x') ∧ tv_healthy x' ∧
    tv_staged x' = tv_staged x ∧ tv_committed x' ≡ₚ tv_staged x;
  tv_merge_law x : tv_healthy x → ∃ ids, tv_searchable_segment_ids x = Ok ids ∧
    ∃ x', tv_merge ids x = (Ok (), x') ∧ tv_healthy x' ∧
      tv_staged x' ≡ₚ tv_staged x ∧ tv_committed x' ≡ₚ tv_committed x ∧
      ∃ ids', tv_searchable_segment_ids x' = Ok ids' ∧ (length ids' ≤ 1)%nat;
  tv_reload_law x : tv_healthy x → ∃ x', tv_reload x = (Ok (), x') ∧ tv_healthy x' ∧
    tv_staged x' = tv_staged x ∧ tv_committed x' = tv_committed x ∧ tv_visible x' = tv_committed x ∧
    tv_searchable_segment_ids x' = tv_searchable_segment_ids x ∧
    ∀ ids, tv_searchable_segment_ids x = Ok ids → tv_segment_readers x' = zlen ids;
  tv_num_docs_law x : tv_num_docs x = zlen (tv_visible x);
  tv_count_law t x : tv_healthy x →
    tv_count t None x = Ok (zlen (filter (of_tenant t) (tv_visible x)));
  tv_count_doc_law t c x : tv_healthy x →
    tv_count t (Some c) x = Ok (zlen (filter (doc_of t c) (tv_visible x)));
  tv_search_law t q limit x : tv_healthy x → 0 < limit → ∃ found docs rest,
    tv_search t q limit x = Ok found ∧ docs ++ rest ≡ₚ hits (tv_matches q) t (tv_visible x) ∧
    Forall2 (λ h d, h.1 = tv_score q d x ∧ tv_doc h.2 x = Ok (stored_of d)) found docs ∧
    zlen docs ≤ limit ∧ (zlen docs < limit → rest = []) ∧
    Sorted.StronglySorted (λ d e, f32_le (tv_score q e x) (tv_score q d x) = true) docs ∧
    (∀ d e, d ∈ docs → e ∈ rest → f32_le (tv_score q e x) (tv_score q d x) = true) ∧
    (∀ d, d ∈ docs → f32_le (tv_score q d x) (tv_score q d x) = true);
}.

(** [char::is_alphanumeric] *)
Class AlphaNumeric : Type := { char_is_alphanumeric : string → bool }.

(* ------------------------------------------------------------------ *)
(** ** The index *)

Definition SPARSE_CHUNK_OVERFETCH : Z := 8.
Definition SPARSE_FETCH_CEILING : Z := 1024.

Record Bm25Index (T : Type) : Type := mkBm25 {
  bm_index : T;
  (** [writer.is_some()] *)
  bm_writer : bool;
  bm_dirty : bool;
}.
Arguments mkBm25 {_} _ _ _.
Arguments bm_index {_} _.
Arguments bm_writer {_} _.
Arguments bm_dirty {_} _.

(** The characters of [SPECIAL_CHARS]; 34 is the quote. *)
Definition special_chars : list string :=
  ["\"; "+"; "-"; "&"; "|"; "!"; "("; ")"; "{"; "}"; "["; "]"; "^"; utf8 [34%N]; "~"; "*"; "?"; ":"; "/"]%string.

Definition escape_query_text (query : string) : string :=
  str_concat (flat_map (λ c, if bool_decide (c ∈ special_chars) then ["\"%string; c] else [c]) (str_chars query)).

Definition plain_query_text `{AlphaNumeric} (query : string) : string :=
  str_concat (map (λ c, if char_is_alphanumeric c || bool_decide (c = "_"%string) then c else " "%string)
                (str_chars query)).

Section bm25.
Context {T Q : Type} `{TV : Tantivy T Q} `{U : Uuid ChunkId} `{AN : AlphaNumeric}.

(** Four attempts, each more tolerant; the first that succeeds wins. *)
Definition parse_text_query (query : string) : memd_result Q :=
  let escaped := escape_query_text query in
  let plain := plain_query_text query in
  match tv_parse_query query with
  | Ok parsed => Ok parsed
  | Err primary_err =>
      match tv_parse_query escaped with
      | Ok parsed => Ok parsed
      | Err _ =>
          let '(lenient, clean) := tv_parse_query_lenient escaped in
          if (clean : bool) then Ok lenient
          else
            let refused := Err (ValidationError "parse query: {}; lenient parser also reported syntax issues") in
            if bool_decide (str_trim plain = ""%string) then refused
            else
              match tv_parse_query plain with
              | Ok parsed => Ok parsed
              | Err _ =>
                  let '(lenient, clean) := tv_parse_query_lenient plain in
                  if (clean : bool) then Ok lenient else refused
              end
      end
  end.

(** A method: result and index. *)
Definition BM (A : Type) : Type := Bm25Index T → memd_result A * Bm25Index T.
#[export] Instance bm_ret : MRet BM := λ A a x, (Ok a, x).
#[export] Instance bm_bind : MBind BM := λ A B k m x,
  let '(r, x) := m x in match r with Ok a => k a x | Err e => (Err e, x) end.

Definition bm_lift {A} (r : memd_result A) : BM A := λ x, (r, x).
Definition bm_gets {A} (f : T → memd_result A) : BM A := λ x, (f (bm_index x), x).
Definition bm_get {A} (f : T → A) : BM A := bm_gets (λ e, Ok (f e)).
(** A call of the engine, its error as a storage error. *)
Definition bm_call {A} (what : string) (f : T → Result string A * T) : BM A := λ x,
  let '(r, e) := f (bm_index x) in
  (map_err (λ msg, StorageError (what +:+ msg)) r, mkBm25 e (bm_writer x) (bm_dirty x)).
Definition bm_read {A} (what : string) (f : T → Result string A) : BM A := λ x,
  (map_err (λ msg, StorageError (what +:+ msg)) (f (bm_index x)), x).
Definition bm_set_dirty (b : bool) : BM () := λ x, (Ok (), mkBm25 (bm_index x) (bm_writer x) b).
Definition bm_require_writer (op : string) : BM () := λ x,
  if bm_writer x then (Ok (), x) else (Err (ReadOnlyStore op), x).

(** [dirty.swap(false)] comes before the commit. *)
Definition commit_if_dirty : BM () := λ x,
  if bm_writer x then
    if bm_dirty x then (bm_set_dirty false ≫= λ _, bm_call "commit: " tv_commit) x else bm_set_dirty false x
  else (Ok (), x).
(** [commit] *)
Definition bm_commit : BM () := commit_if_dirty.

Definition bm_reload : BM () := bm_call "reload reader: " tv_reload.

(** [total_docs] *)
Definition total_docs : BM Z := bm_get tv_num_docs.

(** [segment_count] *)
Definition segment_count : BM Z :=
  _ ← commit_if_dirty; _ ← bm_reload; bm_get tv_segment_readers.

Definition merge_all_segments : BM () :=
  _ ← commit_if_dirty;
  segment_ids ← bm_read "list segments: " tv_searchable_segment_ids;
  if bool_decide (length segment_ids ≤ 1)%nat then mret ()
  else
    _ ← bm_require_writer "bm25_merge_all_segments";
    _ ← bm_call "merge segments: " (tv_merge segment_ids);
    bm_call "reload merged index: " tv_reload.

(** The documents of an item, one per sentence. *)
Definition item_docs (item : SparseItem) : list SparseDoc :=
  let '(tenant_id, chunk_id, sentences) := item in
  imap (λ idx sentence, mkDoc (TenantId.as_str tenant_id) (uuid_to_string chunk_id) (Z.of_nat idx) sentence) sentences.

Fixpoint add_documents (docs : list SparseDoc) : BM () :=
  match docs with
  | [] => mret ()
  | d :: docs => _ ← bm_call "add document: " (tv_add_document d); add_documents docs
  end.

Definition bm_insert_batch (items : list SparseItem) : BM () :=
  if bool_decide (items = []) then mret ()
  else
    _ ← bm_require_writer "bm25_insert_batch";
    _ ← add_documents (concat (map item_docs items));
    bm_set_dirty true.

Definition bm_insert (t : TenantId) (c : ChunkId) (sentences : list string) : BM () :=
  bm_insert_batch [(t, c, sentences)].

(** [k.saturating_mul(OVERFETCH).min(CEILING).max(k)] *)
Definition fetch_limit (k : Z) : Z :=
  Z.max (Z.min (Z.min u64_max (k * SPARSE_CHUNK_OVERFETCH)) SPARSE_FETCH_CEILING) k.

(** The loop over [top_docs]. *)
Fixpoint collapse_hits (k : Z) (top_docs : list (f32 * Z)) (seen : gset ChunkId)
    (results : list SparseSearchResult) (e : T) : memd_result (list SparseSearchResult) :=
  match top_docs with
  | [] => Ok results
  | (score, doc_address) :: top_docs =>
      doc ← map_err (λ msg, StorageError ("retrieve doc: " +:+ msg)) (tv_doc doc_address e);
      chunk_id_str ← ok_or (st_chunk_id doc) (StorageError "missing chunk_id");
      let sentence_idx := default 0 (st_sentence_idx doc) in
      chunk_id ← chunk_id_parse chunk_id_str;
      if bool_decide (chunk_id ∈ seen) then collapse_hits k top_docs seen results e
      else
        let results := results ++ [mkSparse chunk_id score sentence_idx] in
        if k <=? zlen results then Ok results
        else collapse_hits k top_docs ({[chunk_id]} ∪ seen) results e
  end.

Definition bm_search (t : TenantId) (query : string) (k : Z) : BM (list SparseSearchResult) :=
  if k =? 0 then mret []
  else
    _ ← commit_if_dirty;
    _ ← bm_reload;
    text_query ← bm_lift (parse_text_query query);
    top_docs ← bm_read "search: " (tv_search (TenantId.as_str t) text_query (fetch_limit k));
    bm_gets (collapse_hits k top_docs ∅ []).

(** [.unwrap_or(0)] *)
Definition or_zero (r : Result string Z) : Z := match r with Ok n => n | Err _ => 0 end.

Definition bm_delete (t : TenantId) (c : ChunkId) : BM bool :=
  _ ← commit_if_dirty;
  _ ← bm_require_writer "bm25_delete";
  _ ← bm_reload;
  count_before ← bm_get (λ e, or_zero (tv_count (TenantId.as_str t) (Some (uuid_to_string c)) e));
  _ ← bm_call "delete query: " (tv_delete_query (TenantId.as_str t) (uuid_to_string c));
  _ ← bm_set_dirty true;
  mret (0 <? count_before).

Definition doc_count (t : TenantId) : BM Z :=
  _ ← commit_if_dirty; _ ← bm_reload; bm_read "count: " (tv_count (TenantId.as_str t) None).

#[export] Instance bm25_sparse_index : SparseIndex (Bm25Index T) := {
  sparse_insert_batch := bm_insert_batch;
  sparse_search := bm_search;
  sparse_delete := bm_delete;
  sparse_doc_count := doc_count;
}.
End bm25.
