(* ===== verification/Reranker.v ===== *)
(** * Reranking (src/crates/memd/src/retrieval/reranker.rs)

    The feature reranker, the query-document reranker with its fallback, and
    the cross encoder that scores pairs of texts
    (retrieval/onnx_cross_encoder.rs).  Scores are computed on the floats of
    Ranking.v; the C library's [exp], the tokenizer and the ONNX session are
    parameters.  A build without the cross-encoder feature is one whose scorer
    is not available. *)

From S2P Require Import Prelude Types Str Ranking Fusion FloatFacts Bm25.
From Stdlib Require Import Floats.SpecFloat Sorting.Sorted Ascii.

Open Scope Z_scope.

Inductive RerankerMode : Type := Feature | CrossEncoder.

Record RerankerConfig : Type := mkRerankerConfig {
  rk_mode : RerankerMode;
  rk_rrf_weight : f32;
  rk_recency_weight : f32;
  rk_recency_half_life_days : f32;
  rk_project_weight : f32;
  rk_type_weight : f32;
  rk_query_text_weight : f32;
  rk_cross_encoder_weight : f32;
}.
Definition RerankerConfig_default : RerankerConfig :=
  mkRerankerConfig Feature f32_one (f32_lit 1 10) (f32_of_Z 7) (f32_lit 2 10) (f32_lit 5 100)
    (f32_lit 12 100) (f32_lit 7 10).

Record ChunkWithMeta : Type := mkChunkWithMeta {
  cw_chunk_id : ChunkId;
  cw_rrf_score : f32;
  cw_timestamp_created : Z;
  cw_project_id : option string;
  cw_chunk_type : ChunkType;
  cw_text : option string;
}.

Record RerankerContext : Type := mkContext {
  rc_current_project : option string;
  rc_preferred_types : list ChunkType;
  rc_now_ms : Z;
  rc_query_text : option string;
}.
(** [RerankerContext::at]; [now] reads the clock. *)
Definition context_at (now_ms : Z) : RerankerContext := mkContext None [] now_ms None.
Definition with_project (project : string) (c : RerankerContext) : RerankerContext :=
  mkContext (if bool_decide (project = ""%string) then None else Some project) (rc_preferred_types c)
    (rc_now_ms c) (rc_query_text c).
Definition with_preferred_types (types : list ChunkType) (c : RerankerContext) : RerankerContext :=
  mkContext (rc_current_project c) types (rc_now_ms c) (rc_query_text c).
Definition with_query (query : string) (c : RerankerContext) : RerankerContext :=
  mkContext (rc_current_project c) (rc_preferred_types c) (rc_now_ms c)
    (if bool_decide (str_trim query = ""%string) then None else Some query).

Record RankedResult : Type := mkRanked {
  rr_chunk_id : ChunkId;
  rr_final_score : f32;
  rr_rrf_score : f32;
  rr_recency_bonus : f32;
  rr_project_bonus : f32;
  rr_type_bonus : f32;
  rr_cross_encoder_score : f32;
}.

(* ------------------------------------------------------------------ *)
(** ** Tokens *)

Definition ascii_tokens (text : string) : list string :=
  map to_ascii_lowercase
    (List.filter (λ t, negb (bool_decide (t = ""%string)))
       (str_split (λ c, negb (on_ascii is_ascii_alphanumeric c)) text)).

Definition QUERY_TEXT_STOPWORDS : list string :=
  ["a"; "an"; "and"; "are"; "as"; "at"; "be"; "been"; "but"; "by"; "can"; "could"; "did"; "do"; "does"; "for";
   "from"; "had"; "has"; "have"; "he"; "her"; "hers"; "him"; "his"; "how"; "i"; "in"; "into"; "is"; "it"; "its";
   "list"; "me"; "of"; "on"; "or"; "our"; "she"; "summarize"; "that"; "the"; "their"; "them"; "then"; "there";
   "they"; "this"; "to"; "was"; "we"; "were"; "what"; "when"; "where"; "which"; "who"; "whom"; "whose"; "why";
   "will"; "with"; "would"; "you"; "your"]%string.
Definition is_query_stopword (token : string) : bool := bool_decide (token ∈ QUERY_TEXT_STOPWORDS).

Fixpoint has_ascii_digit (token : string) : bool :=
  match token with EmptyString => false | String c t => is_ascii_digit c || has_ascii_digit t end.

Definition signal_query_tokens (query : string) : list string :=
  List.filter (λ t, has_ascii_digit t || ((3 <=? String.length t)%nat && negb (is_query_stopword t)))
    (ascii_tokens query).

(** [windows(2)] *)
Definition pairs (tokens : list string) : list (string * string) := zip tokens (tail tokens).
Definition bigram_set (tokens : list string) : gset (string * string) := list_to_set (pairs tokens).

(** [.skip(1).step_by(2)] *)
Fixpoint odd_parts (parts : list string) : list string :=
  match parts with
  | _ :: p :: parts => p :: odd_parts parts
  | _ => []
  end.

(** The character 34 is the quote. *)
Definition query_phrases (query : string) (signal_tokens : list string) : list string :=
  let quoted := odd_parts (str_split (λ c, bool_decide (c = utf8 [34%N])) query) in
  flat_map (λ q, let tokens := signal_query_tokens q in
                 if (2 <=? length tokens)%nat then [str_join " " tokens] else []) quoted
  ++ (if (3 <=? length signal_tokens)%nat then [str_join " " signal_tokens] else []).

Definition alphanumeric_tokens `{AlphaNumeric} (text : string) : list string :=
  map to_ascii_lowercase
    (List.filter (λ t, negb (bool_decide (t = ""%string))) (str_split (λ c, negb (char_is_alphanumeric c)) text)).

(** [a.intersection(&b).count() as f32 / a.len() as f32] *)
Definition overlap_ratio {A} `{Countable A} (a b : gset A) : f32 :=
  f32_div (f32_of_Z (Z.of_nat (size (a ∩ b)))) (f32_of_Z (Z.of_nat (size a))).

(* ------------------------------------------------------------------ *)
(** ** The feature reranker *)

Section feature.
Context `{EX : Exp} (config : RerankerConfig).

(** [LN_2 / half_life.max(f64::EPSILON)] *)
Definition decay_rate : f64 :=
  f64_div LN_2 (f64_max (f32_as_f64 (rk_recency_half_life_days config)) f64_EPSILON).

(** The subtraction wraps in a release build. *)
Definition compute_recency_bonus (timestamp_created now_ms : Z) : f32 :=
  let age_ms := f64_of_Z (Z.max (as_i64 (now_ms - timestamp_created)) 0) in
  let age_days := f64_div age_ms (f64_of_Z 86400000) in
  f64_as_f32 (f64_exp (f64_mul (SFopp age_days) decay_rate)).

Definition compute_project_bonus (chunk_project current_project : option string) : f32 :=
  match chunk_project, current_project with
  | Some chunk_proj, Some current_proj => if bool_decide (chunk_proj = current_proj) then f32_one else f32_zero
  | _, _ => f32_zero
  end.

Definition compute_type_bonus (chunk_type : ChunkType) (preferred_types : list ChunkType) : f32 :=
  if bool_decide (chunk_type ∈ preferred_types) then f32_one else f32_zero.

Definition compute_query_text_bonus (query : string) (text : option string) : f32 :=
  match text with
  | None => f32_zero
  | Some text =>
      if bool_decide (str_trim query = ""%string) || bool_decide (str_trim text = ""%string) then f32_zero
      else
        let query_tokens := signal_query_tokens query in
        if bool_decide (query_tokens = []) then f32_zero
        else
          let text_tokens := ascii_tokens text in
          if bool_decide (text_tokens = []) then f32_zero
          else
            let query_unique : gset string := list_to_set query_tokens in
            let text_unique : gset string := list_to_set text_tokens in
            let keyword_score := overlap_ratio query_unique text_unique in
            let query_bigrams := bigram_set query_tokens in
            let bigram_score :=
              if bool_decide (query_bigrams = ∅) then f32_zero
              else overlap_ratio query_bigrams (bigram_set text_tokens) in
            let text_norm := str_join " " text_tokens in
            let phrase_score :=
              if existsb (λ phrase, string_contains phrase text_norm) (query_phrases query query_tokens)
              then f32_one else f32_zero in
            let query_numbers : gset string := list_to_set (List.filter has_ascii_digit query_tokens) in
            let numeric_score :=
              if bool_decide (query_numbers = ∅) then f32_zero else overlap_ratio query_numbers text_unique in
            f32_clamp f32_zero f32_one
              (f32_add (f32_add (f32_add (f32_mul (f32_lit 60 100) keyword_score)
                                         (f32_mul (f32_lit 20 100) bigram_score))
                                (f32_mul (f32_lit 10 100) phrase_score))
                       (f32_mul (f32_lit 10 100) numeric_score))
  end.

Definition feature_score (context : RerankerContext) (chunk : ChunkWithMeta) : RankedResult :=
  let recency_bonus := compute_recency_bonus (cw_timestamp_created chunk) (rc_now_ms context) in
  let project_bonus := compute_project_bonus (cw_project_id chunk) (rc_current_project context) in
  let type_bonus := compute_type_bonus (cw_chunk_type chunk) (rc_preferred_types context) in
  let query_text_bonus := compute_query_text_bonus (default "" (rc_query_text context)) (cw_text chunk) in
  let final_score :=
    f32_add (f32_add (f32_add (f32_add (f32_mul (rk_rrf_weight config) (cw_rrf_score chunk))
                                       (f32_mul (rk_recency_weight config) recency_bonus))
                              (f32_mul (rk_project_weight config) project_bonus))
                     (f32_mul (rk_type_weight config) type_bonus))
            (f32_mul (rk_query_text_weight config) query_text_bonus) in
  mkRanked (cw_chunk_id chunk) final_score (cw_rrf_score chunk) recency_bonus project_bonus type_bonus f32_zero.

(** [sort_desc] *)
Definition ranked_cmp : RankedResult → RankedResult → comparison :=
  score_desc rr_final_score (λ a b, chunk_id_cmp (rr_chunk_id a) (rr_chunk_id b)).
Definition sort_desc : list RankedResult → list RankedResult := sort_by ranked_cmp.

(** [FeatureReranker::rerank] *)
Definition feature_rerank (chunks : list ChunkWithMeta) (context : RerankerContext) : list RankedResult :=
  sort_desc (map (feature_score context) chunks).
End feature.

(* ------------------------------------------------------------------ *)
(** ** The query-document reranker *)

(** *** The cross encoder (retrieval/onnx_cross_encoder.rs)

    What the tokenizer and the ONNX session compute is a parameter, and so is
    what comes out of loading them (files, downloads, the shared library).
    Each may fail, and each may panic: no result. *)

Definition DEFAULT_MAX_LENGTH : nat := 256.

(** [tokenizers::Encoding] *)
Record Encoding : Type := mkEncoding { en_ids : list Z; en_attention_mask : list Z; en_type_ids : list Z }.
(** [ndarray::Array2<i64>], by rows. *)
Definition Array2 : Type := list (list Z).
(** [ndarray::ArrayD<f32>]: its shape and its elements in logical order. *)
Record ArrayD : Type := mkArrayD { ad_shape : list nat; ad_data : list f32 }.
Definition ndim (a : ArrayD) : nat := length (ad_shape a).

(** A computation that returns or panics, and if it returns may fail. *)
Definition panics (A : Type) : Type := option (Result string A).
Definition and_then {A B} (m : panics A) (f : A → panics B) : panics B :=
  match m with
  | None => None
  | Some (Err e) => Some (Err e)
  | Some (Ok a) => f a
  end.
Notation "'let?' x := m 'in' k" := (and_then m (λ x, k)) (at level 10, x pattern, m at level 100, k at level 200).

Class OnnxRuntime : Type := {
  (** [MEMD_CROSS_ENCODER_DISABLE] *)
  disable_var : option string;
  (** Loading the model and the tokenizer; whether an input of the model is
      named [token_type_ids]. *)
  load_model : panics bool;
  encode_batch : list (string * string) → panics (list Encoding);
  (** [TensorRef::from_array_view] *)
  from_array_view : Array2 → Result string unit;
  (** [Session::run]: the outputs by name, each with its
      [try_extract_array::<f32>]. *)
  session_run : list (string * Array2) → panics (list (string * Result string ArrayD));
}.

Section onnx.
Context `{LM : Libm} `{OX : OnnxRuntime}.

(** [OnnxCrossEncoderScorer::new]; the scorer is its [has_token_type_ids]. *)
Definition scorer_new : panics bool :=
  if bool_decide (disable_var = Some "1"%string)
  then Some (Err "cross-encoder scorer disabled via MEMD_CROSS_ENCODER_DISABLE=1"%string)
  else load_model.

(** [catch_onnx_panic]: [catch_unwind] keeps the lock from being poisoned. *)
Definition catch_onnx_panic {A} (r : option A) : Result string A :=
  ok_or r "cross-encoder scorer panicked during ONNX initialization"%string.

(** The scorer is made once; a later call finds it. *)
Definition onnx_is_available : bool :=
  match catch_onnx_panic scorer_new with Ok (Ok _) => true | _ => false end.

(** [ids.get(j).copied().unwrap_or(0)] for [j] below [max_len]. *)
Definition padded (max_len : nat) (row : list Z) : list Z := map (λ j, nth j row 0) (seq 0 max_len).

Definition to_tensors (encodings : list Encoding) : Result string (Array2 * Array2 * Array2) :=
  let max_len := Nat.min (foldr Nat.max 0%nat (map (λ enc, length (en_ids enc)) encodings)) DEFAULT_MAX_LENGTH in
  if bool_decide (max_len = 0%nat) then Err "tokenizer produced zero-length input"%string
  else Ok (map (λ enc, padded max_len (en_ids enc)) encodings,
           map (λ enc, padded max_len (en_attention_mask enc)) encodings,
           map (λ enc, padded max_len (en_type_ids enc)) encodings).

Definition sigmoid (value : f32) : f32 := f32_div f32_one (f32_add f32_one (f32_exp (SFopp value))).

Definition softmax_relevant (not_relevant relevant : f32) : f32 :=
  let max := f32_max not_relevant relevant in
  let e_not := f32_exp (f32_sub not_relevant max) in
  let e_rel := f32_exp (f32_sub relevant max) in
  f32_div e_rel (f32_add e_not e_rel).

(** [logits.index_axis(Axis(0), row).iter()] *)
Definition index_axis (a : ArrayD) (row : nat) : list f32 :=
  let width := foldr Nat.mul 1%nat (tail (ad_shape a)) in
  take width (drop (row * width) (ad_data a)).

(** With two classes the row is indexed, and a row without two elements
    panics. *)
Definition logits_to_scores (logits : ArrayD) : option (list f32) :=
  match ad_shape logits with
  | [] => Some [f32_zero]
  | [_] => Some (map sigmoid (ad_data logits))
  | rows :: dims =>
      match List.last dims 0%nat with
      | 0%nat => Some (replicate rows f32_zero)
      | 2%nat =>
          mapM (λ row, match index_axis logits row with
                       | v0 :: v1 :: _ => Some (softmax_relevant v0 v1)
                       | _ => None
                       end) (seq 0 rows)
      | _ => Some (map (λ row, sigmoid (hd f32_zero (index_axis logits row))) (seq 0 rows))
      end
  end.

(** [outputs.get("logits")], else [outputs[0]], which panics if there is none. *)
Definition pick_output (outputs : list (string * Result string ArrayD)) : panics ArrayD :=
  match List.find (λ o, bool_decide (o.1 = "logits"%string)) outputs with
  | Some (_, array) => Some (map_err (λ err, "extract logits output: " +:+ err) array)
  | None =>
      match outputs with
      | [] => None
      | (_, array) :: _ => Some (map_err (λ err, "extract default output tensor: " +:+ err) array)
      end
  end.

Definition tensor (name : string) (a : Array2) : panics (string * Array2) :=
  Some (match from_array_view a with
        | Ok _ => Ok (name, a)
        | Err err => Err ("create " +:+ name +:+ " tensor: " +:+ err)
        end).

Definition run_model (has_token_type_ids : bool) (input_ids attention_mask token_type_ids : Array2)
    : panics (list f32) :=
  let? ids := tensor "input_ids" input_ids in
  let? mask := tensor "attention_mask" attention_mask in
  let? types := if has_token_type_ids
                then (let? types := tensor "token_type_ids" token_type_ids in Some (Ok [types]))
                else Some (Ok []) in
  let? outputs := map_err (λ err, "cross-encoder inference failed: " +:+ err) <$> session_run ([ids; mask] ++ types) in
  let? logits := pick_output outputs in
  Ok <$> logits_to_scores logits.

(** [OnnxCrossEncoderScorer::score_pairs] *)
Definition scorer_score_pairs (has_token_type_ids : bool) (query : string) (docs : list string) : panics (list f32) :=
  if bool_decide (str_trim query = ""%string) || bool_decide (docs = []) then Some (Ok (map (λ _, f32_zero) docs))
  else
    let? encodings := map_err (λ err, "tokenize query/document pairs: " +:+ err)
                        <$> encode_batch (map (pair query) docs) in
    let? (input_ids, attention_mask, token_type_ids) := Some (to_tensors encodings) in
    run_model has_token_type_ids input_ids attention_mask token_type_ids.

(** [score_pairs]: a panic is an error. *)
Definition score_pairs (query : string) (docs : list string) : Result string (list f32) :=
  r ← catch_onnx_panic (let? has_token_type_ids := scorer_new in scorer_score_pairs has_token_type_ids query docs);
  r.
End onnx.

Section cross.
Context `{EX : Exp} `{LM : Libm} `{AN : AlphaNumeric} `{OX : OnnxRuntime} (config : RerankerConfig).

Definition interaction_score (query text : string) : f32 :=
  let q_tokens := alphanumeric_tokens query in
  let d_tokens := alphanumeric_tokens text in
  if bool_decide (q_tokens = []) || bool_decide (d_tokens = []) then f32_zero
  else
    let q_unique : gset string := list_to_set q_tokens in
    let d_unique : gset string := list_to_set d_tokens in
    let coverage := overlap_ratio q_unique d_unique in
    let phrase_score :=
      if (length q_tokens <? 2)%nat then f32_zero
      else
        let joined := str_join " " d_tokens in
        let matched := List.filter (λ p, string_contains (p.1 +:+ " " +:+ p.2) joined) (pairs q_tokens) in
        f32_div (f32_of_Z (zlen matched)) (f32_of_Z (zlen q_tokens - 1)) in
    let freq := foldl (λ freq q, freq + zlen (List.filter (λ t, bool_decide (t = q)) d_tokens)) 0 q_tokens in
    let freq_score := f32_div (f32_min (f32_div (f32_of_Z freq) (f32_of_Z (zlen q_tokens))) (f32_of_Z 3)) (f32_of_Z 3) in
    f32_clamp f32_zero f32_one
      (f32_add (f32_add (f32_mul (f32_lit 60 100) coverage) (f32_mul (f32_lit 25 100) phrase_score))
               (f32_mul (f32_lit 15 100) freq_score)).

(** [cross_encoder_scores]: the model's scores if it gives one per document,
    else the lexical ones. *)
Definition cross_encoder_scores (query : string) (chunks : list ChunkWithMeta) : list f32 :=
  let docs := map (λ c, default "" (cw_text c)) chunks in
  let lexical := map (interaction_score query) docs in
  match chunks with
  | [] => []
  | _ => match score_pairs query docs with
         | Ok scores => if bool_decide (length scores = length chunks) then scores else lexical
         | Err _ => lexical
         end
  end.

Definition cross_score (context : RerankerContext) (p : ChunkWithMeta * f32) : RankedResult :=
  let '(chunk, cross_encoder_score) := p in
  let recency_bonus := compute_recency_bonus config (cw_timestamp_created chunk) (rc_now_ms context) in
  let project_bonus := compute_project_bonus (cw_project_id chunk) (rc_current_project context) in
  let type_bonus := compute_type_bonus (cw_chunk_type chunk) (rc_preferred_types context) in
  let final_score :=
    f32_add (f32_add (f32_add (f32_add (f32_mul (rk_rrf_weight config) (cw_rrf_score chunk))
                                       (f32_mul (rk_cross_encoder_weight config) cross_encoder_score))
                              (f32_mul (rk_recency_weight config) recency_bonus))
                     (f32_mul (rk_project_weight config) project_bonus))
            (f32_mul (rk_type_weight config) type_bonus) in
  mkRanked (cw_chunk_id chunk) final_score (cw_rrf_score chunk) recency_bonus project_bonus type_bonus
    cross_encoder_score.

(** [CrossEncoderReranker::rerank] *)
Definition cross_rerank (chunks : list ChunkWithMeta) (context : RerankerContext) : list RankedResult :=
  let query := default "" (rc_query_text context) in
  sort_desc (map (cross_score context) (zip chunks (cross_encoder_scores query chunks))).

(** [RerankerEngine::new] and [rerank] *)
Definition engine_mode : RerankerMode :=
  match rk_mode config with
  | CrossEncoder => if onnx_is_available then CrossEncoder else Feature
  | Feature => Feature
  end.
Definition rerank (chunks : list ChunkWithMeta) (context : RerankerContext) : list RankedResult :=
  match engine_mode with
  | Feature => feature_rerank config chunks context
  | CrossEncoder => cross_rerank chunks context
  end.
End cross.

(* ------------------------------------------------------------------ *)
(** ** The reranker: every score is a number, and the order is the order of
      the scores *)

(** [e^x] is between 0 and 1 where [x] is not positive. *)
Class ExpLaws `{EX : Exp} : Prop := { exp_nonneg x : f64_nonpos x → f32_nonneg (f64_exp x) }.
(** [e^x] is not negative, finite where [x] is not positive, and one at zero. *)
Class LibmLaws `{LM : Libm} : Prop := {
  expf_nonneg x : is_nan x = false → f32_nonneg (f32_exp x);
  expf_finite x : f32_nonpos x → is_finite (f32_exp x) = true;
  expf_zero s : f32_exp (S754_zero s) = f32_one;
}.

(* ------------------------------------------------------------------ *)
(** ** Counts *)

Lemma length_split_chars p cs : ∀ piece, (length (split_chars p piece cs) ≤ S (length cs))%nat.
Proof.
  induction cs as [|c cs IH]; intros piece; [done|]. cbn. destruct (p c); cbn; [specialize (IH "")|specialize (IH (piece +:+ c))]; lia.
Qed.

Lemma length_str_chars s : (length (str_chars s) ≤ slen s)%nat.
Proof.
  induction s as [|c s IH]; [done|]. cbn [str_chars String.length].
  destruct (str_chars s) as [|[|d d'] cs]; cbn in *; [lia|lia|]. destruct (is_continuation d); cbn; lia.
Qed.

Lemma length_ascii_tokens s : (length (ascii_tokens s) ≤ S (slen s))%nat.
Proof.
  unfold ascii_tokens, str_split. rewrite length_map.
  etrans; [apply filter_length_le|]. etrans; [apply length_split_chars|]. pose proof (length_str_chars s). lia.
Qed.

Lemma length_alphanumeric_tokens `{AlphaNumeric} s : (length (alphanumeric_tokens s) ≤ S (slen s))%nat.
Proof.
  unfold alphanumeric_tokens, str_split. rewrite length_map.
  etrans; [apply filter_length_le|]. etrans; [apply length_split_chars|]. pose proof (length_str_chars s). lia.
Qed.

Lemma length_signal_tokens s : (length (signal_query_tokens s) ≤ S (slen s))%nat.
Proof. unfold signal_query_tokens. etrans; [apply filter_length_le|apply length_ascii_tokens]. Qed.

Lemma size_list_to_set_le {A} `{Countable A} (l : list A) : (size (list_to_set l : gset A) ≤ length l)%nat.
Proof.
  induction l as [|a l IH]; [done|]. cbn [list_to_set length]. rewrite size_union_alt.
  assert (size (list_to_set l ∖ {[a]} : gset A) ≤ size (list_to_set l : gset A))%nat by (apply subseteq_size; set_solver).
  rewrite size_singleton. lia.
Qed.

Lemma overlap_ratio_nonneg {A} `{Countable A} (l : list A) (b : gset A) n :
  (length l ≤ S n)%nat → Z.of_nat n < 2 ^ 64 → list_to_set l ≠ (∅ : gset A) →
  f32_nonneg (overlap_ratio (list_to_set l) b).
Proof.
  intros Hl Hn Hne. pose proof (size_list_to_set_le l). unfold overlap_ratio. apply f32_ratio_nonneg; [lia|].
  assert (size (list_to_set l : gset A) ≠ 0%nat) by (by intros ?%size_empty_inv%leibniz_equiv). lia.
Qed.

Lemma list_to_set_nonempty {A} `{Countable A} (l : list A) : l ≠ [] → list_to_set l ≠ (∅ : gset A).
Proof. destruct l as [|a l]; [done|]. intros _ E. assert (a ∈ (∅ : gset A)) by (rewrite <- E; set_solver). set_solver. Qed.

(** Between 0 and 1. *)
Definition unit_interval (x : f32) : Prop := f32_nonneg x ∧ f32_le x f32_one = true.

Lemma clamp_unit_interval x : f32_nonneg x → unit_interval (f32_clamp f32_zero f32_one x).
Proof.
  intros Hx. unfold f32_clamp. assert (f32_lt x f32_zero = false) as -> by by destruct x as [[]|[]| |[] ? ?].
  destruct (f32_gt x f32_one) eqn:E; [done|]. split; [done|]. apply f32_nonneg_not_nan in Hx.
  unfold f32_gt, f32_lt, SFltb in E. unfold f32_le, SFleb. rewrite SFcompare_key in E |- * by done.
  rewrite key_compare_antisym in E. by destruct (key_compare (f32_key x) (f32_key f32_one)).
Qed.

Lemma clamp_unit_nonneg x : f32_nonneg x → f32_nonneg (f32_clamp f32_zero f32_one x).
Proof. intros Hx. by apply clamp_unit_interval. Qed.

#[local] Hint Resolve f32_mul_nonneg f32_add_nonneg clamp_unit_nonneg : core.
#[local] Hint Extern 1 (f32_pos_finite (f32_lit _ _)) => vm_compute; exact I : core.
#[local] Hint Extern 1 (f32_nonneg f32_zero) => exact I : core.
#[local] Hint Extern 1 (f32_nonneg f32_one) => exact I : core.

(* ------------------------------------------------------------------ *)
(** ** Every bonus is a number *)

Lemma bonus_nonneg (b : bool) : f32_nonneg (if b then f32_one else f32_zero).
Proof. by destruct b. Qed.
#[local] Hint Resolve bonus_nonneg : core.

Lemma project_bonus_nonneg p q : f32_nonneg (compute_project_bonus p q).
Proof. unfold compute_project_bonus. destruct p, q; auto. Qed.
Lemma type_bonus_nonneg t ts : f32_nonneg (compute_type_bonus t ts).
Proof. unfold compute_type_bonus. auto. Qed.

Lemma query_text_bonus_nonneg query text :
  Z.of_nat (slen query) < 2 ^ 64 → f32_nonneg (compute_query_text_bonus query text).
Proof.
  intros Hq. unfold compute_query_text_bonus. destruct text as [text|]; [|done].
  destruct (_ || _); [done|]. pose proof (length_signal_tokens query) as Hl.
  set (qt := signal_query_tokens query) in *. clearbody qt. case_bool_decide as Hqt; [done|].
  case_bool_decide; [done|]. apply clamp_unit_nonneg.
  repeat apply f32_add_nonneg; apply f32_mul_nonneg; auto.
  - eapply overlap_ratio_nonneg; [done|done|by apply list_to_set_nonempty].
  - case_bool_decide as Hb; [done|]. unfold bigram_set in *. eapply overlap_ratio_nonneg; [|done|done].
    unfold pairs. rewrite length_zip. lia.
  - case_bool_decide as Hb; [done|]. eapply overlap_ratio_nonneg; [|done|done].
    etrans; [apply filter_length_le|done].
Qed.

(** *** Every score of the model is a number *)

Lemma and_then_ok {A B} (m : panics A) (f : A → panics B) b :
  and_then m f = Some (Ok b) → ∃ a, m = Some (Ok a) ∧ f a = Some (Ok b).
Proof. destruct m as [[a|e]|]; [|done..]. intros H. by exists a. Qed.

Section logits.
Context `{LM : Libm} `{LL : !LibmLaws}.

Lemma sigmoid_nonneg v : is_nan v = false → f32_nonneg (sigmoid v).
Proof using LL.
  intros Hv. apply f32_div_nonneg; [done|]. apply f32_add_nonneg; [done|]. apply expf_nonneg. by destruct v.
Qed.

Lemma softmax_nonneg a b : f32_real a → f32_real b → f32_nonneg (softmax_relevant a b).
Proof using LL.
  intros Ha Hb. pose proof Ha as [Fa Va]. pose proof Hb as [Fb Vb]. unfold softmax_relevant, f32_max.
  rewrite !f32_real_not_nan by done. destruct (f32_lt a b) eqn:Hlt.
  - assert (Hlt' : f32_lt b a = false).
    { unfold f32_lt, SFltb in *. rewrite SFcompare_key in Hlt |- * by (by apply f32_real_not_nan).
      rewrite key_compare_antisym. by destruct (key_compare (f32_key a) (f32_key b)). }
    destruct (f32_sub_diag b Fb) as [s ->]. rewrite expf_zero. apply f32_div_nonneg; [done|].
    apply f32_add_nonneg; [|done]. apply expf_nonneg. pose proof (f32_sub_nonpos a b Ha Hb Hlt') as Hn. by destruct (f32_sub a b).
  - destruct (f32_sub_diag a Fa) as [s ->]. rewrite expf_zero. pose proof (f32_sub_nonpos b a Hb Ha Hlt) as Hn.
    pose proof (expf_finite _ Hn) as He. assert (Hp : f32_nonneg (f32_exp (f32_sub b a))) by (apply expf_nonneg; by destruct (f32_sub b a)).
    destruct (f32_exp (f32_sub b a)) as [[]|[]| |[] m e] eqn:E; try done. rewrite <- E at 1. rewrite E.
    apply f32_div_nonneg; [done|]. by apply f32_add_nonneg.
Qed.

Lemma logits_to_scores_nonneg a scores :
  Forall f32_real (ad_data a) → logits_to_scores a = Some scores → Forall f32_nonneg scores.
Proof using LL.
  intros Hd. assert (Hax : ∀ row, Forall f32_real (index_axis a row)) by (intros; by apply Forall_take, Forall_drop).
  assert (Hdef : ∀ rows, Forall f32_nonneg (map (λ row, sigmoid (hd f32_zero (index_axis a row))) (seq 0 rows))).
  { intros rows. apply Forall_map, Forall_forall. intros row _. apply sigmoid_nonneg.
    specialize (Hax row). destruct Hax as [|v l Hv _]; [done|by apply f32_real_not_nan]. }
  unfold logits_to_scores. destruct (ad_shape a) as [|rows [|d dims]].
  - intros [= <-]. by constructor.
  - intros [= <-]. apply Forall_map. eapply Forall_impl; [exact Hd|]. intros v Hv. by apply sigmoid_nonneg, f32_real_not_nan.
  - destruct (List.last (d :: dims) 0%nat) as [|[|[|n]]]; [|intros [= <-]; apply Hdef| |intros [= <-]; apply Hdef].
    + intros [= <-]. apply Forall_replicate. done.
    + intros Hm. apply mapM_Some in Hm. apply Forall_forall. intros s Hs. apply list_elem_of_lookup_1 in Hs as [i Hi].
      destruct (Forall2_lookup_r _ _ _ _ _ Hm Hi) as (row & _ & Hr). specialize (Hax row).
      destruct Hax as [|v0 l H0 Hl]; [done|]. destruct Hl as [|v1 l H1 _]; [done|]. injection Hr as <-. by apply softmax_nonneg.
Qed.
End logits.

(** Every number the session returns is a finite float. *)
Definition finite_logits `{OX : OnnxRuntime} : Prop :=
  ∀ inputs outputs name a, session_run inputs = Some (Ok outputs) → (name, Ok a) ∈ outputs → Forall f32_real (ad_data a).

Lemma pick_output_elem outputs a : pick_output outputs = Some (Ok a) → ∃ name, (name, Ok a) ∈ outputs.
Proof.
  unfold pick_output. destruct (List.find _ outputs) as [[name r]|] eqn:E.
  - apply find_some in E as [Hin _]. destruct r; [|done]. intros [= ->]. exists name. by apply list_elem_of_In.
  - destruct outputs as [|[name [b|]] outputs]; [done| |done]. intros [= ->]. exists name. by left.
Qed.

Lemma score_pairs_nonneg `{LM : Libm} `{LL : !LibmLaws} `{OX : OnnxRuntime} query docs scores :
  finite_logits → score_pairs query docs = Ok scores → Forall f32_nonneg scores.
Proof.
  intros Hf. unfold score_pairs. destruct (and_then scorer_new _) as [[ss|]|] eqn:E; [|done..]. cbn. intros [= <-].
  apply and_then_ok in E as (has & _ & E). unfold scorer_score_pairs in E. destruct (_ || _).
  { injection E as <-. by apply Forall_map, Forall_forall. }
  apply and_then_ok in E as (encs & _ & E). apply and_then_ok in E as ([[ids mask] types] & _ & E).
  unfold run_model in E. do 4 apply and_then_ok in E as (? & ? & E). apply and_then_ok in E as (a & Ha & E).
  apply pick_output_elem in Ha as [name Hin]. destruct (logits_to_scores a) eqn:El; [|done]. injection E as <-.
  eapply logits_to_scores_nonneg; [|done].
  destruct (session_run _) as [[outputs|]|] eqn:Er; try done. simplify_eq/=. by eapply Hf.
Qed.

Section numbers.
Context `{EX : Exp} `{EL : !ExpLaws} `{LM : Libm} `{LL : !LibmLaws} `{AN : AlphaNumeric} `{OX : OnnxRuntime}.
Context (config : RerankerConfig).

(** Positive weights and a half-life that decays at a finite rate. *)
Record weights_ok : Prop := {
  wo_rrf : f32_pos_finite (rk_rrf_weight config);
  wo_recency : f32_pos_finite (rk_recency_weight config);
  wo_project : f32_pos_finite (rk_project_weight config);
  wo_type : f32_pos_finite (rk_type_weight config);
  wo_query : f32_pos_finite (rk_query_text_weight config);
  wo_cross : f32_pos_finite (rk_cross_encoder_weight config);
  wo_decay : f64_below 900 (decay_rate config);
}.

Lemma as_i64_range z : - 2 ^ 63 ≤ as_i64 z < 2 ^ 63.
Proof. unfold as_i64, wraps. pose proof (Z.mod_pos_bound (z + 2 ^ (64 - 1)) (2 ^ 64)). lia. Qed.

Lemma recency_bonus_nonneg t now : weights_ok → f32_nonneg (compute_recency_bonus config t now).
Proof using EL.
  intros Hw. unfold compute_recency_bonus. pose proof (as_i64_range (now - t)) as Hr.
  assert (Hage : f64_below 65 (f64_of_Z (Z.max (as_i64 (now - t)) 0))) by (apply f64_of_Z_below; lia).
  apply f64_as_f32_nonneg, exp_nonneg. eapply f64_mul_nonpos; [|exact (wo_decay Hw)].
  change (f64_of_Z 86400000) with (S754_finite false 5798205849600000 (-26)).
  apply (f64_div_below 65); [done|lia].
Qed.

Definition chunk_ok (c : ChunkWithMeta) : Prop := f32_nonneg (cw_rrf_score c).

Lemma feature_score_nonneg context c :
  weights_ok → chunk_ok c → Z.of_nat (slen (default "" (rc_query_text context))) < 2 ^ 64 →
  f32_nonneg (rr_final_score (feature_score config context c)).
Proof using EL.
  intros Hw Hc Hq. unfold feature_score. cbn [rr_final_score]. pose proof (recency_bonus_nonneg (cw_timestamp_created c) (rc_now_ms context) Hw).
  destruct Hw. repeat apply f32_add_nonneg; apply f32_mul_nonneg;
    auto using project_bonus_nonneg, type_bonus_nonneg, query_text_bonus_nonneg.
Qed.

Lemma interaction_score_unit query text :
  Z.of_nat (slen query) < 2 ^ 64 → unit_interval (interaction_score query text).
Proof.
  intros Hq. unfold interaction_score. pose proof (length_alphanumeric_tokens query) as Hl.
  set (qt := alphanumeric_tokens query) in *. clearbody qt. case_bool_decide as Hqt; [done|]. cbn [orb].
  case_bool_decide; [done|]. assert (Hlen : length qt ≠ 0%nat) by (by destruct qt).
  apply clamp_unit_interval. repeat apply f32_add_nonneg; apply f32_mul_nonneg; auto.
  - eapply overlap_ratio_nonneg; [done|done|by apply list_to_set_nonempty].
  - destruct (Nat.ltb_spec (length qt) 2); [done|]. apply f32_ratio_nonneg; unfold zlen; lia.
  - assert (Hf : ∀ l acc, 0 ≤ acc → 0 ≤ foldl (λ freq q, freq + zlen (List.filter (λ t, bool_decide (t = q)) (alphanumeric_tokens text))) acc l).
    { induction l as [|q l IH]; intros acc Ha; [done|]. cbn. apply IH. unfold zlen. lia. }
    apply (f32_div_pos_nonneg _ 3); [|lia]. apply f32_min_nonneg; [|done].
    apply f32_ratio_nonneg; [by apply Hf|unfold zlen; lia].
Qed.

(** The lexical score by counting: the share of the query's distinct words
    that the text has, of its adjacent pairs that occur in the text, and the
    number of equal words per word of the query, up to three. *)
Definition lexical_score (query text : string) : f32 :=
  let q := alphanumeric_tokens query in
  let d := alphanumeric_tokens text in
  let ratio a b := f32_div (f32_of_Z a) (f32_of_Z b) in
  let shared := List.filter (λ w, bool_decide (w ∈ d)) (remove_dups q) in
  let adjacent := List.filter (λ p, string_contains (p.1 +:+ " " +:+ p.2) (str_join " " d)) (pairs q) in
  let equal := List.filter (λ p, bool_decide (p.2 = p.1)) (list_prod q d) in
  if bool_decide (q = []) || bool_decide (d = []) then f32_zero
  else
    f32_clamp f32_zero f32_one
      (f32_add (f32_add (f32_mul (f32_lit 60 100) (ratio (zlen shared) (zlen (remove_dups q))))
                        (f32_mul (f32_lit 25 100) (if zlen q <? 2 then f32_zero else ratio (zlen adjacent) (zlen q - 1))))
               (f32_mul (f32_lit 15 100) (f32_div (f32_min (ratio (zlen equal) (zlen q)) (f32_of_Z 3)) (f32_of_Z 3)))).

Lemma size_dups (q : list string) : size (list_to_set q : gset string) = length (remove_dups q).
Proof.
  rewrite <- (size_list_to_set (C := gset string)) by apply NoDup_remove_dups. f_equal. apply leibniz_equiv. intros w.
  by rewrite !elem_of_list_to_set, elem_of_remove_dups.
Qed.

Lemma size_shared (q d : list string) :
  size (list_to_set q ∩ list_to_set d : gset string) = length (List.filter (λ w, bool_decide (w ∈ d)) (remove_dups q)).
Proof.
  rewrite <- (size_list_to_set (C := gset string)) by apply NoDup_ListNoDup, List.NoDup_filter, NoDup_ListNoDup, NoDup_remove_dups.
  f_equal. apply leibniz_equiv. intros w. rewrite elem_of_intersection, !elem_of_list_to_set.
  assert (E : ∀ l, w ∈ List.filter (λ w, bool_decide (w ∈ d)) l ↔ w ∈ l ∧ w ∈ d).
  { intros l. rewrite !list_elem_of_In, filter_In, bool_decide_eq_true, list_elem_of_In. done. }
  by rewrite E, elem_of_remove_dups.
Qed.

Lemma freq_equal (q d : list string) acc :
  foldl (λ freq w, freq + zlen (List.filter (λ t, bool_decide (t = w)) d)) acc q =
  acc + zlen (List.filter (λ p, bool_decide (p.2 = p.1)) (list_prod q d)).
Proof.
  revert acc. induction q as [|w q IH]; intros acc; [unfold zlen; cbn; lia|]. cbn [foldl list_prod]. rewrite IH, List.filter_app, zlen_app.
  assert (E : zlen (List.filter (λ p, bool_decide (p.2 = p.1)) (map (λ t, (w, t)) d)) = zlen (List.filter (λ t, bool_decide (t = w)) d)).
  { clear. unfold zlen. f_equal. induction d as [|t d IH]; [done|]. cbn. by case_bool_decide; cbn; rewrite IH. }
  rewrite E. lia.
Qed.

Lemma interaction_score_lexical query text : interaction_score query text = lexical_score query text.
Proof.
  unfold interaction_score, lexical_score, overlap_ratio. rewrite size_shared, size_dups, freq_equal.
  assert (E : (zlen (alphanumeric_tokens query) <? 2) = (length (alphanumeric_tokens query) <? 2)%nat).
  { unfold zlen. destruct (Nat.ltb_spec (length (alphanumeric_tokens query)) 2), (Z.ltb_spec (Z.of_nat (length (alphanumeric_tokens query))) 2); lia || done. }
  by rewrite E.
Qed.

(** The scores the model gives the texts of the chunks, if it gives one each. *)
Definition model_scores (query : string) (chunks : list ChunkWithMeta) : option (list f32) :=
  match score_pairs query (map (λ c, default "" (cw_text c)) chunks) with
  | Ok scores => if bool_decide (length scores = length chunks) then Some scores else None
  | Err _ => None
  end.

Lemma cross_encoder_scores_eq query chunks :
  cross_encoder_scores query chunks =
  default (map (λ c, interaction_score query (default "" (cw_text c))) chunks) (model_scores query chunks).
Proof.
  unfold cross_encoder_scores, model_scores. rewrite map_map. destruct chunks as [|c cs].
  - destruct (score_pairs _ _) as [[]|]; [done..|done].
  - destruct (score_pairs _ _); [|done]. by case_bool_decide.
Qed.

Lemma length_cross_scores query chunks : length (cross_encoder_scores query chunks) = length chunks.
Proof.
  rewrite cross_encoder_scores_eq. unfold model_scores.
  destruct (score_pairs _ _); [case_bool_decide; [done|]|]; cbn; by rewrite length_map.
Qed.

Lemma cross_scores_nonneg query chunks :
  finite_logits → Z.of_nat (slen query) < 2 ^ 64 → Forall f32_nonneg (cross_encoder_scores query chunks).
Proof using LL.
  intros Hf Hq. rewrite cross_encoder_scores_eq. unfold model_scores.
  assert (Forall f32_nonneg (map (λ c, interaction_score query (default "" (cw_text c))) chunks)).
  { apply Forall_map, Forall_forall. intros c _. by apply interaction_score_unit. }
  destruct (score_pairs _ _) eqn:E; [|done]. case_bool_decide; [|done]. by eapply score_pairs_nonneg.
Qed.

Lemma cross_score_nonneg context c s :
  weights_ok → chunk_ok c → f32_nonneg s → f32_nonneg (rr_final_score (cross_score config context (c, s))).
Proof using EL.
  intros Hw Hc Hs. unfold cross_score. cbn [rr_final_score]. pose proof (recency_bonus_nonneg (cw_timestamp_created c) (rc_now_ms context) Hw).
  destruct Hw. repeat apply f32_add_nonneg; apply f32_mul_nonneg; auto using project_bonus_nonneg, type_bonus_nonneg.
Qed.
End numbers.

(* ------------------------------------------------------------------ *)
(** ** The ranking *)

Section rerank.
Context `{EX : Exp} `{EL : !ExpLaws} `{LM : Libm} `{LL : !LibmLaws} `{AN : AlphaNumeric} `{OX : OnnxRuntime}.
Context (config : RerankerConfig).

(** What the result [r] of the [i]-th chunk [c] is: with the cross encoder,
    scored by the [i]-th score of the model, or by counting the words the
    query and this chunk's text share if the model gives no score per chunk. *)
Definition ranks (context : RerankerContext) (chunks : list ChunkWithMeta) (i : nat) (c : ChunkWithMeta)
    (r : RankedResult) : Prop :=
  rr_chunk_id r = cw_chunk_id c ∧ rr_rrf_score r = cw_rrf_score c ∧
  match engine_mode config with
  | Feature => r = feature_score config context c
  | CrossEncoder =>
      let query := default "" (rc_query_text context) in
      ∃ s, r = cross_score config context (c, s) ∧ rr_cross_encoder_score r = s ∧
        match model_scores query chunks with
        | Some scores => scores !! i = Some s
        | None => s = lexical_score query (default "" (cw_text c)) ∧ unit_interval s
        end
  end.

Definition small_query (context : RerankerContext) : Prop :=
  Z.of_nat (slen (default "" (rc_query_text context))) < 2 ^ 64.

(** The results before sorting, one per chunk. *)
Definition unsorted (chunks : list ChunkWithMeta) (context : RerankerContext) : list RankedResult :=
  match engine_mode config with
  | Feature => map (feature_score config context) chunks
  | CrossEncoder =>
      map (cross_score config context) (zip chunks (cross_encoder_scores (default "" (rc_query_text context)) chunks))
  end.

Lemma rerank_unsorted chunks context : rerank config chunks context = sort_desc (unsorted chunks context).
Proof. unfold rerank, unsorted. by destruct (engine_mode config). Qed.

Lemma length_unsorted chunks context : length (unsorted chunks context) = length chunks.
Proof.
  unfold unsorted. destruct (engine_mode config); rewrite length_map; [done|].
  rewrite length_zip, length_cross_scores. lia.
Qed.

Lemma unsorted_ranks chunks context i c :
  small_query context → chunks !! i = Some c → ∃ r, unsorted chunks context !! i = Some r ∧ ranks context chunks i c r.
Proof.
  intros Hq Hc. unfold unsorted, ranks. destruct (engine_mode config).
  - exists (feature_score config context c). by rewrite list_lookup_fmap, Hc.
  - set (query := default "" (rc_query_text context)).
    destruct (lookup_lt_is_Some_2 (cross_encoder_scores query chunks) i) as [s Hs].
    { rewrite length_cross_scores. by eapply lookup_lt_Some. }
    exists (cross_score config context (c, s)). split.
    { rewrite list_lookup_fmap, lookup_zip_with, Hc. cbn. by rewrite Hs. }
    split_and!; [done|done|]. exists s. split_and!; [done|done|]. rewrite cross_encoder_scores_eq in Hs.
    destruct (model_scores query chunks); cbn in Hs; [done|]. rewrite list_lookup_fmap, Hc in Hs. injection Hs as <-.
    split; [apply interaction_score_lexical|]. by apply interaction_score_unit.
Qed.

Lemma unsorted_scored chunks context :
  weights_ok config → Forall chunk_ok chunks → small_query context → (engine_mode config = CrossEncoder → finite_logits) →
  Forall (scored rr_final_score) (unsorted chunks context).
Proof using EL LL.
  intros Hw Hc Hq Hf. unfold unsorted. destruct (engine_mode config); rewrite Forall_map.
  - eapply Forall_impl; [exact Hc|]. intros c Hc1. by apply f32_nonneg_not_nan, feature_score_nonneg.
  - pose proof (cross_scores_nonneg _ chunks (Hf eq_refl) Hq) as Hs. apply Forall_lookup. intros i [c s].
    rewrite lookup_zip_with. intros Hl. destruct (chunks !! i) eqn:E1, (cross_encoder_scores _ chunks !! i) eqn:E2; simplify_eq/=.
    apply f32_nonneg_not_nan, cross_score_nonneg; [done|by eapply Forall_lookup_1|by eapply Forall_lookup_1].
Qed.

(** Where each score depends on its chunk alone. *)
Lemma unsorted_by_chunk chunks context :
  (engine_mode config = Feature ∨ model_scores (default "" (rc_query_text context)) chunks = None) →
  unsorted chunks context = map (λ c, match engine_mode config with
    | Feature => feature_score config context c
    | CrossEncoder => cross_score config context (c, interaction_score (default "" (rc_query_text context)) (default "" (cw_text c)))
    end) chunks.
Proof.
  unfold unsorted. destruct (engine_mode config); [done|]. intros [?|H]; [done|]. rewrite cross_encoder_scores_eq, H. cbn [default].
  clear H. induction chunks as [|c cs IH]; [done|]. cbn. f_equal. exact IH.
Qed.

Lemma ranked_cmp_antisym x y :
  scored rr_final_score x → scored rr_final_score y → cmp_le ranked_cmp x y → cmp_le ranked_cmp y x →
  rr_chunk_id x = rr_chunk_id y.
Proof.
  unfold scored, cmp_le, ranked_cmp, score_desc. intros Hx Hy. rewrite !partial_cmp_key by done.
  rewrite (key_compare_antisym (f32_key (rr_final_score x))).
  unfold chunk_id_cmp. rewrite (N.compare_antisym (chunk_uuid (rr_chunk_id y))).
  destruct (key_compare _ _); cbn; [|done|done].
  destruct (N.compare_spec (chunk_uuid (rr_chunk_id y)) (chunk_uuid (rr_chunk_id x))) as [E| |]; try done.
  intros _ _. destruct (rr_chunk_id x), (rr_chunk_id y). cbn in E. by subst.
Qed.

(** C37: reranking is exact, for positive weights and, where the cross
    encoder runs, a model with finite logits.  The cross encoder runs just
    when it is configured and its model loads.  Every chunk comes back once,
    with its fusion score and the score its mode computes for it: in feature
    mode from its age, project, type and words; with the cross encoder from
    the score the model gave the pair of the query and this chunk's text, and
    if the model fails, panics or does not give one score per chunk, from the
    count of the words and pairs of words that text shares with the query,
    between 0 and 1.  No score is NaN, and the list is sorted by score, ties
    by chunk id.  Where the model gave no scores the order in which different
    chunks came in does not matter. *)
Theorem rerank_exact (chunks : list ChunkWithMeta) (context : RerankerContext) :
  weights_ok config → Forall chunk_ok chunks → small_query context → (engine_mode config = CrossEncoder → finite_logits) →
  let out := rerank config chunks context in
  (engine_mode config = CrossEncoder ↔ rk_mode config = CrossEncoder ∧ ∃ has_types, scorer_new = Some (Ok has_types)) ∧
  (∃ rs, out ≡ₚ rs ∧ length rs = length chunks ∧
     ∀ i c, chunks !! i = Some c → ∃ r, rs !! i = Some r ∧ ranks context chunks i c r) ∧
  Forall (scored rr_final_score) out ∧ StronglySorted (cmp_le ranked_cmp) out ∧
  (∀ chunks', chunks' ≡ₚ chunks → NoDup (map cw_chunk_id chunks) →
     engine_mode config = Feature ∨
       (let query := default "" (rc_query_text context) in model_scores query chunks = None ∧ model_scores query chunks' = None) →
     rerank config chunks' context = out).
Proof using EL LL.
  intros Hw Hc Hq Hf. cbn. rewrite !rerank_unsorted.
  pose proof (unsorted_scored chunks context Hw Hc Hq Hf) as Hsc. split_and!.
  - unfold engine_mode, onnx_is_available, catch_onnx_panic. destruct (rk_mode config); [naive_solver|].
    destruct scorer_new as [[h|]|]; cbn; naive_solver.
  - exists (unsorted chunks context). split_and!; [apply sort_by_Permutation|apply length_unsorted|].
    intros i c Hi. by apply unsorted_ranks.
  - unfold sort_desc. by rewrite sort_by_Permutation.
  - by apply (sort_by_sorted _ (scored rr_final_score)).
  - intros chunks' Hp Hnd Hm. rewrite rerank_unsorted. set (P := λ r, scored rr_final_score r ∧ r ∈ unsorted chunks context).
    assert (Hperm : unsorted chunks' context ≡ₚ unsorted chunks context).
    { rewrite !unsorted_by_chunk by naive_solver. by apply fmap_Permutation. }
    assert (PreorderOn ranked_cmp P) by (apply (PreorderOn_sub _ (scored rr_final_score)); [by intros x []|apply _]).
    apply (sort_by_Permutation_eq _ P); [| |done].
    + intros x y [Hx Ix] [Hy Iy] L1 L2. apply (NoDup_map_inj rr_chunk_id (unsorted chunks context)); [|done|done|by apply ranked_cmp_antisym].
      rewrite unsorted_by_chunk by naive_solver. rewrite map_map.
      rewrite (map_ext _ cw_chunk_id); [done|]. intros c. by destruct (engine_mode config).
    + rewrite Hperm. apply Forall_forall. intros r Hr. split; [|done]. by eapply Forall_forall.
Qed.
End rerank.

(* ------------------------------------------------------------------ *)
(** ** Evaluation *)

#[local] Instance flat_exp : Exp := { f64_exp _ := f64_one }.
#[local] Instance flat_exp_laws : ExpLaws.
Proof. split. done. Qed.
#[local] Instance ascii_alnum : AlphaNumeric := { char_is_alphanumeric := on_ascii Types.is_ascii_alphanumeric }.
(** A coarse [expf] with the right signs. *)
#[local] Instance sign_exp : Libm := {
  f32_log2 x := x;
  f32_exp x := match x with
               | S754_zero _ => f32_one
               | S754_finite true _ _ => f32_lit 1 3
               | S754_infinity true => f32_zero
               | S754_nan => S754_nan
               | _ => f32_of_Z 3
               end;
}.
#[local] Instance sign_exp_laws : LibmLaws.
Proof. split; [by intros [?|[]| |[] ? ?]|by intros [?|[]| |[] ? ?]|done]. Qed.
(** A model with two classes that takes long texts for relevant. *)
#[local] Instance toy_model : OnnxRuntime := {
  disable_var := None;
  load_model := Some (Ok false);
  encode_batch ps := Some (Ok (map (λ p, mkEncoding [Z.of_nat (slen p.1); Z.of_nat (slen p.2)] [1; 1] [0; 1]) ps));
  from_array_view _ := Ok tt;
  session_run inputs :=
    match inputs with
    | (_, ids) :: _ =>
        Some (Ok [("logits"%string, Ok (mkArrayD [length ids; 2%nat]
          (flat_map (λ row, [f32_one; if 20 <? nth 1 row 0 then f32_of_Z 2 else f32_zero]) ids)))])
    | [] => None
    end;
}.
Lemma toy_model_finite : finite_logits.
Proof.
  intros [|[n ids] inputs] outputs name a; [done|]. cbn. intros [= <-] [[= -> ->]|Hin]%elem_of_cons; [|by apply not_elem_of_nil in Hin].
  cbn. induction ids as [|row ids IH]; [constructor|]. cbn. constructor; [by vm_compute|].
  constructor; [|exact IH]. by destruct (20 <? _); vm_compute.
Qed.

Lemma default_weights_ok : weights_ok RerankerConfig_default.
Proof. by split; vm_compute. Qed.

Definition sample_chunk (n : N) (rrf : f32) (text : string) : ChunkWithMeta :=
  mkChunkWithMeta (mkChunkId n) rrf 0 None Doc (Some text).
Definition sample_chunks : list ChunkWithMeta :=
  [sample_chunk 1 (f32_lit 3 100) "unrelated notes"; sample_chunk 2 (f32_lit 2 100) "The WAL truncation bug 42"].
Definition sample_context : RerankerContext := with_query "wal truncation 42" (context_at 1000).

(** The words of the query move the second chunk to the front. *)
Example rerank_sample :
  map (λ r, chunk_uuid (rr_chunk_id r)) (rerank RerankerConfig_default sample_chunks sample_context) = [2%N; 1%N].
Proof. vm_compute. reflexivity. Qed.

(** The model answers for every pair, and moves the long text to the front. *)
Definition cross_config : RerankerConfig :=
  mkRerankerConfig CrossEncoder f32_one (f32_lit 1 10) (f32_of_Z 7) (f32_lit 2 10) (f32_lit 5 100)
    (f32_lit 12 100) (f32_lit 7 10).
Example score_pairs_sample :
  (score_pairs "wal truncation 42" ["unrelated notes"; "The WAL truncation bug 42"],
   map (λ r, chunk_uuid (rr_chunk_id r)) (rerank cross_config sample_chunks sample_context)) =
  (Ok [f32_div (f32_lit 1 3) (f32_add f32_one (f32_lit 1 3)); f32_div f32_one (f32_add (f32_lit 1 3) f32_one)],
   [2%N; 1%N]).
Proof. vm_compute. reflexivity. Qed.

Lemma cross_weights_ok : weights_ok cross_config.
Proof. by split; vm_compute. Qed.

Lemma rerank_exact_witness :
  rerank RerankerConfig_default (reverse sample_chunks) sample_context =
  rerank RerankerConfig_default sample_chunks sample_context ∧
  engine_mode cross_config = CrossEncoder ∧
  StronglySorted (cmp_le ranked_cmp) (rerank cross_config sample_chunks sample_context).
Proof.
  destruct (rerank_exact RerankerConfig_default sample_chunks sample_context default_weights_ok)
    as (_ & _ & _ & _ & H).
  - by repeat constructor.
  - by vm_compute.
  - done.
  - destruct (rerank_exact cross_config sample_chunks sample_context cross_weights_ok) as (Hm & _ & _ & Hs & _).
    + by repeat constructor.
    + by vm_compute.
    + intros _. exact toy_model_finite.
    + split_and!; [|apply Hm; split; [reflexivity|by eexists]|exact Hs].
      apply H; [apply reverse_Permutation| |by left]. apply (bool_decide_unpack _). vm_compute. exact I.
Defined.
