(* ===== verification/Admission.v ===== *)
(** * Write admission (src/crates/memd/src/write_admission.rs,
    auto_priority.rs, write_service.rs)

    The gate every memory write passes: whether a text is stored, for how
    long, with which tags and at which priority.  Priorities are tags with a
    decimal number, parsed as [str::parse::<f32>] does; the result is rounded
    correctly, whatever the number of digits.  The outer [option] is a panic
    of a slicing operation. *)

From S2P Require Import Prelude Types Str Ranking.
From S2P Require Import Sentence.
From stdpp Require Import pretty.
From Stdlib Require Import Ascii Floats.SpecFloat.

Open Scope Z_scope.

(* ------------------------------------------------------------------ *)
(** ** [str::parse::<f32>] *)

Definition digit_value (c : ascii) : Z := Z.of_N (N_of_ascii c) - 48.

Fixpoint take_digits (cs : list ascii) : list Z * list ascii :=
  match cs with
  | c :: cs' => if is_ascii_digit c then let '(ds, rest) := take_digits cs' in (digit_value c :: ds, rest) else ([], cs)
  | [] => ([], [])
  end.

Definition decimal (ds : list Z) : Z := foldl (λ n d, n * 10 + d) 0 ds.

Definition parse_sign (cs : list ascii) : bool * list ascii :=
  match cs with
  | "+"%char :: cs => (false, cs)
  | "-"%char :: cs => (true, cs)
  | _ => (false, cs)
  end.

(** An optional exponent, and nothing after it. *)
Definition parse_exponent (cs : list ascii) : option Z :=
  match cs with
  | [] => Some 0
  | c :: cs =>
      if bool_decide (ascii_lower c = "e"%char) then
        let '(negative, cs) := parse_sign cs in
        let '(ds, rest) := take_digits cs in
        if bool_decide (ds = []) || negb (bool_decide (rest = [])) then None
        else Some (if negative : bool then - decimal ds else decimal ds)
      else None
  end.

(** [Digit+], [Digit+ '.' Digit*] or [Digit* '.' Digit+], and an exponent:
    the number as mantissa and exponent of ten. *)
Definition parse_decimal (cs : list ascii) : option (Z * Z) :=
  let '(int, rest) := take_digits cs in
  let '(frac, rest) := match rest with "."%char :: rest => take_digits rest | _ => ([], rest) end in
  if bool_decide (int = []) && bool_decide (frac = []) then None
  else
    e ← parse_exponent rest;
    Some (decimal (int ++ frac), e - zlen frac).

(** The float nearest to [± m * 10^e].  Numbers beyond [10^100] are infinite,
    numbers below [10^-100] are zero. *)
Definition f32_of_decimal (negative : bool) (m e : Z) : f32 :=
  match m with
  | Zpos p =>
      if 100 <? e then S754_infinity negative
      else if 0 <=? e then binary_normalize 24 128 (if negative then Zneg p * 10 ^ e else Zpos p * 10 ^ e) 0 negative
      else if m <? 10 ^ (- e - 100) then S754_zero negative
      else
        let '(q, e', l) := SFdiv_core_binary 24 128 m 0 (10 ^ (- e)) 0 in
        binary_round_aux 24 128 negative q e' l
  | _ => S754_zero negative
  end.

Definition f32_from_str (s : string) : option f32 :=
  let '(negative, cs) := parse_sign (chars s) in
  let word := to_ascii_lowercase (String.string_of_list_ascii cs) in
  if String.eqb word "inf" || String.eqb word "infinity" then Some (S754_infinity negative)
  else if String.eqb word "nan" then Some S754_nan
  else '(m, e) ← parse_decimal cs; Some (f32_of_decimal negative m e).

Example parse_samples :
  map f32_from_str ["7"; "8.0"; "+8e0"; ".5"; "5."; "-12.25E1"; "1e39"; "1e-46"; "0.1"]%string =
  map Some [f32_of_Z 7; f32_of_Z 8; f32_of_Z 8; f32_lit 1 2; f32_of_Z 5; f32_div (f32_of_Z (-245)) (f32_of_Z 2);
            f32_INFINITY; f32_zero; f32_lit 1 10].
Proof. vm_compute. reflexivity. Qed.

Example parse_refused :
  map f32_from_str [""; "."; "e5"; "+"; "8 "; " 8"; "0x8"; "1e"; "8,0"; "1_0"]%string = replicate 10 None.
Proof. vm_compute. reflexivity. Qed.

(** [str::strip_prefix] and [str::starts_with] *)
Definition str_strip_prefix (p s : string) : option string :=
  if String.prefix p s then Some (String.substring (String.length p) (String.length s - String.length p) s) else None.
Definition str_starts_with (p s : string) : bool := String.prefix p s.

(** [tags.iter().any(|tag| tag == "..")] *)
Definition has_tag (tag : string) (tags : list string) : bool := existsb (String.eqb tag) tags.
(** [a || b || ..] over [contains] or [starts_with] *)
Definition contains_one (pats : list string) (s : string) : bool := existsb (λ p, string_contains p s) pats.
Definition starts_with_one (pats : list string) (s : string) : bool := existsb (λ p, str_starts_with p s) pats.

(** The number of a [priority:] or [importance:] tag. *)
Definition tag_priority (tag : string) : option f32 :=
  value ← (match str_strip_prefix "priority:" tag with
           | Some v => Some v
           | None => str_strip_prefix "importance:" tag
           end);
  f32_from_str value.

(* ------------------------------------------------------------------ *)
(** ** Heuristic priority (auto_priority.rs) *)

Definition MAX_AUTO_PRIORITY : Z := 7.
Definition MIN_AUTO_PRIORITY : Z := 3.

Definition has_explicit_priority (tags : list string) : bool :=
  existsb (λ tag, match tag_priority tag with Some v => is_finite v | None => false end) tags.

Definition type_base (chunk_type : ChunkType) : Z :=
  match chunk_type with Types.Decision => 5 | Summary => 1 | Research => 2 | Trace => 0 | Plan => 1 | _ => 0 end.

(** One tag; [None] is the early return of 0. *)
Definition tag_score (tag : string) : option Z :=
  if String.eqb tag "kind:decision" then Some 4
  else if String.eqb tag "kind:finish" then Some 3
  else if String.eqb tag "kind:evidence" then Some 3
  else if String.eqb tag "kind:run" then Some 1
  else if String.eqb tag "kind:progress" then Some 0
  else if str_starts_with "kind:consolidated" tag then Some 6
  else if str_starts_with "kind:superseded" tag then None
  else if str_starts_with "validated:true" tag || String.eqb tag "supports:true" then Some 1
  else if str_starts_with "status:failed" tag then Some 1
  else if str_starts_with "ctx:file:" tag || str_starts_with "ctx:subsystem:" tag then Some 1
  else Some 0.

(** The loop over the tags, in [i32]. *)
Fixpoint tags_score (score : Z) (tags : list string) : option Z :=
  match tags with
  | [] => Some score
  | tag :: tags => n ← tag_score tag; tags_score (as_i32 (score + n)) tags
  end.

Definition compute_priority (chunk_type : ChunkType) (text : string) (tags : list string) : Z :=
  match tags_score (type_base chunk_type) tags with
  | None => 0
  | Some score =>
      let lowered := to_ascii_lowercase text in
      let score := if contains_one ["validated:"; "validation:"; "reproduced"; "confirmed"] lowered
                   then as_i32 (score + 1) else score in
      let score := if contains_one ["root cause"; "fix:"] lowered then as_i32 (score + 1) else score in
      let score := if starts_with_one ["todo"; "starting"; "about to "] lowered then as_i32 (score - 2) else score in
      Z.max 0 (Z.min MAX_AUTO_PRIORITY score)
  end.

Definition stamp_auto_priority (chunk_type : ChunkType) (text : string) (tags : list string) : option Z * list string :=
  if has_explicit_priority tags then (None, tags)
  else
    let computed := compute_priority chunk_type text tags in
    if computed <? MIN_AUTO_PRIORITY then (None, tags)
    else
      let clamped := Z.min computed MAX_AUTO_PRIORITY in
      (Some clamped, tags ++ ["priority:" +:+ pretty clamped]).

(* ------------------------------------------------------------------ *)
(** ** The gate (write_admission.rs) *)

Inductive AdmissionDecision : Type := Durable | Ephemeral | Reject.
#[export] Instance AdmissionDecision_eq_dec : EqDecision AdmissionDecision.
Proof. solve_decision. Defined.

Definition AdmissionDecision_as_str (d : AdmissionDecision) : string :=
  match d with Durable => "durable" | Ephemeral => "ephemeral" | Reject => "reject" end.

Record AdmissionOutcome : Type := mkOutcome {
  ao_decision : AdmissionDecision;
  ao_reason : string;
  ao_warning : option string;
}.
Definition ao_durable (reason : string) : AdmissionOutcome := mkOutcome Durable reason None.
Definition durable_with_warning (reason warning : string) : AdmissionOutcome := mkOutcome Durable reason (Some warning).
Definition ao_ephemeral (reason : string) : AdmissionOutcome := mkOutcome Ephemeral reason None.
Definition ao_reject (reason : string) : AdmissionOutcome := mkOutcome Reject reason None.

Definition MAX_MEMORY_TEXT_BYTES : Z := 1024 * 1024.

Definition ACTION_VERBS : list string :=
  ["apply"; "avoid"; "check"; "configure"; "confirm"; "disable"; "do"; "enable"; "export"; "follow"; "include";
   "keep"; "pin"; "point"; "prefer"; "record"; "review"; "resolve"; "reuse"; "run"; "set"; "treat"; "update"; "use";
   "verify"; "write"]%string.

Definition contains_action_verb (text : string) : bool :=
  existsb (λ word, bool_decide (to_ascii_lowercase word ∈ ACTION_VERBS))
    (str_split (λ c, negb (on_ascii is_ascii_alphabetic c)) text).

Definition is_concrete_agent_action (action : string) : bool :=
  (24 <=? length (str_chars action))%nat && contains_action_verb action.
Definition is_concrete_agent_action_text (action : string) : bool := is_concrete_agent_action (str_trim action).

(** The [while let] over the occurrences of the marker; each one is found
    behind the one before, so the length of the text is fuel enough. *)
Fixpoint marker_starts (fuel : nat) (marker lowered : string) (search_start : nat) : list nat :=
  match fuel with
  | O => []
  | S fuel =>
      match String.index search_start marker lowered with
      | Some marker_start =>
          marker_start :: marker_starts fuel marker lowered (marker_start + String.length marker)
      | None => []
      end
  end.

Definition line_break (c : string) : bool :=
  match c with String a "" => bool_decide (a = "010"%char) || bool_decide (a = "013"%char) | _ => false end.
(** [s.find(['\n', '\r'])] *)
Fixpoint find_break (s : string) : option nat :=
  match s with
  | EmptyString => None
  | String a s => if line_break (String a "") then Some O else S <$> find_break s
  end.

(** The body behind the [i]-th marker: up to the next marker or the end of
    the line. *)
Fixpoint action_bodies (text marker : string) (starts : list nat) : option (list string) :=
  match starts with
  | [] => Some []
  | start :: starts =>
      let body_start := (start + String.length marker)%nat in
      let next_marker := match starts with next :: _ => next | [] => String.length text end in
      body ← str_slice body_start next_marker text;
      let line_end := match find_break body with Some offset => (body_start + offset)%nat | None => next_marker end in
      line ← str_slice body_start line_end text;
      rest ← action_bodies text marker starts;
      Some (str_trim line :: rest)
  end.

Definition concrete_agent_action_candidates (text marker : string) : option (list string) :=
  action_bodies text marker (marker_starts (S (String.length text)) marker (to_ascii_lowercase text) 0).

(** [any] looks at all candidates here: the slices it skips do not panic on
    a valid text. *)
Definition has_concrete_agent_action (text : string) : option bool :=
  existsb is_concrete_agent_action <$> concrete_agent_action_candidates text "agent action:".

Definition is_generated_digest_wrapper (text : string) (tags : list string) : bool :=
  let generated := has_tag "task:status:generated" tags in
  let digest_like := existsb (starts_with_one ["task:role:"; "task:digest:"]) tags in
  if generated && digest_like then true
  else
    let lowered := to_ascii_lowercase text in
    str_starts_with "task digest status generated" lowered
    || contains_one ["artifact role: highlight_library"; "artifact role: project_brief";
         "artifact role: failure_library"; "artifact role: decision_library"; "artifact role: evidence_library"] lowered.

(** [split_whitespace().count()] *)
Fixpoint count_words (in_word : bool) (cs : list string) : nat :=
  match cs with
  | [] => 0
  | c :: cs =>
      if char_is_whitespace c then count_words false cs
      else if in_word then count_words true cs else S (count_words true cs)
  end.

Definition is_low_signal_progress (text : string) : bool :=
  let lowered := to_ascii_lowercase text in
  let compact_words := count_words false (str_chars lowered) in
  starts_with_one ["todo"; "starting"; "about to "; "working on "; "checking "; "investigating "; "looking into "] lowered
  || ((compact_words <=? 8)%nat && negb (contains_one ["/"; "http"; "validated"; "root cause"] lowered)).

Definition priority_8 (v : f32) : bool := is_finite v && f32_ge v (f32_of_Z 8).

Definition explicit_high_priority (tags : list string) : bool :=
  existsb (λ tag, match tag_priority tag with Some v => priority_8 v | None => false end) tags.

(** [downgrade_high_priority_tags], one tag *)
Definition downgrade_tag (tag : string) : string :=
  match List.find (λ p, str_starts_with p tag) ["priority:"; "importance:"]%string with
  | None => tag
  | Some prefix =>
      match str_strip_prefix prefix tag ≫= f32_from_str with
      | Some v => if priority_8 v then prefix +:+ "7" else tag
      | None => tag
      end
  end.
Definition downgrade_high_priority_tags (tags : list string) : list string := map downgrade_tag tags.

Definition durable_signal_reason (chunk_type : ChunkType) (text : string) (tags : list string) : option string :=
  match chunk_type with
  | Types.Decision => Some "decision chunk type"
  | Code => Some "code or path-bearing chunk type"
  | _ =>
      let by_tag := omap (λ tag,
        if String.eqb tag "kind:decision" then Some "decision tag"
        else if String.eqb tag "kind:evidence" then Some "evidence tag"
        else if String.eqb tag "kind:finish" then Some "finished task outcome tag"
        else if String.eqb tag "kind:consolidated" then Some "consolidated durable lesson tag"
        else if String.eqb tag "kind:run" then Some "run/result evidence tag"
        else None) tags in
      match by_tag with
      | reason :: _ => Some reason
      | [] =>
          let lowered := to_ascii_lowercase text in
          if contains_one ["decision:"; "rationale:"] lowered then Some "decision with rationale"
          else if contains_one ["validated:"; "validation:"; "reproduced"; "confirmed"; "passed"] lowered
          then Some "validated result"
          else if contains_one ["root cause"; "failed because"] lowered then Some "root-cause failure"
          else if contains_one ["fix:"; "fixed by"; "solution:"] lowered then Some "validated fix"
          else if contains_one ["command:"; "path:"; "parameter:"; "parameters:"; "/home/"; "crates/"; "tasks/"; ".rs";
                    ".md"; "http://"; "https://"] lowered
          then Some "command/path/parameter evidence"
          else if contains_one ["next step:"; "follow-up:"; "followup:"] lowered then Some "durable follow-up"
          else None
      end
  end%string.

Definition classify_write (chunk_type : ChunkType) (text : string) (tags : list string) (mode : IngestionMode)
    : option AdmissionOutcome :=
  let len := Z.of_nat (String.length text) in
  if MAX_MEMORY_TEXT_BYTES <? len then
    Some (ao_reject ("memory text is " +:+ pretty len +:+ " bytes, over the " +:+ pretty MAX_MEMORY_TEXT_BYTES
                     +:+ "-byte limit; chunk large documents before storing"))
  else
    let trimmed := str_trim text in
    if String.eqb trimmed "" then Some (ao_reject "empty memory text is not useful durable context")
    else if is_generated_digest_wrapper trimmed tags then
      Some (ao_reject "generated digest wrapper records are not accepted through memory.add")
    else
      concrete ← (if explicit_high_priority tags then has_concrete_agent_action trimmed else Some true);
      if negb concrete then
        Some (durable_with_warning "high-priority memory without concrete Agent action; priority downgraded to 7"
                ("priority:8+ or importance:8+ memories need a concrete 'Agent action:' sentence (>= 24 chars containing one of: "
                 +:+ str_join ", " ACTION_VERBS +:+ "); stored at priority 7"))
      else if has_explicit_priority tags then Some (ao_durable "explicit priority or importance tag")
      else
        let durable_reason := durable_signal_reason chunk_type trimmed tags in
        Some
          (if has_tag "kind:progress" tags && is_low_signal_progress trimmed && bool_decide (durable_reason = None) then
             match mode with
             | Conversation => ao_ephemeral "low-signal conversation progress is stored as short-lived hidden context"
             | Document => ao_reject "low-signal progress chatter needs a concrete result, decision, failure, command, path, or explicit priority"
             end
           else match durable_reason with
                | Some reason => ao_durable reason
                | None => ao_durable "accepted"
                end).

(* ------------------------------------------------------------------ *)
(** ** Preparing a write (write_service.rs) *)

Definition WRITE_ADMISSION_EPHEMERAL_TTL_MS : Z := 14 * 24 * 60 * 60 * 1000.
Definition WRITE_ADMISSION_PROGRESS_TTL_MS : Z := 14 * 24 * 60 * 60 * 1000.
Definition WRITE_ADMISSION_RUN_TRACE_TTL_MS : Z := 30 * 24 * 60 * 60 * 1000.

Inductive PrioritySource : Type := ExplicitPriority | AutomaticPriority.
Record PreparedPriority : Type := mkPriority { pp_value : f32; pp_source : PrioritySource }.

Inductive RetentionSource : Type :=
| NoRetention | CallerRetention | ConversationDefault | EphemeralDefault | ProgressDefault | RunTraceDefault.

Record PreparedRetention : Type := mkRetention {
  pt_expires_at_ms : option Z;
  pt_review_after_ms : option Z;
  pt_source : RetentionSource;
  pt_defaulted_expires_at : bool;
  pt_defaulted_review_after : bool;
}.

Definition caller_source (expires review : option Z) : RetentionSource :=
  if negb (is_none expires) || negb (is_none review) then CallerRetention else NoRetention.
(** [PreparedRetention::new] *)
Definition retention_new (expires review : option Z) : PreparedRetention :=
  mkRetention expires review (caller_source expires review) false false.

Definition default_review (value : Z) (source : RetentionSource) (r : PreparedRetention) : PreparedRetention :=
  match pt_review_after_ms r with
  | None => mkRetention (pt_expires_at_ms r) (Some value) source (pt_defaulted_expires_at r) true
  | Some _ => r
  end.

Definition default_both (value : Z) (source : RetentionSource) (r : PreparedRetention) : PreparedRetention :=
  let '(expires, d1) := match pt_expires_at_ms r with
                        | None => (Some value, true) | Some e => (Some e, pt_defaulted_expires_at r) end in
  let '(review, d2) := match pt_review_after_ms r with
                       | None => (Some value, true) | Some e => (Some e, pt_defaulted_review_after r) end in
  mkRetention expires review source d1 d2.

Definition strip_defaults (r : PreparedRetention) : PreparedRetention :=
  let expires := if pt_defaulted_expires_at r then None else pt_expires_at_ms r in
  let review := if pt_defaulted_review_after r then None else pt_review_after_ms r in
  mkRetention expires review (caller_source expires review) false false.

(** [TrustTier] of task_memory/mod.rs; the service uses its first variant. *)
Inductive TrustTier : Type := SemanticCandidate | CanonicalRecord | CompiledDigestHint | VerifiedRecord.

Record PrepareWriteRequest : Type := mkRequest {
  pq_chunk_type : ChunkType;
  pq_text : string;
  pq_tags : list string;
  pq_ingestion_mode : IngestionMode;
  pq_expires_at_ms : option Z;
  pq_review_after_ms : option Z;
}.

Record PreparedWrite : Type := mkPrepared {
  pw_outcome : AdmissionOutcome;
  pw_tags : list string;
  pw_priority : option PreparedPriority;
  pw_retention : PreparedRetention;
  pw_lifecycle_tier : option MemoryTier;
  pw_trust_tier : TrustTier;
  pw_ingestion_mode : IngestionMode;
}.

Definition is_rejected (w : PreparedWrite) : bool := bool_decide (ao_decision (pw_outcome w) = Reject).
Definition usage_outcome (w : PreparedWrite) : string :=
  match ao_decision (pw_outcome w) with Durable => "admitted" | Ephemeral => "downgraded" | Reject => "rejected" end.

Definition lifecycle_delta (w : PreparedWrite) : LifecycleDelta :=
  mkDelta None (pw_lifecycle_tier w) None None (Some <$> pt_expires_at_ms (pw_retention w))
    (Some <$> pt_review_after_ms (pw_retention w)) None.

Definition strip_optional_retention_defaults (w : PreparedWrite) : PreparedWrite :=
  mkPrepared (pw_outcome w) (pw_tags w) (pw_priority w) (strip_defaults (pw_retention w)) (pw_lifecycle_tier w)
    (pw_trust_tier w) (pw_ingestion_mode w).

(** [seen.insert(..)] keeps the first of equal tags. *)
Fixpoint first_of_each (seen : list string) (tags : list string) : list string :=
  match tags with
  | [] => []
  | tag :: tags =>
      if bool_decide (tag ∈ seen) then first_of_each seen tags else tag :: first_of_each (tag :: seen) tags
  end.
Definition normalize_tags (tags : list string) : list string :=
  first_of_each [] (filter (λ tag, tag ≠ ""%string) (map str_trim tags)).

Definition parse_priority (tags : list string) (source : PrioritySource) : option PreparedPriority :=
  head (omap (λ tag, v ← tag_priority tag; if is_finite v then Some (mkPriority v source) else None) tags).

Definition has_durable_retention_override (tags : list string) : bool :=
  existsb (λ tag,
    bool_decide (tag ∈ ["kind:evidence"; "kind:decision"; "kind:finish"; "kind:consolidated"; "retention:durable";
                        "validated:true"; "supports:true"]%string)
    || starts_with_one ["evidence:"; "source:evidence"] tag) tags.

Definition should_apply_run_trace_retention (chunk_type : ChunkType) (tags : list string) : bool :=
  let is_run_trace := bool_decide (chunk_type = Trace) || has_tag "kind:run" tags in
  is_run_trace && negb (has_explicit_priority tags) && negb (has_durable_retention_override tags).

Definition should_apply_progress_summary_retention (chunk_type : ChunkType) (tags : list string) : bool :=
  bool_decide (chunk_type = Summary) && has_tag "kind:progress" tags
  && negb (has_explicit_priority tags) && negb (has_durable_retention_override tags).

(** The tags an ephemeral write gets, unless it has them. *)
Definition push_missing (tags : list string) (tag : string) : list string :=
  if has_tag tag tags then tags else tags ++ [tag].

(** The retention of an admitted write, and its lifecycle tier; the sums
    wrap in a release build. *)
Definition admitted_retention (decision : AdmissionDecision) (request : PrepareWriteRequest) (tags : list string)
    (now_ms : Z) : PreparedRetention * option MemoryTier :=
  let retention := retention_new (pq_expires_at_ms request) (pq_review_after_ms request) in
  let retention :=
    match pq_ingestion_mode request with
    | Conversation => default_review (as_i64 (now_ms + WRITE_ADMISSION_PROGRESS_TTL_MS)) ConversationDefault retention
    | Document => retention
    end in
  if bool_decide (decision = Ephemeral) then
    (default_both (as_i64 (now_ms + WRITE_ADMISSION_EPHEMERAL_TTL_MS)) EphemeralDefault retention, Some History)
  else if should_apply_run_trace_retention (pq_chunk_type request) tags then
    (default_both (as_i64 (now_ms + WRITE_ADMISSION_RUN_TRACE_TTL_MS)) RunTraceDefault retention, None)
  else if should_apply_progress_summary_retention (pq_chunk_type request) tags then
    (default_both (as_i64 (now_ms + WRITE_ADMISSION_PROGRESS_TTL_MS)) ProgressDefault retention, None)
  else (retention, None).

Definition prepare_write_at (request : PrepareWriteRequest) (now_ms : Z) : option PreparedWrite :=
  let tags := normalize_tags (pq_tags request) in
  outcome ← classify_write (pq_chunk_type request) (pq_text request) tags (pq_ingestion_mode request);
  if bool_decide (ao_decision outcome = Reject) then
    Some (mkPrepared outcome tags (parse_priority tags ExplicitPriority)
            (retention_new (pq_expires_at_ms request) (pq_review_after_ms request)) None SemanticCandidate
            (pq_ingestion_mode request))
  else
    let '(retention, lifecycle_tier) := admitted_retention (ao_decision outcome) request tags now_ms in
    let tags := if negb (is_none (ao_warning outcome)) then downgrade_high_priority_tags tags else tags in
    let tags := if bool_decide (ao_decision outcome = Ephemeral)
                then foldl push_missing tags ["admission:ephemeral"; "retention:short_lived"]%string else tags in
    let '(auto_priority, tags) :=
      if bool_decide (ao_decision outcome = Durable)
      then stamp_auto_priority (pq_chunk_type request) (pq_text request) tags else (None, tags) in
    let priority :=
      match auto_priority with
      | Some value => Some (mkPriority (f32_of_Z value) AutomaticPriority)
      | None => parse_priority tags ExplicitPriority
      end in
    Some (mkPrepared outcome tags priority retention lifecycle_tier SemanticCandidate (pq_ingestion_mode request)).

(* ------------------------------------------------------------------ *)
(** ** Write admission: correctness

    Preparing a write never panics on a valid text, keeps what the caller
    asked to be kept, and lets no tag of priority eight or more through
    without a concrete action. *)

(* ------------------------------------------------------------------ *)
(** ** Texts *)

Lemma str_chars_valid s : valid_utf8 s = true → Forall (λ c, valid_char c = true) (str_chars s).
Proof.
  unfold valid_utf8. rewrite forallb_forall. intros V. apply Forall_forall. intros c Hc.
  apply V. by apply list_elem_of_In.
Qed.

Lemma trim_start_valid s : valid_utf8 s = true → valid_utf8 (str_trim_start s) = true.
Proof.
  intros V. pose proof (str_chars_valid s V) as F. destruct (str_trim_start_suffix s) as [a E].
  assert (L : leads (str_trim_start s)).
  { destruct (drop_while_suffix char_is_whitespace (str_chars s)) as (pre & Ec & _). rewrite Ec in F.
    apply Forall_app in F as [_ F]. by apply valid_chars_leads. }
  rewrite E in V. by apply (valid_utf8_app a) in V as [_ V].
Qed.

Lemma trim_end_valid s : valid_utf8 s = true → valid_utf8 (str_trim_end s) = true.
Proof.
  intros V. pose proof (str_chars_valid s V) as F.
  destruct (drop_while_suffix char_is_whitespace (reverse (str_chars s))) as (pre & Ec & _).
  apply (f_equal reverse) in Ec. rewrite reverse_involutive, reverse_app in Ec.
  assert (E : s = str_trim_end s +:+ str_concat (reverse pre)).
  { unfold str_trim_end. by rewrite <-str_concat_app, <-Ec, str_chars_concat. }
  rewrite Ec in F. apply Forall_app in F as [_ F]. apply valid_chars_leads in F.
  rewrite E in V. by apply (valid_utf8_app _ _ F) in V as [V _].
Qed.

Lemma trim_valid s : valid_utf8 s = true → valid_utf8 (str_trim s) = true.
Proof. intros V. by apply trim_end_valid, trim_start_valid. Qed.

Lemma slen_lower s : slen (to_ascii_lowercase s) = slen s.
Proof. induction s as [|c s IH]; [done|exact (f_equal S IH)]. Qed.

Lemma substring_lower i n s :
  String.substring i n (to_ascii_lowercase s) = to_ascii_lowercase (String.substring i n s).
Proof.
  revert i n. induction s as [|c s IH]; intros i n; [by destruct i, n|].
  destruct i, n; cbn; try done; [by rewrite <-IH|apply IH..].
Qed.

Lemma lower_app s t : to_ascii_lowercase (s +:+ t) = to_ascii_lowercase s +:+ to_ascii_lowercase t.
Proof. induction s as [|c s IH]; [done|exact (f_equal (String (ascii_lower c)) IH)]. Qed.

Lemma str_snoc s : s ≠ ""%string → ∃ p d, s = p +:+ String d "".
Proof.
  induction s as [|c s IH]; [done|]. intros _. destruct s as [|c' s]; [by exists ""%string, c|].
  destruct IH as (p & d & ->); [done|]. by exists (String c p), d.
Qed.

(** What lowers to a lower-case letter, or to a colon. *)
Lemma lower_not_continuation c d : ascii_lower c = d → is_continuation d = false → is_continuation c = false.
Proof.
  unfold ascii_lower, is_continuation. intros <-.
  destruct ((65 <=? N_of_ascii c) && (N_of_ascii c <=? 90))%N eqn:E; [|done]. intros _.
  apply andb_true_iff in E as [_ E%N.leb_le]. apply andb_false_iff. left. apply N.leb_gt. lia.
Qed.

Lemma index_ge n p s m : String.index n p s = Some m → (n ≤ m)%nat.
Proof.
  revert n m. induction s as [|c s IH]; intros [|n] m; cbn [String.index]; try lia; try done.
  destruct (String.index n p s) as [k|] eqn:E; [|done]. intros [= <-]. apply IH in E. lia.
Qed.

Lemma index_occurs n p s m :
  String.index n p s = Some m → String.substring m (slen p) s = p ∧ (n ≤ m)%nat.
Proof. intros E. split; [by apply String.index_correct1 in E|by eapply index_ge]. Qed.

(** *** The bodies behind the markers *)

Definition MARKER : string := "agent action:".

(** A marker of [text] starts at [m]: it begins and ends between
    characters. *)
Record marked (text : string) (m : nat) : Prop := {
  mk_start : is_char_boundary text m = true;
  mk_end : is_char_boundary text (m + slen MARKER) = true;
  mk_fits : (m + slen MARKER ≤ slen text)%nat;
}.

Lemma marked_at text n m :
  valid_utf8 text = true → String.index n MARKER (to_ascii_lowercase text) = Some m → marked text m ∧ (n ≤ m)%nat.
Proof.
  intros V [Hs Hn]%index_occurs. split; [|done]. rewrite substring_lower in Hs.
  assert (Hfit : (m + slen MARKER ≤ slen text)%nat).
  { destruct (Nat.le_gt_cases (m + slen MARKER) (slen text)) as [|Hgt]; [done|]. exfalso.
    apply (f_equal slen) in Hs. rewrite slen_lower in Hs.
    assert (Hlen : ∀ s i k, (slen s < i + k)%nat → (0 < k)%nat → (slen (String.substring i k s) < k)%nat).
    { clear. induction s as [|c s IH]; intros [|i] [|k] H1 H2; cbn in *; try lia.
      - destruct k as [|k]; [lia|]. specialize (IH O (S k) ltac:(lia) ltac:(lia)). lia.
      - apply IH; lia. }
    specialize (Hlen text m (slen MARKER) Hgt ltac:(cbn; lia)). lia. }
  destruct (substring_split m (slen MARKER) text Hfit) as (a & r & E & Ha & Hp).
  set (p := String.substring m (slen MARKER) text) in *.
  assert (Hp' : ∃ c p' d, p = String c (p' +:+ String d "") ∧ ascii_lower c = "a"%char ∧ ascii_lower d = ":"%char ∧ slen p' = 11%nat).
  { clearbody p. destruct p as [|c p]; [done|]. cbn in Hs. injection Hs as Hc Hs.
    destruct (str_snoc p) as (p' & d & ->); [by intros ->|]. rewrite lower_app in Hs.
    change "gent action:"%string with ("gent action" +:+ ":")%string in Hs.
    assert (Hlen : slen p' = 11%nat).
    { apply (f_equal slen) in Hs. rewrite !slen_app, slen_lower in Hs. cbn in Hs. lia. }
    apply str_app_inj_len in Hs as [_ Hd]; [|by rewrite slen_lower, Hlen]. injection Hd as Hd.
    exists c, p', d. by split_and!. }
  destruct Hp' as (c & p' & d & Ep & Hc & Hd & Hlen). split; [| |done].
  - rewrite E, <-Ha. apply is_char_boundary_app. right. rewrite Ep. cbn. by eapply lower_not_continuation.
  - set (q := String c p'). assert (E' : text = (a +:+ q) +:+ (String d "" +:+ r)).
    { rewrite E, Ep. unfold q. rewrite str_app_assoc. change (String c (p' +:+ String d "")) with (String c p' +:+ String d "").
      by rewrite (str_app_assoc (String c p')). }
    assert (Ld : is_continuation d = false) by (by eapply lower_not_continuation).
    rewrite E' in V. apply valid_utf8_app in V as [_ V]; [|exact Ld].
    assert (Vd : valid_utf8 (String d "") = true).
    { unfold ascii_lower in Hd. destruct (_ && _)%bool eqn:En; [|by rewrite Hd].
      exfalso. apply (f_equal N_of_ascii) in Hd. apply andb_true_iff in En as [E1%N.leb_le E2%N.leb_le].
      rewrite N_ascii_embedding in Hd by lia. cbn in Hd. lia. }
    apply valid_match_end in V; [|done|done].
    rewrite E', <-str_app_assoc. replace (m + slen MARKER)%nat with (slen ((a +:+ q) +:+ String d "")).
    { apply is_char_boundary_app. by right. }
    rewrite !slen_app. cbn. unfold q. cbn. lia.
Qed.

Lemma find_break_spec s off :
  find_break s = Some off → ∃ x c y, s = x +:+ String c y ∧ slen x = off ∧ is_continuation c = false.
Proof.
  revert off. induction s as [|a s IH]; intros off; [done|]. cbn [find_break].
  destruct (line_break (String a "")) eqn:E.
  - intros [= <-]. exists ""%string, a, s. split_and!; [done|done|]. cbn in E.
    apply orb_true_iff in E as [E|E]; apply bool_decide_eq_true in E as ->; done.
  - destruct (find_break s) as [k|]; [|done]. intros [= <-]. destruct (IH k eq_refl) as (x & c & y & -> & <- & Hc).
    exists (String a x), c, y. by split_and!.
Qed.

Lemma action_bodies_total text fuel st :
  valid_utf8 text = true → ∃ l, action_bodies text MARKER (marker_starts fuel MARKER (to_ascii_lowercase text) st) = Some l.
Proof.
  intros V. revert st. induction fuel as [|fuel IH]; intros st; cbn [marker_starts]; [by exists []|].
  destruct (String.index st MARKER (to_ascii_lowercase text)) as [m|] eqn:E; [|by exists []].
  destruct (marked_at text st m V E) as [[Hm1 Hm2 Hm3] _].
  set (rest := marker_starts fuel MARKER (to_ascii_lowercase text) (m + slen MARKER)).
  destruct (IH (m + slen MARKER)%nat) as [l Hl]. fold rest in Hl. cbn [action_bodies]. rewrite Hl.
  set (next := match rest with next :: _ => next | [] => String.length text end).
  assert (Hnext : (m + slen MARKER ≤ next ≤ slen text)%nat ∧ is_char_boundary text next = true).
  { unfold next. destruct rest as [|n rest'] eqn:Er; [split; [lia|apply is_char_boundary_end]|].
    unfold rest in Er. destruct fuel as [|fuel']; [done|]. cbn [marker_starts] in Er.
    destruct (String.index (m + slen MARKER) MARKER (to_ascii_lowercase text)) as [n'|] eqn:En; [|done].
    injection Er as <- _. destruct (marked_at text _ _ V En) as [[? ? ?] ?]. split; [lia|done]. }
  destruct Hnext as [Hle Hb]. assert (H13 : slen MARKER = 13%nat) by done. rewrite (str_slice_ok _ _ text Hle Hm2 Hb). cbn [mbind option_bind].
  set (body := String.substring (m + slen MARKER) (next - (m + slen MARKER)) text).
  assert (Hline : ∀ e, e = next ∨ (∃ off, find_break body = Some off ∧ e = (m + slen MARKER + off)%nat) →
    (m + slen MARKER ≤ e ≤ slen text)%nat ∧ is_char_boundary text e = true).
  { intros e [->|(off & Hf & ->)]; [split; [lia|done]|]. apply find_break_spec in Hf as (x & c & y & Eb & Hx & Hc).
    destruct (substring_split (m + slen MARKER) (next - (m + slen MARKER)) text ltac:(lia)) as (a & z & Et & Ha & Hn).
    fold body in Et, Hn. rewrite Eb in Et, Hn. rewrite slen_app in Hn. cbn in Hn. split; [lia|].
    assert (Et' : text = (a +:+ x) +:+ (String c y +:+ z)) by (rewrite Et, !str_app_assoc; done).
    rewrite Et'. replace (m + slen MARKER + off)%nat with (slen (a +:+ x)) by (rewrite slen_app; lia).
    apply is_char_boundary_app. by right. }
  destruct (find_break body) as [off|] eqn:Ef.
  - destruct (Hline (m + slen MARKER + off)%nat) as [H1 H2]; [right; by exists off|].
    rewrite (str_slice_ok _ _ text H1 Hm2 H2). cbn. by eexists.
  - destruct (Hline next) as [H1 H2]; [by left|]. rewrite (str_slice_ok _ _ text H1 Hm2 H2). cbn. by eexists.
Qed.

Lemma concrete_action_total text : valid_utf8 text = true → ∃ b, has_concrete_agent_action text = Some b.
Proof.
  intros V. unfold has_concrete_agent_action, concrete_agent_action_candidates.
  change "agent action:"%string with MARKER.
  destruct (action_bodies_total text (S (slen text)) 0 V) as [l ->]. by eexists.
Qed.

(** The fuel of the marker loop does not matter once it exceeds the text. *)
Lemma marker_starts_fuel f1 f2 marker text st :
  (0 < slen marker)%nat → (slen text < f1 + st)%nat → (slen text < f2 + st)%nat →
  marker_starts f1 marker text st = marker_starts f2 marker text st.
Proof.
  intros Hm. assert (Hend : ∀ st, (slen text < st)%nat → String.index st marker text = None).
  { intros k Hk. destruct (String.index k marker text) as [i|] eqn:E; [|done].
    exfalso. apply index_occurs in E as [Hs Hi]. destruct marker as [|c marker]; [cbn in Hm; lia|].
    assert (Hnone : ∀ t i n, (slen t < i)%nat → String.substring i n t = ""%string).
    { clear. induction t as [|c t IH]; intros [|i] n H; cbn in *; try lia; [done|]. apply IH. lia. }
    rewrite Hnone in Hs by lia. done. }
  revert f2 st. induction f1 as [|f1 IH]; intros f2 st H1 H2.
  - destruct f2 as [|f2]; [done|]. cbn. by rewrite Hend by lia.
  - destruct f2 as [|f2]; cbn; [by rewrite Hend by lia|].
    destruct (String.index st marker text) as [i|] eqn:E; [|done]. apply index_ge in E. f_equal. apply IH; lia.
Qed.

(* ------------------------------------------------------------------ *)
(** ** Priorities *)

(** A tag is kept, or it had a number of eight or more and has seven. *)
Lemma downgrade_tag_cases tag :
  downgrade_tag tag = tag ∧ (∀ v, tag_priority tag = Some v → priority_8 v = false) ∨
  ∃ v, tag_priority tag = Some v ∧ priority_8 v = true ∧ tag_priority (downgrade_tag tag) = Some (f32_of_Z 7).
Proof.
  assert (Hone : ∀ prefix rest, tag_priority (prefix +:+ "7") = Some (f32_of_Z 7) → tag_priority tag = f32_from_str rest →
    let d := match f32_from_str rest with Some v => if priority_8 v then prefix +:+ "7" else tag | None => tag end in
    d = tag ∧ (∀ v, tag_priority tag = Some v → priority_8 v = false) ∨
    ∃ v, tag_priority tag = Some v ∧ priority_8 v = true ∧ tag_priority d = Some (f32_of_Z 7)).
  { intros prefix rest H7 ->. destruct (f32_from_str rest) as [w|]; [|by left].
    destruct (priority_8 w) eqn:E8; [right; by exists w|left]. split; [done|]. by intros v [= <-]. }
  unfold downgrade_tag. cbn [List.find]. unfold str_starts_with.
  destruct (String.prefix "priority:" tag) eqn:E1; [|destruct (String.prefix "importance:" tag) eqn:E2].
  - assert (Es : str_strip_prefix "priority:" tag =
      Some (String.substring (slen "priority:") (slen tag - slen "priority:") tag)) by (unfold str_strip_prefix; by rewrite E1).
    rewrite Es. apply Hone; [vm_compute; reflexivity|]. unfold tag_priority. by rewrite Es.
  - assert (Es : str_strip_prefix "importance:" tag =
      Some (String.substring (slen "importance:") (slen tag - slen "importance:") tag)) by (unfold str_strip_prefix; by rewrite E2).
    rewrite Es. apply Hone; [vm_compute; reflexivity|]. unfold tag_priority, str_strip_prefix. by rewrite E1, E2.
  - left. split; [done|]. unfold tag_priority, str_strip_prefix. by rewrite E1, E2.
Qed.

(** No tag has a priority of eight or more. *)
Definition below_8 (tags : list string) : Prop := ∀ tag v, tag ∈ tags → tag_priority tag = Some v → priority_8 v = false.

Lemma explicit_high_false tags : explicit_high_priority tags = false ↔ below_8 tags.
Proof.
  unfold explicit_high_priority, below_8. rewrite <-not_true_iff_false, existsb_exists. split.
  - intros Hn tag v Hin Hv. apply not_true_iff_false. intros H8. apply Hn. exists tag. rewrite Hv. split; [|done].
    by apply list_elem_of_In.
  - intros Hb (tag & Hin & Ht). apply list_elem_of_In in Hin. destruct (tag_priority tag) as [v|] eqn:E; [|done].
    by rewrite (Hb tag v Hin E) in Ht.
Qed.

Lemma below_8_app l k : below_8 l → below_8 k → below_8 (l ++ k).
Proof. intros Hl Hk tag v [Hin|Hin]%elem_of_app; [by apply Hl|by apply Hk]. Qed.

Lemma push_missing_app tags t : push_missing tags t = tags ∨ push_missing tags t = tags ++ [t].
Proof. unfold push_missing. destruct (has_tag t tags); [by left|by right]. Qed.

(** The tags an ephemeral write gets have no number. *)
Lemma push_ephemeral_spec tags :
  let tags' := foldl push_missing tags ["admission:ephemeral"; "retention:short_lived"]%string in
  ∃ more, tags' = tags ++ more ∧ Forall (λ t, tag_priority t = None) more ∧
    ("admission:ephemeral" ∈ tags')%string ∧ ("retention:short_lived" ∈ tags')%string.
Proof.
  assert (Hin : ∀ tags t, t ∈ push_missing tags t).
  { intros l t. unfold push_missing. destruct (has_tag t l) eqn:E; [|apply elem_of_app; right; by left].
    apply existsb_exists in E as (x & Hx & <-%String.eqb_eq). by apply list_elem_of_In. }
  cbn. set (l1 := push_missing tags "admission:ephemeral"). pose proof (Hin tags "admission:ephemeral"%string) as H1.
  pose proof (Hin l1 "retention:short_lived"%string) as H2. fold l1 in H1.
  destruct (push_missing_app l1 "retention:short_lived") as [E2|E2];
    destruct (push_missing_app tags "admission:ephemeral") as [E1|E1]; fold l1 in E1; rewrite E2 in *.
  - exists []. rewrite app_nil_r. by split_and!.
  - exists ["admission:ephemeral"%string]. split_and!; [done|by repeat constructor|done|done].
  - exists ["retention:short_lived"%string]. rewrite E1 in *. split_and!; [done|by repeat constructor| |done].
    apply elem_of_app. by left.
  - exists ["admission:ephemeral"; "retention:short_lived"]%string.
    split_and!; [by rewrite E1, <-app_assoc|by repeat constructor|apply elem_of_app; by left|done].
Qed.

Lemma compute_priority_bounds chunk_type text tags : 0 ≤ compute_priority chunk_type text tags ≤ MAX_AUTO_PRIORITY.
Proof. unfold compute_priority, MAX_AUTO_PRIORITY. destruct (tags_score _ _); lia. Qed.

Lemma stamp_spec chunk_type text tags :
  stamp_auto_priority chunk_type text tags = (None, tags) ∨
  ∃ n, stamp_auto_priority chunk_type text tags = (Some n, tags ++ ["priority:" +:+ pretty n]) ∧
    MIN_AUTO_PRIORITY ≤ n ≤ MAX_AUTO_PRIORITY ∧ has_explicit_priority tags = false ∧
    tag_priority ("priority:" +:+ pretty n) = Some (f32_of_Z n).
Proof.
  unfold stamp_auto_priority. destruct (has_explicit_priority tags); [by left|].
  pose proof (compute_priority_bounds chunk_type text tags) as Hb. set (n := compute_priority _ _ _) in *. clearbody n.
  destruct (Z.ltb_spec n MIN_AUTO_PRIORITY) as [|Hmin]; [by left|right].
  rewrite Z.min_l by lia. exists n. split_and!; [done|lia|lia|done|].
  unfold MIN_AUTO_PRIORITY, MAX_AUTO_PRIORITY in *.
  assert (n = 3 ∨ n = 4 ∨ n = 5 ∨ n = 6 ∨ n = 7) as [->|[->|[->|[->| ->]]]] by lia; vm_compute; reflexivity.
Qed.

Lemma stamped_below n :
  MIN_AUTO_PRIORITY ≤ n ≤ MAX_AUTO_PRIORITY → is_finite (f32_of_Z n) = true ∧ priority_8 (f32_of_Z n) = false.
Proof.
  unfold MIN_AUTO_PRIORITY, MAX_AUTO_PRIORITY. intros Hn.
  assert (n = 3 ∨ n = 4 ∨ n = 5 ∨ n = 6 ∨ n = 7) as [->|[->|[->|[->| ->]]]] by lia; by vm_compute.
Qed.

(** The first priority among the tags. *)
Lemma parse_priority_app_none l k source :
  has_explicit_priority l = false → parse_priority (l ++ k) source = parse_priority k source.
Proof.
  unfold parse_priority, has_explicit_priority. intros Hl. induction l as [|tag l IH]; [done|].
  cbn in Hl. apply orb_false_iff in Hl as [Ht Hl]. cbn. destruct (tag_priority tag) as [v|]; cbn; [|by apply IH].
  rewrite Ht. by apply IH.
Qed.

Lemma parse_priority_value l s1 s2 : pp_value <$> parse_priority l s1 = pp_value <$> parse_priority l s2.
Proof.
  unfold parse_priority. induction l as [|tag l IH]; [done|]. cbn.
  destruct (tag_priority tag) as [v|]; cbn; [|done]. by destruct (is_finite v).
Qed.

Lemma downgraded_below tags : below_8 (downgrade_high_priority_tags tags).
Proof.
  intros tag v (t & -> & Ht)%list_elem_of_fmap Hv.
  destruct (downgrade_tag_cases t) as [[E Hb]|(w & _ & _ & E)]; [rewrite E in Hv; by apply Hb|].
  rewrite E in Hv. injection Hv as <-. vm_compute. reflexivity.
Qed.

Lemma downgraded_explicit tags : has_explicit_priority (downgrade_high_priority_tags tags) = has_explicit_priority tags.
Proof.
  unfold has_explicit_priority, downgrade_high_priority_tags. induction tags as [|t tags IH]; [done|]. cbn. rewrite IH.
  f_equal. destruct (downgrade_tag_cases t) as [[-> _]|(w & Hw & H8 & ->)]; [done|]. rewrite Hw.
  unfold priority_8 in H8. apply andb_true_iff in H8 as [-> _]. by vm_compute.
Qed.

Lemma high_explicit tags : explicit_high_priority tags = true → has_explicit_priority tags = true.
Proof.
  unfold explicit_high_priority, has_explicit_priority. rewrite !existsb_exists. intros (t & Ht & H8). exists t.
  split; [done|]. destruct (tag_priority t); [|done]. unfold priority_8 in H8. by apply andb_true_iff in H8 as [? _].
Qed.

(** Progress of a conversation that says nothing and carries no priority. *)
Record chatter (chunk_type : ChunkType) (text : string) (tags : list string) (mode : IngestionMode) : Prop := {
  ch_size : Z.of_nat (String.length text) ≤ MAX_MEMORY_TEXT_BYTES;
  ch_text : str_trim text ≠ ""%string;
  ch_digest : is_generated_digest_wrapper (str_trim text) tags = false;
  ch_mode : mode = Conversation;
  ch_priority : has_explicit_priority tags = false;
  ch_progress : ("kind:progress" ∈ tags)%string;
  ch_signal : is_low_signal_progress (str_trim text) = true;
  ch_reason : durable_signal_reason chunk_type (str_trim text) tags = None;
}.

(** What the gate says of a valid text. *)
Record classified (chunk_type : ChunkType) (text : string) (tags : list string) (mode : IngestionMode)
    (o : AdmissionOutcome) : Prop := {
  cl_warning : ao_warning o ≠ None → ao_decision o = Durable;
  cl_action : ao_decision o ≠ Reject → ao_warning o = None → explicit_high_priority tags = true →
    has_concrete_agent_action (str_trim text) = Some true;
  cl_ephemeral : ao_decision o = Ephemeral ↔ chatter chunk_type text tags mode;
}.

Lemma has_tag_true tag tags : has_tag tag tags = true ↔ tag ∈ tags.
Proof.
  unfold has_tag. rewrite existsb_exists. split.
  - intros (x & Hx & <-%String.eqb_eq). by apply list_elem_of_In.
  - intros Hin. exists tag. split; [by apply list_elem_of_In|]. by apply String.eqb_refl.
Qed.

Lemma classify_spec chunk_type text tags mode :
  valid_utf8 text = true →
  ∃ o, classify_write chunk_type text tags mode = Some o ∧ classified chunk_type text tags mode o.
Proof.
  intros V. unfold classify_write.
  assert (Hno : ∀ o, ao_decision o ≠ Ephemeral → (chatter chunk_type text tags mode → False) →
                ao_decision o = Ephemeral ↔ chatter chunk_type text tags mode) by (intros o; tauto).
  destruct (Z.ltb_spec MAX_MEMORY_TEXT_BYTES (Z.of_nat (String.length text))).
  { eexists. split; [done|]. split; [done..|]. apply Hno; [done|]. intros [? _ _ _ _ _ _ _]. lia. }
  destruct (String.eqb_spec (str_trim text) "") as [Et|Et].
  { eexists. split; [done|]. split; [done..|]. by apply Hno; [|intros []]. }
  destruct (is_generated_digest_wrapper (str_trim text) tags) eqn:Ed.
  { eexists. split; [done|]. split; [done..|]. apply Hno; [done|]. intros [_ _ ? _ _ _ _ _]. congruence. }
  destruct (concrete_action_total (str_trim text) (trim_valid _ V)) as [b Hb].
  assert (Hc : ∃ concrete, (if explicit_high_priority tags then has_concrete_agent_action (str_trim text) else Some true) = Some concrete ∧
    (explicit_high_priority tags = true → concrete = true → has_concrete_agent_action (str_trim text) = Some true) ∧
    (explicit_high_priority tags = false → concrete = true)).
  { destruct (explicit_high_priority tags); [exists b|by exists true]. split_and!; [done| |done]. by intros _ <-. }
  destruct Hc as (concrete & -> & Hc & Hlow). cbn [mbind option_bind]. destruct concrete; cbn [negb].
  2: { eexists. split; [reflexivity|]. split; [done..|]. apply Hno; [done|]. intros [_ _ _ _ Hp _ _ _].
       destruct (explicit_high_priority tags) eqn:Eh; [apply high_explicit in Eh; congruence|by discriminate Hlow]. }
  destruct (has_explicit_priority tags) eqn:Ee.
  { eexists. split; [done|]. split; [done| |]; [by auto|]. apply Hno; [done|]. intros [_ _ _ _ ? _ _ _]. congruence. }
  eexists. split; [done|].
  assert (Hdur : ∀ r : option string,
    (has_tag "kind:progress" tags && is_low_signal_progress (str_trim text) &&
       bool_decide (durable_signal_reason chunk_type (str_trim text) tags = None) = false) →
    classified chunk_type text tags mode (match r with Some reason => ao_durable reason | None => ao_durable "accepted" end)).
  { intros r Hf. destruct r; (split; [done|by auto|]); (apply Hno; [done|]);
      intros [_ _ _ _ _ Hp%has_tag_true Hs Hr]; rewrite Hp, Hs, bool_decide_true in Hf by done; done. }
  destruct (_ && _ && _) eqn:Eg; [|by apply Hdur].
  apply andb_true_iff in Eg as [[Hp Hs]%andb_true_iff Hr%bool_decide_eq_true].
  destruct mode; (split; [done|by auto|]).
  - split; [intros _|done]. split; try done; by apply has_tag_true.
  - by apply Hno; [|intros []].
Qed.

(* ------------------------------------------------------------------ *)
(** ** Prepared writes *)

Lemma below_8_none more : Forall (λ t, tag_priority t = None) more → below_8 more.
Proof. intros Hf tag v Hin Hv. rewrite Forall_forall in Hf. by rewrite (Hf tag Hin) in Hv. Qed.

(** The tags and the priority of an admitted write. *)
Lemma admitted_tags decision warning chunk_type text tags :
  let tags1 := if negb (is_none (warning : option string)) then downgrade_high_priority_tags tags else tags in
  let tags2 := if bool_decide (decision = Ephemeral)
               then foldl push_missing tags1 ["admission:ephemeral"; "retention:short_lived"]%string else tags1 in
  let '(auto, tags3) := if bool_decide (decision = Durable) then stamp_auto_priority chunk_type text tags2 else (None, tags2) in
  (warning ≠ None ∨ explicit_high_priority tags = false → below_8 tags3) ∧
  match auto with
  | None => True
  | Some n => has_explicit_priority tags = false ∧ MIN_AUTO_PRIORITY ≤ n ≤ MAX_AUTO_PRIORITY ∧
      ∀ source, parse_priority tags3 source = Some (mkPriority (f32_of_Z n) source)
  end.
Proof.
  intros tags1 tags2.
  assert (H1 : (warning ≠ None ∨ explicit_high_priority tags = false → below_8 tags1) ∧
               has_explicit_priority tags1 = has_explicit_priority tags).
  { unfold tags1. destruct warning; cbn [is_none negb].
    - split; [intros _; apply downgraded_below|apply downgraded_explicit].
    - split; [|done]. intros [?|?]; [done|by apply explicit_high_false]. }
  destruct H1 as [Hb1 He1].
  assert (H2 : ∃ more, tags2 = tags1 ++ more ∧ Forall (λ t, tag_priority t = None) more).
  { unfold tags2. case_bool_decide; [|exists []; by rewrite app_nil_r].
    destruct (push_ephemeral_spec tags1) as (more & E & Hm & _). by exists more. }
  destruct H2 as (more & E2 & Hm).
  assert (Hb2 : warning ≠ None ∨ explicit_high_priority tags = false → below_8 tags2).
  { intros Hw. rewrite E2. apply below_8_app; [by apply Hb1|by apply below_8_none]. }
  case_bool_decide; [|by split].
  destruct (stamp_spec chunk_type text tags2) as [-> |(n & -> & Hn & He & Ht)]; [by split|].
  destruct (stamped_below n Hn) as [Hf H8]. split; [|split; [|split; [done|]]].
  - intros Hw. apply below_8_app; [by apply Hb2|]. intros tag v ->%list_elem_of_singleton Hv.
    rewrite Ht in Hv. by injection Hv as <-.
  - rewrite <-He1. rewrite E2 in He. unfold has_explicit_priority in *. rewrite existsb_app in He.
    by apply orb_false_iff in He as [? _].
  - intros source. rewrite parse_priority_app_none by done. unfold parse_priority. cbn. rewrite Ht. cbn. by rewrite Hf.
Qed.

(** C38: no memory gets a high priority without saying what to do.  Preparing
    a write of a valid text never panics.  If the write is admitted and one
    of its tags has a priority or importance of eight or more, the text has a
    concrete agent action; the recorded priority is that of the first
    numbered tag; and a priority the service chose itself is between three
    and seven and given only when the caller named none. *)
Theorem priority_gate (request : PrepareWriteRequest) (now_ms : Z) :
  valid_utf8 (pq_text request) = true →
  ∃ w, prepare_write_at request now_ms = Some w ∧
    (is_rejected w = false → below_8 (pw_tags w) ∨
       has_concrete_agent_action (str_trim (pq_text request)) = Some true) ∧
    pp_value <$> pw_priority w = pp_value <$> parse_priority (pw_tags w) ExplicitPriority ∧
    ∀ v, pw_priority w = Some (mkPriority v AutomaticPriority) →
      has_explicit_priority (normalize_tags (pq_tags request)) = false ∧
      ∃ n, MIN_AUTO_PRIORITY ≤ n ≤ MAX_AUTO_PRIORITY ∧ v = f32_of_Z n.
Proof.
  intros V. unfold prepare_write_at. set (tags := normalize_tags (pq_tags request)).
  destruct (classify_spec (pq_chunk_type request) _ tags (pq_ingestion_mode request) V) as (o & -> & [Hw Ha He]).
  cbn [mbind option_bind].
  assert (Hexp : ∀ l v, parse_priority l ExplicitPriority ≠ Some (mkPriority v AutomaticPriority)).
  { intros l v. unfold parse_priority. induction l as [|t l IH]; [done|]. cbn.
    destruct (tag_priority t) as [w|]; cbn; [|done]. by destruct (is_finite w). }
  case_bool_decide as Hrej.
  { eexists. split; [done|]. unfold is_rejected. cbn. rewrite bool_decide_true by done. split_and!; [done|done|].
    intros v Hv. by apply Hexp in Hv. }
  destruct (admitted_retention _ _ _ _) as [retention tier].
  pose proof (admitted_tags (ao_decision o) (ao_warning o) (pq_chunk_type request) (pq_text request) tags) as Ht.
  cbv zeta in Ht. destruct (if bool_decide (ao_decision o = Durable) then _ else _) as [auto tags3].
  destruct Ht as [Hb Hauto]. eexists. split; [done|]. cbn [pw_tags pw_priority]. split_and!.
  - intros _. destruct (ao_warning o) as [warning|] eqn:Ew; [left; by apply Hb; left|].
    destruct (explicit_high_priority tags) eqn:Eh; [right; by apply Ha|left; by apply Hb; right].
  - destruct auto as [n|]; [|done]. destruct Hauto as (_ & _ & Hp). by rewrite Hp.
  - intros v. destruct auto as [n|]; [|intros Hv; by apply Hexp in Hv]. intros [= <-].
    destruct Hauto as (H1 & H2 & _). split; [done|]. by exists n.
Qed.

(** *** Retention *)

(** A retention that grew out of the caller's by defaults. *)
Record grown (expires review : option Z) (r : PreparedRetention) : Prop := {
  gr_expires : if pt_defaulted_expires_at r then expires = None ∧ pt_expires_at_ms r ≠ None else pt_expires_at_ms r = expires;
  gr_review : if pt_defaulted_review_after r then review = None ∧ pt_review_after_ms r ≠ None else pt_review_after_ms r = review;
}.

Lemma grown_new expires review : grown expires review (retention_new expires review).
Proof. by split. Qed.

Lemma grown_review expires review v source r : grown expires review r → grown expires review (default_review v source r).
Proof.
  intros [He Hr]. unfold default_review. destruct (pt_review_after_ms r) eqn:E; [by split; [|rewrite E]|].
  split; cbn; [done|]. by destruct (pt_defaulted_review_after r); [destruct Hr|rewrite <-Hr].
Qed.

Lemma grown_both expires review v source r :
  grown expires review r → grown expires review (default_both v source r) ∧
  pt_expires_at_ms (default_both v source r) ≠ None ∧ pt_review_after_ms (default_both v source r) ≠ None.
Proof.
  intros [He Hr]. unfold default_both.
  destruct (pt_expires_at_ms r) eqn:E1, (pt_review_after_ms r) eqn:E2; (split; [split; cbn|by split]);
    try done; destruct (pt_defaulted_expires_at r), (pt_defaulted_review_after r); naive_solver.
Qed.

Lemma grown_strip expires review r : grown expires review r → strip_defaults r = retention_new expires review.
Proof.
  intros [He Hr]. unfold strip_defaults, retention_new.
  assert ((if pt_defaulted_expires_at r then None else pt_expires_at_ms r) = expires) as ->
    by (destruct (pt_defaulted_expires_at r); [by destruct He|done]).
  by assert ((if pt_defaulted_review_after r then None else pt_review_after_ms r) = review) as ->
    by (destruct (pt_defaulted_review_after r); [by destruct Hr|done]).
Qed.

Lemma grown_keeps expires review r :
  grown expires review r →
  (∀ e, expires = Some e → pt_expires_at_ms r = Some e) ∧ (∀ e, review = Some e → pt_review_after_ms r = Some e).
Proof.
  intros [He Hr]. split; intros e ->.
  - destruct (pt_defaulted_expires_at r); [by destruct He|done].
  - destruct (pt_defaulted_review_after r); [by destruct Hr|done].
Qed.

(** The times an ephemeral write gets where the caller named none. *)
Definition ephemeral_times (request : PrepareWriteRequest) (now_ms : Z) (r : PreparedRetention) : Prop :=
  pt_expires_at_ms r = Some (default (as_i64 (now_ms + WRITE_ADMISSION_EPHEMERAL_TTL_MS)) (pq_expires_at_ms request)) ∧
  pt_review_after_ms r = Some (default (as_i64 (now_ms + WRITE_ADMISSION_PROGRESS_TTL_MS)) (pq_review_after_ms request)).

Lemma admitted_retention_grown decision request tags now_ms :
  let '(r, tier) := admitted_retention decision request tags now_ms in
  grown (pq_expires_at_ms request) (pq_review_after_ms request) r ∧
  (tier = if bool_decide (decision = Ephemeral) then Some History else None) ∧
  (decision = Ephemeral → pq_ingestion_mode request = Conversation → ephemeral_times request now_ms r).
Proof.
  unfold admitted_retention. set (r0 := match pq_ingestion_mode request with Conversation => _ | Document => _ end).
  assert (H0 : grown (pq_expires_at_ms request) (pq_review_after_ms request) r0).
  { unfold r0. destruct (pq_ingestion_mode request); [apply grown_review|]; apply grown_new. }
  case_bool_decide.
  - destruct (grown_both _ _ (as_i64 (now_ms + WRITE_ADMISSION_EPHEMERAL_TTL_MS)) EphemeralDefault r0 H0) as (H1 & _ & _).
    split_and!; [done..|]. intros _ Hm. unfold r0, ephemeral_times. rewrite Hm.
    destruct (pq_expires_at_ms request) eqn:Ee, (pq_review_after_ms request) eqn:Er; unfold retention_new, default_review, default_both;
      by cbn.
  - destruct (should_apply_run_trace_retention _ _).
    + split_and!; [by apply grown_both|done|done].
    + destruct (should_apply_progress_summary_retention _ _); (split_and!; [|done|done]); [by apply grown_both|done].
Qed.

(** C39: the service never overwrites a retention the caller asked for, and
    what it adds can be taken back.  The prepared write expires and comes up
    for review when the caller said; dropping the defaults gives exactly the
    caller's request.  A write is ephemeral just when it is progress of a
    conversation, tagged so, that gives no priority and none of the reasons
    to keep it and is not refused for its size, its lack of words or as a
    generated digest; only such a write goes to the history tier, with the
    tags that mark it and two weeks to live where the caller said nothing.
    The delta handed to the store changes the tier and the two times of a
    chunk as prepared, and nothing else. *)
Theorem retention_exact (request : PrepareWriteRequest) (now_ms : Z) w :
  valid_utf8 (pq_text request) = true → prepare_write_at request now_ms = Some w →
  strip_defaults (pw_retention w) = retention_new (pq_expires_at_ms request) (pq_review_after_ms request) ∧
  (∀ e, pq_expires_at_ms request = Some e → pt_expires_at_ms (pw_retention w) = Some e) ∧
  (∀ e, pq_review_after_ms request = Some e → pt_review_after_ms (pw_retention w) = Some e) ∧
  pw_lifecycle_tier w = (if bool_decide (ao_decision (pw_outcome w) = Ephemeral) then Some History else None) ∧
  (ao_decision (pw_outcome w) = Ephemeral ↔
     chatter (pq_chunk_type request) (pq_text request) (normalize_tags (pq_tags request)) (pq_ingestion_mode request)) ∧
  (ao_decision (pw_outcome w) = Ephemeral →
     ephemeral_times request now_ms (pw_retention w) ∧
     ("admission:ephemeral" ∈ pw_tags w)%string ∧ ("retention:short_lived" ∈ pw_tags w)%string) ∧
  ∀ m, lifecycle_apply m (lifecycle_delta w) =
    mkLifecycle (default (lc_tier m) (pw_lifecycle_tier w)) (lc_supersedes m) (lc_superseded_by m)
      (match pt_expires_at_ms (pw_retention w) with Some e => Some e | None => lc_expires_at_ms m end)
      (match pt_review_after_ms (pw_retention w) with Some e => Some e | None => lc_review_after_ms m end)
      (lc_updated_at_ms m).
Proof.
  intros V. unfold prepare_write_at. set (tags := normalize_tags (pq_tags request)).
  destruct (classify_spec (pq_chunk_type request) _ tags (pq_ingestion_mode request) V) as (o & -> & [_ _ He]).
  assert (Hdelta : ∀ (w : PreparedWrite) m, lifecycle_apply m (lifecycle_delta w) =
    mkLifecycle (default (lc_tier m) (pw_lifecycle_tier w)) (lc_supersedes m) (lc_superseded_by m)
      (match pt_expires_at_ms (pw_retention w) with Some e => Some e | None => lc_expires_at_ms m end)
      (match pt_review_after_ms (pw_retention w) with Some e => Some e | None => lc_review_after_ms m end)
      (lc_updated_at_ms m)).
  { intros w0 m. unfold lifecycle_apply, lifecycle_delta. cbn.
    by destruct (pw_lifecycle_tier w0), (pt_expires_at_ms _), (pt_review_after_ms _). }
  cbn [mbind option_bind]. case_bool_decide as Hrej.
  { intros [= <-]. cbn [pw_retention pw_outcome pw_lifecycle_tier pw_tags]. rewrite bool_decide_false by congruence.
    pose proof (grown_new (pq_expires_at_ms request) (pq_review_after_ms request)) as Hg.
    split_and!; [by apply grown_strip|by apply (grown_keeps _ _ _ Hg)..|done|done|congruence|apply (Hdelta (mkPrepared _ _ _ _ _ _ _))]. }
  pose proof (admitted_retention_grown (ao_decision o) request tags now_ms) as Hr.
  destruct (admitted_retention _ _ _ _) as [retention tier]. destruct Hr as (Hg & Htier & Hev).
  destruct (if bool_decide (ao_decision o = Durable) then _ else _) as [auto tags3] eqn:Et.
  intros [= <-]. cbn [pw_retention pw_outcome pw_lifecycle_tier pw_tags].
  split_and!; [by apply grown_strip|by apply (grown_keeps _ _ _ Hg)..|done|done| |apply (Hdelta (mkPrepared _ _ _ _ _ _ _))].
  intros Heph. pose proof (proj1 He Heph) as Hch.
  rewrite (bool_decide_false (ao_decision o = Durable)) in Et by congruence. rewrite (bool_decide_true _ Heph) in Et.
  injection Et as _ <-. edestruct push_ephemeral_spec as (more & _ & _ & H5 & H6).
  split_and!; [by apply Hev, (ch_mode _ _ _ _ Hch)|done..].
Qed.

(* ------------------------------------------------------------------ *)
(** ** Examples *)

Definition lesson : string :=
  "The cache was stale. Agent action: verify the snapshot version before every deploy." +:+ String "010" "Done.".
Definition ax_request : PrepareWriteRequest :=
  mkRequest Summary lesson [" priority:9.5 "; "priority:9.5"; ""]%string Document None (Some 5).
(** The same without a verb: admitted at priority seven. *)
Definition ax_vague : PrepareWriteRequest :=
  mkRequest Summary "Agent action: caution with caches is advised." ["importance:1e1"; "kind:progress"]%string Document None None.
(** Progress chatter of a conversation. *)
Definition ax_chatter : PrepareWriteRequest :=
  mkRequest Summary "todo later" ["kind:progress"]%string Conversation (Some 9) None.

Example prepared_samples :
  map (λ q, (λ w, (ao_decision (pw_outcome w), pw_tags w, pt_expires_at_ms (pw_retention w), pt_review_after_ms (pw_retention w)))
         <$> prepare_write_at q 100) [ax_request; ax_vague; ax_chatter] =
  [Some (Durable, ["priority:9.5"], None, Some 5); Some (Durable, ["importance:7"; "kind:progress"], None, None);
   Some (Ephemeral, ["kind:progress"; "admission:ephemeral"; "retention:short_lived"], Some 9, Some 1209600100)]%string.
Proof. vm_compute. reflexivity. Qed.

Lemma priority_gate_witness :
  ∃ w, prepare_write_at ax_request 100 = Some w ∧
    (is_rejected w = false → below_8 (pw_tags w) ∨ has_concrete_agent_action (str_trim lesson) = Some true).
Proof.
  destruct (priority_gate ax_request 100) as (w & Hw & Hg & _); [vm_compute; reflexivity|]. by exists w.
Defined.

Lemma retention_exact_witness :
  ∃ w, prepare_write_at ax_chatter 100 = Some w ∧ strip_defaults (pw_retention w) = retention_new (Some 9) None.
Proof.
  destruct (prepare_write_at ax_chatter 100) as [w|] eqn:E; [|vm_compute in E; discriminate E].
  exists w. split; [done|]. apply (retention_exact ax_chatter 100 w); [vm_compute; reflexivity|exact E].
Defined.
