(* ===== verification/Bm25Props.v ===== *)
(** * What the sparse index promises

    The class [SparseIndexLaws] states the contract of the trait over a list
    of documents; [Bm25Index] satisfies it on any engine with the laws of
    [Tantivy]; histories of calls follow from the contract alone. *)

From S2P Require Import Prelude Crates Types Metadata Str Ranking Fusion Concrete Bm25.
From stdpp Require Import sorting.
From Stdlib Require Import Sorting.Sorted.

Open Scope Z_scope.

Lemma StronglySorted_snoc {A} (R : A → A → Prop) l a :
  StronglySorted R l → (∀ b, b ∈ l → R b a) → StronglySorted R (l ++ [a]).
Proof.
  induction 1 as [|b l Hs IH Hb]; intros Ha; cbn; constructor; [constructor|constructor| |].
  - apply IH. intros c Hc. apply Ha. by right.
  - apply Forall_app. split; [done|]. apply Forall_singleton, Ha. by left.
Qed.

(* ------------------------------------------------------------------ *)
(** ** The contract *)

Section contract.
Context `{U : Uuid ChunkId} {Q : Type} (matches : Q → SparseDoc → bool) (parse : string → memd_result Q).
Implicit Types (D : list SparseDoc) (score : SparseDoc → f32).

Definition f32_below (x y : f32) : Prop := f32_le x y = true.

(** The result [r] shows the document [d]. *)
Definition shows_doc score (d : SparseDoc) (r : SparseSearchResult) : Prop :=
  sd_chunk_id d = uuid_to_string (sp_chunk_id r) ∧ sd_sentence_idx d = sp_sentence_idx r ∧ sp_score r = score d.

Definition found_chunk (rs : list SparseSearchResult) (d : SparseDoc) : Prop :=
  ∃ r, r ∈ rs ∧ sd_chunk_id d = uuid_to_string (sp_chunk_id r).

(** A search of the matching documents [H] for [k] chunks: at most [k]
    different chunks, best first, each at its best sentence; a chunk that is
    left out scores no better than any that is returned; and none is left out
    unless [k] are returned or the matching sentences exceed the window. *)
Record best_chunks (k : Z) (H : list SparseDoc) score (rs : list SparseSearchResult) : Prop := {
  bc_bound : zlen rs ≤ k;
  bc_distinct : NoDup (map sp_chunk_id rs);
  bc_sorted : StronglySorted (λ a b, f32_below (sp_score b) (sp_score a)) rs;
  bc_best r : r ∈ rs → ∃ d, d ∈ H ∧ shows_doc score d r ∧
    ∀ e, e ∈ H → sd_chunk_id e = sd_chunk_id d → f32_below (score e) (score d);
  bc_top r e : r ∈ rs → e ∈ H → ¬ found_chunk rs e → f32_below (score e) (sp_score r);
  bc_complete e : zlen rs < k → zlen H ≤ fetch_limit k → e ∈ H → found_chunk rs e;
}.

Inductive SparseCall : Type :=
| IndexItems (items : list SparseItem)
| DeleteDocs (t : TenantId) (c : ChunkId)
| CountDocs (t : TenantId)
| SearchDocs (t : TenantId) (query : string) (k : Z).

Inductive SparseAnswer : Type :=
| Indexed (r : memd_result ())
| DocsDeleted (r : memd_result bool)
| DocsCounted (r : memd_result Z)
| DocsFound (r : memd_result (list SparseSearchResult)).

Definition docs_after (call : SparseCall) D : list SparseDoc :=
  match call with
  | IndexItems items => concat (map item_docs items) ++ D
  | DeleteDocs t c => filter (λ d, ¬ doc_of (TenantId.as_str t) (uuid_to_string c) d) D
  | CountDocs _ | SearchDocs _ _ _ => D
  end.

(** The answer of a search under the scores the index gives the documents for
    a query. *)
Definition search_answer (score : Q → SparseDoc → f32) (t : TenantId) (query : string) (k : Z) D
    (r : memd_result (list SparseSearchResult)) : Prop :=
  if k =? 0 then r = Ok []
  else match parse query with
       | Err e => r = Err e
       | Ok q => ∃ rs, r = Ok rs ∧ best_chunks k (hits (matches q) (TenantId.as_str t) D) (score q) rs
       end.

Definition docs_answer (score : Q → SparseDoc → f32) (call : SparseCall) D (a : SparseAnswer) : Prop :=
  match call with
  | IndexItems _ => a = Indexed (Ok ())
  | DeleteDocs t c =>
      a = DocsDeleted (Ok (bool_decide (Exists (doc_of (TenantId.as_str t) (uuid_to_string c)) D)))
  | CountDocs t => a = DocsCounted (Ok (zlen (filter (of_tenant (TenantId.as_str t)) D)))
  | SearchDocs t query k => ∃ r, a = DocsFound r ∧ search_answer score t query k D r
  end.

(** ** Histories *)

Context {X : Type} `{SX : SparseIndex X}.

Definition sparse_call (call : SparseCall) (x : X) : SparseAnswer * X :=
  match call with
  | IndexItems items => let '(r, x) := sparse_insert_batch items x in (Indexed r, x)
  | DeleteDocs t c => let '(r, x) := sparse_delete t c x in (DocsDeleted r, x)
  | CountDocs t => let '(r, x) := sparse_doc_count t x in (DocsCounted r, x)
  | SearchDocs t query k => let '(r, x) := sparse_search t query k x in (DocsFound r, x)
  end.

Fixpoint sparse_run (calls : list SparseCall) (x : X) : list SparseAnswer * X :=
  match calls with
  | [] => ([], x)
  | call :: calls =>
      let '(a, x) := sparse_call call x in let '(l, x) := sparse_run calls x in (a :: l, x)
  end.

(** Each answer is that of the documents before the call.  A search commits
    and reloads, so the scores are those of the index it leaves. *)
Fixpoint docs_answers (score : Q → SparseDoc → X → f32) D (calls : list SparseCall) (x : X)
    (answers : list SparseAnswer) : Prop :=
  match calls, answers with
  | [], [] => True
  | call :: calls, a :: answers =>
      let x' := (sparse_call call x).2 in
      docs_answer (λ q d, score q d x') call D a ∧ docs_answers score (docs_after call D) calls x' answers
  | _, _ => False
  end.

(** [k] is a [usize]. *)
Definition call_fits (call : SparseCall) : Prop :=
  match call with SearchDocs _ _ k => 0 ≤ k | _ => True end.

(** What an implementation of the trait promises. *)
Class SparseIndexLaws : Type := {
  sx_rep : X → list SparseDoc → Prop;
  sx_score : Q → SparseDoc → X → f32;
  sx_step x D call : sx_rep x D → call_fits call →
    docs_answer (λ q d, sx_score q d (sparse_call call x).2) call D (sparse_call call x).1 ∧ sx_rep (sparse_call call x).2 (docs_after call D);
}.

Lemma sparse_run_spec `{SL : SparseIndexLaws} calls : ∀ x D, sx_rep x D →
  Forall call_fits calls → docs_answers sx_score D calls x (sparse_run calls x).1 ∧
  sx_rep (sparse_run calls x).2 (foldl (λ D call, docs_after call D) D calls).
Proof.
  induction calls as [|call calls IH]; intros x D R Hf; [done|]. cbn [sparse_run docs_answers foldl].
  apply Forall_cons in Hf as [Hc Hf]. destruct (sx_step x D call R Hc) as [Ha R1]. destruct (sparse_call call x) as [a x1]. cbn [fst snd] in *.
  destruct (IH x1 _ R1 Hf) as [Hl R2]. by destruct (sparse_run calls x1) as [l x2].
Qed.
End contract.

(* ------------------------------------------------------------------ *)
(** ** The loop over the hits *)

Section collapse.
Context {T Q : Type} `{TV : Tantivy T Q} `{U : Uuid ChunkId} {UL : UuidLaws ChunkId}.
Variables (e : T) (score : SparseDoc → f32) (k : Z).

(** Documents whose chunk field is the text of an id. *)
Definition chunk_doc (d : SparseDoc) : Prop := ∃ c : ChunkId, sd_chunk_id d = uuid_to_string c.

(** [docs] are still to be looked at when [rs] has been collected. *)
Record collected (rs : list SparseSearchResult) (docs : list SparseDoc) : Prop := {
  co_bound : zlen rs ≤ k;
  co_distinct : NoDup (map sp_chunk_id rs);
  co_sorted : StronglySorted (λ a b, f32_below (sp_score b) (sp_score a)) rs;
  co_above r d : r ∈ rs → d ∈ docs → f32_below (score d) (sp_score r);
}.

Lemma found_ids (rs : list SparseSearchResult) d c :
  sd_chunk_id d = uuid_to_string (c : ChunkId) → found_chunk rs d ↔ c ∈ map sp_chunk_id rs.
Proof using UL.
  intros Ed. unfold found_chunk. rewrite list_elem_of_fmap. split.
  - intros (r & Hr & E). exists r. split; [|done]. rewrite Ed in E. by apply uuid_to_string_inj in E.
  - intros (r & -> & Hr). eauto.
Qed.

(** Taking the next document's chunk. *)
Lemma collected_snoc rs d docs r :
  collected rs (d :: docs) → zlen rs < k → sp_score r = score d → sp_chunk_id r ∉ map sp_chunk_id rs →
  (∀ d', d' ∈ docs → f32_below (score d') (score d)) → collected (rs ++ [r]) docs.
Proof.
  intros [Hb Hn Hso Hab] Hk Hr Hni Hle. constructor.
  - unfold zlen in *. rewrite length_app. cbn. lia.
  - rewrite map_app. apply NoDup_app. split_and!; [done| |apply NoDup_singleton].
    by intros c' Hc' ->%list_elem_of_singleton.
  - apply StronglySorted_snoc; [done|]. intros r' Hr'. rewrite Hr. apply (Hab r'); [done|by left].
  - intros r' d' [Hr'| ->%list_elem_of_singleton]%elem_of_app Hd'; [apply Hab; [done|by right]|].
    rewrite Hr. by apply Hle.
Qed.

Lemma collapse_spec docs : ∀ found seen rs,
  Forall2 (λ h d, h.1 = score d ∧ tv_doc h.2 e = Ok (stored_of d)) found docs → Forall chunk_doc docs →
  StronglySorted (λ d d', f32_below (score d') (score d)) docs →
  (∀ c, c ∈ seen ↔ c ∈ map sp_chunk_id rs) → collected rs docs → zlen rs < k →
  ∃ rs', collapse_hits k found seen rs e = Ok (rs ++ rs') ∧ collected (rs ++ rs') [] ∧
    (∀ r, r ∈ rs' → ∃ d, d ∈ docs ∧ shows_doc score d r) ∧
    (∀ d, d ∈ docs → found_chunk (rs ++ rs') d ∨
       (zlen (rs ++ rs') = k ∧ ∀ r, r ∈ rs ++ rs' → f32_below (score d) (sp_score r))) ∧
    (∀ d r, d ∈ docs → r ∈ rs' → sd_chunk_id d = uuid_to_string (sp_chunk_id r) →
       f32_below (score d) (sp_score r) ∨ d.(sd_chunk_id) = uuid_to_string (sp_chunk_id r) ∧ score d = sp_score r).
Proof using UL.
  induction docs as [|d docs IH]; intros found seen rs Hf Hd Hs Hseen [Hb Hn Hso Hab] Hk.
  { inversion Hf; subst. exists []. rewrite app_nil_r. cbn. split_and!; [done| |set_solver..].
    by constructor; try set_solver. }
  inversion Hf as [|[sc addr] ? found' ? [Esc Edoc] Hf']; subst. cbn in Esc, Edoc. subst sc.
  apply Forall_cons in Hd as [[c Ec] Hd]. apply StronglySorted_inv in Hs as [Hs Hle].
  rewrite Forall_forall in Hle. cbn [collapse_hits]. rewrite Edoc. cbn [map_err mbind result_bind].
  unfold stored_of. cbn [st_chunk_id ok_or mbind result_bind st_sentence_idx default]. unfold id.
  rewrite Ec. unfold chunk_id_parse. rewrite uuid_roundtrip. cbn [ok_or mbind result_bind].
  case_bool_decide as Hin.
  - destruct (IH found' seen rs) as (rs' & E & Hc & H1 & H2 & H3); [done..| |done|].
    { constructor; [done..|]. intros r d' Hr Hd'. apply Hab; [done|by right]. }
    exists rs'. split_and!; [done|done| | |].
    + intros r Hr. destruct (H1 r Hr) as (d' & Hd' & ?). exists d'. split; [by right|done].
    + intros d' [->|Hd']%elem_of_cons; [|by apply H2]. left. apply (found_ids _ _ _ Ec).
      rewrite map_app. apply elem_of_app. left. by apply Hseen.
    + intros d' r [->|Hd']%elem_of_cons Hr Er; [|by apply H3]. exfalso.
      destruct Hc as [_ Hnd _ _]. rewrite map_app in Hnd. apply NoDup_app in Hnd as (_ & Hdis & _).
      apply (Hdis c); [by apply Hseen|]. apply list_elem_of_fmap. exists r. split; [|done].
      rewrite Ec in Er. by apply uuid_to_string_inj in Er.
  - set (r := mkSparse c (score d) (sd_sentence_idx d)).
    assert (Hc1 : collected (rs ++ [r]) docs).
    { apply (collected_snoc rs d docs r); [by constructor|done|done| |done]. cbn. by rewrite <- Hseen. }
    assert (Hshow : shows_doc score d r) by (by split_and!).
    destruct (Z.leb_spec k (zlen (rs ++ [r]))) as [Hstop|Hgo].
    + exists [r]. destruct Hc1 as [B1 B2 B3 B4]. split_and!; [done|by constructor; try set_solver| | |].
      * intros r' ->%list_elem_of_singleton. exists d. split; [by left|done].
      * intros d' [->|Hd']%elem_of_cons.
        -- left. exists r. split; [apply elem_of_app; right; by left|done].
        -- right. split; [lia|]. intros r' Hr'. by apply B4.
      * intros d' r' [->|Hd']%elem_of_cons ->%list_elem_of_singleton E; [right; by split|left; by apply Hle].
    + destruct (IH found' ({[c]} ∪ seen) (rs ++ [r])) as (rs' & E & Hc & H1 & H2 & H3); [done..| |done|done|].
      { intros c'. rewrite map_app, elem_of_union, elem_of_app, Hseen, elem_of_singleton. cbn.
        rewrite list_elem_of_singleton. tauto. }
      rewrite <- app_assoc in E, Hc, H2. cbn [app] in E, Hc, H2. exists (r :: rs'). split_and!; [done|done| | |].
      * intros r' [->|Hr']%elem_of_cons; [exists d; split; [by left|done]|].
        destruct (H1 r' Hr') as (d' & Hd' & ?). exists d'. split; [by right|done].
      * intros d' [->|Hd']%elem_of_cons; [|by apply H2]. left. exists r. split; [|done].
        apply elem_of_app. right. by left.
      * intros d' r' [->|Hd']%elem_of_cons [->|Hr']%elem_of_cons Er.
        -- right. by split.
        -- exfalso. destruct Hc as [_ Hnd _ _]. rewrite map_app in Hnd. cbn in Hnd.
           apply NoDup_app in Hnd as (_ & _ & [Hni _]%NoDup_cons). apply Hni, list_elem_of_fmap.
           exists r'. split; [|done]. rewrite Ec in Er. by apply uuid_to_string_inj in Er.
        -- left. by apply Hle.
        -- by apply H3.
Qed.
End collapse.

(* ------------------------------------------------------------------ *)
(** ** [Bm25Index] keeps the contract *)

Section bm25_facts.
Context {T Q : Type} `{TVL : TantivyLaws T Q} `{U : Uuid ChunkId} {UL : UuidLaws ChunkId} `{AN : AlphaNumeric}.
Implicit Types (x : Bm25Index T) (D : list SparseDoc).

Record bm25_rep x D : Prop := {
  br_healthy : tv_healthy (bm_index x);
  br_writer : bm_writer x = true;
  br_staged : tv_staged (bm_index x) ≡ₚ D;
  br_clean : bm_dirty x = false → tv_committed (bm_index x) ≡ₚ D;
  br_chunks : Forall chunk_doc D;
}.

Lemma commit_clean x D :
  bm25_rep x D → ∃ x', commit_if_dirty x = (Ok (), x') ∧ bm25_rep x' D ∧ tv_committed (bm_index x') ≡ₚ D.
Proof using TVL.
  intros [Hh Hw Hs Hc Hd]. unfold commit_if_dirty. rewrite Hw.
  unfold mbind, bm_bind, bm_set_dirty, bm_call. destruct (bm_dirty x) eqn:Edirty.
  - destruct (tv_commit_law (bm_index x) Hh) as (e & E & Hh' & Es & Ec). cbn [bm_index].
    rewrite E. cbn. eexists. split; [done|]. split; [|cbn; by rewrite Ec].
    constructor; cbn; [done|done|by rewrite Es|by rewrite Ec|done].
  - eexists. split; [done|]. split; [|cbn; by apply Hc]. constructor; cbn; try done; by intros _; apply Hc.
Qed.

Lemma reload_fresh x D :
  bm25_rep x D → tv_committed (bm_index x) ≡ₚ D →
  ∃ x', bm_reload x = (Ok (), x') ∧ bm25_rep x' D ∧ tv_visible (bm_index x') ≡ₚ D ∧
    ∀ ids, tv_searchable_segment_ids (bm_index x) = Ok ids → tv_segment_readers (bm_index x') = zlen ids.
Proof using TVL.
  intros [Hh Hw Hs Hc Hd] HD. unfold bm_reload, bm_call.
  destruct (tv_reload_law (bm_index x) Hh) as (e & -> & Hh' & Es & Ec & Ev & _ & Hn). cbn.
  eexists. split; [done|]. cbn. split_and!; [|by rewrite Ev|done].
  constructor; cbn; [done|done|by rewrite Es|by rewrite Ec|done].
Qed.

Lemma add_documents_spec docs : ∀ x D,
  bm25_rep x D → Forall chunk_doc docs →
  ∃ x', add_documents docs x = (Ok (), x') ∧ tv_healthy (bm_index x') ∧ bm_writer x' = true ∧
    tv_staged (bm_index x') ≡ₚ docs ++ D.
Proof using TVL.
  assert (Hgen : ∀ docs x D, tv_healthy (bm_index x) → bm_writer x = true → tv_staged (bm_index x) ≡ₚ D →
    ∃ x', add_documents docs x = (Ok (), x') ∧ tv_healthy (bm_index x') ∧ bm_writer x' = true ∧
      tv_staged (bm_index x') ≡ₚ docs ++ D).
  { clear docs. induction docs as [|d docs IH]; intros x D Hh Hw Hs; [by exists x|]. cbn [add_documents].
    unfold mbind, bm_bind, bm_call.
    destruct (tv_add_law d (bm_index x) Hh) as (e & -> & Hh' & Es & _). cbn [map_err].
    destruct (IH (mkBm25 e (bm_writer x) (bm_dirty x)) (d :: D)) as (x' & -> & ? & ? & Hst); [done|done| |].
    { cbn. by rewrite Es, Hs. }
    exists x'. split_and!; [done..|]. rewrite Hst. cbn. symmetry. apply Permutation_middle. }
  intros x D [Hh Hw Hs _ _] _. by apply Hgen.
Qed.

Lemma item_docs_chunk item : Forall chunk_doc (item_docs item).
Proof.
  destruct item as [[t c] ss]. apply Forall_forall. intros d. unfold item_docs.
  rewrite elem_of_lookup_imap. intros (i & s & -> & _). by exists c.
Qed.

Lemma insert_batch_step items x D :
  bm25_rep x D → ∃ x', bm_insert_batch items x = (Ok (), x') ∧ bm25_rep x' (concat (map item_docs items) ++ D).
Proof using TVL.
  intros R. unfold bm_insert_batch. case_bool_decide as E; [subst; by exists x|].
  assert (Hch : Forall chunk_doc (concat (map item_docs items))).
  { apply Forall_concat, Forall_map, Forall_forall. intros item _. apply item_docs_chunk. }
  unfold mbind, bm_bind, bm_require_writer. rewrite (br_writer _ _ R).
  destruct (add_documents_spec _ x D R Hch) as (x' & -> & Hh & Hw & Hs).
  unfold bm_set_dirty. eexists. split; [done|]. constructor; cbn; [done..|]. apply Forall_app. split; [done|].
  apply R.
Qed.

Lemma filter_exists_doc t c D :
  (0 <? zlen (filter (doc_of t c) D)) = bool_decide (Exists (doc_of t c) D).
Proof.
  destruct (decide (Exists (doc_of t c) D)) as [Hex|Hno].
  - rewrite bool_decide_true by done. apply Exists_exists in Hex as (d & Hd & Hp).
    assert (Hin : d ∈ filter (doc_of t c) D) by (by apply list_elem_of_filter).
    apply Z.ltb_lt. unfold zlen. destruct (filter _ D); [by apply not_elem_of_nil in Hin|cbn; lia].
  - rewrite bool_decide_false by done. destruct (filter (doc_of t c) D) as [|d l] eqn:E; [done|].
    exfalso. assert (Hin : d ∈ filter (doc_of t c) D) by (rewrite E; by left).
    apply list_elem_of_filter in Hin as [Hp Hd]. apply Hno, Exists_exists. eauto.
Qed.

Lemma zlen_perm {A} (l k : list A) : l ≡ₚ k → zlen l = zlen k.
Proof. intros E. unfold zlen. by rewrite E. Qed.

Lemma delete_step t c x D :
  bm25_rep x D → ∃ x', bm_delete t c x =
    (Ok (bool_decide (Exists (doc_of (TenantId.as_str t) (uuid_to_string c)) D)), x') ∧
    bm25_rep x' (filter (λ d, ¬ doc_of (TenantId.as_str t) (uuid_to_string c) d) D).
Proof using TVL.
  intros R. unfold bm_delete, mbind, bm_bind.
  destruct (commit_clean x D R) as (x1 & -> & R1 & Hc). unfold bm_require_writer. rewrite (br_writer _ _ R1).
  destruct (reload_fresh x1 D R1 Hc) as (x2 & -> & R2 & Hv & _). unfold bm_get, bm_gets.
  rewrite tv_count_doc_law by apply R2. cbn [or_zero]. unfold bm_call.
  destruct (tv_delete_law (TenantId.as_str t) (uuid_to_string c) (bm_index x2) (br_healthy _ _ R2))
    as (e & -> & Hh & Hs & _). cbn. eexists. split.
  - unfold mret, bm_ret. do 2 f_equal. rewrite <- filter_exists_doc. f_equal. apply zlen_perm. by rewrite Hv.
  - constructor; cbn; [done|apply R2| |done|].
    + rewrite Hs. by rewrite (br_staged _ _ R2).
    + apply Forall_forall. intros d [_ Hd]%list_elem_of_filter.
      by apply (proj1 (Forall_forall _ _) (br_chunks _ _ R)).
Qed.

Lemma count_step t x D :
  bm25_rep x D → ∃ x', doc_count t x = (Ok (zlen (filter (of_tenant (TenantId.as_str t)) D)), x') ∧ bm25_rep x' D.
Proof using TVL.
  intros R. unfold doc_count, mbind, bm_bind.
  destruct (commit_clean x D R) as (x1 & -> & R1 & Hc).
  destruct (reload_fresh x1 D R1 Hc) as (x2 & -> & R2 & Hv & _). unfold bm_read.
  rewrite tv_count_law by apply R2. cbn. eexists. split; [|exact R2]. do 2 f_equal. apply zlen_perm. by rewrite Hv.
Qed.

Lemma search_best t q k x D found docs rest rs :
  let score d := tv_score q d (bm_index x) in
  hits (tv_matches q) t D ≡ₚ docs ++ rest → zlen docs ≤ fetch_limit k → (zlen docs < fetch_limit k → rest = []) →
  (∀ d e, d ∈ docs → e ∈ rest → f32_below (score e) (score d)) →
  (∀ d, d ∈ docs → f32_below (score d) (score d)) →
  Forall2 (λ h d, h.1 = score d ∧ tv_doc h.2 (bm_index x) = Ok (stored_of d)) found docs →
  StronglySorted (λ d e, f32_below (score e) (score d)) docs → Forall chunk_doc D → 0 < k →
  collapse_hits k found ∅ [] (bm_index x) = Ok rs → best_chunks k (hits (tv_matches q) t D) score rs.
Proof using TVL UL.
  intros score HH Hlim Hall Hrest Hrefl Hf Hs HD Hk E.
  assert (Hch : Forall chunk_doc docs).
  { apply Forall_forall. intros d Hd. apply (proj1 (Forall_forall _ _) HD).
    assert (Hin : d ∈ hits (tv_matches q) t D) by (rewrite HH; apply elem_of_app; by left).
    by apply list_elem_of_filter in Hin as [_ ?]. }
  destruct (collapse_spec (bm_index x) score k docs found ∅ []) as (rs' & E' & [C1 C2 C3 _] & H1 & H2 & H3);
    [done..|set_solver| |done|].
  { constructor; [unfold zlen; cbn; lia|constructor|constructor|set_solver]. }
  rewrite E in E'. injection E' as ->. cbn [app] in *. constructor; [done|done|done| | |].
  - intros r Hr. destruct (H1 r Hr) as (d & Hd & Hshow). exists d. split_and!; [rewrite HH; set_solver|done|].
    destruct Hshow as (Ec & _ & Es). intros e [He|He]%(elem_of_Permutation_proper e _ _ HH)%elem_of_app Ee.
    + rewrite <- Es. destruct (H3 e r He Hr) as [?|[_ ->]]; [congruence|done|]. rewrite Es. by apply Hrefl.
    + by apply Hrest.
  - intros r e Hr [He|He]%(elem_of_Permutation_proper e _ _ HH)%elem_of_app Hno.
    + destruct (H2 e He) as [?|[_ Hle]]; [done|by apply Hle].
    + destruct (H1 r Hr) as (d & Hd & _ & _ & ->). by apply Hrest.
  - intros e Hlt Hsmall [He|He]%(elem_of_Permutation_proper e _ _ HH)%elem_of_app.
    + destruct (H2 e He) as [?|[? _]]; [done|lia].
    + exfalso. pose proof (zlen_perm _ _ HH) as El. rewrite zlen_app in El.
      destruct rest as [|a rest]; [by apply not_elem_of_nil in He|]. rewrite zlen_cons in El.
      pose proof (zlen_nonneg rest). enough (a :: rest = []) by done. apply Hall. lia.
Qed.

Lemma fetch_limit_pos k : 0 < k → 0 < fetch_limit k.
Proof. unfold fetch_limit. lia. Qed.

Lemma search_step t query k x D :
  bm25_rep x D → 0 ≤ k →
  ∃ r x', bm_search t query k x = (r, x') ∧
    search_answer tv_matches parse_text_query (λ q d, tv_score q d (bm_index x')) t query k D r ∧ bm25_rep x' D.
Proof using TVL UL.
  intros R Hk. unfold bm_search, search_answer. destruct (Z.eqb_spec k 0) as [->|Hk0]; [by eexists _, _|].
  unfold mbind, bm_bind. destruct (commit_clean x D R) as (x1 & -> & R1 & Hc).
  destruct (reload_fresh x1 D R1 Hc) as (x2 & -> & R2 & Hv & _). unfold bm_lift.
  destruct (parse_text_query query) as [q|err]; [|by eexists _, _]. unfold bm_read, bm_gets.
  destruct (tv_search_law (TenantId.as_str t) q (fetch_limit k) (bm_index x2) (br_healthy _ _ R2))
    as (found & docs & rest & -> & HH & Hf & Hlen & Hall & Hs & Hrest & Hrefl); [apply fetch_limit_pos; lia|].
  cbn [map_err].
  assert (HH' : hits (tv_matches q) (TenantId.as_str t) D ≡ₚ docs ++ rest).
  { rewrite HH. unfold hits. by rewrite Hv. }
  destruct (collapse_hits k found ∅ [] (bm_index x2)) as [rs|err] eqn:E.
  - eexists _, x2. split; [done|]. split; [|done]. exists rs. split; [done|].
    eapply search_best; try done; [by apply R|lia].
  - exfalso. destruct (collapse_spec (bm_index x2) (λ d, tv_score q d (bm_index x2)) k docs found ∅ [])
      as (rs' & E' & _); [done| |done|set_solver| |unfold zlen; cbn; lia|congruence].
    + apply Forall_forall. intros d Hd. apply (proj1 (Forall_forall _ _) (br_chunks _ _ R)).
      assert (Hin : d ∈ hits (tv_matches q) (TenantId.as_str t) D) by (rewrite HH'; apply elem_of_app; by left).
      by apply list_elem_of_filter in Hin as [_ ?].
    + constructor; [unfold zlen; cbn; lia|constructor|constructor|set_solver].
Qed.

#[export] Instance bm25_laws :
  SparseIndexLaws tv_matches parse_text_query (X := Bm25Index T).
Proof.
  refine {| sx_rep := bm25_rep; sx_score q d x := tv_score q d (bm_index x) |}. intros x D call R Hf. destruct call as [items|t c|t|t query k]; cbn [sparse_call docs_answer docs_after].
  - destruct (insert_batch_step items x D R) as (x' & E & R'). cbn. by rewrite E.
  - destruct (delete_step t c x D R) as (x' & E & R'). cbn. by rewrite E.
  - destruct (count_step t x D R) as (x' & E & R'). cbn. by rewrite E.
  - destruct (search_step t query k x D R Hf) as (r & x' & E & Ha & R'). cbn. rewrite E. cbn. eauto.
Defined.

(** C35: the sparse index finds what was indexed.  On a writable index whose
    engine works, any sequence of calls answers as a list of documents, one
    per sentence, does: inserting and deleting succeed, deleting tells whether
    the chunk was there, counting counts the tenant's sentences, and a search
    that parses returns at most [k] different chunks of the tenant, best
    first, each at the best of its matching sentences with the score the
    engine gives that sentence in the index the search has committed and
    reloaded; none that is left out scores better, and none is left out while
    fewer than [k] are returned, unless the matching sentences exceed the
    window of the over-fetch. *)
Theorem bm25_index_exact x D calls :
  bm25_rep x D → Forall call_fits calls →
  docs_answers tv_matches parse_text_query (λ q d x, tv_score q d (bm_index x)) D calls x (sparse_run calls x).1 ∧
  bm25_rep (sparse_run calls x).2 (foldl (λ D call, docs_after call D) D calls).
Proof using TVL UL. intros R Hf. by apply (sparse_run_spec tv_matches parse_text_query (SL := bm25_laws)). Qed.

(** Once committed, an index is not dirty, whether or not the engine
    succeeded: the flag is cleared before the commit. *)
Lemma commit_not_dirty x r x' :
  commit_if_dirty x = (r, x') → bm_writer x = true → bm_dirty x' = false ∧ bm_writer x' = true.
Proof.
  unfold commit_if_dirty, mbind, bm_bind, bm_set_dirty, bm_call. intros E Hw. rewrite Hw in E.
  destruct (bm_dirty x); [|by injection E as _ <-]. cbn [bm_index] in E.
  destruct (tv_commit (bm_index x)) as [r' e]. cbn in E. by injection E as _ <-.
Qed.

Lemma commit_idle x : bm_writer x = true → bm_dirty x = false → commit_if_dirty x = (Ok (), x).
Proof. intros Hw Hd. unfold commit_if_dirty, bm_set_dirty. rewrite Hw, Hd. by destruct x; cbn in *; subst. Qed.

(** So a commit that failed is not tried again: the next one reports success
    without calling the engine, and what was staged stays invisible until
    another write. *)
Lemma failed_commit_not_retried x msg e :
  bm_writer x = true → bm_dirty x = true → tv_commit (bm_index x) = (Err msg, e) →
  ∃ x', commit_if_dirty x = (Err (StorageError ("commit: " +:+ msg)), x') ∧ bm_index x' = e ∧
    commit_if_dirty x' = (Ok (), x').
Proof.
  intros Hw Hd E. destruct (commit_if_dirty x) as [r x'] eqn:Ec. exists x'.
  destruct (commit_not_dirty _ _ _ Ec Hw) as [Hd' Hw']. unfold commit_if_dirty, mbind, bm_bind, bm_set_dirty, bm_call in Ec.
  rewrite Hw, Hd in Ec. cbn [bm_index] in Ec. rewrite E in Ec. cbn in Ec. injection Ec as <- <-.
  split_and!; [done|done|]. by rewrite commit_idle.
Qed.

(** Merging changes no document and leaves at most one segment. *)
Lemma merge_step x D :
  bm25_rep x D → ∃ x', merge_all_segments x = (Ok (), x') ∧ bm25_rep x' D ∧
    ∃ n x'', segment_count x' = (Ok n, x'') ∧ n ≤ 1 ∧ bm25_rep x'' D.
Proof using TVL.
  intros R. unfold merge_all_segments. unfold mbind at 1, bm_bind at 1.
  destruct (commit_clean x D R) as (x1 & Ec & R1 & Hc). rewrite Ec.
  destruct (commit_not_dirty _ _ _ Ec (br_writer _ _ R)) as [Hd Hw].
  assert (Hcount : ∀ x2 ids, bm25_rep x2 D → bm_dirty x2 = false →
    tv_searchable_segment_ids (bm_index x2) = Ok ids → (length ids ≤ 1)%nat →
    ∃ n x'', segment_count x2 = (Ok n, x'') ∧ n ≤ 1 ∧ bm25_rep x'' D).
  { intros x2 ids R2 Hd2 Eids Hle. unfold segment_count, mbind, bm_bind.
    rewrite commit_idle by (done || apply R2).
    destruct (reload_fresh x2 D R2 (br_clean _ _ R2 Hd2)) as (x3 & -> & R3 & _ & Hn).
    unfold bm_get, bm_gets. eexists _, x3. split; [done|]. rewrite (Hn ids Eids). split; [unfold zlen; lia|done]. }
  destruct (tv_merge_law (bm_index x1) (br_healthy _ _ R1)) as (ids & Eids & e & Em & Hh & Hs & Hcm & ids' & Eids' & Hle).
  unfold bm_read, mbind, bm_bind. rewrite Eids. cbn [map_err]. case_bool_decide as Hlen.
  { exists x1. split_and!; [done|done|]. by eapply Hcount. }
  unfold bm_require_writer, bm_call. rewrite Hw, Em. cbn [map_err bm_index bm_writer bm_dirty].
  set (x2 := mkBm25 e (bm_writer x1) (bm_dirty x1)).
  assert (R2 : bm25_rep x2 D).
  { constructor; cbn; [done|done|by rewrite Hs; apply R1|by rewrite Hcm|apply R1]. }
  destruct (tv_reload_law e Hh) as (e' & -> & Hh' & Es & Ecm & _ & Eseg & _). cbn [map_err].
  set (x3 := mkBm25 e' _ _).
  assert (R3 : bm25_rep x3 D).
  { constructor; cbn; [done|done|rewrite Es; apply R2|rewrite Ecm; by apply R2|apply R1]. }
  exists x3. split_and!; [done|done|]. eapply Hcount; [done|done|cbn; by rewrite Eseg|done].
Qed.

End bm25_facts.

(* ------------------------------------------------------------------ *)
(** ** An engine that satisfies the laws, and runs *)

Record ListEngine : Type := mkEngine {
  le_staged : list SparseDoc;
  le_committed : list SparseDoc;
  le_visible : list SparseDoc;
  le_segments : list Z;
}.

(** A query is a substring, and a match scores its length in bytes. *)
Definition engine_score (d : SparseDoc) : f32 := f32_of_Z (Z.of_nat (slen (sd_text d))).
Definition engine_cmp : Z * SparseDoc → Z * SparseDoc → comparison :=
  score_desc (λ p, engine_score p.2) (λ _ _, Eq).
Definition engine_hits (t q : string) (docs : list SparseDoc) : list (Z * SparseDoc) :=
  filter (λ p, of_tenant t p.2 ∧ string_contains q (sd_text p.2) = true)
    (imap (λ i d, (Z.of_nat i, d)) docs).

#[export] Instance list_engine : Tantivy ListEngine string := {
  tv_add_document d x := (Ok (), mkEngine (d :: le_staged x) (le_committed x) (le_visible x) (le_segments x));
  tv_delete_query t c x :=
    (Ok (), mkEngine (filter (λ d, ¬ doc_of t c d) (le_staged x)) (le_committed x) (le_visible x) (le_segments x));
  tv_commit x := (Ok (), mkEngine (le_staged x) (le_staged x) (le_visible x) (0 :: le_segments x));
  tv_merge _ x := (Ok (), mkEngine (le_staged x) (le_committed x) (le_visible x) [0]);
  tv_searchable_segment_ids x := Ok (le_segments x);
  tv_reload x := (Ok (), mkEngine (le_staged x) (le_committed x) (le_committed x) (le_segments x));
  tv_num_docs x := zlen (le_visible x);
  tv_segment_readers x := zlen (le_segments x);
  tv_search t q limit x := Ok (map (λ p, (engine_score p.2, p.1))
    (take (Z.to_nat limit) (sort_by engine_cmp (engine_hits t q (le_visible x)))));
  tv_count t c x := Ok (match c with
    | None => zlen (filter (of_tenant t) (le_visible x))
    | Some c => zlen (filter (doc_of t c) (le_visible x))
    end);
  tv_doc a x := from_option (λ d, Ok (stored_of d)) (Err "no document"%string) (le_visible x !! Z.to_nat a);
  tv_parse_query q := Ok q;
  tv_parse_query_lenient q := (q, true);
  tv_staged := le_staged;
  tv_committed := le_committed;
  tv_visible := le_visible;
  tv_matches q d := string_contains q (sd_text d);
  tv_score _ d _ := engine_score d;
  tv_healthy _ := True;
}.

Lemma engine_hits_docs t q docs :
  map snd (engine_hits t q docs) = hits (λ d, string_contains q (sd_text d)) t docs.
Proof.
  unfold engine_hits, hits.
  assert (Hgen : ∀ f : nat → Z, map snd (filter (λ p, of_tenant t p.2 ∧ string_contains q (sd_text p.2) = true)
     (imap (λ i d, (f i, d)) docs)) =
    filter (λ d, of_tenant t d ∧ string_contains q (sd_text d) = true) docs); [|apply Hgen].
  induction docs as [|d docs IH]; intros f; [done|]. cbn [imap]. rewrite !filter_cons. cbn [snd].
  case_decide; cbn [map snd]; [f_equal|]; apply (IH (f ∘ S)).
Qed.

Lemma engine_score_number d : not_nan (engine_score d).
Proof. apply f32_nonneg_not_nan, f32_of_Z_nonneg. lia. Qed.

Lemma engine_sorted l : StronglySorted (cmp_le engine_cmp) (sort_by engine_cmp l).
Proof.
  assert (TotalOrderTie (λ _ _ : Z * SparseDoc, Eq)) by by split.
  apply (sort_by_sorted _ (scored (λ p, engine_score p.2))). apply Forall_forall. intros p _. apply engine_score_number.
Qed.

Lemma engine_cmp_le p p' : cmp_le engine_cmp p p' → f32_le (engine_score p'.2) (engine_score p.2) = true.
Proof.
  unfold cmp_le, engine_cmp, score_desc. rewrite partial_cmp_key by apply engine_score_number.
  unfold f32_le, SpecFloat.SFleb. rewrite SFcompare_key by apply engine_score_number. by destruct (key_compare _ _).
Qed.

#[export] Instance list_engine_laws : TantivyLaws ListEngine string.
Proof.
  split; try (by intros; eexists; split_and!).
  - intros x _. exists (le_segments x). split; [done|]. eexists. split_and!; try done. exists [0]. split; [done|cbn; lia].
  - intros x _. eexists. split_and!; try done. by intros ids [= <-].
  - intros t q limit x _ Hl. set (H := engine_hits t q (le_visible x)).
    pose proof (engine_sorted H) as Hs. assert (Hp : sort_by engine_cmp H ≡ₚ H) by apply sort_by_Permutation.
    set (S := sort_by engine_cmp H) in *. rewrite <- (take_drop (Z.to_nat limit) S) in Hs.
    exists (map (λ p, (engine_score p.2, p.1)) (take (Z.to_nat limit) S)), (map snd (take (Z.to_nat limit) S)),
      (map snd (drop (Z.to_nat limit) S)). split_and!; [done| | | | | | |].
    + rewrite <- map_app, take_drop, Hp. unfold H. by rewrite engine_hits_docs.
    + rewrite Forall2_fmap. apply Forall_Forall2_diag, Forall_forall. intros [a d] Hin. split; [done|]. cbn.
      apply elem_of_take in Hin as (i & Hi & _). apply list_elem_of_lookup_2 in Hi. rewrite Hp in Hi.
      apply list_elem_of_filter in Hi as [_ Hi].
      apply elem_of_lookup_imap in Hi as (j & d' & [= -> ->] & Hj). by rewrite Nat2Z.id, Hj.
    + unfold zlen. rewrite length_map, length_take. lia.
    + unfold zlen. rewrite length_map, length_take. intros Hlt.
      rewrite drop_ge; [done|lia].
    + apply StronglySorted_app in Hs as (_ & Hs & _). induction Hs as [|p l Hs IH Hle]; cbn; constructor; [done|].
      apply Forall_map. eapply Forall_impl; [exact Hle|]. intros p'. apply engine_cmp_le.
    + intros d e (p & -> & Hd)%list_elem_of_fmap (p' & -> & He)%list_elem_of_fmap.
      apply StronglySorted_app in Hs as (Hs & _ & _). apply engine_cmp_le. by apply Hs.
    + intros d _. apply (engine_cmp_le (0, d) (0, d)). unfold cmp_le, engine_cmp, score_desc.
      rewrite partial_cmp_key by apply engine_score_number. by rewrite key_compare_refl.
Qed.

#[local] Instance ascii_alnum : AlphaNumeric := { char_is_alphanumeric _ := true }.

Definition bx_tenant : TenantId := TenantId.mk "team".
Definition bx_index : Bm25Index ListEngine := mkBm25 (mkEngine [] [] [] []) true false.
Definition bx_calls : list SparseCall :=
  [IndexItems [(bx_tenant, mkChunkId 1, ["the red fox"; "a red hat"]%string); (bx_tenant, mkChunkId 2, ["red wine"]%string)];
   SearchDocs bx_tenant "red" 5; CountDocs bx_tenant; DeleteDocs bx_tenant (mkChunkId 2);
   SearchDocs bx_tenant "red" 5; DeleteDocs bx_tenant (mkChunkId 2)].

Definition answer_ids (a : SparseAnswer) : option (list ChunkId) :=
  match a with DocsFound (Ok rs) => Some (map sp_chunk_id rs) | _ => None end.

Example bx_answers :
  map answer_ids (sparse_run bx_calls bx_index).1 =
  [None; Some [mkChunkId 1; mkChunkId 2]; None; None; Some [mkChunkId 1]; None].
Proof. vm_compute. reflexivity. Qed.

Lemma bx_rep : bm25_rep bx_index [].
Proof. by constructor. Qed.

Lemma bm25_index_exact_witness :
  docs_answers tv_matches parse_text_query (λ q d x, tv_score q d (bm_index x)) [] bx_calls bx_index
    (sparse_run bx_calls bx_index).1 ∧
  bm25_rep (sparse_run bx_calls bx_index).2 (foldl (λ D call, docs_after call D) [] bx_calls).
Proof. apply (bm25_index_exact bx_index [] bx_calls bx_rep). by repeat constructor. Defined.
