(* ===== verification/EmbeddingCache.v ===== *)
(** * The embedding cache of the dense index
    (src/crates/memd/src/index/embedding_cache.rs)

    A flat vector of 32-bit floats with a validity flag per internal id, and
    its file format.  A float is kept as its bit pattern: the code moves
    embeddings, it never computes with them here.  A slice out of range
    panics, which the reading operations show as an outer [None].  The file
    goes to disk through a temporary file, a sync and a rename. *)

From S2P Require Import Prelude Crates Files Concrete.
From coqutil Require Import Word.LittleEndianList.
From Stdlib Require Import Init.Byte Sorting.Sorted.

Open Scope nat_scope.

(** [f32::to_le_bytes] and [f32::from_le_bytes] on bit patterns; also
    [u32::to_le_bytes]. *)
Definition to_le_bytes (x : Z) : list byte := LittleEndianList.le_split 4 x.
Definition from_le_bytes (bs : list byte) : Z := LittleEndianList.le_combine bs.

(** [0.0f32] *)
Definition f32_zero_bits : Z := 0%Z.

Record EmbeddingCache : Type := mkCache {
  ec_embeddings : list Z;
  ec_dimension : nat;
  ec_count : nat;
  ec_valid_ids : list bool;
}.

(** [new] *)
Definition cache_new (dimension : nat) : EmbeddingCache := mkCache [] dimension 0 [].

(** [&v[start..start + n]]: [None] is the panic. *)
Definition slice_at {A} (start n : nat) (v : list A) : option (list A) :=
  if bool_decide (start + n ≤ length v) then Some (take n (drop start v)) else None.

(** [insert] *)
Definition cache_insert (internal_id : nat) (embedding : list Z) (c : EmbeddingCache)
    : memd_result EmbeddingCache :=
  if negb (bool_decide (length embedding = ec_dimension c))
  then Err (ValidationError "Embedding dimension mismatch: expected {}, got {}")
  else
    let required_size := (internal_id + 1) * ec_dimension c in
    let embeddings :=
      if bool_decide (length (ec_embeddings c) < required_size)
      then resize required_size f32_zero_bits (ec_embeddings c) else ec_embeddings c in
    let valid_ids :=
      if bool_decide (length (ec_valid_ids c) ≤ internal_id)
      then resize (internal_id + 1) false (ec_valid_ids c) else ec_valid_ids c in
    let start_idx := internal_id * ec_dimension c in
    let embeddings := list_inserts start_idx embedding embeddings in
    match valid_ids !! internal_id with
    | Some true => Ok (mkCache embeddings (ec_dimension c) (ec_count c) valid_ids)
    | _ => Ok (mkCache embeddings (ec_dimension c) (ec_count c + 1)
                 (<[internal_id := true]> valid_ids))
    end.

(** [get] *)
Definition cache_get (internal_id : nat) (c : EmbeddingCache) : option (option (list Z)) :=
  match ec_valid_ids c !! internal_id with
  | Some true =>
      Some <$> slice_at (internal_id * ec_dimension c) (ec_dimension c) (ec_embeddings c)
  | _ => Some None
  end.

(** [mark_invalid] *)
Definition mark_invalid (internal_id : nat) (c : EmbeddingCache) : EmbeddingCache :=
  match ec_valid_ids c !! internal_id with
  | Some true => mkCache (ec_embeddings c) (ec_dimension c) (ec_count c - 1)
                   (<[internal_id := false]> (ec_valid_ids c))
  | _ => c
  end.

(** The [filter_map] of [iter_valid], from id [id] on. *)
Fixpoint iter_valid_from (id : nat) (flags : list bool) (c : EmbeddingCache)
    : option (list (nat * list Z)) :=
  match flags with
  | [] => Some []
  | true :: flags =>
      e ← slice_at (id * ec_dimension c) (ec_dimension c) (ec_embeddings c);
      rest ← iter_valid_from (S id) flags c;
      Some ((id, e) :: rest)
  | false :: flags => iter_valid_from (S id) flags c
  end.

(** [iter_valid] *)
Definition iter_valid (c : EmbeddingCache) : option (list (nat * list Z)) :=
  iter_valid_from 0 (ec_valid_ids c) c.

(** [len] *)
Definition cache_len (c : EmbeddingCache) : nat := ec_count c.
(** [is_empty] *)
Definition cache_is_empty (c : EmbeddingCache) : bool := bool_decide (ec_count c = 0).
(** [next_id] *)
Definition cache_next_id (c : EmbeddingCache) : nat := length (ec_valid_ids c).

(** [validate_consistency] *)
Definition validate_consistency (expected_dimension expected_next_id : nat) (c : EmbeddingCache)
    : memd_result unit :=
  if negb (bool_decide (ec_dimension c = expected_dimension))
  then Err (ValidationError "Embedding cache dimension mismatch: cache has {}, config expects {}. Delete warm_index/embeddings.bin to rebuild.")
  else if negb (bool_decide (cache_next_id c = expected_next_id))
  then Err (ValidationError "Embedding cache count mismatch: cache has {} IDs, mapping expects {}. Delete warm_index/embeddings.bin to rebuild.")
  else Ok tt.

(* ------------------------------------------------------------------ *)
(** ** The file *)

(** b"MEMB" *)
Definition CACHE_MAGIC : list byte := [x4d; x45; x4d; x42].
Definition CACHE_VERSION : Z := 1%Z.

(** The byte of a validity flag. *)
Definition flag_byte (valid : bool) : byte := if valid then x01 else x00.

(** What both header hashers see. *)
Definition header_preimage (magic : list byte) (version dimension count next_id : Z) : list byte :=
  magic ++ to_le_bytes version ++ to_le_bytes dimension ++ to_le_bytes count ++
  to_le_bytes next_id.

(** What both data hashers see. *)
Definition data_preimage (valid_ids : list bool) (embeddings : list Z) : list byte :=
  map flag_byte valid_ids ++ (embeddings ≫= to_le_bytes).

Section codec.
Context `{BO : ByteOrder} `{CRC : Crc32}.

(** The bytes [save_to] writes. *)
Definition cache_bytes (c : EmbeddingCache) : list byte :=
  let dimension := as_u32 (Z.of_nat (ec_dimension c)) in
  let count := as_u32 (Z.of_nat (ec_count c)) in
  let next_id := as_u32 (Z.of_nat (cache_next_id c)) in
  CACHE_MAGIC ++ write_u32 CACHE_VERSION ++ write_u32 dimension ++ write_u32 count ++
  write_u32 next_id ++
  write_u32 (crc32 (header_preimage CACHE_MAGIC CACHE_VERSION dimension count next_id)) ++
  map flag_byte (ec_valid_ids c) ++ (ec_embeddings c ≫= to_le_bytes) ++
  write_u32 (crc32 (data_preimage (ec_valid_ids c) (ec_embeddings c))).

(** [reader.read_exact] of [n] bytes. *)
Definition take_exact (n : nat) (bs : list byte) : option (list byte * list byte) :=
  if bool_decide (n ≤ length bs) then Some (take n bs, drop n bs) else None.

(** The loop that reads the validity flags. *)
Fixpoint read_flags (n : nat) (bs : list byte) : memd_result (list bool * list byte) :=
  match n with
  | O => Ok ([], bs)
  | S n =>
      '(b, bs) ← ok_or (take_exact 1 bs) (StorageError "Failed to read valid flag {}: {}");
      '(flags, bs) ← read_flags n bs;
      Ok (negb (bool_decide (b = [x00])) :: flags, bs)
  end.

(** The loop that reads the embedding data. *)
Fixpoint read_floats (n : nat) (bs : list byte) : memd_result (list Z * list byte) :=
  match n with
  | O => Ok ([], bs)
  | S n =>
      '(b, bs) ← ok_or (take_exact 4 bs) (StorageError "Failed to read embedding data: {}");
      '(floats, bs) ← read_floats n bs;
      Ok (from_le_bytes b :: floats, bs)
  end.

Definition count_true (flags : list bool) : nat := length (filter (λ v, v = true) flags).

(** [load_from] on the bytes of the file. *)
Definition cache_load (bs : list byte) : memd_result EmbeddingCache :=
  '(magic_buf, bs) ← ok_or (take_exact 4 bs) (StorageError "Failed to read magic: {}");
  if negb (bool_decide (magic_buf = CACHE_MAGIC))
  then Err (ValidationError "Embedding cache corrupted: invalid magic bytes. Delete warm_index/embeddings.bin to rebuild.")
  else
  '(version, bs) ← ok_or (read_u32 bs) (StorageError "Failed to read version: {}");
  if negb (version =? CACHE_VERSION)%Z
  then Err (ValidationError "Embedding cache version {} not supported (expected {}). Delete warm_index/embeddings.bin to rebuild.")
  else
  '(dimension, bs) ← ok_or (read_u32 bs) (StorageError "Failed to read dimension: {}");
  '(count, bs) ← ok_or (read_u32 bs) (StorageError "Failed to read count: {}");
  '(next_id, bs) ← ok_or (read_u32 bs) (StorageError "Failed to read next_id: {}");
  '(stored_header_crc, bs) ← ok_or (read_u32 bs) (StorageError "Failed to read header CRC: {}");
  if negb (stored_header_crc =? crc32 (header_preimage magic_buf version dimension count next_id))%Z
  then Err (ValidationError "Embedding cache corrupted: header CRC mismatch. Delete warm_index/embeddings.bin to rebuild.")
  else
  '(valid_ids, bs) ← read_flags (Z.to_nat next_id) bs;
  if negb (bool_decide (count_true valid_ids = Z.to_nat count))
  then Err (ValidationError "Cache count mismatch: header says {}, actual is {}. Delete warm_index/embeddings.bin to rebuild.")
  else
  '(embeddings, bs) ← read_floats (Z.to_nat next_id * Z.to_nat dimension) bs;
  '(stored_data_crc, _) ← ok_or (read_u32 bs) (StorageError "Failed to read data CRC: {}");
  if negb (stored_data_crc =? crc32 (data_preimage valid_ids embeddings))%Z
  then Err (ValidationError "Embedding cache corrupted: data CRC mismatch. Delete warm_index/embeddings.bin to rebuild.")
  else Ok (mkCache embeddings (Z.to_nat dimension) (Z.to_nat count) valid_ids).

(** [load_from]: [File::open] fails when there is no file. *)
Definition load_from (f : option File) : memd_result EmbeddingCache :=
  file ← ok_or f (StorageError "Failed to open cache file: {}");
  cache_load (f_cur file).

End codec.

(** The two directory entries [save_to] touches.  [cd_entry] is the name
    [embeddings.bin] as the process sees it, [cd_entry_durable] the file the
    name is known to refer to after a crash. *)
Record CacheDir : Type := mkCacheDir {
  cd_tmp : option File;
  cd_entry : option File;
  cd_entry_durable : option File;
}.

Inductive CacheOp : Type :=
| CCreateTmp | CWriteTmp (bs : list byte) | CSyncTmp | CRename | CSyncDir.

Definition apply_cacheop (d : CacheDir) (o : CacheOp) : CacheDir :=
  match o with
  | CCreateTmp => mkCacheDir (Some file_new) (cd_entry d) (cd_entry_durable d)
  | CWriteTmp bs => mkCacheDir (file_append bs <$> cd_tmp d) (cd_entry d) (cd_entry_durable d)
  | CSyncTmp => mkCacheDir (file_sync <$> cd_tmp d) (cd_entry d) (cd_entry_durable d)
  | CRename => mkCacheDir None (cd_tmp d) (cd_entry_durable d)
  | CSyncDir => mkCacheDir (cd_tmp d) (cd_entry d) (cd_entry d)
  end.

(** [save_to]: the effects in order.  [BufWriter] may split the write; a
    crash inside [CWriteTmp] leaves any prefix of it, which covers that. *)
Definition save_to `{ByteOrder} `{Crc32} (c : EmbeddingCache) : list CacheOp :=
  [CCreateTmp; CWriteTmp (cache_bytes c); CSyncTmp; CRename; CSyncDir].

Definition apply_cacheops (os : list CacheOp) (d : CacheDir) : CacheDir :=
  foldl apply_cacheop d os.

(** The name after a crash refers to the old or to the new file, and that
    file lost at most what was not synced. *)
Definition crash_entry (d : CacheDir) (f : option File) : Prop :=
  ∃ g, (g = cd_entry d ∨ g = cd_entry_durable d) ∧
  match g, f with
  | None, None => True
  | Some g, Some f => ∃ c, crash_content g c ∧ f = file_of c
  | _, _ => False
  end.

(* ------------------------------------------------------------------ *)
(** ** Facts *)

(** The invariant: one block of floats per id, and the count is exact. *)
Record cache_inv (c : EmbeddingCache) : Prop := {
  ci_blocks : length (ec_embeddings c) = length (ec_valid_ids c) * ec_dimension c;
  ci_count : ec_count c = count_true (ec_valid_ids c);
}.

(** The content of the slot [i]. *)
Definition slot (i : nat) (c : EmbeddingCache) : list Z :=
  take (ec_dimension c) (drop (i * ec_dimension c) (ec_embeddings c)).

Lemma cache_get_inv i c :
  cache_inv c →
  cache_get i c =
    Some (if decide (ec_valid_ids c !! i = Some true) then Some (slot i c) else None).
Proof.
  intros [Hb _]. unfold cache_get. destruct (ec_valid_ids c !! i) as [[]|] eqn:E;
    [|by rewrite decide_False by congruence..].
  rewrite decide_True by done. unfold slice_at. apply lookup_lt_Some in E.
  rewrite bool_decide_true; [done|]. nia.
Qed.

Lemma count_true_cons b l : count_true (b :: l) = (if b then 1 else 0) + count_true l.
Proof. unfold count_true. rewrite filter_cons. by destruct b. Qed.

Lemma count_true_app l k : count_true (l ++ k) = count_true l + count_true k.
Proof. unfold count_true. by rewrite filter_app, length_app. Qed.

Lemma count_true_replicate n : count_true (replicate n false) = 0.
Proof. induction n as [|n IH]; [done|]. cbn [replicate]. by rewrite count_true_cons. Qed.

Lemma count_true_insert i (b b' : bool) (l : list bool) :
  l !! i = Some b' →
  count_true (<[i:=b]> l) + (if b' then 1 else 0) = count_true l + (if b then 1 else 0).
Proof.
  revert i. induction l as [|x l IH]; intros [|i] Hi; cbn in Hi; simplify_eq.
  - change (<[0:=b]> (b' :: l)) with (b :: l). rewrite !count_true_cons. lia.
  - change (<[S i:=b]> (x :: l)) with (x :: <[i:=b]> l). rewrite !count_true_cons.
    specialize (IH _ Hi). lia.
Qed.

(** Storage grown to [n], and left alone when large enough. *)
Lemma grow_app {A} n (x : A) l :
  (if bool_decide (length l < n) then resize n x l else l) = l ++ replicate (n - length l) x.
Proof.
  case_bool_decide as H.
  - by rewrite resize_ge by lia.
  - replace (n - length l) with 0 by lia. by rewrite app_nil_r.
Qed.

Lemma slot_lookup i c j :
  j < ec_dimension c → slot i c !! j = ec_embeddings c !! (i * ec_dimension c + j).
Proof. intros Hj. unfold slot. by rewrite lookup_take_lt, lookup_drop by lia. Qed.

Lemma length_slot i c :
  cache_inv c → i < length (ec_valid_ids c) → length (slot i c) = ec_dimension c.
Proof. intros [Hb _] Hi. unfold slot. rewrite length_take, length_drop. nia. Qed.

(** What an accepted [insert] leaves: both vectors padded to reach the id,
    then the block and the flag written. *)
Lemma cache_insert_shape id e c :
  cache_inv c → length e = ec_dimension c →
  let fl := ec_valid_ids c ++ replicate (id + 1 - length (ec_valid_ids c)) false in
  let em := ec_embeddings c ++
              replicate ((id + 1) * ec_dimension c - length (ec_embeddings c)) f32_zero_bits in
  let c' := mkCache (list_inserts (id * ec_dimension c) e em) (ec_dimension c)
              (count_true (<[id:=true]> fl)) (<[id:=true]> fl) in
  cache_insert id e c = Ok c' ∧ cache_inv c' ∧
  length fl = Nat.max (id + 1) (length (ec_valid_ids c)) ∧
  length em = length fl * ec_dimension c.
Proof.
  intros [Hb Hc] Hd fl em c'.
  assert (Hfl : length fl = Nat.max (id + 1) (length (ec_valid_ids c))).
  { unfold fl. rewrite length_app, length_replicate. lia. }
  assert (Hem : length em = length fl * ec_dimension c).
  { rewrite Hfl. unfold em. rewrite length_app, length_replicate. nia. }
  assert (is_Some (fl !! id)) as [b Hid] by (apply lookup_lt_is_Some; lia).
  split_and!; [|split; [|done]|done..].
  - unfold cache_insert. rewrite bool_decide_true by done. cbn [negb].
    replace (bool_decide (length (ec_valid_ids c) ≤ id))
      with (bool_decide (length (ec_valid_ids c) < id + 1)) by (apply bool_decide_ext; lia).
    rewrite !grow_app. fold fl em. rewrite Hid. unfold c'.
    assert (Hct : count_true fl = ec_count c).
    { unfold fl. rewrite count_true_app, count_true_replicate. lia. }
    pose proof (count_true_insert id true b fl Hid) as Hn.
    destruct b; cbv iota in Hn; do 2 f_equal; try lia. by rewrite list_insert_id.
  - cbn. by rewrite length_inserts, length_insert.
Qed.

(** Blocks that agree on every position are equal. *)
Lemma slot_ext i c l :
  cache_inv c → i < length (ec_valid_ids c) → length l = ec_dimension c →
  (∀ j, j < ec_dimension c → ec_embeddings c !! (i * ec_dimension c + j) = l !! j) →
  slot i c = l.
Proof.
  intros Hi Hlt Hl Hj. apply list_eq_same_length with (n := ec_dimension c);
    [done|by apply length_slot|].
  intros j x y Hjd. rewrite slot_lookup, Hj by done. congruence.
Qed.

(** [insert] on every branch. *)
Lemma cache_insert_spec id e c :
  cache_inv c →
  match cache_insert id e c with
  | Err err => length e ≠ ec_dimension c ∧
               err = ValidationError "Embedding dimension mismatch: expected {}, got {}"
  | Ok c' =>
      length e = ec_dimension c ∧ cache_inv c' ∧ ec_dimension c' = ec_dimension c ∧
      (∀ i, cache_get i c' = if decide (i = id) then Some (Some e) else cache_get i c)
  end.
Proof.
  intros Hi. destruct (decide (length e = ec_dimension c)) as [Hd|Hd].
  2: { unfold cache_insert. rewrite bool_decide_false by done. done. }
  pose proof (cache_insert_shape id e c Hi Hd) as Hs. cbv zeta in Hs.
  destruct Hs as (-> & Hi' & Hfl & Hem). set (c' := mkCache _ _ _ _) in *.
  split_and!; [done..|]. intros i. rewrite !cache_get_inv by done. cbn [c' ec_valid_ids].
  pose proof Hi as [Hb Hc]. case_decide as Hv; case_decide as Hne.
  - subst i. do 2 f_equal. apply slot_ext; [done|cbn; rewrite length_insert; lia|done|].
    intros j Hj. cbn in *. rewrite list_lookup_inserts by nia. f_equal. lia.
  - rewrite list_lookup_insert_ne, lookup_app in Hv by done.
    destruct (ec_valid_ids c !! i) as [b|] eqn:Ei; [|by apply lookup_replicate in Hv as [? _]].
    rewrite decide_True by done. apply lookup_lt_Some in Ei. do 2 f_equal.
    apply slot_ext; [done|cbn; rewrite length_insert; lia|exact (length_slot i c Hi Ei)|].
    intros j Hj. rewrite slot_lookup by done. cbn in *. destruct (decide (i < id)).
    + rewrite list_lookup_inserts_lt by nia. by rewrite lookup_app_l by nia.
    + rewrite list_lookup_inserts_ge by nia. by rewrite lookup_app_l by nia.
  - subst i. rewrite list_lookup_insert_eq in Hv by lia. done.
  - rewrite list_lookup_insert_ne, lookup_app in Hv by done.
    rewrite decide_False; [done|]. intros E. by rewrite E in Hv.
Qed.

(** [mark_invalid] *)
Lemma mark_invalid_spec id c :
  cache_inv c →
  cache_inv (mark_invalid id c) ∧ ec_dimension (mark_invalid id c) = ec_dimension c ∧
  ∀ i, cache_get i (mark_invalid id c) = if decide (i = id) then Some None else cache_get i c.
Proof.
  intros Hi. pose proof Hi as [Hb Hc]. unfold mark_invalid.
  destruct (ec_valid_ids c !! id) as [[]|] eqn:E.
  2,3: split_and!; [done..|]; intros i; case_decide as Hd; [|done]; subst i;
    unfold cache_get; by rewrite E.
  set (c' := mkCache _ _ _ _).
  assert (Hi' : cache_inv c').
  { pose proof (count_true_insert id false true _ E) as Hct. cbv iota in Hct.
    split; cbn [c' ec_embeddings ec_dimension ec_count ec_valid_ids].
    - by rewrite length_insert.
    - lia. }
  split_and!; [done..|]. intros i. rewrite !cache_get_inv by done. cbn [c' ec_valid_ids].
  case_decide as Hd; [case_decide as Hn|].
  - subst i. apply lookup_lt_Some in E. by rewrite list_lookup_insert_eq in Hd by done.
  - rewrite list_lookup_insert_ne in Hd by done. by rewrite decide_True.
  - case_decide as Hn; [done|]. rewrite list_lookup_insert_ne in Hd by done.
    by rewrite decide_False.
Qed.

Lemma slice_at_slot i c :
  cache_inv c → i < length (ec_valid_ids c) →
  slice_at (i * ec_dimension c) (ec_dimension c) (ec_embeddings c) = Some (slot i c).
Proof. intros [Hb _] Hi. unfold slice_at. rewrite bool_decide_true; [done|nia]. Qed.

Lemma iter_valid_from_spec c id flags :
  cache_inv c → flags = drop id (ec_valid_ids c) →
  ∃ l, iter_valid_from id flags c = Some l ∧ length l = count_true flags ∧
    StronglySorted lt l.*1 ∧ (∀ p, p ∈ l → id ≤ p.1) ∧
    ∀ i e, (i, e) ∈ l ↔ id ≤ i ∧ ec_valid_ids c !! i = Some true ∧ e = slot i c.
Proof.
  intros Hi. revert id. induction flags as [|b flags IH]; intros id Hfl.
  { exists []. split_and!; [done|done|constructor| |].
    - intros p Hp. by apply not_elem_of_nil in Hp.
    - intros i e. split; [by intros ?%not_elem_of_nil|]. intros (Hle & Hv & _).
      apply lookup_lt_Some in Hv. assert (length (drop id (ec_valid_ids c)) = 0) as Hl by (by rewrite <-Hfl).
      rewrite length_drop in Hl. lia. }
  assert (Hid : ec_valid_ids c !! id = Some b).
  { rewrite <-(Nat.add_0_r id), <-lookup_drop, <-Hfl. done. }
  destruct (IH (S id)) as (l & Hit & Hlen & Hs & Hlow & Hel).
  { rewrite <-Nat.add_1_r, <-drop_drop, <-Hfl. done. }
  pose proof (lookup_lt_Some _ _ _ Hid) as Hlt.
  rewrite count_true_cons. destruct b; cbn [iter_valid_from].
  - rewrite slice_at_slot by done. cbn [mbind option_bind]. rewrite Hit. cbn [mbind option_bind].
    eexists. split; [done|]. split_and!.
    + cbn [length]. lia.
    + cbn. constructor; [done|]. apply List.Forall_forall. intros i Hin%list_elem_of_In.
      apply list_elem_of_fmap in Hin as (p & -> & Hp). specialize (Hlow _ Hp). lia.
    + intros p [->|Hp]%elem_of_cons; cbn; [lia|]. specialize (Hlow _ Hp). lia.
    + intros i e. rewrite elem_of_cons, Hel. split.
      * intros [[= -> ->]|(? & ? & ?)]; split_and!; done || lia.
      * intros (Hle & Hv & ->). destruct (decide (i = id)) as [->|]; [by left|right].
        split_and!; done || lia.
  - exists l. split_and!; [done| |done| |].
    + done.
    + intros p Hp. specialize (Hlow _ Hp). lia.
    + intros i e. rewrite Hel. split; intros (Hle & Hv & ->); split_and!; try done; try lia.
      destruct (decide (i = id)) as [->|]; [congruence|lia].
Qed.

Lemma iter_valid_spec c :
  cache_inv c →
  ∃ l, iter_valid c = Some l ∧ length l = cache_len c ∧ StronglySorted lt l.*1 ∧
    ∀ i e, (i, e) ∈ l ↔ cache_get i c = Some (Some e).
Proof.
  intros Hi. destruct (iter_valid_from_spec c 0 (ec_valid_ids c) Hi) as (l & Hl & Hlen & Hs & _ & Hel).
  { by rewrite drop_0. }
  exists l. split_and!; [done| |done|].
  - rewrite Hlen. symmetry. apply ci_count, Hi.
  - intros i e. rewrite Hel, cache_get_inv by done. case_decide; naive_solver lia.
Qed.

(* ------------------------------------------------------------------ *)
(** ** The file: reading back what was written *)

Lemma take_exact_app bs rest : take_exact (length bs) (bs ++ rest) = Some (bs, rest).
Proof.
  unfold take_exact. rewrite bool_decide_true by (rewrite length_app; lia).
  by rewrite take_app_length, drop_app_length.
Qed.

Lemma length_to_le_bytes x : length (to_le_bytes x) = 4.
Proof. apply length_le_split. Qed.

Lemma from_to_le_bytes x : in_u32 x → from_le_bytes (to_le_bytes x) = x.
Proof.
  intros Hx. unfold from_le_bytes, to_le_bytes. rewrite le_combine_split. by apply Z.mod_small.
Qed.

Lemma read_flags_app flags rest :
  read_flags (length flags) (map flag_byte flags ++ rest) = Ok (flags, rest).
Proof.
  induction flags as [|b flags IH]; [done|]. cbn [length read_flags map app].
  change (take_exact 1 (flag_byte b :: map flag_byte flags ++ rest))
    with (take_exact (length [flag_byte b]) ([flag_byte b] ++ map flag_byte flags ++ rest)).
  rewrite take_exact_app.
  cbn [ok_or mbind result_bind]. rewrite IH. cbn [mbind result_bind]. by destruct b.
Qed.

Lemma read_floats_app fs rest :
  Forall in_u32 fs → read_floats (length fs) ((fs ≫= to_le_bytes) ++ rest) = Ok (fs, rest).
Proof.
  induction 1 as [|x fs Hx Hfs IH]; [done|]. cbn [length read_floats].
  change ((x :: fs) ≫= to_le_bytes) with (to_le_bytes x ++ (fs ≫= to_le_bytes)).
  rewrite <-app_assoc, <-(length_to_le_bytes x), take_exact_app.
  cbn [ok_or mbind result_bind]. rewrite IH. cbn [mbind result_bind].
  by rewrite from_to_le_bytes.
Qed.

Lemma read_flags_length n bs flags rest :
  read_flags n bs = Ok (flags, rest) → length flags = n.
Proof.
  revert bs flags rest. induction n as [|n IH]; intros bs flags rest H; cbn in H; [by simplify_eq|].
  destruct (take_exact 1 bs) as [[b bs']|]; cbn in H; [|done].
  destruct (read_flags n bs') as [[fl r]|] eqn:E; cbn in H; simplify_eq.
  cbn. f_equal. by eapply IH.
Qed.

Lemma read_floats_length n bs fs rest :
  read_floats n bs = Ok (fs, rest) → length fs = n.
Proof.
  revert bs fs rest. induction n as [|n IH]; intros bs fs rest H; cbn in H; [by simplify_eq|].
  destruct (take_exact 4 bs) as [[b bs']|]; cbn [ok_or mbind result_bind] in H; [|done].
  destruct (read_floats n bs') as [[fl r]|] eqn:E; cbn [mbind result_bind] in H; simplify_eq.
  cbn. f_equal. by eapply IH.
Qed.

(** The sizes that fit the header and the float type. *)
Record cache_fits (c : EmbeddingCache) : Prop := {
  cf_dimension : in_u32 (Z.of_nat (ec_dimension c));
  cf_next_id : in_u32 (Z.of_nat (cache_next_id c));
  cf_floats : Forall in_u32 (ec_embeddings c);
}.

Lemma count_true_le l : count_true l ≤ length l.
Proof. apply length_filter. Qed.

Section file_facts.
Context `{BOL : ByteOrderLaws} `{CRCL : Crc32Laws}.

Lemma cache_load_bytes c rest :
  cache_inv c → cache_fits c → cache_load (cache_bytes c ++ rest) = Ok c.
Proof.
  intros [Hb Hc] [Hd Hn Hf].
  assert (Hcnt : in_u32 (Z.of_nat (ec_count c))).
  { pose proof (count_true_le (ec_valid_ids c)). unfold in_u32, cache_next_id in *. lia. }
  unfold cache_load, cache_bytes. rewrite !as_u32_small, <-!app_assoc by done.
  rewrite (take_exact_app CACHE_MAGIC). cbn [ok_or mbind result_bind].
  rewrite bool_decide_true by done. cbn [negb].
  repeat (rewrite read_write_u32 by (done || apply crc32_range); cbn [ok_or mbind result_bind]).
  rewrite !Z.eqb_refl. cbn [negb]. rewrite !Nat2Z.id.
  unfold cache_next_id. rewrite read_flags_app. cbn [mbind result_bind].
  rewrite bool_decide_true by done. cbn [negb].
  rewrite <-Hb, read_floats_app by done. cbn [mbind result_bind].
  rewrite read_write_u32 by apply crc32_range. cbn [ok_or mbind result_bind].
  rewrite Z.eqb_refl. cbn [negb]. by destruct c.
Qed.

(** Whatever file is accepted, the cache it gives is well formed. *)
Lemma cache_load_inv bs c : cache_load bs = Ok c → cache_inv c.
Proof.
  unfold cache_load. intros Hok.
  repeat match type of Hok with
  | mbind _ ?m = Ok _ =>
      let E := fresh "Es" in destruct m as [[? ?]|] eqn:E; cbn [mbind result_bind] in Hok; [|done]
  | (if negb ?b then _ else _) = Ok _ =>
      let E := fresh "Eb" in destruct b eqn:E; cbn [negb] in Hok; [|done]
  end.
  simplify_eq. apply bool_decide_eq_true in Eb2. apply read_flags_length in Es5.
  apply read_floats_length in Es6.
  constructor; cbn [ec_embeddings ec_dimension ec_count ec_valid_ids]; congruence.
Qed.
End file_facts.

(* ------------------------------------------------------------------ *)
(** ** Properties *)

(** The calls that change a cache.  The callers propagate the error of
    [insert], which leaves the cache as it was. *)
Inductive CacheCall : Type :=
| CallInsert (internal_id : nat) (embedding : list Z)
| CallInvalidate (internal_id : nat).

Definition cache_call (c : EmbeddingCache) (o : CacheCall) : EmbeddingCache :=
  match o with
  | CallInsert id e => match cache_insert id e c with Ok c' => c' | Err _ => c end
  | CallInvalidate id => mark_invalid id c
  end.

(** The abstract cache: a finite map from ids to embeddings. *)
Definition map_call (dimension : nat) (m : gmap nat (list Z)) (o : CacheCall) : gmap nat (list Z) :=
  match o with
  | CallInsert id e => if decide (length e = dimension) then <[id := e]> m else m
  | CallInvalidate id => delete id m
  end.

(** A cache that represents a map. *)
Definition represents (c : EmbeddingCache) (dimension : nat) (m : gmap nat (list Z)) : Prop :=
  cache_inv c ∧ ec_dimension c = dimension ∧ ∀ i, cache_get i c = Some (m !! i).

Lemma cache_call_represents c d m o :
  represents c d m → represents (cache_call c o) d (map_call d m o).
Proof.
  intros (Hi & Hd & Hg). destruct o as [id e|id]; cbn.
  - pose proof (cache_insert_spec id e c Hi) as Hs. destruct (cache_insert id e c) as [c'|].
    + destruct Hs as (Hl & Hi' & Hd' & Hg'). rewrite decide_True by congruence.
      split_and!; [done|congruence|]. intros i. rewrite Hg', lookup_insert.
      repeat case_decide; congruence || done.
    + destruct Hs as [Hl _]. rewrite decide_False by congruence. done.
  - pose proof (mark_invalid_spec id c Hi) as (Hi' & Hd' & Hg').
    split_and!; [done|congruence|]. intros i. rewrite Hg', lookup_delete.
    repeat case_decide; congruence || done.
Qed.

Lemma StronglySorted_lt_NoDup (l : list nat) : StronglySorted lt l → NoDup l.
Proof.
  induction 1 as [|x l Hs IH Hx]; constructor; [|done].
  intros Hin%list_elem_of_In. rewrite List.Forall_forall in Hx. specialize (Hx _ Hin). lia.
Qed.

Lemma represents_iter c d m :
  represents c d m →
  cache_len c = size m ∧
  ∃ l, iter_valid c = Some l ∧ StronglySorted lt l.*1 ∧ ∀ i e, (i, e) ∈ l ↔ m !! i = Some e.
Proof.
  intros (Hi & _ & Hg). destruct (iter_valid_spec c Hi) as (l & Hl & Hlen & Hs & Hel).
  assert (Hm : ∀ i e, (i, e) ∈ l ↔ m !! i = Some e).
  { intros i e. rewrite Hel, Hg. split; congruence. }
  pose proof (StronglySorted_lt_NoDup _ Hs) as Hnd.
  split; [|by exists l]. rewrite <-Hlen. replace m with (list_to_map l : gmap nat (list Z)).
  - by rewrite map_size_list_to_map.
  - apply map_eq. intros i. destruct (m !! i) as [e|] eqn:E.
    + apply elem_of_list_to_map; [done|]. by apply Hm.
    + apply not_elem_of_list_to_map. intros ((j & e) & -> & Hin)%list_elem_of_fmap.
      apply Hm in Hin. cbn in *. congruence.
Qed.

(** after any sequence of [insert] and [mark_invalid] calls on a new
    cache, the flat vectors behave as a finite map from ids to embeddings:
    [get] is its lookup and never slices out of range, [len] its size, and
    [iter_valid] lists its entries in increasing order of id. *)
Theorem cache_refines_map (dimension : nat) (calls : list CacheCall) :
  let c := foldl cache_call (cache_new dimension) calls in
  let m := foldl (map_call dimension) ∅ calls in
  (∀ i, cache_get i c = Some (m !! i)) ∧ cache_len c = size m ∧
  ∃ l, iter_valid c = Some l ∧ StronglySorted lt l.*1 ∧ ∀ i e, (i, e) ∈ l ↔ m !! i = Some e.
Proof.
  assert (Hr : represents (foldl cache_call (cache_new dimension) calls) dimension
                 (foldl (map_call dimension) ∅ calls)).
  { induction calls as [|o calls IH] using rev_ind.
    - split_and!; [by constructor|done|]. done.
    - rewrite !foldl_app. by apply cache_call_represents. }
  cbv zeta. split; [apply Hr|]. by eapply represents_iter.
Qed.

Section crash.
Context `{BOL : ByteOrderLaws} `{CRCL : Crc32Laws}.

(** saving is crash atomic and lossless.  At whatever step of [save_to]
    the machine stops, the file found afterwards is the one saved before or
    loads as exactly the new cache; once [save_to] has returned it is the
    new cache; and the cache any accepted file gives, this one or a damaged
    one, satisfies the invariant under which reads cannot panic. *)
Theorem cache_save_crash_safe (c : EmbeddingCache) (old tmp f : option File) (k : nat) :
  cache_inv c → cache_fits c →
  (∀ g, old = Some g → g = file_of (f_cur g)) →
  crash_entry (apply_cacheops (take k (save_to c)) (mkCacheDir tmp old old)) f →
  (f = old ∧ k < 5 ∨ load_from f = Ok c) ∧
  (∀ c', load_from f = Ok c' → cache_inv c').
Proof.
  intros Hi Hfit Hold (g & Hg & Hf). split.
  2: { intros c' Hl. destruct f as [f|]; [exact (cache_load_inv _ _ Hl)|done]. }
  assert (Hcase : g = old ∧ k < 5 ∨ g = Some (file_of (cache_bytes c))).
  { do 5 (destruct k as [|k]; [cbn in Hg; destruct Hg; subst g; (left; split; [done|lia]) || by right|]).
    cbn in Hg. rewrite ?firstn_nil in Hg. destruct Hg; subst g; by right. }
  destruct Hcase as [[-> Hk]| ->].
  - left. split; [|done]. destruct old as [g|], f as [f|]; try done.
    destruct Hf as (bs & Hc & ->). rewrite (Hold g eq_refl) in Hc.
    apply crash_content_file_of in Hc. rewrite (Hold g eq_refl), Hc. done.
  - right. destruct f as [f|]; [|done]. destruct Hf as (bs & Hc & ->).
    apply crash_content_file_of in Hc as ->.
    pose proof (cache_load_bytes c [] Hi Hfit) as Hl. by rewrite app_nil_r in Hl.
Qed.
End crash.

(** A cache with three slots of which the middle one is invalid. *)
Definition ex_cache : EmbeddingCache :=
  foldl cache_call (cache_new 2)
    [CallInsert 0 [1; 2]%Z; CallInsert 2 [5; 6]%Z; CallInsert 1 [3; 4]%Z; CallInvalidate 1].

Lemma cache_save_crash_safe_witness :
  (Some (file_of (cache_bytes ex_cache)) = None ∧ 4 < 5 ∨
   load_from (Some (file_of (cache_bytes ex_cache))) = Ok ex_cache) ∧
  ∀ c', load_from (Some (file_of (cache_bytes ex_cache))) = Ok c' → cache_inv c'.
Proof.
  apply (cache_save_crash_safe ex_cache None None _ 4).
  - by constructor.
  - constructor; [done..|]. change (ec_embeddings ex_cache) with [1; 2; 3; 4; 5; 6]%Z.
    by repeat (apply Forall_cons; split; [by split|]).
  - done.
  - exists (Some (file_of (cache_bytes ex_cache))). split; [by left|].
    exists (cache_bytes ex_cache). split; [by left|done].
Defined.
