(* ===== verification/DenseIndex.v ===== *)
(** * The dense index
    (src/crates/memd/src/index/hnsw.rs, compaction/hnsw_rebuild.rs)

    [HnswIndex]: the graph of the hnsw_rs crate, the mapping between chunk
    ids and internal ids, and the embedding cache that is persisted and from
    which the graph is rebuilt.  The graph is a parameter: what the code
    relies on is which points it holds and that a search returns points it
    holds.  A directory is a map from file names to contents; the reader of
    a directory that was being written when the machine stopped sees any
    subset of the directory operations since the last directory sync. *)

From S2P Require Import Prelude Crates Types Files Ranking EmbeddingCache.
From Stdlib Require Import Init.Byte Floats.SpecFloat.

Open Scope nat_scope.

Record HnswConfig : Type := mkHnswConfig {
  hc_max_connections : nat;
  hc_ef_construction : nat;
  hc_ef_search : nat;
  hc_max_elements : nat;
  hc_dimension : nat;
  hc_persist_graph_dump : bool;
  hc_search_lock_budget_ms : option Z;
  hc_backfill_hnsw_on_startup : bool;
}.

(** [HnswConfig::default] *)
Definition HnswConfig_default : HnswConfig :=
  mkHnswConfig 16 200 50 (Z.to_nat 100000) 384 true None false.

Record SearchResult : Type := mkSearchResult { sr_chunk_id : ChunkId; sr_score : f32 }.

(* ------------------------------------------------------------------ *)
(** ** The mapping *)

Record IndexMapping : Type := mkMapping {
  im_id_to_chunk : gmap nat string;
  im_chunk_to_id : gmap string nat;
  im_next_id : nat;
  im_version : nat;
}.

(** [IndexMapping::new] *)
Definition mapping_new : IndexMapping := mkMapping ∅ ∅ 0 0.

Section mapping.
Context `{U : Uuid ChunkId}.

(** [IndexMapping::insert] *)
Definition mapping_insert (chunk_id : ChunkId) (m : IndexMapping) : nat * IndexMapping :=
  let chunk_str := uuid_to_string chunk_id in
  match im_chunk_to_id m !! chunk_str with
  | Some id => (id, m)
  | None =>
      let id := im_next_id m in
      (id, mkMapping (<[id := chunk_str]> (im_id_to_chunk m))
             (<[chunk_str := id]> (im_chunk_to_id m)) (im_next_id m + 1) (im_version m + 1))
  end.

(** [get_chunk_id] *)
Definition get_chunk_id (id : nat) (m : IndexMapping) : option ChunkId :=
  s ← im_id_to_chunk m !! id; uuid_parse s.

(** [get_internal_id] *)
Definition get_internal_id (chunk_id : ChunkId) (m : IndexMapping) : option nat :=
  im_chunk_to_id m !! uuid_to_string chunk_id.

End mapping.

(* ------------------------------------------------------------------ *)
(** ** The graph of the hnsw_rs crate *)

(** [Neighbour]: the id given at insertion and the cosine distance. *)
Record Neighbour : Type := mkNeighbour { n_d_id : nat; n_distance : f32 }.

(** What loading a dump may do: the crate panics on some corrupt dumps. *)
Inductive DumpLoad (G : Type) : Type :=
| DumpLoaded (g : G)
| DumpError
| DumpPanic.
Arguments DumpLoaded {_} _.
Arguments DumpError {_}.
Arguments DumpPanic {_}.

(** A directory: names of regular files and their contents. *)
Abbreviation Dir := (gmap string (list byte)).

Definition graph_file : string := "graph.hnsw.graph".
Definition data_file : string := "graph.hnsw.data".

Class Hnsw (G : Type) : Type := {
  hnsw_new (max_connections max_elements max_layer ef_construction : nat) : G;
  hnsw_insert_slice : list Z * nat → G → G;
  hnsw_parallel_insert_slice : list (list Z * nat) → G → G;
  hnsw_search (query : list Z) (k ef : nat) : G → list Neighbour;
  hnsw_get_nb_point : G → nat;
  (** [file_dump(path, "graph")] *)
  hnsw_file_dump : G → Dir → Dir;
  (** [HnswIo::new(path, "graph").load_hnsw()] on the two dump files *)
  hnsw_load : list byte → list byte → DumpLoad G;
  (** the points the graph holds, with their ids *)
  hnsw_points : G → list (list Z * nat);
}.

Class HnswLaws (G : Type) `{Hnsw G} : Prop := {
  points_new mc me ml ef : hnsw_points (hnsw_new mc me ml ef) = [];
  points_insert p g : hnsw_points (hnsw_insert_slice p g) ≡ₚ p :: hnsw_points g;
  points_parallel ps g : hnsw_points (hnsw_parallel_insert_slice ps g) ≡ₚ ps ++ hnsw_points g;
  nb_point_points g : hnsw_get_nb_point g = length (hnsw_points g);
  search_length q k ef g : length (hnsw_search q k ef g) ≤ k;
  search_points q k ef g n :
    n ∈ hnsw_search q k ef g → ∃ e, (e, n_d_id n) ∈ hnsw_points g;
  (** with the canonical names free, a dump goes to them, and reads back *)
  file_dump_canonical g d :
    d !! graph_file = None → d !! data_file = None →
    ∃ bg bd, hnsw_file_dump g d = <[graph_file := bg]> (<[data_file := bd]> d) ∧
      ∃ g', hnsw_load bg bd = DumpLoaded g' ∧ hnsw_points g' ≡ₚ hnsw_points g;
}.

(* ------------------------------------------------------------------ *)
(** ** The index *)

Record HnswIndex (G : Type) : Type := mkIndex {
  hi_hnsw : G;
  hi_mapping : IndexMapping;
  hi_cache : EmbeddingCache;
  hi_config : HnswConfig;
  (** [persist_path.is_some()] *)
  hi_persist : bool;
}.
Arguments mkIndex {_} _ _ _ _ _.
Arguments hi_hnsw {_} _.
Arguments hi_mapping {_} _.
Arguments hi_cache {_} _.
Arguments hi_config {_} _.
Arguments hi_persist {_} _.

(** [RebuildResult], without the duration. *)
Record RebuildResult : Type := mkRebuild {
  rr_processed : nat;
  rr_included : nat;
  rr_excluded : nat;
}.

(** [str::starts_with] and [str::ends_with] on file names. *)
Definition name_starts_with (p s : string) : bool := String.prefix p s.
Definition name_ends_with (p s : string) : bool :=
  (String.length p <=? String.length s) &&
  String.eqb (String.substring (String.length s - String.length p) (String.length p) s) p.

Definition is_canonical_dump (name : string) : bool :=
  String.eqb name graph_file || String.eqb name data_file.
Definition is_orphan_dump (name : string) : bool :=
  name_starts_with "graph-" name && (name_ends_with ".hnsw.graph" name || name_ends_with ".hnsw.data" name).

(** [purge_graph_dumps] and [purge_orphan_dumps] *)
Definition purge_graph_dumps (d : Dir) : Dir :=
  filter (λ p, is_canonical_dump p.1 || is_orphan_dump p.1 = false) d.
Definition purge_orphan_dumps (d : Dir) : Dir :=
  filter (λ p, is_orphan_dump p.1 = false) d.

(** A step of saving, as the directory sees it.  [DPut] is temp file, sync
    and rename: the content is durable before the name changes. *)
Inductive DirOp : Type :=
| DPut (name : string) (bs : list byte)
| DRemove (name : string)
| DPurge
| DSync.

Section index.
Context `{U : Uuid ChunkId} {G : Type} `{HG : Hnsw G}.
Context `{BO : ByteOrder} `{CRC : Crc32} `{BM : Bincode IndexMapping} `{JM : Json IndexMapping}
  `{JC : Json HnswConfig}.
(** [max(64, 8 * available_parallelism)] *)
Context (threshold : nat).

(** [HnswIndex::new] *)
Definition index_graph_new (config : HnswConfig) : G :=
  hnsw_new (hc_max_connections config) (hc_max_elements config) 16 (hc_ef_construction config).

Definition index_new (config : HnswConfig) : HnswIndex G :=
  mkIndex (index_graph_new config) mapping_new (cache_new (hc_dimension config)) config false.

(** [insert]: the result and the index afterwards. *)
Definition index_insert (chunk_id : ChunkId) (embedding : list Z) (x : HnswIndex G)
    : memd_result unit * HnswIndex G :=
  if negb (bool_decide (length embedding = hc_dimension (hi_config x)))
  then (Err (ValidationError "Embedding dimension mismatch: expected {}, got {}. This usually means the embedding model changed. To fix: delete the data directory and restart, or use --rebuild-index flag."), x)
  else
    let '(internal_id, mapping) := mapping_insert chunk_id (hi_mapping x) in
    match cache_insert internal_id embedding (hi_cache x) with
    | Err e => (Err e, mkIndex (hi_hnsw x) mapping (hi_cache x) (hi_config x) (hi_persist x))
    | Ok cache =>
        (Ok tt, mkIndex (hnsw_insert_slice (embedding, internal_id) (hi_hnsw x)) mapping cache
                  (hi_config x) (hi_persist x))
    end.

(** The loop of [insert_batch] over the items: mapping and cache as they are
    when it stops, the error if any, and the points to insert. *)
Fixpoint batch_loop (dimension : nat) (items : list (ChunkId * list Z)) (m : IndexMapping)
    (c : EmbeddingCache) (to_insert : list (list Z * nat))
    : memd_result (list (list Z * nat)) * IndexMapping * EmbeddingCache :=
  match items with
  | [] => (Ok to_insert, m, c)
  | (chunk_id, embedding) :: items =>
      if negb (bool_decide (length embedding = dimension))
      then (Err (ValidationError "Embedding dimension mismatch for {}: expected {}, got {}. This usually means the embedding model changed. To fix: delete the data directory and restart, or use --rebuild-index flag."), m, c)
      else
        let '(internal_id, m) := mapping_insert chunk_id m in
        match cache_insert internal_id embedding c with
        | Err e => (Err e, m, c)
        | Ok c => batch_loop dimension items m c (to_insert ++ [(embedding, internal_id)])
        end
  end.

(** Inserting many points: in parallel from the threshold on. *)
Definition insert_points (to_insert : list (list Z * nat)) (g : G) : G :=
  if bool_decide (threshold ≤ length to_insert)
  then hnsw_parallel_insert_slice to_insert g
  else foldl (λ g p, hnsw_insert_slice p g) g to_insert.

(** [insert_batch] *)
Definition index_insert_batch (items : list (ChunkId * list Z)) (x : HnswIndex G)
    : memd_result unit * HnswIndex G :=
  let '(r, m, c) := batch_loop (hc_dimension (hi_config x)) items (hi_mapping x) (hi_cache x) [] in
  match r with
  | Err e => (Err e, mkIndex (hi_hnsw x) m c (hi_config x) (hi_persist x))
  | Ok to_insert =>
      (Ok tt, mkIndex (insert_points to_insert (hi_hnsw x)) m c (hi_config x) (hi_persist x))
  end.

(** The [filter_map] of [search]. *)
Definition neighbour_result (m : IndexMapping) (n : Neighbour) : option SearchResult :=
  chunk_id ← get_chunk_id (n_d_id n) m;
  let raw := f32_sub f32_one (n_distance n) in
  let score := if is_finite raw then f32_clamp f32_zero f32_one raw else f32_zero in
  Some (mkSearchResult chunk_id score).

(** [search]; [mapping_free] and [hnsw_free] tell whether the read locks can
    be had within the budget, when one is set. *)
Definition index_search (mapping_free hnsw_free : bool) (query : list Z) (k : nat) (x : HnswIndex G)
    : memd_result (list SearchResult) :=
  if negb (bool_decide (length query = hc_dimension (hi_config x)))
  then Err (ValidationError "Query embedding dimension mismatch: expected {}, got {}. This usually means the embedding model changed. To fix: delete the data directory and restart, or use --rebuild-index flag.")
  else
    _ ← match hc_search_lock_budget_ms (hi_config x) with
        | Some _ =>
            if negb mapping_free then Err (IndexBusy "a writer holds the dense index mapping lock")
            else if negb hnsw_free
            then Err (IndexBusy "an index repair or bulk insert holds the dense index lock")
            else Ok tt
        | None => Ok tt
        end;
    Ok (omap (neighbour_result (hi_mapping x))
          (hnsw_search query k (hc_ef_search (hi_config x)) (hi_hnsw x))).

(** [len] and [version] *)
Definition index_len (x : HnswIndex G) : nat := im_next_id (hi_mapping x).
Definition index_version (x : HnswIndex G) : nat := im_version (hi_mapping x).

(** [swap_graph]: the excluded set is a [HashSet]; its order is immaterial. *)
Definition swap_graph (new_hnsw : G) (excluded : list nat) (x : HnswIndex G) : HnswIndex G :=
  mkIndex new_hnsw (hi_mapping x) (foldl (λ c id, mark_invalid id c) (hi_cache x) excluded)
    (hi_config x) (hi_persist x).

(** The loop of [HnswRebuilder::rebuild_clean]. *)
Definition rebuild_step (deleted : list nat) (s : G * RebuildResult) (p : nat * list Z)
    : G * RebuildResult :=
  let '(g, r) := s in
  let '(internal_id, embedding) := p in
  if bool_decide (internal_id ∈ deleted)
  then (g, mkRebuild (rr_processed r + 1) (rr_included r) (rr_excluded r + 1))
  else (hnsw_insert_slice (embedding, internal_id) g,
        mkRebuild (rr_processed r + 1) (rr_included r + 1) (rr_excluded r)).

(** [HnswRebuilder::rebuild_clean]; [None] is a panic of [iter_valid]. *)
Definition rebuild_clean (x : HnswIndex G) (deleted : list nat) (config : HnswConfig)
    : option (G * RebuildResult) :=
  entries ← iter_valid (hi_cache x);
  Some (foldl (rebuild_step deleted) (index_graph_new config, mkRebuild 0 0 0) entries).

(** [rebuild_clean_in_place]: computes the statistics, leaves the index. *)
Definition rebuild_clean_in_place (deleted_chunk_ids : list ChunkId) (x : HnswIndex G)
    : option RebuildResult :=
  snd <$> rebuild_clean x (omap (λ c, get_internal_id c (hi_mapping x)) deleted_chunk_ids)
            (hi_config x).

(** Rebuilding the graph and swapping it in: the per-index part of
    [DenseSearcher::rebuild_hnsw_for_tenant]. *)
Definition index_compact (deleted_chunk_ids : list ChunkId) (x : HnswIndex G)
    : option (RebuildResult * HnswIndex G) :=
  let deleted_internal_ids := omap (λ c, get_internal_id c (hi_mapping x)) deleted_chunk_ids in
  '(new_hnsw, result) ← rebuild_clean x deleted_internal_ids (hi_config x);
  Some (result, swap_graph new_hnsw deleted_internal_ids x).

(** [save_to]: the directory operations in order, the graph dump last. *)
Definition index_save_ops (x : HnswIndex G) : list DirOp :=
  [ DPut "embeddings.bin" (cache_bytes (hi_cache x)); DSync;
    DPut "mapping.bin" (bincode_encode (hi_mapping x)); DSync;
    DRemove "mapping.json";
    DPut "config.json" (json_to_vec (hi_config x));
    DPurge ].

Definition apply_dirop (d : Dir) (o : DirOp) : Dir :=
  match o with
  | DPut name bs => <[name := bs]> d
  | DRemove name => delete name d
  | DPurge => purge_graph_dumps d
  | DSync => d
  end.

(** [save_to] *)
Definition index_save_to (x : HnswIndex G) (d : Dir) : Dir :=
  let d := foldl apply_dirop d (index_save_ops x) in
  if hc_persist_graph_dump (hi_config x) then hnsw_file_dump (hi_hnsw x) d else d.

(** [save] *)
Definition index_save (x : HnswIndex G) (d : Dir) : memd_result Dir :=
  if hi_persist x then Ok (index_save_to x d)
  else Err (StorageError "no persistence path configured").

(** [load_with_mode]: the mapping. *)
Definition load_mapping (d : Dir) : memd_result IndexMapping :=
  match d !! "mapping.bin" with
  | Some buf => ok_or (bincode_decode buf) (StorageError "deserialize mapping.bin: {}")
  | None =>
      match d !! "mapping.json" with
      | Some buf => ok_or (json_from_slice buf) (StorageError "deserialize mapping.json: {}")
      | None => Err (StorageError "no mapping file present (expected mapping.bin or mapping.json)")
      end
  end.

(** [load_with_mode]: the embedding cache, and the directory without a
    discarded one. *)
Definition load_cache (config : HnswConfig) (read_only : bool) (next_id : nat) (d : Dir)
    : memd_result (EmbeddingCache * Dir) :=
  let dropped := if read_only then d else delete "embeddings.bin" d in
  let empty := cache_new (hc_dimension config) in
  match d !! "embeddings.bin" with
  | None => Ok (empty, d)
  | Some bs =>
      match cache_load bs with
      | Err _ => Ok (empty, dropped)
      | Ok cache =>
          if negb (bool_decide (ec_dimension cache = hc_dimension config)) then
            if hc_backfill_hnsw_on_startup config && negb read_only
            then Ok (empty, delete "embeddings.bin" d)
            else Err (DenseIndexModelMismatch (ec_dimension cache) (hc_dimension config))
          else
            match validate_consistency (hc_dimension config) next_id cache with
            | Err _ => Ok (empty, dropped)
            | Ok _ => Ok (cache, d)
            end
      end
  end.

(** [load_dumped_graph] *)
Definition load_dumped_graph (expected_points : nat) (d : Dir) : memd_result (option G) :=
  if bool_decide (expected_points = 0) then Ok None
  else
    match d !! graph_file, d !! data_file with
    | Some bg, Some bd =>
        match hnsw_load bg bd with
        | DumpPanic => Ok None
        | DumpError => Err (StorageError "load hnsw dump: {e}")
        | DumpLoaded g =>
            if negb (bool_decide (hnsw_get_nb_point g = expected_points))
            then Err (StorageError "dumped HNSW point count mismatch: graph has {loaded_points}, cache has {expected_points}")
            else Ok (Some g)
        end
    | _, _ => Ok None
    end.

(** [rebuild_graph_from_cache]; [None] is a panic of [iter_valid]. *)
Definition rebuild_graph_from_cache (config : HnswConfig) (cache : EmbeddingCache)
    : option (G * nat) :=
  let hnsw := index_graph_new config in
  if cache_is_empty cache then Some (hnsw, 0)
  else
    entries ← iter_valid cache;
    let to_insert := map (λ p, (p.2, p.1)) entries in
    Some (insert_points to_insert hnsw, length to_insert).

(** [load_with_mode]; the outer [None] is a panic. *)
Definition load_with_mode (config : HnswConfig) (read_only : bool) (d : Dir)
    : option (memd_result (HnswIndex G * Dir)) :=
  match load_mapping d with
  | Err e => Some (Err e)
  | Ok mapping =>
      match load_cache config read_only (im_next_id mapping) d with
      | Err e => Some (Err e)
      | Ok (cache, d) =>
          let dump :=
            if hc_persist_graph_dump config then load_dumped_graph (cache_len cache) d
            else Ok None in
          hnsw ← match dump with
                 | Ok (Some hnsw) => Some hnsw
                 | Ok None | Err _ => fst <$> rebuild_graph_from_cache config cache
                 end;
          Some (Ok (mkIndex hnsw mapping cache config (negb read_only), d))
      end
  end.

(** [with_persistence_mode] *)
Definition with_persistence_mode (config : HnswConfig) (read_only : bool) (d : Dir)
    : option (memd_result (HnswIndex G * Dir)) :=
  let d := if read_only then d else purge_orphan_dumps d in
  let fresh d :=
    let x := index_new config in
    Some (Ok (mkIndex (hi_hnsw x) (hi_mapping x) (hi_cache x) config (negb read_only), d)) in
  if bool_decide (is_Some (d !! "mapping.bin") ∨ is_Some (d !! "mapping.json")) then
    r ← load_with_mode config read_only d;
    match r with
    | Ok (x, d) => Some (Ok (x, d))
    | Err (DenseIndexModelMismatch sd md) => Some (Err (DenseIndexModelMismatch sd md))
    | Err _ => fresh d
    end
  else fresh d.

End index.
