(* ===== verification/DenseFacts.v ===== *)
(** * The dense index: correctness

    [mapping_inv] and [index_inv] are the invariants; [stored] is the
    abstract content of an index, the embedding each chunk id stands for.
    Every operation is shown to act on [stored] as on a finite map, a search
    returns only chunks that are stored, and a saved index is loaded back
    with the same content. *)

From S2P Require Import Prelude Crates Types Files Ranking EmbeddingCache DenseIndex.
From Stdlib Require Import Init.Byte Floats.SpecFloat.

Open Scope nat_scope.

(* ------------------------------------------------------------------ *)
(** ** The mapping is a bijection onto an initial segment of the ids *)

Section mapping_facts.
Context `{UL : UuidLaws ChunkId}.

Record mapping_inv (m : IndexMapping) : Prop := {
  mi_bij i s : im_id_to_chunk m !! i = Some s ↔ im_chunk_to_id m !! s = Some i;
  mi_ids i : is_Some (im_id_to_chunk m !! i) ↔ i < im_next_id m;
  mi_uuid i s : im_id_to_chunk m !! i = Some s → ∃ c, s = uuid_to_string c;
}.

Lemma mapping_new_inv : mapping_inv mapping_new.
Proof.
  split; cbn.
  - intros i s. by rewrite !lookup_empty.
  - intros i. rewrite lookup_empty. split; [by intros []|lia].
  - intros i s. by rewrite lookup_empty.
Qed.

Lemma get_chunk_id_spec m i c :
  mapping_inv m → get_chunk_id i m = Some c ↔ get_internal_id c m = Some i.
Proof.
  intros [Hb _ Hu]. unfold get_chunk_id, get_internal_id. rewrite <-Hb. split.
  - intros (s & Hs & Hp)%bind_Some. destruct (Hu _ _ Hs) as [c' ->].
    rewrite uuid_roundtrip in Hp. congruence.
  - intros ->. cbn. apply uuid_roundtrip.
Qed.

Lemma get_internal_id_lt m i c :
  mapping_inv m → get_internal_id c m = Some i → i < im_next_id m.
Proof.
  intros [Hb Hi _] Hc. apply Hi. unfold get_internal_id in Hc. rewrite <-Hb in Hc.
  by exists (uuid_to_string c).
Qed.

Lemma get_internal_id_inj m i c c' :
  mapping_inv m → get_internal_id c m = Some i → get_internal_id c' m = Some i → c = c'.
Proof. intros Hm H1 H2. apply get_chunk_id_spec in H1, H2; congruence. Qed.

(** [IndexMapping::insert] gives the chunk its old id, or the next one. *)
Lemma mapping_insert_spec c m :
  mapping_inv m →
  let '(id, m') := mapping_insert c m in
  mapping_inv m' ∧ get_internal_id c m' = Some id ∧
  (∀ c', c' ≠ c → get_internal_id c' m' = get_internal_id c' m) ∧
  (get_internal_id c m = Some id ∧ m' = m ∨
   get_internal_id c m = None ∧ id = im_next_id m ∧ im_next_id m' = im_next_id m + 1).
Proof.
  intros Hm. pose proof Hm as [Hb Hi Hu]. unfold mapping_insert.
  destruct (im_chunk_to_id m !! uuid_to_string c) as [id|] eqn:E.
  { split_and!; [done..|]. by left. }
  assert (Hn : im_id_to_chunk m !! im_next_id m = None).
  { apply eq_None_not_Some. rewrite Hi. lia. }
  unfold get_internal_id. cbn [im_chunk_to_id im_next_id]. split_and!.
  - split; cbn [im_id_to_chunk im_chunk_to_id im_next_id].
    + intros i s. rewrite !lookup_insert_Some, Hb. split.
      * intros [[<- <-]|[Hne Hs]]; [by left|right]. split; [|done]. intros <-. congruence.
      * intros [[<- <-]|[Hne Hs]]; [by left|right]. split; [|done]. intros <-.
        apply Hb in Hs. congruence.
    + intros i. rewrite lookup_insert_is_Some, Hi. lia.
    + intros i s. rewrite lookup_insert_Some. intros [[<- <-]|[_ Hs]]; [by eexists|by eapply Hu].
  - by rewrite lookup_insert_eq.
  - intros c' Hne. rewrite lookup_insert_ne; [done|]. intros Heq%uuid_to_string_inj. done.
  - by right.
Qed.

End mapping_facts.

(* ------------------------------------------------------------------ *)
(** ** Scores *)

Lemma f32_not_lt_le x y :
  is_nan x = false → is_nan y = false → f32_lt x y = false → f32_le y x = true.
Proof.
  intros Hx Hy. unfold f32_lt, f32_le, SFltb, SFleb.
  rewrite (SFcompare_key x y), (SFcompare_key y x) by done.
  rewrite (key_compare_antisym (f32_key x) (f32_key y)). by destruct (key_compare _ _).
Qed.

(** A similarity: a number between 0 and 1. *)
Definition unit_score (x : f32) : Prop :=
  is_nan x = false ∧ f32_le f32_zero x = true ∧ f32_le x f32_one = true.

Lemma unit_score_clamp x : is_finite x = true → unit_score (f32_clamp f32_zero f32_one x).
Proof.
  intros Hf. assert (Hn : is_nan x = false) by (by destruct x).
  unfold f32_clamp. destruct (f32_lt x f32_zero) eqn:E1; [by repeat split|].
  unfold f32_gt. destruct (f32_lt f32_one x) eqn:E2; [by repeat split|].
  split_and!; [done|by apply f32_not_lt_le..].
Qed.

(* ------------------------------------------------------------------ *)
(** ** The index *)

Section index_facts.
Context `{UL : UuidLaws ChunkId} {G : Type} `{HGL : HnswLaws G} (threshold : nat).

(** The embedding stored for a chunk. *)
Definition stored (x : HnswIndex G) (c : ChunkId) : option (list Z) :=
  id ← get_internal_id c (hi_mapping x); e ← cache_get id (hi_cache x); e.

Record index_inv (x : HnswIndex G) : Prop := {
  ii_mapping : mapping_inv (hi_mapping x);
  ii_cache : cache_inv (hi_cache x);
  ii_dimension : ec_dimension (hi_cache x) = hc_dimension (hi_config x);
  ii_next_id : cache_next_id (hi_cache x) ≤ im_next_id (hi_mapping x);
  (** a point of the graph has a valid slot in the cache *)
  ii_points e id : (e, id) ∈ hnsw_points (hi_hnsw x) → ∃ e', cache_get id (hi_cache x) = Some (Some e');
}.

(** The cache covers exactly the ids of the mapping: what [load] checks. *)
Definition index_synced (x : HnswIndex G) : Prop :=
  cache_next_id (hi_cache x) = im_next_id (hi_mapping x).

Lemma cache_get_lt i c e : cache_get i c = Some (Some e) → i < cache_next_id c.
Proof.
  unfold cache_get, cache_next_id. destruct (ec_valid_ids c !! i) as [[]|] eqn:E; try done.
  intros _. by eapply lookup_lt_Some.
Qed.

Lemma insert_points_points ps g : hnsw_points (insert_points threshold ps g) ≡ₚ ps ++ hnsw_points g.
Proof.
  unfold insert_points. case_bool_decide as Ht; [apply points_parallel|]. clear Ht.
  revert g. induction ps as [|p ps IH]; intros g; [done|]. cbn [foldl]. rewrite IH, points_insert.
  symmetry. apply Permutation_middle.
Qed.

Lemma next_id_insert id e c c' :
  cache_inv c → cache_insert id e c = Ok c' →
  cache_next_id c' = Nat.max (id + 1) (cache_next_id c).
Proof.
  intros Hi He. pose proof (cache_insert_spec id e c Hi) as Hs. rewrite He in Hs.
  destruct Hs as [Hl _]. pose proof (cache_insert_shape id e c Hi Hl) as Hs. cbv zeta in Hs.
  destruct Hs as (Heq & _ & Hfl & _). rewrite He in Heq. injection Heq as ->.
  unfold cache_next_id. cbn [ec_valid_ids]. by rewrite length_insert.
Qed.

(** Storing one embedding in the mapping and the cache: the step [insert]
    and the loop of [insert_batch] share. *)
Lemma store_one g m c cfg b chunk e :
  index_inv (mkIndex g m c cfg b) → length e = hc_dimension cfg →
  let '(id, m') := mapping_insert chunk m in
  ∃ c', cache_insert id e c = Ok c' ∧ index_inv (mkIndex g m' c' cfg b) ∧
    (index_synced (mkIndex g m c cfg b) → index_synced (mkIndex g m' c' cfg b)) ∧
    cache_get id c' = Some (Some e) ∧
    (∀ i e0, cache_get i c = Some (Some e0) → ∃ e1, cache_get i c' = Some (Some e1)) ∧
    ∀ k, stored (mkIndex g m' c' cfg b) k =
           if decide (k = chunk) then Some e else stored (mkIndex g m c cfg b) k.
Proof.
  intros [Hm Hc Hd Hn Hp] He. cbn in *. pose proof (mapping_insert_spec chunk m Hm) as Hs.
  destruct (mapping_insert chunk m) as [id m']. destruct Hs as (Hm' & Hid & Hoth & Hcase).
  pose proof (cache_insert_spec id e c Hc) as Hi.
  destruct (cache_insert id e c) as [c'|] eqn:E; [|destruct Hi; congruence].
  destruct Hi as (_ & Hc' & Hd' & Hg). pose proof (next_id_insert _ _ _ _ Hc E) as Hnx.
  assert (Hkeep : ∀ i e0, cache_get i c = Some (Some e0) → ∃ e1, cache_get i c' = Some (Some e1)).
  { intros i e0 Hq0. rewrite Hg. case_decide; eauto. }
  pose proof (get_internal_id_lt _ _ _ Hm' Hid) as Hlt.
  assert (Hle : im_next_id m ≤ im_next_id m') by (destruct Hcase as [[_ ->]|(_ & _ & ->)]; lia).
  exists c'. split_and!; [done| | | |done|].
  - constructor; cbn; [done|done|congruence|lia|]. intros e0 i Hin.
    destruct (Hp _ _ Hin) as [e1 Hq1]. by eapply Hkeep.
  - unfold index_synced. cbn. intros Hsy. destruct Hcase as [[Hq1 ->]|(_ & -> & ->)]; [|lia].
    pose proof (get_internal_id_lt _ _ _ Hm Hq1). lia.
  - rewrite Hg. by rewrite decide_True.
  - intros k. unfold stored. cbn. case_decide as Hk.
    + subst k. rewrite Hid. cbn. rewrite Hg, decide_True by done. done.
    + rewrite Hoth by done. destruct (get_internal_id k m) as [i|] eqn:Ek; [|done]. cbn.
      rewrite Hg, decide_False; [done|]. intros ->. apply Hk.
      apply (get_internal_id_inj m' id); [done| |done]. by rewrite Hoth.
Qed.

(** Adding points whose slots are valid keeps the invariant. *)
Lemma index_inv_graph g g' m c cfg b ps :
  index_inv (mkIndex g m c cfg b) → hnsw_points g' ≡ₚ ps ++ hnsw_points g →
  (∀ e id, (e, id) ∈ ps → ∃ e', cache_get id c = Some (Some e')) →
  index_inv (mkIndex g' m c cfg b).
Proof.
  intros [Hm Hc Hd Hn Hp] Hg Hps. constructor; cbn in *; try done.
  intros e id. rewrite Hg, elem_of_app. intros [Hq|Hq]; [by eapply Hps|by eapply Hp].
Qed.

(** [insert] *)
Lemma index_insert_spec chunk e x :
  index_inv x →
  let '(r, x') := index_insert chunk e x in
  index_inv x' ∧ hi_config x' = hi_config x ∧ (index_synced x → index_synced x') ∧
  if decide (length e = hc_dimension (hi_config x))
  then r = Ok tt ∧ ∀ k, stored x' k = if decide (k = chunk) then Some e else stored x k
  else is_ok r = false ∧ x' = x.
Proof.
  intros Hx. unfold index_insert. destruct x as [g m c cfg b].
  case_bool_decide as Hl; cbn [negb hi_config] in *; [|by rewrite decide_False].
  pose proof (store_one g m c cfg b chunk e Hx Hl) as Hs.
  cbn [hi_mapping hi_cache hi_hnsw hi_persist]. destruct (mapping_insert chunk m) as [id m'].
  destruct Hs as (c' & -> & Hinv & Hsy & Hid & _ & Hst). rewrite decide_True by done.
  split_and!; [|done|exact Hsy|done|exact Hst].
  eapply (index_inv_graph g _ m' c' cfg b [(e, id)]); [done|apply points_insert|].
  intros e0 id0 ?%list_elem_of_singleton. simplify_eq. eauto.
Qed.

(** What the items of a batch up to the first wrong one store. *)
Fixpoint batch_stored (dimension : nat) (items : list (ChunkId * list Z))
    (f : ChunkId → option (list Z)) : ChunkId → option (list Z) :=
  match items with
  | [] => f
  | (c, e) :: items =>
      if decide (length e = dimension)
      then batch_stored dimension items (λ k, if decide (k = c) then Some e else f k)
      else f
  end.

Lemma batch_stored_ext d items f f' :
  (∀ k, f k = f' k) → ∀ k, batch_stored d items f k = batch_stored d items f' k.
Proof.
  revert f f'. induction items as [|[c e] items IH]; intros f f' Hf k; cbn; [done|].
  case_decide; [|done]. apply IH. intros k'. by rewrite Hf.
Qed.

Lemma batch_loop_spec items g m c cfg b acc :
  index_inv (mkIndex g m c cfg b) →
  (∀ e id, (e, id) ∈ acc → ∃ e', cache_get id c = Some (Some e')) →
  let '(r, m', c') := batch_loop (hc_dimension cfg) items m c acc in
  index_inv (mkIndex g m' c' cfg b) ∧
  (index_synced (mkIndex g m c cfg b) → index_synced (mkIndex g m' c' cfg b)) ∧
  (∀ k, stored (mkIndex g m' c' cfg b) k =
        batch_stored (hc_dimension cfg) items (stored (mkIndex g m c cfg b)) k) ∧
  match r with
  | Ok ps => ∀ e id, (e, id) ∈ ps → ∃ e', cache_get id c' = Some (Some e')
  | Err _ => Exists (λ it, length it.2 ≠ hc_dimension cfg) items
  end.
Proof.
  revert m c acc. induction items as [|[chunk e] items IH]; intros m c acc Hx Hacc;
    cbn [batch_loop batch_stored]; [done|].
  case_bool_decide as Hl; cbn [negb].
  2: { rewrite decide_False by done. split_and!; [done..|]. by left. }
  rewrite decide_True by done. pose proof (store_one g m c cfg b chunk e Hx Hl) as Hs.
  destruct (mapping_insert chunk m) as [id m1].
  destruct Hs as (c1 & -> & Hinv & Hsy & Hid & Hkeep & Hst).
  specialize (IH m1 c1 (acc ++ [(e, id)]) Hinv).
  destruct (batch_loop _ items m1 c1 _) as [[r m'] c'].
  destruct IH as (Hi' & Hs' & Hst' & Hr).
  { intros e0 id0 [Hq0|Hq0]%elem_of_app.
    - destruct (Hacc _ _ Hq0) as [? Hq1]. by eapply Hkeep.
    - apply list_elem_of_singleton in Hq0. simplify_eq. eauto. }
  split_and!; [done|by eauto| |].
  - intros k. rewrite Hst'. by apply batch_stored_ext.
  - destruct r; [done|]. by right.
Qed.

(** [insert_batch] *)
Lemma index_insert_batch_spec items x :
  index_inv x →
  let '(r, x') := index_insert_batch threshold items x in
  index_inv x' ∧ hi_config x' = hi_config x ∧ (index_synced x → index_synced x') ∧
  (∀ k, stored x' k = batch_stored (hc_dimension (hi_config x)) items (stored x) k) ∧
  (r = Ok tt ∨ Exists (λ it, length it.2 ≠ hc_dimension (hi_config x)) items).
Proof.
  intros Hx. unfold index_insert_batch. destruct x as [g m c cfg b].
  pose proof (batch_loop_spec items g m c cfg b [] Hx) as Hb. cbn [hi_config hi_mapping hi_cache hi_hnsw hi_persist].
  destruct (batch_loop (hc_dimension cfg) items m c []) as [[r m'] c'].
  destruct Hb as (Hi & Hs & Hst & Hr). { intros e id Hq. by apply not_elem_of_nil in Hq. }
  destruct r as [ps|err]; [|by eauto 10].
  split_and!; [|done|done|done|by left].
  eapply index_inv_graph; [done|apply insert_points_points|done].
Qed.

(* ------------------------------------------------------------------ *)
(** ** Compaction of the graph *)

Lemma mark_all_invalid ids c :
  cache_inv c →
  let c' := foldl (λ c id, mark_invalid id c) c ids in
  cache_inv c' ∧ ec_dimension c' = ec_dimension c ∧ cache_next_id c' = cache_next_id c ∧
  ∀ i, cache_get i c' = if decide (i ∈ ids) then Some None else cache_get i c.
Proof.
  revert c. induction ids as [|id ids IH]; intros c Hc; cbn [foldl].
  { split_and!; [done..|]. intros i. rewrite decide_False; [done|apply not_elem_of_nil]. }
  destruct (mark_invalid_spec id c Hc) as (Hc1 & Hd1 & Hg1).
  destruct (IH _ Hc1) as (Hc2 & Hd2 & Hn2 & Hg2). split_and!; [done|congruence| |].
  - rewrite Hn2. unfold mark_invalid, cache_next_id.
    destruct (ec_valid_ids c !! id) as [[]|]; cbn; by rewrite ?length_insert.
  - intros i. rewrite Hg2, Hg1. repeat case_decide; set_solver.
Qed.

Lemma rebuild_fold deleted entries g r :
  let '(g', r') := foldl (rebuild_step deleted) (g, r) entries in
  hnsw_points g' ≡ₚ map (λ p, (p.2, p.1)) (filter (λ p, p.1 ∉ deleted) entries) ++ hnsw_points g ∧
  rr_processed r' = rr_processed r + length entries ∧
  rr_included r' = rr_included r + length (filter (λ p, p.1 ∉ deleted) entries) ∧
  rr_excluded r' + rr_included r' = rr_excluded r + rr_included r + length entries.
Proof.
  revert g r. induction entries as [|[i e] entries IH]; intros g r.
  { cbn. split_and!; done || lia. }
  cbn [foldl rebuild_step]. rewrite filter_cons. case_bool_decide as Hd.
  - rewrite decide_False by (cbn; tauto).
    specialize (IH g (mkRebuild (rr_processed r + 1) (rr_included r) (rr_excluded r + 1))).
    destruct (foldl _ _ entries) as [g' r']. cbn in IH |- *. destruct IH as (? & ? & ? & ?).
    split_and!; [done|lia..].
  - rewrite decide_True by done.
    specialize (IH (hnsw_insert_slice (e, i) g) (mkRebuild (rr_processed r + 1) (rr_included r + 1) (rr_excluded r))).
    destruct (foldl _ _ entries) as [g' r']. cbn in IH |- *. destruct IH as (Hp & ? & ? & ?).
    split_and!; [|lia..]. rewrite Hp, points_insert. symmetry. apply Permutation_middle.
Qed.

Lemma deleted_ids_spec m (cs : list ChunkId) c i :
  mapping_inv m → get_internal_id c m = Some i →
  i ∈ omap (λ c, get_internal_id c m) cs ↔ c ∈ cs.
Proof.
  intros Hm Hi. rewrite list_elem_of_omap. split.
  - intros (c' & Hin & Hc'). by rewrite (get_internal_id_inj m i c c').
  - intros Hin. by exists c.
Qed.

Lemma index_compact_spec deleted x :
  index_inv x →
  ∃ r x', index_compact deleted x = Some (r, x') ∧ index_inv x' ∧ hi_config x' = hi_config x ∧
    (index_synced x → index_synced x') ∧
    (∀ k, stored x' k = if decide (k ∈ deleted) then None else stored x k) ∧
    rr_processed r = cache_len (hi_cache x) ∧
    rr_excluded r + rr_included r = rr_processed r ∧
    rr_included r = length (hnsw_points (hi_hnsw x')) ∧
    (∀ k e, stored x' k = Some e → ∃ id, get_internal_id k (hi_mapping x') = Some id ∧
       (e, id) ∈ hnsw_points (hi_hnsw x')).
Proof.
  intros [Hm Hc Hd Hn Hp]. unfold index_compact, rebuild_clean.
  set (del := omap _ deleted). destruct (iter_valid_spec _ Hc) as (l & -> & Hlen & _ & Hel).
  cbn [mbind option_bind].
  pose proof (rebuild_fold del l (index_graph_new (hi_config x)) (mkRebuild 0 0 0)) as Hf.
  destruct (foldl _ _ l) as [g' r]. destruct Hf as (Hpts & Hpr & Hin & Hsum).
  unfold index_graph_new in Hpts. rewrite points_new, app_nil_r in Hpts. cbn in Hpr, Hin, Hsum.
  destruct (mark_all_invalid del _ Hc) as (Hc' & Hd' & Hn' & Hg').
  assert (Hmem : ∀ e id, (e, id) ∈ hnsw_points g' ↔ (id ∉ del) ∧ cache_get id (hi_cache x) = Some (Some e)).
  { intros e id. rewrite Hpts, list_elem_of_fmap. setoid_rewrite list_elem_of_filter. split.
    - intros ([i e0] & [= -> ->] & Hni & Hl). by rewrite <-Hel.
    - intros [Hni Hl]. exists (id, e). by rewrite Hel. }
  assert (Hst : ∀ k, stored (swap_graph g' del x) k = if decide (k ∈ deleted) then None else stored x k).
  { intros k. unfold stored, swap_graph. cbn. destruct (get_internal_id k (hi_mapping x)) as [i|] eqn:Ek.
    - cbn. rewrite Hg'. pose proof (deleted_ids_spec _ deleted k i Hm Ek) as Hiff.
      repeat case_decide; tauto || done.
    - by case_decide. }
  eexists _, _. split_and!; [done| |done| |exact Hst|cbn; lia|cbn; lia| |].
  - constructor; cbn; [done|done|congruence|lia|].
    intros e id [Hni Hl]%Hmem. exists e. rewrite Hg'. by rewrite decide_False.
  - unfold index_synced. cbn. congruence.
  - cbn. rewrite Hpts, length_fmap. lia.
  - intros k e. rewrite Hst. case_decide as Hk; [done|]. unfold stored. cbn.
    intros (id & Hid & (eo & Ho & ->)%bind_Some)%bind_Some. exists id. split; [done|].
    apply Hmem. split; [|done]. by intros ?%(deleted_ids_spec _ deleted k id Hm Hid).
Qed.

(* ------------------------------------------------------------------ *)
(** ** Search *)

Lemma neighbour_result_spec x n r :
  index_inv x → (∃ e, (e, n_d_id n) ∈ hnsw_points (hi_hnsw x)) →
  neighbour_result (hi_mapping x) n = Some r →
  is_Some (stored x (sr_chunk_id r)) ∧ unit_score (sr_score r).
Proof.
  intros [Hm Hc Hd Hn Hp] [e He] Hr. unfold neighbour_result in Hr.
  apply bind_Some in Hr as (c & Hc1 & [= <-]). cbn. split.
  - apply get_chunk_id_spec in Hc1; [|done]. unfold stored. rewrite Hc1. cbn.
    destruct (Hp _ _ He) as [e' ->]. cbn. by exists e'.
  - destruct (is_finite _) eqn:Ef; [by apply unit_score_clamp|by repeat split].
Qed.

Lemma length_omap_le {A B} (f : A → option B) (l : list A) : length (omap f l) ≤ length l.
Proof. induction l as [|a l IH]; [done|]. cbn. destruct (f a); cbn; lia. Qed.

Lemma index_search_spec mf hf q k x rs :
  index_inv x → index_search mf hf q k x = Ok rs →
  length rs ≤ k ∧ Forall (λ r, is_Some (stored x (sr_chunk_id r)) ∧ unit_score (sr_score r)) rs.
Proof.
  intros Hx Hs. unfold index_search in Hs. case_bool_decide; cbn [negb] in Hs; [|done].
  destruct (match hc_search_lock_budget_ms _ with Some _ => _ | None => _ end); [|done].
  cbn in Hs. injection Hs as <-. split.
  - etrans; [apply length_omap_le|apply search_length].
  - apply Forall_forall. intros r (n & Hn & Hr)%list_elem_of_omap.
    eapply neighbour_result_spec; [done| |done]. by eapply search_points.
Qed.

End index_facts.
