(* ===== verification/DenseProps.v ===== *)
(** * The dense index: properties

    Refinement of a finite map by every sequence of calls, soundness of
    search, restart from disk, and what a crash during a save can do. *)

From S2P Require Import Prelude Crates Types Files Ranking EmbeddingCache DenseIndex DenseFacts Concrete.
From Stdlib Require Import Init.Byte.

Open Scope nat_scope.

(* ------------------------------------------------------------------ *)
(** ** The directory after a save *)

(** The names [load] takes the state from. *)
Definition source_names : list string := ["embeddings.bin"; "mapping.bin"; "mapping.json"].

Definition same_source (d d' : Dir) : Prop := ∀ n, n ∈ source_names → d' !! n = d !! n.

Lemma purge_lookup d n :
  is_canonical_dump n || is_orphan_dump n = false → purge_graph_dumps d !! n = d !! n.
Proof.
  intros Hn. unfold purge_graph_dumps. apply option_eq. intros bs.
  rewrite map_lookup_filter_Some. naive_solver.
Qed.

Lemma purge_source d : same_source d (purge_graph_dumps d).
Proof.
  intros n Hn. apply purge_lookup.
  repeat (apply elem_of_cons in Hn as [->|Hn]; [by vm_compute|]). by apply not_elem_of_nil in Hn.
Qed.

Lemma purge_canonical d :
  purge_graph_dumps d !! graph_file = None ∧ purge_graph_dumps d !! data_file = None.
Proof. split; apply map_lookup_filter_None; right; intros bs _; by vm_compute. Qed.

Section save.
Context `{U : Uuid ChunkId} `{UL : !UuidLaws ChunkId} {G : Type} `{HG : Hnsw G} `{HGL : !HnswLaws G}.
Context `{BO : ByteOrder} `{BOL : !ByteOrderLaws} `{CRC : Crc32} `{CRCL : !Crc32Laws}.
Context `{BM : Bincode IndexMapping} `{BML : !BincodeLaws IndexMapping} `{JM : Json IndexMapping}
  `{JC : Json HnswConfig} (threshold : nat).
Implicit Types (x : HnswIndex G) (d : Dir).

Lemma file_dump_lookup (g : G) d n :
  d !! graph_file = None → d !! data_file = None → n ≠ graph_file → n ≠ data_file →
  hnsw_file_dump g d !! n = d !! n.
Proof.
  intros H1 H2 Hn1 Hn2. destruct (file_dump_canonical g d H1 H2) as (bg & bd & -> & _).
  by rewrite !lookup_insert_ne by done.
Qed.

Lemma index_save_lookup x d n :
  n ∈ source_names →
  index_save_to x d !! n =
    if decide (n = "embeddings.bin") then Some (cache_bytes (hi_cache x))
    else if decide (n = "mapping.bin") then Some (bincode_encode (hi_mapping x)) else None.
Proof.
  intros Hn. unfold index_save_to, index_save_ops. cbn [foldl apply_dirop].
  set (d1 := <["config.json" := _]> _).
  assert (purge_graph_dumps d1 !! n = d1 !! n) as Hp by (by apply purge_source).
  assert (Hd : (if hc_persist_graph_dump (hi_config x)
                then hnsw_file_dump (hi_hnsw x) (purge_graph_dumps d1)
                else purge_graph_dumps d1) !! n = d1 !! n).
  { destruct (hc_persist_graph_dump _); [|done]. destruct (purge_canonical d1).
    rewrite file_dump_lookup; [done..| |];
      (intros ->; vm_compute in Hn; by repeat (apply elem_of_cons in Hn as [?|Hn]; [done|]);
       apply not_elem_of_nil in Hn). }
  rewrite Hd. unfold d1.
  repeat (apply elem_of_cons in Hn as [->|Hn]; [by simplify_map_eq|]). by apply not_elem_of_nil in Hn.
Qed.

Lemma index_save_mapping x d :
  index_save_to x d !! "mapping.bin" = Some (bincode_encode (hi_mapping x)).
Proof. rewrite index_save_lookup by (right; left). by rewrite decide_False, decide_True. Qed.

Lemma index_save_embeddings x d :
  index_save_to x d !! "embeddings.bin" = Some (cache_bytes (hi_cache x)).
Proof. rewrite index_save_lookup by left. by rewrite decide_True. Qed.

(* ------------------------------------------------------------------ *)
(** ** Loading *)

(** A cache that is on disk whole and fits the mapping is taken over. *)
Lemma load_cache_accepts cfg ro next d c :
  d !! "embeddings.bin" = Some (cache_bytes c) → cache_inv c → cache_fits c →
  ec_dimension c = hc_dimension cfg → cache_next_id c = next →
  load_cache cfg ro next d = Ok (c, d).
Proof.
  intros Hd Hi Hf Hdim Hn. unfold load_cache. rewrite Hd.
  pose proof (cache_load_bytes c [] Hi Hf) as Hl. rewrite app_nil_r in Hl. rewrite Hl.
  rewrite bool_decide_true by done. cbn [negb]. unfold validate_consistency.
  by rewrite !bool_decide_true.
Qed.

(** One that does not fit the mapping is dropped. *)
Lemma load_cache_drops cfg next d c :
  d !! "embeddings.bin" = Some (cache_bytes c) → cache_inv c → cache_fits c →
  ec_dimension c = hc_dimension cfg → cache_next_id c ≠ next →
  load_cache cfg false next d = Ok (cache_new (hc_dimension cfg), delete "embeddings.bin" d).
Proof.
  intros Hd Hi Hf Hdim Hn. unfold load_cache. rewrite Hd.
  pose proof (cache_load_bytes c [] Hi Hf) as Hl. rewrite app_nil_r in Hl. rewrite Hl.
  rewrite bool_decide_true by done. cbn [negb]. unfold validate_consistency.
  by rewrite bool_decide_true, bool_decide_false.
Qed.

Lemma rebuild_graph_spec cfg c :
  cache_inv c →
  ∃ g, rebuild_graph_from_cache (G := G) threshold cfg c = Some (g, cache_len c) ∧
    hnsw_get_nb_point g = cache_len c ∧
    ∀ e id, (e, id) ∈ hnsw_points g ↔ cache_get id c = Some (Some e).
Proof.
  intros Hc. destruct (iter_valid_spec c Hc) as (l & Hl & Hlen & _ & Hel).
  unfold rebuild_graph_from_cache, cache_is_empty.
  assert (Hpts : hnsw_points (index_graph_new (G := G) cfg) = []) by apply points_new.
  case_bool_decide as He.
  - unfold cache_len in *. rewrite He. eexists. split; [done|].
    rewrite nb_point_points, Hpts. split; [done|]. intros e id. rewrite <-Hel.
    assert (l = []) as -> by (apply nil_length_inv; congruence).
    split; intros Hin; by apply not_elem_of_nil in Hin.
  - rewrite Hl. cbn [mbind option_bind]. eexists. rewrite length_map, Hlen. split; [done|].
    pose proof (insert_points_points threshold (map (λ p, (p.2, p.1)) l)
                  (index_graph_new (G := G) cfg)) as Hp.
    rewrite Hpts, app_nil_r in Hp. split.
    + by rewrite nb_point_points, Hp, length_fmap.
    + intros e id. rewrite Hp, list_elem_of_fmap. split.
      * intros ([i e0] & [= -> ->] & Hin). by apply Hel.
      * intros Hin%Hel. by exists (id, e).
Qed.

(** Loading what [save_to] left, whatever other files there are. *)
Lemma load_saved x d d' cfg ro :
  index_inv x → index_synced x → cache_fits (hi_cache x) →
  hc_dimension cfg = hc_dimension (hi_config x) →
  (∀ n, n ∈ [graph_file; data_file] ++ source_names → d' !! n = index_save_to x d !! n) →
  ∃ g, load_with_mode threshold cfg ro d' =
         Some (Ok (mkIndex g (hi_mapping x) (hi_cache x) cfg (negb ro), d')) ∧
    hnsw_get_nb_point g = cache_len (hi_cache x) ∧
    ∀ e id, (e, id) ∈ hnsw_points g →
      cache_get id (hi_cache x) = Some (Some e) ∨ (e, id) ∈ hnsw_points (hi_hnsw x).
Proof.
  intros [Hm Hc Hdim Hn Hp] Hsy Hfit Hcfg Hd'. unfold load_with_mode, load_mapping.
  rewrite (Hd' "mapping.bin"), index_save_mapping, bincode_roundtrip by set_solver. cbn [ok_or].
  rewrite (load_cache_accepts cfg ro _ _ (hi_cache x)); try done; 
    [|rewrite (Hd' "embeddings.bin") by set_solver; apply index_save_embeddings|congruence].
  destruct (rebuild_graph_spec cfg (hi_cache x) Hc) as (g & Hg & Hnb & Hgp).
  assert (Hrb : ∃ g, fst <$> rebuild_graph_from_cache threshold cfg (hi_cache x) = Some g ∧
    hnsw_get_nb_point g = cache_len (hi_cache x) ∧ ∀ e id, (e, id) ∈ hnsw_points g →
      cache_get id (hi_cache x) = Some (Some e) ∨ (e, id) ∈ hnsw_points (hi_hnsw x)).
  { exists g. rewrite Hg. split_and!; [done..|]. intros e id Hin. left. by apply Hgp. }
  assert (Hdump : ∃ g, match (if hc_persist_graph_dump cfg
        then load_dumped_graph (G := G) (cache_len (hi_cache x)) d' else Ok None) with
      | Ok (Some hnsw) => Some hnsw
      | Ok None | Err _ => fst <$> rebuild_graph_from_cache threshold cfg (hi_cache x)
      end = Some g ∧
    hnsw_get_nb_point g = cache_len (hi_cache x) ∧ ∀ e id, (e, id) ∈ hnsw_points g →
      cache_get id (hi_cache x) = Some (Some e) ∨ (e, id) ∈ hnsw_points (hi_hnsw x)).
  { destruct (hc_persist_graph_dump cfg); [|done]. unfold load_dumped_graph.
    case_bool_decide; [done|]. rewrite (Hd' graph_file), (Hd' data_file) by set_solver.
    destruct (index_save_to x d !! graph_file) as [bg|] eqn:E1; [|done].
    destruct (index_save_to x d !! data_file) as [bd|] eqn:E2; [|done].
    destruct (hnsw_load bg bd) as [g0| |] eqn:E3; [|done..].
    case_bool_decide as Hcnt; cbn [negb]; [|done]. exists g0. split_and!; [done..|].
    intros e id Hin. right. revert E1 E2. unfold index_save_to, index_save_ops.
    cbn [foldl apply_dirop]. set (d1 := <["config.json" := _]> _).
    destruct (purge_canonical d1) as [Hc1 Hc2].
    destruct (hc_persist_graph_dump (hi_config x)); [|by rewrite Hc1].
    destruct (file_dump_canonical (hi_hnsw x) _ Hc1 Hc2) as (bg' & bd' & -> & g' & Hl & Hg').
    rewrite lookup_insert_eq, lookup_insert_ne, lookup_insert_eq by done.
    intros [= ->] [= ->]. rewrite Hl in E3. injection E3 as ->. by rewrite <-Hg'. }
  destruct Hdump as (g1 & -> & Hnb1 & Hp1). exists g1. by split_and!.
Qed.

End save.

(* ------------------------------------------------------------------ *)
(** ** Properties *)

(** The calls that change an index. *)
Inductive DenseCall : Type :=
| DenseInsert (chunk_id : ChunkId) (embedding : list Z)
| DenseInsertBatch (items : list (ChunkId * list Z))
| DenseCompact (deleted : list ChunkId).

(** One call; the outer [None] is a panic. *)
Definition dense_call `{Uuid ChunkId} {G} `{Hnsw G} (threshold : nat) (x : HnswIndex G)
    (o : DenseCall) : option (HnswIndex G) :=
  match o with
  | DenseInsert c e => Some (index_insert c e x).2
  | DenseInsertBatch items => Some (index_insert_batch threshold items x).2
  | DenseCompact deleted => snd <$> index_compact deleted x
  end.

Definition dense_run `{Uuid ChunkId} {G} `{Hnsw G} (threshold : nat) (cfg : HnswConfig)
    (calls : list DenseCall) : option (HnswIndex G) :=
  foldl (λ s o, x ← s; dense_call threshold x o) (Some (index_new cfg)) calls.

(** The abstract index: the embedding of each live chunk. *)
Definition spec_insert (dimension : nat) (m : gmap ChunkId (list Z)) (p : ChunkId * list Z)
    : gmap ChunkId (list Z) :=
  if decide (length p.2 = dimension) then <[p.1 := p.2]> m else m.

Fixpoint spec_batch (dimension : nat) (items : list (ChunkId * list Z)) (m : gmap ChunkId (list Z))
    : gmap ChunkId (list Z) :=
  match items with
  | [] => m
  | p :: items =>
      if decide (length p.2 = dimension)
      then spec_batch dimension items (spec_insert dimension m p) else m
  end.

Definition spec_call (dimension : nat) (m : gmap ChunkId (list Z)) (o : DenseCall)
    : gmap ChunkId (list Z) :=
  match o with
  | DenseInsert c e => spec_insert dimension m (c, e)
  | DenseInsertBatch items => spec_batch dimension items m
  | DenseCompact deleted => filter (λ p, p.1 ∉ deleted) m
  end.

Section props.
Context `{U : Uuid ChunkId} `{UL : !UuidLaws ChunkId} {G : Type} `{HG : Hnsw G} `{HGL : !HnswLaws G}.

(** An index that represents a map. *)
Definition index_represents (cfg : HnswConfig) (x : HnswIndex G) (m : gmap ChunkId (list Z)) : Prop :=
  index_inv x ∧ index_synced x ∧ hi_config x = cfg ∧ ∀ k, stored x k = m !! k.

Lemma spec_batch_stored d items m f :
  (∀ k, f k = m !! k) → ∀ k, batch_stored d items f k = spec_batch d items m !! k.
Proof.
  revert m f. induction items as [|[c e] items IH]; intros m f Hf k; cbn; [done|].
  case_decide as Hl; [|done]. apply IH. intros k'. unfold spec_insert. cbn.
  destruct (decide (length e = d)); [|done]. rewrite lookup_insert.
  repeat case_decide; congruence || apply Hf.
Qed.

Lemma dense_call_represents threshold cfg x m o :
  index_represents cfg x m →
  ∃ x', dense_call threshold x o = Some x' ∧
        index_represents cfg x' (spec_call (hc_dimension cfg) m o).
Proof.
  intros (Hi & Hsy & Hc & Hst). destruct o as [c e|items|deleted]; cbn [dense_call spec_call].
  - pose proof (index_insert_spec c e x Hi) as Hs. destruct (index_insert c e x) as [r x'].
    destruct Hs as (Hi' & Hc' & Hsy' & Hcase). exists x'. split; [done|].
    split_and!; [done|by apply Hsy'|congruence|]. intros k. unfold spec_insert. cbn. rewrite Hc in Hcase.
    case_decide; destruct Hcase as [Hr Hx'].
    + rewrite Hx', lookup_insert. repeat case_decide; congruence || apply Hst.
    + by rewrite Hx'.
  - pose proof (index_insert_batch_spec threshold items x Hi) as Hs.
    destruct (index_insert_batch threshold items x) as [r x'].
    destruct Hs as (Hi' & Hc' & Hsy' & Hst' & _). exists x'. split; [done|].
    split_and!; [done|by apply Hsy'|congruence|]. intros k. rewrite Hst', Hc. by apply spec_batch_stored.
  - destruct (index_compact_spec deleted x Hi) as (r & x' & -> & Hi' & Hc' & Hsy' & Hst' & _).
    exists x'. split; [done|]. split_and!; [done|by apply Hsy'|congruence|]. intros k.
    rewrite Hst', Hst. case_decide as Hk.
    + symmetry. apply map_lookup_filter_None. right. intros e _ Hn. by apply Hn.
    + destruct (m !! k) as [e|] eqn:E; symmetry.
      * apply map_lookup_filter_Some. done.
      * apply map_lookup_filter_None. by left.
Qed.

Lemma dense_run_represents threshold cfg calls :
  ∃ x, dense_run threshold cfg calls = Some x ∧
       index_represents cfg x (foldl (spec_call (hc_dimension cfg)) ∅ calls).
Proof.
  induction calls as [|o calls (x & Hx & Hr)] using rev_ind.
  - exists (index_new cfg). split; [done|]. split_and!; [|done..].
    constructor; cbn; [apply mapping_new_inv|by constructor|done|done|].
    intros e id. unfold index_graph_new. rewrite points_new. by intros ?%not_elem_of_nil.
  - unfold dense_run in *. rewrite !foldl_app, Hx. cbn.
    destruct (dense_call_represents threshold cfg x _ o Hr) as (x' & -> & Hr'). by exists x'.
Qed.

(** C30: a dense index behaves as a finite map from chunk ids to embeddings
    under any sequence of single inserts, batches (which stop at the first
    embedding of a wrong dimension) and compactions, and no call panics.  A
    search returns at most [k] results, each of a chunk that is in the map
    at that moment (so never one that was compacted away), with a score that
    is a number between 0 and 1. *)
Theorem dense_index_refines_map (threshold : nat) (cfg : HnswConfig) (calls : list DenseCall) :
  ∃ x : HnswIndex G, dense_run threshold cfg calls = Some x ∧
    let m := foldl (spec_call (hc_dimension cfg)) ∅ calls in
    (∀ k, stored x k = m !! k) ∧
    ∀ mapping_free hnsw_free q k rs, index_search mapping_free hnsw_free q k x = Ok rs →
      length rs ≤ k ∧ ∀ r, r ∈ rs → is_Some (m !! sr_chunk_id r) ∧ unit_score (sr_score r).
Proof.
  destruct (dense_run_represents threshold cfg calls) as (x & Hx & Hi & _ & _ & Hst).
  exists x. split; [done|]. split; [done|]. intros mf hf q k rs Hs.
  destruct (index_search_spec mf hf q k x rs Hi Hs) as [Hl Hall]. split; [done|].
  intros r Hr. rewrite Forall_forall in Hall. rewrite <-Hst. by apply Hall.
Qed.

End props.

(* ------------------------------------------------------------------ *)
(** ** Restart and crash *)

(** The directories a crash inside [save_to] may leave: of the operations
    started, those before the last directory sync have happened and of the
    later ones any subset has; a graph dump under way may have left anything
    under the other names. *)
Definition dir_crash (ops : list DirOp) (d d' : Dir) : Prop :=
  ∃ a b b' rest, ops = a ++ b ++ rest ∧ (DSync ∉ b) ∧ b' `sublist_of` b ∧
    same_source (foldl apply_dirop d (a ++ b')) d'.

Section restart.
Context `{U : Uuid ChunkId} `{UL : !UuidLaws ChunkId} {G : Type} `{HG : Hnsw G} `{HGL : !HnswLaws G}.
Context `{BO : ByteOrder} `{BOL : !ByteOrderLaws} `{CRC : Crc32} `{CRCL : !Crc32Laws}.
Context `{BM : Bincode IndexMapping} `{BML : !BincodeLaws IndexMapping} `{JM : Json IndexMapping}
  `{JC : Json HnswConfig}.

Lemma purge_orphan_lookup d n : is_orphan_dump n = false → purge_orphan_dumps d !! n = d !! n.
Proof.
  intros Hn. unfold purge_orphan_dumps. apply option_eq. intros bs.
  rewrite map_lookup_filter_Some. naive_solver.
Qed.

(** a restart keeps the dense index.  After any sequence of calls, what
    [save_to] wrote is opened again, with the same embedding dimension, as
    an index with the same content, whose graph has one point per live
    cached embedding and returns from a search only chunks that were live
    when it was saved: compacted chunks do not come back. *)
Theorem dense_restart (threshold : nat) (cfg cfg' : HnswConfig) (calls : list DenseCall)
    (x : HnswIndex G) (d : Dir) (ro : bool) :
  dense_run threshold cfg calls = Some x → cache_fits (hi_cache x) →
  hc_dimension cfg' = hc_dimension cfg →
  ∃ (x' : HnswIndex G) d',
    with_persistence_mode threshold cfg' ro (index_save_to x d) = Some (Ok (x', d')) ∧
    (∀ k, stored x' k = stored x k) ∧ index_len x' = index_len x ∧
    hnsw_get_nb_point (hi_hnsw x') = cache_len (hi_cache x') ∧
    ∀ mf hf q k rs, index_search mf hf q k x' = Ok rs →
      length rs ≤ k ∧ ∀ r, r ∈ rs → is_Some (stored x (sr_chunk_id r)) ∧ unit_score (sr_score r).
Proof.
  intros Hx Hfit Hdim. destruct (dense_run_represents threshold cfg calls) as (x0 & Hx0 & Hi & Hsy & Hcfg & _).
  rewrite Hx in Hx0. injection Hx0 as <-.
  set (d1 := if ro then index_save_to x d else purge_orphan_dumps (index_save_to x d)).
  assert (Hd1 : ∀ n, n ∈ [graph_file; data_file] ++ source_names → d1 !! n = index_save_to x d !! n).
  { intros n Hn. unfold d1. destruct ro; [done|]. apply purge_orphan_lookup. cbn in Hn.
    repeat (apply elem_of_cons in Hn as [->|Hn]; [by vm_compute|]). by apply not_elem_of_nil in Hn. }
  destruct (load_saved threshold x d d1 cfg' ro Hi Hsy Hfit) as (g & Hl & Hnb & Hp); [congruence|done|].
  unfold with_persistence_mode. fold d1. rewrite bool_decide_true.
  2: { left. rewrite Hd1, index_save_mapping by set_solver. done. }
  rewrite Hl. cbn [mbind option_bind]. eexists _, _. split; [done|].
  split_and!; [done..|]. intros mf hf q k rs Hs.
  eapply index_search_spec in Hs as [Hlen Hall].
  - split; [done|]. rewrite Forall_forall in Hall. exact Hall.
  - destruct Hi as [Hm Hc Hd Hn Hpts]. constructor; cbn; [done|done|congruence|done|].
    intros e id [Hin|Hin]%Hp; eauto.
Qed.

(** The operations after the second directory sync leave the two files. *)
Lemma tail_untouched (x : HnswIndex G) σ d n :
  (∀ o, o ∈ σ → o ∈ drop 4 (index_save_ops x)) →
  n = "embeddings.bin" ∨ n = "mapping.bin" → foldl apply_dirop d σ !! n = d !! n.
Proof.
  intros Hσ Hn. revert d. induction σ as [|o σ IH]; intros d; [done|]. cbn [foldl].
  rewrite IH by (intros; apply Hσ; by right). assert (Ho := Hσ o (list_elem_of_here _ _)). cbn in Ho.
  repeat (apply elem_of_cons in Ho as [->|Ho]); cbn [apply_dirop].
  - by rewrite lookup_delete_ne by (destruct Hn; by subst).
  - by rewrite lookup_insert_ne by (destruct Hn; by subst).
  - apply purge_source. destruct Hn as [->| ->]; [by left|by right; left].
  - by apply not_elem_of_nil in Ho.
Qed.

(** Which of the two source files a crash has replaced. *)
Lemma crash_cases (x : HnswIndex G) d d' :
  dir_crash (index_save_ops x) d d' →
  same_source d d' ∨
  d' !! "embeddings.bin" = Some (cache_bytes (hi_cache x)) ∧
    (d' !! "mapping.bin" = d !! "mapping.bin" ∧ d' !! "mapping.json" = d !! "mapping.json" ∨
     d' !! "mapping.bin" = Some (bincode_encode (hi_mapping x))).
Proof.
  intros (a & b & b' & rest & Hops & Hns & Hsub & Hsame).
  unfold index_save_ops in Hops.
  assert (He := Hsame "embeddings.bin" ltac:(set_solver)).
  assert (Hm := Hsame "mapping.bin" ltac:(set_solver)).
  assert (Hj := Hsame "mapping.json" ltac:(set_solver)).
  destruct a as [|o1 [|o2 [|o3 [|o4 a]]]]; cbn in Hops.
  - destruct b as [|o1 [|o2 b]]; cbn in Hops.
    + apply sublist_nil_r in Hsub as ->. by left.
    + injection Hops as <- _.
      apply sublist_cons_r in Hsub as [Hsub|(l & -> & Hsub)]; apply sublist_nil_r in Hsub as ->;
        [by left|right]. cbn in *. rewrite He, Hm, Hj. by simplify_map_eq; auto.
    + injection Hops as _ <- _. destruct Hns. by right; left.
  - injection Hops as <- Hops. destruct b as [|o2 b]; [|injection Hops as <- _; destruct Hns; by left].
    apply sublist_nil_r in Hsub as ->. right. cbn in *. rewrite He, Hm, Hj. by simplify_map_eq; auto.
  - right. injection Hops as <- <- Hops. destruct b as [|o3 [|o4 b]].
    + apply sublist_nil_r in Hsub as ->. cbn in *. rewrite He, Hm, Hj. by simplify_map_eq; auto.
    + injection Hops as <- _.
      apply sublist_cons_r in Hsub as [Hsub|(l & -> & Hsub)]; apply sublist_nil_r in Hsub as ->;
        cbn in *; rewrite He, Hm, Hj; by simplify_map_eq; auto.
    + injection Hops as _ <- _. destruct Hns. by right; left.
  - right. injection Hops as <- <- <- Hops.
    destruct b as [|o4 b]; [|injection Hops as <- _; destruct Hns; by left].
    apply sublist_nil_r in Hsub as ->. cbn in *. rewrite He, Hm. by simplify_map_eq; auto.
  - right. injection Hops as <- <- <- <- Hops.
    assert (Ht : ∀ o, o ∈ a ++ b' → o ∈ drop 4 (index_save_ops x)).
    { intros o. cbn. rewrite Hops, !elem_of_app. intros [?|Ho]; [by left|right; left].
      eapply elem_of_submseteq; [exact Ho|]. by apply sublist_submseteq. }
    cbn [app foldl apply_dirop] in He, Hm.
    rewrite (tail_untouched x) in He, Hm by auto. rewrite He, Hm. by simplify_map_eq; auto.
Qed.
Lemma load_mapping_source d d' : same_source d d' → load_mapping d' = load_mapping d.
Proof. intros Hs. unfold load_mapping. by rewrite !Hs by set_solver. Qed.

Lemma load_cache_source cfg ro next d d' c e :
  d' !! "embeddings.bin" = d !! "embeddings.bin" →
  load_cache cfg ro next d = Ok (c, e) → ∃ e', load_cache cfg ro next d' = Ok (c, e').
Proof.
  intros Hs. unfold load_cache. rewrite Hs. destruct (d !! "embeddings.bin") as [bs|].
  - destruct (cache_load bs) as [c1|].
    + repeat case_match; naive_solver.
    + naive_solver.
  - naive_solver.
Qed.

(** a crash at any point of [save_to] leaves a directory that still
    opens, and what is opened is the index saved before, the new one, or,
    between the two renames, the old mapping with the new cache when both
    count the same ids and with an empty cache when they do not.  The last
    case is the price of saving the two files separately. *)
Theorem dense_save_crash (cfg : HnswConfig) (x : HnswIndex G) (d d' : Dir)
    (m0 : IndexMapping) (c0 : EmbeddingCache) :
  load_mapping d = Ok m0 → load_cache cfg false (im_next_id m0) d = Ok (c0, d) →
  index_inv x → index_synced x → cache_fits (hi_cache x) →
  hc_dimension cfg = hc_dimension (hi_config x) →
  dir_crash (index_save_ops x) d d' →
  ∃ m c d'', load_mapping d' = Ok m ∧ load_cache cfg false (im_next_id m) d' = Ok (c, d'') ∧
    (m = m0 ∧ c = c0 ∨ m = hi_mapping x ∧ c = hi_cache x ∨
     m = m0 ∧ c = if decide (im_next_id m0 = im_next_id (hi_mapping x))
                  then hi_cache x else cache_new (hc_dimension cfg)).
Proof.
  intros Hm0 Hc0 [Hm Hc Hdim Hn Hp] Hsy Hfit Hcfg Hcrash. unfold index_synced in Hsy.
  destruct (crash_cases x d d' Hcrash) as [Hs|[He [[Hmb Hmj]|Hmb]]].
  - destruct (load_cache_source cfg false (im_next_id m0) d d' c0 d) as [e He]; [apply Hs; set_solver|done|].
    exists m0, c0, e. rewrite (load_mapping_source d d') by done. auto.
  - assert (Hm' : load_mapping d' = Ok m0) by (unfold load_mapping; by rewrite Hmb, Hmj).
    destruct (decide (im_next_id m0 = im_next_id (hi_mapping x))) as [Heq|Hne].
    + exists m0, (hi_cache x), d'. split_and!; [done| |by auto].
      apply load_cache_accepts; congruence.
    + eexists m0, _, _. split_and!; [done|apply (load_cache_drops _ _ _ (hi_cache x)); congruence|by auto].
  - eexists (hi_mapping x), (hi_cache x), d'. split_and!; [|apply load_cache_accepts; congruence|by auto].
    unfold load_mapping. by rewrite Hmb, bincode_roundtrip.
Qed.

(** an index whose cache does not cover the last id of the mapping
    loses every embedding at the next start.  Such an index arises when a
    lost cache is filled again from the live chunks and the chunk with the
    highest id is not among them: [validate_consistency] compares the
    number of slots with the mapping's counter, refuses the saved cache and
    deletes the file. *)
Theorem dense_partial_cache_dropped (threshold : nat) (cfg : HnswConfig) (x : HnswIndex G) (d : Dir) :
  index_inv x → cache_fits (hi_cache x) → hc_dimension cfg = hc_dimension (hi_config x) →
  cache_next_id (hi_cache x) ≠ im_next_id (hi_mapping x) →
  ∃ (x' : HnswIndex G) d',
    load_with_mode threshold cfg false (index_save_to x d) = Some (Ok (x', d')) ∧
    hi_mapping x' = hi_mapping x ∧ (∀ k, stored x' k = None) ∧ d' !! "embeddings.bin" = None.
Proof.
  intros [Hm Hc Hdim Hn Hp] Hfit Hcfg Hne. unfold load_with_mode, load_mapping.
  rewrite index_save_mapping, bincode_roundtrip. cbn [ok_or].
  rewrite (load_cache_drops cfg _ _ (hi_cache x)) by (apply index_save_embeddings || congruence || done).
  cbn [cache_len cache_new ec_count]. unfold load_dumped_graph. rewrite bool_decide_true by done.
  eexists _, _. split_and!.
  - by destruct (hc_persist_graph_dump cfg).
  - done.
  - intros k. unfold stored. cbn. by destruct (get_internal_id k (hi_mapping x)).
  - by rewrite lookup_delete_eq.
Qed.

End restart.

(* ------------------------------------------------------------------ *)
(** ** A graph that satisfies the laws, and runs *)

(** The list of points; a search returns the first [k] at distance 0. *)
Definition ListGraph : Type := list (list Z * nat).

#[export] Instance list_graph : Hnsw ListGraph := {
  hnsw_new _ _ _ _ := [];
  hnsw_insert_slice p g := p :: g;
  hnsw_parallel_insert_slice ps g := ps ++ g;
  hnsw_search _ k _ g := take k (map (λ p, mkNeighbour p.2 f32_zero) g);
  hnsw_get_nb_point := length;
  hnsw_file_dump g d := <[graph_file := to_bytes (g : list (list Z * nat))]> (<[data_file := []]> d);
  hnsw_load bg _ := match of_bytes (A := list (list Z * nat)) bg with
                    | Some g => DumpLoaded g | None => DumpError end;
  hnsw_points g := g;
}.

#[export] Instance list_graph_laws : HnswLaws ListGraph.
Proof.
  split; cbn; try done.
  - intros q k _ g. rewrite length_take. lia.
  - intros q k _ g n Hn%elem_of_take. destruct Hn as (i & Hi & _).
    apply list_elem_of_lookup_2, list_elem_of_fmap in Hi as ([e id] & -> & Hin). by exists e.
  - intros g d _ _. eexists _, _. split; [done|]. exists g. by rewrite of_to_bytes.
Qed.

#[export] Instance IndexMapping_countable_dec : EqDecision IndexMapping.
Proof. solve_decision. Defined.
#[export] Instance IndexMapping_countable : Countable IndexMapping.
Proof.
  apply (inj_countable' (λ m, (im_id_to_chunk m, im_chunk_to_id m, im_next_id m, im_version m))
    (λ '(a, b, c, d), mkMapping a b c d)). by intros [].
Defined.
#[export] Instance bincode_mapping : Bincode IndexMapping :=
  { bincode_encode := to_bytes; bincode_decode := of_bytes }.
#[export] Instance bincode_mapping_laws : BincodeLaws IndexMapping.
Proof. split. intros r. apply of_to_bytes. Qed.
#[export] Instance json_mapping : Json IndexMapping :=
  { json_to_vec := to_bytes; json_from_slice := of_bytes }.
(** Only the writer of the configuration file is used. *)
#[export] Instance json_hnsw_config : Json HnswConfig :=
  { json_to_vec c := to_bytes (hc_dimension c); json_from_slice _ := None }.

Definition ex_cfg : HnswConfig := mkHnswConfig 16 200 50 1000 2 true None false.
Definition ex_calls : list DenseCall :=
  [DenseInsert (mkChunkId 1) [1; 2]%Z;
   DenseInsertBatch [(mkChunkId 2, [3; 4]%Z); (mkChunkId 3, [5; 6]%Z)];
   DenseCompact [mkChunkId 2]].

Definition ex_index : HnswIndex ListGraph :=
  default (index_new ex_cfg) (dense_run 64 ex_cfg ex_calls).

Lemma ex_index_run : dense_run 64 ex_cfg ex_calls = Some ex_index.
Proof.
  destruct (dense_run_represents (G := ListGraph) 64 ex_cfg ex_calls) as (x & Hx & _).
  unfold ex_index. by rewrite Hx.
Qed.

Lemma ex_index_fits : cache_fits (hi_cache ex_index).
Proof.
  constructor; [by vm_compute..|].
  assert (ec_embeddings (hi_cache ex_index) = [1; 2; 3; 4; 5; 6]%Z) as -> by (by vm_compute).
  by repeat (apply Forall_cons; split; [by split|]).
Qed.

Lemma dense_index_refines_map_witness :
  ∃ x : HnswIndex ListGraph, dense_run 64 ex_cfg ex_calls = Some x ∧
    stored x (mkChunkId 3) = Some [5; 6]%Z ∧ stored x (mkChunkId 2) = None ∧
    ∀ rs, index_search true true [1; 2]%Z 5 x = Ok rs → length rs ≤ 5.
Proof.
  destruct (dense_index_refines_map (G := ListGraph) 64 ex_cfg ex_calls) as (x & Hx & Hst & Hs).
  exists x. rewrite !Hst. split; [exact Hx|]. split; [vm_compute; reflexivity|].
  split; [vm_compute; reflexivity|]. intros rs Hrs. by apply Hs in Hrs as [Hl _].
Defined.

Lemma dense_restart_witness :
  ∃ (x' : HnswIndex ListGraph) d',
    with_persistence_mode 64 ex_cfg false (index_save_to ex_index ∅) = Some (Ok (x', d')) ∧
    stored x' (mkChunkId 3) = Some [5; 6]%Z ∧ stored x' (mkChunkId 2) = None.
Proof.
  destruct (dense_restart 64 ex_cfg ex_cfg ex_calls ex_index ∅ false ex_index_run ex_index_fits eq_refl)
    as (x' & d' & Hl & Hst & _).
  exists x', d'. split; [exact Hl|]. rewrite !Hst. split; vm_compute; reflexivity.
Defined.

Lemma ex_index_inv : index_inv ex_index ∧ index_synced ex_index.
Proof.
  destruct (dense_run_represents (G := ListGraph) 64 ex_cfg ex_calls) as (x & Hx & Hi & Hs & _).
  rewrite ex_index_run in Hx. by injection Hx as <-.
Qed.

(** The directory of an earlier save, when the index was empty. *)
Definition ex_old_dir : Dir := index_save_to (index_new (G := ListGraph) ex_cfg) ∅.

Lemma dense_save_crash_witness :
  ∃ m c d'', load_mapping (<["embeddings.bin" := cache_bytes (hi_cache ex_index)]> ex_old_dir) = Ok m ∧
    load_cache ex_cfg false (im_next_id m)
      (<["embeddings.bin" := cache_bytes (hi_cache ex_index)]> ex_old_dir) = Ok (c, d'') ∧
    (m = mapping_new ∧ c = cache_new 2 ∨ m = hi_mapping ex_index ∧ c = hi_cache ex_index ∨
     m = mapping_new ∧ c = cache_new 2).
Proof.
  apply (dense_save_crash ex_cfg ex_index ex_old_dir
    (<["embeddings.bin" := cache_bytes (hi_cache ex_index)]> ex_old_dir) mapping_new (cache_new 2)).
  - unfold load_mapping, ex_old_dir. rewrite index_save_mapping, bincode_roundtrip. reflexivity.
  - apply load_cache_accepts; [apply index_save_embeddings|by constructor| |done|done].
    constructor; [done..|constructor].
  - apply ex_index_inv.
  - apply ex_index_inv.
  - exact ex_index_fits.
  - done.
  - exists [], [DPut "embeddings.bin" (cache_bytes (hi_cache ex_index))],
      [DPut "embeddings.bin" (cache_bytes (hi_cache ex_index))], (drop 1 (index_save_ops ex_index)).
    split_and!; [done| |done|by intros n].
    intros [?|?%not_elem_of_nil]%elem_of_cons; done.
Defined.

(** An index that lost its cache and got chunk 1 back, while chunk 3, which
    has the highest id, is gone from the store. *)
Definition ex_refilled : HnswIndex ListGraph :=
  (index_insert (mkChunkId 1) [1; 2]%Z
     (mkIndex [] (hi_mapping ex_index) (cache_new 2) ex_cfg true)).2.

Lemma ex_refilled_inv : index_inv ex_refilled.
Proof.
  pose proof (index_insert_spec (mkChunkId 1) [1; 2]%Z
    (mkIndex ([] : ListGraph) (hi_mapping ex_index) (cache_new 2) ex_cfg true)) as Hs.
  unfold ex_refilled. destruct (index_insert _ _ _) as [r x']. apply Hs.
  constructor; cbn [hi_mapping hi_cache hi_config hi_hnsw].
  - apply ex_index_inv.
  - by constructor.
  - done.
  - unfold cache_next_id. cbn. lia.
  - intros e id Hin. by apply not_elem_of_nil in Hin.
Qed.

Lemma dense_partial_cache_dropped_witness :
  stored ex_refilled (mkChunkId 1) = Some [1; 2]%Z ∧
  ∃ (x' : HnswIndex ListGraph) d',
    load_with_mode 64 ex_cfg false (index_save_to ex_refilled ∅) = Some (Ok (x', d')) ∧
    stored x' (mkChunkId 1) = None ∧ d' !! "embeddings.bin" = None.
Proof.
  split; [by vm_compute|].
  destruct (dense_partial_cache_dropped 64 ex_cfg ex_refilled ∅) as (x' & d' & Hl & _ & Hst & He).
  - exact ex_refilled_inv.
  - constructor; [by vm_compute..|].
    assert (ec_embeddings (hi_cache ex_refilled) = [1; 2]%Z) as -> by (by vm_compute).
    by repeat (apply Forall_cons; split; [by split|]).
  - by vm_compute.
  - by vm_compute.
  - exists x', d'. split; [exact Hl|]. split; [apply Hst|exact He].
Defined.
