(* ===== verification/DenseSearcher.v ===== *)
(** * The dense searcher (src/crates/memd/src/store/dense.rs)

    One [HnswIndex] per tenant, opened on first use from the tenant's
    [warm_index] directory, and the embedder that turns texts into vectors.
    The state is the map of opened indices together with the directories on
    disk.  The outer [option] is a panic of the embedding cache, which the
    theorems exclude. *)

From S2P Require Import Prelude Crates Types Files Ranking EmbeddingCache DenseIndex DenseFacts Concrete DenseProps.

Open Scope nat_scope.

(** The [Embedder] trait: the vectors of documents and of a query. *)
Class Embedder : Type := {
  embed_texts : list string → memd_result (list (list Z));
  embed_query : string → memd_result (list Z);
}.

(** [DenseSearchConfig] without the model choice, and [read_only] and
    [base_path.is_some()] of the searcher. *)
Record SearcherConfig : Type := mkSearcherConfig {
  sc_hnsw : HnswConfig;
  sc_persist : bool;
  sc_base_path : bool;
  sc_read_only : bool;
}.

Record DenseSearcher (G : Type) : Type := mkSearcher {
  ds_indices : gmap string (HnswIndex G);
  (** [<base_path>/tenants/<tenant>/warm_index] *)
  ds_disk : gmap string Dir;
  ds_config : SearcherConfig;
}.
Arguments mkSearcher {_} _ _ _.
Arguments ds_indices {_} _.
Arguments ds_disk {_} _.
Arguments ds_config {_} _.

(** An operation on the searcher: result and state, or a panic. *)
Definition DenseM (G A : Type) : Type := DenseSearcher G → option (memd_result A * DenseSearcher G).

Definition d_ret {G A} (r : memd_result A) : DenseM G A := λ s, Some (r, s).
Definition d_bind {G A B} (m : DenseM G A) (k : A → DenseM G B) : DenseM G B :=
  λ s, '(r, s) ← m s; match r with Ok a => k a s | Err e => Some (Err e, s) end.

Section searcher.
Context `{U : Uuid ChunkId} {G : Type} `{HG : Hnsw G} `{EM : Embedder}.
Context `{BO : ByteOrder} `{CRC : Crc32} `{BM : Bincode IndexMapping} `{JM : Json IndexMapping}
  `{JC : Json HnswConfig} (threshold : nat).

(** The tenant's directory; a missing one is read as empty. *)
Definition tenant_dir (t : string) (s : DenseSearcher G) : Dir := default ∅ (ds_disk s !! t).

(** [get_or_create_index] *)
Definition get_or_create_index (t : string) : DenseM G (HnswIndex G) := λ s,
  match ds_indices s !! t with
  | Some index => Some (Ok index, s)
  | None =>
      let cfg := ds_config s in
      if sc_persist cfg && sc_base_path cfg then
        r ← with_persistence_mode threshold (sc_hnsw cfg) (sc_read_only cfg) (tenant_dir t s);
        match r with
        | Err e => Some (Err e, s)
        | Ok (index, d) =>
            Some (Ok index, mkSearcher (<[t := index]> (ds_indices s)) (<[t := d]> (ds_disk s)) cfg)
        end
      else
        let index := index_new (sc_hnsw cfg) in
        Some (Ok index, mkSearcher (<[t := index]> (ds_indices s)) (ds_disk s) cfg)
  end.

(** A change of the tenant's index, which is behind an [Arc]. *)
Definition update_index {A} (t : string) (f : HnswIndex G → memd_result A * HnswIndex G)
    (index : HnswIndex G) : DenseM G A := λ s,
  let '(r, index) := f index in
  Some (r, mkSearcher (<[t := index]> (ds_indices s)) (ds_disk s) (ds_config s)).

(** [index_chunk] *)
Definition index_chunk (t : string) (chunk_id : ChunkId) (text : string) : DenseM G unit := λ s,
  if sc_read_only (ds_config s) then Some (Err (ReadOnlyStore "dense_index_chunk"), s)
  else
    match embed_texts [text] with
    | Err e => Some (Err e, s)
    | Ok [] => Some (Err (EmbeddingError "embed_texts returned no embedding"), s)
    | Ok (embedding :: _) =>
        d_bind (get_or_create_index t)
          (update_index t (index_insert chunk_id embedding)) s
    end.

(** [index_batch] *)
Definition index_batch (t : string) (chunks : list (ChunkId * string)) : DenseM G unit := λ s,
  if sc_read_only (ds_config s) then Some (Err (ReadOnlyStore "dense_index_batch"), s)
  else if bool_decide (chunks = []) then Some (Ok tt, s)
  else
    match embed_texts (map snd chunks) with
    | Err e => Some (Err e, s)
    | Ok embeddings =>
        let items := zip (map fst chunks) embeddings in
        d_bind (get_or_create_index t) (update_index t (index_insert_batch threshold items)) s
    end.

(** [search_with_embedding] *)
Definition search_with_embedding (mapping_free hnsw_free : bool) (t : string) (query : list Z) (k : nat)
    : DenseM G (list SearchResult) :=
  d_bind (get_or_create_index t) (λ index, d_ret (index_search mapping_free hnsw_free query k index)).

(** [search] ([search_with_timing] without the timings) *)
Definition dense_search (mapping_free hnsw_free : bool) (t : string) (query : string) (k : nat)
    : DenseM G (list SearchResult) := λ s,
  match embed_query query with
  | Err e => Some (Err e, s)
  | Ok q => search_with_embedding mapping_free hnsw_free t q k s
  end.

(** [index_len] *)
Definition searcher_index_len (t : string) (s : DenseSearcher G) : nat :=
  default 0 (index_len <$> ds_indices s !! t).

(** [contains_chunk] *)
Definition contains_chunk (t : string) (c : ChunkId) (s : DenseSearcher G) : bool :=
  match ds_indices s !! t with
  | Some index => bool_decide (is_Some (get_internal_id c (hi_mapping index)))
  | None => false
  end.

(** [mapping.get_internal_id(c).and_then(|id| cache.get(id)).is_some()];
    [None] is the panic of [get]. *)
Definition has_embedding (index : HnswIndex G) (c : ChunkId) : option bool :=
  match get_internal_id c (hi_mapping index) with
  | Some id => e ← cache_get id (hi_cache index); Some (bool_decide (is_Some e))
  | None => Some false
  end.

(** [has_valid_embeddings_for_chunks]: [any] stops at the first hit. *)
Fixpoint any_embedding (index : HnswIndex G) (cs : list ChunkId) : option bool :=
  match cs with
  | [] => Some false
  | c :: cs => b ← has_embedding index c; if (b : bool) then Some true else any_embedding index cs
  end.
Definition has_valid_embeddings_for_chunks (t : string) (cs : list ChunkId) (s : DenseSearcher G)
    : option bool :=
  match ds_indices s !! t with
  | Some index => any_embedding index cs
  | None => Some false
  end.

(** [chunks_missing_embeddings] *)
Fixpoint missing_loop (index : HnswIndex G) (cs : list ChunkId) : option (list ChunkId) :=
  match cs with
  | [] => Some []
  | c :: cs =>
      b ← has_embedding index c;
      rest ← missing_loop index cs;
      Some (if (b : bool) then rest else c :: rest)
  end.
Definition chunks_missing_embeddings (t : string) (cs : list ChunkId) (s : DenseSearcher G)
    : option (list ChunkId) :=
  match ds_indices s !! t with
  | Some index => missing_loop index cs
  | None => Some cs
  end.

(** [rebuild_hnsw_for_tenant] *)
Definition rebuild_hnsw_for_tenant (t : string) (deleted : list ChunkId) : DenseM G RebuildResult := λ s,
  match ds_indices s !! t with
  | None => Some (Err (StorageError "no index for tenant: {}"), s)
  | Some index =>
      '(result, index) ← index_compact deleted index;
      Some (Ok result, mkSearcher (<[t := index]> (ds_indices s)) (ds_disk s) (ds_config s))
  end.

(** [save_all]: failures are logged and skipped; the indices are a
    [HashMap], and each save touches its own tenant's directory only. *)
Definition save_all (s : DenseSearcher G) : DenseSearcher G :=
  if sc_read_only (ds_config s) then s
  else
    mkSearcher (ds_indices s)
      (map_fold (λ t index disk,
         match index_save index (default ∅ (disk !! t)) with
         | Ok d => <[t := d]> disk
         | Err _ => disk
         end) (ds_disk s) (ds_indices s))
      (ds_config s).

End searcher.

(* ------------------------------------------------------------------ *)
(** ** Facts *)

Section searcher_facts.
Context `{U : Uuid ChunkId} `{UL : !UuidLaws ChunkId} {G : Type} `{HG : Hnsw G} `{HGL : !HnswLaws G}.
Context `{EM : Embedder}.
Context `{BO : ByteOrder} `{CRC : Crc32} `{BM : Bincode IndexMapping} `{JM : Json IndexMapping}
  `{JC : Json HnswConfig} (threshold : nat).
Implicit Types (s : DenseSearcher G) (x : HnswIndex G).

(** What an operation for tenant [t] may touch: that tenant's index, and its
    directory unless the searcher is read-only. *)
Definition only_tenant (t : string) (s s' : DenseSearcher G) : Prop :=
  ds_config s' = ds_config s ∧
  (∀ t', t' ≠ t → ds_indices s' !! t' = ds_indices s !! t' ∧ ds_disk s' !! t' = ds_disk s !! t') ∧
  (sc_read_only (ds_config s) = true → tenant_dir t s' = tenant_dir t s).

Lemma only_tenant_refl t s : only_tenant t s s.
Proof. by split_and!. Qed.

Lemma only_tenant_trans t s1 s2 s3 :
  only_tenant t s1 s2 → only_tenant t s2 s3 → only_tenant t s1 s3.
Proof.
  intros (Hc1 & Ho1 & Hr1) (Hc2 & Ho2 & Hr2). split_and!; [congruence| |].
  - intros t' Hne. destruct (Ho1 t' Hne), (Ho2 t' Hne). split; congruence.
  - intros Hr. rewrite Hr2, Hr1 by congruence. done.
Qed.

Lemma load_cache_read_only cfg next d c d' : load_cache cfg true next d = Ok (c, d') → d' = d.
Proof.
  unfold load_cache. destruct (d !! "embeddings.bin") as [bs|]; [|by intros [= _ ->]].
  destruct (cache_load bs) as [c1|]; [|by intros [= _ ->]].
  repeat case_match; try done; try (by intros [= _ ->]). by rewrite andb_false_r in *.
Qed.

Lemma with_persistence_read_only cfg d x d' :
  with_persistence_mode threshold cfg true d = Some (Ok (x, d')) → d' = d.
Proof.
  unfold with_persistence_mode. case_bool_decide; [|by intros [= _ ->]].
  intros (r & Hr & Hm)%bind_Some. destruct r as [[x1 d1]|e].
  - simplify_eq. unfold load_with_mode in Hr. destruct (load_mapping d) as [m|]; [|done].
    destruct (load_cache cfg true (im_next_id m) d) as [[c d2]|] eqn:E; [|done].
    apply load_cache_read_only in E. apply bind_Some in Hr as (g & _ & [= _ <-]). done.
  - destruct e; by simplify_eq.
Qed.

Lemma get_or_create_only t s r s' :
  get_or_create_index threshold t s = Some (r, s') →
  only_tenant t s s' ∧ (∀ x, r = Ok x → ds_indices s' !! t = Some x).
Proof.
  unfold get_or_create_index. destruct (ds_indices s !! t) as [x|] eqn:E.
  { intros [= <- <-]. split; [apply only_tenant_refl|]. intros ? [= <-]. done. }
  destruct (sc_persist _ && sc_base_path _).
  - intros (r0 & Hr & Hm)%bind_Some. destruct r0 as [[x d]|e]; simplify_eq.
    + split; [|by intros ? [= <-]; cbn; rewrite lookup_insert_eq]. split_and!; [done| |].
      * intros t' Hne. cbn. by rewrite !lookup_insert_ne.
      * intros Hro. rewrite Hro in Hr. apply with_persistence_read_only in Hr as ->.
        unfold tenant_dir. cbn. by rewrite lookup_insert_eq.
    + split; [apply only_tenant_refl|done].
  - intros [= <- <-]. split; [|by intros ? [= <-]; cbn; rewrite lookup_insert_eq].
    split_and!; [done| |done]. intros t' Hne. cbn. by rewrite lookup_insert_ne.
Qed.

Lemma update_index_only {A} t (f : HnswIndex G → memd_result A * HnswIndex G) x s r s' :
  update_index t f x s = Some (r, s') → only_tenant t s s'.
Proof.
  unfold update_index. destruct (f x) as [r0 x0]. intros [= <- <-].
  split_and!; [done| |done]. intros t' Hne. cbn. by rewrite lookup_insert_ne.
Qed.

Lemma d_bind_only {A B} t (m : DenseM G A) (k : A → DenseM G B) s r s' :
  (∀ s r s', m s = Some (r, s') → only_tenant t s s') →
  (∀ a s r s', k a s = Some (r, s') → only_tenant t s s') →
  d_bind m k s = Some (r, s') → only_tenant t s s'.
Proof.
  intros Hm Hk. unfold d_bind. intros ([r1 s1] & H1 & H2)%bind_Some.
  eapply only_tenant_trans; [by eapply Hm|]. destruct r1; [by eapply Hk|].
  simplify_eq. apply only_tenant_refl.
Qed.

Lemma has_embedding_stored x c :
  index_inv x → has_embedding x c = Some (bool_decide (is_Some (stored x c))).
Proof.
  intros [Hm Hc _ _ _]. unfold has_embedding, stored.
  destruct (get_internal_id c (hi_mapping x)) as [i|]; [|done]. cbn.
  rewrite cache_get_inv by done. done.
Qed.

Lemma missing_loop_stored x cs :
  index_inv x → missing_loop x cs = Some (filter (λ c, stored x c = None) cs).
Proof.
  intros Hx. induction cs as [|c cs IH]; [done|]. cbn [missing_loop].
  rewrite has_embedding_stored by done. cbn [mbind option_bind]. rewrite IH. cbn.
  destruct (stored x c) as [e|] eqn:E.
  - rewrite bool_decide_true by done. rewrite decide_False by congruence. done.
  - rewrite bool_decide_false by (by intros []). rewrite decide_True by done. done.
Qed.

Lemma batch_stored_some d items f c :
  Forall (λ it, length it.2 = d) items → c ∈ items.*1 ∨ is_Some (f c) →
  is_Some (batch_stored d items f c).
Proof.
  intros Hall. revert f. induction Hall as [|[c0 e] items Hl Hall IH]; intros f Hc; cbn in *.
  - destruct Hc as [Hc|?]; [by apply not_elem_of_nil in Hc|done].
  - rewrite decide_True by done. apply IH. destruct Hc as [[->|Hc]%elem_of_cons|Hc].
    + right. by rewrite decide_True.
    + by left.
    + right. case_decide; done.
Qed.

(** an operation for one tenant leaves the index and the directory of
    every other tenant as they were, and on a read-only searcher it leaves
    every directory as it was and refuses to index. *)
Theorem dense_tenant_isolation (t : string) (s s' : DenseSearcher G) r1 r2 r3 r4 mf hf c text chunks q k del :
  (index_chunk threshold t c text s = Some (r1, s') ∨
   index_batch threshold t chunks s = Some (r2, s') ∨
   dense_search threshold mf hf t q k s = Some (r3, s') ∨
   rebuild_hnsw_for_tenant t del s = Some (r4, s')) →
  (∀ t', t' ≠ t → ds_indices s' !! t' = ds_indices s !! t' ∧ ds_disk s' !! t' = ds_disk s !! t') ∧
  (sc_read_only (ds_config s) = true →
     tenant_dir t s' = tenant_dir t s ∧
     index_chunk threshold t c text s = Some (Err (ReadOnlyStore "dense_index_chunk"), s) ∧
     index_batch threshold t chunks s = Some (Err (ReadOnlyStore "dense_index_batch"), s)).
Proof.
  intros Hop. assert (Ho : only_tenant t s s').
  { destruct Hop as [Hop|[Hop|[Hop|Hop]]].
    - unfold index_chunk in Hop. destruct (sc_read_only _); [by simplify_eq; apply only_tenant_refl|].
      destruct (embed_texts [text]) as [[|e es]|]; [by simplify_eq; apply only_tenant_refl| |
        by simplify_eq; apply only_tenant_refl].
      eapply d_bind_only; [| |exact Hop]; intros *; [apply get_or_create_only|apply update_index_only].
    - unfold index_batch in Hop. destruct (sc_read_only _); [by simplify_eq; apply only_tenant_refl|].
      case_bool_decide; [by simplify_eq; apply only_tenant_refl|].
      destruct (embed_texts _) as [es|]; [|by simplify_eq; apply only_tenant_refl].
      eapply d_bind_only; [| |exact Hop]; intros *; [apply get_or_create_only|apply update_index_only].
    - unfold dense_search in Hop. destruct (embed_query q) as [v|]; [|by simplify_eq; apply only_tenant_refl].
      eapply d_bind_only; [| |exact Hop]; intros *; [apply get_or_create_only|].
      intros [= _ <-]. apply only_tenant_refl.
    - unfold rebuild_hnsw_for_tenant in Hop.
      destruct (ds_indices s !! t) as [x|]; [|by simplify_eq; apply only_tenant_refl].
      apply bind_Some in Hop as ([res x'] & _ & [= _ <-]). split_and!; [done| |done].
      intros t' Hne. cbn. by rewrite lookup_insert_ne. }
  destruct Ho as (_ & Ho & Hr). split; [exact Ho|]. intros Hro. split; [by apply Hr|].
  unfold index_chunk, index_batch. by rewrite Hro.
Qed.

(** the repair of a dense index completes: the chunks without a live
    embedding are found, and once they are embedded and indexed, with one
    vector of the index's dimension per text as the embedder promises, none
    is missing any more. *)
Theorem dense_backfill_completes (t : string) (text : ChunkId → string) (cs : list ChunkId)
    (s : DenseSearcher G) (x : HnswIndex G) :
  ds_indices s !! t = Some x → index_inv x → sc_read_only (ds_config s) = false →
  (∀ texts, ∃ es, embed_texts texts = Ok es ∧ length es = length texts ∧
     Forall (λ e, length e = hc_dimension (hi_config x)) es) →
  ∃ missing s', chunks_missing_embeddings t cs s = Some missing ∧
    index_batch threshold t (map (λ c, (c, text c)) missing) s = Some (Ok tt, s') ∧
    chunks_missing_embeddings t cs s' = Some [].
Proof.
  intros Ht Hx Hro Hem. unfold chunks_missing_embeddings at 1. rewrite Ht, missing_loop_stored by done.
  set (ms := filter _ cs). exists ms. unfold index_batch. rewrite Hro. case_bool_decide as He.
  { exists s. split_and!; [done..|]. unfold chunks_missing_embeddings. rewrite Ht, missing_loop_stored by done.
    f_equal. exact (map_eq_nil _ _ He). }
  destruct (Hem (map snd (map (λ c, (c, text c)) ms))) as (es & -> & Hlen & Hdim).
  rewrite !map_map in *. cbn [fst snd] in *. rewrite map_id. rewrite length_map in Hlen.
  unfold d_bind, get_or_create_index, update_index. rewrite Ht. cbn [mbind option_bind].
  pose proof (index_insert_batch_spec threshold (zip ms es) x Hx) as Hb.
  destruct (index_insert_batch threshold (zip ms es) x) as [r x'].
  destruct Hb as (Hx' & _ & _ & Hst & Hr).
  assert (Hall : Forall (λ it : ChunkId * list Z, length it.2 = hc_dimension (hi_config x)) (zip ms es)).
  { apply Forall_forall. intros [c e] Hin%elem_of_zip_r. rewrite Forall_forall in Hdim. by apply Hdim. }
  assert (r = Ok tt) as ->.
  { destruct Hr as [Hr|Hr]; [done|]. apply Exists_exists in Hr as (it & Hin & Hne).
    rewrite Forall_forall in Hall. by apply Hall in Hin. }
  eexists. split_and!; [done..|]. unfold chunks_missing_embeddings. cbn [ds_indices].
  rewrite lookup_insert_eq, missing_loop_stored by done. f_equal.
  destruct (filter (λ c, stored x' c = None) cs) as [|c rest] eqn:Ef; [done|exfalso].
  assert (Hc : c ∈ filter (λ c, stored x' c = None) cs) by (rewrite Ef; left).
  apply list_elem_of_filter in Hc as [Hn Hin]. rewrite Hst in Hn.
  assert (is_Some (batch_stored (hc_dimension (hi_config x)) (zip ms es) (stored x) c)) as [e' He'].
  { apply batch_stored_some; [done|]. rewrite fst_zip by lia.
    destruct (stored x c) as [e|] eqn:Es; [by right|left]. by apply list_elem_of_filter. }
  congruence.
Qed.

End searcher_facts.

(* ------------------------------------------------------------------ *)
(** ** Examples *)

(** An embedder that gives every text the same vector. *)
#[local] Instance constant_embedder : Embedder := {
  embed_texts l := Ok (map (λ _, [7; 8]%Z) l);
  embed_query _ := Ok [7; 8]%Z;
}.

(** Tenant "a" has an index whose chunk 2 was compacted away. *)
Definition ex_searcher : DenseSearcher ListGraph :=
  mkSearcher {["a" := ex_index]} ∅ (mkSearcherConfig ex_cfg true true false).

Lemma dense_backfill_completes_witness :
  ∃ missing s', chunks_missing_embeddings "a" [mkChunkId 1; mkChunkId 2] ex_searcher = Some missing ∧
    index_batch 64 "a" (map (λ c, (c, "text")) missing) ex_searcher = Some (Ok tt, s') ∧
    chunks_missing_embeddings "a" [mkChunkId 1; mkChunkId 2] s' = Some [].
Proof.
  apply (dense_backfill_completes 64 "a" (λ _, "text") [mkChunkId 1; mkChunkId 2] ex_searcher ex_index).
  - reflexivity.
  - apply ex_index_inv.
  - reflexivity.
  - intros texts. exists (map (λ _, [7; 8]%Z) texts). split; [done|]. split; [apply length_map|].
    apply Forall_forall. intros e (? & -> & _)%list_elem_of_fmap. reflexivity.
Defined.

Lemma dense_tenant_isolation_witness :
  ∃ s', rebuild_hnsw_for_tenant "a" [mkChunkId 1] ex_searcher = Some (Ok (mkRebuild 2 1 1), s') ∧
    ds_indices s' !! "b" = None.
Proof.
  eexists. split; [vm_compute; reflexivity|].
  eapply (dense_tenant_isolation 64 "a" ex_searcher _ (Ok tt) (Ok tt) (Ok []) (Ok (mkRebuild 2 1 1))
    true true (mkChunkId 1) "" [] "" 0 [mkChunkId 1]); [|done].
  do 3 right. vm_compute. reflexivity.
Defined.
