(* ===== verification/SemanticCache.v ===== *)
(** * The semantic query cache
    (src/crates/memd/src/tiered/semantic_cache.rs)

    Query embeddings with the results of their search.  The entries are in a
    moka cache, which may drop any of them at any time (capacity, TTL):
    [Evict] is that step.  The similarity index is a vector beside it, so an
    index entry may have lost its record.  Embeddings are bit patterns; the
    similarity is computed on the single-precision numbers they stand for. *)

From S2P Require Import Prelude Crates Types Ranking EmbeddingCache.
From Stdlib Require Import Init.Byte Floats.SpecFloat.
From coqutil Require Import Word.LittleEndianList.

Open Scope Z_scope.

(** [f32::from_bits] *)
Definition f32_from_bits (b : Z) : f32 :=
  let s := Z.testbit b 31 in
  let e := Z.land (Z.shiftr b 23) 255 in
  let m := Z.land b 8388607 in
  if e =? 255 then (if m =? 0 then S754_infinity s else S754_nan)
  else
    match m + (if e =? 0 then 0 else 8388608) with
    | Zpos p => S754_finite s p (if e =? 0 then -149 else e - 150)
    | _ => S754_zero s
    end.

(** [Sha256::digest] *)
Class Sha256Digest : Type := { sha256_digest : list byte → list byte }.

Record SemanticCacheConfig : Type := mkSemConfig {
  sm_similarity_threshold : f32;
  sm_ttl_seconds : Z;
  sm_max_entries : Z;
  sm_confidence_boost_on_hit : f32;
  sm_confidence_decay_rate : f32;
}.
Definition SemanticCacheConfig_default : SemanticCacheConfig :=
  mkSemConfig (f32_lit 85 100) 2700 10000 (f32_lit 1 10) (f32_lit 5 100).

Record CachedResult : Type := mkCached {
  cr_chunk_id : ChunkId;
  cr_score : f32;
  cr_text_preview : string;
}.

Record CacheEntry : Type := mkCacheEntry {
  ce_query_embedding : list Z;
  ce_results : list CachedResult;
  ce_tenant_id : string;
  ce_project_id : option string;
  ce_memory_version : Z;
  ce_created_at : Z;
  ce_last_hit : Z;
  ce_hit_count : Z;
  ce_confidence : f32;
}.

Record CacheHit : Type := mkHit {
  ch_results : list CachedResult;
  ch_similarity : f32;
  ch_confidence : f32;
  ch_age_ms : Z;
  ch_cache_key : string;
}.

Record CacheRecord : Type := mkRecord { rec_entry : CacheEntry; rec_retrieval_limit : Z }.

Record QueryIndexEntry : Type := mkQuery {
  qi_cache_key : string;
  qi_embedding : list Z;
  qi_tenant_id : string;
  qi_project_id : option string;
}.

(** [AtomicStats] *)
Record AtomicStats : Type := mkStats {
  st_total_lookups : Z;
  st_cache_hits : Z;
  st_cache_misses : Z;
  st_version_invalidations : Z;
  st_ttl_expirations : Z;
}.

Record SemanticCache : Type := mkSemCache {
  sc_entries : gmap string CacheRecord;
  sc_query_index : list QueryIndexEntry;
  sc_config : SemanticCacheConfig;
  sc_stats : AtomicStats;
}.

(** [SemanticCache::new] *)
Definition semantic_cache_new (config : SemanticCacheConfig) : SemanticCache :=
  mkSemCache ∅ [] config (mkStats 0 0 0 0 0).

(** [fetch_add] wraps. *)
Definition add_stats (lookups hits misses invalidations expirations : Z) (s : AtomicStats) : AtomicStats :=
  mkStats (as_u64 (st_total_lookups s + lookups)) (as_u64 (st_cache_hits s + hits))
    (as_u64 (st_cache_misses s + misses)) (as_u64 (st_version_invalidations s + invalidations))
    (as_u64 (st_ttl_expirations s + expirations)).

Definition with_stats (f : AtomicStats → AtomicStats) (c : SemanticCache) : SemanticCache :=
  mkSemCache (sc_entries c) (sc_query_index c) (sc_config c) (f (sc_stats c)).
Definition with_entries (f : gmap string CacheRecord → gmap string CacheRecord) (c : SemanticCache) : SemanticCache :=
  mkSemCache (f (sc_entries c)) (sc_query_index c) (sc_config c) (sc_stats c).
Definition with_index (f : list QueryIndexEntry → list QueryIndexEntry) (c : SemanticCache) : SemanticCache :=
  mkSemCache (sc_entries c) (f (sc_query_index c)) (sc_config c) (sc_stats c).

(** One step of the loop of [cosine_similarity]. *)
Definition cosine_step (s : f32 * f32 * f32) (p : f32 * f32) : f32 * f32 * f32 :=
  let '(dot, na, nb) := s in
  let '(x, y) := p in
  (f32_add dot (f32_mul x y), f32_add na (f32_mul x x), f32_add nb (f32_mul y y)).

(** [cosine_similarity] *)
Definition query_similarity (a b : list Z) : f32 :=
  if negb (length a =? length b)%nat || (length a =? 0)%nat then f32_zero
  else
    let '(dot_product, norm_a, norm_b) :=
      foldl cosine_step (f32_zero, f32_zero, f32_zero)
        (zip (map f32_from_bits a) (map f32_from_bits b)) in
    let norm_a := f32_sqrt norm_a in
    let norm_b := f32_sqrt norm_b in
    if f32_eq norm_a f32_zero || f32_eq norm_b f32_zero then f32_zero
    else f32_div dot_product (f32_mul norm_a norm_b).

(** [str::as_bytes] *)
Definition str_bytes (s : string) : list byte := String.list_byte_of_string s.
(** [u64::to_le_bytes] *)
Definition u64_le (x : Z) : list byte := LittleEndianList.le_split 8 x.

(** The bytes [embedding_hash] digests. *)
Definition hash_preimage (embedding : list Z) (tenant : string) (project : option string) : list byte :=
  u64_le (Z.of_nat (String.length tenant)) ++ str_bytes tenant ++
  match project with
  | None => [x00]
  | Some p => [x01] ++ u64_le (Z.of_nat (String.length p)) ++ str_bytes p
  end ++ (embedding ≫= to_le_bytes).

(** [format!("{:02x}", b)] *)
Definition hex_digit (n : Z) : string := String.substring (Z.to_nat n) 1 "0123456789abcdef".
Definition hex_encode (bs : list byte) : string :=
  foldr (λ b s, (hex_digit (Z.shiftr (byte.unsigned b) 4) +:+
                 hex_digit (Z.land (byte.unsigned b) 15) +:+ s)%string) "" bs.

(** [embedding_hash] *)
Definition embedding_hash `{Sha256Digest} (embedding : list Z) (tenant : string) (project : option string) : string :=
  hex_encode (take 16 (sha256_digest (hash_preimage embedding tenant project))).

(** The scan for the best match over [query_index]. *)
Definition scan_step (config : SemanticCacheConfig) (query : list Z) (tenant : string)
    (project : option string) (best : option (string * f32)) (e : QueryIndexEntry)
    : option (string * f32) :=
  if negb (String.eqb (qi_tenant_id e) tenant) then best
  else if negb (bool_decide (qi_project_id e = project)) then best
  else
    let similarity := query_similarity query (qi_embedding e) in
    if f32_ge similarity (sm_similarity_threshold config) &&
       match best with None => true | Some (_, s) => f32_gt similarity s end
    then Some (qi_cache_key e, similarity) else best.

(** [lookup_with_limit] at the clock reading [now_ms]. *)
Definition lookup_with_limit (now_ms : Z) (query : list Z) (tenant : string) (project : option string)
    (current_version requested_limit : Z) (c : SemanticCache) : option CacheHit * SemanticCache :=
  let c := with_stats (add_stats 1 0 0 0 0) c in
  match foldl (scan_step (sc_config c) query tenant project) None (sc_query_index c) with
  | None => (None, c)
  | Some (cache_key, similarity) =>
      match sc_entries c !! cache_key with
      | None => (None, c)
      | Some record =>
          let e := rec_entry record in
          if ce_memory_version e <? current_version
          then (None, with_stats (add_stats 0 0 1 1 0) c)
          else if rec_retrieval_limit record <? requested_limit
          then (None, with_stats (add_stats 0 0 1 0 0) c)
          else
            let confidence := f32_min (f32_add (ce_confidence e) (sm_confidence_boost_on_hit (sc_config c))) f32_one in
            let e' := mkCacheEntry (ce_query_embedding e) (ce_results e) (ce_tenant_id e) (ce_project_id e)
                        (ce_memory_version e) (ce_created_at e) now_ms (as_u32 (ce_hit_count e + 1)) confidence in
            let c := with_entries (<[cache_key := mkRecord e' (rec_retrieval_limit record)]>) c in
            (Some (mkHit (ce_results e) similarity confidence (Z.max 0 (now_ms - ce_created_at e)) cache_key),
             with_stats (add_stats 0 1 0 0 0) c)
      end
  end.

(** [lookup] *)
Definition cache_lookup (now_ms : Z) (query : list Z) (tenant : string) (project : option string)
    (current_version : Z) (c : SemanticCache) : option CacheHit * SemanticCache :=
  lookup_with_limit now_ms query tenant project current_version 0 c.

(** [iter_mut().find(..)] by key, replaced in place, or pushed. *)
Fixpoint index_put (e : QueryIndexEntry) (l : list QueryIndexEntry) : list QueryIndexEntry :=
  match l with
  | [] => [e]
  | x :: l => if String.eqb (qi_cache_key x) (qi_cache_key e) then e :: l else x :: index_put e l
  end.

(** [insert_with_limit] *)
Definition insert_with_limit `{Sha256Digest} (now_ms : Z) (query : list Z) (tenant : string)
    (project : option string) (results : list CachedResult) (memory_version retrieval_limit : Z)
    (c : SemanticCache) : SemanticCache :=
  let cache_key := embedding_hash query tenant project in
  let entry := mkCacheEntry query results tenant project memory_version now_ms now_ms 0 (f32_lit 1 2) in
  with_index (index_put (mkQuery cache_key query tenant project))
    (with_entries (<[cache_key := mkRecord entry retrieval_limit]>) c).

(** [insert] *)
Definition semantic_insert `{Sha256Digest} (now_ms : Z) (query : list Z) (tenant : string)
    (project : option string) (results : list CachedResult) (memory_version : Z) (c : SemanticCache)
    : SemanticCache :=
  insert_with_limit now_ms query tenant project results memory_version (zlen results) c.

(** [for key in keys { entries.invalidate(key) }] *)
Definition invalidate_keys (keys : list string) (m : gmap string CacheRecord) : gmap string CacheRecord :=
  foldr delete m keys.

(** [invalidate_tenant] *)
Definition invalidate_tenant (tenant : string) (c : SemanticCache) : SemanticCache :=
  let keys := map qi_cache_key (filter (λ e, qi_tenant_id e = tenant) (sc_query_index c)) in
  with_index (filter (λ e, qi_tenant_id e ≠ tenant)) (with_entries (invalidate_keys keys) c).

(** The keys of the index entries whose record satisfies [p]. *)
Definition keys_with (p : QueryIndexEntry → CacheRecord → bool) (c : SemanticCache) : list string :=
  omap (λ e, match sc_entries c !! qi_cache_key e with
             | Some r => if p e r then Some (qi_cache_key e) else None
             | None => None
             end) (sc_query_index c).

(** Removing keys from the entries and from the index. *)
Definition remove_keys (keys : list string) (c : SemanticCache) : SemanticCache :=
  with_index (filter (λ e, qi_cache_key e ∉ keys)) (with_entries (invalidate_keys keys) c).

(** [invalidate_by_version] *)
Definition invalidate_by_version (tenant : string) (min_version : Z) (c : SemanticCache) : SemanticCache :=
  let keys := keys_with (λ e r, String.eqb (qi_tenant_id e) tenant &&
                                (ce_memory_version (rec_entry r) <? min_version)) c in
  with_stats (add_stats 0 0 0 (zlen keys) 0) (remove_keys keys c).

(** [results.iter().any(|r| chunk_ids.contains(&r.chunk_id))] *)
Definition contains_any (chunk_ids : list ChunkId) (results : list CachedResult) : bool :=
  existsb (λ r, bool_decide (cr_chunk_id r ∈ chunk_ids)) results.

(** [invalidate_chunks] *)
Definition invalidate_chunks (chunk_ids : list ChunkId) (c : SemanticCache) : SemanticCache :=
  remove_keys (keys_with (λ _ r, contains_any chunk_ids (ce_results (rec_entry r))) c) c.

(** [prune_index] *)
Definition prune_index (c : SemanticCache) : SemanticCache :=
  let kept := filter (λ e, is_Some (sc_entries c !! qi_cache_key e)) (sc_query_index c) in
  let removed := zlen (sc_query_index c) - zlen kept in
  let c := with_index (λ _, kept) c in
  if 0 <? removed then with_stats (add_stats 0 0 0 0 removed) c else c.

(** moka drops a record: expired, over capacity. *)
Definition evict (key : string) (c : SemanticCache) : SemanticCache := with_entries (delete key) c.

(** [get_stats]: the average confidence and the number of entries. *)
Definition average_confidence (c : SemanticCache) : f32 :=
  let confs := omap (λ e, ce_confidence ∘ rec_entry <$> sc_entries c !! qi_cache_key e) (sc_query_index c) in
  if bool_decide (confs = []) then f32_zero
  else f32_div (foldl f32_add f32_zero confs) (f32_of_Z (zlen confs)).

(* ------------------------------------------------------------------ *)
(** ** Histories *)

Inductive CacheStep : Type :=
| SLookup (now_ms : Z) (query : list Z) (tenant : string) (project : option string) (version limit : Z)
| SInsert (now_ms : Z) (query : list Z) (tenant : string) (project : option string)
    (results : list CachedResult) (version limit : Z)
| SInvalidateTenant (tenant : string)
| SInvalidateByVersion (tenant : string) (min_version : Z)
| SInvalidateChunks (chunk_ids : list ChunkId)
| SPrune
| SEvict (key : string).

Section history.
Context `{SHA : Sha256Digest}.

Definition cache_step (c : SemanticCache) (s : CacheStep) : SemanticCache :=
  match s with
  | SLookup now q t p v l => (lookup_with_limit now q t p v l c).2
  | SInsert now q t p res v l => insert_with_limit now q t p res v l c
  | SInvalidateTenant t => invalidate_tenant t c
  | SInvalidateByVersion t v => invalidate_by_version t v c
  | SInvalidateChunks ids => invalidate_chunks ids c
  | SPrune => prune_index c
  | SEvict key => evict key c
  end.

Definition cache_run (config : SemanticCacheConfig) (steps : list CacheStep) : SemanticCache :=
  foldl cache_step (semantic_cache_new config) steps.

(** The steps that end the life of what an insert stored: its invalidation
    by tenant, by version or by one of its chunks, and an insert under the
    same key. *)
Definition ends_life (key tenant : string) (results : list CachedResult) (version : Z) (s : CacheStep) : Prop :=
  match s with
  | SInvalidateTenant t => t = tenant
  | SInvalidateByVersion t v => t = tenant ∧ version < v
  | SInvalidateChunks ids => ∃ r, r ∈ results ∧ cr_chunk_id r ∈ ids
  | SInsert _ q t p _ _ _ => embedding_hash q t p = key
  | _ => False
  end.

(** What holds of every record the cache can serve: of its index entry, its
    results, its memory version and its retrieval limit. *)
Record cache_all (R : QueryIndexEntry → list CachedResult → Z → Z → Prop) (c : SemanticCache) : Prop := {
  ca_keys : NoDup (map qi_cache_key (sc_query_index c));
  ca_served e r : e ∈ sc_query_index c → sc_entries c !! qi_cache_key e = Some r →
    R e (ce_results (rec_entry r)) (ce_memory_version (rec_entry r)) (rec_retrieval_limit r);
}.

(** The insert of [steps] that an index entry and its record still serve. *)
Definition served_by (steps : list CacheStep) (e : QueryIndexEntry) (results : list CachedResult)
    (version limit : Z) : Prop :=
  ∃ pre post now_ms,
    steps = pre ++ SInsert now_ms (qi_embedding e) (qi_tenant_id e) (qi_project_id e) results version limit :: post ∧
    qi_cache_key e = embedding_hash (qi_embedding e) (qi_tenant_id e) (qi_project_id e) ∧
    Forall (λ s, ¬ ends_life (qi_cache_key e) (qi_tenant_id e) results version s) post.

(** The record after a step is one of before with the same content. *)
Definition same_content (r r0 : CacheRecord) : Prop :=
  ce_results (rec_entry r) = ce_results (rec_entry r0) ∧
  ce_memory_version (rec_entry r) = ce_memory_version (rec_entry r0) ∧
  rec_retrieval_limit r = rec_retrieval_limit r0.

(** A step that only drops index entries and records. *)
Lemma cache_all_drop R R' c c' :
  cache_all R c → sc_query_index c' `sublist_of` sc_query_index c →
  (∀ e r, e ∈ sc_query_index c' → sc_entries c' !! qi_cache_key e = Some r →
     ∃ r0, sc_entries c !! qi_cache_key e = Some r0 ∧ same_content r r0 ∧
       (R e (ce_results (rec_entry r)) (ce_memory_version (rec_entry r)) (rec_retrieval_limit r) →
        R' e (ce_results (rec_entry r)) (ce_memory_version (rec_entry r)) (rec_retrieval_limit r))) →
  cache_all R' c'.
Proof.
  intros [Hk Hs] Hsub Hrec. split.
  - eapply sublist_NoDup; [exact Hk|]. by apply (fmap_sublist qi_cache_key).
  - intros e r He Hr. destruct (Hrec e r He Hr) as (r0 & Hr0 & (Ec & Ev & El) & Himp). apply Himp.
    rewrite Ec, Ev, El. apply Hs; [|done].
    eapply elem_of_submseteq; [done|]. by apply sublist_submseteq.
Qed.

Lemma invalidate_keys_Some keys m k r : invalidate_keys keys m !! k = Some r → m !! k = Some r.
Proof.
  induction keys as [|k0 keys IH]; cbn; [done|]. rewrite lookup_delete_Some. naive_solver.
Qed.

Lemma scan_spec config q t p l best key sim :
  foldl (scan_step config q t p) best l = Some (key, sim) →
  best = Some (key, sim) ∨
  ∃ e, e ∈ l ∧ qi_tenant_id e = t ∧ qi_project_id e = p ∧ key = qi_cache_key e ∧
    sim = query_similarity q (qi_embedding e) ∧ f32_ge sim (sm_similarity_threshold config) = true.
Proof.
  revert best. induction l as [|e l IH]; intros best Hf; cbn in Hf; [by left|].
  destruct (IH _ Hf) as [Hb|(e' & He' & Hr)].
  - unfold scan_step in Hb. destruct (String.eqb_spec (qi_tenant_id e) t); cbn [negb] in Hb; [|by left].
    case_bool_decide; cbn [negb] in Hb; [|by left].
    destruct (f32_ge (query_similarity q (qi_embedding e)) (sm_similarity_threshold config)) eqn:Eg; cbn [andb] in Hb; [|by left].
    destruct (match best with None => true | Some (_, s) => _ end); [|by left].
    injection Hb as <- <-. right. exists e. split_and!; [by left|done..].
  - right. exists e'. split; [by right|done].
Qed.

Lemma elem_of_keys_with p c e r :
  e ∈ sc_query_index c → sc_entries c !! qi_cache_key e = Some r →
  qi_cache_key e ∉ keys_with p c → p e r = false.
Proof.
  intros He Hr Hn. apply not_true_iff_false. intros Hp. apply Hn.
  apply list_elem_of_omap. exists e. by rewrite Hr, Hp.
Qed.

Lemma index_put_spec x l :
  NoDup (map qi_cache_key l) →
  NoDup (map qi_cache_key (index_put x l)) ∧
  ∀ e, e ∈ index_put x l ↔ e = x ∨ e ∈ l ∧ qi_cache_key e ≠ qi_cache_key x.
Proof.
  induction l as [|y l IH]; cbn [index_put map]; intros Hnd.
  - split; [apply NoDup_singleton|]. set_solver.
  - apply NoDup_cons in Hnd as [Hy Hnd]. destruct (String.eqb_spec (qi_cache_key y) (qi_cache_key x)) as [E|E].
    + split; [cbn; rewrite <-E; by constructor|]. intros e. rewrite !elem_of_cons. split.
      * intros [->|He]; [by left|right]. split; [by right|]. intros Ek. apply Hy. rewrite E, <-Ek.
        by apply list_elem_of_fmap_2.
      * intros [->|[[->|He] Hk]]; [by left|done|by right].
    + destruct (IH Hnd) as [Hnd' Hel]. split.
      * cbn. constructor; [|done]. rewrite list_elem_of_fmap. intros (e & Ek & He%Hel).
        destruct He as [->|[He _]]; [congruence|]. apply Hy. rewrite Ek. by apply list_elem_of_fmap_2.
      * intros e. rewrite !elem_of_cons, Hel. naive_solver.
Qed.

Lemma cache_all_lookup R c now q t p v l :
  cache_all R c → cache_all R (lookup_with_limit now q t p v l c).2.
Proof.
  intros Hi. unfold lookup_with_limit.
  assert (Hsame : ∀ f, cache_all R (with_stats f c)) by (intros f; destruct Hi; by split).
  destruct (foldl _ None _) as [[key sim]|]; [|apply Hsame]. cbn [sc_entries with_stats].
  destruct (sc_entries c !! key) as [rec|] eqn:Ek; [|apply Hsame].
  destruct (_ <? v); [exact (Hsame (add_stats 0 0 1 1 0 ∘ add_stats 1 0 0 0 0))|].
  destruct (_ <? l); [exact (Hsame (add_stats 0 0 1 0 0 ∘ add_stats 1 0 0 0 0))|].
  eapply cache_all_drop; [done|done|]. cbn. intros e r He Hr.
  destruct (decide (key = qi_cache_key e)) as [Heq|Hne].
  - rewrite <-Heq in *. rewrite lookup_insert_eq in Hr. injection Hr as <-. exists rec. by split_and!.
  - rewrite lookup_insert_ne in Hr by done. exists r. by split_and!.
Qed.

Lemma cache_all_keys R R' c keys f :
  cache_all R c →
  (∀ e r, e ∈ sc_query_index c → sc_entries c !! qi_cache_key e = Some r → qi_cache_key e ∉ keys →
     R e (ce_results (rec_entry r)) (ce_memory_version (rec_entry r)) (rec_retrieval_limit r) →
     R' e (ce_results (rec_entry r)) (ce_memory_version (rec_entry r)) (rec_retrieval_limit r)) →
  cache_all R' (with_stats f (remove_keys keys c)).
Proof.
  intros Hi Hne. eapply cache_all_drop; [done|apply sublist_filter|].
  cbn. intros e r [Hk He]%list_elem_of_filter Hr%invalidate_keys_Some. exists r. by split_and!; eauto.
Qed.

(** One step, for a property of the records that the step's invalidation
    spares. *)
Lemma cache_all_step (R R' : QueryIndexEntry → list CachedResult → Z → Z → Prop) c s :
  cache_all R c →
  (∀ e res v l, R e res v l → ¬ ends_life (qi_cache_key e) (qi_tenant_id e) res v s → R' e res v l) →
  match s with
  | SInsert _ q t p res v l => R' (mkQuery (embedding_hash q t p) q t p) res v l
  | _ => True
  end → cache_all R' (cache_step c s).
Proof.
  intros Hi Hkeep Hnew. destruct s as [now q t p v l|now q t p res v l|t|t v|ids| |key]; cbn [cache_step].
  - eapply cache_all_drop; [by eapply cache_all_lookup|done|]. intros e r He Hr. exists r. split_and!; [done..|].
    intros HR. apply Hkeep; [done|by intros []].
  - destruct Hi as [Hk Hs]. unfold insert_with_limit. set (x := mkQuery _ q t p) in *.
    destruct (index_put_spec x (sc_query_index c) Hk) as [Hk' Hel]. split; [exact Hk'|].
    cbn. intros e r [->|[He Hne]]%Hel Hr.
    + cbn in Hr. rewrite lookup_insert_eq in Hr. by injection Hr as <-.
    + rewrite lookup_insert_ne in Hr by done. apply Hkeep; [by apply Hs|]. cbn. by intros E.
  - eapply cache_all_drop; [done|apply sublist_filter|].
    cbn. intros e r [Hk He]%list_elem_of_filter Hr%invalidate_keys_Some. exists r. split_and!; [done..|].
    intros HR. apply Hkeep; [exact HR|by intros ->].
  - apply (cache_all_keys R R'); [done|]. intros e r He Hr Hn HR. apply Hkeep; [done|]. intros [-> Hv].
    apply (elem_of_keys_with _ _ e r) in Hn; [|done..]. cbv beta in Hn. rewrite String.eqb_refl in Hn. cbn in Hn. lia.
  - change (invalidate_chunks ids c) with (with_stats id (invalidate_chunks ids c)).
    apply (cache_all_keys R R'); [done|]. intros e r He Hr Hn HR. apply Hkeep; [done|]. intros (r1 & H1 & H2).
    apply (elem_of_keys_with _ _ e r) in Hn; [|done..]. apply not_true_iff_false in Hn. apply Hn.
    apply existsb_exists. exists r1. split; [by apply list_elem_of_In|by apply bool_decide_eq_true].
  - unfold prune_index. case_match; (eapply cache_all_drop; [done|apply sublist_filter|]);
      cbn; intros e r He Hr; exists r; (split_and!; [done..|intros HR; apply Hkeep; [done|by intros []]]).
  - eapply cache_all_drop; [done|done|]. cbn. intros e r He [_ Hr]%lookup_delete_Some.
    exists r. split_and!; [done..|]. intros HR. apply Hkeep; [done|by intros []].
Qed.

Lemma history_inv_step steps c s :
  cache_all (served_by steps) c → cache_all (served_by (steps ++ [s])) (cache_step c s).
Proof.
  intros Hi. eapply cache_all_step; [done| |].
  - intros e res v l (pre & post & now & -> & Hk & Hp) Hs. exists pre, (post ++ [s]), now. split_and!; [|done|].
    + by rewrite <-app_assoc.
    + rewrite Forall_app. split; [done|by constructor].
  - destruct s as [|now q t p res v l| | | | |]; try done. exists steps, [], now. split_and!; [done..|constructor].
Qed.

Lemma history_inv_run config steps : cache_all (served_by steps) (cache_run config steps).
Proof.
  unfold cache_run. induction steps as [|s steps IH] using rev_ind.
  - split; [constructor|]. intros e r He. by apply not_elem_of_nil in He.
  - rewrite foldl_app. by apply history_inv_step.
Qed.

(** A hit shows the results of one of the records. *)
Lemma cache_all_hit R c now_ms query tenant project current_version limit hit c' :
  cache_all R c →
  lookup_with_limit now_ms query tenant project current_version limit c = (Some hit, c') →
  ∃ e v l, R e (ch_results hit) v l ∧ qi_tenant_id e = tenant ∧ qi_project_id e = project ∧
    current_version ≤ v ∧ limit ≤ l ∧ ch_cache_key hit = qi_cache_key e ∧
    ch_similarity hit = query_similarity query (qi_embedding e) ∧
    f32_ge (ch_similarity hit) (sm_similarity_threshold (sc_config c)) = true.
Proof.
  intros [_ Hs] Hl. unfold lookup_with_limit in Hl.
  cbn [sc_config sc_query_index sc_entries with_stats] in Hl.
  destruct (foldl _ None _) as [[key sim]|] eqn:Ef; [|done].
  destruct (sc_entries c !! key) as [rec|] eqn:Ek; [|done].
  destruct (ce_memory_version (rec_entry rec) <? current_version) eqn:Ev; [done|].
  destruct (rec_retrieval_limit rec <? limit) eqn:El; [done|].
  injection Hl as <- <-. cbn [ch_results ch_similarity ch_cache_key].
  apply scan_spec in Ef as [|(e & He & Ht & Hp & -> & -> & Hge)]; [done|].
  eexists e, _, _. split; [by apply Hs|]. split_and!; try done; lia.
Qed.

Lemma cache_step_config c s : sc_config (cache_step c s) = sc_config c.
Proof.
  destruct s as [now q t p v l|now q t p res v l|t|t v|ids| |key]; cbn; try done.
  - unfold lookup_with_limit. by repeat case_match.
  - unfold prune_index. by case_match.
Qed.

Lemma cache_run_config config steps : sc_config (cache_run config steps) = config.
Proof.
  unfold cache_run. induction steps as [|s steps IH] using rev_ind; [done|].
  rewrite foldl_app. cbn. by rewrite cache_step_config.
Qed.

(** a cache hit is sound, whatever lookups, inserts, invalidations,
    prunings and evictions came before it.  Its results are those of an
    earlier insert for the same tenant and the same project, made at a
    memory version at least the current one and with a retrieval limit at
    least the one requested; the query is as similar to that insert's query
    as the threshold asks; and since that insert no invalidation covered it:
    neither of the tenant, nor by a version above its own, nor of a chunk
    among its results, nor was its key overwritten. *)
Theorem cache_hit_sound (config : SemanticCacheConfig) (steps : list CacheStep) now_ms query tenant
    project current_version limit hit c' :
  lookup_with_limit now_ms query tenant project current_version limit (cache_run config steps) = (Some hit, c') →
  ∃ pre post now0 q0 version0 limit0,
    steps = pre ++ SInsert now0 q0 tenant project (ch_results hit) version0 limit0 :: post ∧
    current_version ≤ version0 ∧ limit ≤ limit0 ∧
    ch_similarity hit = query_similarity query q0 ∧
    f32_ge (ch_similarity hit) (sm_similarity_threshold config) = true ∧
    ch_cache_key hit = embedding_hash q0 tenant project ∧
    Forall (λ s, ¬ ends_life (ch_cache_key hit) tenant (ch_results hit) version0 s) post.
Proof.
  intros Hl. apply (cache_all_hit _ _ _ _ _ _ _ _ _ _ (history_inv_run config steps)) in Hl
    as (e & v & l & (pre & post & now0 & -> & Hkey & Hpost) & <- & <- & Hv & Hlim & Hk & Hsim & Hge).
  rewrite cache_run_config in Hge. rewrite Hk. exists pre, post, now0, (qi_embedding e), v, l. by split_and!.
Qed.

(** lookups are not counted fully: one that finds no similar query, or
    whose record moka has dropped, adds to [total_lookups] and to neither
    hits nor misses. *)
Theorem lookup_miss_uncounted (c : SemanticCache) now_ms query tenant project current_version limit :
  sc_query_index c = [] →
  let '(hit, c') := lookup_with_limit now_ms query tenant project current_version limit c in
  hit = None ∧ st_total_lookups (sc_stats c') = as_u64 (st_total_lookups (sc_stats c) + 1) ∧
  st_cache_hits (sc_stats c') = as_u64 (st_cache_hits (sc_stats c)) ∧
  st_cache_misses (sc_stats c') = as_u64 (st_cache_misses (sc_stats c)).
Proof.
  intros Hi. unfold lookup_with_limit. cbn. rewrite Hi. cbn. rewrite !Z.add_0_r. done.
Qed.

End history.

(** A digest for examples: the bytes themselves. *)
#[local] Instance identity_digest : Sha256Digest := { sha256_digest bs := bs }.

(** The vector (1, 0) twice, the first time with the results of a search. *)
Definition ex_query : list Z := [1065353216; 0].
Definition ex_hits : list CachedResult := [mkCached (mkChunkId 7) f32_one ""].
Definition ex_steps : list CacheStep :=
  [SInsert 5 ex_query "t" None ex_hits 3 10; SInvalidateTenant "u"; SPrune].

Lemma cache_hit_sound_witness :
  ∃ pre post now0 q0 version0 limit0,
    ex_steps = pre ++ SInsert now0 q0 "t" None ex_hits version0 limit0 :: post ∧
    2 ≤ version0 ∧ 10 ≤ limit0 ∧ f32_one = query_similarity ex_query q0.
Proof.
  destruct (lookup_with_limit 9 ex_query "t" None 2 10 (cache_run SemanticCacheConfig_default ex_steps))
    as [[hit|] c'] eqn:E; [|vm_compute in E; discriminate E].
  destruct (cache_hit_sound SemanticCacheConfig_default ex_steps 9 ex_query "t" None 2 10 hit c' E)
    as (pre & post & now0 & q0 & v0 & l0 & Hs & Hv & Hl & Hsim & _).
  assert (ch_results hit = ex_hits ∧ ch_similarity hit = f32_one) as [Hr Hone].
  { vm_compute in E. injection E as <- _. split; vm_compute; reflexivity. }
  rewrite Hr in Hs. rewrite Hone in Hsim. exists pre, post, now0, q0, v0, l0. auto.
Defined.

Lemma lookup_miss_uncounted_witness :
  (lookup_with_limit 9 ex_query "t" None 2 10 (semantic_cache_new SemanticCacheConfig_default)).1 = None.
Proof.
  pose proof (lookup_miss_uncounted (semantic_cache_new SemanticCacheConfig_default) 9 ex_query "t" None 2 10
    eq_refl) as H.
  destruct (lookup_with_limit _ _ _ _ _ _ _) as [hit c']. apply H.
Defined.
