(* ===== verification/Tiered.v ===== *)
(** * Tiered search
    (src/crates/memd/src/tiered/access_tracker.rs, hot_tier.rs,
    tiered_searcher.rs)

    A search goes through the semantic cache, the hot tier (a small dense
    index of promoted chunks) and the warm tier.  [AccessTracker] scores
    chunks by frequency, recency and project; the functions [log2] and [exp]
    of the platform's math library are parameters.  The clock is an
    argument.  The hot tier and the searcher share one tracker, as
    [HybridSearcher] builds them. *)

From S2P Require Import Prelude Crates Types Ranking Fusion EmbeddingCache DenseIndex SemanticCache.
From Stdlib Require Import Init.Byte Floats.SpecFloat Sorting.Sorted.

Open Scope Z_scope.

(* ------------------------------------------------------------------ *)
(** ** The access tracker *)

Record AccessEvent : Type := mkAccess {
  ae_chunk_id : ChunkId;
  ae_timestamp : Z;
  ae_project_id : option string;
  ae_query_id : option string;
}.

(** [AccessEvent::new] and [AccessEvent::with_project] *)
Definition access_event (now_ms : Z) (project : option string) (c : ChunkId) : AccessEvent :=
  mkAccess c now_ms project None.

Record AccessStats : Type := mkAccessStats {
  as_access_count : Z;
  as_last_access : Z;
  as_first_access : Z;
  as_project_hits : gmap string Z;
  as_decay_score : f32;
}.

(** [AccessStats::new] *)
Definition access_stats_new (timestamp : Z) : AccessStats :=
  mkAccessStats 1 timestamp timestamp ∅ f32_one.

(** [AccessStats::record_access] *)
Definition stats_record_access (timestamp : Z) (project : option string) (s : AccessStats) : AccessStats :=
  mkAccessStats (Z.min u32_max (as_access_count s + 1)) timestamp (as_first_access s)
    (match project with
     | Some p => <[p := as_u32 (default 0 (as_project_hits s !! p) + 1)]> (as_project_hits s)
     | None => as_project_hits s
     end) (as_decay_score s).

Record PromotionScore : Type := mkPromotion {
  ps_chunk_id : ChunkId;
  ps_score : f32;
  ps_frequency_component : f32;
  ps_recency_component : f32;
  ps_project_component : f32;
  ps_eligible : bool;
}.

(** [PromotionScore::new] *)
Definition promotion_score_new (c : ChunkId) : PromotionScore :=
  mkPromotion c f32_zero f32_zero f32_zero f32_zero false.

Record AccessTrackerConfig : Type := mkTrackerConfig {
  tc_frequency_weight : f32;
  tc_recency_weight : f32;
  tc_project_weight : f32;
  tc_decay_half_life_hours : Z;
  tc_min_accesses_for_promotion : Z;
}.
Definition AccessTrackerConfig_default : AccessTrackerConfig :=
  mkTrackerConfig (f32_lit 4 10) (f32_lit 4 10) (f32_lit 2 10) 24 2.

Record AccessTracker : Type := mkTracker {
  at_stats : gmap ChunkId AccessStats;
  at_config : AccessTrackerConfig;
  at_max_log_count : f32;
}.

(** [AccessTracker::new] *)
Definition access_tracker_new (config : AccessTrackerConfig) : AccessTracker :=
  mkTracker ∅ config f32_one.

Section tracker.
Context `{LM : Libm} `{HI : !HashIter ChunkId}.

Definition log_count (s : AccessStats) : f32 :=
  f32_log2 (f32_add (f32_of_Z (as_access_count s)) f32_one).

(** [record_access] *)
Definition record_access (event : AccessEvent) (t : AccessTracker) : AccessTracker :=
  match at_stats t !! ae_chunk_id event with
  | Some existing =>
      let s := stats_record_access (ae_timestamp event) (ae_project_id event) existing in
      mkTracker (<[ae_chunk_id event := s]> (at_stats t)) (at_config t)
        (if f32_gt (log_count s) (at_max_log_count t) then log_count s else at_max_log_count t)
  | None =>
      let s := access_stats_new (ae_timestamp event) in
      let s := match ae_project_id event with
               | Some p => mkAccessStats (as_access_count s) (as_last_access s) (as_first_access s)
                             {[p := 1]} (as_decay_score s)
               | None => s
               end in
      mkTracker (<[ae_chunk_id event := s]> (at_stats t)) (at_config t) (at_max_log_count t)
  end.

(** [exp(-hours_since_last / half_life)] *)
Definition recency (now_ms : Z) (config : AccessTrackerConfig) (s : AccessStats) : f32 :=
  let hours_since_last := f32_div (f32_of_Z (now_ms - as_last_access s))
                            (f32_mul (f32_of_Z 3600) (f32_of_Z 1000)) in
  f32_exp (f32_div (SFopp hours_since_last) (f32_of_Z (tc_decay_half_life_hours config))).

(** [compute_score] *)
Definition compute_score (now_ms : Z) (c : ChunkId) (s : AccessStats) (current_project : option string)
    (t : AccessTracker) : PromotionScore :=
  let max_log := at_max_log_count t in
  let config := at_config t in
  let frequency_component :=
    if f32_gt max_log f32_zero then f32_div (log_count s) max_log else f32_zero in
  let recency_component := recency now_ms config s in
  let project_component :=
    match current_project with
    | Some p => if bool_decide (is_Some (as_project_hits s !! p)) then f32_one else f32_zero
    | None => f32_zero
    end in
  let score :=
    f32_add (f32_add (f32_mul frequency_component (tc_frequency_weight config))
                     (f32_mul recency_component (tc_recency_weight config)))
            (f32_mul project_component (tc_project_weight config)) in
  mkPromotion c score frequency_component recency_component project_component
    (tc_min_accesses_for_promotion config <=? as_access_count s).

(** [get_promotion_score] *)
Definition get_promotion_score (now_ms : Z) (c : ChunkId) (current_project : option string)
    (t : AccessTracker) : PromotionScore :=
  match at_stats t !! c with
  | Some s => compute_score now_ms c s current_project t
  | None => promotion_score_new c
  end.

(** [get_top_candidates] *)
Definition get_top_candidates (now_ms : Z) (k : nat) (current_project : option string)
    (t : AccessTracker) : list PromotionScore :=
  let scores := map (λ p, compute_score now_ms p.1 p.2 current_project t) (hash_iter (at_stats t)) in
  take k (sort_by (score_desc ps_score (λ _ _, Eq)) (filter (λ s, ps_eligible s = true) scores)).

(** [decay_all] *)
Definition decay_all (now_ms : Z) (t : AccessTracker) : AccessTracker :=
  let decay s := mkAccessStats (as_access_count s) (as_last_access s) (as_first_access s)
                   (as_project_hits s) (recency now_ms (at_config t) s) in
  mkTracker (filter (λ p, f32_ge (as_decay_score p.2) (f32_lit 1 100) = true) (decay <$> at_stats t))
    (at_config t) (at_max_log_count t).

(** [remove_chunk] *)
Definition tracker_remove_chunk (c : ChunkId) (t : AccessTracker) : bool * AccessTracker :=
  (bool_decide (is_Some (at_stats t !! c)),
   mkTracker (delete c (at_stats t)) (at_config t) (at_max_log_count t)).

End tracker.

(* ------------------------------------------------------------------ *)
(** ** The hot tier *)

Record HotTierConfig : Type := mkHotConfig {
  ht_capacity_percentage : f32;
  ht_max_chunks : nat;
  ht_min_promotion_score : f32;
  ht_hnsw_config : HnswConfig;
}.

Record HotChunkEntry : Type := mkHotChunk {
  hce_chunk_id : ChunkId;
  hce_embedding : list Z;
  hce_promoted_at : Z;
  hce_promotion_score : f32;
  hce_tenant_id : string;
}.

Record HotTier (G : Type) : Type := mkHot {
  ht_index : HnswIndex G;
  ht_chunks : gmap ChunkId HotChunkEntry;
  ht_config : HotTierConfig;
  ht_version : Z;
}.
Arguments mkHot {_} _ _ _ _.
Arguments ht_index {_} _.
Arguments ht_chunks {_} _.
Arguments ht_config {_} _.
Arguments ht_version {_} _.

Section hot_tier.
Context `{U : Uuid ChunkId} {G : Type} `{HG : Hnsw G} `{LM : Libm} `{HI : !HashIter ChunkId}.

(** [HotTier::new] *)
Definition hot_tier_new (config : HotTierConfig) : HotTier G :=
  mkHot (index_new (ht_hnsw_config config)) ∅ config 0.

(** [promote] *)
Definition promote (now_ms : Z) (c : ChunkId) (embedding : list Z) (tenant : string) (score : f32)
    (h : HotTier G) : memd_result bool * HotTier G :=
  if bool_decide (is_Some (ht_chunks h !! c)) then (Ok false, h)
  else if bool_decide (ht_max_chunks (ht_config h) ≤ size (ht_chunks h))%nat then (Ok false, h)
  else
    let '(r, index) := index_insert c embedding (ht_index h) in
    match r with
    | Err e => (Err e, mkHot index (ht_chunks h) (ht_config h) (ht_version h))
    | Ok _ =>
        (Ok true, mkHot index (<[c := mkHotChunk c embedding now_ms score tenant]> (ht_chunks h))
                    (ht_config h) (as_u64 (ht_version h + 1)))
    end.

(** [demote] *)
Definition demote (c : ChunkId) (h : HotTier G) : bool * HotTier G :=
  match ht_chunks h !! c with
  | Some _ => (true, mkHot (ht_index h) (delete c (ht_chunks h)) (ht_config h) (as_u64 (ht_version h + 1)))
  | None => (false, h)
  end.

(** [search], with the shared tracker. *)
Definition hot_search (mapping_free hnsw_free : bool) (now_ms : Z) (query : list Z) (k : nat) (h : HotTier G)
    (t : AccessTracker) : memd_result (list SearchResult) * AccessTracker :=
  match index_search mapping_free hnsw_free query k (ht_index h) with
  | Err e => (Err e, t)
  | Ok results =>
      let filtered := filter (λ r, is_Some (ht_chunks h !! sr_chunk_id r)) results in
      (Ok filtered,
       foldl (λ t r, record_access (access_event now_ms None (sr_chunk_id r)) t) t filtered)
  end.

(** The loop of [evict_lowest_score]. *)
Definition evict_step (s : gmap ChunkId HotChunkEntry * nat) (p : ChunkId * f32)
    : gmap ChunkId HotChunkEntry * nat :=
  match s.1 !! p.1 with
  | Some _ => (delete p.1 s.1, S s.2)
  | None => s
  end.

(** [a.1.partial_cmp(&b.1).unwrap_or(Equal)]: ascending. *)
Definition score_asc (a b : ChunkId * f32) : comparison := partial_cmp_or_equal a.2 b.2.

(** [evict_lowest_score] *)
Definition evict_lowest_score (n : nat) (h : HotTier G) : nat * HotTier G :=
  if (n =? 0)%nat then (O, h)
  else
    let entries := sort_by score_asc
                     (map (λ p, (p.1, hce_promotion_score p.2)) (hash_iter (ht_chunks h))) in
    let '(chunks, evicted) := foldl evict_step (ht_chunks h, O) (take n entries) in
    (evicted, mkHot (ht_index h) chunks (ht_config h)
                (if (0 <? evicted)%nat then as_u64 (ht_version h + 1) else ht_version h)).

(** [calculate_capacity] *)
Definition calculate_capacity (total_indexed : nat) (h : HotTier G) : nat :=
  Nat.min (Z.to_nat (f32_as_usize (f32_mul (f32_of_Z (Z.of_nat total_indexed))
                                     (ht_capacity_percentage (ht_config h)))))
    (ht_max_chunks (ht_config h)).

(** [evict_if_needed] *)
Definition evict_if_needed (total_indexed : nat) (h : HotTier G) : nat * HotTier G :=
  let capacity := calculate_capacity total_indexed h in
  let current := size (ht_chunks h) in
  if bool_decide (current ≤ capacity)%nat then (O, h)
  else evict_lowest_score (current - capacity) h.

End hot_tier.

(* ------------------------------------------------------------------ *)
(** ** The tiered searcher *)

Record TieredSearcherConfig : Type := mkTieredConfig {
  tr_enable_cache : bool;
  tr_enable_hot_tier : bool;
  tr_promotion_threshold : f32;
  tr_demotion_queries_threshold : Z;
  tr_auto_promote_on_project_match : bool;
  tr_debug_tier_decisions : bool;
}.
Definition TieredSearcherConfig_default : TieredSearcherConfig :=
  mkTieredConfig true true (f32_lit 4 10) 100 true false.

Inductive SourceTier : Type := CacheTier | HotSource | WarmSource.

Inductive TierAction : Type :=
| Promote (from : SourceTier) (score : f32)
| Demote
| NoAction.

(** [TierDecision] without its formatted texts. *)
Record TierDecision : Type := mkDecision {
  td_chunk_id : ChunkId;
  td_action : TierAction;
  td_score : option f32;
  td_source_tier : SourceTier;
}.

Record ScoredChunk : Type := mkScored {
  sd_chunk_id : ChunkId;
  sd_score : f32;
  sd_source_tier : SourceTier;
}.

(** [TieredSearchResult] without the timings. *)
Record TieredSearchResult : Type := mkTieredResult {
  tsr_results : list ScoredChunk;
  tsr_source_tier : SourceTier;
  tsr_cache_hit : bool;
  tsr_hot_tier_hit : bool;
  tsr_tier_decisions : list TierDecision;
}.

(** [trait WarmTierSearch]: the warm tier as the searcher sees it. *)
Record WarmTier : Type := mkWarm {
  wt_search : list Z → nat → memd_result (list SearchResult);
  wt_get_embedding : ChunkId → option (list Z);
  wt_get_version : Z;
  wt_len : nat;
}.

Record TieredSearcher (G : Type) : Type := mkTiered {
  ti_cache : SemanticCache;
  ti_hot_tier : HotTier G;
  ti_tracker : AccessTracker;
  ti_config : TieredSearcherConfig;
  ti_query_counter : Z;
  ti_last_demotion_check : Z;
}.
Arguments mkTiered {_} _ _ _ _ _ _.
Arguments ti_cache {_} _.
Arguments ti_hot_tier {_} _.
Arguments ti_tracker {_} _.
Arguments ti_config {_} _.
Arguments ti_query_counter {_} _.
Arguments ti_last_demotion_check {_} _.

Section tiered.
Context `{U : Uuid ChunkId} {G : Type} `{HG : Hnsw G} `{LM : Libm} `{HI : !HashIter ChunkId}
  `{SHA : Sha256Digest}.

Definition hot_scored (r : SearchResult) : ScoredChunk := mkScored (sr_chunk_id r) (sr_score r) HotSource.
Definition warm_scored (r : SearchResult) : ScoredChunk := mkScored (sr_chunk_id r) (sr_score r) WarmSource.

(** The two loops of [merge_results] over the map [seen]; with [debug], a
    decision per result taken over. *)
Definition merge_hot (debug : bool) (s : gmap ChunkId ScoredChunk * list TierDecision) (r : SearchResult)
    : gmap ChunkId ScoredChunk * list TierDecision :=
  (<[sr_chunk_id r := hot_scored r]> s.1,
   if debug then s.2 ++ [mkDecision (sr_chunk_id r) NoAction (Some (sr_score r)) HotSource] else s.2).

Definition merge_warm (debug : bool) (s : gmap ChunkId ScoredChunk * list TierDecision) (r : SearchResult)
    : gmap ChunkId ScoredChunk * list TierDecision :=
  match s.1 !! sr_chunk_id r with
  | Some _ => s
  | None =>
      (<[sr_chunk_id r := warm_scored r]> s.1,
       if debug then s.2 ++ [mkDecision (sr_chunk_id r) NoAction (Some (sr_score r)) WarmSource] else s.2)
  end.

Definition scored_cmp : ScoredChunk → ScoredChunk → comparison :=
  score_desc sd_score (λ a b, chunk_id_cmp (sd_chunk_id a) (sd_chunk_id b)).

(** [merge_results] *)
Definition merge_results (hot warm : list SearchResult) (k : nat) (debug : bool)
    : list ScoredChunk * list TierDecision :=
  let '(seen, decisions) := foldl (merge_warm debug) (foldl (merge_hot debug) (∅, []) hot) warm in
  (take k (sort_by scored_cmp (map snd (hash_iter seen))), decisions).

(** [search_internal] *)
Definition search_internal (mapping_free hnsw_free : bool) (now_ms : Z) (w : WarmTier) (query : list Z)
    (tenant : string) (project : option string) (k : nat) (debug : bool) (s : TieredSearcher G)
    : memd_result TieredSearchResult * TieredSearcher G :=
  let cfg := ti_config s in
  let counter := as_u64 (ti_query_counter s + 1) in
  let version := wt_get_version w in
  let '(cache_result, cache) :=
    if tr_enable_cache cfg
    then lookup_with_limit now_ms query tenant project version (Z.of_nat k) (ti_cache s)
    else (None, ti_cache s) in
  let out cache tracker := mkTiered cache (ti_hot_tier s) tracker cfg counter (ti_last_demotion_check s) in
  match cache_result with
  | Some hit =>
      let results := map (λ r, mkScored (cr_chunk_id r) (cr_score r) CacheTier) (take k (ch_results hit)) in
      (Ok (mkTieredResult results CacheTier true false []), out cache (ti_tracker s))
  | None =>
      let '(hot, tracker) :=
        if tr_enable_hot_tier cfg
        then hot_search mapping_free hnsw_free now_ms query k (ti_hot_tier s) (ti_tracker s)
        else (Ok [], ti_tracker s) in
      match hot with
      | Err e => (Err e, out cache tracker)
      | Ok hot_results =>
          match wt_search w query k with
          | Err e => (Err e, out cache tracker)
          | Ok warm_results =>
              let hot_tier_hit := negb (bool_decide (hot_results = [])) in
              let '(merged, decisions) := merge_results hot_results warm_results k debug in
              let tracker :=
                foldl (λ t r, record_access (access_event now_ms project (sd_chunk_id r)) t) tracker merged in
              let cache :=
                if tr_enable_cache cfg && negb (bool_decide (merged = []))
                then insert_with_limit now_ms query tenant project
                       (map (λ r, mkCached (sd_chunk_id r) (sd_score r) "") merged) version (Z.of_nat k) cache
                else cache in
              (Ok (mkTieredResult merged (if hot_tier_hit then HotSource else WarmSource) false hot_tier_hit
                     (if debug || tr_debug_tier_decisions cfg then decisions else [])),
               out cache tracker)
          end
      end
  end.

(** The loop of [check_promotions]. *)
Definition promote_step (now_ms : Z) (w : WarmTier) (cfg : TieredSearcherConfig) (tenant : string)
    (s : HotTier G * list TierDecision) (c : PromotionScore) : HotTier G * list TierDecision :=
  let '(h, ds) := s in
  if bool_decide (is_Some (ht_chunks h !! ps_chunk_id c)) then s
  else if f32_lt (ps_score c) (tr_promotion_threshold cfg) then s
  else
    match wt_get_embedding w (ps_chunk_id c) with
    | None => s
    | Some embedding =>
        let '(r, h) := promote now_ms (ps_chunk_id c) embedding tenant (ps_score c) h in
        match r with
        | Ok true =>
            (h, ds ++ [mkDecision (ps_chunk_id c) (Promote WarmSource (ps_score c)) (Some (ps_score c)) WarmSource])
        | _ => (h, ds)
        end
    end.

(** [check_promotions] *)
Definition check_promotions (now_ms : Z) (w : WarmTier) (tenant : string) (project : option string)
    (s : TieredSearcher G) : list TierDecision * TieredSearcher G :=
  if negb (tr_enable_hot_tier (ti_config s)) then ([], s)
  else
    let candidates := get_top_candidates now_ms 100 project (ti_tracker s) in
    let '(h, ds) := foldl (promote_step now_ms w (ti_config s) tenant) (ti_hot_tier s, []) candidates in
    (ds, mkTiered (ti_cache s) h (ti_tracker s) (ti_config s) (ti_query_counter s) (ti_last_demotion_check s)).

(** The loop of [check_demotions]. *)
Definition demote_step (threshold : f32) (s : HotTier G * list TierDecision) (c : PromotionScore)
    : HotTier G * list TierDecision :=
  let '(h, ds) := s in
  if negb (bool_decide (is_Some (ht_chunks h !! ps_chunk_id c))) then s
  else if f32_lt (ps_score c) threshold then
    let '(removed, h) := demote (ps_chunk_id c) h in
    if (removed : bool)
    then (h, ds ++ [mkDecision (ps_chunk_id c) Demote (Some (ps_score c)) HotSource]) else (h, ds)
  else s.

(** [check_demotions] *)
Definition check_demotions (now_ms : Z) (project : option string) (s : TieredSearcher G)
    : list TierDecision * TieredSearcher G :=
  let cfg := ti_config s in
  if negb (tr_enable_hot_tier cfg) then ([], s)
  else if ti_query_counter s <? tr_demotion_queries_threshold cfg then ([], s)
  else
    let threshold := f32_mul (tr_promotion_threshold cfg) (f32_lit 1 2) in
    let candidates := get_top_candidates now_ms 1000 project (ti_tracker s) in
    let '(h, ds) := foldl (demote_step threshold) (ti_hot_tier s, []) candidates in
    (ds, mkTiered (ti_cache s) h (ti_tracker s) cfg 0 (as_u64 now_ms)).

(** [MaintenanceResult] without the duration and the decision lists. *)
Record MaintenanceResult : Type := mkMaintenance {
  mr_promotions : nat;
  mr_demotions : nat;
  mr_evictions : nat;
}.

(** [run_maintenance] *)
Definition run_maintenance (now_ms : Z) (w : WarmTier) (tenant : string) (s : TieredSearcher G)
    : MaintenanceResult * TieredSearcher G :=
  let '(promotions, s) := check_promotions now_ms w tenant None s in
  let '(demotions, s) := check_demotions now_ms None s in
  let '(evictions, h) := evict_if_needed (wt_len w) (ti_hot_tier s) in
  (mkMaintenance (length promotions) (length demotions) evictions,
   mkTiered (prune_index (ti_cache s)) h (ti_tracker s) (ti_config s) (ti_query_counter s)
     (ti_last_demotion_check s)).

(** [maybe_promote_on_access] *)
Definition maybe_promote_on_access (now_ms : Z) (w : WarmTier) (c : ChunkId) (tenant : string)
    (project : option string) (s : TieredSearcher G) : option TierDecision * TieredSearcher G :=
  let cfg := ti_config s in
  if negb (tr_auto_promote_on_project_match cfg) || negb (tr_enable_hot_tier cfg) then (None, s)
  else
    match project with
    | None => (None, s)
    | Some p =>
        if bool_decide (is_Some (ht_chunks (ti_hot_tier s) !! c)) then (None, s)
        else
          let score := get_promotion_score now_ms c (Some p) (ti_tracker s) in
          if negb (ps_eligible score) || f32_lt (ps_score score) (tr_promotion_threshold cfg) then (None, s)
          else if f32_eq (ps_project_component score) f32_zero then (None, s)
          else
            match wt_get_embedding w c with
            | None => (None, s)
            | Some embedding =>
                let '(r, h) := promote now_ms c embedding tenant (ps_score score) (ti_hot_tier s) in
                let s := mkTiered (ti_cache s) h (ti_tracker s) cfg (ti_query_counter s) (ti_last_demotion_check s) in
                match r with
                | Ok true => (Some (mkDecision c (Promote WarmSource (ps_score score)) (Some (ps_score score)) WarmSource), s)
                | _ => (None, s)
                end
            end
    end.

End tiered.
