(* ===== verification/TieredProps.v ===== *)
(** * Tiered search: correctness

    The hot tier stays within its bound and evicts its lowest scores, the
    merge of hot and warm results is exact and does not depend on hash
    order, and a search returns current, deduplicated, ordered results. *)

From S2P Require Import Prelude Crates Types Ranking Fusion Packer EmbeddingCache DenseIndex DenseFacts.
From S2P Require Import Concrete DenseProps SemanticCache Tiered.
From Stdlib Require Import Floats.SpecFloat Sorting.Sorted.

Open Scope Z_scope.

(* ------------------------------------------------------------------ *)
(** ** Merging *)

(** The entries of [seen] once hot and warm results are in it. *)
Definition merged_from (hot warm : list SearchResult) (v : ScoredChunk) : Prop :=
  (∃ r, r ∈ hot ∧ v = hot_scored r) ∨
  (∃ r, r ∈ warm ∧ v = warm_scored r ∧ sd_chunk_id v ∉ map sr_chunk_id hot).

Lemma merge_hot_spec debug hot s :
  let m := (foldl (merge_hot debug) s hot).1 in
  ∀ id v, m !! id = Some v →
    s.1 !! id = Some v ∧ (id ∉ map sr_chunk_id hot) ∨
    (∃ r, r ∈ hot ∧ v = hot_scored r ∧ sr_chunk_id r = id).
Proof.
  revert s. induction hot as [|r hot IH]; intros s; cbn.
  - intros id v Hv. left. split; [done|]. apply not_elem_of_nil.
  - intros id v Hv. apply IH in Hv as [[Hv Hn]|(r' & Hr' & Hv)].
    + cbn in Hv. apply lookup_insert_Some in Hv as [[<- <-]|[Hne Hv]].
      * right. exists r. split; [by left|done].
      * left. split; [done|]. rewrite not_elem_of_cons. done.
    + right. exists r'. split; [by right|done].
Qed.

Lemma merge_hot_dom debug hot s id :
  id ∈ map sr_chunk_id hot ∨ is_Some (s.1 !! id) → is_Some ((foldl (merge_hot debug) s hot).1 !! id).
Proof.
  revert s. induction hot as [|r hot IH]; intros s; cbn [foldl map].
  - intros [Hid|?]; [by apply not_elem_of_nil in Hid|done].
  - intros Hid. apply IH. cbn. rewrite lookup_insert_is_Some', elem_of_cons in *. naive_solver.
Qed.

Lemma merge_warm_spec debug warm s :
  let m := (foldl (merge_warm debug) s warm).1 in
  (∀ id v, s.1 !! id = Some v → m !! id = Some v) ∧
  (∀ id, id ∈ map sr_chunk_id warm → is_Some (m !! id)) ∧
  (∀ id v, m !! id = Some v → s.1 !! id = Some v ∨
     (s.1 !! id = None ∧ ∃ r, r ∈ warm ∧ v = warm_scored r ∧ sr_chunk_id r = id)).
Proof.
  revert s. induction warm as [|r warm IH]; intros s; cbn [foldl map].
  - split_and!; [done| |by left]. intros id Hid. by apply not_elem_of_nil in Hid.
  - destruct (IH (merge_warm debug s r)) as (Hk & Hd & Hs). unfold merge_warm in *.
    destruct (s.1 !! sr_chunk_id r) as [v0|] eqn:E.
    + split_and!; [done| |].
      * intros id [->|Hid]%elem_of_cons; [|by apply Hd]. exists v0. by apply Hk.
      * intros id v [Hv|(Hn & r' & Hr' & Hv)]%Hs; [by left|right]. split; [done|].
        exists r'. split; [by right|done].
    + cbn [fst] in *. split_and!.
      * intros id v Hv. apply Hk. rewrite lookup_insert_ne by congruence. done.
      * intros id [->|Hid]%elem_of_cons; [|by apply Hd]. exists (warm_scored r). apply Hk.
        by rewrite lookup_insert_eq.
      * intros id v [Hv|(Hn & r' & Hr' & Hv)]%Hs.
        -- apply lookup_insert_Some in Hv as [[<- <-]|[Hne Hv]]; [|by left].
           right. split; [done|]. exists r. split; [by left|done].
        -- apply lookup_insert_None in Hn as [Hn Hne]. right. split; [done|].
           exists r'. split; [by right|done].
Qed.

(** The map of merged results. *)
Definition merged_map (debug : bool) (hot warm : list SearchResult) : gmap ChunkId ScoredChunk :=
  (foldl (merge_warm debug) (foldl (merge_hot debug) (∅, []) hot) warm).1.

Lemma merged_map_spec debug hot warm id :
  (∀ v, merged_map debug hot warm !! id = Some v → sd_chunk_id v = id ∧ merged_from hot warm v) ∧
  (id ∈ map sr_chunk_id (hot ++ warm) → is_Some (merged_map debug hot warm !! id)).
Proof.
  unfold merged_map. destruct (merge_warm_spec debug warm (foldl (merge_hot debug) (∅, []) hot)) as (Hk & Hd & Hs).
  pose proof (merge_hot_spec debug hot (∅, [])) as Hh. cbv zeta in Hh. split.
  - intros v [Hv|(Hn & r & Hr & -> & Hid)]%Hs.
    + apply Hh in Hv as [[Hv _]|(r & Hr & -> & Hid)]; [done|]. split; [done|]. left. by exists r.
    + split; [done|]. right. exists r. split_and!; [done..|]. cbn. rewrite Hid. intros Hin.
      destruct (merge_hot_dom debug hot (∅, []) id) as [v Hv]; [by left|congruence].
  - rewrite map_app, elem_of_app. intros [Hid|Hid]; [|by apply Hd].
    destruct (merge_hot_dom debug hot (∅, []) id) as [v Hv]; [by left|]. exists v. by apply Hk.
Qed.

Section merge.
Context `{HI : !HashIter ChunkId}.

Lemma merge_results_map hot warm k debug :
  (merge_results hot warm k debug).1 =
    take k (sort_by scored_cmp (map snd (hash_iter (merged_map debug hot warm)))).
Proof.
  unfold merge_results, merged_map. by destruct (foldl (merge_warm debug) _ warm).
Qed.

Lemma elem_of_merged debug hot warm v :
  v ∈ map snd (hash_iter (merged_map debug hot warm)) ↔
  merged_map debug hot warm !! sd_chunk_id v = Some v.
Proof.
  rewrite list_elem_of_fmap. split.
  - intros ([id v0] & -> & Hin). rewrite hash_iter_perm, elem_of_map_to_list in Hin. cbn.
    by destruct (proj1 (merged_map_spec debug hot warm id) _ Hin) as [-> _].
  - intros Hv. exists (sd_chunk_id v, v). split; [done|]. by rewrite hash_iter_perm, elem_of_map_to_list.
Qed.

Lemma merged_ids_NoDup debug hot warm :
  NoDup (map sd_chunk_id (map snd (hash_iter (merged_map debug hot warm)))).
Proof.
  rewrite map_map.
  assert (map (λ p, sd_chunk_id p.2) (hash_iter (merged_map debug hot warm)) =
          (hash_iter (merged_map debug hot warm)).*1) as ->.
  { apply map_ext_in. intros [id v] Hin%list_elem_of_In.
    rewrite hash_iter_perm, elem_of_map_to_list in Hin. cbn.
    by destruct (proj1 (merged_map_spec debug hot warm id) _ Hin) as [-> _]. }
  rewrite hash_iter_perm. apply NoDup_fst_map_to_list.
Qed.

End merge.

(** Two results that compare equal both ways are of the same chunk. *)
Lemma scored_cmp_antisym x y :
  scored sd_score x → scored sd_score y → cmp_le scored_cmp x y → cmp_le scored_cmp y x →
  sd_chunk_id x = sd_chunk_id y.
Proof.
  unfold scored, cmp_le, scored_cmp, score_desc. intros Hx Hy.
  rewrite !partial_cmp_key by done. rewrite (key_compare_antisym (f32_key (sd_score x))).
  unfold chunk_id_cmp. rewrite (N.compare_antisym (chunk_uuid (sd_chunk_id y))).
  destruct (key_compare _ _); cbn; [|done|done].
  destruct (N.compare_spec (chunk_uuid (sd_chunk_id y)) (chunk_uuid (sd_chunk_id x))) as [E| |]; try done.
  intros _ _. destruct (sd_chunk_id x), (sd_chunk_id y). cbn in E. by subst.
Qed.

(** The results handed to the merge carry numbers. *)
Definition numbers (rs : list SearchResult) : Prop := Forall (λ r, not_nan (sr_score r)) rs.

Lemma merged_scored debug hot warm v :
  numbers hot → numbers warm → merged_map debug hot warm !! sd_chunk_id v = Some v → scored sd_score v.
Proof.
  intros Hh Hw Hv. unfold numbers in *. rewrite Forall_forall in Hh, Hw.
  destruct (proj1 (merged_map_spec debug hot warm _) _ Hv) as [_ [(r & Hr & ->)|(r & Hr & -> & _)]];
    [exact (Hh r Hr)|exact (Hw r Hr)].
Qed.

(** merging hot and warm results is exact.  Every chunk either tier
    returned is merged once, with its hot score when the hot tier has it;
    the [k] best by score, ties by chunk id, are returned in order; and the
    answer is the same for every iteration order of the hash map. *)
Theorem merge_results_exact (h1 h2 : HashIter ChunkId) (hot warm : list SearchResult) (k : nat) (debug : bool) :
  numbers hot → numbers warm →
  let res := (merge_results (HI := h1) hot warm k debug).1 in
  res = (merge_results (HI := h2) hot warm k debug).1 ∧
  (length res ≤ k)%nat ∧ NoDup (map sd_chunk_id res) ∧ StronglySorted (cmp_le scored_cmp) res ∧
  (∀ v, v ∈ res → merged_from hot warm v) ∧
  ∀ id, id ∈ map sr_chunk_id (hot ++ warm) → (id ∉ map sd_chunk_id res) →
    length res = k ∧ ∃ v, sd_chunk_id v = id ∧ merged_from hot warm v ∧
      ∀ r, r ∈ res → cmp_le scored_cmp r v.
Proof.
  intros Hh Hw. cbv zeta. rewrite !merge_results_map.
  set (m := merged_map debug hot warm). set (l1 := map snd (hash_iter (HashIter := h1) m)).
  set (l2 := map snd (hash_iter (HashIter := h2) m)).
  assert (Hperm : l1 ≡ₚ l2) by (unfold l1, l2; by rewrite !hash_iter_perm).
  set (Pm := λ v, m !! sd_chunk_id v = Some v).
  assert (Hpre : PreorderOn scored_cmp Pm).
  { apply (PreorderOn_sub scored_cmp (scored sd_score)); [|apply score_desc_preorder; apply chunk_id_cmp_total].
    intros v Hv. exact (merged_scored debug hot warm v Hh Hw Hv). }
  assert (Hall : Forall Pm l1) 
    by (apply Forall_forall; intros v Hv; exact (proj1 (elem_of_merged (HI := h1) debug hot warm v) Hv)).
  assert (Hanti : ∀ x y, Pm x → Pm y → cmp_le scored_cmp x y → cmp_le scored_cmp y x → x = y).
  { intros x y Hx Hy Hxy Hyx. assert (sd_chunk_id x = sd_chunk_id y) as E.
    { apply scored_cmp_antisym; [exact (merged_scored debug hot warm _ Hh Hw Hx)|
        exact (merged_scored debug hot warm _ Hh Hw Hy)|done|done]. }
    unfold Pm in *. rewrite E in Hx. congruence. }
  pose proof (sort_by_sorted scored_cmp Pm l1 Hall) as Hsort.
  assert (Hnd : NoDup (map sd_chunk_id (sort_by scored_cmp l1))).
  { rewrite sort_by_Permutation. apply (merged_ids_NoDup (HI := h1)). }
  rewrite <-(take_drop k (sort_by scored_cmp l1)) in Hsort, Hnd.
  apply StronglySorted_app_inv in Hsort as (Hs1 & _ & Hs2). rewrite map_app, NoDup_app in Hnd.
  split_and!.
  - by rewrite (sort_by_Permutation_eq scored_cmp Pm l1 l2).
  - rewrite length_take. lia.
  - apply Hnd.
  - done.
  - intros v Hv%elem_of_take. destruct Hv as (i & Hi & _). apply list_elem_of_lookup_2 in Hi.
    rewrite elem_of_sort_by in Hi. apply (elem_of_merged (HI := h1)) in Hi.
    by apply (proj1 (merged_map_spec debug hot warm _)) in Hi as [_ ?].
  - intros id Hid Hn. destruct (proj2 (merged_map_spec debug hot warm id) Hid) as [v Hv].
    destruct (proj1 (merged_map_spec debug hot warm id) v Hv) as [Hidv Hfrom].
    assert (Hin : v ∈ sort_by scored_cmp l1).
    { rewrite elem_of_sort_by. apply (elem_of_merged (HI := h1)). by rewrite Hidv. }
    rewrite <-(take_drop k (sort_by scored_cmp l1)), elem_of_app in Hin.
    destruct Hin as [Hin|Hin]; [destruct Hn; rewrite <-Hidv; by apply list_elem_of_fmap_2|].
    split; [|exists v; split_and!; [done|done|]].
    + rewrite length_take. apply Nat.min_l. destruct (drop k _) eqn:Ed; [by apply not_elem_of_nil in Hin|].
      apply (f_equal length) in Ed. rewrite length_drop in Ed. cbn in Ed. lia.
    + intros r Hr. by apply Hs2.
Qed.

(* ------------------------------------------------------------------ *)
(** ** The hot tier *)

#[export] Instance score_asc_preorder : PreorderOn score_asc (λ p, not_nan p.2).
Proof.
  split; unfold score_asc.
  - intros x y Hx Hy. rewrite !partial_cmp_key by done.
    rewrite (key_compare_antisym (f32_key x.2)). by destruct (key_compare _ _).
  - intros x y z Hx Hy Hz. rewrite !partial_cmp_key by done. apply key_compare_trans.
Qed.

Lemma score_asc_le x y : not_nan x.2 → not_nan y.2 → cmp_le score_asc x y → f32_le x.2 y.2 = true.
Proof.
  intros Hx Hy. unfold cmp_le, score_asc, f32_le, SFleb.
  rewrite partial_cmp_key, SFcompare_key by done. by destruct (key_compare _ _).
Qed.

Lemma evict_fold l m n :
  NoDup l.*1 → (∀ id, id ∈ l.*1 → is_Some (m !! id)) →
  let '(m', n') := foldl evict_step (m, n) l in
  n' = (n + length l)%nat ∧ (size m' + length l = size m)%nat ∧
  ∀ id, m' !! id = if decide (id ∈ l.*1) then None else m !! id.
Proof.
  revert m n. induction l as [|[id sc] l IH]; intros m n Hnd Hdom; cbn [foldl].
  { split_and!; [cbn; lia..|]. intros id. rewrite decide_False; [done|apply not_elem_of_nil]. }
  apply NoDup_cons in Hnd as [Hni Hnd]. destruct (Hdom id) as [v Hv]; [by left|].
  unfold evict_step at 2. cbn [fst snd]. rewrite Hv.
  assert (Hdom' : ∀ id', id' ∈ l.*1 → is_Some (delete id m !! id')).
  { intros id' Hid'. rewrite lookup_delete_ne by (intros ->; done). apply Hdom. by right. }
  specialize (IH (delete id m) (S n) Hnd Hdom').
  destruct (foldl evict_step (delete id m, S n) l) as [m' n']. destruct IH as (-> & Hsz & Hl).
  pose proof (map_size_delete_Some id m ltac:(by eexists)) as Hs.
  pose proof (map_size_ne_0_lookup_2 m id ltac:(by eexists)) as Hnz.
  split_and!; [cbn; lia|cbn; lia|]. intros id'. rewrite Hl, lookup_delete. cbn.
  destruct (decide (id' ∈ id :: l.*1)) as [Hin|Hin].
  - case_decide as Hl1; [done|]. rewrite decide_True; [done|]. set_solver.
  - rewrite not_elem_of_cons in Hin. destruct Hin as [Hne Hin].
    rewrite !decide_False by congruence. done.
Qed.

Section hot_facts.
Context `{U : Uuid ChunkId} `{UL : !UuidLaws ChunkId} {G : Type} `{HG : Hnsw G} `{HGL : !HnswLaws G}.
Context `{LM : Libm} `{HI : !HashIter ChunkId}.
Implicit Types (h : HotTier G).

(** The promotion scores of the tier are numbers. *)
Definition hot_numbers (h : HotTier G) : Prop :=
  ∀ id v, ht_chunks h !! id = Some v → not_nan (hce_promotion_score v).

Lemma hot_scores_spec h id sc :
  (id, sc) ∈ map (λ p, (p.1, hce_promotion_score p.2)) (hash_iter (ht_chunks h)) ↔
  ∃ v, ht_chunks h !! id = Some v ∧ sc = hce_promotion_score v.
Proof.
  rewrite list_elem_of_fmap. split.
  - intros ([id0 v] & [= -> ->] & Hin). rewrite hash_iter_perm, elem_of_map_to_list in Hin. eauto.
  - intros (v & Hv & ->). exists (id, v). split; [done|]. by rewrite hash_iter_perm, elem_of_map_to_list.
Qed.

(** Evicting [n] chunks: exactly the [n] first of the ascending order. *)
Lemma evict_lowest_spec n h :
  hot_numbers h → (n ≤ size (ht_chunks h))%nat →
  let '(evicted, h') := evict_lowest_score n h in
  evicted = n ∧ (size (ht_chunks h') + n = size (ht_chunks h))%nat ∧
  ht_index h' = ht_index h ∧ ht_config h' = ht_config h ∧
  (∀ id v, ht_chunks h' !! id = Some v → ht_chunks h !! id = Some v) ∧
  (∀ id v id0 v0, ht_chunks h' !! id = Some v → ht_chunks h !! id0 = Some v0 → ht_chunks h' !! id0 = None →
     f32_le (hce_promotion_score v0) (hce_promotion_score v) = true).
Proof.
  intros Hnum Hn. unfold evict_lowest_score. destruct (Nat.eqb_spec n 0) as [->|Hnz].
  { split_and!; try done; try lia; intros; congruence. }
  set (l0 := map _ (hash_iter (ht_chunks h))). set (es := sort_by score_asc l0).
  assert (Hall : Forall (λ p : ChunkId * f32, not_nan p.2) l0).
  { apply Forall_forall. intros [id sc] Hin. apply hot_scores_spec in Hin as (v & Hv & ->). by eapply Hnum. }
  pose proof (sort_by_sorted score_asc _ l0 Hall) as Hs. fold es in Hs.
  assert (Hids : es.*1 ≡ₚ (map_to_list (ht_chunks h)).*1).
  { unfold es. rewrite sort_by_Permutation. unfold l0. by rewrite <-list_fmap_compose, hash_iter_perm. }
  assert (Hlen : length es = size (ht_chunks h)).
  { rewrite <-(length_fmap fst), Hids, length_fmap. apply length_map_to_list. }
  rewrite <-(take_drop n es) in Hs. apply StronglySorted_app_inv in Hs as (_ & _ & Hlow).
  assert (Hnd : NoDup es.*1) by (rewrite Hids; apply NoDup_fst_map_to_list).
  pose proof (evict_fold (take n es) (ht_chunks h) 0) as Hf.
  destruct (foldl evict_step (ht_chunks h, O) (take n es)) as [m' ev]. destruct Hf as (-> & Hsz & Hl).
  { rewrite fmap_take. eapply sublist_NoDup; [exact Hnd|]. apply sublist_take. }
  { intros id ((id0 & sc) & -> & Hin)%list_elem_of_fmap. apply elem_of_take in Hin as (i & Hi & _).
    apply list_elem_of_lookup_2 in Hi. unfold es in Hi. rewrite elem_of_sort_by in Hi.
    apply hot_scores_spec in Hi as (v & Hv & _). by exists v. }
  rewrite length_take, Nat.min_l in * by lia. cbn [ht_chunks ht_index ht_config].
  assert (Hes : ∀ id v, ht_chunks h !! id = Some v → (id, hce_promotion_score v) ∈ take n es ++ drop n es).
  { intros id v Hv. rewrite take_drop. unfold es. rewrite elem_of_sort_by. apply hot_scores_spec. eauto. }
  split_and!; [lia|lia|done|done| |].
  - intros id v. rewrite Hl. by case_decide.
  - intros id v id0 v0. rewrite !Hl. case_decide as H1; [done|]. intros Hv Hv0.
    case_decide as H2; [intros _|by rewrite Hv0].
    apply list_elem_of_fmap in H2 as ((i & sc) & -> & Hin0). cbn in *.
    assert (Hsc : (i, hce_promotion_score v0) ∈ take n es).
    { pose proof (Hes _ _ Hv0) as [?|Hd]%elem_of_app; [done|]. exfalso.
      rewrite <-(take_drop n es) in Hnd. rewrite fmap_app, NoDup_app in Hnd. destruct Hnd as (_ & Hdis & _).
      apply (Hdis i); [by apply (list_elem_of_fmap_2' fst _ (i, sc))|by apply (list_elem_of_fmap_2' fst _ (i, hce_promotion_score v0))]. }
    assert (Hk : (id, hce_promotion_score v) ∈ drop n es).
    { pose proof (Hes _ _ Hv) as [Ht|?]%elem_of_app; [|done]. destruct H1.
      by apply (list_elem_of_fmap_2' fst _ (id, hce_promotion_score v)). }
    apply (score_asc_le (i, hce_promotion_score v0) (id, hce_promotion_score v));
      [by eapply Hnum|by eapply Hnum|]. by apply Hlow.
Qed.

(** eviction brings the hot tier to its capacity by removing exactly the
    surplus, and removes the lowest scores: no chunk that stays has a lower
    promotion score than one that went. *)
Theorem hot_tier_evicts_lowest (total_indexed : nat) (h : HotTier G) :
  hot_numbers h →
  let '(evicted, h') := evict_if_needed total_indexed h in
  let capacity := calculate_capacity total_indexed h in
  size (ht_chunks h') = Nat.min capacity (size (ht_chunks h)) ∧
  evicted = (size (ht_chunks h) - size (ht_chunks h'))%nat ∧
  (∀ id v, ht_chunks h' !! id = Some v → ht_chunks h !! id = Some v) ∧
  (∀ id v id0 v0, ht_chunks h' !! id = Some v → ht_chunks h !! id0 = Some v0 → ht_chunks h' !! id0 = None →
     f32_le (hce_promotion_score v0) (hce_promotion_score v) = true).
Proof.
  intros Hnum. unfold evict_if_needed. case_bool_decide as Hc.
  { split_and!; [lia|lia|done|]. intros; congruence. }
  pose proof (evict_lowest_spec (size (ht_chunks h) - calculate_capacity total_indexed h) h Hnum ltac:(lia)) as He.
  destruct (evict_lowest_score _ h) as [ev h']. destruct He as (-> & Hsz & _ & _ & Hsub & Hlow).
  split_and!; [lia|lia|done|done].
Qed.

End hot_facts.

(* ------------------------------------------------------------------ *)
(** ** Runs of the tiered searcher *)

(** The calls on a searcher, the steps of moka and of the store included. *)
Inductive TieredCall : Type :=
| TSearch (mapping_free hnsw_free : bool) (now_ms : Z) (w : WarmTier) (query : list Z) (tenant : string)
    (project : option string) (k : nat) (debug : bool)
| TMaintenance (now_ms : Z) (w : WarmTier) (tenant : string)
| TAccess (now_ms : Z) (w : WarmTier) (c : ChunkId) (tenant : string) (project : option string)
| TInvalidateChunks (chunk_ids : list ChunkId)
| TEvict (key : string).

Section tiered_facts.
Context `{U : Uuid ChunkId} `{UL : !UuidLaws ChunkId} {G : Type} `{HG : Hnsw G} `{HGL : !HnswLaws G}.
Context `{LM : Libm} `{HI : !HashIter ChunkId} `{SHA : Sha256Digest}.
Implicit Types (s : TieredSearcher G) (h : HotTier G).

Definition with_cache (f : SemanticCache → SemanticCache) (s : TieredSearcher G) : TieredSearcher G :=
  mkTiered (f (ti_cache s)) (ti_hot_tier s) (ti_tracker s) (ti_config s) (ti_query_counter s)
    (ti_last_demotion_check s).

Definition tiered_call (s : TieredSearcher G) (o : TieredCall) : TieredSearcher G :=
  match o with
  | TSearch mf hf now w q t p k debug => (search_internal mf hf now w q t p k debug s).2
  | TMaintenance now w t => (run_maintenance now w t s).2
  | TAccess now w c t p => (maybe_promote_on_access now w c t p s).2
  | TInvalidateChunks ids => with_cache (invalidate_chunks ids) s
  | TEvict key => with_cache (evict key) s
  end.

Definition tiered_new (cc : SemanticCacheConfig) (hc : HotTierConfig) (tc : AccessTrackerConfig)
    (cfg : TieredSearcherConfig) (now_ms : Z) : TieredSearcher G :=
  mkTiered (semantic_cache_new cc) (hot_tier_new hc) (access_tracker_new tc) cfg 0 (as_u64 now_ms).

Definition tiered_run (s0 : TieredSearcher G) (calls : list TieredCall) : TieredSearcher G :=
  foldl tiered_call s0 calls.

(** *** The hot tier stays within its bound *)

Record hot_inv (h : HotTier G) : Prop := {
  hi_index : index_inv (ht_index h);
  hi_bound : (size (ht_chunks h) ≤ ht_max_chunks (ht_config h))%nat;
}.

Lemma promote_spec now c e t sc h :
  hot_inv h →
  let '(r, h') := promote now c e t sc h in
  hot_inv h' ∧ ht_config h' = ht_config h ∧
  (∀ id, is_Some (ht_chunks h !! id) → is_Some (ht_chunks h' !! id)) ∧
  (r = Ok true → is_Some (ht_chunks h' !! c)) ∧
  (∀ id, is_Some (ht_chunks h' !! id) → id = c ∨ is_Some (ht_chunks h !! id)).
Proof.
  intros Hh. unfold promote. case_bool_decide as H1; [by split_and!; auto|].
  case_bool_decide as H2; [by split_and!; auto|]. destruct Hh as [Hi Hb].
  pose proof (index_insert_spec c e (ht_index h) Hi) as Hs.
  destruct (index_insert c e (ht_index h)) as [r x']. destruct Hs as (Hi' & _ & _ & _).
  destruct r as [[]|err]; cbn; split_and!; try done; try by auto.
  - constructor; cbn; [done|]. rewrite map_size_insert_None by (by apply eq_None_not_Some). lia.
  - intros id Hid. rewrite lookup_insert_is_Some'. by right.
  - intros _. by rewrite lookup_insert_eq.
  - intros id. rewrite lookup_insert_is_Some'. intros [->|?]; auto.
Qed.

Lemma promote_fold_inv now w cfg t cs h ds :
  hot_inv h →
  let '(h', ds') := foldl (promote_step now w cfg t) (h, ds) cs in
  hot_inv h' ∧ ht_config h' = ht_config h.
Proof.
  revert h ds. induction cs as [|c cs IH]; intros h ds Hh; [done|]. cbn [foldl].
  assert (Hst : hot_inv (promote_step now w cfg t (h, ds) c).1 ∧
                ht_config (promote_step now w cfg t (h, ds) c).1 = ht_config h).
  { unfold promote_step. repeat (case_match; try done). all: simplify_eq.
    all: match goal with
         | E : promote ?n ?c ?e ?t ?sc ?h = _ |- _ =>
             pose proof (promote_spec n c e t sc h Hh) as Hp; rewrite E in Hp
         end; by destruct Hp as (? & ? & _). }
  destruct (promote_step now w cfg t (h, ds) c) as [h1 ds1]. cbn [fst] in Hst. destruct Hst as [Hi1 Hc1].
  specialize (IH h1 ds1 Hi1). destruct (foldl _ (h1, ds1) cs) as [h' ds']. destruct IH. split; [done|congruence].
Qed.

Lemma demote_inv c h :
  hot_inv h → hot_inv (demote c h).2 ∧ ht_config (demote c h).2 = ht_config h.
Proof.
  intros [Hi Hb]. unfold demote. destruct (ht_chunks h !! c) as [v|] eqn:E; cbn; [|by split].
  split; [|done]. constructor; cbn; [done|].
  pose proof (map_size_delete_Some c (ht_chunks h) ltac:(by eexists)). lia.
Qed.

Lemma demote_fold_inv th cs h ds :
  hot_inv h →
  let '(h', ds') := foldl (demote_step th) (h, ds) cs in
  hot_inv h' ∧ ht_config h' = ht_config h.
Proof.
  revert h ds. induction cs as [|c cs IH]; intros h ds Hh; [done|]. cbn [foldl].
  assert (Hst : hot_inv (demote_step th (h, ds) c).1 ∧ ht_config (demote_step th (h, ds) c).1 = ht_config h).
  { unfold demote_step. pose proof (demote_inv (ps_chunk_id c) h Hh) as Hd.
    repeat (case_match; try done). all: simplify_eq; by destruct Hd. }
  destruct (demote_step th (h, ds) c) as [h1 ds1]. cbn [fst] in Hst. destruct Hst as [Hi1 Hc1].
  specialize (IH h1 ds1 Hi1). destruct (foldl _ (h1, ds1) cs) as [h' ds']. destruct IH. split; [done|congruence].
Qed.

Lemma evict_step_size l m n :
  (size (foldl evict_step (m, n) l).1 ≤ size m)%nat.
Proof.
  revert m n. induction l as [|[id sc] l IH]; intros m n; cbn [foldl]; [done|].
  unfold evict_step at 2. cbn. destruct (m !! id) as [v|] eqn:E; [|apply IH].
  etrans; [apply IH|]. rewrite map_size_delete_Some by (by eexists). lia.
Qed.

Lemma evict_if_needed_inv n h :
  hot_inv h → hot_inv (evict_if_needed n h).2 ∧ ht_config (evict_if_needed n h).2 = ht_config h.
Proof.
  intros [Hi Hb]. unfold evict_if_needed, evict_lowest_score. repeat case_match; cbn; try by split.
  all: split; [|done]; constructor; cbn; [done|].
  all: match goal with
       | E : foldl evict_step (?m, _) ?l = _ |- _ =>
           pose proof (evict_step_size l m 0) as Hs; rewrite E in Hs
       end; cbn in Hs; lia.
Qed.

Lemma tiered_call_hot s o :
  hot_inv (ti_hot_tier s) →
  hot_inv (ti_hot_tier (tiered_call s o)) ∧
  ht_config (ti_hot_tier (tiered_call s o)) = ht_config (ti_hot_tier s).
Proof.
  intros Hh. destruct o as [mf hf now w q t p k debug|now w t|now w c t p|ids|key]; cbn [tiered_call]; try done.
  - unfold search_internal. by repeat case_match.
  - assert (Hp : hot_inv (ti_hot_tier (check_promotions now w t None s).2) ∧
      ht_config (ti_hot_tier (check_promotions now w t None s).2) = ht_config (ti_hot_tier s)).
    { unfold check_promotions. case_match; [done|].
      pose proof (promote_fold_inv now w (ti_config s) t
        (get_top_candidates now 100 None (ti_tracker s)) (ti_hot_tier s) [] Hh) as Hf.
      by destruct (foldl _ _ _). }
    unfold run_maintenance. destruct (check_promotions now w t None s) as [ds1 s1]. cbn [snd] in Hp.
    destruct Hp as [Hp1 Hp2].
    assert (Hd : hot_inv (ti_hot_tier (check_demotions now None s1).2) ∧
      ht_config (ti_hot_tier (check_demotions now None s1).2) = ht_config (ti_hot_tier s1)).
    { unfold check_demotions. case_match; [done|]. case_match; [done|].
      pose proof (demote_fold_inv (f32_mul (tr_promotion_threshold (ti_config s1)) (f32_lit 1 2))
        (get_top_candidates now 1000 None (ti_tracker s1)) (ti_hot_tier s1) [] Hp1) as Hf.
      by destruct (foldl _ _ _). }
    destruct (check_demotions now None s1) as [ds2 s2]. cbn [snd] in Hd. destruct Hd as [Hd1 Hd2].
    pose proof (evict_if_needed_inv (wt_len w) _ Hd1) as He.
    destruct (evict_if_needed (wt_len w) (ti_hot_tier s2)) as [n h']. cbn in *. destruct He. split; [done|congruence].
  - unfold maybe_promote_on_access. repeat (case_match; try done). all: simplify_eq; cbn.
    all: match goal with
         | E : promote ?n ?c ?e ?t ?sc ?h = _ |- _ =>
             pose proof (promote_spec n c e t sc h Hh) as Hp; rewrite E in Hp
         end; by destruct Hp as (? & ? & _).
Qed.

Lemma tiered_run_hot cc hc tc cfg now calls :
  hot_inv (ti_hot_tier (tiered_run (tiered_new cc hc tc cfg now) calls)) ∧
  ht_config (ti_hot_tier (tiered_run (tiered_new cc hc tc cfg now) calls)) = hc.
Proof.
  induction calls as [|o calls [IH1 IH2]] using rev_ind.
  - split; [|done]. constructor; cbn; [|rewrite map_size_empty; lia].
    constructor; cbn; [apply mapping_new_inv|by constructor|done|done|].
    intros e id. unfold index_graph_new. rewrite points_new. by intros ?%not_elem_of_nil.
  - unfold tiered_run in *. rewrite foldl_app. cbn [foldl].
    destruct (tiered_call_hot _ o IH1) as [H1 H2]. split; [done|congruence].
Qed.

(** *** What a run does to the cache *)

Definition cached_results (rs : list ScoredChunk) : list CachedResult :=
  map (λ r, mkCached (sd_chunk_id r) (sd_score r) "") rs.

(** The cache steps of one call. *)
Definition call_steps (s : TieredSearcher G) (o : TieredCall) : list CacheStep :=
  match o with
  | TSearch mf hf now w q t p k debug =>
      if tr_enable_cache (ti_config s) then
        SLookup now q t p (wt_get_version w) (Z.of_nat k) ::
        match (search_internal mf hf now w q t p k debug s).1 with
        | Ok r => if tsr_cache_hit r || bool_decide (tsr_results r = []) then []
                  else [SInsert now q t p (cached_results (tsr_results r)) (wt_get_version w) (Z.of_nat k)]
        | Err _ => []
        end
      else []
  | TMaintenance _ _ _ => [SPrune]
  | TAccess _ _ _ _ _ => []
  | TInvalidateChunks ids => [SInvalidateChunks ids]
  | TEvict key => [SEvict key]
  end.

Lemma call_steps_cache s o :
  ti_cache (tiered_call s o) = foldl cache_step (ti_cache s) (call_steps s o).
Proof.
  destruct o as [mf hf now w q t p k debug|now w t|now w c t p|ids|key]; cbn [tiered_call call_steps]; try done.
  - unfold search_internal. destruct (tr_enable_cache (ti_config s)).
    + cbn [foldl cache_step]. destruct (lookup_with_limit _ _ _ _ _ _ _) as [[hit|] c1]; cbn [snd]; [done|].
      destruct (if tr_enable_hot_tier (ti_config s) then _ else _) as [[hot|e] tr]; [|done].
      destruct (wt_search w q k) as [warm|e]; [|done].
      destruct (merge_results hot warm k debug) as [merged ds]. cbn.
      by case_bool_decide.
    + destruct (if tr_enable_hot_tier (ti_config s) then _ else _) as [[hot|e] tr]; [|done].
      destruct (wt_search w q k) as [warm|e]; [|done].
      by destruct (merge_results hot warm k debug) as [merged ds].
  - unfold run_maintenance. assert (ti_cache (check_promotions now w t None s).2 = ti_cache s) as Hp.
    { unfold check_promotions. case_match; [done|]. by destruct (foldl _ _ _). }
    destruct (check_promotions now w t None s) as [ds1 s1]. cbn [snd] in Hp.
    assert (ti_cache (check_demotions now None s1).2 = ti_cache s1) as Hd.
    { unfold check_demotions. case_match; [done|]. case_match; [done|]. by destruct (foldl _ _ _). }
    destruct (check_demotions now None s1) as [ds2 s2]. cbn [snd] in Hd.
    destruct (evict_if_needed _ _). cbn. by rewrite Hd, Hp.
  - unfold maybe_promote_on_access. by repeat case_match.
Qed.

Fixpoint run_steps (s : TieredSearcher G) (calls : list TieredCall) : list CacheStep :=
  match calls with
  | [] => []
  | o :: calls => call_steps s o ++ run_steps (tiered_call s o) calls
  end.

Lemma run_steps_cache s calls :
  ti_cache (tiered_run s calls) = foldl cache_step (ti_cache s) (run_steps s calls).
Proof.
  revert s. induction calls as [|o calls IH]; intros s; [done|]. cbn [run_steps].
  rewrite foldl_app, <-call_steps_cache. apply IH.
Qed.

(** An insert among the steps of a run comes from one of its calls, and
    what is invalidated by a later call is invalidated after it. *)
Lemma run_steps_split s calls pre now q t p res v l post :
  run_steps s calls = pre ++ SInsert now q t p res v l :: post →
  ∃ cpre o cpost, calls = cpre ++ o :: cpost ∧ SInsert now q t p res v l ∈ call_steps (tiered_run s cpre) o ∧
    ∀ ids, TInvalidateChunks ids ∈ cpost → SInvalidateChunks ids ∈ post.
Proof.
  revert s pre. induction calls as [|o calls IH]; intros s pre Hs; cbn [run_steps] in Hs.
  { by destruct pre. }
  assert (Hinv : ∀ s', ∀ ids, TInvalidateChunks ids ∈ calls → SInvalidateChunks ids ∈ run_steps s' calls).
  { clear. induction calls as [|o calls IH]; intros s' ids Hin; [by apply not_elem_of_nil in Hin|].
    cbn [run_steps]. apply elem_of_app. apply elem_of_cons in Hin as [<-|Hin]; [by left; left|].
    right. by apply IH. }
  apply app_eq_app in Hs as (k & [[Hc Hr]|[Hc Hr]]).
  - destruct k as [|st k]; cbn in Hr.
    + rewrite app_nil_r in Hc.
      destruct (IH (tiered_call s o) [] (eq_sym Hr)) as (cpre & o' & cpost & -> & Hin & Hp).
      exists (o :: cpre), o', cpost. by split_and!.
    + injection Hr as <- Hr. exists [], o, calls. split_and!; [done| |].
      * change (tiered_run s []) with s. rewrite Hc. apply elem_of_app. right. left.
      * intros ids Hin. rewrite Hr. apply elem_of_app. right. by apply Hinv.
  - destruct (IH (tiered_call s o) k Hr) as (cpre & o' & cpost & -> & Hin & Hp).
    exists (o :: cpre), o', cpost. by split_and!.
Qed.

Lemma search_insert_step s o now q t p res v l :
  SInsert now q t p res v l ∈ call_steps s o →
  ∃ mf hf w k debug r, o = TSearch mf hf now w q t p k debug ∧
    (search_internal mf hf now w q t p k debug s).1 = Ok r ∧ tsr_cache_hit r = false ∧
    res = cached_results (tsr_results r) ∧ v = wt_get_version w ∧ l = Z.of_nat k.
Proof.
  destruct o as [mf hf now0 w q0 t0 p0 k debug|now0 w t0|now0 w c t0 p0|ids|key]; cbn [call_steps].
  2-5: set_solver.
  destruct (tr_enable_cache (ti_config s)); [|set_solver].
  intros [?|Hin]%elem_of_cons; [done|]. destruct (search_internal _ _ _ _ _ _ _ _ _ _).1 as [r|] eqn:E; [|set_solver].
  destruct (tsr_cache_hit r || bool_decide (tsr_results r = [])) eqn:Eh; [set_solver|].
  apply list_elem_of_singleton in Hin. injection Hin as -> -> -> -> -> -> ->.
  apply orb_false_iff in Eh as [Eh _].
  eexists _, _, _, _, _, r. by split_and!.
Qed.

(** *** Answers *)

(** A search that was not answered from the cache. *)
Lemma search_uncached mf hf now w q t p k debug s r s' :
  index_inv (ht_index (ti_hot_tier s)) →
  (∀ rs, wt_search w q k = Ok rs → numbers rs) →
  search_internal mf hf now w q t p k debug s = (Ok r, s') → tsr_cache_hit r = false →
  (length (tsr_results r) ≤ k)%nat ∧ NoDup (map sd_chunk_id (tsr_results r)) ∧
  StronglySorted (cmp_le scored_cmp) (tsr_results r) ∧
  ∃ warm, wt_search w q k = Ok warm ∧
    ∀ v, v ∈ tsr_results r →
      is_Some (ht_chunks (ti_hot_tier s) !! sd_chunk_id v) ∨ sd_chunk_id v ∈ map sr_chunk_id warm.
Proof.
  intros Hinv Hwarm Hs Hh. unfold search_internal in Hs.
  destruct (if tr_enable_cache (ti_config s) then _ else _) as [[hit|] c1]; [by simplify_eq|].
  destruct (if tr_enable_hot_tier (ti_config s) then _ else _) as [[hot|e] tr] eqn:Eh; [|done].
  destruct (wt_search w q k) as [warm|e] eqn:Ew; [|done].
  destruct (merge_results hot warm k debug) as [merged ds] eqn:Em. injection Hs as <- <-. cbn [tsr_results].
  assert (Hhot : numbers hot ∧ ∀ x, x ∈ hot → is_Some (ht_chunks (ti_hot_tier s) !! sr_chunk_id x)).
  { destruct (tr_enable_hot_tier (ti_config s)).
    2: { injection Eh as <- _. split; [constructor|]. intros x Hx. by apply not_elem_of_nil in Hx. }
    unfold hot_search in Eh. destruct (index_search mf hf q k _) as [rs|] eqn:Ei; [|done].
    injection Eh as <- _. apply index_search_spec in Ei as [_ Hall]; [|done]. split.
    - apply Forall_forall. intros x [_ Hx]%list_elem_of_filter. rewrite Forall_forall in Hall.
      by destruct (Hall x Hx) as [_ [? _]].
    - by intros x [? _]%list_elem_of_filter. }
  destruct Hhot as [Hnum Hin]. destruct (merge_results_exact HI HI hot warm k debug Hnum (Hwarm _ eq_refl))
    as (_ & Hlen & Hnd & Hsort & Hfrom & _). rewrite Em in *. cbn [fst] in *.
  split_and!; [done..|]. exists warm. split; [done|]. intros v [(x & Hx & ->)|(x & Hx & -> & _)]%Hfrom.
  - left. by apply Hin.
  - right. by apply (list_elem_of_fmap_2 sr_chunk_id).
Qed.

(** a tiered search answers soundly after any run of searches,
    maintenance, promotions, invalidations and evictions.  At most [k]
    results come back.  An uncached answer has no chunk twice, is sorted by
    score with ties by chunk id, and every chunk in it is in the hot tier or
    among the warm results of this search.  A cached answer is the beginning
    of the uncached answer that an earlier search for the same tenant and
    project gave, with at least the same limit and at a memory version not
    older than the current one, and none of that answer's chunks was
    invalidated since. *)
Theorem tiered_search_sound cc hc tc cfg now0 (calls : list TieredCall) mf hf now w q t p k debug r s' :
  let s0 : TieredSearcher G := tiered_new cc hc tc cfg now0 in
  (∀ rs, wt_search w q k = Ok rs → numbers rs) →
  search_internal mf hf now w q t p k debug (tiered_run s0 calls) = (Ok r, s') →
  (length (tsr_results r) ≤ k)%nat ∧
  if tsr_cache_hit r then
    ∃ pre mf1 hf1 now1 w1 q1 k1 debug1 post r1,
      calls = pre ++ TSearch mf1 hf1 now1 w1 q1 t p k1 debug1 :: post ∧
      (search_internal mf1 hf1 now1 w1 q1 t p k1 debug1 (tiered_run s0 pre)).1 = Ok r1 ∧
      tsr_cache_hit r1 = false ∧ wt_get_version w ≤ wt_get_version w1 ∧ (k ≤ k1)%nat ∧
      map (λ v, (sd_chunk_id v, sd_score v)) (tsr_results r) =
        take k (map (λ v, (sd_chunk_id v, sd_score v)) (tsr_results r1)) ∧
      ∀ ids v, TInvalidateChunks ids ∈ post → v ∈ tsr_results r1 → sd_chunk_id v ∉ ids
  else
    NoDup (map sd_chunk_id (tsr_results r)) ∧ StronglySorted (cmp_le scored_cmp) (tsr_results r) ∧
    ∃ warm, wt_search w q k = Ok warm ∧ ∀ v, v ∈ tsr_results r →
      is_Some (ht_chunks (ti_hot_tier (tiered_run s0 calls)) !! sd_chunk_id v) ∨
      sd_chunk_id v ∈ map sr_chunk_id warm.
Proof.
  intros s0 Hwarm Hs. destruct (tsr_cache_hit r) eqn:Eh.
  2: { eapply search_uncached; [apply tiered_run_hot|done..]. }
  unfold search_internal in Hs.
  destruct (tr_enable_cache (ti_config (tiered_run s0 calls))); cycle 1.
  { repeat (case_match; try done). all: by simplify_eq. }
  rewrite run_steps_cache in Hs. change (ti_cache s0) with (semantic_cache_new cc) in Hs.
  fold (cache_run cc (run_steps s0 calls)) in Hs.
  destruct (lookup_with_limit now q t p (wt_get_version w) (Z.of_nat k) _) as [[hit|] c1] eqn:El.
  2: { repeat (case_match; try done). all: by simplify_eq. }
  injection Hs as <- _. cbn [tsr_results]. rewrite length_map, length_take. split; [lia|].
  apply cache_hit_sound in El as (pre & post & now1 & q1 & v1 & l1 & Hst & Hv & Hl & _ & _ & _ & Hends).
  apply run_steps_split in Hst as (cpre & o & cpost & -> & Hin & Hpost).
  apply search_insert_step in Hin as (mf1 & hf1 & w1 & k1 & d1 & r1 & -> & Hs1 & Hh1 & Hres & -> & ->).
  exists cpre, mf1, hf1, now1, w1, q1, k1, d1, cpost, r1. split_and!; try done; [lia| |].
  - rewrite Hres, map_map. unfold cached_results. by rewrite !firstn_map, map_map.
  - intros ids v Hids Hv1 Hid. rewrite Forall_forall in Hends. apply (Hends _ (Hpost _ Hids)).
    cbn. exists (mkCached (sd_chunk_id v) (sd_score v) ""). rewrite Hres. split; [|done].
    by apply (list_elem_of_fmap_2 (λ r, mkCached (sd_chunk_id r) (sd_score r) "")).
Qed.

(** Without an embedding nothing is promoted. *)
Lemma promote_fold_none now w cfg t cs h ds :
  (∀ c, wt_get_embedding w c = None) → foldl (promote_step now w cfg t) (h, ds) cs = (h, ds).
Proof.
  intros Hn. induction cs as [|c cs IH]; [done|]. cbn [foldl].
  assert (promote_step now w cfg t (h, ds) c = (h, ds)) as ->; [|done].
  unfold promote_step. rewrite Hn. by repeat case_match.
Qed.

Lemma demote_fold_empty th cs h ds :
  ht_chunks h = ∅ → foldl (demote_step th) (h, ds) cs = (h, ds).
Proof.
  intros He. induction cs as [|c cs IH]; [done|]. cbn [foldl].
  assert (demote_step th (h, ds) c = (h, ds)) as ->; [|done].
  unfold demote_step. by rewrite He, lookup_empty.
Qed.

Lemma maintenance_empty now w t s :
  (∀ c, wt_get_embedding w c = None) → ht_chunks (ti_hot_tier s) = ∅ →
  ht_chunks (ti_hot_tier (run_maintenance now w t s).2) = ∅.
Proof.
  intros Hn He. unfold run_maintenance.
  assert (ti_hot_tier (check_promotions now w t None s).2 = ti_hot_tier s) as Hp.
  { unfold check_promotions. case_match; [done|]. by rewrite promote_fold_none. }
  destruct (check_promotions now w t None s) as [ds1 s1]. cbn [snd] in Hp.
  assert (ti_hot_tier (check_demotions now None s1).2 = ti_hot_tier s1) as Hd.
  { unfold check_demotions. case_match; [done|]. case_match; [done|].
    by rewrite demote_fold_empty by (by rewrite Hp). }
  destruct (check_demotions now None s1) as [ds2 s2]. cbn [snd] in Hd.
  unfold evict_if_needed. rewrite Hd, Hp, He, map_size_empty, bool_decide_true by lia. done.
Qed.

(** The warm tiers of a call's promotions have no embedding. *)
Definition no_embeddings (o : TieredCall) : Prop :=
  match o with
  | TMaintenance _ w _ | TAccess _ w _ _ _ => ∀ c, wt_get_embedding w c = None
  | _ => True
  end.

Lemma no_embeddings_empty s o :
  no_embeddings o → ht_chunks (ti_hot_tier s) = ∅ → ht_chunks (ti_hot_tier (tiered_call s o)) = ∅.
Proof.
  intros Hn He. destruct o as [mf hf now w q t p k debug|now w t|now w c t p|ids|key]; cbn [tiered_call]; try done.
  - unfold search_internal. by repeat case_match.
  - by apply maintenance_empty.
  - unfold maybe_promote_on_access. rewrite Hn. by repeat case_match.
Qed.

(** *** What enters the hot tier *)

(** [h'] has nothing but what [h] has and what [new] allows. *)
Definition only_adds (new : ChunkId → HotChunkEntry → Prop) (h h' : HotTier G) : Prop :=
  ∀ c e, ht_chunks h' !! c = Some e → ht_chunks h !! c = Some e ∨ (ht_chunks h !! c = None ∧ new c e).

Lemma only_adds_trans (P : ChunkId → HotChunkEntry → Prop) h1 h2 h3 :
  only_adds P h1 h2 → (∀ c, ht_chunks h2 !! c = None → ht_chunks h1 !! c = None) → only_adds P h2 h3 → only_adds P h1 h3.
Proof.
  intros H12 Hm H23 c e Hc. destruct (H23 c e Hc) as [H|[H1 H2]]; [by apply H12|right; auto].
Qed.

Lemma only_adds_shrink (P : ChunkId → HotChunkEntry → Prop) h1 h2 h3 :
  only_adds P h1 h2 → ht_chunks h3 ⊆ ht_chunks h2 → only_adds P h1 h3.
Proof. intros H12 Hs c e Hc. apply H12. by eapply lookup_weaken. Qed.

(** The entry a promotion makes. *)
Record promoted (cfg : TieredSearcherConfig) (now_ms : Z) (w : WarmTier) (t : string) (p : PromotionScore)
    (c : ChunkId) (e : HotChunkEntry) : Prop := {
  pm_id : ps_chunk_id p = c;
  pm_score : f32_lt (ps_score p) (tr_promotion_threshold cfg) = false;
  pm_embedding : wt_get_embedding w c = Some (hce_embedding e);
  pm_entry : e = mkHotChunk c (hce_embedding e) now_ms (ps_score p) t;
}.

Lemma promote_adds now c emb t sc h :
  only_adds (λ c' e, c' = c ∧ e = mkHotChunk c emb now sc t) h (promote now c emb t sc h).2 ∧
  ht_chunks h ⊆ ht_chunks (promote now c emb t sc h).2.
Proof.
  unfold promote. case_bool_decide as Hc; [by split; [left|]|]. case_bool_decide; [by split; [left|]|].
  destruct (index_insert c emb (ht_index h)) as [[[]|err] index]; cbn; [|by split; [left|]].
  assert (Hn : ht_chunks h !! c = None) by (by apply eq_None_not_Some). split; [|by apply insert_subseteq].
  intros c' e. cbn. rewrite lookup_insert. case_decide as E; [|by left]. subst c'. intros [= <-]. by right.
Qed.

Lemma promote_step_adds now w cfg t h ds p :
  only_adds (promoted cfg now w t p) h (promote_step now w cfg t (h, ds) p).1 ∧
  ht_chunks h ⊆ ht_chunks (promote_step now w cfg t (h, ds) p).1.
Proof.
  unfold promote_step. case_bool_decide; [by split; [left|]|].
  destruct (f32_lt _ _) eqn:Hlt; [by split; [left|]|].
  destruct (wt_get_embedding w (ps_chunk_id p)) as [emb|] eqn:Hemb; [|by split; [left|]].
  pose proof (promote_adds now (ps_chunk_id p) emb t (ps_score p) h) as [Ha Hs].
  destruct (promote _ _ _ _ _ _) as [r h']. cbn [snd] in *.
  assert (Hboth : only_adds (promoted cfg now w t p) h h').
  { intros c e Hc. destruct (Ha c e Hc) as [?|(Hn & -> & ->)]; [by left|right]. by split. }
  by destruct r as [[]|].
Qed.

Lemma promote_fold_adds now w cfg t ps : ∀ h ds,
  only_adds (λ c e, ∃ p, p ∈ ps ∧ promoted cfg now w t p c e) h (foldl (promote_step now w cfg t) (h, ds) ps).1 ∧
  ht_chunks h ⊆ ht_chunks (foldl (promote_step now w cfg t) (h, ds) ps).1.
Proof.
  induction ps as [|p ps IH]; intros h ds; [by split; [left|]|]. cbn [foldl].
  destruct (promote_step_adds now w cfg t h ds p) as [Ha Hs].
  destruct (promote_step now w cfg t (h, ds) p) as [h1 ds1]. cbn [fst] in *. destruct (IH h1 ds1) as [Ha2 Hs2].
  split; [|by etrans]. apply (only_adds_trans _ h h1).
  - intros c e Hc. destruct (Ha c e Hc) as [?|[? Hp]]; [by left|right]. split; [done|]. exists p. split; [by left|done].
  - intros c Hn. destruct (ht_chunks h !! c) eqn:E; [|done]. by rewrite (lookup_weaken _ _ _ _ E Hs) in Hn.
  - intros c e Hc. destruct (Ha2 c e Hc) as [?|(? & p' & Hp & ?)]; [by left|right]. split; [done|]. exists p'. split; [by right|done].
Qed.

Lemma demote_fold_subseteq th ps : ∀ h ds, ht_chunks (foldl (demote_step th) (h, ds) ps).1 ⊆ ht_chunks h.
Proof.
  induction ps as [|p ps IH]; intros h ds; [done|]. cbn [foldl].
  assert (Hs : ht_chunks (demote_step th (h, ds) p).1 ⊆ ht_chunks h).
  { unfold demote_step, demote. repeat (case_match; try done). all: simplify_eq/=; try done. all: apply delete_subseteq. }
  destruct (demote_step th (h, ds) p) as [h1 ds1]. etrans; [apply IH|exact Hs].
Qed.

Lemma evict_fold_subseteq l : ∀ m n, (foldl evict_step (m, n) l).1 ⊆ m.
Proof.
  induction l as [|p l IH]; intros m n; [done|]. cbn [foldl]. unfold evict_step at 2. cbn [fst snd].
  destruct (m !! p.1); [|apply IH]. etrans; [apply IH|apply delete_subseteq].
Qed.

Lemma evict_subseteq n h : ht_chunks (evict_if_needed n h).2 ⊆ ht_chunks h.
Proof.
  unfold evict_if_needed, evict_lowest_score. case_bool_decide; [done|]. case_match; [done|].
  pose proof (evict_fold_subseteq (take (size (ht_chunks h) - calculate_capacity n h)
    (sort_by score_asc (map (λ p, (p.1, hce_promotion_score p.2)) (hash_iter (ht_chunks h))))) (ht_chunks h) 0) as Hs.
  by destruct (foldl evict_step _ _).
Qed.

(** A candidate is an eligible chunk with its score. *)
Lemma top_candidate now k project tr p :
  p ∈ get_top_candidates now k project tr →
  p = get_promotion_score now (ps_chunk_id p) project tr ∧ ps_eligible p = true.
Proof.
  unfold get_top_candidates. intros Hp. apply elem_of_take in Hp as (i & Hp & _). apply list_elem_of_lookup_2 in Hp.
  rewrite elem_of_sort_by, list_elem_of_filter in Hp. destruct Hp as [He Hp]. split; [|done].
  apply list_elem_of_fmap in Hp as ([c st] & -> & Hin). rewrite hash_iter_perm, elem_of_map_to_list in Hin.
  cbn. unfold get_promotion_score. by rewrite Hin.
Qed.

(** The call [o] in state [s] promotes the chunk [c] as the entry [e]. *)
Definition promotes (cfg : TieredSearcherConfig) s (o : TieredCall) (c : ChunkId) (e : HotChunkEntry) : Prop :=
  tr_enable_hot_tier cfg = true ∧
  let score project now := get_promotion_score now c project (ti_tracker s) in
  match o with
  | TMaintenance now w t => ps_eligible (score None now) = true ∧ promoted cfg now w t (score None now) c e
  | TAccess now w c' t (Some project) =>
      c' = c ∧ ps_eligible (score (Some project) now) = true ∧
      f32_eq (ps_project_component (score (Some project) now)) f32_zero = false ∧ promoted cfg now w t (score (Some project) now) c e
  | _ => False
  end.

Lemma check_promotions_adds now w t project s :
  only_adds (λ c e, tr_enable_hot_tier (ti_config s) = true ∧
    let p := get_promotion_score now c project (ti_tracker s) in ps_eligible p = true ∧ promoted (ti_config s) now w t p c e)
    (ti_hot_tier s) (ti_hot_tier (check_promotions now w t project s).2).
Proof.
  unfold check_promotions. destruct (tr_enable_hot_tier (ti_config s)); cbn [negb]; [|by left].
  destruct (promote_fold_adds now w (ti_config s) t (get_top_candidates now 100 project (ti_tracker s)) (ti_hot_tier s) [])
    as [Ha _]. destruct (foldl _ _ _) as [h ds]. cbn in *. intros c e Hc.
  destruct (Ha c e Hc) as [?|(Hn & p & [Hp He]%top_candidate & Hpm)]; [by left|right]. split_and!; [done|done|..].
  all: by rewrite (pm_id _ _ _ _ _ _ _ Hpm) in Hp; rewrite <- Hp.
Qed.

Lemma tiered_call_adds s o : only_adds (promotes (ti_config s) s o) (ti_hot_tier s) (ti_hot_tier (tiered_call s o)).
Proof.
  destruct o as [mf hf now w q t p k debug|now w t|now w c t p|ids|key]; cbn [tiered_call]; try by left.
  - unfold search_internal. repeat case_match; by left.
  - unfold run_maintenance. pose proof (check_promotions_adds now w t None s) as Hp.
    destruct (check_promotions now w t None s) as [ds1 s1]. cbn [snd] in Hp.
    assert (Hd : ht_chunks (ti_hot_tier (check_demotions now None s1).2) ⊆ ht_chunks (ti_hot_tier s1)).
    { unfold check_demotions. case_match; [done|]. case_match; [done|].
      pose proof (demote_fold_subseteq (f32_mul (tr_promotion_threshold (ti_config s1)) (f32_lit 1 2))
        (get_top_candidates now 1000 None (ti_tracker s1)) (ti_hot_tier s1) []) as Hf. by destruct (foldl _ _ _). }
    destruct (check_demotions now None s1) as [ds2 s2]. cbn [snd] in Hd.
    pose proof (evict_subseteq (wt_len w) (ti_hot_tier s2)) as He.
    destruct (evict_if_needed (wt_len w) (ti_hot_tier s2)) as [n h']. cbn in *.
    eapply only_adds_shrink; [exact Hp|by etrans].
  - unfold maybe_promote_on_access. destruct (tr_enable_hot_tier (ti_config s)) eqn:Hen; [|rewrite orb_true_r; by left].
    destruct (negb _ || negb true); [by left|]. destruct p as [project|]; [|by left]. case_bool_decide; [by left|].
    destruct (negb _ || _) eqn:Hs; [by left|]. apply orb_false_iff in Hs as [Hel%negb_false_iff Hlt].
    destruct (f32_eq _ _) eqn:Hz; [by left|]. destruct (wt_get_embedding w c) as [emb|] eqn:Hemb; [|by left].
    set (sc := get_promotion_score now c (Some project) (ti_tracker s)) in *.
    pose proof (promote_adds now c emb t (ps_score sc) (ti_hot_tier s)) as [Ha _].
    assert (Hid : ps_chunk_id sc = c) by (unfold sc, get_promotion_score; by destruct (at_stats _ !! c)).
    destruct (promote _ _ _ _ _ _) as [r h']. cbn [snd] in Ha.
    assert (Hall : only_adds (promotes (ti_config s) s (TAccess now w c t (Some project))) (ti_hot_tier s) h').
    { intros c' e Hc. destruct (Ha c' e Hc) as [?|(Hn & -> & ->)]; [by left|right]. by split_and!. }
    by destruct r as [[]|].
Qed.

Lemma tiered_call_config s o : ti_config (tiered_call s o) = ti_config s.
Proof.
  destruct o as [mf hf now w q t p k debug|now w t|now w c t p|ids|key]; cbn [tiered_call]; try done.
  - unfold search_internal. by repeat case_match.
  - unfold run_maintenance, check_promotions, check_demotions. by repeat (case_match; simplify_eq/=).
  - unfold maybe_promote_on_access. by repeat case_match.
Qed.

(** Every entry was made by a call of the run. *)
Lemma tiered_run_entries cc hc tc cfg now0 calls :
  ti_config (tiered_run (tiered_new cc hc tc cfg now0) calls) = cfg ∧
  ∀ c e, ht_chunks (ti_hot_tier (tiered_run (tiered_new cc hc tc cfg now0) calls)) !! c = Some e →
    ∃ pre o post, calls = pre ++ o :: post ∧ promotes cfg (tiered_run (tiered_new cc hc tc cfg now0) pre) o c e.
Proof.
  induction calls as [|o calls [IHc IH]] using rev_ind; [by split|]. unfold tiered_run in *. rewrite foldl_app. cbn [foldl].
  split; [by rewrite tiered_call_config|]. intros c e Hc. apply tiered_call_adds in Hc as [Hc|[_ Hp]].
  - destruct (IH c e Hc) as (pre & o' & post & -> & Hp). exists pre, o', (post ++ [o]). by rewrite <- app_assoc.
  - rewrite IHc in Hp. by exists calls, o, [].
Qed.

(** C31: the hot tier never holds more chunks than its bound, whatever the
    run, and a chunk enters it only when the warm tier has an embedding for
    it.  Every entry was made by a call of the run, a maintenance or an
    access within a project: under the chunk's own id, with the embedding
    the warm tier of that call gives for that chunk, for that call's tenant
    and time, and with the promotion score the chunk had then, which made it
    eligible and was not below the threshold; an access promotes only where
    the project matched.  With a warm tier that has no
    embeddings, which is what [WarmTierAdapter] offers as long as nobody
    calls [cache_embedding], the tier stays empty. *)
Theorem hot_tier_bounded cc hc tc cfg now0 (calls : list TieredCall) :
  let s0 : TieredSearcher G := tiered_new cc hc tc cfg now0 in
  let s := tiered_run s0 calls in
  (size (ht_chunks (ti_hot_tier s)) ≤ ht_max_chunks hc)%nat ∧
  (∀ c e, ht_chunks (ti_hot_tier s) !! c = Some e →
     ∃ pre o post, calls = pre ++ o :: post ∧ promotes cfg (tiered_run s0 pre) o c e) ∧
  (Forall no_embeddings calls → ht_chunks (ti_hot_tier s) = ∅).
Proof.
  cbv zeta. split; [destruct (tiered_run_hot cc hc tc cfg now0 calls) as [[_ Hb] Hc]; by rewrite Hc in Hb|].
  split; [apply tiered_run_entries|].
  induction calls as [|o calls IH] using rev_ind; [done|].
  rewrite Forall_app, Forall_singleton. intros [Hc Ho]. unfold tiered_run in *. rewrite foldl_app. cbn [foldl].
  apply no_embeddings_empty; [done|by apply IH].
Qed.

End tiered_facts.

(* ------------------------------------------------------------------ *)
(** ** Examples *)

(** Crude stand-ins for the math library and the digest. *)
#[local] Instance crude_libm : Libm := { f32_log2 x := x; f32_exp _ := f32_lit 1 2 }.
#[local] Instance plain_digest : Sha256Digest := { sha256_digest bs := bs }.
#[local] Instance example_iter : HashIter ChunkId := forward_iter.

Definition ex_hot : list SearchResult := [mkSearchResult (mkChunkId 1) (f32_lit 1 2)].
Definition ex_warm : list SearchResult :=
  [mkSearchResult (mkChunkId 1) (f32_lit 1 4); mkSearchResult (mkChunkId 2) f32_one].

Lemma merge_results_exact_witness :
  (merge_results (HI := forward_iter) ex_hot ex_warm 5 false).1 =
    (merge_results (HI := backward_iter) ex_hot ex_warm 5 false).1 ∧
  map (λ v, chunk_uuid (sd_chunk_id v)) (merge_results (HI := forward_iter) ex_hot ex_warm 5 false).1 = [2%N; 1%N].
Proof.
  split; [|vm_compute; reflexivity].
  apply (merge_results_exact forward_iter backward_iter ex_hot ex_warm 5 false).
  - by repeat constructor.
  - by repeat constructor.
Defined.

(** A hot tier with two chunks and room for one. *)
Definition ex_hot_config : HotTierConfig := mkHotConfig f32_one 1 (f32_lit 3 10) ex_cfg.
Definition ex_hot_tier : HotTier ListGraph :=
  mkHot (index_new ex_cfg)
    (<[mkChunkId 1 := mkHotChunk (mkChunkId 1) [1; 2] 0 f32_one "t"]>
      {[mkChunkId 2 := mkHotChunk (mkChunkId 2) [1; 2] 0 (f32_lit 1 2) "t"]}) ex_hot_config 2.

Lemma hot_tier_evicts_lowest_witness :
  let '(evicted, h') := evict_if_needed 10 ex_hot_tier in
  size (ht_chunks h') = Nat.min (calculate_capacity 10 ex_hot_tier) (size (ht_chunks ex_hot_tier)).
Proof.
  pose proof (hot_tier_evicts_lowest 10 ex_hot_tier) as H.
  destruct (evict_if_needed 10 ex_hot_tier) as [evicted h']. apply H.
  intros id v Hv. unfold ex_hot_tier in Hv. cbn [ht_chunks] in Hv.
  apply lookup_insert_Some in Hv as [[_ <-]|[_ [_ <-]%lookup_singleton_Some]]; vm_compute; reflexivity.
Defined.

(** A warm tier that returns two fixed results. *)
Definition ex_warm_tier : WarmTier := mkWarm (λ _ _, Ok ex_warm) (λ _, None) 1 2.
Definition ex_tiered : TieredSearcher ListGraph :=
  tiered_new SemanticCacheConfig_default ex_hot_config AccessTrackerConfig_default TieredSearcherConfig_default 0.
Definition ex_search : TieredCall := TSearch true true 1 ex_warm_tier ex_query "t" None 2 false.

(** The second of two equal searches is answered from the cache. *)
Lemma tiered_search_sound_witness :
  ∃ r s', search_internal true true 5 ex_warm_tier ex_query "t" None 2 false (tiered_run ex_tiered [ex_search]) = (Ok r, s') ∧
    tsr_cache_hit r = true ∧ (length (tsr_results r) ≤ 2)%nat.
Proof.
  destruct (search_internal true true 5 ex_warm_tier ex_query "t" None 2 false (tiered_run ex_tiered [ex_search]))
    as [[r|e] s'] eqn:E; [|vm_compute in E; discriminate E].
  exists r, s'. split; [done|].
  pose proof (tiered_search_sound SemanticCacheConfig_default ex_hot_config AccessTrackerConfig_default
    TieredSearcherConfig_default 0 [ex_search] true true 5 ex_warm_tier ex_query "t" None 2 false r s') as H.
  split; [vm_compute in E; by injection E as <- _|]. apply H; [|exact E].
  intros rs [= <-]. by repeat constructor.
Defined.

(** A run without embeddings: accesses promote nothing. *)
Definition ex_access : TieredCall := TAccess 6 ex_warm_tier (mkChunkId 2) "t" None.

(** A warm tier with embeddings: the chunks of three searches are promoted,
    as far as there is room. *)
Definition ex_full_tier : WarmTier := mkWarm (λ _ _, Ok ex_warm) (λ _, Some ex_query) 1 100.
Definition ex_config : TieredSearcherConfig := mkTieredConfig false true (f32_lit 4 10) 100 true false.
Definition ex_full_search : TieredCall := TSearch true true 1 ex_full_tier ex_query "t" None 2 false.
Definition ex_promoting : list TieredCall :=
  [ex_full_search; ex_full_search; ex_full_search; ex_full_search; TMaintenance 9 ex_full_tier "t"].
Definition ex_plain : TieredSearcher ListGraph :=
  tiered_new SemanticCacheConfig_default ex_hot_config AccessTrackerConfig_default ex_config 0.

Example ex_promoted :
  map (λ p, (chunk_uuid p.1, hce_promoted_at p.2, hce_tenant_id p.2))
    (map_to_list (ht_chunks (ti_hot_tier (tiered_run ex_plain ex_promoting)))) = [(2%N, 9, "t"%string)].
Proof. vm_compute. reflexivity. Qed.
Lemma hot_tier_bounded_witness :
  ((size (ht_chunks (ti_hot_tier (tiered_run ex_tiered [ex_search; ex_access]))) ≤ 1)%nat ∧
   ht_chunks (ti_hot_tier (tiered_run ex_tiered [ex_search; ex_access])) = ∅) ∧
  ∃ e, ht_chunks (ti_hot_tier (tiered_run ex_plain ex_promoting)) !! mkChunkId 2 = Some e ∧
    ∃ pre o post, ex_promoting = pre ++ o :: post ∧ promotes ex_config (tiered_run ex_plain pre) o (mkChunkId 2) e.
Proof.
  destruct (hot_tier_bounded (G := ListGraph) SemanticCacheConfig_default ex_hot_config
    AccessTrackerConfig_default TieredSearcherConfig_default 0 [ex_search; ex_access]) as (Hs & _ & He).
  split; [split; [exact Hs|apply He; repeat constructor]|].
  destruct (ht_chunks (ti_hot_tier (tiered_run ex_plain ex_promoting)) !! mkChunkId 2) as [e|] eqn:E;
    [|vm_compute in E; discriminate E].
  exists e. split; [done|].
  exact (proj1 (proj2 (hot_tier_bounded (G := ListGraph) SemanticCacheConfig_default ex_hot_config
    AccessTrackerConfig_default ex_config 0 ex_promoting)) (mkChunkId 2) e E).
Defined.
