(* ===== verification/Hybrid.v ===== *)
(** * The hybrid searcher (src/crates/memd/src/store/hybrid.rs)

    Dense and sparse search side by side, fused by reciprocal rank, with the
    tiered searchers of the tenants in front of the dense index.  The sparse
    index is any implementation of [SparseIndex].  The semantic cache is
    shared by the tenants: it is a field of the searcher, handed to a
    tenant's tiered searcher for the length of a call.  Timings and log lines
    are dropped; the clock and the outcome of the index locks are arguments.
    The outer [option] is a panic of a slicing operation. *)

From S2P Require Import Prelude Crates Types Files Str Ranking Fusion Sentence Tokenizer Bm25 Reranker.
From S2P Require Import EmbeddingCache DenseIndex DenseSearcher SemanticCache Tiered.

Open Scope Z_scope.

(* ------------------------------------------------------------------ *)
(** ** Configuration and results *)

(** [HybridConfig] without the packer, which the searcher does not use. *)
Record HybridConfig : Type := mkHybridConfig {
  hc_dense_k : nat;
  hc_sparse_k : Z;
  hc_rrf : RrfConfig;
  hc_reranker : RerankerConfig;
  hc_enable_rerank : bool;
  hc_enable_sparse : bool;
  hc_enable_tiered : bool;
  hc_tiered_config : option TieredSearcherConfig;
}.
Definition HybridConfig_default : HybridConfig :=
  mkHybridConfig 100 100 RrfConfig_default RerankerConfig_default true true true None.

Definition sparse_candidate_count (config : HybridConfig) (requested_k : nat) : Z :=
  if (hc_dense_k config =? 0)%nat && negb (hc_enable_rerank config) then Z.of_nat requested_k
  else hc_sparse_k config.

Record HybridSearchResult : Type := mkHybridResult {
  hr_chunk_id : ChunkId;
  hr_final_score : f32;
  hr_dense_rank : option Z;
  hr_sparse_rank : option Z;
}.

Record SearchContext : Type := mkSearchContext {
  sx_current_project : option string;
  sx_preferred_types : list ChunkType;
  sx_ranking_time_ms : option Z;
}.

(** A tenant's tiered searcher and its [WarmTierAdapter]: the version and
    the embeddings kept for promotion. *)
Record TenantTier (G : Type) : Type := mkTier {
  tt_searcher : TieredSearcher G;
  tt_version : Z;
  tt_embedding_cache : gmap ChunkId (list Z);
}.
Arguments mkTier {_} _ _ _.
Arguments tt_searcher {_} _.
Arguments tt_version {_} _.
Arguments tt_embedding_cache {_} _.

Record HybridSearcher (G X : Type) : Type := mkHybrid {
  hy_dense : option (DenseSearcher G);
  hy_sparse : option X;
  hy_config : HybridConfig;
  hy_tiered : gmap string (TenantTier G);
  hy_cache : option SemanticCache;
}.
Arguments mkHybrid {_ _} _ _ _ _ _.
Arguments hy_dense {_ _} _.
Arguments hy_sparse {_ _} _.
Arguments hy_config {_ _} _.
Arguments hy_tiered {_ _} _.
Arguments hy_cache {_ _} _.

(** [HotTierConfig::default] with the dimension of the dense index. *)
Definition hot_tier_config (dimension : nat) : HotTierConfig :=
  mkHotConfig (f32_lit 10 100) (Z.to_nat 50000) (f32_lit 3 10) (mkHnswConfig 16 200 30 (Z.to_nat 50000) dimension true None false).

Section hybrid.
Context `{U : Uuid ChunkId} {G : Type} `{HG : Hnsw G} `{EM : Embedder}.
Context `{BO : ByteOrder} `{CRC : Crc32} `{BM : Bincode IndexMapping} `{JM : Json IndexMapping}
  `{JC : Json HnswConfig} (threshold : nat).
Context {X : Type} `{SI : SparseIndex X}.
Context `{LM : Libm} `{HI : !HashIter ChunkId} `{SHA : Sha256Digest} `{US : UnicodeSegmentation} `{UC : Unicode} `{CT : CharTables} `{ST : Stemmer}.

(** An operation: result and state, or a panic. *)
Definition HyM (A : Type) : Type := HybridSearcher G X → option (memd_result A * HybridSearcher G X).
Definition hy_ret {A} (r : memd_result A) : HyM A := λ s, Some (r, s).
Definition hy_bind {A B} (m : HyM A) (k : A → HyM B) : HyM B :=
  λ s, '(r, s) ← m s; match r with Ok a => k a s | Err e => Some (Err e, s) end.

Definition set_dense (d : DenseSearcher G) (s : HybridSearcher G X) : HybridSearcher G X :=
  mkHybrid (Some d) (hy_sparse s) (hy_config s) (hy_tiered s) (hy_cache s).
Definition set_sparse (x : X) (s : HybridSearcher G X) : HybridSearcher G X :=
  mkHybrid (hy_dense s) (Some x) (hy_config s) (hy_tiered s) (hy_cache s).
Definition set_tier (t : string) (tier : TenantTier G) (s : HybridSearcher G X) : HybridSearcher G X :=
  mkHybrid (hy_dense s) (hy_sparse s) (hy_config s) (<[t := tier]> (hy_tiered s)) (hy_cache s).
Definition set_cache (c : option SemanticCache) (s : HybridSearcher G X) : HybridSearcher G X :=
  mkHybrid (hy_dense s) (hy_sparse s) (hy_config s) (hy_tiered s) c.

(** A call on the dense searcher, or on the sparse index. *)
Definition on_dense {A} (d : DenseSearcher G) (m : DenseM G A) : HyM A :=
  λ s, '(r, d) ← m d; Some (r, set_dense d s).
Definition on_sparse {A} (x : X) (f : X → memd_result A * X) : HyM A :=
  λ s, let '(r, x) := f x in Some (r, set_sparse x s).

(** [from_parts], [new], [new_sparse_only] *)
Definition from_parts (dense : option (DenseSearcher G)) (sparse : option X) (config : HybridConfig) : HybridSearcher G X :=
  mkHybrid dense sparse config ∅
    (if hc_enable_tiered config && bool_decide (is_Some dense)
     then Some (semantic_cache_new SemanticCacheConfig_default) else None).
Definition hybrid_new (dense : DenseSearcher G) (sparse : option X) (config : HybridConfig) : HybridSearcher G X :=
  from_parts (Some dense) sparse config.
Definition new_sparse_only (sparse : X) (c : HybridConfig) : HybridSearcher G X :=
  from_parts None (Some sparse)
    (mkHybridConfig 0 (hc_sparse_k c) (hc_rrf c) (hc_reranker c) (hc_enable_rerank c) (hc_enable_sparse c) false
       (hc_tiered_config c)).

(** [get_or_create_tiered_searcher]; [hy_cache] is there whenever tiered
    search is enabled and there is a dense searcher. *)
Definition tenant_tier_new (now_ms : Z) (cache : SemanticCache) (dimension : nat) (config : HybridConfig) : TenantTier G :=
  mkTier (mkTiered cache (hot_tier_new (hot_tier_config dimension)) (access_tracker_new AccessTrackerConfig_default)
            (default TieredSearcherConfig_default (hc_tiered_config config)) 0 (as_u64 now_ms)) 1 ∅.

Definition get_or_create_tiered_searcher (now_ms : Z) (t : TenantId) (s : HybridSearcher G X)
    : option (TenantTier G) * HybridSearcher G X :=
  if negb (hc_enable_tiered (hy_config s)) then (None, s)
  else
    match hy_dense s with
    | None => (None, s)
    | Some dense =>
        match hy_tiered s !! TenantId.as_str t with
        | Some tier => (Some tier, s)
        | None =>
            match hy_cache s with
            | None => (None, s)
            | Some cache =>
                let tier := tenant_tier_new now_ms cache (hc_dimension (sc_hnsw (ds_config dense))) (hy_config s) in
                (Some tier, set_tier (TenantId.as_str t) tier s)
            end
        end
    end.

(** [bump_tenant_memory_version]: [fetch_add] wraps. *)
Definition bump_tenant_memory_version (now_ms : Z) (t : TenantId) (s : HybridSearcher G X) : HybridSearcher G X :=
  match get_or_create_tiered_searcher now_ms t s with
  | (Some tier, s) =>
      set_tier (TenantId.as_str t) (mkTier (tt_searcher tier) (as_u64 (tt_version tier + 1)) (tt_embedding_cache tier)) s
  | (None, s) => s
  end.

Definition tenant_memory_version (t : TenantId) (s : HybridSearcher G X) : option Z :=
  tt_version <$> hy_tiered s !! TenantId.as_str t.

(** [WarmTierAdapter::cache_embedding] *)
Definition cache_embedding (t : TenantId) (c : ChunkId) (embedding : list Z) (s : HybridSearcher G X) : HybridSearcher G X :=
  match hy_tiered s !! TenantId.as_str t with
  | Some tier =>
      set_tier (TenantId.as_str t)
        (mkTier (tt_searcher tier) (tt_version tier) (<[c := embedding]> (tt_embedding_cache tier))) s
  | None => s
  end.

(* ------------------------------------------------------------------ *)
(** ** Writes *)

(** The items for the sparse index: chunks without a sentence are left out. *)
Fixpoint sparse_items (t : TenantId) (chunks : list (ChunkId * string)) : option (list SparseItem) :=
  match chunks with
  | [] => Some []
  | (chunk_id, text) :: chunks =>
      processed ← process_chunk text;
      items ← sparse_items t chunks;
      let sentences := map ps_text processed in
      Some (if bool_decide (sentences = []) then items else (t, chunk_id, sentences) :: items)
  end.

Definition index_dense (t : TenantId) (chunks : list (ChunkId * string)) : HyM () := λ s,
  if (0 <? hc_dense_k (hy_config s))%nat then
    match hy_dense s with
    | None => Some (Err (StorageError "dense search is not configured"), s)
    | Some dense => on_dense dense (DenseSearcher.index_batch threshold (TenantId.as_str t) chunks) s
    end
  else Some (Ok (), s).

Definition index_sparse (t : TenantId) (chunks : list (ChunkId * string)) : HyM () := λ s,
  match hy_sparse s with
  | Some sparse =>
      if hc_enable_sparse (hy_config s) then
        items ← sparse_items t chunks;
        if bool_decide (items = []) then Some (Ok (), s) else on_sparse sparse (sparse_insert_batch items) s
      else Some (Ok (), s)
  | None => Some (Ok (), s)
  end.

(** [index_batch] and [index_chunk] *)
Definition hybrid_index_batch (now_ms : Z) (t : TenantId) (chunks : list (ChunkId * string)) : HyM () :=
  if bool_decide (chunks = []) then hy_ret (Ok ())
  else
    hy_bind (index_dense t chunks) (λ _, hy_bind (index_sparse t chunks) (λ _ s,
      Some (Ok (), bump_tenant_memory_version now_ms t s))).
Definition hybrid_index_chunk (now_ms : Z) (t : TenantId) (chunk_id : ChunkId) (text : string) : HyM () :=
  hybrid_index_batch now_ms t [(chunk_id, text)].

(** [invalidate_chunk_in_cache] *)
Definition invalidate_chunk_in_cache (c : ChunkId) (s : HybridSearcher G X) : HybridSearcher G X :=
  set_cache (invalidate_chunks [c] <$> hy_cache s) s.

Definition delete_sparse (t : TenantId) (c : ChunkId) : HyM () := λ s,
  match hy_sparse s with
  | Some sparse =>
      if hc_enable_sparse (hy_config s)
      then hy_bind (on_sparse sparse (sparse_delete t c)) (λ _, hy_ret (Ok ())) s
      else Some (Ok (), s)
  | None => Some (Ok (), s)
  end.

(** [delete_chunk]: the dense index keeps the chunk. *)
Definition hybrid_delete_chunk (now_ms : Z) (t : TenantId) (c : ChunkId) : HyM () :=
  hy_bind (delete_sparse t c) (λ _ s,
    Some (Ok (), bump_tenant_memory_version now_ms t
                   (get_or_create_tiered_searcher now_ms t (invalidate_chunk_in_cache c s)).2)).

(* ------------------------------------------------------------------ *)
(** ** Search *)

(** One loop that builds fusion candidates; ranks start at 1. *)
Definition source_candidates (source : FusionSource) (results : list (ChunkId * f32)) : list FusionCandidate :=
  imap (λ rank r, mkCandidate r.1 source (Z.of_nat rank + 1) r.2) results.

Definition from_fused (f : FusedResult) : HybridSearchResult :=
  mkHybridResult (fr_chunk_id f) (fr_rrf_score f) (fr_dense_rank f) (fr_sparse_rank f).

Definition fuse_lists (config : HybridConfig) (k : nat) (dense sparse : list (ChunkId * f32)) : list HybridSearchResult :=
  map from_fused
    (take k (fuse (hc_rrf config) (source_candidates DenseSource dense ++ source_candidates SparseSource sparse))).

Definition sparse_pair (r : SparseSearchResult) : ChunkId * f32 := (sp_chunk_id r, sp_score r).
Definition dense_pair (r : SearchResult) : ChunkId * f32 := (sr_chunk_id r, sr_score r).
Definition tier_pair (r : ScoredChunk) : ChunkId * f32 := (sd_chunk_id r, sd_score r).

(** The sparse leg of both search paths. *)
Definition sparse_leg (t : TenantId) (query : string) (k : nat) : HyM (list SparseSearchResult) := λ s,
  match hy_sparse s with
  | Some sparse =>
      if hc_enable_sparse (hy_config s)
      then on_sparse sparse (sparse_search t query (sparse_candidate_count (hy_config s) k)) s
      else Some (Ok [], s)
  | None => Some (Ok [], s)
  end.

Definition dense_leg (mapping_free hnsw_free : bool) (t : TenantId) (query : string) : HyM (list SearchResult) := λ s,
  if (0 <? hc_dense_k (hy_config s))%nat then
    match hy_dense s with
    | None => Some (Err (StorageError "dense search is not configured"), s)
    | Some dense =>
        on_dense dense
          (dense_search threshold mapping_free hnsw_free (TenantId.as_str t) query (hc_dense_k (hy_config s))) s
    end
  else Some (Ok [], s).

(** [search_standard] *)
Definition search_standard (mapping_free hnsw_free : bool) (t : TenantId) (query : string) (k : nat)
    : HyM (list HybridSearchResult) :=
  hy_bind (dense_leg mapping_free hnsw_free t query) (λ dense_results,
    hy_bind (sparse_leg t query k) (λ sparse_results s,
      Some (Ok (fuse_lists (hy_config s) k (map dense_pair dense_results) (map sparse_pair sparse_results)), s))).

(** The shared cache is what the tenant's searcher works on. *)
Definition with_shared (cache : option SemanticCache) (s : TieredSearcher G) : TieredSearcher G :=
  mkTiered (default (ti_cache s) cache) (ti_hot_tier s) (ti_tracker s) (ti_config s) (ti_query_counter s)
    (ti_last_demotion_check s).

(** Whether a search will reach the warm tier: no cache hit, and the hot
    tier answers. *)
Definition reaches_warm (mapping_free hnsw_free : bool) (now_ms : Z) (w : WarmTier) (query : list Z)
    (tenant : string) (project : option string) (k : nat) (s : TieredSearcher G) : bool :=
  let cfg := ti_config s in
  let hit := if tr_enable_cache cfg
             then (lookup_with_limit now_ms query tenant project (wt_get_version w) (Z.of_nat k) (ti_cache s)).1
             else None in
  match hit with
  | Some _ => false
  | None =>
      if tr_enable_hot_tier cfg
      then is_ok (hot_search mapping_free hnsw_free now_ms query k (ti_hot_tier s) (ti_tracker s)).1 else true
  end.

(** [WarmTierAdapter], with [results] for the answer of its search. *)
Definition warm_adapter (results : memd_result (list SearchResult)) (t : TenantId) (tier : TenantTier G)
    (dense : DenseSearcher G) : WarmTier :=
  mkWarm (λ _ _, results) (λ c, tt_embedding_cache tier !! c) (tt_version tier)
    (searcher_index_len (TenantId.as_str t) dense).

(** [tiered_searcher.search]: the warm tier's search opens the tenant's
    dense index, which the state records. *)
Definition tiered_leg (mapping_free hnsw_free : bool) (now_ms : Z) (t : TenantId) (query_embedding : list Z)
    (project : option string) (k : nat) (tier : TenantTier G) (dense : DenseSearcher G) : HyM TieredSearchResult := λ s,
  let tenant := TenantId.as_str t in
  let searcher := with_shared (hy_cache s) (tt_searcher tier) in
  let w0 := warm_adapter (Ok []) t tier dense in
  '(warm, dense') ← (if reaches_warm mapping_free hnsw_free now_ms w0 query_embedding tenant project k searcher
                     then search_with_embedding threshold mapping_free hnsw_free tenant query_embedding k dense
                     else Some (Ok [], dense));
  let '(r, searcher) :=
    search_internal mapping_free hnsw_free now_ms (warm_adapter warm t tier dense) query_embedding tenant project k
      false searcher in
  Some (r, set_cache ((λ _, ti_cache searcher) <$> hy_cache s)
             (set_tier tenant (mkTier searcher (tt_version tier) (tt_embedding_cache tier)) (set_dense dense' s))).

(** [search_tiered] *)
Definition search_tiered (mapping_free hnsw_free : bool) (now_ms : Z) (t : TenantId) (query : string) (k : nat)
    (context : option SearchContext) (tier : TenantTier G) : HyM (list HybridSearchResult) := λ s,
  match hy_dense s with
  | None => Some (Err (StorageError "tiered search requires a dense searcher"), s)
  | Some dense =>
      match embed_query query with
      | Err e => Some (Err e, s)
      | Ok query_embedding =>
          let dense_fetch := Nat.max (hc_dense_k (hy_config s)) k in
          let project := context ≫= sx_current_project in
          hy_bind (tiered_leg mapping_free hnsw_free now_ms t query_embedding project dense_fetch tier dense)
            (λ tiered_result, hy_bind (sparse_leg t query k) (λ sparse_results s,
               let tiered := map tier_pair (tsr_results tiered_result) in
               Some (Ok (if bool_decide (sparse_results = [])
                         then map (λ r, mkHybridResult r.1 r.2 None None) (take k tiered)
                         else fuse_lists (hy_config s) k tiered (map sparse_pair sparse_results)), s))) s
      end
  end.

(** [search], [search_with_timing] *)
Definition hybrid_search (mapping_free hnsw_free : bool) (now_ms : Z) (t : TenantId) (query : string) (k : nat)
    (context : option SearchContext) : HyM (list HybridSearchResult) := λ s,
  match get_or_create_tiered_searcher now_ms t s with
  | (Some tier, s) => search_tiered mapping_free hnsw_free now_ms t query k context tier s
  | (None, s) => search_standard mapping_free hnsw_free t query k s
  end.

(** [run_tiered_maintenance] *)
Definition run_tiered_maintenance (now_ms : Z) (t : TenantId) (s : HybridSearcher G X)
    : option MaintenanceResult * HybridSearcher G X :=
  match get_or_create_tiered_searcher now_ms t s with
  | (None, s) => (None, s)
  | (Some tier, s) =>
      match hy_dense s with
      | None => (None, s)
      | Some dense =>
          let '(r, searcher) :=
            run_maintenance now_ms (warm_adapter (Ok []) t tier dense) (TenantId.as_str t)
              (with_shared (hy_cache s) (tt_searcher tier)) in
          (Some r, set_cache ((λ _, ti_cache searcher) <$> hy_cache s)
                     (set_tier (TenantId.as_str t) (mkTier searcher (tt_version tier) (tt_embedding_cache tier)) s))
      end
  end.

(* ------------------------------------------------------------------ *)
(** ** Reranking with metadata *)

Section metadata.
Context `{EX : Exp} `{AN : AlphaNumeric} `{OX : OnnxRuntime}.

(** The context of a rerank; [now_ms] is the clock if the caller fixed no
    time. *)
Definition reranker_context (now_ms : Z) (query : string) (context : option SearchContext) : RerankerContext :=
  let base :=
    match context with
    | Some ctx =>
        let base := with_preferred_types (sx_preferred_types ctx)
                      (context_at (default now_ms (sx_ranking_time_ms ctx))) in
        match sx_current_project ctx with Some project => with_project project base | None => base end
    | None => context_at now_ms
    end in
  if bool_decide (str_trim query = ""%string) then base else with_query query base.

(** [rerank_with_metadata_for_query]; [ChunkMetaForRerank] has the fields of
    [ChunkWithMeta]. *)
Definition rerank_with_metadata_for_query (config : HybridConfig) (now_ms : Z) (query : string)
    (results : list HybridSearchResult) (chunks_meta : list ChunkWithMeta) (context : option SearchContext)
    : list HybridSearchResult :=
  if bool_decide (chunks_meta = []) then results
  else
    map (λ r, let original := List.find (λ o, bool_decide (hr_chunk_id o = rr_chunk_id r)) results in
              mkHybridResult (rr_chunk_id r) (rr_final_score r) (original ≫= hr_dense_rank) (original ≫= hr_sparse_rank))
      (rerank (hc_reranker config) chunks_meta (reranker_context now_ms query context)).

Definition rerank_with_metadata (config : HybridConfig) (now_ms : Z) :=
  rerank_with_metadata_for_query config now_ms "".
End metadata.
End hybrid.
