(* ===== verification/HybridProps.v ===== *)
(** * The hybrid searcher: correctness

    Runs of writes, searches and maintenance on one [HybridSearcher]: what
    they do to the tenants' memory versions and to the shared cache, when the
    dense leg may be answered from the cache, and what a search returns. *)

From S2P Require Import Prelude Crates Types Files Str Ranking Fusion Packer Sentence Tokenizer Bm25 Bm25Props Reranker.
From S2P Require Import EmbeddingCache DenseIndex DenseFacts Concrete DenseProps DenseSearcher SemanticCache Tiered.
From S2P Require Import TieredProps Hybrid.
From Stdlib Require Import Floats.SpecFloat Sorting.Sorted.

Open Scope Z_scope.

(** The calls on a hybrid searcher, and moka dropping a record. *)
Inductive HyCall : Type :=
| HIndex (now_ms : Z) (t : TenantId) (chunks : list (ChunkId * string))
| HDelete (now_ms : Z) (t : TenantId) (c : ChunkId)
| HSearch (mapping_free hnsw_free : bool) (now_ms : Z) (t : TenantId) (query : string) (k : nat)
    (context : option SearchContext)
| HMaintain (now_ms : Z) (t : TenantId)
| HKeep (t : TenantId) (c : ChunkId) (embedding : list Z)
| HDrop (key : string).

(** A call that changes what tenant [t] has indexed. *)
Definition writes_to (t : string) (o : HyCall) : bool :=
  match o with
  | HIndex _ u chunks => String.eqb (TenantId.as_str u) t && negb (bool_decide (chunks = []))
  | HDelete _ u _ => String.eqb (TenantId.as_str u) t
  | _ => false
  end.

(* ------------------------------------------------------------------ *)
(** ** The fused list *)

(** [results] are the [k] best of the fused candidates: each with the score
    and the ranks the candidates give it, no id twice, best first, and an id
    is left out only for [k] others that score at least as high. *)
Record fused_top (config : RrfConfig) (k : nat) (cands : list FusionCandidate) (results : list HybridSearchResult)
    : Prop := {
  ft_bound : (length results ≤ k)%nat;
  ft_distinct : NoDup (map hr_chunk_id results);
  ft_exact r : r ∈ results →
    hr_chunk_id r ∈ map fc_chunk_id cands ∧ r = from_fused (fused_of config cands (hr_chunk_id r));
  ft_sorted : StronglySorted (λ a b, f32_le (hr_final_score b) (hr_final_score a) = true) results;
  ft_complete id : id ∈ map fc_chunk_id cands → (id ∉ map hr_chunk_id results) →
    length results = k ∧
    ∀ r, r ∈ results → f32_le (fr_rrf_score (fused_of config cands id)) (hr_final_score r) = true;
}.

Lemma fused_cmp_le a b :
  scored fr_rrf_score a → scored fr_rrf_score b → cmp_le fused_cmp a b →
  f32_le (fr_rrf_score b) (fr_rrf_score a) = true.
Proof.
  unfold scored, cmp_le, fused_cmp, score_desc, f32_le, SFleb. intros Ha Hb.
  rewrite partial_cmp_key, SFcompare_key by done. by destruct (key_compare _ _).
Qed.

Lemma StronglySorted_map_in {A B} (f : A → B) (R : A → A → Prop) (S : B → B → Prop) l :
  (∀ x y, x ∈ l → y ∈ l → R x y → S (f x) (f y)) → StronglySorted R l → StronglySorted S (map f l).
Proof.
  intros HRS Hs. induction Hs as [|x l Hs IH Hx]; cbn; constructor.
  - apply IH. intros y z Hy Hz. apply HRS; by right.
  - rewrite Forall_map. apply Forall_forall. intros y Hy. apply HRS; [by left|by right|].
    by eapply Forall_forall in Hx.
Qed.

Lemma fused_top_spec `{HI : !HashIter ChunkId} (config : RrfConfig) (k : nat) cands :
  config_ok config → Forall (λ c, 0 ≤ fc_rank c) cands →
  fused_top config k cands (map from_fused (take k (fuse config cands))).
Proof.
  intros Hc Hr. destruct (fuse_exact config (h1 := HI) (h2 := HI) cands Hc Hr) as (Hin & Hnd & Hs & Hsc & _).
  set (F := fuse config cands) in *. rewrite Forall_forall in Hsc.
  assert (Hsub : ∀ x, x ∈ take k F → x ∈ F) by (intros x Hx; eapply elem_of_submseteq; [exact Hx|apply sublist_submseteq, sublist_take]).
  rewrite <-(take_drop k F) in Hs. apply StronglySorted_app_inv in Hs as (Hs & _ & Hcross).
  split.
  - rewrite length_map, length_take. lia.
  - rewrite map_map. rewrite <-(take_drop k F), map_app, NoDup_app in Hnd. apply Hnd.
  - intros r (f & -> & Hf)%list_elem_of_fmap. apply Hsub, Hin in Hf as (id & Hid & ->). by split.
  - eapply StronglySorted_map_in; [|exact Hs]. intros x y Hx Hy Hxy. apply fused_cmp_le; auto.
  - intros id Hid Hn. set (f := fused_of config cands id).
    assert (Hf : f ∈ F) by (apply Hin; eauto). assert (Hd : f ∈ drop k F).
    { rewrite <-(take_drop k F), elem_of_app in Hf. destruct Hf as [Hf|]; [|done]. destruct Hn.
      rewrite map_map. apply (list_elem_of_fmap_2 (λ x, hr_chunk_id (from_fused x))) in Hf. exact Hf. }
    split.
    + rewrite length_map, length_take. apply Nat.min_l. destruct (Nat.le_gt_cases k (length F)) as [|Hgt]; [done|].
      rewrite drop_ge in Hd by lia. by apply not_elem_of_nil in Hd.
    + intros r (x & -> & Hx)%list_elem_of_fmap. apply fused_cmp_le; auto.
Qed.

(** The candidates of a dense and a sparse list. *)
Definition both_candidates (dense sparse : list (ChunkId * f32)) : list FusionCandidate :=
  source_candidates DenseSource dense ++ source_candidates SparseSource sparse.

Lemma source_ids source l : map fc_chunk_id (source_candidates source l) = map fst l.
Proof. unfold source_candidates. rewrite fmap_imap. apply imap_const. Qed.

Section hybrid_facts.
Context `{U : Uuid ChunkId} {G : Type} `{HG : Hnsw G} `{EM : Embedder}.
Context `{BO : ByteOrder} `{CRC : Crc32} `{BM : Bincode IndexMapping} `{JM : Json IndexMapping}
  `{JC : Json HnswConfig} (threshold : nat).
Context {X : Type} `{SI : SparseIndex X}.
Context `{LM : Libm} `{HI : !HashIter ChunkId} `{SHA : Sha256Digest} `{US : UnicodeSegmentation} `{UC : Unicode} `{CT : CharTables} `{ST : Stemmer}.
Implicit Types (s : HybridSearcher G X) (o : HyCall).

(** One call: whether it succeeded, and the state after it. *)
Definition hy_call (o : HyCall) (s : HybridSearcher G X) : option (bool * HybridSearcher G X) :=
  match o with
  | HIndex now t chunks => prod_map is_ok id <$> hybrid_index_batch threshold now t chunks s
  | HDelete now t c => prod_map is_ok id <$> hybrid_delete_chunk now t c s
  | HSearch mf hf now t query k context =>
      prod_map is_ok id <$> hybrid_search threshold mf hf now t query k context s
  | HMaintain now t => Some (true, (run_tiered_maintenance now t s).2)
  | HKeep t c e => Some (true, cache_embedding t c e s)
  | HDrop key => Some (true, set_cache (evict key <$> hy_cache s) s)
  end.

Fixpoint hy_run (calls : list HyCall) (s : HybridSearcher G X) : option (HybridSearcher G X) :=
  match calls with
  | [] => Some s
  | o :: calls => '(_, s) ← hy_call o s; hy_run calls s
  end.

(** The successful writes for tenant [t], and the chunks that successful
    deletions named. *)
Fixpoint writes (t : string) (calls : list HyCall) (s : HybridSearcher G X) : Z :=
  match calls with
  | [] => 0
  | o :: calls =>
      match hy_call o s with
      | Some (ok, s) => Z.b2z (ok && writes_to t o) + writes t calls s
      | None => 0
      end
  end.

Definition deletes (ok : bool) (o : HyCall) : list ChunkId :=
  match o with HDelete _ _ c => if ok then [c] else [] | _ => [] end.
Fixpoint deleted (calls : list HyCall) (s : HybridSearcher G X) : list ChunkId :=
  match calls with
  | [] => []
  | o :: calls =>
      match hy_call o s with
      | Some (ok, s) => deletes ok o ++ deleted calls s
      | None => []
      end
  end.

Lemma hy_run_app calls1 calls2 s :
  hy_run (calls1 ++ calls2) s = s1 ← hy_run calls1 s; hy_run calls2 s1.
Proof.
  revert s. induction calls1 as [|o calls1 IH]; intros s; [done|]. cbn [app hy_run].
  destruct (hy_call o s) as [[ok s1]|]; [apply IH|done].
Qed.

Lemma run_snoc calls o s s1 ok s2 :
  hy_run calls s = Some s1 → hy_call o s1 = Some (ok, s2) →
  hy_run (calls ++ [o]) s = Some s2 ∧
  (∀ t, writes t (calls ++ [o]) s = writes t calls s + Z.b2z (ok && writes_to t o)) ∧
  deleted (calls ++ [o]) s = deleted calls s ++ deletes ok o.
Proof.
  intros Hr Ho. revert s Hr. induction calls as [|o' calls IH]; intros s Hr; cbn [app hy_run writes deleted] in *.
  - injection Hr as ->. rewrite Ho. cbn. split_and!; [done|intros t; lia|by rewrite app_nil_r].
  - destruct (hy_call o' s) as [[ok' s']|]; [|done]. destruct (IH s' Hr) as (H1 & H2 & H3).
    split_and!; [done| |by rewrite H3, app_assoc]. intros t. rewrite H2. lia.
Qed.

(** *** What calls keep *)

(** The version of a tenant whose tier does not exist yet is the one it will
    start with. *)
Definition version (t : string) (s : HybridSearcher G X) : Z := default 1 (tt_version <$> hy_tiered s !! t).

(** A change that leaves the configuration, the dense searcher's presence and
    the versions, and takes the shared cache through [steps]. *)
Record kept (steps : list CacheStep) (s s' : HybridSearcher G X) : Prop := {
  kp_config : hy_config s' = hy_config s;
  kp_dense : is_Some (hy_dense s) → is_Some (hy_dense s');
  kp_version t : version t s' = version t s;
  kp_cache : hy_cache s' = (λ c, foldl cache_step c steps) <$> hy_cache s;
}.

Lemma kept_refl s : kept [] s s.
Proof. split; [done..|]. by destruct (hy_cache s). Qed.

Lemma kept_trans l1 l2 s1 s2 s3 : kept l1 s1 s2 → kept l2 s2 s3 → kept (l1 ++ l2) s1 s3.
Proof.
  intros [C1 D1 V1 H1] [C2 D2 V2 H2]. split; [congruence|eauto|intros t; by rewrite V2|].
  rewrite H2, H1, <-option_fmap_compose. apply option_fmap_ext. intros c. cbn. by rewrite foldl_app.
Qed.

Lemma kept_trans_nil l s1 s2 s3 : kept [] s1 s2 → kept l s2 s3 → kept l s1 s3.
Proof. apply (kept_trans [] l). Qed.

Lemma kept_set_dense d s : kept [] s (set_dense d s).
Proof. split; [done|intros _; by eexists|done|]. by destruct (hy_cache s) eqn:E; cbn; rewrite E. Qed.

Lemma kept_set_sparse x s : kept [] s (set_sparse x s).
Proof. split; [done..|]. by destruct (hy_cache s) eqn:E; cbn; rewrite E. Qed.

Lemma version_set_tier t u tier s :
  version t (set_tier u tier s) = if decide (u = t) then tt_version tier else version t s.
Proof.
  unfold version. cbn. case_decide as E; [subst; by rewrite lookup_insert_eq|by rewrite lookup_insert_ne].
Qed.

Lemma kept_set_tier t tier s : tt_version tier = version t s → kept [] s (set_tier t tier s).
Proof.
  intros Hv. split; [done..| |by destruct (hy_cache s) eqn:E; cbn; rewrite E].
  intros u. rewrite version_set_tier. case_decide; [congruence|done].
Qed.

Lemma kept_set_cache f steps s :
  (∀ c, hy_cache s = Some c → f c = foldl cache_step c steps) → kept steps s (set_cache (f <$> hy_cache s) s).
Proof. intros Hf. split; [done..|]. cbn. destruct (hy_cache s); [|done]. cbn. by rewrite Hf. Qed.

Lemma get_tier now t s :
  kept [] s (get_or_create_tiered_searcher now t s).2 ∧
  ∀ tier, (get_or_create_tiered_searcher now t s).1 = Some tier →
    hy_tiered (get_or_create_tiered_searcher now t s).2 !! TenantId.as_str t = Some tier ∧
    tt_version tier = version (TenantId.as_str t) s.
Proof.
  unfold get_or_create_tiered_searcher. destruct (negb _); [split; [apply kept_refl|done]|].
  destruct (hy_dense s) as [dense|]; [|split; [apply kept_refl|done]].
  destruct (hy_tiered s !! TenantId.as_str t) as [tier|] eqn:Et.
  { split; [apply kept_refl|]. intros tier' [= <-]. split; [done|]. unfold version. by rewrite Et. }
  destruct (hy_cache s) as [cache|]; [|split; [apply kept_refl|done]]. split.
  - apply kept_set_tier. unfold version. by rewrite Et.
  - intros tier [= <-]. split; [cbn; by rewrite lookup_insert_eq|]. unfold version. by rewrite Et.
Qed.

Lemma kept_put_cache c c' steps s :
  hy_cache s = Some c → c' = foldl cache_step c steps → kept steps s (set_cache (Some c') s).
Proof. intros Hc ->. split; [done..|]. cbn. by rewrite Hc. Qed.

(** What tiered search needs. *)
Record tiered_on (s : HybridSearcher G X) : Prop := {
  on_enabled : hc_enable_tiered (hy_config s) = true;
  on_has_dense : is_Some (hy_dense s);
  on_has_cache : is_Some (hy_cache s);
}.

Lemma kept_on steps s s' : kept steps s s' → tiered_on s → tiered_on s'.
Proof.
  intros [C D _ H] [E1 E2 [c E3]]. split; [by rewrite C|by apply D|]. rewrite H, E3. by eexists.
Qed.

Lemma get_tier_on now t s :
  tiered_on s → ∃ tier s1, get_or_create_tiered_searcher now t s = (Some tier, s1) ∧ kept [] s s1 ∧
    hy_tiered s1 !! TenantId.as_str t = Some tier ∧ tt_version tier = version (TenantId.as_str t) s.
Proof.
  intros Hon. pose proof (get_tier now t s) as [Hk Ht].
  destruct (get_or_create_tiered_searcher now t s) as [[tier|] s1] eqn:E.
  - destruct (Ht _ eq_refl) as [H1 H2]. by exists tier, s1.
  - exfalso. revert E. destruct Hon as [E1 [d E2] [c E3]]. unfold get_or_create_tiered_searcher.
    rewrite E1, E2, E3. cbn [negb]. by case_match.
Qed.

Lemma bump_version now t s :
  tiered_on s → version (TenantId.as_str t) s < u64_max →
  0 ≤ version (TenantId.as_str t) s →
  let s' := bump_tenant_memory_version now t s in
  hy_config s' = hy_config s ∧ tiered_on s' ∧ hy_cache s' = hy_cache s ∧
  ∀ u, version u s' = version u s + Z.b2z (String.eqb (TenantId.as_str t) u).
Proof.
  intros Hon Hlt H0. cbv zeta. unfold bump_tenant_memory_version.
  destruct (get_tier_on now t s Hon) as (tier & s1 & -> & Hk & Ht & Hv).
  pose proof (kept_on _ _ _ Hk Hon) as [O1 O2 O3]. destruct Hk as [C D V H].
  split_and!; [done|by split|cbn; rewrite H; by destruct (hy_cache s)|].
  intros u. rewrite version_set_tier. cbn. case_decide as E.
  - subst u. rewrite String.eqb_refl, Hv. unfold as_u64. unfold wrapu.
    rewrite Z.mod_small; [cbn; lia|]. unfold u64_max in Hlt. lia.
  - rewrite V. destruct (String.eqb_spec (TenantId.as_str t) u); [done|cbn; lia].
Qed.

Lemma hy_bind_inv {A B} (m : HyM A) (k : A → HyM B) s r s' :
  hy_bind m k s = Some (r, s') →
  (∃ a s1, m s = Some (Ok a, s1) ∧ k a s1 = Some (r, s')) ∨ (∃ e, m s = Some (Err e, s') ∧ r = Err e).
Proof.
  unfold hy_bind. destruct (m s) as [[[a|e] s1]|]; cbn; [left; eauto|right|done].
  exists e. by simplify_eq.
Qed.

Lemma on_dense_kept {A} d (m : DenseM G A) s r s' : on_dense d m s = Some (r, s') → kept [] s s'.
Proof. unfold on_dense. destruct (m d) as [[r1 d1]|]; [|done]. intros [= _ <-]. apply kept_set_dense. Qed.

Lemma on_sparse_kept {A} x (f : X → memd_result A * X) s r s' : on_sparse x f s = Some (r, s') → kept [] s s'.
Proof. unfold on_sparse. destruct (f x) as [r1 x1]. intros [= _ <-]. apply kept_set_sparse. Qed.

(** An operation that keeps versions and cache. *)
Ltac kept_leg :=
  repeat match goal with
  | |- context [match ?x with _ => _ end] => destruct x; cbn
  end;
  try (intros [= _ <-]; apply kept_refl); try apply on_dense_kept; try apply on_sparse_kept; try done.

Lemma index_dense_kept t chunks s r s' : index_dense threshold t chunks s = Some (r, s') → kept [] s s'.
Proof. unfold index_dense. kept_leg. Qed.

Lemma index_sparse_kept t chunks s r s' : index_sparse t chunks s = Some (r, s') → kept [] s s'.
Proof.
  unfold index_sparse. destruct (hy_sparse s); [|kept_leg]. destruct (hc_enable_sparse _); [|kept_leg].
  destruct (sparse_items t chunks) as [items|]; [|done]. cbn. kept_leg.
Qed.

Lemma delete_sparse_kept t c s r s' : delete_sparse t c s = Some (r, s') → kept [] s s'.
Proof.
  unfold delete_sparse. destruct (hy_sparse s) as [x|]; [|kept_leg]. destruct (hc_enable_sparse _); [|kept_leg].
  intros [(a & s1 & H1 & [= _ <-])|(e & H1 & _)]%hy_bind_inv; by eapply on_sparse_kept.
Qed.

Lemma sparse_leg_kept t query k s r s' : sparse_leg t query k s = Some (r, s') → kept [] s s'.
Proof. unfold sparse_leg. kept_leg. Qed.

Lemma index_batch_effect now t chunks s r s' :
  hybrid_index_batch threshold now t chunks s = Some (r, s') →
  if is_ok r && negb (bool_decide (chunks = []))
  then ∃ s1, kept [] s s1 ∧ s' = bump_tenant_memory_version now t s1 else kept [] s s'.
Proof.
  unfold hybrid_index_batch. case_bool_decide; cbn [negb].
  { intros [= <- <-]. apply kept_refl. }
  intros [(a & s1 & H1%index_dense_kept & H2)|(e & H1%index_dense_kept & ->)]%hy_bind_inv; [|done].
  apply hy_bind_inv in H2 as [(b & s2 & H2%index_sparse_kept & [= <- <-])|(e & H2%index_sparse_kept & ->)]; cbn.
  - exists s2. split; [by eapply kept_trans_nil|done].
  - by eapply kept_trans_nil.
Qed.

Lemma delete_chunk_effect now t c s r s' :
  hybrid_delete_chunk now t c s = Some (r, s') →
  if is_ok r then ∃ s1, kept [SInvalidateChunks [c]] s s1 ∧ s' = bump_tenant_memory_version now t s1
  else kept [] s s'.
Proof.
  unfold hybrid_delete_chunk.
  intros [(a & s1 & H1%delete_sparse_kept & [= <- <-])|(e & H1%delete_sparse_kept & ->)]%hy_bind_inv; [|done].
  eexists. split; [|done]. eapply kept_trans_nil; [exact H1|].
  eapply (kept_trans [_] []); [|apply get_tier]. by apply kept_set_cache.
Qed.

(** *** The dense leg of a search *)

(** The answer of the tiered searcher in [hybrid_search]. *)
Definition dense_answer (mf hf : bool) (now_ms : Z) (t : TenantId) (query : string) (k : nat)
    (context : option SearchContext) (s : HybridSearcher G X) : option (memd_result TieredSearchResult) :=
  match get_or_create_tiered_searcher now_ms t s with
  | (Some tier, s) =>
      dense ← hy_dense s;
      match embed_query query with
      | Err e => Some (Err e)
      | Ok q => fst <$> tiered_leg threshold mf hf now_ms t q (context ≫= sx_current_project)
                          (Nat.max (hc_dense_k (hy_config s)) k) tier dense s
      end
  | (None, _) => None
  end.

Lemma tiered_leg_spec mf hf now t q p k tier dense s r s' c :
  hy_cache s = Some c → tt_version tier = version (TenantId.as_str t) s →
  tiered_leg threshold mf hf now t q p k tier dense s = Some (r, s') →
  ∃ w, wt_get_version w = tt_version tier ∧
    let searcher := with_shared (Some c) (tt_searcher tier) in
    (search_internal mf hf now w q (TenantId.as_str t) p k false searcher).1 = r ∧
    kept (call_steps searcher (TSearch mf hf now w q (TenantId.as_str t) p k false)) s s'.
Proof.
  intros Hc Hv. unfold tiered_leg. rewrite Hc.
  destruct (if reaches_warm _ _ _ _ _ _ _ _ _ then _ else _) as [[warm dense']|]; [|done]. cbn [mbind option_bind].
  set (w := warm_adapter warm t tier dense). set (searcher := with_shared (Some c) (tt_searcher tier)).
  pose proof (call_steps_cache searcher (TSearch mf hf now w q (TenantId.as_str t) p k false)) as Hsteps.
  cbn [tiered_call] in Hsteps. destruct (search_internal mf hf now w q (TenantId.as_str t) p k false searcher) as [r1 searcher'] eqn:E.
  intros [= <- <-]. exists w. split; [done|]. cbv zeta. split; [by rewrite E|].
  set (tier' := mkTier searcher' (tt_version tier) (tt_embedding_cache tier)).
  eapply kept_trans_nil; [apply (kept_set_dense dense')|].
  eapply kept_trans_nil; [by apply (kept_set_tier (TenantId.as_str t) tier')|].
  by apply (kept_put_cache c).
Qed.

(** A search of tenant [t] in [s] calls the tiered searcher [searcher] for
    the query vector [q] with the warm tier [w]. *)
Record searching (t : TenantId) (s : HybridSearcher G X) (c : SemanticCache) (searcher : TieredSearcher G)
    (w : WarmTier) : Prop := {
  sg_cache : hy_cache s = Some c;
  sg_shared : ti_cache searcher = c;
  sg_version : wt_get_version w = version (TenantId.as_str t) s;
}.

Lemma search_effect mf hf now t query k context s r s' :
  tiered_on s → hybrid_search threshold mf hf now t query k context s = Some (r, s') →
  kept [] s s' ∨
  ∃ c searcher w q, searching t s c searcher w ∧
    let fetch := Nat.max (hc_dense_k (hy_config s)) k in
    let o := TSearch mf hf now w q (TenantId.as_str t) (context ≫= sx_current_project) fetch false in
    dense_answer mf hf now t query k context s =
      Some (search_internal mf hf now w q (TenantId.as_str t) (context ≫= sx_current_project) fetch false searcher).1 ∧
    kept (call_steps searcher o) s s'.
Proof.
  intros Hon. unfold hybrid_search, dense_answer.
  destruct (get_tier_on now t s Hon) as (tier & s1 & -> & Hk & Ht & Hv). unfold search_tiered.
  pose proof (kept_on _ _ _ Hk Hon) as [_ [d Hd] [c Hc]]. rewrite Hd. cbn [mbind option_bind].
  destruct (embed_query query) as [q|e]; [|intros [= _ <-]; by left].
  pose proof (kp_config _ _ _ Hk) as Hcfg. pose proof (kp_version _ _ _ Hk (TenantId.as_str t)) as Hver.
  assert (Hs : hy_cache s = Some c).
  { pose proof (kp_cache _ _ _ Hk) as E. rewrite Hc in E. by destruct (hy_cache s). }
  intros [(res & s2 & H1 & H2)|(e & H1 & ->)]%hy_bind_inv; rewrite H1; cbn [fmap option_fmap fst];
    (apply (tiered_leg_spec _ _ _ _ _ _ _ _ _ _ _ _ c) in H1 as (w & Hw & Hres & Hk1); [|done|congruence]);
    right; exists c, (with_shared (Some c) (tt_searcher tier)), w, q; rewrite Hcfg in *;
    (split; [by split; [|done|congruence]|]); (split; [by rewrite Hres|]).
  - apply hy_bind_inv in H2 as [(sp & s3 & H2%sparse_leg_kept & [= _ <-])|(e & H2%sparse_leg_kept & _)].
    all: eapply kept_trans_nil; [exact Hk|]; rewrite <-(app_nil_r (call_steps _ _)); by eapply kept_trans.
  - by eapply kept_trans_nil.
Qed.

Lemma dense_answer_spec mf hf now t query k context s r :
  tiered_on s → dense_answer mf hf now t query k context s = Some r → is_ok r = true →
  ∃ c searcher w q, searching t s c searcher w ∧
    r = (search_internal mf hf now w q (TenantId.as_str t) (context ≫= sx_current_project)
           (Nat.max (hc_dense_k (hy_config s)) k) false searcher).1.
Proof.
  intros Hon. unfold dense_answer.
  destruct (get_tier_on now t s Hon) as (tier & s1 & -> & Hk & Ht & Hv).
  pose proof (kept_on _ _ _ Hk Hon) as [_ [d Hd] [c Hc]]. rewrite Hd. cbn [mbind option_bind].
  destruct (embed_query query) as [q|e]; [|by intros [= <-]].
  pose proof (kp_config _ _ _ Hk) as Hcfg. pose proof (kp_version _ _ _ Hk (TenantId.as_str t)) as Hver.
  assert (Hs : hy_cache s = Some c).
  { pose proof (kp_cache _ _ _ Hk) as E. rewrite Hc in E. by destruct (hy_cache s). }
  destruct (tiered_leg _ _ _ _ _ _ _ _ _ _ _) as [[r1 s2]|] eqn:E; [|done]. intros [= <-] _.
  apply (tiered_leg_spec _ _ _ _ _ _ _ _ _ _ _ _ c) in E as (w & Hw & Hres & Hk1); [|done|congruence].
  exists c, (with_shared (Some c) (tt_searcher tier)), w, q. rewrite Hcfg in *. split; [by split; [|done|congruence]|done].
Qed.

Lemma maintenance_kept now t s :
  tiered_on s → kept [SPrune] s (run_tiered_maintenance now t s).2.
Proof.
  intros Hon. unfold run_tiered_maintenance.
  destruct (get_tier_on now t s Hon) as (tier & s1 & -> & Hk & Ht & Hv).
  pose proof (kept_on _ _ _ Hk Hon) as [_ [d Hd] [c Hc]]. rewrite Hd, Hc.
  set (w := warm_adapter _ t tier d).
  pose proof (call_steps_cache (with_shared (Some c) (tt_searcher tier)) (TMaintenance now w (TenantId.as_str t))) as Hs.
  cbn [tiered_call call_steps] in Hs. destruct (run_maintenance _ _ _ _) as [mr searcher]. cbn [snd] in *.
  eapply kept_trans_nil; [exact Hk|]. set (tier' := mkTier searcher (tt_version tier) (tt_embedding_cache tier)).
  eapply kept_trans_nil; [apply (kept_set_tier (TenantId.as_str t) tier')|by apply (kept_put_cache c)].
  rewrite (kp_version _ _ _ Hk). exact Hv.
Qed.

Lemma cache_embedding_kept t c e s : kept [] s (cache_embedding t c e s).
Proof.
  unfold cache_embedding. destruct (hy_tiered s !! TenantId.as_str t) as [tier|] eqn:E; [|apply kept_refl].
  apply kept_set_tier. unfold version. by rewrite E.
Qed.

(** Tenant, project, limit and answer of a search's dense leg. *)
Definition answer_of (o : HyCall) (s : HybridSearcher G X)
    : option (string * option string * Z * memd_result TieredSearchResult) :=
  match o with
  | HSearch mf hf now t query k context =>
      r ← dense_answer mf hf now t query k context s;
      Some (TenantId.as_str t, context ≫= sx_current_project, Z.of_nat (Nat.max (hc_dense_k (hy_config s)) k), r)
  | _ => None
  end.

Definition found_chunks (r : TieredSearchResult) : list ChunkId := map sd_chunk_id (tsr_results r).

Lemma uncached_distinct mf hf now w q t p k debug (x : TieredSearcher G) r :
  (search_internal mf hf now w q t p k debug x).1 = Ok r → tsr_cache_hit r = false →
  (length (tsr_results r) ≤ k)%nat ∧ NoDup (found_chunks r).
Proof.
  unfold search_internal. destruct (if tr_enable_cache (ti_config x) then _ else _) as [[hit|] c1].
  { by intros [= <-]. }
  destruct (if tr_enable_hot_tier (ti_config x) then _ else _) as [[hot|e] tr]; [|done].
  destruct (wt_search w q k) as [warm|e]; [|done].
  pose proof (merge_results_map hot warm k debug) as Hm.
  destruct (merge_results hot warm k debug) as [merged ds]. intros [= <-] _. cbn in *. subst merged.
  rewrite length_take. split; [lia|]. unfold found_chunks. cbn. rewrite <-firstn_map.
  eapply sublist_NoDup; [|apply sublist_take]. rewrite sort_by_Permutation. apply merged_ids_NoDup.
Qed.

Lemma bump_cache now t s : tiered_on s → hy_cache (bump_tenant_memory_version now t s) = hy_cache s.
Proof.
  intros Hon. unfold bump_tenant_memory_version.
  destruct (get_tier_on now t s Hon) as (tier & s1 & -> & Hk & _). cbn.
  rewrite (kp_cache _ _ _ Hk). by destruct (hy_cache s).
Qed.

Lemma kept_cache steps s s' c : kept steps s s' → hy_cache s = Some c → hy_cache s' = Some (foldl cache_step c steps).
Proof. intros Hk Hc. by rewrite (kp_cache _ _ _ Hk), Hc. Qed.

(** The shared cache after a call that is not a search. *)
Lemma call_cache_eq o s ok s' c :
  tiered_on s → hy_call o s = Some (ok, s') → hy_cache s = Some c →
  match o with
  | HIndex _ _ _ | HKeep _ _ _ => hy_cache s' = Some c
  | HDelete _ _ ch => hy_cache s' = Some (if ok then invalidate_chunks [ch] c else c)
  | HSearch _ _ _ _ _ _ _ => True
  | HMaintain _ _ => hy_cache s' = Some (prune_index c)
  | HDrop key => hy_cache s' = Some (evict key c)
  end.
Proof.
  intros Hon Ho Hc. destruct o as [now t chunks|now t ch|mf hf now t query k context|now t|t ch e|key]; cbn [hy_call] in Ho.
  - destruct (hybrid_index_batch _ _ _ _ _) as [[r s1]|] eqn:E; [|done]. injection Ho as <- <-.
    apply index_batch_effect in E. destruct (is_ok r && _); [|by apply (kept_cache [] s)].
    destruct E as (s2 & Hk & E). cbn. rewrite E, bump_cache by (by eapply kept_on). by apply (kept_cache [] s).
  - destruct (hybrid_delete_chunk _ _ _ _) as [[r s1]|] eqn:E; [|done]. injection Ho as <- <-.
    apply delete_chunk_effect in E. destruct (is_ok r); [|by apply (kept_cache [] s)].
    destruct E as (s2 & Hk & E). cbn. rewrite E, bump_cache by (by eapply kept_on).
    by apply (kept_cache [SInvalidateChunks [ch]] s).
  - done.
  - injection Ho as <- <-. apply (kept_cache [SPrune] s); [by apply maintenance_kept|done].
  - injection Ho as <- <-. apply (kept_cache [] s); [apply cache_embedding_kept|done].
  - injection Ho as <- <-. cbn. by rewrite Hc.
Qed.

Lemma cache_all_mono (R R' : QueryIndexEntry → list CachedResult → Z → Z → Prop) c :
  cache_all R c → (∀ e res v l, R e res v l → R' e res v l) → cache_all R' c.
Proof. intros [H1 H2] HR. split; [done|]. intros e r He Hr. by apply HR, H2. Qed.

Lemma search_cache mf hf now t query k context s r s' c (R R' : QueryIndexEntry → list CachedResult → Z → Z → Prop) :
  let o := HSearch mf hf now t query k context in
  tiered_on s → hybrid_search threshold mf hf now t query k context s = Some (r, s') → hy_cache s = Some c →
  cache_all R c → (∀ e res v l, R e res v l → R' e res v l) →
  (∀ q u p l r, answer_of o s = Some (u, p, l, Ok r) → tsr_cache_hit r = false →
     R' (mkQuery (embedding_hash q u p) q u p) (cached_results (tsr_results r)) (version u s) l) →
  ∃ c', hy_cache s' = Some c' ∧ cache_all R' c'.
Proof.
  intros o Hon Hs Hc Hall HR Hnew.
  apply search_effect in Hs as [Hk|(c0 & x & w & q & [Hc0 Hx Hw] & Ha & Hk)]; [| |done].
  { exists c. split; [by apply (kept_cache [] s)|]. by eapply cache_all_mono. }
  eexists. split; [exact (kept_cache _ s s' c Hk Hc)|]. cbn [call_steps].
  destruct (tr_enable_cache (ti_config x)); [|by eapply cache_all_mono]. cbn [foldl cache_step].
  set (c1 := (lookup_with_limit _ _ _ _ _ _ c).2).
  assert (H1 : cache_all R c1) by (by apply cache_all_lookup).
  destruct (search_internal _ _ _ _ _ _ _ _ _ x).1 as [r1|e] eqn:Er; [|by eapply cache_all_mono].
  destruct (tsr_cache_hit r1) eqn:Eh; [by eapply cache_all_mono|]. cbn [orb].
  case_bool_decide; [by eapply cache_all_mono|]. cbn [foldl].
  apply (cache_all_step R); [done|by eauto|]. cbn beta iota. rewrite Hw. apply Hnew; [|done].
  unfold o, answer_of. rewrite Ha. done.
Qed.

(** What a call makes of a property of the cached answers. *)
Lemma call_cache o s ok s' c (R R' : QueryIndexEntry → list CachedResult → Z → Z → Prop) :
  tiered_on s → hy_call o s = Some (ok, s') → hy_cache s = Some c → cache_all R c →
  (∀ e res v l, R e res v l → (∀ r, r ∈ res → cr_chunk_id r ∉ deletes ok o) → R' e res v l) →
  (∀ q t p l r, answer_of o s = Some (t, p, l, Ok r) → tsr_cache_hit r = false →
     R' (mkQuery (embedding_hash q t p) q t p) (cached_results (tsr_results r)) (version t s) l) →
  ∃ c', hy_cache s' = Some c' ∧ cache_all R' c'.
Proof.
  intros Hon Ho Hc Hall Hkeep Hnew.
  assert (Hmono : deletes ok o = [] → ∀ e res v l, R e res v l → R' e res v l).
  { intros Hd e res v l He. apply Hkeep; [done|]. rewrite Hd. intros ? _. apply not_elem_of_nil. }
  pose proof (call_cache_eq o s ok s' c Hon Ho Hc) as He.
  destruct o as [now t chunks|now t ch|mf hf now t query k context|now t|t ch e|key]; cbn [hy_call deletes] in *.
  - exists c. split; [done|]. eapply cache_all_mono; eauto.
  - eexists. split; [exact He|]. destruct ok; [|eapply cache_all_mono; by eauto].
    apply (cache_all_step R R' c (SInvalidateChunks [ch])); [done| |done].
    intros e res v l HR Hne. apply Hkeep; [done|]. intros r Hr Hin. apply Hne. cbn. eauto.
  - destruct (hybrid_search _ _ _ _ _ _ _ _ _) as [[r s1]|] eqn:E; [|done]. injection Ho as <- <-.
    eapply search_cache; [done|exact E|done|done|by apply Hmono|done].
  - eexists. split; [exact He|]. apply (cache_all_step R R' c SPrune); [done|by eauto|done].
  - exists c. split; [done|]. eapply cache_all_mono; eauto.
  - eexists. split; [exact He|]. apply (cache_all_step R R' c (SEvict key)); [done|by eauto|done].
Qed.

Lemma answer_of_spec o s t p l r :
  tiered_on s → answer_of o s = Some (t, p, l, Ok r) →
  ∃ mf hf now u k c x w q, searching u s c x w ∧ t = TenantId.as_str u ∧ l = Z.of_nat k ∧
    (search_internal mf hf now w q t p k false x).1 = Ok r.
Proof.
  intros Hon. destruct o as [| |mf hf now u query k context| | |]; try done. cbn [answer_of].
  destruct (dense_answer _ _ _ _ _ _ _ _) as [a|] eqn:E; [|done]. cbn [mbind option_bind].
  intros [= <- <- <- ->]. apply dense_answer_spec in E as (c & x & w & q & Hs & Hr); [|done..].
  by eexists mf, hf, now, u, _, c, x, w, q.
Qed.

(** *** Memory versions count the successful writes *)

Lemma kept_call steps s s' : tiered_on s → kept steps s s' →
  tiered_on s' ∧ hy_config s' = hy_config s ∧ ∀ u, version u s' = version u s.
Proof. intros Hon Hk. split; [by eapply kept_on|]. by destruct Hk. Qed.

Lemma call_version o s ok s' :
  tiered_on s → (∀ u, 0 ≤ version u s < u64_max) → hy_call o s = Some (ok, s') →
  tiered_on s' ∧ hy_config s' = hy_config s ∧ ∀ u, version u s' = version u s + Z.b2z (ok && writes_to u o).
Proof.
  intros Hon Hv Ho.
  assert (Hkeep : ∀ steps, kept steps s s' → (∀ u, ok && writes_to u o = false) →
    tiered_on s' ∧ hy_config s' = hy_config s ∧ ∀ u, version u s' = version u s + Z.b2z (ok && writes_to u o)).
  { intros steps Hk Hw. destruct (kept_call _ _ _ Hon Hk) as (H1 & H2 & H3). split_and!; [done..|].
    intros u. rewrite H3, Hw. cbn. lia. }
  assert (Hbump : ∀ now t steps s1, kept steps s s1 → s' = bump_tenant_memory_version now t s1 →
    (∀ u, ok && writes_to u o = String.eqb (TenantId.as_str t) u) →
    tiered_on s' ∧ hy_config s' = hy_config s ∧ ∀ u, version u s' = version u s + Z.b2z (ok && writes_to u o)).
  { intros now t steps s1 Hk -> Hw. destruct (kept_call _ _ _ Hon Hk) as (H1 & H2 & H3).
    destruct (bump_version now t s1 H1) as (B1 & B2 & _ & B3); [rewrite H3; apply Hv..|].
    split_and!; [done|congruence|]. intros u. by rewrite B3, H3, Hw. }
  destruct o as [now t chunks|now t ch|mf hf now t query k context|now t|t ch e|key]; cbn [hy_call] in Ho.
  - destruct (hybrid_index_batch _ _ _ _ _) as [[r s1]|] eqn:E; [|done]. injection Ho as <- <-.
    apply index_batch_effect in E. destruct (is_ok r); cbn [andb] in *.
    + case_bool_decide; cbn [negb] in *.
      * eapply Hkeep; [exact E|]. intros u. cbn. by rewrite bool_decide_true, andb_false_r.
      * destruct E as (s2 & Hk & E). eapply Hbump; [exact Hk|exact E|]. intros u. cbn. by rewrite bool_decide_false, andb_true_r.
    + by eapply Hkeep.
  - destruct (hybrid_delete_chunk _ _ _ _) as [[r s1]|] eqn:E; [|done]. injection Ho as <- <-.
    apply delete_chunk_effect in E. destruct (is_ok r); [|by eapply Hkeep].
    destruct E as (s2 & Hk & E). by eapply Hbump.
  - destruct (hybrid_search _ _ _ _ _ _ _ _ _) as [[r s1]|] eqn:E; [|done]. injection Ho as <- <-.
    apply search_effect in E as [Hk|(c & x & w & q & _ & _ & Hk)]; [| |done];
      (eapply Hkeep; [exact Hk|intros u; apply andb_false_r]).
  - injection Ho as <- <-. eapply Hkeep; [by apply maintenance_kept|done].
  - injection Ho as <- <-. eapply Hkeep; [apply cache_embedding_kept|done].
  - injection Ho as <- <-. destruct Hon as [E1 E2 [c Hc]]. split_and!; [|done|intros u; cbn; unfold version; cbn; lia].
    split; [done..|]. cbn. rewrite Hc. by eexists.
Qed.

(** *** Runs *)

(** The cached results [res] are the answer that an earlier search gave to
    the tenant and project of [e]; [v] is the version the tenant had then,
    and no chunk deleted since is among them. *)
Definition served_answer (s0 : HybridSearcher G X) (calls : list HyCall) (s : HybridSearcher G X)
    (e : QueryIndexEntry) (res : list CachedResult) (v l : Z) : Prop :=
  ∃ pre o post s1 ok s2 r,
    calls = pre ++ o :: post ∧ hy_run pre s0 = Some s1 ∧ hy_call o s1 = Some (ok, s2) ∧ hy_run post s2 = Some s ∧
    answer_of o s1 = Some (qi_tenant_id e, qi_project_id e, l, Ok r) ∧ tsr_cache_hit r = false ∧
    NoDup (found_chunks r) ∧ res = cached_results (tsr_results r) ∧
    v + writes (qi_tenant_id e) post s2 = version (qi_tenant_id e) s ∧
    ∀ c, c ∈ deleted post s2 → c ∉ found_chunks r.

Record run_inv (s0 : HybridSearcher G X) (calls : list HyCall) (s : HybridSearcher G X) : Prop := {
  ri_on : tiered_on s;
  ri_config : hy_config s = hy_config s0;
  ri_version u : version u s = 1 + writes u calls s0;
  ri_cache : ∃ c, hy_cache s = Some c ∧ cache_all (served_answer s0 calls s) c;
}.

Lemma writes_bound t calls s : 0 ≤ writes t calls s ≤ zlen calls.
Proof.
  revert s. induction calls as [|o calls IH]; intros s; cbn [writes]; [done|].
  assert (zlen (o :: calls) = 1 + zlen calls) as -> by (unfold zlen; cbn; lia).
  destruct (hy_call o s) as [[ok s']|]; [|unfold zlen; lia]. specialize (IH s').
  destruct (ok && writes_to t o); cbn; lia.
Qed.

Lemma run_inv_step s0 calls o s ok s' :
  zlen calls < u64_max - 1 → hy_run calls s0 = Some s → run_inv s0 calls s → hy_call o s = Some (ok, s') →
  run_inv s0 (calls ++ [o]) s'.
Proof.
  intros Hlen Hrun [Hon Hcfg Hver (c & Hc & Hall)] Ho.
  destruct (call_version o s ok s' Hon) as (Hon' & Hcfg' & Hver'); [|done|].
  { intros u. rewrite Hver. pose proof (writes_bound u calls s0). lia. }
  destruct (run_snoc calls o s0 s ok s' Hrun Ho) as (Hrun' & Hw & _).
  split; [done|congruence|intros u; rewrite Hver', Hver, Hw; lia|].
  apply (call_cache o s ok s' c _ (served_answer s0 (calls ++ [o]) s') Hon Ho Hc Hall).
  - intros e res v l (pre & o1 & post & s1 & ok1 & s2 & r & -> & H1 & H2 & H3 & H4 & H5 & H6 & H7 & H8 & H9) Hdel.
    destruct (run_snoc post o s2 s ok s' H3 Ho) as (Hr3 & Hw3 & Hd3).
    exists pre, o1, (post ++ [o]), s1, ok1, s2, r. split_and!; try done.
    + by rewrite <-app_assoc.
    + rewrite Hw3, Hver'. lia.
    + intros c0. rewrite Hd3, elem_of_app. intros [Hin|Hin]; [by apply H9|].
      intros (x & -> & Hx)%list_elem_of_fmap. apply (Hdel (mkCached (sd_chunk_id x) (sd_score x) "")); [|done].
      subst res. unfold cached_results. by apply (list_elem_of_fmap_2 (λ r, mkCached (sd_chunk_id r) (sd_score r) "")).
  - intros q t p l r Ha Hh. exists calls, o, [], s, ok, s', r. split_and!; try done.
    + destruct (answer_of_spec _ _ _ _ _ _ Hon Ha) as (mf & hf & now & u & k & c1 & x & w & q1 & _ & _ & _ & Hr).
      by apply uncached_distinct in Hr as [_ ?].
    + cbn. rewrite Hver'. destruct o; try done. cbn. rewrite andb_false_r. cbn. lia.
    + intros c0 Hc0. by apply not_elem_of_nil in Hc0.
Qed.

Lemma run_inv_run dense sparse config calls s :
  hc_enable_tiered config = true → zlen calls < u64_max - 1 →
  hy_run calls (hybrid_new dense sparse config) = Some s → run_inv (hybrid_new dense sparse config) calls s.
Proof.
  intros Hen. set (s0 := hybrid_new dense sparse config).
  assert (H0 : run_inv s0 [] s0).
  { split; [|done|done|].
    - split; [done|by eexists|]. unfold s0, hybrid_new, from_parts. cbn. rewrite Hen. by eexists.
    - exists (semantic_cache_new SemanticCacheConfig_default). split.
      + unfold s0, hybrid_new, from_parts. cbn. by rewrite Hen.
      + split; [constructor|]. intros e r He. by apply not_elem_of_nil in He. }
  revert s. induction calls as [|o calls IH] using rev_ind; intros s Hlen Hrun.
  - by injection Hrun as <-.
  - assert (Hl : zlen (calls ++ [o]) = zlen calls + 1) by (unfold zlen; rewrite length_app; cbn; lia).
    rewrite hy_run_app in Hrun. destruct (hy_run calls s0) as [s1|] eqn:E1; [|done]. cbn in Hrun.
    destruct (hy_call o s1) as [[ok s2]|] eqn:E2; [|done]. injection Hrun as <-.
    eapply run_inv_step; [lia|done| |done]. apply IH; [lia|done].
Qed.

Definition shown (r : TieredSearchResult) : list (ChunkId * f32) := map tier_pair (tsr_results r).

(** An answer from the cache. *)
Lemma cached_answer s0 calls o s t p k r :
  run_inv s0 calls s → answer_of o s = Some (t, p, k, Ok r) → tsr_cache_hit r = true →
  ∃ pre o1 post s1 ok s2 k1 r1,
    calls = pre ++ o1 :: post ∧ hy_run pre s0 = Some s1 ∧ hy_call o1 s1 = Some (ok, s2) ∧
    answer_of o1 s1 = Some (t, p, k1, Ok r1) ∧ tsr_cache_hit r1 = false ∧ k ≤ k1 ∧
    shown r = take (Z.to_nat k) (shown r1) ∧
    writes t post s2 = 0 ∧ (∀ c, c ∈ deleted post s2 → c ∉ found_chunks r1) ∧ NoDup (found_chunks r1).
Proof.
  intros [Hon _ _ (c & Hc & Hall)] Ha Hh.
  apply answer_of_spec in Ha as (mf & hf & now & u & n & c1 & x & w & q & [Hc1 Hx Hw] & -> & -> & Hr); [|done].
  rewrite Hc in Hc1. injection Hc1 as <-. unfold search_internal in Hr. rewrite Hx in Hr.
  destruct (tr_enable_cache (ti_config x)).
  2: { repeat (case_match; try done). all: by simplify_eq/=. }
  destruct (lookup_with_limit now q _ p (wt_get_version w) (Z.of_nat n) c) as [[hit|] c2] eqn:El.
  2: { repeat (case_match; try done). all: by simplify_eq/=. }
  injection Hr as <-. apply (cache_all_hit _ _ _ _ _ _ _ _ _ _ Hall) in El
    as (e & v & l & (pre & o1 & post & s1 & ok & s2 & r1 & Hcalls & H1 & H2 & H3 & H4 & H5 & H6 & H7 & H8 & H9)
        & Ht & Hp & Hv & Hl & _). rewrite Ht, Hp in *. rewrite Hw in Hv.
  exists pre, o1, post, s1, ok, s2, l, r1. split_and!; try done.
  - rewrite H7. unfold shown, cached_results. cbn [tsr_results]. by rewrite Nat2Z.id, !firstn_map, !map_map.
  - pose proof (writes_bound (TenantId.as_str u) post s2). lia.
Qed.

Lemma shown_ids r : (shown r).*1 = found_chunks r.
Proof. unfold shown, found_chunks. by rewrite map_map. Qed.

(** Cached or not, an answer has no chunk twice. *)
Lemma answer_distinct s0 calls o s t p k r :
  run_inv s0 calls s → answer_of o s = Some (t, p, k, Ok r) →
  (zlen (shown r) ≤ k) ∧ NoDup (shown r).*1.
Proof.
  intros Hinv Ha. destruct (tsr_cache_hit r) eqn:Hh.
  - assert (Hk : 0 ≤ k) by (by apply answer_of_spec in Ha as (? & ? & ? & ? & n & ? & ? & ? & ? & _ & _ & -> & _); [lia|by destruct Hinv]).
    destruct (cached_answer _ _ _ _ _ _ _ _ Hinv Ha Hh) as (? & ? & ? & ? & ? & ? & k1 & r1 & _ & _ & _ & _ & _ & _ & -> & _ & _ & Hnd).
    split; [unfold zlen; rewrite length_take; lia|]. rewrite fmap_take, shown_ids.
    eapply sublist_NoDup; [exact Hnd|apply sublist_take].
  - apply answer_of_spec in Ha as (mf & hf & now & u & n & c1 & x & w & q & _ & _ & -> & Hr); [|by destruct Hinv].
    apply uncached_distinct in Hr as [Hl Hn]; [|done]. rewrite shown_ids. split; [|done].
    unfold zlen, shown. rewrite length_map. lia.
Qed.

(** C32: the dense leg of a search is never served from before the tenant's
    last write.  After any run of writes, deletions, searches, maintenance
    and cache evictions for any tenants, an answer that comes from the
    shared cache is the beginning of the answer that an earlier search of
    the same tenant and the same project computed from its indexes, with at
    least the same limit.  Since then no write of that tenant has succeeded,
    and no chunk of the answer has been deleted, by whichever tenant. *)
Theorem hybrid_cache_fresh dense sparse (config : HybridConfig) (calls : list HyCall) (o : HyCall)
    (s : HybridSearcher G X) t p k r :
  hc_enable_tiered config = true → zlen calls < u64_max - 1 →
  let s0 := hybrid_new dense sparse config in
  hy_run calls s0 = Some s →
  answer_of o s = Some (t, p, k, Ok r) → tsr_cache_hit r = true →
  ∃ pre o1 post s1 ok s2 k1 r1,
    calls = pre ++ o1 :: post ∧ hy_run pre s0 = Some s1 ∧ hy_call o1 s1 = Some (ok, s2) ∧
    answer_of o1 s1 = Some (t, p, k1, Ok r1) ∧ tsr_cache_hit r1 = false ∧ k ≤ k1 ∧
    shown r = take (Z.to_nat k) (shown r1) ∧
    writes t post s2 = 0 ∧ ∀ c, c ∈ deleted post s2 → c ∉ found_chunks r1.
Proof.
  intros Hen Hlen s0 Hrun Ha Hh.
  destruct (cached_answer _ calls o s t p k r (run_inv_run dense sparse config calls s Hen Hlen Hrun) Ha Hh)
    as (pre & o1 & post & s1 & ok & s2 & k1 & r1 & H). exists pre, o1, post, s1, ok, s2, k1, r1. tauto.
Qed.

(** *** The sparse index *)

Context {Q : Type} (matches : Q → SparseDoc → bool) (parse : string → memd_result Q) `{SL : !SparseIndexLaws matches parse}.
Implicit Types (D : list SparseDoc).

(** The sparse documents after a call, and after a run. *)
Definition docs_effect (ok : bool) (o : HyCall) D : list SparseDoc :=
  match o with
  | HIndex _ t chunks =>
      match sparse_items t chunks with
      | Some items => if ok then docs_after (IndexItems items) D else D
      | None => D
      end
  | HDelete _ t c => docs_after (DeleteDocs t c) D
  | _ => D
  end.
Fixpoint sparse_docs (calls : list HyCall) (s : HybridSearcher G X) D : list SparseDoc :=
  match calls with
  | [] => D
  | o :: calls =>
      match hy_call o s with
      | Some (ok, s) => sparse_docs calls s (docs_effect ok o D)
      | None => D
      end
  end.

(** The sparse index of [s] holds the documents [D]; no dense searcher has
    appeared since [dense]. *)
Record sparse_ok (config : HybridConfig) (dense : option (DenseSearcher G)) (s : HybridSearcher G X) D : Prop := {
  so_config : hy_config s = config;
  so_dense : dense = None → hy_dense s = None;
  so_index : ∃ x, hy_sparse s = Some x ∧ sx_rep matches parse x D;
}.

Record held (s s' : HybridSearcher G X) : Prop := {
  hd_config : hy_config s' = hy_config s;
  hd_dense : hy_dense s = None → hy_dense s' = None;
  hd_sparse : hy_sparse s' = hy_sparse s;
}.

Lemma held_ok config dense s s' D : held s s' → sparse_ok config dense s D → sparse_ok config dense s' D.
Proof. intros [C N S] [Hc Hn Hx]. split; [congruence|auto|by rewrite S]. Qed.

Lemma get_tier_held now t s : held s (get_or_create_tiered_searcher now t s).2.
Proof. unfold get_or_create_tiered_searcher. by repeat case_match. Qed.

Lemma bump_held now t s : held s (bump_tenant_memory_version now t s).
Proof.
  unfold bump_tenant_memory_version. pose proof (get_tier_held now t s) as [C N S].
  by destruct (get_or_create_tiered_searcher now t s) as [[tier|] s1].
Qed.

Lemma on_dense_held {A} d (m : DenseM G A) s r s' : hy_dense s = Some d → on_dense d m s = Some (r, s') → held s s'.
Proof.
  intros Hd. unfold on_dense. destruct (m d) as [[r1 d1]|]; [|done]. intros [= _ <-].
  split; [done|by rewrite Hd|done].
Qed.

Lemma dense_leg_held mf hf t query s r s' : dense_leg threshold mf hf t query s = Some (r, s') → held s s'.
Proof.
  unfold dense_leg. destruct (_ <? _)%nat; [|by intros [= _ <-]].
  destruct (hy_dense s) eqn:Hd; [by apply on_dense_held|by intros [= _ <-]].
Qed.

Lemma index_dense_held t chunks s r s' : index_dense threshold t chunks s = Some (r, s') → held s s'.
Proof.
  unfold index_dense. destruct (_ <? _)%nat; [|by intros [= _ <-]].
  destruct (hy_dense s) eqn:Hd; [by apply on_dense_held|by intros [= _ <-]].
Qed.

Lemma tiered_leg_held mf hf now t q p k tier dense s r s' :
  is_Some (hy_dense s) → tiered_leg threshold mf hf now t q p k tier dense s = Some (r, s') → held s s'.
Proof.
  intros [d Hd]. unfold tiered_leg. destruct (if reaches_warm _ _ _ _ _ _ _ _ _ then _ else _) as [[warm dense']|]; [|done].
  cbn [mbind option_bind]. destruct (search_internal _ _ _ _ _ _ _ _ _ _). intros [= _ <-].
  split; [done|by rewrite Hd|done].
Qed.

Lemma maintenance_held now t s : held s (run_tiered_maintenance now t s).2.
Proof.
  unfold run_tiered_maintenance. pose proof (get_tier_held now t s) as [C N S].
  destruct (get_or_create_tiered_searcher now t s) as [[tier|] s1]; [|done].
  destruct (hy_dense s1); [|done]. by destruct (run_maintenance _ _ _ _).
Qed.

Section config.
Variables (config : HybridConfig) (dense0 : option (DenseSearcher G)).
Hypothesis (sparse_on : hc_enable_sparse config = true) (sparse_k_fits : 0 ≤ hc_sparse_k config).

Lemma sparse_leg_spec t query k s D r s' :
  sparse_ok config dense0 s D → sparse_leg t query k s = Some (r, s') →
  sparse_ok config dense0 s' D ∧ ∃ x', hy_sparse s' = Some x' ∧
    search_answer matches parse (λ q d, sx_score matches parse q d x') t query (sparse_candidate_count config k) D r.
Proof using sparse_on sparse_k_fits.
  intros [Hc Hn (x & Hx & Hrep)]. unfold sparse_leg, on_sparse. rewrite Hx, Hc, sparse_on.
  set (count := sparse_candidate_count config k).
  assert (Hfit : call_fits (SearchDocs t query count)).
  { cbn. unfold count, sparse_candidate_count. destruct (_ && _); lia. }
  destruct (sx_step matches parse x D _ Hrep Hfit) as [Ha Hrep']. cbn [sparse_call] in *.
  destruct (sparse_search t query count x) as [r1 x1]. cbn in *. intros [= <- <-].
  destruct Ha as (r2 & [= <-] & Ha). split; [|by exists x1]. split; [done..|]. by exists x1.
Qed.

Lemma index_sparse_spec t chunks s D r s' :
  sparse_ok config dense0 s D → index_sparse t chunks s = Some (r, s') →
  is_ok r = true ∧ ∃ items, sparse_items t chunks = Some items ∧ sparse_ok config dense0 s' (docs_after (IndexItems items) D).
Proof using sparse_on.
  intros [Hc Hn (x & Hx & Hrep)]. unfold index_sparse, on_sparse. rewrite Hx, Hc, sparse_on.
  destruct (sparse_items t chunks) as [items|]; [|done]. cbn [mbind option_bind]. case_bool_decide as Hi.
  - intros [= <- <-]. split; [done|]. exists items. split; [done|]. subst items. split; [done..|eauto].
  - destruct (sx_step matches parse x D (IndexItems items) Hrep I) as [Ha Hrep']. cbn [sparse_call] in *.
    destruct (sparse_insert_batch items x) as [r1 x1]. cbn in *. intros [= <- <-]. injection Ha as ->.
    split; [done|]. exists items. split; [done|]. split; [done..|eauto].
Qed.

Lemma delete_sparse_spec t c s D r s' :
  sparse_ok config dense0 s D → delete_sparse t c s = Some (r, s') →
  is_ok r = true ∧ sparse_ok config dense0 s' (docs_after (DeleteDocs t c) D).
Proof using sparse_on.
  intros [Hc Hn (x & Hx & Hrep)]. unfold delete_sparse, hy_bind, on_sparse. rewrite Hx, Hc, sparse_on.
  destruct (sx_step matches parse x D (DeleteDocs t c) Hrep I) as [Ha Hrep']. cbn [sparse_call] in *.
  destruct (sparse_delete t c x) as [r1 x1]. cbn in *. injection Ha as ->. intros [= <- <-].
  split; [done|]. split; [done..|eauto].
Qed.

(** The dense list a search works with. *)
Definition dense_part (mf hf : bool) (now_ms : Z) (t : TenantId) (query : string) (k : nat)
    (context : option SearchContext) (s : HybridSearcher G X) : option (memd_result (list (ChunkId * f32))) :=
  match (get_or_create_tiered_searcher now_ms t s).1 with
  | Some _ => a ← dense_answer mf hf now_ms t query k context s; Some (match a with Ok r => Ok (shown r) | Err e => Err e end)
  | None => '(a, _) ← dense_leg threshold mf hf t query s;
            Some (match a with Ok rs => Ok (map dense_pair rs) | Err e => Err e end)
  end.

(** The results of a search: the first [k] of the dense list when it went
    through the tiers and the sparse index found nothing, else the fusion of
    both lists. *)
Definition combined (tiered : bool) (k : nat) (dense : list (ChunkId * f32)) (sparse : list SparseSearchResult)
    : list HybridSearchResult :=
  if tiered && bool_decide (sparse = []) then map (λ r, mkHybridResult r.1 r.2 None None) (take k dense)
  else fuse_lists config k dense (map sparse_pair sparse).

Lemma search_parts mf hf now t query k context s D r s' :
  sparse_ok config dense0 s D → hybrid_search threshold mf hf now t query k context s = Some (r, s') →
  sparse_ok config dense0 s' D ∧
  ∀ results, r = Ok results → ∃ dense sparse x',
    dense_part mf hf now t query k context s = Some (Ok dense) ∧ hy_sparse s' = Some x' ∧
    search_answer matches parse (λ q d, sx_score matches parse q d x') t query (sparse_candidate_count config k) D
      (Ok sparse) ∧
    results = combined (bool_decide (is_Some (get_or_create_tiered_searcher now t s).1)) k dense sparse.
Proof using sparse_on sparse_k_fits.
  intros Hok. unfold hybrid_search, dense_part, dense_answer, combined. pose proof (get_tier_held now t s) as Hh.
  destruct (get_or_create_tiered_searcher now t s) as [[tier|] s1] eqn:Et; cbn [fst snd] in *.
  - apply (held_ok config dense0 s s1 D) in Hok; [|done]. unfold search_tiered.
    destruct (hy_dense s1) as [dense|] eqn:Hd; [|by intros [= <- <-]]. cbn [mbind option_bind].
    destruct (embed_query query) as [q|e]; [|by intros [= <- <-]].
    intros [(res & s2 & H1 & H2)|(e & H1 & ->)]%hy_bind_inv; rewrite H1; cbn [fmap option_fmap fst mbind option_bind];
      (apply tiered_leg_held in H1; [|by rewrite Hd]); (apply (held_ok config dense0 _ _ D) in H1; [|done]); [|done].
    apply hy_bind_inv in H2 as [(sp & s3 & H2 & [= <- <-])|(e & H2 & ->)];
      apply (sparse_leg_spec _ _ _ _ D) in H2 as [Hok3 (x' & Hx' & Ha)]; [|done| |done].
    + split; [done|]. intros results [= <-]. exists (shown res), sp, x'. split_and!; [done|done|done|].
      by rewrite (bool_decide_true (is_Some (Some tier))), (so_config _ _ _ _ Hok3) by (by eexists).
    + by split.
  - assert (s1 = s) as ->.
    { revert Et. unfold get_or_create_tiered_searcher. by repeat case_match; intros [= ?]. }
    unfold search_standard.
    intros [(res & s2 & H1 & H2)|(e & H1 & ->)]%hy_bind_inv; rewrite H1; cbn [fmap option_fmap fst mbind option_bind];
      apply dense_leg_held in H1; (apply (held_ok config dense0 _ _ D) in H1; [|done]); [|done].
    apply hy_bind_inv in H2 as [(sp & s3 & H2 & [= <- <-])|(e & H2 & ->)];
      apply (sparse_leg_spec _ _ _ _ D) in H2 as [Hok3 (x' & Hx' & Ha)]; [|done| |done].
    + split; [done|]. intros results [= <-]. exists (map dense_pair res), sp, x'. split_and!; [done|done|done|].
      by rewrite (bool_decide_false (is_Some None)), (so_config _ _ _ _ Hok3) by (by intros []).
    + by split.
Qed.

Lemma call_sparse o s D ok s' :
  sparse_ok config dense0 s D → hy_call o s = Some (ok, s') → sparse_ok config dense0 s' (docs_effect ok o D).
Proof using sparse_on sparse_k_fits.
  intros Hok Ho. destruct o as [now t chunks|now t ch|mf hf now t query k context|now t|t ch e|key]; cbn [hy_call docs_effect] in *.
  - destruct (hybrid_index_batch _ _ _ _ _) as [[r s1]|] eqn:E; [|done]. injection Ho as <- <-.
    unfold hybrid_index_batch in E. case_bool_decide as Hc.
    { injection E as <- <-. by subst chunks. }
    apply hy_bind_inv in E as [(a & s2 & H1%index_dense_held & H2)|(e & H1%index_dense_held & ->)].
    2: { cbn. apply (held_ok config dense0 _ _ D) in H1; [|done]. by destruct (sparse_items t chunks). }
    apply (held_ok config dense0 _ _ D) in H1; [|done].
    apply hy_bind_inv in H2 as [(b & s3 & H2 & [= <- <-])|(e & H2 & ->)];
      apply (index_sparse_spec _ _ _ D) in H2 as (Hr & items & Hi & Hok3); [|done| |done]; [|done].
    rewrite Hi. cbn. eapply held_ok; [apply bump_held|exact Hok3].
  - destruct (hybrid_delete_chunk _ _ _ _) as [[r s1]|] eqn:E; [|done]. injection Ho as <- <-.
    apply hy_bind_inv in E as [(b & s3 & H2 & [= <- <-])|(e & H2 & ->)];
      apply (delete_sparse_spec _ _ _ D) in H2 as (Hr & Hok3); [|done| |done]; [|done].
    eapply held_ok; [apply bump_held|]. eapply held_ok; [apply get_tier_held|].
    eapply held_ok; [|exact Hok3]. done.
  - destruct (hybrid_search _ _ _ _ _ _ _ _ _) as [[r s1]|] eqn:E; [|done]. injection Ho as <- <-.
    by eapply search_parts.
  - injection Ho as <- <-. eapply held_ok; [apply maintenance_held|done].
  - injection Ho as <- <-. apply (held_ok config dense0 s); [|done]. unfold cache_embedding. by case_match.
  - injection Ho as <- <-. by apply (held_ok config dense0 s).
Qed.

Lemma run_sparse calls : ∀ s D s',
  sparse_ok config dense0 s D → hy_run calls s = Some s' → sparse_ok config dense0 s' (sparse_docs calls s D).
Proof using sparse_on sparse_k_fits.
  induction calls as [|o calls IH]; intros s D s' Hok Hrun; cbn in *; [by injection Hrun as <-|].
  destruct (hy_call o s) as [[ok s1]|] eqn:E; [|done]. cbn in Hrun. eapply IH; [|done]. by eapply call_sparse.
Qed.

End config.

(** *** What a search returns *)

Lemma dense_part_tiered mf hf now t query k context s dense :
  tiered_on s → dense_part mf hf now t query k context s = Some (Ok dense) →
  ∃ a, dense_answer mf hf now t query k context s = Some (Ok a) ∧ dense = shown a.
Proof.
  intros Hon. unfold dense_part. destruct (get_tier_on now t s Hon) as (tier & s1 & E & _). rewrite E. cbn [fst].
  destruct (dense_answer _ _ _ _ _ _ _ _) as [[a|e]|]; [|done..]. intros [= <-]. eauto.
Qed.

Lemma dense_answer_of mf hf now t query k context s a :
  dense_answer mf hf now t query k context s = Some (Ok a) →
  answer_of (HSearch mf hf now t query k context) s =
    Some (TenantId.as_str t, context ≫= sx_current_project, Z.of_nat (Nat.max (hc_dense_k (hy_config s)) k), Ok a).
Proof. intros E. unfold answer_of. by rewrite E. Qed.

Lemma both_candidates_ranks dense sparse : Forall (λ c, 0 ≤ fc_rank c) (both_candidates dense sparse).
Proof.
  unfold both_candidates, source_candidates. apply Forall_app.
  split; apply Forall_forall; intros c (i & r & -> & _)%elem_of_lookup_imap; cbn; lia.
Qed.

Lemma start_sparse_ok dense x (config : HybridConfig) D :
  sx_rep matches parse x D → sparse_ok config dense (from_parts dense (Some x) config) D.
Proof. intros Hx. split; [done..|]. exists x. done. Qed.

(** The dense list of a search in a given state: the tiers' answer, or that
    of the dense searcher for [dense_k] chunks, which [dense_k = 0] turns
    off. *)
Definition dense_list (tiered : bool) (config : HybridConfig) (mf hf : bool) (now_ms : Z) (t : TenantId) (query : string)
    (k : nat) (context : option SearchContext) s (l : list (ChunkId * f32)) : Prop :=
  if tiered then ∃ a, dense_answer mf hf now_ms t query k context s = Some (Ok a) ∧ l = shown a
  else if (hc_dense_k config =? 0)%nat then l = []
  else ∃ d rs d', hy_dense s = Some d ∧ l = map dense_pair rs ∧
    dense_search threshold mf hf (TenantId.as_str t) query (hc_dense_k config) d = Some (Ok rs, d').

Lemma dense_part_standard (config : HybridConfig) dense mf hf now t query k context s D l :
  sparse_ok config dense s D → hc_enable_tiered config && bool_decide (is_Some dense) = false →
  (get_or_create_tiered_searcher now t s).1 = None ∧
  (dense_part mf hf now t query k context s = Some (Ok l) →
   dense_list false config mf hf now t query k context s l).
Proof.
  intros [Hc Hn _] Ht. assert (Hg : (get_or_create_tiered_searcher now t s).1 = None).
  { unfold get_or_create_tiered_searcher. rewrite Hc. apply andb_false_iff in Ht as [->|Hd%bool_decide_eq_false]; [done|].
    rewrite Hn; [by destruct (negb _)|]. destruct dense; [destruct Hd; by eexists|done]. }
  split; [done|]. unfold dense_part, dense_list, dense_leg. rewrite Hg, Hc.
  destruct (Nat.ltb_spec 0 (hc_dense_k config)), (Nat.eqb_spec (hc_dense_k config) 0); try lia; [|by intros [= <-]].
  destruct (hy_dense s) as [d|]; [|done]. unfold on_dense.
  destruct (dense_search _ _ _ _ _ _ d) as [[[rs|e] d']|] eqn:Es; [|done..]. intros [= <-]. by exists d, rs, d'.
Qed.

(** C33: a search returns the best of both indexes.  After any run, with or
    without a dense searcher and with tiered search on or off, and with
    sparse search on, a successful search of at most [k] chunks names no
    chunk twice.  The sparse list is what the sparse index's contract says of
    the documents indexed and not deleted so far, under the scores of the
    index the search leaves; the dense list is the tiers' answer, or without
    tiers the dense searcher's for [dense_k] chunks.  If the search went
    through the tiers and the sparse list is empty, the result is the
    beginning of the dense list; otherwise it is the [k] best of the
    reciprocal-rank fusion of the two, best first, and nothing that is left
    out would have scored higher. *)
Theorem hybrid_search_exact dense x (config : HybridConfig) (calls : list HyCall) (s s' : HybridSearcher G X) D
    mf hf now t query k context results :
  hc_enable_sparse config = true → 0 ≤ hc_sparse_k config →
  config_ok (hc_rrf config) → zlen calls < u64_max - 1 → sx_rep matches parse x D →
  let s0 := from_parts dense (Some x) config in
  let tiered := hc_enable_tiered config && bool_decide (is_Some dense) in
  hy_run calls s0 = Some s →
  hybrid_search threshold mf hf now t query k context s = Some (Ok results, s') →
  (length results ≤ k)%nat ∧ NoDup (map hr_chunk_id results) ∧
  ∃ dl sparse x',
    dense_list tiered config mf hf now t query k context s dl ∧ hy_sparse s' = Some x' ∧
    search_answer matches parse (λ q d, sx_score matches parse q d x') t query (sparse_candidate_count config k)
      (sparse_docs calls s0 D) (Ok sparse) ∧
    if tiered && bool_decide (sparse = []) then results = map (λ r, mkHybridResult r.1 r.2 None None) (take k dl)
    else fused_top (hc_rrf config) k (both_candidates dl (map sparse_pair sparse)) results.
Proof.
  intros Hsp Hk Hc Hlen Hx s0 tiered Hrun Hs.
  pose proof (run_sparse config dense Hsp Hk calls s0 D s (start_sparse_ok _ _ _ _ Hx) Hrun) as Hok.
  destruct (search_parts config _ Hsp Hk _ _ _ _ _ _ _ _ _ _ _ Hok Hs) as [_ Hp].
  destruct (Hp results eq_refl) as (dl & sparse & x' & Hd & Hx' & Ha & ->). clear Hp.
  pose proof (fused_top_spec (hc_rrf config) k (both_candidates dl (map sparse_pair sparse)) Hc
                (both_candidates_ranks _ _)) as Hf.
  destruct tiered eqn:Et.
  - apply andb_true_iff in Et as [Ht [d Hd0]%bool_decide_eq_true]. subst dense.
    pose proof (run_inv_run d (Some x) config calls s Ht Hlen Hrun) as Hinv. pose proof (ri_on _ _ _ Hinv) as Hon.
    destruct (dense_part_tiered _ _ _ _ _ _ _ _ _ Hon Hd) as (a & Hda & ->).
    destruct (answer_distinct _ _ _ _ _ _ _ _ Hinv (dense_answer_of _ _ _ _ _ _ _ _ _ Hda)) as [_ Hnd].
    destruct (get_tier_on now t s Hon) as (tier & s1 & E & _). rewrite E. unfold combined.
    rewrite (bool_decide_true (is_Some _)) by (by eexists). cbn [andb].
    assert (Hl : dense_list true config mf hf now t query k context s (shown a)) by (by exists a).
    destruct (bool_decide (sparse = [])) eqn:Eb.
    + rewrite !length_map, length_take. split; [lia|]. split; [|by exists (shown a), sparse, x'; rewrite Eb].
      rewrite map_map. cbn. rewrite <-firstn_map. eapply sublist_NoDup; [exact Hnd|apply sublist_take].
    + split; [apply Hf|]. split; [apply Hf|]. by exists (shown a), sparse, x'; rewrite Eb.
  - destruct (dense_part_standard config dense mf hf now t query k context s _ dl Hok Et) as [Hg Hl].
    rewrite Hg. unfold combined. rewrite (bool_decide_false (is_Some None)) by (by intros []). cbn [andb].
    split; [apply Hf|]. split; [apply Hf|]. exists dl, sparse, x'. split_and!; [by apply Hl|done|done|apply Hf].
Qed.

(** *** Deletion *)

Definition indexes (t : TenantId) (c : ChunkId) (o : HyCall) : Prop :=
  match o with
  | HIndex _ u chunks => TenantId.as_str u = TenantId.as_str t ∧ c ∈ map fst chunks
  | _ => False
  end.

Lemma sparse_items_docs t chunks : ∀ items d,
  sparse_items t chunks = Some items → d ∈ concat (map item_docs items) →
  ∃ c, c ∈ map fst chunks ∧ Bm25.sd_chunk_id d = uuid_to_string c ∧ sd_tenant_id d = TenantId.as_str t.
Proof.
  induction chunks as [|[c text] chunks IH]; intros items d Hi Hd; cbn in Hi.
  { injection Hi as <-. by apply not_elem_of_nil in Hd. }
  destruct (process_chunk text) as [ps|]; [|done]. cbn in Hi.
  destruct (sparse_items t chunks) as [its|]; [|done]. cbn in Hi. injection Hi as <-.
  assert (Hrest : d ∈ concat (map item_docs its) → ∃ c0, c0 ∈ map fst ((c, text) :: chunks) ∧
    Bm25.sd_chunk_id d = uuid_to_string c0 ∧ sd_tenant_id d = TenantId.as_str t).
  { intros Hin. destruct (IH its d eq_refl Hin) as (c0 & Hc0 & H). exists c0. split; [by right|done]. }
  case_bool_decide; [by apply Hrest|]. cbn [map concat] in Hd. apply elem_of_app in Hd as [Hd|Hd]; [|by apply Hrest].
  unfold item_docs in Hd. apply elem_of_lookup_imap in Hd as (i & sen & -> & _). exists c. split; [by left|done].
Qed.

Lemma docs_effect_free `{UL : !UuidLaws ChunkId} ok o t c D :
  ¬ indexes t c o → ¬ Exists (doc_of (TenantId.as_str t) (uuid_to_string c)) D →
  ¬ Exists (doc_of (TenantId.as_str t) (uuid_to_string c)) (docs_effect ok o D).
Proof.
  intros Hno HD. destruct o as [now u chunks|now u ch| | | |]; cbn [docs_effect]; try done.
  - destruct (sparse_items u chunks) as [items|] eqn:Ei; [|done]. destruct ok; [|done]. cbn [docs_after].
    rewrite Exists_app. intros [(d & Hd & Ht & Hc)%Exists_exists|]; [|done].
    destruct (sparse_items_docs _ _ _ _ Ei Hd) as (c1 & Hc1 & E1 & E2). apply Hno. split; [congruence|].
    rewrite Hc in E1. apply uuid_to_string_inj in E1. by subst c1.
  - cbn. intros (d & [_ Hd]%list_elem_of_filter & Hdoc)%Exists_exists. apply HD, Exists_exists. eauto.
Qed.

Lemma sparse_docs_deleted `{UL : !UuidLaws ChunkId} pre now t c post s D s' :
  hy_run (pre ++ HDelete now t c :: post) s = Some s' → Forall (λ o, ¬ indexes t c o) post →
  ¬ Exists (doc_of (TenantId.as_str t) (uuid_to_string c)) (sparse_docs (pre ++ HDelete now t c :: post) s D).
Proof.
  intros Hrun Hpost. revert s D Hrun. induction pre as [|o pre IH]; intros s D Hrun; cbn [app hy_run sparse_docs] in *.
  - destruct (hy_call (HDelete now t c) s) as [[ok s1]|]; [|done]. cbn [mbind option_bind] in Hrun.
    assert (H0 : ¬ Exists (doc_of (TenantId.as_str t) (uuid_to_string c)) (docs_effect ok (HDelete now t c) D)).
    { cbn. by intros (d & [Hn _]%list_elem_of_filter & Hd)%Exists_exists. }
    revert s1 Hrun H0. generalize (docs_effect ok (HDelete now t c) D) as D1.
    induction Hpost as [|o post Ho Hpost IH]; intros D1 s1 Hrun H0; cbn in *; [done|].
    destruct (hy_call o s1) as [[ok1 s2]|]; [|done]. apply (IH _ s2); [done|]. by apply docs_effect_free.
  - destruct (hy_call o s) as [[ok s1]|]; [|done]. by apply IH.
Qed.

(** C34: deleting takes a chunk out of the sparse side at once.  After a
    deletion, and unless the tenant indexes the chunk again, no search of the
    tenant finds the chunk but through the dense list, whose index keeps
    deleted chunks; a searcher without dense retrieval never returns it. *)
Theorem hybrid_delete_hides `{UL : !UuidLaws ChunkId} dense x (config : HybridConfig) D pre now0 post
    (s s' : HybridSearcher G X) mf hf now t c query k context results :
  hc_enable_sparse config = true → 0 ≤ hc_sparse_k config → sx_rep matches parse x D →
  hy_run (pre ++ HDelete now0 t c :: post) (from_parts dense (Some x) config) = Some s →
  Forall (λ o, ¬ indexes t c o) post →
  hybrid_search threshold mf hf now t query k context s = Some (Ok results, s') →
  c ∈ map hr_chunk_id results →
  ∃ found, dense_part mf hf now t query k context s = Some (Ok found) ∧ c ∈ found.*1 ∧
    (hc_enable_tiered config = true ∨ (0 < hc_dense_k config)%nat).
Proof.
  intros Hsp Hk Hx Hrun Hpost Hs Hin. set (calls := pre ++ HDelete now0 t c :: post) in *.
  set (s0 := from_parts dense (Some x) config) in *.
  pose proof (run_sparse config dense Hsp Hk calls s0 D s (start_sparse_ok _ _ _ _ Hx) Hrun) as Hok.
  destruct (search_parts config _ Hsp Hk _ _ _ _ _ _ _ _ _ _ _ Hok Hs) as [_ Hp].
  destruct (Hp results eq_refl) as (dl & sparse & x1 & Hd & _ & Ha & ->). clear Hp.
  pose proof (sparse_docs_deleted pre now0 t c post s0 D s Hrun Hpost) as Hgone. fold calls in Hgone.
  assert (Hfound : c ∈ dl.*1).
  { unfold combined in Hin. destruct (_ && _).
    - rewrite map_map in Hin. cbn in Hin. rewrite <-firstn_map in Hin.
      eapply elem_of_submseteq; [exact Hin|]. apply sublist_submseteq, sublist_take.
    - unfold fuse_lists in Hin. rewrite map_map in Hin. apply list_elem_of_fmap in Hin as (f & -> & Hf).
      apply elem_of_take in Hf as (i & Hf & _). apply list_elem_of_lookup_2, elem_of_fuse in Hf as (id & Hid & ->).
      change (hr_chunk_id _) with id. rewrite map_app, !source_ids in Hid. apply elem_of_app in Hid as [Hid|Hid]; [done|].
      exfalso. rewrite map_map in Hid. cbn in Hid. apply list_elem_of_fmap in Hid as (sr & E & Hsr).
      change (id = sp_chunk_id sr) in E. subst id. change (hr_chunk_id _) with (sp_chunk_id sr) in *.
      unfold search_answer in Ha. destruct (_ =? 0); [injection Ha as ->; by apply not_elem_of_nil in Hsr|].
      destruct (parse query) as [q|]; [|done]. destruct Ha as (rs & [= <-] & Hbest).
      destruct (bc_best _ _ _ _ Hbest sr Hsr) as (d & Hd1 & (Hc1 & _ & _) & _).
      apply list_elem_of_filter in Hd1 as [[Ht _] Hd1]. apply Hgone, Exists_exists. exists d. by split_and!. }
  exists dl. split_and!; [done|done|].
  destruct (hc_enable_tiered config) eqn:Et; [by left|right]. unfold dense_part in Hd.
  unfold get_or_create_tiered_searcher in Hd. rewrite (so_config _ _ _ _ Hok), Et in Hd. cbn in Hd.
  unfold dense_leg in Hd. rewrite (so_config _ _ _ _ Hok) in Hd. destruct (Nat.ltb_spec 0 (hc_dense_k config)); [done|].
  injection Hd as <-. by apply not_elem_of_nil in Hfound.
Qed.

End hybrid_facts.

(* ------------------------------------------------------------------ *)
(** ** Examples *)

(** Stand-ins: one vector for every text, crude math, bytes as digest. *)
#[local] Instance unit_embedder : Embedder := {
  embed_texts l := Ok (map (λ _, ex_query) l);
  embed_query _ := Ok ex_query;
}.
#[local] Instance crude_libm : Libm := { f32_log2 x := x; f32_exp _ := f32_lit 1 2 }.
#[local] Instance plain_digest : Sha256Digest := { sha256_digest bs := bs }.
#[local] Instance example_iter : HashIter ChunkId := forward_iter.
#[local] Instance ascii_alnum : AlphaNumeric := { char_is_alphanumeric _ := true }.
#[local] Existing Instance dot_segmentation.
#[local] Existing Instance no_stemmer.
#[local] Existing Instance ascii_tables.

Definition hx_dense : DenseSearcher ListGraph := mkSearcher ∅ ∅ (mkSearcherConfig ex_cfg false false false).
Definition hx_start : HybridSearcher ListGraph (Bm25Index ListEngine) :=
  hybrid_new hx_dense (Some bx_index) HybridConfig_default.
Definition hx_search : HyCall := HSearch true true 5 bx_tenant "red" 5 None.
Definition hx_index : HyCall := HIndex 1 bx_tenant [(mkChunkId 1, "the red fox."); (mkChunkId 2, "red wine.")]%string.
Definition hx_other : HyCall := HIndex 1 (TenantId.mk "other") [(mkChunkId 3, "a red hat.")]%string.

(** The state after some calls, the answer and the results of the search. *)
Definition hx_state (calls : list HyCall) : HybridSearcher ListGraph (Bm25Index ListEngine) :=
  default hx_start (hy_run 64 calls hx_start).
Definition hx_answer (calls : list HyCall) : TieredSearchResult :=
  match answer_of 64 hx_search (hx_state calls) with
  | Some (_, _, _, Ok r) => r
  | _ => mkTieredResult [] WarmSource false false []
  end.
Definition hx_found (calls : list HyCall) : list HybridSearchResult * HybridSearcher ListGraph (Bm25Index ListEngine) :=
  match hybrid_search 64 true true 5 bx_tenant "red" 5 None (hx_state calls) with
  | Some (Ok rs, s) => (rs, s)
  | _ => ([], hx_state calls)
  end.

(** The states hold numbers too large to be compared written out. *)
Lemma hx_run calls :
  bool_decide (is_Some (hy_run 64 calls hx_start)) = true → hy_run 64 calls hx_start = Some (hx_state calls).
Proof. unfold hx_state. by destruct (hy_run 64 calls hx_start). Qed.

Lemma hx_search_ok calls :
  match hybrid_search 64 true true 5 bx_tenant "red" 5 None (hx_state calls) with Some (Ok _, _) => true | _ => false end = true →
  hybrid_search 64 true true 5 bx_tenant "red" 5 None (hx_state calls) = Some (Ok (hx_found calls).1, (hx_found calls).2).
Proof. unfold hx_found. by destruct (hybrid_search _ _ _ _ _ _ _ _ _) as [[[rs|e] s]|]. Qed.

(** The same search again is answered from the cache, also after another
    tenant's write; after one of its own tenant's it is not. *)
Definition hx_repeated : list HyCall := [hx_index; hx_search; hx_other].

Example hx_hits :
  map (λ calls, tsr_cache_hit (hx_answer calls)) [[hx_index]; hx_repeated; hx_repeated ++ [hx_index]] =
  [false; true; false].
Proof. vm_compute. reflexivity. Qed.

Lemma hybrid_cache_fresh_witness :
  ∃ pre o1 post s1 ok s2 k1 r1,
    hx_repeated = pre ++ o1 :: post ∧ hy_run 64 pre hx_start = Some s1 ∧ hy_call 64 o1 s1 = Some (ok, s2) ∧
    answer_of 64 o1 s1 = Some ("team"%string, None, k1, Ok r1) ∧ tsr_cache_hit r1 = false ∧ 100 ≤ k1 ∧
    shown (hx_answer hx_repeated) = take (Z.to_nat 100) (shown r1) ∧
    writes 64 "team" post s2 = 0 ∧ ∀ c, c ∈ deleted 64 post s2 → c ∉ found_chunks r1.
Proof.
  apply (hybrid_cache_fresh 64 hx_dense (Some bx_index) HybridConfig_default hx_repeated hx_search (hx_state hx_repeated)
           "team" None 100 (hx_answer hx_repeated)).
  - reflexivity.
  - reflexivity.
  - apply hx_run. vm_compute. reflexivity.
  - vm_compute. reflexivity.
  - vm_compute. reflexivity.
Defined.

(** A searcher of sentences only. *)
Definition hx_plain_config : HybridConfig := hy_config (new_sparse_only (G := ListGraph) bx_index HybridConfig_default).
Definition hx_plain : HybridSearcher ListGraph (Bm25Index ListEngine) := from_parts None (Some bx_index) hx_plain_config.
Definition hx_plain_state : HybridSearcher ListGraph (Bm25Index ListEngine) :=
  default hx_plain (hy_run 64 [hx_index] hx_plain).
Definition hx_plain_found : list HybridSearchResult * HybridSearcher ListGraph (Bm25Index ListEngine) :=
  match hybrid_search 64 true true 5 bx_tenant "red" 5 None hx_plain_state with
  | Some (Ok rs, s) => (rs, s)
  | _ => ([], hx_plain_state)
  end.
Lemma hx_plain_run :
  bool_decide (is_Some (hy_run 64 [hx_index] hx_plain)) = true → hy_run 64 [hx_index] hx_plain = Some hx_plain_state.
Proof. unfold hx_plain_state. by destruct (hy_run 64 [hx_index] hx_plain). Qed.
Lemma hx_plain_ok :
  match hybrid_search 64 true true 5 bx_tenant "red" 5 None hx_plain_state with Some (Ok _, _) => true | _ => false end = true →
  hybrid_search 64 true true 5 bx_tenant "red" 5 None hx_plain_state = Some (Ok hx_plain_found.1, hx_plain_found.2).
Proof. unfold hx_plain_found. by destruct (hybrid_search _ _ _ _ _ _ _ _ _) as [[[rs|e] s]|]. Qed.

Lemma hybrid_search_exact_witness :
  (map (λ r, (chunk_uuid (hr_chunk_id r), hr_dense_rank r, hr_sparse_rank r)) (hx_found hx_repeated).1 =
     [(1%N, Some 1, Some 1); (2%N, Some 2, Some 2)] ∧
   NoDup (map hr_chunk_id (hx_found hx_repeated).1)) ∧
  map (λ r, (chunk_uuid (hr_chunk_id r), hr_dense_rank r, hr_sparse_rank r)) hx_plain_found.1 =
     [(1%N, None, Some 1); (2%N, None, Some 2)] ∧
  NoDup (map hr_chunk_id hx_plain_found.1).
Proof.
  split; (split; [vm_compute; reflexivity|]).
  - refine (proj1 (proj2 (hybrid_search_exact 64 tv_matches parse_text_query (Some hx_dense) bx_index HybridConfig_default
      hx_repeated (hx_state hx_repeated) (hx_found hx_repeated).2 [] true true 5 bx_tenant "red" 5 None
      (hx_found hx_repeated).1 _ _ _ _ _ _ _))).
    + reflexivity.
    + done.
    + vm_compute. auto.
    + vm_compute. reflexivity.
    + exact bx_rep.
    + apply hx_run. vm_compute. reflexivity.
    + apply hx_search_ok. vm_compute. reflexivity.
  - refine (proj1 (proj2 (hybrid_search_exact 64 tv_matches parse_text_query None bx_index hx_plain_config
      [hx_index] hx_plain_state hx_plain_found.2 [] true true 5 bx_tenant "red" 5 None hx_plain_found.1 _ _ _ _ _ _ _))).
    + reflexivity.
    + done.
    + vm_compute. auto.
    + vm_compute. reflexivity.
    + exact bx_rep.
    + apply hx_plain_run. vm_compute. reflexivity.
    + apply hx_plain_ok. vm_compute. reflexivity.
Defined.

(** Chunk 2 is deleted, and the dense list still has it. *)
Lemma hybrid_delete_hides_witness :
  let calls := [hx_index] ++ [HDelete 2 bx_tenant (mkChunkId 2); hx_other] in
  mkChunkId 2 ∈ map hr_chunk_id (hx_found calls).1 ∧
  ∃ found, dense_part 64 true true 5 bx_tenant "red" 5 None (hx_state calls) = Some (Ok found) ∧ mkChunkId 2 ∈ found.*1.
Proof.
  set (calls := [hx_index] ++ [HDelete 2 bx_tenant (mkChunkId 2); hx_other]). cbv zeta.
  assert (Hin : mkChunkId 2 ∈ map hr_chunk_id (hx_found calls).1).
  { apply (bool_decide_unpack _). vm_compute. exact I. }
  split; [exact Hin|].
  destruct (hybrid_delete_hides 64 tv_matches parse_text_query (Some hx_dense) bx_index HybridConfig_default []
    [hx_index] 2 [hx_other] (hx_state calls) (hx_found calls).2 true true 5 bx_tenant (mkChunkId 2) "red" 5 None
    (hx_found calls).1) as (found & Hf & Hc & _).
  - reflexivity.
  - done.
  - exact bx_rep.
  - apply hx_run. vm_compute. reflexivity.
  - constructor; [|constructor]. by intros [? _].
  - apply hx_search_ok. vm_compute. reflexivity.
  - exact Hin.
  - exists found. exact (conj Hf Hc).
Defined.
