(* ===== verification/Compaction.v ===== *)
(** * Compaction (src/crates/memd/src/compaction/
      {mod,metrics,runner,segment_merge,throttle,tombstone_audit}.rs)

    One cycle over the metadata table, the dense indexes, the sparse index
    and the semantic cache, and the threshold check in front of it
    (store/persistent.rs).  Delays, durations and log lines are dropped; the
    clock readings of the two lifecycle jobs are arguments.  The outer
    [option] is a panic of the embedding cache. *)

From S2P Require Import Prelude Crates Types Files SegmentFormat Segment Metadata Sweep Ranking.
From S2P Require Import EmbeddingCache DenseIndex DenseSearcher SemanticCache Bm25.

Open Scope Z_scope.

(* ------------------------------------------------------------------ *)
(** ** Configuration and metrics *)

Record CompactionThresholds : Type := mkThresholds {
  ct_tombstone_ratio_pct : f32;
  ct_max_segment_count : Z;
  ct_hnsw_staleness_pct : f32;
}.
Definition CompactionThresholds_default : CompactionThresholds :=
  mkThresholds (f32_lit 20 100) 10 (f32_lit 15 100).

Record CompactionConfig : Type := mkCompactionConfig {
  cc_thresholds : CompactionThresholds;
  cc_batch_delay_ms : Z;
  cc_batch_size : Z;
  cc_enabled : bool;
  cc_expiry_sweep_enabled : bool;
  cc_history_promotion_enabled : bool;
  cc_history_promotion_age_ms : Z;
}.
Definition CompactionConfig_default : CompactionConfig :=
  mkCompactionConfig CompactionThresholds_default 10 100 true true true (90 * 86400000).

Record CompactionMetrics : Type := mkMetrics {
  cm_tombstone_ratio : f32;
  cm_active_chunks : Z;
  cm_deleted_chunks : Z;
  cm_segment_count : Z;
  cm_hnsw_staleness : f32;
  cm_hnsw_cache_size : Z;
  cm_hnsw_index_size : Z;
}.

(** [if total > 0 { part as f32 / total as f32 } else { 0.0 }] *)
Definition ratio_of (part total : Z) : f32 :=
  if 0 <? total then f32_div (f32_of_Z part) (f32_of_Z total) else f32_zero.

(** [CompactionMetrics::gather] *)
Definition gather (db : ChunkTable) (hnsw_stats : Z * Z) (segment_count : Z) (t : TenantId) : CompactionMetrics :=
  let '(active, deleted, candidates) := count_by_status t db in
  let '(hnsw_cache_size, hnsw_index_size) := hnsw_stats in
  mkMetrics (ratio_of deleted (active + deleted + candidates)) active deleted segment_count
    (ratio_of (sat_sub_u64 hnsw_index_size hnsw_cache_size) hnsw_index_size) hnsw_cache_size hnsw_index_size.

Definition exceeds_tombstone_threshold (threshold : f32) (m : CompactionMetrics) : bool :=
  f32_gt (cm_tombstone_ratio m) threshold.
Definition exceeds_segment_threshold (threshold : Z) (m : CompactionMetrics) : bool :=
  threshold <? cm_segment_count m.
Definition exceeds_hnsw_staleness_threshold (threshold : f32) (m : CompactionMetrics) : bool :=
  f32_gt (cm_hnsw_staleness m) threshold.

(** [CompactionRunner::should_run]; [CompactionManager::check_thresholds] is
    the same test. *)
Definition should_run (config : CompactionConfig) (m : CompactionMetrics) : bool :=
  exceeds_tombstone_threshold (ct_tombstone_ratio_pct (cc_thresholds config)) m
  || exceeds_segment_threshold (ct_max_segment_count (cc_thresholds config)) m
  || exceeds_hnsw_staleness_threshold (ct_hnsw_staleness_pct (cc_thresholds config)) m.

(** [Throttle::process_batched]: [slice::chunks] panics on size 0. *)
Fixpoint batches {A} (fuel size : nat) (l : list A) : list (list A) :=
  match fuel, l with
  | O, _ | _, [] => []
  | S fuel, _ => take size l :: batches fuel size (drop size l)
  end.
Definition process_batched {A R} (batch_size : nat) (items : list A) (f : list A → list R) : option (list R) :=
  if bool_decide (batch_size = 0%nat) then None
  else Some (concat (map f (batches (length items) batch_size items))).

(* ------------------------------------------------------------------ *)
(** ** Audits *)

Record AuditResult : Type := mkAudit {
  au_total_deleted : Z;
  au_tombstone_leaks : list ChunkId;
  au_paths_audited : list string;
  au_passed : bool;
}.
Definition audit_passed (paths : list string) : AuditResult := mkAudit 0 [] paths true.
Definition audit_failed (total : Z) (leaks : list ChunkId) (paths : list string) : AuditResult :=
  mkAudit total leaks paths false.

Definition audit_combine (results : list AuditResult) : AuditResult :=
  foldl (λ c r, mkAudit (au_total_deleted c + au_total_deleted r)
                  (au_tombstone_leaks c ++ au_tombstone_leaks r)
                  (au_paths_audited c ++ au_paths_audited r)
                  (au_passed c && au_passed r))
    (mkAudit 0 [] [] true) results.

(** [audit_segment_reader]; a read error is logged only. *)
Definition audit_segment_reader `{CRC : Crc32} `{RB : Roaring B} (reader : SegmentReader B) (db : ChunkTable)
    (t : TenantId) (segment_id : Z) : AuditResult :=
  let deleted := List.filter (λ m, bool_decide (cm_status m = Deleted)) (get_by_segment t segment_id db) in
  let leaks := List.filter (λ m, match reader_read_chunk (cm_ordinal m) reader with
                                 | Ok (Some _) => true | _ => false end) deleted in
  mkAudit (zlen deleted) (map cm_chunk_id leaks) ["SegmentReader::read_chunk"%string]
    (bool_decide (leaks = [])).

Definition audit_metadata_store (db : ChunkTable) (t : TenantId) : AuditResult :=
  let leaks := map cm_chunk_id
    (List.filter (λ m, bool_decide (cm_status m = Deleted)) (list_chunks t 10000 0 db)) in
  let paths := ["SqliteMetadataStore::list"%string] in
  if bool_decide (leaks = []) then audit_passed paths else audit_failed (zlen leaks) leaks paths.

(* ------------------------------------------------------------------ *)
(** ** The cycle *)

Record MergeResult : Type := mkMerge {
  mg_segments_before : Z;
  mg_segments_after : Z;
  mg_segments_merged : Z;
  mg_docs_before : Z;
  mg_docs_after : Z;
}.

Record CompactionResult : Type := mkCompaction {
  cr_tombstones_processed : Z;
  cr_hnsw_rebuild : option RebuildResult;
  cr_segment_merge : option MergeResult;
  cr_cache_entries_invalidated : Z;
  cr_expired_count : Z;
  cr_promoted_count : Z;
}.

Section compaction.
Context `{U : Uuid ChunkId} {G : Type} `{HG : Hnsw G} {T Q : Type} `{TV : Tantivy T Q}.

(** [SegmentMerger::merge] *)
Definition segment_merge : BM (T := T) MergeResult :=
  segments_before ← segment_count;
  docs_before ← total_docs;
  _ ← merge_all_segments;
  segments_after ← segment_count;
  docs_after ← total_docs;
  mret (mkMerge segments_before segments_after (sat_sub_u64 segments_before segments_after) docs_before docs_after).

(** What a cycle works on: the table, the searcher, the two optional parts,
    and how often the tenant's memory version was advanced. *)
Record Compactable : Type := mkCompactable {
  cp_db : ChunkTable;
  cp_dense : DenseSearcher G;
  cp_sparse : option (Bm25Index T);
  cp_cache : option SemanticCache;
  cp_memory_version : Z;
}.

(** [get_rebuild_stats]: valid embeddings and ids handed out. *)
Definition get_rebuild_stats (t : string) (s : DenseSearcher G) : Z * Z :=
  match ds_indices s !! t with
  | Some index => (Z.of_nat (cache_len (hi_cache index)), Z.of_nat (index_len index))
  | None => (0, 0)
  end.

(** [sparse.map(|idx| idx.segment_count().unwrap_or(0)).unwrap_or(0)]; the
    count commits and reloads. *)
Definition count_segments (sparse : option (Bm25Index T)) : Z * option (Bm25Index T) :=
  match sparse with
  | None => (0, None)
  | Some idx =>
      let '(r, idx) := segment_count idx in
      (match r with Ok n => n | Err _ => 0 end, Some idx)
  end.

(** Step 0: the two jobs, with [hybrid = None]. *)
Definition lifecycle_jobs (config : CompactionConfig) (t : TenantId) (sweep_now promotion_now : Z) (db : ChunkTable)
    : Z * Z * ChunkTable :=
  let '(expired, db) :=
    if cc_expiry_sweep_enabled config
    then let '(n, _, db) := expiry_sweep false t sweep_now db in (n, db) else (0, db) in
  let '(promoted, db) :=
    if cc_history_promotion_enabled config
    then let '(n, _, db) := history_promotion (cc_history_promotion_age_ms config) false t promotion_now db in (n, db)
    else (0, db) in
  (expired, promoted, db).

(** Step 1: what a rebuild leaves out. *)
Definition excluded_chunk_ids (t : TenantId) (db : ChunkTable) : list ChunkId :=
  get_deleted_chunk_ids t db ++ list_lifecycle_hidden t db.

(** Step 3: a failed rebuild is logged. *)
Definition rebuild_dense (needed : bool) (t : TenantId) (excluded : list ChunkId) (s : DenseSearcher G)
    : option (option RebuildResult * DenseSearcher G) :=
  if needed then
    '(r, s) ← rebuild_hnsw_for_tenant (TenantId.as_str t) excluded s;
    Some (match r with Ok result => Some result | Err _ => None end, s)
  else Some (None, s).

(** Step 4: a failed merge is logged. *)
Definition merge_sparse (needed : bool) (sparse : option (Bm25Index T)) : option MergeResult * option (Bm25Index T) :=
  match sparse with
  | Some idx =>
      if needed then
        let '(r, idx) := segment_merge idx in
        (match r with Ok result => Some result | Err _ => None end, Some idx)
      else (None, Some idx)
  | None => (None, None)
  end.

(** Step 5. *)
Definition invalidate_cache (deleted : list ChunkId) (cache : option SemanticCache) : Z * option SemanticCache :=
  match cache with
  | Some c =>
      if bool_decide (deleted = []) then (0, Some c) else (zlen deleted, Some (invalidate_chunks deleted c))
  | None => (0, None)
  end.

(** [CompactionRunner::run_compaction]; [hybrid] is [hybrid.is_some()]. *)
Definition run_compaction (config : CompactionConfig) (hybrid : bool) (t : TenantId) (sweep_now promotion_now : Z)
    (s : Compactable) : option (CompactionResult * Compactable) :=
  let '(expired_count, promoted_count, db) := lifecycle_jobs config t sweep_now promotion_now (cp_db s) in
  let deleted := get_deleted_chunk_ids t db in
  let excluded := excluded_chunk_ids t db in
  let hnsw_stats := get_rebuild_stats (TenantId.as_str t) (cp_dense s) in
  let '(segments, sparse) := count_segments (cp_sparse s) in
  let metrics := gather db hnsw_stats segments t in
  hidden_index_entries_present ← has_valid_embeddings_for_chunks (TenantId.as_str t) excluded (cp_dense s);
  let stale := exceeds_hnsw_staleness_threshold (ct_hnsw_staleness_pct (cc_thresholds config)) metrics in
  '(hnsw_rebuild, dense) ← rebuild_dense (stale || (hidden_index_entries_present : bool)) t excluded (cp_dense s);
  let '(merged, sparse) :=
    merge_sparse (exceeds_segment_threshold (ct_max_segment_count (cc_thresholds config)) metrics) sparse in
  let '(invalidated, cache) := invalidate_cache deleted (cp_cache s) in
  let bump := hybrid && ((0 <? expired_count) || (0 <? promoted_count)) in
  Some (mkCompaction (zlen deleted) hnsw_rebuild merged invalidated expired_count promoted_count,
        mkCompactable db dense sparse cache (cp_memory_version s + (if bump then 1 else 0))).

(* ------------------------------------------------------------------ *)
(** ** In the persistent store *)

(** The parts of [PersistentStore] a compaction uses: [None] for a store
    without a dense searcher. *)
Record CompactionStore : Type := mkCompactionStore {
  co_read_only : bool;
  co_runner : option CompactionConfig;
  co_hybrid : bool;
  co_has_dense : bool;
  co_parts : Compactable;
}.

Definition with_parts (p : Compactable) (s : CompactionStore) : CompactionStore :=
  mkCompactionStore (co_read_only s) (co_runner s) (co_hybrid s) (co_has_dense s) p.
Definition with_sparse (sparse : option (Bm25Index T)) (p : Compactable) : Compactable :=
  mkCompactable (cp_db p) (cp_dense p) sparse (cp_cache p) (cp_memory_version p).

(** [PersistentStore::run_compaction] *)
Definition store_run_compaction (t : TenantId) (sweep_now promotion_now : Z) (s : CompactionStore)
    : option (memd_result CompactionResult * CompactionStore) :=
  if co_read_only s then Some (Err (ReadOnlyStore "run_compaction"), s)
  else
    match co_runner s with
    | None => Some (Err (StorageError "compaction disabled"), s)
    | Some config =>
        if negb (co_has_dense s) then Some (Err (StorageError "dense searcher not available"), s)
        else
          '(r, p) ← run_compaction config (co_hybrid s) t sweep_now promotion_now (co_parts s);
          Some (Ok r, with_parts p s)
    end.

(** [PersistentStore::get_compaction_metrics] *)
Definition compaction_metrics (t : TenantId) (s : CompactionStore) : CompactionMetrics * CompactionStore :=
  let p := co_parts s in
  let hnsw_stats := if co_has_dense s then get_rebuild_stats (TenantId.as_str t) (cp_dense p) else (0, 0) in
  let '(segments, sparse) := count_segments (cp_sparse p) in
  (gather (cp_db p) hnsw_stats segments t, with_parts (with_sparse sparse p) s).

(** [PersistentStore::run_compaction_if_needed] *)
Definition run_compaction_if_needed (t : TenantId) (sweep_now promotion_now : Z) (s : CompactionStore)
    : option (memd_result (option CompactionResult) * CompactionStore) :=
  if co_read_only s then Some (Err (ReadOnlyStore "run_compaction_if_needed"), s)
  else
    match co_runner s with
    | None => Some (Ok None, s)
    | Some config =>
        let '(metrics, s) := compaction_metrics t s in
        hidden_index_entries_present ←
          (if co_has_dense s
           then has_valid_embeddings_for_chunks (TenantId.as_str t)
                  (excluded_chunk_ids t (cp_db (co_parts s))) (cp_dense (co_parts s))
           else Some false);
        if negb (should_run config metrics) && negb (hidden_index_entries_present : bool) then Some (Ok None, s)
        else
          match store_run_compaction t sweep_now promotion_now s with
          | None => None
          | Some (r, s) => Some (Some <$> r, s)
          end
    end.
End compaction.
