(* ===== verification/CompactionProps.v ===== *)
(** * What a compaction cycle achieves

    The composition of the lifecycle jobs, the rebuild of the dense index,
    the merge of the sparse one and the invalidation of the cache: nothing
    hidden stays searchable, nothing visible is lost. *)

From S2P Require Import Prelude Crates Types Files SegmentFormat Segment Metadata MetadataFacts Concrete MetadataProps.
From S2P Require Import Sweep Ranking EmbeddingCache DenseIndex DenseFacts DenseProps DenseSearcher SemanticCache.
From S2P Require Import Str Bm25 Bm25Props Compaction.

Open Scope Z_scope.

(* ------------------------------------------------------------------ *)
(** ** The lifecycle jobs on a row *)

Definition swept_row (config : CompactionConfig) (t : TenantId) (sweep_now : Z) (r : Row) : Row :=
  if cc_expiry_sweep_enabled config && matches t (due sweep_now) r then expire_row sweep_now r else r.
Definition demoted_row (config : CompactionConfig) (t : TenantId) (promotion_now : Z) (r : Row) : Row :=
  if cc_history_promotion_enabled config
     && matches t (is_stale (sat_sub_i64 promotion_now (cc_history_promotion_age_ms config))) r
  then demote_row promotion_now r else r.
(** What one cycle makes of a row. *)
Definition cycled_row (config : CompactionConfig) (t : TenantId) (sweep_now promotion_now : Z) (r : Row) : Row :=
  demoted_row config t promotion_now (swept_row config t sweep_now r).

(** Shown by the default policy. *)
Definition shown_row (r : Row) : bool := is_visible VisibilityPolicy_default (r_status r) (lc_tier (r_lc r)).
Definition shown_row_at (now : Z) (r : Row) : bool :=
  is_visible_at VisibilityPolicy_default (r_status r) (r_lc r) now.

Lemma due_final now t r : matches t (due now) r = true → r_status r = Final ∧ expired_by now r = true.
Proof.
  intros [_ E]%matches_true. unfold due, status_in in E. apply andb_true_iff in E as [Hs He].
  apply bool_decide_eq_true, list_elem_of_singleton in Hs. done.
Qed.

Lemma stale_hidden cut t r : matches t (is_stale cut) r = true → r_status r ∈ [Superseded; Expired].
Proof.
  intros [_ E]%matches_true. unfold is_stale, status_in in E.
  rewrite !andb_true_iff, bool_decide_eq_true in E. tauto.
Qed.

(** A cycle hides only what had expired, and nothing it hides was shown. *)
Lemma cycled_shown config t n1 n2 r : shown_row_at n1 (cycled_row config t n1 n2 r) = shown_row_at n1 r.
Proof.
  assert (E1 : shown_row_at n1 (swept_row config t n1 r) = shown_row_at n1 r).
  { unfold swept_row. destruct (_ && _) eqn:E; [|done]. apply andb_true_iff in E as [_ [Hs He]%due_final].
    unfold shown_row_at, is_visible_at, expired_by in *. rewrite Hs. cbn.
    destruct (negb _); cbn; [done|]. destruct (lc_expires_at_ms (r_lc r)); [by rewrite He|done]. }
  rewrite <- E1. unfold cycled_row, demoted_row. destruct (_ && _) eqn:E; [|done].
  apply andb_true_iff in E as [_ Hs%stale_hidden]. unfold shown_row_at, is_visible_at.
  change (r_status (demote_row n2 (swept_row config t n1 r))) with (r_status (swept_row config t n1 r)).
  apply elem_of_cons in Hs as [->| ->%list_elem_of_singleton]; done.
Qed.

(** The counters of [count_by_status] do not see a cycle. *)
Lemma cycled_status config t n1 n2 l r :
  Final ∉ l → Expired ∉ l → status_in l (cycled_row config t n1 n2 r) = status_in l r.
Proof.
  intros Hf He. assert (E : r_status (cycled_row config t n1 n2 r) = r_status r ∨
    r_status r = Final ∧ r_status (cycled_row config t n1 n2 r) = Expired).
  { unfold cycled_row, demoted_row, swept_row. destruct (cc_expiry_sweep_enabled config && _) eqn:E.
    - apply andb_true_iff in E as [_ [Hs _]%due_final]. right. split; [done|]. case_match; reflexivity.
    - left. case_match; reflexivity. }
  unfold status_in. destruct E as [->|[-> ->]]; [done|]. by rewrite !bool_decide_false.
Qed.

Lemma cycled_tenant config t n1 n2 r : r_tenant (cycled_row config t n1 n2 r) = r_tenant r.
Proof. unfold cycled_row, demoted_row, swept_row. by repeat case_match. Qed.

Lemma lifecycle_jobs_spec config t n1 n2 db :
  table_wf db →
  let '(_, _, db') := lifecycle_jobs config t n1 n2 db in
  (∀ c, db' !! c = cycled_row config t n1 n2 <$> db !! c) ∧ table_wf db'.
Proof.
  intros Hwf. unfold lifecycle_jobs.
  assert (H1 : ∃ n db1, (if cc_expiry_sweep_enabled config
      then let '(n, _, db) := expiry_sweep false t n1 db in (n, db) else (0, db)) = (n, db1) ∧
    ∀ c, db1 !! c = swept_row config t n1 <$> db !! c).
  { pose proof (expiry_sweep_spec false t n1 db Hwf) as Hs. unfold swept_row.
    destruct (cc_expiry_sweep_enabled config); cbn [andb].
    - destruct (expiry_sweep false t n1 db) as [[n b] db1]. destruct Hs as [Hl _]. by exists n, db1.
    - exists 0, db. split; [done|]. intros c. by destruct (db !! c). }
  destruct H1 as (e & db1 & -> & Hl1).
  assert (Hwf1 : table_wf db1).
  { apply (rowwise_wf (λ _ r, swept_row config t n1 r) db); [done| |done].
    intros c r. unfold swept_row. by destruct (_ && _). }
  assert (H2 : ∃ n db2, (if cc_history_promotion_enabled config
      then let '(n, _, db) := history_promotion (cc_history_promotion_age_ms config) false t n2 db1 in (n, db)
      else (0, db1)) = (n, db2) ∧ ∀ c, db2 !! c = demoted_row config t n2 <$> db1 !! c).
  { pose proof (history_promotion_spec (cc_history_promotion_age_ms config) false t n2 db1 Hwf1) as Hs.
    unfold demoted_row. destruct (cc_history_promotion_enabled config); cbn [andb].
    - destruct (history_promotion _ false t n2 db1) as [[n b] db2]. destruct Hs as [Hl _]. by exists n, db2.
    - exists 0, db1. split; [done|]. intros c. by destruct (db1 !! c). }
  destruct H2 as (p & db2 & -> & Hl2). split.
  - intros c. rewrite Hl2, Hl1. by destruct (db !! c).
  - apply (rowwise_wf (λ _ r, demoted_row config t n2 r) db1); [done| |done].
    intros c r. unfold demoted_row. by destruct (_ && _).
Qed.

(** Selections that do not tell a row from its image have the same size. *)
Lemma zlen_select_rowwise t cond (g : Row → Row) db db' :
  table_wf db → table_wf db' → (∀ c, db' !! c = g <$> db !! c) →
  (∀ r, matches t cond (g r) = matches t cond r) → zlen (select_where t cond db') = zlen (select_where t cond db).
Proof.
  intros Hwf Hwf' Hl Hg. assert (E : select_ids t cond db' ≡ₚ select_ids t cond db).
  { apply NoDup_Permutation; [by apply NoDup_select_ids..|]. intros c. rewrite !elem_of_select_ids by done.
    rewrite Hl. split.
    - intros (r & (r0 & Hr & ->)%fmap_Some & Hm). exists r0. by rewrite <- Hg.
    - intros (r & Hr & Hm). exists (g r). rewrite Hr. split; [done|]. by rewrite Hg. }
  apply Permutation_length in E. unfold select_ids in E. rewrite !length_map in E. unfold zlen. by rewrite E.
Qed.

Lemma cycled_counts config t n1 n2 db db' :
  table_wf db → table_wf db' → (∀ c, db' !! c = cycled_row config t n1 n2 <$> db !! c) →
  count_by_status t db' = count_by_status t db.
Proof.
  intros Hwf Hwf' Hl. unfold count_by_status.
  rewrite !(zlen_select_rowwise t _ (cycled_row config t n1 n2) db db'); [done|done|done|done|..]; try done;
    intros r; unfold matches; rewrite cycled_tenant, cycled_status; try done; set_solver.
Qed.

(* ------------------------------------------------------------------ *)
(** ** The parts of a cycle *)

Section parts.
Context `{U : Uuid ChunkId} `{UL : !UuidLaws ChunkId} {G : Type} `{HG : Hnsw G} `{HGL : !HnswLaws G}.
Context {T Q : Type} `{TV : Tantivy T Q} `{TVL : !TantivyLaws T Q} `{AN : AlphaNumeric}.
Implicit Types (x : HnswIndex G) (d : DenseSearcher G).

Lemma any_embedding_stored x cs :
  index_inv x → any_embedding x cs = Some (existsb (λ c, bool_decide (is_Some (stored x c))) cs).
Proof using UL.
  intros Hx. induction cs as [|c cs IH]; [done|]. cbn [any_embedding existsb].
  rewrite has_embedding_stored by done. cbn [mbind option_bind]. by destruct (bool_decide _).
Qed.

(** The index of [t] without [gone], every other index and the disk as
    they were. *)
Definition dense_without (t : string) (gone : list ChunkId) x d d' : Prop :=
  ∃ x', ds_indices d' !! t = Some x' ∧ index_inv x' ∧
    (∀ k, stored x' k = if decide (k ∈ gone) then None else stored x k) ∧
    (∀ t', t' ≠ t → ds_indices d' !! t' = ds_indices d !! t') ∧ ds_disk d' = ds_disk d.

(** Whether or not the staleness asks for it, step 3 leaves no excluded
    chunk behind. *)
Lemma rebuild_dense_spec (stale : bool) t excluded x d :
  ds_indices d !! TenantId.as_str t = Some x → index_inv x →
  ∃ present, has_valid_embeddings_for_chunks (TenantId.as_str t) excluded d = Some present ∧
  ∃ r d', rebuild_dense (stale || present) t excluded d = Some (r, d') ∧
    dense_without (TenantId.as_str t) excluded x d d'.
Proof using UL HGL.
  intros Ht Hx. unfold has_valid_embeddings_for_chunks. rewrite Ht, any_embedding_stored by done.
  eexists. split; [done|]. unfold rebuild_dense. destruct (stale || _) eqn:En.
  - unfold rebuild_hnsw_for_tenant. rewrite Ht.
    destruct (index_compact_spec excluded x Hx) as (r & x' & -> & Hx' & _ & _ & Hst & _).
    cbn [mbind option_bind]. eexists _, _. split; [done|]. exists x'. cbn [ds_indices ds_disk].
    split_and!; [by rewrite lookup_insert_eq|done|done| |done]. intros t' Hne. by rewrite lookup_insert_ne.
  - apply orb_false_iff in En as [_ Hno]. eexists _, _. split; [done|]. exists x. split_and!; [done..| |done|done].
    intros k. case_decide as Hk; [|done]. destruct (stored x k) eqn:Es; [exfalso|done].
    apply not_true_iff_false in Hno. apply Hno, existsb_exists. exists k.
    split; [by apply list_elem_of_In|]. apply bool_decide_eq_true. by rewrite Es.
Qed.

(** Steps 2 and 4 keep the documents of the sparse index. *)
Definition sparse_rep (D : list SparseDoc) (sparse : option (Bm25Index T)) : Prop :=
  ∀ i, sparse = Some i → bm25_rep i D.

Lemma segment_count_step i D : bm25_rep i D → ∃ r i', segment_count i = (r, i') ∧ bm25_rep i' D.
Proof using TVL.
  intros R. unfold segment_count, mbind, bm_bind.
  destruct (commit_clean i D R) as (i1 & -> & R1 & Hc).
  destruct (reload_fresh i1 D R1 Hc) as (i2 & -> & R2 & _). by eexists _, i2.
Qed.

Lemma segment_merge_step i D : bm25_rep i D → ∃ r i', segment_merge i = (r, i') ∧ bm25_rep i' D.
Proof using TVL.
  intros R. unfold segment_merge, mbind, bm_bind.
  destruct (segment_count_step i D R) as ([n|e] & i1 & -> & R1); [|by eexists _, i1].
  cbn [total_docs bm_get bm_gets]. destruct (merge_step i1 D R1) as (i2 & -> & R2 & _).
  destruct (segment_count_step i2 D R2) as ([n'|e] & i3 & -> & R3); by eexists _, i3.
Qed.

Lemma count_segments_rep D sparse : sparse_rep D sparse → sparse_rep D (count_segments sparse).2.
Proof using TVL.
  intros HD. destruct sparse as [i|]; [|done]. cbn.
  destruct (segment_count_step i D (HD i eq_refl)) as (r & i' & -> & R). by intros ? [= <-].
Qed.

Lemma merge_sparse_rep D needed sparse : sparse_rep D sparse → sparse_rep D (merge_sparse needed sparse).2.
Proof using TVL.
  intros HD. destruct sparse as [i|]; [|done]. cbn. destruct needed; [|by intros ? [= <-]; apply HD].
  destruct (segment_merge_step i D (HD i eq_refl)) as (r & i' & -> & R). by intros ? [= <-].
Qed.

(** A cache no query of which can be answered with one of [gone]. *)
Definition cache_without (gone : list ChunkId) (cache : option SemanticCache) : Prop :=
  ∀ c e rec h, cache = Some c → e ∈ sc_query_index c → sc_entries c !! qi_cache_key e = Some rec →
    h ∈ ce_results (rec_entry rec) → cr_chunk_id h ∉ gone.

Lemma invalidate_cache_spec gone cache : cache_without gone (invalidate_cache gone cache).2.
Proof.
  intros c e rec h Hc He Hr Hh. destruct cache as [c0|]; [|done]. cbn in Hc. case_bool_decide as Hg.
  { subst. apply not_elem_of_nil. }
  cbn [snd] in Hc. injection Hc as <-. cbn in He, Hr. apply list_elem_of_filter in He as [Hk He].
  apply invalidate_keys_Some in Hr. pose proof (elem_of_keys_with _ _ e rec He Hr Hk) as Hn. cbv beta in Hn.
  intros Hin. apply not_true_iff_false in Hn. apply Hn, existsb_exists. exists h.
  split; [by apply list_elem_of_In|by apply bool_decide_eq_true].
Qed.
End parts.

(* ------------------------------------------------------------------ *)
(** ** The cycle *)

Section cycle.
Context `{U : Uuid ChunkId} `{UL : !UuidLaws ChunkId} {G : Type} `{HG : Hnsw G} `{HGL : !HnswLaws G}.
Context {T Q : Type} `{TV : Tantivy T Q} `{TVL : !TantivyLaws T Q} `{AN : AlphaNumeric}.

(** What a cycle for [t] leaves of [s], whose index of [t] was [x]. *)
Record compacted (t : TenantId) (x : HnswIndex G) (s s' : Compactable (G := G) (T := T)) : Prop := {
  cy_dense x' : ds_indices (cp_dense s') !! TenantId.as_str t = Some x' →
    index_inv x' ∧ ∀ c row, cp_db s' !! c = Some row → r_tenant row = t →
      stored x' c = if shown_row row then stored x c else None;
  cy_unknown x' c : ds_indices (cp_dense s') !! TenantId.as_str t = Some x' →
    cp_db s' !! c = None → stored x' c = stored x c;
  cy_search x' mf hf q k rs : ds_indices (cp_dense s') !! TenantId.as_str t = Some x' →
    index_search mf hf q k x' = Ok rs →
    Forall (λ h, ∀ row, cp_db s' !! sr_chunk_id h = Some row → r_tenant row = t → shown_row row = true) rs;
  cy_opened : is_Some (ds_indices (cp_dense s') !! TenantId.as_str t);
  cy_others t' : t' ≠ TenantId.as_str t → ds_indices (cp_dense s') !! t' = ds_indices (cp_dense s) !! t';
  cy_disk : ds_disk (cp_dense s') = ds_disk (cp_dense s);
  cy_cache c e rec h row : cp_cache s' = Some c → e ∈ sc_query_index c →
    sc_entries c !! qi_cache_key e = Some rec → h ∈ ce_results (rec_entry rec) →
    cp_db s' !! cr_chunk_id h = Some row → r_tenant row = t → r_status row ≠ Deleted;
}.

Lemma excluded_iff t db c row :
  table_wf db → db !! c = Some row → r_tenant row = t →
  c ∈ excluded_chunk_ids t db ↔ shown_row row = false.
Proof.
  intros Hwf Hr Ht. unfold excluded_chunk_ids. rewrite elem_of_app.
  pose proof (hidden_set_mirrors_visibility t db c row Hwf Hr Ht). unfold shown_row. tauto.
Qed.

Lemma excluded_known t db c : table_wf db → db !! c = None → c ∉ excluded_chunk_ids t db.
Proof.
  intros Hwf Hn. unfold excluded_chunk_ids, get_deleted_chunk_ids, list_lifecycle_hidden.
  rewrite elem_of_app. intros [Hin|Hin];
    (change (map cm_chunk_id (select_where t ?f db)) with (select_ids t f db) in Hin ||
     match type of Hin with c ∈ map _ (select_where t ?f db) => fold (select_ids t f db) in Hin end);
    apply elem_of_select_ids in Hin as (r & Hr & _); congruence.
Qed.

Lemma deleted_iff t db c row :
  table_wf db → db !! c = Some row → r_tenant row = t → r_status row = Deleted →
  c ∈ get_deleted_chunk_ids t db.
Proof.
  intros Hwf Hr Ht Hs. unfold get_deleted_chunk_ids.
  fold (select_ids t (status_in [Deleted]) db). apply elem_of_select_ids; [done|]. exists row. split; [done|].
  apply matches_true. split; [done|]. unfold status_in. rewrite Hs. by apply bool_decide_eq_true; left.
Qed.

Lemma compacted_intro t x (s s' : Compactable (G := G) (T := T)) :
  table_wf (cp_db s') →
  dense_without (TenantId.as_str t) (excluded_chunk_ids t (cp_db s')) x (cp_dense s) (cp_dense s') →
  cache_without (get_deleted_chunk_ids t (cp_db s')) (cp_cache s') → compacted t x s s'.
Proof using UL HGL.
  intros Hwf (x' & Hx' & Hi & Hst & Ho & Hd) Hc.
  assert (Hrows : ∀ c row, cp_db s' !! c = Some row → r_tenant row = t →
    stored x' c = if shown_row row then stored x c else None).
  { intros c row Hr Ht. rewrite Hst. pose proof (excluded_iff t _ c row Hwf Hr Ht) as Hiff.
    case_decide; destruct (shown_row row); try done; tauto || naive_solver. }
  split.
  - intros x1. rewrite Hx'. by intros [= <-].
  - intros x1 c. rewrite Hx'. intros [= <-] Hn. rewrite Hst, decide_False; [done|by apply excluded_known].
  - intros x1 mf hf q k rs. rewrite Hx'. intros [= <-] Hs.
    destruct (index_search_spec mf hf q k x' rs Hi Hs) as [_ Hall]. eapply Forall_impl; [exact Hall|].
    intros h [[e He] _] row Hr Ht. rewrite (Hrows _ _ Hr Ht) in He. by destruct (shown_row row).
  - by rewrite Hx'.
  - done.
  - done.
  - intros c e rec h row Ec He Hr Hh Hrow Ht Hdel.
    by eapply Hc, deleted_iff.
Qed.

(** C36: a compaction cycle hides what is not visible and loses nothing else.
    It never panics; every row becomes its [cycled_row], which is shown at
    the sweep's clock exactly when the row was; afterwards the tenant's dense
    index holds the embedding of a chunk exactly when it held it before and
    the chunk is visible, so no search of it, with any locks taken, returns a
    hidden chunk; no cached answer names a deleted chunk; the sparse index
    stands for the same documents; and no other tenant's index, nor the
    disk, is touched. *)
Theorem compaction_hides (config : CompactionConfig) (hybrid : bool) (t : TenantId) (n1 n2 : Z)
    (s : Compactable (G := G) (T := T)) (x : HnswIndex G) (D : list SparseDoc) :
  table_wf (cp_db s) → ds_indices (cp_dense s) !! TenantId.as_str t = Some x → index_inv x →
  sparse_rep D (cp_sparse s) →
  ∃ r s', run_compaction config hybrid t n1 n2 s = Some (r, s') ∧ table_wf (cp_db s') ∧
    (∀ c, cp_db s' !! c = cycled_row config t n1 n2 <$> cp_db s !! c) ∧
    (∀ c row, cp_db s !! c = Some row → ∃ row', cp_db s' !! c = Some row' ∧ shown_row_at n1 row' = shown_row_at n1 row) ∧
    compacted t x s s' ∧ sparse_rep D (cp_sparse s').
Proof using UL HGL TVL.
  intros Hwf Ht Hx HD. unfold run_compaction.
  pose proof (lifecycle_jobs_spec config t n1 n2 (cp_db s) Hwf) as Hj.
  destruct (lifecycle_jobs config t n1 n2 (cp_db s)) as [[e p] db]. destruct Hj as [Hl Hwf'].
  pose proof (count_segments_rep D _ HD) as HD1. destruct (count_segments (cp_sparse s)) as [n sp]. cbn [snd] in HD1.
  set (m := gather _ _ _ _). set (stale := exceeds_hnsw_staleness_threshold _ m).
  destruct (rebuild_dense_spec stale t (excluded_chunk_ids t db) x (cp_dense s) Ht Hx) as (b & -> & r & d' & Hr & Hd).
  cbn [mbind option_bind]. rewrite Hr.
  pose proof (merge_sparse_rep D (exceeds_segment_threshold (ct_max_segment_count (cc_thresholds config)) m) sp HD1) as HD2.
  destruct (merge_sparse _ sp) as [mg sp']. cbn [snd] in HD2.
  pose proof (invalidate_cache_spec (get_deleted_chunk_ids t db) (cp_cache s)) as Hc.
  destruct (invalidate_cache _ (cp_cache s)) as [ni cache]. cbn [snd] in Hc.
  eexists _, _. split; [done|]. cbn [cp_db cp_sparse]. split_and!; [done|done| | |done].
  - intros c row Hrow. rewrite Hl, Hrow. eexists. split; [done|]. apply cycled_shown.
  - by apply compacted_intro.
Qed.
End cycle.

(* ------------------------------------------------------------------ *)
(** ** The thresholds after a cycle *)

Section thresholds.
Context `{U : Uuid ChunkId} `{UL : !UuidLaws ChunkId} {G : Type} `{HG : Hnsw G} `{HGL : !HnswLaws G}.
Context {T Q : Type} `{TV : Tantivy T Q}.

(** The tombstone ratio counts the soft-deleted rows, which a cycle keeps:
    a ratio above the threshold is above it after every cycle too. *)
Lemma cycle_keeps_tombstone_ratio config hybrid t n1 n2 (s s' : Compactable (G := G) (T := T)) r stats stats' k k' :
  table_wf (cp_db s) → run_compaction config hybrid t n1 n2 s = Some (r, s') →
  cm_tombstone_ratio (gather (cp_db s') stats' k' t) = cm_tombstone_ratio (gather (cp_db s) stats k t).
Proof.
  intros Hwf. unfold run_compaction. pose proof (lifecycle_jobs_spec config t n1 n2 (cp_db s) Hwf) as Hj.
  destruct (lifecycle_jobs config t n1 n2 (cp_db s)) as [[e p] db]. destruct Hj as [Hl Hwf'].
  destruct (count_segments _) as [n sp]. intros (b & _ & ([rb d] & _ & E)%bind_Some)%bind_Some.
  destruct (merge_sparse _ sp) as [mg sp'], (invalidate_cache _ _) as [ni cache]. injection E as _ <-. cbn [cp_db].
  unfold gather. rewrite (cycled_counts config t n1 n2 (cp_db s) db) by done.
  destruct (count_by_status t (cp_db s)) as [[a d'] c], stats, stats'. done.
Qed.

Lemma mark_invalid_len id c : (cache_len (mark_invalid id c) ≤ cache_len c)%nat.
Proof. unfold mark_invalid, cache_len. repeat case_match; cbn; lia. Qed.

(** Ids are not handed out again, so a rebuild can only raise the staleness
    it is meant to lower: the index size stays, the cache shrinks. *)
Lemma rebuild_keeps_staleness deleted x r x' :
  index_compact deleted x = Some (r, x') →
  index_len x' = index_len x ∧ (cache_len (hi_cache x') ≤ cache_len (hi_cache x))%nat.
Proof using.
  unfold index_compact. set (del := omap _ deleted). intros ([g rb] & _ & E)%bind_Some.
  injection E as _ <-. split; [done|]. cbn. generalize (hi_cache x). induction del as [|i del IH]; intros c; [done|].
  cbn. etrans; [apply IH|apply mark_invalid_len].
Qed.
End thresholds.

(* ------------------------------------------------------------------ *)
(** ** The audit of the table, and batching *)

(** [list] never shows a deleted row, so its audit passes. *)
Lemma audit_metadata_store_passes db t :
  audit_metadata_store db t = audit_passed ["SqliteMetadataStore::list"%string].
Proof.
  unfold audit_metadata_store.
  destruct (List.filter _ (list_chunks t 10000 0 db)) as [|m l] eqn:E; [done|exfalso].
  assert (Hm : In m (m :: l)) by (by left). rewrite <- E in Hm. apply filter_In in Hm as [Hm Hd%bool_decide_eq_true].
  apply list_elem_of_In in Hm. unfold list_chunks, limit_offset in Hm. rewrite drop_0 in Hm.
  assert (Hin : m ∈ select_where t (λ r, negb (status_in [Candidate; Deleted] r)) db).
  { by eapply elem_of_take_sort. }
  apply elem_of_select_where in Hin as (c & r & _ & Hc & ->). apply matches_true in Hc as [_ Hc].
  unfold status_in in Hc. unfold r_status in Hc. rewrite Hd in Hc. done.
Qed.

Lemma batches_concat {A} size fuel : ∀ l : list A,
  (0 < size)%nat → (length l ≤ fuel)%nat → concat (batches fuel size l) = l.
Proof.
  induction fuel as [|fuel IH]; intros l Hs Hl; [by destruct l; cbn in *; [|lia]|].
  destruct l as [|a l]; [done|]. cbn [batches concat]. rewrite IH; [apply take_drop|done|].
  rewrite length_drop. cbn in *. lia.
Qed.

(** Batching does not change the result of work that is done item by item. *)
Lemma process_batched_map {A R} size (l : list A) (g : A → R) :
  (0 < size)%nat → process_batched size l (map g) = Some (map g l).
Proof.
  intros Hs. unfold process_batched. rewrite bool_decide_false by lia. f_equal.
  rewrite <- concat_map. by rewrite batches_concat.
Qed.

(* ------------------------------------------------------------------ *)
(** ** A cycle evaluated *)

#[local] Instance ascii_alnum : AlphaNumeric := { char_is_alphanumeric _ := true }.

(** Chunk 1 is indexed and has expired by the sweep's clock. *)
Definition cyc_state : Compactable (G := ListGraph) (T := ListEngine) :=
  mkCompactable ex_db (mkSearcher {["team" := ex_index]} ∅ (mkSearcherConfig ex_cfg true true false))
    (Some bx_index) None 0.

Lemma compaction_hides_witness :
  ∃ r s', run_compaction CompactionConfig_default true ex_tenant 100 100 cyc_state = Some (r, s') ∧
    ∀ x', ds_indices (cp_dense s') !! "team" = Some x' → stored x' (ex_id 1) = None.
Proof.
  destruct (compaction_hides CompactionConfig_default true ex_tenant 100 100 cyc_state ex_index [] ex_db_wf
    eq_refl (proj1 ex_index_inv)) as (r & s' & Hr & _ & Hl & _ & [Hd _ _ _ _ _ _] & _).
  { intros i [= <-]. apply bx_rep. }
  exists r, s'. split; [exact Hr|]. intros x' Hx'. destruct (Hd x' Hx') as [_ Hst].
  specialize (Hl (ex_id 1)). destruct (cp_db s' !! ex_id 1) as [row|] eqn:Erow; [|vm_compute in Hl; discriminate Hl].
  vm_compute in Hl. rewrite (Hst _ row Erow) by (injection Hl as ->; reflexivity). by injection Hl as ->.
Defined.
