(* ===== verification/Journal.v ===== *)
(** * The consolidation journal
    (src/crates/memd/src/consolidate/journal.rs,
     src/crates/memd/src/store/metadata/sqlite/consolidation.rs)

    Consolidation runs, their output entries and the lineage edges are three
    tables beside [chunks].  A statement is the table transformation of its
    SQL text; a transaction is a function into [memd_result] whose errors
    leave the tables as they were, because the transaction is dropped. *)

From S2P Require Import Prelude Crates Types Str Metadata Fusion.
From stdpp Require Import sorting.

Open Scope Z_scope.

(* ------------------------------------------------------------------ *)
(** ** Data *)

(** [ConsolidationRunId(Uuid)] *)
Record ConsolidationRunId : Type := mkRunId { run_uuid : N }.

#[export] Instance ConsolidationRunId_eq_dec : EqDecision ConsolidationRunId.
Proof. solve_decision. Defined.
#[export] Instance ConsolidationRunId_countable : Countable ConsolidationRunId.
Proof. apply (inj_countable' run_uuid mkRunId). by intros []. Defined.

Inductive ConsolidationState : Type :=
| Planned
| CandidateWritten
| Validated
| Committed
| Rejected
| RolledBack
| FailedRecoverable.

#[export] Instance ConsolidationState_eq_dec : EqDecision ConsolidationState.
Proof. solve_decision. Defined.

Definition ConsolidationState_as_str (s : ConsolidationState) : string :=
  match s with
  | Planned => "planned"
  | CandidateWritten => "candidate_written"
  | Validated => "validated"
  | Committed => "committed"
  | Rejected => "rejected"
  | RolledBack => "rolled_back"
  | FailedRecoverable => "failed_recoverable"
  end.

Definition is_terminal (s : ConsolidationState) : bool :=
  match s with Committed | Rejected | RolledBack => true | _ => false end.

Definition ConsolidationState_from_str (value : string) : memd_result ConsolidationState :=
  if bool_decide (value = "planned"%string) then Ok Planned
  else if bool_decide (value = "candidate_written"%string) then Ok CandidateWritten
  else if bool_decide (value = "validated"%string) then Ok Validated
  else if bool_decide (value = "committed"%string) then Ok Committed
  else if bool_decide (value = "rejected"%string) then Ok Rejected
  else if bool_decide (value = "rolled_back"%string) then Ok RolledBack
  else if bool_decide (value = "failed_recoverable"%string) then Ok FailedRecoverable
  else Err (ValidationError "invalid consolidation state").

Inductive LineageRelation : Type := Supersedes | DerivesFrom.

#[export] Instance LineageRelation_eq_dec : EqDecision LineageRelation.
Proof. solve_decision. Defined.

Definition LineageRelation_as_str (r : LineageRelation) : string :=
  match r with Supersedes => "supersedes" | DerivesFrom => "derives_from" end.

Definition LineageRelation_from_str (value : string) : memd_result LineageRelation :=
  if bool_decide (value = "supersedes"%string) then Ok Supersedes
  else if bool_decide (value = "derives_from"%string) then Ok DerivesFrom
  else Err (ValidationError "invalid lineage relation").

Record ConsolidationRun : Type := mkRun {
  rn_run_id : ConsolidationRunId;
  rn_tenant_id : TenantId;
  rn_project_id : option string;
  rn_input_hash : string;
  rn_state : ConsolidationState;
  rn_consolidator : string;
  rn_consolidator_command : option string;
  rn_consolidator_model : option string;
  rn_consolidator_version : option string;
  rn_prompt_hash : option string;
  rn_response_hash : option string;
  rn_audit_artifact_path : option string;
  rn_validation_result : option string;
  rn_error : option string;
  rn_sparse_cleanup_done : bool;
  rn_promotion_requested : bool;
  rn_created_at_ms : Z;
  rn_updated_at_ms : Z;
}.

Record ConsolidationEntryRecord : Type := mkEntry {
  en_run_id : ConsolidationRunId;
  en_entry_index : Z;
  en_candidate_chunk_id : option ChunkId;
  en_source_set_hash : string;
  en_state : ConsolidationState;
  en_validation_error : option string;
  en_created_at_ms : Z;
  en_updated_at_ms : Z;
}.

Record MemoryLineage : Type := mkLineage {
  ml_run_id : ConsolidationRunId;
  ml_tenant_id : TenantId;
  ml_project_id : option string;
  ml_source_chunk_id : ChunkId;
  ml_result_chunk_id : ChunkId;
  ml_relation : LineageRelation;
  ml_created_at_ms : Z;
}.

#[export] Instance ConsolidationRun_eq_dec : EqDecision ConsolidationRun.
Proof. solve_decision. Defined.
#[export] Instance ConsolidationEntryRecord_eq_dec : EqDecision ConsolidationEntryRecord.
Proof. solve_decision. Defined.
#[export] Instance MemoryLineage_eq_dec : EqDecision MemoryLineage.
Proof. solve_decision. Defined.

(** [PromotionOutcome] *)
Inductive PromotionOutcome : Type := PromotedNow | AlreadyCommitted.

(* ------------------------------------------------------------------ *)
(** ** The row codec *)

Record RunRow : Type := mkRunRow {
  rr_run_id : string;
  rr_tenant_id : string;
  rr_project_id : option string;
  rr_input_hash : string;
  rr_state : string;
  rr_consolidator : string;
  rr_prompt_hash : option string;
  rr_response_hash : option string;
  rr_validation_result : option string;
  rr_error : option string;
  rr_sparse_cleanup_done : Z;
  rr_consolidator_command : option string;
  rr_consolidator_model : option string;
  rr_consolidator_version : option string;
  rr_audit_artifact_path : option string;
  rr_promotion_requested : Z;
  rr_created_at_ms : Z;
  rr_updated_at_ms : Z;
}.

Record EntryRow : Type := mkEntryRow {
  er_run_id : string;
  er_entry_index : Z;
  er_candidate_chunk_id : option string;
  er_source_set_hash : string;
  er_state : string;
  er_validation_error : option string;
  er_created_at_ms : Z;
  er_updated_at_ms : Z;
}.

Record LineageRow : Type := mkLineageRow {
  lr_run_id : string;
  lr_tenant_id : string;
  lr_project_id : option string;
  lr_source_chunk_id : string;
  lr_result_chunk_id : string;
  lr_relation : string;
  lr_created_at_ms : Z;
}.

Section journal_codec.
Context `{U : Uuid ChunkId} `{UR : Uuid ConsolidationRunId}.

(** [ConsolidationRunId::parse] *)
Definition run_id_parse (value : string) : memd_result ConsolidationRunId :=
  ok_or (uuid_parse value) (ValidationError "invalid consolidation run id").

(** [i64::from(bool)] *)
Definition i64_of_bool (b : bool) : Z := if b then 1 else 0.

(** The parameters [begin_consolidation_run] binds. *)
Definition run_params (run : ConsolidationRun) : RunRow :=
  mkRunRow (uuid_to_string (rn_run_id run)) (TenantId.as_str (rn_tenant_id run))
    (rn_project_id run) (rn_input_hash run) (ConsolidationState_as_str (rn_state run))
    (rn_consolidator run) (rn_prompt_hash run) (rn_response_hash run)
    (rn_validation_result run) (rn_error run) (i64_of_bool (rn_sparse_cleanup_done run))
    (rn_consolidator_command run) (rn_consolidator_model run) (rn_consolidator_version run)
    (rn_audit_artifact_path run) (i64_of_bool (rn_promotion_requested run))
    (rn_created_at_ms run) (rn_updated_at_ms run).

Definition entry_params (entry : ConsolidationEntryRecord) : EntryRow :=
  mkEntryRow (uuid_to_string (en_run_id entry)) (as_i64 (en_entry_index entry))
    (uuid_to_string <$> en_candidate_chunk_id entry) (en_source_set_hash entry)
    (ConsolidationState_as_str (en_state entry)) (en_validation_error entry)
    (en_created_at_ms entry) (en_updated_at_ms entry).

Definition lineage_params (edge : MemoryLineage) : LineageRow :=
  mkLineageRow (uuid_to_string (ml_run_id edge)) (TenantId.as_str (ml_tenant_id edge))
    (ml_project_id edge) (uuid_to_string (ml_source_chunk_id edge))
    (uuid_to_string (ml_result_chunk_id edge)) (LineageRelation_as_str (ml_relation edge))
    (ml_created_at_ms edge).

Definition row_to_consolidation_run (row : RunRow) : memd_result ConsolidationRun :=
  run_id ← convert (run_id_parse (rr_run_id row));
  tenant_id ← convert (TenantId.new (rr_tenant_id row));
  state ← convert (ConsolidationState_from_str (rr_state row));
  Ok (mkRun run_id tenant_id (rr_project_id row) (rr_input_hash row) state
        (rr_consolidator row) (rr_consolidator_command row) (rr_consolidator_model row)
        (rr_consolidator_version row) (rr_prompt_hash row) (rr_response_hash row)
        (rr_audit_artifact_path row) (rr_validation_result row) (rr_error row)
        (negb (rr_sparse_cleanup_done row =? 0)) (negb (rr_promotion_requested row =? 0))
        (rr_created_at_ms row) (rr_updated_at_ms row)).

Definition row_to_consolidation_entry (row : EntryRow) : memd_result ConsolidationEntryRecord :=
  run_id ← convert (run_id_parse (er_run_id row));
  candidate ← convert (parse_opt (er_candidate_chunk_id row));
  entry_index ← (if er_entry_index row <? 0 then Err (DatabaseError "conversion error")
                 else Ok (er_entry_index row));
  state ← convert (ConsolidationState_from_str (er_state row));
  Ok (mkEntry run_id entry_index candidate (er_source_set_hash row) state
        (er_validation_error row) (er_created_at_ms row) (er_updated_at_ms row)).

Definition row_to_memory_lineage (row : LineageRow) : memd_result MemoryLineage :=
  run_id ← convert (run_id_parse (lr_run_id row));
  tenant_id ← convert (TenantId.new (lr_tenant_id row));
  source_chunk_id ← convert (chunk_id_parse (lr_source_chunk_id row));
  result_chunk_id ← convert (chunk_id_parse (lr_result_chunk_id row));
  relation ← convert (LineageRelation_from_str (lr_relation row));
  Ok (mkLineage run_id tenant_id (lr_project_id row) source_chunk_id result_chunk_id relation
        (lr_created_at_ms row)).

End journal_codec.

(* ------------------------------------------------------------------ *)
(** ** The tables *)

(** [consolidation_runs] by its primary key, [consolidation_entries] by its
    primary key (run, index), and [memory_lineage] in insertion order. *)
Record JournalDb : Type := mkJournal {
  jd_chunks : ChunkTable;
  jd_runs : gmap ConsolidationRunId ConsolidationRun;
  jd_entries : gmap (ConsolidationRunId * Z) ConsolidationEntryRecord;
  jd_lineage : list MemoryLineage;
}.

Definition with_chunks (c : ChunkTable) (db : JournalDb) : JournalDb :=
  mkJournal c (jd_runs db) (jd_entries db) (jd_lineage db).
Definition with_runs (r : gmap ConsolidationRunId ConsolidationRun) (db : JournalDb) : JournalDb :=
  mkJournal (jd_chunks db) r (jd_entries db) (jd_lineage db).
Definition with_entries (e : gmap (ConsolidationRunId * Z) ConsolidationEntryRecord)
    (db : JournalDb) : JournalDb :=
  mkJournal (jd_chunks db) (jd_runs db) e (jd_lineage db).
Definition with_lineage (l : list MemoryLineage) (db : JournalDb) : JournalDb :=
  mkJournal (jd_chunks db) (jd_runs db) (jd_entries db) l.

(** The columns of a run that statements assign. *)
Definition set_run (state : ConsolidationState) (validation_result error : option string)
    (sparse_cleanup_done promotion_requested : bool) (updated_at_ms : Z)
    (r : ConsolidationRun) : ConsolidationRun :=
  mkRun (rn_run_id r) (rn_tenant_id r) (rn_project_id r) (rn_input_hash r) state
    (rn_consolidator r) (rn_consolidator_command r) (rn_consolidator_model r)
    (rn_consolidator_version r) (rn_prompt_hash r) (rn_response_hash r)
    (rn_audit_artifact_path r) validation_result error sparse_cleanup_done
    promotion_requested (rn_created_at_ms r) updated_at_ms.

Definition set_entry (state : ConsolidationState) (validation_error : option string)
    (updated_at_ms : Z) (e : ConsolidationEntryRecord) : ConsolidationEntryRecord :=
  mkEntry (en_run_id e) (en_entry_index e) (en_candidate_chunk_id e) (en_source_set_hash e)
    state validation_error (en_created_at_ms e) updated_at_ms.

Definition run_in (l : list ConsolidationState) (r : ConsolidationRun) : bool :=
  bool_decide (rn_state r ∈ l).

(** [UPDATE consolidation_runs SET .. WHERE run_id = id AND ..] *)
Definition update_run (id : ConsolidationRunId) (cond : ConsolidationRun → bool)
    (f : ConsolidationRun → ConsolidationRun) (db : JournalDb) : Z * JournalDb :=
  match jd_runs db !! id with
  | Some r => if cond r then (1, with_runs (<[id := f r]> (jd_runs db)) db) else (0, db)
  | None => (0, db)
  end.

(** [UPDATE consolidation_entries SET .. WHERE run_id = id AND ..] *)
Definition entry_hit (id : ConsolidationRunId) (cond : ConsolidationEntryRecord → bool)
    (e : ConsolidationEntryRecord) : bool :=
  bool_decide (en_run_id e = id) && cond e.
Definition update_entries (id : ConsolidationRunId) (cond : ConsolidationEntryRecord → bool)
    (f : ConsolidationEntryRecord → ConsolidationEntryRecord) (db : JournalDb)
    : Z * JournalDb :=
  (Z.of_nat (size (filter (λ ke, entry_hit id cond ke.2 = true) (jd_entries db))),
   with_entries ((λ e, if entry_hit id cond e then f e else e) <$> jd_entries db) db).

(** [SELECT COUNT( * ) FROM consolidation_entries WHERE run_id = id] *)
Definition count_entries (id : ConsolidationRunId) (db : JournalDb) : Z :=
  Z.of_nat (size (filter (λ ke, entry_hit id (λ _, true) ke.2 = true) (jd_entries db))).

(** [UPDATE chunks SET status = 'error', lifecycle_updated_at_ms = now
     WHERE status = 'candidate' AND chunk_id IN (..)]: the rows changed. *)
Definition hide_hit (ids : list ChunkId) (r : Row) : bool :=
  status_in [Candidate] r && bool_decide (cm_chunk_id (r_meta r) ∈ ids).
Definition touch_status (s : ChunkStatus) (now_ms : Z) (r : Row) : Row :=
  let l := r_lc r in
  set_row_meta (set_meta_lifecycle
    (mkLifecycle (lc_tier l) (lc_supersedes l) (lc_superseded_by l) (lc_expires_at_ms l)
       (lc_review_after_ms l) now_ms) (set_meta_status s (r_meta r))) r.
Definition hide_candidates (ids : list ChunkId) (now_ms : Z) (db : JournalDb) : Z * JournalDb :=
  (Z.of_nat (size (filter (λ kr, hide_hit ids kr.2 = true) (jd_chunks db))),
   with_chunks ((λ r, if hide_hit ids r then touch_status ErrorStatus now_ms r else r)
                  <$> jd_chunks db) db).

(* ------------------------------------------------------------------ *)
(** ** Queries *)

(** ORDER BY entry_index ASC *)
Definition by_entry_index (a b : ConsolidationEntryRecord) : Prop :=
  en_entry_index a ≤ en_entry_index b.
#[export] Instance by_entry_index_dec : RelDecision by_entry_index.
Proof. intros a b. unfold by_entry_index. apply _. Defined.

Definition query_consolidation_entries (id : ConsolidationRunId) (db : JournalDb)
    : list ConsolidationEntryRecord :=
  merge_sort by_entry_index
    (filter (λ e, entry_hit id (λ _, true) e = true) (map snd (map_to_list (jd_entries db)))).

(** ORDER BY result_chunk_id ASC, source_chunk_id ASC *)
Definition by_result_source (a b : MemoryLineage) : Prop :=
  (chunk_uuid (ml_result_chunk_id a) < chunk_uuid (ml_result_chunk_id b))%N ∨
  (ml_result_chunk_id a = ml_result_chunk_id b ∧
   (chunk_uuid (ml_source_chunk_id a) ≤ chunk_uuid (ml_source_chunk_id b))%N).
#[export] Instance by_result_source_dec : RelDecision by_result_source.
Proof. intros a b. unfold by_result_source. apply _. Defined.

Definition query_memory_lineage (id : ConsolidationRunId) (db : JournalDb) : list MemoryLineage :=
  merge_sort by_result_source (filter (λ e, ml_run_id e = id) (jd_lineage db)).

Definition get_consolidation_run (id : ConsolidationRunId) (db : JournalDb)
    : option ConsolidationRun := jd_runs db !! id.

(** [SELECT .. FROM consolidation_runs WHERE ..] *)
Definition select_runs (cond : ConsolidationRun → bool) (db : JournalDb)
    : list ConsolidationRun :=
  filter (λ r, cond r = true) (map snd (map_to_list (jd_runs db))).

(** [state NOT IN ('rejected', 'rolled_back')] *)
Definition run_active (r : ConsolidationRun) : bool := negb (run_in [Rejected; RolledBack] r).

Definition find_consolidation_run_by_input (t : TenantId) (project_id : option string)
    (input_hash : string) (db : JournalDb) : option ConsolidationRun :=
  head (select_runs (λ r, bool_decide (rn_tenant_id r = t)
                          && bool_decide (rn_project_id r = project_id)
                          && bool_decide (rn_input_hash r = input_hash)
                          && run_active r) db).

(** ORDER BY updated_at_ms ASC, run_id ASC *)
Definition oldest_run (a b : ConsolidationRun) : Prop :=
  rn_updated_at_ms a < rn_updated_at_ms b ∨
  (rn_updated_at_ms a = rn_updated_at_ms b ∧
   (run_uuid (rn_run_id a) ≤ run_uuid (rn_run_id b))%N).
#[export] Instance oldest_run_dec : RelDecision oldest_run.
Proof. intros a b. unfold oldest_run. apply _. Defined.

(** [LIMIT ?] bound to [limit as i64]; a negative limit is no limit. *)
Definition sql_limit {A} (limit : Z) (l : list A) : list A :=
  if as_i64 limit <? 0 then l else take (Z.to_nat (as_i64 limit)) l.

Definition list_staged_consolidation_runs (t : option TenantId) (project_id : option string)
    (limit : Z) (db : JournalDb) : list ConsolidationRun :=
  if limit =? 0 then []
  else sql_limit limit (merge_sort oldest_run
    (select_runs (λ r, run_in [Validated] r && negb (rn_promotion_requested r)
       && match t with None => true | Some t => bool_decide (rn_tenant_id r = t) end
       && match project_id with
          | None => true
          | Some p => bool_decide (rn_project_id r = Some p)
          end) db)).

Definition run_recoverable (updated_before_ms : Z) (r : ConsolidationRun) : bool :=
  (run_in [Planned; CandidateWritten; FailedRecoverable] r
   || (run_in [Validated] r && rn_promotion_requested r))
  && (rn_updated_at_ms r <=? updated_before_ms).

Definition list_recoverable_consolidation_runs_before (limit updated_before_ms : Z)
    (db : JournalDb) : list ConsolidationRun :=
  if limit =? 0 then []
  else sql_limit limit (merge_sort oldest_run (select_runs (run_recoverable updated_before_ms) db)).

Definition i64_max : Z := 9223372036854775807.

Definition list_recoverable_consolidation_runs (limit : Z) (db : JournalDb)
    : list ConsolidationRun :=
  list_recoverable_consolidation_runs_before limit i64_max db.

Definition list_consolidation_runs_pending_sparse_cleanup (limit : Z) (db : JournalDb)
    : list ConsolidationRun :=
  if limit =? 0 then []
  else sql_limit limit (merge_sort oldest_run
    (select_runs (λ r, run_in [Committed] r && negb (rn_sparse_cleanup_done r)) db)).

(* ------------------------------------------------------------------ *)
(** ** Statements on one run *)

Definition mark_consolidation_sparse_cleanup_done (id : ConsolidationRunId) (now_ms : Z)
    (db : JournalDb) : bool * JournalDb :=
  let '(rows, db) :=
    update_run id (λ r, run_in [Committed] r && negb (rn_sparse_cleanup_done r))
      (λ r, set_run (rn_state r) (rn_validation_result r) (rn_error r) true
              (rn_promotion_requested r) now_ms r) db in
  (rows =? 1, db).

Definition record_consolidation_recovery_error (id : ConsolidationRunId) (now_ms : Z)
    (error : string) (db : JournalDb) : bool * JournalDb :=
  let '(rows, db) :=
    update_run id (λ r, negb (run_in [Committed; Rejected; RolledBack] r))
      (λ r, set_run (rn_state r) (rn_validation_result r) (Some error)
              (rn_sparse_cleanup_done r) (rn_promotion_requested r) now_ms r) db in
  (rows =? 1, db).

Definition request_consolidation_promotion (id : ConsolidationRunId) (now_ms : Z)
    (db : JournalDb) : bool * JournalDb :=
  let '(rows, db) :=
    update_run id (run_in [Planned; CandidateWritten; Validated; FailedRecoverable])
      (λ r, set_run (rn_state r) (rn_validation_result r) (rn_error r)
              (rn_sparse_cleanup_done r) true now_ms r) db in
  (rows =? 1, db).

(** The candidate columns of the entries that satisfy [cond], without NULLs. *)
Definition entry_candidates (cond : ConsolidationEntryRecord → bool) (db : JournalDb)
    : list ChunkId :=
  omap en_candidate_chunk_id
    (filter (λ e, cond e = true) (map snd (map_to_list (jd_entries db)))).

Definition hide_terminal_consolidation_candidates (now_ms : Z) (db : JournalDb)
    : Z * JournalDb :=
  hide_candidates
    (entry_candidates (λ e, match jd_runs db !! en_run_id e with
                            | Some r => run_in [Committed; Rejected; RolledBack] r
                            | None => false
                            end) db) now_ms db.

Definition hide_consolidation_candidates (id : ConsolidationRunId) (now_ms : Z)
    (db : JournalDb) : Z * JournalDb :=
  hide_candidates (entry_candidates (entry_hit id (λ _, true)) db) now_ms db.

(* ------------------------------------------------------------------ *)
(** ** The plan of a run *)

Definition check_entry (run : ConsolidationRun) (s : gset Z * gset ChunkId)
    (entry : ConsolidationEntryRecord) : memd_result (gset Z * gset ChunkId) :=
  let '(indexes, candidates) := s in
  candidate ← ok_or (en_candidate_chunk_id entry)
                (ValidationError "planned entries require candidate chunk ids");
  if negb (bool_decide (en_run_id entry = rn_run_id run))
     || negb (bool_decide (en_state entry = Planned))
     || bool_decide (str_trim (en_source_set_hash entry) = ""%string)
     || bool_decide (en_entry_index entry ∈ indexes)
     || bool_decide (candidate ∈ candidates)
  then Err (ValidationError "consolidation entries do not form a unique planned run")
  else Ok ({[en_entry_index entry]} ∪ indexes, {[candidate]} ∪ candidates).

Definition check_edge (run : ConsolidationRun) (candidates : gset ChunkId)
    (s : option LineageRelation * gset ChunkId) (edge : MemoryLineage)
    : memd_result (option LineageRelation * gset ChunkId) :=
  let '(expected_relation, sources) := s in
  let run_relation := default (ml_relation edge) expected_relation in
  if negb (bool_decide (ml_run_id edge = rn_run_id run))
     || negb (bool_decide (ml_tenant_id edge = rn_tenant_id run))
     || negb (bool_decide (ml_project_id edge = rn_project_id run))
     || negb (bool_decide (ml_relation edge = run_relation))
     || negb (bool_decide (ml_result_chunk_id edge ∈ candidates))
     || bool_decide (ml_source_chunk_id edge = ml_result_chunk_id edge)
     || bool_decide (ml_source_chunk_id edge ∈ sources)
  then Err (ValidationError "consolidation lineage does not match its run scope")
  else Ok (Some run_relation, {[ml_source_chunk_id edge]} ∪ sources).

Definition has_lineage (lineage : list MemoryLineage) (candidate : ChunkId) : bool :=
  existsb (λ edge, bool_decide (ml_result_chunk_id edge = candidate)) lineage.

Definition validate_consolidation_plan (run : ConsolidationRun)
    (entries : list ConsolidationEntryRecord) (lineage : list MemoryLineage)
    : memd_result () :=
  if negb (bool_decide (rn_state run = Planned)) || rn_sparse_cleanup_done run
  then Err (ValidationError "new consolidation runs must start in planned state")
  else if bool_decide (str_trim (rn_input_hash run) = ""%string)
          || bool_decide (entries = []) || bool_decide (lineage = [])
  then Err (ValidationError "a consolidation plan requires an input hash, entries, and lineage")
  else
    '(_, candidates) ← try_fold (check_entry run) entries (∅, ∅);
    _ ← try_fold (check_edge run candidates) lineage (None, ∅);
    if existsb (λ candidate, negb (has_lineage lineage candidate)) (elements candidates)
    then Err (ValidationError "every consolidation candidate requires lineage")
    else Ok ().

(* ------------------------------------------------------------------ *)
(** ** Transactions *)

(** The key of the unique index on active runs. *)
Definition active_key (r : ConsolidationRun) : TenantId * string * string :=
  (rn_tenant_id r, default ""%string (rn_project_id r), rn_input_hash r).

(** A unique constraint the new run would violate. *)
Definition run_conflicts (run r : ConsolidationRun) : bool :=
  bool_decide (rn_run_id r = rn_run_id run)
  || (run_active run && run_active r && bool_decide (active_key r = active_key run)).

(** [INSERT OR IGNORE INTO consolidation_runs] *)
Definition insert_or_ignore_run (run : ConsolidationRun) (db : JournalDb) : Z * JournalDb :=
  match select_runs (run_conflicts run) db with
  | [] => (1, with_runs (<[rn_run_id run := run]> (jd_runs db)) db)
  | _ => (0, db)
  end.

(** [INSERT INTO consolidation_entries]: PRIMARY KEY (run_id, entry_index),
    UNIQUE (candidate_chunk_id), where NULLs never conflict. *)
Definition insert_entry (db : JournalDb) (entry : ConsolidationEntryRecord)
    : memd_result JournalDb :=
  let key := (en_run_id entry, en_entry_index entry) in
  match jd_entries db !! key with
  | Some _ => Err (DatabaseError "UNIQUE constraint failed")
  | None =>
      match en_candidate_chunk_id entry with
      | Some c =>
          if bool_decide (c ∈ entry_candidates (λ _, true) db)
          then Err (DatabaseError "UNIQUE constraint failed")
          else Ok (with_entries (<[key := entry]> (jd_entries db)) db)
      | None => Ok (with_entries (<[key := entry]> (jd_entries db)) db)
      end
  end.

(** [INSERT INTO memory_lineage]: PRIMARY KEY (run, source, result, relation). *)
Definition lineage_key (e : MemoryLineage)
    : ConsolidationRunId * ChunkId * ChunkId * LineageRelation :=
  (ml_run_id e, ml_source_chunk_id e, ml_result_chunk_id e, ml_relation e).
Definition insert_lineage (db : JournalDb) (edge : MemoryLineage) : memd_result JournalDb :=
  if existsb (λ e, bool_decide (lineage_key e = lineage_key edge)) (jd_lineage db)
  then Err (DatabaseError "UNIQUE constraint failed")
  else Ok (with_lineage (jd_lineage db ++ [edge]) db).

Definition begin_consolidation_run (run : ConsolidationRun)
    (entries : list ConsolidationEntryRecord) (lineage : list MemoryLineage) (db : JournalDb)
    : memd_result (ConsolidationRun * JournalDb) :=
  _ ← validate_consolidation_plan run entries lineage;
  let '(inserted, db1) := insert_or_ignore_run run db in
  if inserted =? 0 then
    existing ← ok_or (find_consolidation_run_by_input (rn_tenant_id run) (rn_project_id run)
                        (rn_input_hash run) db1)
                 (DatabaseError "Query returned no rows");
    Ok (existing, db1)
  else
    db2 ← try_fold insert_entry entries db1;
    db3 ← try_fold insert_lineage lineage db2;
    Ok (run, db3).

(** The two updates the guarded transitions share: the run, then its entries,
    which must all have been in the expected state. *)
Definition move_entries (id : ConsolidationRunId) (expected next : ConsolidationState)
    (error : option string) (now_ms : Z) (db : JournalDb) : memd_result JournalDb :=
  let '(entry_rows, db') :=
    update_entries id (λ e, bool_decide (en_state e = expected)) (set_entry next error now_ms) db in
  if negb (entry_rows =? count_entries id db')
  then Err (StorageError "consolidation run has entries outside expected state")
  else Ok db'.

Definition transition_consolidation_run (id : ConsolidationRunId)
    (expected next : ConsolidationState) (now_ms : Z) (validation_result error : option string)
    (db : JournalDb) : memd_result (bool * JournalDb) :=
  let '(run_rows, db1) :=
    update_run id (run_in [expected])
      (λ r, set_run next (coalesce_opt validation_result (rn_validation_result r)) error
              (rn_sparse_cleanup_done r) (rn_promotion_requested r) now_ms r) db in
  if run_rows =? 0 then Ok (false, db)
  else db2 ← move_entries id expected next error now_ms db1; Ok (true, db2).

Definition terminate_consolidation_run (id : ConsolidationRunId)
    (expected terminal : ConsolidationState) (now_ms : Z) (error : string) (db : JournalDb)
    : memd_result (bool * JournalDb) :=
  if negb (bool_decide (terminal ∈ [Rejected; RolledBack]))
  then Err (ValidationError "consolidation termination requires rejected or rolled_back state")
  else
    let '(run_rows, db1) :=
      update_run id (run_in [expected])
        (λ r, set_run terminal (rn_validation_result r) (Some error)
                (rn_sparse_cleanup_done r) (rn_promotion_requested r) now_ms r) db in
    if run_rows =? 0 then Ok (false, db)
    else
      db2 ← move_entries id expected terminal (Some error) now_ms db1;
      Ok (true, (hide_consolidation_candidates id now_ms db2).2).

(* ------------------------------------------------------------------ *)
(** ** Atomic promotion *)

(** One entry of [candidate_ids]. *)
Definition validated_candidate (entry : ConsolidationEntryRecord) : memd_result ChunkId :=
  if negb (bool_decide (en_state entry = Validated))
  then Err (StorageError "consolidation entry is not validated")
  else ok_or (en_candidate_chunk_id entry) (StorageError "consolidation entry has no candidate chunk").

(** [tx.query_row(.. WHERE tenant_id = ?1 AND chunk_id = ?2)]: the row, with
    any status. *)
Definition query_chunk (t : TenantId) (c : ChunkId) (db : JournalDb) : memd_result Row :=
  match jd_chunks db !! c with
  | Some r => if bool_decide (r_tenant r = t) then Ok r
              else Err (DatabaseError "Query returned no rows")
  | None => Err (DatabaseError "Query returned no rows")
  end.

Definition check_candidate (run : ConsolidationRun) (lineage : list MemoryLineage)
    (db : JournalDb) (_ : ()) (c : ChunkId) : memd_result () :=
  r ← query_chunk (rn_tenant_id run) c db;
  if negb (status_in [Candidate] r)
     || negb (bool_decide (cm_project_id (r_meta r) = rn_project_id run))
  then Err (StorageError "candidate drifted outside run")
  else if negb (has_lineage lineage c)
  then Err (StorageError "candidate has no lineage in run")
  else Ok ().

(** [status != final || superseded_by || tier == history || expiry <= now] *)
Definition source_drifted (now_ms : Z) (r : Row) : bool :=
  negb (status_in [Final] r) || negb (is_none (lc_superseded_by (r_lc r)))
  || bool_decide (lc_tier (r_lc r) = History) || expired_by now_ms r.

Definition check_source (run : ConsolidationRun) (candidates : gset ChunkId)
    (expected_relation : LineageRelation) (now_ms : Z) (db : JournalDb) (_ : ())
    (edge : MemoryLineage) : memd_result () :=
  if negb (bool_decide (ml_tenant_id edge = rn_tenant_id run))
     || negb (bool_decide (ml_project_id edge = rn_project_id run))
     || negb (bool_decide (ml_result_chunk_id edge ∈ candidates))
  then Err (StorageError "lineage edge escaped consolidation run scope")
  else if negb (bool_decide (ml_relation edge = expected_relation))
  then Err (StorageError "lineage relation is invalid for run scope")
  else
    r ← query_chunk (rn_tenant_id run) (ml_source_chunk_id edge) db;
    if source_drifted now_ms r
    then Err (StorageError "source is no longer a visible final head for run")
    else if bool_decide (expected_relation = Supersedes)
            && negb (bool_decide (cm_project_id (r_meta r) = rn_project_id run))
    then Err (StorageError "source escaped project scope for run")
    else Ok ().

(** [UPDATE chunks SET status = 'final' .. AND status = 'candidate'] *)
Definition promote_candidate (t : TenantId) (now_ms : Z) (db : ChunkTable) (c : ChunkId)
    : memd_result ChunkTable :=
  let '(rows, db) := update_where t c (status_in [Candidate]) (touch_status Final now_ms) db in
  if negb (rows =? 1) then Err (StorageError "candidate could not be promoted for run") else Ok db.

(** [UPDATE chunks SET status = 'superseded', superseded_by = result ..] *)
Definition supersede_source (run : ConsolidationRun) (now_ms : Z) (db : ChunkTable)
    (edge : MemoryLineage) : memd_result ChunkTable :=
  let '(rows, db) :=
    update_where (rn_tenant_id run) (ml_source_chunk_id edge)
      (λ r, status_in [Final] r
            && bool_decide (cm_project_id (r_meta r) = rn_project_id run)
            && is_none (lc_superseded_by (r_lc r))
            && negb (bool_decide (lc_tier (r_lc r) = History))
            && negb (expired_by now_ms r))
      (λ r, let l := r_lc r in
            set_row_meta (set_meta_lifecycle
              (mkLifecycle (lc_tier l) (lc_supersedes l) (Some (ml_result_chunk_id edge))
                 (lc_expires_at_ms l) (lc_review_after_ms l) now_ms)
              (set_meta_status Superseded (r_meta r))) r) db in
  if negb (rows =? 1) then Err (StorageError "source could not be superseded for run") else Ok db.

Section promotion.
Context {HI : HashIter ChunkId}.

(** [for candidate_id in &candidate_ids]: a [HashSet] is a [HashMap] to unit. *)
Definition set_iter (s : gset ChunkId) : list ChunkId :=
  map fst (hash_iter (gset_to_gmap () s)).

Definition atomic_promote_consolidation_run (id : ConsolidationRunId) (now_ms : Z)
    (db : JournalDb) : memd_result (PromotionOutcome * JournalDb) :=
  run ← ok_or (jd_runs db !! id) (DatabaseError "Query returned no rows");
  if bool_decide (rn_state run = Committed) then Ok (AlreadyCommitted, db)
  else if negb (bool_decide (rn_state run = Validated))
  then Err (StorageError "consolidation run cannot promote from state")
  else if negb (rn_promotion_requested run)
  then Err (ValidationError "consolidation run has no durable promotion request")
  else
    let entries := query_consolidation_entries id db in
    let lineage := query_memory_lineage id db in
    match entries, lineage with
    | _ :: _, first :: _ =>
        candidate_list ← try_fold (λ acc e, c ← validated_candidate e; Ok (acc ++ [c])) entries [];
        let candidate_ids : gset ChunkId := list_to_set candidate_list in
        _ ← try_fold (check_candidate run lineage db) (set_iter candidate_ids) ();
        _ ← try_fold (check_source run candidate_ids (ml_relation first) now_ms db) lineage ();
        chunks ← try_fold (promote_candidate (rn_tenant_id run) now_ms)
                   (set_iter candidate_ids) (jd_chunks db);
        chunks ← (if bool_decide (ml_relation first = Supersedes)
                  then try_fold (supersede_source run now_ms) lineage chunks
                  else Ok chunks);
        let '(entry_rows, db1) :=
          update_entries id (λ e, bool_decide (en_state e = Validated))
            (λ e, set_entry Committed (en_validation_error e) now_ms e) (with_chunks chunks db) in
        if negb (entry_rows =? zlen entries)
        then Err (StorageError "not all entries committed for run")
        else
          let '(run_rows, db2) :=
            update_run id (run_in [Validated])
              (λ r, set_run Committed (rn_validation_result r) None (rn_sparse_cleanup_done r)
                      (rn_promotion_requested r) now_ms r) db1 in
          if negb (run_rows =? 1)
          then Err (StorageError "run lost its validated promotion guard")
          else Ok (PromotedNow, db2)
    | _, _ => Err (StorageError "consolidation run has no entries or lineage")
    end.

End promotion.
