(* ===== verification/JournalFacts.v ===== *)
(** * Facts about the consolidation journal

    What each statement does row by row, the journal invariant, and that every
    statement of the journal preserves it. *)

From S2P Require Import Prelude Crates Types Str Metadata MetadataFacts Fusion Journal.
From stdpp Require Import sorting.

Open Scope Z_scope.

(* ------------------------------------------------------------------ *)
(** ** Folds that may fail *)

Lemma try_fold_unit_ok {E A} (f : () → A → Result E ()) (l : list A) :
  try_fold f l () = Ok () ↔ ∀ a, a ∈ l → f () a = Ok ().
Proof.
  induction l as [|a l IH]; cbn.
  - split; [intros _ a Ha; by apply not_elem_of_nil in Ha | done].
  - destruct (f () a) as [[]|e] eqn:E1; cbn.
    + rewrite IH. setoid_rewrite elem_of_cons. naive_solver.
    + split; [done|]. intros Hall. specialize (Hall a). rewrite E1 in Hall.
      discriminate Hall. by left.
Qed.

Lemma try_fold_unit_err {E A} (f : () → A → Result E ()) (l : list A) :
  ¬ (∀ a, a ∈ l → f () a = Ok ()) → ∃ e, try_fold f l () = Err e.
Proof.
  intros Hn. destruct (try_fold f l ()) as [[]|e] eqn:E1; [|eauto].
  destruct Hn. by apply try_fold_unit_ok.
Qed.

(** Collecting into a vector. *)
Lemma try_fold_collect {E A C} (g : A → Result E C) (l : list A) (acc : list C) (h : A → C) :
  (∀ a, a ∈ l → g a = Ok (h a)) →
  try_fold (λ acc a, c ← g a; Ok (acc ++ [c])) l acc = Ok (acc ++ map h l).
Proof.
  revert acc. induction l as [|a l IH]; intros acc Hall; cbn; [by rewrite app_nil_r|].
  rewrite (Hall a) by (by left). cbn. rewrite IH by (intros; apply Hall; by right).
  by rewrite <- app_assoc.
Qed.

(* ------------------------------------------------------------------ *)
(** ** Guarded updates of distinct rows *)

Section distinct_updates.
Context {A : Type} (t : TenantId) (key : A → ChunkId) (cond : A → Row → bool)
  (f : A → Row → Row) (err : MemdError).

Definition update_step (db : ChunkTable) (a : A) : memd_result ChunkTable :=
  let '(rows, db) := update_where t (key a) (cond a) (f a) db in
  if negb (rows =? 1) then Err err else Ok db.

(** Every row is there and satisfies its guard. *)
Definition updatable (l : list A) (db : ChunkTable) : Prop :=
  ∀ a, a ∈ l → ∃ r, db !! key a = Some r ∧ matches t (cond a) r = true.

(** The row [k] after the updates of [l]. *)
Definition updated (l : list A) (k : ChunkId) (r : Row) : Row :=
  match List.find (λ a, bool_decide (key a = k)) l with Some a => f a r | None => r end.

Lemma update_step_ok db a db' :
  update_step db a = Ok db' ↔
  ∃ r, db !! key a = Some r ∧ matches t (cond a) r = true ∧ db' = <[key a := f a r]> db.
Proof.
  unfold update_step. rewrite update_where_spec. destruct (db !! key a) as [r|]; cbn.
  - destruct (matches t (cond a) r) eqn:Em; cbn.
    + split; [intros [= <-]; eauto|]. intros (r' & [= <-] & _ & ->). done.
    + split; [done|]. intros (r' & [= <-] & ? & _). congruence.
  - split; [done|]. by intros (r' & ? & _).
Qed.

Lemma updated_other l k r : (∀ a, a ∈ l → key a ≠ k) → updated l k r = r.
Proof.
  intros Hne. unfold updated. destruct (List.find _ l) as [a|] eqn:E; [|done].
  apply find_some in E as [Hin Hk%bool_decide_eq_true].
  destruct (Hne a); [by apply list_elem_of_In|done].
Qed.

Lemma updates_ok l db db' :
  NoDup (map key l) →
  try_fold update_step l db = Ok db' ↔
  updatable l db ∧ ∀ k, db' !! k = updated l k <$> db !! k.
Proof.
  revert db. induction l as [|a l IH]; intros db Hnd; cbn.
  - split.
    + intros [= ->]. split; [intros a Ha; by apply not_elem_of_nil in Ha|].
      intros k. by destruct (db' !! k).
    + intros [_ Heq]. f_equal. apply map_eq. intros k. rewrite Heq. by destruct (db !! k).
  - apply NoDup_cons in Hnd as [Hnotin Hnd].
    assert (Hne : ∀ b, b ∈ l → key b ≠ key a).
    { intros b Hb Heq. apply Hnotin. rewrite <- Heq. by apply list_elem_of_fmap_2. }
    assert (Hhead : ∀ r k, db !! key a = Some r →
              updated l k <$> <[key a := f a r]> db !! k = updated (a :: l) k <$> db !! k).
    { intros r k Hr. unfold updated at 2. cbn [List.find]. case_bool_decide as Hk.
      - subst k. rewrite lookup_insert_eq, Hr. cbn. by rewrite updated_other.
      - by rewrite lookup_insert_ne by done. }
    destruct (update_step db a) as [db1|e] eqn:E; cbn.
    + apply update_step_ok in E as (r & Hr & Hm & ->). rewrite IH by done.
      split; intros [Hu Heq]; split.
      * intros b [->|Hb]%elem_of_cons; [eauto|].
        destruct (Hu b Hb) as (r' & Hr' & Hm'). rewrite lookup_insert_ne in Hr' by (symmetry; auto).
        eauto.
      * intros k. rewrite Heq. by apply Hhead.
      * intros b Hb. rewrite lookup_insert_ne by (symmetry; auto). apply Hu. by right.
      * intros k. rewrite Heq. symmetry. by apply Hhead.
    + split; [done|]. intros [Hu _]. destruct (Hu a) as (r & Hr & Hm); [by left|].
      assert (update_step db a = Ok (<[key a := f a r]> db)) as E' by (apply update_step_ok; eauto).
      congruence.
Qed.

(** The updates succeed when every row satisfies its guard. *)
Lemma updates_total l db :
  NoDup (map key l) → updatable l db →
  ∃ db', try_fold update_step l db = Ok db' ∧ ∀ k, db' !! k = updated l k <$> db !! k.
Proof.
  intros Hnd Hu. exists (map_imap (λ k r, Some (updated l k r)) db).
  assert (Hlk : ∀ k, map_imap (λ k r, Some (updated l k r)) db !! k = updated l k <$> db !! k).
  { intros k. rewrite map_lookup_imap. by destruct (db !! k). }
  split; [|done]. by apply updates_ok.
Qed.

End distinct_updates.

(* ------------------------------------------------------------------ *)
(** ** Queries *)

Lemma elem_of_map_snd {K V} `{Countable K} (m : gmap K V) v :
  v ∈ map snd (map_to_list m) ↔ ∃ k, m !! k = Some v.
Proof.
  rewrite list_elem_of_fmap. split.
  - intros ([k w] & -> & Hin). apply elem_of_map_to_list in Hin. by exists k.
  - intros [k Hk]. exists (k, v). split; [done|]. by apply elem_of_map_to_list.
Qed.

Lemma entry_hit_true id cond e : entry_hit id cond e = true ↔ en_run_id e = id ∧ cond e = true.
Proof. unfold entry_hit. by rewrite andb_true_iff, bool_decide_eq_true. Qed.

Lemma elem_of_query_entries id db e :
  e ∈ query_consolidation_entries id db ↔
  en_run_id e = id ∧ ∃ k, jd_entries db !! k = Some e.
Proof.
  unfold query_consolidation_entries. rewrite merge_sort_Permutation, list_elem_of_filter.
  rewrite elem_of_map_snd, entry_hit_true. naive_solver.
Qed.

Lemma elem_of_query_lineage id db e :
  e ∈ query_memory_lineage id db ↔ ml_run_id e = id ∧ e ∈ jd_lineage db.
Proof.
  unfold query_memory_lineage. by rewrite merge_sort_Permutation, list_elem_of_filter.
Qed.

Lemma elem_of_select_runs cond db r :
  r ∈ select_runs cond db ↔ cond r = true ∧ ∃ id, jd_runs db !! id = Some r.
Proof. unfold select_runs. by rewrite list_elem_of_filter, elem_of_map_snd. Qed.

Lemma elem_of_entry_candidates cond db c :
  c ∈ entry_candidates cond db ↔
  ∃ k e, jd_entries db !! k = Some e ∧ cond e = true ∧ en_candidate_chunk_id e = Some c.
Proof.
  unfold entry_candidates. rewrite list_elem_of_omap. split.
  - intros (e & [Hc [k Hk]%elem_of_map_snd]%list_elem_of_filter & He). eauto.
  - intros (k & e & Hk & Hc & He). exists e. split; [|done].
    apply list_elem_of_filter. split; [done|]. apply elem_of_map_snd. eauto.
Qed.

Lemma run_in_true l r : run_in l r = true ↔ rn_state r ∈ l.
Proof. apply bool_decide_eq_true. Qed.

Lemma status_in_true l r : status_in l r = true ↔ r_status r ∈ l.
Proof. apply bool_decide_eq_true. Qed.

Lemma run_active_true r :
  run_active r = true ↔ rn_state r ≠ Rejected ∧ rn_state r ≠ RolledBack.
Proof.
  unfold run_active. rewrite negb_true_iff, <- not_true_iff_false, run_in_true.
  rewrite elem_of_cons, list_elem_of_singleton. naive_solver.
Qed.

Lemma update_run_spec id cond f db :
  update_run id cond f db =
    match jd_runs db !! id with
    | Some r => if cond r then (1, with_runs (<[id := f r]> (jd_runs db)) db) else (0, db)
    | None => (0, db)
    end.
Proof. done. Qed.

Lemma update_run_lookup id cond f db k :
  jd_runs (update_run id cond f db).2 !! k =
    (λ r, if bool_decide (k = id) && cond r then f r else r) <$> jd_runs db !! k.
Proof.
  rewrite update_run_spec. destruct (jd_runs db !! id) as [r|] eqn:E.
  - destruct (cond r) eqn:Ec; cbn.
    + destruct (decide (k = id)) as [->|Hne].
      * rewrite lookup_insert_eq, E. cbn. by rewrite bool_decide_true, Ec.
      * rewrite lookup_insert_ne by done. rewrite bool_decide_false by done.
        by destruct (jd_runs db !! k).
    + destruct (decide (k = id)) as [->|Hne].
      * rewrite E. cbn. by rewrite Ec, andb_false_r.
      * rewrite bool_decide_false by done. by destruct (jd_runs db !! k).
  - cbn. destruct (decide (k = id)) as [->|Hne]; [by rewrite E|].
    rewrite bool_decide_false by done. by destruct (jd_runs db !! k).
Qed.

Lemma update_run_frame id cond f db :
  jd_chunks (update_run id cond f db).2 = jd_chunks db ∧
  jd_entries (update_run id cond f db).2 = jd_entries db ∧
  jd_lineage (update_run id cond f db).2 = jd_lineage db.
Proof.
  rewrite update_run_spec. destruct (jd_runs db !! id) as [r|]; [destruct (cond r)|]; done.
Qed.

(* ------------------------------------------------------------------ *)
(** ** The journal invariant *)

Record journal_wf (db : JournalDb) : Prop := {
  jw_chunk c r : jd_chunks db !! c = Some r → cm_chunk_id (r_meta r) = c;
  jw_run id r : jd_runs db !! id = Some r → rn_run_id r = id;
  (** An entry belongs to a run and is in the state of that run. *)
  jw_entry k e : jd_entries db !! k = Some e →
    k = (en_run_id e, en_entry_index e) ∧ is_Some (en_candidate_chunk_id e) ∧
    ∃ r, jd_runs db !! en_run_id e = Some r ∧ en_state e = rn_state r;
  (** A candidate belongs to one entry. *)
  jw_candidate k1 k2 e1 e2 c :
    jd_entries db !! k1 = Some e1 → jd_entries db !! k2 = Some e2 →
    en_candidate_chunk_id e1 = Some c → en_candidate_chunk_id e2 = Some c → k1 = k2;
  (** One active run for a scope and input. *)
  jw_active id1 id2 r1 r2 :
    jd_runs db !! id1 = Some r1 → jd_runs db !! id2 = Some r2 →
    run_active r1 = true → run_active r2 = true → active_key r1 = active_key r2 → id1 = id2;
  (** A lineage edge stays in the scope of its run and ends in a candidate. *)
  jw_lineage e : e ∈ jd_lineage db →
    ml_source_chunk_id e ≠ ml_result_chunk_id e ∧
    (∃ r, jd_runs db !! ml_run_id e = Some r ∧ ml_tenant_id e = rn_tenant_id r ∧
          ml_project_id e = rn_project_id r) ∧
    ∃ k en, jd_entries db !! k = Some en ∧ en_run_id en = ml_run_id e ∧
            en_candidate_chunk_id en = Some (ml_result_chunk_id e);
  jw_relation e1 e2 : e1 ∈ jd_lineage db → e2 ∈ jd_lineage db →
    ml_run_id e1 = ml_run_id e2 → ml_relation e1 = ml_relation e2;
  jw_sources : NoDup (map (λ e, (ml_run_id e, ml_source_chunk_id e)) (jd_lineage db));
  jw_covered k e c : jd_entries db !! k = Some e → en_candidate_chunk_id e = Some c →
    ∃ edge, edge ∈ jd_lineage db ∧ ml_run_id edge = en_run_id e ∧ ml_result_chunk_id edge = c;
  jw_nonempty id r : jd_runs db !! id = Some r →
    ∃ k e, jd_entries db !! k = Some e ∧ en_run_id e = id;
  (** Only a requested promotion commits; only a commit is cleaned up. *)
  jw_commit id r : jd_runs db !! id = Some r →
    (rn_state r = Committed → rn_promotion_requested r = true) ∧
    (rn_sparse_cleanup_done r = true → rn_state r = Committed);
}.

Definition journal_empty : JournalDb := mkJournal ∅ ∅ ∅ [].

Lemma journal_wf_empty : journal_wf journal_empty.
Proof.
  split; cbn; try (intros *; rewrite ?lookup_empty; done).
  - intros e He. by apply not_elem_of_nil in He.
  - intros e1 e2 He. by apply not_elem_of_nil in He.
  - constructor.
Qed.

(** The scope of a run, which no statement changes. *)
Definition same_scope (r r' : ConsolidationRun) : Prop :=
  rn_run_id r' = rn_run_id r ∧ rn_tenant_id r' = rn_tenant_id r ∧
  rn_project_id r' = rn_project_id r ∧ rn_input_hash r' = rn_input_hash r.

Lemma set_run_scope state vr err sd pr now r : same_scope r (set_run state vr err sd pr now r).
Proof. done. Qed.

Lemma same_scope_refl r : same_scope r r.
Proof. done. Qed.

(** What a run may become without breaking the invariant. *)
Definition run_evolves (r r' : ConsolidationRun) : Prop :=
  same_scope r r' ∧ (run_active r' = true → run_active r = true) ∧
  (rn_state r' = Committed → rn_promotion_requested r' = true) ∧
  (rn_sparse_cleanup_done r' = true → rn_state r' = Committed).

Definition same_slot (e e' : ConsolidationEntryRecord) : Prop :=
  en_run_id e' = en_run_id e ∧ en_entry_index e' = en_entry_index e ∧
  en_candidate_chunk_id e' = en_candidate_chunk_id e.

(** Every statement but the insertions changes rows in place. *)
Lemma relabel_wf db db' (G : ConsolidationRunId → ConsolidationRun → ConsolidationRun)
    (g : ConsolidationEntryRecord → ConsolidationEntryRecord) :
  journal_wf db →
  (∀ c r, jd_chunks db' !! c = Some r → cm_chunk_id (r_meta r) = c) →
  (∀ id, jd_runs db' !! id = G id <$> jd_runs db !! id) →
  (∀ k, jd_entries db' !! k = g <$> jd_entries db !! k) →
  jd_lineage db' = jd_lineage db →
  (∀ id r, jd_runs db !! id = Some r → run_evolves r (G id r)) →
  (∀ e, same_slot e (g e)) →
  (∀ k e r, jd_entries db !! k = Some e → jd_runs db !! en_run_id e = Some r →
            en_state (g e) = rn_state (G (en_run_id e) r)) →
  journal_wf db'.
Proof.
  intros W Hc HG Hg Hl HGe Hge Hst. split.
  - done.
  - intros id r. rewrite HG. intros (r0 & Hr & ->)%fmap_Some.
    destruct (HGe id r0 Hr) as [[-> _] _]. by apply (jw_run _ W).
  - intros k e. rewrite Hg. intros (e0 & He & ->)%fmap_Some.
    destruct (Hge e0) as (E1 & E2 & E3). destruct (jw_entry _ W _ _ He) as (Hk & Hs & r & Hr & _).
    rewrite E1, E2, E3. split_and!; [done..|]. exists (G (en_run_id e0) r).
    rewrite HG, Hr. split; [done|]. eauto.
  - intros k1 k2 e1 e2 c. rewrite !Hg. intros (e1' & H1 & ->)%fmap_Some (e2' & H2 & ->)%fmap_Some.
    destruct (Hge e1') as (_ & _ & ->), (Hge e2') as (_ & _ & ->). by apply (jw_candidate _ W).
  - intros id1 id2 r1 r2. rewrite !HG. intros (s1 & H1 & ->)%fmap_Some (s2 & H2 & ->)%fmap_Some.
    destruct (HGe _ _ H1) as ((_ & A1 & B1 & C1) & Ha1 & _), (HGe _ _ H2) as ((_ & A2 & B2 & C2) & Ha2 & _).
    unfold active_key. rewrite A1, B1, C1, A2, B2, C2. intros. eapply (jw_active _ W); eauto.
  - intros e. rewrite Hl. intros He.
    destruct (jw_lineage _ W _ He) as (Hne & (r & Hr & Ht & Hp) & k & en & Hen & Hid & Hcand).
    split; [done|]. split.
    + exists (G (ml_run_id e) r). rewrite HG, Hr. split; [done|].
      destruct (HGe _ _ Hr) as ((_ & -> & -> & _) & _). done.
    + exists k, (g en). rewrite Hg, Hen. destruct (Hge en) as (-> & _ & ->). done.
  - rewrite Hl. apply (jw_relation _ W).
  - rewrite Hl. apply (jw_sources _ W).
  - intros k e c. rewrite Hg, Hl. intros (e0 & He & ->)%fmap_Some.
    destruct (Hge e0) as (-> & _ & ->). by apply (jw_covered _ W k).
  - intros id r. rewrite HG. intros (r0 & Hr & ->)%fmap_Some.
    destruct (jw_nonempty _ W _ _ Hr) as (k & e & He & Hid). exists k, (g e). rewrite Hg, He.
    destruct (Hge e) as (-> & _). done.
  - intros id r. rewrite HG. intros (r0 & Hr & ->)%fmap_Some. apply (HGe _ _ Hr).
Qed.

(** Two uses of it: only the chunks change, only one run changes. *)
Lemma chunks_wf db chunks :
  journal_wf db → (∀ c r, chunks !! c = Some r → cm_chunk_id (r_meta r) = c) →
  journal_wf (with_chunks chunks db).
Proof.
  intros W Hc. eapply (relabel_wf db _ (λ _ r, r) (λ e, e)); [done|done|..]; cbn.
  - intros id. by destruct (jd_runs db !! id).
  - intros k. by destruct (jd_entries db !! k).
  - done.
  - intros id r Hr. destruct (jw_commit _ W _ _ Hr). by split_and!.
  - done.
  - intros k e r He Hr. destruct (jw_entry _ W _ _ He) as (_ & _ & r' & Hr' & ->). congruence.
Qed.

Lemma update_run_wf id cond f db :
  journal_wf db →
  (∀ r, cond r = true → same_scope r (f r) ∧ rn_state (f r) = rn_state r ∧
        (rn_promotion_requested r = true → rn_promotion_requested (f r) = true) ∧
        (rn_sparse_cleanup_done (f r) = true →
         rn_sparse_cleanup_done r = true ∨ rn_state r = Committed)) →
  journal_wf (update_run id cond f db).2.
Proof.
  intros W Hf.
  destruct (update_run_frame id cond f db) as (Ec & Ee & El).
  eapply (relabel_wf db _ (λ k r, if bool_decide (k = id) && cond r then f r else r) (λ e, e));
    [done| | | |done|..].
  - rewrite Ec. apply (jw_chunk _ W).
  - apply update_run_lookup.
  - intros k. rewrite Ee. by destruct (jd_entries db !! k).
  - intros k r Hr. destruct (jw_commit _ W _ _ Hr) as [Hcommit Hclean].
    destruct (bool_decide (k = id) && cond r) eqn:E; [|done].
    apply andb_true_iff in E as [_ E]. destruct (Hf r E) as (Hscope & Hstate & Hpromo & Hdone).
    unfold run_evolves, run_active, run_in. rewrite !Hstate. naive_solver.
  - done.
  - intros k e r He Hr. destruct (jw_entry _ W _ _ He) as (_ & _ & r' & Hr' & ->).
    assert (r' = r) as -> by congruence.
    destruct (bool_decide _ && cond r) eqn:E; [|done].
    apply andb_true_iff in E as [_ E]. by destruct (Hf r E) as (_ & -> & _).
Qed.

Lemma hide_candidates_wf ids now db :
  journal_wf db → journal_wf (hide_candidates ids now db).2.
Proof.
  intros W. apply chunks_wf; [done|]. intros c r. rewrite lookup_fmap.
  intros (r0 & Hr & ->)%fmap_Some. destruct (hide_hit ids r0); exact (jw_chunk _ W _ _ Hr).
Qed.

(* ------------------------------------------------------------------ *)
(** ** Guarded transitions *)

(** A run and all of its entries, moved together. *)
Definition moved (id : ConsolidationRunId) (g : ConsolidationRun → ConsolidationRun)
    (h : ConsolidationEntryRecord → ConsolidationEntryRecord) (db : JournalDb) : JournalDb :=
  with_entries ((λ e, if bool_decide (en_run_id e = id) then h e else e) <$> jd_entries db)
    (with_runs (alter g id (jd_runs db)) db).

Lemma update_entries_all id cond f db :
  (∀ k e, jd_entries db !! k = Some e → en_run_id e = id → cond e = true) →
  update_entries id cond f db =
    (count_entries id db,
     with_entries ((λ e, if bool_decide (en_run_id e = id) then f e else e) <$> jd_entries db) db).
Proof.
  intros Hall. unfold update_entries, count_entries. f_equal.
  - f_equal. f_equal. apply map_filter_ext. intros k e He. cbn. rewrite !entry_hit_true. naive_solver.
  - f_equal. apply map_fmap_ext. intros k e He. unfold entry_hit.
    case_bool_decide as Hid; cbn; [|done]. by rewrite (Hall k e).
Qed.

(** No update of entries adds or removes one. *)
Lemma count_entries_fmap id h db :
  (∀ e, en_run_id (h e) = en_run_id e) →
  count_entries id (with_entries (h <$> jd_entries db) db) = count_entries id db.
Proof.
  intros Hh. unfold count_entries. f_equal. cbn.
  rewrite <- (map_size_fmap h (filter _ (jd_entries db))). f_equal. apply map_eq. intros k.
  rewrite lookup_fmap, !map_lookup_filter, lookup_fmap.
  destruct (jd_entries db !! k) as [e|]; [|done]. cbn.
  destruct (decide (en_run_id e = id)) as [Hid|Hid].
  - rewrite !option_guard_True by (rewrite entry_hit_true, ?Hh; done). done.
  - rewrite !option_guard_False by (rewrite entry_hit_true, ?Hh; naive_solver). done.
Qed.

Lemma move_entries_all id expected next error now db :
  (∀ k e, jd_entries db !! k = Some e → en_run_id e = id → en_state e = expected) →
  move_entries id expected next error now db =
    Ok (with_entries ((λ e, if bool_decide (en_run_id e = id) then set_entry next error now e else e)
                        <$> jd_entries db) db).
Proof.
  intros Hall. unfold move_entries. rewrite update_entries_all.
  - rewrite count_entries_fmap, Z.eqb_refl; [done|]. intros e. by case_bool_decide.
  - intros k e He Hid. apply bool_decide_eq_true. eauto.
Qed.

Lemma jw_entry_state db id r k e :
  journal_wf db → jd_runs db !! id = Some r → jd_entries db !! k = Some e → en_run_id e = id →
  en_state e = rn_state r.
Proof.
  intros W Hr He <-. destruct (jw_entry _ W _ _ He) as (_ & _ & r' & Hr' & ->). congruence.
Qed.

(** A transition moves the run and all entries, or does nothing because the
    run is not in the expected state; it never fails. *)
Lemma transition_spec id expected next now vr err db :
  journal_wf db →
  transition_consolidation_run id expected next now vr err db =
    match jd_runs db !! id with
    | Some r =>
        if bool_decide (rn_state r = expected) then
          Ok (true, moved id (λ r, set_run next (coalesce_opt vr (rn_validation_result r)) err
                                     (rn_sparse_cleanup_done r) (rn_promotion_requested r) now r)
                      (set_entry next err now) db)
        else Ok (false, db)
    | None => Ok (false, db)
    end.
Proof.
  intros W. unfold transition_consolidation_run. rewrite update_run_spec.
  destruct (jd_runs db !! id) as [r|] eqn:Hr; [|done].
  replace (run_in [expected] r) with (bool_decide (rn_state r = expected))
    by (unfold run_in; apply bool_decide_ext; by rewrite list_elem_of_singleton).
  case_bool_decide as Hst; [|done]. change (1 =? 0) with false. cbn iota.
  rewrite move_entries_all.
  - cbn [mbind result_bind]. unfold moved. do 3 f_equal.
    unfold with_runs, with_entries; cbn. f_equal. apply map_eq. intros k.
    destruct (decide (k = id)) as [->|Hne].
    + by rewrite lookup_insert_eq, lookup_alter_eq, Hr.
    + by rewrite lookup_insert_ne, lookup_alter_ne by done.
  - cbn. intros k e He Hid. rewrite <- Hst. by eapply jw_entry_state.
Qed.

Lemma terminate_spec id expected terminal now err db :
  journal_wf db → terminal ∈ [Rejected; RolledBack] →
  terminate_consolidation_run id expected terminal now err db =
    match jd_runs db !! id with
    | Some r =>
        if bool_decide (rn_state r = expected) then
          Ok (true, (hide_consolidation_candidates id now
                (moved id (λ r, set_run terminal (rn_validation_result r) (Some err)
                                  (rn_sparse_cleanup_done r) (rn_promotion_requested r) now r)
                   (set_entry terminal (Some err) now) db)).2)
        else Ok (false, db)
    | None => Ok (false, db)
    end.
Proof.
  intros W Ht. unfold terminate_consolidation_run. rewrite bool_decide_true by done. cbn [negb].
  rewrite update_run_spec. destruct (jd_runs db !! id) as [r|] eqn:Hr; [|done].
  replace (run_in [expected] r) with (bool_decide (rn_state r = expected))
    by (unfold run_in; apply bool_decide_ext; by rewrite list_elem_of_singleton).
  case_bool_decide as Hst; [|done]. change (1 =? 0) with false. cbn iota.
  rewrite move_entries_all.
  - cbn [mbind result_bind]. unfold moved. do 5 f_equal.
    unfold with_runs, with_entries; cbn. f_equal. apply map_eq. intros k.
    destruct (decide (k = id)) as [->|Hne].
    + by rewrite lookup_insert_eq, lookup_alter_eq, Hr.
    + by rewrite lookup_insert_ne, lookup_alter_ne by done.
  - cbn. intros k e He Hid. rewrite <- Hst. by eapply jw_entry_state.
Qed.

Lemma moved_wf id g h state db r :
  journal_wf db → jd_runs db !! id = Some r →
  run_evolves r (g r) → rn_state (g r) = state →
  (∀ e, same_slot e (h e) ∧ en_state (h e) = state) →
  journal_wf (moved id g h db).
Proof.
  intros W Hr Hg Hst Hh.
  eapply (relabel_wf db _ (λ k r, if bool_decide (k = id) then g r else r)
            (λ e, if bool_decide (en_run_id e = id) then h e else e)); cbn; [done|apply (jw_chunk _ W)|..].
  - intros k. case_bool_decide as Hk; [subst; by rewrite lookup_alter_eq|].
    rewrite lookup_alter_ne by done. by destruct (jd_runs db !! k).
  - intros k. by rewrite lookup_fmap.
  - done.
  - intros k r' Hr'. case_bool_decide as Hk; [subst; congruence|].
    destruct (jw_commit _ W _ _ Hr'). by split_and!.
  - intros e. case_bool_decide; [apply Hh|done].
  - intros k e r' He Hr'. case_bool_decide as Hid.
    + rewrite (proj2 (Hh e)). rewrite Hid in Hr'. congruence.
    + destruct (jw_entry _ W _ _ He) as (_ & _ & r'' & Hr'' & ->). congruence.
Qed.

(* ------------------------------------------------------------------ *)
(** ** Plans and their insertion *)

Definition entry_planned (run : ConsolidationRun) (e : ConsolidationEntryRecord) : Prop :=
  en_run_id e = rn_run_id run ∧ en_state e = Planned ∧ is_Some (en_candidate_chunk_id e).

Definition edge_planned (run : ConsolidationRun) (candidates : gset ChunkId) (rel : LineageRelation)
    (edge : MemoryLineage) : Prop :=
  ml_run_id edge = rn_run_id run ∧ ml_tenant_id edge = rn_tenant_id run ∧
  ml_project_id edge = rn_project_id run ∧ ml_relation edge = rel ∧
  ml_result_chunk_id edge ∈ candidates ∧ ml_source_chunk_id edge ≠ ml_result_chunk_id edge.

Ltac guard_false E :=
  rewrite ?orb_false_iff, ?negb_false_iff, ?bool_decide_eq_true, ?bool_decide_eq_false in E.

Lemma check_entries_sound run l I C I' C' :
  try_fold (check_entry run) l (I, C) = Ok (I', C') →
  Forall (entry_planned run) l ∧
  (∀ c, c ∈ C' ↔ c ∈ C ∨ ∃ e, e ∈ l ∧ en_candidate_chunk_id e = Some c).
Proof.
  revert I C. induction l as [|e l IH]; intros I C; cbn [try_fold].
  - intros [= <- <-]. split; [constructor|]. intros c. split; [by left|].
    intros [?|(e & He & _)]; [done|by apply not_elem_of_nil in He].
  - destruct (check_entry run (I, C) e) as [[I1 C1]|] eqn:E; [|done]. cbn [mbind result_bind].
    unfold check_entry in E. destruct (en_candidate_chunk_id e) as [c0|] eqn:Ec; [|done].
    cbn [ok_or mbind result_bind] in E.
    match type of E with (if ?b then _ else _) = _ => destruct b eqn:Eb end; [done|].
    injection E as <- <-. guard_false Eb. intros Hl. apply IH in Hl as [Hall Hmem]. split.
    + constructor; [|done]. split_and!; [tauto..|by exists c0].
    + intros c. rewrite Hmem, elem_of_union, elem_of_singleton. setoid_rewrite elem_of_cons. naive_solver.
Qed.

Lemma check_edges_sound run C l rel S st :
  try_fold (check_edge run C) l (rel, S) = Ok st →
  ∃ r, (rel = Some r ∨ (rel = None ∧ ∀ e, head l = Some e → r = ml_relation e)) ∧
       Forall (edge_planned run C r) l ∧ NoDup (map ml_source_chunk_id l) ∧
       ∀ e, e ∈ l → ml_source_chunk_id e ∉ S.
Proof.
  revert rel S. induction l as [|e l IH]; intros rel S; cbn [try_fold].
  - intros _. exists (default Supersedes rel). split_and!; [|done|constructor|].
    + destruct rel; [by left|right; split; [done|by intros ? [=]]].
    + intros e He. by apply not_elem_of_nil in He.
  - destruct (check_edge run C (rel, S) e) as [[rel1 S1]|] eqn:E; [|done]. cbn [mbind result_bind].
    unfold check_edge in E.
    match type of E with (if ?b then _ else _) = _ => destruct b eqn:Eb end; [done|].
    injection E as <- <-. guard_false Eb.
    intros Hl. apply IH in Hl as (r & [[= Hr]|[[=] _]] & Hall & Hnd & Hfresh).
    destruct Eb as [[[[[[H1 H2] H3] H4] H5] H6] H7].
    exists r. split_and!.
    + destruct rel as [r0|]; cbn in Hr; [left; congruence|right; split; [done|]].
      intros e' [= <-]. done.
    + constructor; [|done]. unfold edge_planned. by rewrite H4, Hr.
    + cbn. constructor; [|done]. intros (e' & Heq & He')%list_elem_of_fmap.
      apply (Hfresh e' He'). rewrite <- Heq. set_solver.
    + intros e' [->|He']%elem_of_cons; [done|]. specialize (Hfresh e' He'). set_solver.
Qed.

(** What a plan that passes validation guarantees. *)
Lemma plan_sound run entries lineage :
  validate_consolidation_plan run entries lineage = Ok () →
  rn_state run = Planned ∧ rn_sparse_cleanup_done run = false ∧ entries ≠ [] ∧ lineage ≠ [] ∧
  Forall (entry_planned run) entries ∧
  ∃ (C : gset ChunkId) rel,
    (∀ c, c ∈ C ↔ ∃ e, e ∈ entries ∧ en_candidate_chunk_id e = Some c) ∧
    Forall (edge_planned run C rel) lineage ∧ NoDup (map ml_source_chunk_id lineage) ∧
    ∀ c, c ∈ C → ∃ edge, edge ∈ lineage ∧ ml_result_chunk_id edge = c.
Proof.
  unfold validate_consolidation_plan.
  destruct (negb (bool_decide (rn_state run = Planned)) || rn_sparse_cleanup_done run) eqn:E1; [done|].
  guard_false E1.
  destruct (bool_decide (str_trim (rn_input_hash run) = ""%string) || bool_decide (entries = [])
            || bool_decide (lineage = [])) eqn:E2; [done|]. guard_false E2.
  destruct (try_fold (check_entry run) entries (∅, ∅)) as [[I C]|] eqn:E3; [|done].
  cbn [mbind result_bind].
  destruct (try_fold (check_edge run C) lineage (None, ∅)) as [st|] eqn:E4; [|done].
  cbn [mbind result_bind].
  destruct (existsb _ (elements C)) eqn:E5; [done|]. intros _.
  apply check_entries_sound in E3 as [Hall Hmem].
  apply check_edges_sound in E4 as (rel & _ & Hedges & Hnd & _).
  split_and!; try tauto. exists C, rel. split_and!; try done.
  - intros c. rewrite Hmem. set_solver.
  - intros c Hc. rewrite <- not_true_iff_false in E5.
    destruct (has_lineage lineage c) eqn:El.
    + apply existsb_exists in El as (edge & Hin & Heq%bool_decide_eq_true).
      exists edge. split; [by apply list_elem_of_In|done].
    + destruct E5. apply existsb_exists. exists c. split; [|by rewrite El].
      apply list_elem_of_In. by apply elem_of_elements.
Qed.

Definition entry_key (e : ConsolidationEntryRecord) : ConsolidationRunId * Z :=
  (en_run_id e, en_entry_index e).

Definition candidates_unique (entries : gmap (ConsolidationRunId * Z) ConsolidationEntryRecord)
    : Prop :=
  ∀ k1 k2 e1 e2 c, entries !! k1 = Some e1 → entries !! k2 = Some e2 →
    en_candidate_chunk_id e1 = Some c → en_candidate_chunk_id e2 = Some c → k1 = k2.

Lemma insert_entry_ok db e db' :
  insert_entry db e = Ok db' →
  db' = with_entries (<[entry_key e := e]> (jd_entries db)) db ∧
  jd_entries db !! entry_key e = None ∧
  ∀ c k e', en_candidate_chunk_id e = Some c → jd_entries db !! k = Some e' →
    en_candidate_chunk_id e' ≠ Some c.
Proof.
  unfold insert_entry. fold (entry_key e).
  destruct (jd_entries db !! entry_key e) eqn:E; [done|].
  destruct (en_candidate_chunk_id e) as [c0|]; [|intros [= <-]; naive_solver].
  case_bool_decide as Hc; [done|]. intros [= <-]. split_and!; [done..|].
  intros c k e' [= ->] Hk He'. apply Hc. apply elem_of_entry_candidates. eauto.
Qed.

Lemma insert_entries_ok l db db' :
  try_fold insert_entry l db = Ok db' →
  db' = with_entries (jd_entries db') db ∧
  (∀ k e, jd_entries db' !! k = Some e ↔
     jd_entries db !! k = Some e ∨ (e ∈ l ∧ k = entry_key e)) ∧
  (candidates_unique (jd_entries db) → candidates_unique (jd_entries db')).
Proof.
  revert db. induction l as [|e l IH]; intros db; cbn [try_fold].
  - intros [= <-]. split_and!; [by destruct db| |done]. intros k e. rewrite elem_of_nil. tauto.
  - destruct (insert_entry db e) as [db1|] eqn:E; [|done]. cbn [mbind result_bind].
    apply insert_entry_ok in E as (-> & Hnone & Hfresh). intros Hl.
    apply IH in Hl as (Hdb & Hmem & Huniq). split_and!.
    + by rewrite Hdb at 1.
    + intros k e'. rewrite Hmem. cbn [jd_entries with_entries]. rewrite elem_of_cons.
      destruct (decide (k = entry_key e)) as [->|Hne].
      * rewrite lookup_insert_eq, Hnone. split.
        -- intros [[= <-]|[Hin Hk]]; right; (split; [by (left + right)|done]).
        -- intros [[=]|[[->|Hin] Hk]]; [by left|by right].
      * rewrite lookup_insert_ne by done. split.
        -- intros [?|[? ?]]; [by left|right; split; [by right|done]].
        -- intros [?|[[->|?] ?]]; [by left|done|by right].
    + intros Hu. apply Huniq. intros k1 k2 e1 e2 c. cbn [jd_entries with_entries].
      intros [[<- <-]|[_ H1]]%lookup_insert_Some [[<- <-]|[_ H2]]%lookup_insert_Some C1 C2; [done|..].
      * by destruct (Hfresh c k2 e2 C1 H2).
      * by destruct (Hfresh c k1 e1 C2 H1).
      * eauto.
Qed.

Lemma insert_lineage_ok db e db' :
  insert_lineage db e = Ok db' → db' = with_lineage (jd_lineage db ++ [e]) db.
Proof. unfold insert_lineage. destruct (existsb _ (jd_lineage db)); congruence. Qed.

Lemma insert_lineages_ok l db db' :
  try_fold insert_lineage l db = Ok db' → db' = with_lineage (jd_lineage db ++ l) db.
Proof.
  revert db. induction l as [|e l IH]; intros db; cbn [try_fold].
  - intros [= <-]. rewrite app_nil_r. by destruct db.
  - destruct (insert_lineage db e) as [db1|] eqn:E; [|done]. cbn [mbind result_bind].
    apply insert_lineage_ok in E as ->. intros ->%IH. unfold with_lineage; cbn.
    by rewrite <- app_assoc.
Qed.

(* ------------------------------------------------------------------ *)
(** ** Beginning a run *)

(** The two outcomes of a successful begin: the plan is inserted as a whole,
    or an active run for the same input is there and nothing changes. *)
Definition begun (run : ConsolidationRun) (entries : list ConsolidationEntryRecord)
    (lineage : list MemoryLineage) (db db' : JournalDb) : Prop :=
  jd_chunks db' = jd_chunks db ∧
  jd_runs db' = <[rn_run_id run := run]> (jd_runs db) ∧
  jd_lineage db' = jd_lineage db ++ lineage ∧
  ∀ k e, jd_entries db' !! k = Some e ↔
    jd_entries db !! k = Some e ∨ (e ∈ entries ∧ k = entry_key e).

Lemma insert_or_ignore_fresh run db :
  select_runs (run_conflicts run) db = [] →
  ∀ id r, jd_runs db !! id = Some r →
    rn_run_id r ≠ rn_run_id run ∧
    (run_active run = true → run_active r = true → active_key r ≠ active_key run).
Proof.
  intros Hnil id r Hr.
  assert (Hc : run_conflicts run r ≠ true).
  { intros Hc. apply (not_elem_of_nil r). rewrite <- Hnil. apply elem_of_select_runs. eauto. }
  unfold run_conflicts in Hc. split.
  - intros Heq. apply Hc. by rewrite bool_decide_true.
  - intros Ha Hb Heq. apply Hc. by rewrite Ha, Hb, (bool_decide_true _ Heq), orb_true_r.
Qed.

Lemma begin_ok run entries lineage db run' db' :
  begin_consolidation_run run entries lineage db = Ok (run', db') →
  validate_consolidation_plan run entries lineage = Ok () ∧
  ((select_runs (run_conflicts run) db = [] ∧ run' = run ∧ begun run entries lineage db db' ∧
    (candidates_unique (jd_entries db) → candidates_unique (jd_entries db'))) ∨
   (db' = db ∧ find_consolidation_run_by_input (rn_tenant_id run) (rn_project_id run)
                 (rn_input_hash run) db = Some run')).
Proof.
  unfold begin_consolidation_run.
  destruct (validate_consolidation_plan run entries lineage) as [[]|]; [|done].
  cbn [mbind result_bind]. intros H. split; [done|]. revert H.
  unfold insert_or_ignore_run. destruct (select_runs (run_conflicts run) db) as [|r0 rs] eqn:Es.
  - change (1 =? 0) with false. cbn iota.
    destruct (try_fold insert_entry entries _) as [db2|] eqn:E2; [|done]. cbn [mbind result_bind].
    destruct (try_fold insert_lineage lineage db2) as [db3|] eqn:E3; [|done]. cbn [mbind result_bind].
    intros [= <- <-]. left. apply insert_lineages_ok in E3 as ->.
    apply insert_entries_ok in E2 as (Hdb2 & Hmem & Hu).
    split_and!; [done|done| |done].
    unfold begun. cbn [jd_chunks jd_runs jd_lineage jd_entries with_lineage].
    rewrite Hdb2. cbn. split_and!; [done..|]. exact Hmem.
  - change (0 =? 0) with true. cbn iota.
    destruct (find_consolidation_run_by_input _ _ _ db) as [r|]; [|done]. cbn.
    intros [= <- <-]. by right.
Qed.

(** An entry belongs to a run of the table, so a fresh run has none. *)
Lemma entry_of_run db k e :
  journal_wf db → jd_entries db !! k = Some e → is_Some (jd_runs db !! en_run_id e).
Proof. intros W He. destruct (jw_entry _ W _ _ He) as (_ & _ & r & -> & _). eauto. Qed.

Lemma lineage_of_run db e :
  journal_wf db → e ∈ jd_lineage db → is_Some (jd_runs db !! ml_run_id e).
Proof. intros W He. destruct (jw_lineage _ W _ He) as (_ & (r & -> & _) & _). eauto. Qed.

Section begin.
Context (run : ConsolidationRun) (entries : list ConsolidationEntryRecord)
  (lineage : list MemoryLineage) (db db' : JournalDb).
Context (W : journal_wf db) (Hplan : validate_consolidation_plan run entries lineage = Ok ())
  (Hfresh : select_runs (run_conflicts run) db = []) (Hb : begun run entries lineage db db').

Lemma begun_fresh_id : jd_runs db !! rn_run_id run = None.
Proof using W Hfresh.
  destruct (jd_runs db !! rn_run_id run) as [r|] eqn:E; [|done].
  destruct (insert_or_ignore_fresh run db Hfresh _ _ E) as [[] _]. by apply (jw_run _ W).
Qed.

Lemma begun_runs id r :
  jd_runs db' !! id = Some r ↔ (id = rn_run_id run ∧ r = run) ∨ jd_runs db !! id = Some r.
Proof using W Hplan Hfresh Hb.
  destruct Hb as (_ & -> & _). rewrite lookup_insert_Some. pose proof begun_fresh_id as Hf.
  split; [naive_solver|]. intros [[-> ->]|Hr]; [by left|]. right. split; [congruence|done].
Qed.

Lemma begun_entries_planned e : e ∈ entries → entry_planned run e.
Proof using Hplan.
  apply plan_sound in Hplan as (_ & _ & _ & _ & Hall & _). by apply Forall_forall.
Qed.

Lemma begun_wf : candidates_unique (jd_entries db') → journal_wf db'.
Proof using W Hplan Hfresh Hb.
  intros Hu. pose proof begun_fresh_id as Hid. pose proof begun_runs as HR.
  destruct (plan_sound _ _ _ Hplan)
    as (Hst & Hsd & Hne & _ & Hents & C & rel & HC & Hedges & Hnd & Hcov).
  destruct Hb as (Echunks & Eruns & Elin & Hmem). rewrite Forall_forall in Hents. rewrite Forall_forall in Hedges.
  assert (Hold : ∀ e, e ∈ jd_lineage db → ml_run_id e ≠ rn_run_id run).
  { intros e He Heq. destruct (lineage_of_run _ _ W He) as [r Hr]. congruence. }
  assert (Hedge_run : ∀ e, e ∈ lineage → ml_run_id e = rn_run_id run) by (intros; by apply Hedges).
  split.
  - rewrite Echunks. apply (jw_chunk _ W).
  - intros id r [[-> ->]|Hr]%HR; [done|]. by apply (jw_run _ W).
  - intros k e [He|[He ->]]%Hmem.
    + destruct (jw_entry _ W _ _ He) as (? & ? & r & Hr & ?). split_and!; [done..|].
      exists r. split; [|done]. apply HR. by right.
    + destruct (Hents e He) as (E1 & E2 & E3). split_and!; [done..|]. exists run.
      rewrite E1, E2, HR. auto.
  - exact Hu.
  - intros id1 id2 r1 r2 [[-> ->]|H1]%HR [[-> ->]|H2]%HR A1 A2 Hk; [done|..].
    + destruct (insert_or_ignore_fresh run db Hfresh _ _ H2) as [_ []]; auto.
    + destruct (insert_or_ignore_fresh run db Hfresh _ _ H1) as [_ []]; auto.
    + by eapply (jw_active _ W).
  - intros e. rewrite Elin. intros [He|He]%elem_of_app.
    + destruct (jw_lineage _ W _ He) as (? & (r & Hr & ?) & k & en & Hen & ?).
      split_and!; [done|exists r; split; [apply HR; by right|done]|].
      exists k, en. split; [apply Hmem; by left|done].
    + destruct (Hedges e He) as (E1 & E2 & E3 & _ & E5 & E6). split_and!; [done| |].
      * exists run. rewrite E1, HR. auto.
      * apply HC in E5 as (en & Hen & Hc). exists (entry_key en), en. split.
        -- apply Hmem. by right.
        -- destruct (Hents en Hen) as (-> & _). done.
  - intros e1 e2. rewrite Elin. intros [H1|H1]%elem_of_app [H2|H2]%elem_of_app Hrun.
    + by apply (jw_relation _ W).
    + destruct (Hold e1 H1). by rewrite Hrun, Hedge_run.
    + destruct (Hold e2 H2). by rewrite <- Hrun, Hedge_run.
    + destruct (Hedges e1 H1) as (_ & _ & _ & -> & _), (Hedges e2 H2) as (_ & _ & _ & -> & _). done.
  - rewrite Elin, map_app. apply NoDup_app. split_and!; [apply (jw_sources _ W)| |].
    + intros x (e1 & -> & H1)%list_elem_of_fmap (e2 & Heq & H2)%list_elem_of_fmap.
      injection Heq as Heq _. destruct (Hold e1 H1). by rewrite Heq, Hedge_run.
    + apply (NoDup_fmap_1 snd). by rewrite <- list_fmap_compose.
  - intros k e c [He|[He ->]]%Hmem Hc; rewrite Elin.
    + destruct (jw_covered _ W _ _ _ He Hc) as (edge & ? & ?). exists edge.
      split; [apply elem_of_app; by left|done].
    + destruct (Hcov c) as (edge & Hin & Hres); [apply HC; eauto|]. exists edge.
      destruct (Hents e He) as (-> & _). rewrite Hedge_run by done.
      split; [apply elem_of_app; by right|done].
  - intros id r [[-> ->]|Hr]%HR.
    + destruct entries as [|e es]; [done|]. exists (entry_key e), e. split.
      * apply Hmem. right. split; [by left|done].
      * apply Hents. by left.
    + destruct (jw_nonempty _ W _ _ Hr) as (k & e & He & ?). exists k, e. split; [|done].
      apply Hmem. by left.
  - intros id r [[-> ->]|Hr]%HR; [by rewrite Hst, Hsd|]. by apply (jw_commit _ W _ _ Hr).
Qed.

End begin.

Lemma begin_wf run entries lineage db run' db' :
  journal_wf db → begin_consolidation_run run entries lineage db = Ok (run', db') → journal_wf db'.
Proof.
  intros W H. apply begin_ok in H as (Hplan & [(Hf & _ & Hb & Hu)|[-> _]]); [|done].
  eapply begun_wf; [done..|]. apply Hu. exact (jw_candidate _ W).
Qed.

(* ------------------------------------------------------------------ *)
(** ** The statements that report whether they changed a row *)

Lemma request_snd id now db :
  (request_consolidation_promotion id now db).2 =
  (update_run id (run_in [Planned; CandidateWritten; Validated; FailedRecoverable])
      (λ r, set_run (rn_state r) (rn_validation_result r) (rn_error r)
              (rn_sparse_cleanup_done r) true now r) db).2.
Proof. unfold request_consolidation_promotion. by destruct (update_run _ _ _ _). Qed.

Lemma record_error_snd id now err db :
  (record_consolidation_recovery_error id now err db).2 =
  (update_run id (λ r, negb (run_in [Committed; Rejected; RolledBack] r))
      (λ r, set_run (rn_state r) (rn_validation_result r) (Some err)
              (rn_sparse_cleanup_done r) (rn_promotion_requested r) now r) db).2.
Proof. unfold record_consolidation_recovery_error. by destruct (update_run _ _ _ _). Qed.

Lemma cleanup_done_snd id now db :
  (mark_consolidation_sparse_cleanup_done id now db).2 =
  (update_run id (λ r, run_in [Committed] r && negb (rn_sparse_cleanup_done r))
      (λ r, set_run (rn_state r) (rn_validation_result r) (rn_error r) true
              (rn_promotion_requested r) now r) db).2.
Proof. unfold mark_consolidation_sparse_cleanup_done. by destruct (update_run _ _ _ _). Qed.

(* ------------------------------------------------------------------ *)
(** ** What the transactions do to the chunks, and the run of an input *)

Lemma move_entries_chunks id expected next error now db db' :
  move_entries id expected next error now db = Ok db' → jd_chunks db' = jd_chunks db.
Proof.
  unfold move_entries, update_entries. destruct (negb _); [done|]. by intros [= <-].
Qed.

Lemma transition_chunks id expected next now vr err b db db' :
  transition_consolidation_run id expected next now vr err db = Ok (b, db') →
  jd_chunks db' = jd_chunks db.
Proof.
  unfold transition_consolidation_run. destruct (update_run _ _ _ _) as [n db1] eqn:E.
  destruct (n =? 0); [by intros [_ <-]%Ok_pair_inj|].
  destruct (move_entries _ _ _ _ _ db1) as [db2|] eqn:E2; [|done]. intros [_ <-]%Ok_pair_inj.
  apply move_entries_chunks in E2 as ->.
  replace db1 with (update_run id (run_in [expected])
      (λ r, set_run next (coalesce_opt vr (rn_validation_result r)) err
              (rn_sparse_cleanup_done r) (rn_promotion_requested r) now r) db).2 by (by rewrite E).
  apply update_run_frame.
Qed.

Lemma terminate_chunks id expected terminal now err b db db' :
  terminate_consolidation_run id expected terminal now err db = Ok (b, db') →
  jd_chunks db' = jd_chunks db ∨
  ∃ db2, jd_chunks db2 = jd_chunks db ∧ db' = (hide_consolidation_candidates id now db2).2.
Proof.
  unfold terminate_consolidation_run. destruct (negb _); [done|].
  destruct (update_run _ _ _ _) as [n db1] eqn:E.
  destruct (n =? 0); [intros [_ <-]%Ok_pair_inj; by left|].
  destruct (move_entries _ _ _ _ _ db1) as [db2|] eqn:E2; [|done]. intros [_ <-]%Ok_pair_inj.
  right. exists db2. split; [|done]. apply move_entries_chunks in E2 as ->.
  replace db1 with (update_run id (run_in [expected])
      (λ r, set_run terminal (rn_validation_result r) (Some err)
                (rn_sparse_cleanup_done r) (rn_promotion_requested r) now r) db).2 by (by rewrite E).
  apply update_run_frame.
Qed.

Lemma find_run_spec t p h db r :
  find_consolidation_run_by_input t p h db = Some r →
  ∃ id, jd_runs db !! id = Some r ∧ rn_tenant_id r = t ∧ rn_project_id r = p ∧
        rn_input_hash r = h ∧ run_active r = true.
Proof.
  unfold find_consolidation_run_by_input. intros Hin%head_Some_elem_of.
  apply elem_of_select_runs in Hin as [Hc [id Hr]].
  rewrite !andb_true_iff, !bool_decide_eq_true in Hc. exists id. tauto.
Qed.

(** The unique index makes the answer unique. *)
Lemma find_run_unique id r db t p h :
  journal_wf db → jd_runs db !! id = Some r → run_active r = true →
  rn_tenant_id r = t → rn_project_id r = p → rn_input_hash r = h →
  find_consolidation_run_by_input t p h db = Some r.
Proof.
  intros W Hr Ha <- <- <-.
  destruct (find_consolidation_run_by_input _ _ _ db) as [r'|] eqn:E.
  - apply find_run_spec in E as (id' & Hr' & E1 & E2 & E3 & Ha').
    assert (id' = id) as -> by (eapply (jw_active _ W); eauto; unfold active_key; congruence).
    congruence.
  - unfold find_consolidation_run_by_input in E.
    destruct (select_runs _ db) as [|x l] eqn:Es; [|done].
    exfalso. apply (not_elem_of_nil r). rewrite <- Es. apply elem_of_select_runs.
    split; [|eauto]. by rewrite !bool_decide_true, Ha.
Qed.

(* ------------------------------------------------------------------ *)
(** ** The row codec *)

Section codec.
Context `{U : Uuid ChunkId} `{UL : !UuidLaws ChunkId}.
Context `{UR : Uuid ConsolidationRunId} `{URL : !UuidLaws ConsolidationRunId}.

Lemma ConsolidationState_from_to t s :
  ConsolidationState_from_str s = Ok t ↔ s = ConsolidationState_as_str t.
Proof. unfold ConsolidationState_from_str. enum_roundtrip. Qed.

Lemma LineageRelation_from_to t s :
  LineageRelation_from_str s = Ok t ↔ s = LineageRelation_as_str t.
Proof. unfold LineageRelation_from_str. enum_roundtrip. Qed.

(** The three row codecs are the identity on what the tables hold: tenants
    that pass validation and entry indexes that fit an [i64]. *)
Lemma journal_rows_roundtrip run entry edge :
  TenantId.validate (TenantId.as_str (rn_tenant_id run)) = Ok () →
  TenantId.validate (TenantId.as_str (ml_tenant_id edge)) = Ok () →
  0 ≤ en_entry_index entry < 2 ^ 63 →
  row_to_consolidation_run (run_params run) = Ok run ∧
  row_to_consolidation_entry (entry_params entry) = Ok entry ∧
  row_to_memory_lineage (lineage_params edge) = Ok edge.
Proof.
  intros Hr Hl Hi. split_and!.
  - unfold row_to_consolidation_run, run_params, run_id_parse. cbn [rr_run_id rr_tenant_id rr_state].
    rewrite uuid_roundtrip. cbn [ok_or convert mbind result_bind].
    unfold TenantId.new. rewrite Hr. cbn [convert mbind result_bind mret result_ret].
    rewrite (proj2 (ConsolidationState_from_to _ _) eq_refl). cbn [convert mbind result_bind].
    by destruct run as [? [] ? ? ? ? ? ? ? ? ? ? ? ? [] [] ? ?].
  - unfold row_to_consolidation_entry, entry_params, run_id_parse.
    cbn [er_run_id er_entry_index er_candidate_chunk_id er_state].
    rewrite uuid_roundtrip. cbn [ok_or convert mbind result_bind].
    rewrite parse_opt_roundtrip. cbn [convert mbind result_bind].
    assert (Has : as_i64 (en_entry_index entry) = en_entry_index entry).
    { unfold as_i64, wraps. change (2 ^ (64 - 1)) with (2 ^ 63). change (2 ^ 63) with 9223372036854775808 in *.
      rewrite Z.mod_small; lia. }
    rewrite Has. destruct (Z.ltb_spec (en_entry_index entry) 0); [lia|]. cbn [mbind result_bind].
    rewrite (proj2 (ConsolidationState_from_to _ _) eq_refl). cbn [convert mbind result_bind].
    by destruct entry.
  - unfold row_to_memory_lineage, lineage_params, run_id_parse, chunk_id_parse.
    cbn [lr_run_id lr_tenant_id lr_source_chunk_id lr_result_chunk_id lr_relation].
    rewrite !uuid_roundtrip. cbn [ok_or convert mbind result_bind].
    unfold TenantId.new. rewrite Hl. cbn [convert mbind result_bind mret result_ret].
    rewrite (proj2 (LineageRelation_from_to _ _) eq_refl). cbn [convert mbind result_bind].
    by destruct edge as [? [] ? ? ? ? ?].
Qed.

End codec.
