(* ===== verification/Promotion.v ===== *)
(** * Atomic promotion of a consolidation run

    What a promotion requires and what it does, as a condition and a function
    on the tables, and the proof that the transaction of Journal.v implements
    them: it commits exactly the promotable runs, whole, and refuses every
    other run without touching a row. *)

From S2P Require Import Prelude Crates Types Str Metadata MetadataFacts Fusion Journal JournalFacts.
From stdpp Require Import sorting.

Open Scope Z_scope.

(** [c] is the candidate of an entry of the run. *)
Definition candidate_of (id : ConsolidationRunId) (db : JournalDb) (c : ChunkId) : Prop :=
  ∃ k e, jd_entries db !! k = Some e ∧ en_run_id e = id ∧ en_candidate_chunk_id e = Some c.

(** The candidate rows are untouched, the sources are visible final heads. *)
Record promotable (id : ConsolidationRunId) (now_ms : Z) (db : JournalDb)
    (run : ConsolidationRun) : Prop := {
  pr_state : rn_state run = Validated;
  pr_requested : rn_promotion_requested run = true;
  pr_candidate c : candidate_of id db c → ∃ r, jd_chunks db !! c = Some r ∧
    r_tenant r = rn_tenant_id run ∧ r_status r = Candidate ∧
    cm_project_id (r_meta r) = rn_project_id run;
  pr_source e : e ∈ jd_lineage db → ml_run_id e = id → ∃ r,
    jd_chunks db !! ml_source_chunk_id e = Some r ∧ r_tenant r = rn_tenant_id run ∧
    source_drifted now_ms r = false ∧
    (ml_relation e = Supersedes → cm_project_id (r_meta r) = rn_project_id run);
}.

Definition run_candidates (id : ConsolidationRunId) (db : JournalDb) : gset ChunkId :=
  list_to_set (omap en_candidate_chunk_id (query_consolidation_entries id db)).

Definition superseded_row (edge : MemoryLineage) (now_ms : Z) (r : Row) : Row :=
  let l := r_lc r in
  set_row_meta (set_meta_lifecycle
    (mkLifecycle (lc_tier l) (lc_supersedes l) (Some (ml_result_chunk_id edge))
       (lc_expires_at_ms l) (lc_review_after_ms l) now_ms)
    (set_meta_status Superseded (r_meta r))) r.

(** The superseding edge of a source. *)
Definition superseding_edge (id : ConsolidationRunId) (db : JournalDb) (c : ChunkId)
    : option MemoryLineage :=
  List.find (λ e, bool_decide (ml_source_chunk_id e = c))
    (filter (λ e, ml_relation e = Supersedes) (query_memory_lineage id db)).

Definition promoted_row (id : ConsolidationRunId) (now_ms : Z) (db : JournalDb) (c : ChunkId)
    (r : Row) : Row :=
  if bool_decide (c ∈ run_candidates id db) then touch_status Final now_ms r
  else match superseding_edge id db c with
       | Some edge => superseded_row edge now_ms r
       | None => r
       end.

(** The tables after a promotion. *)
Definition promoted (id : ConsolidationRunId) (now_ms : Z) (db : JournalDb) : JournalDb :=
  with_chunks (map_imap (λ c r, Some (promoted_row id now_ms db c r)) (jd_chunks db))
    (moved id
       (λ r, set_run Committed (rn_validation_result r) None (rn_sparse_cleanup_done r)
               (rn_promotion_requested r) now_ms r)
       (λ e, set_entry Committed (en_validation_error e) now_ms e) db).

(* ------------------------------------------------------------------ *)
(** ** Helpers *)

Lemma elem_of_run_candidates id db c : c ∈ run_candidates id db ↔ candidate_of id db c.
Proof.
  unfold run_candidates. rewrite elem_of_list_to_set, list_elem_of_omap. split.
  - intros (e & [Hid [k Hk]]%elem_of_query_entries & Hc). by exists k, e.
  - intros (k & e & Hk & Hid & Hc). exists e. split; [|done]. apply elem_of_query_entries. eauto.
Qed.

Lemma length_filter_map {A B} (P : B → Prop) `{∀ b, Decision (P b)} (f : A → B) (l : list A) :
  length (filter P (map f l)) = length (filter (λ a, P (f a)) l).
Proof. induction l as [|a l IH]; [done|]. cbn [map]. rewrite !filter_cons. repeat case_decide; cbn; lia. Qed.

Lemma count_entries_length id db :
  count_entries id db = zlen (query_consolidation_entries id db).
Proof.
  unfold count_entries, query_consolidation_entries, zlen. f_equal.
  rewrite merge_sort_Permutation, length_filter_map, map_filter_alt.
  apply map_size_list_to_map.
  eapply sublist_NoDup; [apply (NoDup_fst_map_to_list (jd_entries db))|].
  apply fmap_sublist, sublist_filter.
Qed.

Lemma zlen_length {A} (l : list A) : zlen l = Z.of_nat (length l).
Proof. done. Qed.

Lemma NoDup_filter_map {A B} (f : A → B) (P : A → Prop) `{∀ a, Decision (P a)} (l : list A) :
  NoDup (map f l) → NoDup (map f (filter P l)).
Proof. intros Hnd. eapply sublist_NoDup; [exact Hnd|]. apply (fmap_sublist f), sublist_filter. Qed.

Lemma filter_all {A} (P : A → Prop) `{∀ a, Decision (P a)} (l : list A) :
  (∀ a, a ∈ l → P a) → filter P l = l.
Proof.
  induction l as [|a l IH]; intros Hall; [done|]. rewrite filter_cons_True by (apply Hall; by left).
  f_equal. apply IH. intros; apply Hall; by right.
Qed.

Lemma filter_none {A} (P : A → Prop) `{∀ a, Decision (P a)} (l : list A) :
  (∀ a, a ∈ l → ¬ P a) → filter P l = [].
Proof.
  induction l as [|a l IH]; intros Hall; [done|]. rewrite filter_cons_False by (apply Hall; by left).
  apply IH. intros; apply Hall; by right.
Qed.

(** The sources of one run are distinct. *)
Lemma lineage_sources_distinct id db :
  journal_wf db → NoDup (map ml_source_chunk_id (query_memory_lineage id db)).
Proof.
  intros W. unfold query_memory_lineage.
  assert (Hp : merge_sort by_result_source (filter (λ e, ml_run_id e = id) (jd_lineage db))
               ≡ₚ filter (λ e, ml_run_id e = id) (jd_lineage db)) by apply merge_sort_Permutation.
  rewrite (Permutation_map ml_source_chunk_id Hp).
  pose proof (NoDup_filter_map _ (λ e, ml_run_id e = id) _ (jw_sources _ W)) as Hnd.
  apply (NoDup_fmap_1 (pair id)).
  replace (pair id <$> map ml_source_chunk_id (filter (λ e, ml_run_id e = id) (jd_lineage db)))
    with (map (λ e, (ml_run_id e, ml_source_chunk_id e)) (filter (λ e, ml_run_id e = id) (jd_lineage db)));
    [done|].
  change (@fmap list _ ?A ?B) with (@map A B). rewrite map_map. apply map_ext_in.
  intros e He. apply list_elem_of_In, list_elem_of_filter in He as [-> _]. done.
Qed.

Lemma touch_status_status s now r : r_status (touch_status s now r) = s.
Proof. done. Qed.

Section hash_set.
Context {HI : HashIter ChunkId}.

Lemma elem_of_set_iter (s : gset ChunkId) c : c ∈ set_iter s ↔ c ∈ s.
Proof.
  unfold set_iter. rewrite (Permutation_map fst (hash_iter_perm (gset_to_gmap () s))).
  rewrite list_elem_of_fmap. split.
  - intros ([c' []] & -> & Hin%elem_of_map_to_list). by apply lookup_gset_to_gmap_Some in Hin as [? _].
  - intros Hc. exists (c, ()). split; [done|]. apply elem_of_map_to_list.
    by apply lookup_gset_to_gmap_Some.
Qed.

Lemma NoDup_set_iter (s : gset ChunkId) : NoDup (set_iter s).
Proof.
  unfold set_iter. rewrite (Permutation_map fst (hash_iter_perm (gset_to_gmap () s))).
  apply NoDup_fst_map_to_list.
Qed.

(* ------------------------------------------------------------------ *)
(** ** The checks of the transaction *)

Section run.
Context (id : ConsolidationRunId) (now : Z) (db : JournalDb) (run : ConsolidationRun).
Context (W : journal_wf db) (Hrun : jd_runs db !! id = Some run)
  (Hstate : rn_state run = Validated).

Let entries := query_consolidation_entries id db.
Let lineage := query_memory_lineage id db.
Let cids := run_candidates id db.

Definition candidate_or_zero (e : ConsolidationEntryRecord) : ChunkId :=
  default (mkChunkId 0) (en_candidate_chunk_id e).

Lemma run_entry e :
  e ∈ entries →
  en_state e = Validated ∧ en_candidate_chunk_id e = Some (candidate_or_zero e).
Proof using W Hrun Hstate.
  intros [Hid [k Hk]]%elem_of_query_entries. split.
  - rewrite <- Hstate. by eapply jw_entry_state.
  - destruct (jw_entry _ W _ _ Hk) as (_ & [c Hc] & _). unfold candidate_or_zero. by rewrite Hc.
Qed.

Lemma run_has_entry : ∃ e es, entries = e :: es.
Proof using W Hrun.
  destruct (jw_nonempty _ W _ _ Hrun) as (k & e & Hk & Hid).
  assert (He : e ∈ entries) by (apply elem_of_query_entries; eauto).
  destruct entries as [|e' es]; [by apply not_elem_of_nil in He|eauto].
Qed.

Lemma run_has_lineage : ∃ e es, lineage = e :: es.
Proof using W Hrun.
  destruct (jw_nonempty _ W _ _ Hrun) as (k & e & Hk & Hid).
  destruct (jw_entry _ W _ _ Hk) as (_ & [c Hc] & _).
  destruct (jw_covered _ W _ _ _ Hk Hc) as (edge & Hin & Hrid & _).
  assert (He : edge ∈ lineage) by (apply elem_of_query_lineage; split; [congruence|done]).
  destruct lineage as [|e' es]; [by apply not_elem_of_nil in He|eauto].
Qed.

Lemma collect_candidates :
  try_fold (λ acc e, c ← validated_candidate e; Ok (acc ++ [c])) entries [] =
    Ok (map candidate_or_zero entries) ∧
  list_to_set (map candidate_or_zero entries) = cids.
Proof using W Hrun Hstate.
  split.
  - rewrite (try_fold_collect validated_candidate entries [] candidate_or_zero); [done|].
    intros e He. destruct (run_entry e He) as [Hs Hc]. unfold validated_candidate.
    rewrite bool_decide_true by done. cbn [negb]. by rewrite Hc.
  - unfold cids, run_candidates. f_equal. fold entries.
    assert (Hall : ∀ e, e ∈ entries → en_candidate_chunk_id e = Some (candidate_or_zero e))
      by (intros e He; by apply run_entry).
    induction entries as [|e es IH]; [done|]. cbn. rewrite (Hall e) by (by left).
    f_equal. apply IH. intros e' He'. apply Hall. by right.
Qed.

Lemma check_candidate_iff c :
  c ∈ cids →
  check_candidate run lineage db () c = Ok () ↔
  ∃ r, jd_chunks db !! c = Some r ∧ r_tenant r = rn_tenant_id run ∧ r_status r = Candidate ∧
       cm_project_id (r_meta r) = rn_project_id run.
Proof using W.
  intros (k & e & Hk & Hid & Hc)%elem_of_run_candidates.
  assert (Hl : has_lineage lineage c = true).
  { destruct (jw_covered _ W _ _ _ Hk Hc) as (edge & Hin & Hrid & Hres).
    apply existsb_exists. exists edge. rewrite bool_decide_true by done. split; [|done].
    apply list_elem_of_In, elem_of_query_lineage. split; [congruence|done]. }
  unfold check_candidate, query_chunk. destruct (jd_chunks db !! c) as [r|]; cbn.
  2: { split; [done|]. by intros (? & ? & _). }
  case_bool_decide as Ht; cbn; [|split; [done|intros (? & [= <-] & ? & _); done]].
  rewrite Hl. cbn [negb]. unfold status_in.
  case_bool_decide as Hs; [apply list_elem_of_singleton in Hs|rewrite list_elem_of_singleton in Hs];
    cbn; [|split; [done|intros (? & [= <-] & _ & ? & _); done]].
  case_bool_decide as Hp; cbn; [split; [intros _; exists r; by split_and!|done]|]. split; [done|]. by intros (? & [= <-] & _ & _ & ?).
Qed.

Lemma check_source_iff first e :
  first ∈ lineage → e ∈ lineage →
  check_source run cids (ml_relation first) now db () e = Ok () ↔
  ∃ r, jd_chunks db !! ml_source_chunk_id e = Some r ∧ r_tenant r = rn_tenant_id run ∧
       source_drifted now r = false ∧
       (ml_relation e = Supersedes → cm_project_id (r_meta r) = rn_project_id run).
Proof using W Hrun.
  intros [Hf Hfin]%elem_of_query_lineage [He Hin]%elem_of_query_lineage.
  destruct (jw_lineage _ W _ Hin) as (_ & (r0 & Hr0 & Ht & Hp) & k & en & Hk & Hen & Hc).
  assert (r0 = run) as -> by congruence.
  assert (Hcand : ml_result_chunk_id e ∈ cids).
  { apply elem_of_run_candidates. exists k, en. split_and!; congruence. }
  assert (Hrel : ml_relation e = ml_relation first) by (apply (jw_relation _ W); [done..|congruence]).
  unfold check_source. rewrite (bool_decide_true _ Ht), (bool_decide_true _ Hp), (bool_decide_true _ Hcand).
  rewrite (bool_decide_true _ Hrel), Hrel. cbn [negb orb].
  unfold query_chunk. destruct (jd_chunks db !! ml_source_chunk_id e) as [r|]; cbn.
  2: { split; [done|]. by intros (? & ? & _). }
  destruct (decide (r_tenant r = rn_tenant_id run)) as [Hts|Hts];
    [rewrite (bool_decide_true _ Hts)|rewrite (bool_decide_false _ Hts)]; cbn;
    [|split; [done|intros (? & [= <-] & ? & _); done]].
  destruct (source_drifted now r) eqn:Hd; [split; [done|intros (? & [= <-] & _ & ? & _); congruence]|].
  case_bool_decide as Hs; cbn; [|split; [intros _; exists r; by split_and!|done]].
  case_bool_decide as Hpr; cbn; [split; [intros _; exists r; by split_and!|done]|].
  split; [done|]. intros (? & [= <-] & _ & _ & Hx). by destruct Hpr; apply Hx.
Qed.

(* ------------------------------------------------------------------ *)
(** ** The updates of the transaction *)

Lemma candidates_checked :
  (∀ c, c ∈ set_iter cids → check_candidate run lineage db () c = Ok ()) ↔
  (∀ c, candidate_of id db c → ∃ r, jd_chunks db !! c = Some r ∧
    r_tenant r = rn_tenant_id run ∧ r_status r = Candidate ∧
    cm_project_id (r_meta r) = rn_project_id run).
Proof using W.
  split; intros Hall c.
  - intros Hc%elem_of_run_candidates. apply check_candidate_iff; [done|].
    apply Hall. by apply elem_of_set_iter.
  - intros Hc%elem_of_set_iter. apply check_candidate_iff; [done|].
    apply Hall. by apply elem_of_run_candidates.
Qed.

Lemma sources_checked first :
  first ∈ lineage →
  (∀ e, e ∈ lineage → check_source run cids (ml_relation first) now db () e = Ok ()) ↔
  (∀ e, e ∈ jd_lineage db → ml_run_id e = id → ∃ r,
    jd_chunks db !! ml_source_chunk_id e = Some r ∧ r_tenant r = rn_tenant_id run ∧
    source_drifted now r = false ∧
    (ml_relation e = Supersedes → cm_project_id (r_meta r) = rn_project_id run)).
Proof using W Hrun.
  intros Hf. split; intros Hall e.
  - intros He Hid. assert (Hin : e ∈ lineage) by (by apply elem_of_query_lineage).
    by apply (check_source_iff first); [..|apply Hall].
  - intros Hin. apply (check_source_iff first); [done..|].
    apply elem_of_query_lineage in Hin as [? ?]. by apply Hall.
Qed.

(** The candidates become final. *)
Lemma candidates_promoted :
  promotable id now db run →
  ∃ chunks, try_fold (promote_candidate (rn_tenant_id run) now) (set_iter cids) (jd_chunks db) = Ok chunks ∧
    ∀ c, chunks !! c = (λ r, if bool_decide (c ∈ cids) then touch_status Final now r else r)
                         <$> jd_chunks db !! c.
Proof using W Hrun Hstate.
  intros P.
  destruct (updates_total (rn_tenant_id run) (λ c, c) (λ _, status_in [Candidate])
              (λ _, touch_status Final now) (StorageError "candidate could not be promoted for run")
              (set_iter cids) (jd_chunks db)) as (chunks & Hfold & Hlk).
  - rewrite map_id. apply NoDup_set_iter.
  - intros c Hc%elem_of_set_iter%elem_of_run_candidates.
    destruct (pr_candidate _ _ _ _ P c Hc) as (r & Hr & Ht & Hs & _).
    exists r. split; [done|]. apply matches_true. split; [done|]. apply status_in_true. rewrite Hs. by left.
  - exists chunks. split; [done|]. intros c. rewrite Hlk. f_equiv. unfold updated.
    destruct (List.find _ (set_iter cids)) as [c'|] eqn:E.
    + apply find_some in E as [Hin ->%bool_decide_eq_true].
      rewrite bool_decide_true; [done|]. by apply elem_of_set_iter, list_elem_of_In.
    + rewrite bool_decide_false; [done|]. intros Hc%elem_of_set_iter.
      apply list_elem_of_In in Hc. apply (find_none _ _ E) in Hc.
      by rewrite bool_decide_true in Hc.
Qed.

Lemma source_not_candidate e r :
  promotable id now db run → e ∈ lineage → jd_chunks db !! ml_source_chunk_id e = Some r →
  ml_source_chunk_id e ∉ cids.
Proof using W Hrun Hstate.
  intros P [Hid Hin]%elem_of_query_lineage Hr Hc%elem_of_run_candidates.
  destruct (pr_candidate _ _ _ _ P _ Hc) as (r1 & Hr1 & _ & Hs & _).
  destruct (pr_source _ _ _ _ P _ Hin Hid) as (r2 & Hr2 & _ & Hd & _).
  assert (r1 = r) as -> by congruence. assert (r2 = r) as -> by congruence.
  unfold source_drifted in Hd. guard_false Hd. destruct Hd as [[[Hd _] _] _].
  apply status_in_true in Hd. rewrite Hs in Hd. set_solver.
Qed.

(** The sources are superseded by their candidates. *)
Lemma sources_superseded first chunks :
  promotable id now db run → first ∈ lineage →
  (∀ c, chunks !! c = (λ r, if bool_decide (c ∈ cids) then touch_status Final now r else r)
                         <$> jd_chunks db !! c) →
  ∃ chunks', (if bool_decide (ml_relation first = Supersedes)
              then try_fold (supersede_source run now) lineage chunks else Ok chunks) = Ok chunks' ∧
    ∀ c, chunks' !! c = promoted_row id now db c <$> jd_chunks db !! c.
Proof using W Hrun Hstate.
  intros P Hf Hlk.
  assert (Hrel : ∀ e, e ∈ lineage → ml_relation e = ml_relation first).
  { intros e [He Hin]%elem_of_query_lineage. apply elem_of_query_lineage in Hf as [Hfid Hfin].
    apply (jw_relation _ W); [done..|congruence]. }
  assert (Hfilter : filter (λ e, ml_relation e = Supersedes) lineage =
                    if bool_decide (ml_relation first = Supersedes) then lineage else []).
  { case_bool_decide as Hs; [apply filter_all|apply filter_none]; intros e He; by rewrite Hrel. }
  assert (Hsource : ∀ e r, e ∈ lineage → jd_chunks db !! ml_source_chunk_id e = Some r →
            chunks !! ml_source_chunk_id e = Some r).
  { intros e r He Hr. rewrite Hlk, Hr. cbn. rewrite bool_decide_false; [done|].
    by eapply source_not_candidate. }
  unfold promoted_row, superseding_edge. fold lineage. rewrite Hfilter. case_bool_decide as Hs.
  - destruct (updates_total (rn_tenant_id run) ml_source_chunk_id
        (λ _ r, status_in [Final] r
            && bool_decide (cm_project_id (r_meta r) = rn_project_id run)
            && is_none (lc_superseded_by (r_lc r))
            && negb (bool_decide (lc_tier (r_lc r) = History))
            && negb (expired_by now r))
        (λ e r, superseded_row e now r) (StorageError "source could not be superseded for run")
        lineage chunks) as (chunks' & Hfold & Hlk').
    + by apply lineage_sources_distinct.
    + intros e He. pose proof He as [Hid Hin]%elem_of_query_lineage.
      destruct (pr_source _ _ _ _ P _ Hin Hid) as (r & Hr & Ht & Hd & Hp).
      exists r. split; [by apply Hsource|]. apply matches_true. split; [done|].
      rewrite bool_decide_true by (apply Hp; by rewrite Hrel).
      unfold source_drifted in Hd. guard_false Hd. destruct Hd as [[[-> ->] Ht'] ->].
      by rewrite bool_decide_false.
    + exists chunks'. split; [done|]. intros c. rewrite Hlk', Hlk.
      destruct (jd_chunks db !! c) as [r|] eqn:Hr; [|done]. cbn. f_equal. unfold updated.
      destruct (List.find _ lineage) as [e|] eqn:E.
      * pose proof E as E'. apply find_some in E' as [Hin He%bool_decide_eq_true].
        assert (Hc : c ∉ run_candidates id db).
        { rewrite <- He in Hr |- *. eapply source_not_candidate; [done| |done]. by apply list_elem_of_In. }
        unfold cids. by rewrite !(bool_decide_false _ Hc).
      * unfold cids. by case_bool_decide.
  - exists chunks. split; [done|]. exact Hlk.
Qed.

Lemma promote_promotable :
  promotable id now db run → rn_promotion_requested run = true →
  atomic_promote_consolidation_run id now db = Ok (PromotedNow, promoted id now db).
Proof using W Hrun Hstate.
  intros P Hreq. unfold atomic_promote_consolidation_run. rewrite Hrun. cbn [ok_or mbind result_bind].
  rewrite (bool_decide_false (rn_state run = Committed)) by (rewrite Hstate; done).
  rewrite (bool_decide_true _ Hstate), Hreq. cbn [negb].
  destruct run_has_entry as (e0 & es & He), run_has_lineage as (first & ls & Hl).
  pose proof collect_candidates as [Hcollect Hcids]. fold entries lineage.
  assert (Hf : first ∈ lineage) by (rewrite Hl; by left).
  rewrite He, Hl. rewrite <- He, <- Hl. rewrite Hcollect. cbn [mbind result_bind].
  rewrite Hcids.
  replace (try_fold (check_candidate run lineage db) (set_iter cids) ()) with (Ok () : memd_result ())
    by (symmetry; apply try_fold_unit_ok, candidates_checked, P).
  cbn [mbind result_bind].
  replace (try_fold (check_source run cids (ml_relation first) now db) lineage ())
    with (Ok () : memd_result ())
    by (symmetry; apply try_fold_unit_ok, sources_checked; [done|apply P]).
  cbn [mbind result_bind].
  destruct (candidates_promoted P) as (chunks & -> & Hlk). cbn [mbind result_bind].
  destruct (sources_superseded first chunks P Hf Hlk) as (chunks' & -> & Hlk'). cbn [mbind result_bind].
  rewrite update_entries_all.
  2: { cbn. intros k e Hk Hid. apply bool_decide_eq_true. rewrite <- Hstate. by eapply jw_entry_state. }
  change (count_entries id (with_chunks chunks' db)) with (count_entries id db).
  rewrite count_entries_length. fold entries. rewrite Z.eqb_refl. cbn [negb].
  rewrite update_run_spec. cbn [jd_runs with_entries with_chunks]. rewrite Hrun.
  replace (run_in [Validated] run) with true
    by (symmetry; apply run_in_true; rewrite Hstate; by left).
  change (1 =? 1) with true. cbn [negb]. f_equal. f_equal. unfold promoted, moved.
  unfold with_chunks, with_runs, with_entries. cbn. f_equal.
  - apply map_eq. intros c. rewrite Hlk', map_lookup_imap. by destruct (jd_chunks db !! c).
  - apply map_eq. intros k. destruct (decide (k = id)) as [->|Hne].
    + by rewrite lookup_insert_eq, lookup_alter_eq, Hrun.
    + by rewrite lookup_insert_ne, lookup_alter_ne.
Qed.

Lemma promote_ok_promotable x :
  rn_promotion_requested run = true → atomic_promote_consolidation_run id now db = Ok x →
  promotable id now db run.
Proof using W Hrun Hstate.
  intros Hreq. unfold atomic_promote_consolidation_run. rewrite Hrun. cbn [ok_or mbind result_bind].
  rewrite (bool_decide_false (rn_state run = Committed)) by (rewrite Hstate; done).
  rewrite (bool_decide_true _ Hstate), Hreq. cbn [negb].
  destruct run_has_entry as (e0 & es & He), run_has_lineage as (first & ls & Hl).
  pose proof collect_candidates as [Hcollect Hcids]. fold entries lineage.
  assert (Hf : first ∈ lineage) by (rewrite Hl; by left).
  rewrite He, Hl. rewrite <- He, <- Hl. rewrite Hcollect. cbn [mbind result_bind].
  rewrite Hcids.
  destruct (try_fold (check_candidate run lineage db) (set_iter cids) ()) as [[]|] eqn:E1;
    cbn [mbind result_bind]; [|done].
  destruct (try_fold (check_source run cids (ml_relation first) now db) lineage ()) as [[]|] eqn:E2;
    cbn [mbind result_bind]; [|done].
  intros _. split; [done..| |].
  - by apply candidates_checked, try_fold_unit_ok.
  - apply (sources_checked first Hf), try_fold_unit_ok. exact E2.
Qed.

End run.

(** The transaction, on every state of the run. *)
Lemma promotion_spec id now db :
  journal_wf db →
  match jd_runs db !! id with
  | None => ∃ err, atomic_promote_consolidation_run id now db = Err err
  | Some run =>
      if bool_decide (rn_state run = Committed)
      then atomic_promote_consolidation_run id now db = Ok (AlreadyCommitted, db)
      else (promotable id now db run →
            atomic_promote_consolidation_run id now db = Ok (PromotedNow, promoted id now db)) ∧
           (¬ promotable id now db run →
            ∃ err, atomic_promote_consolidation_run id now db = Err err)
  end.
Proof.
  intros W. destruct (jd_runs db !! id) as [run|] eqn:Hrun.
  2: { unfold atomic_promote_consolidation_run. rewrite Hrun. cbn. eauto. }
  case_bool_decide as Hc.
  { unfold atomic_promote_consolidation_run. rewrite Hrun. cbn. by rewrite bool_decide_true. }
  split.
  - intros P. apply (promote_promotable id now db run W Hrun); [apply P|done|apply P].
  - intros Hn. destruct (decide (rn_state run = Validated)) as [Hv|Hv].
    + destruct (rn_promotion_requested run) eqn:Hreq.
      { destruct (atomic_promote_consolidation_run id now db) as [x|err] eqn:E; [|eauto].
        destruct Hn. by eapply promote_ok_promotable. }
      unfold atomic_promote_consolidation_run. rewrite Hrun. cbn [ok_or mbind result_bind].
      rewrite (bool_decide_false _ Hc), (bool_decide_true _ Hv), Hreq. cbn. eauto.
    + unfold atomic_promote_consolidation_run. rewrite Hrun. cbn [ok_or mbind result_bind].
      rewrite (bool_decide_false _ Hc), (bool_decide_false _ Hv). cbn. eauto.
Qed.

(** Success means a commit, now or before. *)
Lemma promotion_ok id now outcome db db' :
  journal_wf db → atomic_promote_consolidation_run id now db = Ok (outcome, db') →
  (outcome = AlreadyCommitted ∧ db' = db ∧ rn_state <$> jd_runs db !! id = Some Committed) ∨
  (outcome = PromotedNow ∧
   ∃ run, jd_runs db !! id = Some run ∧ promotable id now db run ∧ db' = promoted id now db).
Proof.
  intros W E. pose proof E as E'. unfold atomic_promote_consolidation_run in E'.
  destruct (jd_runs db !! id) as [run|] eqn:Hrun; [|done]. cbn [ok_or mbind result_bind] in E'.
  case_bool_decide as Hc; [left; injection E' as <- <-; split_and!; [done..|cbn; congruence]|].
  case_bool_decide as Hv; [|done]. cbn [negb] in E'.
  destruct (rn_promotion_requested run) eqn:Hreq; [|done]. clear E'.
  pose proof (promote_ok_promotable id now db run W Hrun Hv _ Hreq E) as P.
  rewrite (promote_promotable id now db run W Hrun Hv P Hreq) in E. right. injection E as <- <-. eauto.
Qed.

(** A commit keeps the journal invariant. *)
Lemma promoted_wf id now db run :
  journal_wf db → jd_runs db !! id = Some run → promotable id now db run →
  journal_wf (promoted id now db).
Proof.
  intros W Hrun P. apply chunks_wf.
  - apply (moved_wf id _ _ Committed db run); [done|done| |done|by intros].
    split; [apply set_run_scope|]. cbn. split_and!; [|by intros; apply P|done].
    intros _. apply run_active_true. rewrite (pr_state _ _ _ _ P). done.
  - intros c r. rewrite map_lookup_imap. intros (r0 & Hr & [= <-])%bind_Some.
    transitivity (cm_chunk_id (r_meta r0)); [|by apply (jw_chunk _ W)]. unfold promoted_row.
    case_bool_decide; [done|]. by destruct (superseding_edge id db c).
Qed.

(** The rows of the candidates and of the superseded sources. *)
Lemma promoted_lookup id now db c :
  jd_chunks (promoted id now db) !! c = promoted_row id now db c <$> jd_chunks db !! c.
Proof. cbn. rewrite map_lookup_imap. by destruct (jd_chunks db !! c). Qed.

Lemma promoted_candidate id now db run c :
  promotable id now db run → candidate_of id db c →
  r_status <$> jd_chunks (promoted id now db) !! c = Some Final.
Proof.
  intros P Hc. destruct (pr_candidate _ _ _ _ P c Hc) as (r & Hr & _).
  rewrite promoted_lookup, Hr. cbn. unfold promoted_row.
  by rewrite bool_decide_true by by apply elem_of_run_candidates.
Qed.

Lemma promoted_source id now db run e :
  journal_wf db → jd_runs db !! id = Some run → promotable id now db run →
  e ∈ jd_lineage db → ml_run_id e = id → ml_relation e = Supersedes →
  (λ r, (r_status r, lc_superseded_by (r_lc r))) <$> jd_chunks (promoted id now db) !! ml_source_chunk_id e =
    Some (Superseded, Some (ml_result_chunk_id e)).
Proof.
  intros W Hrun P He Hid Hrel. destruct (pr_source _ _ _ _ P e He Hid) as (r & Hr & _).
  assert (Hin : e ∈ query_memory_lineage id db) by (by apply elem_of_query_lineage).
  pose proof (source_not_candidate id now db run W Hrun (pr_state _ _ _ _ P) e r P Hin Hr) as Hn.
  rewrite promoted_lookup, Hr. cbn. unfold promoted_row. rewrite (bool_decide_false _ Hn).
  unfold superseding_edge.
  assert (Hf : e ∈ filter (λ e, ml_relation e = Supersedes) (query_memory_lineage id db))
    by (by apply list_elem_of_filter).
  destruct (List.find _ (filter _ _)) as [e'|] eqn:E.
  - apply find_some in E as [Hin' Heq%bool_decide_eq_true].
    apply list_elem_of_In, list_elem_of_filter in Hin' as [_ Hin'].
    assert (e' = e) as ->; [|done].
    pose proof (lineage_sources_distinct id db W) as Hnd.
    apply list_elem_of_lookup in Hin as [i Hi], Hin' as [j Hj].
    assert (i = j) as ->; [|congruence].
    apply (NoDup_lookup _ i j (ml_source_chunk_id e) Hnd).
    + apply (list_lookup_fmap_Some_2 ml_source_chunk_id); eauto.
    + rewrite <- Heq. by apply list_lookup_fmap_Some_2.
  - apply list_elem_of_In in Hf. apply (find_none _ _ E) in Hf. by rewrite bool_decide_true in Hf.
Qed.

(** A row the promotion turns final was the candidate of the run, or final. *)
Lemma promoted_final id now db c r :
  jd_chunks db !! c = Some r → r_status (promoted_row id now db c r) = Final →
  candidate_of id db c ∨ r_status r = Final.
Proof.
  intros Hr. unfold promoted_row. case_bool_decide as Hc; [left; by apply elem_of_run_candidates|].
  destruct (superseding_edge id db c); [done|by right].
Qed.

End hash_set.
