(* ===== verification/JournalProps.v ===== *)
(** * The consolidation protocol

    The statements of the journal as steps, taken by any number of tasks in
    any order, with other writers changing the [chunks] table in between.
    The journal invariant, the state machine of a run and the visibility of
    candidates are proved for every such interleaving. *)

From S2P Require Import Prelude Crates Types Str Metadata MetadataFacts Fusion Journal JournalFacts Promotion.
From stdpp Require Import relations.

Open Scope Z_scope.

(** The transitions the service asks for (consolidate/service.rs). *)
Inductive guarded_transition : ConsolidationState → ConsolidationState → Prop :=
| tr_written : guarded_transition Planned CandidateWritten
| tr_validated : guarded_transition CandidateWritten Validated
| tr_retry : guarded_transition FailedRecoverable Validated
| tr_failed : guarded_transition Validated FailedRecoverable.
Inductive guarded_termination : ConsolidationState → ConsolidationState → Prop :=
| te_incomplete : guarded_termination Planned RolledBack
| te_invalid : guarded_termination CandidateWritten Rejected
| te_drifted : guarded_termination Validated Rejected.

(** The edges of the state machine. *)
Inductive run_edge : ConsolidationState → ConsolidationState → Prop :=
| edge_transition s s' : guarded_transition s s' → run_edge s s'
| edge_termination s s' : guarded_termination s s' → run_edge s s'
| edge_commit : run_edge Validated Committed.

Section steps.
Context {HI : HashIter ChunkId}.

(** One statement or transaction of the journal. *)
Inductive journal_op : JournalDb → JournalDb → Prop :=
| op_begin run entries lineage run' db db' :
    begin_consolidation_run run entries lineage db = Ok (run', db') → journal_op db db'
| op_transition id expected next now vr err b db db' :
    guarded_transition expected next →
    transition_consolidation_run id expected next now vr err db = Ok (b, db') → journal_op db db'
| op_terminate id expected terminal now err b db db' :
    guarded_termination expected terminal →
    terminate_consolidation_run id expected terminal now err db = Ok (b, db') → journal_op db db'
| op_request id now db :
    journal_op db (request_consolidation_promotion id now db).2
| op_record_error id now err db :
    journal_op db (record_consolidation_recovery_error id now err db).2
| op_cleanup_done id now db :
    journal_op db (mark_consolidation_sparse_cleanup_done id now db).2
| op_hide id now db : journal_op db (hide_consolidation_candidates id now db).2
| op_hide_terminal now db : journal_op db (hide_terminal_consolidation_candidates now db).2
| op_promote id now outcome db db' :
    atomic_promote_consolidation_run id now db = Ok (outcome, db') → journal_op db db'.

(** A step: an operation of the journal, or any other write to [chunks]. *)
Inductive journal_step : JournalDb → JournalDb → Prop :=
| step_op db db' : journal_op db db' → journal_step db db'
| step_chunks chunks db :
    (∀ c r, chunks !! c = Some r → cm_chunk_id (r_meta r) = c) →
    journal_step db (with_chunks chunks db).

(* ------------------------------------------------------------------ *)
(** ** Runs through one step *)

(** How an operation may change one run. *)
Definition run_step (r r' : ConsolidationRun) : Prop :=
  same_scope r r' ∧ (rn_state r' = rn_state r ∨ run_edge (rn_state r) (rn_state r')) ∧
  (rn_promotion_requested r = true → rn_promotion_requested r' = true).

Lemma run_step_refl r : run_step r r.
Proof. split_and!; [done|by left|done]. Qed.

Lemma update_run_step id cond f db k r :
  (∀ r, cond r = true → run_step r (f r)) →
  jd_runs db !! k = Some r →
  ∃ r', jd_runs (update_run id cond f db).2 !! k = Some r' ∧ run_step r r'.
Proof.
  intros Hf Hr. rewrite update_run_lookup, Hr. cbn. eexists. split; [done|].
  destruct (bool_decide (k = id)), (cond r) eqn:Ec; cbn; auto using run_step_refl.
Qed.

Lemma moved_step id g h db k r :
  (k = id → run_step r (g r)) → jd_runs db !! k = Some r →
  ∃ r', jd_runs (moved id g h db) !! k = Some r' ∧ run_step r r'.
Proof.
  intros Hg Hr. cbn. destruct (decide (k = id)) as [->|Hne].
  - rewrite lookup_alter_eq, Hr. eauto.
  - rewrite lookup_alter_ne, Hr by done. eauto using run_step_refl.
Qed.

Lemma op_run_step db db' k r :
  journal_wf db → journal_op db db' → jd_runs db !! k = Some r →
  ∃ r', jd_runs db' !! k = Some r' ∧ run_step r r'.
Proof.
  intros W Hop Hr. destruct Hop as [run entries lineage run' db db' E|id e n now vr err b db db' He E
    |id e n now err b db db' He E|id now db|id now err db|id now db|id now db|now db
    |id now o db db' E].
  - apply begin_ok in E as (_ & [(Hf & _ & (_ & -> & _) & _)|[-> _]]); [|eauto using run_step_refl].
    exists r. split; [|apply run_step_refl]. apply lookup_insert_Some. right. split; [|done].
    intros <-. destruct (insert_or_ignore_fresh run db Hf _ _ Hr) as [[] _]. by apply (jw_run _ W).
  - rewrite transition_spec in E by done. destruct (jd_runs db !! id) as [r0|] eqn:Hr0.
    2: { injection E as _ <-. eauto using run_step_refl. }
    case_bool_decide as Hs; injection E as _ <-; [|eauto using run_step_refl].
    apply moved_step; [|done]. intros ->. assert (r0 = r) as -> by congruence.
    split_and!; [done| |done]. right. cbn. rewrite Hs. by constructor.
  - assert (Ht : n ∈ [Rejected; RolledBack]) by (destruct He; set_solver).
    rewrite terminate_spec in E by done. destruct (jd_runs db !! id) as [r0|] eqn:Hr0.
    2: { injection E as _ <-. eauto using run_step_refl. }
    case_bool_decide as Hs; injection E as _ <-; [|eauto using run_step_refl].
    apply moved_step; [|done]. intros ->. assert (r0 = r) as -> by congruence.
    split_and!; [done| |done]. right. cbn. rewrite Hs. by apply edge_termination.
  - rewrite ?request_snd, ?record_error_snd, ?cleanup_done_snd. apply update_run_step; [|done]. intros r0 _. split_and!; [done|by left|done].
  - rewrite ?request_snd, ?record_error_snd, ?cleanup_done_snd. apply update_run_step; [|done]. intros r0 _. split_and!; [done|by left|done].
  - rewrite ?request_snd, ?record_error_snd, ?cleanup_done_snd. apply update_run_step; [|done]. intros r0 _. split_and!; [done|by left|done].
  - eauto using run_step_refl.
  - eauto using run_step_refl.
  - apply promotion_ok in E as [(_ & -> & _)|(_ & run & Hrun & P & ->)]; [eauto using run_step_refl| |done].
    apply (moved_step id _ _ db k r); [|done]. intros ->. assert (run = r) as -> by congruence.
    split_and!; [done| |done]. right. cbn. rewrite (pr_state _ _ _ _ P). apply edge_commit.
Qed.

(** Every operation keeps the invariant. *)
Lemma op_wf db db' : journal_wf db → journal_op db db' → journal_wf db'.
Proof.
  intros W Hop. destruct Hop as [run entries lineage run' db db' E|id e n now vr err b db db' He E
    |id e n now err b db db' He E|id now db|id now err db|id now db|id now db|now db
    |id now o db db' E].
  - by eapply begin_wf.
  - rewrite transition_spec in E by done. destruct (jd_runs db !! id) as [r|] eqn:Hr; [|congruence].
    case_bool_decide as Hs; [|congruence]. injection E as _ <-.
    pose proof (jw_commit _ W _ _ Hr) as [_ Hdone].
    apply (moved_wf id _ _ n db r); [done|done| |done|done].
    split_and!; [done|cbn..].
    + intros _. apply run_active_true. rewrite Hs. by destruct He.
    + by destruct He.
    + intros Hd. apply Hdone in Hd. rewrite Hs in Hd. by destruct He.
  - assert (Ht : n ∈ [Rejected; RolledBack]) by (destruct He; set_solver).
    rewrite terminate_spec in E by done. destruct (jd_runs db !! id) as [r|] eqn:Hr; [|congruence].
    case_bool_decide as Hs; [|congruence]. apply Ok_pair_inj in E as [_ <-]. apply hide_candidates_wf.
    pose proof (jw_commit _ W _ _ Hr) as [_ Hdone].
    apply (moved_wf id _ _ n db r); [done|done| |done|done].
    split_and!; [done|cbn..].
    + intros _. apply run_active_true. rewrite Hs. by destruct He.
    + by destruct He.
    + intros Hd. apply Hdone in Hd. rewrite Hs in Hd. by destruct He.
  - rewrite ?request_snd, ?record_error_snd, ?cleanup_done_snd. apply update_run_wf; [done|]. intros r _. split_and!; [done..|]. by left.
  - rewrite ?request_snd, ?record_error_snd, ?cleanup_done_snd. apply update_run_wf; [done|]. intros r _. split_and!; [done..|]. by left.
  - rewrite ?request_snd, ?record_error_snd, ?cleanup_done_snd. apply update_run_wf; [done|]. intros r [Hc _]%andb_true_iff. apply run_in_true in Hc.
    apply list_elem_of_singleton in Hc. split_and!; [done..|]. by right.
  - by apply hide_candidates_wf.
  - by apply hide_candidates_wf.
  - apply promotion_ok in E as [(_ & -> & _)|(_ & run & Hrun & P & ->)]; [done| |done].
    by eapply promoted_wf.
Qed.

Lemma step_wf db db' : journal_wf db → journal_step db db' → journal_wf db'.
Proof. intros W Hs. destruct Hs; [by eapply op_wf|by apply chunks_wf]. Qed.

Lemma steps_wf db db' : journal_wf db → rtc journal_step db db' → journal_wf db'.
Proof. intros W. induction 1 as [|db1 db2 db3 Hs _ IH]; eauto using step_wf. Qed.

(** Only a promotion makes a row final. *)
Lemma hide_final ids now db c r' :
  jd_chunks (hide_candidates ids now db).2 !! c = Some r' → r_status r' = Final →
  ∃ r, jd_chunks db !! c = Some r ∧ r_status r = Final.
Proof.
  cbn. rewrite lookup_fmap. intros (r & Hr & ->)%fmap_Some.
  destruct (hide_hit ids r); [done|]. eauto.
Qed.

Lemma op_final db db' c r' :
  journal_op db db' → jd_chunks db' !! c = Some r' → r_status r' = Final →
  (∃ r, jd_chunks db !! c = Some r ∧ r_status r = Final) ∨
  ∃ id now outcome, atomic_promote_consolidation_run id now db = Ok (outcome, db').
Proof.
  intros Hop Hr' Hf. destruct Hop as [run entries lineage run' db db' E|id e n now vr err b db db' He E
    |id e n now err b db db' He E|id now db|id now err db|id now db|id now db|now db
    |id now o db db' E]; [left..|right; eauto].
  - apply begin_ok in E as (_ & [(_ & _ & (Ec & _) & _)|[-> _]]); [rewrite <- Ec|]; eauto.
  - exists r'. split; [|done]. by rewrite <- (transition_chunks _ _ _ _ _ _ _ _ _ E).
  - destruct (terminate_chunks _ _ _ _ _ _ _ _ E) as [<-|(db1 & <- & ->)]; [eauto|].
    by eapply hide_final.
  - rewrite request_snd in Hr'. erewrite (proj1 (update_run_frame _ _ _ _)) in Hr'. eauto.
  - rewrite record_error_snd in Hr'. erewrite (proj1 (update_run_frame _ _ _ _)) in Hr'. eauto.
  - rewrite cleanup_done_snd in Hr'. erewrite (proj1 (update_run_frame _ _ _ _)) in Hr'. eauto.
  - by eapply hide_final.
  - by eapply hide_final.
Qed.

(* ------------------------------------------------------------------ *)
(** ** The properties of every interleaving *)

(** C27: the journal invariant.  Whatever the tasks do and in whatever order,
    the tables stay well formed: every entry is in the state of its run and
    has a candidate of its own, no two active runs share a scope and an
    input, lineage stays in the scope of its run, ends in its candidates,
    has one relation and claims each source once, and a run is committed
    only if its promotion was requested. *)
Theorem journal_invariant db : rtc journal_step journal_empty db → journal_wf db.
Proof. apply steps_wf, journal_wf_empty. Qed.

(** the state machine of a run.  From a well-formed journal, a run never
    disappears or changes its scope; its state moves only along the edges of
    the protocol, so a terminal state is final, and a requested promotion
    stays requested. *)
Theorem run_state_machine db db' id r :
  journal_wf db → rtc journal_step db db' → jd_runs db !! id = Some r →
  ∃ r', jd_runs db' !! id = Some r' ∧ same_scope r r' ∧
        rtc run_edge (rn_state r) (rn_state r') ∧
        (is_terminal (rn_state r) = true → rn_state r' = rn_state r) ∧
        (rn_promotion_requested r = true → rn_promotion_requested r' = true).
Proof.
  intros W Hsteps. revert r. induction Hsteps as [db|db1 db2 db3 Hs _ IH]; intros r Hr.
  { exists r. split_and!; done. }
  assert (∃ r2, jd_runs db2 !! id = Some r2 ∧ run_step r r2) as (r2 & Hr2 & Hsc & Hst & Hpr).
  { destruct Hs; [by eapply op_run_step|]. eauto using run_step_refl. }
  destruct (IH (step_wf _ _ W Hs) r2 Hr2) as (r3 & Hr3 & Hsc' & Hst' & Hterm & Hpr').
  exists r3. split_and!; [done| | | |auto].
  - destruct Hsc as (? & ? & ? & ?), Hsc' as (? & ? & ? & ?). split_and!; congruence.
  - destruct Hst as [Hst|Hst]; [by rewrite <- Hst|by eapply rtc_l].
  - intros Ht. destruct Hst as [Hst|Hst].
    + rewrite Hst in Hterm. auto.
    + destruct Hst as [? ? []|? ? []|]; done.
Qed.

(** candidates appear together.  If an operation of the journal makes a
    candidate chunk final, the operation is the promotion of a run that owns
    the chunk, is validated and has a durable promotion request; the
    operation commits the run with all of its entries, makes every candidate
    of the run final and supersedes every source it replaces. *)
Theorem candidates_appear_together db db' c r r' :
  journal_wf db → journal_op db db' →
  jd_chunks db !! c = Some r → r_status r = Candidate →
  jd_chunks db' !! c = Some r' → r_status r' = Final →
  ∃ id now run, jd_runs db !! id = Some run ∧ candidate_of id db c ∧
    promotable id now db run ∧ db' = promoted id now db ∧
    (∀ c1, candidate_of id db c1 →
       r_status <$> jd_chunks db' !! c1 = Some Final) ∧
    (∀ e, e ∈ jd_lineage db → ml_run_id e = id → ml_relation e = Supersedes →
       r_status <$> jd_chunks db' !! ml_source_chunk_id e = Some Superseded) ∧
    (rn_state <$> jd_runs db' !! id = Some Committed) ∧
    (∀ k en, jd_entries db' !! k = Some en → en_run_id en = id → en_state en = Committed).
Proof.
  intros W Hop Hr Hcand Hr' Hfin.
  destruct (op_final db db' c r' Hop Hr' Hfin) as [(r0 & Hr0 & Hs)|(id & now & o & E)];
    [congruence|].
  apply promotion_ok in E as [(_ & -> & _)|(_ & run & Hrun & P & ->)]; [congruence| |done].
  rewrite promoted_lookup, Hr in Hr'. injection Hr' as <-.
  exists id, now, run. split_and!; [done| |done|done|..].
  - destruct (promoted_final id now db c r Hr Hfin); [done|congruence].
  - intros c1 Hc1. by eapply promoted_candidate.
  - intros e He Hid Hrel. pose proof (promoted_source id now db run e W Hrun P He Hid Hrel) as Hx.
    destruct (jd_chunks (promoted id now db) !! ml_source_chunk_id e); cbn in *; congruence.
  - cbn. by rewrite lookup_alter_eq, Hrun.
  - intros k en. cbn. rewrite lookup_fmap. intros (e0 & He0 & ->)%fmap_Some Hid.
    case_bool_decide as Hd; [done|]. by destruct Hd.
Qed.

(** beginning is idempotent.  After a run was begun, beginning again with
    any plan for the same tenant, project and input returns that run and
    changes nothing. *)
Theorem begin_idempotent run entries lineage run2 entries2 lineage2 db db' run' :
  journal_wf db → begin_consolidation_run run entries lineage db = Ok (run', db') →
  validate_consolidation_plan run2 entries2 lineage2 = Ok () →
  rn_tenant_id run2 = rn_tenant_id run → rn_project_id run2 = rn_project_id run →
  rn_input_hash run2 = rn_input_hash run →
  begin_consolidation_run run2 entries2 lineage2 db' = Ok (run', db').
Proof.
  intros W E Hplan2 Ht Hp Hh. pose proof (begin_wf _ _ _ _ _ _ W E) as W'.
  apply begin_ok in E as (Hplan & Hcase).
  assert (∃ id, jd_runs db' !! id = Some run' ∧ rn_tenant_id run' = rn_tenant_id run ∧
            rn_project_id run' = rn_project_id run ∧ rn_input_hash run' = rn_input_hash run ∧
            run_active run' = true) as (id & Hr & E1 & E2 & E3 & Ha).
  { destruct Hcase as [(_ & -> & (_ & -> & _) & _)|[-> Hfind]].
    - exists (rn_run_id run). rewrite lookup_insert_eq. split_and!; try done.
      apply plan_sound in Hplan as (Hs & _). apply run_active_true. by rewrite Hs.
    - by apply find_run_spec in Hfind. }
  unfold begin_consolidation_run. rewrite Hplan2. cbn [mbind result_bind].
  assert (Hs2 : run_active run2 = true).
  { apply plan_sound in Hplan2 as (Hs & _). apply run_active_true. by rewrite Hs. }
  unfold insert_or_ignore_run. destruct (select_runs (run_conflicts run2) db') as [|r0 rs] eqn:Es.
  - destruct (insert_or_ignore_fresh run2 db' Es id run' Hr) as [_ []]; [done..|].
    unfold active_key. by rewrite E1, E2, E3, Ht, Hp, Hh.
  - change (0 =? 0) with true. cbn iota.
    rewrite (find_run_unique id run' db'); [done..|congruence|congruence|congruence].
Qed.

(** promotion is exact.  The transaction commits a run exactly when the
    run is validated with a durable request, every candidate is still the
    hidden row the journal planned and every source is still a visible final
    head in scope; the outcome is then the promotion of the whole run.  An
    already committed run is left alone, and every other call is refused
    without changing a table. *)
Theorem promotion_exact id now db :
  journal_wf db →
  (∀ db', atomic_promote_consolidation_run id now db = Ok (PromotedNow, db') ↔
     ∃ run, jd_runs db !! id = Some run ∧ promotable id now db run ∧ db' = promoted id now db) ∧
  (∀ db', atomic_promote_consolidation_run id now db = Ok (AlreadyCommitted, db') ↔
     rn_state <$> jd_runs db !! id = Some Committed ∧ db' = db).
Proof.
  intros W. pose proof (promotion_spec id now db W) as S. split; intros db'; split.
  - intros E. destruct (promotion_ok id now _ db db' W E) as [([=] & _)|(_ & run & ? & ? & ->)]. eauto.
  - intros (run & Hr & P & ->). rewrite Hr in S. rewrite bool_decide_false in S.
    + by apply S.
    + by rewrite (pr_state _ _ _ _ P).
  - intros E. by destruct (promotion_ok id now _ db db' W E) as [(_ & -> & Hc)|([=] & _)].
  - intros [Hc ->]. destruct (jd_runs db !! id) as [run|]; [|done]. cbn in Hc.
    rewrite bool_decide_true in S by congruence. done.
Qed.

End steps.

(* ------------------------------------------------------------------ *)
(** ** A run, from its plan to its commit *)

#[local] Instance journal_iter : HashIter ChunkId := forward_iter.

Definition ex_team : TenantId := TenantId.mk "team".
Definition ex_run_id : ConsolidationRunId := mkRunId 7.
Definition ex_row (c : ChunkId) (ord : Z) (s : ChunkStatus) : Row :=
  mkRow (mkMeta c ex_team (Some "p") 0 ord Summary s 5 "h" None LifecycleMetadata_default None Document)
    index_cols_default.
(** Two sources, and the candidate that replaces them. *)
Definition ex_chunks : ChunkTable :=
  <[mkChunkId 1 := ex_row (mkChunkId 1) 0 Final]>
  (<[mkChunkId 2 := ex_row (mkChunkId 2) 1 Final]>
  (<[mkChunkId 3 := ex_row (mkChunkId 3) 2 Candidate]> ∅)).
Definition ex_run : ConsolidationRun :=
  mkRun ex_run_id ex_team (Some "p") "input" Planned "cli" None None None None None None None None
    false true 10 10.
Definition ex_entries : list ConsolidationEntryRecord :=
  [mkEntry ex_run_id 0 (Some (mkChunkId 3)) "sources" Planned None 10 10].
Definition ex_lineage : list MemoryLineage :=
  [mkLineage ex_run_id ex_team (Some "p") (mkChunkId 1) (mkChunkId 3) Supersedes 10;
   mkLineage ex_run_id ex_team (Some "p") (mkChunkId 2) (mkChunkId 3) Supersedes 10].

Definition result_db {A} (r : memd_result (A * JournalDb)) (db : JournalDb) : JournalDb :=
  match r with Ok (_, db) => db | Err _ => db end.

Definition ex_db0 : JournalDb := with_chunks ex_chunks journal_empty.
Definition ex_db1 : JournalDb :=
  result_db (begin_consolidation_run ex_run ex_entries ex_lineage ex_db0) ex_db0.
Definition ex_db2 : JournalDb :=
  result_db (transition_consolidation_run ex_run_id Planned CandidateWritten 11 None None ex_db1) ex_db1.
Definition ex_db3 : JournalDb :=
  result_db (transition_consolidation_run ex_run_id CandidateWritten Validated 12 (Some "accepted")
               None ex_db2) ex_db2.
Definition ex_db4 : JournalDb :=
  result_db (atomic_promote_consolidation_run ex_run_id 13 ex_db3) ex_db3.

Lemma ex_begin : begin_consolidation_run ex_run ex_entries ex_lineage ex_db0 = Ok (ex_run, ex_db1).
Proof. vm_compute. reflexivity. Qed.
Lemma ex_promote : atomic_promote_consolidation_run ex_run_id 13 ex_db3 = Ok (PromotedNow, ex_db4).
Proof. vm_compute. reflexivity. Qed.

Lemma ex_chunks_keyed c r : ex_chunks !! c = Some r → cm_chunk_id (r_meta r) = c.
Proof.
  unfold ex_chunks. rewrite !lookup_insert_Some, lookup_empty.
  intros [[<- <-]|[_ [[<- <-]|[_ [[<- <-]|[_ [=]]]]]]]; done.
Qed.

Lemma ex_steps_begun : rtc journal_step journal_empty ex_db1.
Proof.
  eapply rtc_l; [apply (step_chunks ex_chunks), ex_chunks_keyed|].
  apply rtc_once, step_op. by eapply op_begin, ex_begin.
Qed.

Lemma ex_steps_validated : rtc journal_step ex_db1 ex_db3.
Proof.
  eapply rtc_l; [apply step_op; apply (op_transition ex_run_id Planned CandidateWritten 11 None None true
    _ ex_db2); [constructor|by vm_compute]|].
  apply rtc_once, step_op. apply (op_transition ex_run_id CandidateWritten Validated 12 (Some "accepted")
    None true _ ex_db3); [constructor|by vm_compute].
Qed.

Lemma ex_db3_wf : journal_wf ex_db3.
Proof.
  eapply steps_wf; [apply journal_wf_empty|].
  etrans; [apply ex_steps_begun|apply ex_steps_validated].
Qed.

Lemma journal_invariant_witness : journal_wf ex_db1.
Proof. apply journal_invariant. apply ex_steps_begun. Defined.

Lemma run_state_machine_witness :
  ∃ r', jd_runs ex_db3 !! ex_run_id = Some r' ∧ same_scope ex_run r' ∧
        rtc run_edge Planned (rn_state r') ∧
        (is_terminal Planned = true → rn_state r' = Planned) ∧
        (true = true → rn_promotion_requested r' = true).
Proof.
  apply (run_state_machine ex_db1 ex_db3 ex_run_id ex_run).
  - eapply steps_wf; [apply journal_wf_empty|apply ex_steps_begun].
  - apply ex_steps_validated.
  - vm_compute. reflexivity.
Defined.

Lemma candidates_appear_together_witness :
  ∃ id now run, jd_runs ex_db3 !! id = Some run ∧ candidate_of id ex_db3 (mkChunkId 3) ∧
    promotable id now ex_db3 run ∧ ex_db4 = promoted id now ex_db3 ∧
    (∀ c1, candidate_of id ex_db3 c1 → r_status <$> jd_chunks ex_db4 !! c1 = Some Final) ∧
    (∀ e, e ∈ jd_lineage ex_db3 → ml_run_id e = id → ml_relation e = Supersedes →
       r_status <$> jd_chunks ex_db4 !! ml_source_chunk_id e = Some Superseded) ∧
    (rn_state <$> jd_runs ex_db4 !! id = Some Committed) ∧
    (∀ k en, jd_entries ex_db4 !! k = Some en → en_run_id en = id → en_state en = Committed).
Proof.
  apply (candidates_appear_together ex_db3 ex_db4 (mkChunkId 3) (ex_row (mkChunkId 3) 2 Candidate)
           (touch_status Final 13 (ex_row (mkChunkId 3) 2 Candidate))).
  - apply ex_db3_wf.
  - by eapply op_promote, ex_promote.
  - vm_compute. reflexivity.
  - reflexivity.
  - vm_compute. reflexivity.
  - reflexivity.
Defined.

Lemma begin_idempotent_witness :
  begin_consolidation_run ex_run ex_entries ex_lineage ex_db1 = Ok (ex_run, ex_db1).
Proof.
  apply (begin_idempotent ex_run ex_entries ex_lineage ex_run ex_entries ex_lineage ex_db0 ex_db1 ex_run);
    [|apply ex_begin|vm_compute; reflexivity|reflexivity..].
  apply chunks_wf; [apply journal_wf_empty|apply ex_chunks_keyed].
Defined.

Lemma promotion_exact_witness :
  ∃ run, jd_runs ex_db3 !! ex_run_id = Some run ∧ promotable ex_run_id 13 ex_db3 run ∧
         ex_db4 = promoted ex_run_id 13 ex_db3.
Proof. apply (promotion_exact ex_run_id 13 ex_db3 ex_db3_wf). apply ex_promote. Defined.
