(* ===== verification/Consolidate.v ===== *)
(** * The staged consolidation service
    (src/crates/memd/src/consolidate/service.rs)

    Validation, promotion, recovery and review of consolidation runs, above
    the transactions of the journal and the reads of the tenant store.  The
    state puts the journal tables beside the store, whose world holds the
    [chunks] table; the audit files are read through a function, the clock
    is a sequence of readings, and the sparse index is a class with the one
    operation the service calls.  The dense index is outside, like in
    Persistent.v: [refresh_promoted_chunks], whose failure the code only
    logs, is left out. *)

From S2P Require Import Prelude Crates Types Str Files WalFormat WalReader SegmentFormat Segment.
From S2P Require Import Metadata TenantStore Persistent Fusion Bm25 Journal.
From stdpp Require Import sorting.
From Stdlib Require Import Ascii.

Open Scope Z_scope.

(** [serde_json::Value]; the text of a number is kept. *)
#[warnings="-register-all"]
Inductive JsonValue : Type :=
| JNull
| JBool (b : bool)
| JNumber (text : string)
| JString (s : string)
| JArray (l : list JsonValue)
| JObject (fields : list (string * JsonValue)).

(** [serde_json::from_slice] and [to_vec_pretty] for values. *)
Class JsonCodec : Type := {
  json_parse : list byte → option JsonValue;
  json_pretty : JsonValue → list byte;
}.

(** [Value::get] with a string, [as_str], [as_bool]. *)
Definition json_get (key : string) (v : JsonValue) : option JsonValue :=
  match v with
  | JObject fields => snd <$> List.find (λ kv, bool_decide (kv.1 = key)) fields
  | _ => None
  end.
Definition json_as_str (v : JsonValue) : option string :=
  match v with JString s => Some s | _ => None end.
Definition json_as_bool (v : JsonValue) : option bool :=
  match v with JBool b => Some b | _ => None end.

(* ------------------------------------------------------------------ *)
(** ** Paths *)

(** [Path::components] of a Unix path: the root, or a leading [.], then the
    parts between slashes; empty parts and later [.] parts are dropped. *)
Inductive Component : Type := RootDir | CurDir | ParentDir | Normal (name : string).

Definition split_slash (path : string) : list string :=
  foldr (λ c acc,
    if bool_decide (c = "/"%char) then ""%string :: acc
    else match acc with
         | part :: rest => String c part :: rest
         | [] => [String c ""]
         end) [""%string] (chars path).

Definition path_part (first : bool) (part : string) : list Component :=
  if bool_decide (part = ""%string) then []
  else if bool_decide (part = "."%string) then (if first then [CurDir] else [])
  else if bool_decide (part = ".."%string) then [ParentDir]
  else [Normal part].

Definition is_absolute (path : string) : bool := String.prefix "/" path.

Definition components (path : string) : list Component :=
  match split_slash path with
  | [] => []
  | part :: parts =>
      (if is_absolute path then [RootDir] else path_part true part)
      ++ mbind (path_part false) parts
  end.

Definition is_normal (c : Component) : bool := match c with Normal _ => true | _ => false end.

(* ------------------------------------------------------------------ *)
(** ** State *)

(** Outcomes and decisions. *)
Record ConsolidationExecution : Type := mkExecution {
  ce_run_id : ConsolidationRunId;
  ce_state : ConsolidationState;
  ce_candidate_chunk_ids : list ChunkId;
  ce_source_count : Z;
  ce_reused_existing_run : bool;
}.

Record ConsolidationRecovery : Type := mkRecovery {
  cr_inspected : Z;
  cr_committed : Z;
  cr_rolled_back : Z;
  cr_rejected : Z;
  cr_failed_recoverable : Z;
  cr_promoted_chunks : list (TenantId * ChunkId);
}.
Definition ConsolidationRecovery_default : ConsolidationRecovery := mkRecovery 0 0 0 0 0 [].

Inductive ConsolidationReviewDecision : Type := Accept | Reject.

Definition RECOVERY_MIN_AGE_MS : Z := 30000.
Definition ACTIVE_RUN_WAIT_ATTEMPTS : nat := 100.
Definition RAW_RESPONSE_AUDIT_MAX_BYTES : Z := 256 * 1024.

Record Svc (B TK X : Type) : Type := mkSvc {
  sv_store : St B TK;
  sv_runs : gmap ConsolidationRunId ConsolidationRun;
  sv_entries : gmap (ConsolidationRunId * Z) ConsolidationEntryRecord;
  sv_lineage : list MemoryLineage;
  sv_sparse : option X;
  sv_sparse_on_disk : bool;
  (** [std::fs::read] below the data directory, by the components of the path. *)
  sv_read : list Component → io_result (list byte);
  (** The readings of the clock that are left. *)
  sv_clock : nat → Z;
}.
Arguments mkSvc {B TK X}.
Arguments sv_store {B TK X}.
Arguments sv_runs {B TK X}.
Arguments sv_entries {B TK X}.
Arguments sv_lineage {B TK X}.
Arguments sv_sparse {B TK X}.
Arguments sv_sparse_on_disk {B TK X}.
Arguments sv_read {B TK X}.
Arguments sv_clock {B TK X}.

Section monad.
Context {B TK X : Type}.

Definition SM (A : Type) : Type := Svc B TK X → memd_result A * Svc B TK X.

#[global] Instance sm_ret : MRet SM := λ A a s, (Ok a, s).
#[global] Instance sm_bind : MBind SM := λ A C k m s,
  match m s with
  | (Ok a, s) => k a s
  | (Err e, s) => (Err e, s)
  end.
Definition sm_err {A} (e : MemdError) : SM A := λ s, (Err e, s).
Definition sm_lift {A} (r : memd_result A) : SM A := λ s, (r, s).
Definition sm_state : SM (Svc B TK X) := λ s, (Ok s, s).
(** The result of a computation whose error the caller inspects. *)
Definition sm_catch {A} (m : SM A) : SM (memd_result A) := λ s, let '(r, s) := m s in (Ok r, s).

(** The tables as the database connection sees them. *)
Definition journal_of (s : Svc B TK X) : JournalDb :=
  mkJournal (w_db (s_world (sv_store s))) (sv_runs s) (sv_entries s) (sv_lineage s).
Definition set_world_db (db : ChunkTable) (s : St B TK) : St B TK :=
  mkSt (s_store s) (with_db db (s_world s)) (s_trace s ++ [with_db db (s_world s)]).
Definition set_journal (db : JournalDb) (s : Svc B TK X) : Svc B TK X :=
  mkSvc (set_world_db (jd_chunks db) (sv_store s)) (jd_runs db) (jd_entries db) (jd_lineage db)
    (sv_sparse s) (sv_sparse_on_disk s) (sv_read s) (sv_clock s).

(** A transaction; an error drops it. *)
Definition sql {A} (f : JournalDb → memd_result (A * JournalDb)) : SM A :=
  λ s, match f (journal_of s) with
       | Ok (a, db) => (Ok a, set_journal db s)
       | Err e => (Err e, s)
       end.
(** A statement that does not fail. *)
Definition sql_exec {A} (f : JournalDb → A * JournalDb) : SM A := sql (λ db, Ok (f db)).
(** A query. *)
Definition query {A} (f : JournalDb → A) : SM A := λ s, (Ok (f (journal_of s)), s).

(** [now_ms()] *)
Definition now_ms : SM Z :=
  λ s, (Ok (sv_clock s 0%nat),
        mkSvc (sv_store s) (sv_runs s) (sv_entries s) (sv_lineage s) (sv_sparse s)
          (sv_sparse_on_disk s) (sv_read s) (λ n, sv_clock s (S n))).

(** An operation of the store. *)
Definition store_op {A} (m : M B TK A) : SM A :=
  λ s, let '(r, st) := m (sv_store s) in
       (r, mkSvc st (sv_runs s) (sv_entries s) (sv_lineage s) (sv_sparse s)
             (sv_sparse_on_disk s) (sv_read s) (sv_clock s)).

Definition set_sparse (x : X) : SM () :=
  λ s, (Ok (), mkSvc (sv_store s) (sv_runs s) (sv_entries s) (sv_lineage s) (Some x)
                 (sv_sparse_on_disk s) (sv_read s) (sv_clock s)).

(** [for x in l { acc = body(acc, x)? }] *)
Fixpoint sm_fold {A C} (body : C → A → SM C) (l : list A) (acc : C) : SM C :=
  match l with
  | [] => mret acc
  | x :: l => acc ← body acc x; sm_fold body l acc
  end.

End monad.
Arguments SM : clear implicits.

(* ------------------------------------------------------------------ *)
(** ** Hashes *)

Section hashes.
Context `{SHA : Sha256} `{UU : Uuid ChunkId}.

(** [len.to_le_bytes()] of a [u64]. *)
Fixpoint le_bytes (n : nat) (z : Z) : string :=
  match n with
  | O => ""
  | S n => String (ascii_of_N (Z.to_N (z mod 256))) (le_bytes n (z / 256))
  end.

(** What [hash_field] feeds the hasher. *)
Definition hash_field (bytes : string) : string :=
  le_bytes 8 (Z.of_nat (String.length bytes)) +:+ bytes.

Fixpoint hash_fields (l : list string) : string :=
  match l with [] => "" | x :: l => hash_field x +:+ hash_fields l end.

(** The zero byte that ends a domain tag. *)
Definition nul : string := String (ascii_of_N 0) "".

(** Iterating a [BTreeSet<ChunkId>]. *)
Definition chunk_le (a b : ChunkId) : Prop := (chunk_uuid a ≤ chunk_uuid b)%N.
#[global] Instance chunk_le_dec : RelDecision chunk_le.
Proof. intros a b. unfold chunk_le. apply _. Defined.
Definition btree_iter (s : gset ChunkId) : list ChunkId := merge_sort chunk_le (elements s).

Definition input_preimage (t : TenantId) (project_id : option string) (relation : LineageRelation)
    (source_ids : gset ChunkId) : string :=
  "memd-consolidation-input-v1" +:+ nul +:+
  hash_fields ([TenantId.as_str t; default ""%string project_id; LineageRelation_as_str relation]
               ++ map uuid_to_string (btree_iter source_ids)).

Definition consolidation_input_hash (t : TenantId) (project_id : option string)
    (relation : LineageRelation) (source_ids : gset ChunkId) : string :=
  sha256_hex (input_preimage t project_id relation source_ids).

Definition source_set_hash (source_ids : list ChunkId) : string :=
  sha256_hex ("memd-consolidation-source-set-v1" +:+ nul +:+
              hash_fields (map uuid_to_string (merge_sort chunk_le source_ids))).

End hashes.

(* ------------------------------------------------------------------ *)
(** ** The service *)

(** The parts of [ConsolidatedEntry] the planning reads. *)
Record ConsolidatedEntry : Type := mkConsolidated {
  ct_text : string;
  ct_supersedes : list string;
}.

Section service.
Context `{BO : ByteOrder} `{CRC : Crc32} `{RB : Roaring B} `{CAP : BufCap}.
Context `{BW : Bincode WalRecord} `{BM : Bincode SegmentMeta} `{JC : Json MemoryChunk}.
Context `{UU : Uuid ChunkId} `{UC : Unicode} `{TT : TaskTables TK} `{SHA : Sha256}.
Context `{JV : JsonCodec} `{ET : ErrorText} `{SI : SparseIndex X} {HI : HashIter ChunkId}.

Abbreviation S := (SM B TK X).

(** The two loops of [parse_unique_sources]. *)
Definition claim_source (s : gset ChunkId) (source : string) : memd_result (gset ChunkId) :=
  source_id ← chunk_id_parse source;
  if bool_decide (source_id ∈ s)
  then Err (ValidationError "source is claimed by two entries")
  else Ok ({[source_id]} ∪ s).
Definition claim_entry (s : gset ChunkId) (entry : ConsolidatedEntry) : memd_result (gset ChunkId) :=
  if bool_decide (str_trim (ct_text entry) = ""%string) || bool_decide (ct_supersedes entry = [])
  then Err (ValidationError "consolidation entries require text and source lineage")
  else try_fold claim_source (ct_supersedes entry) s.
Definition parse_unique_sources (entries : list ConsolidatedEntry) : memd_result (gset ChunkId) :=
  try_fold claim_entry entries ∅.

(** [get_consolidation_run(..)?.ok_or_else(..)?] *)
Definition require_run (id : ConsolidationRunId) : S ConsolidationRun :=
  run ← query (get_consolidation_run id);
  sm_lift (ok_or run (StorageError "missing consolidation run")).

Definition validate_raw_response_audit (run : ConsolidationRun) : S () :=
  relative ← sm_lift (ok_or (rn_audit_artifact_path run)
    (ValidationError "consolidation run has no raw-response audit artifact"));
  if is_absolute relative || existsb (λ c, negb (is_normal c)) (components relative)
  then sm_err (ValidationError "consolidation audit artifact path is not a safe relative path")
  else
    s ← sm_state;
    bytes ← sm_lift (lift_io (sv_read s (components relative)));
    if RAW_RESPONSE_AUDIT_MAX_BYTES <? zlen bytes
    then sm_err (ValidationError "consolidation audit artifact exceeds its bounded size")
    else
      artifact ← sm_lift (ok_or (json_parse bytes)
        (ValidationError "consolidation audit artifact is not valid JSON"));
      artifact_hash ← sm_lift (ok_or (json_get "response_sha256" artifact ≫= json_as_str)
        (ValidationError "consolidation audit artifact has no response hash"));
      if negb (bool_decide (rn_response_hash run = Some artifact_hash))
      then sm_err (ValidationError "consolidation audit response hash does not match its journal")
      else
        stored_response ← sm_lift (ok_or (json_get "raw_response" artifact ≫= json_as_str)
          (ValidationError "consolidation audit artifact has no stored response"));
        stored_hash ← sm_lift (ok_or (json_get "stored_response_sha256" artifact ≫= json_as_str)
          (ValidationError "consolidation audit artifact has no stored-response hash"));
        if negb (bool_decide (sha256_hex stored_response = stored_hash))
        then sm_err (ValidationError
               "consolidation audit stored-response hash does not match its body")
        else if bool_decide (json_get "truncated" artifact ≫= json_as_bool = Some false)
                && negb (bool_decide (artifact_hash = stored_hash))
        then sm_err (ValidationError
               "untruncated consolidation audit body does not match the journal response hash")
        else mret ().

(** The body of the loop of [validate_sources]. *)
Definition validate_source (t : TenantId) (project_id : option string)
    (relation : LineageRelation) (now_ms : Z) (db : ChunkTable) (_ : ()) (source_id : ChunkId)
    : memd_result () :=
  source ← ok_or (get t source_id db) (ValidationError "source is missing");
  if negb (bool_decide (cm_status source = Final))
     || negb (is_none (lc_superseded_by (cm_lifecycle source)))
     || bool_decide (lc_tier (cm_lifecycle source) = History)
     || match lc_expires_at_ms (cm_lifecycle source) with
        | Some expiry => expiry <=? now_ms
        | None => false
        end
  then Err (ValidationError "source is no longer a visible final head")
  else if bool_decide (relation = Supersedes)
          && negb (bool_decide (cm_project_id source = project_id))
  then Err (ValidationError "source escaped project consolidation scope")
  else Ok ().
Definition validate_sources (t : TenantId) (project_id : option string)
    (relation : LineageRelation) (source_ids : gset ChunkId) (now_ms : Z) (db : ChunkTable)
    : memd_result () :=
  try_fold (validate_source t project_id relation now_ms db) (btree_iter source_ids) ().

(** The body of the loop of [validate_candidate_run]. *)
Definition validate_candidate (run : ConsolidationRun) (_ : ()) (entry : ConsolidationEntryRecord)
    : S () :=
  candidate_id ← sm_lift (ok_or (en_candidate_chunk_id entry)
    (ValidationError "consolidation entry has no candidate id"));
  metadata ← query (λ db, get (rn_tenant_id run) candidate_id (jd_chunks db));
  metadata ← sm_lift (ok_or metadata (ValidationError "candidate metadata is missing"));
  if negb (bool_decide (cm_status metadata = Candidate))
     || negb (bool_decide (cm_project_id metadata = rn_project_id run))
  then sm_err (ValidationError "candidate metadata escaped its journal scope")
  else
    payload ← store_op (get_chunk (rn_tenant_id run) candidate_id);
    if is_none payload
    then sm_err (ValidationError "candidate payload is missing")
    else mret ().

(** [lineage.iter().map(|edge| edge.source_chunk_id)] as a [BTreeSet]. *)
Definition lineage_sources (lineage : list MemoryLineage) : gset ChunkId :=
  list_to_set (map ml_source_chunk_id lineage).

Definition validate_candidate_run (run : ConsolidationRun) : S () :=
  validate_raw_response_audit run;;
  entries ← query (query_consolidation_entries (rn_run_id run));
  if bool_decide (entries = [])
  then sm_err (ValidationError "consolidation run has no candidate entries")
  else
    sm_fold (validate_candidate run) entries ();;
    lineage ← query (query_memory_lineage (rn_run_id run));
    relation ← sm_lift (ok_or (ml_relation <$> head lineage)
      (ValidationError "consolidation run has no lineage"));
    now ← now_ms;
    db ← query jd_chunks;
    sm_lift (validate_sources (rn_tenant_id run) (rn_project_id run) relation
               (lineage_sources lineage) now db).

(** [promote_validated_run], without the refresh of the dense index, whose
    result it drops. *)
Definition promote_validated_run (run : ConsolidationRun) : S PromotionOutcome :=
  validate_raw_response_audit run;;
  now ← now_ms;
  sql (atomic_promote_consolidation_run (rn_run_id run) now).

Definition classify_promotion_failure (run : ConsolidationRun) (promotion_error : MemdError)
    : S () :=
  validation_result ← sm_catch (validate_candidate_run run);
  match validation_result with
  | Err (ValidationError reason) =>
      now ← now_ms;
      _ ← sql (terminate_consolidation_run (rn_run_id run) Validated Rejected now
                 ("promotion rejected after source/candidate drift: " +:+ reason));
      mret ()
  | validation_result =>
      let detail :=
        match validation_result with
        | Ok _ => error_to_string promotion_error
        | Err validation_error =>
            "promotion failed: " +:+ error_to_string promotion_error
            +:+ "; validation retry failed: " +:+ error_to_string validation_error
        end in
      now ← now_ms;
      _ ← sql (transition_consolidation_run (rn_run_id run) Validated FailedRecoverable now
                 None (Some detail));
      mret ()
  end.

Definition execution_from_journal (id : ConsolidationRunId) (source_count : Z)
    (reused_existing_run : bool) : S ConsolidationExecution :=
  run ← require_run id;
  entries ← query (query_consolidation_entries id);
  mret (mkExecution id (rn_state run) (omap en_candidate_chunk_id entries) source_count
          reused_existing_run).

(* ------------------------------------------------------------------ *)
(** ** Cleaning the sparse index *)

Definition cleanup_source (t : TenantId) (complete : bool) (source_id : ChunkId) : S bool :=
  s ← sm_state;
  match sv_sparse s with
  | None => mret complete
  | Some sparse =>
      let '(result, sparse) := sparse_delete t source_id sparse in
      set_sparse sparse;;
      mret (complete && is_ok result)
  end.

Definition cleanup_superseded_sparse_rows (t : TenantId) (relation : LineageRelation)
    (source_ids : gset ChunkId) : S bool :=
  if negb (bool_decide (relation = Supersedes)) then mret true
  else
    s ← sm_state;
    match sv_sparse s with
    | None => mret (negb (sv_sparse_on_disk s))
    | Some _ => sm_fold (cleanup_source t) (btree_iter source_ids) true
    end.

Definition finish_sparse_cleanup_for_run (id : ConsolidationRunId) (t : TenantId)
    (relation : LineageRelation) (source_ids : gset ChunkId) : S () :=
  complete ← cleanup_superseded_sparse_rows t relation source_ids;
  if complete : bool then
    now ← now_ms;
    _ ← sql_exec (mark_consolidation_sparse_cleanup_done id now);
    mret ()
  else mret ().

(** The closure of [finish_pending_sparse_cleanup], and the same lines of
    [recover_one_run]: clean up after the lineage of a committed run. *)
Definition cleanup_committed (id : ConsolidationRunId) (t : TenantId) : S () :=
  lineage ← query (query_memory_lineage id);
  relation ← sm_lift (ok_or (ml_relation <$> head lineage)
    (StorageError "consolidation run has no lineage"));
  finish_sparse_cleanup_for_run id t relation (lineage_sources lineage).

Definition finish_pending_sparse_cleanup (limit : Z) : S () :=
  s ← sm_state;
  if is_none (sv_sparse s) && sv_sparse_on_disk s then mret ()
  else
    runs ← query (list_consolidation_runs_pending_sparse_cleanup limit);
    sm_fold (λ _ run, _ ← sm_catch (cleanup_committed (rn_run_id run) (rn_tenant_id run)); mret ())
      runs ().

(* ------------------------------------------------------------------ *)
(** ** Recovery *)

(** The loop that counts the candidates whose row and payload are there. *)
Definition count_present (run : ConsolidationRun) (present : Z)
    (entry : ConsolidationEntryRecord) : S Z :=
  match en_candidate_chunk_id entry with
  | None => mret present
  | Some candidate_id =>
      metadata ← query (λ db, get (rn_tenant_id run) candidate_id (jd_chunks db));
      if is_none metadata then mret present
      else
        payload ← store_op (get_chunk (rn_tenant_id run) candidate_id);
        mret (if is_none payload then present else present + 1)
  end.

(** The three stages of [recover_one_run] before the promotion; [None] is an
    early [return Ok(())]. *)
Definition recover_planned (run : ConsolidationRun) : S (option ConsolidationState) :=
  let id := rn_run_id run in
  entries ← query (query_consolidation_entries id);
  present ← sm_fold (count_present run) entries 0;
  now ← now_ms;
  if negb (present =? zlen entries) then
    _ ← sql (terminate_consolidation_run id Planned RolledBack now
               "recovery found an incomplete candidate payload set");
    mret None
  else
    changed ← sql (transition_consolidation_run id Planned CandidateWritten now None None);
    mret (if changed : bool then Some CandidateWritten else None).

Definition recover_written (run : ConsolidationRun)
    : S (option (ConsolidationState * ConsolidationRun)) :=
  let id := rn_run_id run in
  validated ← sm_catch (validate_candidate_run run);
  match validated with
  | Err (ValidationError _ as error) =>
      now ← now_ms;
      _ ← sql (terminate_consolidation_run id CandidateWritten Rejected now
                 (error_to_string error));
      mret None
  | Err error => sm_err error
  | Ok _ =>
      now ← now_ms;
      changed ← sql (transition_consolidation_run id CandidateWritten Validated now
                       (Some "accepted during recovery"%string) None);
      if changed : bool then
        current ← require_run id;
        mret (Some (Validated, current))
      else mret None
  end.

Definition recover_failed (run : ConsolidationRun)
    : S (option (ConsolidationState * ConsolidationRun)) :=
  let id := rn_run_id run in
  now ← now_ms;
  changed ← sql (transition_consolidation_run id FailedRecoverable Validated now
                   (Some "retrying promotion"%string) None);
  if changed : bool then
    current ← require_run id;
    mret (Some (Validated, current))
  else mret None.

Definition recover_validated (run current_run : ConsolidationRun) : S () :=
  if negb (rn_promotion_requested current_run) then mret ()
  else
    promoted ← sm_catch (promote_validated_run current_run);
    match promoted with
    | Ok _ => cleanup_committed (rn_run_id run) (rn_tenant_id run)
    | Err error => classify_promotion_failure current_run error
    end.

Definition recover_one_run (run : ConsolidationRun) : S () :=
  current_run ← require_run (rn_run_id run);
  let state := rn_state current_run in
  state ← (if bool_decide (state = Planned) then recover_planned run else mret (Some state));
  match state with
  | None => mret ()
  | Some state =>
      next ← (if bool_decide (state = CandidateWritten) then recover_written run
              else mret (Some (state, current_run)));
      match next with
      | None => mret ()
      | Some (state, current_run) =>
          next ← (if bool_decide (state = FailedRecoverable) then recover_failed run
                  else mret (Some (state, current_run)));
          match next with
          | None => mret ()
          | Some (state, current_run) =>
              if bool_decide (state = Validated) then recover_validated run current_run
              else mret ()
          end
      end
  end.

Definition count_state (state : ConsolidationState) (promoted : list (TenantId * ChunkId))
    (r : ConsolidationRecovery) : ConsolidationRecovery :=
  match state with
  | Committed =>
      mkRecovery (cr_inspected r) (cr_committed r + 1) (cr_rolled_back r) (cr_rejected r)
        (cr_failed_recoverable r) (cr_promoted_chunks r ++ promoted)
  | RolledBack =>
      mkRecovery (cr_inspected r) (cr_committed r) (cr_rolled_back r + 1) (cr_rejected r)
        (cr_failed_recoverable r) (cr_promoted_chunks r)
  | Rejected =>
      mkRecovery (cr_inspected r) (cr_committed r) (cr_rolled_back r) (cr_rejected r + 1)
        (cr_failed_recoverable r) (cr_promoted_chunks r)
  | FailedRecoverable =>
      mkRecovery (cr_inspected r) (cr_committed r) (cr_rolled_back r) (cr_rejected r)
        (cr_failed_recoverable r + 1) (cr_promoted_chunks r)
  | _ => r
  end.

(** The promoted chunks of a run in state [Committed]. *)
Definition promoted_chunks (run : ConsolidationRun) (state : ConsolidationState)
    : S (list (TenantId * ChunkId)) :=
  if bool_decide (state = Committed) then
    entries ← query (query_consolidation_entries (rn_run_id run));
    mret (map (pair (rn_tenant_id run)) (omap en_candidate_chunk_id entries))
  else mret [].

(** The body of the loop of [recover_consolidation_runs_before]. *)
Definition recover_step (r : ConsolidationRecovery) (run : ConsolidationRun)
    : S ConsolidationRecovery :=
  let r := mkRecovery (cr_inspected r + 1) (cr_committed r) (cr_rolled_back r) (cr_rejected r)
             (cr_failed_recoverable r) (cr_promoted_chunks r) in
  result ← sm_catch (recover_one_run run);
  match result with
  | Err error =>
      post_state ← query (λ db, rn_state <$> get_consolidation_run (rn_run_id run) db);
      match post_state with
      | Some (Committed as state) | Some (Rejected as state) | Some (RolledBack as state) =>
          promoted ← promoted_chunks run state;
          mret (count_state state promoted r)
      | _ =>
          now ← now_ms;
          _ ← sm_catch (sql_exec (record_consolidation_recovery_error (rn_run_id run) now
                                    (error_to_string error)));
          mret (count_state FailedRecoverable [] r)
      end
  | Ok _ =>
      current ← require_run (rn_run_id run);
      promoted ← promoted_chunks run (rn_state current);
      mret (count_state (rn_state current) promoted r)
  end.

Definition recover_consolidation_runs_before (limit updated_before_ms : Z)
    : S ConsolidationRecovery :=
  store_op (ensure_writable "recover_consolidation_runs");;
  now ← now_ms;
  _ ← sql_exec (hide_terminal_consolidation_candidates now);
  finish_pending_sparse_cleanup limit;;
  runs ← query (list_recoverable_consolidation_runs_before limit updated_before_ms);
  sm_fold recover_step runs ConsolidationRecovery_default.

Definition recover_consolidation_runs (limit : Z) : S ConsolidationRecovery :=
  now ← now_ms;
  recover_consolidation_runs_before limit (now - RECOVERY_MIN_AGE_MS).

(* ------------------------------------------------------------------ *)
(** ** Review *)

Definition review_consolidation_run (id : ConsolidationRunId)
    (decision : ConsolidationReviewDecision) : S ConsolidationExecution :=
  run ← query (get_consolidation_run id);
  run ← sm_lift (ok_or run (ValidationError "unknown consolidation run"));
  lineage ← query (query_memory_lineage id);
  let source_count := Z.of_nat (size (lineage_sources lineage)) in
  match decision with
  | Accept =>
      if bool_decide (rn_state run = Committed)
      then execution_from_journal id source_count true
      else if negb (bool_decide (rn_state run = Validated))
      then sm_err (ValidationError "consolidation run cannot be accepted from its state")
      else
        now ← now_ms;
        requested_now ← sql_exec (request_consolidation_promotion id now);
        early ← (if requested_now : bool then mret None
                 else
                   current ← require_run id;
                   if bool_decide (rn_state current = Committed) then
                     execution ← execution_from_journal id source_count true;
                     mret (Some execution)
                   else if negb (bool_decide (rn_state current = Validated))
                           || negb (rn_promotion_requested current)
                   then sm_err (ValidationError "concurrent review prevented accepting run")
                   else mret None);
        match early with
        | Some execution => mret execution
        | None =>
            requested ← require_run id;
            recover_one_run requested;;
            execution ← execution_from_journal id source_count false;
            if negb (bool_decide (ce_state execution = Committed)) then
              _ ← require_run id;
              sm_err (ValidationError "accepting consolidation run failed")
            else mret execution
        end
  | Reject =>
      if bool_decide (rn_state run = Rejected)
      then execution_from_journal id source_count true
      else if negb (bool_decide (rn_state run = Validated))
      then sm_err (ValidationError "consolidation run cannot be rejected from its state")
      else
        now ← now_ms;
        rejected_now ← sql (terminate_consolidation_run id Validated Rejected now
                              "rejected by explicit review");
        if negb rejected_now then
          current ← require_run id;
          if bool_decide (rn_state current = Rejected)
          then execution_from_journal id source_count true
          else sm_err (ValidationError "concurrent review prevented rejecting run")
        else execution_from_journal id source_count false
  end.

(** The wait of [settle_existing_run]; [others] is what the other tasks do
    during one sleep. *)
Fixpoint settle_loop (attempts : nat) (others : S ()) (run : ConsolidationRun)
    (source_count : Z) : S ConsolidationExecution :=
  match attempts with
  | O => execution_from_journal (rn_run_id run) source_count true
  | Datatypes.S attempts =>
      if is_terminal (rn_state run) then execution_from_journal (rn_run_id run) source_count true
      else if bool_decide (rn_state run = Validated) then
        (if rn_promotion_requested run then recover_one_run run else mret ());;
        execution_from_journal (rn_run_id run) source_count true
      else
        now ← now_ms;
        if rn_updated_at_ms run <=? now - RECOVERY_MIN_AGE_MS then
          recover_one_run run;;
          execution_from_journal (rn_run_id run) source_count true
        else
          others;;
          run ← require_run (rn_run_id run);
          settle_loop attempts others run source_count
  end.
Definition settle_existing_run (others : S ()) (run : ConsolidationRun) (source_count : Z)
    : S ConsolidationExecution :=
  settle_loop ACTIVE_RUN_WAIT_ATTEMPTS others run source_count.

End service.
