(* ===== verification/Overlay.v ===== *)
(** * Lifecycle changes under the store

    A write to the lifecycle columns of the metadata table (status, tier,
    edges, expiry, index state) moves no payload: a store that implements a
    map of chunks implements, after any such write, the same map with the
    statuses of the new rows.  Sweeps, lifecycle updates, supersessions and
    the statements of the consolidation journal are such writes. *)

From S2P Require Import Prelude Crates Types WalFormat WalReader Files WalWriter.
From S2P Require Import SegmentFormat Segment SegmentFacts Metadata MetadataFacts.
From S2P Require Import TenantStore Persistent Runs TenantInv TenantFacts Recovery PersistentFacts AddFacts StoreSpec.

Open Scope Z_scope.

(** The columns a lifecycle write leaves alone; it neither deletes a row nor
    brings a deleted one back. *)
Definition same_place (r r' : Row) : Prop :=
  cm_chunk_id (r_meta r') = cm_chunk_id (r_meta r) ∧ location (r_meta r') = location (r_meta r) ∧
  (r_status r' = Deleted ↔ r_status r = Deleted).

Definition overlaid (db db' : ChunkTable) : Prop :=
  ∀ c, option_Forall2 same_place (db !! c) (db' !! c).

#[export] Instance same_place_equivalence : Equivalence same_place.
Proof.
  unfold same_place. split.
  - intros r. done.
  - intros r r' (-> & -> & ->). done.
  - intros r1 r2 r3 (-> & -> & E1) (-> & -> & E2). split_and!; [done..|]. by rewrite E2.
Qed.
#[export] Instance overlaid_equivalence : Equivalence overlaid.
Proof.
  split.
  - intros db c. reflexivity.
  - intros db db' H c. symmetry. apply H.
  - intros db1 db2 db3 H1 H2 c. etrans; [apply H1|apply H2].
Qed.

Lemma overlaid_inv db db' c r' :
  overlaid db db' → db' !! c = Some r' → ∃ r, db !! c = Some r ∧ same_place r r'.
Proof. intros H Hr'. specialize (H c). rewrite Hr' in H. inversion H; subst. eauto. Qed.

Lemma overlaid_fwd db db' c r :
  overlaid db db' → db !! c = Some r → ∃ r', db' !! c = Some r' ∧ same_place r r'.
Proof. intros H Hr. specialize (H c). rewrite Hr in H. inversion H; subst. eauto. Qed.

(** Row-wise changes. *)
Lemma overlaid_rowwise (g : ChunkId → Row → Row) db db' :
  (∀ c, db' !! c = g c <$> db !! c) →
  (∀ c r, db !! c = Some r → same_place r (g c r)) → overlaid db db'.
Proof.
  intros Hg Hs c. rewrite Hg. destruct (db !! c) as [r|] eqn:E; constructor. by apply Hs.
Qed.

Lemma overlaid_insert db c r r' : db !! c = Some r → same_place r r' → overlaid db (<[c := r']> db).
Proof.
  intros Hr Hs k. destruct (decide (k = c)) as [->|Hne].
  - rewrite lookup_insert_eq, Hr. by constructor.
  - rewrite lookup_insert_ne by done. reflexivity.
Qed.

Lemma overlaid_update_where t c cond f db :
  (∀ r, cond r = true → same_place r (f r)) → overlaid db (update_where t c cond f db).2.
Proof.
  intros Hf. apply (overlaid_rowwise
    (λ k r, if bool_decide (k = c) && matches t cond r then f r else r)).
  - intros k. apply update_where_lookup.
  - intros k r _. destruct (bool_decide (k = c) && matches t cond r) eqn:E; [|reflexivity].
    apply Hf. apply andb_true_iff in E as [_ [_ E]%andb_true_iff]. done.
Qed.

Section overlay.
Context `{BOL : ByteOrderLaws} `{CRL : Crc32Laws} `{RBL : RoaringLaws B}.
Context `{BWL : BincodeLaws WalRecord} `{JCL : JsonLaws MemoryChunk}.
Context `{UUL : UuidLaws ChunkId} `{TT : TaskTables TK}.
Context `{CAP : BufCap} `{BM : Bincode SegmentMeta} `{UC : Unicode} `{SHA : Sha256}.
Implicit Types (s : St B TK) (A : gmap ChunkId MemoryChunk).

Variable t : TenantId.

Lemma live_overlaid db db' c r' :
  overlaid db db' → live t db' c r' →
  ∃ r, live t db c r ∧ m_seg r' = m_seg r ∧ m_ord r' = m_ord r.
Proof.
  intros Ho (Hr' & Ht & Hs). destruct (overlaid_inv _ _ _ _ Ho Hr') as (r & Hr & _ & Hloc & Hdel).
  injection Hloc as E1 E2 E3. exists r. split; [|done]. split_and!; [done| |].
  - unfold r_tenant in *. congruence.
  - by rewrite <- Hdel.
Qed.

Lemma liveb_overlaid db db' c : overlaid db db' → liveb t db' c = liveb t db c.
Proof.
  intros Ho. apply eq_true_iff_eq. rewrite !liveb_true.
  split; intros [r Hl].
  - destruct (live_overlaid _ _ _ _ Ho Hl) as (r0 & ? & _). eauto.
  - assert (Ho' : overlaid db' db) by (by symmetry).
    destruct (live_overlaid _ _ _ _ Ho' Hl) as (r0 & ? & _). eauto.
Qed.

Lemma rec_state_overlaid G suffix segs db db' :
  overlaid db db' →
  rec_state (B := B) (TK := TK) t G ∅ suffix segs db → rec_state (B := B) (TK := TK) t G ∅ suffix segs db'.
Proof.
  intros Ho [Hsuf Hsegs Htab Hown Hlive Hright Hdead]. constructor; try done.
  - destruct Htab as [Hk Hloc]. split.
    + intros c r' Hr'. destruct (overlaid_inv _ _ _ _ Ho Hr') as (r & Hr & -> & _). eauto.
    + intros c1 c2 r1' r2' H1' H2'. destruct (overlaid_inv _ _ _ _ Ho H1') as (r1 & Hr1 & _ & -> & _).
      destruct (overlaid_inv _ _ _ _ Ho H2') as (r2 & Hr2 & _ & -> & _). eauto.
  - intros c r' Hr' HG. destruct (overlaid_inv _ _ _ _ Ho Hr') as (r & Hr & _ & Hloc & _).
    injection Hloc as E1 _ _. unfold r_tenant in *. rewrite E1. by eapply Hown.
  - intros c r' Hl'. destruct (live_overlaid _ _ _ _ Ho Hl') as (r & Hl & -> & ->). by apply Hlive.
  - intros c r' p Hl'. destruct (live_overlaid _ _ _ _ Ho Hl') as (r & Hl & -> & ->). by apply Hright.
Qed.

Lemma running_overlaid G rs s ads db' tr :
  running t G ∅ rs s ads → overlaid (db_of s) db' →
  running t G ∅ rs (mkSt (s_store s) (with_db db' (s_world s)) tr) ads.
Proof.
  intros [Hw Hfit Hwr [Hlog Hst Hrec Hrows] Hheld Hag Hnd] Ho.
  assert (Hrec' := rec_state_overlaid G _ _ _ _ Ho Hrec).
  constructor; try done.
  - constructor; try done. intros c r' a Hl Ha. destruct (live_overlaid _ _ _ _ Ho Hl) as (r & Hl0 & -> & ->).
    by apply Hrows.
  - intros c r' Hl. destruct (live_overlaid _ _ _ _ Ho Hl) as (r & Hl0 & E1 & E2).
    unfold held_in. rewrite E1, E2. by apply Hheld.
  - intros c. unfold db_of at 1 2. cbn. by rewrite (liveb_overlaid _ _ c Ho).
  - intros c r' Hl. destruct (live_overlaid _ _ _ _ Ho Hl) as (r & Hl0 & _). by eapply Hnd.
Qed.

(** The map with the statuses of the rows. *)
Definition restatus (db : ChunkTable) (A : gmap ChunkId MemoryChunk) : gmap ChunkId MemoryChunk :=
  map_imap (λ c chunk, Some (match get t c db with
                             | Some m => set_status (cm_status m) chunk
                             | None => chunk
                             end)) A.

Lemma restatus_lookup db A c :
  restatus db A !! c = (λ chunk, match get t c db with
                                 | Some m => set_status (cm_status m) chunk
                                 | None => chunk
                                 end) <$> A !! c.
Proof. unfold restatus. rewrite map_lookup_imap. by destruct (A !! c). Qed.

Lemma restatus_dom db A : dom (restatus db A) = dom A.
Proof. apply set_eq. intros c. rewrite !elem_of_dom, restatus_lookup. by destruct (A !! c). Qed.

Lemma implements_overlaid s A db' tr :
  implements t s A → overlaid (db_of s) db' →
  implements t (mkSt (s_store s) (with_db db' (s_world s)) tr) (restatus db' A).
Proof.
  intros (G & rs & ads & Hrun & HG & HA) Ho. exists G, rs, ads. split_and!; [by apply running_overlaid|done|].
  intros c. rewrite restatus_lookup, HA. unfold chunk_view at 2. unfold db_of at 2. cbn [s_world w_db with_db].
  pose proof (liveb_overlaid _ _ c Ho) as Hb. unfold liveb in Hb. unfold chunk_view.
  destruct (get t c db') as [m'|], (get t c (db_of s)) as [m|]; try done.
  cbn. destruct (G !! c) as [p|]; [|done]. cbn. by destruct (json_from_slice p).
Qed.

(** The same chunks, up to their status. *)
Definition restatused A A' : Prop :=
  ∀ c, option_Forall2 (λ a a', a' = a ∨ ∃ st, a' = set_status st a) (A !! c) (A' !! c).

#[export] Instance restatused_preorder : PreOrder restatused.
Proof.
  split.
  - intros A c. destruct (A !! c); constructor. by left.
  - intros A1 A2 A3 R1 R2 c. specialize (R1 c). specialize (R2 c).
    destruct R1 as [a a' Ha|]; inversion R2 as [? a'' Ha'|]; subst; constructor.
    destruct Ha as [->|[st ->]], Ha' as [->|[st' ->]]; eauto.
Qed.

Lemma restatus_restatused db A : restatused A (restatus db A).
Proof.
  intros c. rewrite restatus_lookup. destruct (A !! c); constructor. destruct (get t c db); eauto.
Qed.

(** A change of the trace alone. *)
Lemma implements_trace s A tr :
  implements t s A → implements t (mkSt (s_store s) (s_world s) tr) A.
Proof.
  intros (G & rs & ads & Hrun & HG & HA). exists G, rs, ads. split_and!; [|done|done].
  destruct Hrun as [Hw Hfit Hwr [Hlog Hst Hrec Hrows] Hheld Hag Hnd]. constructor; try done.
Qed.

(** The chunks of the map, with their status. *)
Lemma implements_status s A c chunk :
  implements t s A → A !! c = Some chunk →
  ∃ m, get t c (db_of s) = Some m ∧ mc_status chunk = cm_status m.
Proof.
  intros (G & rs & ads & _ & _ & HA) Hc. rewrite HA in Hc. unfold chunk_view in Hc.
  destruct (get t c (db_of s)) as [m|]; [|done]. exists m. split; [done|]. cbn in Hc.
  destruct (G !! c) as [p|]; [|done]. cbn in Hc. destruct (json_from_slice p); [|done].
  by injection Hc as <-.
Qed.

(** The live rows are the chunks of the map. *)
Lemma implements_dom s A c :
  implements t s A → is_Some (A !! c) ↔ is_Some (get t c (db_of s)).
Proof.
  intros (G & rs & ads & Hrun & HG & HA). rewrite HA. unfold chunk_view. split.
  - intros [chunk Hc]. destruct (get t c (db_of s)); [eauto|done].
  - intros [m Hm]. rewrite Hm. cbn. apply get_live in Hm as (r & Hl & ->).
    destruct (rn_held _ _ _ _ _ _ Hrun c r Hl) as (p & Hp & _). rewrite Hp. cbn.
    destruct (HG c p Hp) as (_ & chunk & -> & _). cbn. eauto.
Qed.

(** A row that is not deleted is read with its status. *)
Lemma implements_row s A c r :
  implements t s A → db_of s !! c = Some r → r_tenant r = t → r_status r ≠ Deleted →
  mc_status <$> A !! c = Some (r_status r).
Proof.
  intros Hi Hr Ht Hs.
  assert (Hg : get t c (db_of s) = Some (r_meta r)) by (apply get_spec; eauto).
  destruct (proj2 (implements_dom s A c Hi) (ex_intro _ _ Hg)) as [chunk Hc].
  destruct (implements_status s A c chunk Hi Hc) as (m & Hm & Hst). rewrite Hc. cbn.
  rewrite Hst. by assert (m = r_meta r) as -> by congruence.
Qed.

(** The same after an overlay. *)
Lemma restatus_row s A db' c r st :
  implements t s A → overlaid (db_of s) db' → db_of s !! c = Some r → r_tenant r = t →
  r_status <$> db' !! c = Some st → st ≠ Deleted → mc_status <$> restatus db' A !! c = Some st.
Proof.
  intros Hi Ho Hr Ht (r' & Hr' & ->)%fmap_Some Hs.
  destruct (overlaid_inv _ _ _ _ Ho Hr') as (r0 & Hr0 & _ & Hloc & _).
  assert (r0 = r) as -> by congruence.
  pose proof (implements_overlaid s A db' (s_trace s) Hi Ho) as Hi'.
  apply (implements_row _ _ c r' Hi'); [done| |done].
  injection Hloc as E1 E2 E3. unfold r_tenant in *. congruence.
Qed.

End overlay.
