(* ===== verification/ConsolidateFacts.v ===== *)
(** * Facts about the consolidation service

    A read leaves the metadata table alone; a statement of the journal
    overlays it; so every computation of the service takes steps of the
    protocol and keeps the content of the store ([serves], closed under the
    constructions of the monad). *)

From S2P Require Import Bm25.
From S2P Require Import Prelude Crates Types Str Files WalFormat WalReader SegmentFormat Segment.
From S2P Require Import SegmentFacts Metadata MetadataFacts TenantStore Persistent TenantInv TenantFacts StoreSpec.
From S2P Require Import PersistentFacts Overlay Fusion Journal JournalFacts Promotion JournalProps Consolidate.
From stdpp Require Import relations sorting.

Open Scope Z_scope.

(* ------------------------------------------------------------------ *)
(** ** Reads leave the table alone *)

(** A read may flush the buffer of the active segment, but no more. *)

Section reads.
Context {B TK : Type}.

Definition keeps_db {A} (m : M B TK A) : Prop := ∀ s, w_db (s_world (m s).2) = w_db (s_world s).

Lemma keeps_ret {A} (a : A) : keeps_db (m_ret a).
Proof. done. Qed.
Lemma keeps_err {A} e : keeps_db (m_err (A := A) e).
Proof. done. Qed.
Lemma keeps_lift {A} (r : memd_result A) : keeps_db (m_lift r).
Proof. done. Qed.
Lemma keeps_get_store : keeps_db m_store.
Proof. done. Qed.
Lemma keeps_get_world : keeps_db m_world.
Proof. done. Qed.
Lemma keeps_set_store f : keeps_db (m_set_store f).
Proof. done. Qed.
Lemma keeps_bind {A C} (m : M B TK A) (k : A → M B TK C) :
  keeps_db m → (∀ a, keeps_db (k a)) → keeps_db (m_bind m k).
Proof.
  intros Hm Hk s. unfold m_bind. specialize (Hm s). destruct (m s) as [[a|e] s'].
  - cbn in Hm. by rewrite Hk.
  - exact Hm.
Qed.
Lemma keeps_effect f : (∀ w, w_db (f w) = w_db w) → keeps_db (m_effect f).
Proof. intros Hf s. apply Hf. Qed.
Lemma keeps_for {A} (l : list A) (body : A → M B TK ()) :
  (∀ a, keeps_db (body a)) → keeps_db (m_for l body).
Proof. intros Hb. induction l as [|a l IH]; [apply keeps_ret|]. by apply keeps_bind. Qed.
End reads.

Create HintDb reads.
#[export] Hint Resolve keeps_ret keeps_err keeps_lift keeps_get_store keeps_get_world
  keeps_set_store : reads.

(** Walk down a computation that only reads. *)
Ltac read_only :=
  repeat first [ solve [auto with reads] | apply keeps_bind; [|intros ?]
               | apply keeps_for; intros ? | apply keeps_effect; intros ? | case_match ].

Section get_chunk.
Context `{BO : ByteOrder} `{CRC : Crc32} `{RB : Roaring B} `{CAP : BufCap}.
Context `{BW : Bincode WalRecord} `{BM : Bincode SegmentMeta} `{JC : Json MemoryChunk}.
Context `{UU : Uuid ChunkId} `{UC : Unicode} `{TT : TaskTables TK} `{SHA : Sha256}.

Lemma get_chunk_keeps_db t c : keeps_db (get_chunk (B := B) (TK := TK) t c).
Proof.
  unfold get_chunk, read_payload_fallback, read_from_active_segment, m_segops. read_only.
Qed.

Lemma ensure_writable_keeps_db op : keeps_db (ensure_writable (B := B) (TK := TK) op).
Proof. unfold ensure_writable. read_only. Qed.

End get_chunk.
#[export] Hint Resolve get_chunk_keeps_db ensure_writable_keeps_db : reads.

(* ------------------------------------------------------------------ *)
(** ** Journal operations under the store *)

(** No operation of the journal moves or deletes a chunk. *)
Lemma touch_same_place s now r :
  r_status r ≠ Deleted → s ≠ Deleted → same_place r (touch_status s now r).
Proof. intros Hr Hs. split_and!; [done..|]. by split. Qed.

Lemma hide_overlaid ids now db : overlaid (jd_chunks db) (jd_chunks (hide_candidates ids now db).2).
Proof.
  apply (overlaid_rowwise (λ _ r, if hide_hit ids r then touch_status ErrorStatus now r else r)).
  - intros c. cbn. by rewrite lookup_fmap.
  - intros c r _. destruct (hide_hit ids r) eqn:E; [|reflexivity].
    apply touch_same_place; [|done]. unfold hide_hit in E. apply andb_true_iff in E as [E _].
    apply status_in_true, list_elem_of_singleton in E. by rewrite E.
Qed.

Section ops.
Context {HI : HashIter ChunkId}.

Lemma promoted_overlaid id now db run :
  journal_wf db → jd_runs db !! id = Some run → promotable id now db run →
  overlaid (jd_chunks db) (jd_chunks (promoted id now db)).
Proof.
  intros W Hrun P. apply (overlaid_rowwise (promoted_row id now db)).
  - apply promoted_lookup.
  - intros c r Hr. unfold promoted_row. case_bool_decide as Hc.
    + apply elem_of_run_candidates in Hc. destruct (pr_candidate _ _ _ _ P c Hc) as (r0 & Hr0 & _ & Hs & _).
      assert (r0 = r) as -> by congruence. apply touch_same_place; [|done]. by rewrite Hs.
    + destruct (superseding_edge id db c) as [e|] eqn:E; [|reflexivity].
      unfold superseding_edge in E. apply find_some in E as [Hin He%bool_decide_eq_true].
      apply list_elem_of_In, list_elem_of_filter in Hin as [_ [Hid Hin]%elem_of_query_lineage].
      destruct (pr_source _ _ _ _ P e Hin Hid) as (r0 & Hr0 & _ & Hd & _).
      rewrite He in Hr0. assert (r0 = r) as -> by congruence.
      unfold source_drifted in Hd. guard_false Hd. destruct Hd as [[[Hd _] _] _].
      apply status_in_true, list_elem_of_singleton in Hd.
      split_and!; [done..|]. rewrite Hd. by split.
Qed.

Lemma op_overlaid db db' :
  journal_wf db → journal_op db db' → overlaid (jd_chunks db) (jd_chunks db').
Proof.
  intros W Hop. destruct Hop as [run entries lineage run' db db' E|id e n now vr err b db db' He E
    |id e n now err b db db' He E|id now db|id now err db|id now db|id now db|now db
    |id now o db db' E].
  - apply begin_ok in E as (_ & [(_ & _ & (-> & _) & _)|[-> _]]); reflexivity.
  - rewrite (transition_chunks _ _ _ _ _ _ _ _ _ E). reflexivity.
  - destruct (terminate_chunks _ _ _ _ _ _ _ _ E) as [->|(db1 & <- & ->)]; [reflexivity|].
    apply hide_overlaid.
  - rewrite request_snd. erewrite (proj1 (update_run_frame _ _ _ _)). reflexivity.
  - rewrite record_error_snd. erewrite (proj1 (update_run_frame _ _ _ _)). reflexivity.
  - rewrite cleanup_done_snd. erewrite (proj1 (update_run_frame _ _ _ _)). reflexivity.
  - apply hide_overlaid.
  - apply hide_overlaid.
  - apply promotion_ok in E as [(_ & -> & _)|(_ & run & Hrun & P & ->)]; [reflexivity| |done].
    by eapply promoted_overlaid.
Qed.

End ops.

(* ------------------------------------------------------------------ *)
(** ** What the protocol keeps of the journal *)

Section kept.
Context {HI : HashIter ChunkId}.

(** A statement on the runs there are. *)
Definition run_op (db db' : JournalDb) : Prop :=
  journal_op db db' ∧ dom (jd_runs db') = dom (jd_runs db).

Lemma update_run_dom id cond f db : dom (jd_runs (update_run id cond f db).2) = dom (jd_runs db).
Proof.
  apply set_eq. intros k. rewrite !elem_of_dom, update_run_lookup. by destruct (jd_runs db !! k).
Qed.

Lemma transition_dom id expected next now vr err b db db' :
  journal_wf db → transition_consolidation_run id expected next now vr err db = Ok (b, db') →
  dom (jd_runs db') = dom (jd_runs db).
Proof.
  intros W. rewrite transition_spec by done. destruct (jd_runs db !! id); [case_bool_decide|];
    intros E; apply Ok_pair_inj in E as [_ <-]; [apply dom_alter_L|done..].
Qed.

Lemma terminate_dom id expected terminal now err b db db' :
  journal_wf db → terminal ∈ [Rejected; RolledBack] →
  terminate_consolidation_run id expected terminal now err db = Ok (b, db') →
  dom (jd_runs db') = dom (jd_runs db).
Proof.
  intros W Ht. rewrite terminate_spec by done. destruct (jd_runs db !! id); [case_bool_decide|];
    intros E; apply Ok_pair_inj in E as [_ <-]; [apply dom_alter_L|done..].
Qed.

Lemma promote_dom id now o db db' :
  journal_wf db → atomic_promote_consolidation_run id now db = Ok (o, db') →
  dom (jd_runs db') = dom (jd_runs db).
Proof. intros W [(_ & -> & _)|(_ & run & _ & _ & ->)]%promotion_ok; [done|apply dom_alter_L|done]. Qed.

(** Every run belongs to the tenant. *)
Definition runs_of (t : TenantId) (db : JournalDb) : Prop :=
  ∀ id r, jd_runs db !! id = Some r → rn_tenant_id r = t.

Lemma run_op_runs_of t db db' : journal_wf db → runs_of t db → run_op db db' → runs_of t db'.
Proof.
  intros W Ht [Hop Hdom] id r' Hr'.
  assert (id ∈ dom (jd_runs db)) as [r Hr]%elem_of_dom by (rewrite <- Hdom; by eapply elem_of_dom_2).
  destruct (op_run_step _ _ _ _ W Hop Hr) as (r2 & Hr2 & (_ & E & _) & _).
  assert (r2 = r') as -> by congruence. rewrite E. by eapply Ht.
Qed.

End kept.

(* ------------------------------------------------------------------ *)
(** ** Computations that serve the protocol *)

Section serves.
Context `{BOL : ByteOrderLaws} `{CRL : Crc32Laws} `{RBL : RoaringLaws B}.
Context `{BWL : BincodeLaws WalRecord} `{JCL : JsonLaws MemoryChunk}.
Context `{UUL : UuidLaws ChunkId} `{TT : TaskTables TK}.
Context `{CAP : BufCap} `{BM : Bincode SegmentMeta} `{UC : Unicode} `{SHA : Sha256}.
Context {X : Type} {HI : HashIter ChunkId}.
Implicit Types (s : Svc B TK X) (A : gmap ChunkId MemoryChunk).

Variable t : TenantId.

Lemma journal_of_set db s : journal_of (set_journal db s) = db.
Proof. by destruct db. Qed.

(** A journal of the open tenant beside a store that implements a map. *)
Record serving A s : Prop := {
  sg_wf : journal_wf (journal_of s);
  sg_runs : runs_of t (journal_of s);
  sg_store : implements t (sv_store s) A;
}.

(** [m] keeps that, by statements of the protocol on the runs there are; its
    value satisfies [Q]. *)
Definition serves {C} (Q : C → Prop) (m : SM B TK X C) : Prop :=
  ∀ s A, serving A s →
  rtc run_op (journal_of s) (journal_of (m s).2) ∧
  (∃ A', serving A' (m s).2 ∧ restatused A A') ∧
  (∀ c, (m s).1 = Ok c → Q c).

Definition any {C} (_ : C) : Prop := True.

Lemma serves_mono {C} (Q Q' : C → Prop) m : serves Q m → (∀ c, Q c → Q' c) → serves Q' m.
Proof. intros Hm HQ s A Hs. destruct (Hm s A Hs) as (? & ? & ?). auto. Qed.

(** What leaves the tables and the store alone. *)
Lemma serves_still {C} (Q : C → Prop) (m : SM B TK X C) :
  (∀ s, sv_store (m s).2 = sv_store s ∧ journal_of (m s).2 = journal_of s) →
  (∀ s A c, serving A s → (m s).1 = Ok c → Q c) → serves Q m.
Proof.
  intros Hm HQ s A Hs. destruct (Hm s) as [Est Ej]. rewrite Ej. split_and!; [done| |intros c Hc; by apply (HQ s A)].
  exists A. split; [|done]. destruct Hs. split; rewrite ?Ej, ?Est; done.
Qed.

Lemma serves_ret {C} (Q : C → Prop) c : Q c → serves Q (mret c).
Proof. intros HQ. apply serves_still; [done|]. by intros s A c' _ [= <-]. Qed.
Lemma serves_err {C} (Q : C → Prop) e : serves Q (sm_err e).
Proof. by apply serves_still. Qed.
Lemma serves_lift {C} (Q : C → Prop) (r : memd_result C) : (∀ c, r = Ok c → Q c) → serves Q (sm_lift r).
Proof. intros HQ. apply serves_still; [done|]. intros s A c _. apply HQ. Qed.
Lemma serves_state : serves any (sm_state (B := B) (TK := TK) (X := X)).
Proof. by apply serves_still. Qed.
Lemma serves_now : serves any (now_ms (B := B) (TK := TK) (X := X)).
Proof. by apply serves_still. Qed.
Lemma serves_set_sparse x : serves any (set_sparse (B := B) (TK := TK) (X := X) x).
Proof. by apply serves_still. Qed.
Lemma serves_query {C} (Q : C → Prop) (f : JournalDb → C) :
  (∀ db, journal_wf db → runs_of t db → Q (f db)) → serves Q (query f).
Proof. intros HQ. apply serves_still; [done|]. intros s A c [W Hr _] [= <-]. by apply HQ. Qed.

Lemma serves_bind {C D} (P : C → Prop) (Q : D → Prop) (m : SM B TK X C) (k : C → SM B TK X D) :
  serves P m → (∀ c, P c → serves Q (k c)) → serves Q (m ≫= k).
Proof.
  intros Hm Hk s A Hs. destruct (Hm s A Hs) as (Hsteps & (A1 & Hs1 & HA1) & HP).
  unfold mbind, sm_bind. destruct (m s) as [[c|e] s1]; cbn in *; [|by split_and!; eauto].
  destruct (Hk c (HP c eq_refl) s1 A1 Hs1) as (Hsteps2 & (A2 & Hs2 & HA2) & HQ).
  split_and!; [by etrans| |done]. exists A2. split; [done|]. by etrans.
Qed.
Lemma serves_catch {C} (Q : C → Prop) (m : SM B TK X C) : serves Q m → serves any (sm_catch m).
Proof.
  intros Hm s A Hs. destruct (Hm s A Hs) as (Hsteps & HA & _). unfold sm_catch.
  destruct (m s) as [r s1]. by split_and!.
Qed.
Lemma serves_fold {C D} (P : D → Prop) (body : C → D → SM B TK X C) l acc :
  Forall P l → (∀ c d, P d → serves any (body c d)) → serves any (sm_fold body l acc).
Proof.
  intros Hl Hb. revert acc. induction Hl as [|d l Hd Hl IH]; intros acc; [by apply serves_ret|].
  apply (serves_bind any); [by apply Hb|]. intros c _. apply IH.
Qed.

(** Statements. *)
Lemma serves_sql {C} (f : JournalDb → memd_result (C * JournalDb)) :
  (∀ db c db', journal_wf db → f db = Ok (c, db') → run_op db db') → serves any (sql f).
Proof.
  intros Hf s A [W Hr Hi]. unfold sql. destruct (f (journal_of s)) as [[c db]|e] eqn:E.
  2: { split_and!; [done| |done]. exists A. split; [by split|done]. }
  apply Hf in E as Hop; [|done]. cbn [fst snd]. rewrite journal_of_set.
  split_and!; [by apply rtc_once| |done]. exists (restatus t (jd_chunks db) A). split; [|apply restatus_restatused].
  destruct Hop as [Hop Hdom]. split; rewrite ?journal_of_set.
  - by eapply op_wf.
  - eapply run_op_runs_of; [exact W|exact Hr|by split].
  - unfold set_journal, set_world_db. cbn [sv_store]. apply implements_overlaid; [done|].
    by apply (op_overlaid (journal_of s)).
Qed.

Lemma serves_exec {C} (f : JournalDb → C * JournalDb) :
  (∀ db, journal_wf db → run_op db (f db).2) → serves any (sql_exec f).
Proof. intros Hf. apply serves_sql. intros db c db' W [= E]. specialize (Hf db W). by rewrite E in Hf. Qed.

Lemma serves_transition id expected next now vr err :
  guarded_transition expected next →
  serves any (sql (transition_consolidation_run id expected next now vr err)).
Proof.
  intros Hg. apply serves_sql. intros db b db' W E. split; [by eapply op_transition|by eapply transition_dom].
Qed.
Lemma serves_terminate id expected terminal now err :
  guarded_termination expected terminal →
  serves any (sql (terminate_consolidation_run id expected terminal now err)).
Proof.
  intros Hg. apply serves_sql. intros db b db' W E. split; [by eapply op_terminate|].
  eapply terminate_dom; [done| |done]. destruct Hg; set_solver.
Qed.
Lemma serves_promote id now : serves any (sql (atomic_promote_consolidation_run id now)).
Proof.
  apply serves_sql. intros db b db' W E. split; [by eapply op_promote|by eapply promote_dom].
Qed.
Lemma serves_request id now : serves any (sql_exec (request_consolidation_promotion id now)).
Proof. apply serves_exec. intros db _. split; [apply op_request|]. rewrite request_snd. apply update_run_dom. Qed.
Lemma serves_record id now err :
  serves any (sql_exec (record_consolidation_recovery_error id now err)).
Proof. apply serves_exec. intros db _. split; [apply op_record_error|]. rewrite record_error_snd. apply update_run_dom. Qed.
Lemma serves_done id now : serves any (sql_exec (mark_consolidation_sparse_cleanup_done id now)).
Proof. apply serves_exec. intros db _. split; [apply op_cleanup_done|]. rewrite cleanup_done_snd. apply update_run_dom. Qed.
Lemma serves_hide now : serves any (sql_exec (hide_terminal_consolidation_candidates now)).
Proof. apply serves_exec. intros db _. split; [apply op_hide_terminal|done]. Qed.

(** Reads of the store answer from the map. *)
Lemma get_chunk_reads s A c :
  implements t (sv_store s) A →
  ∃ s', store_op (get_chunk t c) s = (Ok (A !! c), s') ∧ implements t (sv_store s') A ∧
        journal_of s' = journal_of s ∧ sv_read s' = sv_read s ∧ sv_clock s' = sv_clock s.
Proof.
  intros Hi. destruct (exec_get t (sv_store s) A c Hi) as (G & K & _ & _ & (out & st' & tr & E & _ & _ & -> & Hi')).
  cbn in E. unfold m_bind, m_ret in E. pose proof (get_chunk_keeps_db (B := B) (TK := TK) t c (sv_store s)) as Hdb.
  unfold store_op. destruct (get_chunk t c (sv_store s)) as [[o|e] st1]; [|done].
  injection E as -> ->. cbn in Hdb, Hi'. eexists. split_and!; [done|done| |done..].
  unfold journal_of. cbn. by rewrite Hdb.
Qed.

Lemma serves_get_chunk t' c : t' = t → serves any (store_op (get_chunk t' c)).
Proof.
  intros -> s A [W Hr Hi]. destruct (get_chunk_reads s A c Hi) as (s' & -> & Hi' & Ej & _). cbn. rewrite Ej.
  split_and!; [done| |done]. exists A. split; [|done]. split; rewrite ?Ej; done.
Qed.
Lemma serves_writable op : serves any (store_op (ensure_writable op)).
Proof.
  apply serves_still; [|done]. intros s. unfold store_op, ensure_writable, m_bind, m_store. cbn.
  destruct s. cbn. by destruct (ts_read_only _).
Qed.

End serves.

Create HintDb serves.
#[export] Hint Resolve serves_err serves_state serves_now serves_set_sparse serves_promote
  serves_request serves_record serves_done serves_hide serves_writable serves_get_chunk : serves.
#[export] Hint Extern 1 (any _) => exact I : serves.
#[export] Hint Extern 1 (serves _ _ (mret _)) => apply serves_ret : serves.
#[export] Hint Extern 1 (serves _ _ (query _)) => apply serves_query; done : serves.
#[export] Hint Extern 1 (serves _ _ (sm_lift _)) => apply serves_lift; done : serves.
#[export] Hint Constructors guarded_transition guarded_termination : serves.

(** Walk down a computation of the service. *)
Ltac serve :=
  repeat first
    [ solve [eauto with serves]
    | apply serves_transition; constructor
    | apply serves_terminate; constructor
    | eapply (serves_catch _ any)
    | eapply (serves_bind _ any); [|intros ? _]
    | eapply (serves_fold _ any); [by apply Forall_true|intros ? ? _]
    | case_match ].

Section service.
Context `{BOL : ByteOrderLaws} `{CRL : Crc32Laws} `{RBL : RoaringLaws B}.
Context `{BWL : BincodeLaws WalRecord} `{JCL : JsonLaws MemoryChunk}.
Context `{UUL : UuidLaws ChunkId} `{TT : TaskTables TK}.
Context `{CAP : BufCap} `{BM : Bincode SegmentMeta} `{UC : Unicode} `{SHA : Sha256}.
Context `{JV : JsonCodec} `{ET : ErrorText} `{SI : SparseIndex X} {HI : HashIter ChunkId}.

Variable t : TenantId.

Definition run_of (run : ConsolidationRun) : Prop := rn_tenant_id run = t.

Abbreviation Serves Q m := (serves (B := B) (TK := TK) (X := X) t Q m).

Lemma serves_audit run : Serves any (validate_raw_response_audit run).
Proof. unfold validate_raw_response_audit. serve. Qed.
Hint Resolve serves_audit : serves.

Lemma serves_validate run : run_of run → Serves any (validate_candidate_run run).
Proof. unfold validate_candidate_run, validate_candidate. intros Hr. serve. Qed.
Hint Resolve serves_validate : serves.

Lemma serves_get_run id :
  Serves (λ o, ∀ r, o = Some r → run_of r) (query (get_consolidation_run id)).
Proof. apply serves_query. intros db _ Ht r Hr. by eapply Ht. Qed.

Lemma serves_require id : Serves run_of (require_run id).
Proof.
  eapply serves_bind; [apply serves_get_run|]. intros o Ho. apply serves_lift.
  destruct o as [r|]; [|done]. intros r' [= <-]. by apply Ho.
Qed.

Lemma serves_execution id n b : Serves any (execution_from_journal id n b).
Proof.
  eapply serves_bind; [apply serves_require|]. intros r _. serve.
Qed.
Hint Resolve serves_execution : serves.

Lemma serves_cleanup id t' : Serves any (cleanup_committed id t').
Proof.
  unfold cleanup_committed, finish_sparse_cleanup_for_run, cleanup_superseded_sparse_rows, cleanup_source.
  serve.
Qed.
Hint Resolve serves_cleanup : serves.

Lemma serves_recover_planned run : run_of run → Serves any (recover_planned run).
Proof. intros Hr. unfold recover_planned, count_present. serve. Qed.

Definition next_of (o : option (ConsolidationState * ConsolidationRun)) : Prop :=
  ∀ st r, o = Some (st, r) → run_of r.

Lemma serves_next st id :
  Serves next_of (current ← require_run id; mret (Some (st, current))).
Proof.
  eapply serves_bind; [apply serves_require|]. intros r Hr. apply serves_ret. by intros st' r' [= _ <-].
Qed.

Lemma serves_recover_written run : run_of run → Serves next_of (recover_written run).
Proof.
  intros Hr. unfold recover_written. eapply serves_bind; [by eapply serves_catch, serves_validate|].
  intros [?|[]] _; try (by apply serves_err); (eapply serves_bind; [apply serves_now|]; intros now _).
  - eapply serves_bind; [apply serves_transition; constructor|]. intros [] _; [apply serves_next|by apply serves_ret].
  - eapply serves_bind; [apply serves_terminate; constructor|]. intros b _. by apply serves_ret.
Qed.

Lemma serves_recover_failed run : Serves next_of (recover_failed run).
Proof.
  unfold recover_failed. eapply serves_bind; [apply serves_now|]. intros now _.
  eapply serves_bind; [apply serves_transition; constructor|]. intros [] _; [apply serves_next|by apply serves_ret].
Qed.

Lemma serves_recover_validated run r : run_of r → Serves any (recover_validated run r).
Proof. intros Hr. unfold recover_validated, promote_validated_run, classify_promotion_failure. serve. Qed.

Lemma serves_recover_one run : run_of run → Serves any (recover_one_run run).
Proof.
  intros Hrun. unfold recover_one_run. eapply serves_bind; [apply serves_require|]. intros r Hr.
  eapply (serves_bind _ any); [case_bool_decide; [by apply serves_recover_planned|by apply serves_ret]|].
  intros [st|] _; [|by apply serves_ret].
  eapply (serves_bind _ next_of).
  { case_bool_decide; [by apply serves_recover_written|]. apply serves_ret. by intros st' r' [= _ <-]. }
  intros [[st2 r2]|] Hn; [|by apply serves_ret].
  eapply (serves_bind _ next_of).
  { case_bool_decide; [apply serves_recover_failed|by apply serves_ret]. }
  intros [[st3 r3]|] Hn3; [|by apply serves_ret].
  case_bool_decide; [|by apply serves_ret]. apply serves_recover_validated. by eapply Hn3.
Qed.
Hint Resolve serves_recover_one : serves.

Lemma serves_runs limit (select : Z → JournalDb → list ConsolidationRun) :
  (∀ db r, r ∈ select limit db → ∃ id, jd_runs db !! id = Some r) →
  Serves (Forall run_of) (query (select limit)).
Proof.
  intros Hs. apply serves_query. intros db _ Ht. apply Forall_forall. intros r Hr.
  destruct (Hs db r Hr) as [id Hid]. by eapply Ht.
Qed.

Lemma serves_pending_cleanup limit : Serves any (finish_pending_sparse_cleanup limit).
Proof.
  unfold finish_pending_sparse_cleanup. eapply serves_bind; [apply serves_state|]. intros s _.
  case_match; [by apply serves_ret|]. eapply (serves_bind _ any); [by apply serves_query|]. intros runs _. serve.
Qed.

Lemma serves_promoted_chunks run st : Serves any (promoted_chunks run st).
Proof. unfold promoted_chunks. serve. Qed.
Hint Resolve serves_promoted_chunks : serves.

Lemma serves_step r run : run_of run → Serves any (recover_step r run).
Proof.
  intros Hrun. unfold recover_step. eapply serves_bind; [by eapply serves_catch, serves_recover_one|].
  intros [?|?] _; [|serve]. eapply serves_bind; [apply serves_require|]. intros current _. serve.
Qed.

Lemma sql_limit_elem {A} limit (l : list A) x : x ∈ sql_limit limit l → x ∈ l.
Proof. unfold sql_limit. case_match; [done|]. apply subseteq_take. Qed.

Lemma serves_recover_before limit before :
  Serves any (recover_consolidation_runs_before limit before).
Proof.
  unfold recover_consolidation_runs_before.
  eapply serves_bind; [apply serves_writable|]. intros _ _.
  eapply serves_bind; [apply serves_now|]. intros now _.
  eapply serves_bind; [apply serves_hide|]. intros b _.
  eapply serves_bind; [apply serves_pending_cleanup|]. intros _ _.
  eapply serves_bind.
  - apply (serves_runs limit (λ limit, list_recoverable_consolidation_runs_before limit before)).
    intros db r. unfold list_recoverable_consolidation_runs_before. case_match; [by intros ?%not_elem_of_nil|].
    intros Hr%sql_limit_elem. rewrite merge_sort_Permutation in Hr. by apply elem_of_select_runs in Hr as [_ Hr].
  - intros runs Hruns. apply (serves_fold _ run_of); [done|]. intros c run. apply serves_step.
Qed.
Hint Resolve serves_recover_before : serves.

Lemma serves_recover_all limit : Serves any (recover_consolidation_runs limit).
Proof. unfold recover_consolidation_runs. serve. Qed.

Lemma serves_review id decision : Serves any (review_consolidation_run id decision).
Proof.
  unfold review_consolidation_run. eapply serves_bind; [apply serves_get_run|]. intros run Hrun.
  eapply (serves_bind _ run_of). { apply serves_lift. destruct run; [|done]. intros r [= <-]. by apply Hrun. }
  clear run Hrun. intros run Hrun. eapply (serves_bind _ any); [by apply serves_query|]. intros lineage _.
  destruct decision.
  - case_bool_decide; [serve|]. case_match; [serve|].
    eapply serves_bind; [apply serves_now|]. intros now _.
    eapply serves_bind; [apply serves_request|]. intros requested _.
    eapply (serves_bind _ any).
    { destruct requested; [serve|]. eapply serves_bind; [apply serves_require|]. intros current _. serve. }
    intros [e|] _; [serve|]. eapply serves_bind; [apply serves_require|]. intros r Hr.
    eapply serves_bind; [by apply serves_recover_one|]. intros _ _.
    eapply serves_bind; [apply serves_execution|]. intros e _. case_match; [|serve].
    eapply serves_bind; [apply serves_require|]. intros r' _. serve.
  - case_bool_decide; [serve|]. case_match; [serve|].
    eapply serves_bind; [apply serves_now|]. intros now _.
    eapply serves_bind; [apply serves_terminate; constructor|]. intros rejected _.
    case_match; [|serve]. eapply serves_bind; [apply serves_require|]. intros current _. serve.
Qed.

Lemma serves_settle others run n :
  Serves any others → run_of run → Serves any (settle_existing_run others run n).
Proof.
  intros Ho. unfold settle_existing_run. generalize ACTIVE_RUN_WAIT_ATTEMPTS as attempts. intros attempts.
  revert run. induction attempts as [|attempts IH]; intros run Hrun; cbn [settle_loop]; [serve|].
  case_match; [serve|]. case_bool_decide; [serve|].
  eapply serves_bind; [apply serves_now|]. intros now _. case_match; [serve|].
  eapply (serves_bind _ any); [done|]. intros _ _. eapply serves_bind; [apply serves_require|]. intros r Hr. by apply IH.
Qed.

End service.
