(* ===== verification/ConsolidateProps.v ===== *)
(** * Properties of the consolidation service

    The service refines the protocol of the journal and keeps the store; a
    requested promotion whose candidates and sources have not drifted is
    committed by one recovery pass, from whatever state a crash left the run
    in; a review does what it was asked to do or nothing. *)

From S2P Require Import Bm25.
From S2P Require Import Prelude Crates Types Str Files WalFormat WalReader WalWriter SegmentFormat Segment.
From S2P Require Import SegmentFacts Metadata MetadataFacts TenantStore Persistent Runs TenantInv TenantFacts.
From S2P Require Import Recovery PersistentFacts AddFacts StoreSpec StoreProps Concrete MetadataProps Fusion.
From S2P Require Import Journal JournalFacts Promotion JournalProps Consolidate ConsolidateFacts Overlay.
From stdpp Require Import relations sorting.

Open Scope Z_scope.

(* ------------------------------------------------------------------ *)
(** ** Computations that return *)

Section returns.
Context {B TK X : Type}.

(** [m] returns from [s], and the value and the new state satisfy [Q]. *)
Definition returns {A} (m : SM B TK X A) (s : Svc B TK X) (Q : A → Svc B TK X → Prop) : Prop :=
  ∃ a s', m s = (Ok a, s') ∧ Q a s'.

Lemma returns_ret {A} (a : A) s Q : Q a s → returns (mret a) s Q.
Proof. intros HQ. by exists a, s. Qed.
Lemma returns_bind {A C} (m : SM B TK X A) (k : A → SM B TK X C) s Q :
  returns m s (λ a s', returns (k a) s' Q) → returns (m ≫= k) s Q.
Proof.
  intros (a & s1 & E & c & s2 & E2 & HQ). exists c, s2. split; [|done].
  unfold mbind, sm_bind. by rewrite E.
Qed.
Lemma returns_mono {A} (m : SM B TK X A) s (Q Q' : A → Svc B TK X → Prop) :
  returns m s Q → (∀ a s', Q a s' → Q' a s') → returns m s Q'.
Proof. intros (a & s' & ? & ?) HQ. exists a, s'. auto. Qed.
Lemma returns_lift {A} (r : memd_result A) a s Q : r = Ok a → Q a s → returns (sm_lift r) s Q.
Proof. intros -> HQ. by exists a, s. Qed.
Lemma returns_state s Q : Q s s → returns sm_state s Q.
Proof. intros HQ. by exists s, s. Qed.
Lemma returns_query {A} (f : JournalDb → A) s Q : Q (f (journal_of s)) s → returns (query f) s Q.
Proof. intros HQ. by exists (f (journal_of s)), s. Qed.
Lemma returns_catch {A} (m : SM B TK X A) s (Q : memd_result A → Svc B TK X → Prop) :
  Q (m s).1 (m s).2 → returns (sm_catch m) s Q.
Proof. intros HQ. exists (m s).1, (m s).2. split; [|done]. unfold sm_catch. by destruct (m s). Qed.
Lemma returns_catch_ok {A} (m : SM B TK X A) s (Q : memd_result A → Svc B TK X → Prop) :
  returns m s (λ a s', Q (Ok a) s') → returns (sm_catch m) s Q.
Proof. intros (a & s' & E & HQ). apply returns_catch. by rewrite E. Qed.
Lemma returns_sql {A} (f : JournalDb → memd_result (A * JournalDb)) a db s (Q : A → Svc B TK X → Prop) :
  f (journal_of s) = Ok (a, db) → Q a (set_journal db s) → returns (sql f) s Q.
Proof. intros E HQ. exists a, (set_journal db s). unfold sql. by rewrite E. Qed.
Lemma returns_fold {A C} (body : C → A → SM B TK X C) (l : list A) acc s
    (I : list A → C → Svc B TK X → Prop) (Q : C → Svc B TK X → Prop) :
  I l acc s →
  (∀ x rest c s', I (x :: rest) c s' → returns (body c x) s' (λ c' s'', I rest c' s'')) →
  (∀ c s', I [] c s' → Q c s') → returns (sm_fold body l acc) s Q.
Proof.
  intros HI Hstep HQ. revert acc s HI. induction l as [|x l IH]; intros acc s HI; cbn [sm_fold].
  - by apply returns_ret, HQ.
  - apply returns_bind. eapply returns_mono; [by apply Hstep|]. cbn beta. intros c s' HI'. by apply IH.
Qed.
End returns.

(* ------------------------------------------------------------------ *)
(** ** The audit check reads files and the run only *)

Definition same_plan (r r' : ConsolidationRun) : Prop :=
  same_scope r r' ∧ rn_audit_artifact_path r' = rn_audit_artifact_path r ∧
  rn_response_hash r' = rn_response_hash r.

Section audit.
Context {B TK X : Type} `{SHA : Sha256} `{JV : JsonCodec}.
Implicit Types s : Svc B TK X.

Lemma audit_pure run s :
  validate_raw_response_audit run s = ((validate_raw_response_audit run s).1, s).
Proof.
  unfold validate_raw_response_audit, mbind, sm_bind, sm_lift, sm_err, sm_state, mret, sm_ret.
  destruct (ok_or (rn_audit_artifact_path run) _) as [rel|e]; [|done].
  destruct (is_absolute rel || _); [done|].
  destruct (lift_io (sv_read s (components rel))) as [bytes|e]; [|done].
  destruct (_ <? zlen bytes); [done|].
  destruct (ok_or (json_parse bytes) _) as [a|e]; [|done].
  destruct (ok_or _ _) as [h|e]; [|done]. destruct (negb _); [done|].
  destruct (ok_or _ _) as [body|e]; [|done]. destruct (ok_or _ _) as [sh|e]; [|done].
  destruct (negb _); [done|]. by destruct (_ && _).
Qed.

Lemma audit_ext run run' s s' :
  rn_audit_artifact_path run' = rn_audit_artifact_path run →
  rn_response_hash run' = rn_response_hash run → sv_read s' = sv_read s →
  (validate_raw_response_audit run' s').1 = (validate_raw_response_audit run s).1.
Proof.
  intros Hp Hh Hr.
  unfold validate_raw_response_audit, mbind, sm_bind, sm_lift, sm_err, sm_state, mret, sm_ret.
  rewrite Hp. destruct (ok_or (rn_audit_artifact_path run) _) as [rel|e]; [|done].
  destruct (is_absolute rel || _); [done|]. rewrite Hr.
  destruct (lift_io (sv_read s (components rel))) as [bytes|e]; [|done].
  destruct (_ <? zlen bytes); [done|].
  destruct (ok_or (json_parse bytes) _) as [a|e]; [|done].
  destruct (ok_or _ _) as [h|e]; [|done]. rewrite Hh. destruct (negb _); [done|].
  destruct (ok_or _ _) as [body|e]; [|done]. destruct (ok_or _ _) as [sh|e]; [|done].
  destruct (negb _); [done|]. by destruct (_ && _).
Qed.
End audit.

(* ------------------------------------------------------------------ *)
(** ** A run without drift *)

(** The rows a promotion needs, at one reading of the clock. *)
Record drift_free (now : Z) (db : JournalDb) (run : ConsolidationRun) : Prop := {
  df_candidate c : candidate_of (rn_run_id run) db c → ∃ r, jd_chunks db !! c = Some r ∧
    r_tenant r = rn_tenant_id run ∧ r_status r = Candidate ∧
    cm_project_id (r_meta r) = rn_project_id run;
  df_source e : e ∈ jd_lineage db → ml_run_id e = rn_run_id run → ∃ r,
    jd_chunks db !! ml_source_chunk_id e = Some r ∧ r_tenant r = rn_tenant_id run ∧
    source_drifted now r = false ∧
    (ml_relation e = Supersedes → cm_project_id (r_meta r) = rn_project_id run);
}.

Lemma drift_free_promotable now db run r :
  drift_free now db run → same_plan run r → rn_state r = Validated →
  rn_promotion_requested r = true → promotable (rn_run_id run) now db r.
Proof.
  intros [Hc Hs] ((_ & Et & Ep & _) & _) Hst Hreq. split; [done..| |].
  - intros c Hcand. rewrite Et, Ep. by apply Hc.
  - intros e He Hid. rewrite Et, Ep. by apply Hs.
Qed.

Lemma drift_free_moved now g h db run :
  (∀ e, same_slot e (h e)) → drift_free now db run →
  drift_free now (moved (rn_run_id run) g h db) run.
Proof.
  intros Hh [Hc Hs]. split; [|exact Hs]. intros c (k & e' & He' & Hid & Hcand). apply Hc.
  cbn in He'. rewrite lookup_fmap in He'. apply fmap_Some in He' as (e & He & ->).
  exists k, e. split; [done|]. destruct (Hh e) as (E1 & _ & E3).
  case_bool_decide; [rewrite E1 in Hid; rewrite E3 in Hcand|]; done.
Qed.

Section recovery.
Context `{BOL : ByteOrderLaws} `{CRL : Crc32Laws} `{RBL : RoaringLaws B}.
Context `{BWL : BincodeLaws WalRecord} `{JCL : JsonLaws MemoryChunk}.
Context `{UUL : UuidLaws ChunkId} `{TT : TaskTables TK}.
Context `{CAP : BufCap} `{BM : Bincode SegmentMeta} `{UC : Unicode} `{SHA : Sha256}.
Context `{JV : JsonCodec} `{ET : ErrorText} `{SI : SparseIndex X} {HI : HashIter ChunkId}.
Implicit Types (s : Svc B TK X) (A : gmap ChunkId MemoryChunk).

(** A run of the open tenant in state [st], asked to be promoted, whose
    candidates and sources have not drifted and do not before the clock
    readings to come. *)
Record pending (run : ConsolidationRun) A (st : ConsolidationState) s : Prop := {
  pd_wf : journal_wf (journal_of s);
  pd_store : implements (rn_tenant_id run) (sv_store s) A;
  pd_run : ∃ r, sv_runs s !! rn_run_id run = Some r ∧ same_plan run r ∧ rn_state r = st ∧
                rn_promotion_requested r = true;
  pd_fresh n : drift_free (sv_clock s n) (journal_of s) run;
  pd_audit : (validate_raw_response_audit run s).1 = Ok ();
}.

Section one_run.
Context (run : ConsolidationRun) (A : gmap ChunkId MemoryChunk).
Abbreviation t := (rn_tenant_id run).
Abbreviation id := (rn_run_id run).

(** Parts of the state the protocol does not look at. *)
Lemma pending_frame st s s' :
  pending run A st s → journal_of s' = journal_of s → implements t (sv_store s') A →
  sv_read s' = sv_read s → (∃ k, ∀ n, sv_clock s' n = sv_clock s (k + n)%nat) → pending run A st s'.
Proof.
  intros [W Hi Hr Hf Ha] Ej Hi' Er [k Hk]. split; rewrite ?Ej; try done.
  - pose proof (f_equal jd_runs Ej) as E. cbn in E. by rewrite E.
  - intros n. rewrite Hk. apply Hf.
  - by rewrite (audit_ext run run s s').
Qed.

Lemma returns_now st s (Q : Z → Svc B TK X → Prop) :
  pending run A st s →
  (∀ s', pending run A st s' → journal_of s' = journal_of s →
         drift_free (sv_clock s 0) (journal_of s) run → Q (sv_clock s 0) s') →
  returns now_ms s Q.
Proof.
  intros P HQ. exists (sv_clock s 0). eexists. split; [done|]. apply HQ; [|done|apply P].
  eapply pending_frame; [exact P|done|apply P|done|]. by exists 1%nat.
Qed.

(** Reading a chunk answers from the map and keeps everything. *)
Lemma returns_get_chunk st s c (Q : option MemoryChunk → Svc B TK X → Prop) :
  pending run A st s →
  (∀ s', pending run A st s' → journal_of s' = journal_of s → Q (A !! c) s') →
  returns (store_op (get_chunk t c)) s Q.
Proof.
  intros P HQ. destruct (get_chunk_reads t s A c (pd_store _ _ _ _ P)) as (s' & E & Hi & Ej & Er & Ec).
  exists (A !! c), s'. split; [done|]. apply HQ; [|done].
  eapply pending_frame; [exact P|done..|]. exists 0%nat. by rewrite Ec.
Qed.

Lemma candidate_live st s c :
  pending run A st s → candidate_of id (journal_of s) c →
  is_Some (A !! c) ∧ ∃ m, get t c (jd_chunks (journal_of s)) = Some m ∧
    cm_status m = Candidate ∧ cm_project_id m = rn_project_id run.
Proof.
  intros P Hc. destruct (df_candidate _ _ _ (pd_fresh _ _ _ _ P 0) c Hc) as (r & Hr & Ht & Hs & Hp).
  assert (Hg : get t c (jd_chunks (journal_of s)) = Some (r_meta r)).
  { apply get_spec. exists r. split_and!; [done..| |done]. by rewrite Hs. }
  split; [|by exists (r_meta r)].
  apply (implements_dom t _ _ c (pd_store _ _ _ _ P)). by exists (r_meta r).
Qed.

Lemma entry_candidate st s e :
  pending run A st s → e ∈ query_consolidation_entries id (journal_of s) →
  ∃ c, en_candidate_chunk_id e = Some c ∧ candidate_of id (journal_of s) c.
Proof.
  intros P [Hid [k Hk]]%elem_of_query_entries.
  destruct (jw_entry _ (pd_wf _ _ _ _ P) _ _ Hk) as (_ & [c Hc] & _). exists c. split; [done|].
  by exists k, e.
Qed.

Lemma sources_valid st s relation now :
  pending run A st s → drift_free now (journal_of s) run →
  (∀ e, e ∈ query_memory_lineage id (journal_of s) → ml_relation e = relation) →
  validate_sources t (rn_project_id run) relation
    (lineage_sources (query_memory_lineage id (journal_of s))) now (jd_chunks (journal_of s)) = Ok ().
Proof.
  intros P Hd Hrel. apply try_fold_unit_ok. intros c Hc. unfold btree_iter in Hc.
  rewrite merge_sort_Permutation, elem_of_elements in Hc. unfold lineage_sources in Hc.
  apply elem_of_list_to_set, list_elem_of_fmap in Hc as (e & -> & He).
  pose proof (Hrel e He) as Hre. apply elem_of_query_lineage in He as [Hid Hin].
  destruct (df_source _ _ _ Hd e Hin Hid) as (r & Hr & Ht & Hdr & Hp).
  unfold source_drifted in Hdr. guard_false Hdr. destruct Hdr as [[[Hfin Hsup] Htier] Hexp].
  apply status_in_true, list_elem_of_singleton in Hfin.
  assert (Hg : get t (ml_source_chunk_id e) (jd_chunks (journal_of s)) = Some (r_meta r)).
  { apply get_spec. exists r. split_and!; [done..| |done]. by rewrite Hfin. }
  unfold validate_source. rewrite Hg. cbn [ok_or mbind result_bind].
  unfold r_status in Hfin. rewrite (bool_decide_true _ Hfin). unfold r_lc in *. rewrite Hsup.
  rewrite (bool_decide_false _ Htier). unfold expired_by, r_lc in Hexp. rewrite Hexp. cbn [negb orb].
  case_bool_decide as Hrs; [|done]. rewrite (bool_decide_true _ (Hp (eq_trans Hre Hrs))). done.
Qed.

Lemma lineage_nonempty st s :
  pending run A st s →
  ∃ first rest, query_memory_lineage id (journal_of s) = first :: rest ∧
    ∀ e, e ∈ query_memory_lineage id (journal_of s) → ml_relation e = ml_relation first.
Proof.
  intros P. destruct (pd_run _ _ _ _ P) as (r & Hr & _).
  destruct (run_has_lineage id (journal_of s) r (pd_wf _ _ _ _ P) Hr) as (first & rest & E).
  exists first, rest. split; [done|]. intros e He.
  assert (Hf : first ∈ query_memory_lineage id (journal_of s)) by (rewrite E; by left).
  apply elem_of_query_lineage in He as [? ?], Hf as [? ?].
  apply (jw_relation _ (pd_wf _ _ _ _ P)); [done..|congruence].
Qed.

(** Validation accepts the run. *)
Lemma returns_audit st s (Q : () → Svc B TK X → Prop) r :
  pending run A st s → rn_audit_artifact_path r = rn_audit_artifact_path run →
  rn_response_hash r = rn_response_hash run → Q () s → returns (validate_raw_response_audit r) s Q.
Proof.
  intros P Hp Hh HQ. exists (), s. split; [|done]. rewrite audit_pure.
  by rewrite (audit_ext run r s s), (pd_audit _ _ _ _ P).
Qed.

Lemma returns_validate st s (Q : () → Svc B TK X → Prop) :
  pending run A st s →
  (∀ s', pending run A st s' → journal_of s' = journal_of s → Q () s') →
  returns (validate_candidate_run run) s Q.
Proof.
  intros P HQ. unfold validate_candidate_run. apply returns_bind.
  apply (returns_audit st); [done..|]. apply returns_bind, returns_query.
  destruct (pd_run _ _ _ _ P) as (r & Hr & _).
  destruct (run_has_entry id (journal_of s) r (pd_wf _ _ _ _ P) Hr) as (e0 & es & Ee).
  rewrite bool_decide_false by (by rewrite Ee).
  apply returns_bind, (returns_fold _ _ _ _ (λ rest _ s', pending run A st s' ∧
    journal_of s' = journal_of s ∧ ∀ e, e ∈ rest → e ∈ query_consolidation_entries id (journal_of s))).
  - split_and!; done.
  - intros e rest [] s' (P' & Ej & Hin). unfold validate_candidate.
    destruct (entry_candidate st s e P) as (c & Hc & Hcand); [apply Hin; by left|].
    apply returns_bind. eapply returns_lift; [by rewrite Hc|]. apply returns_bind, returns_query.
    rewrite <- Ej in Hcand. destruct (candidate_live st s' c P' Hcand) as ([chunk Hchunk] & m & Hm & Hs & Hp).
    apply returns_bind. eapply returns_lift; [by rewrite Hm|].
    rewrite (bool_decide_true _ Hs), (bool_decide_true _ Hp). cbn [negb orb].
    apply returns_bind, (returns_get_chunk st); [done|]. intros s2 P2 Ej2. rewrite Hchunk. cbn [is_none].
    apply returns_ret. split_and!; [done|congruence|]. intros e' He'. apply Hin. by right.
  - intros [] s' (P' & Ej & _). apply returns_bind, returns_query.
    destruct (lineage_nonempty st s' P') as (first & rest & El & Hrel).
    apply returns_bind. eapply returns_lift; [by rewrite El|].
    apply returns_bind, (returns_now st); [done|]. intros s2 P2 Ej2 Hd.
    apply returns_bind, returns_query. eapply returns_lift; [|apply HQ; [done|congruence]].
    rewrite Ej2. by apply (sources_valid st s').
Qed.

(** The plan of the run, which no statement changes. *)
Definition plan_kept (db db' : JournalDb) : Prop :=
  (∀ c, candidate_of id db c → candidate_of id db' c) ∧ jd_lineage db' = jd_lineage db.

#[local] Instance plan_kept_preorder : PreOrder plan_kept.
Proof.
  split; [done|]. intros db1 db2 db3 [K1 L1] [K2 L2]. split; [auto|congruence].
Qed.

Lemma moved_candidates g h db c :
  (∀ e, same_slot e (h e)) → candidate_of id db c → candidate_of id (moved id g h db) c.
Proof.
  intros Hh (k & e & He & Hid & Hc). destruct (Hh e) as (E1 & _ & E3).
  exists k, (h e). cbn. rewrite lookup_fmap, He. cbn. rewrite (bool_decide_true _ Hid), E1, E3. done.
Qed.

Lemma returns_require st s (Q : ConsolidationRun → Svc B TK X → Prop) :
  pending run A st s →
  (∀ r, same_plan run r → rn_state r = st → rn_promotion_requested r = true → Q r s) →
  returns (require_run id) s Q.
Proof.
  intros P HQ. destruct (pd_run _ _ _ _ P) as (r & Hr & ? & ? & ?). unfold require_run.
  apply returns_bind, returns_query. eapply returns_lift; [|by apply HQ].
  unfold get_consolidation_run. cbn. by rewrite Hr.
Qed.

(** A transition of the run takes place. *)
Lemma returns_transition st next vr err now s (Q : bool → Svc B TK X → Prop) :
  pending run A st s → guarded_transition st next →
  (∀ s', pending run A next s' → plan_kept (journal_of s) (journal_of s') → Q true s') →
  returns (sql (transition_consolidation_run id st next now vr err)) s Q.
Proof.
  intros P Hg HQ. pose proof (pd_wf _ _ _ _ P) as W.
  destruct (pd_run _ _ _ _ P) as (r & Hr & Hplan & Hst & Hreq).
  pose proof (transition_spec id st next now vr err (journal_of s) W) as E.
  change (jd_runs (journal_of s)) with (sv_runs s) in E. rewrite Hr, (bool_decide_true _ Hst) in E.
  eapply returns_sql; [exact E|].
  apply HQ; [|by rewrite journal_of_set; split; [intros c; apply moved_candidates|]].
  split.
  - rewrite journal_of_set. eapply op_wf; [exact W|]. by eapply op_transition.
  - unfold set_journal, set_world_db. cbn [sv_store moved with_entries with_runs jd_chunks journal_of].
    assert (Ew : with_db (w_db (s_world (sv_store s))) (s_world (sv_store s)) = s_world (sv_store s))
      by (by destruct (s_world (sv_store s))).
    rewrite Ew. apply implements_trace, P.
  - cbn. rewrite lookup_alter_eq, Hr. eexists. split; [done|]. split_and!; [exact Hplan|done|exact Hreq].
  - intros n. rewrite journal_of_set. cbn [set_journal sv_clock]. apply drift_free_moved; [done|apply P].
  - rewrite (audit_ext run run s); [apply P|done..].
Qed.

(** Every candidate is counted. *)
Lemma returns_count st s (Q : Z → Svc B TK X → Prop) :
  pending run A st s →
  (∀ s', pending run A st s' → journal_of s' = journal_of s →
     Q (zlen (query_consolidation_entries id (journal_of s))) s') →
  returns (sm_fold (count_present run) (query_consolidation_entries id (journal_of s)) 0) s Q.
Proof.
  intros P HQ. set (entries := query_consolidation_entries id (journal_of s)).
  apply (returns_fold _ _ _ _ (λ rest n s', pending run A st s' ∧ journal_of s' = journal_of s ∧
    n + zlen rest = zlen entries ∧ ∀ e, e ∈ rest → e ∈ entries)).
  - by split_and!.
  - intros e rest n s' (P' & Ej & Hn & Hin). unfold count_present.
    destruct (entry_candidate st s e P) as (c & Hc & Hcand); [apply Hin; by left|]. rewrite Hc.
    apply returns_bind, returns_query. rewrite <- Ej in Hcand.
    destruct (candidate_live st s' c P' Hcand) as ([chunk Hchunk] & m & Hm & _). rewrite Hm. cbn [is_none].
    apply returns_bind, (returns_get_chunk st); [done|]. intros s2 P2 Ej2. rewrite Hchunk. cbn [is_none].
    apply returns_ret. split_and!; [done|congruence| |intros e' He'; apply Hin; by right].
    unfold zlen in *. cbn [length] in Hn. lia.
  - intros n s' (P' & Ej & Hn & _). unfold zlen at 1 in Hn. cbn in Hn.
    replace n with (zlen entries) by lia. by apply HQ.
Qed.

Lemma recovers_planned s (Q : option ConsolidationState → Svc B TK X → Prop) :
  pending run A Planned s →
  (∀ s', pending run A CandidateWritten s' → plan_kept (journal_of s) (journal_of s') →
         Q (Some CandidateWritten) s') →
  returns (recover_planned run) s Q.
Proof.
  intros P HQ. unfold recover_planned. apply returns_bind, returns_query, returns_bind.
  apply (returns_count Planned); [done|]. intros s1 P1 E1.
  apply returns_bind, (returns_now Planned); [done|]. intros s2 P2 E2 _.
  rewrite Z.eqb_refl. cbn [negb]. apply returns_bind.
  apply (returns_transition Planned CandidateWritten); [done|constructor|]. intros s3 P3 K3.
  apply returns_ret, HQ; [done|]. rewrite <- E1, <- E2. exact K3.
Qed.

(** What the stages that reach [Validated] return. *)
Definition reaches_validated (s : Svc B TK X) (o : option (ConsolidationState * ConsolidationRun))
    (s' : Svc B TK X) : Prop :=
  ∃ r, o = Some (Validated, r) ∧ same_plan run r ∧ rn_promotion_requested r = true ∧
       pending run A Validated s' ∧ plan_kept (journal_of s) (journal_of s').

Lemma recovers_written s :
  pending run A CandidateWritten s → returns (recover_written run) s (reaches_validated s).
Proof.
  intros P. unfold recover_written. apply returns_bind, returns_catch_ok, (returns_validate CandidateWritten); [done|].
  intros s1 P1 E1. apply returns_bind, (returns_now CandidateWritten); [done|]. intros s2 P2 E2 _.
  apply returns_bind, (returns_transition CandidateWritten Validated); [done|constructor|]. intros s3 P3 K3.
  apply returns_bind, (returns_require Validated); [done|]. intros r Hplan _ Hreq. apply returns_ret.
  exists r. split_and!; try done; rewrite <- E1, <- E2; apply K3.
Qed.

Lemma recovers_failed s :
  pending run A FailedRecoverable s → returns (recover_failed run) s (reaches_validated s).
Proof.
  intros P. unfold recover_failed. apply returns_bind, (returns_now FailedRecoverable); [done|]. intros s1 P1 E1 _.
  apply returns_bind, (returns_transition FailedRecoverable Validated); [done|constructor|]. intros s2 P2 K2.
  apply returns_bind, (returns_require Validated); [done|]. intros r Hplan _ Hreq. apply returns_ret.
  exists r. split_and!; try done; rewrite <- E1; apply K2.
Qed.

(** What a commit leaves behind: the run is committed; the store implements
    the map with every candidate final and every replaced source superseded. *)
Definition landed (db0 : JournalDb) (s : Svc B TK X) : Prop :=
  journal_wf (journal_of s) ∧ rn_state <$> sv_runs s !! id = Some Committed ∧
  ∃ A', implements t (sv_store s) A' ∧ dom A' = dom A ∧
    (∀ c, candidate_of id db0 c → mc_status <$> A' !! c = Some Final) ∧
    (∀ e, e ∈ jd_lineage db0 → ml_run_id e = id → ml_relation e = Supersedes →
       mc_status <$> A' !! ml_source_chunk_id e = Some Superseded).

Lemma landed_done db0 now s :
  landed db0 s →
  landed db0 (set_journal (mark_consolidation_sparse_cleanup_done id now (journal_of s)).2 s).
Proof.
  intros (W & Hst & A' & Hi & Hmap). unfold landed. rewrite journal_of_set, cleanup_done_snd.
  match goal with |- context [update_run id ?cond ?f _] => set (c := cond); set (g := f) end.
  destruct (update_run_frame id c g (journal_of s)) as (Ec & _ & _). split_and!.
  - apply update_run_wf; [done|]. intros r [Hr%run_in_true _]%andb_true_iff.
    apply list_elem_of_singleton in Hr. split_and!; [done..|]. by right.
  - cbn [set_journal sv_runs]. rewrite update_run_lookup. change (jd_runs (journal_of s)) with (sv_runs s).
    destruct (sv_runs s !! id) as [r|]; [|done]. cbn. by case_match.
  - exists A'. split; [|done]. unfold set_journal, set_world_db. cbn [sv_store]. rewrite Ec.
    assert (Ew : with_db (jd_chunks (journal_of s)) (s_world (sv_store s)) = s_world (sv_store s))
      by (by destruct s as [[? []]]).
    rewrite Ew. by apply implements_trace.
Qed.

(** The cleanup cannot fail after a commit. *)
Lemma returns_finish db0 relation ids s :
  landed db0 s → returns (finish_sparse_cleanup_for_run id t relation ids) s (λ _ s', landed db0 s').
Proof.
  intros L. unfold finish_sparse_cleanup_for_run. apply returns_bind.
  apply (returns_mono _ _ (λ _ s', landed db0 s')).
  - unfold cleanup_superseded_sparse_rows. destruct (negb _); [by apply returns_ret|].
    apply returns_bind, returns_state. destruct (sv_sparse s) as [x|]; [|by apply returns_ret].
    apply (returns_fold _ _ _ _ (λ _ _ s', landed db0 s')); [done| |done].
    intros c rest b s' L'. unfold cleanup_source. apply returns_bind, returns_state.
    destruct (sv_sparse s') as [x'|]; [|by apply returns_ret].
    destruct (sparse_delete t c x') as [o x2]. apply returns_bind. eexists (), _. split; [done|].
    by apply returns_ret.
  - intros [] s' L'; [|by apply returns_ret]. apply returns_bind. eexists _, _. split; [done|].
    apply returns_bind. unfold sql_exec.
    match goal with |- returns (sql _) ?s2 _ => set (s3 := s2) end.
    eapply returns_sql; [by rewrite (surjective_pairing (mark_consolidation_sparse_cleanup_done _ _ _))|].
    apply returns_ret, landed_done. exact L'.
Qed.

Lemma returns_cleanup db0 s :
  landed db0 s → returns (cleanup_committed id t) s (λ _ s', landed db0 s').
Proof.
  intros L. pose proof L as (W & Hst & _). unfold cleanup_committed.
  apply returns_bind, returns_query. apply fmap_Some in Hst as (r & Hr & _).
  destruct (run_has_lineage id (journal_of s) r W Hr) as (first & rest & El).
  apply returns_bind. eapply returns_lift; [by rewrite El|]. by apply returns_finish.
Qed.

(** A promotion lands. *)
Lemma promoted_lands s now :
  pending run A Validated s → drift_free now (journal_of s) run →
  returns (sql (atomic_promote_consolidation_run id now)) s (λ _ s', landed (journal_of s) s').
Proof.
  intros P Hd. pose proof (pd_wf _ _ _ _ P) as W. set (db := journal_of s) in *.
  destruct (pd_run _ _ _ _ P) as (r & Hr & Hplan & Hst & Hreq). change (jd_runs db !! id = Some r) in Hr.
  assert (Hp : promotable id now db r) by (by apply drift_free_promotable).
  pose proof (promotion_spec id now db W) as E. rewrite Hr in E. rewrite bool_decide_false in E by (by rewrite Hst).
  eapply returns_sql; [by apply E|]. unfold landed. rewrite journal_of_set. split_and!.
  - by eapply promoted_wf.
  - transitivity (rn_state <$> jd_runs (promoted id now db) !! id); [done|]. cbn [promoted with_chunks moved with_entries with_runs jd_runs]. by rewrite lookup_alter_eq, Hr.
  - assert (Ho : overlaid (db_of (sv_store s)) (jd_chunks (promoted id now db)))
      by (by eapply (promoted_overlaid id now db)).
    pose proof (implements_overlaid t _ _ _ (s_trace (sv_store s) ++
      [with_db (jd_chunks (promoted id now db)) (s_world (sv_store s))]) (pd_store _ _ _ _ P) Ho) as Hi.
    exists (restatus t (jd_chunks (promoted id now db)) A). split; [exact Hi|]. split; [apply restatus_dom|].
    split.
    + intros c Hc. destruct (pr_candidate _ _ _ _ Hp c Hc) as (r0 & Hr0 & Ht & _).
      eapply (restatus_row t _ _ _ _ r0); [apply P|done|done| |by eapply promoted_candidate|done].
      rewrite Ht. apply Hplan.
    + intros e He Hid Hrel. destruct (pr_source _ _ _ _ Hp e He Hid) as (r0 & Hr0 & Ht & _).
      eapply (restatus_row t _ _ _ _ r0); [apply P|done|done| | |done].
      { rewrite Ht. apply Hplan. }
      pose proof (promoted_source id now db r e W Hr Hp He Hid Hrel) as Hx.
      destruct (jd_chunks (promoted id now db) !! ml_source_chunk_id e); cbn in *; congruence.
Qed.

Lemma landed_kept db0 db1 s : plan_kept db0 db1 → landed db1 s → landed db0 s.
Proof.
  intros [Hc He] (W & Hst & A' & Hi & Hd & Hcand & Hsrc). split_and!; [done..|]. exists A'.
  split_and!; [done..| |]; [auto|]. intros e Hin. apply Hsrc. by rewrite He.
Qed.

Lemma recovers_validated r s :
  pending run A Validated s → same_plan run r → rn_promotion_requested r = true →
  returns (recover_validated run r) s (λ _ s', landed (journal_of s) s').
Proof.
  intros P ((Eid & _) & Hp & Hh) Hreq. unfold recover_validated. rewrite Hreq. cbn [negb].
  apply returns_bind, returns_catch_ok.
  apply (returns_mono _ _ (λ _ s', landed (journal_of s) s')); [|intros o s' L; by apply returns_cleanup].
  unfold promote_validated_run. apply returns_bind, (returns_audit Validated); [done..|].
  apply returns_bind, (returns_now Validated); [done|]. intros s1 P1 E1 Hd. rewrite Eid, <- E1.
  apply promoted_lands; [done|]. by rewrite E1.
Qed.

Lemma recovers st s :
  st ∈ [Planned; CandidateWritten; Validated; FailedRecoverable] → pending run A st s →
  returns (recover_one_run run) s (λ _ s', landed (journal_of s) s').
Proof.
  intros Hin P. unfold recover_one_run. apply returns_bind, (returns_require st); [done|].
  intros r Hplan Hst Hreq. rewrite Hst. apply returns_bind.
  apply (returns_mono _ _ (λ o s', ∃ st', o = Some st' ∧ pending run A st' s' ∧
    st' ∈ [CandidateWritten; Validated; FailedRecoverable] ∧ plan_kept (journal_of s) (journal_of s'))).
  { case_bool_decide as Hs.
    - subst st. rewrite Hs in P. apply recovers_planned; [done|]. intros s' P' K. exists CandidateWritten.
      split_and!; [done..|set_solver|done].
    - apply returns_ret. exists st. split_and!; [done..|set_solver|done]. }
  intros o s1 (st1 & -> & P1 & Hin1 & K1). apply returns_bind.
  apply (returns_mono _ _ (λ o s', ∃ st' r', o = Some (st', r') ∧ pending run A st' s' ∧ same_plan run r' ∧
    rn_promotion_requested r' = true ∧ st' ∈ [Validated; FailedRecoverable] ∧
    plan_kept (journal_of s) (journal_of s'))).
  { case_bool_decide as Hs.
    - subst st1. eapply returns_mono; [by apply recovers_written|].
      intros o s' (r' & -> & ? & ? & ? & ?). exists Validated, r'. split_and!; [done..|set_solver|by etrans].
    - apply returns_ret. exists st1, r. split_and!; [done..|set_solver|done]. }
  clear Hplan Hst Hreq. intros o' s2 (st2 & r2 & -> & P2 & Hplan & Hreq & Hin2 & K2). apply returns_bind.
  apply (returns_mono _ _ (λ o s', ∃ r', o = Some (Validated, r') ∧ same_plan run r' ∧
    rn_promotion_requested r' = true ∧ pending run A Validated s' ∧ plan_kept (journal_of s) (journal_of s'))).
  { case_bool_decide as Hs.
    - subst st2. eapply returns_mono; [by apply recovers_failed|].
      intros o s' (r' & -> & ? & ? & ? & ?). exists r'. split_and!; [done..|by etrans].
    - assert (st2 = Validated) as -> by set_solver. apply returns_ret. exists r2. by split_and!. }
  intros o' s3 (r3 & -> & Hplan3 & Hreq3 & P3 & K3). rewrite bool_decide_true by done.
  eapply returns_mono; [by apply recovers_validated|]. intros [] s4 L. by eapply landed_kept.
Qed.

End one_run.

(** A run of the same plan. *)
Lemma pending_same run r A st s : same_plan run r → pending run A st s → pending r A st s.
Proof.
  intros ((Ei & Et & Ep & Eh) & Ea & Er) [W Hi (r0 & Hr0 & ((? & ? & ? & ?) & ? & ?) & Hst & Hreq) Hf Ha].
  split; [done|by rewrite Et| | |by rewrite (audit_ext run r s s)].
  - exists r0. rewrite Ei. unfold same_plan, same_scope. split_and!; congruence.
  - intros n. destruct (Hf n) as [Hc Hs]. split; rewrite Ei, Et, Ep; done.
Qed.

Lemma recovers_same run r A st s :
  same_plan run r → st ∈ [Planned; CandidateWritten; Validated; FailedRecoverable] → pending run A st s →
  returns (recover_one_run r) s (λ _ s', landed run A (journal_of s) s').
Proof.
  intros Hplan Hin P. eapply returns_mono; [by eapply (recovers r A st), pending_same|].
  intros [] s' L. destruct Hplan as ((Ei & Et & _) & _). unfold landed in *. by rewrite Ei, Et in L.
Qed.

(* ------------------------------------------------------------------ *)
(** ** Review *)

Section review.
Context (run : ConsolidationRun) (A : gmap ChunkId MemoryChunk).
Abbreviation t := (rn_tenant_id run).
Abbreviation id := (rn_run_id run).

(** The same, before anyone asked for the promotion. *)
Record reviewable s : Prop := {
  rv_wf : journal_wf (journal_of s);
  rv_store : implements t (sv_store s) A;
  rv_run : ∃ r, sv_runs s !! id = Some r ∧ same_plan run r ∧ rn_state r = Validated;
  rv_fresh n : drift_free (sv_clock s n) (journal_of s) run;
  rv_audit : (validate_raw_response_audit run s).1 = Ok ();
}.

Lemma reviewable_now s : reviewable s → reviewable (now_ms s).2.
Proof.
  intros [W Hi Hr Hf Ha]. split; [exact W|exact Hi|exact Hr| |].
  - intros n. apply (Hf (S n)).
  - by rewrite (audit_ext run run s).
Qed.

Lemma returns_requested s now (Q : bool → Svc B TK X → Prop) :
  reviewable s →
  (∀ s', pending run A Validated s' → plan_kept run (journal_of s) (journal_of s') → Q true s') →
  returns (sql_exec (request_consolidation_promotion id now)) s Q.
Proof.
  intros [W Hi (r & Hr & Hplan & Hst) Hf Ha] HQ.
  set (db' := (request_consolidation_promotion id now (journal_of s)).2).
  assert (E : request_consolidation_promotion id now (journal_of s) = (true, db') ∧
    db' = with_runs (<[id := set_run (rn_state r) (rn_validation_result r) (rn_error r)
            (rn_sparse_cleanup_done r) true now r]> (sv_runs s)) (journal_of s)).
  { unfold db', request_consolidation_promotion. rewrite update_run_spec.
    change (jd_runs (journal_of s)) with (sv_runs s). rewrite Hr.
    replace (run_in _ r) with true; [done|]. symmetry. apply run_in_true. rewrite Hst. set_solver. }
  destruct E as [E Edb]. eapply returns_sql; [by rewrite E|].
  apply HQ; [|rewrite journal_of_set, Edb; by split].
  split.
  - rewrite journal_of_set. eapply op_wf; [exact W|apply op_request].
  - unfold set_journal, set_world_db. cbn [sv_store]. rewrite Edb.
    assert (Ew : with_db (w_db (s_world (sv_store s))) (s_world (sv_store s)) = s_world (sv_store s))
      by (by destruct (s_world (sv_store s))).
    cbn [with_runs jd_chunks journal_of]. rewrite Ew. by apply implements_trace.
  - cbn [set_journal sv_runs]. rewrite Edb. cbn [with_runs jd_runs]. rewrite lookup_insert_eq.
    eexists. split; [done|]. by split_and!.
  - intros n. rewrite journal_of_set, Edb. destruct (Hf n) as [Hcand Hsrc]. by split.
  - by rewrite (audit_ext run run s).
Qed.

Lemma returns_landed db0 n b s (Q : ConsolidationExecution → Svc B TK X → Prop) :
  landed run A db0 s → (∀ e, ce_state e = Committed → Q e s) → returns (execution_from_journal id n b) s Q.
Proof.
  intros (_ & Hst & _) HQ. apply fmap_Some in Hst as (r & Hr & Hst). unfold execution_from_journal, require_run.
  apply returns_bind, returns_bind, returns_query. eapply returns_lift.
  { unfold get_consolidation_run. cbn. by rewrite Hr. }
  apply returns_bind, returns_query, returns_ret, HQ. cbn. congruence.
Qed.

(** A rejection hides the candidates. *)
Lemma returns_reject now s (Q : bool → Svc B TK X → Prop) :
  journal_wf (journal_of s) → rn_state <$> sv_runs s !! id = Some Validated →
  (∀ s', rn_state <$> sv_runs s' !! id = Some Rejected →
     (∀ c r, candidate_of id (journal_of s) c → w_db (s_world (sv_store s')) !! c = Some r →
             r_status r ≠ Candidate) → Q true s') →
  returns (sql (terminate_consolidation_run id Validated Rejected now "rejected by explicit review")) s Q.
Proof.
  intros W Hst HQ.
  pose proof (terminate_spec id Validated Rejected now "rejected by explicit review" (journal_of s) W) as E.
  change (jd_runs (journal_of s)) with (sv_runs s) in E. apply fmap_Some in Hst as (r & Hr & Hst).
  rewrite Hr, bool_decide_true in E by done. eapply returns_sql; [apply E; set_solver|]. apply HQ.
  - cbn [set_journal sv_runs hide_consolidation_candidates hide_candidates snd with_chunks jd_runs moved
      with_entries with_runs]. change (jd_runs (journal_of s)) with (sv_runs s). by rewrite lookup_alter_eq, Hr.
  - intros c row (k & e & Hk & Hid & Hc). cbn. rewrite lookup_fmap. intros (row0 & Hrow & ->)%fmap_Some.
    match goal with |- context [hide_hit ?l row0] => set (ids := l) end.
    destruct (hide_hit ids row0) eqn:Eh; [done|]. unfold hide_hit in Eh.
    assert (Hin : cm_chunk_id (r_meta row0) ∈ ids).
    { rewrite (jw_chunk _ W c row0 Hrow). apply elem_of_entry_candidates. exists k.
      eexists. cbn [moved with_entries jd_entries]. rewrite lookup_fmap, Hk. split; [done|]. cbn. rewrite (bool_decide_true _ Hid). cbn.
      split; [|done]. by apply entry_hit_true. }
    rewrite (bool_decide_true _ Hin), andb_true_r in Eh. intros Hs.
    unfold status_in in Eh. rewrite bool_decide_true in Eh; [done|]. rewrite Hs. by left.
Qed.

(** a review decides.  Accepting a validated run whose candidates and
    sources have not drifted returns an execution in state [Committed], with
    every candidate of the run final and every source it replaces superseded
    in the store; rejecting a validated run always returns an execution in
    state [Rejected] and leaves none of its candidates in a state from which
    a promotion could take it. *)
Theorem review_decides s :
  (reviewable s →
   ∃ e s', review_consolidation_run id Accept s = (Ok e, s') ∧ ce_state e = Committed ∧
     rn_state <$> sv_runs s' !! id = Some Committed ∧
     ∃ A', implements t (sv_store s') A' ∧ dom A' = dom A ∧
       (∀ c, candidate_of id (journal_of s) c → mc_status <$> A' !! c = Some Final) ∧
       (∀ e, e ∈ sv_lineage s → ml_run_id e = id → ml_relation e = Supersedes →
          mc_status <$> A' !! ml_source_chunk_id e = Some Superseded)) ∧
  (journal_wf (journal_of s) → rn_state <$> sv_runs s !! id = Some Validated →
   ∃ e s', review_consolidation_run id Reject s = (Ok e, s') ∧ ce_state e = Rejected ∧
     ∀ c r, candidate_of id (journal_of s) c → w_db (s_world (sv_store s')) !! c = Some r →
       r_status r ≠ Candidate).
Proof.
  split.
  - intros Hrv. enough (returns (review_consolidation_run id Accept) s (λ e s',
      ce_state e = Committed ∧ landed run A (journal_of s) s')) as (e & s' & E & He & _ & Hst & HA) by eauto 10.
    pose proof (rv_run _ Hrv) as (r & Hr & Hplan & Hst). unfold review_consolidation_run.
    apply returns_bind, returns_query, returns_bind.
    eapply returns_lift; [unfold get_consolidation_run; cbn; by rewrite Hr|].
    apply returns_bind, returns_query. rewrite bool_decide_false by (by rewrite Hst).
    rewrite bool_decide_true by done. cbn [negb]. apply returns_bind. eexists _, _. split; [done|].
    apply returns_bind, (returns_requested _ _ _); [by apply reviewable_now in Hrv|]. intros s1 P1 K1.
    apply returns_bind, returns_ret, returns_bind, (returns_require run A Validated); [done|].
    intros r1 Hplan1 _ _. apply returns_bind. eapply returns_mono; [by apply (recovers_same run r1 A Validated); [|set_solver|]|].
    intros [] s2 L. apply returns_bind, (returns_landed _ _ _ _ _ L). intros e He.
    rewrite bool_decide_true by done. apply returns_ret. split; [done|]. by eapply landed_kept.
  - intros W Hst. pose proof Hst as (r & Hr & Hrs)%fmap_Some.
    enough (returns (review_consolidation_run id Reject) s (λ e s', ce_state e = Rejected ∧
      ∀ c r, candidate_of id (journal_of s) c → w_db (s_world (sv_store s')) !! c = Some r →
        r_status r ≠ Candidate)) as (e & s' & E & He & Hc) by eauto.
    unfold review_consolidation_run. apply returns_bind, returns_query, returns_bind.
    eapply returns_lift; [unfold get_consolidation_run; cbn; by rewrite Hr|].
    apply returns_bind, returns_query. rewrite <- Hrs, bool_decide_false by done.
    rewrite bool_decide_true by done. cbn [negb]. apply returns_bind. eexists _, _. split; [done|].
    apply returns_bind, returns_reject; [done..|]. intros s2 Hst2 Hc. cbn [negb].
    apply fmap_Some in Hst2 as (r2 & Hr2 & Hs2). unfold execution_from_journal, require_run.
    apply returns_bind, returns_bind, returns_query. eapply returns_lift.
    { unfold get_consolidation_run. cbn. by rewrite Hr2. }
    by apply returns_bind, returns_query, returns_ret.
Qed.

(** C28: recovery commits.  A run of the open tenant whose promotion was
    requested, found by recovery in any live state a crash may have left it
    in (planned with its payloads written, candidate written, validated, or
    failed but recoverable), with its audit artifact intact and neither its
    candidates nor its sources drifted, is committed by one pass of
    [recover_one_run], which returns no error.  Afterwards the journal is
    well formed and the store holds the same chunks, reads every candidate
    of the run as final and every source it replaces as superseded. *)
Theorem recovery_commits st s :
  st ∈ [Planned; CandidateWritten; Validated; FailedRecoverable] → pending run A st s →
  ∃ s', recover_one_run run s = (Ok (), s') ∧ journal_wf (journal_of s') ∧
    rn_state <$> sv_runs s' !! id = Some Committed ∧
    ∃ A', implements t (sv_store s') A' ∧ dom A' = dom A ∧
      (∀ c, candidate_of id (journal_of s) c → mc_status <$> A' !! c = Some Final) ∧
      (∀ e, e ∈ sv_lineage s → ml_run_id e = id → ml_relation e = Supersedes →
         mc_status <$> A' !! ml_source_chunk_id e = Some Superseded).
Proof.
  intros Hin P. destruct (recovers run A st s Hin P) as ([] & s' & E & W & Hst & HA).
  exists s'. by split_and!.
Qed.

End review.
(* ------------------------------------------------------------------ *)
(** ** The service and the protocol *)

(** The calls of the service. *)
Inductive ServiceCall : Type :=
| CallRecover (limit : Z)
| CallRecoverBefore (limit updated_before_ms : Z)
| CallReview (id : ConsolidationRunId) (decision : ConsolidationReviewDecision).

Definition call (c : ServiceCall) : SM B TK X () :=
  match c with
  | CallRecover limit => _ ← recover_consolidation_runs limit; mret ()
  | CallRecoverBefore limit before => _ ← recover_consolidation_runs_before limit before; mret ()
  | CallReview id decision => _ ← review_consolidation_run id decision; mret ()
  end.

(** Calls in a row, whether or not they fail. *)
Fixpoint calls (l : list ServiceCall) (s : Svc B TK X) : Svc B TK X :=
  match l with [] => s | c :: l => calls l (call c s).2 end.

Lemma serves_call t c : serves t any (call c).
Proof.
  destruct c; (eapply serves_bind; [|intros ? _; by apply serves_ret]).
  - apply serves_recover_all.
  - apply serves_recover_before.
  - apply serves_review.
Qed.

(** C29: the service refines the protocol and keeps the store.  Whatever
    recoveries and reviews are called, in whatever order, and whether they
    succeed or fail halfway (an audit file that cannot be read, a lost row, a
    drifted source), the journal changes only by statements of the protocol
    on the runs there are, stays well formed, and the store keeps
    implementing a map with the same chunks, of which only the status may
    differ: the service loses, adds and rewrites no memory. *)
Theorem service_refines_protocol t l s A :
  journal_wf (journal_of s) → runs_of t (journal_of s) → implements t (sv_store s) A →
  rtc run_op (journal_of s) (journal_of (calls l s)) ∧ journal_wf (journal_of (calls l s)) ∧
  ∃ A', implements t (sv_store (calls l s)) A' ∧ restatused A A'.
Proof.
  intros W Hr Hi. assert (Hs : serving t A s) by (by split). clear W Hr Hi. revert s A Hs.
  induction l as [|c l IH]; intros s A Hs.
  - destruct Hs. split_and!; [done..|]. by exists A.
  - destruct (serves_call t c s A Hs) as (Hsteps & (A1 & Hs1 & HA1) & _).
    destruct (IH _ _ Hs1) as (Hsteps2 & W & A2 & Hi & HA2).
    split_and!; [by etrans|done|]. exists A2. split; [done|by etrans].
Qed.

End recovery.

(* ------------------------------------------------------------------ *)
(** ** A crashed run, recovered *)

(** One source and the candidate that replaces it, written as the plan said;
    the process died before the run left [Planned]. *)
Definition cx_chunk (n : N) (st : ChunkStatus) (ty : ChunkType) : MemoryChunk :=
  mkChunk (ex_id n) ex_tenant (Some "p") None 5 None ty st Raw (mkSource None None None None None None)
    "hi" [] "" Document.
Definition cx_cmd : Cmd := CmdAdd 9 true [cx_chunk 1 Final Doc; cx_chunk 2 Candidate Summary] [ex_id 8; ex_id 9] LaneIndexed.
Definition cx_store : ex_St := (exec ex_tenant cx_cmd ex_s0).2.
Definition cx_map : gmap ChunkId MemoryChunk := (spec cx_cmd ∅).2.

Lemma cx_cmd_admissible : admissible ex_tenant ex_s0 cx_cmd.
Proof.
  cbn [admissible cx_cmd]. split_and!.
  - reflexivity.
  - apply (bool_decide_unpack (NoDup _)). vm_compute. exact I.
  - vm_compute. reflexivity.
  - by repeat constructor.
  - repeat constructor; vm_compute; try reflexivity; constructor.
  - repeat constructor; vm_compute; reflexivity.
Qed.

Lemma cx_implements : implements ex_tenant cx_store cx_map.
Proof.
  destruct (exec_simulates ex_tenant ex_s0 ∅ cx_cmd ex_s0_implements cx_cmd_admissible)
    as (G & K & _ & _ & (out & s' & tr & E & _ & _ & _ & Hi)).
  unfold cx_store. by rewrite E.
Qed.

Definition cx_run : ConsolidationRun :=
  mkRun ex_run_id ex_tenant (Some "p") "input" Planned "cli" None None None None (Some "r") (Some "audit/7.json")
    None None false true 10 10.
Definition cx_entries : list ConsolidationEntryRecord :=
  [mkEntry ex_run_id 0 (Some (ex_id 2)) "sources" Planned None 10 10].
Definition cx_lineage : list MemoryLineage :=
  [mkLineage ex_run_id ex_tenant (Some "p") (ex_id 1) (ex_id 2) Supersedes 10].
Definition cx_db0 : JournalDb := with_chunks (db_of cx_store) journal_empty.
Definition cx_db : JournalDb := result_db (begin_consolidation_run cx_run cx_entries cx_lineage cx_db0) cx_db0.

(** An audit file of one reading, and no sparse index. *)
#[local] Instance cx_json : JsonCodec := {
  json_parse _ := Some (JObject [("response_sha256", JString "r"); ("raw_response", JString "body");
    ("stored_response_sha256", JString "body"); ("truncated", JBool true)]);
  json_pretty _ := [];
}.
#[local] Existing Instance journal_iter.
#[local] Instance cx_text : ErrorText := { error_to_string _ := "error"%string }.
#[local] Instance cx_sparse : SparseIndex () := {
  sparse_insert_batch _ x := (Ok (), x);
  sparse_search _ _ _ x := (Ok [], x);
  sparse_delete _ _ x := (Ok false, x);
  sparse_doc_count _ x := (Ok 0, x);
}.

Definition cx_svc : Svc (gset Z) (list (list byte)) () :=
  mkSvc cx_store (jd_runs cx_db) (jd_entries cx_db) (jd_lineage cx_db) None false (λ _, Ok []) (λ _, 20).

Lemma cx_begin : begin_consolidation_run cx_run cx_entries cx_lineage cx_db0 = Ok (cx_run, cx_db).
Proof. vm_compute. reflexivity. Qed.
Lemma cx_journal : journal_of cx_svc = cx_db.
Proof. vm_compute. reflexivity. Qed.

Lemma cx_wf : journal_wf cx_db.
Proof.
  eapply begin_wf; [|apply cx_begin]. apply chunks_wf; [apply journal_wf_empty|].
  intros c r Hr. destruct cx_implements as (G & rs & ads & Hrun & _).
  by apply (wf_key _ (rs_table _ _ _ _ _ _ (rd_rec _ _ _ _ _ _ (rn_ready _ _ _ _ _ _ Hrun)))).
Qed.

Definition row_facts (r : Row) : TenantId * ChunkStatus * option string * bool :=
  (r_tenant r, r_status r, cm_project_id (r_meta r), source_drifted 20 r).

Lemma cx_candidate : row_facts <$> jd_chunks cx_db !! ex_id 2 = Some (ex_tenant, Candidate, Some "p"%string, true).
Proof. vm_compute. reflexivity. Qed.
Lemma cx_source : row_facts <$> jd_chunks cx_db !! ex_id 1 = Some (ex_tenant, Final, Some "p"%string, false).
Proof. vm_compute. reflexivity. Qed.
Lemma cx_edges : jd_lineage cx_db = cx_lineage.
Proof. vm_compute. reflexivity. Qed.
Lemma cx_candidates : run_candidates ex_run_id cx_db = {[ex_id 2]}.
Proof. vm_compute. reflexivity. Qed.

Lemma cx_drift_free : drift_free 20 cx_db cx_run.
Proof.
  split.
  - intros c Hc%elem_of_run_candidates. change (rn_run_id cx_run) with ex_run_id in Hc.
    rewrite cx_candidates in Hc. apply elem_of_singleton in Hc as ->.
    pose proof cx_candidate as (r & Hr & E)%fmap_Some. exists r. injection E as Et Es Ep _.
    split_and!; [done|by rewrite <- Et|by rewrite <- Es|by rewrite <- Ep].
  - intros e He _. rewrite cx_edges in He. apply list_elem_of_singleton in He as ->.
    pose proof cx_source as (r & Hr & E)%fmap_Some. exists r. injection E as Et _ Ep Ed.
    split_and!; [done|by rewrite <- Et|by rewrite <- Ed|by rewrite <- Ep].
Qed.

Lemma cx_pending : pending cx_run cx_map Planned cx_svc.
Proof.
  split.
  - rewrite cx_journal. apply cx_wf.
  - apply cx_implements.
  - exists cx_run. split; [vm_compute; reflexivity|done].
  - intros n. rewrite cx_journal. apply cx_drift_free.
  - reflexivity.
Qed.

Lemma recovery_commits_witness :
  ∃ s', recover_one_run cx_run cx_svc = (Ok (), s') ∧ journal_wf (journal_of s') ∧
    rn_state <$> sv_runs s' !! ex_run_id = Some Committed ∧
    ∃ A', implements ex_tenant (sv_store s') A' ∧ dom A' = dom cx_map ∧
      (∀ c, candidate_of ex_run_id (journal_of cx_svc) c → mc_status <$> A' !! c = Some Final) ∧
      (∀ e, e ∈ sv_lineage cx_svc → ml_run_id e = ex_run_id → ml_relation e = Supersedes →
         mc_status <$> A' !! ml_source_chunk_id e = Some Superseded).
Proof. apply (recovery_commits cx_run cx_map Planned cx_svc); [set_solver|exact cx_pending]. Defined.

(** The validated run before its review. *)
Definition cx_db1 : JournalDb :=
  result_db (transition_consolidation_run ex_run_id Planned CandidateWritten 11 None None cx_db) cx_db.
Definition cx_db2 : JournalDb :=
  result_db (transition_consolidation_run ex_run_id CandidateWritten Validated 12 None None cx_db1) cx_db1.
Definition cx_svc2 : Svc (gset Z) (list (list byte)) () :=
  mkSvc cx_store (jd_runs cx_db2) (jd_entries cx_db2) (jd_lineage cx_db2) None false (λ _, Ok []) (λ _, 20).

Lemma cx_validated : rn_state <$> sv_runs cx_svc2 !! ex_run_id = Some Validated.
Proof. vm_compute. reflexivity. Qed.
Lemma cx_wf2 : journal_wf (journal_of cx_svc2).
Proof.
  assert (journal_of cx_svc2 = cx_db2) as -> by (vm_compute; reflexivity).
  eapply steps_wf; [apply cx_wf|]. eapply rtc_l.
  - apply step_op, (op_transition ex_run_id Planned CandidateWritten 11 None None true cx_db cx_db1); [constructor|].
    vm_compute. reflexivity.
  - apply rtc_once, step_op.
    apply (op_transition ex_run_id CandidateWritten Validated 12 None None true cx_db1 cx_db2); [constructor|].
    vm_compute. reflexivity.
Qed.

Lemma review_decides_witness :
  ∃ e s', review_consolidation_run ex_run_id Reject cx_svc2 = (Ok e, s') ∧ ce_state e = Rejected ∧
    ∀ c r, candidate_of ex_run_id (journal_of cx_svc2) c → w_db (s_world (sv_store s')) !! c = Some r →
      r_status r ≠ Candidate.
Proof. apply (review_decides cx_run cx_map cx_svc2); [exact cx_wf2|exact cx_validated]. Defined.

Lemma service_refines_protocol_witness :
  ∃ A', implements ex_tenant (sv_store (calls [CallRecover 5; CallReview ex_run_id Accept] cx_svc)) A' ∧
        restatused cx_map A'.
Proof.
  apply (service_refines_protocol ex_tenant [CallRecover 5; CallReview ex_run_id Accept] cx_svc cx_map).
  - rewrite cx_journal. apply cx_wf.
  - rewrite cx_journal. intros id r Hr.
    assert (Hall : map_Forall (λ _ r, rn_tenant_id r = ex_tenant) (jd_runs cx_db))
      by (apply (bool_decide_unpack (map_Forall _ _)); vm_compute; exact I).
    exact (Hall id r Hr).
  - apply cx_implements.
Defined.
