(* ===== verification/Lifecycle.v ===== *)
(** * Writes with a lifecycle
    (src/crates/memd/src/store/persistent/lifecycle.rs and the entry points of
    write.rs)

    Splitting a document and adding its parts, adding with retention
    metadata, lifecycle updates, consolidation candidates, and superseding a
    chunk, with the compensation when the link fails.  The searchers are
    outside, like in Persistent.v. *)

From S2P Require Import Prelude Crates Types Str Sentence Chunking WalFormat WalReader Files WalWriter.
From S2P Require Import SegmentFormat Segment Metadata TenantStore Persistent.

Open Scope Z_scope.

(** Field assignment. *)
Definition set_delta_updated (now_ms : Z) (d : LifecycleDelta) : LifecycleDelta :=
  mkDelta (ld_status d) (ld_tier d) (ld_supersedes d) (ld_superseded_by d) (ld_expires_at_ms d)
    (ld_review_after_ms d) (Some now_ms).

Record AddChunksOutcome : Type := mkOutcome {
  primary_ids : list ChunkId;
  stored_ids : list ChunkId;
}.

Section lifecycle.
Context `{BO : ByteOrder} `{CRC : Crc32} `{RB : Roaring B} `{CAP : BufCap}.
Context `{BW : Bincode WalRecord} `{BM : Bincode SegmentMeta} `{JC : Json MemoryChunk}.
Context `{UU : Uuid ChunkId} `{UC : Unicode} `{TT : TaskTables TK} `{SHA : Sha256}.
Context `{SEG : UnicodeSegmentation}.

(* ------------------------------------------------------------------ *)
(** ** Adding documents *)

(** The body of the loop of [expand_chunks_for_add].  [split_for_add] slices
    the text; the panic of a slice off a character boundary, which valid
    UTF-8 excludes, is an error here. *)
Definition expand_chunk (acc : list MemoryChunk * list nat) (chunk : MemoryChunk)
    : memd_result (list MemoryChunk * list nat) :=
  parts ← ok_or (split_for_add chunk) (StorageError "panic in split_for_add");
  if bool_decide (parts = []) then Err (StorageError "split_for_add produced no chunks")
  else Ok (acc.1 ++ parts, acc.2 ++ [length acc.1]).

Definition expand_chunks_for_add (chunks : list MemoryChunk)
    : memd_result (list MemoryChunk * list nat) :=
  try_fold expand_chunk chunks ([], []).

(** [expanded_ids.get(pos).ok_or_else(..)?] for each primary position. *)
Definition pick_ids (ids : list ChunkId) (positions : list nat) : memd_result (list ChunkId) :=
  try_fold (λ acc pos,
    c ← ok_or (ids !! pos) (StorageError "missing primary chunk id"); Ok (acc ++ [c])) positions [].

(** [add_chunks_internal_with_details_and_hook], its hook doing nothing. *)
Definition add_chunks_with_details (now_ms : Z) (preserve_chunk_ids : bool)
    (chunks : list MemoryChunk) (fresh : list ChunkId) (lane : IndexLane) : M B TK AddChunksOutcome :=
  ensure_writable "add_chunks_internal" ;;;
  if bool_decide (chunks = []) then m_ret (mkOutcome [] [])
  else
    expanded <- (if preserve_chunk_ids then m_ret (chunks, seq 0 (length chunks))
                 else m_lift (expand_chunks_for_add chunks)) ;;
    ids <- add_chunks_internal now_ms preserve_chunk_ids expanded.1 fresh lane ;;
    primary <- m_lift (pick_ids ids expanded.2) ;;
    m_ret (mkOutcome primary ids).

Definition add_chunk_with_stored_ids (now_ms : Z) (chunk : MemoryChunk) (fresh : list ChunkId)
    (lane : IndexLane) : M B TK (ChunkId * list ChunkId) :=
  outcome <- add_chunks_with_details now_ms false [chunk] fresh lane ;;
  primary_id <- m_lift (ok_or (head (primary_ids outcome))
                  (StorageError "no primary chunk id produced for add")) ;;
  m_ret (primary_id, stored_ids outcome).

(** The UPDATE of a lifecycle delta, as a statement of its own. *)
Definition m_update_lifecycle (t : TenantId) (delta : LifecycleDelta) (c : ChunkId) : M B TK () :=
  m_effect (λ w, with_db (update_lifecycle t c delta (w_db w)) w).

(** [PersistentStore::update_lifecycle] *)
Definition store_update_lifecycle (t : TenantId) (c : ChunkId) (delta : LifecycleDelta) : M B TK () :=
  ensure_writable "update_lifecycle" ;;; m_update_lifecycle t delta c.

(** [PersistentStore::update_lifecycle_if_exists] *)
Definition update_lifecycle_if_exists (t : TenantId) (c : ChunkId) (delta : LifecycleDelta)
    : M B TK bool :=
  ensure_writable "update_lifecycle_if_exists" ;;;
  w <- m_world ;;
  let rows := (update_lifecycle_counted t c delta (w_db w)).1 in
  m_update_lifecycle t delta c ;;;
  m_ret (0 <? rows).

(** The delta the add applies, with its time stamp. *)
Definition stamped (now_ms : Z) (delta : LifecycleDelta) : LifecycleDelta :=
  if is_none (ld_updated_at_ms delta) then set_delta_updated now_ms delta else delta.

Definition add_chunk_with_lifecycle_and_stored_ids (now_ms : Z) (chunk : MemoryChunk)
    (initial : LifecycleDelta) (fresh : list ChunkId) (lane : IndexLane)
    : M B TK (ChunkId * list ChunkId) :=
  ensure_writable "add_chunk_with_lifecycle" ;;;
  let tenant_id := mc_tenant_id chunk in
  r <- add_chunk_with_stored_ids now_ms chunk fresh lane ;;
  (if delta_is_empty initial then m_ret ()
   else m_for r.2 (m_update_lifecycle tenant_id (stamped now_ms initial))) ;;;
  m_ret r.

Definition add_chunk_with_lifecycle (now_ms : Z) (chunk : MemoryChunk) (initial : LifecycleDelta)
    (fresh : list ChunkId) (lane : IndexLane) : M B TK ChunkId :=
  r <- add_chunk_with_lifecycle_and_stored_ids now_ms chunk initial fresh lane ;;
  m_ret r.1.

(** [add_consolidation_candidate], its hook doing nothing; [fresh] is not
    looked at but for its length. *)
Definition add_consolidation_candidate (now_ms : Z) (chunk : MemoryChunk) (fresh : ChunkId)
    (lane : IndexLane) : M B TK ChunkId :=
  ensure_writable "add_consolidation_candidate" ;;;
  if negb (bool_decide (mc_status chunk = Candidate))
  then m_err (ValidationError "consolidation candidates must use status=candidate")
  else
    outcome <- add_chunks_with_details now_ms true [chunk] [fresh] lane ;;
    stored_id <- m_lift (ok_or (head (primary_ids outcome))
                   (StorageError "no consolidation candidate id produced")) ;;
    if negb (bool_decide (stored_id = mc_chunk_id chunk))
    then m_err (StorageError "consolidation candidate id changed during persistence")
    else m_ret stored_id.

(* ------------------------------------------------------------------ *)
(** ** Superseding *)

(** [if let Err(error) = m { .. }]: the error is recorded and dropped. *)
Definition m_ignore {A} (m : M B TK A) : M B TK () :=
  λ s, match m s with (_, s) => (Ok (), s) end.

(** Steps 3 to 5: write the replacement, link, compensate.  [others] is what
    the other tasks do between the add and the link. *)
Definition supersede_chunk_with_lifecycle_and_stored_ids (now_ms : Z) (t : TenantId)
    (old_id : ChunkId) (new_chunk : MemoryChunk) (lifecycle : LifecycleDelta)
    (fresh : list ChunkId) (lane : IndexLane) (others : M B TK ()) : M B TK (ChunkId * list ChunkId) :=
  ensure_writable "supersede_chunk" ;;;
  w <- m_world ;;
  m_lift (default (Err (StorageError "cycle check ran out of fuel"))
            (supersede_preflight t old_id (mc_tenant_id new_chunk) (w_db w))) ;;;
  r <- add_chunk_with_lifecycle_and_stored_ids now_ms new_chunk lifecycle fresh lane ;;
  others ;;;
  w <- m_world ;;
  match atomic_supersede t old_id r.1 now_ms (w_db w) with
  | Ok db => m_effect (with_db db) ;;; m_ret r
  | Err link_err =>
      m_for r.2 (λ stored_id, m_ignore (delete_chunk now_ms t stored_id)) ;;;
      m_err link_err
  end.

Definition supersede_chunk_with_lifecycle (now_ms : Z) (t : TenantId) (old_id : ChunkId)
    (new_chunk : MemoryChunk) (lifecycle : LifecycleDelta) (fresh : list ChunkId)
    (lane : IndexLane) (others : M B TK ()) : M B TK ChunkId :=
  r <- supersede_chunk_with_lifecycle_and_stored_ids now_ms t old_id new_chunk lifecycle fresh lane
         others ;;
  m_ret r.1.

Definition supersede_chunk (now_ms : Z) (t : TenantId) (old_id : ChunkId) (new_chunk : MemoryChunk)
    (fresh : list ChunkId) (lane : IndexLane) (others : M B TK ()) : M B TK ChunkId :=
  supersede_chunk_with_lifecycle now_ms t old_id new_chunk LifecycleDelta_default fresh lane others.

End lifecycle.
