(* ===== verification/LifecycleFacts.v ===== *)
(** * Facts about lifecycle writes

    What the statements do to the rows of live chunks, and the steps of the
    lifecycle operations: the add, the loop of updates, the compensating
    deletes. *)

From S2P Require Import Prelude Crates Types Str Sentence Chunking WalFormat WalReader Files WalWriter.
From S2P Require Import SegmentFormat Segment SegmentFacts Metadata MetadataFacts.
From S2P Require Import TenantStore Persistent Runs TenantInv TenantFacts Recovery PersistentFacts AddFacts StoreSpec.
From S2P Require Import Overlay Lifecycle.

Open Scope Z_scope.

(* ------------------------------------------------------------------ *)
(** ** Statements on live rows *)

(** The metadata after a delta, and on both ends of a link. *)
Definition delta_meta (delta : LifecycleDelta) (m : ChunkMetadata) : ChunkMetadata :=
  set_meta_lifecycle (lifecycle_apply (cm_lifecycle m) delta)
    (set_meta_status (coalesce (ld_status delta) (cm_status m)) m).
Definition linked_old (new_id : ChunkId) (now_ms : Z) (m : ChunkMetadata) : ChunkMetadata :=
  let l := cm_lifecycle m in
  set_meta_lifecycle (mkLifecycle (lc_tier l) (lc_supersedes l) (Some new_id) (lc_expires_at_ms l)
    (lc_review_after_ms l) now_ms) (set_meta_status Superseded m).
Definition linked_new (old_id : ChunkId) (now_ms : Z) (m : ChunkMetadata) : ChunkMetadata :=
  let l := cm_lifecycle m in
  set_meta_lifecycle (mkLifecycle (lc_tier l) (Some old_id) (lc_superseded_by l) (lc_expires_at_ms l)
    (lc_review_after_ms l) now_ms) m.

Section table.
Variable t : TenantId.

Lemma get_insert c k r db :
  get t k (<[c := r]> db) =
    if bool_decide (k = c)
    then if bool_decide (r_tenant r = t ∧ r_status r ≠ Deleted) then Some (r_meta r) else None
    else get t k db.
Proof.
  unfold get. case_bool_decide as Hk; [subst|by rewrite lookup_insert_ne].
  rewrite lookup_insert_eq. unfold status_in. case_bool_decide as Ht; cbn [andb].
  - case_bool_decide as Hd; case_bool_decide as Hb; try done; set_solver.
  - rewrite bool_decide_false by naive_solver. done.
Qed.

(** A change of a live row that keeps it live. *)
Lemma get_alter_live c k (f : Row → Row) db r m :
  db !! c = Some r → get t c db = Some m → r_tenant (f r) = r_tenant r → r_status (f r) ≠ Deleted →
  get t k (<[c := f r]> db) = if bool_decide (k = c) then Some (r_meta (f r)) else get t k db.
Proof.
  intros Hr (r' & Hr' & Ht & _ & _)%get_spec Hft Hfs. rewrite get_insert. case_bool_decide; [|done].
  assert (r' = r) as -> by congruence. rewrite bool_decide_true; [done|]. by rewrite Hft.
Qed.

Lemma overlaid_update_lifecycle c delta db :
  ld_status delta ≠ Some Deleted → overlaid db (update_lifecycle t c delta db).
Proof.
  intros Hd. unfold update_lifecycle, update_lifecycle_counted. apply overlaid_update_where.
  intros r Hr%negb_true_iff. split_and!; [done..|].
  assert (Hs : r_status r ≠ Deleted).
  { intros E. unfold status_in in Hr. rewrite E in Hr. by rewrite bool_decide_true in Hr by set_solver. }
  change (coalesce (ld_status delta) (r_status r) = Deleted ↔ r_status r = Deleted).
  unfold coalesce. destruct (ld_status delta); [|done]. split; [congruence|done].
Qed.

Lemma get_update_lifecycle c k delta db :
  ld_status delta ≠ Some Deleted →
  get t k (update_lifecycle t c delta db) =
    if bool_decide (k = c) then delta_meta delta <$> get t k db else get t k db.
Proof.
  intros Hd. unfold update_lifecycle, update_lifecycle_counted. rewrite update_where_spec.
  destruct (get t c db) as [m|] eqn:Eg.
  - pose proof Eg as (r & Hr & Ht & Hs & Em)%get_spec. rewrite Hr.
    assert (matches t (λ r, negb (status_in [Deleted] r)) r = true) as ->.
    { apply matches_true. split; [done|]. unfold status_in. rewrite bool_decide_false; [done|set_solver]. }
    cbn [snd]. erewrite get_alter_live; [|done|done|done|].
    + case_bool_decide; [subst k|done]. rewrite Eg, Em. cbn. f_equal. unfold delta_meta. f_equal.
      destruct delta as [? [] [] [] [] [] []]; done.
    + change (coalesce (ld_status delta) (r_status r) ≠ Deleted). unfold coalesce.
      destruct (ld_status delta); [congruence|done].
  - assert (Hm : ∀ r, db !! c = Some r → matches t (λ r, negb (status_in [Deleted] r)) r = false).
    { intros r Hr. apply not_true_is_false. intros [Ht Hs%negb_true_iff]%matches_true.
      assert (get t c db = Some (r_meta r)); [|congruence]. apply get_spec. exists r. split_and!; [done..| |done].
      intros E. unfold status_in in Hs. rewrite E in Hs. by rewrite bool_decide_true in Hs by set_solver. }
    destruct (db !! c) as [r|] eqn:Hr; [rewrite (Hm r eq_refl)|]; cbn [snd]; case_bool_decide; subst; by rewrite ?Eg.
Qed.

(** The link of two live chunks. *)
Lemma supersede_live old new now db mo mn :
  old ≠ new → get t old db = Some mo → get t new db = Some mn →
  match lc_superseded_by (cm_lifecycle mo) with
  | None => ∃ db', atomic_supersede t old new now db = Ok db' ∧ overlaid db db' ∧
      ∀ k, get t k db' = if bool_decide (k = new) then Some (linked_new old now mn)
                         else if bool_decide (k = old) then Some (linked_old new now mo) else get t k db
  | Some _ => ∃ e, atomic_supersede t old new now db = Err e
  end.
Proof.
  intros Hne Ho Hn. pose proof Ho as (r & Hr & Ht & Hs & ->)%get_spec.
  pose proof Hn as (r2 & Hr2 & Ht2 & Hs2 & ->)%get_spec.
  unfold atomic_supersede. rewrite update_where_spec, Hr. change (cm_lifecycle (r_meta r)) with (r_lc r).
  assert (Hm : matches t (λ r, bool_decide (lc_superseded_by (r_lc r) = None)) r =
               bool_decide (lc_superseded_by (r_lc r) = None))
    by (unfold matches; by rewrite (bool_decide_true _ Ht)).
  rewrite Hm. clear Hm. destruct (lc_superseded_by (r_lc r)) as [c|] eqn:E.
  { rewrite bool_decide_false by done. cbn. eauto. }
  rewrite bool_decide_true by done. change (1 =? 1) with true. cbn [negb].
  rewrite update_where_spec, lookup_insert_ne, Hr2 by done. unfold matches. rewrite (bool_decide_true _ Ht2).
  cbn [andb]. change (1 =? 1) with true. cbn [negb]. eexists. split; [done|]. split.
  - etrans; [apply (overlaid_insert db old r); [done|]|apply (overlaid_insert _ new r2)].
    + by split_and!.
    + by rewrite lookup_insert_ne.
    + by split_and!.
  - intros k. rewrite !get_insert. case_bool_decide as Hk.
    + rewrite bool_decide_true by done. done.
    + case_bool_decide; [|done]. rewrite bool_decide_true by done. done.
Qed.

End table.

(* ------------------------------------------------------------------ *)
(** ** Steps of the operations *)

Lemma split_for_add_nonempty `{UnicodeSegmentation} chunk parts :
  split_for_add chunk = Some parts → parts ≠ [].
Proof.
  unfold split_for_add. case_match; [by intros [= <-]|].
  destruct (chunk_text _ _) as [tcs|]; [|done]. cbn [mbind option_bind].
  destruct (Nat.leb_spec (length tcs) 1); intros [= <-]; [done|]. by destruct tcs; cbn in *; [lia|].
Qed.

Lemma runs_impl {B TK A} (m : M B TK A) s (I I' : World TK → Prop) Q :
  runs m s I Q → (∀ w, I w → I' w) → runs m s I' Q.
Proof.
  intros (a & s' & tr & ? & ? & HI & ?) HII. exists a, s', tr. split_and!; [done..| |done].
  by eapply Forall_impl.
Qed.

Section steps.
Context `{BOL : ByteOrderLaws} `{CRL : Crc32Laws} `{RBL : RoaringLaws B}.
Context `{BWL : BincodeLaws WalRecord} `{JCL : JsonLaws MemoryChunk}.
Context `{UUL : UuidLaws ChunkId} `{TT : TaskTables TK}.
Context `{CAP : BufCap} `{BM : Bincode SegmentMeta} `{UC : Unicode} `{SHA : Sha256}.
Context `{SEG : UnicodeSegmentation}.
Implicit Types (s : St B TK) (A : gmap ChunkId MemoryChunk) (w : World TK).

Variable t : TenantId.

Lemma implements_writable s A : implements t s A → ts_read_only (s_store s) = false.
Proof.
  intros (G & rs & ads & Hr & _). exact (so_rw _ _ _ (rd_store _ _ _ _ _ _ (rn_ready _ _ _ _ _ _ Hr))).
Qed.

Lemma runs_writable s A op I (Q : () → St B TK → Prop) :
  implements t s A → Q () s → runs (ensure_writable op) s I Q.
Proof.
  intros Hi HQ. unfold ensure_writable. apply runs_bind, runs_store.
  rewrite (implements_writable s A Hi). by apply runs_ret.
Qed.

(** A world behind which some open store implements the map. *)
Definition shows A w : Prop := ∃ st : TenantStore B, implements t (mkSt st w []) A.

Lemma implements_shows s A : implements t s A → shows A (s_world s).
Proof. intros Hi. exists (s_store s). exact (implements_trace t s A [] Hi). Qed.

(** A row that a statement left alone keeps its chunk. *)
Lemma restatus_same s A db' k :
  implements t s A → get t k db' = get t k (db_of s) → restatus t db' A !! k = A !! k.
Proof.
  intros Hi Hg. rewrite restatus_lookup. destruct (A !! k) as [chunk|] eqn:E; [|done]. cbn.
  destruct (implements_status t s A k chunk Hi E) as (m & Hm & Hs). rewrite Hg, Hm, <- Hs.
  by rewrite set_status_same.
Qed.

(** A chunk whose row has been given a status. *)
Lemma restatus_given db' A k m :
  get t k db' = Some m → restatus t db' A !! k = set_status (cm_status m) <$> A !! k.
Proof. intros Hg. rewrite restatus_lookup. by rewrite Hg. Qed.

(** The loop of lifecycle updates. *)
Lemma runs_update_loop ids delta s A (I : World TK → Prop) :
  NoDup ids → ld_status delta ≠ Some Deleted → implements t s A →
  (∀ w A', shows A' w → restatused A A' → (∀ k, k ∉ ids → A' !! k = A !! k) → I w) →
  runs (m_for ids (m_update_lifecycle t delta)) s I (λ _ s',
    (∃ A', implements t s' A' ∧ restatused A A' ∧ ∀ k, k ∉ ids → A' !! k = A !! k) ∧
    ∀ k, get t k (db_of s') =
      if bool_decide (k ∈ ids) then delta_meta delta <$> get t k (db_of s) else get t k (db_of s)).
Proof.
  intros Hnd Hd. revert s A. induction Hnd as [|c ids Hc Hnd IH]; intros s A Hi HI.
  { apply runs_ret. split; [by exists A|]. intros k. by rewrite bool_decide_false by apply not_elem_of_nil. }
  set (db1 := update_lifecycle t c delta (db_of s)).
  assert (Ho : overlaid (db_of s) db1) by (by apply overlaid_update_lifecycle).
  pose proof (λ tr, implements_overlaid t s A db1 tr Hi Ho) as Hi1.
  assert (Hsame : ∀ k, k ≠ c → restatus t db1 A !! k = A !! k).
  { intros k Hk. apply (restatus_same s); [done|]. unfold db1. rewrite get_update_lifecycle by done.
    by rewrite bool_decide_false. }
  cbn [m_for]. apply runs_bind, runs_effect.
  { apply (HI _ (restatus t db1 A)); [apply (implements_shows _ _ (Hi1 []))|apply restatus_restatused|].
    intros k Hk. apply Hsame. intros ->. apply Hk. by left. }
  eapply runs_mono; [apply (IH _ (restatus t db1 A)); [apply Hi1|]|].
  - intros w A' Hs Hr Hk. apply (HI w A' Hs).
    + etrans; [apply restatus_restatused|exact Hr].
    + intros k [Hkc Hkd]%not_elem_of_cons. by rewrite Hk, Hsame.
  - cbn beta. intros _ s' ((A' & Hi' & Hr & Hk) & Hg). split.
    + exists A'. split_and!; [done| |].
      * etrans; [apply restatus_restatused|exact Hr].
      * intros k [Hkc Hkd]%not_elem_of_cons. by rewrite Hk, Hsame.
    + intros k. rewrite Hg. unfold db_of at 1 2. cbn [s_world w_db with_db].
      fold (db_of s) db1. unfold db1. rewrite get_update_lifecycle by done.
      destruct (decide (k = c)) as [->|Hne].
      * rewrite (bool_decide_false _ Hc), !bool_decide_true by (done || by left). done.
      * rewrite (bool_decide_false (k = c)) by done.
        replace (bool_decide (k ∈ c :: ids)) with (bool_decide (k ∈ ids)); [done|].
        apply bool_decide_ext. set_solver.
Qed.

(** ** What a crash leaves to read *)

(** Whatever a crash in this world leaves, the store opens and what its reads
    answer satisfies [Φ]. *)
Definition reopens (Φ : (ChunkId → option MemoryChunk) → Prop) w : Prop :=
  ∀ now maxc minf interval w', 0 < maxc < 2 ^ 32 → crash_world w w' →
  ∃ ts w2 tr view, open now (TenantId.as_str t) maxc minf interval false w' = (Ok ts, w2, tr) ∧
    (∀ c, ∃ s2, get_chunk (B := B) t c (mkSt ts w2 tr) = (Ok (view c), s2)) ∧ Φ view.

Hypothesis tenant_valid : TenantId.validate (TenantId.as_str t) = Ok ().

Lemma shows_reopens A w (Φ : (ChunkId → option MemoryChunk) → Prop) :
  shows A w → (∀ view, (∀ c, view c = A !! c) → Φ view) → reopens Φ w.
Proof using All.
  intros [st Hi] HΦ now maxc minf interval w' Hmax Hc.
  destruct (reopen_implements t tenant_valid _ A now maxc minf interval w' Hi Hc Hmax) as (ts & w2 & tr & E & Hi').
  exists ts, w2, tr, (λ c, A !! c). split_and!; [done| |by apply HΦ]. intros c.
  destruct (exec_get t _ A c Hi') as (G & K & _ & _ & (out & s' & tr' & Eg & _ & _ & -> & _)).
  cbn in Eg. unfold m_bind, m_ret in Eg. destruct (get_chunk t c _) as [[o|e] s2]; [|done].
  injection Eg as -> ->. eauto.
Qed.

Lemma covered_reopens G K A A' w (Φ : (ChunkId → option MemoryChunk) → Prop) :
  crash_ok (B := B) t G K w → payloads t G → (∀ c, covered G K A A' c) →
  (∀ view, (∀ c, view c = A !! c ∨ view c = A' !! c) → Φ view) → reopens Φ w.
Proof using All.
  intros HI HG Hcov HΦ now maxc minf interval w' Hmax Hc.
  destruct (open_answers t tenant_valid G K now maxc minf interval w' A A') as (ts & w2 & tr & E & Hans);
    [by apply HI|done..|].
  exists ts, w2, tr, (λ c, match (get_chunk t c (mkSt ts w2 tr)).1 with Ok o => o | Err _ => None end).
  split_and!; [done| |apply HΦ]; intros c; destruct (Hans c) as (o & s2 & -> & Ho); cbn; [by eauto|exact Ho].
Qed.

(** Adding one document. *)
Lemma runs_add_stored s A now chunk parts fresh lane (Φ : (ChunkId → option MemoryChunk) → Prop) :
  let l := added_chunks false parts fresh in
  implements t s A → split_for_add chunk = Some parts → admissible t s (CmdAdd now false parts fresh lane) →
  (∀ view, (∀ c, view c = A !! c ∨ view c = (list_to_map l ∪ A : gmap ChunkId MemoryChunk) !! c) → Φ view) →
  runs (add_chunk_with_stored_ids now chunk fresh lane) s (reopens Φ) (λ r s',
    head fresh = Some r.1 ∧ r.2 = fresh ∧ implements t s' (list_to_map l ∪ A) ∧
    (∀ c part, (c, part) ∈ l → ∃ seg ord,
       get t c (db_of s') = Some (added_metadata (mkPending part c (json_to_vec part)) seg ord)) ∧
    (∀ c, c ∉ map fst l → get t c (db_of s') = get t c (db_of s))).
Proof using All.
  intros l Hi Hsplit Hadm HΦ. pose proof (split_for_add_nonempty _ _ Hsplit) as Hne.
  destruct (add_runs t s A now false parts fresh lane Hi Hadm) as (G & K & HG & Hcov & Hr).
  destruct Hadm as (Hlen & _). destruct fresh as [|c0 fresh]; [by destruct parts|].
  unfold add_chunk_with_stored_ids, add_chunks_with_details.
  apply runs_bind, runs_bind, (runs_writable s A); [done|]. rewrite bool_decide_false by done.
  apply runs_bind. eapply runs_lift.
  { unfold expand_chunks_for_add, expand_chunk. cbn [try_fold]. rewrite Hsplit. cbn [ok_or mbind result_bind].
    rewrite bool_decide_false by done. cbn. reflexivity. }
  cbn [fst snd]. apply runs_bind. eapply runs_mono.
  { eapply runs_impl; [exact Hr|]. intros w HI. by eapply covered_reopens. }
  cbn beta. intros ids s' (-> & Hi' & Hnew & Hold). unfold added_ids.
  apply runs_bind. eapply runs_lift; [done|]. apply runs_ret. cbn [primary_ids stored_ids app head].
  apply runs_bind. eapply runs_lift; [done|]. apply runs_ret. by split_and!.
Qed.

(** The row of a part after the add. *)
Definition first_row (now : Z) (initial : LifecycleDelta) (c : ChunkId) (part : MemoryChunk) (seg ord : Z) : ChunkMetadata :=
  let m := added_metadata (mkPending part c (json_to_vec part)) seg ord in
  if delta_is_empty initial then m else delta_meta (stamped now initial) m.

(** What adding the parts with their lifecycle gives. *)
Record added_with (now : Z) (initial : LifecycleDelta) (l : list (ChunkId * MemoryChunk)) s A s' A' : Prop := {
  aw_store : implements t s' A';
  aw_parts c part : (c, part) ∈ l →
    A' !! c = Some (set_status (coalesce (ld_status initial) (mc_status part)) part) ∧
    ∃ seg ord, get t c (db_of s') = Some (first_row now initial c part seg ord);
  aw_others c : c ∉ map fst l → A' !! c = A !! c ∧ get t c (db_of s') = get t c (db_of s);
}.

(** What the crash points show: the map before, the parts in flight, or the
    parts up to their status. *)
Definition add_views (l : list (ChunkId * MemoryChunk)) A (view : ChunkId → option MemoryChunk) : Prop :=
  (∀ c, view c = A !! c ∨ view c = (list_to_map l ∪ A : gmap ChunkId MemoryChunk) !! c) ∨
  (∃ A', (∀ c, view c = A' !! c) ∧ restatused (list_to_map l ∪ A) A' ∧ ∀ c, c ∉ map fst l → A' !! c = A !! c).

Lemma delta_empty_status d : delta_is_empty d = true → ld_status d = None.
Proof. unfold delta_is_empty. by destruct (ld_status d). Qed.

Lemma stamped_status now d : ld_status (stamped now d) = ld_status d.
Proof. unfold stamped. by destruct (is_none _). Qed.

Lemma runs_add_with_lifecycle s A now chunk initial parts fresh lane :
  let l := added_chunks false parts fresh in
  implements t s A → split_for_add chunk = Some parts → mc_tenant_id chunk = t →
  ld_status initial ≠ Some Deleted → admissible t s (CmdAdd now false parts fresh lane) →
  runs (add_chunk_with_lifecycle_and_stored_ids now chunk initial fresh lane) s (reopens (add_views l A))
    (λ r s', head fresh = Some r.1 ∧ r.2 = fresh ∧ ∃ A', added_with now initial l s A s' A').
Proof using All.
  intros l Hi Hsplit Ht Hd Hadm. pose proof Hadm as (Hlen & Hnd & _).
  assert (Hfst : map fst l = fresh) by (by apply (added_fst false)).
  assert (HlA : ∀ c part, (c, part) ∈ l → (list_to_map l ∪ A : gmap ChunkId MemoryChunk) !! c = Some part).
  { intros c part Hin. apply lookup_union_Some_l, elem_of_list_to_map_1; [|done].
    change (NoDup (map fst l)). by rewrite Hfst. }
  assert (HoA : ∀ c, c ∉ map fst l → (list_to_map l ∪ A : gmap ChunkId MemoryChunk) !! c = A !! c).
  { intros c Hc. by apply lookup_union_r, not_elem_of_list_to_map_1. }
  unfold add_chunk_with_lifecycle_and_stored_ids. apply runs_bind, (runs_writable s A); [done|].
  apply runs_bind. eapply runs_mono; [eapply runs_add_stored; [done..|]; intros view Hv; by left|].
  cbn beta. intros [id0 ids] s1 (Hhd & Eids & Hi1 & Hnew & Hold). cbn [fst snd] in *. subst ids.
  apply runs_bind. destruct (delta_is_empty initial) eqn:Ee.
  - do 2 apply runs_ret. split_and!; [done..|]. exists (list_to_map l ∪ A). split; [done| |].
    + intros c part Hin. rewrite (delta_empty_status _ Ee). cbn [coalesce]. split.
      * rewrite set_status_same. by apply HlA.
      * destruct (Hnew c part Hin) as (seg & ord & Hg). exists seg, ord. unfold first_row. by rewrite Ee.
    + intros c Hc. split; [by apply HoA|by apply Hold].
  - rewrite Ht. eapply runs_mono.
    { apply (runs_update_loop fresh (stamped now initial) s1 (list_to_map l ∪ A)); [done|by rewrite stamped_status|done|].
      intros w A' Hs Hr Hk. apply (shows_reopens A'); [done|]. intros view Hv. right. exists A'.
      split_and!; [done..|]. intros c Hc. rewrite Hk by (by rewrite <- Hfst). by apply HoA. }
    cbn beta. intros _ s' ((A' & Hi' & Hr & Hk) & Hg). apply runs_ret. split_and!; [done..|]. exists A'.
    split; [done| |].
    + intros c part Hin.
      assert (Hc : c ∈ fresh) by (rewrite <- Hfst; by apply (list_elem_of_fmap_2 fst) in Hin).
      destruct (Hnew c part Hin) as (seg & ord & Hg0). specialize (Hg c).
      rewrite (bool_decide_true _ Hc), Hg0 in Hg. cbn [fmap option_fmap option_map] in Hg. split.
      * specialize (Hr c). rewrite (HlA c part Hin) in Hr.
        destruct (A' !! c) as [chunk'|] eqn:E2; [|by inversion Hr].
        assert (Hor : chunk' = part ∨ ∃ st, chunk' = set_status st part) by (by inversion Hr).
        destruct (implements_status t s' A' c chunk' Hi' E2) as (m & Hm & Hst).
        rewrite Hg in Hm. injection Hm as <-. cbn in Hst. rewrite stamped_status in Hst. f_equal.
        rewrite <- Hst. by destruct Hor as [->|[st ->]]; [rewrite set_status_same|].
      * exists seg, ord. unfold first_row. by rewrite Ee.
    + intros c Hc. rewrite Hk by (by rewrite <- Hfst). split; [by apply HoA|].
      rewrite Hg, bool_decide_false by (by rewrite <- Hfst). by apply Hold.
Qed.

End steps.
