(* ===== verification/LifecycleProps.v ===== *)
(** * Properties of lifecycle writes

    Adding with retention metadata is exact; superseding a chunk is exact when
    no one interferes, all or nothing when others do, and safe at every crash
    point. *)

From S2P Require Import Prelude Crates Types Str Sentence Chunking WalFormat WalReader Files WalWriter.
From S2P Require Import SegmentFormat Segment SegmentFacts Metadata MetadataFacts SupersessionProps.
From S2P Require Import TenantStore Persistent Runs TenantInv TenantFacts Recovery PersistentFacts AddFacts StoreSpec.
From S2P Require Import Overlay Lifecycle LifecycleFacts Concrete MetadataProps StoreProps.

Open Scope Z_scope.

Section props.
Context `{BOL : ByteOrderLaws} `{CRL : Crc32Laws} `{RBL : RoaringLaws B}.
Context `{BWL : BincodeLaws WalRecord} `{JCL : JsonLaws MemoryChunk}.
Context `{UUL : UuidLaws ChunkId} `{TT : TaskTables TK}.
Context `{CAP : BufCap} `{BM : Bincode SegmentMeta} `{UC : Unicode} `{SHA : Sha256}.
Context `{SEG : UnicodeSegmentation}.
Implicit Types (s : St B TK) (A : gmap ChunkId MemoryChunk) (w : World TK).

Variable t : TenantId.
Hypothesis tenant_valid : TenantId.validate (TenantId.as_str t) = Ok ().

(** A request: the document, its parts with the ids they get, its lifecycle. *)
Record request (s : St B TK) (now : Z) (chunk : MemoryChunk) (initial : LifecycleDelta)
    (parts : list MemoryChunk) (fresh : list ChunkId) (lane : IndexLane) : Prop := {
  rq_parts : split_for_add chunk = Some parts;
  rq_tenant : mc_tenant_id chunk = t;
  rq_delta : ld_status initial ≠ Some Deleted;
  rq_fits : admissible t s (CmdAdd now false parts fresh lane);
}.

(** The status of a part after the add. *)
Definition part_status (initial : LifecycleDelta) (part : MemoryChunk) : ChunkStatus :=
  coalesce (ld_status initial) (mc_status part).

(** ** Steps *)

(** The link of two live chunks, and the compensation. *)
Lemma link_live old new_id now s A mo mn :
  implements t s A → old ≠ new_id → get t old (db_of s) = Some mo → get t new_id (db_of s) = Some mn →
  lc_superseded_by (cm_lifecycle mo) = None →
  ∃ db', atomic_supersede t old new_id now (db_of s) = Ok db' ∧
    get t old db' = Some (linked_old new_id now mo) ∧ get t new_id db' = Some (linked_new old now mn) ∧
    ∃ A', (∀ tr, implements t (mkSt (s_store s) (with_db db' (s_world s)) tr) A') ∧
      A' !! old = set_status Superseded <$> A !! old ∧ ∀ c, c ≠ old → A' !! c = A !! c.
Proof using All.
  intros Hi Hne Ho Hn Hhead. pose proof (supersede_live t old new_id now (db_of s) mo mn Hne Ho Hn) as S.
  rewrite Hhead in S. destruct S as (db' & E & Hov & Hg). exists db'.
  assert (Hgo : get t old db' = Some (linked_old new_id now mo)).
  { rewrite Hg, bool_decide_false, bool_decide_true by done. done. }
  assert (Hgn : get t new_id db' = Some (linked_new old now mn)).
  { rewrite Hg, bool_decide_true by done. done. }
  split_and!; [done..|]. exists (restatus t db' A). split_and!.
  - intros tr. by apply implements_overlaid.
  - exact (restatus_given t db' A old _ Hgo).
  - intros c Hc. destruct (decide (c = new_id)) as [->|Hcn].
    + rewrite (restatus_given t db' A new_id _ Hgn). destruct (A !! new_id) as [chunk|] eqn:EA; [|done].
      destruct (implements_status t s A new_id chunk Hi EA) as (m & Hm & Hs). cbn. f_equal.
      assert (m = mn) as -> by congruence. change (set_status (cm_status mn) chunk = chunk).
      rewrite <- Hs. apply set_status_same.
    + apply (restatus_same t s); [done|]. rewrite Hg, !bool_decide_false by done. done.
Qed.

(** Deleting the stored parts again. *)
Lemma compensates now ids s A :
  Forall (λ c, wal_fits (wal_delete (TenantId.as_str t) (uuid_to_string c) now)) ids → implements t s A →
  ∃ s', m_for ids (λ c, m_ignore (delete_chunk now t c)) s = (Ok (), s') ∧
        ∃ A', implements t s' A' ∧ (∀ c, c ∈ ids → A' !! c = None) ∧ ∀ c, c ∉ ids → A' !! c = A !! c.
Proof using All.
  intros Hfit. revert s A. induction Hfit as [|c ids Hc Hfit IH]; intros s A Hi.
  { exists s. split; [done|]. exists A. split_and!; [done| |done]. by intros c ?%not_elem_of_nil. }
  destruct (exec_delete t s A now c Hi Hc) as (G & K & _ & _ & (out & s1 & tr & E & _ & _ & _ & Hi1)).
  cbn [exec spec snd] in E, Hi1. destruct (IH s1 _ Hi1) as (s' & E' & A' & Hi' & Hin & Hout).
  exists s'. split.
  - cbn [m_for]. unfold m_bind at 1, m_ignore at 1. unfold m_bind, m_ret in E.
    destruct (delete_chunk now t c s) as [[b|e] s2]; [|done]. injection E as _ ->. exact E'.
  - exists A'. split_and!; [done| |].
    + intros k [->|Hk]%elem_of_cons; [|auto]. destruct (decide (c ∈ ids)); [auto|].
      by rewrite Hout, lookup_delete_eq.
    + intros k [Hk1 Hk2]%not_elem_of_cons. by rewrite Hout, lookup_delete_ne.
Qed.

(** The replacement written, before the link. *)
Lemma written s A now chunk initial parts fresh lane :
  let l := added_chunks false parts fresh in
  implements t s A → request s now chunk initial parts fresh lane →
  runs (add_chunk_with_lifecycle_and_stored_ids now chunk initial fresh lane) s (reopens t (add_views l A))
    (λ r s', (∃ id0 part, r = (id0, fresh) ∧ head fresh = Some id0 ∧ (id0, part) ∈ l) ∧
       ∃ A', added_with t now initial l s A s' A').
Proof using All.
  intros l Hi [Hp Ht Hd Hadm]. eapply runs_mono; [by apply (runs_add_with_lifecycle t tenant_valid)|].
  cbn beta. intros [id0 ids] s' (Hhd & Eids & HA). cbn [fst snd] in *. subst ids. split; [|done].
  destruct Hadm as (Hlen & _). pose proof (split_for_add_nonempty _ _ Hp) as Hne.
  destruct fresh as [|c fresh]; [done|]. injection Hhd as <-. destruct parts as [|part parts]; [done|].
  exists c, (stored_chunk c part). split_and!; [done..|]. by left.
Qed.

Lemma preflight_ok old new_tenant db :
  supersede_preflight t old new_tenant db = Some (Ok ()) →
  new_tenant = t ∧ ∃ mo, get t old db = Some mo ∧ lc_superseded_by (cm_lifecycle mo) = None.
Proof.
  intros E. destruct (supersede_preflight_exact t old new_tenant db) as (res & E' & Hok & _).
  assert (res = Ok ()) as Er by congruence. apply Hok in Er as (Ht & [mo Hg] & Hs).
  split; [done|]. exists mo. split; [done|]. unfold successor in Hs. rewrite Hg in Hs. exact Hs.
Qed.

Lemma live_not_new s A now chunk initial parts fresh lane c m :
  request s now chunk initial parts fresh lane → get t c (db_of s) = Some m →
  c ∉ map fst (added_chunks false parts fresh).
Proof.
  intros [_ _ _ (Hlen & _ & _ & _ & Hnew & _)] (r & Hr & _)%get_spec Hin.
  rewrite (added_fst false) in Hin by done. apply (proj1 (Forall_forall _ _) Hnew) in Hin as [Hin _].
  unfold db_of in *. congruence.
Qed.

(** What superseding gives. *)
Record superseded_with (old : ChunkId) (now : Z) (initial : LifecycleDelta)
    (l : list (ChunkId * MemoryChunk)) (id0 : ChunkId) A s' A' : Prop := {
  sw_store : implements t s' A';
  sw_old : A' !! old = set_status Superseded <$> A !! old;
  sw_parts c part : (c, part) ∈ l → A' !! c = Some (set_status (part_status initial part) part);
  sw_others c : c ≠ old → c ∉ map fst l → A' !! c = A !! c;
  sw_successor : ∃ m, get t old (db_of s') = Some m ∧ lc_superseded_by (cm_lifecycle m) = Some id0;
  sw_predecessor : ∃ m, get t id0 (db_of s') = Some m ∧ lc_supersedes (cm_lifecycle m) = Some old;
}.

(** What the crash points of a supersession show: nothing is lost, and the
    old chunk changes only once every part of the new one reads. *)
Definition supersede_views (old : ChunkId) (l : list (ChunkId * MemoryChunk)) A
    (view : ChunkId → option MemoryChunk) : Prop :=
  (∀ c chunk, A !! c = Some chunk → ∃ st, view c = Some (set_status st chunk)) ∧
  (view old = A !! old ∨ ∀ c part, (c, part) ∈ l → ∃ st, view c = Some (set_status st part)).

Lemma add_views_supersede old l A view :
  NoDup (map fst l) → (∀ c, is_Some (A !! c) → c ∉ map fst l) → is_Some (A !! old) →
  add_views l A view → supersede_views old l A view.
Proof.
  intros Hnd Hfree Hold Hv.
  assert (Hkeep : ∀ c chunk, A !! c = Some chunk → view c = A !! c).
  { intros c chunk Hc. destruct Hv as [Hv|(A' & Hv & _ & Ho)].
    - destruct (Hv c) as [->| ->]; [done|]. rewrite lookup_union_r; [done|].
      apply not_elem_of_list_to_map_1. apply Hfree. eauto.
    - rewrite Hv. apply Ho, Hfree. eauto. }
  split; [|left; by destruct Hold as [chunk Hc]; eapply Hkeep].
  intros c chunk Hc. exists (mc_status chunk). by rewrite (Hkeep c chunk Hc), set_status_same.
Qed.

Lemma runs_supersede s A now old chunk initial parts fresh lane :
  let l := added_chunks false parts fresh in
  implements t s A → request s now chunk initial parts fresh lane →
  supersede_preflight t old (mc_tenant_id chunk) (db_of s) = Some (Ok ()) →
  runs (supersede_chunk_with_lifecycle_and_stored_ids now t old chunk initial fresh lane (m_ret ())) s
    (reopens t (supersede_views old l A))
    (λ r s', ∃ id0 A', r = (id0, fresh) ∧ head fresh = Some id0 ∧ superseded_with old now initial l id0 A s' A').
Proof using All.
  intros l Hi Hrq Hpre. pose proof (preflight_ok _ _ _ Hpre) as (Ht & mo & Hgo & Hhead).
  pose proof (rq_fits _ _ _ _ _ _ _ Hrq) as (Hlen & Hnd & _).
  assert (Hfst : map fst l = fresh) by (by apply (added_fst false)).
  assert (Hlive : ∀ c, is_Some (A !! c) → c ∉ map fst l).
  { intros c [m Hm]%(implements_dom t s A c Hi). by eapply live_not_new. }
  assert (Hold : is_Some (A !! old)) by (apply (implements_dom t s A old Hi); eauto).
  pose proof (Hlive old Hold) as Hon.
  unfold supersede_chunk_with_lifecycle_and_stored_ids. apply runs_bind, (runs_writable t s A); [done|].
  apply runs_bind, runs_world, runs_bind. eapply runs_lift; [unfold db_of in Hpre; by rewrite Hpre|].
  apply runs_bind. eapply runs_mono.
  { eapply runs_impl; [by apply written|]. intros w Hw now' maxc minf interval w' Hmax Hc.
    destruct (Hw now' maxc minf interval w' Hmax Hc) as (ts & w2 & tr & view & ? & ? & Hv).
    exists ts, w2, tr, view. split_and!; [done..|]. apply add_views_supersede; [by rewrite Hfst|done..]. }
  cbn beta. intros r s1 ((id0 & part0 & -> & Hhd & Hin0) & A1 & [Hi1 Hparts Hoth]).
  apply runs_bind, runs_ret, runs_bind, runs_world. cbn [fst snd].
  destruct (Hoth old Hon) as [HA1o Hg1o]. destruct (Hparts id0 part0 Hin0) as [_ (seg & ord & Hgn)]. set (mn := first_row _ _ _ _ _ _) in Hgn.
  assert (Hne : old ≠ id0) by (intros ->; apply Hon; by apply (list_elem_of_fmap_2 fst _ _ Hin0)).
  destruct (link_live old id0 now s1 A1 mo mn Hi1 Hne) as (db' & E & Hdo & Hdn & A' & Hi' & HAo & HAx);
    [congruence|done..|]. unfold db_of in E. rewrite E.
  assert (Hp' : ∀ c part, (c, part) ∈ l → A' !! c = Some (set_status (part_status initial part) part)).
  { intros c part Hin. rewrite HAx; [by apply Hparts|]. intros ->. apply Hon.
    by apply (list_elem_of_fmap_2 fst _ _ Hin). }
  apply runs_bind, runs_effect.
  - apply (shows_reopens t tenant_valid A'); [exists (s_store s1); apply Hi'|]. intros view Hv. split.
    + intros c chunk' Hc. rewrite Hv. destruct (decide (c = old)) as [->|Hc'].
      * exists Superseded. by rewrite HAo, HA1o, Hc.
      * exists (mc_status chunk'). rewrite HAx, set_status_same by done. rewrite <- Hc. apply Hoth, Hlive. eauto.
    + right. intros c part Hin. rewrite Hv. eauto.
  - apply runs_ret. exists id0, A'. split_and!; [done..|]. split; [apply Hi'|by rewrite HAo, HA1o|done| | |].
    + intros c Hc Hcl. rewrite HAx by done. by apply Hoth.
    + exists (linked_old id0 now mo). by split.
    + exists (linked_new old now mn). by split.
Qed.

(** The operation from the link on. *)
Lemma supersede_program s A now old chunk initial fresh lane others s1 s2 id0 ids :
  implements t s A → supersede_preflight t old (mc_tenant_id chunk) (db_of s) = Some (Ok ()) →
  add_chunk_with_lifecycle_and_stored_ids now chunk initial fresh lane s = (Ok (id0, ids), s1) →
  others s1 = (Ok (), s2) →
  supersede_chunk_with_lifecycle_and_stored_ids now t old chunk initial fresh lane others s =
    match atomic_supersede t old id0 now (db_of s2) with
    | Ok db => m_bind (m_effect (with_db db)) (λ _, m_ret (id0, ids)) s2
    | Err e => m_bind (m_for ids (λ c, m_ignore (delete_chunk now t c))) (λ _, m_err e) s2
    end.
Proof using All.
  intros Hi Hpre E1 E2.
  unfold supersede_chunk_with_lifecycle_and_stored_ids, ensure_writable, m_bind, m_store, m_world, m_lift, m_ret.
  rewrite (implements_writable t s A Hi). unfold db_of in Hpre. rewrite Hpre. cbn [default].
  rewrite E1, E2. cbn [fst snd]. unfold db_of. by destruct (atomic_supersede _ _ _ _ _).
Qed.

(** ** The properties *)

(** C15: superseding is exact.  When no other task interferes, superseding a
    chunk by a document succeeds exactly when the checks before it do: the
    old chunk is live in the tenant, its chain has no cycle and it is a head.
    Then the store holds every part of the document with the requested
    status, the old chunk reads as superseded, every other chunk is as
    before, and the two rows point at each other.  Otherwise the error is
    that of the check and nothing at all has changed. *)
Theorem supersede_exact s A now old chunk initial parts fresh lane :
  implements t s A → request s now chunk initial parts fresh lane →
  match supersede_preflight t old (mc_tenant_id chunk) (db_of s) with
  | Some (Ok _) => ∃ id0 s' A',
      supersede_chunk_with_lifecycle_and_stored_ids now t old chunk initial fresh lane (m_ret ()) s
        = (Ok (id0, fresh), s') ∧ head fresh = Some id0 ∧
      superseded_with old now initial (added_chunks false parts fresh) id0 A s' A'
  | Some (Err e) =>
      supersede_chunk_with_lifecycle_and_stored_ids now t old chunk initial fresh lane (m_ret ()) s
        = (Err e, s)
  | None => False
  end.
Proof using All.
  intros Hi Hrq. destruct (supersede_preflight_exact t old (mc_tenant_id chunk) (db_of s)) as (res & E & _).
  rewrite E. destruct res as [[]|e].
  - destruct (runs_supersede s A now old chunk initial parts fresh lane Hi Hrq E)
      as (r & s' & tr & Er & _ & _ & (id0 & A' & -> & Hhd & HA)). by exists id0, s', A'.
  - unfold supersede_chunk_with_lifecycle_and_stored_ids, ensure_writable, m_bind, m_store, m_world, m_lift, m_ret.
    rewrite (implements_writable t s A Hi). unfold db_of in E. by rewrite E.
Qed.

(** C16: superseding is safe at every crash point.  When the process dies at
    any effect of a supersession on the disk, the tenant opens again and
    loses nothing: every chunk of before still reads with its content, and
    the old chunk only reads differently from before when every part of the
    replacement is there to be read. *)
Theorem supersede_crash_safe s A now old chunk initial parts fresh lane :
  implements t s A → request s now chunk initial parts fresh lane →
  supersede_preflight t old (mc_tenant_id chunk) (db_of s) = Some (Ok ()) →
  ∃ r s' worlds,
    supersede_chunk_with_lifecycle_and_stored_ids now t old chunk initial fresh lane (m_ret ()) s = (Ok r, s') ∧
    s_trace s' = s_trace s ++ worlds ∧
    ∀ w w' now' maxc minf interval, w ∈ worlds → crash_world w w' → 0 < maxc < 2 ^ 32 →
      ∃ ts w2 tr view, open now' (TenantId.as_str t) maxc minf interval false w' = (Ok ts, w2, tr) ∧
        (∀ c, ∃ s2, get_chunk (B := B) t c (mkSt ts w2 tr) = (Ok (view c), s2)) ∧
        (∀ c chunk, A !! c = Some chunk → ∃ st, view c = Some (set_status st chunk)) ∧
        (view old = A !! old ∨
         ∀ c part, (c, part) ∈ added_chunks false parts fresh → ∃ st, view c = Some (set_status st part)).
Proof using All.
  intros Hi Hrq Hpre.
  destruct (runs_supersede s A now old chunk initial parts fresh lane Hi Hrq Hpre) as (r & s' & tr & E & Htr & HI & _).
  exists r, s', tr. split_and!; [done|done|]. intros w w' now' maxc minf interval Hw Hc Hmax.
  exact (proj1 (Forall_forall _ _) HI w Hw now' maxc minf interval w' Hmax Hc).
Qed.

(** What the other tasks may do between the add and the link: anything that
    keeps the store going and leaves the chunks [cs] in it. *)
Definition coexists (cs : list ChunkId) (others : M B TK ()) : Prop :=
  ∀ s A, implements t s A → ∃ s' A', others s = (Ok (), s') ∧ implements t s' A' ∧
    ∀ c, c ∈ cs → is_Some (A !! c) → is_Some (A' !! c).

(** superseding is all or nothing, also when other tasks work on the same
    tenant between the add and the link, as long as they delete neither end.
    Either the link is made and the old chunk is superseded, or someone else
    had superseded it in the meantime: then the call fails and no part of its
    document is left in the store, everything else being as the others made
    it. *)
Theorem supersede_all_or_nothing s A now old chunk initial parts fresh lane others :
  implements t s A → request s now chunk initial parts fresh lane →
  supersede_preflight t old (mc_tenant_id chunk) (db_of s) = Some (Ok ()) →
  coexists (old :: fresh) others →
  Forall (λ c, wal_fits (wal_delete (TenantId.as_str t) (uuid_to_string c) now)) fresh →
  ∃ s2 A2 s' A', implements t s2 A2 ∧ implements t s' A' ∧
    match get t old (db_of s2) ≫= λ m, lc_superseded_by (cm_lifecycle m) with
    | None => ∃ id0,
        supersede_chunk_with_lifecycle_and_stored_ids now t old chunk initial fresh lane others s
          = (Ok (id0, fresh), s') ∧ head fresh = Some id0 ∧
        A' !! old = set_status Superseded <$> A2 !! old ∧ (∀ c, c ≠ old → A' !! c = A2 !! c) ∧
        ∀ c, c ∈ fresh → is_Some (A' !! c)
    | Some _ => ∃ e,
        supersede_chunk_with_lifecycle_and_stored_ids now t old chunk initial fresh lane others s = (Err e, s') ∧
        (∀ c, c ∈ fresh → A' !! c = None) ∧ ∀ c, c ∉ fresh → A' !! c = A2 !! c
    end.
Proof using All.
  intros Hi Hrq Hpre Hco Hfit. pose proof (preflight_ok _ _ _ Hpre) as (Ht & mo & Hgo & _).
  pose proof (rq_fits _ _ _ _ _ _ _ Hrq) as (Hlen & Hnd & _). set (l := added_chunks false parts fresh).
  assert (Hfst : map fst l = fresh) by (by apply (added_fst false)).
  destruct (written s A now chunk initial parts fresh lane Hi Hrq)
    as (r & s1 & tr & E1 & _ & _ & (id0 & part0 & -> & Hhd & Hin0) & A1 & [Hi1 Hparts Hoth]).
  assert (Hon : old ∉ map fst l) by (by eapply live_not_new).
  assert (Hne : old ≠ id0) by (intros ->; apply Hon; by apply (list_elem_of_fmap_2 fst _ _ Hin0)).
  destruct (Hco s1 A1 Hi1) as (s2 & A2 & E2 & Hi2 & Hkeep).
  assert (Hlive : ∀ c, c ∈ old :: fresh → is_Some (A2 !! c)).
  { intros c Hc. apply Hkeep; [done|]. apply elem_of_cons in Hc as [->|Hc].
    - apply (implements_dom t s1 A1 old Hi1). rewrite (proj2 (Hoth old Hon)). eauto.
    - rewrite <- Hfst in Hc. apply list_elem_of_fmap in Hc as ([c' part] & -> & Hin).
      cbn [fst]. destruct (Hparts _ _ Hin) as [-> _]. eauto. }
  destruct (proj1 (implements_dom t s2 A2 old Hi2) (Hlive old ltac:(by left))) as [mo2 Hgo2].
  destruct (proj1 (implements_dom t s2 A2 id0 Hi2) (Hlive id0 ltac:(right; rewrite <- Hfst;
    by apply (list_elem_of_fmap_2 fst _ _ Hin0)))) as [mn2 Hgn2].
  rewrite (supersede_program s A now old chunk initial fresh lane others s1 s2 id0 fresh Hi Hpre E1 E2).
  exists s2, A2. rewrite Hgo2. cbn [mbind option_bind].
  destruct (lc_superseded_by (cm_lifecycle mo2)) as [c|] eqn:Es.
  - pose proof (supersede_live t old id0 now (db_of s2) mo2 mn2 Hne Hgo2 Hgn2) as S. rewrite Es in S.
    destruct S as [e ->]. destruct (compensates now fresh s2 A2 Hfit Hi2) as (s' & E' & A' & Hi' & Hin & Hout).
    exists s', A'. split_and!; [done|done|]. exists e. split_and!; [|done|done]. unfold m_bind. by rewrite E'.
  - destruct (link_live old id0 now s2 A2 mo2 mn2 Hi2 Hne Hgo2 Hgn2 Es) as (db' & -> & _ & _ & A' & Hi' & HAo & HAx).
    eexists _, A'. split_and!; [done|apply Hi'|]. exists id0. split_and!; [done|done|done|done|].
    intros c Hc. rewrite HAx; [apply Hlive; by right|]. intros ->. apply Hon. by rewrite Hfst.
Qed.

End props.

(* ------------------------------------------------------------------ *)
(** ** A chunk superseded *)

#[local] Existing Instance dot_segmentation.

Definition lx_map : gmap ChunkId MemoryChunk := (spec ex_cmd ∅).2.
Definition lx_chunk : MemoryChunk := set_status Final (set_text_tags "ho" [] ex_chunk).
Definition lx_delta : LifecycleDelta := mkDelta None (Some LongTerm) None None (Some (Some 90)) None None.

Lemma lx_implements : implements ex_tenant ex_s1 lx_map.
Proof.
  destruct (exec_simulates ex_tenant ex_s0 ∅ ex_cmd ex_s0_implements ex_cmd_admissible)
    as (G & K & _ & _ & (out & s' & tr & E & _ & _ & _ & Hi)).
  unfold ex_s1. by rewrite E.
Qed.

Lemma lx_request : request ex_tenant ex_s1 20 lx_chunk lx_delta [lx_chunk] [ex_id 8] LaneIndexed.
Proof.
  split; [vm_compute; reflexivity|reflexivity|done|].
  cbn [admissible]. split_and!.
  - reflexivity.
  - apply NoDup_singleton.
  - vm_compute. reflexivity.
  - by repeat constructor.
  - apply Forall_singleton. split; [vm_compute; reflexivity|].
    apply (bool_decide_unpack (Forall _ _)). vm_compute. exact I.
  - apply Forall_singleton. split; vm_compute; reflexivity.
Qed.

Lemma lx_preflight : supersede_preflight ex_tenant (ex_id 7) ex_tenant (db_of ex_s1) = Some (Ok ()).
Proof. vm_compute. reflexivity. Qed.

Lemma supersede_exact_witness :
  ∃ id0 s' A',
    supersede_chunk_with_lifecycle_and_stored_ids 20 ex_tenant (ex_id 7) lx_chunk lx_delta [ex_id 8] LaneIndexed
      (m_ret ()) ex_s1 = (Ok (id0, [ex_id 8]), s') ∧ head [ex_id 8] = Some id0 ∧
    superseded_with ex_tenant (ex_id 7) 20 lx_delta (added_chunks false [lx_chunk] [ex_id 8]) id0 lx_map s' A'.
Proof.
  pose proof (supersede_exact ex_tenant eq_refl ex_s1 lx_map 20 (ex_id 7) lx_chunk lx_delta [lx_chunk] [ex_id 8]
    LaneIndexed lx_implements lx_request) as H.
  change (mc_tenant_id lx_chunk) with ex_tenant in H. rewrite lx_preflight in H. exact H.
Defined.

Lemma supersede_crash_safe_witness :
  ∃ r s' worlds,
    supersede_chunk_with_lifecycle_and_stored_ids 20 ex_tenant (ex_id 7) lx_chunk lx_delta [ex_id 8] LaneIndexed
      (m_ret ()) ex_s1 = (Ok r, s') ∧ s_trace s' = s_trace ex_s1 ++ worlds.
Proof.
  destruct (supersede_crash_safe ex_tenant eq_refl ex_s1 lx_map 20 (ex_id 7) lx_chunk lx_delta [lx_chunk] [ex_id 8]
    LaneIndexed lx_implements lx_request lx_preflight) as (r & s' & worlds & E & Ht & _). exists r, s', worlds. exact (conj E Ht).
Defined.

Lemma idle_coexists cs : coexists ex_tenant cs (m_ret () : M (gset Z) (list (list byte)) ()).
Proof. intros s A Hi. by exists s, A. Qed.

Lemma supersede_all_or_nothing_witness :
  ∃ s2 A2 s' A', implements ex_tenant s2 A2 ∧ implements ex_tenant s' A' ∧
    match get ex_tenant (ex_id 7) (db_of s2) ≫= λ m, lc_superseded_by (cm_lifecycle m) with
    | None => ∃ id0,
        supersede_chunk_with_lifecycle_and_stored_ids 20 ex_tenant (ex_id 7) lx_chunk lx_delta [ex_id 8] LaneIndexed
          (m_ret ()) ex_s1 = (Ok (id0, [ex_id 8]), s') ∧ head [ex_id 8] = Some id0 ∧
        A' !! ex_id 7 = set_status Superseded <$> A2 !! ex_id 7 ∧ (∀ c, c ≠ ex_id 7 → A' !! c = A2 !! c) ∧
        ∀ c, c ∈ [ex_id 8] → is_Some (A' !! c)
    | Some _ => ∃ e,
        supersede_chunk_with_lifecycle_and_stored_ids 20 ex_tenant (ex_id 7) lx_chunk lx_delta [ex_id 8] LaneIndexed
          (m_ret ()) ex_s1 = (Err e, s') ∧
        (∀ c, c ∈ [ex_id 8] → A' !! c = None) ∧ ∀ c, c ∉ [ex_id 8] → A' !! c = A2 !! c
    end.
Proof.
  apply (supersede_all_or_nothing ex_tenant eq_refl ex_s1 lx_map 20 (ex_id 7) lx_chunk lx_delta [lx_chunk] [ex_id 8]
    LaneIndexed); [exact lx_implements|exact lx_request|exact lx_preflight|apply idle_coexists|].
  apply Forall_singleton. split; vm_compute; reflexivity.
Defined.

(** A task that deletes the old chunk between the checks and the link: the
    statements of the link do not look at the status, so the call succeeds
    and the deleted row comes back as a superseded one, whose payload no read
    finds. *)
Definition lx_race : M (gset Z) (list (list byte)) () :=
  _ <- delete_chunk 21 ex_tenant (ex_id 7) ;; m_ret ().
Definition lx_raced : memd_result (ChunkId * list ChunkId) * ex_St :=
  supersede_chunk_with_lifecycle_and_stored_ids 20 ex_tenant (ex_id 7) lx_chunk lx_delta [ex_id 8] LaneIndexed
    lx_race ex_s1.

Example supersede_revives_deleted_row :
  lx_raced.1 = Ok (ex_id 8, [ex_id 8]) ∧ r_status <$> db_of lx_raced.2 !! ex_id 7 = Some Superseded ∧
  (get_chunk ex_tenant (ex_id 7) lx_raced.2).1 = Ok None.
Proof. vm_compute. done. Qed.
