(* ===== verification/Outcome.v ===== *)
(** * Retrieval episodes and task outcomes
    (src/crates/memd/src/store/outcome.rs)

    An episode is one retrieval: the candidate chunks with their ranks and
    which of them were rendered.  An outcome event says how the task went and
    which rendered chunks were used or did harm; eligible events become the
    ranking priors of chunks.  A panic is [None].  The last part is the
    relevance feedback (src/crates/memd/src/store/feedback.rs). *)

From S2P Require Import Prelude Crates Types Str Ranking.
From Stdlib Require Import Ascii Floats.SpecFloat.
From Stdlib Require Import Floats.SpecFloat Sorting.Sorted.

Open Scope Z_scope.

(* ------------------------------------------------------------------ *)
(** ** Identifiers and enums *)

(** [RetrievalEpisodeId(Uuid)] and [OutcomeEventId(Uuid)] *)
Record RetrievalEpisodeId : Type := mkEpisodeId { episode_uuid : N }.
Record OutcomeEventId : Type := mkEventId { event_uuid : N }.

#[export] Instance RetrievalEpisodeId_eq_dec : EqDecision RetrievalEpisodeId.
Proof. solve_decision. Defined.
#[export] Instance RetrievalEpisodeId_countable : Countable RetrievalEpisodeId.
Proof. apply (inj_countable' episode_uuid mkEpisodeId). by intros []. Defined.
#[export] Instance OutcomeEventId_eq_dec : EqDecision OutcomeEventId.
Proof. solve_decision. Defined.
#[export] Instance OutcomeEventId_countable : Countable OutcomeEventId.
Proof. apply (inj_countable' event_uuid mkEventId). by intros []. Defined.

Definition OUTCOME_POLICY_VERSION : string := "outcome-v1".
Definition OUTCOME_HALF_LIFE_MS : Z := 90 * 24 * 60 * 60 * 1000.
Definition MAX_OUTCOME_ADJUSTMENT : f32 := f32_lit 20 100.

Section ids.
Context `{UE : Uuid RetrievalEpisodeId} `{UO : Uuid OutcomeEventId}.

Definition RetrievalEpisodeId_parse (value : string) : memd_result RetrievalEpisodeId :=
  ok_or (uuid_parse value) (ValidationError "invalid retrieval episode id").
Definition OutcomeEventId_parse (value : string) : memd_result OutcomeEventId :=
  ok_or (uuid_parse value) (ValidationError "invalid outcome event id").
End ids.

Inductive RankingPolicyMode : Type := PolicyOff | PolicyShadow | PolicyServe.

Definition RankingPolicyMode_as_str (m : RankingPolicyMode) : string :=
  match m with PolicyOff => "off" | PolicyShadow => "shadow" | PolicyServe => "serve" end.

Definition RankingPolicyMode_parse (value : string) : memd_result RankingPolicyMode :=
  if bool_decide (value = "off"%string) then Ok PolicyOff
  else if bool_decide (value = "shadow"%string) then Ok PolicyShadow
  else if bool_decide (value = "serve"%string) then Ok PolicyServe
  else Err (ValidationError "invalid ranking policy mode").

Inductive OutcomeKind : Type :=
| Passed | Accepted | ObservedUsed | Corrected | FailedOutcome | Abandoned | VerifierError.

#[export] Instance RankingPolicyMode_eq_dec : EqDecision RankingPolicyMode.
Proof. solve_decision. Defined.
#[export] Instance OutcomeKind_eq_dec : EqDecision OutcomeKind.
Proof. solve_decision. Defined.

Definition OutcomeKind_as_str (k : OutcomeKind) : string :=
  match k with
  | Passed => "passed"
  | Accepted => "accepted"
  | ObservedUsed => "observed_used"
  | Corrected => "corrected"
  | FailedOutcome => "failed"
  | Abandoned => "abandoned"
  | VerifierError => "verifier_error"
  end.

Definition OutcomeKind_parse (value : string) : memd_result OutcomeKind :=
  if bool_decide (value = "passed"%string) then Ok Passed
  else if bool_decide (value = "accepted"%string) then Ok Accepted
  else if bool_decide (value = "observed_used"%string) then Ok ObservedUsed
  else if bool_decide (value = "corrected"%string) then Ok Corrected
  else if bool_decide (value = "failed"%string) then Ok FailedOutcome
  else if bool_decide (value = "abandoned"%string) then Ok Abandoned
  else if bool_decide (value = "verifier_error"%string) then Ok VerifierError
  else Err (ValidationError "invalid retrieval outcome").

Definition credits_used (k : OutcomeKind) : bool :=
  match k with Passed | Accepted => true | _ => false end.
Definition credits_harmful (k : OutcomeKind) : bool :=
  match k with Corrected | FailedOutcome => true | _ => false end.
Definition is_verifier_error (k : OutcomeKind) : bool :=
  match k with VerifierError => true | _ => false end.

Inductive OutcomeVerifier : Type :=
| VerifiedByUser | AutomatedTest | ExternalTool | TaskSystem | AgentSelfReport.

#[export] Instance OutcomeVerifier_eq_dec : EqDecision OutcomeVerifier.
Proof. solve_decision. Defined.

Definition OutcomeVerifier_as_str (v : OutcomeVerifier) : string :=
  match v with
  | VerifiedByUser => "user"
  | AutomatedTest => "automated_test"
  | ExternalTool => "external_tool"
  | TaskSystem => "task_system"
  | AgentSelfReport => "agent_self_report"
  end.

Definition OutcomeVerifier_parse (value : string) : memd_result OutcomeVerifier :=
  if bool_decide (value = "user"%string) then Ok VerifiedByUser
  else if bool_decide (value = "automated_test"%string) then Ok AutomatedTest
  else if bool_decide (value = "external_tool"%string) then Ok ExternalTool
  else if bool_decide (value = "task_system"%string) then Ok TaskSystem
  else if bool_decide (value = "agent_self_report"%string) then Ok AgentSelfReport
  else Err (ValidationError "invalid outcome verifier").

(** [OutcomeVerifier::is_ranking_eligible] *)
Definition is_ranking_eligible (v : OutcomeVerifier) : bool :=
  match v with AgentSelfReport => false | _ => true end.
Definition requires_evidence (v : OutcomeVerifier) : bool :=
  match v with AutomatedTest | ExternalTool | TaskSystem => true | _ => false end.

(* ------------------------------------------------------------------ *)
(** ** Episodes, items, events *)

Record RetrievalEpisode : Type := mkEpisode {
  re_episode_id : RetrievalEpisodeId;
  re_tenant_id : TenantId;
  re_project_id : option string;
  re_query_hash : string;
  re_query_mode : string;
  re_requested_k : Z;
  re_fetched_k : Z;
  re_rendered_k : Z;
  re_policy_version : string;
  re_policy_mode : RankingPolicyMode;
  re_task_id : option string;
  re_thread_id : option string;
  re_created_at_ms : Z;
  re_expires_at_ms : Z;
}.

Record RetrievalEpisodeItem : Type := mkItem {
  ri_episode_id : RetrievalEpisodeId;
  ri_chunk_id : ChunkId;
  ri_origin_tenant_id : TenantId;
  ri_origin_project_id : option string;
  ri_original_rank : Z;
  ri_original_score : f32;
  ri_lane_scores_json : string;
  ri_outcome_adjustment : f32;
  ri_served_rank : option Z;
  ri_shadow_rank : option Z;
  ri_rendered : bool;
  ri_source_dedup_group : option string;
}.

Record OutcomeEvent : Type := mkEvent {
  oe_event_id : OutcomeEventId;
  oe_episode_id : RetrievalEpisodeId;
  oe_outcome : OutcomeKind;
  oe_verifier : OutcomeVerifier;
  oe_used_chunk_ids : list ChunkId;
  oe_harmful_chunk_ids : list ChunkId;
  oe_evidence_reference : option string;
  oe_ranking_eligible : bool;
  oe_timestamp_ms : Z;
}.

Record OutcomePrior : Type := mkPrior {
  op_chunk_id : ChunkId;
  op_eligible_episode_count : Z;
  op_positive_weight : f32;
  op_negative_weight : f32;
  op_last_outcome_at_ms : Z;
}.

(** The fields that change. *)
Definition set_rendered_k (k : Z) (e : RetrievalEpisode) : RetrievalEpisode :=
  mkEpisode (re_episode_id e) (re_tenant_id e) (re_project_id e) (re_query_hash e)
    (re_query_mode e) (re_requested_k e) (re_fetched_k e) k (re_policy_version e)
    (re_policy_mode e) (re_task_id e) (re_thread_id e) (re_created_at_ms e) (re_expires_at_ms e).

Definition set_served (rank : option Z) (rendered : bool) (i : RetrievalEpisodeItem)
    : RetrievalEpisodeItem :=
  mkItem (ri_episode_id i) (ri_chunk_id i) (ri_origin_tenant_id i) (ri_origin_project_id i)
    (ri_original_rank i) (ri_original_score i) (ri_lane_scores_json i) (ri_outcome_adjustment i)
    rank (ri_shadow_rank i) rendered (ri_source_dedup_group i).

(* ------------------------------------------------------------------ *)
(** ** Priors *)

(** [f64::powf] of the C library. *)
Class Powf : Type := { f64_powf : f64 → f64 → f64 }.

(** [OutcomePrior::new] *)
Definition prior_new (c : ChunkId) : OutcomePrior := mkPrior c 0 f32_zero f32_zero 0.

(** [OutcomePrior::add] *)
Definition prior_add (positive : bool) (weight : f32) (timestamp_ms : Z) (p : OutcomePrior)
    : OutcomePrior :=
  mkPrior (op_chunk_id p) (sat_add_u64 (op_eligible_episode_count p) 1)
    (if positive then f32_add (op_positive_weight p) weight else op_positive_weight p)
    (if positive then op_negative_weight p else f32_add (op_negative_weight p) weight)
    (Z.max (op_last_outcome_at_ms p) timestamp_ms).

(** [OutcomePrior::bounded_adjustment] *)
Definition bounded_adjustment (p : OutcomePrior) : f32 :=
  let evidence := f32_add (op_positive_weight p) (op_negative_weight p) in
  if f32_le evidence f32_EPSILON then f32_zero
  else
    f32_clamp (SFopp MAX_OUTCOME_ADJUSTMENT) MAX_OUTCOME_ADJUSTMENT
      (f32_mul (f32_div (f32_sub (op_positive_weight p) (op_negative_weight p))
                  (f32_add evidence (f32_of_Z 4)))
               MAX_OUTCOME_ADJUSTMENT).

Definition decayed_outcome_weight `{PF : Powf} (timestamp_ms now_ms : Z) : f32 :=
  let age_ms := f64_of_Z (Z.max (sat_sub_i64 now_ms timestamp_ms) 0) in
  f64_as_f32 (f64_powf (f64_of_Z 2) (f64_div (SFopp age_ms) (f64_of_Z OUTCOME_HALF_LIFE_MS))).

(* ------------------------------------------------------------------ *)
(** ** Eligibility *)

(** [str::strip_prefix], [str::ends_with] with a string, [str::rsplit_once]
    with an ASCII character. *)
Fixpoint strip_prefix (p s : string) : option string :=
  match p, s with
  | EmptyString, _ => Some s
  | String a p, String b s => if bool_decide (a = b) then strip_prefix p s else None
  | String _ _, EmptyString => None
  end.

Fixpoint str_ends_with (suffix s : string) : bool :=
  bool_decide (s = suffix) ||
  match s with EmptyString => false | String _ s => str_ends_with suffix s end.

Fixpoint rsplit_once (c : ascii) (s : string) : option (string * string) :=
  match s with
  | EmptyString => None
  | String a s =>
      match rsplit_once c s with
      | Some (before, after) => Some (String a before, after)
      | None => if bool_decide (a = c) then Some (""%string, s) else None
      end
  end.

(** [str::parse::<usize>()]: an optional plus sign, then digits that fit. *)
Definition digit_value (c : ascii) : option Z :=
  let n := Z.of_N (N_of_ascii c) in
  if (48 <=? n) && (n <=? 57) then Some (n - 48) else None.
Fixpoint parse_digits (acc : Z) (s : string) : option Z :=
  match s with
  | EmptyString => Some acc
  | String c s =>
      d ← digit_value c;
      let acc := acc * 10 + d in
      if acc <=? u64_max then parse_digits acc s else None
  end.
Definition parse_usize (s : string) : option Z :=
  match default s (strip_prefix "+" s) with
  | EmptyString => None
  | s => parse_digits 0 s
  end.

Definition is_legacy_codex_scanner_outcome (outcome : OutcomeKind) (verifier : OutcomeVerifier)
    (evidence_reference : option string) : bool :=
  if bool_decide (outcome ≠ Accepted) || bool_decide (verifier ≠ ExternalTool) then false
  else
    match evidence_reference ≫= strip_prefix "codex:" with
    | None => false
    | Some reference =>
        match rsplit_once ":" reference with
        | None => false
        | Some (session, line) =>
            bool_decide (session ≠ ""%string) && str_ends_with ".jsonl" session &&
            negb (string_contains "/" session) && negb (string_contains "\" session) &&
            match parse_usize line with Some n => 0 <? n | None => false end
        end
    end.

Definition expected_ranking_eligibility (outcome : OutcomeKind) (verifier : OutcomeVerifier)
    (has_used_chunks has_harmful_chunks : bool) (evidence_reference : option string) : bool :=
  is_ranking_eligible verifier &&
  negb (is_legacy_codex_scanner_outcome outcome verifier evidence_reference) &&
  ((credits_used outcome && has_used_chunks) || (credits_harmful outcome && has_harmful_chunks)).

(** [.is_empty()] *)
Definition is_empty {A} (l : list A) : bool := match l with [] => true | _ => false end.

(** [OutcomeEvent::new], the fresh event id being an argument. *)
Definition outcome_event_new (event_id : OutcomeEventId) (episode_id : RetrievalEpisodeId)
    (outcome : OutcomeKind) (verifier : OutcomeVerifier) (used harmful : list ChunkId)
    (evidence_reference : option string) (timestamp_ms : Z) : OutcomeEvent :=
  mkEvent event_id episode_id outcome verifier used harmful evidence_reference
    (expected_ranking_eligibility outcome verifier (negb (is_empty used)) (negb (is_empty harmful))
       evidence_reference) timestamp_ms.

(** [OutcomeEvent::contributes_to_ranking] *)
Definition contributes_to_ranking (e : OutcomeEvent) : bool :=
  oe_ranking_eligible e &&
  negb (is_legacy_codex_scanner_outcome (oe_outcome e) (oe_verifier e) (oe_evidence_reference e)).

(* ------------------------------------------------------------------ *)
(** ** Validation *)

(** serde_json on the two kinds of text the code reads and writes: whether a
    text parses to an object, and lists of strings. *)
Class JsonText : Type := {
  json_text_is_object : string → bool;
  json_strings : list string → string;
  json_strings_parse : string → option (list string);
}.
Class JsonTextLaws `{JT : JsonText} : Prop := {
  json_strings_roundtrip l : json_strings_parse (json_strings l) = Some l;
}.

(** [u8::is_ascii_hexdigit] *)
Definition is_ascii_hexdigit (c : ascii) : bool :=
  let n := Z.of_N (N_of_ascii c) in
  ((48 <=? n) && (n <=? 57)) || ((65 <=? n) && (n <=? 70)) || ((97 <=? n) && (n <=? 102)).

Definition zstrlen (s : string) : Z := Z.of_nat (String.length s).

Definition stable_query_hash `{SHA : Sha256} `{UC : Unicode} (query : string) : string :=
  sha256_hex (str_join " " (str_split_whitespace query)).

Section validate.
Context `{JT : JsonText}.

(** The four sets of the loop: ids, original, served and shadow ranks. *)
Record Claimed : Type := mkClaimed {
  cl_chunks : gset ChunkId;
  cl_original : gset Z;
  cl_served : gset Z;
  cl_shadow : gset Z;
}.

(** [if let Some(rank) = .. { if !ranks.insert(rank) { return Err(..) } }] *)
Definition claim_rank (err : string) (s : gset Z) (rank : option Z) : memd_result (gset Z) :=
  match rank with
  | None => Ok s
  | Some r => if bool_decide (r ∈ s) then Err (ValidationError err) else Ok ({[r]} ∪ s)
  end.

(** The body of the loop over the items. *)
Definition validate_item (episode_id : RetrievalEpisodeId) (s : Claimed) (item : RetrievalEpisodeItem)
    : memd_result Claimed :=
  if bool_decide (ri_episode_id item ≠ episode_id)
  then Err (ValidationError "retrieval episode item references a different episode")
  else if bool_decide (ri_chunk_id item ∈ cl_chunks s) || bool_decide (ri_original_rank item ∈ cl_original s)
  then Err (ValidationError "retrieval episode candidate IDs and original ranks must be unique")
  else if negb (is_finite (ri_original_score item)) || negb (is_finite (ri_outcome_adjustment item))
  then Err (ValidationError "retrieval episode scores must be finite")
  else if (4096 <? zstrlen (ri_lane_scores_json item)) || negb (json_text_is_object (ri_lane_scores_json item))
  then Err (ValidationError "retrieval episode lane scores must be a bounded JSON object")
  else
    served ← claim_rank "retrieval episode served ranks must be unique" (cl_served s) (ri_served_rank item);
    shadow ← claim_rank "retrieval episode shadow ranks must be unique" (cl_shadow s) (ri_shadow_rank item);
    if ri_rendered item && is_none (ri_served_rank item)
    then Err (ValidationError "a rendered retrieval item must have a served rank")
    else Ok (mkClaimed ({[ri_chunk_id item]} ∪ cl_chunks s) ({[ri_original_rank item]} ∪ cl_original s)
               served shadow).

(** The check of [task_id] and [thread_id]. *)
Definition bad_reference (value : option string) : bool :=
  match value with
  | Some v => bool_decide (str_trim v = ""%string) || (512 <? zstrlen v)
  | None => false
  end.

(** [.iter().filter(|item| item.rendered).count()] *)
Definition rendered_count (items : list RetrievalEpisodeItem) : Z :=
  zlen (List.filter ri_rendered items).

Definition validate_retrieval_episode (episode : RetrievalEpisode)
    (items : list RetrievalEpisodeItem) : memd_result () :=
  if negb (zstrlen (re_query_hash episode) =? 64) || negb (string_all is_ascii_hexdigit (re_query_hash episode))
  then Err (ValidationError "retrieval episode query hash must be a SHA-256 hex digest")
  else if bool_decide (str_trim (re_query_mode episode) = ""%string) ||
          bool_decide (str_trim (re_policy_version episode) = ""%string)
  then Err (ValidationError "retrieval episode mode and policy version must not be empty")
  else if bad_reference (re_task_id episode) || bad_reference (re_thread_id episode)
  then Err (ValidationError "retrieval episode reference must contain 1 to 512 bytes")
  else if re_expires_at_ms episode <=? re_created_at_ms episode
  then Err (ValidationError "retrieval episode expiry must follow creation")
  else if negb (re_fetched_k episode =? zlen items)
  then Err (ValidationError "retrieval episode fetched_k does not match candidate items")
  else if (200 <? re_requested_k episode) || (200 <? re_fetched_k episode) || (200 <? re_rendered_k episode)
  then Err (ValidationError "retrieval episode exceeds bounded k limits")
  else if negb (re_rendered_k episode =? rendered_count items)
  then Err (ValidationError "retrieval episode rendered_k does not match rendered items")
  else
    _ ← try_fold (validate_item (re_episode_id episode)) items (mkClaimed ∅ ∅ ∅ ∅);
    Ok ().

(* ------------------------------------------------------------------ *)
(** ** The rendered order *)

(** The loop that checks the requested ids. *)
Definition check_requested (items : list RetrievalEpisodeItem) (requested : gset ChunkId) (c : ChunkId)
    : memd_result (gset ChunkId) :=
  if bool_decide (c ∈ requested)
  then Err (ValidationError "rendered retrieval order contains duplicate chunk IDs")
  else if negb (existsb (λ i, bool_decide (ri_chunk_id i = c)) items)
  then Err (ValidationError "rendered chunk was not in the retrieval candidate pool")
  else Ok ({[c]} ∪ requested).

(** [items.iter_mut().find(|item| &item.chunk_id == chunk_id)], and the
    assignments to what it finds; [None] when the [expect] panics. *)
Fixpoint serve_item (c : ChunkId) (rank : Z) (items : list RetrievalEpisodeItem)
    : option (list RetrievalEpisodeItem) :=
  match items with
  | [] => None
  | i :: items =>
      if bool_decide (ri_chunk_id i = c) then Some (set_served (Some rank) true i :: items)
      else cons i <$> serve_item c rank items
  end.

(** [for (rank, chunk_id) in rendered_chunk_ids.iter().enumerate()] *)
Fixpoint serve_items (rank : Z) (ids : list ChunkId) (items : list RetrievalEpisodeItem)
    : option (list RetrievalEpisodeItem) :=
  match ids with
  | [] => Some items
  | c :: ids => items ← serve_item c rank items; serve_items (rank + 1) ids items
  end.

(** The result with the episode and the items as the call leaves them; the
    caller sees them changed also when the last check fails. *)
Definition apply_rendered_order (episode : RetrievalEpisode) (items : list RetrievalEpisodeItem)
    (rendered_chunk_ids : list ChunkId)
    : option (memd_result () * RetrievalEpisode * list RetrievalEpisodeItem) :=
  if re_requested_k episode <? zlen rendered_chunk_ids
  then Some (Err (ValidationError "rendered retrieval count exceeds requested k"), episode, items)
  else
    match try_fold (check_requested items) rendered_chunk_ids ∅ with
    | Err e => Some (Err e, episode, items)
    | Ok _ =>
        items ← serve_items 0 rendered_chunk_ids (map (set_served None false) items);
        let episode := set_rendered_k (zlen rendered_chunk_ids) episode in
        Some (validate_retrieval_episode episode items, episode, items)
    end.

(* ------------------------------------------------------------------ *)
(** ** Outcome events *)

Definition validate_outcome_event (tenant_id : TenantId) (episode : RetrievalEpisode)
    (items : list RetrievalEpisodeItem) (event : OutcomeEvent) : memd_result () :=
  if bool_decide (re_tenant_id episode ≠ tenant_id) ||
     bool_decide (oe_episode_id event ≠ re_episode_id episode)
  then Err (ValidationError "outcome tenant or episode does not match the retrieval episode")
  else if (oe_timestamp_ms event <? re_created_at_ms episode) ||
          (re_expires_at_ms episode <? oe_timestamp_ms event)
  then Err (ValidationError "outcome timestamp falls outside the retrieval episode retention window")
  else if requires_evidence (oe_verifier event) &&
          match oe_evidence_reference event with
          | None => true
          | Some r => bool_decide (str_trim r = ""%string)
          end
  then Err (ValidationError "outcomes require an evidence reference")
  else if match oe_evidence_reference event with Some r => 2048 <? zstrlen r | None => false end
  then Err (ValidationError "outcome evidence reference exceeds 2048 bytes")
  else
    let rendered : gset ChunkId := list_to_set (map ri_chunk_id (List.filter ri_rendered items)) in
    let used : gset ChunkId := list_to_set (oe_used_chunk_ids event) in
    let harmful : gset ChunkId := list_to_set (oe_harmful_chunk_ids event) in
    if negb (Z.of_nat (size used) =? zlen (oe_used_chunk_ids event)) ||
       negb (Z.of_nat (size harmful) =? zlen (oe_harmful_chunk_ids event))
    then Err (ValidationError "outcome chunk IDs must not contain duplicates")
    else if negb (bool_decide (used ∩ harmful = ∅))
    then Err (ValidationError "outcome used and harmful chunk IDs must not overlap")
    else if negb (bool_decide (used ∪ harmful ⊆ rendered))
    then Err (ValidationError "outcome attribution is limited to chunks rendered in the episode")
    else if negb (Bool.eqb (oe_ranking_eligible event)
                   (expected_ranking_eligibility (oe_outcome event) (oe_verifier event)
                      (negb (bool_decide (used = ∅))) (negb (bool_decide (harmful = ∅)))
                      (oe_evidence_reference event)))
    then Err (ValidationError "outcome ranking eligibility does not match its verifier and attribution")
    else Ok ().
End validate.

(* ------------------------------------------------------------------ *)
(** ** Facts about episodes and outcomes

    [validate_retrieval_episode] decides [valid_episode]; a rendered order
    that passes the checks is written exactly and keeps the episode valid;
    [validate_outcome_event] decides [valid_outcome]. *)

Section facts.
Context `{JT : JsonText}.

(* ------------------------------------------------------------------ *)
(** ** Valid episodes *)

Definition item_ok (id : RetrievalEpisodeId) (i : RetrievalEpisodeItem) : Prop :=
  ri_episode_id i = id ∧
  is_finite (ri_original_score i) = true ∧ is_finite (ri_outcome_adjustment i) = true ∧
  zstrlen (ri_lane_scores_json i) ≤ 4096 ∧ json_text_is_object (ri_lane_scores_json i) = true ∧
  (ri_rendered i = true → is_Some (ri_served_rank i)).

(** The checks that only look at the episode. *)
Definition episode_ok (e : RetrievalEpisode) : Prop :=
  zstrlen (re_query_hash e) = 64 ∧ string_all is_ascii_hexdigit (re_query_hash e) = true ∧
  str_trim (re_query_mode e) ≠ ""%string ∧ str_trim (re_policy_version e) ≠ ""%string ∧
  bad_reference (re_task_id e) = false ∧ bad_reference (re_thread_id e) = false ∧
  re_created_at_ms e < re_expires_at_ms e ∧
  re_requested_k e ≤ 200 ∧ re_fetched_k e ≤ 200 ∧ re_rendered_k e ≤ 200.

Record valid_episode (e : RetrievalEpisode) (items : list RetrievalEpisodeItem) : Prop := {
  ve_episode : episode_ok e;
  ve_fetched : re_fetched_k e = zlen items;
  ve_rendered : re_rendered_k e = rendered_count items;
  ve_items : Forall (item_ok (re_episode_id e)) items;
  ve_chunks : NoDup (map ri_chunk_id items);
  ve_original : NoDup (map ri_original_rank items);
  ve_served : NoDup (omap ri_served_rank items);
  ve_shadow : NoDup (omap ri_shadow_rank items);
}.

Lemma claim_rank_ok err s rank s' :
  claim_rank err s rank = Ok s' ↔
  (∀ r, rank = Some r → r ∉ s) ∧
  s' = (match rank with Some r => {[r]} ∪ s | None => s end).
Proof.
  destruct rank as [r|]; cbn.
  - case_bool_decide as E.
    + split; [done|]. intros [H _]. by destruct (H r).
    + split; [intros [= <-]; split; [by intros ? [= <-]|done]|by intros [_ ->]].
  - split; [by intros [= <-]|by intros [_ ->]].
Qed.

Definition claimed (i : RetrievalEpisodeItem) (s : Claimed) : Claimed :=
  mkClaimed ({[ri_chunk_id i]} ∪ cl_chunks s) ({[ri_original_rank i]} ∪ cl_original s)
    (match ri_served_rank i with Some r => {[r]} ∪ cl_served s | None => cl_served s end)
    (match ri_shadow_rank i with Some r => {[r]} ∪ cl_shadow s | None => cl_shadow s end).

Definition unclaimed (i : RetrievalEpisodeItem) (s : Claimed) : Prop :=
  (ri_chunk_id i ∉ cl_chunks s) ∧ (ri_original_rank i ∉ cl_original s) ∧
  (∀ r, ri_served_rank i = Some r → r ∉ cl_served s) ∧
  (∀ r, ri_shadow_rank i = Some r → r ∉ cl_shadow s).

Lemma validate_item_ok id s i s' :
  validate_item id s i = Ok s' ↔ item_ok id i ∧ unclaimed i s ∧ s' = claimed i s.
Proof.
  unfold validate_item, item_ok, unclaimed.
  case_bool_decide as E1; [by split; [|intros [[]]]|].
  destruct (_ || _) eqn:E2.
  { split; [done|]. intros (_ & (? & ? & _) & _).
    apply orb_true_iff in E2 as [E2|E2]; by apply bool_decide_eq_true in E2. }
  apply orb_false_iff in E2 as [E2 E3]. apply bool_decide_eq_false in E2, E3.
  destruct (is_finite (ri_original_score i)), (is_finite (ri_outcome_adjustment i)); cbn [negb orb];
    try (by split; [|intros ((? & ? & ? & ?) & _)]).
  destruct (Z.ltb_spec 4096 (zstrlen (ri_lane_scores_json i))); cbn [orb];
    [by split; [|intros ((_ & _ & _ & ? & _) & _); lia]|].
  destruct (json_text_is_object _); cbn [negb]; [|by split; [|intros ((_ & _ & _ & _ & ? & _) & _)]].
  destruct (claim_rank _ (cl_served s) _) as [s1|] eqn:C1; cbn [mbind result_bind].
  2:{ split; [done|]. intros (_ & (_ & _ & H1 & _) & _). edestruct claim_rank_ok as [_ H2].
      rewrite C1 in H2. by specialize (H2 (conj H1 eq_refl)). }
  apply claim_rank_ok in C1 as [C1 ->].
  destruct (claim_rank _ (cl_shadow s) _) as [s2|] eqn:C2; cbn [mbind result_bind].
  2:{ split; [done|]. intros (_ & (_ & _ & _ & H1) & _). edestruct claim_rank_ok as [_ H2].
      rewrite C2 in H2. by specialize (H2 (conj H1 eq_refl)). }
  apply claim_rank_ok in C2 as [C2 ->].
  destruct (ri_rendered i) eqn:Er, (ri_served_rank i) as [r|] eqn:Es; cbn [is_none andb];
    unfold claimed; rewrite Es;
    (split; [intros [= <-]; naive_solver eauto|try (intros (? & ? & ->); done)]).
  intros ((_ & _ & _ & _ & _ & H6) & _). by destruct H6.
Qed.

(** A list of keys without repetitions none of which is claimed. *)
Definition fresh_keys {K} `{Countable K} (l : list K) (s : gset K) : Prop :=
  NoDup l ∧ ∀ k, k ∈ l → k ∉ s.

Lemma fresh_keys_cons {K} `{Countable K} k (l : list K) (s : gset K) :
  fresh_keys (k :: l) s ↔ (k ∉ s) ∧ fresh_keys l ({[k]} ∪ s).
Proof. unfold fresh_keys. rewrite NoDup_cons. set_solver. Qed.

Lemma fresh_keys_empty {K} `{Countable K} (l : list K) : fresh_keys l ∅ ↔ NoDup l.
Proof. unfold fresh_keys. set_solver. Qed.

(** What the loop needs of the items that are left. *)
Definition items_fresh (items : list RetrievalEpisodeItem) (s : Claimed) : Prop :=
  fresh_keys (map ri_chunk_id items) (cl_chunks s) ∧
  fresh_keys (map ri_original_rank items) (cl_original s) ∧
  fresh_keys (omap ri_served_rank items) (cl_served s) ∧
  fresh_keys (omap ri_shadow_rank items) (cl_shadow s).

Lemma items_fresh_cons i items s :
  items_fresh (i :: items) s ↔ unclaimed i s ∧ items_fresh items (claimed i s).
Proof.
  unfold items_fresh, unclaimed, claimed. cbn [map omap list_omap cl_chunks cl_original cl_served cl_shadow].
  rewrite !fresh_keys_cons.
  destruct (ri_served_rank i), (ri_shadow_rank i); rewrite ?fresh_keys_cons; naive_solver.
Qed.

Lemma validate_items_ok id items : ∀ s,
  is_ok (try_fold (validate_item id) items s) = true ↔ Forall (item_ok id) items ∧ items_fresh items s.
Proof.
  induction items as [|i items IH]; intros s; cbn [try_fold].
  - split; [|done]. intros _. split; [done|]. unfold items_fresh, fresh_keys. cbn.
    split_and!; [constructor|set_solver|constructor|set_solver|constructor|set_solver|constructor|set_solver].
  - rewrite items_fresh_cons, Forall_cons.
    destruct (validate_item id s i) as [s1|e] eqn:E; cbn [mbind result_bind].
    + apply validate_item_ok in E as (H1 & H2 & ->). rewrite IH. naive_solver.
    + cbn. split; [done|]. intros ((H1 & H2) & H3 & H4).
      assert (validate_item id s i = Ok (claimed i s)) as E' by (by apply validate_item_ok).
      congruence.
Qed.

(** [validate_retrieval_episode] decides [valid_episode]. *)
Lemma validate_episode_ok e items :
  validate_retrieval_episode e items = Ok () ↔ valid_episode e items.
Proof.
  unfold validate_retrieval_episode. split.
  - repeat match goal with |- (if ?b then _ else _) = _ → _ => destruct b eqn:?; [done|] end.
    destruct (try_fold _ _ _) as [s|] eqn:Ef; [|done]. intros _.
    assert (is_ok (try_fold (validate_item (re_episode_id e)) items (mkClaimed ∅ ∅ ∅ ∅)) = true) as Hok
      by by rewrite Ef.
    apply validate_items_ok in Hok as (H1 & H2 & H3 & H4 & H5).
    apply fresh_keys_empty in H2, H3, H4, H5.
    rewrite ?orb_false_iff, ?negb_false_iff, ?bool_decide_eq_false, ?Z.eqb_eq, ?Z.leb_gt, ?Z.ltb_ge in *.
    split; unfold episode_ok; naive_solver.
  - intros [He Hf Hr Hi H2 H3 H4 H5]. destruct He as (-> & -> & ? & ? & -> & -> & ? & ? & ? & ?).
    rewrite Z.eqb_refl. cbn [negb orb]. rewrite !bool_decide_false by done. cbn [orb].
    rewrite (proj2 (Z.leb_gt _ _)) by done. rewrite <- Hf, <- Hr, !Z.eqb_refl. cbn [negb].
    rewrite !(proj2 (Z.ltb_ge _ _)) by done. cbn [orb].
    assert (is_ok (try_fold (validate_item (re_episode_id e)) items (mkClaimed ∅ ∅ ∅ ∅)) = true) as Hok.
    { apply validate_items_ok. split; [done|]. split_and!; by apply fresh_keys_empty. }
    by destruct (try_fold _ _ _).
Qed.

Lemma filter_bool_perm {A} (p : A → bool) (l k : list A) : l ≡ₚ k → List.filter p l ≡ₚ List.filter p k.
Proof.
  induction 1 as [|x l k Hp IH|x y l|l k m _ IH1 _ IH2]; cbn; [done|..].
  - destruct (p x); by rewrite IH.
  - destruct (p x), (p y); (done || by constructor).
  - by transitivity (List.filter p k).
Qed.

(** Validity does not depend on the order of the items. *)
Lemma valid_episode_perm e items items' :
  items ≡ₚ items' → valid_episode e items → valid_episode e items'.
Proof.
  intros Hp [? Hf Hr Hi H1 H2 H3 H4].
  split; [done|by rewrite Hf; unfold zlen; rewrite Hp| |by rewrite <- Hp..].
  rewrite Hr. unfold rendered_count, zlen. by rewrite (filter_bool_perm _ _ _ Hp).
Qed.

(* ------------------------------------------------------------------ *)
(** ** The rendered order *)

(** The position of an id in the rendered order. *)
Fixpoint rank_of (ids : list ChunkId) (c : ChunkId) : option Z :=
  match ids with
  | [] => None
  | d :: ids => if bool_decide (d = c) then Some 0 else Z.succ <$> rank_of ids c
  end.

Lemma rank_of_elem ids c : is_Some (rank_of ids c) ↔ c ∈ ids.
Proof.
  induction ids as [|d ids IH]; cbn [rank_of]; [rewrite elem_of_nil; by split; [intros []|]|].
  rewrite elem_of_cons, <- IH. case_bool_decide; [naive_solver|].
  rewrite fmap_is_Some. naive_solver.
Qed.

Lemma rank_of_None ids c : rank_of ids c = None ↔ c ∉ ids.
Proof. by rewrite <- rank_of_elem, eq_None_not_Some. Qed.

Lemma rank_of_nonneg ids c r : rank_of ids c = Some r → 0 ≤ r.
Proof.
  revert r. induction ids as [|d ids IH]; cbn [rank_of]; intros r; [done|].
  case_bool_decide; [by intros [= <-]|]. intros (r' & E & ->)%fmap_Some. specialize (IH r' E). lia.
Qed.

Lemma rank_of_lt ids c r : rank_of ids c = Some r → r < zlen ids.
Proof.
  unfold zlen. revert r. induction ids as [|d ids IH]; cbn [rank_of length]; intros r; [done|].
  case_bool_decide; [intros [= <-]; lia|]. intros (r' & E & ->)%fmap_Some. specialize (IH r' E). lia.
Qed.

Lemma rank_of_inj ids c d r : rank_of ids c = Some r → rank_of ids d = Some r → c = d.
Proof.
  revert r. induction ids as [|e ids IH]; cbn [rank_of]; intros r; [done|].
  do 2 case_bool_decide; subst; [done|..].
  - intros [= <-] (r' & E & ?)%fmap_Some. apply rank_of_nonneg in E. lia.
  - intros (r' & E & ->)%fmap_Some [= ?]. apply rank_of_nonneg in E. lia.
  - intros (r1 & E1 & ->)%fmap_Some (r2 & E2 & ?)%fmap_Some. apply (IH r1); [done|].
    by replace r1 with r2 by lia.
Qed.

(** The projection an order of ids puts on a candidate. *)
Definition project (ids : list ChunkId) (i : RetrievalEpisodeItem) : RetrievalEpisodeItem :=
  set_served (rank_of ids (ri_chunk_id i)) (bool_decide (ri_chunk_id i ∈ ids)) i.

Lemma serve_item_found c r items :
  c ∈ map ri_chunk_id items → NoDup (map ri_chunk_id items) →
  serve_item c r items =
    Some (map (λ i, if bool_decide (ri_chunk_id i = c) then set_served (Some r) true i else i) items).
Proof.
  induction items as [|i items IH]; cbn [map serve_item]; [by intros ?%elem_of_nil|].
  intros [->|Hin]%elem_of_cons [Hni Hnd]%NoDup_cons.
  - rewrite !(bool_decide_true _ eq_refl). do 2 f_equal. rewrite <- (map_id items) at 1.
    apply map_ext_in. intros j Hj. apply list_elem_of_In in Hj.
    rewrite bool_decide_false; [done|]. intros E. apply Hni. rewrite <- E. apply list_elem_of_fmap. by exists j.
  - rewrite bool_decide_false; [|intros <-; done]. by rewrite IH.
Qed.

Lemma map_served_chunks (p : RetrievalEpisodeItem → bool) (r : option Z) (b : bool) items :
  map ri_chunk_id (map (λ i, if p i then set_served r b i else i) items) = map ri_chunk_id items.
Proof. rewrite map_map. apply map_ext. intros i. by destruct (p i). Qed.

Lemma serve_items_found ids : ∀ k items,
  NoDup ids → (∀ c, c ∈ ids → c ∈ map ri_chunk_id items) → NoDup (map ri_chunk_id items) →
  serve_items k ids items =
    Some (map (λ i, match rank_of ids (ri_chunk_id i) with
                    | Some r => set_served (Some (k + r)) true i
                    | None => i end) items).
Proof.
  induction ids as [|c ids IH]; intros k items Hids Hin Hnd; cbn [serve_items rank_of].
  - by rewrite map_id.
  - apply NoDup_cons in Hids as [Hc Hids]. rewrite serve_item_found by (done || (apply Hin; left)).
    cbn [mbind option_bind]. rewrite IH; [|done| |].
    + f_equal. rewrite map_map. apply map_ext. intros i. cbn.
      case_bool_decide as E1; cbn [ri_chunk_id set_served].
      * subst c. rewrite (proj2 (rank_of_None _ _) Hc), (bool_decide_true _ eq_refl). by rewrite Z.add_0_r.
      * rewrite (bool_decide_false (c = _)) by congruence.
        destruct (rank_of ids (ri_chunk_id i)); cbn; [|done]. do 2 f_equal. lia.
    + intros d Hd. rewrite map_served_chunks. apply Hin. by right.
    + by rewrite map_served_chunks.
Qed.

Lemma serve_items_project ids items :
  NoDup ids → (∀ c, c ∈ ids → c ∈ map ri_chunk_id items) → NoDup (map ri_chunk_id items) →
  serve_items 0 ids (map (set_served None false) items) = Some (map (project ids) items).
Proof.
  intros Hids Hin Hnd.
  assert (map ri_chunk_id (map (set_served None false) items) = map ri_chunk_id items) as Ec
    by (rewrite map_map; by apply map_ext).
  rewrite serve_items_found; [|done|by rewrite Ec|by rewrite Ec].
  f_equal. rewrite map_map. apply map_ext. intros i. unfold project. cbn.
  destruct (rank_of ids (ri_chunk_id i)) as [r|] eqn:E.
  - rewrite bool_decide_true; [done|]. apply rank_of_elem. eauto.
  - rewrite bool_decide_false; [done|]. by apply rank_of_None.
Qed.

(** The orders that may be written over an episode. *)
Definition renderable (e : RetrievalEpisode) (items : list RetrievalEpisodeItem) (ids : list ChunkId) : Prop :=
  zlen ids ≤ re_requested_k e ∧ NoDup ids ∧ (∀ c, c ∈ ids → c ∈ map ri_chunk_id items).

Lemma check_requested_ok items ids : ∀ s,
  is_ok (try_fold (check_requested items) ids s) = true ↔
  fresh_keys ids s ∧ (∀ c, c ∈ ids → c ∈ map ri_chunk_id items).
Proof.
  induction ids as [|c ids IH]; intros s; cbn [try_fold].
  - split; [|done]. intros _. unfold fresh_keys. split; [split; [constructor|]|]; by intros ? ?%elem_of_nil.
  - rewrite fresh_keys_cons. unfold check_requested at 2.
    assert (existsb (λ i, bool_decide (ri_chunk_id i = c)) items = true ↔ c ∈ map ri_chunk_id items) as He.
    { rewrite existsb_exists, list_elem_of_fmap. setoid_rewrite list_elem_of_In.
      split; [intros (i & ? & Hi%bool_decide_eq_true)|intros (i & -> & ?)]; exists i; [done|].
      by rewrite bool_decide_true. }
    destruct (decide (c ∈ s)) as [E|E];
      [rewrite bool_decide_true by done; by split; [|intros [[]]]|rewrite bool_decide_false by done].
    destruct (existsb _ items); cbn [negb mbind result_bind].
    + rewrite IH. pose proof (proj1 He eq_refl) as Hc. split.
      * intros [? Hin]. split; [done|]. intros d [->|?]%elem_of_cons; eauto.
      * intros [[_ ?] Hin]. split; [done|]. intros d Hd. apply Hin. by right.
    + split; [done|]. intros [_ H]. destruct He as [_ He]. discriminate He. apply H. left.
Qed.

Lemma project_episode_id ids i : ri_episode_id (project ids i) = ri_episode_id i.
Proof. done. Qed.

Lemma project_chunks ids items : map ri_chunk_id (map (project ids) items) = map ri_chunk_id items.
Proof. rewrite map_map. by apply map_ext. Qed.

(** The rendered candidates are those of the order. *)
Lemma project_rendered ids items :
  map ri_chunk_id (List.filter ri_rendered (map (project ids) items)) =
  List.filter (λ c, bool_decide (c ∈ ids)) (map ri_chunk_id items).
Proof.
  induction items as [|i items IH]; cbn [map List.filter]; [done|].
  change (ri_rendered (project ids i)) with (bool_decide (ri_chunk_id i ∈ ids)).
  destruct (bool_decide _); cbn [map]; by rewrite IH.
Qed.

Lemma filter_bool_elem {A} (p : A → bool) (l : list A) x : x ∈ List.filter p l ↔ x ∈ l ∧ p x = true.
Proof. by rewrite !list_elem_of_In, filter_In. Qed.

Lemma rendered_perm ids items :
  NoDup ids → (∀ c, c ∈ ids → c ∈ map ri_chunk_id items) → NoDup (map ri_chunk_id items) →
  List.filter (λ c, bool_decide (c ∈ ids)) (map ri_chunk_id items) ≡ₚ ids.
Proof.
  intros Hids Hin Hnd. apply NoDup_Permutation; [by apply NoDup_ListNoDup, List.NoDup_filter, NoDup_ListNoDup|done|].
  intros c. rewrite filter_bool_elem, bool_decide_eq_true. naive_solver.
Qed.

Lemma project_served_nodup ids items :
  NoDup (map ri_chunk_id items) → NoDup (omap ri_served_rank (map (project ids) items)).
Proof.
  induction items as [|i items IH]; cbn [map omap list_omap]; [constructor|].
  intros [Hni Hnd]%NoDup_cons. specialize (IH Hnd).
  change (ri_served_rank (project ids i)) with (rank_of ids (ri_chunk_id i)).
  destruct (rank_of ids (ri_chunk_id i)) as [r|] eqn:E; [|done]. apply NoDup_cons. split; [|done].
  intros (j' & Hj & Er)%list_elem_of_omap. apply list_elem_of_fmap in Hj as (j & -> & Hj).
  apply Hni. apply list_elem_of_fmap. exists j. split; [|done]. by eapply rank_of_inj.
Qed.

(** Writing an order keeps the episode valid. *)
Lemma valid_project e items ids :
  valid_episode e items → renderable e items ids →
  valid_episode (set_rendered_k (zlen ids) e) (map (project ids) items).
Proof.
  intros [He Hf Hr Hi H1 H2 H3 H4] (Hk & Hids & Hin).
  split; cbn [re_episode_id re_fetched_k re_rendered_k set_rendered_k].
  - unfold episode_ok in *. cbn. naive_solver lia.
  - by rewrite Hf; unfold zlen; rewrite length_map.
  - unfold rendered_count, zlen.
    rewrite <- (length_map ri_chunk_id), project_rendered. by rewrite rendered_perm.
  - apply Forall_map. eapply Forall_impl; [exact Hi|]. intros i (? & ? & ? & ? & ? & _).
    split_and!; [done..|]. cbn. intros Hx%bool_decide_eq_true. by apply rank_of_elem.
  - by rewrite project_chunks.
  - rewrite map_map. exact H2.
  - by apply project_served_nodup.
  - replace (omap ri_shadow_rank (map (project ids) items)) with (omap ri_shadow_rank items); [done|].
    clear. induction items as [|i items IH]; cbn [map omap list_omap]; [done|]. rewrite IH. done.
Qed.

(** On a valid episode the call never panics: it writes a renderable order,
    and refuses any other one without a change. *)
Lemma apply_rendered_exact e items ids :
  valid_episode e items →
  (renderable e items ids ∧
   apply_rendered_order e items ids = Some (Ok (), set_rendered_k (zlen ids) e, map (project ids) items)) ∨
  (¬ renderable e items ids ∧ ∃ err, apply_rendered_order e items ids = Some (Err err, e, items)).
Proof.
  intros Hv. unfold apply_rendered_order.
  destruct (Z.ltb_spec (re_requested_k e) (zlen ids)) as [Hk|Hk].
  { right. split; [unfold renderable; lia|eauto]. }
  pose proof (check_requested_ok items ids ∅) as Hc. rewrite fresh_keys_empty in Hc.
  destruct (try_fold _ _ _) as [s|err].
  - left. destruct (proj1 Hc eq_refl) as [Hids Hin]. split; [done|].
    rewrite serve_items_project; [|done..|apply Hv]. cbn [mbind option_bind].
    rewrite (proj2 (validate_episode_ok _ _)); [done|]. by apply valid_project.
  - right. split; [|eauto]. intros (_ & Hids & Hin). by discriminate (proj2 Hc (conj Hids Hin)).
Qed.

Lemma project_perm ids items items' :
  items ≡ₚ items' → map (project ids) items ≡ₚ map (project ids) items'.
Proof. by intros ->. Qed.

(** A later order replaces an earlier one. *)
Lemma project_project ids ids' i : project ids' (project ids i) = project ids' i.
Proof. done. Qed.

(* ------------------------------------------------------------------ *)
(** ** Valid outcomes *)

Definition rendered_ids (items : list RetrievalEpisodeItem) : list ChunkId :=
  map ri_chunk_id (List.filter ri_rendered items).

Record valid_outcome (t : TenantId) (e : RetrievalEpisode) (items : list RetrievalEpisodeItem)
    (ev : OutcomeEvent) : Prop := {
  vo_tenant : re_tenant_id e = t;
  vo_episode : oe_episode_id ev = re_episode_id e;
  vo_window : re_created_at_ms e ≤ oe_timestamp_ms ev ≤ re_expires_at_ms e;
  vo_evidence : requires_evidence (oe_verifier ev) = true →
    ∃ r, oe_evidence_reference ev = Some r ∧ str_trim r ≠ ""%string;
  vo_bounded : ∀ r, oe_evidence_reference ev = Some r → zstrlen r ≤ 2048;
  vo_used : NoDup (oe_used_chunk_ids ev);
  vo_harmful : NoDup (oe_harmful_chunk_ids ev);
  vo_disjoint : ∀ c, c ∈ oe_used_chunk_ids ev → c ∈ oe_harmful_chunk_ids ev → False;
  vo_rendered : ∀ c, c ∈ oe_used_chunk_ids ev ++ oe_harmful_chunk_ids ev → c ∈ rendered_ids items;
  vo_eligible : oe_ranking_eligible ev =
    expected_ranking_eligibility (oe_outcome ev) (oe_verifier ev)
      (negb (is_empty (oe_used_chunk_ids ev))) (negb (is_empty (oe_harmful_chunk_ids ev)))
      (oe_evidence_reference ev);
}.

Lemma size_list_to_set_nodup (l : list ChunkId) :
  (Z.of_nat (size (list_to_set l : gset ChunkId)) =? zlen l) = true ↔ NoDup l.
Proof.
  rewrite Z.eqb_eq. unfold zlen. split; intros H.
  - induction l as [|x l IH]; [constructor|]. cbn [list_to_set] in H.
    assert (Hle : (size (list_to_set l : gset ChunkId) ≤ length l)%nat).
    { clear. induction l as [|y l IH]; cbn [list_to_set length]; [by rewrite size_empty|].
      pose proof (size_union_alt ({[y]} : gset ChunkId) (list_to_set l)) as E.
      assert (size ((list_to_set l : gset ChunkId) ∖ {[y]}) ≤ size (list_to_set l : gset ChunkId))%nat
        by (apply subseteq_size; set_solver).
      rewrite E, size_singleton. lia. }
    destruct (decide (x ∈ (list_to_set l : gset ChunkId))) as [Hx|Hx].
    + rewrite subseteq_union_1_L in H by set_solver. cbn [length] in H. lia.
    + rewrite size_union, size_singleton in H by set_solver. cbn [length] in H.
      apply NoDup_cons. split; [set_solver|]. apply IH. lia.
  - by rewrite size_list_to_set.
Qed.

Lemma list_to_set_empty_iff (l : list ChunkId) :
  bool_decide ((list_to_set l : gset ChunkId) = ∅) = is_empty l.
Proof.
  destruct l as [|x l]; [by apply bool_decide_true|]. apply bool_decide_false. set_solver.
Qed.

(** [validate_outcome_event] decides [valid_outcome]. *)
Lemma validate_outcome_ok t e items ev :
  validate_outcome_event t e items ev = Ok () ↔ valid_outcome t e items ev.
Proof.
  unfold validate_outcome_event. rewrite !list_to_set_empty_iff. split.
  - repeat match goal with |- (if ?b then _ else _) = _ → _ => destruct b eqn:?; [done|] end.
    intros _. rewrite ?orb_false_iff, ?negb_false_iff, ?andb_false_iff, ?bool_decide_eq_false,
      ?bool_decide_eq_true, ?Z.ltb_ge, ?size_list_to_set_nodup in *. split.
    + by destruct Heqb as [?%dec_stable _].
    + by destruct Heqb as [_ ?%dec_stable].
    + done.
    + intros Hr. destruct Heqb1 as [?|H]; [congruence|].
      destruct (oe_evidence_reference ev) as [r|]; [|done]. apply bool_decide_eq_false in H. eauto.
    + intros r Er. rewrite Er in Heqb2. by apply Z.ltb_ge.
    + by destruct Heqb3.
    + by destruct Heqb3.
    + intros c H1 H2. set_solver.
    + intros c Hc. unfold rendered_ids. set_solver.
    + by apply eqb_prop.
  - intros [-> -> Hw He Hb Hu Hh Hd Hr ->].
    rewrite !bool_decide_false by (intros H; by apply H). cbn [orb].
    rewrite !(proj2 (Z.ltb_ge _ _)) by lia. cbn [orb].
    assert ((requires_evidence (oe_verifier ev) &&
             match oe_evidence_reference ev with
             | None => true | Some r => bool_decide (str_trim r = ""%string) end) = false) as ->.
    { destruct (requires_evidence _); [|done]. destruct (He eq_refl) as (r & -> & ?).
      by apply bool_decide_false. }
    assert (match oe_evidence_reference ev with Some r => 2048 <? zstrlen r | None => false end = false) as ->.
    { destruct (oe_evidence_reference ev) as [r|]; [|done]. by apply Z.ltb_ge, Hb. }
    rewrite !(proj2 (size_list_to_set_nodup _)) by done. cbn [negb orb].
    rewrite bool_decide_true by set_solver. cbn [negb].
    rewrite bool_decide_true by (unfold rendered_ids in Hr; set_solver). cbn [negb].
    by rewrite eqb_reflx.
Qed.

Lemma valid_outcome_perm t e items items' ev :
  items ≡ₚ items' → valid_outcome t e items ev → valid_outcome t e items' ev.
Proof.
  intros Hp [? ? ? ? ? ? ? ? Hr ?]. split; [done..| |done].
  intros c Hc. unfold rendered_ids. rewrite <- (filter_bool_perm _ _ _ Hp). by apply Hr.
Qed.
End facts.

(* ------------------------------------------------------------------ *)
(** ** Relevance feedback (src/crates/memd/src/store/feedback.rs)

    Labels a user gave to retrieved chunks, decayed by age, adjust the scores
    of later retrievals of the same query by at most [max_adjustment]. *)

Inductive RelevanceLabel : Type := Relevant | Irrelevant.

(** [RelevanceLabel::polarity], as the [f64] it is cast to. *)
Definition polarity (l : RelevanceLabel) : f64 :=
  match l with Relevant => f64_one | Irrelevant => SFopp f64_one end.

Record FeedbackEntry : Type := mkFeedback {
  fe_tenant_id : TenantId;
  fe_project_id : option string;
  fe_query_hash : string;
  fe_chunk_id : ChunkId;
  fe_relevance : RelevanceLabel;
  fe_timestamp_ms : Z;
}.

Record FeedbackConfig : Type := mkFeedbackConfig {
  fc_decay_half_life_hours : Z;
  fc_min_samples : Z;
  fc_max_adjustment : f32;
}.
Definition FeedbackConfig_default : FeedbackConfig := mkFeedbackConfig 72 2 (f32_lit 25 100).

Section feedback.
Context `{SHA : Sha256} `{UC : Unicode} `{EX : Exp} `{U : Uuid ChunkId}.

Definition normalize_query (query : string) : string :=
  str_to_lowercase (str_join " " (str_split_whitespace query)).

(** [FeedbackEntry::new_scoped] *)
Definition feedback_new_scoped (t : TenantId) (project_id : option string) (query : string) (c : ChunkId)
    (relevance : RelevanceLabel) (timestamp_ms : Z) : FeedbackEntry :=
  mkFeedback t project_id (stable_query_hash (normalize_query query)) c relevance timestamp_ms.

Record Aggregate : Type := mkAggregate {
  ag_weighted_sum : f64;
  ag_total_weight : f64;
  ag_samples : Z;
}.
Definition aggregate_default : Aggregate := mkAggregate (S754_zero false) (S754_zero false) 0.

(** [saturating_mul] on [i64], for factors that are not negative. *)
Definition sat_mul_i64 (a b : Z) : Z := Z.min (2 ^ 63 - 1) (a * b).

Definition half_life_ms (config : FeedbackConfig) : f64 :=
  f64_of_Z (Z.max 1 (sat_mul_i64 (sat_mul_i64 (sat_mul_i64 (fc_decay_half_life_hours config) 60) 60) 1000)).

(** The weight of one entry. *)
Definition feedback_decay (config : FeedbackConfig) (now_ms : Z) (entry : FeedbackEntry) : f64 :=
  let age_ms := f64_of_Z (Z.max 0 (now_ms - fe_timestamp_ms entry)) in
  f64_exp (f64_div (f64_mul (SFopp age_ms) LN_2) (half_life_ms config)).

(** The body of the loop over the entries. *)
Definition aggregate_step (config : FeedbackConfig) (query_hash : string) (now_ms : Z)
    (by_chunk : gmap string Aggregate) (entry : FeedbackEntry) : gmap string Aggregate :=
  if bool_decide (fe_query_hash entry ≠ query_hash) || (now_ms <? fe_timestamp_ms entry) then by_chunk
  else
    let decay := feedback_decay config now_ms entry in
    let key := uuid_to_string (fe_chunk_id entry) in
    let a := default aggregate_default (by_chunk !! key) in
    <[key := mkAggregate (f64_add (ag_weighted_sum a) (f64_mul (polarity (fe_relevance entry)) decay))
               (f64_add (ag_total_weight a) decay) (ag_samples a + 1)]> by_chunk.

(** [f64::clamp] *)
Definition f64_clamp (lo hi x : f64) : f64 :=
  let x := if SFltb x lo then lo else x in if SFltb hi x then hi else x.

(** What the loop over the scored chunks adds to a score. *)
Definition adjust_score (config : FeedbackConfig) (by_chunk : gmap string Aggregate)
    (scored : MemoryChunk * f32) : MemoryChunk * f32 :=
  let '(chunk, score) := scored in
  match by_chunk !! uuid_to_string (mc_chunk_id chunk) with
  | None => (chunk, score)
  | Some a =>
      if (ag_samples a <? fc_min_samples config) || SFleb (ag_total_weight a) (S754_zero false)
      then (chunk, score)
      else
        let signal := f64_as_f32 (f64_clamp (SFopp f64_one) f64_one
                                    (f64_div (ag_weighted_sum a) (ag_total_weight a))) in
        (chunk, f32_add score (f32_mul (fc_max_adjustment config) signal))
  end.

(** [sort_by] score, then creation time, both descending. *)
Definition newer_chunk (a b : MemoryChunk * f32) : comparison :=
  Z.compare (mc_timestamp_created b.1) (mc_timestamp_created a.1).

Definition apply_feedback_scores (scored : list (MemoryChunk * f32)) (query : string)
    (feedback_entries : list FeedbackEntry) (now_ms : Z) (config : FeedbackConfig)
    : list (MemoryChunk * f32) :=
  if is_empty scored then scored
  else
    let normalized_query := normalize_query query in
    if bool_decide (normalized_query = ""%string) then scored
    else
      let by_chunk := foldl (aggregate_step config (stable_query_hash normalized_query) now_ms) ∅ feedback_entries in
      sort_by (score_desc snd newer_chunk) (map (adjust_score config by_chunk) scored).

(* ------------------------------------------------------------------ *)
(** ** What feedback may change *)

(** The entries that count for a chunk. *)
Definition counted (query : string) (now_ms : Z) (c : string) (entry : FeedbackEntry) : bool :=
  bool_decide (fe_query_hash entry = stable_query_hash (normalize_query query)) &&
  (fe_timestamp_ms entry <=? now_ms) && bool_decide (uuid_to_string (fe_chunk_id entry) = c).

Lemma aggregate_samples config query now_ms entries c :
  ag_samples (default aggregate_default
    (foldl (aggregate_step config (stable_query_hash (normalize_query query)) now_ms) ∅ entries !! c)) =
  zlen (List.filter (counted query now_ms c) entries).
Proof.
  induction entries as [|e entries IH] using rev_ind; [cbn [foldl]; by rewrite lookup_empty|].
  rewrite foldl_app, List.filter_app. unfold zlen in *. rewrite length_app. cbn [foldl List.filter].
  unfold aggregate_step at 1, counted at 2.
  destruct (decide (fe_query_hash e = stable_query_hash (normalize_query query))) as [Eq|Eq].
  2:{ rewrite bool_decide_true, bool_decide_false by done. cbn [orb andb length]. rewrite IH. lia. }
  rewrite bool_decide_false, (bool_decide_true (_ = _)) by auto. cbn [orb andb].
  destruct (Z.ltb_spec now_ms (fe_timestamp_ms e)), (Z.leb_spec (fe_timestamp_ms e) now_ms); try lia; cbn [andb length].
  { rewrite IH. lia. }
  destruct (decide (uuid_to_string (fe_chunk_id e) = c)) as [<-|Hne].
  - rewrite lookup_insert_eq, bool_decide_true by done. cbn [default ag_samples length]. rewrite IH. unfold id. cbn [ag_samples]. lia.
  - rewrite lookup_insert_ne, bool_decide_false by done. cbn [length]. rewrite IH. lia.
Qed.

(** Scores change only where enough labels speak about a chunk. *)
Lemma adjust_score_samples config query now_ms entries chunk score :
  zlen (List.filter (counted query now_ms (uuid_to_string (mc_chunk_id chunk))) entries) < fc_min_samples config →
  adjust_score config
    (foldl (aggregate_step config (stable_query_hash (normalize_query query)) now_ms) ∅ entries) (chunk, score)
  = (chunk, score).
Proof.
  intros Hlt. rewrite <- (aggregate_samples config) in Hlt. unfold adjust_score.
  destruct (_ !! uuid_to_string (mc_chunk_id chunk)) as [a|]; [|done]. cbn [default] in Hlt.
  unfold id in Hlt. by rewrite (proj2 (Z.ltb_lt _ _) Hlt).
Qed.

Lemma adjust_score_chunk config by_chunk x : (adjust_score config by_chunk x).1 = x.1.
Proof.
  destruct x as [chunk score]. unfold adjust_score. destruct (by_chunk !! _); [|done]. by destruct (_ || _).
Qed.

(** Feedback reorders the chunks and drops none. *)
Lemma apply_feedback_perm scored query entries now_ms config :
  map fst (apply_feedback_scores scored query entries now_ms config) ≡ₚ map fst scored.
Proof.
  unfold apply_feedback_scores. destruct (is_empty scored); [done|]. case_bool_decide; [done|].
  rewrite sort_by_Permutation, map_map.
  rewrite (map_ext _ fst); [done|]. intros x. apply adjust_score_chunk.
Qed.
End feedback.
