(* ===== verification/Episodes.v ===== *)
(** * The tables of retrieval episodes
    (src/crates/memd/src/store/metadata/sqlite/episodes.rs, schema.rs,
     the methods of src/crates/memd/src/store/persistent.rs that call it)

    Three tables beside [chunks], as rows of columns: text, integers, reals
    (an [f32] is exact as a REAL).  A statement is a function on the tables; a
    transaction returns a [memd_result] whose errors leave the tables as they
    were, because the transaction is dropped.  A panic is [None]. *)

From S2P Require Import Prelude Crates Types Str Metadata Ranking Fusion Outcome.
From stdpp Require Import sorting.

Open Scope Z_scope.

(* ------------------------------------------------------------------ *)
(** ** Rows *)

Record EpisodeRow : Type := mkEpisodeRow {
  er_episode_id : string;
  er_tenant_id : string;
  er_project_id : option string;
  er_query_hash : string;
  er_query_mode : string;
  er_requested_k : Z;
  er_fetched_k : Z;
  er_rendered_k : Z;
  er_policy_version : string;
  er_policy_mode : string;
  er_task_id : option string;
  er_thread_id : option string;
  er_created_at_ms : Z;
  er_expires_at_ms : Z;
}.

Record ItemRow : Type := mkItemRow {
  ir_episode_id : string;
  ir_chunk_id : string;
  ir_origin_tenant_id : string;
  ir_origin_project_id : option string;
  ir_original_rank : Z;
  ir_original_score : f32;
  ir_lane_scores_json : string;
  ir_outcome_adjustment : f32;
  ir_served_rank : option Z;
  ir_shadow_rank : option Z;
  ir_rendered : Z;
  ir_source_dedup_group : option string;
}.

Record EventRow : Type := mkEventRow {
  ev_event_id : string;
  ev_episode_id : string;
  ev_outcome : string;
  ev_verifier_type : string;
  ev_used_chunk_ids_json : string;
  ev_harmful_chunk_ids_json : string;
  ev_evidence_reference : option string;
  ev_ranking_eligible : Z;
  ev_timestamp_ms : Z;
}.

(** The tables by their primary keys, beside [chunks]. *)
Record EpisodeDb : Type := mkEpisodeDb {
  ed_chunks : ChunkTable;
  ed_episodes : gmap string EpisodeRow;
  ed_items : gmap (string * string) ItemRow;
  ed_events : gmap string EventRow;
}.

Definition with_episodes (m : gmap string EpisodeRow) (db : EpisodeDb) : EpisodeDb :=
  mkEpisodeDb (ed_chunks db) m (ed_items db) (ed_events db).
Definition with_items (m : gmap (string * string) ItemRow) (db : EpisodeDb) : EpisodeDb :=
  mkEpisodeDb (ed_chunks db) (ed_episodes db) m (ed_events db).
Definition with_events (m : gmap string EventRow) (db : EpisodeDb) : EpisodeDb :=
  mkEpisodeDb (ed_chunks db) (ed_episodes db) (ed_items db) m.

Definition row_set_rendered_k (k : Z) (r : EpisodeRow) : EpisodeRow :=
  mkEpisodeRow (er_episode_id r) (er_tenant_id r) (er_project_id r) (er_query_hash r)
    (er_query_mode r) (er_requested_k r) (er_fetched_k r) k (er_policy_version r)
    (er_policy_mode r) (er_task_id r) (er_thread_id r) (er_created_at_ms r) (er_expires_at_ms r).
Definition row_set_served (rank : option Z) (rendered : Z) (r : ItemRow) : ItemRow :=
  mkItemRow (ir_episode_id r) (ir_chunk_id r) (ir_origin_tenant_id r) (ir_origin_project_id r)
    (ir_original_rank r) (ir_original_score r) (ir_lane_scores_json r) (ir_outcome_adjustment r)
    rank (ir_shadow_rank r) rendered (ir_source_dedup_group r).

(** [ORDER BY original_rank ASC]; rows that agree on the rank stay as found. *)
Definition by_original_rank (a b : ItemRow) : Prop := ir_original_rank a ≤ ir_original_rank b.
#[export] Instance by_original_rank_dec : RelDecision by_original_rank.
Proof. intros a b. unfold by_original_rank. apply _. Defined.

(** [ORDER BY timestamp_ms ASC, event_id ASC] *)
Definition by_event_time (a b : EventRow) : Prop :=
  ev_timestamp_ms a < ev_timestamp_ms b ∨
  (ev_timestamp_ms a = ev_timestamp_ms b ∧ String.le (ev_event_id a) (ev_event_id b)).
#[export] Instance by_event_time_dec : RelDecision by_event_time.
Proof. intros a b. unfold by_event_time. apply _. Defined.

(** Rows in the order SQLite finds them, which it leaves open. *)
Class TableScan : Type := {
  scan : ∀ {A : Type}, list A → list A;
  scan_perm : ∀ {A} (l : list A), scan l ≡ₚ l;
}.

(** [i64::from(flag)] *)
Definition i64_of_flag (b : bool) : Z := if b then 1 else 0.
(** [usize as i64] and [sql_usize] *)
Definition sql_usize (column : Z) : memd_result Z :=
  if column <? 0 then conversion_failure (DatabaseError "out of range") else Ok column.
Definition sql_usize_opt (column : option Z) : memd_result (option Z) :=
  match column with
  | None => Ok None
  | Some z => z ← sql_usize z; Ok (Some z)
  end.

(* ------------------------------------------------------------------ *)
(** ** The row codec *)

Section episodes.
Context `{U : Uuid ChunkId} `{UE : Uuid RetrievalEpisodeId} `{UO : Uuid OutcomeEventId}.
Context `{JT : JsonText}.

Definition episode_params (e : RetrievalEpisode) : EpisodeRow :=
  mkEpisodeRow (uuid_to_string (re_episode_id e)) (TenantId.as_str (re_tenant_id e))
    (re_project_id e) (re_query_hash e) (re_query_mode e) (as_i64 (re_requested_k e))
    (as_i64 (re_fetched_k e)) (as_i64 (re_rendered_k e)) (re_policy_version e)
    (RankingPolicyMode_as_str (re_policy_mode e)) (re_task_id e) (re_thread_id e)
    (re_created_at_ms e) (re_expires_at_ms e).

Definition item_params (i : RetrievalEpisodeItem) : ItemRow :=
  mkItemRow (uuid_to_string (ri_episode_id i)) (uuid_to_string (ri_chunk_id i))
    (TenantId.as_str (ri_origin_tenant_id i)) (ri_origin_project_id i)
    (as_i64 (ri_original_rank i)) (ri_original_score i) (ri_lane_scores_json i)
    (ri_outcome_adjustment i) (as_i64 <$> ri_served_rank i) (as_i64 <$> ri_shadow_rank i)
    (i64_of_flag (ri_rendered i)) (ri_source_dedup_group i).

(** The two lists of an event as JSON arrays of strings. *)
Definition chunk_ids_json (l : list ChunkId) : string := json_strings (map uuid_to_string l).

Definition event_params (e : OutcomeEvent) : EventRow :=
  mkEventRow (uuid_to_string (oe_event_id e)) (uuid_to_string (oe_episode_id e))
    (OutcomeKind_as_str (oe_outcome e)) (OutcomeVerifier_as_str (oe_verifier e))
    (chunk_ids_json (oe_used_chunk_ids e)) (chunk_ids_json (oe_harmful_chunk_ids e))
    (oe_evidence_reference e) (i64_of_flag (oe_ranking_eligible e)) (oe_timestamp_ms e).

Definition row_to_retrieval_episode (r : EpisodeRow) : memd_result RetrievalEpisode :=
  episode_id ← convert (RetrievalEpisodeId_parse (er_episode_id r));
  tenant_id ← convert (TenantId.new (er_tenant_id r));
  requested_k ← sql_usize (er_requested_k r);
  fetched_k ← sql_usize (er_fetched_k r);
  rendered_k ← sql_usize (er_rendered_k r);
  policy_mode ← convert (RankingPolicyMode_parse (er_policy_mode r));
  Ok (mkEpisode episode_id tenant_id (er_project_id r) (er_query_hash r) (er_query_mode r)
        requested_k fetched_k rendered_k (er_policy_version r) policy_mode (er_task_id r)
        (er_thread_id r) (er_created_at_ms r) (er_expires_at_ms r)).

Definition row_to_retrieval_episode_item (r : ItemRow) : memd_result RetrievalEpisodeItem :=
  episode_id ← convert (RetrievalEpisodeId_parse (ir_episode_id r));
  chunk_id ← convert (chunk_id_parse (ir_chunk_id r));
  origin_tenant_id ← convert (TenantId.new (ir_origin_tenant_id r));
  original_rank ← sql_usize (ir_original_rank r);
  served_rank ← sql_usize_opt (ir_served_rank r);
  shadow_rank ← sql_usize_opt (ir_shadow_rank r);
  Ok (mkItem episode_id chunk_id origin_tenant_id (ir_origin_project_id r) original_rank
        (ir_original_score r) (ir_lane_scores_json r) (ir_outcome_adjustment r) served_rank
        shadow_rank (negb (ir_rendered r =? 0)) (ir_source_dedup_group r)).

Definition parse_chunk_id_json (text : string) : memd_result (list ChunkId) :=
  values ← ok_or (json_strings_parse text) (DatabaseError "conversion error");
  mapM (λ value, convert (chunk_id_parse value)) values.

Definition row_to_outcome_event (r : EventRow) : memd_result OutcomeEvent :=
  event_id ← convert (OutcomeEventId_parse (ev_event_id r));
  episode_id ← convert (RetrievalEpisodeId_parse (ev_episode_id r));
  outcome ← convert (OutcomeKind_parse (ev_outcome r));
  verifier ← convert (OutcomeVerifier_parse (ev_verifier_type r));
  used ← parse_chunk_id_json (ev_used_chunk_ids_json r);
  harmful ← parse_chunk_id_json (ev_harmful_chunk_ids_json r);
  Ok (mkEvent event_id episode_id outcome verifier used harmful (ev_evidence_reference r)
        (negb (ev_ranking_eligible r =? 0)) (ev_timestamp_ms r)).

(* ------------------------------------------------------------------ *)
(** ** Statements and transactions *)

Context {TS : TableScan}.

(** [SELECT .. FROM retrieval_episode_items WHERE episode_id = ?1 ORDER BY original_rank ASC] *)
Definition select_items (episode_id : string) (db : EpisodeDb) : list ItemRow :=
  merge_sort by_original_rank
    (scan (List.filter (λ r, bool_decide (ir_episode_id r = episode_id))
             (map snd (map_to_list (ed_items db))))).
Definition query_retrieval_episode_items (id : RetrievalEpisodeId) (db : EpisodeDb)
    : memd_result (list RetrievalEpisodeItem) :=
  mapM row_to_retrieval_episode_item (select_items (uuid_to_string id) db).

(** [SELECT .. FROM retrieval_episodes WHERE tenant_id = ?1 AND episode_id = ?2] *)
Definition select_episode (t : TenantId) (id : RetrievalEpisodeId) (db : EpisodeDb) : option EpisodeRow :=
  row ← ed_episodes db !! uuid_to_string id;
  if bool_decide (er_tenant_id row = TenantId.as_str t) then Some row else None.
Definition query_episode (t : TenantId) (id : RetrievalEpisodeId) (db : EpisodeDb)
    : memd_result (option RetrievalEpisode) :=
  match select_episode t id db with
  | None => Ok None
  | Some row => e ← row_to_retrieval_episode row; Ok (Some e)
  end.
Definition require_episode (t : TenantId) (id : RetrievalEpisodeId) (db : EpisodeDb)
    : memd_result RetrievalEpisode :=
  e ← query_episode t id db;
  ok_or e (ValidationError "unknown retrieval episode for tenant").

(** [SELECT project_id FROM chunks WHERE tenant_id = ?1 AND chunk_id = ?2] *)
Definition chunk_project (db : ChunkTable) (t : TenantId) (c : ChunkId) : option (option string) :=
  r ← db !! c; if bool_decide (r_tenant r = t) then Some (cm_project_id (r_meta r)) else None.

(** The check of one item's origin. *)
Definition check_origin (db : ChunkTable) (item : RetrievalEpisodeItem) : memd_result () :=
  match chunk_project db (ri_origin_tenant_id item) (ri_chunk_id item) with
  | None => Err (ValidationError "retrieval episode chunk does not belong to its origin tenant")
  | Some stored_project =>
      if bool_decide (stored_project ≠ ri_origin_project_id item)
      then Err (ValidationError "retrieval episode chunk origin project does not match")
      else Ok ()
  end.

(** [INSERT INTO retrieval_episodes], [INSERT INTO retrieval_episode_items]:
    PRIMARY KEY (episode_id, chunk_id), UNIQUE (episode_id, original_rank). *)
Definition insert_episode_row (row : EpisodeRow) (db : EpisodeDb) : memd_result EpisodeDb :=
  match ed_episodes db !! er_episode_id row with
  | Some _ => Err (DatabaseError "UNIQUE constraint failed")
  | None => Ok (with_episodes (<[er_episode_id row := row]> (ed_episodes db)) db)
  end.
Definition insert_item_row (db : EpisodeDb) (row : ItemRow) : memd_result EpisodeDb :=
  let key := (ir_episode_id row, ir_chunk_id row) in
  if bool_decide (is_Some (ed_items db !! key)) ||
     existsb (λ r, bool_decide (ir_episode_id r = ir_episode_id row) &&
                   (ir_original_rank r =? ir_original_rank row))
       (map snd (map_to_list (ed_items db)))
  then Err (DatabaseError "UNIQUE constraint failed")
  else Ok (with_items (<[key := row]> (ed_items db)) db).

Definition insert_retrieval_episode (episode : RetrievalEpisode) (items : list RetrievalEpisodeItem)
    (db : EpisodeDb) : memd_result EpisodeDb :=
  _ ← validate_retrieval_episode episode items;
  _ ← try_fold (λ _ item, check_origin (ed_chunks db) item) items ();
  db ← insert_episode_row (episode_params episode) db;
  try_fold (λ db item, insert_item_row db (item_params item)) items db.

Definition get_retrieval_episode (t : TenantId) (id : RetrievalEpisodeId) (db : EpisodeDb)
    : memd_result (option (RetrievalEpisode * list RetrievalEpisodeItem)) :=
  episode ← query_episode t id db;
  match episode with
  | None => Ok None
  | Some episode => items ← query_retrieval_episode_items id db; Ok (Some (episode, items))
  end.

(** The three updates of [finalize_retrieval_episode]. *)
Definition update_rendered_k (t : TenantId) (id : RetrievalEpisodeId) (k : Z) (db : EpisodeDb) : EpisodeDb :=
  match select_episode t id db with
  | Some row => with_episodes (<[uuid_to_string id := row_set_rendered_k k row]> (ed_episodes db)) db
  | None => db
  end.
Definition clear_served (episode_id : string) (db : EpisodeDb) : EpisodeDb :=
  with_items ((λ r, if bool_decide (ir_episode_id r = episode_id) then row_set_served None 0 r else r)
                <$> ed_items db) db.
Definition set_served_row (episode_id : string) (db : EpisodeDb) (rank : Z) (chunk_id : string) : EpisodeDb :=
  with_items (alter (row_set_served (Some rank) 1) (episode_id, chunk_id) (ed_items db)) db.
Fixpoint set_served_rows (episode_id : string) (rank : Z) (ids : list ChunkId) (db : EpisodeDb) : EpisodeDb :=
  match ids with
  | [] => db
  | c :: ids =>
      set_served_rows episode_id (rank + 1) ids
        (set_served_row episode_id db (as_i64 rank) (uuid_to_string c))
  end.

Definition finalize_retrieval_episode (t : TenantId) (id : RetrievalEpisodeId)
    (rendered_chunk_ids : list ChunkId) (db : EpisodeDb) : option (memd_result EpisodeDb) :=
  match (episode ← require_episode t id db;
         items ← query_retrieval_episode_items id db; Ok (episode, items)) with
  | Err e => Some (Err e)
  | Ok (episode, items) =>
      '(applied, episode, _) ← apply_rendered_order episode items rendered_chunk_ids;
      Some (_ ← applied;
            let db := update_rendered_k t id (as_i64 (re_rendered_k episode)) db in
            let db := clear_served (uuid_to_string id) db in
            Ok (set_served_rows (uuid_to_string id) 0 rendered_chunk_ids db))
  end.

(** [INSERT INTO outcome_events]: PRIMARY KEY event_id. *)
Definition insert_event_row (row : EventRow) (db : EpisodeDb) : memd_result EpisodeDb :=
  match ed_events db !! ev_event_id row with
  | Some _ => Err (DatabaseError "UNIQUE constraint failed")
  | None => Ok (with_events (<[ev_event_id row := row]> (ed_events db)) db)
  end.

Definition insert_outcome_event (t : TenantId) (event : OutcomeEvent) (db : EpisodeDb)
    : memd_result EpisodeDb :=
  episode ← require_episode t (oe_episode_id event) db;
  items ← query_retrieval_episode_items (oe_episode_id event) db;
  _ ← validate_outcome_event t episode items event;
  insert_event_row (event_params event) db.

(** [SELECT .. FROM outcome_events o JOIN retrieval_episodes e ..
    ORDER BY o.timestamp_ms ASC, o.event_id ASC] *)
Definition list_outcome_events_for_episode (t : TenantId) (id : RetrievalEpisodeId) (db : EpisodeDb)
    : memd_result (list OutcomeEvent) :=
  match select_episode t id db with
  | None => Ok []
  | Some _ =>
      mapM row_to_outcome_event
        (merge_sort by_event_time
           (scan (List.filter (λ o, bool_decide (ev_episode_id o = uuid_to_string id))
                    (map snd (map_to_list (ed_events db))))))
  end.

(** ** Priors *)

(** The rows of the query of [outcome_priors]: eligible events joined with
    the items of their episode. *)
Definition in_scope (t : TenantId) (project : option string) (now_ms : Z) (db : EpisodeDb) (o : EventRow)
    : bool :=
  (ev_ranking_eligible o =? 1) && (ev_timestamp_ms o <=? now_ms) &&
  match ed_episodes db !! ev_episode_id o with
  | Some e => bool_decide (er_tenant_id e = TenantId.as_str t) && bool_decide (er_project_id e = project)
  | None => false
  end.

Definition prior_rows (t : TenantId) (project : option string) (now_ms : Z) (db : EpisodeDb)
    : list (EventRow * ItemRow) :=
  let events := List.filter (in_scope t project now_ms db) (map snd (map_to_list (ed_events db))) in
  let items := map snd (map_to_list (ed_items db)) in
  flat_map (λ o, map (pair o) (List.filter (λ i, bool_decide (ir_episode_id i = ev_episode_id o)) items))
    events.

(** [ORDER BY o.timestamp_ms DESC, o.event_id DESC] *)
Definition newest_event_first (a b : EventRow * ItemRow) : Prop := by_event_time b.1 a.1.
#[local] Instance newest_event_first_dec : RelDecision newest_event_first.
Proof. intros a b. unfold newest_event_first. apply _. Defined.

Context `{PF : Powf}.

Definition PriorState : Type := gmap ChunkId OutcomePrior * gset (string * ChunkId).

Definition prior_step (requested : gset ChunkId) (now_ms : Z) (s : PriorState) (row : EventRow * ItemRow)
    : memd_result PriorState :=
  let '(o, i) := row in
  match chunk_id_parse (ir_chunk_id i) with
  | Err _ => Ok s
  | Ok c =>
      if negb (bool_decide (c ∈ requested)) then Ok s
      else
        outcome ← OutcomeKind_parse (ev_outcome o);
        verifier ← OutcomeVerifier_parse (ev_verifier_type o);
        if is_legacy_codex_scanner_outcome outcome verifier (ev_evidence_reference o) then Ok s
        else if negb (credits_used outcome) && negb (credits_harmful outcome) then Ok s
        else
          attributed ← parse_chunk_id_json
                         (if credits_used outcome then ev_used_chunk_ids_json o
                          else ev_harmful_chunk_ids_json o);
          if negb (bool_decide (c ∈ attributed)) || bool_decide ((ev_episode_id o, c) ∈ s.2)
          then Ok s
          else
            let prior := default (prior_new c) (s.1 !! c) in
            Ok (<[c := prior_add (credits_used outcome)
                         (decayed_outcome_weight (ev_timestamp_ms o) now_ms) (ev_timestamp_ms o) prior]> s.1,
                {[(ev_episode_id o, c)]} ∪ s.2)
  end.

(** [priors.sort_by_key(|prior| prior.chunk_id.to_string())] *)
Definition by_chunk_text (a b : OutcomePrior) : Prop :=
  String.le (uuid_to_string (op_chunk_id a)) (uuid_to_string (op_chunk_id b)).
#[local] Instance by_chunk_text_dec : RelDecision by_chunk_text.
Proof. intros a b. unfold by_chunk_text. apply _. Defined.

Context {HI : HashIter ChunkId}.

Definition sorted_priors (priors : gmap ChunkId OutcomePrior) : list OutcomePrior :=
  merge_sort by_chunk_text (map snd (hash_iter priors)).

Definition outcome_priors (t : TenantId) (project : option string) (chunk_ids : list ChunkId)
    (now_ms : Z) (db : EpisodeDb) : memd_result (list OutcomePrior) :=
  let requested : gset ChunkId := list_to_set chunk_ids in
  if bool_decide (requested = ∅) then Ok []
  else
    s ← try_fold (prior_step requested now_ms)
          (merge_sort newest_event_first (scan (prior_rows t project now_ms db))) (∅, ∅);
    Ok (sorted_priors s.1).

(** ** Exposure *)

(** The rows of the query: rendered items with the creation time of their
    episode. *)
Definition exposure_rows (since_ms : Z) (t project : option string) (db : EpisodeDb) : list (string * Z) :=
  omap (λ i : ItemRow,
    e ← ed_episodes db !! ir_episode_id i;
    if (ir_rendered i =? 1) && (since_ms <=? er_created_at_ms e) &&
       match t with Some t => bool_decide (er_tenant_id e = t) | None => true end &&
       match project with Some p => bool_decide (er_project_id e = Some p) | None => true end
    then Some (ir_chunk_id i, er_created_at_ms e) else None)
    (map snd (map_to_list (ed_items db))).

(** [COUNT] and [MAX] of the group of a chunk id. *)
Definition group_of (c : string) (rows : list (string * Z)) : list Z :=
  map snd (List.filter (λ r, bool_decide (r.1 = c)) rows).
Definition exposure_group (rows : list (string * Z)) (c : string) : string * Z * Z :=
  let times := group_of c rows in
  (c, zlen times, foldr Z.max (default 0 (head times)) times).

(** [ORDER BY rendered_count DESC, i.chunk_id ASC] *)
Definition by_exposure (a b : string * Z * Z) : Prop :=
  b.1.2 < a.1.2 ∨ (a.1.2 = b.1.2 ∧ String.le a.1.1 b.1.1).
#[local] Instance by_exposure_dec : RelDecision by_exposure.
Proof. intros a b. unfold by_exposure. apply _. Defined.

Definition retrieval_exposure_stats_since (since_ms : Z) (t project : option string) (db : EpisodeDb)
    : list (string * Z * Z) :=
  let rows := exposure_rows since_ms t project db in
  let groups := map (exposure_group rows) (remove_dups (map fst rows)) in
  map (λ '(c, n, last), (c, Z.max 0 (Z.min u32_max n), last)) (merge_sort by_exposure groups).

(* ------------------------------------------------------------------ *)
(** ** The methods of [PersistentStore] *)

(** [self.config.read_only] beside the tables. *)
Record PersistentEpisodes : Type := mkPersistentEpisodes { pe_read_only : bool; pe_db : EpisodeDb }.

(** [reject_if_read_only] *)
Definition reject_if_read_only (op : string) (s : PersistentEpisodes) : memd_result () :=
  if pe_read_only s then Err (ReadOnlyStore op) else Ok ().

(** A transaction: its tables when it commits, those of before when not. *)
Definition commit (r : memd_result EpisodeDb) (s : PersistentEpisodes) : memd_result () * PersistentEpisodes :=
  match r with
  | Ok db => (Ok (), mkPersistentEpisodes (pe_read_only s) db)
  | Err e => (Err e, s)
  end.

Definition persistent_record_retrieval_episode (e : RetrievalEpisode) (items : list RetrievalEpisodeItem)
    (s : PersistentEpisodes) : memd_result () * PersistentEpisodes :=
  commit (_ ← reject_if_read_only "record_retrieval_episode" s;
          insert_retrieval_episode e items (pe_db s)) s.

Definition persistent_finalize_retrieval_episode (t : TenantId) (id : RetrievalEpisodeId)
    (ids : list ChunkId) (s : PersistentEpisodes) : option (memd_result () * PersistentEpisodes) :=
  match reject_if_read_only "finalize_retrieval_episode" s with
  | Err e => Some (Err e, s)
  | Ok _ => r ← finalize_retrieval_episode t id ids (pe_db s); Some (commit r s)
  end.

(** [record_outcome] has no such check; on a read-only connection SQLite
    refuses the [INSERT]. *)
Definition persistent_record_outcome (t : TenantId) (event : OutcomeEvent) (s : PersistentEpisodes)
    : memd_result () * PersistentEpisodes :=
  commit (db ← insert_outcome_event t event (pe_db s);
          if pe_read_only s then Err (DatabaseError "attempt to write a readonly database") else Ok db) s.
End episodes.
