(* ===== verification/EpisodeStore.v ===== *)
(** * What a store promises about retrieval episodes
    (the trait [Store], src/crates/memd/src/store/mod.rs)

    The abstract state maps episode ids to the episode, its candidates and
    its outcomes.  [EpisodeStore] is the part of the trait that deals with
    episodes; [EpisodeStoreLaws] states that an implementation simulates the
    abstract state.  SQLite (Episodes.v) and the in-memory store
    (MemoryStore.v) are instances; the theorems about histories and about the
    agreement of two stores are proved from the laws alone. *)

From S2P Require Import Prelude Crates Types Str Ranking Outcome.
From stdpp Require Import sorting.

Open Scope Z_scope.

(* ------------------------------------------------------------------ *)
(** ** The abstract state *)

Record EpisodeState : Type := mkEpisodeState {
  es_episode : RetrievalEpisode;
  es_items : gmap ChunkId RetrievalEpisodeItem;
  es_events : gmap OutcomeEventId OutcomeEvent;
}.

Abbreviation Model := (gmap RetrievalEpisodeId EpisodeState).
(** The chunks a store holds, with their project. *)
Abbreviation Origin := (TenantId → ChunkId → option (option string)).

Definition items_map (items : list RetrievalEpisodeItem) : gmap ChunkId RetrievalEpisodeItem :=
  list_to_map (map (λ i, (ri_chunk_id i, i)) items).
Definition items_list (m : gmap ChunkId RetrievalEpisodeItem) : list RetrievalEpisodeItem :=
  map snd (map_to_list m).

(** The episode of a tenant. *)
Definition episode_of (t : TenantId) (id : RetrievalEpisodeId) (m : Model) : option EpisodeState :=
  st ← m !! id; if bool_decide (re_tenant_id (es_episode st) = t) then Some st else None.

(** ** Commands *)

Inductive Cmd : Type :=
| RecordEpisode (e : RetrievalEpisode) (items : list RetrievalEpisodeItem)
| GetEpisode (t : TenantId) (id : RetrievalEpisodeId)
| FinalizeEpisode (t : TenantId) (id : RetrievalEpisodeId) (ids : list ChunkId)
| RecordOutcome (t : TenantId) (ev : OutcomeEvent)
| ListOutcomes (t : TenantId) (id : RetrievalEpisodeId)
| Priors (t : TenantId) (project : option string) (ids : list ChunkId) (now_ms : Z).

Inductive Answer : Type :=
| Done (ok : bool)
| AnEpisode (o : option (RetrievalEpisode * list RetrievalEpisodeItem))
| TheOutcomes (l : list OutcomeEvent)
| ThePriors (l : list OutcomePrior)
| Failure.

Section spec.
Context `{JT : JsonText} `{PF : Powf} `{U : Uuid ChunkId}.
Variable origin : Origin.

Definition recordable (m : Model) (e : RetrievalEpisode) (items : list RetrievalEpisodeItem) : Prop :=
  valid_episode e items ∧ m !! re_episode_id e = None ∧
  Forall (λ i, origin (ri_origin_tenant_id i) (ri_chunk_id i) = Some (ri_origin_project_id i)) items.

Definition finalizable (m : Model) (t : TenantId) (id : RetrievalEpisodeId) (ids : list ChunkId) : Prop :=
  ∃ st, episode_of t id m = Some st ∧ renderable (es_episode st) (items_list (es_items st)) ids.

Definition attributable (m : Model) (t : TenantId) (ev : OutcomeEvent) : Prop :=
  ∃ st, m !! oe_episode_id ev = Some st ∧ es_events st !! oe_event_id ev = None ∧
        valid_outcome t (es_episode st) (items_list (es_items st)) ev.

Definition finalized (ids : list ChunkId) (st : EpisodeState) : EpisodeState :=
  mkEpisodeState (set_rendered_k (zlen ids) (es_episode st)) (project ids <$> es_items st) (es_events st).
Definition attributed_to (ev : OutcomeEvent) (st : EpisodeState) : EpisodeState :=
  mkEpisodeState (es_episode st) (es_items st) (<[oe_event_id ev := ev]> (es_events st)).

(** What a command that changes the state must allow, and the state after it. *)
Definition allowed (m : Model) (cmd : Cmd) : Prop :=
  match cmd with
  | RecordEpisode e items => recordable m e items
  | FinalizeEpisode t id ids => finalizable m t id ids
  | RecordOutcome t ev => attributable m t ev
  | _ => False
  end.
Definition effect (cmd : Cmd) (m : Model) : Model :=
  match cmd with
  | RecordEpisode e items => <[re_episode_id e := mkEpisodeState e (items_map items) ∅]> m
  | FinalizeEpisode _ id ids => alter (finalized ids) id m
  | RecordOutcome _ ev => alter (attributed_to ev) (oe_episode_id ev) m
  | _ => m
  end.

(** *** Priors *)

(** The chunks an outcome credits or blames. *)
Definition attribution (ev : OutcomeEvent) : list ChunkId :=
  if credits_used (oe_outcome ev) then oe_used_chunk_ids ev
  else if credits_harmful (oe_outcome ev) then oe_harmful_chunk_ids ev
  else [].

(** [ev] is an outcome of the episode [id] that may vote on [c]. *)
Definition may_vote (m : Model) (t : TenantId) (project : option string) (now_ms : Z) (c : ChunkId)
    (id : RetrievalEpisodeId) (ev : OutcomeEvent) : Prop :=
  ∃ st, episode_of t id m = Some st ∧ re_project_id (es_episode st) = project ∧
        es_events st !! oe_event_id ev = Some ev ∧ oe_timestamp_ms ev ≤ now_ms ∧
        contributes_to_ranking ev = true ∧ c ∈ attribution ev.

(** The votes on [c]: every episode of the scope that can has one, with a
    newest outcome. *)
Record votes (m : Model) (t : TenantId) (project : option string) (now_ms : Z) (c : ChunkId)
    (v : list (RetrievalEpisodeId * OutcomeEvent)) : Prop := {
  vt_once : NoDup (map fst v);
  vt_newest id ev : (id, ev) ∈ v → may_vote m t project now_ms c id ev ∧
    ∀ ev', may_vote m t project now_ms c id ev' → oe_timestamp_ms ev' ≤ oe_timestamp_ms ev;
  vt_all id ev : may_vote m t project now_ms c id ev → id ∈ map fst v;
}.

Definition add_vote (now_ms : Z) (p : OutcomePrior) (ev : OutcomeEvent) : OutcomePrior :=
  prior_add (credits_used (oe_outcome ev)) (decayed_outcome_weight (oe_timestamp_ms ev) now_ms)
    (oe_timestamp_ms ev) p.

(** The priors in the order of their ids: those of the requested chunks that
    have a vote, each the sum of its votes. *)
Record priors_of (m : Model) (t : TenantId) (project : option string) (ids : list ChunkId) (now_ms : Z)
    (l : list OutcomePrior) : Prop := {
  po_sorted : Sorted.StronglySorted (λ p q, String.le (uuid_to_string (op_chunk_id p)) (uuid_to_string (op_chunk_id q))) l;
  po_once : NoDup (map op_chunk_id l);
  po_sum p : p ∈ l → op_chunk_id p ∈ ids ∧ ∃ v, v ≠ [] ∧
    votes m t project now_ms (op_chunk_id p) v ∧
    p = foldl (add_vote now_ms) (prior_new (op_chunk_id p)) (map snd v);
  po_all c id ev : c ∈ ids → may_vote m t project now_ms c id ev → c ∈ map op_chunk_id l;
}.

(** *** Answers *)

Definition answers (m : Model) (cmd : Cmd) (a : Answer) : Prop :=
  match cmd, a with
  | GetEpisode t id, AnEpisode o =>
      match episode_of t id m, o with
      | Some st, Some (e, items) => e = es_episode st ∧ items ≡ₚ items_list (es_items st)
      | None, None => True
      | _, _ => False
      end
  | ListOutcomes t id, TheOutcomes l =>
      l ≡ₚ match episode_of t id m with
           | Some st => map snd (map_to_list (es_events st)) | None => [] end
  | Priors t project ids now_ms, ThePriors l => priors_of m t project ids now_ms l
  | (RecordEpisode _ _ | FinalizeEpisode _ _ _ | RecordOutcome _ _), Done ok =>
      ok = true ↔ allowed m cmd
  | _, _ => False
  end.

(** The state after a command. *)
Inductive step (m : Model) (cmd : Cmd) : Model → Prop :=
| step_done : allowed m cmd → step m cmd (effect cmd m)
| step_refused : ¬ allowed m cmd → step m cmd m.
End spec.

(* ------------------------------------------------------------------ *)
(** ** The interface *)

(** Values as Rust's types have them: lengths and ranks are not negative,
    tenant ids were validated; a rank is stored as an [i64]. *)
Definition tenant_ok (t : TenantId) : Prop := TenantId.new (TenantId.as_str t) = Ok t.
Definition rank_fits (r : Z) : Prop := 0 ≤ r < 2 ^ 63.
Definition episode_fits (e : RetrievalEpisode) : Prop :=
  tenant_ok (re_tenant_id e) ∧ 0 ≤ re_requested_k e ∧ 0 ≤ re_fetched_k e ∧ 0 ≤ re_rendered_k e.
Definition item_fits (i : RetrievalEpisodeItem) : Prop :=
  tenant_ok (ri_origin_tenant_id i) ∧ rank_fits (ri_original_rank i) ∧
  (∀ r, ri_served_rank i = Some r → rank_fits r) ∧ (∀ r, ri_shadow_rank i = Some r → rank_fits r).

(** Commands with such values; the id of an outcome (a version 7 UUID) is not
    that of an outcome of another episode. *)
Definition cmd_fits (m : Model) (cmd : Cmd) : Prop :=
  match cmd with
  | RecordEpisode e items => episode_fits e ∧ Forall item_fits items
  | RecordOutcome _ ev => ∀ id st, m !! id = Some st → id ≠ oe_episode_id ev →
      es_events st !! oe_event_id ev = None
  | _ => True
  end.

Class EpisodeStore (S : Type) : Type := {
  st_record_retrieval_episode : RetrievalEpisode → list RetrievalEpisodeItem → S → memd_result () * S;
  st_get_retrieval_episode : TenantId → RetrievalEpisodeId → S →
    memd_result (option (RetrievalEpisode * list RetrievalEpisodeItem));
  st_finalize_retrieval_episode : TenantId → RetrievalEpisodeId → list ChunkId → S →
    option (memd_result () * S);
  st_record_outcome : TenantId → OutcomeEvent → S → memd_result () * S;
  st_list_outcomes_for_episode : TenantId → RetrievalEpisodeId → S → memd_result (list OutcomeEvent);
  st_outcome_priors : TenantId → option string → list ChunkId → Z → S → memd_result (list OutcomePrior);
}.

Section client.
Context {S : Type} `{ES : EpisodeStore S}.

Definition answer_of {A} (f : A → Answer) (r : memd_result A) : Answer :=
  match r with Ok a => f a | Err _ => Failure end.

(** One call of the trait; [None] is a panic. *)
Definition exec (cmd : Cmd) (s : S) : option (Answer * S) :=
  match cmd with
  | RecordEpisode e items =>
      let '(r, s) := st_record_retrieval_episode e items s in Some (Done (is_ok r), s)
  | GetEpisode t id => Some (answer_of AnEpisode (st_get_retrieval_episode t id s), s)
  | FinalizeEpisode t id ids =>
      '(r, s) ← st_finalize_retrieval_episode t id ids s; Some (Done (is_ok r), s)
  | RecordOutcome t ev => let '(r, s) := st_record_outcome t ev s in Some (Done (is_ok r), s)
  | ListOutcomes t id => Some (answer_of TheOutcomes (st_list_outcomes_for_episode t id s), s)
  | Priors t project ids now_ms =>
      Some (answer_of ThePriors (st_outcome_priors t project ids now_ms s), s)
  end.

Fixpoint run (cmds : list Cmd) (s : S) : option (list Answer * S) :=
  match cmds with
  | [] => Some ([], s)
  | cmd :: cmds => '(a, s) ← exec cmd s; '(l, s) ← run cmds s; Some (a :: l, s)
  end.
End client.

Section laws.
Context `{JT : JsonText} `{PF : Powf} `{U : Uuid ChunkId}.

(** Every call of the store is a step of the abstract state that gives an
    answer of the abstract state. *)
Class EpisodeStoreLaws (S : Type) `{EpisodeStore S} : Type := {
  represents : S → Origin → Model → Prop;
  simulates s origin m cmd : represents s origin m → cmd_fits m cmd →
    ∃ a s' m', exec cmd s = Some (a, s') ∧ answers origin m cmd a ∧ step origin m cmd m' ∧
      represents s' origin m';
}.

(** A history of the abstract state. *)
Inductive history (origin : Origin) : Model → list Cmd → list Answer → Model → Prop :=
| history_nil m : history origin m [] [] m
| history_cons m cmd a m1 cmds l m2 :
    answers origin m cmd a → step origin m cmd m1 → history origin m1 cmds l m2 →
    history origin m (cmd :: cmds) (a :: l) m2.

Fixpoint fits_along (origin : Origin) (m : Model) (cmds : list Cmd) : Prop :=
  match cmds with
  | [] => True
  | cmd :: cmds => cmd_fits m cmd ∧ ∀ m', step origin m cmd m' → fits_along origin m' cmds
  end.

Lemma run_history {S} `{EpisodeStoreLaws S} origin cmds : ∀ (s : S) m,
  represents s origin m → fits_along origin m cmds →
  ∃ l s' m', run cmds s = Some (l, s') ∧ history origin m cmds l m' ∧ represents s' origin m'.
Proof.
  induction cmds as [|cmd cmds IH]; intros s m Hr Hf; cbn [run].
  - exists [], s, m. split_and!; [done|constructor|done].
  - destruct Hf as [Hc Hf]. destruct (simulates s origin m cmd Hr Hc) as (a & s1 & m1 & E & Ha & Hs & Hr1).
    destruct (IH s1 m1 Hr1 (Hf m1 Hs)) as (l & s2 & m2 & E2 & Hh & Hr2).
    exists (a :: l), s2, m2. rewrite E. cbn. rewrite E2. cbn. split_and!; [done| |done].
    by econstructor.
Qed.

Lemma step_det origin m cmd m1 m2 : step origin m cmd m1 → step origin m cmd m2 → m1 = m2.
Proof. by intros [] []. Qed.
End laws.

(* ------------------------------------------------------------------ *)
(** ** Facts about the abstract episodes

    The invariant of the abstract state, the agreement of two answers to the
    same command, and the tally: the loop both stores use to turn outcomes
    into priors. *)

(* ------------------------------------------------------------------ *)
(** ** Candidates as a map and as a list *)

Section items.
Implicit Types (items : list RetrievalEpisodeItem) (M : gmap ChunkId RetrievalEpisodeItem).

(** Every candidate is under its own id. *)
Definition keyed M : Prop := ∀ c i, M !! c = Some i → ri_chunk_id i = c.

Lemma items_keys items : map fst (map (λ i, (ri_chunk_id i, i)) items) = map ri_chunk_id items.
Proof. rewrite map_map. by apply map_ext. Qed.

Lemma items_map_Some items c i :
  NoDup (map ri_chunk_id items) → items_map items !! c = Some i ↔ i ∈ items ∧ ri_chunk_id i = c.
Proof.
  intros Hnd. unfold items_map. rewrite <- elem_of_list_to_map by (by rewrite <- (items_keys items) in Hnd).
  rewrite list_elem_of_fmap. naive_solver.
Qed.

Lemma items_map_keyed items : keyed (items_map items).
Proof.
  intros c i Hi. unfold items_map in Hi. apply elem_of_list_to_map_2, list_elem_of_fmap in Hi as (j & [= -> ->] & _).
  done.
Qed.

Lemma items_list_map items : NoDup (map ri_chunk_id items) → items_list (items_map items) ≡ₚ items.
Proof.
  intros Hnd. unfold items_list, items_map.
  rewrite map_to_list_to_map by (by rewrite <- (items_keys items) in Hnd).
  rewrite map_map. by rewrite map_id.
Qed.

Lemma items_map_project ids items :
  project ids <$> items_map items = items_map (map (project ids) items).
Proof. unfold items_map. rewrite <- list_to_map_fmap, !map_map. f_equal. Qed.

Lemma items_list_project ids M : items_list (project ids <$> M) = map (project ids) (items_list M).
Proof. unfold items_list. rewrite map_to_list_fmap, !map_map. by apply map_ext; intros []. Qed.

Lemma items_list_elem M i : keyed M → i ∈ items_list M ↔ M !! ri_chunk_id i = Some i.
Proof.
  intros HM. unfold items_list. rewrite list_elem_of_fmap. split.
  - intros ([c j] & -> & Hc%elem_of_map_to_list). cbn. by rewrite (HM _ _ Hc).
  - intros Hi. exists (ri_chunk_id i, i). split; [done|]. by apply elem_of_map_to_list.
Qed.

Lemma items_list_chunks M c : keyed M → c ∈ map ri_chunk_id (items_list M) ↔ is_Some (M !! c).
Proof.
  intros HM. rewrite list_elem_of_fmap. split.
  - intros (i & -> & Hi%items_list_elem); eauto.
  - intros [i Hi]. pose proof (HM _ _ Hi) as <-. exists i. split; [done|]. by apply items_list_elem.
Qed.

Lemma items_list_nodup M : keyed M → NoDup (map ri_chunk_id (items_list M)).
Proof.
  intros HM. unfold items_list. rewrite map_map.
  replace (map (λ x, ri_chunk_id x.2) (map_to_list M)) with (map_to_list M).*1; [apply NoDup_fst_map_to_list|].
  apply list_fmap_ext. intros k [c i] Hk. cbn. symmetry. apply HM.
  by apply elem_of_map_to_list, list_elem_of_lookup; exists k.
Qed.

(** A list of candidates of the map is the map's list in some order. *)
Lemma items_list_perm M items :
  keyed M → items_map items = M → NoDup (map ri_chunk_id items) → items ≡ₚ items_list M.
Proof. intros _ <- Hnd. by rewrite items_list_map. Qed.
End items.

(* ------------------------------------------------------------------ *)
(** ** The invariant of the abstract state *)

Section invariant.
Context `{JT : JsonText} `{PF : Powf} `{U : Uuid ChunkId}.

(** What a stored outcome keeps of its validation: its episode, its time, its
    eligibility, and attributions to candidates of the episode, each once. *)
Record event_ok (st : EpisodeState) (ev : OutcomeEvent) : Prop := {
  eo_episode : oe_episode_id ev = re_episode_id (es_episode st);
  eo_window : re_created_at_ms (es_episode st) ≤ oe_timestamp_ms ev ≤ re_expires_at_ms (es_episode st);
  eo_once : NoDup (oe_used_chunk_ids ev ++ oe_harmful_chunk_ids ev);
  eo_candidates : ∀ c, c ∈ oe_used_chunk_ids ev ++ oe_harmful_chunk_ids ev → is_Some (es_items st !! c);
  eo_eligible : oe_ranking_eligible ev =
    expected_ranking_eligibility (oe_outcome ev) (oe_verifier ev)
      (negb (is_empty (oe_used_chunk_ids ev))) (negb (is_empty (oe_harmful_chunk_ids ev)))
      (oe_evidence_reference ev);
}.

Record state_ok (id : RetrievalEpisodeId) (st : EpisodeState) : Prop := {
  so_id : re_episode_id (es_episode st) = id;
  so_keyed : keyed (es_items st);
  so_valid : valid_episode (es_episode st) (items_list (es_items st));
  so_events eid ev : es_events st !! eid = Some ev → oe_event_id ev = eid ∧ event_ok st ev;
}.

Definition model_ok (m : Model) : Prop := map_Forall state_ok m.

Lemma rendered_chunks items c : c ∈ rendered_ids items → c ∈ map ri_chunk_id items.
Proof.
  unfold rendered_ids. rewrite !list_elem_of_fmap. intros (i & -> & Hi%filter_bool_elem). naive_solver.
Qed.

Lemma valid_outcome_event_ok t st ev :
  keyed (es_items st) → valid_outcome t (es_episode st) (items_list (es_items st)) ev → event_ok st ev.
Proof.
  intros HM [? ? ? ? ? ? ? Hd Hr ?]. split; [done|done| |  |done].
  - apply NoDup_app. naive_solver.
  - intros c Hc. by apply items_list_chunks, rendered_chunks, Hr.
Qed.

Lemma event_ok_finalized ids st ev : event_ok st ev → event_ok (finalized ids st) ev.
Proof.
  intros [? ? ? Hc ?]. split; [done..| |done]. intros c Hi. cbn. rewrite lookup_fmap, fmap_is_Some. by apply Hc.
Qed.

Lemma episode_of_Some t id m st :
  episode_of t id m = Some st ↔ m !! id = Some st ∧ re_tenant_id (es_episode st) = t.
Proof.
  unfold episode_of. destruct (m !! id) as [st'|]; cbn; [|naive_solver].
  case_bool_decide; naive_solver.
Qed.

Lemma effect_ok origin m cmd : model_ok m → allowed origin m cmd → model_ok (effect cmd m).
Proof.
  intros Hm Ha. destruct cmd as [e items| |t id ids|t ev| |]; try done; cbn [allowed effect] in *.
  - destruct Ha as (Hv & _ & _). apply map_Forall_insert_2; [|done].
    pose proof (items_list_map items (ve_chunks _ _ Hv)) as Hp.
    split; cbn [es_episode es_items es_events]; [done|apply items_map_keyed| |done].
    eapply valid_episode_perm; [|done]. by rewrite Hp.
  - destruct Ha as (st & [Est <-]%episode_of_Some & Hr). intros id' st' [(<- & st0 & E & ->)|[Hne E]]%lookup_alter_Some;
      [|by apply Hm].
    simplify_eq. destruct (Hm _ _ Est) as [Hid HM Hv He].
    split; cbn [es_episode es_items es_events finalized]; [done| | |].
    + intros c i Hi. rewrite lookup_fmap in Hi. apply fmap_Some in Hi as (j & Hj & ->). by apply (HM c j).
    + rewrite items_list_project. by apply valid_project.
    + intros eid ev Hev. destruct (He eid ev Hev). split; [done|]. by apply event_ok_finalized.
  - destruct Ha as (st & Est & Hf & Hv). intros id' st' [(<- & st0 & E & ->)|[Hne E]]%lookup_alter_Some;
      [|by apply Hm].
    simplify_eq. destruct (Hm _ _ Est) as [Hid HM Hvv He].
    split; cbn [es_episode es_items es_events attributed_to]; [done|done|done|].
    intros eid ev' [[<- <-]|[Hne Hev]]%lookup_insert_Some.
    + split; [done|]. pose proof (valid_outcome_event_ok _ _ _ HM Hv) as [? ? ? ? ?]. by split.
    + destruct (He eid ev' Hev) as [? [? ? ? ? ?]]. split; [done|]. by split.
Qed.

Lemma step_ok origin m cmd m' : step origin m cmd m' → model_ok m → model_ok m'.
Proof. intros [Ha|_] Hm; [by eapply effect_ok|done]. Qed.

Lemma history_ok origin m cmds l m' : history origin m cmds l m' → model_ok m → model_ok m'.
Proof. induction 1; eauto using step_ok. Qed.
End invariant.

(* ------------------------------------------------------------------ *)
(** ** The tally *)

Section tally.
Context `{JT : JsonText} `{PF : Powf} `{U : Uuid ChunkId} {UL : UuidLaws ChunkId}.
Variable now : Z.

(** A vote that may count: episode, chunk, outcome. *)
Abbreviation Vote := (RetrievalEpisodeId * ChunkId * OutcomeEvent)%type.
Definition Tally : Type := gmap ChunkId OutcomePrior * gset (RetrievalEpisodeId * ChunkId).

Definition tally_step (s : Tally) (v : Vote) : Tally :=
  let '(id, c, ev) := v in
  if bool_decide ((id, c) ∈ s.2) then s
  else (<[c := add_vote now (default (prior_new c) (s.1 !! c)) ev]> s.1, {[(id, c)]} ∪ s.2).
Definition tally (L : list Vote) : Tally := foldl tally_step (∅, ∅) L.

(** Later votes of an episode are not newer. *)
Definition not_newer (x y : Vote) : Prop := x.1.1 = y.1.1 → oe_timestamp_ms y.2 ≤ oe_timestamp_ms x.2.

Definition sum_votes (c : ChunkId) (v : list (RetrievalEpisodeId * OutcomeEvent)) : option OutcomePrior :=
  match v with [] => None | _ => Some (foldl (add_vote now) (prior_new c) (map snd v)) end.

Lemma sum_votes_snoc c v id ev :
  sum_votes c (v ++ [(id, ev)]) = Some (add_vote now (default (prior_new c) (sum_votes c v)) ev).
Proof. destruct v as [|x v]; [done|]. unfold sum_votes. cbn [app]. by rewrite app_comm_cons, map_app, foldl_app. Qed.

(** What the tally of [L] says of a chunk. *)
Record tallied (L : list Vote) (c : ChunkId) (v : list (RetrievalEpisodeId * OutcomeEvent)) : Prop := {
  td_once : NoDup (map fst v);
  td_newest id ev : (id, ev) ∈ v → (id, c, ev) ∈ L ∧
    ∀ ev', (id, c, ev') ∈ L → oe_timestamp_ms ev' ≤ oe_timestamp_ms ev;
  td_all id ev : (id, c, ev) ∈ L → id ∈ map fst v;
  td_sum : (tally L).1 !! c = sum_votes c v;
}.

Lemma tally_seen L id c : (id, c) ∈ (tally L).2 ↔ ∃ ev, (id, c, ev) ∈ L.
Proof.
  induction L as [|[[id' c'] ev'] L IH] using rev_ind; [cbn; set_solver|].
  unfold tally in *. rewrite foldl_app. cbn [foldl tally_step].
  setoid_rewrite elem_of_app. setoid_rewrite list_elem_of_singleton.
  case_bool_decide as E; cbn [snd]; [|rewrite elem_of_union, elem_of_singleton]; rewrite IH; [|naive_solver].
  split; [naive_solver|]. intros (ev & [?|[= -> -> ->]]); [eauto|]. by apply IH.
Qed.

Lemma tally_spec L c : Sorted.StronglySorted not_newer L → ∃ v, tallied L c v.
Proof.
  induction L as [|[[id d] ev] L IH] using rev_ind; intros Hs.
  { exists []. split; [constructor|by intros ? ? ?%elem_of_nil|by intros ? ? ?%elem_of_nil|done]. }
  destruct (IH (StronglySorted_app_1_l _ _ _ Hs)) as (v & [Ho Hn Ha Hv]).
  assert (Hle : ∀ ev', (id, c, ev') ∈ L → oe_timestamp_ms ev ≤ oe_timestamp_ms ev').
  { intros ev' Hin. apply (StronglySorted_app_1_elem_of _ _ _ _ (id, d, ev) Hs Hin); [left|done]. }
  assert (Et : tally (L ++ [(id, d, ev)]) = tally_step (tally L) (id, d, ev)) by (unfold tally; by rewrite foldl_app).
  destruct (decide ((id, d) ∈ (tally L).2)) as [Hseen|Hseen].
  - exists v. apply tally_seen in Hseen as [ev0 Hev0]. split; [done| | |].
    + intros id' ev' Hin. destruct (Hn _ _ Hin) as [H1 H2]. split; [set_solver|].
      intros ev2 [?|[= -> -> ->]%list_elem_of_singleton]%elem_of_app; [by apply H2|]. by apply Hle.
    + intros id' ev' [?|[= -> -> ->]%list_elem_of_singleton]%elem_of_app; eauto.
    + rewrite Et. unfold tally_step. rewrite bool_decide_true; [done|]. apply tally_seen. eauto.
  - assert (Hnew : ∀ ev', (id, d, ev') ∉ L) by (intros ev' ?; apply Hseen, tally_seen; eauto).
    assert (Et2 : (tally (L ++ [(id, d, ev)])).1 = <[d := add_vote now (default (prior_new d) ((tally L).1 !! d)) ev]> (tally L).1).
    { rewrite Et. unfold tally_step. by rewrite bool_decide_false. }
    destruct (decide (d = c)) as [->|Hne].
    + exists (v ++ [(id, ev)]). split.
      * rewrite map_app. apply NoDup_app. split_and!; [done| |apply NoDup_singleton].
        intros id' ([id2 ev2] & -> & Hin)%list_elem_of_fmap [= ->]%list_elem_of_singleton.
        by apply (Hnew ev2), Hn.
      * intros id' ev' [Hin|[= -> ->]%list_elem_of_singleton]%elem_of_app.
        -- destruct (Hn _ _ Hin) as [H1 H2]. split; [set_solver|].
           intros ev2 [?|[= -> ->]%list_elem_of_singleton]%elem_of_app; [by apply H2|]. by apply Hle.
        -- split; [set_solver|].
           intros ev2 [?|[= ->]%list_elem_of_singleton]%elem_of_app; [by destruct (Hnew ev2)|done].
      * intros id' ev' [?|[= -> ->]%list_elem_of_singleton]%elem_of_app; rewrite map_app, elem_of_app;
          [left; eauto|right; by left].
      * by rewrite Et2, lookup_insert_eq, sum_votes_snoc, Hv.
    + exists v. split; [done| | |by rewrite Et2, lookup_insert_ne].
      * intros id' ev' Hin. destruct (Hn _ _ Hin) as [H1 H2]. split; [set_solver|].
        intros ev2 [?|[= -> -> ->]%list_elem_of_singleton]%elem_of_app; [by apply H2|done].
      * intros id' ev' [?|[= -> -> ->]%list_elem_of_singleton]%elem_of_app; [eauto|done].
Qed.

Definition by_text (p q : OutcomePrior) : Prop :=
  String.le (uuid_to_string (op_chunk_id p)) (uuid_to_string (op_chunk_id q)).

Lemma foldl_chunk l q : op_chunk_id (foldl (add_vote now) q l) = op_chunk_id q.
Proof. revert q. induction l as [|ev l IH]; intros q; cbn [foldl]; [done|]. by rewrite IH. Qed.

Lemma sum_chunk c v p : sum_votes c v = Some p → op_chunk_id p = c.
Proof. destruct v as [|x v]; [done|]. intros E. apply Some_inj in E as <-. by rewrite foldl_chunk. Qed.

(** The priors a tally of the votes of a scope gives. *)
Lemma tally_priors_of m t project ids L l :
  Sorted.StronglySorted not_newer L →
  (∀ id c ev, (id, c, ev) ∈ L ↔ c ∈ ids ∧ may_vote m t project now c id ev) →
  Sorted.StronglySorted by_text l → l ≡ₚ map snd (map_to_list (tally L).1) →
  priors_of m t project ids now l.
Proof.
  intros Hs HL Hl Hp.
  assert (Hkey : ∀ c p, (tally L).1 !! c = Some p → op_chunk_id p = c).
  { intros c p E. destruct (tally_spec L c Hs) as (v & [_ _ _ Hv]). rewrite Hv in E. by eapply sum_chunk. }
  assert (Hin : ∀ p, p ∈ l ↔ (tally L).1 !! op_chunk_id p = Some p).
  { intros p. rewrite Hp, list_elem_of_fmap. split.
    - intros ([c q] & -> & E%elem_of_map_to_list). cbn. by rewrite (Hkey _ _ E).
    - intros E. exists (op_chunk_id p, p). split; [done|]. by apply elem_of_map_to_list. }
  split; [done| | |].
  - rewrite Hp, map_map.
    replace (map (λ x, op_chunk_id x.2) (map_to_list (tally L).1)) with (map_to_list (tally L).1).*1;
      [apply NoDup_fst_map_to_list|].
    apply list_fmap_ext. intros k [c q] Hk. cbn. symmetry. apply Hkey.
    by apply elem_of_map_to_list, list_elem_of_lookup; exists k.
  - intros p E%Hin. destruct (tally_spec L (op_chunk_id p) Hs) as (v & [Ho Hn Ha Hv]).
    rewrite E in Hv. destruct v as [|[id ev] v]; [done|]. set (v' := (id, ev) :: v) in *.
    assert (op_chunk_id p ∈ ids) as Hc.
    { assert ((id, ev) ∈ v') as Hin' by apply list_elem_of_here. apply Hn in Hin' as [H1 _]. by apply HL in H1 as [? _]. }
    split; [done|]. exists v'. split_and!; [done| |by apply Some_inj in Hv]. split; [done| |].
    + intros id' ev' Hin'. destruct (Hn _ _ Hin') as [H1 H2]. apply HL in H1 as [_ H1]. split; [done|].
      intros ev2 H3. apply H2, HL. done.
    + intros id' ev' H1. eapply Ha, HL. done.
  - intros c id ev Hc Hm. destruct (tally_spec L c Hs) as (v & [Ho Hn Ha Hv]).
    assert (id ∈ map fst v) as Hid by (eapply Ha, HL; done).
    destruct v as [|x v]; [by apply elem_of_nil in Hid|].
    unfold sum_votes in Hv. set (p := foldl _ _ _) in Hv. apply list_elem_of_fmap. exists p.
    split; [symmetry; by apply Hkey|]. apply Hin. by rewrite (Hkey c p Hv).
Qed.

(* ------------------------------------------------------------------ *)
(** ** Agreement *)

Lemma foldl_max_perm (l k : list Z) z : l ≡ₚ k → foldl Z.max z l = foldl Z.max z k.
Proof.
  intros Hp. revert z. induction Hp as [|x l k _ IH|x y l|l k j _ IH1 _ IH2]; intros z; cbn [foldl]; [done| | |].
  - apply IH.
  - f_equal. lia.
  - by rewrite IH1.
Qed.

Lemma sum_count l p :
  op_eligible_episode_count p ≤ u64_max →
  op_eligible_episode_count (foldl (add_vote now) p l) = Z.min u64_max (op_eligible_episode_count p + zlen l).
Proof.
  revert p. induction l as [|ev l IH]; intros p Hp; cbn [foldl]; unfold zlen in *; cbn [length].
  - cbn in *. lia.
  - rewrite IH; cbn [add_vote prior_add op_eligible_episode_count]; unfold sat_add_u64; lia.
Qed.

Lemma sum_last l p :
  op_last_outcome_at_ms (foldl (add_vote now) p l) =
  foldl Z.max (op_last_outcome_at_ms p) (map oe_timestamp_ms l).
Proof. revert p. induction l as [|ev l IH]; intros p; cbn [foldl map]; [done|]. by rewrite IH. Qed.

(** Two choices of newest votes agree on who votes and when. *)
Lemma votes_agree m t project c v w :
  votes m t project now c v → votes m t project now c w →
  map (λ x : _ * _, (x.1, oe_timestamp_ms x.2)) v ≡ₚ map (λ x : _ * _, (x.1, oe_timestamp_ms x.2)) w.
Proof.
  intros Hv Hw.
  assert (Hnd : ∀ u, votes m t project now c u → NoDup (map (λ x : _ * _, (x.1, oe_timestamp_ms x.2)) u)).
  { intros u [Ho _ _]. apply (NoDup_fmap_1 fst). change (fst <$> ?l) with (map fst l). by rewrite map_map. }
  assert (Hsub : ∀ u u', votes m t project now c u → votes m t project now c u' →
    ∀ x, x ∈ map (λ x : _ * _, (x.1, oe_timestamp_ms x.2)) u → x ∈ map (λ x : _ * _, (x.1, oe_timestamp_ms x.2)) u').
  { intros u u' [_ Hn _] [_ Hn' Ha'] x ([id ev] & -> & Hin)%list_elem_of_fmap. cbn.
    destruct (Hn _ _ Hin) as [Hm Hmax]. apply Ha' in Hm as Hid. apply list_elem_of_fmap in Hid as ([id' ev'] & -> & Hin').
    destruct (Hn' _ _ Hin') as [Hm' Hmax']. apply list_elem_of_fmap. exists (id', ev'). split; [|done].
    cbn. f_equal. apply Z.le_antisymm; [by apply Hmax'|by apply Hmax]. }
  apply NoDup_Permutation; [by apply Hnd..|]. intros x. split; by apply Hsub.
Qed.

(** What two stores agree on: everything but the order of unordered results
    and, between outcomes of the same millisecond, the vote that counts. *)
Definition priors_agree (p q : OutcomePrior) : Prop :=
  op_chunk_id p = op_chunk_id q ∧ op_eligible_episode_count p = op_eligible_episode_count q ∧
  op_last_outcome_at_ms p = op_last_outcome_at_ms q.

Lemma priors_of_agree m t project ids l k :
  priors_of m t project ids now l → priors_of m t project ids now k → Forall2 priors_agree l k.
Proof using UL.
  intros Hl Hk.
  assert (Hsub : ∀ l k, priors_of m t project ids now l → priors_of m t project ids now k →
                   ∀ c, c ∈ map op_chunk_id l → c ∈ map op_chunk_id k).
  { clear. intros l k [_ _ Hsum _] [_ _ _ Hall] c (p & -> & Hp)%list_elem_of_fmap.
    destruct (Hsum p Hp) as (Hc & [|[id ev] v] & Hne & Hv & _); [done|].
    apply (Hall _ id ev Hc), (vt_newest _ _ _ _ _ _ Hv). by left. }
  assert (E : map op_chunk_id l = map op_chunk_id k).
  { assert (map op_chunk_id l ≡ₚ map op_chunk_id k) as Hp.
    { apply NoDup_Permutation; [apply Hl|apply Hk|]. intros c. split; by apply Hsub. }
    assert (Hs : ∀ u, priors_of m t project ids now u →
              Sorted.StronglySorted String.le (map uuid_to_string (map op_chunk_id u))).
    { intros u [Hs _ _ _]. rewrite map_map. induction Hs as [|p u Hs IH Hf]; cbn; constructor; [done|].
      apply Forall_map. exact Hf. }
    pose proof (StronglySorted_unique String.le _ _ (Hs l Hl) (Hs k Hk) (Permutation_map uuid_to_string Hp)) as E.
    clear -E UL. revert E. generalize (map op_chunk_id l) as u, (map op_chunk_id k) as w.
    induction u as [|x u IH]; intros [|y w]; cbn; try done. intros [= Exy E].
    apply uuid_to_string_inj in Exy as ->. f_equal. by apply IH. }
  apply Forall2_same_length_lookup. split; [by rewrite <- (length_map op_chunk_id l), E, length_map|].
  intros n p q Hp Hq. assert (Ec : op_chunk_id p = op_chunk_id q).
  { apply (f_equal (lookup n)) in E. rewrite !list_lookup_fmap, Hp, Hq in E. by injection E. }
  apply list_elem_of_lookup_2 in Hp, Hq.
  destruct (po_sum _ _ _ _ _ _ Hl p Hp) as (_ & v & _ & Hv & Ep).
  destruct (po_sum _ _ _ _ _ _ Hk q Hq) as (_ & w & _ & Hw & Eq). rewrite <- Ec in Hw.
  pose proof (votes_agree _ _ _ _ _ _ Hv Hw) as Hvw. split; [done|]. rewrite Ep, Eq.
  rewrite !sum_count, !sum_last by done. cbn [prior_new op_eligible_episode_count op_last_outcome_at_ms].
  split.
  - unfold zlen. rewrite !length_map. apply Permutation_length in Hvw. rewrite !length_map in Hvw. by rewrite Hvw.
  - rewrite !map_map. apply (Permutation_map snd) in Hvw. rewrite !map_map in Hvw. by apply foldl_max_perm.
Qed.
End tally.

Section agreement.
Context `{JT : JsonText} `{PF : Powf} `{U : Uuid ChunkId} {UL : UuidLaws ChunkId}.

Definition agree (a b : Answer) : Prop :=
  match a, b with
  | Done x, Done y => x = y
  | AnEpisode None, AnEpisode None => True
  | AnEpisode (Some (e, items)), AnEpisode (Some (e', items')) => e = e' ∧ items ≡ₚ items'
  | TheOutcomes l, TheOutcomes k => l ≡ₚ k
  | ThePriors l, ThePriors k => Forall2 priors_agree l k
  | _, _ => False
  end.

Lemma answers_agree origin m cmd a b : answers origin m cmd a → answers origin m cmd b → agree a b.
Proof.
  destruct cmd, a as [| o | | |], b as [| o' | | |]; cbn [answers agree]; try done.
  1, 3, 4: intros H1 H2; apply eq_true_iff_eq; by rewrite H1, H2.
  - destruct (episode_of t id m), o as [[]|], o' as [[]|]; try done.
    intros [-> ->] [-> ->]. done.
  - by intros -> ->.
  - apply priors_of_agree.
Qed.

Lemma histories_agree origin m cmds l k m1 m2 :
  history origin m cmds l m1 → history origin m cmds k m2 → Forall2 agree l k ∧ m1 = m2.
Proof.
  intros H. revert k. induction H as [|m cmd a m' cmds l m1 Ha Hs _ IH]; intros k Hk;
    inversion Hk as [|? ? b m'' ? k' ? Hb Hs' Hk']; subst; [done|].
  destruct (step_det _ _ _ _ _ Hs Hs'). destruct (IH _ Hk') as [? ->].
  split; [|done]. constructor; [by eapply answers_agree|done].
Qed.

(* ------------------------------------------------------------------ *)
(** ** Histories from the empty store *)

(** What a list of commands must look like: values of Rust's types, and no
    event id is used for two episodes. *)
Definition cmds_fit (cmds : list Cmd) : Prop :=
  (∀ e items, RecordEpisode e items ∈ cmds → episode_fits e ∧ Forall item_fits items) ∧
  (∀ t ev t' ev', RecordOutcome t ev ∈ cmds → RecordOutcome t' ev' ∈ cmds →
    oe_event_id ev = oe_event_id ev' → oe_episode_id ev = oe_episode_id ev').

Definition event_id_of (cmd : Cmd) : option OutcomeEventId :=
  match cmd with RecordOutcome _ ev => Some (oe_event_id ev) | _ => None end.

Lemma NoDup_omap_inj {A B} (f : A → option B) l x y b :
  NoDup (omap f l) → x ∈ l → y ∈ l → f x = Some b → f y = Some b → x = y.
Proof.
  induction l as [|z l IH]; cbn [omap list_omap]; [by intros _ ?%elem_of_nil|].
  intros Hnd Hx Hy Ex Ey.
  assert (Hin : ∀ w, w ∈ l → f w = Some b → b ∈ omap f l) by (intros w ? ?; apply list_elem_of_omap; eauto).
  apply elem_of_cons in Hx as [->|Hx], Hy as [->|Hy]; [done|rewrite Ex in Hnd|rewrite Ey in Hnd|].
  - apply NoDup_cons in Hnd as [Hn _]. by destruct (Hn (Hin y Hy Ey)).
  - apply NoDup_cons in Hnd as [Hn _]. by destruct (Hn (Hin x Hx Ex)).
  - apply IH; try done. destruct (f z); [by apply NoDup_cons in Hnd as [_ ?]|done].
Qed.

(** Event ids that are used once. *)
Lemma cmds_fit_intro cmds :
  Forall (λ cmd, match cmd with RecordEpisode e items => episode_fits e ∧ Forall item_fits items | _ => True end) cmds →
  NoDup (omap event_id_of cmds) → cmds_fit cmds.
Proof.
  intros Hf Hnd. split.
  - intros e items Hin. by apply (proj1 (Forall_forall _ _) Hf (RecordEpisode e items)).
  - intros t ev t' ev' H1 H2 E.
    assert (RecordOutcome t ev = RecordOutcome t' ev') as [= _ ->]; [|done].
    apply (NoDup_omap_inj event_id_of cmds _ _ (oe_event_id ev)); try done. cbn. by rewrite E.
Qed.

(** Every outcome came with one of the commands. *)
Definition outcomes_from (cmds : list Cmd) (m : Model) : Prop :=
  ∀ id st eid ev, m !! id = Some st → es_events st !! eid = Some ev → ∃ t, RecordOutcome t ev ∈ cmds.

Lemma outcomes_from_step origin cmds m cmd m' :
  step origin m cmd m' → outcomes_from cmds m → outcomes_from (cmds ++ [cmd]) m'.
Proof.
  assert (Hold : outcomes_from cmds m → outcomes_from (cmds ++ [cmd]) m).
  { intros H id st eid ev E Ee. destruct (H id st eid ev E Ee) as [t Ht]. exists t. apply elem_of_app. by left. }
  intros [_|_] H; [|by apply Hold]. destruct cmd as [e items| |t i ids|t x| |]; try (by apply Hold); cbn [effect].
  - intros id st eid ev [[<- <-]|[_ E]]%lookup_insert_Some Ee; [done|by eapply Hold].
  - intros id st eid ev [(<- & st0 & E & ->)|[_ E]]%lookup_alter_Some Ee; by eapply Hold.
  - intros id st eid ev [(<- & st0 & E & ->)|[_ E]]%lookup_alter_Some Ee; [|by eapply Hold].
    cbn in Ee. apply lookup_insert_Some in Ee as [[<- <-]|[_ Ee]]; [|by eapply Hold].
    exists t. apply elem_of_app. right. left.
Qed.

Lemma cmds_fit_along_from origin cmds : ∀ pre m,
  cmds_fit (pre ++ cmds) → model_ok m → outcomes_from pre m → fits_along origin m cmds.
Proof.
  induction cmds as [|cmd cmds IH]; intros pre m [Hrec Hev] Hok Ho; cbn [fits_along]; [done|].
  assert (Hin : cmd ∈ pre ++ cmd :: cmds) by (apply elem_of_app; right; left). split.
  - destruct cmd as [e items| | |t ev| |]; try done; cbn [cmd_fits]; [by apply Hrec|].
    intros id st Em Hne. apply eq_None_not_Some. intros [x Hx]. destruct (Ho _ _ _ _ Em Hx) as [t' Ht'].
    destruct (Hok _ _ Em) as [Hid _ _ He]. destruct (He _ _ Hx) as [Eid [Eep _ _ _ _]].
    apply Hne. rewrite <- Hid, <- Eep. apply (Hev t' x t ev); [apply elem_of_app; by left|done|done].
  - intros m' Hs. apply (IH (pre ++ [cmd])); [by rewrite <- app_assoc|by eapply step_ok|by eapply outcomes_from_step].
Qed.

Lemma cmds_fit_along origin cmds : cmds_fit cmds → fits_along origin ∅ cmds.
Proof. intros H. by apply (cmds_fit_along_from origin cmds []). Qed.
End agreement.
