(* ===== verification/EpisodesFacts.v ===== *)
(** * The SQLite tables implement the abstract episodes

    The row codecs lose nothing; [table_rep] relates the tables to the
    abstract state; every transaction and query simulates its command, which
    makes [PersistentEpisodes] an instance of [EpisodeStoreLaws]. *)

From S2P Require Import Prelude Crates Types Str Metadata Ranking Fusion Outcome.
From S2P Require Import EpisodeStore Episodes.
From stdpp Require Import sorting.

Open Scope Z_scope.

(* ------------------------------------------------------------------ *)
(** ** Lists and maps *)

(** The values of a map whose keys they determine. *)
Lemma NoDup_values {K V} `{Countable K} (m : gmap K V) (key : V → K) :
  (∀ k v, m !! k = Some v → key v = k) → NoDup (map snd (map_to_list m)).
Proof.
  intros Hk. apply (NoDup_fmap_1 key). change (key <$> ?l) with (map key l). rewrite map_map.
  replace (map (λ x, key x.2) (map_to_list m)) with (map_to_list m).*1; [apply NoDup_fst_map_to_list|].
  apply list_fmap_ext. intros n [k v] Hn. cbn. symmetry. apply Hk.
  by apply elem_of_map_to_list, list_elem_of_lookup; exists n.
Qed.

Lemma elem_of_values {K V} `{Countable K} (m : gmap K V) v :
  v ∈ map snd (map_to_list m) ↔ ∃ k, m !! k = Some v.
Proof.
  rewrite list_elem_of_fmap. setoid_rewrite <- elem_of_map_to_list. split.
  - intros ([k v'] & -> & ?). eauto.
  - intros [k ?]. exists (k, v). eauto.
Qed.

Lemma mapM_ok {E A B} (f : A → Result E B) (g : B → A) (l : list B) :
  (∀ b, b ∈ l → f (g b) = Ok b) → mapM f (map g l) = Ok l.
Proof.
  induction l as [|b l IH]; intros Hf; cbn [map mapM]; [done|].
  rewrite Hf by left. cbn [mbind result_bind].
  change (mapM f (map g l)) with (mapM f (map g l)). rewrite IH by (intros ? ?; apply Hf; by right). done.
Qed.

Lemma filter_true {A} (l : list A) : List.filter (λ _, true) l = l.
Proof. induction l as [|x l IH]; cbn; [done|]. by rewrite IH. Qed.

Lemma StronglySorted_omap {A B} (R : A → A → Prop) (R' : B → B → Prop) (f : A → option B) l :
  (∀ x y x' y', R x y → f x = Some x' → f y = Some y' → R' x' y') →
  Sorted.StronglySorted R l → Sorted.StronglySorted R' (omap f l).
Proof.
  intros HR. induction 1 as [|x l Hs IH Hx]; cbn; [constructor|].
  destruct (f x) as [x'|] eqn:E; [|done]. constructor; [done|]. apply Forall_forall.
  intros y' (y & Hy & Ey)%list_elem_of_omap. eapply HR; [|done..]. by eapply Forall_forall in Hx.
Qed.

#[local] Instance uuid_to_string_Inj {I} `{UL : UuidLaws I} : Inj (=) (=) (uuid_to_string (U := I)).
Proof. intros x y. apply uuid_to_string_inj. Qed.

Lemma tenant_text_inj (t u : TenantId) : TenantId.as_str t = TenantId.as_str u ↔ t = u.
Proof. split; [|by intros ->]. destruct t, u. cbn. by intros ->. Qed.

Section facts.
Context `{UL : UuidLaws ChunkId} `{UEL : UuidLaws RetrievalEpisodeId} `{UOL : UuidLaws OutcomeEventId}.
Context `{JTL : JsonTextLaws} `{PF : Powf} {TS : TableScan} {HI : HashIter ChunkId}.

(* ------------------------------------------------------------------ *)
(** ** The codecs *)

Lemma sql_usize_ok r : rank_fits r → sql_usize (as_i64 r) = Ok r.
Proof.
  intros Hr. assert (as_i64 r = r) as ->.
  { unfold as_i64, wraps. unfold rank_fits in Hr. rewrite Z.mod_small; lia. }
  unfold sql_usize. by rewrite (proj2 (Z.ltb_ge _ _)) by apply Hr.
Qed.

Lemma sql_usize_opt_ok o :
  (∀ r, o = Some r → rank_fits r) → sql_usize_opt (as_i64 <$> o) = Ok o.
Proof. destruct o as [r|]; cbn; [|done]. intros Hr. by rewrite sql_usize_ok by by apply Hr. Qed.

Lemma as_i64_inj r s : rank_fits r → rank_fits s → as_i64 r = as_i64 s → r = s.
Proof.
  intros Hr Hs E. apply (f_equal sql_usize) in E. rewrite !sql_usize_ok in E by done. by injection E.
Qed.

Lemma parse_chunk_ids_ok l : parse_chunk_id_json (chunk_ids_json l) = Ok l.
Proof.
  unfold parse_chunk_id_json, chunk_ids_json. rewrite json_strings_roundtrip. cbn [ok_or mbind result_bind].
  apply mapM_ok. intros c _. unfold chunk_id_parse. by rewrite uuid_roundtrip.
Qed.

Definition small (e : RetrievalEpisode) : Prop :=
  re_requested_k e ≤ 200 ∧ re_fetched_k e ≤ 200 ∧ re_rendered_k e ≤ 200.

Lemma valid_small e items : valid_episode e items → small e.
Proof. intros [(_ & _ & _ & _ & _ & _ & _ & ?) _ _ _ _ _ _ _]. done. Qed.

Lemma episode_roundtrip e :
  episode_fits e → small e → row_to_retrieval_episode (episode_params e) = Ok e.
Proof.
  intros (Ht & ? & ? & ?) (? & ? & ?). unfold row_to_retrieval_episode, episode_params.
  cbn [er_episode_id er_tenant_id er_project_id er_query_hash er_query_mode er_requested_k er_fetched_k
       er_rendered_k er_policy_version er_policy_mode er_task_id er_thread_id er_created_at_ms er_expires_at_ms].
  unfold RetrievalEpisodeId_parse. rewrite uuid_roundtrip. unfold tenant_ok in Ht. rewrite Ht.
  cbn [ok_or convert mbind result_bind]. rewrite !sql_usize_ok by (unfold rank_fits; lia).
  cbn [mbind result_bind].
  replace (RankingPolicyMode_parse _) with (Ok (re_policy_mode e) : memd_result RankingPolicyMode)
    by by destruct (re_policy_mode e).
  cbn [convert mbind result_bind]. by destruct e.
Qed.

Lemma item_roundtrip i : item_fits i → row_to_retrieval_episode_item (item_params i) = Ok i.
Proof.
  intros (Ht & Hr & Hs & Hh). unfold row_to_retrieval_episode_item, item_params.
  cbn [ir_episode_id ir_chunk_id ir_origin_tenant_id ir_origin_project_id ir_original_rank ir_original_score
       ir_lane_scores_json ir_outcome_adjustment ir_served_rank ir_shadow_rank ir_rendered ir_source_dedup_group].
  unfold RetrievalEpisodeId_parse, chunk_id_parse. rewrite !uuid_roundtrip. unfold tenant_ok in Ht. rewrite Ht.
  cbn [ok_or convert mbind result_bind]. rewrite sql_usize_ok, !sql_usize_opt_ok by done.
  cbn [mbind result_bind]. destruct i as [? ? ? ? ? ? ? ? ? ? [] ?]; done.
Qed.

Lemma event_roundtrip ev : row_to_outcome_event (event_params ev) = Ok ev.
Proof.
  unfold row_to_outcome_event, event_params.
  cbn [ev_event_id ev_episode_id ev_outcome ev_verifier_type ev_used_chunk_ids_json ev_harmful_chunk_ids_json
       ev_evidence_reference ev_ranking_eligible ev_timestamp_ms].
  unfold OutcomeEventId_parse, RetrievalEpisodeId_parse. rewrite !uuid_roundtrip.
  cbn [ok_or convert mbind result_bind].
  replace (OutcomeKind_parse _) with (Ok (oe_outcome ev) : memd_result OutcomeKind)
    by by destruct (oe_outcome ev).
  replace (OutcomeVerifier_parse _) with (Ok (oe_verifier ev) : memd_result OutcomeVerifier)
    by by destruct (oe_verifier ev).
  cbn [convert mbind result_bind]. rewrite !parse_chunk_ids_ok. cbn [mbind result_bind].
  destruct ev as [? ? ? ? ? ? ? [] ?]; done.
Qed.

Lemma event_params_inj ev ev' : event_params ev = event_params ev' → ev = ev'.
Proof. intros E. apply (f_equal row_to_outcome_event) in E. rewrite !event_roundtrip in E. congruence. Qed.

(* ------------------------------------------------------------------ *)
(** ** The relation *)

Definition state_fits (st : EpisodeState) : Prop :=
  episode_fits (es_episode st) ∧ map_Forall (λ _ i, item_fits i) (es_items st).

Record table_rep (db : EpisodeDb) (origin : Origin) (m : Model) : Prop := {
  tr_ok : model_ok m;
  tr_fits : map_Forall (λ _ st, state_fits st) m;
  tr_origin t c : chunk_project (ed_chunks db) t c = origin t c;
  tr_episodes k r : ed_episodes db !! k = Some r ↔
    ∃ id st, m !! id = Some st ∧ k = uuid_to_string id ∧ r = episode_params (es_episode st);
  tr_items k r : ed_items db !! k = Some r ↔
    ∃ id st c i, m !! id = Some st ∧ es_items st !! c = Some i ∧
      k = (uuid_to_string id, uuid_to_string c) ∧ r = item_params i;
  tr_events k r : ed_events db !! k = Some r ↔
    ∃ id st eid ev, m !! id = Some st ∧ es_events st !! eid = Some ev ∧
      k = uuid_to_string eid ∧ r = event_params ev;
}.

Section queries.
Context (db : EpisodeDb) (origin : Origin) (m : Model) (R : table_rep db origin m).

Lemma rep_episode id : ed_episodes db !! uuid_to_string id = episode_params ∘ es_episode <$> m !! id.
Proof using UEL R.
  apply option_eq. intros r. rewrite (tr_episodes _ _ _ R), fmap_Some. split.
  - intros (id' & st & Em & <-%uuid_to_string_inj & ->). eauto.
  - intros (st & Em & ->). eauto.
Qed.

Lemma rep_select t id :
  select_episode t id db = episode_params ∘ es_episode <$> episode_of t id m.
Proof using UEL R.
  unfold select_episode, episode_of. rewrite rep_episode.
  destruct (m !! id) as [st|] eqn:Em; [|done]. cbn [fmap option_fmap option_map mbind option_bind compose].
  change (er_tenant_id (episode_params (es_episode st))) with (TenantId.as_str (re_tenant_id (es_episode st))).
  rewrite (bool_decide_ext _ _ (tenant_text_inj _ _)). by case_bool_decide.
Qed.

Lemma rep_query_episode t id :
  query_episode t id db = Ok (es_episode <$> episode_of t id m).
Proof using UEL R.
  unfold query_episode. rewrite rep_select.
  destruct (episode_of t id m) as [st|] eqn:E; [|done]. cbn [fmap option_fmap option_map compose].
  apply episode_of_Some in E as [Em _]. rewrite episode_roundtrip; [done| |].
  - by apply (tr_fits _ _ _ R _ _ Em).
  - eapply valid_small, so_valid, (tr_ok _ _ _ R _ _ Em).
Qed.

Lemma item_row_key k r : ed_items db !! k = Some r → (ir_episode_id r, ir_chunk_id r) = k.
Proof using R.
  intros (id & st & c & i & Em & Ei & -> & ->)%(tr_items _ _ _ R).
  destruct (tr_ok _ _ _ R _ _ Em) as [Hid HM Hv _]. cbn.
  rewrite (HM _ _ Ei). do 2 f_equal. rewrite <- Hid.
  eapply (proj1 (Forall_forall _ _) (ve_items _ _ Hv)), items_list_elem; [done|]. by rewrite (HM _ _ Ei).
Qed.

Lemma event_row_key k r : ed_events db !! k = Some r → ev_event_id r = k.
Proof using R.
  intros (id & st & eid & ev & Em & Ee & -> & ->)%(tr_events _ _ _ R). cbn.
  by destruct (so_events _ _ (tr_ok _ _ _ R _ _ Em) _ _ Ee) as [-> _].
Qed.

(** The rows of the items of an episode. *)
Lemma rep_item_rows id st :
  m !! id = Some st →
  List.filter (λ r, bool_decide (ir_episode_id r = uuid_to_string id)) (map snd (map_to_list (ed_items db)))
  ≡ₚ map item_params (items_list (es_items st)).
Proof using All.
  intros Em. destruct (tr_ok _ _ _ R _ _ Em) as [Hid HM Hv _]. apply NoDup_Permutation.
  - apply NoDup_ListNoDup, List.NoDup_filter, NoDup_ListNoDup.
    apply (NoDup_values _ (λ r, (ir_episode_id r, ir_chunk_id r))). exact item_row_key.
  - apply (NoDup_fmap_1 ir_chunk_id). change (?f <$> ?l) with (map f l). rewrite map_map.
    change (map (λ i, ir_chunk_id (item_params i)) ?l) with (map (λ i, uuid_to_string (ri_chunk_id i)) l).
    rewrite <- (map_map ri_chunk_id uuid_to_string). apply (NoDup_fmap_2 _), items_list_nodup, HM.
  - intros r. rewrite filter_bool_elem, elem_of_values, bool_decide_eq_true, list_elem_of_fmap. split.
    + intros [[k Hk] Er]. pose proof (item_row_key _ _ Hk) as Ek.
      apply (tr_items _ _ _ R) in Hk as (id' & st' & c & i & Em' & Ei & -> & ->).
      injection Ek as Ek _. change (uuid_to_string (ri_episode_id i) = uuid_to_string id) in Er. rewrite Ek in Er. apply uuid_to_string_inj in Er as ->. simplify_eq.
      exists i. split; [done|]. apply items_list_elem; [done|]. by rewrite (HM _ _ Ei).
    + intros (i & -> & Hi%items_list_elem); [|done].
      assert (Hk : ed_items db !! (uuid_to_string id, uuid_to_string (ri_chunk_id i)) = Some (item_params i))
        by (apply (tr_items _ _ _ R); eauto 10).
      split; [eauto|]. apply item_row_key in Hk. by injection Hk.
Qed.

Lemma rep_query_items id st :
  m !! id = Some st →
  ∃ items, query_retrieval_episode_items id db = Ok items ∧ items ≡ₚ items_list (es_items st).
Proof using All.
  intros Em. unfold query_retrieval_episode_items, select_items.
  assert (Hp : merge_sort by_original_rank
    (scan (List.filter (λ r, bool_decide (ir_episode_id r = uuid_to_string id)) (map snd (map_to_list (ed_items db)))))
    ≡ₚ map item_params (items_list (es_items st))) by by rewrite merge_sort_Permutation, scan_perm, rep_item_rows.
  apply Permutation_map_inv in Hp as (items & -> & Hp). exists items. split; [|done].
  apply mapM_ok. intros i Hi. apply item_roundtrip.
  destruct (tr_ok _ _ _ R _ _ Em) as [_ HM _ _]. rewrite <- Hp in Hi.
  apply items_list_elem in Hi; [|done]. by eapply (proj2 (tr_fits _ _ _ R _ _ Em)).
Qed.

(** The rows of the outcomes of an episode. *)
Lemma rep_event_rows id st :
  m !! id = Some st →
  List.filter (λ o, bool_decide (ev_episode_id o = uuid_to_string id)) (map snd (map_to_list (ed_events db)))
  ≡ₚ map event_params (map snd (map_to_list (es_events st))).
Proof using All.
  intros Em. pose proof (tr_ok _ _ _ R _ _ Em) as [Hid HM Hv He]. apply NoDup_Permutation.
  - apply NoDup_ListNoDup, List.NoDup_filter, NoDup_ListNoDup.
    apply (NoDup_values _ ev_event_id). exact event_row_key.
  - apply NoDup_fmap_2; [intros ? ?; apply event_params_inj|].
    apply (NoDup_values _ oe_event_id). intros eid ev Hev. by apply He in Hev as [-> _].
  - intros r. rewrite filter_bool_elem, elem_of_values, bool_decide_eq_true, list_elem_of_fmap.
    setoid_rewrite elem_of_values. split.
    + intros [[k (id' & st' & eid & ev & Em' & Ev & -> & ->)%(tr_events _ _ _ R)] Er].
      exists ev. split; [done|]. exists eid.
      destruct (tr_ok _ _ _ R _ _ Em') as [Hid' _ _ He']. destruct (He' _ _ Ev) as [_ [Ee _ _ _ _]].
      change (ev_episode_id (event_params ev)) with (uuid_to_string (oe_episode_id ev)) in Er.
      apply uuid_to_string_inj in Er. congruence.
    + intros (ev & -> & eid & Ev). split; [exists (uuid_to_string eid); apply (tr_events _ _ _ R); eauto 10|].
      destruct (He _ _ Ev) as [_ [Ee _ _ _ _]]. cbn. by rewrite Ee, Hid.
Qed.

Lemma rep_list_outcomes t id :
  ∃ l, list_outcome_events_for_episode t id db = Ok l ∧
    l ≡ₚ match episode_of t id m with Some st => map snd (map_to_list (es_events st)) | None => [] end.
Proof using All.
  unfold list_outcome_events_for_episode. rewrite rep_select.
  destruct (episode_of t id m) as [st|] eqn:E; [|by exists []]. cbn [fmap option_fmap option_map compose].
  apply episode_of_Some in E as [Em _].
  assert (Hp : merge_sort by_event_time
    (scan (List.filter (λ o, bool_decide (ev_episode_id o = uuid_to_string id)) (map snd (map_to_list (ed_events db)))))
    ≡ₚ map event_params (map snd (map_to_list (es_events st)))) by by rewrite merge_sort_Permutation, scan_perm, rep_event_rows.
  apply Permutation_map_inv in Hp as (l & -> & Hp). exists l. split; [|done].
  apply mapM_ok. intros ev _. apply event_roundtrip.
Qed.
End queries.

(* ------------------------------------------------------------------ *)
(** ** Recording an episode *)

Lemma check_origins_ok db items :
  is_ok (try_fold (λ _ item, check_origin (ed_chunks db) item) items ()) = true ↔
  Forall (λ i, chunk_project (ed_chunks db) (ri_origin_tenant_id i) (ri_chunk_id i) =
               Some (ri_origin_project_id i)) items.
Proof.
  induction items as [|i items IH]; cbn [try_fold]; [done|]. rewrite Forall_cons, <- IH. clear IH.
  unfold check_origin at 2. destruct (chunk_project _ _ _) as [p|]; cbn; [|naive_solver].
  case_bool_decide; naive_solver.
Qed.

(** The rows of the items that are in so far. *)
Definition only_rows (ep : string) (done : list RetrievalEpisodeItem) (db : EpisodeDb) : Prop :=
  ∀ k r, ed_items db !! k = Some r → ir_episode_id r = ep → ∃ i, i ∈ done ∧ r = item_params i.

Lemma insert_items_fresh ep items : ∀ done db,
  Forall (λ i, uuid_to_string (ri_episode_id i) = ep) (done ++ items) →
  Forall item_fits (done ++ items) →
  NoDup (map ri_chunk_id (done ++ items)) → NoDup (map ri_original_rank (done ++ items)) →
  only_rows ep done db → (∀ k r, ed_items db !! k = Some r → (ir_episode_id r, ir_chunk_id r) = k) →
  ∃ db', try_fold (λ db item, insert_item_row db (item_params item)) items db = Ok db' ∧
    ed_chunks db' = ed_chunks db ∧ ed_episodes db' = ed_episodes db ∧ ed_events db' = ed_events db ∧
    ∀ k r, ed_items db' !! k = Some r ↔
      ed_items db !! k = Some r ∨ ∃ i, i ∈ items ∧ k = (ep, uuid_to_string (ri_chunk_id i)) ∧ r = item_params i.
Proof.
  induction items as [|i items IH]; intros dn db He Hfit Hc Hr Ho Hk; cbn [try_fold].
  { exists db. split_and!; [done..|]. intros k r. split; [by left|]. intros [?|(? & ?%elem_of_nil & _)]; done. }
  assert (Ei : uuid_to_string (ri_episode_id i) = ep)
    by (eapply (proj1 (Forall_forall _ _) He); set_solver).
  assert (Hnone : ed_items db !! (ep, uuid_to_string (ri_chunk_id i)) = None).
  { destruct (ed_items db !! _) as [r|] eqn:E; [|done]. apply Hk in E as Ekey.
    destruct (Ho _ _ E) as (j & Hj & ->); [by injection Ekey|]. injection Ekey as _ Ej%uuid_to_string_inj.
    rewrite map_app in Hc. apply NoDup_app in Hc as (_ & Hc & _).
    destruct (Hc (ri_chunk_id i)); [apply list_elem_of_fmap; eauto|left]. }
  unfold insert_item_row at 2. change (ir_episode_id (item_params i)) with (uuid_to_string (ri_episode_id i)).
  change (ir_chunk_id (item_params i)) with (uuid_to_string (ri_chunk_id i)). rewrite Ei, Hnone.
  rewrite bool_decide_false by (by intros []). cbn [orb].
  destruct (existsb _ _) eqn:Ex.
  { apply existsb_exists in Ex as (r & Hin & [Er%bool_decide_eq_true Hrank%Z.eqb_eq]%andb_true_iff).
    apply list_elem_of_In, elem_of_values in Hin as [k Hin]. destruct (Ho _ _ Hin Er) as (j & Hj & ->).
    cbn in Hrank. rewrite Forall_forall in Hfit.
    apply as_i64_inj in Hrank; [|apply Hfit; set_solver..].
    rewrite map_app in Hr. apply NoDup_app in Hr as (_ & Hr & _).
    destruct (Hr (ri_original_rank i)); [apply list_elem_of_fmap; eauto|left]. }
  cbn [mbind result_bind].
  destruct (IH (dn ++ [i]) (with_items (<[(ep, uuid_to_string (ri_chunk_id i)) := item_params i]> (ed_items db)) db))
    as (db' & E & E1 & E2 & E3 & Hdb'); [by rewrite <- app_assoc..| | |].
  - intros k r. cbn. rewrite lookup_insert_Some. intros [[<- <-]|[_ Hkr]] Er; [set_solver|].
    destruct (Ho _ _ Hkr Er) as (j & ? & ->). set_solver.
  - intros k r. cbn. rewrite lookup_insert_Some. intros [[<- <-]|[_ Hkr]]; [by rewrite <- Ei|]. by apply Hk.
  - exists db'. split_and!; [done..|]. intros k r. rewrite Hdb'. cbn. rewrite lookup_insert_Some.
    setoid_rewrite elem_of_cons. split.
    + intros [[[<- <-]|[_ ?]]|(j & ? & ? & ?)]; [right; eauto 10|by left|right; eauto 10].
    + intros [Hkr|(j & [->|?] & -> & ->)]; [|left; by left|right; eauto 10].
      left. right. split; [|done]. intros <-. congruence.
Qed.

(** The tables after the inserts represent the state with the episode. *)
Lemma rep_recorded db origin m e items db' :
  table_rep db origin m → episode_fits e → Forall item_fits items →
  valid_episode e items → m !! re_episode_id e = None →
  ed_chunks db' = ed_chunks db →
  ed_episodes db' = <[uuid_to_string (re_episode_id e) := episode_params e]> (ed_episodes db) →
  ed_events db' = ed_events db →
  (∀ k r, ed_items db' !! k = Some r ↔ ed_items db !! k = Some r ∨
     ∃ i, i ∈ items ∧ k = (uuid_to_string (re_episode_id e), uuid_to_string (ri_chunk_id i)) ∧ r = item_params i) →
  Forall (λ i, origin (ri_origin_tenant_id i) (ri_chunk_id i) = Some (ri_origin_project_id i)) items →
  table_rep db' origin (effect (RecordEpisode e items) m).
Proof.
  intros R He Hi Hv Em Ec Ee Eev Hit Ho. set (id := re_episode_id e) in *.
  assert (Hne : ∀ id' (st : EpisodeState), m !! id' = Some st → id ≠ id') by (intros id' st ? <-; congruence).
  assert (Hmap := λ c i, items_map_Some items c i (ve_chunks _ _ Hv)).
  split.
  - by apply (effect_ok origin); [apply R|].
  - apply map_Forall_insert_2; [|apply R]. split; [done|]. intros c i Hc. cbn in Hc.
    apply Hmap in Hc as [Hc _]. by eapply (proj1 (Forall_forall _ _) Hi).
  - intros t c. rewrite Ec. apply R.
  - intros k r. rewrite Ee, lookup_insert_Some, (tr_episodes _ _ _ R). cbn [effect].
    setoid_rewrite lookup_insert_Some. split.
    + intros [[<- <-]|[_ (id' & st & Est & -> & ->)]]; [by eexists id, _; eauto|].
      exists id', st. eauto 10.
    + intros (id' & st & [[<- <-]|[Hn Est]] & -> & ->); [by left|]. right. split; [|eauto].
      intros E%uuid_to_string_inj. done.
  - intros k r. rewrite Hit, (tr_items _ _ _ R). cbn [effect]. setoid_rewrite lookup_insert_Some. split.
    + intros [(id' & st & c & i & Est & Ei & -> & ->)|(i & Hin & -> & ->)].
      * exists id', st, c, i. eauto 10.
      * eexists id, _, (ri_chunk_id i), i. split_and!; [by left| |done|done]. cbn. by apply Hmap.
    + intros (id' & st & c & i & [[<- <-]|[Hn Est]] & Ei & -> & ->); [|left; eauto 10].
      cbn in Ei. apply Hmap in Ei as [Hin <-]. right. eauto.
  - intros k r. rewrite Eev, (tr_events _ _ _ R). cbn [effect]. setoid_rewrite lookup_insert_Some. split.
    + intros (id' & st & eid & ev & Est & Eev' & -> & ->). exists id', st, eid, ev. eauto 10.
    + intros (id' & st & eid & ev & [[<- <-]|[Hn Est]] & Eev' & -> & ->); [done|eauto 10].
Qed.

Lemma rep_record db origin m e items :
  table_rep db origin m → episode_fits e → Forall item_fits items →
  (recordable origin m e items ∧ ∃ db', insert_retrieval_episode e items db = Ok db' ∧
     table_rep db' origin (effect (RecordEpisode e items) m)) ∨
  (¬ recordable origin m e items ∧ ∃ err, insert_retrieval_episode e items db = Err err).
Proof.
  intros R He Hi. unfold insert_retrieval_episode, recordable.
  destruct (validate_retrieval_episode e items) as [[]|err] eqn:Ev; cbn [mbind result_bind].
  2:{ right. split; [|eauto]. intros (Hv & _). apply validate_episode_ok in Hv. congruence. }
  apply validate_episode_ok in Ev.
  assert (Ho : is_ok (try_fold (λ _ item, check_origin (ed_chunks db) item) items ()) = true ↔
               Forall (λ i, origin (ri_origin_tenant_id i) (ri_chunk_id i) = Some (ri_origin_project_id i)) items).
  { rewrite check_origins_ok. apply Forall_iff. intros i. by rewrite (tr_origin _ _ _ R). }
  destruct (try_fold (λ _ item, check_origin _ item) items ()) as [[]|err]; cbn [mbind result_bind].
  2:{ right. split; [|eauto]. intros (_ & _ & Hor). by apply Ho in Hor. }
  pose proof (proj1 Ho eq_refl) as Hor. clear Ho.
  unfold insert_episode_row. change (er_episode_id (episode_params e)) with (uuid_to_string (re_episode_id e)).
  rewrite (rep_episode _ _ _ R).
  destruct (m !! re_episode_id e) as [st|] eqn:Em; cbn [fmap option_fmap option_map mbind result_bind].
  { right. split; [by intros (_ & ? & _)|eauto]. }
  left. split; [done|].
  destruct (insert_items_fresh (uuid_to_string (re_episode_id e)) items []
    (with_episodes (<[uuid_to_string (re_episode_id e) := episode_params e]> (ed_episodes db)) db))
    as (db' & E & E1 & E2 & E3 & Hdb').
  - eapply Forall_impl; [apply (ve_items _ _ Ev)|]. by intros i [-> _].
  - done.
  - apply Ev.
  - apply Ev.
  - intros k r Hk Er. exfalso. cbn in Hk. apply (item_row_key _ _ _ R) in Hk as Ek.
    apply (tr_items _ _ _ R) in Hk as (id & st & c & i & Em' & _ & -> & ->).
    injection Ek as Ek _. change (uuid_to_string (ri_episode_id i) = uuid_to_string (re_episode_id e)) in Er.
    rewrite Ek in Er. apply uuid_to_string_inj in Er. congruence.
  - cbn. apply (item_row_key _ _ _ R).
  - exists db'. split; [done|]. apply (rep_recorded db); done.
Qed.

(* ------------------------------------------------------------------ *)
(** ** Finalizing an episode *)

Definition serve_row (k : Z) (ids : list ChunkId) (c : ChunkId) (r : ItemRow) : ItemRow :=
  match rank_of ids c with Some n => row_set_served (Some (as_i64 (k + n))) 1 r | None => r end.

Lemma served_rows_other ep ids : ∀ k db key,
  (∀ c, c ∈ ids → key ≠ (ep, uuid_to_string c)) →
  ed_items (set_served_rows ep k ids db) !! key = ed_items db !! key.
Proof.
  induction ids as [|c ids IH]; intros k db key Hk; cbn [set_served_rows]; [done|].
  rewrite IH by (intros d Hd; apply Hk; by right). cbn [set_served_row ed_items with_items].
  apply lookup_alter_ne. intros E. apply (Hk c); [left|done].
Qed.

Lemma served_rows_lookup ep c ids : ∀ k db,
  NoDup ids →
  ed_items (set_served_rows ep k ids db) !! (ep, uuid_to_string c) =
  serve_row k ids c <$> ed_items db !! (ep, uuid_to_string c).
Proof.
  induction ids as [|d ids IH]; intros k db Hnd; cbn [set_served_rows].
  - symmetry. apply option_fmap_id.
  - apply NoDup_cons in Hnd as [Hd Hnd]. unfold serve_row. cbn [rank_of].
    destruct (decide (d = c)) as [->|Hne].
    + rewrite served_rows_other.
      2:{ intros d Hdin [= E%uuid_to_string_inj]. congruence. }
      rewrite bool_decide_true, Z.add_0_r by done. cbn [set_served_row ed_items with_items]. apply lookup_alter_eq.
    + rewrite IH by done. cbn [set_served_row ed_items with_items].
      rewrite lookup_alter_ne by (intros [= ?%uuid_to_string_inj]; done).
      rewrite bool_decide_false by done. unfold serve_row.
      destruct (rank_of ids c) as [n|]; cbn [fmap option_fmap option_map]; [|done].
      apply option_fmap_ext. intros r. do 3 f_equal. lia.
Qed.

Lemma served_rows_tables ep ids : ∀ k db,
  ed_chunks (set_served_rows ep k ids db) = ed_chunks db ∧
  ed_episodes (set_served_rows ep k ids db) = ed_episodes db ∧
  ed_events (set_served_rows ep k ids db) = ed_events db ∧
  ∀ key, ed_items db !! key = None → ed_items (set_served_rows ep k ids db) !! key = None.
Proof.
  induction ids as [|c ids IH]; intros k db; cbn [set_served_rows]; [done|].
  destruct (IH (k + 1) (set_served_row ep db (as_i64 k) (uuid_to_string c))) as (-> & -> & -> & Hn).
  split_and!; [done..|]. intros key E. apply Hn. cbn. by apply lookup_alter_None.
Qed.

(** The rows of the episode and of its items after the updates. *)
Definition finalized_db (t : TenantId) (id : RetrievalEpisodeId) (ids : list ChunkId) (db : EpisodeDb) : EpisodeDb :=
  set_served_rows (uuid_to_string id) 0 ids
    (clear_served (uuid_to_string id) (update_rendered_k t id (as_i64 (zlen ids)) db)).

Section finalize.
Context (db : EpisodeDb) (origin : Origin) (m : Model) (R : table_rep db origin m).
Context (t : TenantId) (id : RetrievalEpisodeId) (ids : list ChunkId) (st : EpisodeState).
Context (Est : episode_of t id m = Some st) (Hids : NoDup ids).

Lemma update_rendered_row :
  update_rendered_k t id (as_i64 (zlen ids)) db =
  with_episodes (<[uuid_to_string id := episode_params (set_rendered_k (zlen ids) (es_episode st))]> (ed_episodes db)) db.
Proof using UEL R Est. unfold update_rendered_k. by rewrite (rep_select _ _ _ R), Est. Qed.

Lemma finalized_items_None k : ed_items db !! k = None → ed_items (finalized_db t id ids db) !! k = None.
Proof using UEL R Est.
  intros E. unfold finalized_db. rewrite update_rendered_row. apply served_rows_tables.
  cbn [clear_served with_items with_episodes ed_items]. by rewrite lookup_fmap, E.
Qed.

Lemma finalized_items_other id' (c : ChunkId) :
  id ≠ id' →
  ed_items (finalized_db t id ids db) !! (uuid_to_string id', uuid_to_string c) =
  ed_items db !! (uuid_to_string id', uuid_to_string c).
Proof using UEL R Est.
  intros Hne. unfold finalized_db. rewrite served_rows_other by (intros ? ? [= ?%uuid_to_string_inj]; congruence).
  rewrite update_rendered_row. cbn [clear_served with_items with_episodes ed_items]. rewrite lookup_fmap.
  destruct (ed_items db !! _) as [r|] eqn:E; [|done]. cbn. f_equal. apply (item_row_key _ _ _ R) in E.
  injection E as E _. rewrite bool_decide_false; [done|]. rewrite E. by intros ?%uuid_to_string_inj.
Qed.

Lemma finalized_items_same c i :
  es_items st !! c = Some i →
  ed_items (finalized_db t id ids db) !! (uuid_to_string id, uuid_to_string c) = Some (item_params (project ids i)).
Proof using UL UEL R Est Hids.
  intros Ei. pose proof Est as [Em _]%episode_of_Some. destruct (tr_ok _ _ _ R _ _ Em) as [_ HM _ _].
  assert (Er : ed_items db !! (uuid_to_string id, uuid_to_string c) = Some (item_params i))
    by (apply (tr_items _ _ _ R); eauto 10).
  unfold finalized_db. rewrite served_rows_lookup by done. rewrite update_rendered_row.
  cbn [clear_served with_items with_episodes ed_items]. rewrite lookup_fmap, Er.
  cbn [fmap option_fmap option_map]. apply (item_row_key _ _ _ R) in Er. injection Er as Er _.
  rewrite bool_decide_true by done. f_equal. unfold serve_row, project.
  rewrite (HM _ _ Ei). destruct (rank_of ids c) as [n|] eqn:En; cbn.
  - rewrite bool_decide_true by (apply rank_of_elem; eauto). done.
  - rewrite bool_decide_false by (by apply rank_of_None). done.
Qed.

Lemma rep_finalized :
  finalizable m t id ids → table_rep (finalized_db t id ids db) origin (effect (FinalizeEpisode t id ids) m).
Proof using All.
  intros Hf. pose proof Est as [Em _]%episode_of_Some.
  pose proof (served_rows_tables (uuid_to_string id) ids 0
    (clear_served (uuid_to_string id) (update_rendered_k t id (as_i64 (zlen ids)) db))) as (Hc & He & Hev & _).
  fold (finalized_db t id ids db) in Hc, He, Hev. rewrite update_rendered_row in Hc, He, Hev. cbn in Hc, He, Hev.
  assert (Hrd : renderable (es_episode st) (items_list (es_items st)) ids)
    by (destruct Hf as (st' & E & ?); by assert (st' = st) as -> by congruence).
  destruct (tr_ok _ _ _ R _ _ Em) as [Hid HM Hv Hevs]. split.
  - apply (effect_ok origin); [apply R|done].
  - cbn [effect]. intros id' st' [(<- & st0 & E & ->)|[Hne E]]%lookup_alter_Some; [|by eapply (tr_fits _ _ _ R)].
    assert (st0 = st) as -> by congruence. destruct (tr_fits _ _ _ R _ _ Em) as [(? & ? & ? & ?) Hi]. split.
    + split_and!; [done..|]. apply Nat2Z.is_nonneg.
    + intros c i Hci. cbn in Hci. rewrite lookup_fmap in Hci. apply fmap_Some in Hci as (j & Hj & ->).
      destruct (Hi _ _ Hj) as (? & ? & ? & ?). split_and!; [done..| |done]. cbn. intros r Er.
      split; [by eapply rank_of_nonneg|]. apply rank_of_lt in Er. destruct Hrd as [Hk _].
      apply valid_small in Hv as [Hr _]. lia.
  - intros u c. rewrite Hc. apply R.
  - intros k r. rewrite He, lookup_insert_Some, (tr_episodes _ _ _ R). cbn [effect].
    setoid_rewrite lookup_alter_Some. split.
    + intros [[<- <-]|[Hn (id' & st' & E & -> & ->)]]; [exists id, (finalized ids st); eauto 10|].
      exists id', st'. split_and!; [|done..]. right. split; [|done]. by intros ->.
    + intros (id' & st' & [(<- & st0 & E & ->)|[Hn E]] & -> & ->); [left; by assert (st0 = st) as -> by congruence|].
      right. split; [by intros ?%uuid_to_string_inj|eauto].
  - intros k r. cbn [effect]. setoid_rewrite lookup_alter_Some. split.
    + intros Hk. destruct (ed_items db !! k) as [r0|] eqn:E0; [|by rewrite finalized_items_None in Hk].
      apply (tr_items _ _ _ R) in E0 as Er. destruct Er as (id' & st' & c & i & Em' & Ei & -> & ->).
      destruct (decide (id = id')) as [<-|Hne].
      * assert (st' = st) as -> by congruence. rewrite (finalized_items_same _ _ Ei) in Hk. injection Hk as <-.
        exists id, (finalized ids st), c, (project ids i). split_and!; [eauto| |done..].
        cbn. by rewrite lookup_fmap, Ei.
      * rewrite finalized_items_other, E0 in Hk by done. injection Hk as <-.
        exists id', st', c, i. split_and!; [|done..]. by right.
    + intros (id' & st' & c & i & [(<- & st0 & E & ->)|[Hn E]] & Ei & -> & ->).
      * assert (st0 = st) as -> by congruence. cbn in Ei. rewrite lookup_fmap in Ei. apply fmap_Some in Ei as (j & Ej & ->).
        by apply finalized_items_same.
      * rewrite finalized_items_other by done. apply (tr_items _ _ _ R). eauto 10.
  - intros k r. rewrite Hev, (tr_events _ _ _ R). cbn [effect]. setoid_rewrite lookup_alter_Some. split.
    + intros (id' & st' & eid & ev & E & Ee & -> & ->). destruct (decide (id = id')) as [<-|Hne].
      * assert (st' = st) as -> by congruence. exists id, (finalized ids st), eid, ev. eauto 10.
      * exists id', st', eid, ev. eauto 10.
    + intros (id' & st' & eid & ev & [(<- & st0 & E & ->)|[Hn E]] & Ee & -> & ->); eauto 10.
Qed.
End finalize.

Lemma renderable_perm e items items' ids :
  items ≡ₚ items' → renderable e items ids → renderable e items' ids.
Proof. intros Hp (? & ? & Hin). split_and!; [done..|]. intros c Hc. rewrite <- Hp. by apply Hin. Qed.

Lemma rep_require db origin m t id :
  table_rep db origin m →
  (∃ st items, episode_of t id m = Some st ∧ items ≡ₚ items_list (es_items st) ∧
     require_episode t id db = Ok (es_episode st) ∧ query_retrieval_episode_items id db = Ok items) ∨
  (episode_of t id m = None ∧ ∃ err, require_episode t id db = Err err).
Proof using All.
  intros R. unfold require_episode. rewrite (rep_query_episode _ _ _ R).
  destruct (episode_of t id m) as [st|] eqn:Est; cbn [fmap option_fmap option_map mbind result_bind ok_or]; [|right; eauto].
  left. pose proof Est as [Em _]%episode_of_Some.
  destruct (rep_query_items _ _ _ R _ _ Em) as (items & -> & Hp). eauto 10.
Qed.

Lemma rep_finalize db origin m t id ids :
  table_rep db origin m →
  (finalizable m t id ids ∧ ∃ db', finalize_retrieval_episode t id ids db = Some (Ok db') ∧
     table_rep db' origin (effect (FinalizeEpisode t id ids) m)) ∨
  (¬ finalizable m t id ids ∧ ∃ err, finalize_retrieval_episode t id ids db = Some (Err err)).
Proof using All.
  intros R. unfold finalize_retrieval_episode.
  destruct (rep_require _ _ _ t id R) as [(st & items & Est & Hp & -> & ->)|(En & err & ->)];
    cbn [mbind result_bind].
  2:{ right. split; [|eauto]. intros (st & E & _). congruence. }
  pose proof Est as [Em _]%episode_of_Some. destruct (tr_ok _ _ _ R _ _ Em) as [_ _ Hv _].
  destruct (apply_rendered_exact (es_episode st) items ids) as [[Hr ->]|(Hr & err & ->)];
    [eapply valid_episode_perm; [symmetry|]; done| |]; cbn [mbind option_bind result_bind].
  - left. assert (Hf : finalizable m t id ids) by (exists st; split; [done|]; by eapply renderable_perm).
    split; [done|]. eexists. split; [done|].
    change (re_rendered_k (set_rendered_k (zlen ids) (es_episode st))) with (zlen ids).
    apply (rep_finalized _ _ _ R t id ids st Est); [apply Hr|done].
  - right. split; [|eauto]. intros (st' & E & Hr'). apply Hr. simplify_eq.
    eapply renderable_perm; [symmetry|]; done.
Qed.

(* ------------------------------------------------------------------ *)
(** ** Recording an outcome *)

Lemma rep_event_free db origin m id st ev :
  table_rep db origin m → m !! id = Some st → oe_episode_id ev = id →
  cmd_fits m (RecordOutcome (re_tenant_id (es_episode st)) ev) →
  ed_events db !! uuid_to_string (oe_event_id ev) = None ↔ es_events st !! oe_event_id ev = None.
Proof using All.
  intros R Em Eid Hf. split; intros Hq; apply eq_None_not_Some; intros [x Hx].
  - assert (ed_events db !! uuid_to_string (oe_event_id ev) = Some (event_params x))
      by (apply (tr_events _ _ _ R); eauto 10). congruence.
  - apply (tr_events _ _ _ R) in Hx as (id' & st' & eid & ev' & Em' & Ev' & Ek%uuid_to_string_inj & ->).
    subst eid. destruct (decide (id' = id)) as [->|Hne]; [by simplify_eq; congruence|].
    specialize (Hf id' st' Em' ltac:(congruence)). congruence.
Qed.

Lemma rep_attributed db origin m t ev :
  table_rep db origin m → attributable m t ev →
  ed_events db !! uuid_to_string (oe_event_id ev) = None →
  table_rep (with_events (<[uuid_to_string (oe_event_id ev) := event_params ev]> (ed_events db)) db)
    origin (effect (RecordOutcome t ev) m).
Proof using All.
  intros R Ha Hn. pose proof Ha as (st & Em & Hfree & Hv).
  set (id := oe_episode_id ev) in *. split.
  - by apply (effect_ok origin); [apply R|].
  - cbn [effect]. intros id' st' [(<- & st0 & E & ->)|[Hne E]]%lookup_alter_Some; by apply (tr_fits _ _ _ R _ _ E).
  - apply R.
  - intros k r. cbn [with_events ed_episodes effect]. rewrite (tr_episodes _ _ _ R). setoid_rewrite lookup_alter_Some.
    split.
    + intros (id' & st' & E & -> & ->). destruct (decide (id = id')) as [<-|Hne].
      * exists id, (attributed_to ev st'). eauto 10.
      * exists id', st'. eauto 10.
    + intros (id' & st' & [(<- & st0 & E & ->)|[Hne E]] & -> & ->); eauto 10.
  - intros k r. cbn [with_events ed_items effect]. rewrite (tr_items _ _ _ R). setoid_rewrite lookup_alter_Some.
    split.
    + intros (id' & st' & c & i & E & Ei & -> & ->). destruct (decide (id = id')) as [<-|Hne].
      * exists id, (attributed_to ev st'), c, i. eauto 10.
      * exists id', st', c, i. eauto 10.
    + intros (id' & st' & c & i & [(<- & st0 & E & ->)|[Hne E]] & Ei & -> & ->); eauto 10.
  - intros k r. cbn [with_events ed_events effect]. rewrite lookup_insert_Some, (tr_events _ _ _ R).
    setoid_rewrite lookup_alter_Some. split.
    + intros [[<- <-]|[Hk (id' & st' & eid & ev' & E & Ee & -> & ->)]].
      * exists id, (attributed_to ev st), (oe_event_id ev), ev.
        split_and!; [eauto 10| |done..]. cbn. apply lookup_insert_eq.
      * destruct (decide (id = id')) as [<-|Hne]; [|exists id', st', eid, ev'; eauto 10].
        exists id, (attributed_to ev st'), eid, ev'. split_and!; [eauto 10| |done..].
        cbn. rewrite lookup_insert_ne; [done|]. intros E'. apply Hk. by rewrite E'.
    + intros (id' & st' & eid & ev' & [(<- & st0 & E & ->)|[Hne E]] & Ee & -> & ->).
      * cbn in Ee. apply lookup_insert_Some in Ee as [[<- <-]|[Hne Ee]]; [by left|].
        right. split; [by intros ?%uuid_to_string_inj|eauto 10].
      * right. split; [|eauto 10]. intros Ek%uuid_to_string_inj. subst eid.
        assert (ed_events db !! uuid_to_string (oe_event_id ev) = Some (event_params ev'))
          by (apply (tr_events _ _ _ R); eauto 10). congruence.
Qed.

Lemma rep_outcome db origin m t ev :
  table_rep db origin m → cmd_fits m (RecordOutcome t ev) →
  (attributable m t ev ∧ ∃ db', insert_outcome_event t ev db = Ok db' ∧
     table_rep db' origin (effect (RecordOutcome t ev) m)) ∨
  (¬ attributable m t ev ∧ ∃ err, insert_outcome_event t ev db = Err err).
Proof using All.
  intros R Hf. unfold insert_outcome_event.
  destruct (rep_require _ _ _ t (oe_episode_id ev) R) as [(st & items & Est & Hp & -> & ->)|(En & err & ->)];
    cbn [mbind result_bind].
  2:{ right. split; [|eauto]. intros (st & Em & _ & [Ht _ _ _ _ _ _ _ _ _]).
      assert (episode_of t (oe_episode_id ev) m = Some st) by (by apply episode_of_Some). congruence. }
  pose proof Est as [Em _]%episode_of_Some.
  destruct (validate_outcome_event t (es_episode st) items ev) as [[]|err] eqn:Ev; cbn [mbind result_bind].
  2:{ right. split; [|eauto]. intros (st' & Em' & _ & Hv). simplify_eq.
      apply (valid_outcome_perm _ _ _ items) in Hv; [|done]. apply validate_outcome_ok in Hv. congruence. }
  apply validate_outcome_ok in Ev. apply (valid_outcome_perm _ _ _ _ _ Hp) in Ev.
  unfold insert_event_row. change (ev_event_id (event_params ev)) with (uuid_to_string (oe_event_id ev)).
  pose proof (rep_event_free _ _ _ _ _ ev R Em eq_refl Hf) as Hfree.
  destruct (ed_events db !! _) as [r|] eqn:Er.
  - right. split; [|eauto]. intros (st' & Em' & Hn & _). simplify_eq. by apply Hfree in Hn.
  - left. assert (Ha : attributable m t ev) by (exists st; split_and!; [done|by apply Hfree|done]).
    split; [done|]. eexists. split; [done|]. by apply rep_attributed.
Qed.

(* ------------------------------------------------------------------ *)
(** ** Priors *)

#[local] Instance by_event_time_trans : Transitive by_event_time.
Proof.
  intros a b c [?|[? ?]] [?|[? ?]]; [left; lia|left; lia|left; lia|right].
  split; [lia|]. by transitivity (ev_event_id b).
Qed.
#[local] Instance by_event_time_total : Total by_event_time.
Proof.
  intros a b. unfold by_event_time.
  destruct (Z.lt_total (ev_timestamp_ms a) (ev_timestamp_ms b)) as [?|[?|?]]; [by left; left| |by right; left].
  destruct (total String.le (ev_event_id a) (ev_event_id b)); [left|right]; by right.
Qed.
#[local] Instance newest_event_first_trans : Transitive newest_event_first.
Proof. intros a b c ? ?. unfold newest_event_first in *. by transitivity b.1. Qed.
#[local] Instance newest_event_first_total : Total newest_event_first.
Proof. intros a b. unfold newest_event_first. destruct (total by_event_time a.1 b.1); auto. Qed.
#[local] Instance by_chunk_text_trans : Transitive by_chunk_text.
Proof. intros a b c ? ?. unfold by_chunk_text in *. by etrans. Qed.
#[local] Instance by_chunk_text_total : Total by_chunk_text.
Proof. intros a b. unfold by_chunk_text. apply (total String.le). Qed.

Section priors.
Context (db : EpisodeDb) (origin : Origin) (m : Model) (R : table_rep db origin m).
Context (t : TenantId) (project : option string) (now : Z) (ids : list ChunkId).

Definition scoped_row (row : EventRow * ItemRow) (id : RetrievalEpisodeId) (st : EpisodeState)
    (ev : OutcomeEvent) (it : RetrievalEpisodeItem) : Prop :=
  row = (event_params ev, item_params it) ∧ episode_of t id m = Some st ∧
  re_project_id (es_episode st) = project ∧ es_events st !! oe_event_id ev = Some ev ∧
  es_items st !! ri_chunk_id it = Some it ∧ oe_ranking_eligible ev = true ∧ oe_timestamp_ms ev ≤ now.

Lemma rep_in_scope id st ev :
  m !! id = Some st → es_events st !! oe_event_id ev = Some ev →
  in_scope t project now db (event_params ev) = true ↔
  re_tenant_id (es_episode st) = t ∧ re_project_id (es_episode st) = project ∧
  oe_ranking_eligible ev = true ∧ oe_timestamp_ms ev ≤ now.
Proof using UEL R.
  intros Em Ee. unfold in_scope. destruct (tr_ok _ _ _ R _ _ Em) as [Hid _ _ He].
  destruct (He _ _ Ee) as [_ [Eid _ _ _ _]].
  change (ev_episode_id (event_params ev)) with (uuid_to_string (oe_episode_id ev)).
  rewrite Eid, Hid, (rep_episode _ _ _ R), Em. cbn [fmap option_fmap option_map compose].
  rewrite !andb_true_iff, Z.eqb_eq, Z.leb_le, !bool_decide_eq_true.
  change (er_tenant_id (episode_params (es_episode st))) with (TenantId.as_str (re_tenant_id (es_episode st))).
  rewrite tenant_text_inj. cbn [ev_ranking_eligible event_params ev_timestamp_ms er_project_id episode_params].
  destruct (oe_ranking_eligible ev); cbn; naive_solver.
Qed.

Lemma prior_rows_iff row :
  row ∈ prior_rows t project now db ↔ ∃ id st ev it, scoped_row row id st ev it.
Proof using All.
  unfold prior_rows. rewrite list_elem_of_In, in_flat_map. setoid_rewrite <- list_elem_of_In.
  setoid_rewrite filter_bool_elem. setoid_rewrite elem_of_values. setoid_rewrite list_elem_of_fmap.
  setoid_rewrite filter_bool_elem. setoid_rewrite elem_of_values. setoid_rewrite bool_decide_eq_true. split.
  - intros (o & [[k (id & st & eid & ev & Em & Ee & -> & ->)%(tr_events _ _ _ R)] Hs] & i & -> & [k' Hk] & Ei).
    destruct (so_events _ _ (tr_ok _ _ _ R _ _ Em) _ _ Ee) as [<- [Eid _ _ _ _]].
    apply (rep_in_scope id st) in Hs as (Ht & Hp & Hel & Hle); [|done..].
    apply (item_row_key _ _ _ R) in Hk as Ek.
    apply (tr_items _ _ _ R) in Hk as (id' & st' & c & it & Em' & Eit & -> & ->).
    injection Ek as Ek _. change (uuid_to_string (ri_episode_id it) = uuid_to_string (oe_episode_id ev)) in Ei.
    rewrite Ek, Eid, (so_id _ _ (tr_ok _ _ _ R _ _ Em)) in Ei. apply uuid_to_string_inj in Ei as ->.
    assert (st' = st) as -> by congruence.
    exists id, st, ev, it. split_and!; [done|by apply episode_of_Some|done|done| |done|done].
    by rewrite (so_keyed _ _ (tr_ok _ _ _ R _ _ Em) _ _ Eit).
  - intros (id & st & ev & it & -> & [Em Ht]%episode_of_Some & Hp & Ee & Eit & Hel & Hle).
    destruct (so_events _ _ (tr_ok _ _ _ R _ _ Em) _ _ Ee) as [_ [Eid _ _ _ _]].
    exists (event_params ev). split; [split; [|by apply (rep_in_scope id st)]|exists (item_params it)].
    + exists (uuid_to_string (oe_event_id ev)). apply (tr_events _ _ _ R). eauto 10.
    + assert (Hk : ed_items db !! (uuid_to_string id, uuid_to_string (ri_chunk_id it)) = Some (item_params it))
        by (apply (tr_items _ _ _ R); eauto 10).
      split_and!; [done|eauto|]. apply (item_row_key _ _ _ R) in Hk. injection Hk as Hk.
      change (uuid_to_string (ri_episode_id it) = uuid_to_string (oe_episode_id ev)).
      by rewrite Hk, Eid, (so_id _ _ (tr_ok _ _ _ R _ _ Em)).
Qed.

(** The vote a row may be. *)
Definition vote_of (row : EventRow * ItemRow) : option (RetrievalEpisodeId * ChunkId * OutcomeEvent) :=
  match row_to_outcome_event row.1, row_to_retrieval_episode_item row.2 with
  | Ok ev, Ok it =>
      if bool_decide (ri_chunk_id it ∈ ids) && contributes_to_ranking ev &&
         bool_decide (ri_chunk_id it ∈ attribution ev)
      then Some (oe_episode_id ev, ri_chunk_id it, ev) else None
  | _, _ => None
  end.

Definition seen_rep (seen : gset (string * ChunkId)) (s : gset (RetrievalEpisodeId * ChunkId)) : Prop :=
  ∀ id c, (uuid_to_string id, c) ∈ seen ↔ (id, c) ∈ s.

Lemma prior_step_vote row id st ev it p seen s :
  scoped_row row id st ev it → seen_rep seen s →
  ∃ seen', prior_step (list_to_set ids) now (p, seen) row =
             Ok (match vote_of row with Some v => (tally_step now (p, s) v).1 | None => p end, seen') ∧
           seen_rep seen' (match vote_of row with Some v => (tally_step now (p, s) v).2 | None => s end).
Proof using UL UEL UOL JTL R.
  intros (-> & [Em _]%episode_of_Some & _ & Ee & Eit & Hel & _) Hseen.
  assert (Hfit : item_fits it) by (by eapply (proj2 (tr_fits _ _ _ R _ _ Em))).
  unfold vote_of. cbn [fst snd]. rewrite event_roundtrip, item_roundtrip by done.
  unfold prior_step, contributes_to_ranking. rewrite Hel. cbn [andb].
  change (ir_chunk_id (item_params it)) with (uuid_to_string (ri_chunk_id it)).
  unfold chunk_id_parse. rewrite uuid_roundtrip. cbn [ok_or].
  rewrite (bool_decide_ext _ _ (elem_of_list_to_set _ _)).
  destruct (bool_decide (ri_chunk_id it ∈ ids)); cbn [negb andb]; [|by exists seen].
  change (ev_outcome (event_params ev)) with (OutcomeKind_as_str (oe_outcome ev)).
  change (ev_verifier_type (event_params ev)) with (OutcomeVerifier_as_str (oe_verifier ev)).
  change (ev_evidence_reference (event_params ev)) with (oe_evidence_reference ev).
  replace (OutcomeKind_parse _) with (Ok (oe_outcome ev) : memd_result OutcomeKind) by by destruct (oe_outcome ev).
  replace (OutcomeVerifier_parse _) with (Ok (oe_verifier ev) : memd_result OutcomeVerifier)
    by by destruct (oe_verifier ev).
  cbn [mbind result_bind].
  destruct (is_legacy_codex_scanner_outcome _ _ _); cbn [negb andb]; [by exists seen|].
  unfold attribution.
  change (ev_used_chunk_ids_json (event_params ev)) with (chunk_ids_json (oe_used_chunk_ids ev)).
  change (ev_harmful_chunk_ids_json (event_params ev)) with (chunk_ids_json (oe_harmful_chunk_ids ev)).
  change (ev_timestamp_ms (event_params ev)) with (oe_timestamp_ms ev).
  change (ev_episode_id (event_params ev)) with (uuid_to_string (oe_episode_id ev)).
  destruct (credits_used (oe_outcome ev)) eqn:Eu, (credits_harmful (oe_outcome ev)) eqn:Eh; cbn [negb andb];
    rewrite ?parse_chunk_ids_ok; cbn [mbind result_bind snd fst];
    try (rewrite (bool_decide_false (ri_chunk_id it ∈ [])) by apply not_elem_of_nil; by exists seen);
    (case_bool_decide as Hin; cbn [negb orb]; [|by exists seen]);
    unfold tally_step; cbn [fst snd]; rewrite (bool_decide_ext _ _ (Hseen _ _));
    (destruct (bool_decide ((oe_episode_id ev, ri_chunk_id it) ∈ s)); cbn [fst snd]; [by exists seen|]);
    unfold add_vote; rewrite ?Eu; (eexists; split; [done|]);
    intros id' c'; rewrite !elem_of_union, !elem_of_singleton, (Hseen id' c'), !pair_equal_spec;
    (split; [intros [[?%uuid_to_string_inj ?]|?]|intros [[-> ->]|?]]); naive_solver.
Qed.

Lemma prior_fold rows : ∀ p seen s,
  (∀ row, row ∈ rows → ∃ id st ev it, scoped_row row id st ev it) → seen_rep seen s →
  ∃ seen', try_fold (prior_step (list_to_set ids) now) rows (p, seen) =
             Ok ((foldl (tally_step now) (p, s) (omap vote_of rows)).1, seen').
Proof using UL UEL UOL JTL R.
  induction rows as [|row rows IH]; intros p seen s Hrows Hseen; cbn [try_fold omap list_omap].
  { by exists seen. }
  destruct (Hrows row) as (id & st & ev & it & Hrow); [by left|].
  destruct (prior_step_vote row id st ev it p seen s Hrow Hseen) as (seen' & -> & Hseen').
  cbn [mbind result_bind].
  destruct (vote_of row) as [v|]; cbn [foldl].
  - destruct (tally_step now (p, s) v) as [p' s']. apply IH; [|done]. intros row' ?. apply Hrows. by right.
  - apply IH; [|done]. intros row' ?. apply Hrows. by right.
Qed.

Lemma vote_of_time row id c ev :
  vote_of row = Some (id, c, ev) → oe_timestamp_ms ev = ev_timestamp_ms row.1.
Proof.
  unfold vote_of. destruct (row_to_outcome_event row.1) as [ev'|] eqn:Eo; [|done].
  destruct (row_to_retrieval_episode_item row.2); [|done]. destruct (_ && _ && _); [|done]. intros [= <- <- <-].
  unfold row_to_outcome_event in Eo.
  repeat match type of Eo with
  | (match ?b with Ok _ => _ | Err _ => _ end) = _ => destruct b; [|done]
  | mbind _ ?b = _ => destruct b; [|done]; cbn [mbind result_bind] in Eo
  end. by injection Eo as <-.
Qed.

Lemma vote_of_iff (rows : list (EventRow * ItemRow)) id c ev :
  (∀ row, row ∈ rows ↔ ∃ id st ev it, scoped_row row id st ev it) →
  (id, c, ev) ∈ omap vote_of rows ↔ c ∈ ids ∧ may_vote m t project now c id ev.
Proof using UL UEL UOL JTL R.
  intros Hrows. rewrite list_elem_of_omap. split.
  - intros (row & Hrow & Ev). apply Hrows in Hrow as (id' & st & ev' & it & -> & Est & Hp & Ee & Eit & Hel & Hle).
    pose proof Est as [Em _]%episode_of_Some.
    unfold vote_of in Ev. cbn [fst snd] in Ev. rewrite event_roundtrip, item_roundtrip in Ev
      by (by eapply (proj2 (tr_fits _ _ _ R _ _ Em))).
    destruct (_ && _ && _) eqn:Eb; [|done]. apply andb_true_iff in Eb as [[Eb1 Eb2]%andb_true_iff Eb3].
    apply bool_decide_eq_true in Eb1, Eb3. injection Ev as <- <- <-. split; [done|].
    destruct (so_events _ _ (tr_ok _ _ _ R _ _ Em) _ _ Ee) as [_ [Eid _ _ _ _]].
    rewrite Eid, (so_id _ _ (tr_ok _ _ _ R _ _ Em)). exists st. done.
  - intros (Hc & st & Est & Hp & Ee & Hle & Hctr & Hat). pose proof Est as [Em _]%episode_of_Some.
    destruct (so_events _ _ (tr_ok _ _ _ R _ _ Em) _ _ Ee) as [_ [Eid _ _ Hcand _]].
    assert (is_Some (es_items st !! c)) as [it Eit].
    { apply Hcand. unfold attribution in Hat. rewrite elem_of_app.
      destruct (credits_used _); [by left|]. destruct (credits_harmful _); [by right|by apply elem_of_nil in Hat]. }
    pose proof (so_keyed _ _ (tr_ok _ _ _ R _ _ Em) _ _ Eit) as <-.
    exists (event_params ev, item_params it). split.
    + apply Hrows. exists id, st, ev, it. split_and!; try done.
      unfold contributes_to_ranking in Hctr. by apply andb_true_iff in Hctr as [? _].
    + unfold vote_of. cbn [fst snd]. rewrite event_roundtrip, item_roundtrip by (by eapply (proj2 (tr_fits _ _ _ R _ _ Em))).
      rewrite !bool_decide_true, Hctr by done. by rewrite Eid, (so_id _ _ (tr_ok _ _ _ R _ _ Em)).
Qed.

Lemma rep_priors : ∃ l, outcome_priors t project ids now db = Ok l ∧ priors_of m t project ids now l.
Proof using All.
  unfold outcome_priors. case_bool_decide as Ereq.
  { exists []. split; [done|]. assert (ids = []) as -> by (destruct ids; [done|set_solver]).
    split; [constructor|constructor|by intros ? ?%elem_of_nil|by intros ? ? ? ?%elem_of_nil]. }
  set (rows := merge_sort _ _).
  assert (Hrows : ∀ row, row ∈ rows ↔ ∃ id st ev it, scoped_row row id st ev it).
  { intros row. unfold rows. rewrite merge_sort_Permutation, scan_perm. apply prior_rows_iff. }
  destruct (prior_fold rows ∅ ∅ ∅) as (seen & ->); [intros row ?; by apply Hrows|intros ? ?; set_solver|].
  cbn [mbind result_bind fst]. eexists. split; [done|].
  apply (tally_priors_of now m t project ids (omap vote_of rows)).
  - apply (StronglySorted_omap newest_event_first).
    + intros x y [[i1 c1] e1] [[i2 c2] e2] Hxy Ex Ey _. cbn [snd].
      rewrite (vote_of_time _ _ _ _ Ex), (vote_of_time _ _ _ _ Ey). destruct Hxy as [?|[? _]]; lia.
    + unfold rows. apply StronglySorted_merge_sort; apply _.
  - intros id c ev. by apply vote_of_iff.
  - unfold sorted_priors. apply StronglySorted_merge_sort; apply _.
  - unfold sorted_priors. by rewrite merge_sort_Permutation, hash_iter_perm.
Qed.
End priors.

(* ------------------------------------------------------------------ *)
(** ** The instance *)

#[export] Instance persistent_episodes : EpisodeStore PersistentEpisodes := {
  st_record_retrieval_episode := persistent_record_retrieval_episode;
  st_get_retrieval_episode t id s := get_retrieval_episode t id (pe_db s);
  st_finalize_retrieval_episode := persistent_finalize_retrieval_episode;
  st_record_outcome := persistent_record_outcome;
  st_list_outcomes_for_episode t id s := list_outcome_events_for_episode t id (pe_db s);
  st_outcome_priors t project ids now s := outcome_priors t project ids now (pe_db s);
}.

(** A writable store whose tables represent the abstract state. *)
Definition persistent_represents (s : PersistentEpisodes) (origin : Origin) (m : Model) : Prop :=
  pe_read_only s = false ∧ table_rep (pe_db s) origin m.

Lemma persistent_simulates (s : PersistentEpisodes) origin m cmd :
  persistent_represents s origin m → cmd_fits m cmd →
  ∃ a s' m', exec cmd s = Some (a, s') ∧ answers origin m cmd a ∧ step origin m cmd m' ∧
    persistent_represents s' origin m'.
Proof using All.
  destruct s as [ro db]. intros [Hro R] Hf. cbn [pe_read_only pe_db] in *. subst ro.
  assert (Hq : ∀ a, answers origin m cmd a → ¬ allowed origin m cmd →
    exec cmd (mkPersistentEpisodes false db) = Some (a, mkPersistentEpisodes false db) →
    ∃ a s' m', exec cmd (mkPersistentEpisodes false db) = Some (a, s') ∧ answers origin m cmd a ∧
      step origin m cmd m' ∧ persistent_represents s' origin m').
  { intros a Ha Hn He. exists a, (mkPersistentEpisodes false db), m. split_and!; [done|done|by apply step_refused|done]. }
  assert (Hd : ∀ db', allowed origin m cmd → answers origin m cmd (Done true) →
    exec cmd (mkPersistentEpisodes false db) = Some (Done true, mkPersistentEpisodes false db') →
    table_rep db' origin (effect cmd m) →
    ∃ a s' m', exec cmd (mkPersistentEpisodes false db) = Some (a, s') ∧ answers origin m cmd a ∧
      step origin m cmd m' ∧ persistent_represents s' origin m').
  { intros db' Ha Hans He R'. exists (Done true), (mkPersistentEpisodes false db'), (effect cmd m).
    split_and!; [done|done|by apply step_done|done]. }
  destruct cmd as [e items|t id|t id ids|t ev|t id|t project ids now].
  - destruct Hf as [He Hi]. destruct (rep_record _ _ _ _ _ R He Hi) as [(Ha & db' & E & R')|(Ha & err & E)].
    + apply (Hd db'); [done|done| |done]. cbn. unfold persistent_record_retrieval_episode. cbn. by rewrite E.
    + apply (Hq (Done false)); [by split|done|]. cbn. unfold persistent_record_retrieval_episode. cbn. by rewrite E.
  - destruct (rep_query_episode _ _ _ R t id) as [].
    assert (∃ o, get_retrieval_episode t id db = Ok o ∧ answers origin m (GetEpisode t id) (AnEpisode o)) as (o & E & Ho).
    { unfold get_retrieval_episode. rewrite (rep_query_episode _ _ _ R). cbn [mbind result_bind answers].
      destruct (episode_of t id m) as [st|] eqn:Est; cbn [fmap option_fmap option_map]; [|by exists None].
      pose proof Est as [Em _]%episode_of_Some. destruct (rep_query_items _ _ _ R _ _ Em) as (items & -> & Hp).
      by exists (Some (es_episode st, items)). }
    apply (Hq (AnEpisode o)); [done|by intros []|]. cbn. by rewrite E.
  - destruct (rep_finalize _ _ _ t id ids R) as [(Ha & db' & E & R')|(Ha & err & E)].
    + apply (Hd db'); [done|done| |done]. cbn. unfold persistent_finalize_retrieval_episode. cbn. by rewrite E.
    + apply (Hq (Done false)); [by split|done|]. cbn. unfold persistent_finalize_retrieval_episode. cbn. by rewrite E.
  - destruct (rep_outcome _ _ _ t ev R Hf) as [(Ha & db' & E & R')|(Ha & err & E)].
    + apply (Hd db'); [done|done| |done]. cbn. unfold persistent_record_outcome. cbn. by rewrite E.
    + apply (Hq (Done false)); [by split|done|]. cbn. unfold persistent_record_outcome. cbn. by rewrite E.
  - destruct (rep_list_outcomes _ _ _ R t id) as (l & E & Hl).
    apply (Hq (TheOutcomes l)); [done|by intros []|]. cbn. by rewrite E.
  - destruct (rep_priors _ _ _ R t project now ids) as (l & E & Hl).
    apply (Hq (ThePriors l)); [done|by intros []|]. cbn. by rewrite E.
Qed.

#[export] Instance persistent_episodes_laws : EpisodeStoreLaws PersistentEpisodes := {
  represents := persistent_represents;
  simulates := persistent_simulates;
}.
End facts.
