(* ===== verification/MemoryStore.v ===== *)
(** * The in-memory store (src/crates/memd/src/store/memory.rs)

    [MemoryStore] keeps every tenant's chunks, feedback, retrieval episodes
    and outcomes in maps keyed by the text of the ids.  A method is a
    function on the maps; the locks are taken for whole methods.  New chunk
    ids and the clock are arguments, a panic is [None].  The task artifacts
    of the store are not modelled. *)

From S2P Require Import Prelude Crates Types Str Sentence Chunking Ranking Fusion Outcome.

Open Scope Z_scope.

Record MemoryStore : Type := mkMemory {
  ms_chunks : gmap string (gmap string MemoryChunk);
  ms_feedback : gmap string (list FeedbackEntry);
  ms_retrieval_episodes : gmap string (RetrievalEpisode * list RetrievalEpisodeItem);
  ms_outcome_events : gmap string (list OutcomeEvent);
}.

(** [MemoryStore::new] *)
Definition memory_new : MemoryStore := mkMemory ∅ ∅ ∅ ∅.

Definition with_ms_chunks (m : gmap string (gmap string MemoryChunk)) (s : MemoryStore) : MemoryStore :=
  mkMemory m (ms_feedback s) (ms_retrieval_episodes s) (ms_outcome_events s).
Definition with_ms_feedback (m : gmap string (list FeedbackEntry)) (s : MemoryStore) : MemoryStore :=
  mkMemory (ms_chunks s) m (ms_retrieval_episodes s) (ms_outcome_events s).
Definition with_ms_episodes (m : gmap string (RetrievalEpisode * list RetrievalEpisodeItem)) (s : MemoryStore)
    : MemoryStore :=
  mkMemory (ms_chunks s) (ms_feedback s) m (ms_outcome_events s).
Definition with_ms_outcomes (m : gmap string (list OutcomeEvent)) (s : MemoryStore) : MemoryStore :=
  mkMemory (ms_chunks s) (ms_feedback s) (ms_retrieval_episodes s) m.

Record StoreStats : Type := mkStoreStats {
  ss_total_chunks : Z;
  ss_active_chunks : Z;
  ss_candidate_chunks : Z;
  ss_deleted_chunks : Z;
  ss_chunk_types : gmap string Z;
  ss_chunk_types_active : gmap string Z;
  ss_chunk_types_deleted : gmap string Z;
  ss_chunk_types_all : gmap string Z;
}.
Definition store_stats_default : StoreStats := mkStoreStats 0 0 0 0 ∅ ∅ ∅ ∅.

(** [matches!(c.status, Candidate | Deleted | Error)] *)
Definition memory_hidden (c : MemoryChunk) : bool :=
  match mc_status c with Candidate | Deleted | ErrorStatus => true | _ => false end.

Section memory.
Context `{U : Uuid ChunkId} `{UE : Uuid RetrievalEpisodeId} `{SHA : Sha256} `{UC : Unicode}.
Context `{US : UnicodeSegmentation} `{JT : JsonText} `{PF : Powf} `{EX : Exp}.
Context {HS : HashIter string}.

(* ------------------------------------------------------------------ *)
(** ** Chunks *)

Definition tenant_chunks (t : string) (s : MemoryStore) : gmap string MemoryChunk :=
  default ∅ (ms_chunks s !! t).

Definition memory_add_single_chunk (fresh : ChunkId) (chunk : MemoryChunk) (s : MemoryStore)
    : ChunkId * MemoryStore :=
  let chunk := set_hash (sha256_hex (mc_text chunk)) (set_chunk_id fresh chunk) in
  let t := TenantId.as_str (mc_tenant_id chunk) in
  (fresh, with_ms_chunks (<[t := <[uuid_to_string fresh := chunk]> (tenant_chunks t s)]> (ms_chunks s)) s).

(** [for chunk in chunks { chunk_ids.push(self.add_single_chunk(chunk).await?) }],
    [fresh i] being the [i]-th new id. *)
Fixpoint memory_add_pieces (fresh : nat → ChunkId) (pieces : list MemoryChunk) (s : MemoryStore)
    : list ChunkId * MemoryStore :=
  match pieces with
  | [] => ([], s)
  | p :: pieces =>
      let '(id, s) := memory_add_single_chunk (fresh 0%nat) p s in
      let '(ids, s) := memory_add_pieces (λ i, fresh (S i)) pieces s in
      (id :: ids, s)
  end.

Definition memory_add_with_stored_ids (fresh : nat → ChunkId) (chunk : MemoryChunk) (s : MemoryStore)
    : option (memd_result (ChunkId * list ChunkId) * MemoryStore) :=
  chunks ← split_for_add chunk;
  match chunks with
  | [piece] =>
      let '(chunk_id, s) := memory_add_single_chunk (fresh 0%nat) piece s in
      Some (Ok (chunk_id, [chunk_id]), s)
  | _ =>
      let '(chunk_ids, s) := memory_add_pieces fresh chunks s in
      Some (primary_id ← ok_or (head chunk_ids) (StorageError "no chunk id produced");
            Ok (primary_id, chunk_ids), s)
  end.

Definition memory_add (fresh : nat → ChunkId) (chunk : MemoryChunk) (s : MemoryStore)
    : option (memd_result ChunkId * MemoryStore) :=
  match memory_add_with_stored_ids fresh chunk s with
  | None => None
  | Some (r, s) => Some (fst <$> r, s)
  end.

Fixpoint memory_add_batch (fresh : nat → nat → ChunkId) (chunks : list MemoryChunk) (s : MemoryStore)
    : option (memd_result (list ChunkId) * MemoryStore) :=
  match chunks with
  | [] => Some (Ok [], s)
  | chunk :: chunks =>
      '(r, s) ← memory_add (fresh 0%nat) chunk s;
      match r with
      | Err e => Some (Err e, s)
      | Ok id =>
          match memory_add_batch (λ i, fresh (S i)) chunks s with
          | None => None
          | Some (rest, s) => Some (cons id <$> rest, s)
          end
      end
  end.

Definition memory_get (t : TenantId) (c : ChunkId) (s : MemoryStore) : option MemoryChunk :=
  chunk ← tenant_chunks (TenantId.as_str t) s !! uuid_to_string c;
  if memory_hidden chunk then None else Some chunk.

(** [tenant_chunks.values().filter(..)], in the map's order. *)
Definition shown_chunks (t : string) (s : MemoryStore) : list MemoryChunk :=
  List.filter (λ c, negb (memory_hidden c)) (map snd (hash_iter (tenant_chunks t s))).

Definition memory_search (t : TenantId) (query : string) (k : Z) (s : MemoryStore) : list MemoryChunk :=
  take (Z.to_nat k)
    (List.filter (λ c, bool_decide (query = ""%string) ||
                       string_contains (str_to_lowercase query) (str_to_lowercase (mc_text c)))
       (shown_chunks (TenantId.as_str t) s)).

Definition memory_delete (t : TenantId) (c : ChunkId) (s : MemoryStore) : bool * MemoryStore :=
  let t := TenantId.as_str t in
  match tenant_chunks t s !! uuid_to_string c with
  | None => (false, s)
  | Some chunk =>
      if bool_decide (mc_status chunk = Deleted) then (false, s)
      else (true, with_ms_chunks
                    (<[t := <[uuid_to_string c := set_status Deleted chunk]> (tenant_chunks t s)]> (ms_chunks s)) s)
  end.

(** [*types.entry(key).or_insert(0) += 1] *)
Definition count_chunk_type (key : string) (m : gmap string Z) : gmap string Z :=
  <[key := default 0 (m !! key) + 1]> m.

(** The body of the loop of [stats]. *)
Definition stats_step (a : StoreStats) (chunk : MemoryChunk) : StoreStats :=
  let key := ChunkType_to_string (mc_chunk_type chunk) in
  let all := count_chunk_type key (ss_chunk_types_all a) in
  if bool_decide (mc_status chunk = Deleted) then
    mkStoreStats (ss_total_chunks a) (ss_active_chunks a) (ss_candidate_chunks a) (ss_deleted_chunks a + 1)
      (ss_chunk_types a) (ss_chunk_types_active a) (count_chunk_type key (ss_chunk_types_deleted a)) all
  else if bool_decide (mc_status chunk = Candidate) then
    mkStoreStats (ss_total_chunks a) (ss_active_chunks a) (ss_candidate_chunks a + 1) (ss_deleted_chunks a)
      (ss_chunk_types a) (ss_chunk_types_active a) (ss_chunk_types_deleted a) all
  else if bool_decide (mc_status chunk ≠ ErrorStatus) then
    mkStoreStats (ss_total_chunks a) (ss_active_chunks a + 1) (ss_candidate_chunks a) (ss_deleted_chunks a)
      (ss_chunk_types a) (count_chunk_type key (ss_chunk_types_active a)) (ss_chunk_types_deleted a) all
  else
    mkStoreStats (ss_total_chunks a) (ss_active_chunks a) (ss_candidate_chunks a) (ss_deleted_chunks a)
      (ss_chunk_types a) (ss_chunk_types_active a) (ss_chunk_types_deleted a) all.

Definition memory_stats (t : TenantId) (s : MemoryStore) : StoreStats :=
  match ms_chunks s !! TenantId.as_str t with
  | None => store_stats_default
  | Some chunks =>
      let a := foldl stats_step store_stats_default (map snd (hash_iter chunks)) in
      mkStoreStats (Z.of_nat (size chunks)) (ss_active_chunks a) (ss_candidate_chunks a) (ss_deleted_chunks a)
        (ss_chunk_types_active a) (ss_chunk_types_active a) (ss_chunk_types_deleted a) (ss_chunk_types_all a)
  end.

(** [sort_by_key(|chunk| Reverse(chunk.timestamp_created))] *)
Definition newest_chunk_first (a b : MemoryChunk) : comparison :=
  Z.compare (mc_timestamp_created b) (mc_timestamp_created a).

Definition memory_list_chunks (t : TenantId) (limit offset : Z) (s : MemoryStore) : list MemoryChunk :=
  if limit =? 0 then []
  else
    let chunks := sort_by newest_chunk_first (shown_chunks (TenantId.as_str t) s) in
    if zlen chunks <=? offset then []
    else take (Z.to_nat limit) (drop (Z.to_nat offset) chunks).

(* ------------------------------------------------------------------ *)
(** ** Feedback *)

Definition memory_add_feedback (feedback : FeedbackEntry) (s : MemoryStore) : MemoryStore :=
  let t := TenantId.as_str (fe_tenant_id feedback) in
  with_ms_feedback (<[t := default [] (ms_feedback s !! t) ++ [feedback]]> (ms_feedback s)) s.

(** [sort_by_key(|entry| Reverse(entry.timestamp_ms))] *)
Definition newest_feedback_first (a b : FeedbackEntry) : comparison :=
  Z.compare (fe_timestamp_ms b) (fe_timestamp_ms a).

Definition memory_list_feedback (t : TenantId) (query : string) (limit : Z) (s : MemoryStore)
    : list FeedbackEntry :=
  let query_hash := stable_query_hash (normalize_query query) in
  take (Z.to_nat limit)
    (sort_by newest_feedback_first
       (List.filter (λ e, bool_decide (fe_query_hash e = query_hash))
          (default [] (ms_feedback s !! TenantId.as_str t)))).

(** [search_with_scores] is this at the current time. *)
Definition memory_search_with_scores_at (t : TenantId) (query : string) (k ranking_time_ms : Z)
    (s : MemoryStore) : list (MemoryChunk * f32) :=
  apply_feedback_scores (map (λ c, (c, f32_one)) (memory_search t query k s)) query
    (memory_list_feedback t query 512 s) ranking_time_ms FeedbackConfig_default.

(* ------------------------------------------------------------------ *)
(** ** Retrieval episodes *)

(** The check of one item against [chunks]. *)
Definition memory_check_origin (chunks : gmap string (gmap string MemoryChunk)) (item : RetrievalEpisodeItem)
    : memd_result () :=
  tenant_chunks ← ok_or (chunks !! TenantId.as_str (ri_origin_tenant_id item))
                    (ValidationError "retrieval episode item origin tenant has no chunks");
  chunk ← ok_or (tenant_chunks !! uuid_to_string (ri_chunk_id item))
            (ValidationError "retrieval episode chunk does not belong to its origin tenant");
  if bool_decide (mc_project_id chunk ≠ ri_origin_project_id item)
  then Err (ValidationError "retrieval episode chunk origin project does not match")
  else Ok ().

Definition memory_record_retrieval_episode (episode : RetrievalEpisode) (items : list RetrievalEpisodeItem)
    (s : MemoryStore) : memd_result () * MemoryStore :=
  let key := uuid_to_string (re_episode_id episode) in
  match (_ ← validate_retrieval_episode episode items;
         _ ← try_fold (λ _ item, memory_check_origin (ms_chunks s) item) items ();
         if bool_decide (is_Some (ms_retrieval_episodes s !! key))
         then Err (ValidationError "retrieval episode already exists") else Ok ()) with
  | Err e => (Err e, s)
  | Ok _ => (Ok (), with_ms_episodes (<[key := (episode, items)]> (ms_retrieval_episodes s)) s)
  end.

Definition memory_get_retrieval_episode (t : TenantId) (id : RetrievalEpisodeId) (s : MemoryStore)
    : option (RetrievalEpisode * list RetrievalEpisodeItem) :=
  '(episode, items) ← ms_retrieval_episodes s !! uuid_to_string id;
  if bool_decide (re_tenant_id episode = t) then Some (episode, items) else None.

(** The order is written into the stored episode, also when the last check of
    [apply_rendered_order] fails. *)
Definition memory_finalize_retrieval_episode (t : TenantId) (id : RetrievalEpisodeId)
    (rendered_chunk_ids : list ChunkId) (s : MemoryStore) : option (memd_result () * MemoryStore) :=
  match memory_get_retrieval_episode t id s with
  | None => Some (Err (ValidationError "unknown retrieval episode for tenant"), s)
  | Some (episode, items) =>
      '(r, episode, items) ← apply_rendered_order episode items rendered_chunk_ids;
      Some (r, with_ms_episodes (<[uuid_to_string id := (episode, items)]> (ms_retrieval_episodes s)) s)
  end.

Definition memory_record_outcome (t : TenantId) (event : OutcomeEvent) (s : MemoryStore)
    : memd_result () * MemoryStore :=
  let key := uuid_to_string (oe_episode_id event) in
  match memory_get_retrieval_episode t (oe_episode_id event) s with
  | None => (Err (ValidationError "unknown retrieval episode for tenant"), s)
  | Some (episode, items) =>
      match validate_outcome_event t episode items event with
      | Err e => (Err e, s)
      | Ok _ =>
          let events := default [] (ms_outcome_events s !! key) in
          if existsb (λ existing, bool_decide (oe_event_id existing = oe_event_id event)) events
          then (Err (ValidationError "outcome event already exists"),
                with_ms_outcomes (<[key := events]> (ms_outcome_events s)) s)
          else (Ok (), with_ms_outcomes (<[key := events ++ [event]]> (ms_outcome_events s)) s)
      end
  end.

Definition memory_list_outcomes_for_episode (t : TenantId) (id : RetrievalEpisodeId) (s : MemoryStore)
    : list OutcomeEvent :=
  match memory_get_retrieval_episode t id s with
  | None => []
  | Some _ => default [] (ms_outcome_events s !! uuid_to_string id)
  end.

(** *** Priors *)

(** [sort_by_key(|event| Reverse(event.timestamp_ms))], then the filter. *)
Definition newest_outcome_first (a b : OutcomeEvent) : comparison :=
  Z.compare (oe_timestamp_ms b) (oe_timestamp_ms a).
Definition ranking_events (now_ms : Z) (events : list OutcomeEvent) : list OutcomeEvent :=
  List.filter (λ e, contributes_to_ranking e && (oe_timestamp_ms e <=? now_ms))
    (sort_by newest_outcome_first events).

Definition MemoryPriors : Type := gmap ChunkId OutcomePrior * gset (string * ChunkId).

(** The innermost loop, over the chunks an event credits or blames. *)
Definition memory_prior_chunk (key : string) (eligible : gset ChunkId) (now_ms : Z) (event : OutcomeEvent)
    (s : MemoryPriors) (c : ChunkId) : MemoryPriors :=
  if negb (bool_decide (c ∈ eligible)) || bool_decide ((key, c) ∈ s.2) then s
  else (<[c := prior_add (credits_used (oe_outcome event))
                 (decayed_outcome_weight (oe_timestamp_ms event) now_ms) (oe_timestamp_ms event)
                 (default (prior_new c) (s.1 !! c))]> s.1,
        {[(key, c)]} ∪ s.2).

Definition memory_prior_event (key : string) (eligible : gset ChunkId) (now_ms : Z) (s : MemoryPriors)
    (event : OutcomeEvent) : MemoryPriors :=
  if credits_used (oe_outcome event)
  then foldl (memory_prior_chunk key eligible now_ms event) s (oe_used_chunk_ids event)
  else if credits_harmful (oe_outcome event)
  then foldl (memory_prior_chunk key eligible now_ms event) s (oe_harmful_chunk_ids event)
  else s.

Definition memory_prior_episode (store : MemoryStore) (t : TenantId) (project : option string)
    (requested : gset ChunkId) (now_ms : Z) (s : MemoryPriors)
    (entry : string * (RetrievalEpisode * list RetrievalEpisodeItem)) : MemoryPriors :=
  let '(key, (episode, items)) := entry in
  if bool_decide (re_tenant_id episode ≠ t) || bool_decide (re_project_id episode ≠ project) then s
  else
    let eligible : gset ChunkId :=
      list_to_set (List.filter (λ c, bool_decide (c ∈ requested)) (map ri_chunk_id items)) in
    if bool_decide (eligible = ∅) then s
    else foldl (memory_prior_event key eligible now_ms) s
           (ranking_events now_ms (default [] (ms_outcome_events store !! key))).

(** [priors.sort_by_key(|prior| prior.chunk_id.to_string())] *)
Definition by_prior_text (a b : OutcomePrior) : comparison :=
  String.compare (uuid_to_string (op_chunk_id a)) (uuid_to_string (op_chunk_id b)).

Context {HI : HashIter ChunkId}.

Definition memory_outcome_priors (t : TenantId) (project : option string) (chunk_ids : list ChunkId)
    (now_ms : Z) (s : MemoryStore) : list OutcomePrior :=
  let requested : gset ChunkId := list_to_set chunk_ids in
  if bool_decide (requested = ∅) then []
  else
    let priors := foldl (memory_prior_episode s t project requested now_ms) (∅, ∅)
                    (hash_iter (ms_retrieval_episodes s)) in
    sort_by by_prior_text (map snd (hash_iter priors.1)).
End memory.
