(* ===== verification/Dedup.v ===== *)
(** * Near duplicates of a new memory (src/crates/memd/src/dedup.rs,
    store/supersession.rs, ops/error.rs)

    Which chunks an incoming text should supersede: exact candidates by their
    canonical text, fuzzy ones by the Jaccard similarity of character
    trigrams in single precision.  The queries of the table are total, so the
    [map_err] of their results is not needed. *)

From S2P Require Import Prelude Crates Types Str Ranking Metadata.
From stdpp Require Import gmap sets.
From Stdlib Require Import Floats.SpecFloat.

Open Scope Z_scope.

(* ------------------------------------------------------------------ *)
(** ** Errors of operations *)

Inductive OperationError : Type :=
| ParseError (msg : string)
| InvalidRequest (msg : string)
| MethodNotFound (msg : string)
| InvalidParams (msg : string)
| InternalError (msg : string)
| ToolError (msg : string).

#[export] Instance OperationError_eq_dec : EqDecision OperationError.
Proof. solve_decision. Defined.

Definition op_error_code (e : OperationError) : Z :=
  match e with
  | ParseError _ => -32700
  | InvalidRequest _ => -32600
  | MethodNotFound _ => -32601
  | InvalidParams _ => -32602
  | InternalError _ => -32603
  | ToolError _ => -32000
  end.

Definition op_error_message (e : OperationError) : string :=
  match e with
  | ParseError msg | InvalidRequest msg | MethodNotFound msg | InvalidParams msg | InternalError msg
  | ToolError msg => msg
  end.

Definition reason_label (e : OperationError) : string :=
  match e with
  | ParseError _ => "parse-error"
  | InvalidRequest _ => "invalid-request"
  | MethodNotFound _ => "method-not-found"
  | InvalidParams _ => "invalid-params"
  | InternalError _ => "internal-error"
  | ToolError _ => "tool-error"
  end.

(** [Display] *)
Definition op_error_display (e : OperationError) : string :=
  match e with
  | ParseError msg => "parse error: " +:+ msg
  | InvalidRequest msg => "invalid request: " +:+ msg
  | MethodNotFound msg => "method not found: " +:+ msg
  | InvalidParams msg => "invalid params: " +:+ msg
  | InternalError msg => "internal error: " +:+ msg
  | ToolError msg => "tool error: " +:+ msg
  end.

(* ------------------------------------------------------------------ *)
(** ** What the caller asks for *)

Record DedupConfig : Type := mkDedupConfig {
  dc_mode : option string;
  dc_threshold : option f32;
  dc_scope : option string;
}.

Inductive DedupSpec : Type :=
| DedupBool (b : bool)
| DedupWith (cfg : DedupConfig).

(** 0.92 *)
Definition DEFAULT_FUZZY_THRESHOLD : f32 := f32_lit 92 100.
Definition FUZZY_RECENT_POOL_SIZE : Z := 128.

Inductive DedupMode : Type := ModeExact | ModeFuzzy.
Record ResolvedDedup : Type := mkResolved { rd_mode : DedupMode; rd_threshold : f32; rd_scope_project : bool }.

#[export] Instance DedupMode_eq_dec : EqDecision DedupMode.
Proof. solve_decision. Defined.

Definition resolve_config (cfg : DedupConfig) : memd_result ResolvedDedup :=
  mode ←
    (let m := default "exact"%string (dc_mode cfg) in
     if bool_decide (m = "exact"%string) then Ok ModeExact
     else if bool_decide (m = "fuzzy"%string) then Ok ModeFuzzy
     else Err (ValidationError "supersede_near_duplicates.mode: expected 'exact' or 'fuzzy'"));
  let threshold := default DEFAULT_FUZZY_THRESHOLD (dc_threshold cfg) in
  scope_project ←
    (let s := default "project"%string (dc_scope cfg) in
     if bool_decide (s = "project"%string) then Ok true
     else if bool_decide (s = "tenant"%string) then Ok false
     else Err (ValidationError "supersede_near_duplicates.scope: expected 'project' or 'tenant'"));
  Ok (mkResolved mode threshold scope_project).

Definition resolve_spec (spec : DedupSpec) : memd_result (option ResolvedDedup) :=
  match spec with
  | DedupBool false => Ok None
  | DedupBool true => Ok (Some (mkResolved ModeExact DEFAULT_FUZZY_THRESHOLD true))
  | DedupWith cfg => Some <$> resolve_config cfg
  end.

(* ------------------------------------------------------------------ *)
(** ** Trigrams *)

Definition Trigram : Type := string * string * string.

(** [padded.windows(3)] *)
Fixpoint windows3 (l : list string) : list Trigram :=
  match l with
  | a :: ((b :: c :: _) as l') => (a, b, c) :: windows3 l'
  | _ => []
  end.

Section dedup.
Context `{UC : Unicode}.

Definition trigram_set (s : string) : gset Trigram :=
  match str_chars (str_to_lowercase s) with
  | [] => ∅
  | lower => list_to_set (windows3 ([" "; " "]%string ++ lower ++ [" "%string]))
  end.

Definition jaccard_trigram (a b : string) : f32 :=
  let ta := trigram_set a in
  let tb := trigram_set b in
  if bool_decide (ta = ∅) && bool_decide (tb = ∅) then f32_one
  else
    let inter := f32_of_Z (Z.of_nat (size (ta ∩ tb))) in
    let union := f32_of_Z (Z.of_nat (size (ta ∪ tb))) in
    if f32_eq union f32_zero then f32_zero else f32_div inter union.

Definition is_near_duplicate (a b : string) (threshold : f32) : bool :=
  f32_ge (jaccard_trigram a b) threshold.

(* ------------------------------------------------------------------ *)
(** ** Candidates *)

Definition project_scope_matches (m : ChunkMetadata) (scope_project : bool) (requested_project : option string)
    : bool :=
  if negb scope_project then true else bool_decide (cm_project_id m = requested_project).

Definition is_live_head_row (m : ChunkMetadata) : bool :=
  bool_decide (cm_status m = Final) && bool_decide (lc_superseded_by (cm_lifecycle m) = None).

Definition fuzzy_candidates (t : TenantId) (canonical : string) (cfg : ResolvedDedup) (project_id : option string)
    (db : ChunkTable) : list ChunkMetadata :=
  let metas :=
    if rd_scope_project cfg && is_none project_id
    then list_recent_with_null_project t FUZZY_RECENT_POOL_SIZE db
    else list_recent_for_project t (if rd_scope_project cfg then project_id else None) FUZZY_RECENT_POOL_SIZE db in
  List.filter (λ m, is_near_duplicate canonical (default ""%string (cm_canonical_text m)) (rd_threshold cfg)) metas.

Definition compute_dedup_candidates (t : TenantId) (text : string) (chunk_type : ChunkType)
    (project_id : option string) (cfg : ResolvedDedup) (db : ChunkTable) : list ChunkId :=
  let canonical := canonicalize_for_type text chunk_type in
  let sql_project := if rd_scope_project cfg then project_id else None in
  let candidates :=
    match rd_mode cfg with
    | ModeExact => list_by_canonical_text t sql_project canonical db
    | ModeFuzzy => fuzzy_candidates t canonical cfg project_id db
    end in
  map cm_chunk_id
    (List.filter is_live_head_row
       (List.filter (λ m, project_scope_matches m (rd_scope_project cfg) project_id) candidates)).

End dedup.
