(* ===== verification/MemoryAdd.v ===== *)
(** * The operations memory.add and memory.add_batch
    (src/crates/memd/src/ops/add.rs and its helpers in ops/mod.rs)

    A request is validated, becomes a chunk, passes the admission of writes,
    is compared with what is stored, and is added, answered by a chunk that
    is already there, or made the successor of one.  The state is the store
    of the tenant, persistent or in memory, and the usage events that were
    handed to it.
    The JSON text of an answer is not modelled, its fields are. *)

From S2P Require Import Prelude Crates Types Str Sentence Chunking Ranking Admission WalFormat WalReader Files WalWriter.
From S2P Require Import SegmentFormat Segment Metadata TenantStore Persistent Lifecycle Outcome.
From S2P Require Import MemoryStore Dedup.
From Stdlib Require Import Ascii.
From stdpp Require Import pretty.

Open Scope Z_scope.

(* ------------------------------------------------------------------ *)
(** ** Requests and answers *)

Record SourceParams : Type := mkSourceParams {
  sp_uri : option string;
  sp_repo : option string;
  sp_commit : option string;
  sp_path : option string;
  sp_tool_name : option string;
  sp_tool_call_id : option string;
}.

Record AddParams : Type := mkAddParams {
  ap_tenant_id : string;
  ap_text : string;
  ap_chunk_type : string;
  ap_project_id : option string;
  ap_episode_id : option string;
  ap_source : option SourceParams;
  ap_tags : list string;
  ap_expires_at_ms : option Z;
  ap_review_after_ms : option Z;
  ap_event_time_ms : option Z;
  ap_mode : option string;
  ap_supersede_near_duplicates : option DedupSpec;
}.

Record BatchChunkParams : Type := mkBatchChunk {
  bp_text : string;
  bp_chunk_type : string;
  bp_project_id : option string;
  bp_episode_id : option string;
  bp_source : option SourceParams;
  bp_tags : list string;
  bp_expires_at_ms : option Z;
  bp_review_after_ms : option Z;
  bp_event_time_ms : option Z;
  bp_mode : option string;
}.

Record AddBatchParams : Type := mkBatchParams {
  bb_tenant_id : string;
  bb_chunks : list BatchChunkParams;
  bb_supersede_near_duplicates : option DedupSpec;
}.

Record AddResult : Type := mkAddResult {
  ar_chunk_id : string;
  ar_stored_chunk_ids : option (list string);
  ar_dedupe_decision : option string;
  ar_deduped_existing_id : option string;
  ar_admission_decision : option string;
  ar_admission_reason : option string;
  ar_admission_warning : option string;
  ar_lifecycle_tier : option string;
  ar_expires_at_ms : option Z;
  ar_review_after_ms : option Z;
  ar_created_tenant : option bool;
}.

(** The object of the answer when deduplication was asked for. *)
Record DedupAddResult : Type := mkDedupAdd {
  da_chunk_id : string;
  da_stored_chunk_ids : list string;
  da_superseded_ids : list string;
  da_admission_decision : string;
  da_admission_reason : string;
  da_admission_warning : option string;
  da_lifecycle_tier : option string;
  da_expires_at_ms : option Z;
  da_review_after_ms : option Z;
}.

Inductive AddAnswer : Type :=
| AnswerAdd (r : AddResult)
| AnswerDedup (r : DedupAddResult).

Record AddBatchResult : Type := mkBatchResult {
  br_chunk_ids : list string;
  br_dedupe_decisions : option (list string);
  br_deduped_existing_ids : option (list (option string));
  br_admission_decisions : option (list string);
  br_admission_reasons : option (list string);
}.

(** The object of a batch answer when deduplication was asked for. *)
Record DedupBatchResult : Type := mkDedupBatch {
  db_chunk_ids : list string;
  db_superseded_ids : list (list string);
  db_admission_decisions : list string;
  db_admission_reasons : list string;
}.

Inductive BatchAnswer : Type :=
| AnswerBatch (r : AddBatchResult)
| AnswerDedupBatch (r : DedupBatchResult).

(** The kinds of usage events. *)
Inductive UsageOp : Type :=
| UsageAdd
| UsageSearch
| UsageAgentContext
| UsageGet
| UsageDelete
| UsagePurge
| UsageConsolidate
| UsageImportOmf
| UsageReport.
Definition usage_op_str (op : UsageOp) : string :=
  match op with
  | UsageAdd => "add"
  | UsageSearch => "search"
  | UsageAgentContext => "agent_context"
  | UsageGet => "get"
  | UsageDelete => "delete"
  | UsagePurge => "purge"
  | UsageConsolidate => "consolidate"
  | UsageImportOmf => "import_omf"
  | UsageReport => "report"
  end.

Record UsageEvent : Type := mkUsage {
  ue_op : UsageOp;
  ue_tenant : option string;
  ue_project : option string;
  ue_outcome : string;
  ue_chunk_count : option Z;
  ue_bytes : option Z;
  ue_detail : option string;
}.

(** What the handlers read around them: the variable [$MEMD_DEFAULT_TENANT],
    the file [~/.memd/default_tenant], the answers of [list_tenants] and of
    [ensure_tenant_dir] (absent without a tenant manager), and, by the position
    of the chunk in the request, clock readings, new ids and the outcome of the
    index lane. *)
Record Surroundings : Type := mkSurroundings {
  su_default_tenant : option string;
  su_pinned_tenant : option string;
  su_tenants : memd_result (list TenantId);
  su_tenant_dir : option (memd_result ());
  su_created_ms : nat → Z;
  su_admitted_ms : nat → Z;
  su_stored_ms : nat → Z;
  su_new_id : nat → ChunkId;
  su_stored_id : nat → nat → ChunkId;
  su_lane : nat → IndexLane;
}.

(** [std::hash::DefaultHasher], whose algorithm is not specified. *)
Class DefaultHasher : Type := { default_hash : string → string }.

(* ------------------------------------------------------------------ *)
(** ** Reading the request *)

Section request.
Context `{UC : Unicode} `{ET : ErrorText} `{DH : DefaultHasher}.

(** The message of an error behind a fixed text. *)
Definition invalid_params {A} (m : memd_result A) : Result OperationError A :=
  map_err (λ e, InvalidParams (error_to_string e)) m.
Definition tool_error {A} (m : memd_result A) : Result OperationError A :=
  map_err (λ e, ToolError (error_to_string e)) m.

(** [try_build] *)
Definition try_build (value source : string) : option (Result OperationError TenantId) :=
  let trimmed := str_trim value in
  if bool_decide (trimmed = ""%string) then None
  else Some (map_err (λ e, InvalidParams ("invalid tenant_id from " +:+ source +:+ ": " +:+ error_to_string e))
               (TenantId.new trimmed)).

Definition resolve_tenant_id (su : Surroundings) (explicit : string) : Result OperationError TenantId :=
  match try_build explicit "call params" with
  | Some result => result
  | None =>
      match value ← su_default_tenant su; try_build value "$MEMD_DEFAULT_TENANT" with
      | Some result => result
      | None =>
          match contents ← su_pinned_tenant su; try_build contents "~/.memd/default_tenant" with
          | Some result => result
          | None => invalid_params (TenantId.new "default")
          end
      end
  end.

Definition parse_chunk_type (s : string) : Result OperationError ChunkType :=
  let l := str_to_lowercase s in
  if bool_decide (l = "code"%string) then Ok Code
  else if bool_decide (l = "doc" ∨ l = "scientific")%string then Ok Doc
  else if bool_decide (l = "trace"%string) then Ok Trace
  else if bool_decide (l = "decision"%string) then Ok Types.Decision
  else if bool_decide (l = "plan"%string) then Ok Plan
  else if bool_decide (l = "research"%string) then Ok Research
  else if bool_decide (l = "message"%string) then Ok Message
  else if bool_decide (l = "summary"%string) then Ok Summary
  else if bool_decide (l = "general" ∨ l = "other")%string then Ok OtherType
  else Err (InvalidParams "invalid chunk type").

Definition parse_ingestion_mode (s : option string) : Result OperationError IngestionMode :=
  let trimmed := x ← s; let x := str_trim x in if bool_decide (x = ""%string) then None else Some x in
  match trimmed with
  | None => Ok Document
  | Some value => map_err (λ e, InvalidParams ("invalid ingestion mode: " +:+ error_to_string e)) (IngestionMode_from_str value)
  end.

Definition make_episode_tag (episode_id : string) : string := "episode:" +:+ episode_id.

Definition validate_episode_id (episode_id : string) : Result OperationError () :=
  if bool_decide (episode_id = ""%string) then Err (InvalidParams "episode_id must not be empty")
  else if string_all (λ c, is_ascii_alphanumeric c || bool_decide (c = "_"%char) || bool_decide (c = "-"%char)) episode_id
  then Ok ()
  else Err (InvalidParams "episode_id must contain only letters, digits, '_' or '-'").

Definition source_empty : Source := mkSource None None None None None None.

Definition params_to_source (params : option SourceParams) : Source :=
  default source_empty
    ((λ p, mkSource (sp_uri p) (sp_repo p) (sp_commit p) (sp_path p) (sp_tool_name p) (sp_tool_call_id p)) <$> params).

(** [MemoryChunk::new] and the builder methods. *)
Definition chunk_new (id : ChunkId) (now_ms : Z) (t : TenantId) (text : string) (chunk_type : ChunkType) : MemoryChunk :=
  mkChunk id t None None now_ms None chunk_type Final Raw source_empty text [] (default_hash text) Document.

Definition chunk_with_project (p : option string) (c : MemoryChunk) : MemoryChunk :=
  mkChunk (mc_chunk_id c) (mc_tenant_id c) p (mc_agent_id c) (mc_timestamp_created c) (mc_timestamp_observed c)
    (mc_chunk_type c) (mc_status c) (mc_promotion_state c) (mc_source c) (mc_text c) (mc_tags c) (mc_hash c)
    (mc_ingestion_mode c).
Definition chunk_with_source (s : Source) (c : MemoryChunk) : MemoryChunk :=
  mkChunk (mc_chunk_id c) (mc_tenant_id c) (mc_project_id c) (mc_agent_id c) (mc_timestamp_created c)
    (mc_timestamp_observed c) (mc_chunk_type c) (mc_status c) (mc_promotion_state c) s (mc_text c) (mc_tags c)
    (mc_hash c) (mc_ingestion_mode c).
Definition chunk_with_tags (tags : list string) (c : MemoryChunk) : MemoryChunk :=
  mkChunk (mc_chunk_id c) (mc_tenant_id c) (mc_project_id c) (mc_agent_id c) (mc_timestamp_created c)
    (mc_timestamp_observed c) (mc_chunk_type c) (mc_status c) (mc_promotion_state c) (mc_source c) (mc_text c) tags
    (mc_hash c) (mc_ingestion_mode c).
Definition chunk_with_observed (ms : option Z) (c : MemoryChunk) : MemoryChunk :=
  mkChunk (mc_chunk_id c) (mc_tenant_id c) (mc_project_id c) (mc_agent_id c) (mc_timestamp_created c) ms
    (mc_chunk_type c) (mc_status c) (mc_promotion_state c) (mc_source c) (mc_text c) (mc_tags c) (mc_hash c)
    (mc_ingestion_mode c).
Definition chunk_with_ingestion_mode (mode : IngestionMode) (c : MemoryChunk) : MemoryChunk :=
  mkChunk (mc_chunk_id c) (mc_tenant_id c) (mc_project_id c) (mc_agent_id c) (mc_timestamp_created c)
    (mc_timestamp_observed c) (mc_chunk_type c) (mc_status c) (mc_promotion_state c) (mc_source c) (mc_text c)
    (mc_tags c) (mc_hash c) mode.

(** The chunk of a request, from [MemoryChunk::new] to the caller's tags. *)
Definition request_chunk (su : Surroundings) (i : nat) (t : TenantId) (chunk_type : ChunkType) (p : BatchChunkParams)
    : Result OperationError MemoryChunk :=
  let chunk := chunk_new (su_new_id su i) (su_created_ms su i) t (bp_text p) chunk_type in
  let chunk := match bp_project_id p with Some id => chunk_with_project (Some id) chunk | None => chunk end in
  chunk ←
    match bp_episode_id p with
    | Some episode_id =>
        _ ← validate_episode_id episode_id;
        Ok (chunk_with_tags (mc_tags chunk ++ [make_episode_tag episode_id]) chunk)
    | None => Ok chunk
    end;
  let chunk := chunk_with_source (params_to_source (bp_source p)) chunk in
  let chunk := match bp_event_time_ms p with Some ms => chunk_with_observed (Some ms) chunk | None => chunk end in
  Ok (match bp_tags p with [] => chunk | tags => chunk_with_tags (mc_tags chunk ++ tags) chunk end).

(** [PreparedWrite::apply_to_chunk] *)
Definition apply_to_chunk (w : PreparedWrite) (chunk : MemoryChunk) : MemoryChunk :=
  chunk_with_ingestion_mode (pw_ingestion_mode w) (chunk_with_tags (pw_tags w) chunk).

(** [resolve_write_admission]; [None] is a panic. *)
Definition resolve_write_admission (now_ms : Z) (chunk : MemoryChunk) (mode : IngestionMode)
    (expires_at_ms review_after_ms : option Z) : option PreparedWrite :=
  prepare_write_at (mkRequest (mc_chunk_type chunk) (mc_text chunk) (mc_tags chunk) mode expires_at_ms review_after_ms) now_ms.

(* ------------------------------------------------------------------ *)
(** ** The same content *)

Definition is_digest_projection_tag (tag : string) : bool :=
  bool_decide (tag = "task:kind:digest"%string) || bool_decide (tag = "task:projection:digest"%string)
  || starts_with_one ["task:digest:"] tag || starts_with_one ["task:role:"] tag.

Definition default_content_dedupe_exempt (chunk : MemoryChunk) (caller_tags : list string) : bool :=
  existsb is_digest_projection_tag (caller_tags ++ mc_tags chunk) || has_explicit_priority caller_tags.

Definition caller_tags_already_preserved (existing : MemoryChunk) (caller_tags : list string) : bool :=
  forallb (λ tag, existsb (λ existing_tag, bool_decide (existing_tag = tag)) (mc_tags existing)) caller_tags.

(** [existing.text == chunk.text && ..] *)
Definition same_content (existing chunk : MemoryChunk) (caller_tags : list string) : bool :=
  bool_decide (mc_text existing = mc_text chunk) && bool_decide (mc_chunk_type existing = mc_chunk_type chunk)
  && bool_decide (mc_project_id existing = mc_project_id chunk)
  && (bool_decide (mc_source chunk = source_empty) || bool_decide (mc_source chunk = mc_source existing))
  && caller_tags_already_preserved existing caller_tags.

End request.

(* ------------------------------------------------------------------ *)
(** ** Operations on a store *)

(** An operation that failed, or a panic of a slicing operation. *)
Inductive OpFailure : Type :=
| Failed (e : OperationError)
| Panicked.

Section ops.
Context `{BO : ByteOrder} `{CRC : Crc32} `{RB : Roaring B} `{CAP : BufCap}.
Context `{BW : Bincode WalRecord} `{BM : Bincode SegmentMeta} `{JC : Json MemoryChunk}.
Context `{UU : Uuid ChunkId} `{UC : Unicode} `{TT : TaskTables TK} `{SHA : Sha256}.
Context `{SEG : UnicodeSegmentation} `{ET : ErrorText} `{DH : DefaultHasher}.

(** The two implementations of [Store]; a persistent one with the tenant of
    the request open. *)
Inductive AnyStore : Type :=
| PersistentTenant (s : St B TK)
| InMemory (s : MemoryStore).

Record OpState : Type := mkOp { op_store : AnyStore; op_usage : list UsageEvent }.

Definition Op (A : Type) : Type := OpState → Result OpFailure A * OpState.

#[export] Instance op_ret : MRet Op := λ A a st, (Ok a, st).
#[export] Instance op_bind : MBind Op := λ A C f m st,
  match m st with (Ok a, st) => f a st | (Err e, st) => (Err e, st) end.

Definition op_lift {A} (r : Result OperationError A) : Op A := λ st, (map_err Failed r, st).
Definition op_fail {A} (e : OperationError) : Op A := op_lift (Err e).
Definition op_total {A} (o : option A) : Op A := λ st, (ok_or o Panicked, st).

(** A call on the persistent store, when there is one. *)
Definition op_persistent {A} (otherwise : OperationError) (m : M B TK A) : Op A := λ st,
  match op_store st with
  | PersistentTenant s => let '(r, s) := m s in (map_err Failed (tool_error r), mkOp (PersistentTenant s) (op_usage st))
  | InMemory _ => (Err (Failed otherwise), st)
  end.

Definition is_persistent (st : AnyStore) : bool := match st with PersistentTenant _ => true | InMemory _ => false end.

(** A call of [Store::record_usage_event].  What the store makes of it (a
    read-only one drops it, and so does one whose ledger is switched off) is
    not modelled. *)
Definition record_usage_event (e : UsageEvent) : Op () := λ st, (Ok (), mkOp (op_store st) (op_usage st ++ [e])).

Definition record_add_usage_event (t : TenantId) (project_id : option string) (outcome : string) (chunk_count bytes : Z)
    : Op () :=
  record_usage_event (mkUsage UsageAdd (Some (TenantId.as_str t)) project_id outcome (Some chunk_count)
    (Some (as_i64 bytes)) None).

(** [drop_optional_default_retention_for_in_memory_store] *)
Definition drop_optional_default_retention (admission : PreparedWrite) : Op PreparedWrite := λ st,
  (Ok (if is_persistent (op_store st) then admission else strip_optional_retention_defaults admission), st).

(** The new ids of an add: one for every part. *)
Definition part_ids (stored_id : nat → ChunkId) (chunk : MemoryChunk) : list ChunkId :=
  match split_for_add chunk with Some parts => map stored_id (seq 0 (length parts)) | None => [] end.

(** [Store::add_with_stored_ids] *)
Definition store_add_with_stored_ids (su : Surroundings) (i : nat) (chunk : MemoryChunk) : Op (ChunkId * list ChunkId) :=
  λ st,
  match op_store st with
  | PersistentTenant s =>
      let '(r, s) := add_chunk_with_stored_ids (su_stored_ms su i) chunk (part_ids (su_stored_id su i) chunk)
                       (su_lane su i) s in
      (map_err Failed (tool_error r), mkOp (PersistentTenant s) (op_usage st))
  | InMemory s =>
      match memory_add_with_stored_ids (su_stored_id su i) chunk s with
      | None => (Err Panicked, st)
      | Some (r, s) => (map_err Failed (tool_error r), mkOp (InMemory s) (op_usage st))
      end
  end.

Definition add_chunk_with_complete_ids (su : Surroundings) (i : nat) (chunk : MemoryChunk) (lifecycle : LifecycleDelta)
    : Op (ChunkId * list ChunkId) :=
  if delta_is_empty lifecycle then store_add_with_stored_ids su i chunk
  else
    op_persistent (ToolError "memory.add with temporal fields requires a persistent store")
      (add_chunk_with_lifecycle_and_stored_ids (su_stored_ms su i) chunk lifecycle (part_ids (su_stored_id su i) chunk)
         (su_lane su i)).

(** The loop of [find_default_content_duplicate]. *)
Fixpoint first_same_content (chunk : MemoryChunk) (caller_tags : list string) (candidates : list ChunkMetadata)
    : M B TK (option ChunkId) :=
  match candidates with
  | [] => m_ret None
  | candidate :: candidates =>
      existing <- get_chunk (mc_tenant_id chunk) (cm_chunk_id candidate) ;;
      match existing with
      | Some existing =>
          if same_content existing chunk caller_tags then m_ret (Some (cm_chunk_id candidate))
          else first_same_content chunk caller_tags candidates
      | None => first_same_content chunk caller_tags candidates
      end
  end.

Definition find_default_content_duplicate (chunk : MemoryChunk) (caller_tags : list string) : Op (option ChunkId) :=
  if default_content_dedupe_exempt chunk caller_tags then mret None
  else λ st,
    match op_store st with
    | InMemory _ => (Ok None, st)
    | PersistentTenant _ =>
        op_persistent (ToolError "")
          (w <- m_world ;;
           first_same_content chunk caller_tags
             (list_live_by_content_hash (mc_tenant_id chunk) (mc_project_id chunk) (mc_chunk_type chunk)
                (sha256_hex (mc_text chunk)) 8 (w_db w))) st
    end.

(* ------------------------------------------------------------------ *)
(** ** memory.add *)

Definition add_params_chunk (p : AddParams) : BatchChunkParams :=
  mkBatchChunk (ap_text p) (ap_chunk_type p) (ap_project_id p) (ap_episode_id p) (ap_source p) (ap_tags p)
    (ap_expires_at_ms p) (ap_review_after_ms p) (ap_event_time_ms p) (ap_mode p).

(** The validation of the request, up to the chunk the caller described. *)
Definition add_request (su : Surroundings) (params : AddParams) : Result OperationError (TenantId * MemoryChunk * IngestionMode) :=
  tenant_id ← resolve_tenant_id su (ap_tenant_id params);
  _ ← invalid_params (ProjectId.validate_opt (ap_project_id params));
  chunk_type ← parse_chunk_type (ap_chunk_type params);
  _ ← match su_tenant_dir su with Some r => tool_error r | None => Ok () end;
  chunk ← request_chunk su 0 tenant_id chunk_type (add_params_chunk params);
  ingestion_mode ← parse_ingestion_mode (ap_mode params);
  Ok (tenant_id, chunk, ingestion_mode).

(** A tenant that [list_tenants] does not name is new. *)
Definition created_tenant (su : Surroundings) (t : TenantId) : option bool :=
  match su_tenants su with
  | Ok tenants => if negb (existsb (λ t', bool_decide (t' = t)) tenants) then Some true else None
  | Err _ => None
  end.

Definition resolve_dedup (spec : option DedupSpec) : Result OperationError (option ResolvedDedup) :=
  match spec with Some spec => tool_error (resolve_spec spec) | None => Ok None end.

Definition decision (w : PreparedWrite) : string := AdmissionDecision_as_str (ao_decision (pw_outcome w)).
Definition lifecycle_tier_name (w : PreparedWrite) : option string := MemoryTier_to_string <$> pw_lifecycle_tier w.

(** The answers of memory.add. *)
Definition reused_answer (admission : PreparedWrite) (existing_id : ChunkId) : AddAnswer :=
  AnswerAdd (mkAddResult (uuid_to_string existing_id) (Some [uuid_to_string existing_id])
    (Some "reused_existing_exact_content"%string) (Some (uuid_to_string existing_id)) (Some (decision admission))
    (Some (ao_reason (pw_outcome admission))) (ao_warning (pw_outcome admission)) (lifecycle_tier_name admission)
    (pt_expires_at_ms (pw_retention admission)) (pt_review_after_ms (pw_retention admission)) None).
Definition added_answer (admission : PreparedWrite) (ids : ChunkId * list ChunkId) (created : option bool) : AddAnswer :=
  AnswerAdd (mkAddResult (uuid_to_string ids.1) (Some (map uuid_to_string ids.2)) None None (Some (decision admission))
    (Some (ao_reason (pw_outcome admission))) (ao_warning (pw_outcome admission)) (lifecycle_tier_name admission)
    (pt_expires_at_ms (pw_retention admission)) (pt_review_after_ms (pw_retention admission)) created).
Definition dedup_answer (admission : PreparedWrite) (ids : ChunkId * list ChunkId) (candidates : list ChunkId) : AddAnswer :=
  AnswerDedup (mkDedupAdd (uuid_to_string ids.1) (map uuid_to_string ids.2)
    (match candidates with [] => [] | first_old :: _ => [uuid_to_string first_old] end) (decision admission)
    (ao_reason (pw_outcome admission)) (ao_warning (pw_outcome admission)) (lifecycle_tier_name admission)
    (pt_expires_at_ms (pw_retention admission)) (pt_review_after_ms (pw_retention admission))).

(** The candidates of a chunk in the persistent store. *)
Definition op_dedup_candidates (otherwise : OperationError) (chunk : MemoryChunk) (project_id : option string)
    (cfg : ResolvedDedup) : Op (list ChunkId) :=
  op_persistent otherwise
    (w <- m_world ;;
     m_ret (compute_dedup_candidates (mc_tenant_id chunk) (mc_text chunk) (mc_chunk_type chunk) project_id cfg (w_db w))).

(** Supersede the first candidate, or add. *)
Definition add_or_supersede (otherwise : OperationError) (su : Surroundings) (i : nat) (t : TenantId) (chunk : MemoryChunk)
    (delta : LifecycleDelta) (candidates : list ChunkId) : Op (ChunkId * list ChunkId) :=
  match candidates with
  | [] => add_chunk_with_complete_ids su i chunk delta
  | first_old :: _ =>
      op_persistent otherwise
        (supersede_chunk_with_lifecycle_and_stored_ids (su_stored_ms su i) t first_old chunk delta
           (part_ids (su_stored_id su i) chunk) (su_lane su i) (m_ret ()))
  end.

(** The writes of memory.add, after the admission. *)
Definition add_admitted (su : Surroundings) (params : AddParams) (t : TenantId) (caller_tags : list string)
    (chunk : MemoryChunk) (admission : PreparedWrite) : Op AddAnswer :=
  let delta := lifecycle_delta admission in
  let caller_requested_lifecycle :=
    negb (is_none (ap_expires_at_ms params)) || negb (is_none (ap_review_after_ms params)) in
  resolved_dedup ← op_lift (resolve_dedup (ap_supersede_near_duplicates params));
  match resolved_dedup with
  | Some cfg =>
      let no_store := ToolError "memory.add with supersede_near_duplicates requires a persistent store" in
      candidates ← op_dedup_candidates no_store chunk (mc_project_id chunk) cfg;
      ids ← add_or_supersede no_store su 0 t chunk delta candidates;
      mret (dedup_answer admission ids candidates)
  | None =>
      duplicate ← (if caller_requested_lifecycle then mret None else find_default_content_duplicate chunk caller_tags);
      match duplicate with
      | Some existing_id => mret (reused_answer admission existing_id)
      | None =>
          ids ← add_chunk_with_complete_ids su 0 chunk delta;
          mret (added_answer admission ids (created_tenant su t))
      end
  end.

Definition handle_memory_add (su : Surroundings) (params : AddParams) : Op AddAnswer :=
  '(t, chunk, mode) ← op_lift (add_request su params);
  admission ← op_total (resolve_write_admission (su_admitted_ms su 0) chunk mode (ap_expires_at_ms params)
                          (ap_review_after_ms params));
  if is_rejected admission then
    _ ← record_add_usage_event t (ap_project_id params) ("rejected:" +:+ ao_reason (pw_outcome admission)) 0
          (zstrlen (mc_text chunk));
    op_fail (InvalidParams ("memory.add rejected by quality gate: " +:+ ao_reason (pw_outcome admission)))
  else
    admission ← drop_optional_default_retention admission;
    _ ← record_add_usage_event t (ap_project_id params) (usage_outcome admission) 1 (zstrlen (mc_text chunk));
    add_admitted su params t (mc_tags chunk) (apply_to_chunk admission chunk) admission.

(* ------------------------------------------------------------------ *)
(** ** memory.add_batch *)

(** A chunk of the batch after the first pass. *)
Record PreparedChunk : Type := mkPreparedChunk {
  pc_chunk : MemoryChunk;
  pc_delta : LifecycleDelta;
  pc_project_id : option string;
  pc_admission : PreparedWrite;
  pc_caller_tags : list string;
  pc_caller_requested_lifecycle : bool;
}.
Definition pc_has_lifecycle (p : PreparedChunk) : bool := negb (delta_is_empty (pc_delta p)).

(** The body of the first pass. *)
Definition prepare_batch_chunk (su : Surroundings) (t : TenantId) (i : nat) (p : BatchChunkParams) : Op PreparedChunk :=
  '(chunk, mode) ← op_lift
    (chunk_type ← parse_chunk_type (bp_chunk_type p);
     chunk ← request_chunk su i t chunk_type p;
     mode ← parse_ingestion_mode (bp_mode p);
     Ok (chunk, mode));
  admission ← op_total (resolve_write_admission (su_admitted_ms su i) chunk mode (bp_expires_at_ms p) (bp_review_after_ms p));
  if is_rejected admission
  then op_fail (InvalidParams ("memory.add_batch rejected chunk " +:+ pretty (N.of_nat i) +:+ " by quality gate: "
         +:+ ao_reason (pw_outcome admission)))
  else
    admission ← drop_optional_default_retention admission;
    mret (mkPreparedChunk (chunk_with_ingestion_mode mode (apply_to_chunk admission chunk)) (lifecycle_delta admission)
            (bp_project_id p) admission (mc_tags chunk)
            (negb (is_none (bp_expires_at_ms p)) || negb (is_none (bp_review_after_ms p)))).

(** A [for] loop over the positions of a list that pushes one result each. *)
Fixpoint op_each {A C} (f : nat → A → Op C) (i : nat) (l : list A) : Op (list C) :=
  match l with
  | [] => mret []
  | a :: l => c ← f i a; cs ← op_each f (S i) l; mret (c :: cs)
  end.

(** The usage event of a chunk the batch has stored. *)
Definition record_chunk_event (t : TenantId) (p : PreparedChunk) : Op () :=
  record_add_usage_event t (pc_project_id p) (usage_outcome (pc_admission p)) 1 (zstrlen (mc_text (pc_chunk p))).

(** The second pass with deduplication: the new id and the superseded ones. *)
Definition dedup_batch_chunk (su : Surroundings) (t : TenantId) (cfg : ResolvedDedup) (i : nat) (p : PreparedChunk)
    : Op (string * list string) :=
  let no_store := ToolError "memory.add_batch with supersede_near_duplicates requires a persistent store" in
  candidates ← op_dedup_candidates no_store (pc_chunk p) (pc_project_id p) cfg;
  ids ← add_or_supersede no_store su i t (pc_chunk p) (pc_delta p) candidates;
  _ ← record_chunk_event t p;
  mret (uuid_to_string ids.1, match candidates with [] => [] | first_old :: _ => [uuid_to_string first_old] end).

(** The loop of a batch in which some chunk has a lifecycle: the id to
    answer, and whether it is that of a chunk that was there. *)
Definition lifecycle_batch_chunk (su : Surroundings) (i : nat) (p : PreparedChunk) : Op (ChunkId * bool) :=
  let no_store := ToolError "memory.add_batch with temporal fields requires a persistent store" in
  duplicate ← (if pc_caller_requested_lifecycle p then mret None
               else find_default_content_duplicate (pc_chunk p) (pc_caller_tags p));
  match duplicate with
  | Some existing_id => mret (existing_id, true)
  | None =>
      id ← op_persistent no_store
        (if pc_has_lifecycle p
         then add_chunk_with_lifecycle (su_stored_ms su i) (pc_chunk p) (pc_delta p) (part_ids (su_stored_id su i) (pc_chunk p))
                (su_lane su i)
         else
           ensure_writable "add" ;;;
           outcome <- add_chunks_with_details (su_stored_ms su i) false [pc_chunk p]
                        (part_ids (su_stored_id su i) (pc_chunk p)) (su_lane su i) ;;
           m_lift (ok_or (head (primary_ids outcome)) (StorageError "no chunk id produced")));
      mret (id, false)
  end.

(** The state of the loop of a batch without lifecycles: what is known of
    each position, the chunks to insert and the duplicates of one of those. *)
Record BulkPlan : Type := mkBulk {
  bk_ids_by_position : list (option ChunkId);
  bk_reused : list bool;
  bk_pending : list (nat * MemoryChunk);
  bk_aliases : list (nat * nat);
}.

(** [pending_for_dedupe] is searched in order. *)
Definition pending_duplicate (plan : BulkPlan) (p : PreparedChunk) : option nat :=
  if default_content_dedupe_exempt (pc_chunk p) (pc_caller_tags p) then None
  else fst <$> List.find (λ prior, same_content prior.2 (pc_chunk p) (pc_caller_tags p)) (bk_pending plan).

Definition plan_with (duplicate : option ChunkId) (plan : BulkPlan) (position : nat) (p : PreparedChunk) : BulkPlan :=
  match duplicate with
  | Some existing_id =>
      mkBulk (<[position := Some existing_id]> (bk_ids_by_position plan)) (<[position := true]> (bk_reused plan))
        (bk_pending plan) (bk_aliases plan)
  | None =>
      match pending_duplicate plan p with
      | Some prior_position =>
          mkBulk (bk_ids_by_position plan) (<[position := true]> (bk_reused plan)) (bk_pending plan)
            (bk_aliases plan ++ [(position, prior_position)])
      | None =>
          mkBulk (bk_ids_by_position plan) (bk_reused plan) (bk_pending plan ++ [(position, pc_chunk p)])
            (bk_aliases plan)
      end
  end.

(** The loop over the chunks of the batch. *)
Fixpoint plan_batch (plan : BulkPlan) (position : nat) (l : list PreparedChunk) : Op BulkPlan :=
  match l with
  | [] => mret plan
  | p :: l =>
      duplicate ← find_default_content_duplicate (pc_chunk p) (pc_caller_tags p);
      plan_batch (plan_with duplicate plan position p) (S position) l
  end.

(** [Store::add_batch] on the persistent store. *)
Definition persistent_add_batch (su : Surroundings) (pending : list (nat * MemoryChunk)) : M B TK (list ChunkId) :=
  ensure_writable "add_batch" ;;;
  outcome <- add_chunks_with_details (su_stored_ms su 0) false (map snd pending)
               (concat (map (λ pc, part_ids (su_stored_id su pc.1) pc.2) pending)) (su_lane su 0) ;;
  m_ret (primary_ids outcome).

(** The ids of the inserted chunks, then those of the duplicates of them. *)
Definition resolve_alias (ids_by_position : list (option ChunkId)) (alias : nat * nat)
    : Result OperationError (list (option ChunkId)) :=
  id ← ok_or (mjoin (ids_by_position !! alias.2))
         (ToolError "memory.add_batch missing inserted id for within-batch duplicate");
  Ok (<[alias.1 := Some id]> ids_by_position).
Definition resolve_positions (plan : BulkPlan) (inserted_ids : list ChunkId) : Result OperationError (list ChunkId) :=
  if negb (bool_decide (length inserted_ids = length (bk_pending plan)))
  then Err (ToolError ("memory.add_batch inserted " +:+ pretty (N.of_nat (length inserted_ids)) +:+ " chunks but expected "
         +:+ pretty (N.of_nat (length (bk_pending plan)))))
  else
    let ids_by_position :=
      foldl (λ ids pi, <[pi.1 := Some pi.2]> ids) (bk_ids_by_position plan) (zip (map fst (bk_pending plan)) inserted_ids) in
    ids_by_position ← try_fold resolve_alias (bk_aliases plan) ids_by_position;
    try_fold (λ acc o,
      id ← ok_or o (ToolError ("memory.add_batch did not produce chunk id for position " +:+ pretty (N.of_nat (length acc))));
      Ok (acc ++ [id])) ids_by_position [].

Definition bulk_batch (su : Surroundings) (l : list PreparedChunk) : Op (list (ChunkId * bool)) :=
  plan ← plan_batch (mkBulk (replicate (length l) None) (replicate (length l) false) [] []) 0 l;
  inserted_ids ← op_persistent (ToolError "") (persistent_add_batch su (bk_pending plan));
  ids ← op_lift (resolve_positions plan inserted_ids);
  mret (zip ids (bk_reused plan)).

(** [Store::add_batch] on the in-memory store. *)
Definition in_memory_batch (su : Surroundings) (l : list PreparedChunk) : Op (list (ChunkId * bool)) := λ st,
  match op_store st with
  | PersistentTenant _ => (Err Panicked, st)
  | InMemory s =>
      match memory_add_batch (su_stored_id su) (map pc_chunk l) s with
      | None => (Err Panicked, st)
      | Some (r, s) => ((λ ids, map (λ id, (id, false)) ids) <$> map_err Failed (tool_error r), mkOp (InMemory s) (op_usage st))
      end
  end.

Definition batch_ids (su : Surroundings) (l : list PreparedChunk) : Op (list (ChunkId * bool)) :=
  if existsb pc_has_lifecycle l then
    _ ← op_persistent (ToolError "memory.add_batch with temporal fields requires a persistent store") (m_ret ());
    op_each (lifecycle_batch_chunk su) 0 l
  else λ st, if is_persistent (op_store st) then bulk_batch su l st else in_memory_batch su l st.

(** The events of the chunks that were stored. *)
Fixpoint record_batch_events (t : TenantId) (l : list PreparedChunk) (outcomes : list (ChunkId * bool)) : Op () :=
  match l with
  | [] => mret ()
  | p :: l =>
      let reused := match head outcomes with Some o => o.2 | None => false end in
      _ ← (if reused then mret () else record_chunk_event t p);
      record_batch_events t l (tail outcomes)
  end.

Definition batch_answer (l : list PreparedChunk) (outcomes : list (ChunkId * bool)) : BatchAnswer :=
  let any_default_deduped := existsb snd outcomes in
  AnswerBatch (mkBatchResult (map (λ o, uuid_to_string o.1) outcomes)
    (if any_default_deduped
     then Some (map (λ o : ChunkId * bool, if o.2 then "reused_existing_exact_content" else "inserted")%string outcomes) else None)
    (if any_default_deduped then Some (map (λ o : ChunkId * bool, if o.2 then Some (uuid_to_string o.1) else None) outcomes)
     else None)
    (Some (map (λ p, decision (pc_admission p)) l)) (Some (map (λ p, ao_reason (pw_outcome (pc_admission p))) l))).

Definition batch_request (su : Surroundings) (params : AddBatchParams) : Result OperationError (TenantId * option ResolvedDedup) :=
  t ← resolve_tenant_id su (bb_tenant_id params);
  _ ← try_fold (λ _ p, invalid_params (ProjectId.validate_opt (bp_project_id p))) (bb_chunks params) ();
  _ ← match su_tenant_dir su with Some r => tool_error r | None => Ok () end;
  resolved_dedup ← resolve_dedup (bb_supersede_near_duplicates params);
  Ok (t, resolved_dedup).

Definition handle_memory_add_batch (su : Surroundings) (params : AddBatchParams) : Op BatchAnswer :=
  '(t, resolved_dedup) ← op_lift (batch_request su params);
  match resolved_dedup with
  | Some cfg =>
      _ ← op_persistent (ToolError "memory.add_batch with supersede_near_duplicates requires a persistent store") (m_ret ());
      prepared ← op_each (prepare_batch_chunk su t) 0 (bb_chunks params);
      results ← op_each (dedup_batch_chunk su t cfg) 0 prepared;
      mret (AnswerDedupBatch (mkDedupBatch (map fst results) (map snd results)
              (map (λ p, decision (pc_admission p)) prepared)
              (map (λ p, ao_reason (pw_outcome (pc_admission p))) prepared)))
  | None =>
      prepared ← op_each (prepare_batch_chunk su t) 0 (bb_chunks params);
      outcomes ← batch_ids su prepared;
      _ ← record_batch_events t prepared outcomes;
      mret (batch_answer prepared outcomes)
  end.

End ops.

Arguments AnyStore : clear implicits.
Arguments OpState : clear implicits.
Arguments Op : clear implicits.
