(* ===== verification/MemoryFacts.v ===== *)
(** * The in-memory store implements the abstract episodes

    [memory_rep] relates the maps of [MemoryStore] to the abstract state of
    EpisodeStore.v; every method simulates its command. *)

From S2P Require Import Prelude Crates Types Str Sentence Chunking Ranking Fusion Outcome.
From S2P Require Import EpisodeStore MemoryStore.
From stdpp Require Import sorting.
From Stdlib Require Import Sorting.Sorted.

Open Scope Z_scope.

(* ------------------------------------------------------------------ *)
(** ** Sorted lists *)

Lemma StronglySorted_flat_map {A B} (R : B → B → Prop) (f : A → list B) l :
  StronglySorted (λ x y, ∀ a b, a ∈ f x → b ∈ f y → R a b) l →
  (∀ x, x ∈ l → StronglySorted R (f x)) → StronglySorted R (flat_map f l).
Proof.
  induction 1 as [|x l Hs IH Hx]; intros Hf; cbn [flat_map]; [constructor|].
  apply StronglySorted_app_2; [|apply Hf; left|apply IH; intros ? ?; apply Hf; by right].
  intros a b Ha Hb. apply list_elem_of_In, in_flat_map in Hb as (y & Hy & Hb).
  apply list_elem_of_In in Hy, Hb. rewrite Forall_forall in Hx. by apply (Hx y).
Qed.

Lemma StronglySorted_filter_bool {A} (R : A → A → Prop) p l :
  StronglySorted R l → StronglySorted R (List.filter p l).
Proof.
  induction 1 as [|x l Hs IH Hx]; cbn; [constructor|]. destruct (p x); [|done].
  constructor; [done|]. apply Forall_forall. intros y [Hy _]%filter_bool_elem. by eapply Forall_forall in Hx.
Qed.

Lemma StronglySorted_same {A} (R : A → A → Prop) l :
  (∀ x y, x ∈ l → y ∈ l → R x y) → StronglySorted R l.
Proof.
  induction l as [|x l IH]; intros HR; [constructor|]. constructor.
  - apply IH. intros y z ? ?. apply HR; by right.
  - apply Forall_forall. intros y ?. apply HR; [left|by right].
Qed.

Lemma StronglySorted_impl_in {A} (R R' : A → A → Prop) l :
  (∀ x y, x ∈ l → y ∈ l → R x y → R' x y) → StronglySorted R l → StronglySorted R' l.
Proof.
  intros HR. induction 1 as [|x l Hs IH Hx]; [constructor|]. constructor.
  - apply IH. intros y z ? ?. apply HR; by right.
  - apply Forall_forall. intros y Hy. apply HR; [left|by right|]. by eapply Forall_forall in Hx.
Qed.

(** Pairwise different elements. *)
Lemma StronglySorted_distinct {A} (l : list A) : NoDup l → StronglySorted (λ x y, x ≠ y) l.
Proof.
  induction 1 as [|x l Hx Hnd IH]; constructor; [done|]. apply Forall_forall. by intros y Hy ->.
Qed.

(** Sorting by a key of integers, descending. *)
#[export] Instance desc_preorder {A} (key : A → Z) P :
  PreorderOn (λ a b : A, Z.compare (key b) (key a)) P.
Proof.
  split.
  - intros x y _ _. rewrite Z.compare_gt_iff. intros ? ?%Z.compare_gt_iff. lia.
  - intros x y z _ _ _. rewrite !Z.compare_gt_iff. lia.
Qed.

(** [sort_by_key] by text. *)
Lemma text_compare (a b : string) : String.compare a b ≠ Gt ↔ String.le a b.
Proof. unfold String.le, String.leb. destruct (String.compare a b); split; done. Qed.

#[export] Instance text_preorder {A} (key : A → string) P :
  PreorderOn (λ a b : A, String.compare (key a) (key b)) P.
Proof.
  split.
  - intros x y _ _ Hgt. apply text_compare. destruct (total String.le (key y) (key x)) as [?|Hle]; [done|].
    apply text_compare in Hle. done.
  - intros x y z _ _ _. rewrite !text_compare. intros ? ?. by transitivity (key y).
Qed.

Section facts.
Context {UC1 : Uuid ChunkId} {UL : UuidLaws ChunkId} {UC2 : Uuid RetrievalEpisodeId}.
Context {UEL : UuidLaws RetrievalEpisodeId} {SHA : Sha256} {UN : Unicode}.
Context {US : UnicodeSegmentation} {JT : JsonText} {PF : Powf} {EX : Exp}.
Context {HS : HashIter string} {HI : HashIter ChunkId}.

(* ------------------------------------------------------------------ *)
(** ** The relation *)

Definition events_map (l : list OutcomeEvent) : gmap OutcomeEventId OutcomeEvent :=
  list_to_map (map (λ e, (oe_event_id e, e)) l).

Definition memory_project (s : MemoryStore) (t : TenantId) (c : ChunkId) : option (option string) :=
  mc_project_id <$> tenant_chunks (TenantId.as_str t) s !! uuid_to_string c.

Definition outcomes_at (s : MemoryStore) (id : RetrievalEpisodeId) : list OutcomeEvent :=
  default [] (ms_outcome_events s !! uuid_to_string id).

Record memory_rep (s : MemoryStore) (origin : Origin) (m : Model) : Prop := {
  mr_ok : model_ok m;
  mr_origin t c : memory_project s t c = origin t c;
  mr_entry k e items : ms_retrieval_episodes s !! k = Some (e, items) →
    ∃ id st, m !! id = Some st ∧ k = uuid_to_string id ∧ e = es_episode st ∧
      NoDup (map ri_chunk_id items) ∧ items_map items = es_items st;
  mr_episode id st : m !! id = Some st → is_Some (ms_retrieval_episodes s !! uuid_to_string id);
  mr_once id : NoDup (map oe_event_id (outcomes_at s id));
  mr_events id : events_map (outcomes_at s id) = match m !! id with Some st => es_events st | None => ∅ end;
}.

Lemma uuid_text_inj {I} `{UuidLaws I} (x y : I) : uuid_to_string x = uuid_to_string y ↔ x = y.
Proof. split; [apply uuid_to_string_inj|by intros ->]. Qed.

Lemma events_keys l : map fst (map (λ e, (oe_event_id e, e)) l) = map oe_event_id l.
Proof. rewrite map_map. by apply map_ext. Qed.

Lemma events_map_Some l eid ev :
  NoDup (map oe_event_id l) → events_map l !! eid = Some ev ↔ ev ∈ l ∧ oe_event_id ev = eid.
Proof.
  intros Hnd. unfold events_map. rewrite <- elem_of_list_to_map by (by rewrite <- (events_keys l) in Hnd).
  rewrite list_elem_of_fmap. naive_solver.
Qed.

Lemma events_map_perm l : NoDup (map oe_event_id l) → l ≡ₚ map snd (map_to_list (events_map l)).
Proof.
  intros Hnd. unfold events_map. rewrite map_to_list_to_map by (by rewrite <- (events_keys l) in Hnd).
  rewrite map_map. by rewrite map_id.
Qed.

Lemma events_map_snoc l ev :
  oe_event_id ev ∉ map oe_event_id l → events_map (l ++ [ev]) = <[oe_event_id ev := ev]> (events_map l).
Proof.
  intros Hn. unfold events_map. rewrite map_app. apply list_to_map_snoc.
  by change (?f <$> ?x) with (map f x); rewrite events_keys.
Qed.

Section queries.
Context (s : MemoryStore) (origin : Origin) (m : Model) (R : memory_rep s origin m).

(** The stored episode, with the map's candidates in some order. *)
Lemma memory_episode t id :
  match episode_of t id m with
  | Some st => ∃ items, memory_get_retrieval_episode t id s = Some (es_episode st, items) ∧
      ms_retrieval_episodes s !! uuid_to_string id = Some (es_episode st, items) ∧
      NoDup (map ri_chunk_id items) ∧ items_map items = es_items st ∧ items ≡ₚ items_list (es_items st)
  | None => memory_get_retrieval_episode t id s = None
  end.
Proof using UEL R.
  unfold memory_get_retrieval_episode, episode_of.
  destruct (m !! id) as [st|] eqn:Em; cbn [mbind option_bind].
  - destruct (mr_episode _ _ _ R _ _ Em) as [[e items] Ek].
    destruct (mr_entry _ _ _ R _ _ _ Ek) as (id' & st' & Em' & ->%uuid_to_string_inj & -> & Hnd & Him).
    assert (st' = st) as -> by congruence. rewrite Ek. cbn [mbind option_bind].
    case_bool_decide; [|done]. exists items. split_and!; [done..|].
    apply items_list_perm; [|done..]. apply (so_keyed _ _ (mr_ok _ _ _ R _ _ Em)).
  - destruct (ms_retrieval_episodes s !! uuid_to_string id) as [[e items]|] eqn:Ek; [|done].
    destruct (mr_entry _ _ _ R _ _ _ Ek) as (id' & st' & Em' & ->%uuid_to_string_inj & _). congruence.
Qed.

Lemma memory_key_free id : ms_retrieval_episodes s !! uuid_to_string id = None ↔ m !! id = None.
Proof using UEL R.
  split; intros E; apply eq_None_not_Some.
  - intros [st Em]. destruct (mr_episode _ _ _ R _ _ Em). congruence.
  - intros [[e items] Ek]. destruct (mr_entry _ _ _ R _ _ _ Ek) as (id' & st' & Em' & ->%uuid_to_string_inj & _).
    congruence.
Qed.

Lemma memory_outcomes id st : m !! id = Some st → outcomes_at s id ≡ₚ map snd (map_to_list (es_events st)).
Proof using R.
  intros Em. pose proof (mr_events _ _ _ R id) as E. rewrite Em in E. rewrite <- E.
  by apply events_map_perm, (mr_once _ _ _ R).
Qed.

Lemma memory_check_origins_ok items :
  is_ok (try_fold (λ _ item, memory_check_origin (ms_chunks s) item) items ()) = true ↔
  Forall (λ i, origin (ri_origin_tenant_id i) (ri_chunk_id i) = Some (ri_origin_project_id i)) items.
Proof using R.
  induction items as [|i items IH]; cbn [try_fold]; [done|]. rewrite Forall_cons, <- IH. clear IH.
  rewrite <- (mr_origin _ _ _ R). unfold memory_check_origin at 2, memory_project, tenant_chunks.
  destruct (ms_chunks s !! _) as [chunks|]; cbn; [|rewrite lookup_empty; naive_solver].
  unfold id. destruct (chunks !! _) as [chunk|]; cbn; [|naive_solver].
  destruct (decide (mc_project_id chunk = ri_origin_project_id i)) as [E|E].
  - rewrite bool_decide_false by auto. split; [intros ?; split; [by f_equal|done]|by intros [_ ?]].
  - rewrite bool_decide_true by done. split; [done|]. intros [[= ?] _]. done.
Qed.
End queries.

(* ------------------------------------------------------------------ *)
(** ** The methods that write *)

(** Writing an entry of an episode whose outcomes stay. *)
Lemma memory_rep_entry s origin m m' id st items :
  memory_rep s origin m → model_ok m' → m' !! id = Some st → (∀ id', id' ≠ id → m' !! id' = m !! id') →
  es_events st = match m !! id with Some st0 => es_events st0 | None => ∅ end →
  NoDup (map ri_chunk_id items) → items_map items = es_items st →
  memory_rep (with_ms_episodes (<[uuid_to_string id := (es_episode st, items)]> (ms_retrieval_episodes s)) s) origin m'.
Proof using UEL.
  intros R Hok Em Hm He Hnd Him. split; [done|apply R| | |apply R|].
  - cbn [with_ms_episodes ms_retrieval_episodes].
    intros k e items' [[<- [= <- <-]]|[Hne Hk]]%lookup_insert_Some; [by exists id, st|].
    destruct (mr_entry _ _ _ R _ _ _ Hk) as (id' & st' & Em' & -> & -> & ? & ?).
    exists id', st'. rewrite Hm by (intros ->; done). done.
  - intros id' st' Em'. cbn. apply lookup_insert_is_Some. destruct (decide (id' = id)) as [->|Hne]; [by left|].
    right. split; [by intros ?%uuid_to_string_inj|]. rewrite Hm in Em' by done. by apply (mr_episode _ _ _ R _ _ Em').
  - intros id'. change (outcomes_at (with_ms_episodes _ s) id') with (outcomes_at s id').
    rewrite (mr_events _ _ _ R). destruct (decide (id' = id)) as [->|Hne]; [by rewrite Em|by rewrite Hm].
Qed.

Lemma memory_record s origin m e items :
  memory_rep s origin m →
  (recordable origin m e items ∧ ∃ s', memory_record_retrieval_episode e items s = (Ok (), s') ∧
     memory_rep s' origin (effect (RecordEpisode e items) m)) ∨
  (¬ recordable origin m e items ∧ ∃ err, memory_record_retrieval_episode e items s = (Err err, s)).
Proof using UEL.
  intros R. unfold memory_record_retrieval_episode, recordable.
  destruct (validate_retrieval_episode e items) as [[]|err] eqn:Ev; cbn [mbind result_bind].
  2:{ right. split; [|eauto]. intros (Hv & _). apply validate_episode_ok in Hv. congruence. }
  apply validate_episode_ok in Ev. pose proof (memory_check_origins_ok _ _ _ R items) as Ho.
  destruct (try_fold _ items ()) as [[]|err]; cbn [mbind result_bind].
  2:{ right. split; [|eauto]. intros (_ & _ & Hor). by apply Ho in Hor. }
  pose proof (proj1 Ho eq_refl) as Hor. pose proof (memory_key_free _ _ _ R (re_episode_id e)) as Hk.
  case_bool_decide as Ek.
  { right. split; [|eauto]. intros (_ & Hn & _). apply Hk in Hn. rewrite Hn in Ek. by destruct Ek. }
  apply eq_None_not_Some in Ek. apply Hk in Ek. left. split; [done|]. eexists. split; [done|].
  apply (memory_rep_entry _ _ m _ (re_episode_id e) (mkEpisodeState e (items_map items) ∅)); [done| | | | |apply Ev|done].
  - by apply (effect_ok origin); [apply R|].
  - apply lookup_insert_eq.
  - intros id' Hne. by apply lookup_insert_ne.
  - by rewrite Ek.
Qed.

Lemma memory_finalize s origin m t id ids :
  memory_rep s origin m →
  (finalizable m t id ids ∧ ∃ s', memory_finalize_retrieval_episode t id ids s = Some (Ok (), s') ∧
     memory_rep s' origin (effect (FinalizeEpisode t id ids) m)) ∨
  (¬ finalizable m t id ids ∧ ∃ err, memory_finalize_retrieval_episode t id ids s = Some (Err err, s)).
Proof using UEL.
  intros R. unfold memory_finalize_retrieval_episode. pose proof (memory_episode _ _ _ R t id) as Hep.
  destruct (episode_of t id m) as [st|] eqn:Est.
  2:{ right. rewrite Hep. split; [|eauto]. intros (st & E & _). congruence. }
  destruct Hep as (items & -> & Ek & Hnd & Him & Hp). pose proof Est as [Em _]%episode_of_Some.
  destruct (mr_ok _ _ _ R _ _ Em) as [Hid HM Hv _].
  destruct (apply_rendered_exact (es_episode st) items ids) as [[Hr ->]|(Hr & err & ->)];
    [eapply valid_episode_perm; [symmetry|]; done| |]; cbn [mbind option_bind].
  - left. assert (Hf : finalizable m t id ids).
    { exists st. split; [done|]. destruct Hr as (? & ? & Hin). split_and!; [done..|]. intros c. rewrite <- Hp. apply Hin. }
    split; [done|]. eexists. split; [done|].
    apply (memory_rep_entry _ _ m _ id (finalized ids st)); [done| | | | | |].
    + by apply (effect_ok origin); [apply R|].
    + cbn [effect]. by rewrite lookup_alter_eq, Em.
    + intros id' Hne. by apply lookup_alter_ne.
    + by rewrite Em.
    + by rewrite project_chunks.
    + cbn. by rewrite <- Him, items_map_project.
  - right. rewrite insert_id by done. split; [|by destruct s; eauto].
    intros (st' & E & (? & ? & Hin)). simplify_eq. apply Hr. split_and!; [done..|].
    intros c. rewrite Hp. apply Hin.
Qed.

(** Only what the lists of outcomes say matters. *)
Lemma memory_rep_outcomes s origin m outcomes :
  memory_rep s origin m →
  (∀ id, default [] (outcomes !! uuid_to_string id) = outcomes_at s id) →
  memory_rep (with_ms_outcomes outcomes s) origin m.
Proof using Type.
  intros R Ho. split; [apply R..| |]; intros id; unfold outcomes_at; cbn [with_ms_outcomes ms_outcome_events];
    rewrite Ho; apply R.
Qed.

Lemma memory_attributed s origin m t ev :
  memory_rep s origin m → attributable m t ev →
  oe_event_id ev ∉ map oe_event_id (outcomes_at s (oe_episode_id ev)) →
  memory_rep (with_ms_outcomes (<[uuid_to_string (oe_episode_id ev) := outcomes_at s (oe_episode_id ev) ++ [ev]]>
                (ms_outcome_events s)) s) origin (effect (RecordOutcome t ev) m).
Proof using UEL.
  intros R Ha Hn. pose proof Ha as (st & Em & _ & _). set (id := oe_episode_id ev) in *.
  assert (Hat : ∀ id', outcomes_at (with_ms_outcomes (<[uuid_to_string id := outcomes_at s id ++ [ev]]>
                  (ms_outcome_events s)) s) id' =
                if decide (id' = id) then outcomes_at s id ++ [ev] else outcomes_at s id').
  { intros id'. unfold outcomes_at at 1. cbn [with_ms_outcomes ms_outcome_events].
    destruct (decide (id' = id)) as [->|Hne]; [by rewrite lookup_insert_eq|].
    by rewrite lookup_insert_ne by (by intros ?%uuid_to_string_inj). }
  split.
  - by apply (effect_ok origin); [apply R|].
  - apply R.
  - intros k e items Hk. destruct (mr_entry _ _ _ R _ _ _ Hk) as (id' & st' & Em' & -> & -> & Hnd & Him).
    cbn [effect]. destruct (decide (id = id')) as [<-|Hne].
    + exists id, (attributed_to ev st'). fold id. rewrite lookup_alter_eq, Em'. done.
    + exists id', st'. fold id. rewrite lookup_alter_ne by done. done.
  - intros id' st' E. cbn [effect] in E. apply lookup_alter_Some in E as [(<- & st0 & E & _)|[_ E]];
      apply (mr_episode _ _ _ R _ _ E).
  - intros id'. rewrite Hat. destruct (decide _); [|apply R]. rewrite map_app. apply NoDup_app.
    split_and!; [apply R| |apply NoDup_singleton]. intros x Hx ->%list_elem_of_singleton. done.
  - intros id'. rewrite Hat. cbn [effect]. fold id. destruct (decide (id' = id)) as [->|Hne].
    + rewrite lookup_alter_eq, Em. cbn. rewrite events_map_snoc by done. f_equal.
      rewrite (mr_events _ _ _ R). by rewrite Em.
    + rewrite lookup_alter_ne by done. apply R.
Qed.

Lemma memory_outcome s origin m t ev :
  memory_rep s origin m →
  (attributable m t ev ∧ ∃ s', memory_record_outcome t ev s = (Ok (), s') ∧
     memory_rep s' origin (effect (RecordOutcome t ev) m)) ∨
  (¬ attributable m t ev ∧ ∃ err s', memory_record_outcome t ev s = (Err err, s') ∧ memory_rep s' origin m).
Proof using UEL.
  intros R. unfold memory_record_outcome. set (id := oe_episode_id ev).
  pose proof (memory_episode _ _ _ R t id) as Hep.
  destruct (episode_of t id m) as [st|] eqn:Est.
  2:{ right. rewrite Hep. split; [|eauto]. intros (st & Em & _ & [Ht _ _ _ _ _ _ _ _ _]).
      assert (episode_of t id m = Some st) by (by apply episode_of_Some). congruence. }
  destruct Hep as (items & -> & _ & _ & _ & Hp). pose proof Est as [Em _]%episode_of_Some.
  destruct (validate_outcome_event t (es_episode st) items ev) as [[]|err] eqn:Ev.
  2:{ right. split; [|eauto]. intros (st' & Em' & _ & Hv). fold id in Em'. simplify_eq.
      apply (valid_outcome_perm _ _ _ items) in Hv; [|done]. apply validate_outcome_ok in Hv. congruence. }
  apply validate_outcome_ok in Ev. apply (valid_outcome_perm _ _ _ _ _ Hp) in Ev.
  fold (outcomes_at s id). pose proof (mr_once _ _ _ R id) as Hnd. pose proof (mr_events _ _ _ R id) as Hev.
  rewrite Em in Hev.
  assert (Hx : existsb (λ existing, bool_decide (oe_event_id existing = oe_event_id ev)) (outcomes_at s id) = true
               ↔ oe_event_id ev ∈ map oe_event_id (outcomes_at s id)).
  { rewrite existsb_exists, list_elem_of_fmap. setoid_rewrite list_elem_of_In.
    split; [intros (x & ? & E%bool_decide_eq_true)|intros (x & E & ?)]; exists x; [done|].
    split; [done|]. by apply bool_decide_eq_true. }
  destruct (existsb _ _) eqn:Ex.
  - right. split.
    + intros (st' & Em' & Hn & _). fold id in Em'. simplify_eq. rewrite <- Hev in Hn.
      pose proof (proj1 Hx eq_refl) as (x & E & Hin)%list_elem_of_fmap.
      assert (events_map (outcomes_at s id) !! oe_event_id ev = Some x) by (by apply events_map_Some). congruence.
    + eexists _, _. split; [done|]. apply (memory_rep_outcomes s); [done|].
      intros id'. unfold outcomes_at. cbn. destruct (decide (id' = id)) as [->|Hne].
      * by rewrite lookup_insert_eq.
      * by rewrite lookup_insert_ne by (by intros ?%uuid_to_string_inj).
  - assert (Hn : oe_event_id ev ∉ map oe_event_id (outcomes_at s id)) by (intros Hin; by apply Hx in Hin).
    left. assert (Ha : attributable m t ev).
    { exists st. split_and!; [done| |done]. rewrite <- Hev. apply eq_None_not_Some. intros [x Hxx].
      apply events_map_Some in Hxx as [Hin E]; [|done]. apply Hn. rewrite <- E. apply list_elem_of_fmap. eauto. }
    split; [done|]. eexists. split; [done|]. by apply memory_attributed.
Qed.

(* ------------------------------------------------------------------ *)
(** ** Priors *)

Definition seen_rep (seen : gset (string * ChunkId)) (s : gset (RetrievalEpisodeId * ChunkId)) : Prop :=
  ∀ id c, (uuid_to_string id, c) ∈ seen ↔ (id, c) ∈ s.

(** The loops of one event, as votes. *)
Definition event_votes (id : RetrievalEpisodeId) (eligible : gset ChunkId) (ev : OutcomeEvent)
    : list (RetrievalEpisodeId * ChunkId * OutcomeEvent) :=
  map (λ c, (id, c, ev)) (List.filter (λ c, bool_decide (c ∈ eligible)) (attribution ev)).

Section priors.
Variable now : Z.

(** [seen] mirrors the tally. *)
Definition mirrors (ms : MemoryPriors) (ts : Tally) : Prop := ms.1 = ts.1 ∧ seen_rep ms.2 ts.2.

Lemma mirrors_chunk id eligible ev cs : ∀ ms ts,
  mirrors ms ts →
  mirrors (foldl (memory_prior_chunk (uuid_to_string id) eligible now ev) ms cs)
    (foldl (tally_step now) ts (map (λ c, (id, c, ev)) (List.filter (λ c, bool_decide (c ∈ eligible)) cs))).
Proof using UEL.
  induction cs as [|c cs IH]; intros [p seen] [p' sn] [Hp Hs]; cbn [foldl List.filter map]; [done|].
  cbn in Hp. subst p'. change (seen_rep seen sn) in Hs. destruct (bool_decide (c ∈ eligible)) eqn:Ee; cbn [foldl map].
  - apply IH. unfold memory_prior_chunk, tally_step. rewrite Ee. cbn [negb orb fst snd].
    rewrite (bool_decide_ext _ _ (Hs id c)). destruct (bool_decide ((id, c) ∈ sn)); (split; [done|]); [exact Hs|].
    cbn. intros id' c'. rewrite !elem_of_union, !elem_of_singleton, (Hs id' c'), !pair_equal_spec, uuid_text_inj. done.
  - apply IH. unfold memory_prior_chunk. rewrite Ee. by split; [|exact Hs].
Qed.

Lemma mirrors_events id eligible evs : ∀ ms ts,
  mirrors ms ts →
  mirrors (foldl (memory_prior_event (uuid_to_string id) eligible now) ms evs)
    (foldl (tally_step now) ts (flat_map (event_votes id eligible) evs)).
Proof using UEL.
  induction evs as [|ev evs IH]; intros ms ts Hm; cbn [foldl flat_map]; [done|]. rewrite foldl_app. apply IH.
  unfold memory_prior_event, event_votes, attribution.
  destruct (credits_used _); [by apply mirrors_chunk|]. destruct (credits_harmful _); [by apply mirrors_chunk|done].
Qed.

Context (s : MemoryStore) (origin : Origin) (m : Model) (R : memory_rep s origin m).
Context (t : TenantId) (project : option string) (ids : list ChunkId).

Definition eligible_of (items : list RetrievalEpisodeItem) : gset ChunkId :=
  list_to_set (List.filter (λ c, bool_decide (c ∈ (list_to_set ids : gset ChunkId))) (map ri_chunk_id items)).

(** The votes of an entry of the map. *)
Definition entry_votes (entry : string * (RetrievalEpisode * list RetrievalEpisodeItem))
    : list (RetrievalEpisodeId * ChunkId * OutcomeEvent) :=
  let '(key, (e, items)) := entry in
  if bool_decide (re_tenant_id e = t) && bool_decide (re_project_id e = project)
  then flat_map (event_votes (re_episode_id e) (eligible_of items))
         (ranking_events now (default [] (ms_outcome_events s !! key)))
  else [].

Lemma entry_id key e items :
  ms_retrieval_episodes s !! key = Some (e, items) → key = uuid_to_string (re_episode_id e).
Proof using R.
  intros (id & st & Em & -> & -> & _)%(mr_entry _ _ _ R). by rewrite (so_id _ _ (mr_ok _ _ _ R _ _ Em)).
Qed.

Lemma mirrors_entries entries : ∀ ms ts,
  (∀ k v, (k, v) ∈ entries → ms_retrieval_episodes s !! k = Some v) → mirrors ms ts →
  mirrors (foldl (memory_prior_episode s t project (list_to_set ids) now) ms entries)
    (foldl (tally_step now) ts (flat_map entry_votes entries)).
Proof using UEL R.
  induction entries as [|[key [e items]] entries IH]; intros ms ts Hin Hm; cbn [foldl flat_map]; [done|].
  rewrite foldl_app. apply IH; [intros k v ?; apply Hin; by right|].
  rewrite (entry_id key e items) by (apply Hin; left). unfold memory_prior_episode, entry_votes.
  destruct (decide (re_tenant_id e = t)) as [Et|Et].
  2:{ by rewrite (bool_decide_true (re_tenant_id e ≠ t)), (bool_decide_false (re_tenant_id e = t)) by done. }
  rewrite (bool_decide_false (re_tenant_id e ≠ t)), (bool_decide_true (re_tenant_id e = t)) by auto. cbn [orb andb].
  destruct (decide (re_project_id e = project)) as [Ep|Ep].
  2:{ by rewrite (bool_decide_true (re_project_id e ≠ project)), (bool_decide_false (re_project_id e = project)) by done. }
  rewrite (bool_decide_false (re_project_id e ≠ project)), (bool_decide_true (re_project_id e = project)) by auto.
  fold (eligible_of items). destruct (decide (eligible_of items = ∅)) as [Ee|Ee];
    [rewrite bool_decide_true by done|rewrite bool_decide_false by done; by apply mirrors_events].
  replace (flat_map _ _) with (@nil (RetrievalEpisodeId * ChunkId * OutcomeEvent)); [done|].
  rewrite Ee. generalize (ranking_events now (default [] (ms_outcome_events s !! uuid_to_string (re_episode_id e)))) as evs.
  induction evs as [|ev evs IHe]; cbn [flat_map]; [done|]. rewrite <- IHe, app_nil_r. unfold event_votes.
  induction (attribution ev) as [|c cs IHc]; [done|]. cbn [List.filter].
  by rewrite bool_decide_false by apply not_elem_of_empty.
Qed.

Lemma ranking_events_elem events ev :
  ev ∈ ranking_events now events ↔ ev ∈ events ∧ contributes_to_ranking ev = true ∧ oe_timestamp_ms ev ≤ now.
Proof.
  unfold ranking_events. by rewrite filter_bool_elem, elem_of_sort_by, andb_true_iff, Z.leb_le.
Qed.

Lemma event_votes_elem id eligible ev id' c ev' :
  (id', c, ev') ∈ event_votes id eligible ev ↔ id' = id ∧ ev' = ev ∧ c ∈ eligible ∧ c ∈ attribution ev.
Proof.
  unfold event_votes. rewrite list_elem_of_fmap. setoid_rewrite filter_bool_elem. setoid_rewrite bool_decide_eq_true.
  naive_solver.
Qed.

Lemma event_votes_time id eligible ev x : x ∈ event_votes id eligible ev → x = (id, x.1.2, ev).
Proof. destruct x as [[id' c] ev']. intros (-> & -> & _)%event_votes_elem. done. Qed.

Lemma entry_votes_elem key e items x :
  x ∈ entry_votes (key, (e, items)) ↔
  re_tenant_id e = t ∧ re_project_id e = project ∧ ∃ ev,
    ev ∈ ranking_events now (default [] (ms_outcome_events s !! key)) ∧
    x ∈ event_votes (re_episode_id e) (eligible_of items) ev.
Proof.
  unfold entry_votes. destruct (_ && _) eqn:E.
  - apply andb_true_iff in E as [?%bool_decide_eq_true ?%bool_decide_eq_true].
    rewrite list_elem_of_In, in_flat_map. setoid_rewrite <- list_elem_of_In. naive_solver.
  - split; [by intros ?%elem_of_nil|]. intros (? & ? & _).
    by rewrite !bool_decide_true in E by done.
Qed.

Lemma entry_votes_sorted entry : StronglySorted not_newer (entry_votes entry).
Proof.
  destruct entry as [key [e items]]. unfold entry_votes. destruct (_ && _); [|constructor].
  apply StronglySorted_flat_map.
  - eapply StronglySorted_impl_in; [|apply StronglySorted_filter_bool, (sort_by_sorted _ (λ _, True)), Forall_true; done].
    intros x y _ _ Hxy a b Ha%event_votes_time Hb%event_votes_time _. rewrite Ha, Hb. cbn.
    unfold cmp_le, newest_outcome_first in Hxy. rewrite Z.compare_gt_iff in Hxy. lia.
  - intros ev _. apply StronglySorted_same. intros x y Hx%event_votes_time Hy%event_votes_time _.
    rewrite Hx, Hy. done.
Qed.

Lemma votes_sorted : StronglySorted not_newer (flat_map entry_votes (hash_iter (ms_retrieval_episodes s))).
Proof using R UEL.
  apply StronglySorted_flat_map; [|intros ? _; apply entry_votes_sorted].
  apply (StronglySorted_impl_in (λ x y : string * _, x.1 ≠ y.1)).
  - intros [k [e items]] [k' [e' items']] Hx Hy Hne [[i c] ev] [[i' c'] ev'] Ha Hb E. exfalso. apply Hne.
    apply entry_votes_elem in Ha as (_ & _ & v & _ & (-> & _)%event_votes_elem).
    apply entry_votes_elem in Hb as (_ & _ & v' & _ & (-> & _)%event_votes_elem).
    rewrite hash_iter_perm in Hx, Hy. apply elem_of_map_to_list in Hx, Hy.
    cbn in *. by rewrite (entry_id _ _ _ Hx), (entry_id _ _ _ Hy), E.
  - assert (Hnd : NoDup (hash_iter (ms_retrieval_episodes s)).*1)
      by (rewrite hash_iter_perm; apply NoDup_fst_map_to_list).
    apply StronglySorted_distinct in Hnd. revert Hnd. generalize (hash_iter (ms_retrieval_episodes s)) as l.
    induction l as [|x l IH]; cbn; [constructor|]. intros Hs. inversion Hs as [|? ? Hs' Hf]; subst.
    constructor; [by apply IH|]. apply Forall_forall. intros y Hy. rewrite Forall_forall in Hf.
    apply Hf, list_elem_of_fmap. eauto.
Qed.

Lemma votes_iff id c ev :
  (id, c, ev) ∈ flat_map entry_votes (hash_iter (ms_retrieval_episodes s)) ↔
  c ∈ ids ∧ may_vote m t project now c id ev.
Proof using R UEL.
  rewrite list_elem_of_In, in_flat_map. setoid_rewrite <- list_elem_of_In. split.
  - intros ([key [e items]] & Hin & (Ht & Hp & ev' & Hev & Hv)%entry_votes_elem).
    rewrite hash_iter_perm in Hin. apply elem_of_map_to_list in Hin.
    apply event_votes_elem in Hv as (-> & <- & Hel & Hat).
    destruct (mr_entry _ _ _ R _ _ _ Hin) as (id' & st & Em & -> & -> & Hnd & Him).
    rewrite (so_id _ _ (mr_ok _ _ _ R _ _ Em)). apply ranking_events_elem in Hev as (Hev & Hc & Hle).
    unfold eligible_of in Hel. rewrite elem_of_list_to_set, filter_bool_elem, bool_decide_eq_true, elem_of_list_to_set in Hel.
    split; [apply Hel|]. exists st. split_and!; [by apply episode_of_Some|done| |done..].
    pose proof (mr_events _ _ _ R id') as E. rewrite Em in E. rewrite <- E.
    apply events_map_Some; [apply R|]. done.
  - intros (Hc & st & Est & Hp & Hev & Hle & Hctr & Hat). pose proof Est as [Em Ht]%episode_of_Some.
    pose proof (memory_episode _ _ _ R t id) as Hep. rewrite Est in Hep.
    destruct Hep as (items & _ & Ek & Hnd & Him & _).
    exists (uuid_to_string id, (es_episode st, items)). split.
    { rewrite hash_iter_perm. by apply elem_of_map_to_list. }
    apply entry_votes_elem. split_and!; [done..|]. exists ev. split.
    + apply ranking_events_elem. split_and!; [|done..]. fold (outcomes_at s id).
      pose proof (mr_events _ _ _ R id) as E. rewrite Em in E. rewrite <- E in Hev.
      by apply events_map_Some in Hev as [? _]; [|apply R].
    + apply event_votes_elem. split_and!; [by rewrite (so_id _ _ (mr_ok _ _ _ R _ _ Em))|done| |done].
      unfold eligible_of. rewrite elem_of_list_to_set, filter_bool_elem, bool_decide_eq_true, elem_of_list_to_set.
      split; [|done].
      destruct (so_events _ _ (mr_ok _ _ _ R _ _ Em) _ _ Hev) as [_ [_ _ _ Hcand _]].
      assert (is_Some (es_items st !! c)) as [it Eit].
      { apply Hcand. unfold attribution in Hat. rewrite elem_of_app.
        destruct (credits_used _); [by left|]. destruct (credits_harmful _); [by right|by apply elem_of_nil in Hat]. }
      rewrite <- Him in Eit. apply items_map_Some in Eit as [Hit <-]; [|done].
      apply list_elem_of_fmap. eauto.
Qed.

Lemma memory_priors : priors_of m t project ids now (memory_outcome_priors t project ids now s).
Proof using R UEL UL.
  unfold memory_outcome_priors. case_bool_decide as Ereq.
  { assert (ids = []) as -> by (destruct ids; [done|set_solver]).
    split; [constructor|constructor|by intros ? ?%elem_of_nil|by intros ? ? ? ?%elem_of_nil]. }
  destruct (mirrors_entries (hash_iter (ms_retrieval_episodes s)) (∅, ∅) (∅, ∅)) as [E _].
  { intros k v. rewrite hash_iter_perm. by intros ?%elem_of_map_to_list. }
  { split; [done|]. intros ? ?. cbn. set_solver. }
  apply (tally_priors_of now m t project ids (flat_map entry_votes (hash_iter (ms_retrieval_episodes s)))).
  - apply votes_sorted.
  - intros id c ev. apply votes_iff.
  - eapply StronglySorted_impl_in; [|apply (sort_by_sorted _ (λ _, True)), Forall_true; done].
    intros x y _ _. apply text_compare.
  - rewrite sort_by_Permutation, hash_iter_perm. unfold tally. by rewrite E.
Qed.
End priors.

(* ------------------------------------------------------------------ *)
(** ** The instance *)

#[export] Instance memory_episodes : EpisodeStore MemoryStore := {
  st_record_retrieval_episode := memory_record_retrieval_episode;
  st_get_retrieval_episode t id s := Ok (memory_get_retrieval_episode t id s);
  st_finalize_retrieval_episode := memory_finalize_retrieval_episode;
  st_record_outcome := memory_record_outcome;
  st_list_outcomes_for_episode t id s := Ok (memory_list_outcomes_for_episode t id s);
  st_outcome_priors t project ids now s := Ok (memory_outcome_priors t project ids now s);
}.

Lemma memory_simulates (s : MemoryStore) origin m cmd :
  memory_rep s origin m → cmd_fits m cmd →
  ∃ a s' m', exec cmd s = Some (a, s') ∧ answers origin m cmd a ∧ step origin m cmd m' ∧ memory_rep s' origin m'.
Proof using UEL UL.
  intros R _. destruct cmd as [e items|t id|t id ids|t ev|t id|t project ids now].
  - destruct (memory_record _ _ _ e items R) as [(Ha & s' & E & R')|(Ha & err & E)].
    + exists (Done true), s', (effect (RecordEpisode e items) m). cbn. rewrite E. split_and!; [done|done|by apply step_done|done].
    + exists (Done false), s, m. cbn. rewrite E. split_and!; [done|by split|by apply step_refused|done].
  - exists (AnEpisode (memory_get_retrieval_episode t id s)), s, m.
    split_and!; [done| |by apply step_refused; intros []|done].
    cbn. pose proof (memory_episode _ _ _ R t id) as Hep.
    destruct (episode_of t id m) as [st|]; [|by rewrite Hep].
    destruct Hep as (items & -> & _ & _ & _ & Hp). done.
  - destruct (memory_finalize _ _ _ t id ids R) as [(Ha & s' & E & R')|(Ha & err & E)].
    + exists (Done true), s', (effect (FinalizeEpisode t id ids) m). cbn. rewrite E.
      split_and!; [done|done|by apply step_done|done].
    + exists (Done false), s, m. cbn. rewrite E. split_and!; [done|by split|by apply step_refused|done].
  - destruct (memory_outcome _ _ _ t ev R) as [(Ha & s' & E & R')|(Ha & err & s' & E & R')].
    + exists (Done true), s', (effect (RecordOutcome t ev) m). cbn. rewrite E. split_and!; [done|done|by apply step_done|done].
    + exists (Done false), s', m. cbn. rewrite E. split_and!; [done|by split|by apply step_refused|done].
  - exists (TheOutcomes (memory_list_outcomes_for_episode t id s)), s, m.
    split_and!; [done| |by apply step_refused; intros []|done].
    cbn. unfold memory_list_outcomes_for_episode. pose proof (memory_episode _ _ _ R t id) as Hep.
    destruct (episode_of t id m) as [st|] eqn:Est; [|by rewrite Hep].
    destruct Hep as (items & -> & _). pose proof Est as [Em _]%episode_of_Some.
    by apply (memory_outcomes _ _ _ R).
  - exists (ThePriors (memory_outcome_priors t project ids now s)), s, m.
    split_and!; [done| |by apply step_refused; intros []|done]. cbn. by apply (memory_priors now s origin).
Qed.

#[export] Instance memory_episodes_laws : EpisodeStoreLaws MemoryStore := {
  represents := memory_rep;
  simulates := memory_simulates;
}.
End facts.
