(* ===== verification/EpisodeProps.v ===== *)
(** * What the stores promise about retrieval episodes

    The SQLite tables and the in-memory store against the abstract episodes
    of EpisodeStore.v: refinement, agreement, the validity of what is stored,
    the priors, the rewriting of the rendered order. *)

From S2P Require Import Prelude Crates Types Str Concrete Metadata Ranking Fusion Outcome.
From S2P Require Import EpisodeStore Episodes EpisodesFacts MemoryStore MemoryFacts.
From Stdlib Require Import Floats.SpecFloat Ascii.

Open Scope Z_scope.

Section props.
Context {UC1 : Uuid ChunkId} {UL1 : UuidLaws ChunkId}.
Context {UC2 : Uuid RetrievalEpisodeId} {UL2 : UuidLaws RetrievalEpisodeId}.
Context {UC3 : Uuid OutcomeEventId} {UL3 : UuidLaws OutcomeEventId}.
Context {JT : JsonText} {JTL : JsonTextLaws} {PF : Powf} {TS : TableScan}.
Context {HI : HashIter ChunkId} {HS : HashIter string}.

(** A writable store with these chunks and no episodes. *)
Definition sqlite_with (chunks : ChunkTable) : PersistentEpisodes :=
  mkPersistentEpisodes false (mkEpisodeDb chunks ∅ ∅ ∅).

Lemma sqlite_with_represents chunks :
  persistent_represents (sqlite_with chunks) (chunk_project chunks) ∅.
Proof.
  split; [done|]. split; cbn; [done|done|done| | |]; intros k r; rewrite lookup_empty;
    split; try done; naive_solver.
Qed.

Lemma run_sqlite chunks cmds :
  cmds_fit cmds →
  ∃ l s' m', run cmds (sqlite_with chunks) = Some (l, s') ∧
    history (chunk_project chunks) ∅ cmds l m' ∧ persistent_represents s' (chunk_project chunks) m'.
Proof using All.
  intros Hf. pose proof (run_history (chunk_project chunks) cmds (sqlite_with chunks) (∅ : Model)) as Hrun.
  unfold represents in Hrun. apply Hrun; [apply sqlite_with_represents|by apply cmds_fit_along].
Qed.

(** C25: the tables of retrieval episodes refine the abstract episodes.  Every
    sequence of calls on a writable store, valid or not, returns without a
    panic; each call answers as the abstract state does (a write succeeds
    exactly when it is allowed there) and leaves the tables in the
    representation of the abstract state after it. *)
Theorem sqlite_refines_episodes chunks cmds :
  cmds_fit cmds →
  ∃ l s' m', run cmds (sqlite_with chunks) = Some (l, s') ∧
    history (chunk_project chunks) ∅ cmds l m' ∧ persistent_represents s' (chunk_project chunks) m'.
Proof using All. apply run_sqlite. Qed.

(** the two stores agree on retrieval episodes.  When a SQLite store and
    an in-memory store hold the same chunks and no episodes, every sequence
    of calls gives the same answers on both: the same calls succeed, the same
    episodes are found, with the same candidates and outcomes in some order,
    and the priors speak about the same chunks, with the same number of
    episodes and the same newest outcome. *)
Theorem episode_stores_agree chunks s cmds :
  (∀ t c, memory_project s t c = chunk_project chunks t c) →
  ms_retrieval_episodes s = ∅ → ms_outcome_events s = ∅ → cmds_fit cmds →
  ∃ l k s1 s2, run cmds (sqlite_with chunks) = Some (l, s1) ∧ run cmds s = Some (k, s2) ∧
    Forall2 agree l k.
Proof using All.
  intros Hc He Ho Hf. destruct (run_sqlite chunks cmds Hf) as (l & s1 & m1 & E1 & H1 & _).
  assert (R : memory_rep s (chunk_project chunks) ∅).
  { assert (Hout : ∀ id, outcomes_at s id = []) by (intros id; unfold outcomes_at; by rewrite Ho, lookup_empty).
    split; [done|done| |done| |]; intros; rewrite ?He, ?Hout in *; try done. constructor. }
  pose proof (run_history (chunk_project chunks) cmds s (∅ : Model)) as Hrun. unfold represents in Hrun.
  destruct Hrun as (k & s2 & m2 & E2 & H2 & _); [done|by apply cmds_fit_along|].
  exists l, k, s1, s2. split_and!; [done|done|]. by eapply histories_agree.
Qed.

(** what the tables hold stays valid.  After any sequence of calls, an
    episode that is read back with its candidates passes the validation of a
    new one, and every outcome listed for it belongs to it, lies in its
    retention window, is eligible for ranking exactly when the rules say so
    and attributes only candidates of the episode, each at most once. *)
Theorem stored_episodes_valid chunks cmds l s' t id e items evs :
  cmds_fit cmds → run cmds (sqlite_with chunks) = Some (l, s') →
  get_retrieval_episode t id (pe_db s') = Ok (Some (e, items)) →
  list_outcome_events_for_episode t id (pe_db s') = Ok evs →
  re_episode_id e = id ∧ re_tenant_id e = t ∧ validate_retrieval_episode e items = Ok () ∧
  Forall (λ ev,
    oe_episode_id ev = id ∧ re_created_at_ms e ≤ oe_timestamp_ms ev ≤ re_expires_at_ms e ∧
    NoDup (oe_used_chunk_ids ev ++ oe_harmful_chunk_ids ev) ∧
    (∀ c, c ∈ oe_used_chunk_ids ev ++ oe_harmful_chunk_ids ev → c ∈ map ri_chunk_id items) ∧
    oe_ranking_eligible ev = expected_ranking_eligibility (oe_outcome ev) (oe_verifier ev)
      (negb (is_empty (oe_used_chunk_ids ev))) (negb (is_empty (oe_harmful_chunk_ids ev)))
      (oe_evidence_reference ev)) evs.
Proof using All.
  intros Hf Er Hget Hlist. destruct (run_sqlite chunks cmds Hf) as (l' & s2 & m & Er' & _ & _ & R).
  assert (s2 = s') as -> by congruence. unfold get_retrieval_episode in Hget.
  rewrite (rep_query_episode _ _ _ R) in Hget. cbn [mbind result_bind] in Hget.
  destruct (episode_of t id m) as [st|] eqn:Est; [|done]. cbn [fmap option_fmap option_map] in Hget.
  pose proof Est as [Em Ht]%episode_of_Some.
  destruct (rep_query_items _ _ _ R _ _ Em) as (items' & Eq & Hp). rewrite Eq in Hget.
  cbn [mbind result_bind] in Hget. injection Hget as <- <-.
  destruct (tr_ok _ _ _ R _ _ Em) as [Hid HM Hv He].
  split_and!; [done|done| |].
  { apply validate_episode_ok. eapply valid_episode_perm; [symmetry|]; done. }
  destruct (rep_list_outcomes _ _ _ R t id) as (evs' & Eq' & Hevs).
  assert (evs' = evs) as -> by congruence. rewrite Est in Hevs. rewrite Hevs.
  apply Forall_forall. intros ev (eid & Hev)%elem_of_values. destruct (He _ _ Hev) as [_ [? ? ? Hc ?]].
  split_and!; [congruence|lia|lia|done| |done]. intros c Hin. rewrite Hp. by apply items_list_chunks, Hc.
Qed.

(** An outcome that may vote on a chunk, as the store's own queries show it. *)
Definition stored_vote (db : EpisodeDb) (t : TenantId) (project : option string) (now_ms : Z) (c : ChunkId)
    (id : RetrievalEpisodeId) (ev : OutcomeEvent) : Prop :=
  ∃ e items evs, get_retrieval_episode t id db = Ok (Some (e, items)) ∧ re_project_id e = project ∧
    list_outcome_events_for_episode t id db = Ok evs ∧ ev ∈ evs ∧ oe_timestamp_ms ev ≤ now_ms ∧
    contributes_to_ranking ev = true ∧ c ∈ attribution ev.

Lemma stored_vote_iff db origin m t project now_ms c id ev :
  table_rep db origin m →
  stored_vote db t project now_ms c id ev ↔ may_vote m t project now_ms c id ev.
Proof using All.
  intros R. unfold stored_vote, may_vote, get_retrieval_episode. rewrite (rep_query_episode _ _ _ R).
  cbn [mbind result_bind].
  destruct (episode_of t id m) as [st|] eqn:Est; cbn [fmap option_fmap option_map]; [|naive_solver].
  pose proof Est as [Em _]%episode_of_Some. destruct (tr_ok _ _ _ R _ _ Em) as [_ _ _ He].
  destruct (rep_query_items _ _ _ R _ _ Em) as (items & -> & _).
  destruct (rep_list_outcomes _ _ _ R t id) as (evs & -> & Hevs). rewrite Est in Hevs. cbn [mbind result_bind].
  split.
  - intros (e & its & l & [= <- <-] & Hp & [= <-] & Hin & Hrest). exists st. split_and!; [done|done| |apply Hrest..].
    rewrite Hevs in Hin. apply elem_of_values in Hin as [eid Hev]. by destruct (He _ _ Hev) as [-> _].
  - intros (st' & [= <-] & Hp & Hev & Hrest). exists (es_episode st), items, evs.
    split_and!; [done|done|done| |apply Hrest..]. rewrite Hevs. apply elem_of_values. eauto.
Qed.

(** priors count episodes.  After any sequence of calls the priors of a
    scope are those of the requested chunks that some outcome of an episode
    of the scope, not later than now, credits or blames; every such episode
    votes exactly once on the chunk, with a newest of its outcomes, and the
    prior is the sum of these votes: in particular its count is the number of
    the episodes. *)
Theorem outcome_priors_exact chunks cmds l s' t project ids now_ms :
  cmds_fit cmds → run cmds (sqlite_with chunks) = Some (l, s') →
  ∃ priors, outcome_priors t project ids now_ms (pe_db s') = Ok priors ∧
    NoDup (map op_chunk_id priors) ∧
    (∀ c, c ∈ map op_chunk_id priors ↔
       c ∈ ids ∧ ∃ id ev, stored_vote (pe_db s') t project now_ms c id ev) ∧
    (∀ p, p ∈ priors → ∃ v, NoDup (map fst v) ∧
       (∀ id, id ∈ map fst v ↔ ∃ ev, stored_vote (pe_db s') t project now_ms (op_chunk_id p) id ev) ∧
       (∀ id ev, (id, ev) ∈ v → stored_vote (pe_db s') t project now_ms (op_chunk_id p) id ev ∧
          ∀ ev', stored_vote (pe_db s') t project now_ms (op_chunk_id p) id ev' →
            oe_timestamp_ms ev' ≤ oe_timestamp_ms ev) ∧
       op_eligible_episode_count p = Z.min u64_max (zlen v) ∧
       p = foldl (add_vote now_ms) (prior_new (op_chunk_id p)) (map snd v)).
Proof using All.
  intros Hf Er. destruct (run_sqlite chunks cmds Hf) as (l' & s2 & m & Er' & _ & _ & R).
  assert (s2 = s') as -> by congruence.
  assert (Hsv : ∀ c id ev, stored_vote (pe_db s') t project now_ms c id ev ↔ may_vote m t project now_ms c id ev)
    by (intros; by eapply stored_vote_iff).
  destruct (rep_priors _ _ _ R t project now_ms ids) as (priors & Ep & [Hs Ho Hsum Hall]).
  exists priors. split_and!; [done|done| |].
  - intros c. split.
    + intros (p & -> & Hp)%list_elem_of_fmap. destruct (Hsum p Hp) as (Hc & v & Hne & Hv & _). split; [done|].
      destruct v as [|[id ev] v]; [done|]. exists id, ev. apply Hsv, (vt_newest _ _ _ _ _ _ Hv). left.
    + intros (Hc & id & ev & Hv%Hsv). by eapply Hall.
  - intros p Hp. destruct (Hsum p Hp) as (Hc & v & Hne & [Hv1 Hv2 Hv3] & E). exists v. split_and!; [done| | | |done].
    + intros id. setoid_rewrite Hsv. split; [|intros [ev ?]; by eapply Hv3].
      intros ([id' ev] & -> & Hin)%list_elem_of_fmap. exists ev. by apply Hv2.
    + intros id ev Hin. setoid_rewrite Hsv. by apply Hv2.
    + rewrite E at 1. rewrite sum_count by done. unfold zlen. by rewrite length_map.
Qed.

(** a rendered order is written exactly or not at all.  On an episode that
    passes validation [apply_rendered_order] never panics and the final
    validation never fails: an order of at most [requested_k] different
    candidates becomes the served ranks and rendered flags, in its order,
    everything else stays, and the result passes validation; any other order
    is refused and nothing changes. *)
Theorem rendered_order_exact e items ids :
  validate_retrieval_episode e items = Ok () →
  ∃ r e' items', apply_rendered_order e items ids = Some (r, e', items') ∧
    validate_retrieval_episode e' items' = Ok () ∧
    (r = Ok () ↔ renderable e items ids) ∧
    (r = Ok () → e' = set_rendered_k (zlen ids) e ∧
       Forall2 (λ i i', i' = set_served (rank_of ids (ri_chunk_id i)) (bool_decide (ri_chunk_id i ∈ ids)) i)
         items items') ∧
    (r ≠ Ok () → e' = e ∧ items' = items).
Proof using Type.
  intros Hv%validate_episode_ok. destruct (apply_rendered_exact e items ids Hv) as [[Hr E]|(Hr & err & E)].
  - eexists _, _, _. split; [exact E|]. split_and!; [|done| |done].
    + apply validate_episode_ok. by apply valid_project.
    + intros _. split; [done|]. apply Forall2_fmap_r, Forall_Forall2_diag, Forall_forall. done.
  - eexists _, _, _. split; [exact E|]. split_and!; [by apply validate_episode_ok|by split|done|done].
Qed.
End props.

(* ------------------------------------------------------------------ *)
(** ** A concrete store *)

#[local] Instance uuid_episode : Uuid RetrievalEpisodeId := {
  uuid_to_string u := string_of (map bit_ascii (pos_bits (encode u)));
  uuid_parse s := decode (bits_pos (map ascii_bit (chars s)));
}.
#[local] Instance uuid_episode_laws : UuidLaws RetrievalEpisodeId.
Proof.
  split. intros u. cbn. rewrite chars_string_of, map_map.
  rewrite (map_ext _ id) by (by intros []). rewrite map_id, bits_pos_bits. apply decode_encode.
Qed.
#[local] Instance uuid_event : Uuid OutcomeEventId := {
  uuid_to_string u := string_of (map bit_ascii (pos_bits (encode u)));
  uuid_parse s := decode (bits_pos (map ascii_bit (chars s)));
}.
#[local] Instance uuid_event_laws : UuidLaws OutcomeEventId.
Proof.
  split. intros u. cbn. rewrite chars_string_of, map_map.
  rewrite (map_ext _ id) by (by intros []). rewrite map_id, bits_pos_bits. apply decode_encode.
Qed.
#[local] Instance bits_json : JsonText := {
  json_text_is_object s := bool_decide (s = "{}"%string);
  json_strings l := string_of (map bit_ascii (pos_bits (encode l)));
  json_strings_parse s := decode (bits_pos (map ascii_bit (chars s)));
}.
#[local] Instance bits_json_laws : JsonTextLaws.
Proof.
  split. intros l. cbn [json_strings_parse json_strings bits_json]. rewrite chars_string_of, map_map.
  rewrite (map_ext _ id) by (by intros []). rewrite map_id, bits_pos_bits. apply decode_encode.
Qed.
(** Weights that do not decay: 2^x as 1. *)
#[local] Instance no_decay : Powf := { f64_powf _ _ := f64_of_Z 1 }.
#[local] Instance table_order : TableScan := { scan A l := l; scan_perm A l := reflexivity l }.
#[local] Instance episode_iter : HashIter ChunkId := forward_iter.
#[local] Instance episode_text_iter : HashIter string :=
  {| hash_iter := λ V m, map_to_list m; hash_iter_perm := λ V m, reflexivity _ |}.

Definition ex_tenant : TenantId := TenantId.mk "acme".
Definition ex_row (c : ChunkId) : Row :=
  mkRow (mkMeta c ex_tenant None 0 0 Doc Final 5 "" None LifecycleMetadata_default None Document) index_cols_default.
Definition ex_a : ChunkId := mkChunkId 1.
Definition ex_b : ChunkId := mkChunkId 2.
Definition ex_chunks : ChunkTable := {[ex_a := ex_row ex_a; ex_b := ex_row ex_b]}.

Definition ex_hash : string := "0123456789abcdef0123456789abcdef0123456789abcdef0123456789abcdef".
Definition ex_episode (n : N) : RetrievalEpisode :=
  mkEpisode (mkEpisodeId n) ex_tenant None ex_hash "hybrid" 5 2 1 OUTCOME_POLICY_VERSION PolicyServe None None 100 200.
Definition ex_item (n : N) (c : ChunkId) (rank : Z) (served : option Z) : RetrievalEpisodeItem :=
  mkItem (mkEpisodeId n) c ex_tenant None rank f32_one "{}" f32_zero served None
    (negb (is_none served)) None.
Definition ex_items (n : N) : list RetrievalEpisodeItem := [ex_item n ex_b 1 None; ex_item n ex_a 0 (Some 0)].
Definition ex_outcome (n ev : N) (k : OutcomeKind) (used harmful : list ChunkId) (time : Z) : OutcomeEvent :=
  outcome_event_new (mkEventId ev) (mkEpisodeId n) k VerifiedByUser used harmful None time.

(** Two episodes; the order of the first is rewritten, three outcomes are
    recorded, the last of them for a chunk that was not rendered. *)
Definition ex_cmds : list Cmd :=
  [RecordEpisode (ex_episode 1) (ex_items 1); RecordEpisode (ex_episode 2) (ex_items 2);
   FinalizeEpisode ex_tenant (mkEpisodeId 1) [ex_b; ex_a];
   RecordOutcome ex_tenant (ex_outcome 1 7 Passed [ex_a] [] 150);
   RecordOutcome ex_tenant (ex_outcome 1 8 Corrected [] [ex_a; ex_b] 160);
   RecordOutcome ex_tenant (ex_outcome 2 9 Passed [ex_a] [] 150);
   RecordOutcome ex_tenant (ex_outcome 2 10 Passed [ex_b] [] 150);
   ListOutcomes ex_tenant (mkEpisodeId 1);
   Priors ex_tenant None [ex_a; ex_b] 170].

Lemma ex_items_fit n : Forall item_fits (ex_items n).
Proof.
  unfold ex_items, item_fits, rank_fits, tenant_ok. rewrite !Forall_cons.
  split_and!; cbn [ex_item ri_origin_tenant_id ri_original_rank ri_served_rank ri_shadow_rank];
    try done; by intros ? [= <-].
Qed.

Lemma ex_fit : cmds_fit ex_cmds.
Proof.
  apply cmds_fit_intro; [|vm_compute; repeat (constructor; [set_solver|]); constructor].
  unfold ex_cmds. rewrite !Forall_cons, Forall_nil.
  split_and!; try apply ex_items_fit; try done; by split_and!.
Qed.

(** The answers: the last outcome is refused, and [ex_a] has the vote of the
    newer outcome of the first episode against the vote of the second. *)
Example ex_answers :
  match run ex_cmds (sqlite_with ex_chunks) with
  | Some ([Done a; Done b; Done c; Done d; Done e; Done f; Done g; TheOutcomes o; ThePriors p], _) =>
      [a; b; c; d; e; f; g] = [true; true; true; true; true; true; false] ∧
      map oe_event_id o = [mkEventId 7; mkEventId 8] ∧
      map (λ p, (op_chunk_id p, op_eligible_episode_count p, op_last_outcome_at_ms p)) p =
        [(ex_a, 2, 160); (ex_b, 1, 160)]
  | _ => False
  end.
Proof. vm_compute. auto. Qed.

Definition ex_first : RetrievalEpisode := set_rendered_k 2 (ex_episode 1).
Definition ex_first_items : list RetrievalEpisodeItem := [ex_item 1 ex_a 0 (Some 1); ex_item 1 ex_b 1 (Some 0)].
Definition ex_first_outcomes : list OutcomeEvent :=
  [ex_outcome 1 7 Passed [ex_a] [] 150; ex_outcome 1 8 Corrected [] [ex_a; ex_b] 160].

Example ex_state :
  match run ex_cmds (sqlite_with ex_chunks) with
  | Some (_, s') =>
      get_retrieval_episode ex_tenant (mkEpisodeId 1) (pe_db s') = Ok (Some (ex_first, ex_first_items)) ∧
      list_outcome_events_for_episode ex_tenant (mkEpisodeId 1) (pe_db s') = Ok ex_first_outcomes
  | None => False
  end.
Proof. vm_compute. auto. Qed.

Lemma sqlite_refines_episodes_witness :
  cmds_fit ex_cmds ∧
  ∃ l s' m', run ex_cmds (sqlite_with ex_chunks) = Some (l, s') ∧
    history (chunk_project ex_chunks) ∅ ex_cmds l m' ∧ persistent_represents s' (chunk_project ex_chunks) m'.
Proof. exact (conj ex_fit (sqlite_refines_episodes ex_chunks ex_cmds ex_fit)). Defined.

Lemma stored_episodes_valid_witness :
  ∃ l s', run ex_cmds (sqlite_with ex_chunks) = Some (l, s') ∧
    get_retrieval_episode ex_tenant (mkEpisodeId 1) (pe_db s') = Ok (Some (ex_first, ex_first_items)) ∧
    validate_retrieval_episode ex_first ex_first_items = Ok () ∧
    Forall (λ ev, ∀ c, c ∈ oe_used_chunk_ids ev ++ oe_harmful_chunk_ids ev → c ∈ [ex_a; ex_b]) ex_first_outcomes.
Proof.
  pose proof ex_state as Hs. destruct (run ex_cmds (sqlite_with ex_chunks)) as [[l s']|] eqn:E; [|by destruct Hs].
  destruct Hs as [Hg Hl]. exists l, s'. split; [done|]. split; [done|].
  destruct (stored_episodes_valid ex_chunks ex_cmds l s' ex_tenant (mkEpisodeId 1) ex_first ex_first_items
              ex_first_outcomes ex_fit E Hg Hl) as (_ & _ & Hv & Hf).
  split; [exact Hv|]. eapply Forall_impl; [exact Hf|]. intros ev (_ & _ & _ & Hc & _). exact Hc.
Defined.

Lemma outcome_priors_exact_witness :
  ∃ l s' priors, run ex_cmds (sqlite_with ex_chunks) = Some (l, s') ∧
    outcome_priors ex_tenant None [ex_a; ex_b] 170 (pe_db s') = Ok priors ∧ NoDup (map op_chunk_id priors).
Proof.
  pose proof ex_state as Hs. destruct (run ex_cmds (sqlite_with ex_chunks)) as [[l s']|] eqn:E; [|by destruct Hs].
  destruct (outcome_priors_exact ex_chunks ex_cmds l s' ex_tenant None [ex_a; ex_b] 170 ex_fit E)
    as (priors & Ep & Hnd & _).
  exists l, s', priors. split_and!; [done|exact Ep|exact Hnd].
Defined.

Lemma rendered_order_exact_witness :
  validate_retrieval_episode (ex_episode 1) (ex_items 1) = Ok () ∧
  ∃ r e' items', apply_rendered_order (ex_episode 1) (ex_items 1) [ex_b; ex_a] = Some (r, e', items') ∧
    validate_retrieval_episode e' items' = Ok () ∧ r = Ok () ∧ map ri_served_rank items' = [Some 0; Some 1].
Proof.
  assert (Hv : validate_retrieval_episode (ex_episode 1) (ex_items 1) = Ok ()) by (vm_compute; reflexivity).
  split; [exact Hv|].
  destruct (rendered_order_exact (ex_episode 1) (ex_items 1) [ex_b; ex_a] Hv)
    as (r & e' & items' & E & Hv' & Hr & Hok & _).
  exists r, e', items'. split_and!; [exact E|exact Hv'| |].
  - change r with (r, e', items').1.1. apply Some_inj in E. rewrite <- E. vm_compute. reflexivity.
  - change items' with (r, e', items').2. apply Some_inj in E. rewrite <- E. vm_compute. reflexivity.
Defined.

(** An in-memory store with the same chunks. *)
Definition ex_chunk (c : ChunkId) : MemoryChunk :=
  mkChunk c ex_tenant None None 5 None Doc Final Raw (mkSource None None None None None None) "text" [] "" Document.
Definition ex_memory : MemoryStore :=
  mkMemory {["acme"%string := {[uuid_to_string ex_a := ex_chunk ex_a; uuid_to_string ex_b := ex_chunk ex_b]}]} ∅ ∅ ∅.

Lemma ex_memory_project t c : memory_project ex_memory t c = chunk_project ex_chunks t c.
Proof.
  unfold memory_project, chunk_project, tenant_chunks, ex_memory, ex_chunks. cbn [ms_chunks].
  assert (Hr : ∀ d, r_tenant (ex_row d) = ex_tenant) by done.
  destruct (decide (TenantId.as_str t = "acme"%string)) as [E|E].
  - assert (t = ex_tenant) as -> by (by apply tenant_text_inj).
    cbn [TenantId.as_str ex_tenant]. rewrite lookup_singleton_eq. cbn [default].
    destruct (decide (c = ex_a)) as [->|Ha]; [|destruct (decide (c = ex_b)) as [->|Hb]].
    + by rewrite !lookup_insert_eq.
    + unfold id. by rewrite !lookup_insert_ne, !lookup_singleton_eq by done.
    + unfold id. rewrite !lookup_insert_ne, !lookup_singleton_ne; try done; by intros ?%uuid_to_string_inj.
  - rewrite lookup_singleton_ne by congruence. cbn [default]. unfold id. rewrite lookup_empty. cbn.
    assert (t ≠ ex_tenant) by (by intros ->).
    destruct (_ !! c) as [r|] eqn:Er; [|done]. cbn. rewrite bool_decide_false; [done|].
    apply lookup_insert_Some in Er as [[_ <-]|[_ [_ <-]%lookup_singleton_Some]]; congruence.
Qed.

Lemma episode_stores_agree_witness :
  ∃ l k s1 s2, run ex_cmds (sqlite_with ex_chunks) = Some (l, s1) ∧ run ex_cmds ex_memory = Some (k, s2) ∧
    Forall2 agree l k.
Proof. exact (episode_stores_agree ex_chunks ex_memory ex_cmds ex_memory_project eq_refl eq_refl ex_fit). Defined.

(** The one thing the stores do not agree on: between outcomes of the same
    millisecond SQLite takes the one with the greatest id, the newest, and
    the in-memory store the one that was recorded first. *)
Definition ex_tie : list Cmd :=
  [RecordEpisode (ex_episode 1) (ex_items 1);
   RecordOutcome ex_tenant (ex_outcome 1 7 Passed [ex_a] [] 150);
   RecordOutcome ex_tenant (ex_outcome 1 8 Corrected [] [ex_a] 150);
   Priors ex_tenant None [ex_a] 170].

Definition last_adjustments (r : option (list Answer)) : list f32 :=
  match r with
  | Some [_; _; _; ThePriors l] => map bounded_adjustment l
  | _ => []
  end.

Example tie_is_broken_differently :
  map (λ x, f32_lt x f32_zero) (last_adjustments (fst <$> run ex_tie (sqlite_with ex_chunks))) = [true] ∧
  map (λ x, f32_lt f32_zero x) (last_adjustments (fst <$> run ex_tie ex_memory)) = [true].
Proof. split; vm_compute; reflexivity. Qed.

(** Rewriting the order after an outcome was recorded may take a chunk that
    the outcome attributes out of the rendered ones. *)
Example finalize_after_outcome :
  match run [RecordEpisode (ex_episode 1) (ex_items 1);
             RecordOutcome ex_tenant (ex_outcome 1 7 Passed [ex_a] [] 150);
             FinalizeEpisode ex_tenant (mkEpisodeId 1) [ex_b];
             GetEpisode ex_tenant (mkEpisodeId 1); ListOutcomes ex_tenant (mkEpisodeId 1)]
          (sqlite_with ex_chunks) with
  | Some ([Done true; Done true; Done true; AnEpisode (Some (_, items)); TheOutcomes [ev]], _) =>
      oe_used_chunk_ids ev = [ex_a] ∧ rendered_ids items = [ex_b]
  | _ => False
  end.
Proof. vm_compute. auto. Qed.
