(* ===== verification/MemoryProps.v ===== *)
(** * The in-memory store and the persistent store agree on chunks

    Both are implementations of the trait [Store].  The in-memory store
    refines the same abstract map as the persistent one, so that adding,
    deleting and reading a document answer alike; the only difference is
    that the in-memory store does not show candidates and failed chunks. *)

From S2P Require Import Prelude Crates Types Str Sentence Chunking WalFormat WalReader Files WalWriter.
From S2P Require Import SegmentFormat Segment SegmentFacts Metadata MetadataFacts.
From S2P Require Import TenantStore Persistent Runs TenantInv TenantFacts Recovery PersistentFacts AddFacts StoreSpec.
From S2P Require Import Overlay Lifecycle LifecycleFacts Concrete MetadataProps StoreProps Ranking Fusion Outcome MemoryStore.

Open Scope Z_scope.

(* ------------------------------------------------------------------ *)
(** ** The map a tenant's memory holds *)

Section memory.
Context `{UUL : UuidLaws ChunkId} `{UC : Unicode} `{SHA : Sha256} `{SEG : UnicodeSegmentation}.

Definition memory_view (t : TenantId) (s : MemoryStore) (c : ChunkId) : option MemoryChunk :=
  chunk ← tenant_chunks (TenantId.as_str t) s !! uuid_to_string c;
  if bool_decide (mc_status chunk = Deleted) then None else Some chunk.

(** The chunks of the tenant that are not deleted. *)
Definition memory_holds (t : TenantId) (s : MemoryStore) (A : gmap ChunkId MemoryChunk) : Prop :=
  ∀ c, A !! c = memory_view t s c.

(** What [get] shows of a chunk of the map. *)
Definition shown (o : option MemoryChunk) : option MemoryChunk :=
  chunk ← o; if memory_hidden chunk then None else Some chunk.

Lemma tenant_chunks_insert k t m s :
  tenant_chunks t (with_ms_chunks (<[k := m]> (ms_chunks s)) s) = if decide (k = t) then m else tenant_chunks t s.
Proof.
  unfold tenant_chunks. cbn. destruct (decide (k = t)) as [->|Hne].
  - by rewrite lookup_insert_eq.
  - by rewrite lookup_insert_ne.
Qed.

Lemma memory_get_shown t s A c : memory_holds t s A → memory_get t c s = shown (A !! c).
Proof.
  intros Hh. rewrite Hh. unfold memory_get, memory_view, shown.
  destruct (_ !! _) as [chunk|]; cbn; [|done]. unfold memory_hidden.
  destruct (mc_status chunk) eqn:E; by rewrite ?bool_decide_false, ?bool_decide_true by congruence; cbn; rewrite ?E.
Qed.

Lemma memory_holds_delete_none t s A c : memory_holds t s A → A !! c = None → memory_holds t s (delete c A).
Proof. intros Hh Hc. by rewrite delete_id. Qed.

Lemma memory_delete_spec t s A c :
  memory_holds t s A →
  (memory_delete t c s).1 = bool_decide (is_Some (A !! c)) ∧
  memory_holds t (memory_delete t c s).2 (delete c A) ∧
  ∀ u d, u ≠ t → memory_view u (memory_delete t c s).2 d = memory_view u s d.
Proof using UUL.
  intros Hh. unfold memory_delete. pose proof (Hh c) as Hc. unfold memory_view in Hc.
  destruct (tenant_chunks (TenantId.as_str t) s !! uuid_to_string c) as [chunk|] eqn:Ec; cbn [mbind option_bind] in Hc.
  2:{ split_and!; [by rewrite Hc| |done]. cbn [snd]. by apply memory_holds_delete_none. }
  case_bool_decide as Ed.
  { split_and!; [by rewrite Hc| |done]. cbn [snd]. by apply memory_holds_delete_none. }
  cbn [fst snd]. split_and!; [by rewrite Hc| |].
  - intros d. unfold memory_view. rewrite tenant_chunks_insert. rewrite decide_True by done.
    destruct (decide (c = d)) as [<-|Hne].
    + rewrite lookup_delete_eq, lookup_insert_eq. cbn. by rewrite bool_decide_true by (by destruct chunk).
    + rewrite lookup_delete_ne, lookup_insert_ne by (done || by intros ?%uuid_to_string_inj).
      apply Hh.
  - intros u d Hu. unfold memory_view. rewrite tenant_chunks_insert, decide_False; [done|].
    intros E. apply Hu. destruct t, u. cbn in E. by subst.
Qed.

Lemma memory_add_piece t s A c piece :
  memory_holds t s A → mc_tenant_id piece = t → mc_status piece ≠ Deleted →
  let s' := (memory_add_single_chunk c piece s).2 in
  memory_holds t s' (<[c := stored_chunk c piece]> A) ∧ ∀ u d, u ≠ t → memory_view u s' d = memory_view u s d.
Proof using UUL.
  intros Hh Ht Hs. unfold memory_add_single_chunk. cbn [snd].
  change (set_hash _ (set_chunk_id c piece)) with (stored_chunk c piece).
  change (mc_tenant_id (stored_chunk c piece)) with (mc_tenant_id piece). rewrite Ht. split.
  - intros d. unfold memory_view. rewrite tenant_chunks_insert, decide_True by done.
    destruct (decide (c = d)) as [<-|Hne].
    + rewrite !lookup_insert_eq. cbn. by rewrite bool_decide_false.
    + rewrite !lookup_insert_ne by (done || by intros ?%uuid_to_string_inj). apply Hh.
  - intros u d Hu. unfold memory_view. rewrite tenant_chunks_insert, decide_False; [done|].
    intros E. apply Hu. destruct t, u. cbn in E. by subst.
Qed.

Lemma memory_add_pieces_spec t pieces : ∀ fresh ids s A,
  memory_holds t s A → Forall (λ p, mc_tenant_id p = t ∧ mc_status p ≠ Deleted) pieces →
  length ids = length pieces → (∀ i, (i < length ids)%nat → ids !! i = Some (fresh i)) → NoDup ids →
  (memory_add_pieces fresh pieces s).1 = ids ∧
  memory_holds t (memory_add_pieces fresh pieces s).2 (list_to_map (added_chunks false pieces ids) ∪ A) ∧
  ∀ u d, u ≠ t → memory_view u (memory_add_pieces fresh pieces s).2 d = memory_view u s d.
Proof using UUL.
  induction pieces as [|p pieces IH]; intros fresh ids s A Hh Hf Hlen Hids Hnd; destruct ids as [|c ids]; try done;
    cbn [memory_add_pieces].
  { cbn. split_and!; [done| |done]. intros c. rewrite (left_id_L ∅ (∪)). apply Hh. }
  inversion Hf as [|? ? [Ht Hs] Hf']; subst. apply NoDup_cons in Hnd as [Hc Hnd].
  pose proof (Hids 0%nat ltac:(cbn; lia)) as [= ->].
  destruct (memory_add_piece (mc_tenant_id p) s A (fresh 0%nat) p Hh eq_refl Hs) as [Hh1 Hu1].
  unfold memory_add_single_chunk in *. cbn [fst snd] in *.
  set (s1 := with_ms_chunks _ s) in *.
  destruct (IH (λ i, fresh (S i)) ids s1 (<[fresh 0%nat := stored_chunk (fresh 0%nat) p]> A)) as (E & Hh2 & Hu2);
    [done|done|cbn in Hlen; lia| |done|].
  { intros i Hi. apply (Hids (S i)). cbn. lia. }
  destruct (memory_add_pieces _ pieces s1) as [l s2]. cbn [fst snd] in *. subst l. split_and!; [done| |].
  - intros d. rewrite <- Hh2. unfold added_chunks, added_ids. cbn [zip_with list_to_map foldr].
    change (list_to_map ((fresh 0%nat, stored_chunk (fresh 0%nat) p) :: ?l)) with
      (<[fresh 0%nat := stored_chunk (fresh 0%nat) p]> (list_to_map l : gmap ChunkId MemoryChunk)).
    set (L := zip_with _ ids pieces).
    assert (HL : (list_to_map L : gmap ChunkId MemoryChunk) !! fresh 0%nat = None).
    { apply not_elem_of_list_to_map_1. intros ([d' q] & Ed & Hq)%list_elem_of_fmap. cbn in Ed. subst d'.
      apply elem_of_lookup_zip_with in Hq as (i & c' & p' & [= <- _] & Hi & _). apply Hc.
      by eapply list_elem_of_lookup_2. }
    by rewrite <- insert_union_l, insert_union_r.
  - intros u d Hu. by rewrite Hu2, Hu1.
Qed.
End memory.

(* ------------------------------------------------------------------ *)
(** ** The two stores side by side *)

(** A call of the trait on chunks, with the clock, the new ids and the lane
    of the index it finds. *)
Inductive ChunkCall : Type :=
| StoreAdd (now_ms : Z) (chunk : MemoryChunk) (fresh : list ChunkId) (lane : IndexLane)
| StoreDelete (now_ms : Z) (chunk_id : ChunkId)
| StoreGet (chunk_id : ChunkId).

Inductive ChunkAnswer : Type :=
| Stored (chunk_id : ChunkId) (ids : list ChunkId)
| WasDeleted (deleted : bool)
| Found (chunk : option MemoryChunk).

Section agree.
Context `{BOL : ByteOrderLaws} `{CRL : Crc32Laws} `{RBL : RoaringLaws B}.
Context `{BWL : BincodeLaws WalRecord} `{JCL : JsonLaws MemoryChunk}.
Context `{UUL : UuidLaws ChunkId} `{TT : TaskTables TK}.
Context `{CAP : BufCap} `{BM : Bincode SegmentMeta} `{UC : Unicode} `{SHA : Sha256}.
Context `{SEG : UnicodeSegmentation}.
Variable t : TenantId.
Implicit Types (s : St B TK) (A : gmap ChunkId MemoryChunk) (ms : MemoryStore).

Definition persistent_call (call : ChunkCall) : M B TK ChunkAnswer :=
  match call with
  | StoreAdd now chunk fresh lane =>
      r <- add_chunk_with_stored_ids now chunk fresh lane ;; m_ret (Stored r.1 r.2)
  | StoreDelete now c => b <- delete_chunk now t c ;; m_ret (WasDeleted b)
  | StoreGet c => o <- get_chunk t c ;; m_ret (Found o)
  end.

(** No result is a panic or an error. *)
Definition memory_call (call : ChunkCall) ms : option (ChunkAnswer * MemoryStore) :=
  match call with
  | StoreAdd _ chunk fresh _ =>
      '(r, ms) ← memory_add_with_stored_ids (λ i, nth i fresh (mc_chunk_id chunk)) chunk ms;
      match r with Ok r => Some (Stored r.1 r.2, ms) | Err _ => None end
  | StoreDelete _ c => let '(b, ms) := memory_delete t c ms in Some (WasDeleted b, ms)
  | StoreGet c => Some (Found (memory_get t c ms), ms)
  end.

Fixpoint persistent_calls (calls : list ChunkCall) : M B TK (list ChunkAnswer) :=
  match calls with
  | [] => m_ret []
  | call :: calls => a <- persistent_call call ;; l <- persistent_calls calls ;; m_ret (a :: l)
  end.

Fixpoint memory_calls (calls : list ChunkCall) ms : option (list ChunkAnswer * MemoryStore) :=
  match calls with
  | [] => Some ([], ms)
  | call :: calls =>
      '(a, ms) ← memory_call call ms; '(l, ms) ← memory_calls calls ms; Some (a :: l, ms)
  end.

(** What the in-memory store shows of an answer. *)
Definition shown_answer (a : ChunkAnswer) : ChunkAnswer :=
  match a with Found o => Found (shown o) | _ => a end.

Definition call_admissible s (call : ChunkCall) : Prop :=
  match call with
  | StoreAdd now chunk fresh lane =>
      ∃ parts, split_for_add chunk = Some parts ∧ admissible t s (CmdAdd now false parts fresh lane)
  | StoreDelete now c => admissible t s (CmdDelete now c)
  | StoreGet _ => True
  end.

Fixpoint calls_admissible s (calls : list ChunkCall) : Prop :=
  match calls with
  | [] => True
  | call :: calls => call_admissible s call ∧ calls_admissible (persistent_call call s).2 calls
  end.

(** Both stores stand for the same map. *)
Definition both_hold s ms A : Prop := implements t s A ∧ memory_holds t ms A.

Definition other_tenants_kept ms ms' : Prop := ∀ u c, u ≠ t → memory_view u ms' c = memory_view u ms c.

Hypothesis tenant_valid : TenantId.validate (TenantId.as_str t) = Ok ().

Lemma memory_add_exact chunk parts fresh ms A :
  split_for_add chunk = Some parts → length fresh = length parts → NoDup fresh →
  Forall (λ p, mc_tenant_id p = t ∧ mc_status p ≠ Deleted) parts → memory_holds t ms A →
  ∃ c ms', memory_add_with_stored_ids (λ i, nth i fresh (mc_chunk_id chunk)) chunk ms = Some (Ok (c, fresh), ms') ∧
    head fresh = Some c ∧ memory_holds t ms' (list_to_map (added_chunks false parts fresh) ∪ A) ∧
    other_tenants_kept ms ms'.
Proof using UUL.
  intros Hsplit Hlen Hnd Hf Hh. pose proof (split_for_add_nonempty _ _ Hsplit) as Hne.
  destruct (memory_add_pieces_spec t parts (λ i, nth i fresh (mc_chunk_id chunk)) fresh ms A) as (E & Hh' & Hu);
    [done|done|done| |done|].
  { intros i Hi. destruct (lookup_lt_is_Some_2 fresh i Hi) as [x Hx]. rewrite Hx. f_equal. symmetry.
    by apply nth_lookup_Some. }
  unfold memory_add_with_stored_ids. rewrite Hsplit. cbn [mbind option_bind].
  destruct fresh as [|c fresh]; [by destruct parts|]. destruct parts as [|p [|q parts]]; [done| |].
  - destruct fresh; [|done]. eexists c, _. split_and!; [done..|exact Hh'|exact Hu].
  - destruct (memory_add_pieces _ (p :: q :: parts) ms) as [ids ms'] eqn:Ep. cbn [fst snd] in *. subst ids.
    exists c, ms'. by split_and!.
Qed.

Lemma call_agrees s ms A call :
  both_hold s ms A → call_admissible s call →
  ∃ a s' ms' A', persistent_call call s = (Ok a, s') ∧ memory_call call ms = Some (shown_answer a, ms') ∧
    both_hold s' ms' A' ∧ other_tenants_kept ms ms'.
Proof using All.
  intros [Hi Hh] Hadm. destruct call as [now chunk fresh lane|now c|c]; cbn [call_admissible] in Hadm.
  - destruct Hadm as (parts & Hsplit & Hadm).
    destruct (runs_add_stored t tenant_valid s A now chunk parts fresh lane (λ _, True) Hi Hsplit Hadm)
      as (r & s' & tr & E & _ & _ & Hhd & Er & Hi' & _); [done|].
    destruct Hadm as (Hlen & Hnd & _ & Hf & _). unfold added_ids in Hnd.
    destruct (memory_add_exact chunk parts fresh ms A Hsplit Hlen Hnd Hf Hh) as (c & ms' & Em & Hc & Hh' & Hu).
    exists (Stored r.1 r.2), s', ms', (list_to_map (added_chunks false parts fresh) ∪ A).
    split_and!; [|  |done|done].
    + cbn [persistent_call]. unfold m_bind. by rewrite E.
    + cbn [memory_call shown_answer]. rewrite Em. cbn. by rewrite Er; simplify_eq.
  - destruct (exec_simulates t s A (CmdDelete now c) Hi Hadm) as (G & K & _ & _ & (out & s' & tr & E & _ & _ & -> & Hi')).
    destruct (memory_delete_spec t ms A c Hh) as (Eb & Hh' & Hu).
    destruct (memory_delete t c ms) as [b ms'] eqn:Em. cbn [fst snd] in *. subst b.
    exists (WasDeleted (bool_decide (is_Some (A !! c)))), s', ms', (delete c A). split_and!; [| |done|done].
    + cbn [persistent_call exec] in E |- *. unfold m_bind, m_ret in *.
      destruct (delete_chunk now t c s) as [[b|e] s1]; [|done]. by injection E as -> ->.
    + cbn [memory_call]. by rewrite Em.
  - destruct (exec_simulates t s A (CmdGet c) Hi I) as (G & K & _ & _ & (out & s' & tr & E & _ & _ & -> & Hi')).
    exists (Found (A !! c)), s', ms, A. split_and!; [| |done|done].
    + cbn [persistent_call exec] in E |- *. unfold m_bind, m_ret in *.
      destruct (get_chunk t c s) as [[o|e] s1]; [|done]. by injection E as -> ->.
    + cbn [memory_call shown_answer]. by rewrite (memory_get_shown _ _ A).
Qed.

(** C26: equivalence of the two stores.  When a persistent store and an
    in-memory store hold the same chunks of a tenant, any sequence of adds,
    deletes and reads that the persistent store admits gives the same answers
    on both, but that the in-memory store shows no candidate and no failed
    chunk; neither panics or returns an error, both hold the same chunks
    afterwards, and the chunks of no other tenant of the in-memory store have
    changed. *)
Theorem chunk_stores_agree s ms A calls :
  both_hold s ms A → calls_admissible s calls →
  ∃ answers s' ms' A',
    persistent_calls calls s = (Ok answers, s') ∧
    memory_calls calls ms = Some (map shown_answer answers, ms') ∧
    both_hold s' ms' A' ∧ other_tenants_kept ms ms'.
Proof using All.
  revert s ms A. induction calls as [|call calls IH]; intros s ms A Hb Hadm.
  { exists [], s, ms, A. by split_and!. }
  destruct Hadm as [Hadm Hrest]. destruct (call_agrees s ms A call Hb Hadm) as (a & s1 & ms1 & A1 & E & Em & Hb1 & Hu1).
  rewrite E in Hrest. destruct (IH s1 ms1 A1 Hb1 Hrest) as (l & s' & ms' & A' & El & Eml & Hb' & Hu).
  exists (a :: l), s', ms', A'. split_and!; [| |done|].
  - cbn [persistent_calls]. unfold m_bind. by rewrite E, El.
  - cbn [memory_calls]. rewrite Em. cbn. by rewrite Eml.
  - intros u c Hne. by rewrite Hu, Hu1.
Qed.
End agree.

(* ------------------------------------------------------------------ *)
(** ** A chunk added, read and deleted in both *)

#[local] Existing Instance dot_segmentation.

Definition mx_calls : list ChunkCall :=
  [StoreAdd 9 ex_chunk [ex_id 7] LaneIndexed; StoreGet (ex_id 7); StoreDelete 10 (ex_id 7);
   StoreDelete 11 (ex_id 7); StoreGet (ex_id 7)].

Lemma mx_admissible : calls_admissible ex_tenant ex_s0 mx_calls.
Proof.
  split; [|by repeat split]. exists [ex_chunk]. split; [vm_compute; reflexivity|exact ex_cmd_admissible].
Qed.

Lemma mx_holds : both_hold ex_tenant ex_s0 memory_new ∅.
Proof. split; [exact ex_s0_implements|by intros c]. Qed.

Example mx_answers :
  fst <$> memory_calls ex_tenant mx_calls memory_new =
  Some [Stored (ex_id 7) [ex_id 7]; Found (Some (stored_chunk (ex_id 7) ex_chunk)); WasDeleted true;
        WasDeleted false; Found None].
Proof. vm_compute. reflexivity. Qed.

Lemma chunk_stores_agree_witness :
  ∃ answers s' ms' A',
    persistent_calls ex_tenant mx_calls ex_s0 = (Ok answers, s') ∧
    memory_calls ex_tenant mx_calls memory_new = Some (map shown_answer answers, ms') ∧
    both_hold ex_tenant s' ms' A' ∧ other_tenants_kept ex_tenant memory_new ms'.
Proof. apply (chunk_stores_agree ex_tenant eq_refl ex_s0 memory_new ∅ mx_calls mx_holds mx_admissible). Defined.
