(* ===== verification/MemoryAddProps.v ===== *)
(** * What adding a memory does

    [handle_memory_add] on a persistent store is characterised completely:
    what it refuses changes nothing, what it reuses is there with the same
    content, what it supersedes was the live head of its chain. *)

From S2P Require Import Prelude Crates Types Str Sentence Chunking Ranking Admission WalFormat WalReader Files WalWriter.
From S2P Require Import SegmentFormat Segment SegmentFacts Metadata MetadataFacts SupersessionProps.
From S2P Require Import TenantStore Persistent Runs TenantInv TenantFacts Recovery PersistentFacts AddFacts StoreSpec.
From S2P Require Import Overlay Lifecycle LifecycleFacts LifecycleProps Outcome MemoryStore Dedup MemoryAdd.
From S2P Require Import Concrete MetadataProps StoreProps.
From stdpp Require Import sorting pretty.

Open Scope Z_scope.

Lemma elem_of_List_filter {A} (f : A → bool) l x : x ∈ List.filter f l ↔ x ∈ l ∧ f x = true.
Proof. by rewrite !list_elem_of_In, filter_In. Qed.

(* ------------------------------------------------------------------ *)
(** ** Candidates of a deduplication *)

Section candidates.
Context `{UC : Unicode}.
Implicit Types (db : ChunkTable) (m : ChunkMetadata).

(** A chunk that may be superseded: live, final, the head of its chain, and
    in the scope that was asked for. *)
Record may_supersede (t : TenantId) (db : ChunkTable) (cfg : ResolvedDedup) (project : option string)
    (c : ChunkId) (m : ChunkMetadata) : Prop := {
  ms_row : get t c db = Some m;
  ms_status : cm_status m = Final;
  ms_head : lc_superseded_by (cm_lifecycle m) = None;
  ms_scope : rd_scope_project cfg = true → cm_project_id m = project;
}.

(** The rows of the tenant that a query starts from. *)
Definition row_of (t : TenantId) db (m : ChunkMetadata) : Prop :=
  ∃ r, db !! cm_chunk_id m = Some r ∧ r_tenant r = t ∧ m = r_meta r.

Lemma scope_matches m scope project :
  project_scope_matches m scope project = true ↔ (scope = true → cm_project_id m = project).
Proof. unfold project_scope_matches. destruct scope; cbn; [rewrite bool_decide_eq_true|]; naive_solver. Qed.

Lemma live_head m :
  is_live_head_row m = true ↔ cm_status m = Final ∧ lc_superseded_by (cm_lifecycle m) = None.
Proof. unfold is_live_head_row. by rewrite andb_true_iff, !bool_decide_eq_true. Qed.

Lemma elem_of_rows t f db m : table_wf db → m ∈ select_where t f db → row_of t db m.
Proof.
  intros Hwf (k & r & Hr & [Ht _]%matches_true & ->)%elem_of_select_where. exists r. by rewrite (wf_key _ Hwf _ _ Hr).
Qed.

Lemma row_of_get t db m : cm_status m = Final → row_of t db m → get t (cm_chunk_id m) db = Some m.
Proof.
  intros Hs (r & Hr & Ht & ->). apply get_spec. exists r. split_and!; [done..| |done]. unfold r_status. by rewrite Hs.
Qed.

Lemma fuzzy_candidates_rows t canonical cfg project db m :
  table_wf db → m ∈ fuzzy_candidates t canonical cfg project db → row_of t db m.
Proof.
  intros Hwf [Hm _]%elem_of_List_filter.
  destruct (rd_scope_project cfg && is_none project);
    unfold list_recent_with_null_project, list_recent_for_project in Hm; cbn [Z.eqb FUZZY_RECENT_POOL_SIZE] in Hm;
    apply elem_of_take_sort in Hm; by eapply elem_of_rows.
Qed.

Lemma elem_of_canonical t canonical project scope db m :
  table_wf db → (scope = true → cm_project_id m = project) →
  m ∈ list_by_canonical_text t (if scope then project else None) canonical db ↔
    row_of t db m ∧ cm_canonical_text m = Some canonical.
Proof.
  intros Hwf Hsc. unfold list_by_canonical_text. split.
  - intros Hm. split; [by eapply elem_of_rows|]. apply elem_of_select_where in Hm as (k & r & _ & [_ Hc]%matches_true & ->).
    by apply andb_true_iff in Hc as [_ Hc%bool_decide_eq_true].
  - intros [(r & Hr & Ht & Em) Hc]. apply elem_of_select_where. exists (cm_chunk_id m), r. split_and!; [done| |done].
    apply matches_true. split; [done|]. rewrite Em in Hc, Hsc. apply andb_true_iff. split; [|by apply bool_decide_eq_true].
    unfold project_matches. destruct scope; [|done]. destruct project; [|done]. apply bool_decide_eq_true. by apply Hsc.
Qed.

Lemma elem_of_candidates t text chunk_type project cfg db c :
  table_wf db →
  c ∈ compute_dedup_candidates t text chunk_type project cfg db ↔
  ∃ m, may_supersede t db cfg project c m ∧
    match rd_mode cfg with
    | ModeExact => cm_canonical_text m = Some (canonicalize_for_type text chunk_type)
    | ModeFuzzy => m ∈ fuzzy_candidates t (canonicalize_for_type text chunk_type) cfg project db
    end.
Proof.
  intros Hwf. unfold compute_dedup_candidates. rewrite list_elem_of_fmap. split.
  - intros (m & -> & [Hf [Hs Hh]%live_head]%elem_of_List_filter). exists m.
    apply elem_of_List_filter in Hf as [Hm Hsc]. pose proof (proj1 (scope_matches _ _ _) Hsc) as Hscope.
    destruct (rd_mode cfg).
    + apply elem_of_canonical in Hm as [Hrow Hc]; [|done..]. split; [|done]. split; [by apply row_of_get|done..].
    + split; [|done]. split; [by eapply row_of_get, fuzzy_candidates_rows|done..].
  - intros (m & [Hg Hs Hh Hsc] & Hm). exists m.
    assert (cm_chunk_id m = c ∧ row_of t db m) as [Ec Hrow].
    { apply get_spec in Hg as (r & Hr & Ht & _ & ->). pose proof (wf_key _ Hwf _ _ Hr) as Ek. split; [done|].
      exists r. by rewrite Ek. }
    split; [done|]. apply elem_of_List_filter. split; [|by apply live_head]. apply elem_of_List_filter.
    split; [|by apply scope_matches]. destruct (rd_mode cfg); [|done]. by apply elem_of_canonical.
Qed.

(** No check of the supersession stands in the way of such a chunk. *)
Lemma may_supersede_preflight t db cfg project c m :
  may_supersede t db cfg project c m → supersede_preflight t c t db = Some (Ok ()).
Proof.
  intros [Hg _ Hh _]. destruct (supersede_preflight_exact t c t db) as (res & -> & Hok & _). f_equal. apply Hok.
  split_and!; [done|by eexists|]. unfold successor. by rewrite Hg.
Qed.

End candidates.

(* ------------------------------------------------------------------ *)
(** ** What the admission keeps of the tags *)

Lemma elem_of_first_of_each tag tags : ∀ seen, tag ∈ tags → tag ∈ seen ∨ tag ∈ first_of_each seen tags.
Proof.
  induction tags as [|x tags IH]; intros seen Hin; [by apply not_elem_of_nil in Hin|]. cbn.
  apply elem_of_cons in Hin as [->|Hin]; case_bool_decide; [by left|right; by left|by apply IH|].
  destruct (IH (x :: seen) Hin) as [[->|?]%elem_of_cons|?]; [right; by left|by left|right; by right].
Qed.

Lemma first_of_each_sub tag tags : ∀ seen, tag ∈ first_of_each seen tags → tag ∈ tags.
Proof.
  induction tags as [|x tags IH]; intros seen; [done|]. cbn. case_bool_decide; [intros ?%IH; by right|].
  intros [->|?%IH]%elem_of_cons; [by left|by right].
Qed.

(** A tag that trimming does not change. *)
Definition clean_tag (tag : string) : Prop := str_trim tag = tag ∧ tag ≠ ""%string.
#[local] Instance clean_tag_dec tag : base.Decision (clean_tag tag).
Proof. unfold clean_tag. apply _. Defined.

Lemma normalized_clean tags tag : Forall clean_tag tags → tag ∈ normalize_tags tags ↔ tag ∈ tags.
Proof.
  intros Hc. assert (Hmap : map str_trim tags = tags).
  { induction Hc as [|x tags [Hx _] _ IH]; [done|]. cbn. by rewrite Hx, IH. }
  assert (Hfil : filter (λ t, t ≠ ""%string) tags = tags).
  { clear Hmap. induction Hc as [|x tags [_ Hx] _ IH]; [done|]. rewrite filter_cons, decide_True by done. by rewrite IH. }
  unfold normalize_tags. rewrite Hmap, Hfil. split; [apply first_of_each_sub|].
  intros Hin. by destruct (elem_of_first_of_each tag tags [] Hin) as [?%not_elem_of_nil|].
Qed.

Lemma no_priority_sub tags tags' :
  (∀ tag, tag ∈ tags' → tag ∈ tags) → has_explicit_priority tags = false → has_explicit_priority tags' = false.
Proof.
  unfold has_explicit_priority. rewrite <-!not_true_iff_false, !existsb_exists.
  intros Hsub Hn (tag & Hin%list_elem_of_In & Ht). apply Hn. exists tag. split; [by apply list_elem_of_In, Hsub|done].
Qed.

Lemma downgrade_keeps tags : has_explicit_priority tags = false → downgrade_high_priority_tags tags = tags.
Proof.
  intros Hn. unfold downgrade_high_priority_tags. rewrite <-(map_id tags) at 2. apply map_ext_in. intros tag Hin.
  destruct (downgrade_tag_cases tag) as [[E _]|(v & Hv & H8 & _)]; [done|].
  unfold has_explicit_priority in Hn. rewrite <-not_true_iff_false, existsb_exists in Hn. destruct Hn. exists tag.
  split; [done|]. rewrite Hv. unfold priority_8 in H8. by apply andb_true_iff in H8 as [? _].
Qed.

(** An admitted write without a priority of its own keeps its tags; what it
    gets depends on the clock only in its retention. *)
Lemma prepared_tags request now_ms w :
  prepare_write_at request now_ms = Some w → has_explicit_priority (normalize_tags (pq_tags request)) = false →
  (∀ tag, tag ∈ normalize_tags (pq_tags request) → tag ∈ pw_tags w) ∧
  (ao_decision (pw_outcome w) ≠ Ephemeral → pw_lifecycle_tier w = None) ∧
  ∀ now', ∃ w', prepare_write_at request now' = Some w' ∧ pw_tags w' = pw_tags w ∧ pw_outcome w' = pw_outcome w ∧
    pw_ingestion_mode w' = pw_ingestion_mode w.
Proof.
  intros E Hn. unfold prepare_write_at in *. set (tags := normalize_tags (pq_tags request)) in *.
  destruct (classify_write _ _ tags _) as [o|]; [|done]. cbn [mbind option_bind] in *. case_bool_decide as Hr.
  { injection E as <-. split_and!; [done..|]. by eexists. }
  pose proof (downgrade_keeps tags Hn) as Hd.
  set (tags1 := if negb (is_none (ao_warning o)) then _ else tags) in *.
  assert (E1 : tags1 = tags) by (unfold tags1; by destruct (negb _)).
  set (tags2 := if bool_decide (ao_decision o = Ephemeral) then _ else tags1) in *.
  assert (H2 : ∀ tag, tag ∈ tags → tag ∈ tags2).
  { intros tag Hin. unfold tags2. rewrite E1.
    destruct (bool_decide (ao_decision o = Ephemeral)); [|done].
    destruct (push_ephemeral_spec tags) as (more & Ep & _). cbn zeta in Ep. rewrite Ep. apply elem_of_app. by left. }
  destruct (if bool_decide (ao_decision o = Durable) then _ else _) as [auto tags3] eqn:E3.
  assert (H3 : ∀ tag, tag ∈ tags2 → tag ∈ tags3).
  { intros tag Hin. destruct (bool_decide (ao_decision o = Durable)); [|by injection E3 as _ <-].
    destruct (stamp_spec (pq_chunk_type request) (pq_text request) tags2) as [Es|(n & Es & _)]; rewrite Es in E3;
      injection E3 as _ <-; [done|]. apply elem_of_app. by left. }
  destruct (admitted_retention (ao_decision o) request tags now_ms) as [ret tier] eqn:Ea. injection E as <-.
  cbn [pw_tags pw_outcome pw_lifecycle_tier pw_ingestion_mode]. split_and!.
  - auto.
  - intros Hne. unfold admitted_retention in Ea. rewrite bool_decide_false in Ea by done.
    destruct (should_apply_run_trace_retention _ _); [by injection Ea as _ <-|].
    destruct (should_apply_progress_summary_retention _ _); by injection Ea as _ <-.
  - intros now'. destruct (admitted_retention _ _ _ now'). by eexists.
Qed.

(* ------------------------------------------------------------------ *)
(** ** Runs of operations *)

Section ops.
Context `{BOL : ByteOrderLaws} `{CRL : Crc32Laws} `{RBL : RoaringLaws B}.
Context `{BWL : BincodeLaws WalRecord} `{JCL : JsonLaws MemoryChunk}.
Context `{UUL : UuidLaws ChunkId} `{TT : TaskTables TK}.
Context `{CAP : BufCap} `{BM : Bincode SegmentMeta} `{UC : Unicode} `{SHA : Sha256}.
Context `{SEG : UnicodeSegmentation} `{ET : ErrorText} `{DH : DefaultHasher}.
Implicit Types (s : St B TK) (A : gmap ChunkId MemoryChunk).

(** The operation returns, and [Q] holds of its answer and of the state. *)
Definition succeeds {T} (m : Op B TK T) (st : OpState B TK) (Q : T → OpState B TK → Prop) : Prop :=
  ∃ a st', m st = (Ok a, st') ∧ Q a st'.

Lemma succeeds_ret {T} (a : T) st (Q : T → OpState B TK → Prop) : Q a st → succeeds (mret a) st Q.
Proof. intros HQ. by exists a, st. Qed.

Lemma succeeds_bind {T C} (m : Op B TK T) (f : T → Op B TK C) st Q :
  succeeds m st (λ a st', succeeds (f a) st' Q) → succeeds (m ≫= f) st Q.
Proof. intros (a & st1 & E & c & st2 & E2 & HQ). exists c, st2. unfold mbind, op_bind. by rewrite E. Qed.

Lemma succeeds_lift {T} (r : Result OperationError T) a st (Q : T → OpState B TK → Prop) :
  r = Ok a → Q a st → succeeds (op_lift r) st Q.
Proof. intros -> HQ. by exists a, st. Qed.

Lemma succeeds_mono {T} (m : Op B TK T) st (Q Q' : T → OpState B TK → Prop) :
  succeeds m st Q → (∀ a st', Q a st' → Q' a st') → succeeds m st Q'.
Proof. intros (a & st' & E & HQ) Himp. exists a, st'. eauto. Qed.

Lemma succeeds_persistent {T} e (m : M B TK T) s u I Q (Q' : T → OpState B TK → Prop) :
  runs m s I Q → (∀ a s', Q a s' → Q' a (mkOp (PersistentTenant s') u)) →
  succeeds (op_persistent e m) (mkOp (PersistentTenant s) u) Q'.
Proof.
  intros (a & s' & tr & E & _ & _ & HQ) Himp. exists a, (mkOp (PersistentTenant s') u). split; [|by apply Himp].
  unfold op_persistent. cbn. by rewrite E.
Qed.

Variable t : TenantId.
Hypothesis tenant_valid : TenantId.validate (TenantId.as_str t) = Ok ().

(* ------------------------------------------------------------------ *)
(** ** Reading changes nothing that matters *)

Lemma runs_get s A c :
  implements t s A →
  runs (get_chunk t c) s (λ _, True) (λ o s', o = A !! c ∧ implements t s' A ∧ same_rest s s').
Proof using All.
  intros (G & rs & ads & Hr & HG & HA). pose proof (running_all_fates t _ _ _ _ Hr) as Hrf.
  eapply runs_mono.
  { eapply runs_impl; [eapply (runs_get_view t G); [apply Hrf|done|]|done].
    intros r Hl. by apply (rn_held _ _ _ _ _ _ Hrf). }
  cbn beta. intros o s' (-> & Hk). rewrite HA. split_and!; [done| |by apply (k_same _ _ _ _ _ _ _ _ Hk)].
  exists G, rs, ads. split_and!; [by eapply running_no_fates, running_keeps|done|].
  intros k. rewrite HA. unfold db_of. by destruct (k_same _ _ _ _ _ _ _ _ Hk) as (_ & -> & _).
Qed.

Lemma same_rest_db s s' : same_rest s s' → db_of s' = db_of s.
Proof. unfold db_of. by intros (_ & -> & _). Qed.

Lemma request_reread s s' now chunk initial parts fresh lane :
  same_rest s s' → request t s now chunk initial parts fresh lane → request t s' now chunk initial parts fresh lane.
Proof.
  intros Hs [? ? ? Hadm]. split; [done..|]. cbn [admissible] in *. unfold db_of in *. by destruct Hs as (-> & -> & _).
Qed.

Lemma added_reread s1 s now initial l A s' A' :
  same_rest s s1 → added_with t now initial l s1 A s' A' → added_with t now initial l s A s' A'.
Proof. intros Hs [? Hp Ho]. split; [done..|]. intros c Hc. rewrite <-(same_rest_db s s1 Hs). by apply Ho. Qed.

Lemma implements_wf s A : implements t s A → table_wf (db_of s).
Proof. intros (G & rs & ads & Hr & _ & _). exact (rs_table _ _ _ _ _ _ (rd_rec _ _ _ _ _ _ (rn_ready _ _ _ _ _ _ Hr))). Qed.

(** The stored chunk that already has the content of a new one: the first of
    the candidates that the index of hashes finds. *)
Definition stored_duplicate (db : ChunkTable) A (chunk : MemoryChunk) (caller_tags : list string) : option ChunkId :=
  if default_content_dedupe_exempt chunk caller_tags then None
  else cm_chunk_id <$> List.find (λ m, match A !! cm_chunk_id m with
                                       | Some existing => same_content existing chunk caller_tags
                                       | None => false end)
         (list_live_by_content_hash t (mc_project_id chunk) (mc_chunk_type chunk) (sha256_hex (mc_text chunk)) 8 db).

Lemma runs_first_same_content chunk caller_tags candidates : ∀ s A,
  implements t s A → mc_tenant_id chunk = t →
  runs (first_same_content chunk caller_tags candidates) s (λ _, True) (λ o s',
    o = cm_chunk_id <$> List.find (λ m, match A !! cm_chunk_id m with
                                        | Some existing => same_content existing chunk caller_tags
                                        | None => false end) candidates ∧
    implements t s' A ∧ same_rest s s').
Proof using All.
  induction candidates as [|m candidates IH]; intros s A Hi Ht; cbn [first_same_content].
  { apply runs_ret. split_and!; [done..|apply same_rest_refl]. }
  rewrite Ht. apply runs_bind. eapply runs_mono; [by apply runs_get|]. cbn beta. intros o s1 (-> & Hi1 & Hs1).
  cbn [List.find]. destruct (A !! cm_chunk_id m) as [existing|]; [destruct (same_content _ _ _)|].
  - by apply runs_ret.
  - eapply runs_mono; [by apply IH|]. cbn beta. intros o s2 (-> & Hi2 & Hs2). split_and!; [done..|by eapply same_rest_trans].
  - eapply runs_mono; [by apply IH|]. cbn beta. intros o s2 (-> & Hi2 & Hs2). split_and!; [done..|by eapply same_rest_trans].
Qed.

Lemma succeeds_duplicate chunk caller_tags s u A :
  implements t s A → mc_tenant_id chunk = t →
  succeeds (find_default_content_duplicate chunk caller_tags) (mkOp (PersistentTenant s) u) (λ o st,
    o = stored_duplicate (db_of s) A chunk caller_tags ∧
    ∃ s', st = mkOp (PersistentTenant s') u ∧ implements t s' A ∧ same_rest s s').
Proof using All.
  intros Hi Ht. unfold find_default_content_duplicate, stored_duplicate.
  destruct (default_content_dedupe_exempt chunk caller_tags).
  { apply succeeds_ret. split; [done|]. exists s. split_and!; [done..|apply same_rest_refl]. }
  unfold succeeds. cbn [op_store]. eapply succeeds_persistent.
  { apply runs_bind, runs_world. rewrite Ht. by eapply runs_first_same_content. }
  cbn beta. intros o s' (-> & Hi' & Hs'). split; [done|]. by exists s'.
Qed.

(** A duplicate is stored, and has the content of the new chunk and the
    caller's tags. *)
Lemma stored_duplicate_spec db A chunk caller_tags c :
  stored_duplicate db A chunk caller_tags = Some c →
  ∃ existing, A !! c = Some existing ∧ same_content existing chunk caller_tags = true.
Proof using.
  unfold stored_duplicate. destruct (default_content_dedupe_exempt _ _); [done|].
  intros (m & Hf & ->)%fmap_Some. apply find_some in Hf as [_ Hf].
  destruct (A !! cm_chunk_id m) as [existing|]; [|done]. by exists existing.
Qed.

(* ------------------------------------------------------------------ *)
(** ** Adding and superseding *)

Lemma succeeds_add su i chunk delta parts s u A :
  let fresh := part_ids (su_stored_id su i) chunk in
  implements t s A → request t s (su_stored_ms su i) chunk delta parts fresh (su_lane su i) →
  succeeds (add_chunk_with_complete_ids su i chunk delta) (mkOp (PersistentTenant s) u) (λ r st,
    ∃ id0 s' A', r = (id0, fresh) ∧ head fresh = Some id0 ∧ st = mkOp (PersistentTenant s') u ∧
      added_with t (su_stored_ms su i) delta (added_chunks false parts fresh) s A s' A').
Proof using All.
  intros fresh Hi Hrq. pose proof (written t tenant_valid s A _ chunk delta parts fresh _ Hi Hrq) as Hw.
  unfold add_chunk_with_complete_ids. destruct (delta_is_empty delta) eqn:Ed.
  - destruct Hw as (r & s' & tr & E & _ & _ & (id0 & part & -> & Hhd & _) & A' & HA).
    unfold add_chunk_with_lifecycle_and_stored_ids, ensure_writable, m_bind, m_store, m_ret in E.
    rewrite (implements_writable t s A Hi), Ed in E. fold fresh in E.
    exists (id0, fresh), (mkOp (PersistentTenant s') u). split; [|by exists id0, s', A'].
    unfold store_add_with_stored_ids. cbn [op_store]. fold fresh.
    destruct (add_chunk_with_stored_ids _ _ _ _ s) as [[r|e] s1]; [|done]. by injection E as -> ->.
  - eapply succeeds_persistent; [exact Hw|]. cbn beta.
    intros r s' ((id0 & part & -> & Hhd & _) & A' & HA). by exists id0, s', A'.
Qed.

Lemma succeeds_supersede e su i chunk delta parts s u A old :
  let fresh := part_ids (su_stored_id su i) chunk in
  implements t s A → request t s (su_stored_ms su i) chunk delta parts fresh (su_lane su i) →
  supersede_preflight t old t (db_of s) = Some (Ok ()) →
  succeeds (op_persistent e (supersede_chunk_with_lifecycle_and_stored_ids (su_stored_ms su i) t old chunk delta fresh
              (su_lane su i) (m_ret ()))) (mkOp (PersistentTenant s) u) (λ r st,
    ∃ id0 s' A', r = (id0, fresh) ∧ head fresh = Some id0 ∧ st = mkOp (PersistentTenant s') u ∧
      superseded_with t old (su_stored_ms su i) delta (added_chunks false parts fresh) id0 A s' A').
Proof using All.
  intros fresh Hi Hrq Hpre. eapply succeeds_persistent.
  { apply (runs_supersede t tenant_valid s A _ old chunk delta parts fresh); [done..|].
    by rewrite (rq_tenant _ _ _ _ _ _ _ _ Hrq). }
  cbn beta. intros r s' (id0 & A' & -> & Hhd & HA). by exists id0, s', A'.
Qed.

(** The first candidate is superseded; without one the chunk is added. *)
Definition added_or_superseded (now : Z) (delta : LifecycleDelta) (parts : list MemoryChunk) (fresh : list ChunkId)
    (candidates : list ChunkId) s A s' A' (id0 : ChunkId) : Prop :=
  let l := added_chunks false parts fresh in
  head fresh = Some id0 ∧
  match candidates with
  | [] => added_with t now delta l s A s' A'
  | old :: _ => superseded_with t old now delta l id0 A s' A'
  end.

Lemma succeeds_add_or_supersede e su i chunk delta parts project cfg s u A :
  let fresh := part_ids (su_stored_id su i) chunk in
  let candidates := compute_dedup_candidates t (mc_text chunk) (mc_chunk_type chunk) project cfg (db_of s) in
  implements t s A → request t s (su_stored_ms su i) chunk delta parts fresh (su_lane su i) →
  succeeds (add_or_supersede e su i t chunk delta candidates) (mkOp (PersistentTenant s) u) (λ r st,
    ∃ id0 s' A', r = (id0, fresh) ∧ st = mkOp (PersistentTenant s') u ∧
      added_or_superseded (su_stored_ms su i) delta parts fresh candidates s A s' A' id0).
Proof using All.
  intros fresh candidates Hi Hrq. unfold add_or_supersede, added_or_superseded. destruct candidates as [|old rest] eqn:Ec.
  - eapply succeeds_mono; [by eapply succeeds_add|]. cbn beta. intros r st (id0 & s' & A' & -> & ? & -> & ?).
    by exists id0, s', A'.
  - assert (Hin : old ∈ compute_dedup_candidates t (mc_text chunk) (mc_chunk_type chunk) project cfg (db_of s)).
    { fold candidates. rewrite Ec. by left. }
    apply elem_of_candidates in Hin as (m & Hm & _); [|by eapply implements_wf].
    eapply succeeds_mono; [eapply succeeds_supersede; [done..|by eapply may_supersede_preflight]|]. cbn beta.
    intros r st (id0 & s' & A' & -> & ? & -> & ?). by exists id0, s', A'.
Qed.

(* ------------------------------------------------------------------ *)
(** ** memory.add *)

(** What memory.add decides before it looks at the store: the caller's chunk,
    its admission and the deduplication, or why it refuses. *)
Definition add_plan (su : Surroundings) (params : AddParams)
    : Result OperationError (TenantId * MemoryChunk * PreparedWrite * option ResolvedDedup) :=
  '(t, chunk, mode) ← add_request su params;
  w ← ok_or (resolve_write_admission (su_admitted_ms su 0) chunk mode (ap_expires_at_ms params) (ap_review_after_ms params))
        (InternalError "panic");
  if is_rejected w
  then Err (InvalidParams ("memory.add rejected by quality gate: " +:+ ao_reason (pw_outcome w)))
  else cfg ← resolve_dedup (ap_supersede_near_duplicates params); Ok (t, chunk, w, cfg).

(** The caller has asked for a lifecycle. *)
Definition asks_lifecycle (params : AddParams) : bool :=
  negb (is_none (ap_expires_at_ms params)) || negb (is_none (ap_review_after_ms params)).

(** What an accepted request does to the store and answers. *)
Definition added_as (su : Surroundings) (params : AddParams) (chunk : MemoryChunk) (w : PreparedWrite)
    (cfg : option ResolvedDedup) (parts : list MemoryChunk) s A s' A' (answer : AddAnswer) : Prop :=
  let new := apply_to_chunk w chunk in
  let fresh := part_ids (su_stored_id su 0) new in
  let now := su_stored_ms su 0 in
  match cfg with
  | Some cfg =>
      let candidates := compute_dedup_candidates t (mc_text new) (mc_chunk_type new) (mc_project_id new) cfg (db_of s) in
      ∃ id0, answer = dedup_answer w (id0, fresh) candidates ∧
        added_or_superseded now (lifecycle_delta w) parts fresh candidates s A s' A' id0
  | None =>
      match (if asks_lifecycle params then None else stored_duplicate (db_of s) A new (mc_tags chunk)) with
      | Some c => answer = reused_answer w c ∧ A' = A ∧ implements t s' A ∧
          ∃ existing, A !! c = Some existing ∧ same_content existing new (mc_tags chunk) = true
      | None =>
          ∃ id0, answer = added_answer w (id0, fresh) (created_tenant su t) ∧
            added_or_superseded now (lifecycle_delta w) parts fresh [] s A s' A' id0
      end
  end.

Lemma request_chunk_text su i t' chunk_type p chunk :
  request_chunk su i t' chunk_type p = Ok chunk →
  mc_text chunk = bp_text p ∧ mc_tenant_id chunk = t' ∧ mc_chunk_type chunk = chunk_type ∧
  mc_status chunk = Final ∧ mc_project_id chunk = bp_project_id p ∧ mc_timestamp_created chunk = su_created_ms su i ∧
  mc_source chunk = params_to_source (bp_source p) ∧
  mc_tags chunk = match bp_episode_id p with Some e => [make_episode_tag e] | None => [] end ++ bp_tags p.
Proof using.
  unfold request_chunk. destruct (bp_episode_id p) as [e|].
  - destruct (validate_episode_id e); [|done]. cbn [mbind result_bind]. intros [= <-].
    destruct (bp_project_id p), (bp_event_time_ms p), (bp_tags p); done.
  - cbn [mbind result_bind]. intros [= <-]. destruct (bp_project_id p), (bp_event_time_ms p), (bp_tags p); done.
Qed.

Lemma add_request_chunk su params t' chunk mode :
  add_request su params = Ok (t', chunk, mode) →
  ∃ chunk_type, parse_chunk_type (ap_chunk_type params) = Ok chunk_type ∧
    parse_ingestion_mode (ap_mode params) = Ok mode ∧
    request_chunk su 0 t' chunk_type (add_params_chunk params) = Ok chunk.
Proof using.
  unfold add_request. intros E.
  destruct (resolve_tenant_id _ _) as [t1|]; [|done]. cbn [mbind result_bind] in E.
  destruct (invalid_params _); [|done]. cbn [mbind result_bind] in E.
  destruct (parse_chunk_type _) as [ct|]; [|done]. cbn [mbind result_bind] in E.
  destruct (match su_tenant_dir su with Some r => _ | None => _ end); [|done]. cbn [mbind result_bind] in E.
  destruct (request_chunk _ _ _ _ _) as [chunk1|] eqn:Ec; [|done]. cbn [mbind result_bind] in E.
  destruct (parse_ingestion_mode _) as [mode1|]; [|done]. cbn [mbind result_bind] in E. injection E as <- <- <-.
  by exists ct.
Qed.

(** The admission does not panic on a text of characters. *)
Lemma admission_total now_ms chunk mode expires review :
  valid_utf8 (mc_text chunk) = true → is_Some (resolve_write_admission now_ms chunk mode expires review).
Proof using.
  intros V. unfold resolve_write_admission, prepare_write_at. cbn [pq_chunk_type pq_text pq_tags pq_ingestion_mode].
  destruct (classify_spec (mc_chunk_type chunk) (mc_text chunk) (normalize_tags (mc_tags chunk)) mode V) as (o & -> & _).
  cbn [mbind option_bind]. case_bool_decide; [by eexists|]. destruct (admitted_retention _ _ _ _).
  destruct (if bool_decide (ao_decision o = Durable) then _ else _). by eexists.
Qed.

(** The usage event of an accepted request. *)
Definition admitted_event (t' : TenantId) (params : AddParams) (chunk : MemoryChunk) (w : PreparedWrite) : UsageEvent :=
  mkUsage UsageAdd (Some (TenantId.as_str t')) (ap_project_id params) (usage_outcome w) (Some 1)
    (Some (as_i64 (zstrlen (mc_text chunk)))) None.

Lemma succeeds_add_admitted su params chunk w cfg parts s u A :
  let new := apply_to_chunk w chunk in
  implements t s A → resolve_dedup (ap_supersede_near_duplicates params) = Ok cfg →
  request t s (su_stored_ms su 0) new (lifecycle_delta w) parts (part_ids (su_stored_id su 0) new) (su_lane su 0) →
  succeeds (add_admitted su params t (mc_tags chunk) new w) (mkOp (PersistentTenant s) u) (λ answer st,
    ∃ s' A', st = mkOp (PersistentTenant s') u ∧ added_as su params chunk w cfg parts s A s' A' answer).
Proof using All.
  intros new Hi Hcfg Hrq. pose proof (rq_tenant _ _ _ _ _ _ _ _ Hrq) as Ht. unfold add_admitted, added_as. cbn zeta.
  fold new. apply succeeds_bind. eapply succeeds_lift; [exact Hcfg|]. destruct cfg as [cfg|].
  - apply succeeds_bind. eexists _, _. split; [reflexivity|]. cbv beta. rewrite Ht. fold (db_of s).
    apply succeeds_bind. eapply succeeds_mono; [by eapply succeeds_add_or_supersede|]. cbn beta.
    intros r st (id0 & s' & A' & -> & -> & HA). apply succeeds_ret. exists s', A'. split; [done|]. by exists id0.
  - fold (asks_lifecycle params). apply succeeds_bind.
    set (dup := if asks_lifecycle params then None else stored_duplicate (db_of s) A new (mc_tags chunk)).
    eapply (succeeds_mono _ _ (λ o st, o = dup ∧ ∃ s', st = mkOp (PersistentTenant s') u ∧ implements t s' A ∧ same_rest s s')).
    { unfold dup. destruct (asks_lifecycle params); [|by eapply succeeds_duplicate]. apply succeeds_ret.
      split; [done|]. exists s. split_and!; [done..|apply same_rest_refl]. }
    cbn beta. intros o st (-> & s1 & -> & Hi1 & Hs1). destruct dup as [c|] eqn:Edup.
    + apply succeeds_ret. exists s1, A. split_and!; [done..|].
      apply (stored_duplicate_spec (db_of s)). unfold dup in Edup. by destruct (asks_lifecycle params).
    + apply succeeds_bind. eapply succeeds_mono; [eapply succeeds_add; [exact Hi1|by eapply request_reread]|]. cbn beta.
      intros r st (id0 & s' & A' & -> & Hhd & -> & HA). apply succeeds_ret. exists s', A'. split; [done|].
      exists id0. split; [done|]. split; [done|]. by eapply added_reread.
Qed.

(** The part of the operation before it writes. *)
Lemma handle_planned su params s u :
  valid_utf8 (ap_text params) = true →
  match add_plan su params with
  | Err e => ∃ events, handle_memory_add su params (mkOp (PersistentTenant s) u)
                       = (Err (Failed e), mkOp (PersistentTenant s) (u ++ events))
  | Ok (t', chunk, w, cfg) => resolve_dedup (ap_supersede_near_duplicates params) = Ok cfg ∧
      handle_memory_add su params (mkOp (PersistentTenant s) u)
      = add_admitted su params t' (mc_tags chunk) (apply_to_chunk w chunk) w
          (mkOp (PersistentTenant s) (u ++ [admitted_event t' params chunk w]))
  end.
Proof using.
  intros V. unfold add_plan, handle_memory_add.
  destruct (add_request su params) as [[[t' chunk] mode]|e] eqn:Er; [|exists []; by rewrite app_nil_r].
  pose proof (add_request_chunk _ _ _ _ _ Er) as (chunk_type & _ & _ & Hc).
  apply request_chunk_text in Hc as (Htext & _). cbn [bp_text add_params_chunk] in Htext.
  rewrite <- Htext in V.
  destruct (admission_total (su_admitted_ms su 0) chunk mode (ap_expires_at_ms params) (ap_review_after_ms params) V) as [w Hw].
  unfold mbind, op_bind, result_bind, op_lift, map_err, op_total. rewrite Hw. cbn [ok_or].
  destruct (is_rejected w); [by eexists [_]|].
  cbn [drop_optional_default_retention op_store is_persistent record_add_usage_event record_usage_event op_usage].
  destruct (resolve_dedup (ap_supersede_near_duplicates params)) as [cfg|e] eqn:Ecfg; [done|].
  unfold add_admitted, mbind, op_bind, op_lift. rewrite Ecfg. by eexists [_].
Qed.

(** C18: adding a memory is exact.  On a store that holds [A], memory.add
    decides from the request alone whether it refuses it; a refusal changes
    nothing in the store.  Otherwise it succeeds and records one usage event.
    Without deduplication it answers a stored chunk with the same text, type
    and project and the caller's tags, when the index of hashes finds one and
    the caller asked for no lifecycle, and then changes nothing; else it
    stores the parts of the text with the admitted retention, and nothing else
    changes.  With deduplication it makes the new chunk the successor of the
    first candidate, which never fails the checks of the supersession, or adds
    it when there is no candidate. *)
Theorem handle_add_exact su params s u A :
  implements t s A → valid_utf8 (ap_text params) = true →
  match add_plan su params with
  | Err e => ∃ events, handle_memory_add su params (mkOp (PersistentTenant s) u)
                       = (Err (Failed e), mkOp (PersistentTenant s) (u ++ events))
  | Ok (t', chunk, w, cfg) =>
      let new := apply_to_chunk w chunk in
      ∀ parts, t' = t →
      request t s (su_stored_ms su 0) new (lifecycle_delta w) parts (part_ids (su_stored_id su 0) new) (su_lane su 0) →
      ∃ answer s' A',
        handle_memory_add su params (mkOp (PersistentTenant s) u)
          = (Ok answer, mkOp (PersistentTenant s') (u ++ [admitted_event t params chunk w])) ∧
        added_as su params chunk w cfg parts s A s' A' answer
  end.
Proof using All.
  intros Hi V. pose proof (handle_planned su params s u V) as Hplan.
  destruct (add_plan su params) as [[[[t' chunk] w] cfg]|e]; [|done]. destruct Hplan as [Hcfg ->]. intros new parts -> Hrq.
  destruct (succeeds_add_admitted su params chunk w cfg parts s (u ++ [admitted_event t params chunk w]) A Hi Hcfg Hrq)
    as (answer & st & E & s' & A' & -> & HA).
  by exists answer, s', A'.
Qed.

(* ------------------------------------------------------------------ *)
(** ** Adding the same memory again *)

Definition answered_id (a : AddAnswer) : string :=
  match a with AnswerAdd r => ar_chunk_id r | AnswerDedup r => da_chunk_id r end.
Definition answered_reuse (a : AddAnswer) : bool :=
  match a with AnswerAdd r => negb (is_none (ar_deduped_existing_id r)) | AnswerDedup _ => false end.

(** What the comparison with the stored chunks looks at. *)
Record same_memory (c1 c2 : MemoryChunk) : Prop := {
  sm_text : mc_text c2 = mc_text c1;
  sm_type : mc_chunk_type c2 = mc_chunk_type c1;
  sm_project : mc_project_id c2 = mc_project_id c1;
  sm_source : mc_source c2 = mc_source c1;
  sm_tags : mc_tags c2 = mc_tags c1;
}.

Lemma stored_duplicate_same db A c1 c2 caller_tags :
  same_memory c1 c2 → stored_duplicate db A c2 caller_tags = stored_duplicate db A c1 caller_tags.
Proof using.
  intros [E1 E2 E3 E4 E5]. unfold stored_duplicate, default_content_dedupe_exempt, same_content. by rewrite E1, E2, E3, E4, E5.
Qed.

(** A request that is made again, later and with other ids. *)
Record made_again (su su2 : Surroundings) (params : AddParams) : Prop := {
  ma_tenant : resolve_tenant_id su2 (ap_tenant_id params) = resolve_tenant_id su (ap_tenant_id params);
  ma_dir : su_tenant_dir su2 = su_tenant_dir su;
}.

Lemma plan_again su su2 params t' chunk w cfg :
  made_again su su2 params → add_plan su params = Ok (t', chunk, w, cfg) →
  has_explicit_priority (normalize_tags (mc_tags chunk)) = false →
  ∃ chunk2 w2, add_plan su2 params = Ok (t', chunk2, w2, cfg) ∧ mc_tags chunk2 = mc_tags chunk ∧
    same_memory (apply_to_chunk w chunk) (apply_to_chunk w2 chunk2).
Proof using.
  intros [Et Ed] E Hn. unfold add_plan in *. destruct (add_request su params) as [[[t1 chunk1] mode]|] eqn:Er; [|done].
  cbn [mbind result_bind] in E. destruct (resolve_write_admission _ chunk1 _ _ _) as [w1|] eqn:Ew; [|done].
  cbn [ok_or mbind result_bind] in E. destruct (is_rejected w1) eqn:Erej; [done|].
  destruct (resolve_dedup _) as [cfg1|] eqn:Ecfg; [|done]. cbn [mbind result_bind] in E. injection E as <- <- <- <-.
  pose proof Er as (ct & Hct & Hmode & Hc)%add_request_chunk.
  assert (Hc2 : ∃ chunk2, request_chunk su2 0 t1 ct (add_params_chunk params) = Ok chunk2).
  { revert Hc. unfold request_chunk. destruct (bp_episode_id (add_params_chunk params)) as [e|]; [|by eexists].
    destruct (validate_episode_id e); [by eexists|done]. }
  destruct Hc2 as [chunk2 Hc2]. exists chunk2.
  assert (Er2 : add_request su2 params = Ok (t1, chunk2, mode)).
  { revert Er. unfold add_request. rewrite Et, Ed. destruct (resolve_tenant_id su _) as [t2|]; [|done].
    cbn [mbind result_bind]. destruct (invalid_params _); [|done]. cbn [mbind result_bind]. rewrite Hct.
    cbn [mbind result_bind]. destruct (match su_tenant_dir su with Some r => _ | None => _ end); [|done].
    cbn [mbind result_bind]. destruct (request_chunk su 0 t2 ct _) as [c|] eqn:Ec; [|done]. cbn [mbind result_bind]. rewrite Hmode.
    cbn [mbind result_bind]. intros [= -> ->]. by rewrite Hc2. }
  apply request_chunk_text in Hc as (T1 & _ & C1 & _ & P1 & _ & S1 & G1).
  apply request_chunk_text in Hc2 as (T2 & _ & C2 & _ & P2 & _ & S2 & G2).
  unfold resolve_write_admission in Ew.
  destruct (prepared_tags _ _ _ Ew Hn) as (_ & _ & Hagain). destruct (Hagain (su_admitted_ms su2 0)) as (w2 & Ew2 & Etags & Eout & _).
  exists w2. rewrite Er2. cbn [mbind result_bind]. unfold resolve_write_admission.
  rewrite T2, C2, G2, <-T1, <-C1, <-G1, Ew2. cbn [ok_or mbind result_bind].
  unfold is_rejected in *. rewrite Eout, Erej. cbn [mbind result_bind]. split_and!; [done|congruence|].
  split; cbn; congruence.
Qed.

(** The newest of the rows is the first one of a sorted query. *)
Lemma newest_is_first (m : ChunkMetadata) (l : list ChunkMetadata) n :
  (0 < n)%nat → m ∈ l → (∀ m', m' ∈ l → m' = m ∨ cm_timestamp_created m' < cm_timestamp_created m) →
  ∃ rest, take n (merge_sort newest_first l) = m :: rest.
Proof using.
  intros Hn Hin Hnew. assert (Htr : Transitive newest_first) by (unfold newest_first; intros ? ? ? ? ?; lia).
  assert (Htot : Total newest_first) by (intros x y; unfold newest_first; lia).
  pose proof (Sorted_merge_sort newest_first l) as Hs. pose proof (merge_sort_Permutation newest_first l) as Hp.
  destruct (merge_sort newest_first l) as [|h rest] eqn:E; [by rewrite <-Hp in Hin; apply not_elem_of_nil in Hin|].
  destruct n as [|n]; [lia|]. exists (take n rest). cbn. f_equal.
  assert (Hh : h ∈ l) by (rewrite <-Hp; by left). destruct (Hnew h Hh) as [|Hlt]; [done|].
  apply Sorted_StronglySorted in Hs; [|done]. inversion Hs as [|? ? _ Hall]; subst.
  rewrite <-Hp in Hin. apply elem_of_cons in Hin as [->|Hin]; [lia|].
  rewrite Forall_forall in Hall. specialize (Hall m Hin). unfold newest_first in Hall. lia.
Qed.

Lemma same_content_stored id w chunk new caller_tags :
  new = apply_to_chunk w chunk → (∀ tag, tag ∈ caller_tags → tag ∈ pw_tags w) →
  same_content (stored_chunk id new) new caller_tags = true.
Proof using.
  intros -> Htags. unfold same_content. rewrite !andb_true_iff, orb_true_iff, !bool_decide_eq_true.
  split_and!; [done..|by right|]. apply forallb_forall. intros tag Hin%list_elem_of_In. apply existsb_exists. exists tag.
  split; [by apply list_elem_of_In, Htags|by apply bool_decide_eq_true].
Qed.

(** A chunk that was just added is what the index of hashes finds. *)
Lemma added_is_duplicate now w chunk new id0 s A s1 A1 :
  new = apply_to_chunk w chunk → mc_status new = Final → mc_tenant_id new = t → pw_lifecycle_tier w = None →
  default_content_dedupe_exempt new (mc_tags chunk) = false → (∀ tag, tag ∈ mc_tags chunk → tag ∈ pw_tags w) →
  (∀ c m, get t c (db_of s) = Some m → cm_timestamp_created m < mc_timestamp_created new) →
  added_with t now (lifecycle_delta w) [(id0, stored_chunk id0 new)] s A s1 A1 →
  stored_duplicate (db_of s1) A1 new (mc_tags chunk) = Some id0.
Proof using tenant_valid.
  intros Enew Hst Ht Htier Hex Htags Hnew [Hi1 Hparts Hothers].
  destruct (Hparts id0 (stored_chunk id0 new)) as (HA1 & seg & ord & Hg); [by left|].
  set (m0 := first_row now (lifecycle_delta w) id0 (stored_chunk id0 new) seg ord) in Hg.
  assert (Hm0 : cm_chunk_id m0 = id0 ∧ cm_status m0 = Final ∧ cm_project_id m0 = mc_project_id new ∧
    cm_chunk_type m0 = mc_chunk_type new ∧ cm_hash m0 = sha256_hex (mc_text new) ∧
    cm_timestamp_created m0 = mc_timestamp_created new ∧ lc_tier (cm_lifecycle m0) = LongTerm ∧
    lc_superseded_by (cm_lifecycle m0) = None).
  { unfold m0, first_row. destruct (delta_is_empty (lifecycle_delta w)); [by split_and!|].
    unfold stamped. cbn. rewrite Htier. by split_and!. }
  destruct Hm0 as (Hid & Hs0 & Hp0 & Hty0 & Hh0 & Hts0 & Htier0 & Hsup0).
  unfold stored_duplicate. rewrite Hex. unfold list_live_by_content_hash. cbn [Z.eqb].
  match goal with |- context [merge_sort _ ?l] => destruct (newest_is_first m0 l (Z.to_nat 8)) as [rest ->]; [lia| | |] end.
  - apply elem_of_select_where. apply get_spec in Hg as (r & Hr & Hrt & _ & Em). exists id0, r. split_and!; [done| |done].
    apply matches_true. split; [done|]. unfold status_in, r_status, r_lc. rewrite <-Em, Hp0, Hty0, Hh0, Hs0, Htier0, Hsup0.
    rewrite !bool_decide_true by (done || by left). done.
  - intros m (c & r & Hr & [Hrt Hf]%matches_true & ->)%elem_of_select_where.
    assert (Hgc : get t c (db_of s1) = Some (r_meta r)).
    { apply get_spec. exists r. split_and!; [done..| |done]. intros Hd. unfold status_in in Hf. rewrite Hd in Hf.
      repeat (apply andb_true_iff in Hf as [Hf ?]). rewrite (bool_decide_false (Deleted ∈ [Final])) in * by set_solver. done. }
    destruct (decide (c = id0)) as [->|Hne]; [left; congruence|right]. rewrite Hts0. apply (Hnew c).
    rewrite <-Hgc. symmetry. apply Hothers. by intros ?%list_elem_of_singleton.
  - cbn [List.find]. rewrite Hid, HA1. cbn [lifecycle_delta ld_status coalesce].
    rewrite set_status_same. rewrite (same_content_stored id0 w chunk new) by done. cbn. by rewrite Hid.
Qed.

Lemma add_plan_spec su params t' chunk w cfg :
  add_plan su params = Ok (t', chunk, w, cfg) →
  (∃ mode, prepare_write_at (mkRequest (mc_chunk_type chunk) (mc_text chunk) (mc_tags chunk) mode
             (ap_expires_at_ms params) (ap_review_after_ms params)) (su_admitted_ms su 0) = Some w) ∧
  mc_timestamp_created chunk = su_created_ms su 0 ∧ mc_status chunk = Final ∧ mc_tenant_id chunk = t'.
Proof using.
  unfold add_plan. destruct (add_request su params) as [[[t1 chunk1] mode]|] eqn:Er; [|done]. cbn [mbind result_bind].
  destruct (resolve_write_admission _ chunk1 _ _ _) as [w1|] eqn:Ew; [|done]. cbn [ok_or mbind result_bind].
  destruct (is_rejected w1); [done|]. destruct (resolve_dedup _); [|done]. cbn [mbind result_bind]. intros [= <- <- <- <-].
  apply add_request_chunk in Er as (ct & _ & _ & (_ & ? & _ & ? & _ & ? & _)%request_chunk_text).
  split_and!; [by exists mode|done..].
Qed.

(** A stored duplicate is answered, and nothing is written. *)
Lemma handle_reuses su params chunk w s u A c :
  valid_utf8 (ap_text params) = true → add_plan su params = Ok (t, chunk, w, None) → asks_lifecycle params = false →
  implements t s A → mc_tenant_id (apply_to_chunk w chunk) = t →
  stored_duplicate (db_of s) A (apply_to_chunk w chunk) (mc_tags chunk) = Some c →
  ∃ s' u', handle_memory_add su params (mkOp (PersistentTenant s) u) = (Ok (reused_answer w c), mkOp (PersistentTenant s') u') ∧
    implements t s' A ∧ db_of s' = db_of s.
Proof using All.
  intros V Hplan Hno Hi Ht Hdup. pose proof (handle_planned su params s u V) as Hrun. rewrite Hplan in Hrun.
  destruct Hrun as [Hcfg ->]. 
  destruct (succeeds_duplicate (apply_to_chunk w chunk) (mc_tags chunk) s
              (u ++ [admitted_event t params chunk w]) A Hi Ht) as (o & st & E & -> & s' & -> & Hi' & Hs').
  exists s', (u ++ [admitted_event t params chunk w]). split_and!; [|done|by apply same_rest_db].
  unfold add_admitted. fold (asks_lifecycle params). rewrite Hno. unfold mbind, op_bind, op_lift. rewrite Hcfg. cbn [map_err].
  rewrite E, Hdup. done.
Qed.

(** C19: adding the same memory again changes nothing.  Take a memory that
    memory.add accepts: no deduplication, no lifecycle of the caller's, not
    admitted as ephemeral, no priority or digest among its tags, and a text
    that is stored in one part; its tags have no blanks around them, and the
    clock has gone on since the last write.  When the request is made again
    later, in the same surroundings but for clock and ids, the second call
    answers the id of the first, says that it reused it, and leaves every
    chunk as it was. *)
Theorem memory_add_idempotent su su2 params s u A chunk w :
  let new := apply_to_chunk w chunk in
  implements t s A → valid_utf8 (ap_text params) = true →
  add_plan su params = Ok (t, chunk, w, None) → made_again su su2 params →
  asks_lifecycle params = false → ao_decision (pw_outcome w) ≠ Ephemeral →
  Forall clean_tag (mc_tags chunk) → default_content_dedupe_exempt new (mc_tags chunk) = false →
  (∀ c m, get t c (db_of s) = Some m → cm_timestamp_created m < su_created_ms su 0) →
  request t s (su_stored_ms su 0) new (lifecycle_delta w) [new] (part_ids (su_stored_id su 0) new) (su_lane su 0) →
  ∃ answer1 s1 u1 A1 answer2 s2 u2,
    handle_memory_add su params (mkOp (PersistentTenant s) u) = (Ok answer1, mkOp (PersistentTenant s1) u1) ∧
    implements t s1 A1 ∧
    handle_memory_add su2 params (mkOp (PersistentTenant s1) u1) = (Ok answer2, mkOp (PersistentTenant s2) u2) ∧
    implements t s2 A1 ∧ answered_id answer2 = answered_id answer1 ∧ answered_reuse answer2 = true.
Proof using All.
  intros new Hi V Hplan Hagain Hno Heph Hclean Hex Hnew Hrq.
  assert (Htags : has_explicit_priority (mc_tags chunk) = false).
  { unfold default_content_dedupe_exempt in Hex. by apply orb_false_iff in Hex as [_ ?]. }
  assert (Hnt : has_explicit_priority (normalize_tags (mc_tags chunk)) = false).
  { eapply no_priority_sub; [|exact Htags]. intros tag. by apply normalized_clean. }
  destruct (plan_again _ _ _ _ _ _ _ Hagain Hplan Hnt) as (chunk2 & w2 & Hplan2 & Etags & Hsame).
  destruct (add_plan_spec su params t chunk w None Hplan) as ((mode & Hwreq) & Hcreated & Hst & Ht).
  destruct (prepared_tags _ _ _ Hwreq Hnt) as (Hkeep & Htier & _). specialize (Htier Heph).
  destruct (add_plan_spec su2 params t chunk2 w2 None Hplan2) as (_ & _ & _ & Ht2).
  assert (Hdup : ∃ c answer1 s1 u1 A1,
    handle_memory_add su params (mkOp (PersistentTenant s) u) = (Ok answer1, mkOp (PersistentTenant s1) u1) ∧
    implements t s1 A1 ∧ answered_id answer1 = uuid_to_string c ∧
    stored_duplicate (db_of s1) A1 new (mc_tags chunk) = Some c).
  { destruct (stored_duplicate (db_of s) A new (mc_tags chunk)) as [c|] eqn:Ec.
    - destruct (handle_reuses su params chunk w s u A c V Hplan Hno Hi Ht Ec) as (s1 & u1 & E1 & Hi1 & Edb).
      exists c, (reused_answer w c), s1, u1, A. split_and!; [done..|]. by rewrite Edb.
    - pose proof (handle_planned su params s u V) as Hrun. rewrite Hplan in Hrun. destruct Hrun as [Hcfg Erun].
      destruct (succeeds_add_admitted su params chunk w None [new] s (u ++ [admitted_event t params chunk w]) A Hi Hcfg Hrq)
        as (answer & st & E & s1 & A1 & -> & HA). unfold added_as in HA. rewrite Hno in HA. fold new in HA. rewrite Ec in HA.
      destruct HA as (id0 & -> & Hhd & HA). cbn beta iota in HA.
      exists id0, (added_answer w (id0, part_ids (su_stored_id su 0) new) (created_tenant su t)), s1,
        (u ++ [admitted_event t params chunk w]), A1.
      split_and!; [by rewrite Erun|apply HA|done|].
      assert (El : added_chunks false [new] (part_ids (su_stored_id su 0) new) = [(id0, stored_chunk id0 new)]).
      { pose proof (rq_fits _ _ _ _ _ _ _ _ Hrq) as (Hlen & _). destruct (part_ids _ new) as [|c0 [|]]; [done| |done].
        by injection Hhd as ->. }
      rewrite El in HA. eapply (added_is_duplicate _ w chunk new id0 s A s1 A1); [done..| | |exact HA].
      + intros tag Hin. apply Hkeep. cbn [pq_tags]. by apply normalized_clean.
      + intros c m Hg. unfold new, apply_to_chunk. cbn. rewrite Hcreated. by eapply Hnew. }
  destruct Hdup as (c & answer1 & s1 & u1 & A1 & E1 & Hi1 & Hid & Hdup).
  rewrite <-(stored_duplicate_same _ _ _ _ _ Hsame), <-Etags in Hdup.
  destruct (handle_reuses su2 params chunk2 w2 s1 u1 A1 c V Hplan2 Hno Hi1 Ht2 Hdup) as (s2 & u2 & E2 & Hi2 & _).
  by exists answer1, s1, u1, A1, (reused_answer w2 c), s2, u2.
Qed.

(* ------------------------------------------------------------------ *)
(** ** Adding several documents at once *)

(** The ids and parts of each document. *)
Definition Doc1 : Type := list ChunkId * list MemoryChunk.
Definition doc_ok (d : Doc1) : Prop := length d.1 = length d.2 ∧ d.2 ≠ [].

Fixpoint offsets {T} (n : nat) (ls : list (list T)) : list nat :=
  match ls with [] => [] | l :: ls => n :: offsets (n + length l) ls end.

Lemma expand_docs chunks partss : ∀ acc pos,
  Forall2 (λ chunk parts, split_for_add chunk = Some parts) chunks partss →
  try_fold expand_chunk chunks (acc, pos) = Ok (acc ++ concat partss, pos ++ offsets (length acc) partss).
Proof using.
  intros acc pos Hall. revert acc pos. induction Hall as [|chunk parts chunks partss Hs _ IH]; intros acc pos;
    cbn [try_fold concat offsets].
  { by rewrite !app_nil_r. }
  assert (E : expand_chunk (acc, pos) chunk = Ok (acc ++ parts, pos ++ [length acc])).
  { unfold expand_chunk. rewrite Hs. cbn [ok_or mbind result_bind]. by rewrite bool_decide_false by (by eapply split_for_add_nonempty). }
  rewrite E. cbn [mbind result_bind]. rewrite IH, length_app. by rewrite <-!app_assoc.
Qed.

Lemma pick_heads (idss : list (list ChunkId)) : ∀ pre acc,
  Forall (λ l, l ≠ []) idss →
  try_fold (λ acc pos, c ← ok_or ((pre ++ concat idss) !! pos) (StorageError "missing primary chunk id"); Ok (acc ++ [c]))
    (offsets (length pre) idss) acc = Ok (acc ++ omap head idss).
Proof using.
  induction idss as [|ids idss IH]; intros pre acc Hne; cbn [offsets try_fold omap list_omap]; [by rewrite app_nil_r|].
  apply Forall_cons in Hne as [Hid Hne]. destruct ids as [|c ids]; [done|]. cbn [concat].
  rewrite lookup_app_r, Nat.sub_diag by lia. cbn [lookup list_lookup app ok_or mbind result_bind head].
  assert (E : pre ++ (c :: ids) ++ concat idss = (pre ++ c :: ids) ++ concat idss) by (by rewrite <-app_assoc).
  change (pre ++ c :: ids ++ concat idss) with (pre ++ (c :: ids) ++ concat idss). rewrite E.
  rewrite <-length_app. rewrite IH by done. by rewrite <-app_assoc.
Qed.

Lemma zip_with_concat (docs : list Doc1) : Forall doc_ok docs →
  added_chunks false (concat (map snd docs)) (concat (map fst docs)) = concat (map (λ d : Doc1, added_chunks false d.2 d.1) docs).
Proof using.
  induction 1 as [|d docs [Hlen _] _ IH]; [done|]. cbn [map concat]. rewrite <-IH. unfold added_chunks, added_ids.
  by rewrite zip_with_app by done.
Qed.

Lemma offsets_docs (docs : list Doc1) : ∀ n, Forall doc_ok docs → offsets n (map snd docs) = offsets n (map fst docs).
Proof using.
  induction docs as [|d docs IH]; intros n; [done|]. intros [[Hlen _] Hok]%Forall_cons. cbn. by rewrite Hlen, IH.
Qed.

Lemma runs_add_batch su docs s A pending :
  let l := added_chunks false (concat (map snd docs)) (concat (map fst docs)) in
  implements t s A →
  Forall2 (λ pc d, split_for_add pc.2 = Some (d.2 : list MemoryChunk) ∧ d.1 = part_ids (su_stored_id su pc.1) pc.2) pending docs →
  admissible t s (CmdAdd (su_stored_ms su 0) false (concat (map snd docs)) (concat (map fst docs)) (su_lane su 0)) →
  runs (persistent_add_batch su pending) s (λ _, True) (λ ids s',
    ids = omap head (map fst docs) ∧ implements t s' (list_to_map l ∪ A)).
Proof using All.
  intros l Hi Hdocs Hadm. unfold persistent_add_batch.
  assert (Hsplit : Forall2 (λ chunk parts, split_for_add chunk = Some parts) (map snd pending) (map snd docs)).
  { apply Forall2_fmap. eapply Forall2_impl; [exact Hdocs|]. by intros ? ? [? _]. }
  assert (Hids : concat (map (λ pc, part_ids (su_stored_id su pc.1) pc.2) pending) = concat (map fst docs)).
  { f_equal. clear -Hdocs. induction Hdocs as [|? ? ? ? [_ E] _ IH]; cbn; [done|]. by rewrite E, IH. }
  assert (Hok : Forall doc_ok docs).
  { clear -Hdocs. induction Hdocs as [|pc d pending docs [Hs E] _ IH]; constructor; [|done]. split.
    - rewrite E. unfold part_ids. rewrite Hs. by rewrite length_map, length_seq.
    - by eapply split_for_add_nonempty. }
  rewrite Hids. apply runs_bind, (runs_writable t s A); [done|]. apply runs_bind.
  unfold add_chunks_with_details. apply runs_bind, (runs_writable t s A); [done|].
  case_bool_decide as Hnil.
  { apply runs_ret, runs_ret. destruct pending; [|done]. apply Forall2_nil_inv_l in Hdocs as ->. split; [done|].
    unfold l. cbn. by rewrite map_empty_union. }
  apply runs_bind. eapply runs_lift.
  { unfold expand_chunks_for_add. rewrite (expand_docs _ _ [] [] Hsplit). reflexivity. }
  cbn [fst snd app]. apply runs_bind.
  destruct (add_runs t s A (su_stored_ms su 0) false (concat (map snd docs)) (concat (map fst docs)) (su_lane su 0) Hi Hadm)
    as (G & K & _ & _ & Hr).
  eapply runs_mono; [by eapply runs_impl|]. cbn beta. intros ids s' (-> & Hi' & _ & _). unfold added_ids.
  apply runs_bind. eapply runs_lift.
  { rewrite (offsets_docs docs) by done. apply (pick_heads (map fst docs) [] []). apply Forall_fmap. eapply Forall_impl; [exact Hok|].
    intros [ids parts] [Hlen Hne]; cbn in *. by destruct ids, parts. }
  apply runs_ret, runs_ret. by split.
Qed.

(* ------------------------------------------------------------------ *)
(** ** The plan of a batch *)

Definition duplicate_of db A (p : PreparedChunk) : option ChunkId := stored_duplicate db A (pc_chunk p) (pc_caller_tags p).

Fixpoint planned db A (plan : BulkPlan) (position : nat) (l : list PreparedChunk) : BulkPlan :=
  match l with
  | [] => plan
  | p :: l => planned db A (plan_with (duplicate_of db A p) plan position p) (S position) l
  end.

Lemma succeeds_plan l : ∀ plan position s u A,
  implements t s A → Forall (λ p, mc_tenant_id (pc_chunk p) = t) l →
  succeeds (plan_batch plan position l) (mkOp (PersistentTenant s) u) (λ plan' st,
    plan' = planned (db_of s) A plan position l ∧
    ∃ s', st = mkOp (PersistentTenant s') u ∧ implements t s' A ∧ same_rest s s').
Proof using All.
  induction l as [|p l IH]; intros plan position s u A Hi Ht; cbn [plan_batch planned].
  { apply succeeds_ret. split; [done|]. exists s. split_and!; [done..|apply same_rest_refl]. }
  apply Forall_cons in Ht as [Hp Ht]. apply succeeds_bind. eapply succeeds_mono; [by eapply succeeds_duplicate|].
  cbn beta. intros o st (-> & s1 & -> & Hi1 & Hs1). eapply succeeds_mono; [by eapply IH|].
  cbn beta. intros plan' st (-> & s2 & -> & Hi2 & Hs2). rewrite (same_rest_db _ _ Hs1). split; [done|].
  exists s2. split_and!; [done..|by eapply same_rest_trans].
Qed.

(** What the plan says of a position: a chunk that is stored, one to insert,
    or the same as one to insert. *)
Definition position_ok db A (plan : BulkPlan) (i : nat) (p : PreparedChunk) : Prop :=
  (∃ c, bk_ids_by_position plan !! i = Some (Some c) ∧ bk_reused plan !! i = Some true ∧ duplicate_of db A p = Some c) ∨
  (i, pc_chunk p) ∈ bk_pending plan ∨ ∃ j, (i, j) ∈ bk_aliases plan.

Record plan_ok db A (ps : list PreparedChunk) (n : nat) (plan : BulkPlan) : Prop := {
  po_ids : length (bk_ids_by_position plan) = length ps;
  po_reused : length (bk_reused plan) = length ps;
  po_done i p : (i < n)%nat → ps !! i = Some p → position_ok db A plan i p;
  po_todo i : (n ≤ i < length ps)%nat → bk_ids_by_position plan !! i = Some None ∧ bk_reused plan !! i = Some false;
  po_pending_nodup : NoDup (map fst (bk_pending plan));
  po_pending i q : (i, q) ∈ bk_pending plan → (i < n)%nat ∧
    bk_ids_by_position plan !! i = Some None ∧ bk_reused plan !! i = Some false ∧ ∃ p, ps !! i = Some p ∧ q = pc_chunk p;
  po_aliases_nodup : NoDup (map fst (bk_aliases plan));
  po_alias i j : (i, j) ∈ bk_aliases plan → (i < n)%nat ∧
    bk_ids_by_position plan !! i = Some None ∧ bk_reused plan !! i = Some true ∧
    ∃ p q, ps !! i = Some p ∧ (j, q) ∈ bk_pending plan ∧ same_content q (pc_chunk p) (pc_caller_tags p) = true;
}.

Lemma plan_ok_start db A ps :
  plan_ok db A ps 0 (mkBulk (replicate (length ps) None) (replicate (length ps) false) [] []).
Proof using.
  split; cbn; [by rewrite length_replicate..|lia| |constructor|by intros ? ? ?%not_elem_of_nil|constructor|
    by intros ? ? ?%not_elem_of_nil].
  intros i Hi. by rewrite !lookup_replicate_2 by lia.
Qed.

(** A position that the plan marks, by a lookup that is not the new one. *)
Lemma plan_ok_step db A ps n plan p :
  plan_ok db A ps n plan → ps !! n = Some p → plan_ok db A ps (S n) (plan_with (duplicate_of db A p) plan n p).
Proof using.
  intros [Hl1 Hl2 Hdone Htodo Hnd Hpend Hna Hal] Hp. pose proof (lookup_lt_Some _ _ _ Hp) as Hlt.
  assert (Hother : ∀ T (x : T) l i, i ≠ n → <[n := x]> l !! i = l !! i) by (intros; by rewrite list_lookup_insert_ne).
  assert (Hp' : ∀ i q, (i, q) ∈ bk_pending plan → i ≠ n) by (intros i q (? & _)%Hpend; lia).
  assert (Ha' : ∀ i j, (i, j) ∈ bk_aliases plan → i ≠ n) by (intros i j (? & _)%Hal; lia).
  assert (Hsame : ∀ i p', (i < S n)%nat → ps !! i = Some p' → i = n ∧ p' = p ∨ i ≠ n ∧ (i < n)%nat).
  { intros i p' Hi Hpi. destruct (decide (i = n)) as [->|]; [left; split; [done|congruence]|right; lia]. }
  unfold plan_with. destruct (duplicate_of db A p) as [c|] eqn:Ed; [|destruct (pending_duplicate plan p) as [j|] eqn:Ej].
  - split; cbn [bk_ids_by_position bk_reused bk_pending bk_aliases].
    + by rewrite length_insert.
    + by rewrite length_insert.
    + intros i p' Hi Hpi. destruct (Hsame i p' Hi Hpi) as [[-> ->]|[Hne Hi']].
      * left. exists c. cbn. rewrite !list_lookup_insert_eq by lia. done.
      * unfold position_ok. cbn. rewrite !Hother by done. by apply Hdone.
    + intros i Hi. rewrite !Hother by lia. apply Htodo. lia.
    + done.
    + intros i q Hin. rewrite !Hother by (by eapply Hp'). destruct (Hpend i q Hin) as (? & ?). split; [lia|done].
    + done.
    + intros i j Hin. rewrite !Hother by (by eapply Ha'). destruct (Hal i j Hin) as (? & ?). split; [lia|done].
  - unfold pending_duplicate in Ej. destruct (default_content_dedupe_exempt _ _); [done|].
    apply fmap_Some in Ej as ([j' q] & Hf & ->). apply find_some in Hf as [Hin%list_elem_of_In Hsc]. cbn [fst snd] in *.
    split; cbn [bk_ids_by_position bk_reused bk_pending bk_aliases].
    + done.
    + by rewrite length_insert.
    + intros i p' Hi Hpi. destruct (Hsame i p' Hi Hpi) as [[-> ->]|[Hne Hi']].
      * right; right. exists j'. cbn. apply elem_of_app. right. by left.
      * destruct (Hdone i p' Hi' Hpi) as [(c & ? & ? & ?)|[?|[j ?]]]; unfold position_ok; cbn; rewrite ?Hother by done.
        -- left. by exists c.
        -- by right; left.
        -- right; right. exists j. apply elem_of_app. by left.
    + intros i Hi. rewrite !Hother by lia. apply Htodo. lia.
    + done.
    + intros i q' Hq. rewrite !Hother by (by eapply Hp'). destruct (Hpend i q' Hq) as (? & ?). split; [lia|done].
    + rewrite map_app. apply NoDup_app. split_and!; [done| |apply NoDup_singleton].
      intros i ([k x] & -> & Hx)%list_elem_of_fmap Hk%list_elem_of_singleton. by apply (Ha' _ _ Hx).
    + intros i j [Hx|[= -> ->]%list_elem_of_singleton]%elem_of_app.
      * rewrite !Hother by (by eapply Ha'). destruct (Hal i j Hx) as (? & ?). split; [lia|done].
      * destruct (Htodo n) as [? _]; [lia|]. rewrite list_lookup_insert_eq by lia. split_and!; [lia|done|done|].
        by exists p, q.
  - split; cbn [bk_ids_by_position bk_reused bk_pending bk_aliases].
    + done.
    + done.
    + intros i p' Hi Hpi. destruct (Hsame i p' Hi Hpi) as [[-> ->]|[Hne Hi']].
      * right; left. cbn. apply elem_of_app. right. by left.
      * destruct (Hdone i p' Hi' Hpi) as [(c & ? & ? & ?)|[?|[j ?]]]; unfold position_ok; cbn.
        -- left. by exists c.
        -- right; left. apply elem_of_app. by left.
        -- right; right. by exists j.
    + intros i Hi. apply Htodo. lia.
    + rewrite map_app. apply NoDup_app. split_and!; [done| |apply NoDup_singleton].
      intros i ([k x] & -> & Hx)%list_elem_of_fmap Hk%list_elem_of_singleton. by apply (Hp' _ _ Hx).
    + intros i q [Hx|[= -> ->]%list_elem_of_singleton]%elem_of_app.
      * destruct (Hpend i q Hx) as (? & ?). split; [lia|done].
      * destruct (Htodo n) as [? ?]; [lia|]. split_and!; [lia|done|done|]. by exists p.
    + done.
    + intros i j Hx. destruct (Hal i j Hx) as (? & ? & ? & p' & q & ? & ? & ?). split_and!; [lia|done..|].
      exists p', q. split_and!; [done| |done]. apply elem_of_app. by left.
Qed.

Lemma planned_ok db A ps : ∀ l n plan,
  plan_ok db A ps n plan → drop n ps = l → plan_ok db A ps (length ps) (planned db A plan n l).
Proof using.
  induction l as [|p l IH]; intros n plan Hok Hd; cbn [planned].
  - assert (Hn : (length ps ≤ n)%nat) by (apply (f_equal length) in Hd; rewrite length_drop in Hd; cbn in Hd; lia).
    destruct Hok as [? ? Hdone Htodo ? Hpend ? Hal]. split; try done.
    + intros i p Hi Hp. apply Hdone; [lia|done].
    + intros i Hi. lia.
    + intros i q Hin. destruct (Hpend i q Hin) as (? & ? & ? & p & Hp & ?). apply lookup_lt_Some in Hp as ?. split_and!; eauto.
    + intros i j Hin. destruct (Hal i j Hin) as (? & ? & ? & p & q & Hp & ?). apply lookup_lt_Some in Hp as ?. split_and!; eauto 6.
  - assert (Hp : ps !! n = Some p) by (rewrite <-(Nat.add_0_r n), <-lookup_drop, Hd; done).
    apply IH; [by apply plan_ok_step|]. replace (S n) with (n + 1)%nat by lia. by rewrite <-drop_drop, Hd.
Qed.

(** Filling in the ids of the inserted chunks. *)
Lemma fill_spec (kvs : list (nat * ChunkId)) : ∀ ids,
  NoDup (map fst kvs) → (∀ i v, (i, v) ∈ kvs → (i < length ids)%nat) →
  let r := foldl (λ ids pi, <[pi.1 := Some pi.2]> ids) ids kvs in
  length r = length ids ∧ (∀ i v, (i, v) ∈ kvs → r !! i = Some (Some v)) ∧ ∀ i, i ∉ map fst kvs → r !! i = ids !! i.
Proof using.
  induction kvs as [|[k v] kvs IH]; intros ids Hnd Hlt; cbn [foldl fst snd]; [by split_and!; [|intros ? ? ?%not_elem_of_nil|]|].
  cbn in Hnd. apply NoDup_cons in Hnd as [Hk Hnd]. assert (Hkl : (k < length ids)%nat) by (eapply Hlt; by left).
  destruct (IH (<[k := Some v]> ids) Hnd) as (E1 & E2 & E3).
  { intros i v' Hin. rewrite length_insert. eapply Hlt. by right. }
  split_and!; [by rewrite E1, length_insert| |].
  - intros i v' [[= -> ->]|Hin]%elem_of_cons; [|by apply E2]. by rewrite E3, list_lookup_insert_eq by done.
  - intros i [Hne Hi]%not_elem_of_cons. by rewrite E3, list_lookup_insert_ne by done.
Qed.

(** Filling in the ids of the duplicates of inserted chunks. *)
Lemma aliases_spec (aliases : list (nat * nat)) : ∀ ids,
  NoDup (map fst aliases) →
  (∀ i j, (i, j) ∈ aliases → (i < length ids)%nat ∧ (j ∉ map fst aliases) ∧ ∃ c, ids !! j = Some (Some c)) →
  ∃ r, try_fold resolve_alias aliases ids = Ok r ∧ length r = length ids ∧
    (∀ i j, (i, j) ∈ aliases → r !! i = ids !! j) ∧ ∀ i, i ∉ map fst aliases → r !! i = ids !! i.
Proof using.
  induction aliases as [|[k j] aliases IH]; intros ids Hnd Hal; cbn [try_fold].
  { exists ids. by split_and!; [| |intros ? ? ?%not_elem_of_nil|]. }
  cbn in Hnd. apply NoDup_cons in Hnd as [Hk Hnd]. destruct (Hal k j) as (Hkl & Hj & c & Hc); [by left|].
  cbn in Hj. apply not_elem_of_cons in Hj as [Hjk Hj].
  assert (E : resolve_alias ids (k, j) = Ok (<[k := Some c]> ids)) by (unfold resolve_alias; cbn; by rewrite Hc).
  rewrite E. cbn [mbind result_bind].
  destruct (IH (<[k := Some c]> ids) Hnd) as (r & Er & E1 & E2 & E3).
  { intros i j' Hin. destruct (Hal i j') as (? & Hj' & c' & Hc'); [by right|]. cbn in Hj'. apply not_elem_of_cons in Hj' as [? ?].
    rewrite length_insert. split_and!; [done..|]. exists c'. by rewrite list_lookup_insert_ne. }
  exists r. split_and!; [done|by rewrite E1, length_insert| |].
  - intros i j' [[= -> ->]|Hin]%elem_of_cons.
    + by rewrite E3, list_lookup_insert_eq, Hc.
    + rewrite (E2 i j' Hin). destruct (Hal i j') as (_ & Hj' & _); [by right|]. cbn in Hj'.
      apply not_elem_of_cons in Hj' as [? _]. by rewrite list_lookup_insert_ne.
  - intros i [Hne Hi]%not_elem_of_cons. by rewrite E3, list_lookup_insert_ne by done.
Qed.

Lemma collect_spec (l : list (option ChunkId)) (e : list ChunkId → OperationError) : ∀ acc,
  (∀ i, ((i < length l)%nat → ∃ c, l !! i = Some (Some c))) →
  ∃ r, try_fold (λ acc o, id ← ok_or o (e acc); Ok (acc ++ [id])) l acc = Ok (acc ++ r) ∧
    length r = length l ∧ ∀ i c, l !! i = Some (Some c) → r !! i = Some c.
Proof using.
  induction l as [|o l IH]; intros acc Hall; cbn [try_fold]; [exists []; by rewrite app_nil_r|].
  destruct (Hall 0%nat) as [c Hc]; [cbn; lia|]. cbn in Hc. injection Hc as ->. cbn [ok_or mbind result_bind].
  destruct (IH (acc ++ [c])) as (r & E & E1 & E2); [intros i Hi; apply (Hall (S i)); cbn; lia|].
  exists (c :: r). split_and!; [by rewrite E, <-app_assoc|cbn; by rewrite E1|].
  intros [|i] c' Hc'; [cbn in *; congruence|by apply E2].
Qed.

(** The answer at a position, and what became of its chunk. *)
Definition resolved_ok db A (ps : list PreparedChunk) (plan : BulkPlan) (inserted r : list ChunkId) (i : nat) (p : PreparedChunk)
    : Prop :=
  ∃ id, r !! i = Some id ∧
    ((bk_reused plan !! i = Some true ∧
      (duplicate_of db A p = Some id ∨
       ∃ j q, ps !! j = Some q ∧ r !! j = Some id ∧ bk_reused plan !! j = Some false ∧
         same_content (pc_chunk q) (pc_chunk p) (pc_caller_tags p) = true)) ∨
     (bk_reused plan !! i = Some false ∧
      ∃ k, bk_pending plan !! k = Some (i, pc_chunk p) ∧ inserted !! k = Some id)).

(** The two passes that fill in ids. *)
Lemma resolve_ids db A ps plan inserted :
  let ids1 := foldl (λ ids pi, <[pi.1 := Some pi.2]> ids) (bk_ids_by_position plan)
                (zip (map fst (bk_pending plan)) inserted) in
  plan_ok db A ps (length ps) plan → length inserted = length (bk_pending plan) →
  ∃ ids2, try_fold resolve_alias (bk_aliases plan) ids1 = Ok ids2 ∧ length ids2 = length ps ∧
    (∀ i q, (i, q) ∈ bk_pending plan → ∃ k c, bk_pending plan !! k = Some (i, q) ∧ inserted !! k = Some c ∧ ids2 !! i = Some (Some c)) ∧
    (∀ i j, (i, j) ∈ bk_aliases plan → ids2 !! i = ids2 !! j) ∧
    ∀ i c, bk_ids_by_position plan !! i = Some (Some c) → ids2 !! i = Some (Some c).
Proof using.
  intros ids1 [Hl1 Hl2 _ _ Hnd Hpend Hna Hal] Hlen. set (kvs := zip (map fst (bk_pending plan)) inserted) in ids1.
  assert (Hkeys : map fst kvs = map fst (bk_pending plan)) by (apply fst_zip; rewrite length_map; lia).
  destruct (fill_spec kvs (bk_ids_by_position plan)) as (F1 & F2 & F3).
  { by rewrite Hkeys. }
  { intros i v Hin. assert (Hi : i ∈ map fst (bk_pending plan)) by (rewrite <-Hkeys; by apply (list_elem_of_fmap_2 fst) in Hin).
    apply list_elem_of_fmap in Hi as ([i' q] & -> & Hq). destruct (Hpend _ _ Hq) as (_ & Hn & _). cbn. by apply lookup_lt_Some in Hn. }
  fold ids1 in F1, F2, F3. rewrite Hkeys in F3.
  assert (Hins : ∀ i q, (i, q) ∈ bk_pending plan → ∃ k c, bk_pending plan !! k = Some (i, q) ∧ inserted !! k = Some c ∧ ids1 !! i = Some (Some c)).
  { intros i q [k Hk]%list_elem_of_lookup_1. destruct (lookup_lt_is_Some_2 inserted k) as [c Hc].
    { rewrite Hlen. by eapply lookup_lt_Some. }
    exists k, c. split_and!; [done..|]. apply F2. apply list_elem_of_lookup_2 with k. unfold kvs.
    rewrite lookup_zip_with, list_lookup_fmap, Hk. cbn. by rewrite Hc. }
  assert (Hap : ∀ i q, (i, q) ∈ bk_pending plan → i ∉ map fst (bk_aliases plan)).
  { intros i q Hq ([i' j] & -> & Hj)%list_elem_of_fmap. destruct (Hal _ _ Hj) as (_ & _ & Ht & _).
    destruct (Hpend _ _ Hq) as (_ & _ & Hf & _). cbn in *. congruence. }
  destruct (aliases_spec (bk_aliases plan) ids1 Hna) as (ids2 & E2 & A1 & A2 & A3).
  { intros i j Hin. destruct (Hal i j Hin) as (Hi & Hn & _ & p & q & _ & Hq & _). split_and!.
    - rewrite F1. by apply lookup_lt_Some in Hn.
    - by eapply Hap.
    - destruct (Hins j q Hq) as (k & c & _ & _ & Hc). by exists c. }
  exists ids2. split_and!; [done|by rewrite A1, F1| | |].
  - intros i q Hq. destruct (Hins i q Hq) as (k & c & ? & ? & ?). exists k, c. split_and!; [done..|]. rewrite A3; [done|by eapply Hap].
  - intros i j Hin. destruct (Hal i j Hin) as (_ & _ & _ & p & q & _ & Hq & _). rewrite (A2 i j Hin), A3; [done|by eapply Hap].
  - intros i c Hc. rewrite A3, F3; [done| |].
    + intros ([i' q] & -> & Hq)%list_elem_of_fmap. destruct (Hpend _ _ Hq) as (_ & Hn & _). cbn in *. congruence.
    + intros ([i' j] & -> & Hj)%list_elem_of_fmap. destruct (Hal _ _ Hj) as (_ & Hn & _). cbn in *. congruence.
Qed.

Lemma resolve_spec db A ps plan inserted :
  plan_ok db A ps (length ps) plan → length inserted = length (bk_pending plan) →
  ∃ r, resolve_positions plan inserted = Ok r ∧ length r = length ps ∧
    ∀ i p, ps !! i = Some p → resolved_ok db A ps plan inserted r i p.
Proof using.
  intros Hok Hlen. unfold resolve_positions. rewrite bool_decide_true by done. cbn [negb].
  destruct (resolve_ids db A ps plan inserted Hok Hlen) as (ids2 & -> & L2 & Hpk & Hpa & Hpd). cbn [mbind result_bind].
  destruct Hok as [_ _ Hdone _ _ Hpend _ Hal].
  destruct (collect_spec ids2 (λ acc, ToolError ("memory.add_batch did not produce chunk id for position "%string
      +:+ pretty (N.of_nat (length acc)))) []) as (r & -> & R1 & R2).
  { intros i Hi. rewrite L2 in Hi. destruct (lookup_lt_is_Some_2 ps i Hi) as [p Hp].
    destruct (Hdone i p Hi Hp) as [(c & Hc & _)|[Hq|[j Hj]]]; [by eauto|destruct (Hpk i _ Hq) as (_ & c & _ & _ & Hc); by eauto|].
    destruct (Hal i j Hj) as (_ & _ & _ & _ & q & _ & Hq & _). destruct (Hpk j q Hq) as (_ & c & _ & _ & Hc).
    exists c. by rewrite (Hpa i j Hj). }
  exists r. split_and!; [done|by rewrite R1|]. intros i p Hp. unfold resolved_ok. pose proof (lookup_lt_Some _ _ _ Hp) as Hi.
  destruct (Hdone i p Hi Hp) as [(c & Hc & Hr & Hd)|[Hq|[j Hj]]].
  - exists c. split; [by apply R2, Hpd|]. left. by auto.
  - destruct (Hpk i _ Hq) as (k & c & Hk & Hc & Hi2). exists c. split; [by apply R2|right].
    destruct (Hpend _ _ Hq) as (_ & _ & Hr & _). split; [done|]. by exists k.
  - destruct (Hal i j Hj) as (_ & _ & Hr & p' & q & Hp' & Hq & Hsc). assert (p' = p) as -> by congruence.
    destruct (Hpk j q Hq) as (k & c & Hk & Hc & Hj2). exists c. split; [apply R2; by rewrite (Hpa i j Hj)|left].
    split; [done|right]. destruct (Hpend _ _ Hq) as (_ & _ & Hrj & pj & Hpj & ->). exists j, pj.
    split_and!; [done|by apply R2|done..].
Qed.

(* ------------------------------------------------------------------ *)
(** ** memory.add_batch *)

Lemma prepare_chunk_spec su t' i p (st : OpState B TK) r st' :
  prepare_batch_chunk su t' i p st = (Ok r, st') → st' = st ∧ mc_tenant_id (pc_chunk r) = t'.
Proof using.
  unfold prepare_batch_chunk, mbind, op_bind, op_lift, op_total. intros E.
  destruct (parse_chunk_type (bp_chunk_type p)) as [ct|]; cbn [result_bind map_err] in E; [|done].
  destruct (request_chunk su i t' ct p) as [chunk|] eqn:Ec; cbn [result_bind map_err] in E; [|done].
  destruct (parse_ingestion_mode (bp_mode p)) as [mode|]; cbn [result_bind map_err] in E; [|done].
  destruct (resolve_write_admission _ _ _ _ _) as [w|]; cbn [ok_or] in E; [|done].
  destruct (is_rejected w); [done|]. cbn [drop_optional_default_retention] in E. injection E as <- <-. split; [done|].
  by apply request_chunk_text in Ec as (_ & ? & _).
Qed.

Lemma prepare_each_spec su t' l : ∀ i (st : OpState B TK) ps st',
  op_each (prepare_batch_chunk su t') i l st = (Ok ps, st') →
  st' = st ∧ length ps = length l ∧ Forall (λ p, mc_tenant_id (pc_chunk p) = t') ps.
Proof using.
  induction l as [|p l IH]; intros i st ps st'; cbn [op_each]; [by intros [= <- <-]|].
  unfold mbind, op_bind. destruct (prepare_batch_chunk su t' i p st) as [[r|] st1] eqn:E1; [|done].
  destruct (op_each (prepare_batch_chunk su t') (S i) l st1) as [[rs|] st2] eqn:E2; [|done]. intros [= <- <-].
  apply prepare_chunk_spec in E1 as [-> Hr]. apply IH in E2 as (-> & Hlen & Hrs). split_and!; [done|cbn; by rewrite Hlen|by constructor].
Qed.

(** One event for every chunk that was stored. *)
Definition stored_events (ps : list PreparedChunk) (outcomes : list (ChunkId * bool)) : list UsageEvent :=
  concat (zip_with (λ p (o : ChunkId * bool), if o.2 then [] else
    [mkUsage UsageAdd (Some (TenantId.as_str t)) (pc_project_id p) (usage_outcome (pc_admission p)) (Some 1)
       (Some (as_i64 (zstrlen (mc_text (pc_chunk p))))) None]) ps outcomes).

Lemma record_batch_events_spec ps : ∀ outcomes (st : OpState B TK),
  length outcomes = length ps →
  record_batch_events t ps outcomes st = (Ok (), mkOp (op_store st) (op_usage st ++ stored_events ps outcomes)).
Proof using.
  induction ps as [|p ps IH]; intros [|o outcomes] st Hlen; try done; cbn [record_batch_events].
  { unfold stored_events. cbn. rewrite app_nil_r. by destruct st. }
  cbn in Hlen. injection Hlen as Hlen. unfold mbind, op_bind. cbn [head hd_error tail tl]. unfold stored_events. cbn [zip_with concat].
  destruct (o.2); unfold mret, op_ret, record_chunk_event, record_add_usage_event, record_usage_event; cbn beta iota;
    (etrans; [by apply IH|]); [done|]. cbn [op_store op_usage]. by rewrite <-app_assoc.
Qed.

(** The answer at every position: the id of a stored chunk with the same
    content, or of the first part of this chunk, or of an equal chunk of the
    batch. *)
Definition batch_answers A A' (ps : list PreparedChunk) (outcomes : list (ChunkId * bool)) : Prop :=
  length outcomes = length ps ∧
  ∀ i p, ps !! i = Some p → ∃ (id : ChunkId) (reused : bool), outcomes !! i = Some (id, reused) ∧
    if reused then
      (∃ existing, A !! id = Some existing ∧ same_content existing (pc_chunk p) (pc_caller_tags p) = true) ∨
      (∃ j q, ps !! j = Some q ∧ outcomes !! j = Some (id, false) ∧ same_content (pc_chunk q) (pc_chunk p) (pc_caller_tags p) = true)
    else A !! id = None ∧
      ∃ part rest, split_for_add (pc_chunk p) = Some (part :: rest) ∧ A' !! id = Some (stored_chunk id part).

Lemma omap_heads {T} (ls : list (list T)) k :
  Forall (λ l, l ≠ []) ls → omap head ls !! k = (ls !! k) ≫= head ∧ length (omap head ls) = length ls.
Proof using.
  intros Hne. revert k. induction Hne as [|l ls Hl _ IH]; intros k; [done|]. destruct l as [|x l]; [done|].
  cbn [omap list_omap head]. destruct k as [|k]; cbn; [split; [done|by rewrite (proj2 (IH 0%nat))]|].
  destruct (IH k) as [? E]. split; [done|by rewrite E].
Qed.

(** The first part of an inserted document. *)
Lemma first_part_stored (docs : list Doc1) k ids id part rest A :
  let l := added_chunks false (concat (map snd docs)) (concat (map fst docs)) in
  Forall doc_ok docs → NoDup (concat (map fst docs)) → docs !! k = Some (id :: ids, part :: rest) →
  (list_to_map l ∪ A : gmap ChunkId MemoryChunk) !! id = Some (stored_chunk id part).
Proof using.
  intros l Hok Hnd Hk. apply lookup_union_Some_l, elem_of_list_to_map_1.
  - change (NoDup (map fst l)). unfold l. rewrite zip_with_concat by done. rewrite concat_map, map_map.
    erewrite map_ext_in; [exact Hnd|]. intros d Hd%list_elem_of_In. rewrite Forall_forall in Hok.
    pose proof (Hok d Hd) as Hlen. unfold doc_ok in Hlen. apply (added_fst false). apply Hlen.
  - unfold l. rewrite zip_with_concat by done. apply list_elem_of_In, in_concat.
    exists (added_chunks false (part :: rest) (id :: ids)). split; [|by left]. apply in_map_iff.
    exists (id :: ids, part :: rest). split; [done|]. apply list_elem_of_In. by eapply list_elem_of_lookup_2.
Qed.

(** What is stored of a plan, document by document. *)
Definition stored_docs (su : Surroundings) (plan : BulkPlan) (docs : list Doc1) : Prop :=
  Forall2 (λ pc (d : Doc1), split_for_add pc.2 = Some d.2 ∧ d.1 = part_ids (su_stored_id su pc.1) pc.2) (bk_pending plan) docs.

Lemma stored_docs_ok su plan docs : stored_docs su plan docs → Forall doc_ok docs.
Proof using.
  unfold stored_docs. generalize (bk_pending plan). induction 1 as [|pc d pending ds [Hs E] _ IH]; constructor; [|done]. split.
  - rewrite E. unfold part_ids. rewrite Hs. by rewrite length_map, length_seq.
  - by eapply split_for_add_nonempty.
Qed.

Lemma admissible_reread s s' now chunks fresh lane :
  same_rest s s' → admissible t s (CmdAdd now false chunks fresh lane) → admissible t s' (CmdAdd now false chunks fresh lane).
Proof. intros Hs Hadm. cbn [admissible] in *. unfold db_of in *. by destruct Hs as (-> & -> & _). Qed.

(** The loop, the insertion and the answer of a batch without lifecycles. *)
Lemma succeeds_bulk su ps docs s u A :
  let plan := planned (db_of s) A (mkBulk (replicate (length ps) None) (replicate (length ps) false) [] []) 0 ps in
  let l := added_chunks false (concat (map snd docs)) (concat (map fst docs)) in
  implements t s A → Forall (λ p, mc_tenant_id (pc_chunk p) = t) ps → stored_docs su plan docs →
  admissible t s (CmdAdd (su_stored_ms su 0) false (concat (map snd docs)) (concat (map fst docs)) (su_lane su 0)) →
  succeeds (bulk_batch su ps) (mkOp (PersistentTenant s) u) (λ outcomes st, ∃ ids s',
    st = mkOp (PersistentTenant s') u ∧ outcomes = zip ids (bk_reused plan) ∧ implements t s' (list_to_map l ∪ A) ∧
    length ids = length ps ∧ length (bk_reused plan) = length ps ∧
    ∀ i p, ps !! i = Some p → resolved_ok (db_of s) A ps plan (omap head (map fst docs)) ids i p).
Proof using All.
  intros plan l Hi Ht Hdocs Hadm. unfold bulk_batch. apply succeeds_bind.
  eapply succeeds_mono; [by eapply succeeds_plan|]. cbn beta. intros plan' st (-> & s1 & -> & Hi1 & Hs1). fold plan.
  apply succeeds_bind. eapply succeeds_persistent.
  { apply (runs_add_batch su docs s1 A); [done..|]. by eapply admissible_reread. }
  cbn beta. intros inserted s2 (-> & Hi2). apply succeeds_bind.
  assert (Hok : plan_ok (db_of s) A ps (length ps) plan) by (apply (planned_ok _ _ ps ps 0); [apply plan_ok_start|done]).
  assert (Hlen : length (omap head (map fst docs)) = length (bk_pending plan)).
  { etrans; [apply (omap_heads _ 0)|].
    - apply Forall_fmap. eapply Forall_impl; [by eapply stored_docs_ok|]. intros [[] []] [? ?]; cbn in *; congruence.
    - rewrite length_map. symmetry. by eapply Forall2_length. }
  destruct (resolve_spec _ _ _ _ _ Hok Hlen) as (ids & Er & El & Hres). eapply succeeds_lift; [exact Er|].
  apply succeeds_ret. exists ids, s2. split_and!; [done..|apply Hok|done].
Qed.

(** The new ids of an admissible add are not in use. *)
Lemma fresh_absent s A now chunks fresh lane c :
  implements t s A → admissible t s (CmdAdd now false chunks fresh lane) → c ∈ fresh → A !! c = None.
Proof using All.
  intros Hi (_ & _ & _ & _ & Hnew & _) Hin. unfold added_ids in Hnew. rewrite Forall_forall in Hnew.
  destruct (Hnew c Hin) as [Hc _]. destruct (A !! c) as [chunk|] eqn:Ea; [|done].
  destruct (proj1 (implements_dom t s A c Hi)) as [m (r & Hr & _)%get_spec]; [by eexists|congruence].
Qed.

(** The ids of a plan answer the batch. *)
Lemma resolved_answers su s A ps plan docs ids A' :
  let l := added_chunks false (concat (map snd docs)) (concat (map fst docs)) in
  stored_docs su plan docs → NoDup (concat (map fst docs)) → (∀ c, c ∈ concat (map fst docs) → A !! c = None) →
  A' = list_to_map l ∪ A → length ids = length ps → length (bk_reused plan) = length ps →
  (∀ i p, ps !! i = Some p → resolved_ok (db_of s) A ps plan (omap head (map fst docs)) ids i p) →
  batch_answers A A' ps (zip ids (bk_reused plan)).
Proof using.
  intros l Hdocs Hnd Hfresh -> Hl Hr Hres. split; [rewrite length_zip_with; lia|]. intros i p Hp.
  pose proof (stored_docs_ok _ _ _ Hdocs) as Hok.
  destruct (Hres i p Hp) as (id & Hid & [[Hu Hcase]|[Hu (k & Hk & Hins)]]).
  - exists id, true. split; [by rewrite lookup_zip_with, Hid, Hu|]. destruct Hcase as [Hdup|(j & q & Hq & Hj & Huj & Hsc)].
    + left. by eapply stored_duplicate_spec.
    + right. exists j, q. split_and!; [done|by rewrite lookup_zip_with, Hj, Huj|done].
  - exists id, false. split; [by rewrite lookup_zip_with, Hid, Hu|].
    destruct (Forall2_lookup_l _ _ _ _ _ Hdocs Hk) as ([ids1 parts] & Hd & Hs & _). cbn in Hs.
    pose proof (Forall_lookup_1 _ _ _ _ Hok Hd) as [Hlen Hne]. cbn in Hlen, Hne.
    assert (Hh : head ids1 = Some id).
    { rewrite <-Hins. symmetry. etrans; [apply omap_heads|].
      - apply Forall_fmap. eapply Forall_impl; [exact Hok|]. intros [[] []] [? ?]; cbn in *; congruence.
      - assert (E : map fst docs !! k = Some ids1) by (etrans; [apply (list_lookup_fmap fst docs k)|exact (f_equal (fmap fst) Hd)]). by rewrite E. }
    destruct ids1 as [|id1 ids1]; [done|]. injection Hh as ->. destruct parts as [|part rest]; [done|]. split.
    + apply Hfresh. apply list_elem_of_In, in_concat. exists (id :: ids1). split; [|by left]. apply in_map_iff.
      exists (id :: ids1, part :: rest). split; [done|]. apply list_elem_of_In. by eapply list_elem_of_lookup_2.
    + exists part, rest. split; [done|]. by eapply first_part_stored.
Qed.

(** C20: what memory.add_batch does on a tenant of the persistent store, for
    an accepted batch of chunks without lifecycle that asks for no
    deduplication.  Nothing that was stored changes; every position is
    answered: with the id of a stored chunk of the same content and tags, or
    with the id under which the first part of this chunk is now stored, or
    with that of an equal chunk of the batch, which is then stored once.  The
    usage log gets one event for each chunk that was stored, and none for a
    chunk that was not. *)
Theorem memory_add_batch_exact su params s u A ps docs :
  let plan := planned (db_of s) A (mkBulk (replicate (length ps) None) (replicate (length ps) false) [] []) 0 ps in
  implements t s A → batch_request su params = Ok (t, None) →
  op_each (prepare_batch_chunk su t) 0 (bb_chunks params) (mkOp (PersistentTenant s) u) = (Ok ps, mkOp (PersistentTenant s) u) →
  existsb pc_has_lifecycle ps = false → stored_docs su plan docs →
  admissible t s (CmdAdd (su_stored_ms su 0) false (concat (map snd docs)) (concat (map fst docs)) (su_lane su 0)) →
  ∃ outcomes s' A',
    handle_memory_add_batch su params (mkOp (PersistentTenant s) u)
      = (Ok (batch_answer ps outcomes), mkOp (PersistentTenant s') (u ++ stored_events ps outcomes)) ∧
    implements t s' A' ∧ batch_answers A A' ps outcomes ∧
    (∀ c chunk, A !! c = Some chunk → A' !! c = Some chunk) ∧
    (∀ c, is_Some (A' !! c) → is_Some (A !! c) ∨ c ∈ concat (map fst docs)).
Proof using All.
  intros plan Hi Hreq Hprep Hno Hdocs Hadm. set (l := added_chunks false (concat (map snd docs)) (concat (map fst docs))).
  pose proof (prepare_each_spec su t _ _ _ _ _ Hprep) as (_ & _ & Ht).
  destruct (succeeds_bulk su ps docs s u A Hi Ht Hdocs Hadm)
    as (outcomes & st & E & ids & s' & -> & Eo & Hi' & Hl & Hr & Hres). fold plan in Eo, Hr, Hres. fold l in Hi'.
  pose proof (stored_docs_ok _ _ _ Hdocs) as Hok. pose proof Hadm as (Hlen & Hnd & _ & _ & Hnew & _).
  unfold added_ids in Hnd, Hnew.
  assert (Hfst : map fst l = concat (map fst docs)) by (by apply (added_fst false)).
  exists outcomes, s', (list_to_map l ∪ A). split_and!; [|done| | |].
  - unfold handle_memory_add_batch, mbind, op_bind, op_lift. rewrite Hreq. cbn [map_err]. rewrite Hprep.
    unfold batch_ids. rewrite Hno. cbn [is_persistent op_store]. rewrite E.
    rewrite record_batch_events_spec; [done|]. rewrite Eo, length_zip_with. lia.
  - rewrite Eo. eapply resolved_answers; [done|done| |done..]. intros c. by eapply fresh_absent.
  - intros c chunk Hc. rewrite lookup_union_r; [done|]. apply not_elem_of_list_to_map_1. change (c ∉ map fst l). rewrite Hfst.
    intros Hin. pose proof (fresh_absent _ _ _ _ _ _ c Hi Hadm Hin). congruence.
  - intros c. rewrite lookup_union_is_Some. intros [Hc|Hc]; [right|by left]. rewrite <-Hfst.
    destruct Hc as [chunk Hc]. apply elem_of_list_to_map_2 in Hc. by apply (list_elem_of_fmap_2 fst) in Hc.
Qed.

End ops.

(* ------------------------------------------------------------------ *)
(** ** A memory added twice *)

#[local] Existing Instance dot_segmentation.
#[local] Instance mx_text : ErrorText := { error_to_string _ := "error"%string }.
#[local] Instance mx_hasher : DefaultHasher := { default_hash _ := "0"%string }.

Definition mx_surroundings (i : N) : Surroundings :=
  mkSurroundings None (Some "unused"%string) (Ok []) None (λ _, 40) (λ _, 41) (λ _, 42) (λ _, ex_id (20 + i))
    (λ _ j, ex_id (8 + 10 * i + N.of_nat j)) (λ _, LaneIndexed).
Definition mx_params : AddParams :=
  mkAddParams (TenantId.as_str ex_tenant) "ho" "Doc" (Some "p"%string) (Some "e1"%string) None ["topic"%string] None None None
    (Some "conversation"%string) None.
Definition mx_chunk : MemoryChunk :=
  match add_plan (mx_surroundings 0) mx_params with Ok (_, chunk, _, _) => chunk | Err _ => ex_chunk end.
Definition mx_write : PreparedWrite :=
  match add_plan (mx_surroundings 0) mx_params with
  | Ok (_, _, w, _) => w
  | Err _ => mkPrepared (ao_durable "") [] None (retention_new None None) None SemanticCandidate Document
  end.

Lemma mx_plan : add_plan (mx_surroundings 0) mx_params = Ok (ex_tenant, mx_chunk, mx_write, None).
Proof. vm_compute. reflexivity. Qed.

(** A chunk of one part that is stored under the id 8. *)
#[local] Ltac by_parts :=
  cbn [admissible]; split_and!;
  [reflexivity|apply NoDup_singleton|vm_compute; reflexivity
  |apply Forall_singleton; split; vm_compute; [reflexivity|discriminate]
  |apply Forall_singleton; split; [vm_compute; reflexivity|]; apply (bool_decide_unpack (Forall _ _)); vm_compute; exact I
  |apply Forall_singleton; split; vm_compute; reflexivity].
#[local] Ltac one_part :=
  split; [vm_compute; reflexivity|vm_compute; reflexivity|done|]; change (part_ids _ _) with [ex_id 8]; by_parts.

Lemma mx_request :
  request ex_tenant ex_s1 42 (apply_to_chunk mx_write mx_chunk) (lifecycle_delta mx_write) [apply_to_chunk mx_write mx_chunk]
    (part_ids (su_stored_id (mx_surroundings 0) 0) (apply_to_chunk mx_write mx_chunk)) LaneIndexed.
Proof. one_part. Qed.

Lemma mx_older c m : get ex_tenant c (db_of ex_s1) = Some m → cm_timestamp_created m < 40.
Proof.
  intros (r & Hr & _ & _ & ->)%get_spec.
  assert (H : map_Forall (λ (_ : ChunkId) r, cm_timestamp_created (r_meta r) < 40) (db_of ex_s1))
    by (apply (bool_decide_unpack _); vm_compute; exact I).
  exact (H c r Hr).
Qed.

Lemma memory_add_idempotent_witness :
  ∃ answer1 s1 u1 A1 answer2 s2 u2,
    handle_memory_add (mx_surroundings 0) mx_params (mkOp (PersistentTenant ex_s1) []) = (Ok answer1, mkOp (PersistentTenant s1) u1) ∧
    implements ex_tenant s1 A1 ∧
    handle_memory_add (mx_surroundings 1) mx_params (mkOp (PersistentTenant s1) u1) = (Ok answer2, mkOp (PersistentTenant s2) u2) ∧
    implements ex_tenant s2 A1 ∧ answered_id answer2 = answered_id answer1 ∧ answered_reuse answer2 = true.
Proof.
  apply (memory_add_idempotent ex_tenant eq_refl (mx_surroundings 0) (mx_surroundings 1) mx_params ex_s1 [] lx_map mx_chunk mx_write).
  - exact lx_implements.
  - vm_compute. reflexivity.
  - exact mx_plan.
  - by split.
  - reflexivity.
  - vm_compute. discriminate.
  - apply (bool_decide_unpack _). vm_compute. exact I.
  - vm_compute. reflexivity.
  - exact mx_older.
  - exact mx_request.
Defined.

(** The text of a stored chunk, with deduplication: the stored one is
    superseded. *)
Definition my_params : AddParams :=
  mkAddParams (TenantId.as_str ex_tenant) "hi" "doc" None None None [] None (Some 99) None None (Some (DedupBool true)).
Definition my_plan : TenantId * MemoryChunk * PreparedWrite * option ResolvedDedup :=
  match add_plan (mx_surroundings 0) my_params with
  | Ok plan => plan
  | Err _ => (ex_tenant, ex_chunk, mx_write, None)
  end.
Definition my_chunk : MemoryChunk := my_plan.1.1.2.
Definition my_write : PreparedWrite := my_plan.1.2.

Lemma my_plan_ok : add_plan (mx_surroundings 0) my_params = Ok (ex_tenant, my_chunk, my_write, my_plan.2).
Proof. vm_compute. reflexivity. Qed.

Example my_candidates :
  (λ cfg, compute_dedup_candidates ex_tenant "hi" Doc None cfg (db_of ex_s1)) <$> my_plan.2 = Some [ex_id 7].
Proof. vm_compute. reflexivity. Qed.

Lemma my_request :
  request ex_tenant ex_s1 42 (apply_to_chunk my_write my_chunk) (lifecycle_delta my_write) [apply_to_chunk my_write my_chunk]
    (part_ids (su_stored_id (mx_surroundings 0) 0) (apply_to_chunk my_write my_chunk)) LaneIndexed.
Proof. one_part. Qed.

Lemma handle_add_exact_witness :
  ∃ answer s' A',
    handle_memory_add (mx_surroundings 0) my_params (mkOp (PersistentTenant ex_s1) [])
      = (Ok answer, mkOp (PersistentTenant s') [admitted_event ex_tenant my_params my_chunk my_write]) ∧
    added_as ex_tenant (mx_surroundings 0) my_params my_chunk my_write my_plan.2 [apply_to_chunk my_write my_chunk]
      ex_s1 lx_map s' A' answer.
Proof.
  pose proof (handle_add_exact ex_tenant eq_refl (mx_surroundings 0) my_params ex_s1 [] lx_map lx_implements eq_refl) as Hexact.
  rewrite my_plan_ok in Hexact. exact (Hexact [apply_to_chunk my_write my_chunk] eq_refl my_request).
Defined.

(** A batch: a new memory, one that is stored, and the new one again. *)
Definition mz_stored : BatchChunkParams := mkBatchChunk "hi" "doc" None None None [] None None None None.
Definition mz_new : BatchChunkParams := mkBatchChunk "ho" "doc" (Some "p"%string) None None ["topic"%string] None None None None.
Definition mz_params : AddBatchParams :=
  mkBatchParams (TenantId.as_str ex_tenant) [mz_new; mz_stored; mz_new] None.
Definition mz_prepared : list PreparedChunk :=
  match (op_each (prepare_batch_chunk (mx_surroundings 0) ex_tenant) 0 (bb_chunks mz_params) (mkOp (PersistentTenant ex_s1) [])).1 with
  | Ok ps => ps
  | Err _ => []
  end.
#[local] Notation mz_plan :=
  (planned ex_tenant (db_of ex_s1) lx_map (mkBulk (replicate (length mz_prepared) None) (replicate (length mz_prepared) false) [] []) 0 mz_prepared) (only parsing).

Lemma mz_prepared_ok :
  op_each (prepare_batch_chunk (mx_surroundings 0) ex_tenant) 0 (bb_chunks mz_params) (mkOp (PersistentTenant ex_s1) [])
    = (Ok mz_prepared, mkOp (PersistentTenant ex_s1) []).
Proof. vm_compute. reflexivity. Qed.

Definition mz_doc : MemoryChunk := match bk_pending mz_plan with (_, chunk) :: _ => chunk | [] => ex_chunk end.

Example mz_plan_eq :
  mz_plan = mkBulk [None; Some (ex_id 7); None] [false; true; true] [(0%nat, mz_doc)] [(2%nat, 0%nat)].
Proof. vm_compute. reflexivity. Qed.

Lemma mz_docs : stored_docs (mx_surroundings 0) mz_plan [([ex_id 8], [mz_doc])].
Proof.
  unfold stored_docs. rewrite mz_plan_eq. apply Forall2_cons. split; [split; vm_compute; reflexivity|constructor].
Qed.

Lemma memory_add_batch_exact_witness :
  ∃ outcomes s' A',
    handle_memory_add_batch (mx_surroundings 0) mz_params (mkOp (PersistentTenant ex_s1) [])
      = (Ok (batch_answer mz_prepared outcomes), mkOp (PersistentTenant s') ([] ++ stored_events ex_tenant mz_prepared outcomes)) ∧
    implements ex_tenant s' A' ∧ batch_answers lx_map A' mz_prepared outcomes ∧
    (∀ c chunk, lx_map !! c = Some chunk → A' !! c = Some chunk) ∧
    (∀ c, is_Some (A' !! c) → is_Some (lx_map !! c) ∨ c ∈ [ex_id 8]).
Proof.
  apply (memory_add_batch_exact ex_tenant eq_refl (mx_surroundings 0) mz_params ex_s1 [] lx_map mz_prepared [([ex_id 8], [mz_doc])]).
  - exact lx_implements.
  - vm_compute. reflexivity.
  - exact mz_prepared_ok.
  - vm_compute. reflexivity.
  - exact mz_docs.
  - change (concat _) with [mz_doc] at 1. change (concat _) with [ex_id 8]. by_parts.
Defined.
