(* ===== verification/MemoryOps.v ===== *)
(** * The operations memory.get, memory.delete, memory.set_expiry and
    memory.supersede (src/crates/memd/src/ops/lifecycle.rs)

    A read resolves the chunk with its lifecycle, applies the visibility the
    caller asked for and says of a hidden chunk why it is hidden; the writes
    are calls of the store behind the validation of the request.  The state
    is that of MemoryAdd.v. *)

From S2P Require Import Prelude Crates Types Str Sentence Chunking Ranking Admission WalFormat WalReader Files WalWriter.
From S2P Require Import SegmentFormat Segment SegmentFacts Metadata MetadataFacts SupersessionProps.
From S2P Require Import TenantStore Persistent Runs TenantInv TenantFacts Recovery PersistentFacts AddFacts StoreSpec.
From S2P Require Import Overlay Lifecycle LifecycleFacts LifecycleProps Outcome MemoryStore Dedup MemoryAdd.
From S2P Require Import Concrete MetadataProps StoreProps MemoryAddProps.

Open Scope Z_scope.

(* ------------------------------------------------------------------ *)
(** ** Requests and answers *)

Record GetParams : Type := mkGetParams {
  gp_tenant_id : string;
  gp_chunk_id : string;
  gp_include_superseded : option bool;
  gp_include_expired : option bool;
  gp_include_history : option bool;
}.

Record DeleteParams : Type := mkDeleteParams { dp_tenant_id : string; dp_chunk_id : string }.

Record SetExpiryParams : Type := mkSetExpiry {
  se_tenant_id : string;
  se_chunk_id : string;
  se_expires_at_ms : option (option Z);
  se_review_after_ms : option (option Z);
}.

Record SupersedeParams : Type := mkSupersede {
  ss_tenant_id : string;
  ss_old_chunk_id : string;
  ss_new_text : string;
  ss_chunk_type : string;
  ss_project_id : option string;
  ss_source : option SourceParams;
  ss_tags : list string;
}.

(** The objects memory.get answers. *)
Inductive GetAnswer : Type :=
| GetNotFound
| GetHidden (status tier hidden_reason : string)
| GetFound (chunk : MemoryChunk) (lifecycle : LifecycleMetadata) (status : string).

Record DeleteResult : Type := mkDeleteResult { dl_deleted : bool }.

Record SupersedeAnswer : Type := mkSupersedeAnswer {
  sa_new_chunk_id : string;
  sa_new_stored_chunk_ids : list string;
  sa_old_chunk_id : string;
  sa_admission_decision : string;
  sa_admission_reason : string;
  sa_admission_warning : option string;
}.

Record PostWriteEvent : Type := mkPostWrite {
  pe_tenant_id : string;
  pe_chunk_id : ChunkId;
  pe_chunk_type : string;
  pe_project_id : option string;
  pe_source_path : option string;
  pe_text : string;
}.

(** A chunk with its current status and lifecycle. *)
Record ResolvedChunk : Type := mkResolvedChunk {
  rc_chunk : MemoryChunk;
  rc_status : ChunkStatus;
  rc_lifecycle : LifecycleMetadata;
}.

(** [expires_at_ms.is_some_and(|t| t <= now_ms)] *)
Definition past_expiry (lifecycle : LifecycleMetadata) (now_ms : Z) : bool :=
  match lc_expires_at_ms lifecycle with Some t => t <=? now_ms | None => false end.

(** Why a hidden chunk is hidden. *)
Definition hidden_reason (status : ChunkStatus) (lifecycle : LifecycleMetadata) (now_ms : Z) : string :=
  match status with
  | Candidate => "candidate"
  | Superseded => "superseded"
  | Expired => "expired"
  | ErrorStatus => "error"
  | _ =>
      if bool_decide (lc_tier lifecycle = History) then "history"
      else if past_expiry lifecycle now_ms then "expired"
      else "unknown"
  end.

Definition get_policy (params : GetParams) : VisibilityPolicy :=
  mkPolicy (default false (gp_include_superseded params)) (default false (gp_include_expired params))
    (default false (gp_include_history params)).

(* ------------------------------------------------------------------ *)
(** ** The handlers *)

Section ops.
Context `{BO : ByteOrder} `{CRC : Crc32} `{RB : Roaring B} `{CAP : BufCap}.
Context `{BW : Bincode WalRecord} `{BM : Bincode SegmentMeta} `{JC : Json MemoryChunk}.
Context `{UU : Uuid ChunkId} `{UC : Unicode} `{TT : TaskTables TK} `{SHA : Sha256}.
Context `{SEG : UnicodeSegmentation} `{ET : ErrorText} `{DH : DefaultHasher}.

Definition validate_chunk_id (chunk_id : string) : Result OperationError ChunkId :=
  invalid_params (chunk_id_parse chunk_id).

(** [ChunkId::parse] of a field that the error names. *)
Definition parse_field (field s : string) : Result OperationError ChunkId :=
  map_err (λ e, InvalidParams (field +:+ ": " +:+ error_to_string e)) (chunk_id_parse s).

Definition ensure_tenant_dir (su : Surroundings) : Result OperationError () :=
  match su_tenant_dir su with Some r => tool_error r | None => Ok () end.

(** [PersistentStore::get_with_lifecycle] *)
Definition get_with_lifecycle (t : TenantId) (c : ChunkId) : M B TK (option ResolvedChunk) :=
  w <- m_world ;;
  match get t c (w_db w) with
  | None => m_ret None
  | Some meta =>
      if bool_decide (cm_status meta = Deleted) then m_ret None
      else
        chunk <- get_chunk t c ;;
        m_ret ((λ chunk, mkResolvedChunk chunk (cm_status meta) (cm_lifecycle meta)) <$> chunk)
  end.

(** The default of the trait, which the in-memory store keeps. *)
Definition memory_get_with_lifecycle (t : TenantId) (c : ChunkId) (s : MemoryStore) : option ResolvedChunk :=
  (λ chunk, mkResolvedChunk chunk (mc_status chunk) LifecycleMetadata_default) <$> memory_get t c s.

Definition store_get_with_lifecycle (t : TenantId) (c : ChunkId) : Op B TK (option ResolvedChunk) := λ st,
  match op_store st with
  | PersistentTenant _ => op_persistent (ToolError "") (get_with_lifecycle t c) st
  | InMemory s => (Ok (memory_get_with_lifecycle t c s), st)
  end.

(** [Store::delete] *)
Definition store_delete (now_ms : Z) (t : TenantId) (c : ChunkId) : Op B TK bool := λ st,
  match op_store st with
  | PersistentTenant _ => op_persistent (ToolError "") (delete_chunk now_ms t c) st
  | InMemory s => let '(deleted, s) := memory_delete t c s in (Ok deleted, mkOp (InMemory s) (op_usage st))
  end.

Definition usage_event (op : UsageOp) (t : TenantId) (outcome : string) (chunk_count : Z) : UsageEvent :=
  mkUsage op (Some (TenantId.as_str t)) None outcome (Some chunk_count) None None.

Definition handle_memory_get (su : Surroundings) (now_ms : Z) (params : GetParams) : Op B TK GetAnswer :=
  t ← op_lift (resolve_tenant_id su (gp_tenant_id params));
  c ← op_lift (validate_chunk_id (gp_chunk_id params));
  resolved ← store_get_with_lifecycle t c;
  match resolved with
  | None =>
      _ ← record_usage_event (usage_event UsageGet t "zero_hits" 0);
      mret GetNotFound
  | Some r =>
      _ ← record_usage_event (usage_event UsageGet t "hits:1" 1);
      mret (if negb (is_visible_at (get_policy params) (rc_status r) (rc_lifecycle r) now_ms)
            then GetHidden (ChunkStatus_to_string (rc_status r)) (MemoryTier_to_string (lc_tier (rc_lifecycle r)))
                   (hidden_reason (rc_status r) (rc_lifecycle r) now_ms)
            else GetFound (rc_chunk r) (rc_lifecycle r) (ChunkStatus_to_string (rc_status r)))
  end.

Definition handle_memory_delete (su : Surroundings) (now_ms : Z) (params : DeleteParams) : Op B TK DeleteResult :=
  t ← op_lift (resolve_tenant_id su (dp_tenant_id params));
  c ← op_lift (validate_chunk_id (dp_chunk_id params));
  deleted ← store_delete now_ms t c;
  _ ← record_usage_event (usage_event UsageDelete t (if deleted : bool then "ok" else "not_found") (if deleted then 1 else 0));
  mret (mkDeleteResult deleted).

(** The answer is the id of the updated chunk. *)
Definition handle_memory_set_expiry (su : Surroundings) (now_ms : Z) (params : SetExpiryParams) : Op B TK string :=
  let no_store := ToolError "memory.set_expiry requires a persistent store" in
  _ ← op_persistent no_store (m_ret ());
  t ← op_lift (resolve_tenant_id su (se_tenant_id params));
  c ← op_lift (parse_field "chunk_id" (se_chunk_id params));
  _ ← op_lift (ensure_tenant_dir su);
  if is_none (se_expires_at_ms params) && is_none (se_review_after_ms params)
  then op_fail (InvalidParams "memory.set_expiry requires at least one of expires_at_ms / review_after_ms")
  else
    let delta := mkDelta None None None None (se_expires_at_ms params) (se_review_after_ms params) (Some now_ms) in
    updated ← op_persistent no_store (update_lifecycle_if_exists t c delta);
    if negb updated
    then op_fail (ToolError ("memory.set_expiry: chunk " +:+ uuid_to_string c +:+ " not found in tenant "
                    +:+ TenantId.as_str t))
    else mret (uuid_to_string c).

(** The new version of a chunk, as the request describes it. *)
Definition supersede_new_chunk (su : Surroundings) (t : TenantId) (chunk_type : ChunkType) (params : SupersedeParams)
    : MemoryChunk :=
  let chunk := chunk_new (su_new_id su 0) (su_created_ms su 0) t (ss_new_text params) chunk_type in
  let chunk := match ss_project_id params with Some p => chunk_with_project (Some p) chunk | None => chunk end in
  let chunk := chunk_with_source (params_to_source (ss_source params)) chunk in
  match ss_tags params with [] => chunk | tags => chunk_with_tags tags chunk end.

(** The answer, and the event for the hooks that run after the write. *)
Definition handle_memory_supersede (su : Surroundings) (params : SupersedeParams)
    : Op B TK (SupersedeAnswer * PostWriteEvent) :=
  let no_store := ToolError "memory.supersede requires a persistent store" in
  _ ← op_persistent no_store (m_ret ());
  t ← op_lift (resolve_tenant_id su (ss_tenant_id params));
  _ ← op_lift (ensure_tenant_dir su);
  old_id ← op_lift (parse_field "old_chunk_id" (ss_old_chunk_id params));
  chunk_type ← op_lift (parse_chunk_type (ss_chunk_type params));
  let source_path := source ← ss_source params; sp_path source in
  let new_chunk := supersede_new_chunk su t chunk_type params in
  admission ← op_total (prepare_write_at
    (mkRequest chunk_type (mc_text new_chunk) (mc_tags new_chunk) Document None None) (su_admitted_ms su 0));
  if is_rejected admission
  then op_fail (InvalidParams ("memory.supersede rejected by quality gate: " +:+ ao_reason (pw_outcome admission)))
  else
    let new_chunk := apply_to_chunk admission new_chunk in
    ids ← op_persistent no_store
      (supersede_chunk_with_lifecycle_and_stored_ids (su_stored_ms su 0) t old_id new_chunk (lifecycle_delta admission)
         (part_ids (su_stored_id su 0) new_chunk) (su_lane su 0) (m_ret ()));
    mret (mkSupersedeAnswer (uuid_to_string ids.1) (map uuid_to_string ids.2) (uuid_to_string old_id) (decision admission)
            (ao_reason (pw_outcome admission)) (ao_warning (pw_outcome admission)),
          mkPostWrite (TenantId.as_str t) ids.1 (ss_chunk_type params) (ss_project_id params) source_path (ss_new_text params)).

End ops.

(* ------------------------------------------------------------------ *)
(** ** Why a chunk is hidden *)

(** The flag that a reason names. *)
Definition named_flag (reason : string) (p : VisibilityPolicy) : bool :=
  if bool_decide (reason = "superseded"%string) then include_superseded p
  else if bool_decide (reason = "expired"%string) then include_expired p
  else if bool_decide (reason = "history"%string) then include_history p
  else false.

Definition clock_hides (p : VisibilityPolicy) (lifecycle : LifecycleMetadata) (now_ms : Z) : bool :=
  negb (include_expired p) && past_expiry lifecycle now_ms.
Definition tier_hides (p : VisibilityPolicy) (lifecycle : LifecycleMetadata) : bool :=
  negb (include_history p) && bool_decide (lc_tier lifecycle = History).

Lemma visible_iff p status lifecycle now_ms :
  is_visible_at p status lifecycle now_ms =
    match status with
    | Candidate | Deleted | ErrorStatus => false
    | Superseded => include_superseded p
    | Expired => include_expired p
    | _ => true
    end && negb (tier_hides p lifecycle) && negb (clock_hides p lifecycle now_ms).
Proof.
  unfold is_visible_at, is_visible, tier_hides, clock_hides, past_expiry.
  destruct status, p as [[] [] []]; cbn; try done;
    destruct (bool_decide (lc_tier lifecycle = History)); cbn; try done;
    destruct (lc_expires_at_ms lifecycle); try done; by destruct (_ <=? _).
Qed.

(** C24: the reason memory.get gives for hiding a chunk that is not deleted
    names a flag that every policy that shows the chunk has set, and is never
    the fallback "unknown"; a candidate and a failed chunk are shown by no
    policy.  The flag it names is one that the caller has not set, but for a
    superseded or expired chunk whose status the caller has asked for, and a
    chunk of the history tier when the caller has asked for that: such a chunk
    is hidden by a later rule, the reason still names the first one, and
    asking again with the flag it names does not help. *)
Theorem hidden_reason_exact p status lifecycle now_ms :
  status ≠ Deleted → is_visible_at p status lifecycle now_ms = false →
  let reason := hidden_reason status lifecycle now_ms in
  reason ≠ "unknown"%string ∧
  (∀ q, is_visible_at q status lifecycle now_ms = true → named_flag reason q = true) ∧
  (named_flag reason p = true ↔
     status = Superseded ∧ include_superseded p = true ∨ status = Expired ∧ include_expired p = true ∨
     status ∈ [Draft; Final] ∧ lc_tier lifecycle = History ∧ include_history p = true).
Proof.
  intros Hd Hhid reason. rewrite visible_iff in Hhid.
  assert (Hfor : ∀ q, is_visible_at q status lifecycle now_ms = true → named_flag reason q = true).
  { intros q. rewrite visible_iff, !andb_true_iff, !negb_true_iff. intros [[Hst Ht] Hc]. revert Hhid.
    unfold reason, hidden_reason, tier_hides, clock_hides in *. destruct status; try done;
      destruct (bool_decide (lc_tier lifecycle = History)); cbn in *; rewrite ?andb_true_r, ?andb_false_r in *;
      try (by apply negb_false_iff in Ht);
      destruct (past_expiry lifecycle now_ms); cbn in *;
      rewrite ?andb_true_r, ?andb_false_r in *; try done; by apply negb_false_iff in Hc. }
  split_and!; [|done|].
  - unfold reason, hidden_reason, tier_hides, clock_hides in *. destruct status; try done;
      destruct (bool_decide (lc_tier lifecycle = History)); try done;
      destruct (past_expiry lifecycle now_ms); try done;
      rewrite !andb_false_r in Hhid; done.
  - subst reason. clear Hfor. unfold hidden_reason, tier_hides, clock_hides in *.
    destruct (decide (lc_tier lifecycle = History)) as [Et|Et];
      [rewrite (bool_decide_true _ Et) in * |rewrite (bool_decide_false _ Et) in * ];
      destruct status, p as [[] [] []]; try done; destruct (past_expiry lifecycle now_ms); try done;
      unfold named_flag; cbn; set_solver.
Qed.

(** A superseded chunk that history promotion has moved to the history tier:
    the caller who asks for superseded chunks is told to ask for them. *)
Example reason_asks_again :
  let p := mkPolicy true false false in
  let lifecycle := mkLifecycle History None None None None 0 in
  is_visible_at p Superseded lifecycle 5 = false ∧ hidden_reason Superseded lifecycle 5 = "superseded"%string ∧
  is_visible_at (mkPolicy true false true) Superseded lifecycle 5 = true.
Proof. by repeat split. Qed.

Lemma hidden_reason_exact_witness :
  hidden_reason Final (mkLifecycle LongTerm None None (Some 4) None 0) 5 ≠ "unknown"%string ∧
  ∀ q, is_visible_at q Final (mkLifecycle LongTerm None None (Some 4) None 0) 5 = true → include_expired q = true.
Proof.
  destruct (hidden_reason_exact VisibilityPolicy_default Final (mkLifecycle LongTerm None None (Some 4) None 0) 5)
    as (Hu & Hq & _); [done|reflexivity|]. split; [exact Hu|exact Hq].
Defined.

(* ------------------------------------------------------------------ *)
(** ** The operations on an abstract tenant *)

Inductive MemoryOp : Type :=
| OpGet (now_ms : Z) (params : GetParams)
| OpDelete (now_ms : Z) (params : DeleteParams)
| OpSetExpiry (now_ms : Z) (params : SetExpiryParams).

Inductive OpAnswer : Type :=
| AnswerGet (a : GetAnswer)
| AnswerDelete (a : DeleteResult)
| AnswerSetExpiry (chunk_id : string).

Definition op_tenant (op : MemoryOp) : string :=
  match op with
  | OpGet _ p => gp_tenant_id p
  | OpDelete _ p => dp_tenant_id p
  | OpSetExpiry _ p => se_tenant_id p
  end.

(** A tenant: its chunks with their lifecycle. *)
Abbreviation TenantMap := (gmap ChunkId (MemoryChunk * LifecycleMetadata)).

Section spec.
Context `{UU : Uuid ChunkId} `{ET : ErrorText}.
Implicit Types A : TenantMap.

Definition expiry_delta (now_ms : Z) (p : SetExpiryParams) : LifecycleDelta :=
  mkDelta None None None None (se_expires_at_ms p) (se_review_after_ms p) (Some now_ms).

(** What a chunk of the map looks like to a caller. *)
Definition shown (p : GetParams) (now_ms : Z) (chunk : MemoryChunk) (lifecycle : LifecycleMetadata) : GetAnswer :=
  if is_visible_at (get_policy p) (mc_status chunk) lifecycle now_ms
  then GetFound chunk lifecycle (ChunkStatus_to_string (mc_status chunk))
  else GetHidden (ChunkStatus_to_string (mc_status chunk)) (MemoryTier_to_string (lc_tier lifecycle))
         (hidden_reason (mc_status chunk) lifecycle now_ms).

Definition spec_get (t : TenantId) (now_ms : Z) (p : GetParams) A : Result OperationError GetAnswer * list UsageEvent :=
  match validate_chunk_id (gp_chunk_id p) with
  | Err e => (Err e, [])
  | Ok c =>
      match A !! c with
      | Some (chunk, lifecycle) => (Ok (shown p now_ms chunk lifecycle), [usage_event UsageGet t "hits:1" 1])
      | None => (Ok GetNotFound, [usage_event UsageGet t "zero_hits" 0])
      end
  end.

Definition spec_delete (t : TenantId) (p : DeleteParams) A
    : Result OperationError DeleteResult * TenantMap * list UsageEvent :=
  match validate_chunk_id (dp_chunk_id p) with
  | Err e => (Err e, A, [])
  | Ok c =>
      match A !! c with
      | Some _ => (Ok (mkDeleteResult true), delete c A, [usage_event UsageDelete t "ok" 1])
      | None => (Ok (mkDeleteResult false), A, [usage_event UsageDelete t "not_found" 0])
      end
  end.

Definition spec_set_expiry (su : Surroundings) (t : TenantId) (now_ms : Z) (p : SetExpiryParams) A
    : Result OperationError string * TenantMap :=
  match parse_field "chunk_id" (se_chunk_id p), ensure_tenant_dir su with
  | Err e, _ => (Err e, A)
  | Ok _, Err e => (Err e, A)
  | Ok c, Ok _ =>
      if is_none (se_expires_at_ms p) && is_none (se_review_after_ms p)
      then (Err (InvalidParams "memory.set_expiry requires at least one of expires_at_ms / review_after_ms"), A)
      else
        match A !! c with
        | Some (chunk, lifecycle) =>
            (Ok (uuid_to_string c), <[c := (chunk, lifecycle_apply lifecycle (expiry_delta now_ms p))]> A)
        | None =>
            (Err (ToolError ("memory.set_expiry: chunk " +:+ uuid_to_string c +:+ " not found in tenant "
               +:+ TenantId.as_str t)), A)
        end
  end.

Definition spec_op (t : TenantId) (su : Surroundings) (op : MemoryOp) A
    : Result OperationError OpAnswer * TenantMap * list UsageEvent :=
  match op with
  | OpGet now_ms p => let '(r, events) := spec_get t now_ms p A in (AnswerGet <$> r, A, events)
  | OpDelete _ p => let '(r, A, events) := spec_delete t p A in (AnswerDelete <$> r, A, events)
  | OpSetExpiry now_ms p => let '(r, A) := spec_set_expiry su t now_ms p A in (AnswerSetExpiry <$> r, A, [])
  end.

(** A sequence of requests, each in its surroundings. *)
Fixpoint spec_ops (t : TenantId) (ops : list (Surroundings * MemoryOp)) A
    : list (Result OperationError OpAnswer) * TenantMap * list UsageEvent :=
  match ops with
  | [] => ([], A, [])
  | (su, op) :: ops =>
      let '(r, A, e) := spec_op t su op A in
      let '(rs, A, es) := spec_ops t ops A in
      (r :: rs, A, e ++ es)
  end.

End spec.

(* ------------------------------------------------------------------ *)
(** ** The persistent store behind the operations *)

Section refine.
Context `{BOL : ByteOrderLaws} `{CRL : Crc32Laws} `{RBL : RoaringLaws B}.
Context `{BWL : BincodeLaws WalRecord} `{JCL : JsonLaws MemoryChunk}.
Context `{UUL : UuidLaws ChunkId} `{TT : TaskTables TK}.
Context `{CAP : BufCap} `{BM : Bincode SegmentMeta} `{UC : Unicode} `{SHA : Sha256}.
Context `{SEG : UnicodeSegmentation} `{ET : ErrorText} `{DH : DefaultHasher}.
Implicit Types (s : St B TK) (A : gmap ChunkId MemoryChunk).

Variable t : TenantId.
Hypothesis tenant_valid : TenantId.validate (TenantId.as_str t) = Ok ().

Lemma runs_delete now c s A :
  implements t s A → wal_fits (wal_delete (TenantId.as_str t) (uuid_to_string c) now) →
  runs (delete_chunk now t c) s (λ _, True) (λ b s', b = bool_decide (is_Some (A !! c)) ∧ implements t s' (delete c A) ∧
    ∀ k, k ≠ c → get t k (db_of s') = get t k (db_of s)).
Proof using All.
  intros (G & rs & ads & Hr & HG & HA) Hfit. eapply runs_mono.
  { eapply runs_impl; [|done]. apply (runs_delete_chunk t G (fates t G (db_of s)) rs s ads now c); [by apply running_all_fates|exact Hfit]. }
  cbn beta. intros b s' (rs' & -> & Hr' & Hz & Hold). split_and!; [| |done].
  - rewrite HA. symmetry. by eapply view_is_some.
  - exists G, rs', ads. split_and!; [by eapply running_no_fates|done|]. intros k. unfold chunk_view.
    destruct (decide (k = c)) as [->|Hne]; [by rewrite lookup_delete_eq, Hz|by rewrite lookup_delete_ne, HA, Hold by done].
Qed.

(** A statement that leaves the statuses alone leaves the map alone. *)
Lemma restatus_id s A db' :
  implements t s A → (∀ k, cm_status <$> get t k db' = cm_status <$> get t k (db_of s)) → restatus t db' A = A.
Proof using All.
  intros Hi Hs. apply map_eq. intros k. rewrite restatus_lookup. destruct (A !! k) as [chunk|] eqn:E; [|done]. cbn.
  destruct (implements_status t s A k chunk Hi E) as (m & Hm & Est). specialize (Hs k). rewrite Hm in Hs.
  destruct (get t k db') as [m'|]; [|done]. injection Hs as ->. by rewrite <-Est, set_status_same.
Qed.

Lemma updated_rows c delta db : (0 <? (update_lifecycle_counted t c delta db).1) = bool_decide (is_Some (get t c db)).
Proof using All.
  unfold update_lifecycle_counted. rewrite update_where_spec. destruct (get t c db) as [m|] eqn:Eg.
  - apply get_spec in Eg as (r & -> & Ht & Hs & _). rewrite (proj2 (matches_true _ _ _)); [done|].
    split; [done|]. unfold status_in. rewrite bool_decide_false; [done|set_solver].
  - rewrite bool_decide_false by (by intros [? ?]). destruct (db !! c) as [r|] eqn:Er; [|done].
    destruct (matches t _ r) eqn:Em; [|done]. apply matches_true in Em as [Ht Hs%negb_true_iff].
    assert (get t c db = Some (r_meta r)); [|congruence]. apply get_spec. exists r. split_and!; [done..| |done].
    intros E. unfold status_in in Hs. rewrite E in Hs. by rewrite bool_decide_true in Hs by set_solver.
Qed.

Lemma runs_update c delta s A :
  implements t s A → ld_status delta = None →
  runs (update_lifecycle_if_exists t c delta) s (λ _, True) (λ b s', b = bool_decide (is_Some (A !! c)) ∧ implements t s' A ∧
    ∀ k, get t k (db_of s') = if bool_decide (k = c) then delta_meta delta <$> get t k (db_of s) else get t k (db_of s)).
Proof using All.
  intros Hi Hd. assert (Hd' : ld_status delta ≠ Some Deleted) by (by rewrite Hd).
  unfold update_lifecycle_if_exists. apply runs_bind, (runs_writable t s A); [done|]. apply runs_bind, runs_world.
  fold (db_of s). apply runs_bind, runs_effect; [done|]. apply runs_ret. set (db1 := update_lifecycle t c delta (db_of s)).
  assert (Hg : ∀ k, get t k db1 = if bool_decide (k = c) then delta_meta delta <$> get t k (db_of s) else get t k (db_of s))
    by (intros k; by apply get_update_lifecycle).
  split_and!; [|rewrite <-(restatus_id s A db1 Hi)|exact Hg].
  - rewrite updated_rows. apply bool_decide_ext. symmetry. by apply implements_dom.
  - apply implements_overlaid; [done|]. by apply overlaid_update_lifecycle.
  - intros k. rewrite Hg. case_bool_decide; [|done]. destruct (get t k (db_of s)) as [m|]; [|done]. cbn. by rewrite Hd.
Qed.

Lemma runs_resolved c s A :
  implements t s A →
  runs (get_with_lifecycle t c) s (λ _, True) (λ o s',
    o = (m ← get t c (db_of s); chunk ← A !! c; Some (mkResolvedChunk chunk (cm_status m) (cm_lifecycle m))) ∧
    implements t s' A ∧ same_rest s s').
Proof using All.
  intros Hi. unfold get_with_lifecycle. apply runs_bind, runs_world. fold (db_of s).
  destruct (get t c (db_of s)) as [m|] eqn:Eg; cbn [mbind option_bind]; [|by apply runs_ret; split_and!; [| |apply same_rest_refl]].
  pose proof Eg as (r & _ & _ & Hs & ->)%get_spec. rewrite bool_decide_false by done. apply runs_bind.
  eapply runs_mono; [by apply runs_get|]. cbn beta. intros o s' (-> & Hi' & Hs'). apply runs_ret. split_and!; [|done..].
  by destruct (A !! c).
Qed.

(** The tenant that a store holds. *)
Record holds s (M : TenantMap) : Prop := {
  ho_chunks : implements t s (fst <$> M);
  ho_lifecycle c chunk lifecycle : M !! c = Some (chunk, lifecycle) → cm_lifecycle <$> get t c (db_of s) = Some lifecycle;
}.

(** The call answers [r], leaves the tenant [M] and hands over [events]. *)
Definition answers {T} (m : Op B TK T) s u (r : Result OperationError T) (M : TenantMap) (events : list UsageEvent) : Prop :=
  ∃ s', m (mkOp (PersistentTenant s) u) = (map_err Failed r, mkOp (PersistentTenant s') (u ++ events)) ∧ holds s' M.

Lemma holds_reread s s' M : holds s M → implements t s' (fst <$> M) → same_rest s s' → holds s' M.
Proof using All. intros [_ Hl] Hi Hs. split; [done|]. intros c chunk lc Hc. rewrite (same_rest_db _ _ Hs). by eapply Hl. Qed.

(** A chunk of the tenant, with its lifecycle. *)
Definition resolved_of (cl : MemoryChunk * LifecycleMetadata) : ResolvedChunk :=
  mkResolvedChunk cl.1 (mc_status cl.1) cl.2.

Lemma store_resolves c s u M :
  holds s M →
  ∃ s', store_get_with_lifecycle t c (mkOp (PersistentTenant s) u)
      = (Ok (resolved_of <$> M !! c), mkOp (PersistentTenant s') u) ∧ holds s' M.
Proof using All.
  intros Hh. pose proof Hh as [Hi Hl]. destruct (runs_resolved c s _ Hi) as (o & s1 & tr & E & _ & _ & -> & Hi1 & Hs1).
  exists s1. unfold store_get_with_lifecycle, op_persistent. cbn [op_store op_usage]. rewrite E. cbn [map_err].
  split; [|by eapply holds_reread]. rewrite lookup_fmap. destruct (M !! c) as [[chunk lc]|] eqn:Ec.
  - pose proof (Hl c chunk lc Ec) as Hlc. destruct (implements_status t s (fst <$> M) c chunk Hi) as (m & Hm & Hst);
      [by rewrite lookup_fmap, Ec|]. rewrite Hm in Hlc |- *. injection Hlc as <-. unfold resolved_of. cbn. by rewrite Hst.
  - destruct (get t c (db_of s)) as [m|] eqn:Em; [|done].
    destruct (proj2 (implements_dom t s (fst <$> M) c Hi)) as [? Hx]; [by eexists|]. by rewrite lookup_fmap, Ec in Hx.
Qed.

Lemma get_answers su now p s u M :
  holds s M → resolve_tenant_id su (gp_tenant_id p) = Ok t →
  answers (handle_memory_get su now p) s u (spec_get t now p M).1 M (spec_get t now p M).2.
Proof using All.
  intros Hh Ht. unfold answers, handle_memory_get, spec_get, mbind, op_bind, op_lift.
  rewrite Ht. cbn [map_err]. destruct (validate_chunk_id (gp_chunk_id p)) as [c|e]; cbn [map_err];
    [|exists s; by rewrite app_nil_r].
  destruct (store_resolves c s u M Hh) as (s1 & -> & Hh1). exists s1.
  destruct (M !! c) as [[chunk lc]|]; (split; [|done]); [|done].
  cbn. unfold shown. by destruct (is_visible_at _ _ _ _).
Qed.

Lemma delete_answers su now p s u M :
  holds s M → resolve_tenant_id su (dp_tenant_id p) = Ok t →
  (∀ c, validate_chunk_id (dp_chunk_id p) = Ok c → wal_fits (wal_delete (TenantId.as_str t) (uuid_to_string c) now)) →
  answers (handle_memory_delete su now p) s u (spec_delete t p M).1.1 (spec_delete t p M).1.2 (spec_delete t p M).2.
Proof using All.
  intros Hh Ht Hfit. pose proof Hh as [Hi Hl]. unfold answers, handle_memory_delete, spec_delete, mbind, op_bind, op_lift.
  rewrite Ht. cbn [map_err]. destruct (validate_chunk_id (dp_chunk_id p)) as [c|e]; cbn [map_err];
    [|exists s; by rewrite app_nil_r].
  destruct (runs_delete now c s _ Hi (Hfit c eq_refl)) as (o & s1 & tr & E & _ & _ & -> & Hi1 & Hold).
  unfold store_delete, op_persistent. cbn [op_store]. rewrite E. cbn [map_err]. exists s1.
  rewrite lookup_fmap. destruct (M !! c) as [[chunk lc]|] eqn:Ec; (split; [done|]); cbn [fst snd].
  - split; [by rewrite fmap_delete|]. intros k chunk' lc'. destruct (decide (k = c)) as [->|Hne]; [by rewrite lookup_delete_eq|].
    rewrite lookup_delete_ne by done. intros Hk. rewrite Hold by done. by eapply Hl.
  - split; [by rewrite <-fmap_delete, delete_id in Hi1|]. intros k chunk' lc' Hk.
    assert (k ≠ c) by (by intros ->; rewrite Ec in Hk). rewrite Hold by done. by eapply Hl.
Qed.

Lemma set_expiry_answers su now p s u M :
  holds s M → resolve_tenant_id su (se_tenant_id p) = Ok t →
  answers (handle_memory_set_expiry su now p) s u (spec_set_expiry su t now p M).1 (spec_set_expiry su t now p M).2 [].
Proof using All.
  intros Hh Ht. pose proof Hh as [Hi Hl]. unfold answers, handle_memory_set_expiry, spec_set_expiry, mbind, op_bind, op_lift.
  rewrite app_nil_r. unfold op_persistent at 1. cbn [op_store m_ret map_err tool_error].
  rewrite Ht. cbn [map_err]. destruct (parse_field "chunk_id" (se_chunk_id p)) as [c|e]; cbn [map_err]; [|by exists s].
  destruct (ensure_tenant_dir su) as [[]|e]; cbn [map_err]; [|by exists s].
  destruct (is_none (se_expires_at_ms p) && is_none (se_review_after_ms p)); [by exists s|].
  destruct (runs_update c (expiry_delta now p) s _ Hi eq_refl) as (o & s1 & tr & E & _ & _ & -> & Hi1 & Hg).
  unfold op_persistent. cbn [op_store op_usage]. fold (expiry_delta now p). rewrite E. cbn [map_err]. exists s1.
  rewrite lookup_fmap. destruct (M !! c) as [[chunk lc]|] eqn:Ec; (split; [done|]); cbn [fst snd].
  - split.
    { replace (fst <$> <[c := _]> M) with (fst <$> M); [done|]. rewrite fmap_insert, insert_id; [done|by rewrite lookup_fmap, Ec]. }
    intros k chunk' lc' Hk. rewrite Hg. destruct (decide (k = c)) as [->|Hne].
    + rewrite lookup_insert_eq in Hk. injection Hk as <- <-. rewrite bool_decide_true by done.
      specialize (Hl c chunk lc Ec). destruct (get t c (db_of s)) as [m|]; [|done]. injection Hl as <-. done.
    + rewrite lookup_insert_ne in Hk by done. rewrite bool_decide_false by done. by eapply Hl.
  - split; [done|]. intros k chunk' lc' Hk. rewrite Hg. rewrite bool_decide_false by (by intros ->; rewrite Ec in Hk). by eapply Hl.
Qed.

(** A request that is meant for this tenant; a deletion fits the log. *)
Definition request_ok (su : Surroundings) (op : MemoryOp) : Prop :=
  resolve_tenant_id su (op_tenant op) = Ok t ∧
  match op with
  | OpDelete now p =>
      ∀ c, validate_chunk_id (dp_chunk_id p) = Ok c → wal_fits (wal_delete (TenantId.as_str t) (uuid_to_string c) now)
  | _ => True
  end.

Definition run_op (su : Surroundings) (op : MemoryOp) : Op B TK OpAnswer :=
  match op with
  | OpGet now p => a ← handle_memory_get su now p; mret (AnswerGet a)
  | OpDelete now p => a ← handle_memory_delete su now p; mret (AnswerDelete a)
  | OpSetExpiry now p => a ← handle_memory_set_expiry su now p; mret (AnswerSetExpiry a)
  end.

(** A failed request leaves the others to come. *)
Fixpoint run_ops (ops : list (Surroundings * MemoryOp)) (st : OpState B TK)
    : list (Result OpFailure OpAnswer) * OpState B TK :=
  match ops with
  | [] => ([], st)
  | (su, op) :: ops =>
      let '(r, st) := run_op su op st in
      let '(rs, st) := run_ops ops st in
      (r :: rs, st)
  end.

Lemma answers_wrap {T C} (f : T → C) m s u r M e :
  answers m s u r M e → answers (a ← m; mret (f a)) s u (f <$> r) M e.
Proof using All. intros (s' & E & Hh). exists s'. unfold mbind, op_bind. rewrite E. by destruct r. Qed.

Lemma op_answers su op s u M :
  holds s M → request_ok su op →
  answers (run_op su op) s u (spec_op t su op M).1.1 (spec_op t su op M).1.2 (spec_op t su op M).2.
Proof using All.
  intros Hh [Ht Hok]. destruct op as [now p|now p|now p]; cbn [run_op spec_op op_tenant] in *.
  - destruct (spec_get t now p M) as [r e] eqn:E. apply answers_wrap.
    pose proof (get_answers su now p s u M Hh Ht) as H'. by rewrite E in H'.
  - destruct (spec_delete t p M) as [[r M'] e] eqn:E. apply answers_wrap.
    pose proof (delete_answers su now p s u M Hh Ht Hok) as H'. by rewrite E in H'.
  - destruct (spec_set_expiry su t now p M) as [r M'] eqn:E. apply answers_wrap.
    pose proof (set_expiry_answers su now p s u M Hh Ht) as H'. by rewrite E in H'.
Qed.

(** C23: memory.get, memory.delete and memory.set_expiry refine an abstract
    tenant, a map from ids to chunks with their lifecycle.  Any sequence of
    such requests to a persistent store that holds the tenant, malformed ones
    among them, is answered as the map answers it: a read shows a chunk when
    the policy of the request does and otherwise says why not, a deletion says
    whether there was something to delete, an expiry is set on a chunk of the
    map and refused for any other id; the usage events are those of the map,
    and the store holds the tenant after them. *)
Theorem memory_ops_refine ops : ∀ s u M,
  holds s M → Forall (λ so, request_ok so.1 so.2) ops →
  let '(rs, M', events) := spec_ops t ops M in
  ∃ s', run_ops ops (mkOp (PersistentTenant s) u) = (map (map_err Failed) rs, mkOp (PersistentTenant s') (u ++ events)) ∧
    holds s' M'.
Proof using All.
  induction ops as [|[su op] ops IH]; intros s u M Hh Hok; cbn [spec_ops run_ops].
  { exists s. by rewrite app_nil_r. }
  apply Forall_cons in Hok as [Hop Hok]. destruct (op_answers su op s u M Hh Hop) as (s1 & E1 & Hh1).
  destruct (spec_op t su op M) as [[r M1] e]. cbn [fst snd] in *. rewrite E1.
  specialize (IH s1 (u ++ e) M1 Hh1 Hok). destruct (spec_ops t ops M1) as [[rs M'] es].
  destruct IH as (s' & E2 & Hh'). rewrite E2. exists s'. split; [|done]. by rewrite <-app_assoc.
Qed.

(** memory.supersede, once the request is accepted, is the supersession of
    the store: it links the new version to the old one, or it changes nothing
    and gives the reason of the check that refused it. *)
Lemma memory_supersede_exact su params s u A old ct w parts :
  let new := apply_to_chunk w (supersede_new_chunk su t ct params) in
  let fresh := part_ids (su_stored_id su 0) new in
  implements t s A → resolve_tenant_id su (ss_tenant_id params) = Ok t → ensure_tenant_dir su = Ok () →
  parse_field "old_chunk_id" (ss_old_chunk_id params) = Ok old → parse_chunk_type (ss_chunk_type params) = Ok ct →
  prepare_write_at (mkRequest ct (mc_text (supersede_new_chunk su t ct params)) (mc_tags (supersede_new_chunk su t ct params))
    Document None None) (su_admitted_ms su 0) = Some w → is_rejected w = false →
  request t s (su_stored_ms su 0) new (lifecycle_delta w) parts fresh (su_lane su 0) →
  match supersede_preflight t old t (db_of s) with
  | Some (Ok _) => ∃ id0 event s' A',
      handle_memory_supersede su params (mkOp (PersistentTenant s) u)
        = (Ok (mkSupersedeAnswer (uuid_to_string id0) (map uuid_to_string fresh) (uuid_to_string old) (decision w)
                 (ao_reason (pw_outcome w)) (ao_warning (pw_outcome w)), event), mkOp (PersistentTenant s') u) ∧
      pe_chunk_id event = id0 ∧ head fresh = Some id0 ∧
      superseded_with t old (su_stored_ms su 0) (lifecycle_delta w) (added_chunks false parts fresh) id0 A s' A'
  | Some (Err e) =>
      handle_memory_supersede su params (mkOp (PersistentTenant s) u)
        = (Err (Failed (ToolError (error_to_string e))), mkOp (PersistentTenant s) u)
  | None => False
  end.
Proof using All.
  intros new fresh Hi Ht Hdir Hold Hct Hw Hrej Hrq.
  destruct (supersede_preflight_exact t old t (db_of s)) as (res & E & _).
  assert (Hrun : handle_memory_supersede su params (mkOp (PersistentTenant s) u) =
    (let '(r, s') := supersede_chunk_with_lifecycle_and_stored_ids (su_stored_ms su 0) t old new (lifecycle_delta w) fresh
                       (su_lane su 0) (m_ret ()) s in
     match r with
     | Ok ids => (Ok (mkSupersedeAnswer (uuid_to_string ids.1) (map uuid_to_string ids.2) (uuid_to_string old) (decision w)
                       (ao_reason (pw_outcome w)) (ao_warning (pw_outcome w)),
                      mkPostWrite (TenantId.as_str t) ids.1 (ss_chunk_type params) (ss_project_id params)
                        (source ← ss_source params; sp_path source) (ss_new_text params)), mkOp (PersistentTenant s') u)
     | Err e => (Err (Failed (ToolError (error_to_string e))), mkOp (PersistentTenant s') u)
     end)).
  { unfold handle_memory_supersede, mbind, op_bind, op_lift, op_total. unfold op_persistent at 1.
    cbn [op_store m_ret map_err tool_error op_usage]. rewrite Ht. cbn [map_err]. rewrite Hdir. cbn [map_err].
    rewrite Hold. cbn [map_err]. rewrite Hct. cbn [map_err]. rewrite Hw. cbn [ok_or]. rewrite Hrej.
    unfold op_persistent. cbn [op_store op_usage]. fold new fresh.
    by destruct (supersede_chunk_with_lifecycle_and_stored_ids _ _ _ _ _ _ _ _ s) as [[ids|e] s1]. }
  rewrite E. destruct res as [[]|e].
  - destruct (runs_supersede t tenant_valid s A (su_stored_ms su 0) old new (lifecycle_delta w) parts fresh (su_lane su 0) Hi Hrq)
      as (r & s' & tr & Er & _ & _ & (id0 & A' & -> & Hhd & HA)); [by rewrite (rq_tenant _ _ _ _ _ _ _ _ Hrq)|].
    rewrite Hrun, Er. eexists id0, _, s', A'. by split_and!.
  - rewrite Hrun. unfold supersede_chunk_with_lifecycle_and_stored_ids, ensure_writable, m_bind, m_store, m_world, m_lift, m_ret.
    rewrite (implements_writable t s A Hi). unfold db_of in E. by rewrite (rq_tenant _ _ _ _ _ _ _ _ Hrq), E.
Qed.

End refine.

(* ------------------------------------------------------------------ *)
(** ** A tenant with one chunk *)

#[local] Existing Instance dot_segmentation.
#[local] Existing Instance mx_text.
#[local] Existing Instance mx_hasher.

Definition ox_map : TenantMap := (λ chunk, (chunk, LifecycleMetadata_default)) <$> lx_map.

Lemma ox_holds : holds ex_tenant ex_s1 ox_map.
Proof.
  split.
  - replace (fst <$> ox_map) with lx_map; [exact lx_implements|]. unfold ox_map. rewrite <-map_fmap_compose.
    symmetry. apply map_fmap_id.
  - intros c chunk lifecycle Hc. unfold ox_map in Hc. apply lookup_fmap_Some in Hc as (chunk' & [= <- <-] & Hc).
    destruct (proj1 (implements_dom ex_tenant ex_s1 lx_map c lx_implements)) as [m Hm]; [by eexists|].
    rewrite Hm. pose proof Hm as (r & Hr & _ & _ & ->)%get_spec. cbn. f_equal.
    assert (H : map_Forall (λ (_ : ChunkId) r, cm_lifecycle (r_meta r) = LifecycleMetadata_default) (db_of ex_s1))
      by (apply (bool_decide_unpack _); vm_compute; exact I).
    exact (H c r Hr).
Qed.

Definition ox_id : string := uuid_to_string (ex_id 7).
Definition ox_get (now : Z) : MemoryOp := OpGet now (mkGetParams "team" ox_id None None None).

(** Read, set an expiry, forget what to set, read again, delete, read what is
    gone, and delete what never was there. *)
Definition ox_ops : list (Surroundings * MemoryOp) :=
  map (pair (mx_surroundings 0))
    [ox_get 30; OpSetExpiry 31 (mkSetExpiry "team" ox_id (Some (Some 40)) None);
     OpSetExpiry 32 (mkSetExpiry "team" ox_id None None); ox_get 45;
     OpDelete 46 (mkDeleteParams "team" ox_id); ox_get 47; OpDelete 48 (mkDeleteParams "team" "x")].

Lemma ox_ops_ok : Forall (λ so, request_ok ex_tenant so.1 so.2) ox_ops.
Proof.
  assert (Hdel : ∀ now c0 name, chunk_id_parse name = Ok c0 → wal_fits (wal_delete "team" (uuid_to_string c0) now) →
    request_ok ex_tenant (mx_surroundings 0) (OpDelete now (mkDeleteParams "team" name))).
  { intros now c0 name Hp Hfit. split; [vm_compute; reflexivity|]. intros c. unfold validate_chunk_id. cbn [dp_chunk_id].
    rewrite Hp. by intros [= <-]. }
  unfold ox_ops. cbn [map]. repeat apply Forall_cons_2; try apply Forall_nil_2; cbn [fst snd].
  5: { apply (Hdel _ (ex_id 7)); vm_compute; reflexivity. }
  6: { apply (Hdel _ (ex_id 1)); vm_compute; reflexivity. }
  all: split; [vm_compute; reflexivity|exact I].
Qed.

Example ox_answers :
  map (λ r, match r with
            | Ok (AnswerGet (GetFound _ _ _)) => "found"
            | Ok (AnswerGet (GetHidden _ _ reason)) => "hidden: " +:+ reason
            | Ok (AnswerGet GetNotFound) => "absent"
            | Ok (AnswerDelete (mkDeleteResult true)) => "deleted"
            | Ok (AnswerDelete (mkDeleteResult false)) => "nothing to delete"
            | Ok (AnswerSetExpiry c) => "expiry"
            | Err (InvalidParams _) => "invalid"
            | Err _ => "failed"
            end)%string (spec_ops ex_tenant ox_ops ox_map).1.1
    = ["found"; "expiry"; "invalid"; "hidden: expired"; "deleted"; "absent"; "nothing to delete"]%string.
Proof. vm_compute. reflexivity. Qed.

Lemma memory_ops_refine_witness :
  ∃ s', run_ops ox_ops (mkOp (PersistentTenant ex_s1) [])
      = (map (map_err Failed) (spec_ops ex_tenant ox_ops ox_map).1.1,
         mkOp (PersistentTenant s') ([] ++ (spec_ops ex_tenant ox_ops ox_map).2)) ∧
    holds ex_tenant s' (spec_ops ex_tenant ox_ops ox_map).1.2.
Proof.
  pose proof (memory_ops_refine ex_tenant eq_refl ox_ops ex_s1 [] ox_map ox_holds ox_ops_ok) as Href.
  destruct (spec_ops ex_tenant ox_ops ox_map) as [[rs M'] events]. exact Href.
Defined.
