(* ===== verification/Search.v ===== *)
(** * The operation memory.search
    (src/crates/memd/src/ops/search.rs and its helpers in ops/mod.rs and
    store/mod.rs)

    Between what the searchers find and what the caller gets lie the merging
    of the lanes, two rescues by the words of the query, the filters of the
    request, a second try with a simpler query, the visibility of every
    candidate, and the pool from which the outcome policy ranks in the
    shadow.  The searchers, the listing of chunks, the results preferred for
    tasks and the priors of outcomes are arguments, the lanes; the state is
    that of MemoryAdd.v.  Whatever the lanes find, the chunks served are those
    that the store holds and the policy shows, and the episode recorded of
    them is one that the store accepts. *)

From S2P Require Import Prelude Crates Types Str Sentence Chunking Ranking Fusion Reranker Bm25 Admission WalFormat WalReader Files.
From S2P Require Import WalWriter SegmentFormat Segment SegmentFacts Metadata MetadataFacts SupersessionProps.
From S2P Require Import TenantStore Persistent Runs TenantInv TenantFacts Recovery PersistentFacts AddFacts StoreSpec.
From S2P Require Import Overlay Lifecycle LifecycleFacts LifecycleProps Outcome MemoryStore Dedup OmfTime MemoryAdd.
From S2P Require Import Concrete MetadataProps StoreProps MemoryAddProps MemoryOps.
From Stdlib Require Import Ascii Floats.SpecFloat.

Open Scope Z_scope.

(* ------------------------------------------------------------------ *)
(** ** Requests *)

Inductive QueryMode : Type :=
| Generic | BriefProject | ResumeTask | FindFailures | FindDecisions | FindEvidence | FindHighlights.
#[export] Instance QueryMode_eq_dec : EqDecision QueryMode.
Proof. solve_decision. Defined.

Definition query_mode_name (m : QueryMode) : string :=
  match m with
  | Generic => "generic"
  | BriefProject => "brief_project"
  | ResumeTask => "resume_task"
  | FindFailures => "find_failures"
  | FindDecisions => "find_decisions"
  | FindEvidence => "find_evidence"
  | FindHighlights => "find_highlights"
  end.

Record TimeRange : Type := mkTimeRange { tr_from : option string; tr_to : option string }.

Record SearchFilters : Type := mkSearchFilters {
  sf_types : option (list string);
  sf_episode_id : option string;
  sf_time_range : option TimeRange;
}.

Record SearchParams : Type := mkSearchParams {
  sq_tenant_id : string;
  sq_query : string;
  sq_project_id : option string;
  sq_k : Z;
  sq_filters : option SearchFilters;
  sq_debug_tiers : option bool;
  sq_mode : option QueryMode;
  sq_include_superseded : option bool;
  sq_include_expired : option bool;
  sq_include_history : option bool;
  sq_oversample_factor : option Z;
  sq_expand_event_siblings : bool;
  sq_render_event_time : bool;
  sq_ranking_time_ms : option Z;
  sq_dedupe_by_source : bool;
  sq_compact : bool;
  sq_token_budget : option Z;
  sq_include_text : option bool;
  sq_include_artifact : option bool;
  sq_task_id : option string;
  sq_thread_id : option string;
  sq_ranking_policy : option RankingPolicyMode;
  sq_candidate_multiplier : option Z;
  sq_suppress_usage_event : bool;
  sq_suppress_retrieval_episode : bool;
}.

Record ParsedSearchFilters : Type := mkParsedFilters {
  pf_chunk_types : option (list ChunkType);
  pf_episode_id : option string;
  pf_from_ms : option Z;
  pf_to_ms : option Z;
}.

(** [crate::structural::parse_iso_datetime], a call of the chrono crate. *)
Class IsoDatetime : Type := { parse_iso_datetime : string → Result string Z }.

Definition RankedChunk : Type := MemoryChunk * f32.

(** [a.saturating_mul(b)] on usize, and [x.clamp(lo, hi)]. *)
Definition saturating_mul (a b : Z) : Z := Z.min (a * b) u64_max.
Definition clamp (lo hi x : Z) : Z := Z.max lo (Z.min x hi).

(** [.filter(|a| seen.insert(key(a)))]; elements without a key stay. *)
Fixpoint keep_new {K A} `{Countable K} (key : A → option K) (seen : gset K) (l : list A) : list A :=
  match l with
  | [] => []
  | a :: l =>
      match key a with
      | None => a :: keep_new key seen l
      | Some k => if bool_decide (k ∈ seen) then keep_new key seen l else a :: keep_new key ({[k]} ∪ seen) l
      end
  end.

Definition validate_search_k (k : Z) : Result OperationError () :=
  if (1 <=? k) && (k <=? 100) then Ok () else Err (InvalidParams "invalid 'k': must be between 1 and 100").

Section requests.
Context `{UC : Unicode} `{ISO : IsoDatetime}.

(** [.map(parse).transpose()?] of one bound of the time range. *)
Definition time_bound (name : string) (value : option string) : Result OperationError (option Z) :=
  match value with
  | None => Ok None
  | Some s =>
      ms ← map_err (λ e, InvalidParams ("invalid filters.time_range." +:+ name +:+ ": " +:+ e)) (parse_iso_datetime s);
      Ok (Some ms)
  end.

Definition validate_search_time_range (filters : option SearchFilters) : Result OperationError (option Z * option Z) :=
  match f ← filters; sf_time_range f with
  | None => Ok (None, None)
  | Some range =>
      from_ms ← time_bound "from" (tr_from range);
      to_ms ← time_bound "to" (tr_to range);
      match from_ms, to_ms with
      | Some from, Some to =>
          if to <? from then Err (InvalidParams "invalid filters.time_range: 'from' must be <= 'to'")
          else Ok (from_ms, to_ms)
      | _, _ => Ok (from_ms, to_ms)
      end
  end.

Definition parse_search_filters (filters : option SearchFilters) : Result OperationError ParsedSearchFilters :=
  '(from_ms, to_ms) ← validate_search_time_range filters;
  chunk_types ←
    match f ← filters; sf_types f with
    | None => Ok None
    | Some types => l ← try_fold (λ acc s, ty ← parse_chunk_type s; Ok (acc ++ [ty])) types []; Ok (Some l)
    end;
  Ok (mkParsedFilters chunk_types (f ← filters; sf_episode_id f) from_ms to_ms).

End requests.

(** The test of [apply_search_filters]. *)
Definition passes_filters (project_id : option string) (filters : ParsedSearchFilters) (chunk : MemoryChunk) : bool :=
  match project_id with Some p => bool_decide (mc_project_id chunk = Some p) | None => true end &&
  match pf_chunk_types filters with Some types => bool_decide (mc_chunk_type chunk ∈ types) | None => true end &&
  match pf_episode_id filters with
  | Some e => existsb (λ tag, bool_decide (tag = "episode:" +:+ e)) (mc_tags chunk)
  | None => true
  end &&
  match pf_from_ms filters with Some from => negb (mc_timestamp_created chunk <? from) | None => true end &&
  match pf_to_ms filters with Some to => negb (to <? mc_timestamp_created chunk) | None => true end.

Definition apply_search_filters (scored_chunks : list RankedChunk) (project_id : option string)
    (filters : ParsedSearchFilters) (k : Z) : list RankedChunk :=
  take (Z.to_nat k) (List.filter (λ c, passes_filters project_id filters c.1) scored_chunks).

Definition has_active_search_filters (project_id : option string) (filters : ParsedSearchFilters) : bool :=
  negb (is_none project_id) || negb (is_none (pf_chunk_types filters)) || negb (is_none (pf_episode_id filters)) ||
  negb (is_none (pf_from_ms filters)) || negb (is_none (pf_to_ms filters)).

Definition resolve_visibility_and_oversample (params : SearchParams) : VisibilityPolicy * Z :=
  let policy := mkPolicy (default false (sq_include_superseded params)) (default false (sq_include_expired params))
                  (default false (sq_include_history params)) in
  let all_permissive := include_superseded policy && include_expired policy && include_history policy in
  (policy, if all_permissive then 1 else clamp 1 10 (default 3 (sq_oversample_factor params))).

(** The candidate bounds of a request. *)
Definition outcome_candidate_cap (params : SearchParams) : Z :=
  let multiplier := clamp 1 20 (default 4 (sq_candidate_multiplier params)) in
  clamp (sq_k params) 200 (saturating_mul (sq_k params) multiplier).
Definition pre_visibility_cap (params : SearchParams) : Z :=
  Z.min (Z.max (saturating_mul (sq_k params) (resolve_visibility_and_oversample params).2) (outcome_candidate_cap params)) 200.

(* ------------------------------------------------------------------ *)
(** ** Scores and merges *)

(** [compare_scored_chunks], which the merges repeat *)
Definition newer_then_id (a b : RankedChunk) : comparison :=
  then_with (mc_timestamp_created b.1 ?= mc_timestamp_created a.1)
    (chunk_id_cmp (mc_chunk_id a.1) (mc_chunk_id b.1)).
Definition compare_scored_chunks : RankedChunk → RankedChunk → comparison := score_desc snd newer_then_id.

Definition scored_id (c : RankedChunk) : option ChunkId := Some (mc_chunk_id c.1).

Definition merge_scored_chunk_lists (scored_lists : list (list RankedChunk)) (limit : Z) : list RankedChunk :=
  take (Z.to_nat limit) (keep_new scored_id ∅ (sort_by compare_scored_chunks (concat scored_lists))).

(** The two loops of [merge_preferred_and_raw] share one set. *)
Definition merge_preferred_and_raw (preferred raw : list RankedChunk) (limit : Z) : list RankedChunk :=
  take (Z.to_nat limit)
    (sort_by compare_scored_chunks
       (keep_new scored_id ∅ (map (λ c : RankedChunk, (c.1, f32_add c.2 (f32_of_Z 10))) preferred ++ raw))).

(** A chunk with one of these tags projects a generated digest. *)
Definition is_generated_digest_projection_chunk (chunk : MemoryChunk) : bool :=
  existsb (λ tag, bool_decide (tag = "task:status:generated"%string)) (mc_tags chunk) &&
  existsb (λ tag,
    bool_decide (tag = "task:kind:digest"%string) || bool_decide (tag = "task:projection:digest"%string) ||
    str_starts_with "task:role:" tag || str_starts_with "task:digest:" tag) (mc_tags chunk).
Definition suppress_generated_digest_projection_chunks (scored : list RankedChunk) : list RankedChunk :=
  List.filter (λ c, negb (is_generated_digest_projection_chunk c.1)) scored.

(** The source a chunk is collapsed by. *)
Definition source_key (c : RankedChunk) : option string :=
  uri ← src_uri (mc_source c.1); if bool_decide (uri = ""%string) then None else Some uri.
Definition dedupe_scored_chunks_by_source_uri (scored : list RankedChunk) : list RankedChunk :=
  keep_new source_key ∅ scored.

(** [format_epoch_ms_date] and the prefix it gives. *)
Definition format_epoch_ms_date (ms : Z) : string :=
  let '(year, month, day) := civil_date (ms / 86400000) in
  (if year <? 0 then "-" +:+ fmt0 3 (- year) else fmt0 4 year) +:+ "-" +:+ fmt0 2 month +:+ "-" +:+ fmt0 2 day.
Definition with_observed_time (chunk : MemoryChunk) : MemoryChunk :=
  match mc_timestamp_observed chunk with
  | Some ms => set_text_tags ("[" +:+ format_epoch_ms_date ms +:+ "] " +:+ mc_text chunk) (mc_tags chunk) chunk
  | None => chunk
  end.
Definition render_observed_time_into_text (scored : list RankedChunk) : list RankedChunk :=
  map (λ c : RankedChunk, (with_observed_time c.1, c.2)) scored.

(* ------------------------------------------------------------------ *)
(** ** The words of a query *)

(** [str::trim_matches] *)
Definition trim_matches (p : string → bool) (s : string) : string :=
  str_concat (reverse (drop_while p (reverse (drop_while p (str_chars s))))).

Definition ascii_alnum : string → bool := on_ascii is_ascii_alphanumeric.
Definition word_char (alnum : string → bool) (c : string) : bool :=
  alnum c || bool_decide (c = "_"%string) || bool_decide (c = "-"%string).

Section words.
Context `{UC : Unicode} `{AN : AlphaNumeric}.

(** The text and the tags of a chunk, in lower case. *)
Definition haystack_of (chunk : MemoryChunk) : string :=
  to_ascii_lowercase (mc_text chunk +:+ " " +:+ str_join " " (mc_tags chunk)).

Definition query_terms (query : string) : list string :=
  omap (λ term,
    let normalized := to_ascii_lowercase (trim_matches (λ c, negb (word_char char_is_alphanumeric c)) term) in
    if existsb char_is_alphanumeric (str_chars normalized) then Some normalized else None)
    (str_split_whitespace query).

Definition term_matches (haystack : string) (natural : list string) (term : string) : bool :=
  if existsb (λ c, negb (ascii_alnum c)) (str_chars term) then string_contains term haystack
  else existsb (λ candidate,
         bool_decide (candidate = term) ||
         ((4 <=? Z.min (zstrlen candidate) (zstrlen term)) &&
          (str_starts_with term candidate || str_starts_with candidate term))) natural.

Definition score_candidate_chunk (query : string) (chunk : MemoryChunk) : f32 :=
  if bool_decide (str_trim query = ""%string) then f32_one
  else
    let haystack := haystack_of chunk in
    let terms := query_terms query in
    if bool_decide (terms = []) then f32_zero
    else
      let natural := List.filter (λ w, negb (bool_decide (w = ""%string))) (str_split (λ c, negb (ascii_alnum c)) haystack) in
      let score := foldl (λ score term, if term_matches haystack natural term then f32_add score f32_one else score)
                     f32_zero terms in
      if string_contains (to_ascii_lowercase query) haystack then f32_add score (f32_lit 3 2) else score.

Definition rank_candidate_chunks (chunks : list MemoryChunk) (query : string) (k : Z) : list RankedChunk :=
  let scored := sort_by compare_scored_chunks (map (λ chunk, (chunk, score_candidate_chunk query chunk)) chunks) in
  take (Z.to_nat k)
    (if bool_decide (str_trim query = ""%string) then scored else List.filter (λ c, f32_gt c.2 f32_zero) scored).

Definition exact_rescue_terms (query : string) : list string :=
  keep_new Some ∅
    (omap (λ term,
       let cleaned := to_ascii_lowercase (trim_matches (λ c, negb (word_char ascii_alnum c)) term) in
       if (zstrlen cleaned <? 3) || negb (existsb ascii_alnum (str_chars cleaned)) then None
       else if string_contains "_" cleaned || string_contains "-" cleaned || has_ascii_digit cleaned then Some cleaned
       else None) (str_split_whitespace query)).

Definition LEXICAL_OVERLAP_STOPWORDS : list string :=
  ["about"; "after"; "again"; "also"; "because"; "before"; "could"; "from"; "have"; "into"; "need"; "needs"; "only";
   "over"; "should"; "than"; "that"; "their"; "there"; "these"; "this"; "those"; "when"; "where"; "with"; "would"]%string.
Definition is_lexical_overlap_stopword (term : string) : bool := bool_decide (term ∈ LEXICAL_OVERLAP_STOPWORDS).

Definition lexical_overlap_terms (query : string) : list string :=
  keep_new Some ∅
    (omap (λ term,
       let cleaned := to_ascii_lowercase (str_trim term) in
       if (zstrlen cleaned <? 4) || is_lexical_overlap_stopword cleaned then None else Some cleaned)
       (str_split (λ c, negb (ascii_alnum c)) query)).

Definition chunk_contains_exact_rescue_term (chunk : MemoryChunk) (terms : list string) : bool :=
  let haystack := haystack_of chunk in existsb (λ term, string_contains term haystack) terms.

Definition chunk_lexical_overlap_count (chunk : MemoryChunk) (terms : list string) : Z :=
  let haystack := haystack_of chunk in zlen (List.filter (λ term, string_contains term haystack) terms).

Definition lexical_overlap_minimum (terms : list string) : Z :=
  if 8 <=? zlen terms then 4 else if 6 <=? zlen terms then 3 else 2.

Definition should_run_lexical_overlap_rescue (scored : list RankedChunk) (query : string) (k : Z) : bool :=
  let terms := lexical_overlap_terms query in
  if zlen terms <? 4 then false
  else
    match take (Z.to_nat k) scored with
    | [] => true
    | top => negb (existsb (λ c, lexical_overlap_minimum terms <=? chunk_lexical_overlap_count c.1 terms) top)
    end.

Definition adaptive_fetch_k (k : Z) (query : string) (has_filters : bool) : Z :=
  if has_filters then 100
  else if (6 <=? zlen (str_split_whitespace query)) || (80 <=? zstrlen query) then clamp 1 100 (saturating_mul k 2)
  else k.

Definition normalize_query_for_repair (query : string) : option string :=
  let normalized := str_to_lowercase (str_join " " (str_split_whitespace
    (str_concat (map (λ c, if char_is_alphanumeric c then c else " "%string) (str_chars query))))) in
  if bool_decide (normalized = ""%string) then None
  else if bool_decide (normalized = str_to_lowercase (str_join " " (str_split_whitespace query))) then None
  else Some normalized.

End words.

(* ------------------------------------------------------------------ *)
(** ** The lanes *)

Record ProjectSearchScope : Type := mkScope { ps_tenant_id : TenantId; ps_project_id : option string }.

(** What the store and the task memory answer a search: the scopes of the
    request, the searcher of a tenant, its chunks page by page (limit and
    offset), the preferred results, the priors of outcomes. *)
Record Lanes : Type := mkLanes {
  ln_scopes : Result OperationError (list ProjectSearchScope);
  ln_search : TenantId → string → Z → memd_result (list RankedChunk);
  ln_list : ProjectSearchScope → Z → Z → memd_result (list MemoryChunk);
  ln_preferred : Z → Result OperationError (list RankedChunk);
  ln_priors : list ChunkId → Z → memd_result (list OutcomePrior);
}.

Definition EXACT_RESCUE_PAGE_SIZE : Z := 500.
Definition EXACT_RESCUE_PROJECT_SCAN_LIMIT : Z := 50000.
Definition EXACT_RESCUE_GLOBAL_SCAN_LIMIT : Z := 10000.
Definition EXACT_RESCUE_SCORE_BOOST : f32 := f32_of_Z 20.
Definition LEXICAL_OVERLAP_PROJECT_SCAN_LIMIT : Z := 500.
Definition LEXICAL_OVERLAP_SCORE_BOOST : f32 := f32_of_Z 16.
Definition LEXICAL_OVERLAP_MAX_CANDIDATES : Z := 100.

(** Steps before the store is asked; [None] is out of fuel. *)
Definition Lane (A : Type) : Type := option (Result OperationError A).
#[export] Instance lane_ret : MRet Lane := λ A a, Some (Ok a).
#[export] Instance lane_bind : MBind Lane := λ A C f m,
  match m with Some (Ok a) => f a | Some (Err e) => Some (Err e) | None => None end.
Definition lane_lift {A} (r : Result OperationError A) : Lane A := Some r.

(** [chunk.project_id] is that of the scope, when the scope has one. *)
Definition scope_covers (scope : ProjectSearchScope) (chunk : MemoryChunk) : bool :=
  match ps_project_id scope with Some p => bool_decide (mc_project_id chunk = Some p) | None => true end.

Definition boosted (by_score : f32) (scored : list RankedChunk) : list RankedChunk :=
  map (λ c : RankedChunk, (c.1, f32_add c.2 by_score)) scored.

Section lanes.
Context `{UC : Unicode} `{AN : AlphaNumeric} `{ET : ErrorText}.
Variable lanes : Lanes.

Definition search_with_scores_for_project_scopes (scopes : list ProjectSearchScope) (query : string) (fetch_k : Z)
    : Result OperationError (list RankedChunk) :=
  lists ← try_fold (λ acc scope,
    scored ← tool_error (ln_search lanes (ps_tenant_id scope) query fetch_k);
    Ok (acc ++ [List.filter (λ c, scope_covers scope c.1) scored])) scopes [];
  Ok (merge_scored_chunk_lists lists (saturating_mul fetch_k (Z.max 1 (zlen scopes)))).

(** The loop over the pages of a scope, with the number of scanned rows as
    offset; [f] takes a page, and may ask to stop. *)
Fixpoint scan_pages {A} (fuel : nat) (scope : ProjectSearchScope) (scan_limit : Z) (stop : A → bool)
    (f : A → list MemoryChunk → A) (scanned : Z) (acc : A) : Lane A :=
  match fuel with
  | O => None
  | S fuel =>
      if (scan_limit <=? scanned) || stop acc then Some (Ok acc)
      else
        let page_limit := Z.min EXACT_RESCUE_PAGE_SIZE (scan_limit - scanned) in
        match tool_error (ln_list lanes scope page_limit scanned) with
        | Err e => Some (Err e)
        | Ok [] => Some (Ok acc)
        | Ok chunks => scan_pages fuel scope scan_limit stop f (scanned + page_limit) (f acc chunks)
        end
  end.
(** Every page scans at least one row. *)
Definition scan_fuel (scan_limit : Z) : nat := S (Z.to_nat scan_limit).

Definition retain_exact_rescue_candidate (query : string) (limit : Z) (candidates : list RankedChunk) (chunk : MemoryChunk)
    : list RankedChunk :=
  let score := score_candidate_chunk query chunk in
  if f32_le score f32_zero then candidates
  else take (Z.to_nat limit) (sort_by compare_scored_chunks (candidates ++ [(chunk, score)])).

(** The chunks of a page that hold a term. *)
Definition exact_page (scope : ProjectSearchScope) (terms : list string) (query : string) (limit : Z)
    (candidates : list RankedChunk) (chunks : list MemoryChunk) : list RankedChunk :=
  foldl (retain_exact_rescue_candidate query limit) candidates
    (List.filter (λ c, scope_covers scope c && chunk_contains_exact_rescue_term c terms) chunks).

(** [for scope in scopes] over a lane. *)
Fixpoint each_scope {A} (f : A → ProjectSearchScope → Lane A) (acc : A) (scopes : list ProjectSearchScope) : Lane A :=
  match scopes with
  | [] => mret acc
  | scope :: scopes => acc ← f acc scope; each_scope f acc scopes
  end.

Definition exact_lexical_candidates_for_project_scopes (scopes : list ProjectSearchScope) (query : string) (limit : Z)
    : Lane (list RankedChunk) :=
  let terms := exact_rescue_terms query in
  if bool_decide (terms = []) || (limit =? 0) then mret []
  else
    candidates ← each_scope (λ candidates scope,
      let scan_limit := if is_none (ps_project_id scope) then EXACT_RESCUE_GLOBAL_SCAN_LIMIT
                        else EXACT_RESCUE_PROJECT_SCAN_LIMIT in
      scan_pages (scan_fuel scan_limit) scope scan_limit (λ _, false) (exact_page scope terms query limit) 0 candidates)
      [] scopes;
    mret (boosted EXACT_RESCUE_SCORE_BOOST candidates).

(** The chunks of a page with enough of the words, up to the cap. *)
Definition overlap_page (scope : ProjectSearchScope) (terms : list string) (cap : Z) (candidates chunks : list MemoryChunk)
    : list MemoryChunk :=
  let found := List.filter (λ c, scope_covers scope c &&
                 (lexical_overlap_minimum terms <=? chunk_lexical_overlap_count c terms)) chunks in
  candidates ++ take (Z.to_nat (cap - zlen candidates)) found.

Definition lexical_overlap_candidates_for_project_scopes (scopes : list ProjectSearchScope) (query : string) (limit : Z)
    : Lane (list RankedChunk) :=
  let terms := lexical_overlap_terms query in
  if (limit =? 0) || negb (existsb (λ s, negb (is_none (ps_project_id s))) scopes) then mret []
  else if zlen terms <? 4 then mret []
  else
    let cap := clamp limit LEXICAL_OVERLAP_MAX_CANDIDATES (saturating_mul limit 20) in
    candidates ← each_scope (λ candidates scope,
      if is_none (ps_project_id scope) then mret candidates
      else scan_pages (scan_fuel LEXICAL_OVERLAP_PROJECT_SCAN_LIMIT) scope LEXICAL_OVERLAP_PROJECT_SCAN_LIMIT
             (λ candidates, cap <=? zlen candidates) (overlap_page scope terms cap) 0 candidates) [] scopes;
    mret (boosted LEXICAL_OVERLAP_SCORE_BOOST (rank_candidate_chunks candidates query limit)).

(** ** The candidates of a request *)

Record RepairInfo : Type := mkRepair {
  rp_attempted : bool;
  rp_repaired : bool;
  rp_original_query : string;
  rp_repaired_query : option string;
}.

Definition search_candidates (params : SearchParams) (scopes : list ProjectSearchScope) (fetch_k : Z)
    : Lane (list RankedChunk) :=
  let query := sq_query params in
  let k := sq_k params in
  scored ← lane_lift (search_with_scores_for_project_scopes scopes query fetch_k);
  exact ← exact_lexical_candidates_for_project_scopes scopes query (Z.min k fetch_k);
  preferred ← lane_lift (ln_preferred lanes (Z.min k 8));
  let merged := merge_preferred_and_raw preferred (merge_scored_chunk_lists [exact; scored] fetch_k) fetch_k in
  if should_run_lexical_overlap_rescue merged query k then
    lexical ← lexical_overlap_candidates_for_project_scopes scopes query (Z.min k fetch_k);
    mret (merge_scored_chunk_lists [lexical; merged] fetch_k)
  else mret merged.

(** The filters, and the second try when they leave nothing. *)
Definition search_filtered (params : SearchParams) (filters : ParsedSearchFilters) (scopes : list ProjectSearchScope)
    : Lane (list RankedChunk * option RepairInfo) :=
  let query := sq_query params in
  let cap := pre_visibility_cap params in
  let fetch_k := Z.min (Z.max (adaptive_fetch_k (sq_k params) query
                                 (has_active_search_filters (sq_project_id params) filters)) cap) 200 in
  merged ← search_candidates params scopes fetch_k;
  let scored := apply_search_filters merged None filters cap in
  '(scored, repair) ←
    match scored, normalize_query_for_repair query with
    | [], Some repaired_query =>
        if bool_decide (query = ""%string) then mret (scored, None)
        else
          repair_scored ← lane_lift (search_with_scores_for_project_scopes scopes repaired_query fetch_k);
          let repaired := apply_search_filters repair_scored None filters cap in
          mret (repaired, Some (mkRepair true (negb (bool_decide (repaired = []))) query (Some repaired_query)))
    | _, _ => mret (scored, None)
    end;
  mret (if bool_decide (default Generic (sq_mode params) = Generic)
        then suppress_generated_digest_projection_chunks scored else scored, repair).

(** ** The pool of the outcome policy *)

Record OutcomeRankedPool : Type := mkPool {
  op_base : list RankedChunk;
  op_served : list RankedChunk;
  op_adjustments : gmap ChunkId f32;
  op_shadow_ranks : gmap ChunkId Z;
  op_shadow_order_changed : bool;
}.

Definition adjustment_of (adjustments : gmap ChunkId f32) (c : RankedChunk) : f32 :=
  default f32_zero (adjustments !! mc_chunk_id c.1).

(** [.enumerate().map(|(rank, c)| (id, rank)).collect::<HashMap<_, _>>()] *)
Definition ranks_of (ids : list ChunkId) : gmap ChunkId Z :=
  foldl (λ m ic, <[ic.2 := ic.1]> m) ∅ (imap (λ i c, (Z.of_nat i, c)) ids).

Definition outcome_rank_candidate_pool (candidates : list RankedChunk) (policy_mode : RankingPolicyMode) (now_ms : Z)
    : Result OperationError OutcomeRankedPool :=
  match policy_mode with
  | PolicyServe =>
      Err (InvalidParams "ranking_policy=serve is not activated; pass shadow until the frozen longitudinal gate and rollback check pass")
  | PolicyOff => Ok (mkPool candidates candidates ∅ ∅ false)
  | PolicyShadow =>
      let ids := map (λ c : RankedChunk, mc_chunk_id c.1) candidates in
      priors ← tool_error (ln_priors lanes ids now_ms);
      let adjustments := foldl (λ m p, <[op_chunk_id p := bounded_adjustment p]> m) ∅ priors in
      let shadow := sort_by (score_desc (λ c : RankedChunk, f32_add c.2 (adjustment_of adjustments c)) newer_then_id)
                      candidates in
      let shadow_ids := map (λ c : RankedChunk, mc_chunk_id c.1) shadow in
      Ok (mkPool candidates candidates adjustments (ranks_of shadow_ids) (negb (bool_decide (ids = shadow_ids))))
  end.

End lanes.

(* ------------------------------------------------------------------ *)
(** ** The handler *)

(** What a search serves: the ranked chunks, the pool they come from, and
    what became of the second try. *)
Record SearchServed : Type := mkServed {
  ss_chunks : list RankedChunk;
  ss_pool : OutcomeRankedPool;
  ss_repair : option RepairInfo;
}.

Definition search_served (params : SearchParams) (pool : OutcomeRankedPool) : list RankedChunk :=
  let served := take (Z.to_nat (sq_k params))
    (if sq_dedupe_by_source params then dedupe_scored_chunks_by_source_uri (op_served pool) else op_served pool) in
  if sq_render_event_time params then render_observed_time_into_text served else served.

Section ops.
Context `{BO : ByteOrder} `{CRC : Crc32} `{RB : Roaring B} `{CAP : BufCap}.
Context `{BW : Bincode WalRecord} `{BM : Bincode SegmentMeta} `{JC : Json MemoryChunk}.
Context `{UU : Uuid ChunkId} `{UC : Unicode} `{TT : TaskTables TK} `{SHA : Sha256}.
Context `{SEG : UnicodeSegmentation} `{ET : ErrorText} `{AN : AlphaNumeric} `{ISO : IsoDatetime}.

Definition op_lane {A} (l : Lane A) : Op B TK A := r ← op_total l; op_lift r.

(** A failed lookup drops the candidate; a panic does not. *)
Fixpoint apply_visibility_filter (policy : VisibilityPolicy) (now_ms k : Z) (out ranked : list RankedChunk)
    : Op B TK (list RankedChunk) :=
  match ranked with
  | [] => mret out
  | (chunk, score) :: ranked =>
      if k <=? zlen out then mret out
      else λ st,
        match store_get_with_lifecycle (mc_tenant_id chunk) (mc_chunk_id chunk) st with
        | (Ok (Some r), st) =>
            apply_visibility_filter policy now_ms k
              (if is_visible_at policy (rc_status r) (rc_lifecycle r) now_ms then out ++ [(rc_chunk r, score)] else out)
              ranked st
        | (Ok None, st) | (Err (Failed _), st) => apply_visibility_filter policy now_ms k out ranked st
        | (Err Panicked, st) => (Err Panicked, st)
        end
  end.

(** The validation of a request. *)
Definition search_request (su : Surroundings) (params : SearchParams) : Result OperationError (TenantId * ParsedSearchFilters) :=
  t ← resolve_tenant_id su (sq_tenant_id params);
  _ ← invalid_params (ProjectId.validate_opt (sq_project_id params));
  _ ← validate_search_k (sq_k params);
  _ ← match sq_ranking_time_ms params with
      | Some ms => if ms <? 0 then Err (InvalidParams "ranking_time_ms must be non-negative") else Ok ()
      | None => Ok ()
      end;
  filters ← parse_search_filters (sq_filters params);
  Ok (t, filters).

(** [handle_memory_search] without tier debugging, up to the served chunks,
    with the clock of the visibility filter and of the outcome policy. *)
Definition handle_memory_search (su : Surroundings) (now_ms rank_ms : Z) (lanes : Lanes) (params : SearchParams)
    : Op B TK SearchServed :=
  '(t, filters) ← op_lift (search_request su params);
  scopes ← op_lift (ln_scopes lanes);
  '(candidates, repair) ← op_lane (search_filtered lanes params filters scopes);
  visible ← apply_visibility_filter (resolve_visibility_and_oversample params).1 now_ms (outcome_candidate_cap params) []
              candidates;
  pool ← op_lift (outcome_rank_candidate_pool lanes visible (default PolicyShadow (sq_ranking_policy params))
                    (default rank_ms (sq_ranking_time_ms params)));
  mret (mkServed (search_served params pool) pool repair).

End ops.

(* ------------------------------------------------------------------ *)
(** ** The episode of a search *)

(** [serde_json] on the scores of an item. *)
Class LaneScores : Type := { lane_scores_json : f32 → f32 → string }.

Definition RETRIEVAL_EPISODE_TTL_MS : Z := 7776000000.

Definition source_dedup_group `{SHA : Sha256} `{UC : Unicode} (chunk : MemoryChunk) : option string :=
  uri ← src_uri (mc_source chunk); if bool_decide (uri = ""%string) then None else Some (stable_query_hash uri).

Section episode.
Context `{SHA : Sha256} `{UC : Unicode} `{LS : LaneScores}.

Definition search_item (id : RetrievalEpisodeId) (pool : OutcomeRankedPool) (served_ranks : gmap ChunkId Z)
    (original_rank : nat) (c : RankedChunk) : RetrievalEpisodeItem :=
  let adjustment := adjustment_of (op_adjustments pool) c in
  let served_rank := served_ranks !! mc_chunk_id c.1 in
  mkItem id (mc_chunk_id c.1) (mc_tenant_id c.1) (mc_project_id c.1) (Z.of_nat original_rank) c.2
    (lane_scores_json c.2 adjustment) adjustment served_rank (op_shadow_ranks pool !! mc_chunk_id c.1)
    (negb (is_none served_rank)) (source_dedup_group c.1).

(** What [record_search_retrieval_episode] hands to the store; [rendered] are
    the ids of the results. *)
Definition search_episode (id : RetrievalEpisodeId) (created_at_ms : Z) (t : TenantId) (params : SearchParams)
    (pool : OutcomeRankedPool) (rendered : list ChunkId) : RetrievalEpisode * list RetrievalEpisodeItem :=
  let items := imap (search_item id pool (ranks_of rendered)) (op_base pool) in
  (mkEpisode id t (sq_project_id params) (stable_query_hash (sq_query params))
     (query_mode_name (default Generic (sq_mode params))) (sq_k params) (zlen items) (zlen rendered)
     OUTCOME_POLICY_VERSION (default PolicyShadow (sq_ranking_policy params)) (sq_task_id params) (sq_thread_id params)
     created_at_ms (Z.min 9223372036854775807 (created_at_ms + RETRIEVAL_EPISODE_TTL_MS)), items).

End episode.

(* ------------------------------------------------------------------ *)
(** ** What the lanes cannot bring in *)

Section lists.
Context {K A : Type} `{Countable K} (key : A → option K).

Lemma keep_new_sublist l : ∀ seen, keep_new key seen l `sublist_of` l.
Proof.
  induction l as [|a l IH]; intros seen; cbn; [done|]. destruct (key a) as [k|]; [case_bool_decide|];
    by constructor.
Qed.

(** No key is kept twice, and none that was seen before. *)
Lemma keep_new_keys l : ∀ seen,
  NoDup (omap key (keep_new key seen l)) ∧ ∀ k, k ∈ omap key (keep_new key seen l) → k ∉ seen.
Proof.
  induction l as [|a l IH]; intros seen; cbn [keep_new].
  { split; [constructor|]. intros k Hk. by apply elem_of_nil in Hk. }
  destruct (key a) as [k|] eqn:Ea; cbn; [|rewrite Ea; apply IH].
  case_bool_decide as Hin; [apply IH|]. cbn. rewrite Ea. destruct (IH ({[k]} ∪ seen)) as [Hnd Hns]. split.
  - constructor; [|done]. intros Hk. apply (Hns k) in Hk. set_solver.
  - intros k' [->|Hk']%elem_of_cons; [done|]. apply Hns in Hk'. set_solver.
Qed.

Lemma NoDup_omap_take n (l : list A) : NoDup (omap key l) → NoDup (omap key (take n l)).
Proof. rewrite <-(take_drop n l) at 1. rewrite omap_app. by intros [? _]%NoDup_app. Qed.

Lemma List_filter_sublist (f : A → bool) l : List.filter f l `sublist_of` l.
Proof. induction l as [|a l IH]; cbn; [done|]. destruct (f a); by constructor. Qed.

End lists.

(** The ids of a list of candidates. *)
Abbreviation ids_of := (map (λ c : RankedChunk, mc_chunk_id c.1)).

Lemma ids_of_omap l : omap scored_id l = ids_of l.
Proof. induction l as [|c l IH]; cbn; [done|]. by rewrite IH. Qed.

Lemma ids_of_sublist l k : l `sublist_of` k → NoDup (ids_of k) → NoDup (ids_of l).
Proof.
  intros Hs Hn. eapply sublist_NoDup; [exact Hn|]. clear Hn. induction Hs; cbn; by constructor.
Qed.

Lemma Forall_sublist {A} (P : A → Prop) l k : l `sublist_of` k → Forall P k → Forall P l.
Proof. induction 1; intros Hk; [done| |]; inversion Hk; subst; auto. Qed.

(** Candidates of the lanes, each once. *)
Record found (P : MemoryChunk → Prop) (l : list RankedChunk) : Prop := {
  fd_all : Forall (λ c, P c.1) l;
  fd_ids : NoDup (ids_of l);
}.

Lemma found_sublist P l k : l `sublist_of` k → found P k → found P l.
Proof. intros Hs [Ha Hn]. split; [by eapply Forall_sublist|by eapply ids_of_sublist]. Qed.

Lemma found_Permutation P l k : l ≡ₚ k → found P k → found P l.
Proof. intros Hp [Ha Hn]. split; by rewrite Hp. Qed.

Lemma found_keep_new P l : Forall (λ c : RankedChunk, P c.1) l → found P (keep_new scored_id ∅ l).
Proof.
  intros Ha. split; [eapply Forall_sublist; [apply keep_new_sublist|done]|].
  rewrite <-ids_of_omap. apply keep_new_keys.
Qed.

Lemma found_merge P lists limit :
  Forall (Forall (λ c : RankedChunk, P c.1)) lists → found P (merge_scored_chunk_lists lists limit).
Proof.
  intros Ha. unfold merge_scored_chunk_lists. eapply found_sublist; [apply sublist_take|]. apply found_keep_new.
  rewrite sort_by_Permutation. induction Ha; cbn; [done|]. by apply Forall_app.
Qed.

Lemma found_preferred P preferred raw limit :
  Forall (λ c : RankedChunk, P c.1) preferred → Forall (λ c : RankedChunk, P c.1) raw →
  found P (merge_preferred_and_raw preferred raw limit).
Proof.
  intros Hp Hr. unfold merge_preferred_and_raw. eapply found_sublist; [apply sublist_take|].
  eapply found_Permutation; [apply sort_by_Permutation|]. apply found_keep_new, Forall_app. split; [|done].
  rewrite Forall_map. exact Hp.
Qed.

(** The steps of a lane end, and what they give satisfies [Q]. *)
Definition lane_ok {A} (m : Lane A) (Q : A → Prop) : Prop := ∃ r, m = Some r ∧ ∀ a, r = Ok a → Q a.

Lemma lane_ok_ret {A} (a : A) (Q : A → Prop) : Q a → lane_ok (mret a) Q.
Proof. intros HQ. exists (Ok a). split; [done|]. by intros ? [= <-]. Qed.

Lemma lane_ok_lift {A} (r : Result OperationError A) (Q : A → Prop) : (∀ a, r = Ok a → Q a) → lane_ok (lane_lift r) Q.
Proof. intros HQ. by exists r. Qed.

Lemma lane_ok_bind {A C} (m : Lane A) (f : A → Lane C) (Q : A → Prop) (R : C → Prop) :
  lane_ok m Q → (∀ a, Q a → lane_ok (f a) R) → lane_ok (m ≫= f) R.
Proof.
  intros (r & -> & HQ) Hf. unfold mbind, lane_bind. destruct r as [a|e]; [by apply Hf, HQ|].
  exists (Err e). by split.
Qed.

Section lane_facts.
Context `{UC : Unicode} `{AN : AlphaNumeric} `{ET : ErrorText}.
Variable P : MemoryChunk → Prop.
Variable lanes : Lanes.

(** Whatever the lanes find satisfies [P]. *)
Record lanes_give : Prop := {
  lg_search t query k l : ln_search lanes t query k = Ok l → Forall (λ c : RankedChunk, P c.1) l;
  lg_list scope limit offset l : ln_list lanes scope limit offset = Ok l → Forall P l;
  lg_preferred k l : ln_preferred lanes k = Ok l → Forall (λ c : RankedChunk, P c.1) l;
}.
Hypothesis give : lanes_give.

Abbreviation all_found l := (Forall (λ c : RankedChunk, P c.1) l).

Lemma scopes_found scopes query fetch_k l :
  search_with_scores_for_project_scopes lanes scopes query fetch_k = Ok l → found P l.
Proof using give.
  unfold search_with_scores_for_project_scopes. unfold mbind at 1, result_bind at 1.
  match goal with |- match try_fold ?f _ _ with _ => _ end = _ → _ =>
    assert (Hinv : ∀ lists, try_fold f scopes [] = Ok lists → Forall (λ l, all_found l) lists)
  end.
  { intros lists. apply (try_fold_inv _ (λ lists, Forall (λ l, all_found l) lists)); [|constructor].
    intros acc scope acc' _ Ha. unfold mbind, result_bind.
    destruct (ln_search lanes (ps_tenant_id scope) query fetch_k) as [scored|e] eqn:E; cbn; [|done].
    intros [= <-]. apply Forall_app. split; [done|]. apply Forall_singleton.
    eapply Forall_sublist; [apply List_filter_sublist|]. by eapply lg_search. }
  destruct (try_fold _ scopes []) as [lists|e]; [|done]. intros [= <-]. by apply found_merge, Hinv.
Qed.

(** The scan of the pages ends within its fuel. *)
Lemma scan_pages_ok {A} (I : A → Prop) scope limit stop (f : A → list MemoryChunk → A) :
  (∀ acc chunks, I acc → Forall P chunks → I (f acc chunks)) →
  ∀ fuel scanned acc, I acc → (Z.to_nat (limit - scanned) < fuel)%nat →
  lane_ok (scan_pages lanes fuel scope limit stop f scanned acc) I.
Proof using give.
  intros Hf. induction fuel as [|fuel IH]; intros scanned acc Hacc Hfuel; [lia|]. cbn [scan_pages].
  destruct ((limit <=? scanned) || stop acc) eqn:Estop; [by apply lane_ok_ret|].
  apply orb_false_iff in Estop as [Hlim%Z.leb_gt _].
  destruct (ln_list lanes scope (Z.min EXACT_RESCUE_PAGE_SIZE (limit - scanned)) scanned) as [[|chunk chunks]|e] eqn:E; cbn [tool_error map_err].
  - by apply lane_ok_ret.
  - apply IH; [|unfold EXACT_RESCUE_PAGE_SIZE; lia]. apply Hf; [done|]. by eapply lg_list.
  - eexists. by split.
Qed.

Lemma each_scope_ok {A} (I : A → Prop) (f : A → ProjectSearchScope → Lane A) :
  (∀ acc scope, I acc → lane_ok (f acc scope) I) → ∀ scopes acc, I acc → lane_ok (each_scope f acc scopes) I.
Proof using.
  intros Hf. induction scopes as [|scope scopes IH]; intros acc Hacc; cbn [each_scope]; [by apply lane_ok_ret|].
  eapply lane_ok_bind; [by apply Hf|]. apply IH.
Qed.

Lemma boosted_found by_score l : all_found l → all_found (boosted by_score l).
Proof using. unfold boosted. rewrite Forall_map. done. Qed.

Lemma exact_page_found scope terms query limit chunks candidates :
  all_found candidates → Forall P chunks → all_found (exact_page scope terms query limit candidates chunks).
Proof using.
  unfold exact_page. intros Hc Hch.
  assert (Hfil : Forall P (List.filter (λ c, scope_covers scope c && chunk_contains_exact_rescue_term c terms) chunks))
    by (eapply Forall_sublist; [apply List_filter_sublist|done]).
  revert candidates Hc. induction Hfil as [|chunk l Hp _ IH]; intros candidates Hc; cbn [foldl]; [done|]. apply IH.
  unfold retain_exact_rescue_candidate. destruct (f32_le _ _); [done|].
  eapply Forall_sublist; [apply sublist_take|]. rewrite sort_by_Permutation. apply Forall_app. split; [done|].
  by apply Forall_singleton.
Qed.

Lemma exact_ok scopes query limit :
  lane_ok (exact_lexical_candidates_for_project_scopes lanes scopes query limit) (λ l, all_found l).
Proof using give.
  unfold exact_lexical_candidates_for_project_scopes. destruct (_ || _); [by apply lane_ok_ret|].
  eapply lane_ok_bind; [|intros l Hl; apply lane_ok_ret; by apply boosted_found].
  apply (each_scope_ok (λ l, all_found l)); [|done]. intros acc scope Hacc.
  apply (scan_pages_ok (λ l, all_found l)); [|done|unfold scan_fuel; lia]. intros. by apply exact_page_found.
Qed.

Lemma overlap_ok scopes query limit :
  lane_ok (lexical_overlap_candidates_for_project_scopes lanes scopes query limit) (λ l, all_found l).
Proof using give.
  unfold lexical_overlap_candidates_for_project_scopes. destruct (_ || _); [by apply lane_ok_ret|].
  destruct (_ <? 4); [by apply lane_ok_ret|].
  eapply lane_ok_bind; [apply (each_scope_ok (Forall P)); [|done]|].
  - intros acc scope Hacc. destruct (is_none _); [by apply lane_ok_ret|].
    apply (scan_pages_ok (Forall P)); [|done|unfold scan_fuel; lia]. intros acc' chunks Ha Hch. unfold overlap_page.
    apply Forall_app. split; [done|]. eapply Forall_sublist; [apply sublist_take|].
    eapply Forall_sublist; [apply List_filter_sublist|done].
  - intros candidates Hc. apply lane_ok_ret, boosted_found. unfold rank_candidate_chunks.
    eapply Forall_sublist; [apply sublist_take|].
    assert (Hs : all_found (sort_by compare_scored_chunks (map (λ chunk, (chunk, score_candidate_chunk query chunk)) candidates)))
      by (rewrite sort_by_Permutation, Forall_map; exact Hc).
    case_bool_decide; [done|]. by eapply Forall_sublist; [apply List_filter_sublist|].
Qed.

Lemma candidates_ok params scopes fetch_k : lane_ok (search_candidates lanes params scopes fetch_k) (found P).
Proof using give.
  unfold search_candidates. eapply lane_ok_bind; [apply lane_ok_lift, scopes_found|]. intros scored Hs.
  eapply lane_ok_bind; [apply exact_ok|]. intros exact Hx.
  eapply lane_ok_bind; [apply lane_ok_lift, lg_preferred, give|]. intros preferred Hp.
  assert (Hm : found P (merge_preferred_and_raw preferred (merge_scored_chunk_lists [exact; scored] fetch_k) fetch_k)).
  { apply found_preferred; [done|]. apply found_merge. repeat constructor; [done|apply Hs]. }
  destruct (should_run_lexical_overlap_rescue _ _ _); [|by apply lane_ok_ret].
  eapply lane_ok_bind; [apply overlap_ok|]. intros lexical Hl. apply lane_ok_ret, found_merge.
  repeat constructor; [done|apply Hm].
Qed.

(** Every candidate satisfies [P] and passes the filters, none comes twice,
    they are not more than the bound, and a generic search drops the generated
    digests. *)
Record filtered (params : SearchParams) (filters : ParsedSearchFilters) (l : list RankedChunk) : Prop := {
  fl_found : found P l;
  fl_passes : Forall (λ c : RankedChunk, passes_filters None filters c.1 = true) l;
  fl_bound : zlen l ≤ Z.max 0 (pre_visibility_cap params);
  fl_digest : default Generic (sq_mode params) = Generic → Forall (λ c : RankedChunk, is_generated_digest_projection_chunk c.1 = false) l;
}.

Lemma List_filter_Forall {A} (f : A → bool) l : Forall (λ a, f a = true) (List.filter f l).
Proof using. apply Forall_forall. intros a [_ Ha]%elem_of_List_filter. done. Qed.

Lemma filters_found l filters cap :
  found P l → let l' := apply_search_filters l None filters cap in
  found P l' ∧ Forall (λ c : RankedChunk, passes_filters None filters c.1 = true) l' ∧ zlen l' ≤ Z.max 0 cap.
Proof using.
  intros Hl l'. subst l'. unfold apply_search_filters. split_and!.
  - eapply found_sublist; [apply sublist_take|]. by eapply found_sublist; [apply List_filter_sublist|].
  - eapply Forall_sublist; [apply sublist_take|]. apply List_filter_Forall.
  - unfold zlen. rewrite length_take. lia.
Qed.

Lemma filtered_ok params filters scopes :
  lane_ok (search_filtered lanes params filters scopes) (λ r, filtered params filters r.1).
Proof using give.
  unfold search_filtered. eapply lane_ok_bind; [apply candidates_ok|]. intros merged Hm.
  destruct (filters_found merged filters (pre_visibility_cap params) Hm) as (Hf & Hp & Hb).
  eapply lane_ok_bind with (Q := λ r, found P r.1 ∧ Forall (λ c : RankedChunk, passes_filters None filters c.1 = true) r.1 ∧
                                      zlen r.1 ≤ Z.max 0 (pre_visibility_cap params)).
  - destruct (apply_search_filters merged None filters _) as [|c l]; [|by apply lane_ok_ret].
    destruct (normalize_query_for_repair _) as [repaired_query|]; [|by apply lane_ok_ret].
    case_bool_decide; [by apply lane_ok_ret|].
    eapply lane_ok_bind; [apply lane_ok_lift, scopes_found|]. intros repair_scored Hr. apply lane_ok_ret.
    by apply filters_found.
  - intros [scored repair] (Hf' & Hp' & Hb'). apply lane_ok_ret. cbn [fst] in *.
    case_bool_decide as Hmode; [|by split]. unfold suppress_generated_digest_projection_chunks. split.
    + by eapply found_sublist; [apply List_filter_sublist|].
    + by eapply Forall_sublist; [apply List_filter_sublist|].
    + etrans; [|exact Hb']. unfold zlen. apply inj_le, sublist_length, List_filter_sublist.
    + intros _. eapply Forall_impl; [apply List_filter_Forall|]. intros c Hc. by apply negb_true_iff.
Qed.

End lane_facts.

(* ------------------------------------------------------------------ *)
(** ** What a search serves *)

Section served.
Context `{BOL : ByteOrderLaws} `{CRL : Crc32Laws} `{RBL : RoaringLaws B}.
Context `{BWL : BincodeLaws WalRecord} `{JCL : JsonLaws MemoryChunk}.
Context `{UUL : UuidLaws ChunkId} `{TT : TaskTables TK}.
Context `{CAP : BufCap} `{BM : Bincode SegmentMeta} `{UC : Unicode} `{SHA : Sha256}.
Context `{SEG : UnicodeSegmentation} `{ET : ErrorText} `{DH : DefaultHasher} `{AN : AlphaNumeric} `{ISO : IsoDatetime}.
Implicit Types s : St B TK.

Variable t : TenantId.
Hypothesis tenant_valid : TenantId.validate (TenantId.as_str t) = Ok ().

Lemma holds_keys s M c chunk lc :
  holds t s M → M !! c = Some (chunk, lc) → mc_chunk_id chunk = c ∧ mc_tenant_id chunk = t.
Proof using All.
  intros [(G & rs & ads & _ & HG & HA) _] Hc. specialize (HA c). rewrite lookup_fmap, Hc in HA. cbn in HA.
  unfold chunk_view in HA. destruct (get t c (db_of s)) as [m|]; [|done]. cbn in HA.
  destruct (G !! c) as [p|] eqn:Ep; [|done]. cbn in HA. destruct (HG c p Ep) as (_ & chunk' & Hj & Hid & Ht & _).
  rewrite Hj in HA. cbn in HA. injection HA as ->. by destruct chunk'.
Qed.

(** The stored chunk of a candidate, if the policy shows it. *)
Definition visible_of (policy : VisibilityPolicy) (now_ms : Z) (M : TenantMap) (c : RankedChunk) : option RankedChunk :=
  '(chunk, lifecycle) ← M !! mc_chunk_id c.1;
  if is_visible_at policy (mc_status chunk) lifecycle now_ms then Some (chunk, c.2) else None.

Lemma visibility_answers policy now_ms k ranked : ∀ out s u M,
  holds t s M → Forall (λ c : RankedChunk, mc_tenant_id c.1 = t) ranked → zlen out ≤ k →
  ∃ s', apply_visibility_filter policy now_ms k out ranked (mkOp (PersistentTenant s) u)
      = (Ok (take (Z.to_nat k) (out ++ omap (visible_of policy now_ms M) ranked)), mkOp (PersistentTenant s') u) ∧
    holds t s' M.
Proof using All.
  induction ranked as [|[chunk score] ranked IH]; intros out s u M Hh Hr Hk; cbn [apply_visibility_filter].
  { exists s. cbn. rewrite app_nil_r, take_ge; [done|]. unfold zlen in Hk. lia. }
  apply Forall_cons in Hr as [Ht Hr]. cbn [fst] in Ht. destruct (k <=? zlen out) eqn:Ek.
  { apply Z.leb_le in Ek. exists s. rewrite take_app_le, take_ge; [done|unfold zlen in *; lia..]. }
  apply Z.leb_gt in Ek. rewrite Ht. destruct (store_resolves t tenant_valid (mc_chunk_id chunk) s u M Hh) as (s1 & -> & Hh1).
  cbn [omap list_omap]. unfold visible_of at 1. cbn [fst snd].
  destruct (M !! mc_chunk_id chunk) as [[chunk' lc]|]; cbn; [|by apply IH].
  destruct (is_visible_at _ _ _ _); [|by apply IH].
  destruct (IH (out ++ [(chunk', score)]) s1 u M Hh1 Hr) as (s' & E & Hh').
  { unfold zlen in *. rewrite length_app. cbn. lia. }
  exists s'. split; [|done]. rewrite E. by rewrite <-app_assoc.
Qed.

(** The candidates that the policy shows, up to the bound of the pool. *)
Definition shown_candidates (params : SearchParams) (now_ms : Z) (M : TenantMap) (candidates : list RankedChunk)
    : list RankedChunk :=
  take (Z.to_nat (outcome_candidate_cap params))
    (omap (visible_of (resolve_visibility_and_oversample params).1 now_ms M) candidates).

Definition spec_search (now_ms rank_ms : Z) (lanes : Lanes) (params : SearchParams) (M : TenantMap)
    (found : Result OperationError (list RankedChunk * option RepairInfo)) : Result OperationError SearchServed :=
  '(candidates, repair) ← found;
  pool ← outcome_rank_candidate_pool lanes (shown_candidates params now_ms M candidates)
           (default PolicyShadow (sq_ranking_policy params)) (default rank_ms (sq_ranking_time_ms params));
  Ok (mkServed (search_served params pool) pool repair).

(** A chunk of the tenant that the policy shows, for a candidate that passes
    the filters. *)
Definition from_tenant (params : SearchParams) (filters : ParsedSearchFilters) (now_ms : Z) (M : TenantMap) (chunk : MemoryChunk)
    : Prop :=
  ∃ lifecycle candidate,
    M !! mc_chunk_id chunk = Some (chunk, lifecycle) ∧
    is_visible_at (resolve_visibility_and_oversample params).1 (mc_status chunk) lifecycle now_ms = true ∧
    mc_chunk_id candidate = mc_chunk_id chunk ∧ passes_filters None filters candidate = true ∧
    (default Generic (sq_mode params) = Generic → is_generated_digest_projection_chunk candidate = false).

Record served_well (params : SearchParams) (filters : ParsedSearchFilters) (now_ms : Z) (M : TenantMap) (served : SearchServed)
    : Prop := {
  sv_bound : zlen (ss_chunks served) ≤ sq_k params;
  sv_ids : NoDup (ids_of (ss_chunks served));
  sv_sources : sq_dedupe_by_source params = true → NoDup (omap source_key (ss_chunks served));
  sv_stored : Forall (λ c : RankedChunk, ∃ chunk, from_tenant params filters now_ms M chunk ∧
    c.1 = if sq_render_event_time params then with_observed_time chunk else chunk) (ss_chunks served);
  sv_shadow : op_served (ss_pool served) = op_base (ss_pool served);
  sv_pool : NoDup (ids_of (op_base (ss_pool served))) ∧ zlen (op_base (ss_pool served)) ≤ 200;
}.

Lemma visible_ids policy now_ms s M l :
  holds t s M → ids_of (omap (visible_of policy now_ms M) l) `sublist_of` ids_of l.
Proof using All.
  intros Hh. induction l as [|c l IH]; [done|]. cbn [omap list_omap map]. unfold visible_of at 1.
  destruct (M !! mc_chunk_id c.1) as [[chunk lc]|] eqn:E; cbn; [|by constructor].
  destruct (is_visible_at _ _ _ _); [|by constructor]. cbn. rewrite (proj1 (holds_keys s M _ _ _ Hh E)). by constructor.
Qed.

Lemma shown_found P s M params filters now_ms candidates :
  holds t s M → filtered P params filters candidates →
  let shown := shown_candidates params now_ms M candidates in
  NoDup (ids_of shown) ∧ Forall (λ c : RankedChunk, from_tenant params filters now_ms M c.1) shown.
Proof using All.
  intros Hh [[_ Hnd] Hp _ Hd] shown. subst shown. unfold shown_candidates. split.
  - eapply ids_of_sublist; [apply sublist_take|]. eapply sublist_NoDup; [exact Hnd|by eapply visible_ids].
  - eapply Forall_sublist; [apply sublist_take|]. apply Forall_forall. intros [chunk score] Hin.
    apply list_elem_of_omap in Hin as (c & Hc & Hv). unfold visible_of in Hv.
    destruct (M !! mc_chunk_id c.1) as [[chunk' lc]|] eqn:E; [|done]. cbn in Hv.
    destruct (is_visible_at _ _ _ _) eqn:Ev; [|done]. injection Hv as -> <-. cbn [fst].
    pose proof (proj1 (holds_keys s M _ _ _ Hh E)) as Hid. exists lc, c.1. rewrite Hid. split_and!; [done..| |].
    + rewrite Forall_forall in Hp. by apply Hp.
    + intros Hmode. specialize (Hd Hmode). rewrite Forall_forall in Hd. by apply Hd.
Qed.

Lemma pool_exact lanes candidates mode ms pool :
  outcome_rank_candidate_pool lanes candidates mode ms = Ok pool → op_base pool = candidates ∧ op_served pool = candidates.
Proof using.
  unfold outcome_rank_candidate_pool. destruct mode; [by intros [= <-]| |done].
  unfold mbind, result_bind. destruct (tool_error _); [|done]. by intros [= <-].
Qed.

Lemma served_from pool params filters now_ms M :
  op_base pool = op_served pool → 1 ≤ sq_k params → NoDup (ids_of (op_base pool)) → zlen (op_base pool) ≤ 200 →
  Forall (λ c : RankedChunk, from_tenant params filters now_ms M c.1) (op_base pool) →
  ∀ repair, served_well params filters now_ms M (mkServed (search_served params pool) pool repair).
Proof using.
  intros Hpool Hk Hnd Hlen Hfrom repair. rewrite Hpool in Hnd, Hlen, Hfrom.
  set (top := take (Z.to_nat (sq_k params))
                (if sq_dedupe_by_source params then dedupe_scored_chunks_by_source_uri (op_served pool) else op_served pool)).
  assert (Htop : top `sublist_of` op_served pool).
  { unfold top. etrans; [apply sublist_take|]. destruct (sq_dedupe_by_source params); [apply keep_new_sublist|done]. }
  assert (Hser : search_served params pool = map (λ c : RankedChunk,
            (if sq_render_event_time params then with_observed_time c.1 else c.1, c.2)) top).
  { unfold search_served. fold top. destruct (sq_render_event_time params); [done|].
    rewrite <-(map_id top) at 1. apply map_ext. by intros []. }
  assert (Hkept : ∀ c : MemoryChunk, mc_chunk_id (with_observed_time c) = mc_chunk_id c ∧
                    mc_source (with_observed_time c) = mc_source c).
  { intros c. unfold with_observed_time. by destruct (mc_timestamp_observed c). }
  split; cbn [ss_chunks ss_pool]; rewrite ?Hser.
  - unfold zlen. rewrite length_map. unfold top. rewrite length_take. lia.
  - rewrite map_map. cbn. eapply ids_of_sublist in Htop; [|exact Hnd]. erewrite map_ext; [exact Htop|].
    intros c. destruct (sq_render_event_time params); [apply Hkept|done].
  - intros Hd. unfold top. rewrite Hd.
    assert (Hkeys : ∀ l, omap source_key (map (λ c : RankedChunk,
               (if sq_render_event_time params then with_observed_time c.1 else c.1, c.2)) l) = omap source_key l).
    { induction l as [|c l IH]; [done|]. cbn [map omap list_omap]. rewrite IH. unfold source_key at 1 3. cbn [fst].
      destruct (sq_render_event_time params); [by rewrite (proj2 (Hkept c.1))|done]. }
    rewrite Hkeys. apply NoDup_omap_take. apply keep_new_keys.
  - rewrite Forall_map. cbn. eapply Forall_impl; [by eapply Forall_sublist|]. intros c Hc. by exists c.1.
  - by symmetry.
  - by rewrite Hpool.
Qed.

Lemma search_request_k su params r : search_request su params = Ok r → 1 ≤ sq_k params ≤ 100.
Proof using.
  unfold search_request, validate_search_k, mbind, result_bind. destruct (resolve_tenant_id su _); [|done].
  destruct (invalid_params _); [|done]. destruct ((1 <=? sq_k params) && (sq_k params <=? 100)) eqn:E; [|done].
  intros _. apply andb_true_iff in E as [?%Z.leb_le ?%Z.leb_le]. done.
Qed.

(** C21: memory.search on a persistent store that holds the tenant.  When the
    request is accepted and the lanes find chunks of the tenant, the search of
    the candidates ends, its pages within their bounds, with the failure of a
    lane or with candidates; the handler then answers what the tenant decides
    for them, and the store still holds the tenant.  An answer serves at most
    [k] chunks, each once and, when asked, one per source; every one of them is
    stored as it is now, visible under the policy of the request at that time,
    and was found for a candidate that passes the filters and is no generated
    digest in a generic search; the shadow ranks of the outcome policy do not
    change the order served. *)
Theorem memory_search_exact su now_ms rank_ms lanes params s u M filters scopes :
  holds t s M → lanes_give (λ chunk, mc_tenant_id chunk = t) lanes →
  search_request su params = Ok (t, filters) → ln_scopes lanes = Ok scopes →
  ∃ found s', search_filtered lanes params filters scopes = Some found ∧
    let answer := spec_search now_ms rank_ms lanes params M found in
    handle_memory_search su now_ms rank_ms lanes params (mkOp (PersistentTenant s) u)
      = (map_err Failed answer, mkOp (PersistentTenant s') u) ∧
    holds t s' M ∧ ∀ served, answer = Ok served → served_well params filters now_ms M served.
Proof using All.
  intros Hh Hl Hreq Hsc.
  destruct (filtered_ok (λ chunk, mc_tenant_id chunk = t) lanes Hl params filters scopes) as (found & Ef & Hf).
  exists found. unfold handle_memory_search, spec_search, mbind, op_bind, result_bind, op_lift.
  rewrite Hreq. cbn [map_err]. rewrite Hsc. cbn [map_err]. unfold op_lane, mbind, op_bind, op_total, op_lift.
  rewrite Ef. cbn [ok_or]. destruct found as [[candidates repair]|e]; cbn [map_err]; [|by exists s].
  specialize (Hf _ eq_refl). cbn [fst] in Hf.
  destruct (visibility_answers (resolve_visibility_and_oversample params).1 now_ms (outcome_candidate_cap params) candidates [] s u M Hh)
    as (s' & E & Hh'); [apply Hf|apply search_request_k in Hreq; unfold zlen, outcome_candidate_cap, clamp; cbn [length]; lia|].
  exists s'. split; [done|]. rewrite E. cbn [app]. fold (shown_candidates params now_ms M candidates).
  destruct (outcome_rank_candidate_pool _ _ _ _) as [pool|e] eqn:Ep; cbn [map_err]; [|by split_and!].
  split_and!; [done..|]. intros served [= <-]. apply pool_exact in Ep as [Eb Es].
  destruct (shown_found _ s M params filters now_ms candidates Hh Hf) as [Hnd Hfrom].
  apply search_request_k in Hreq. apply served_from; rewrite ?Eb, ?Es; [done|lia|done| |done].
  unfold shown_candidates, zlen, outcome_candidate_cap, clamp. rewrite length_take. lia.
Qed.

End served.

(* ------------------------------------------------------------------ *)
(** ** The episode is one the store accepts *)

Lemma ranks_of_snoc ids c : ranks_of (ids ++ [c]) = <[c := Z.of_nat (length ids)]> (ranks_of ids).
Proof. unfold ranks_of. rewrite imap_app, foldl_app. cbn. by rewrite Nat.add_0_r. Qed.

Lemma ranks_of_lookup ids c r :
  NoDup ids → ranks_of ids !! c = Some r ↔ ∃ i, r = Z.of_nat i ∧ ids !! i = Some c.
Proof.
  induction ids as [|d ids IH] using rev_ind; intros Hnd.
  { split; [done|]. by intros (? & _ & ?). }
  apply NoDup_app in Hnd as (Hnd & Hd & _). rewrite ranks_of_snoc. destruct (decide (c = d)) as [->|Hne].
  - rewrite lookup_insert_eq. split.
    + intros [= <-]. eexists. split; [done|]. by apply list_lookup_middle.
    + intros (i & -> & [Hi|[Hi Hd']]%lookup_app_Some).
      * destruct (Hd d); [by eapply list_elem_of_lookup_2|by left].
      * apply list_lookup_singleton_Some in Hd' as [Hd' _]. f_equal. lia.
  - rewrite lookup_insert_ne, IH by done. split; intros (i & -> & Hi); exists i; (split; [done|]).
    + by apply lookup_app_l_Some.
    + apply lookup_app_Some in Hi as [Hi|[_ [_ Hi]%list_lookup_singleton_Some]]; [done|congruence].
Qed.

Lemma ranks_of_some ids c : NoDup ids → is_Some (ranks_of ids !! c) ↔ c ∈ ids.
Proof.
  intros Hnd. split.
  - intros [r (i & _ & Hi)%ranks_of_lookup]; [|done]. by eapply list_elem_of_lookup_2.
  - intros [i Hi]%list_elem_of_lookup_1. exists (Z.of_nat i). apply ranks_of_lookup; [done|]. by exists i.
Qed.

Lemma ranks_of_inj ids c d r : NoDup ids → ranks_of ids !! c = Some r → ranks_of ids !! d = Some r → c = d.
Proof.
  intros Hnd (i & Er & Hi)%ranks_of_lookup (j & Er' & Hj)%ranks_of_lookup; [|done..].
  assert (i = j) as -> by lia. congruence.
Qed.

Lemma NoDup_omap_partial {A C} (f : A → option C) l :
  (∀ x y k, f x = Some k → f y = Some k → x = y) → NoDup l → NoDup (omap f l).
Proof.
  intros Hinj. induction 1 as [|x l Hx _ IH]; cbn; [constructor|]. destruct (f x) as [k|] eqn:E; [|done].
  constructor; [|done]. intros (y & Hy & Ey)%list_elem_of_omap. by rewrite (Hinj x y k) in Hx.
Qed.

(** The ranks in a list without repetition, of other ids each once. *)
Lemma ranks_NoDup ids l : NoDup ids → NoDup l → NoDup (omap (λ c, ranks_of ids !! c) l).
Proof. intros Hids. apply NoDup_omap_partial. intros x y k. by apply ranks_of_inj. Qed.

Section indexed.
Context {A C D : Type}.
Lemma map_imap (h : C → D) (g : nat → A → C) (h' : A → D) l :
  (∀ i a, h (g i a) = h' a) → map h (imap g l) = map h' l.
Proof. intros Hh. revert g Hh. induction l as [|a l IH]; intros g Hh; [done|]. rewrite imap_cons. cbn. rewrite Hh, (IH (g ∘ S)); [done|]. intros i b. by apply Hh. Qed.

Lemma omap_imap (h : C → option D) (g : nat → A → C) (h' : A → option D) l :
  (∀ i a, h (g i a) = h' a) → omap h (imap g l) = omap h' l.
Proof.
  intros Hh. revert g Hh. induction l as [|a l IH]; intros g Hh; [done|]. rewrite imap_cons.
  cbn [omap list_omap]. rewrite Hh, (IH (g ∘ S)); [done|]. intros i b. by apply Hh.
Qed.

Lemma length_filter_imap (h : C → bool) (g : nat → A → C) (h' : A → bool) l :
  (∀ i a, h (g i a) = h' a) → length (List.filter h (imap g l)) = length (List.filter h' l).
Proof.
  intros Hh. revert g Hh. induction l as [|a l IH]; intros g Hh; [done|]. rewrite imap_cons. cbn [List.filter].
  rewrite Hh. destruct (h' a); cbn [length]; rewrite (IH (g ∘ S)); try done; intros i b; by apply Hh.
Qed.

Lemma map_imap_index (h : C → Z) (g : nat → A → C) l :
  (∀ i a, h (g i a) = Z.of_nat i) → map h (imap g l) = map Z.of_nat (seq 0 (length l)).
Proof.
  intros Hh. assert (Hs : ∀ l n (g : nat → A → C), (∀ i a, h (g i a) = Z.of_nat (n + i)) →
                       map h (imap g l) = map Z.of_nat (seq n (length l))); [|by apply Hs].
  clear. induction l as [|a l IH]; intros n g Hh; [done|]. rewrite imap_cons. cbn. rewrite Hh, Nat.add_0_r. f_equal.
  apply IH. intros i b. unfold compose. rewrite Hh. f_equal. lia.
Qed.

Lemma omap_map (f : C → option D) (g : A → C) l : omap f (map g l) = omap (λ a, f (g a)) l.
Proof. induction l as [|a l IH]; [done|]. cbn. by rewrite IH. Qed.

Lemma filter_map_length (f : C → bool) (g : A → C) l : length (List.filter f (map g l)) = length (List.filter (λ a, f (g a)) l).
Proof. induction l as [|a l IH]; [done|]. cbn. destruct (f (g a)); cbn; by rewrite IH. Qed.
End indexed.

Section episode_facts.
Context `{SHA : Sha256} `{UC : Unicode} `{LS : LaneScores} `{JT : JsonText} `{ET : ErrorText}.

Lemma mode_named m : str_trim (query_mode_name m) ≠ ""%string.
Proof. by destruct m. Qed.

Lemma ttl_later now : now < 9223372036854775807 → now < Z.min 9223372036854775807 (now + RETRIEVAL_EPISODE_TTL_MS).
Proof. unfold RETRIEVAL_EPISODE_TTL_MS. lia. Qed.

(** The shadow ranks are those of some order without repetition. *)
Lemma pool_shadow lanes candidates mode ms pool :
  outcome_rank_candidate_pool lanes candidates mode ms = Ok pool → NoDup (ids_of candidates) →
  ∃ ids, op_shadow_ranks pool = ranks_of ids ∧ NoDup ids.
Proof.
  unfold outcome_rank_candidate_pool. destruct mode; [| |done].
  - intros [= <-] _. exists []. split; [done|constructor].
  - unfold mbind, result_bind. destruct (tool_error _); [|done]. intros [= <-] Hnd. cbn.
    eexists. split; [done|]. by rewrite sort_by_Permutation.
Qed.

Lemma served_count ids rendered :
  NoDup ids → NoDup rendered → rendered ⊆ ids →
  length (List.filter (λ c, negb (is_none (ranks_of rendered !! c))) ids) = length rendered.
Proof.
  intros Hids Hr Hsub. apply Permutation_length, NoDup_Permutation; [|done|].
  - eapply sublist_NoDup; [exact Hids|apply List_filter_sublist].
  - intros c. rewrite elem_of_List_filter, <-(ranks_of_some rendered c Hr).
    split.
    + intros [_ Hc]. by destruct (ranks_of rendered !! c).
    + intros Hc. pose proof Hc as Hin%ranks_of_some; [|done]. split; [by apply Hsub|]. by destruct Hc as [? ->].
Qed.

(** C22: the episode that a search records of a pool and of what it rendered
    is one that the store accepts, when the scores are finite, unless the request names a task or a thread
    that a reference may not be, empty or of more than 512 bytes: the only
    check of [validate_retrieval_episode] that the search does not make before
    it answers.  The items are the candidates in their order, and a rendered
    chunk carries its place in the answer. *)
Theorem search_episode_valid lanes candidates ms id created_at_ms t params pool rendered :
  outcome_rank_candidate_pool lanes candidates (default PolicyShadow (sq_ranking_policy params)) ms = Ok pool →
  NoDup (ids_of candidates) → zlen candidates ≤ 200 → sq_k params ≤ 100 →
  Forall (λ c : RankedChunk, is_finite c.2 = true ∧ is_finite (adjustment_of (op_adjustments pool) c) = true) candidates →
  NoDup rendered → rendered ⊆ ids_of candidates →
  (∀ query, zstrlen (sha256_hex query) = 64 ∧ string_all is_ascii_hexdigit (sha256_hex query) = true) →
  (∀ x y, is_finite x = true → is_finite y = true →
     zstrlen (lane_scores_json x y) ≤ 4096 ∧ json_text_is_object (lane_scores_json x y) = true) →
  created_at_ms < 9223372036854775807 →
  let '(e, items) := search_episode id created_at_ms t params pool rendered in
  (validate_retrieval_episode e items = Ok () ↔
     bad_reference (sq_task_id params) = false ∧ bad_reference (sq_thread_id params) = false) ∧
  map ri_chunk_id items = ids_of candidates ∧
  ∀ item, item ∈ items → ∀ rank, ri_served_rank item = Some rank ↔
    ∃ i, rank = Z.of_nat i ∧ rendered !! i = Some (ri_chunk_id item).
Proof.
  intros Hpool Hnd Hlen Hk Hfin Hr Hsub Hsha Hjson Hms.
  destruct (pool_shadow _ _ _ _ _ Hpool Hnd) as (shadow & Hsh & Hshnd). destruct (pool_exact _ _ _ _ _ Hpool) as [Hbase _].
  unfold search_episode. rewrite Hbase. set (item := search_item id pool (ranks_of rendered)).
  assert (Hchunks : map ri_chunk_id (imap item candidates) = ids_of candidates) by (by apply map_imap).
  pose proof (served_count (ids_of candidates) rendered Hnd Hr Hsub) as Hcount.
  assert (Hlenr : zlen rendered ≤ 200).
  { etrans; [|exact Hlen]. unfold zlen. rewrite <-Hcount. apply inj_le.
    rewrite <-(length_map (λ c : RankedChunk, mc_chunk_id c.1) candidates). apply sublist_length, List_filter_sublist. }
  split_and!; [|done|].
  - rewrite validate_episode_ok. split; [by intros [(_ & _ & _ & _ & Ht & Hth & _) _ _ _ _ _ _ _]|]. intros [Htask Hthread].
    split; cbn -[zlen].
    + unfold episode_ok. cbn -[zlen]. split_and!; try done; try (by apply Hsha); [apply mode_named|by apply ttl_later|lia|].
      unfold zlen in *. by rewrite length_imap.
    + done.
    + unfold zlen, rendered_count. rewrite <-Hcount. unfold zlen. f_equal.
      rewrite (length_filter_imap _ _ (λ c : RankedChunk, negb (is_none (ranks_of rendered !! mc_chunk_id c.1)))) by done.
      exact (filter_map_length (λ c, negb (is_none (ranks_of rendered !! c))) _ candidates).
    + apply Forall_forall. intros it Hin. apply list_elem_of_lookup_1 in Hin as [i Hi].
      apply list_lookup_imap_Some in Hi as (c & Hc & ->). apply list_elem_of_lookup_2 in Hc.
      rewrite Forall_forall in Hfin. destruct (Hfin c Hc) as [Hf1 Hf2]. unfold item_ok, item, search_item. cbn.
      split_and!; try done; [by apply Hjson..|]. by destruct (ranks_of rendered !! _).
    + by rewrite Hchunks.
    + rewrite (map_imap_index _ _ _) by done. apply NoDup_fmap_2; [apply _|apply NoDup_seq].
    + rewrite (omap_imap _ _ (λ c : RankedChunk, ranks_of rendered !! mc_chunk_id c.1)) by done.
      rewrite <-(omap_map (λ c, ranks_of rendered !! c)). by apply ranks_NoDup.
    + rewrite (omap_imap _ _ (λ c : RankedChunk, op_shadow_ranks pool !! mc_chunk_id c.1)) by done.
      rewrite Hsh, <-(omap_map (λ c, ranks_of shadow !! c)). by apply ranks_NoDup.
  - intros it Hin rank. apply list_elem_of_lookup_1 in Hin as [i Hi]. apply list_lookup_imap_Some in Hi as (c & _ & ->).
    by apply ranks_of_lookup.
Qed.

End episode_facts.

(* ------------------------------------------------------------------ *)
(** ** A search of a tenant with one chunk *)

#[local] Existing Instance dot_segmentation.
#[local] Existing Instance mx_text.
#[local] Existing Instance mx_hasher.
#[local] Instance sx_alnum : AlphaNumeric := { char_is_alphanumeric := ascii_alnum }.
#[local] Instance sx_iso : IsoDatetime := { parse_iso_datetime _ := Err "no date"%string }.

(** The searcher finds a chunk that is gone and an old copy of the one that
    is stored; the listing finds the copy. *)
Definition sx_chunk (n : N) (text : string) : MemoryChunk :=
  mkChunk (ex_id n) ex_tenant None None 5 None Doc Final Raw (mkSource None None None None None None) text [] "" Document.
Definition sx_lanes : Lanes :=
  mkLanes (Ok [mkScope ex_tenant None]) (λ _ _ _, Ok [(sx_chunk 1 "gone", f32_of_Z 3); (sx_chunk 7 "old", f32_of_Z 2)])
    (λ _ _ offset, Ok (if offset =? 0 then [sx_chunk 7 "old note-7"] else [])) (λ _, Ok []) (λ _ _, Ok []).
Definition sx_params : SearchParams :=
  mkSearchParams (TenantId.as_str ex_tenant) "note-7" None 2 None None None None None None None false false None true false None
    None None None None None None false false.

Lemma sx_give : lanes_give (λ chunk, mc_tenant_id chunk = ex_tenant) sx_lanes.
Proof.
  split; cbn.
  - intros _ _ _ l [= <-]. by repeat constructor.
  - intros _ _ offset l [= <-]. destruct (offset =? 0); by repeat constructor.
  - intros _ l [= <-]. constructor.
Qed.

Definition sx_filters : ParsedSearchFilters := mkParsedFilters None None None None.
Definition sx_found : Result OperationError (list RankedChunk * option RepairInfo) :=
  default (Ok ([], None)) (search_filtered sx_lanes sx_params sx_filters [mkScope ex_tenant None]).

(** The copy that the listing found comes first, for the word it holds. *)
Example sx_order :
  search_filtered sx_lanes sx_params sx_filters [mkScope ex_tenant None] = Some sx_found ∧
  ((λ r : list RankedChunk * option RepairInfo, map (λ c : RankedChunk, mc_text c.1) r.1) <$> sx_found)
    = Ok ["old note-7"; "gone"]%string.
Proof. split; vm_compute; reflexivity. Qed.

Example sx_request : search_request (mx_surroundings 0) sx_params = Ok (ex_tenant, sx_filters).
Proof. vm_compute. reflexivity. Qed.

Definition sx_answer : option SearchServed :=
  match spec_search 50 51 sx_lanes sx_params ox_map sx_found with Ok served => Some served | Err _ => None end.
Example sx_served : (λ served, ids_of (ss_chunks served)) <$> sx_answer = Some [ex_id 7].
Proof. vm_compute. reflexivity. Qed.

Lemma memory_search_exact_witness :
  ∃ served s',
    handle_memory_search (mx_surroundings 0) 50 51 sx_lanes sx_params (mkOp (PersistentTenant ex_s1) [])
      = (Ok served, mkOp (PersistentTenant s') []) ∧
    holds ex_tenant s' ox_map ∧ served_well sx_params sx_filters 50 ox_map served ∧ ids_of (ss_chunks served) = [ex_id 7].
Proof.
  destruct (memory_search_exact ex_tenant eq_refl (mx_surroundings 0) 50 51 sx_lanes sx_params ex_s1 [] ox_map sx_filters
              [mkScope ex_tenant None] ox_holds sx_give sx_request eq_refl) as (found & s' & Ef & E & Hh & Hs).
  assert (found = sx_found) as -> by (apply (inj Some); rewrite <-Ef; apply sx_order).
  pose proof sx_served as Hids. unfold sx_answer in Hids.
  destruct (spec_search 50 51 sx_lanes sx_params ox_map sx_found) as [served|e]; [|done].
  apply (inj Some) in Hids.
  exists served, s'. split_and!; [done|done|by apply Hs|done].
Defined.

(** Two candidates, of which the second is rendered. *)
#[local] Instance sx_digest : Sha256 :=
  { sha256_hex _ := "0123456789abcdef0123456789abcdef0123456789abcdef0123456789abcdef"%string }.
#[local] Instance sx_scores : LaneScores := { lane_scores_json _ _ := "{}"%string }.
#[local] Instance sx_json : JsonText := {
  json_text_is_object s := bool_decide (s = "{}"%string);
  json_strings _ := "[]"%string;
  json_strings_parse _ := None;
}.

Definition sx_candidates : list RankedChunk := [(sx_chunk 7 "new", f32_of_Z 2); (sx_chunk 9 "other", f32_of_Z 1)].
Definition sx_pool : OutcomeRankedPool := mkPool sx_candidates sx_candidates ∅ (ranks_of [ex_id 7; ex_id 9]) false.

Lemma search_episode_valid_witness :
  outcome_rank_candidate_pool sx_lanes sx_candidates PolicyShadow 51 = Ok sx_pool ∧
  let '(e, items) := search_episode (mkEpisodeId 1) 60 ex_tenant sx_params sx_pool [ex_id 9] in
  validate_retrieval_episode e items = Ok () ∧ map ri_served_rank items = [None; Some 0].
Proof.
  assert (Hpool : outcome_rank_candidate_pool sx_lanes sx_candidates PolicyShadow 51 = Ok sx_pool)
    by (vm_compute; reflexivity).
  assert (Hids : NoDup (ids_of sx_candidates)) by (apply (bool_decide_unpack _); vm_compute; exact I).
  split; [exact Hpool|].
  pose proof (search_episode_valid sx_lanes sx_candidates 51 (mkEpisodeId 1) 60 ex_tenant sx_params sx_pool [ex_id 9] Hpool Hids)
    as Hvalid.
  assert (Hv : validate_retrieval_episode (search_episode (mkEpisodeId 1) 60 ex_tenant sx_params sx_pool [ex_id 9]).1
             (search_episode (mkEpisodeId 1) 60 ex_tenant sx_params sx_pool [ex_id 9]).2 = Ok ()).
  { apply Hvalid; try done; try lia.
    - by repeat constructor.
    - apply NoDup_singleton.
    - cbn. set_solver. }
  split; [exact Hv|]. vm_compute. reflexivity.
Defined.
